(* ===== verification/_CoqProject ===== *)
-Q . S2P
Prelude.v
Endian.v
Intset.v
Adlist.v
Util.v
Dict.v
DictScan.v
DictIter.v
DictMap.v
Siphash.v
Sds.v
SdsArgs.v
SdsNum.v
SdsBuf.v
SdsBufSpec.v
Network.v
NetworkSpec.v
Skiplist.v
SkiplistSpec.v
Crc.v
Glob.v
Bitops.v
Listpack.v
ListpackSpec.v
Ziplist.v
ZiplistSpec.v
ZiplistEdit.v
ZiplistRead.v
ZiplistPlace.v
Lzf.v
LzfSpec.v
Data.v
State.v
Rio.v
Object.v
Server.v
Db.v
DbSpec.v
Outcome.v
InPlace.v
SampleState.v
KeySpec.v
TString.v
BitCmd.v
TSet.v
THash.v
TSetOp.v
Rdb.v
RdbSpec.v
RdbObject.v
Dump.v
Multi.v
TStringSpec.v
TSetSpec.v
THashSpec.v
THashCmdSpec.v
TSetOpSpec.v
TSetOpCmdSpec.v
RdbObjectSpec.v
DumpSpec.v
BitCmdSpec.v
BitopSpec.v
BitfieldSpec.v
MultiSpec.v
