(* ===== verification/Prelude.v ===== *)
(** * A verification library for the bundled Redis server

    The repository is a small chat application over a full copy of the Redis server,
    version 5.0.2. This library models the core of that server, the C files under
    src/redis/src/redis-5.0.2/src (named without the directory below), and proves the
    properties that make it correct.

    ** The program

    The bytes a client sends are appended to its query buffer and parsed, whatever the sizes
    of the pieces in which they arrive, into a vector of string objects (networking.c). The
    command is executed by [call()] (server.c), or queued when the client is in a
    transaction (multi.c). A command (t_string.c, bitops.c, t_set.c, t_hash.c, db.c, expire.c)
    looks its key up in the dictionary of the client's database, which deletes the key first
    when its expire time has passed (db.c), reads, replaces or changes in place the value, an
    object with a reference count that may be shared between the databases, the argument
    vectors, the queues of transactions and the tables of watched keys (object.c), flags the
    clients that watch the key, notifies and counts the change, and adds its replies. The
    data structures below the commands are hash tables with incremental rehashing (dict.c,
    the hash function in siphash.c), skip lists (t_zset.c), integer sets (intset.c), linked
    lists (adlist.c), strings (sds.c), the compact lists in one block of bytes (ziplist.c,
    listpack.c), a compressor (lzf_c.c, lzf_d.c), and the functions on numbers, patterns, bits
    and checksums (util.c, bitops.c, crc16.c, crc64.c, endianconv.c). The value of a key is
    written to a stream (rio.c) in the format of snapshots and read back from it (rdb.c); DUMP
    and RESTORE (cluster.c) use the format with a version and a checksum.

    ** The files

    Data structures and functions, each a component of its own:
    - Prelude.v: fixed-width integers, lists indexed by [Z], the tactics and the hint
      databases of the library;
    - Endian.v (endianconv.c), the byte order of the host being a class [Host];
    - Intset.v (intset.c): the blob of bytes and its three encodings; [rep] relates a blob
      to the increasing list of its elements;
    - Adlist.v (adlist.c): nodes in a heap with both pointers, iterators included;
    - Util.v (ll2string, string2ll and string2l of util.c);
    - Dict.v (dict.c): the two tables, the steps of the incremental rehash and every
      operation that performs one; DictScan.v: the stateless iteration dictScan; DictIter.v:
      the safe and unsafe iterators; DictMap.v: a dictionary as a finite map;
    - Siphash.v (siphash.c): the two hash functions of dictionaries;
    - Sds.v (sdscmp of sds.c), SdsBuf.v and SdsBufSpec.v (the five headers, the growth and the
      editing of strings in their blocks), SdsArgs.v (sdssplitargs and sdscatrepr), SdsNum.v
      (sdsfromlonglong);
    - Network.v and NetworkSpec.v (the query buffer and both protocols of networking.c);
    - Skiplist.v and SkiplistSpec.v (the zsl functions of t_zset.c): nodes in a heap with
      their levels and spans, and the sorted sequence they represent. The comparison of
      scores is a class [Score] with its laws [ScoreLaws];
    - Crc.v (crc16.c, crc64.c, keyHashSlot of cluster.c);
    - Glob.v (stringmatchlen of util.c);
    - Bitops.v (redisPopcount, redisBitpos and the bit fields of bitops.c);
    - Listpack.v and ListpackSpec.v (listpack.c); Ziplist.v, ZiplistSpec.v, ZiplistEdit.v,
      ZiplistRead.v and ZiplistPlace.v (ziplist.c): entries in one block of bytes, insertion
      and deletion with the cascade of updates of the lengths that precede the entries;
    - Lzf.v and LzfSpec.v (lzf_c.c, lzf_d.c).

    The server, on a shared state:
    - Data.v: the values of the types set and hash, which an object holds;
    - State.v: the state monad with failure in which the commands are written;
    - Object.v (object.c): objects, encodings and reference counts in a heap; [store_ok] is
      the invariant of exact reference counting;
    - Server.v (server.h): clients, replies, the clock, the recorded notifications;
    - Db.v (db.c, expire.c, lazyfree.c): lookup with lazy expiration, writes and deletions of
      the key space, and the commands DEL, UNLINK, EXISTS, SELECT, TYPE, RENAME, MOVE,
      SWAPDB, EXPIRE, TTL, PERSIST and TOUCH;
    - TString.v (t_string.c): SET, GET, GETSET, SETRANGE, GETRANGE, MGET, MSET, INCR, DECR,
      APPEND and STRLEN;
    - BitCmd.v (the commands of bitops.c): SETBIT, GETBIT, BITCOUNT, BITPOS, BITOP, BITFIELD;
    - TSet.v and TSetOp.v (t_set.c): the set type over integer sets and hash tables; SADD, SREM,
      SMOVE, SISMEMBER and SCARD; SINTER (also SMEMBERS), SUNION, SDIFF and their STORE forms;
    - THash.v (t_hash.c): the hash type over ziplists and hash tables; HSET, HMSET, HSETNX,
      HGET, HMGET, HDEL, HLEN, HSTRLEN, HKEYS, HVALS, HGETALL, HEXISTS and HINCRBY;
    - Rio.v (rio.h, rio.c): a stream over a class of backends [Backend], with the checksum of
      what passed; the class [Source] states what a reader relies on, and the buffer in
      memory is an instance of both;
    - Rdb.v and RdbObject.v (rdb.c): lengths, times, strings and objects of the snapshot
      format, saved to and loaded from a stream;
    - Dump.v (cluster.c): DUMP and RESTORE;
    - Multi.v (multi.c, [call()] of server.c): MULTI, EXEC, DISCARD, WATCH and UNWATCH, and the
      dispatch on the commands above;
    - DbSpec.v, Outcome.v, InPlace.v, KeySpec.v, TStringSpec.v, TSetSpec.v, THashSpec.v,
      THashCmdSpec.v, TSetOpSpec.v, TSetOpCmdSpec.v, RdbSpec.v, RdbObjectSpec.v, DumpSpec.v,
      BitCmdSpec.v, BitopSpec.v, BitfieldSpec.v and MultiSpec.v: the specifications of these
      functions, from the key space up to the commands;
    - SampleState.v: a concrete state of the server, on which the theorems are applied.

    A function of the model is [None] where the C function fails an assertion, reads
    outside of an area, dereferences a pointer that is not in the heap or overflows a
    signed type where that is undefined; a theorem that states a result [Some] excludes
    these.

    ** What is proved

    - Data structures: [dictAdd], [dictDelete], the range functions of skip lists,
      [intsetAdd] and the others refine operations on a finite map, on a sorted sequence and
      on a sorted list, whatever the state of the rehash, the heights of the nodes and
      the encoding. A scan returns every key that is present from its start to its end, however
      the table is resized between the calls, and ends after [2 ^ k] calls on tables of at most
      [2 ^ k] buckets. An iterator visits every entry once while the entries it has returned are
      deleted. A rehash completes; a release calls the destructors on every entry once.
    - Blocks of bytes: the edits of strings, listpacks and ziplists refine the edits of lists
      and stay in their blocks, the cascading updates of a ziplist included; what an
      encoding writes its decoder reads back.
    - Input and compression: the parser of the protocol returns the commands that were written,
      however the bytes are split, up to a command after which the client is closed; the decompressor stays in its areas on every input
      and inverts the compressor; a quoted representation splits back into its string.
    - Bits and bytes: counting, searching, reading and writing of bit fields are the
      operations on the list of bits; the checks of BITFIELD are exact on fields of at most
      63 bits; checksums are the division of polynomials; patterns without brackets, and without
      zero bytes, are matched as the relation [glob] states.
    - Commands: for each of SET, APPEND, INCR, SETRANGE, GET, GETRANGE, RENAME, DEL, EXPIRE, the
      bit commands, SADD, SREM, SISMEMBER, SCARD, HSET, HDEL, HGET, HGETALL and HINCRBY
      the outcome on every branch, errors included: the value and the expire time of
      the keys, the replies, the change of [server.dirty], whether the clients that
      watch the key are flagged, and that reference counts stay exact. A set is a finite set
      and a hash a finite map of strings, whatever the encoding and its conversions. SINTER,
      SUNION and SDIFF compute the operations on finite sets, whatever the order of the sets
      by size, the algorithm that is chosen and the keys that are named twice.
    - Snapshot format: a string, a set or a hash in any encoding that is saved is loaded with
      the same value, by a process with another byte order, hash seed and limits of the
      encodings, reading exactly the bytes that were written, to and from any backend. DUMP
      replies with a payload of the value; RESTORE binds a key to the value of a payload, and
      refuses one of which a byte was changed.
    - Transactions: WATCH, outside of MULTI, keeps the tables of clients and databases in agreement;
      a key that is touched flags the clients that watch it, and EXEC of a flagged client runs
      nothing, unwatches, empties the queue and releases every reference it held. It replies with
      nil, or with EXECABORT when a command could not be queued.
    - Defects: where the code has no defined result, some theorems state that the model has none.

    ** Bounds and fuel

    Loops that are not structural take fuel, and the theorems state that the fuel the
    functions pass is enough: the theorems give a result and not only a property of
    results. Machine integers are [Z] with the conversions written out ([wrapu], [wraps]);
    [long] and [size_t] have 64 bits. Sizes are bounded where the code relies on it, by the
    512 MB of a string value, by [2 ^ 63] bytes of an allocation, by [2 ^ 31] bytes of a
    ziplist (its offsets are 32-bit), by [2 ^ 29] elements of an integer set, by [2 ^ 32] nodes of a
    skip list (the ranks of an insertion are 32-bit) and by [2 ^ 31]
    bytes of a string in a snapshot ([rdbWriteRaw] returns an [int]); a set that is saved has
    fewer than [2 ^ 27] elements and a hash is saved with fewer than [2 ^ 31] bytes ([value_fits]). Times are such that the arithmetic
    of the code does not overflow: [when_ok] and [times_ok] for EXPIRE and SET, and the same for the time
    to live of RESTORE. DEL, BITOP, SINTER, SUNION and SDIFF are specified for a clock under which none of the keys
    they name expires while they run ([steady]). Of BITFIELD, signed fields have at most 63 bits, and
    the values stay away from the ends of the 64-bit range so that the sums and
    differences of the code do not overflow ([op_safe]). A command that
    changes a value in place is specified for a value that only its key refers to, which is
    what the server maintains. Written numbers exclude the least 64-bit integer where the
    code negates it.

    ** Not modelled

    Values of the types list, sorted set and stream are opaque payloads of an object: their
    commands and encodings (quicklist.c, rax.c, t_list.c, t_stream.c, the commands of
    t_zset.c) are not modelled. Of the sets, SPOP and SRANDMEMBER (random choice) and
    SSCAN are not; of the hashes, HINCRBYFLOAT (long double) and HSCAN are not.
    INCRBYFLOAT and the float conversions compute with long double. BITCOUNT and BITPOS are
    modelled on their own but are not in the table of commands of a transaction, since
    their model takes the alignment of the value's address. Of the snapshot format, the
    other types, modules and the formats of older versions are not modelled, nor are the
    files and sockets below a stream and the append only file. Event loop, sockets,
    replication, cluster, sentinel, scripting, modules, eviction and the command
    line tools are I/O or protocols between processes. Keys of the dictionary are a finite
    map in Db.v, so RANDOMKEY, KEYS and SCAN, whose results depend on the order of the
    table, are not modelled there.

    ** Continuation

    The commands of t_zset.c over the skip lists, then the lists over quicklist.c. *)

From stdpp Require Export base list option list_numbers sets gmap sorting.
From Stdlib Require Export ZArith Lia.

#[global] Set Default Goal Selector "!".
#[export] Set Warnings "-clear-no-such-hyp".

Open Scope Z_scope.

(** ** Automation shared by the components *)

Create HintDb redis discriminated.
Create Rewrite HintDb zlen.

(** [inv_opt] peels the binds and guards of a computation in the option
    monad that is known to return a value. *)
Ltac inv_opt :=
  repeat match goal with
  | H : Some _ = Some _ |- _ => injection H; clear H; intros; subst
  | H : None = Some _ |- _ => discriminate H
  | H : mbind _ ?o = Some _ |- _ =>
      let E := fresh "E" in destruct o eqn:E; simpl in H
  end.

(** [zcmp] splits on the integer comparisons of the goal. *)
Ltac zcmp :=
  rewrite ?Z.gtb_ltb, ?Z.geb_leb;
  repeat match goal with
  | |- context [ ?a <? ?b ] => destruct (Z.ltb_spec a b); simpl
  | |- context [ ?a <=? ?b ] => destruct (Z.leb_spec a b); simpl
  | |- context [ ?a =? ?b ] => destruct (Z.eqb_spec a b); simpl
  end.

(** [zbool] turns the boolean comparisons of the code into propositions. *)
Ltac zbool :=
  repeat match goal with
  | H : (_ <? _) = true |- _ => apply Z.ltb_lt in H
  | H : (_ <? _) = false |- _ => apply Z.ltb_ge in H
  | H : (_ <=? _) = true |- _ => apply Z.leb_le in H
  | H : (_ <=? _) = false |- _ => apply Z.leb_gt in H
  | H : (_ =? _) = true |- _ => apply Z.eqb_eq in H
  | H : (_ =? _) = false |- _ => apply Z.eqb_neq in H
  | H : (_ >? _) = true |- _ => rewrite Z.gtb_ltb in H
  | H : (_ >? _) = false |- _ => rewrite Z.gtb_ltb in H
  | H : (_ >=? _) = true |- _ => rewrite Z.geb_leb in H
  | H : (_ >=? _) = false |- _ => rewrite Z.geb_leb in H
  | H : (_ && _) = true |- _ => apply andb_true_iff in H as [? ?]
  | H : (_ || _) = false |- _ => apply orb_false_iff in H as [? ?]
  | H : negb _ = true |- _ => apply negb_true_iff in H
  | H : negb _ = false |- _ => apply negb_false_iff in H
  end.

(** [case_if] splits on the test of the first conditional of the goal. *)
Ltac case_if :=
  match goal with
  | |- context [ if ?b then _ else _ ] =>
      let E := fresh "Hif" in destruct b eqn:E; zbool
  end.

(** ** Fixed-width integers

    A C integer is a [Z]; the conversions C performs are written out. [wrapu w]
    is the conversion to an unsigned type of [w] bits, [wraps w] the conversion
    to a two's-complement signed type of [w] bits. *)

Definition wrapu (w z : Z) : Z := z mod 2 ^ w.
Definition wraps (w z : Z) : Z := (z + 2 ^ (w - 1)) mod 2 ^ w - 2 ^ (w - 1).

Definition in_u (w z : Z) : Prop := 0 <= z < 2 ^ w.
Definition in_s (w z : Z) : Prop := - 2 ^ (w - 1) <= z < 2 ^ (w - 1).

#[global] Instance in_u_dec w z : Decision (in_u w z).
Proof. unfold in_u. apply _. Defined.
#[global] Instance in_s_dec w z : Decision (in_s w z).
Proof. unfold in_s. apply _. Defined.

Lemma pow2_pos w : 0 <= w -> 0 < 2 ^ w.
Proof. intros. apply Z.pow_pos_nonneg; lia. Qed.

Lemma pow2_half w : 0 < w -> 2 ^ w = 2 * 2 ^ (w - 1).
Proof. intros. rewrite <- Z.pow_succ_r by lia. f_equal; lia. Qed.

Lemma wrapu_small w z : in_u w z -> wrapu w z = z.
Proof. intros. apply Z.mod_small. exact H. Qed.

Lemma wrapu_range w z : 0 <= w -> in_u w (wrapu w z).
Proof. intros. apply Z.mod_pos_bound, pow2_pos; lia. Qed.

Lemma wrapu_idem w z : wrapu w (wrapu w z) = wrapu w z.
Proof. unfold wrapu. apply Zmod_mod. Qed.

Lemma wraps_small w z : 0 < w -> in_s w z -> wraps w z = z.
Proof.
  intros Hw [H1 H2]. unfold wraps.
  pose proof (pow2_half w Hw). rewrite Z.mod_small by lia. lia.
Qed.

Lemma wraps_range w z : 0 < w -> in_s w (wraps w z).
Proof.
  intros Hw. unfold in_s, wraps.
  pose proof (pow2_half w Hw).
  pose proof (Z.mod_pos_bound (z + 2 ^ (w - 1)) (2 ^ w) ltac:(apply pow2_pos; lia)).
  lia.
Qed.

Lemma wraps_wrapu w z : wraps w (wrapu w z) = wraps w z.
Proof. unfold wraps, wrapu. rewrite Zplus_mod_idemp_l. reflexivity. Qed.

Lemma wrapu_wraps w z : wrapu w (wraps w z) = wrapu w z.
Proof.
  unfold wraps, wrapu. rewrite Zminus_mod_idemp_l. f_equal. lia.
Qed.

Lemma wrapu_testbit w z i : 0 <= w -> 0 <= i -> Z.testbit (wrapu w z) i = Z.testbit z i && (i <? w).
Proof.
  intros Hw Hi. unfold wrapu. destruct (Z.ltb_spec i w).
  - by rewrite Z.mod_pow2_bits_low, andb_true_r by lia.
  - by rewrite Z.mod_pow2_bits_high, andb_false_r by lia.
Qed.

Lemma in_u_testbit w v i : in_u w v -> w <= i -> Z.testbit v i = false.
Proof.
  intros Hv Hi. destruct (Z.lt_ge_cases i 0); [by apply Z.testbit_neg_r|].
  rewrite <- (wrapu_small w v Hv). unfold wrapu. destruct (Z.lt_ge_cases w 0).
  - rewrite Z.pow_neg_r, Z.mod_0_r by lia. unfold in_u in Hv. rewrite Z.pow_neg_r in Hv by lia. lia.
  - apply Z.mod_pow2_bits_high. lia.
Qed.

Lemma testbit_in_u w v : 0 <= w -> 0 <= v -> (forall i, w <= i -> Z.testbit v i = false) -> in_u w v.
Proof.
  intros Hw Hv Hb. assert (v = wrapu w v) as ->; [|by apply wrapu_range].
  apply Z.bits_inj'. intros i Hi. rewrite wrapu_testbit by lia.
  destruct (Z.ltb_spec i w); [by rewrite andb_true_r|]. rewrite andb_false_r. apply Hb. lia.
Qed.

#[export] Hint Resolve wrapu_range wraps_range pow2_pos : redis.

(** ** Lists measured in [Z] *)

Definition zlen {A} (l : list A) : Z := Z.of_nat (length l).

#[global] Arguments zlen {A} l : simpl never.

Lemma zlen_nil {A} : zlen (@nil A) = 0.
Proof. reflexivity. Qed.
Lemma zlen_cons {A} (x : A) l : zlen (x :: l) = zlen l + 1.
Proof. unfold zlen. simpl. lia. Qed.
Lemma zlen_app {A} (l k : list A) : zlen (l ++ k) = zlen l + zlen k.
Proof. unfold zlen. rewrite length_app. lia. Qed.
Lemma zlen_nonneg {A} (l : list A) : 0 <= zlen l.
Proof. unfold zlen. lia. Qed.
Lemma zlen_0_inv {A} (l : list A) : zlen l = 0 -> l = [].
Proof. destruct l; [done|]. rewrite zlen_cons. pose proof (zlen_nonneg l). lia. Qed.

#[export] Hint Rewrite @zlen_nil @zlen_cons @zlen_app : zlen.
#[export] Hint Resolve zlen_nonneg : redis.

(** A list of [n + m] elements splits after the [n]-th. *)
Lemma split_at {A} (l : list A) n :
  0 <= n <= zlen l -> exists a b, l = a ++ b /\ zlen a = n.
Proof.
  intros H. exists (take (Z.to_nat n) l), (drop (Z.to_nat n) l). split.
  - by rewrite take_drop.
  - unfold zlen in *. rewrite length_take. lia.
Qed.

Lemma take_zlen_app {A} (a b : list A) n : zlen a = n -> take (Z.to_nat n) (a ++ b) = a.
Proof. intros <-. unfold zlen. rewrite Nat2Z.id. apply take_app_length. Qed.

Lemma drop_zlen_app {A} (a b : list A) n : zlen a = n -> drop (Z.to_nat n) (a ++ b) = b.
Proof. intros <-. unfold zlen. rewrite Nat2Z.id. apply drop_app_length. Qed.

(** [zidx l i] is the C array access [l[i]]: undefined out of range. *)
Definition zidx {A} (l : list A) (i : Z) : option A :=
  if 0 <=? i then l !! Z.to_nat i else None.

Lemma zidx_app {A} (a : list A) x b i : zlen a = i -> zidx (a ++ x :: b) i = Some x.
Proof.
  intros <-. unfold zidx, zlen. rewrite (proj2 (Z.leb_le _ _)) by lia.
  rewrite Nat2Z.id. by apply list_lookup_middle.
Qed.

Lemma zidx_Some_split {A} (l : list A) i x :
  zidx l i = Some x -> exists a b, l = a ++ x :: b /\ zlen a = i.
Proof.
  unfold zidx. case_if; [|done]. intros H%list_elem_of_split_length.
  destruct H as (a & b & -> & H). exists a, b. split; [done|]. unfold zlen. lia.
Qed.

Lemma zidx_is_Some {A} (l : list A) i : 0 <= i < zlen l -> is_Some (zidx l i).
Proof.
  intros H. unfold zidx, zlen in *. rewrite (proj2 (Z.leb_le _ _)) by lia.
  apply lookup_lt_is_Some. lia.
Qed.

Lemma zidx_range {A} (l : list A) i x : zidx l i = Some x -> 0 <= i < zlen l.
Proof.
  unfold zidx, zlen. case_if; [|done]. intros H%lookup_lt_Some. lia.
Qed.

Lemma zidx_elem_of {A} (l : list A) i x : zidx l i = Some x -> x ∈ l.
Proof. intros (a & b & -> & _)%zidx_Some_split. set_solver. Qed.

(** A check of a property of all bytes by evaluation. *)
Lemma byte_check (P : Z -> bool) b : forallb P (seqZ 0 256) = true -> in_u 8 b -> P b = true.
Proof.
  intros HP Hb. rewrite forallb_forall in HP. apply HP, list_elem_of_In, elem_of_seqZ. unfold in_u in Hb. lia.
Qed.

Lemma lor_shift x b n : 0 <= n -> in_u n b -> Z.lor (Z.shiftl x n) b = x * 2 ^ n + b.
Proof.
  intros Hn Hb. rewrite <- Z.add_nocarry_lor, Z.shiftl_mul_pow2; [done|done|].
  apply Z.bits_inj'. intros i Hi. rewrite Z.land_spec, Z.bits_0.
  destruct (Z.lt_ge_cases i n).
  - by rewrite Z.shiftl_spec_low.
  - by rewrite (in_u_testbit n b), andb_false_r.
Qed.

Lemma land_255 x : Z.land x 255 = x mod 256.
Proof. apply (Z.land_ones x 8). lia. Qed.

(** A check of a property of small numbers by evaluation. *)
Lemma small_check (P : Z -> bool) (n k : Z) : forallb P (seqZ 0 n) = true -> 0 <= k < n -> P k = true.
Proof.
  intros HP Hk. rewrite forallb_forall in HP. apply HP, list_elem_of_In, elem_of_seqZ. lia.
Qed.

Lemma zidx_at {A} (P l : list A) p j : zlen P = p -> 0 <= j -> zidx (P ++ l) (p + j) = zidx l j.
Proof.
  intros <- Hj. unfold zidx, zlen. rewrite !(proj2 (Z.leb_le _ _)) by lia.
  rewrite lookup_app_r by lia. f_equal. lia.
Qed.

Lemma zidx_here {A} (P l : list A) p : zlen P = p -> zidx (P ++ l) p = l !! 0%nat.
Proof. intros HP. rewrite <- (Z.add_0_r p) at 1. by rewrite (zidx_at P l p 0). Qed.

(** ** Byte buffers

    An allocation is the list of its bytes. A read or a write that leaves the
    allocation is undefined behaviour in C and [None] here, so that a theorem
    that an operation returns [Some] is a memory-safety theorem. *)

Definition byte_ok (b : Z) : Prop := 0 <= b < 256.
Abbreviation bytes_ok := (Forall byte_ok).

Definition rd (buf : list Z) (off n : Z) : option (list Z) :=
  if (0 <=? off) && (0 <=? n) && (off + n <=? zlen buf)
  then Some (take (Z.to_nat n) (drop (Z.to_nat off) buf)) else None.

Definition wr (buf : list Z) (off : Z) (bs : list Z) : option (list Z) :=
  if (0 <=? off) && (off + zlen bs <=? zlen buf)
  then Some (take (Z.to_nat off) buf ++ bs ++ drop (Z.to_nat (off + zlen bs)) buf)
  else None.

(** [memmove(buf+dst, buf+src, n)]. *)
Definition memmove (buf : list Z) (dst src n : Z) : option (list Z) :=
  bs ← rd buf src n; wr buf dst bs.

(** [zrealloc(p, size)]: the first bytes are kept, the new ones are whatever
    the allocator returns, here the function [junk]. *)
Definition realloc (junk : nat -> Z) (buf : list Z) (size : Z) : list Z :=
  take (Z.to_nat size) buf ++ (junk <$> seq (length buf) (Z.to_nat size - length buf)).

Lemma rd_app a b c off n :
  zlen a = off -> zlen b = n -> rd (a ++ b ++ c) off n = Some b.
Proof.
  intros Ha Hb. unfold rd.
  pose proof (zlen_nonneg a). pose proof (zlen_nonneg b). pose proof (zlen_nonneg c).
  rewrite !zlen_app, (drop_zlen_app a), (take_zlen_app b) by done.
  repeat (rewrite (proj2 (Z.leb_le _ _)) by lia). done.
Qed.

Lemma rd_front b c n : zlen b = n -> rd (b ++ c) 0 n = Some b.
Proof. by apply (rd_app [] b c). Qed.

Lemma wr_app a b b' c off :
  zlen a = off -> zlen b' = zlen b -> wr (a ++ b ++ c) off b' = Some (a ++ b' ++ c).
Proof.
  intros Ha Hb. unfold wr.
  pose proof (zlen_nonneg a). pose proof (zlen_nonneg b). pose proof (zlen_nonneg c).
  rewrite !zlen_app, (take_zlen_app a) by done.
  rewrite (app_assoc a b c), (drop_zlen_app (a ++ b)) by (rewrite zlen_app; lia).
  repeat (rewrite (proj2 (Z.leb_le _ _)) by lia). done.
Qed.

Lemma wr_front b b' c : zlen b' = zlen b -> wr (b ++ c) 0 b' = Some (b' ++ c).
Proof. by apply (wr_app [] b). Qed.

Lemma realloc_grow junk buf size :
  zlen buf <= size ->
  exists fresh, realloc junk buf size = buf ++ fresh /\ zlen fresh = size - zlen buf.
Proof.
  intros H. unfold realloc, zlen in *. rewrite take_ge by lia. eexists. split; [done|].
  rewrite length_fmap, length_seq. lia.
Qed.

Lemma realloc_shrink junk a b : realloc junk (a ++ b) (zlen a) = a.
Proof.
  unfold realloc. rewrite (take_zlen_app a) by done. unfold zlen.
  rewrite Nat2Z.id, length_app.
  replace (_ - _)%nat with 0%nat by lia. by rewrite app_nil_r.
Qed.

(** Little-endian encoding of an integer on [n] bytes. *)
Fixpoint le_encode (n : nat) (z : Z) : list Z :=
  match n with
  | O => []
  | S n => z mod 256 :: le_encode n (z / 256)
  end.

Fixpoint le_decode (bs : list Z) : Z :=
  match bs with
  | [] => 0
  | b :: bs => b + 256 * le_decode bs
  end.

Lemma length_le_encode n z : length (le_encode n z) = n.
Proof. revert z. induction n; simpl; auto. Qed.

Lemma zlen_le_encode n z : zlen (le_encode n z) = Z.of_nat n.
Proof. unfold zlen. by rewrite length_le_encode. Qed.

Lemma le_encode_bytes n z : bytes_ok (le_encode n z).
Proof.
  revert z. induction n; simpl; constructor; auto. apply Z.mod_pos_bound. lia.
Qed.

Lemma le_decode_encode n z : le_decode (le_encode n z) = z mod 2 ^ (8 * Z.of_nat n).
Proof.
  revert z. induction n as [|n IH]; intros z.
  - simpl. by rewrite Z.mod_1_r.
  - cbn [le_encode le_decode]. rewrite IH.
    replace (8 * Z.of_nat (S n)) with (8 + 8 * Z.of_nat n) by lia.
    rewrite Z.pow_add_r by lia. change (2 ^ 8) with 256.
    rewrite Z.rem_mul_r by lia. lia.
Qed.

Lemma le_decode_range bs : bytes_ok bs -> 0 <= le_decode bs < 2 ^ (8 * zlen bs).
Proof.
  induction 1 as [|b bs Hb _ IH]; [done|]. cbn [le_decode].
  rewrite zlen_cons. replace (8 * (zlen bs + 1)) with (8 + 8 * zlen bs) by lia.
  pose proof (zlen_nonneg bs). rewrite Z.pow_add_r by lia. change (2 ^ 8) with 256.
  unfold byte_ok in Hb. nia.
Qed.

Lemma le_encode_decode bs : bytes_ok bs -> le_encode (length bs) (le_decode bs) = bs.
Proof.
  induction 1 as [|b bs Hb _ IH]; [done|]. simpl. unfold byte_ok in Hb. f_equal.
  - rewrite Z.mul_comm, Z_mod_plus_full. apply Z.mod_small. lia.
  - rewrite Z.mul_comm, Z.div_add, Z.div_small, Z.add_0_l by lia. exact IH.
Qed.

#[export] Hint Rewrite zlen_le_encode : zlen.
#[export] Hint Resolve le_encode_bytes : redis.

(** [zl] normalises lengths of buffers, then calls [lia]. *)
Ltac zl := autorewrite with zlen in *; try lia.

(** ** Strictly increasing lists of integers *)

Abbreviation increasing := (StronglySorted Z.lt).

Lemma increasing_middle_inv a x b :
  increasing (a ++ x :: b) ->
  increasing a /\ increasing b /\ Forall (fun y => y < x) a /\ Forall (fun y => x < y) b.
Proof.
  rewrite StronglySorted_app, StronglySorted_cons, !Forall_forall. set_solver.
Qed.

Lemma increasing_middle a x b :
  increasing a -> increasing b ->
  Forall (fun y => y < x) a -> Forall (fun y => x < y) b -> increasing (a ++ x :: b).
Proof.
  rewrite StronglySorted_app, StronglySorted_cons, !Forall_forall.
  intros ? ? Ha Hb. split_and!; auto.
  intros y z Hy [->|Hz]%elem_of_cons; [auto|].
  specialize (Ha _ Hy). specialize (Hb _ Hz). lia.
Qed.

Lemma increasing_remove_middle a x b : increasing (a ++ x :: b) -> increasing (a ++ b).
Proof.
  rewrite !StronglySorted_app, StronglySorted_cons. set_solver.
Qed.

Lemma increasing_NoDup l : increasing l -> NoDup l.
Proof.
  induction 1 as [|x l _ IH Hx]; constructor; [|done].
  intros Hin. rewrite Forall_forall in Hx. specialize (Hx _ Hin). lia.
Qed.
