(* ===== verification/Endian.v ===== *)
(** * Byte-order conversion (endianconv.c, endianconv.h)

    The host's byte order is a class parameter [Host]; the conditional macros of
    endianconv.h choose on it. An integer in memory is the list of its bytes in
    host order ([host_bytes]), a pointer to it the buffer it lives in. *)

From S2P Require Import Prelude.

(** The value of [BYTE_ORDER == BIG_ENDIAN] on the host. *)
Class Host := big_endian : bool.

(** The bytes of an [n]-byte integer in the memory of the host, and the unsigned
    integer that given bytes of memory hold. *)
Definition host_bytes `{Host} (n : nat) (v : Z) : list Z :=
  if big_endian then reverse (le_encode n v) else le_encode n v.

Definition host_uint `{Host} (bs : list Z) : Z :=
  le_decode (if big_endian then reverse bs else bs).

(** [t = x[i]; x[i] = x[j]; x[j] = t]. *)
Definition swap_bytes (i j : nat) (x : list Z) : option (list Z) :=
  t ← x !! i; u ← x !! j; Some (<[j := t]> (<[i := u]> x)).

Definition memrev16 (x : list Z) : option (list Z) := swap_bytes 0 1 x.

Definition memrev32 (x : list Z) : option (list Z) :=
  x ← swap_bytes 0 3 x; swap_bytes 1 2 x.

Definition memrev64 (x : list Z) : option (list Z) :=
  x ← swap_bytes 0 7 x; x ← swap_bytes 1 6 x; x ← swap_bytes 2 5 x; swap_bytes 3 4 x.

(** [intrevN(v)]: the reversal applied to the memory of the argument. *)
Definition intrev16 `{Host} (v : Z) : Z :=
  from_option host_uint 0 (memrev16 (host_bytes 2 v)).
Definition intrev32 `{Host} (v : Z) : Z :=
  from_option host_uint 0 (memrev32 (host_bytes 4 v)).
Definition intrev64 `{Host} (v : Z) : Z :=
  from_option host_uint 0 (memrev64 (host_bytes 8 v)).

Definition memrev16ifbe `{Host} (x : list Z) : option (list Z) :=
  if big_endian then memrev16 x else Some x.
Definition memrev32ifbe `{Host} (x : list Z) : option (list Z) :=
  if big_endian then memrev32 x else Some x.
Definition memrev64ifbe `{Host} (x : list Z) : option (list Z) :=
  if big_endian then memrev64 x else Some x.
Definition intrev16ifbe `{Host} (v : Z) : Z := if big_endian then intrev16 v else v.
Definition intrev32ifbe `{Host} (v : Z) : Z := if big_endian then intrev32 v else v.
Definition intrev64ifbe `{Host} (v : Z) : Z := if big_endian then intrev64 v else v.

Definition htonu64 `{Host} (v : Z) : Z := if big_endian then v else intrev64 v.
Definition ntohu64 `{Host} (v : Z) : Z := if big_endian then v else intrev64 v.

(** ** The swaps reverse the bytes *)

Ltac explode_list l :=
  repeat (destruct l as [|? l]; [discriminate|]; simpl in *);
  destruct l; [|discriminate].

Lemma memrev16_reverse x : length x = 2%nat -> memrev16 x = Some (reverse x).
Proof. intros. explode_list x. reflexivity. Qed.

Lemma memrev32_reverse x : length x = 4%nat -> memrev32 x = Some (reverse x).
Proof. intros. explode_list x. reflexivity. Qed.

Lemma memrev64_reverse x : length x = 8%nat -> memrev64 x = Some (reverse x).
Proof. intros. explode_list x. reflexivity. Qed.

Section host.
Context `{Host}.

Lemma length_host_bytes n v : length (host_bytes n v) = n.
Proof. unfold host_bytes. destruct big_endian; rewrite ?length_reverse; apply length_le_encode. Qed.

Lemma zlen_host_bytes n v : zlen (host_bytes n v) = Z.of_nat n.
Proof. unfold zlen. by rewrite length_host_bytes. Qed.

Lemma host_uint_bytes n v : host_uint (host_bytes n v) = v mod 2 ^ (8 * Z.of_nat n).
Proof.
  unfold host_uint, host_bytes. destruct big_endian; rewrite ?reverse_involutive;
    apply le_decode_encode.
Qed.

Lemma host_uint_reverse_bytes n v :
  host_uint (reverse (host_bytes n v)) = le_decode (reverse (le_encode n v)).
Proof.
  unfold host_uint, host_bytes. destruct big_endian; by rewrite ?reverse_involutive.
Qed.

Lemma host_bytes_uint bs : bytes_ok bs -> host_bytes (length bs) (host_uint bs) = bs.
Proof.
  intros Hbs. unfold host_uint, host_bytes. destruct big_endian.
  - rewrite <- (length_reverse bs), le_encode_decode, reverse_involutive; [done|].
    by rewrite Forall_reverse.
  - by apply le_encode_decode.
Qed.

Lemma host_bytes_ok n v : bytes_ok (host_bytes n v).
Proof.
  unfold host_bytes. destruct big_endian; [rewrite Forall_reverse|]; auto with redis.
Qed.

(** Storing in host order and calling the [ifbe] macro leaves the
    little-endian bytes, on both kinds of host. *)
Lemma memrev16ifbe_host v : memrev16ifbe (host_bytes 2 v) = Some (le_encode 2 v).
Proof.
  unfold memrev16ifbe. destruct big_endian eqn:E; unfold host_bytes; rewrite E; [|done].
  rewrite memrev16_reverse, reverse_involutive; [done|]. by rewrite length_reverse.
Qed.
Lemma memrev32ifbe_host v : memrev32ifbe (host_bytes 4 v) = Some (le_encode 4 v).
Proof.
  unfold memrev32ifbe. destruct big_endian eqn:E; unfold host_bytes; rewrite E; [|done].
  rewrite memrev32_reverse, reverse_involutive; [done|]. by rewrite length_reverse.
Qed.
Lemma memrev64ifbe_host v : memrev64ifbe (host_bytes 8 v) = Some (le_encode 8 v).
Proof.
  unfold memrev64ifbe. destruct big_endian eqn:E; unfold host_bytes; rewrite E; [|done].
  rewrite memrev64_reverse, reverse_involutive; [done|]. by rewrite length_reverse.
Qed.

(** The converse: the [ifbe] macro on little-endian bytes gives the host's. *)
Lemma memrev16ifbe_le v : memrev16ifbe (le_encode 2 v) = Some (host_bytes 2 v).
Proof. unfold memrev16ifbe, host_bytes. destruct big_endian; [by rewrite memrev16_reverse|done]. Qed.
Lemma memrev32ifbe_le v : memrev32ifbe (le_encode 4 v) = Some (host_bytes 4 v).
Proof. unfold memrev32ifbe, host_bytes. destruct big_endian; [by rewrite memrev32_reverse|done]. Qed.
Lemma memrev64ifbe_le v : memrev64ifbe (le_encode 8 v) = Some (host_bytes 8 v).
Proof. unfold memrev64ifbe, host_bytes. destruct big_endian; [by rewrite memrev64_reverse|done]. Qed.

Lemma intrev64_eq v : intrev64 v = le_decode (reverse (le_encode 8 v)).
Proof.
  unfold intrev64. rewrite memrev64_reverse by apply length_host_bytes.
  apply host_uint_reverse_bytes.
Qed.
Lemma intrev32_eq v : intrev32 v = le_decode (reverse (le_encode 4 v)).
Proof.
  unfold intrev32. rewrite memrev32_reverse by apply length_host_bytes.
  apply host_uint_reverse_bytes.
Qed.
Lemma intrev16_eq v : intrev16 v = le_decode (reverse (le_encode 2 v)).
Proof.
  unfold intrev16. rewrite memrev16_reverse by apply length_host_bytes.
  apply host_uint_reverse_bytes.
Qed.

Lemma rev_decode_involutive n v :
  0 <= v < 2 ^ (8 * Z.of_nat n) ->
  le_decode (reverse (le_encode n (le_decode (reverse (le_encode n v))))) = v.
Proof.
  intros Hv. set (bs := reverse (le_encode n v)).
  assert (bytes_ok bs) by (unfold bs; rewrite Forall_reverse; auto with redis).
  assert (length bs = n) as Hl by (unfold bs; by rewrite length_reverse, length_le_encode).
  rewrite <- Hl at 1. rewrite le_encode_decode by done. unfold bs.
  rewrite reverse_involutive, le_decode_encode. by apply Z.mod_small.
Qed.

(** A header word written through [intrev32ifbe] is little-endian in memory. *)
Lemma host_bytes_intrev32ifbe v : host_bytes 4 (intrev32ifbe v) = le_encode 4 v.
Proof.
  unfold intrev32ifbe. destruct big_endian eqn:E; unfold host_bytes; rewrite E; [|done].
  rewrite intrev32_eq. set (bs := reverse (le_encode 4 v)).
  assert (le_encode 4 (le_decode bs) = bs) as ->.
  { change 4%nat with (length bs). apply le_encode_decode.
    unfold bs. rewrite Forall_reverse. auto with redis. }
  unfold bs. apply reverse_involutive.
Qed.

Lemma host_bytes_intrev16ifbe v : host_bytes 2 (intrev16ifbe v) = le_encode 2 v.
Proof.
  unfold intrev16ifbe. destruct big_endian eqn:E; unfold host_bytes; rewrite E; [|done].
  rewrite intrev16_eq. set (bs := reverse (le_encode 2 v)).
  assert (le_encode 2 (le_decode bs) = bs) as ->.
  { change 2%nat with (length bs). apply le_encode_decode.
    unfold bs. rewrite Forall_reverse. auto with redis. }
  unfold bs. apply reverse_involutive.
Qed.

(** The word that little-endian bytes hold on the host, through the macro again. *)
Lemma host_uint_le32 v : in_u 32 v -> intrev32ifbe (host_uint (le_encode 4 v)) = v.
Proof.
  intros Hv. unfold intrev32ifbe, host_uint. destruct big_endian eqn:E.
  - rewrite intrev32_eq. by apply rev_decode_involutive.
  - rewrite le_decode_encode. by apply Z.mod_small.
Qed.

Lemma host_uint_le16 v : in_u 16 v -> intrev16ifbe (host_uint (le_encode 2 v)) = v.
Proof.
  intros Hv. unfold intrev16ifbe, host_uint. destruct big_endian eqn:E.
  - rewrite intrev16_eq. by apply rev_decode_involutive.
  - rewrite le_decode_encode. by apply Z.mod_small.
Qed.

Lemma intrev32ifbe_involutive v : in_u 32 v -> intrev32ifbe (intrev32ifbe v) = v.
Proof.
  intros Hv. unfold intrev32ifbe. destruct big_endian; [|done].
  rewrite !intrev32_eq. by apply rev_decode_involutive.
Qed.
End host.

#[export] Hint Rewrite @zlen_host_bytes : zlen.
#[export] Hint Resolve host_bytes_ok : redis.

(** [intrev16], [intrev32] and [intrev64] are involutions on the values of
    their types, on a host of either byte order. *)
Theorem intrev_involutive (H : Host) (v : Z) :
  (in_u 16 v -> intrev16 (intrev16 v) = v) /\
  (in_u 32 v -> intrev32 (intrev32 v) = v) /\
  (in_u 64 v -> intrev64 (intrev64 v) = v).
Proof.
  rewrite !intrev16_eq, !intrev32_eq, !intrev64_eq.
  split_and!; intros; by apply rev_decode_involutive.
Qed.

(** [htonu64] puts the most significant byte first in memory whatever the
    host's byte order is, and [ntohu64] undoes it. *)
Theorem htonu64_network_order (H : Host) (v : Z) :
  in_u 64 v ->
  host_bytes 8 (htonu64 v) = reverse (le_encode 8 v) /\ ntohu64 (htonu64 v) = v.
Proof.
  intros Hv. unfold htonu64, ntohu64, host_bytes.
  destruct big_endian; [done|]. rewrite !intrev64_eq. split.
  - set (bs := reverse (le_encode 8 v)).
    change 8%nat with (length bs) at 1. apply le_encode_decode.
    unfold bs. rewrite Forall_reverse. auto with redis.
  - by apply rev_decode_involutive.
Qed.
