(* ===== verification/Intset.v ===== *)
(** * Integer sets (intset.c, intset.h)

    [intset] is the struct of intset.h: the two header words as they are stored
    (the code stores them little-endian, hence the [intrev32ifbe] on each access)
    and the flexible array [contents] as the bytes allocated for it. The
    operations are translated statement by statement over the byte buffer, with
    the C integer conversions written out. *)

From S2P Require Import Prelude Endian.

Definition INTSET_ENC_INT16 : Z := 2.
Definition INTSET_ENC_INT32 : Z := 4.
Definition INTSET_ENC_INT64 : Z := 8.

Definition INT16_MIN : Z := - 2 ^ 15.
Definition INT16_MAX : Z := 2 ^ 15 - 1.
Definition INT32_MIN : Z := - 2 ^ 31.
Definition INT32_MAX : Z := 2 ^ 31 - 1.

Record intset := Intset {
  is_encoding : Z;
  is_length : Z;
  is_contents : list Z;
}.

(** [sizeof(intset)]: two [uint32_t], the flexible array has size 0. *)
Definition sizeof_intset : Z := 8.

Definition _intsetValueEncoding (v : Z) : Z :=
  if (v <? INT32_MIN) || (v >? INT32_MAX) then INTSET_ENC_INT64
  else if (v <? INT16_MIN) || (v >? INT16_MAX) then INTSET_ENC_INT32
  else INTSET_ENC_INT16.

Section ops.
Context `{Host}.

(** What [zrealloc] leaves in the bytes it adds to a block. *)
Variable junk : nat -> Z.

(** [memcpy(&v, ((intN_t* )contents)+pos, n); memrevNifbe(&v); return v]. *)
Definition get_word (memrevifbe : list Z -> option (list Z)) (n : Z)
  (contents : list Z) (pos : Z) : option Z :=
bs ← rd contents (pos * n) n;
bs ← memrevifbe bs;
Some (wraps (8 * n) (host_uint bs)).

Definition _intsetGetEncoded (is_ : intset) (pos enc : Z) : option Z :=
if enc =? INTSET_ENC_INT64 then get_word memrev64ifbe 8 (is_contents is_) pos
else if enc =? INTSET_ENC_INT32 then get_word memrev32ifbe 4 (is_contents is_) pos
else get_word memrev16ifbe 2 (is_contents is_) pos.

Definition _intsetGet (is_ : intset) (pos : Z) : option Z :=
_intsetGetEncoded is_ pos (intrev32ifbe (is_encoding is_)).

(** [((intN_t* )contents)[pos] = value; memrevNifbe(((intN_t* )contents)+pos)]. *)
Definition set_word (memrevifbe : list Z -> option (list Z)) (n : Z)
  (contents : list Z) (pos value : Z) : option (list Z) :=
contents ← wr contents (pos * n) (host_bytes (Z.to_nat n) value);
bs ← rd contents (pos * n) n;
bs ← memrevifbe bs;
wr contents (pos * n) bs.

Definition _intsetSet (is_ : intset) (pos value : Z) : option intset :=
let encoding := intrev32ifbe (is_encoding is_) in
contents ←
  (if encoding =? INTSET_ENC_INT64 then set_word memrev64ifbe 8 (is_contents is_) pos value
   else if encoding =? INTSET_ENC_INT32 then set_word memrev32ifbe 4 (is_contents is_) pos value
   else set_word memrev16ifbe 2 (is_contents is_) pos value);
Some (Intset (is_encoding is_) (is_length is_) contents).

Definition intsetNew : intset := Intset (intrev32ifbe INTSET_ENC_INT16) 0 [].

Definition intsetResize (is_ : intset) (len : Z) : intset :=
let size := wrapu 32 (len * intrev32ifbe (is_encoding is_)) in
Intset (is_encoding is_) (is_length is_) (realloc junk (is_contents is_) size).

(** The [while(max >= min)] loop of [intsetSearch]; the result is the final
  [(min, mid, cur)]. One unit of fuel per iteration. *)
Fixpoint intsetSearch_loop (fuel : nat) (is_ : intset) (value min max mid cur : Z)
  : option (Z * Z * Z) :=
if max >=? min then
  match fuel with
  | O => None
  | S fuel =>
      let mid := wraps 32 (Z.shiftr (wrapu 32 (wrapu 32 min + wrapu 32 max)) 1) in
      cur ← _intsetGet is_ mid;
      if value >? cur then intsetSearch_loop fuel is_ value (mid + 1) max mid cur
      else if value <? cur then intsetSearch_loop fuel is_ value min (mid - 1) mid cur
      else Some (min, mid, cur)
  end
else Some (min, mid, cur).

(** Returns the C return value and the value stored through [pos]. *)
Definition intsetSearch (is_ : intset) (value : Z) : option (bool * Z) :=
let length := intrev32ifbe (is_length is_) in
let max := wraps 32 (wrapu 32 (length - 1)) in
let loop :=
  '(min, mid, cur) ←
    intsetSearch_loop (Z.to_nat (max + 1)) is_ value 0 max (-1) (-1);
  Some (if value =? cur then (true, wrapu 32 mid) else (false, wrapu 32 min)) in
if length =? 0 then Some (false, 0)
else
  last ← _intsetGet is_ max;
  if value >? last then Some (false, length)
  else
    first ← _intsetGet is_ 0;
    if value <? first then Some (false, 0) else loop.

(** [while(length--) _intsetSet(is,length+prepend,_intsetGetEncoded(is,length,curenc))]. *)
Fixpoint upgrade_loop (length : nat) (is_ : intset) (prepend curenc : Z) : option intset :=
match length with
| O => Some is_
| S length =>
    v ← _intsetGetEncoded is_ (Z.of_nat length) curenc;
    is_ ← _intsetSet is_ (Z.of_nat length + prepend) v;
    upgrade_loop length is_ prepend curenc
end.

Definition set_encoding (is_ : intset) (e : Z) : intset :=
Intset e (is_length is_) (is_contents is_).
Definition set_length (is_ : intset) (n : Z) : intset :=
Intset (is_encoding is_) n (is_contents is_).

Definition intsetUpgradeAndAdd (is_ : intset) (value : Z) : option intset :=
let curenc := wrapu 8 (intrev32ifbe (is_encoding is_)) in
let newenc := _intsetValueEncoding value in
let length := wraps 32 (intrev32ifbe (is_length is_)) in
let prepend := if value <? 0 then 1 else 0 in
let is_ := set_encoding is_ (intrev32ifbe newenc) in
let is_ := intsetResize is_ (wrapu 32 (intrev32ifbe (is_length is_) + 1)) in
is_ ← upgrade_loop (Z.to_nat length) is_ prepend curenc;
is_ ← (if prepend =? 1 then _intsetSet is_ 0 value
       else _intsetSet is_ (intrev32ifbe (is_length is_)) value);
Some (set_length is_ (intrev32ifbe (wrapu 32 (intrev32ifbe (is_length is_) + 1)))).

Definition intsetMoveTail (is_ : intset) (from to : Z) : option intset :=
let bytes := wrapu 32 (intrev32ifbe (is_length is_) - from) in
let encoding := intrev32ifbe (is_encoding is_) in
let move n := memmove (is_contents is_) (to * n) (from * n) (wrapu 32 (bytes * n)) in
contents ←
  (if encoding =? INTSET_ENC_INT64 then move 8
   else if encoding =? INTSET_ENC_INT32 then move 4
   else move 2);
Some (Intset (is_encoding is_) (is_length is_) contents).

(** Returns the new set and the value stored through [success]. *)
Definition intsetAdd (is_ : intset) (value : Z) : option (intset * bool) :=
let valenc := _intsetValueEncoding value in
if valenc >? intrev32ifbe (is_encoding is_) then
  is_ ← intsetUpgradeAndAdd is_ value; Some (is_, true)
else
  '(found, pos) ← intsetSearch is_ value;
  if found : bool then Some (is_, false)
  else
    let is_ := intsetResize is_ (wrapu 32 (intrev32ifbe (is_length is_) + 1)) in
    is_ ← (if pos <? intrev32ifbe (is_length is_)
           then intsetMoveTail is_ pos (wrapu 32 (pos + 1)) else Some is_);
    is_ ← _intsetSet is_ pos value;
    Some (set_length is_ (intrev32ifbe (wrapu 32 (intrev32ifbe (is_length is_) + 1))), true).

Definition intsetRemove (is_ : intset) (value : Z) : option (intset * bool) :=
let valenc := _intsetValueEncoding value in
if valenc <=? intrev32ifbe (is_encoding is_) then
  '(found, pos) ← intsetSearch is_ value;
  if found : bool then
    let len := intrev32ifbe (is_length is_) in
    is_ ← (if pos <? wrapu 32 (len - 1)
           then intsetMoveTail is_ (wrapu 32 (pos + 1)) pos else Some is_);
    let is_ := intsetResize is_ (wrapu 32 (len - 1)) in
    Some (set_length is_ (intrev32ifbe (wrapu 32 (len - 1))), true)
  else Some (is_, false)
else Some (is_, false).

Definition intsetFind (is_ : intset) (value : Z) : option bool :=
let valenc := _intsetValueEncoding value in
if valenc <=? intrev32ifbe (is_encoding is_)
then fst <$> intsetSearch is_ value else Some false.

(** [intsetRandom], with the value [r] that [rand()] returned as an argument. *)
Definition intsetRandom (is_ : intset) (r : Z) : option Z :=
let length := intrev32ifbe (is_length is_) in
if length =? 0 then None else _intsetGet is_ (wraps 32 (wrapu 32 r mod length)).

(** [None] inside is the return value 0, [Some v] the return value 1 with
  [v] stored through [value]. *)
Definition intsetGet (is_ : intset) (pos : Z) : option (option Z) :=
if pos <? intrev32ifbe (is_length is_)
then Some <$> _intsetGet is_ (wraps 32 pos) else Some None.

Definition intsetLen (is_ : intset) : Z := intrev32ifbe (is_length is_).

Definition intsetBlobLen (is_ : intset) : Z :=
sizeof_intset + wrapu 32 (intrev32ifbe (is_length is_) * intrev32ifbe (is_encoding is_)).

End ops.

(** ** Representation

    [intset_rep is_ w xs]: the bytes of [is_] encode the strictly increasing list
    [xs] with [w] bytes per element, and the allocation is exactly as long as
    the header says. *)

Definition enc_ok (w : Z) : Prop := w = 2 \/ w = 4 \/ w = 8.

Definition encs (w : Z) (xs : list Z) : list Z := concat (le_encode (Z.to_nat w) <$> xs).

Record intset_rep `{Host} (is_ : intset) (w : Z) (xs : list Z) : Prop := IntsetRep {
  rep_w : enc_ok w;
  rep_encoding : is_encoding is_ = intrev32ifbe w;
  rep_length : is_length is_ = intrev32ifbe (zlen xs);
  rep_contents : is_contents is_ = encs w xs;
  rep_range : Forall (in_s (8 * w)) xs;
  rep_sorted : increasing xs;
  rep_size : zlen xs * w < 2 ^ 32;
}.

Lemma encs_app w a b : encs w (a ++ b) = encs w a ++ encs w b.
Proof. unfold encs. by rewrite fmap_app, concat_app. Qed.

Lemma encs_cons w x b : encs w (x :: b) = le_encode (Z.to_nat w) x ++ encs w b.
Proof. done. Qed.

Lemma encs_snoc w a x : encs w (a ++ [x]) = encs w a ++ le_encode (Z.to_nat w) x.
Proof. rewrite encs_app. unfold encs at 2. simpl. by rewrite app_nil_r. Qed.

Lemma zlen_encs w xs : enc_ok w -> zlen (encs w xs) = zlen xs * w.
Proof.
  intros Hw. induction xs; [done|]. rewrite encs_cons. zl.
  destruct Hw as [->|[->| ->]]; lia.
Qed.

Lemma enc_ok_bounds w : enc_ok w -> 2 <= w <= 8.
Proof. unfold enc_ok. lia. Qed.

Lemma valenc_ok v : enc_ok (_intsetValueEncoding v).
Proof. unfold _intsetValueEncoding, enc_ok. repeat case_if; auto. Qed.

(** A value's encoding is the narrowest that holds it. *)
Lemma valenc_le v w : enc_ok w -> in_s 64 v -> _intsetValueEncoding v <= w <-> in_s (8 * w) v.
Proof.
  intros [->|[->| ->]] Hv; unfold _intsetValueEncoding, in_s,
    INT16_MIN, INT16_MAX, INT32_MIN, INT32_MAX,
    INTSET_ENC_INT16, INTSET_ENC_INT32, INTSET_ENC_INT64 in *; simpl in *;
    zcmp; lia.
Qed.

Lemma in_s_mono w w' x : w <= w' -> 0 < w -> in_s w x -> in_s w' x.
Proof.
  unfold in_s. intros. pose proof (Z.pow_le_mono_r 2 (w - 1) (w' - 1)). lia.
Qed.

Section word_specs.
Context `{Host}.

(** The laws of a conditional byte reversal on [n]-byte words. *)
Class WordRev (memrevifbe : list Z -> option (list Z)) (n : nat) : Prop := {
  wordrev_host v : memrevifbe (host_bytes n v) = Some (le_encode n v);
  wordrev_le v : memrevifbe (le_encode n v) = Some (host_bytes n v);
}.

#[local] Instance wordrev16 : WordRev memrev16ifbe 2.
Proof. split; [apply memrev16ifbe_host|apply memrev16ifbe_le]. Qed.
#[local] Instance wordrev32 : WordRev memrev32ifbe 4.
Proof. split; [apply memrev32ifbe_host|apply memrev32ifbe_le]. Qed.
#[local] Instance wordrev64 : WordRev memrev64ifbe 8.
Proof. split; [apply memrev64ifbe_host|apply memrev64ifbe_le]. Qed.

Lemma get_word_spec rev n `{!WordRev rev (Z.to_nat n)} a x c pos :
  0 < n -> zlen a = pos * n -> in_s (8 * n) x ->
  get_word rev n (a ++ le_encode (Z.to_nat n) x ++ c) pos = Some x.
Proof.
  intros Hn Ha Hx. unfold get_word. rewrite rd_app by zl.
  simpl. rewrite wordrev_le. simpl. rewrite host_uint_bytes, Z2Nat.id by lia.
  change (_ mod 2 ^ (8 * n)) with (wrapu (8 * n) x). rewrite wraps_wrapu, wraps_small; [done|lia|done].
Qed.

Lemma set_word_spec rev n `{!WordRev rev (Z.to_nat n)} a b c pos v :
  0 < n -> zlen a = pos * n -> zlen b = n ->
  set_word rev n (a ++ b ++ c) pos v = Some (a ++ le_encode (Z.to_nat n) v ++ c).
Proof.
  intros Hn Ha Hb. unfold set_word. rewrite wr_app by zl. simpl.
  rewrite rd_app by zl. simpl. rewrite wordrev_host. simpl. apply wr_app; zl.
Qed.

Lemma getEncoded_spec is_ a x c w pos :
  enc_ok w -> is_contents is_ = a ++ le_encode (Z.to_nat w) x ++ c ->
  zlen a = pos * w -> in_s (8 * w) x -> _intsetGetEncoded is_ pos w = Some x.
Proof.
  intros [->|[->| ->]] Hc Ha Hx; unfold _intsetGetEncoded; rewrite Hc;
    by apply (get_word_spec _ _).
Qed.

Lemma set_spec is_ a b c w pos v :
  enc_ok w -> intrev32ifbe (is_encoding is_) = w ->
  is_contents is_ = a ++ b ++ c -> zlen a = pos * w -> zlen b = w ->
  _intsetSet is_ pos v =
    Some (Intset (is_encoding is_) (is_length is_) (a ++ le_encode (Z.to_nat w) v ++ c)).
Proof.
  intros Hw He Hc Ha Hb. unfold _intsetSet. rewrite He, Hc.
  destruct Hw as [->|[->| ->]]; simpl; by rewrite (set_word_spec _ _).
Qed.
End word_specs.

Section rep_lemmas.
Context `{Host} (is_ : intset) (w : Z) (xs : list Z) (R : intset_rep is_ w xs).

Lemma rep_len_bound : 0 <= zlen xs < 2 ^ 31.
Proof.
  pose proof (enc_ok_bounds w (rep_w _ _ _ R)). pose proof (rep_size _ _ _ R).
  pose proof (zlen_nonneg xs). nia.
Qed.

Lemma rep_enc_get : intrev32ifbe (is_encoding is_) = w.
Proof.
  rewrite (rep_encoding _ _ _ R), intrev32ifbe_involutive; [done|].
  pose proof (enc_ok_bounds w (rep_w _ _ _ R)). unfold in_u. lia.
Qed.

Lemma rep_len_get : intrev32ifbe (is_length is_) = zlen xs.
Proof.
  rewrite (rep_length _ _ _ R), intrev32ifbe_involutive; [done|].
  pose proof rep_len_bound. unfold in_u. lia.
Qed.

Lemma rep_get a x b pos : xs = a ++ x :: b -> zlen a = pos -> _intsetGet is_ pos = Some x.
Proof.
  intros Hxs Ha. unfold _intsetGet. rewrite rep_enc_get.
  pose proof (rep_w _ _ _ R) as Hw.
  apply (getEncoded_spec is_ (encs w a) x (encs w b)); [done| | |].
  - by rewrite (rep_contents _ _ _ R), Hxs, encs_app, encs_cons.
  - rewrite zlen_encs by done. by rewrite Ha.
  - pose proof (rep_range _ _ _ R) as Hr. rewrite Forall_forall in Hr.
    apply Hr. rewrite Hxs. set_solver.
Qed.
End rep_lemmas.

(** The outcome of a search for [v] in [xs]. *)
Inductive search_result (xs : list Z) (v : Z) : bool -> Z -> Prop :=
| search_found a b : xs = a ++ v :: b -> search_result xs v true (zlen a)
| search_missing a b :
    xs = a ++ b -> Forall (fun y => y < v) a -> Forall (fun y => v < y) b ->
    search_result xs v false (zlen a).

Lemma search_result_iff xs v found pos :
  increasing xs -> search_result xs v found pos ->
  (found = true <-> v ∈ xs) /\ 0 <= pos <= zlen xs.
Proof.
  intros Hs [a b ->|a b -> Ha Hb].
  - pose proof (zlen_nonneg a). pose proof (zlen_nonneg b). zl. split; [set_solver|lia].
  - pose proof (zlen_nonneg a). pose proof (zlen_nonneg b). zl. split; [|lia].
    split; [done|]. rewrite Forall_forall in Ha, Hb.
    intros [Hin|Hin]%elem_of_app; [apply Ha in Hin|apply Hb in Hin]; lia.
Qed.

(** The midpoint computed with unsigned arithmetic lies in the interval. *)
Lemma mid_range min max :
  0 <= min <= max -> max < 2 ^ 31 - 1 ->
  let mid := wraps 32 (Z.shiftr (wrapu 32 (wrapu 32 min + wrapu 32 max)) 1) in
  min <= mid <= max.
Proof.
  intros H1 H2.
  rewrite (wrapu_small 32 min), (wrapu_small 32 max), wrapu_small by (unfold in_u; lia).
  rewrite Z.shiftr_div_pow2 by lia. change (2 ^ 1) with 2.
  assert (min <= (min + max) / 2 <= max) as Hm by (split; [apply Z.div_le_lower_bound|apply Z.div_le_upper_bound]; lia).
  cbv zeta. rewrite wraps_small; [done|lia|unfold in_s; lia].
Qed.

Lemma search_loop_spec `{Host} is_ w xs v (R : intset_rep is_ w xs) :
  forall fuel a m b mid cur,
  xs = a ++ m ++ b -> Forall (fun y => y < v) a -> Forall (fun y => v < y) b ->
  (m = [] -> cur <> v) -> (length m <= fuel)%nat ->
  exists min' mid' cur',
    intsetSearch_loop fuel is_ v (zlen a) (zlen a + zlen m - 1) mid cur =
      Some (min', mid', cur') /\
    search_result xs v (v =? cur') (if v =? cur' then mid' else min').
Proof.
  pose proof (rep_len_bound _ _ _ R) as Hlen. pose proof (rep_sorted _ _ _ R) as Hs.
  induction fuel as [|fuel IH]; intros a m b mid cur Hxs Ha Hb Hcur Hf; simpl.
  all: destruct (decide (m = [])) as [->|Hm]; zl.
  1, 3: rewrite Z.geb_leb, (proj2 (Z.leb_gt _ _)) by lia; eexists _, _, _;
    split; [done|]; rewrite (proj2 (Z.eqb_neq _ _)) by naive_solver;
    by eapply search_missing.
  { destruct m; [done|simpl in Hf; lia]. }
  assert (0 < zlen m) as Hm0 by (destruct m; [done|]; pose proof (zlen_nonneg m); zl).
  pose proof (zlen_nonneg a). pose proof (zlen_nonneg b). subst xs. zl.
  rewrite Z.geb_leb, (proj2 (Z.leb_le _ _)) by lia.
  pose proof (mid_range (zlen a) (zlen a + zlen m - 1)) as Hmid. cbv zeta in Hmid.
  set (k := wraps 32 _) in *. specialize (Hmid ltac:(lia) ltac:(lia)).
  destruct (split_at m (k - zlen a)) as (m1 & [|x m2] & -> & Hk); [lia|zl|].
  rewrite (rep_get _ _ _ R (a ++ m1) x (m2 ++ b)); [|by rewrite <- !app_assoc|zl].
  simpl. rewrite <- (app_assoc m1), (app_assoc a) in Hs.
  apply increasing_middle_inv in Hs as (_ & _ & Hlt & Hgt).
  rewrite Z.gtb_ltb. destruct (Z.ltb_spec x v); [|destruct (Z.ltb_spec v x)].
  - destruct (IH (a ++ m1 ++ [x]) m2 b k x) as (min' & mid' & cur' & E & Hr);
      [by rewrite <- !app_assoc| |done|lia|rewrite !length_app in Hf; simpl in Hf; lia|].
    { rewrite app_assoc, Forall_app. split; [|by constructor].
      eapply Forall_impl; [exact Hlt|]. simpl. lia. }
    exists min', mid', cur'. split; [|done]. rewrite <- E. f_equal; zl.
  - destruct (IH a m1 (x :: m2 ++ b) k x) as (min' & mid' & cur' & E & Hr);
      [by rewrite <- !app_assoc|done| |lia|rewrite !length_app in Hf; simpl in Hf; lia|].
    { constructor; [done|]. eapply Forall_impl; [exact Hgt|]. simpl. lia. }
    exists min', mid', cur'. split; [|done]. rewrite <- E. f_equal; zl.
  - assert (x = v) as -> by lia. exists (zlen a), k, v. split; [done|].
    rewrite Z.eqb_refl. replace k with (zlen (a ++ m1)) by zl.
    apply (search_found _ _ _ (m2 ++ b)). by rewrite <- !app_assoc.
Qed.

Lemma search_spec `{Host} is_ w xs v :
  intset_rep is_ w xs ->
  exists found pos, intsetSearch is_ v = Some (found, pos) /\ search_result xs v found pos.
Proof.
  intros R. pose proof (rep_len_bound _ _ _ R) as Hlen.
  pose proof (rep_sorted _ _ _ R) as Hs.
  unfold intsetSearch. cbv zeta. rewrite (rep_len_get _ _ _ R).
  destruct (Z.eqb_spec (zlen xs) 0) as [E|E].
  { apply zlen_0_inv in E as ->. exists false, 0. split; [done|].
    by apply (search_missing _ _ [] []). }
  rewrite wrapu_small, wraps_small by (unfold in_u, in_s; simpl; lia).
  destruct (split_at xs (zlen xs - 1)) as (a & [|l [|? l0]] & Exs & Ha); [lia|subst; zl| |].
  2: { rewrite Exs in Ha. pose proof (zlen_nonneg l0). zl. }
  rewrite (rep_get _ _ _ R a l [] (zlen xs - 1)) by done. simpl. rewrite Z.gtb_ltb.
  destruct (Z.ltb_spec l v).
  { exists false, (zlen xs). split; [done|]. apply (search_missing _ _ xs []); [by rewrite app_nil_r| |done].
    rewrite Exs in Hs |- *. apply increasing_middle_inv in Hs as (_ & _ & Hlt & _).
    rewrite Forall_app. split; [|by constructor]. eapply Forall_impl; [exact Hlt|]. simpl. lia. }
  destruct xs as [|f xs']; [done|].
  rewrite (rep_get _ _ _ R [] f xs' 0) by done. simpl.
  destruct (Z.ltb_spec v f).
  { exists false, 0. split; [done|]. apply (search_missing _ _ [] (f :: xs')); [done|done|].
    apply (increasing_middle_inv []) in Hs as (_ & _ & _ & Hgt).
    constructor; [done|]. eapply Forall_impl; [exact Hgt|]. simpl. lia. }
  destruct (search_loop_spec is_ w _ v R (Z.to_nat (zlen (f :: xs') - 1 + 1)) [] (f :: xs') [] (-1) (-1))
    as (min' & mid' & cur' & E' & Hr); [by rewrite app_nil_r|done|done|done|unfold zlen; lia|].
  change (zlen []) with 0 in E'. rewrite Z.add_0_l in E'. rewrite E'. simpl.
  pose proof (search_result_iff _ _ _ _ Hs Hr) as [_ Hp].
  destruct (v =? cur'); eexists _, _; (split; [done|]);
    rewrite wrapu_small by (unfold in_u; lia); done.
Qed.

Section upgrade.
Context `{Host} (junk : nat -> Z).

(** Copying back to front: with room for [prepend] elements before the
    converted ones, no source element is overwritten before it is read. *)
Lemma upgrade_loop_spec enc len cur new prepend xs m s :
  enc_ok cur -> enc_ok new -> cur < new -> intrev32ifbe enc = new -> 0 <= prepend ->
  Forall (in_s (8 * cur)) xs ->
  zlen (encs cur xs ++ m) = (zlen xs + prepend) * new ->
  exists gap,
    upgrade_loop (length xs) (Intset enc len (encs cur xs ++ m ++ s)) prepend cur =
      Some (Intset enc len (gap ++ encs new xs ++ s)) /\
    zlen gap = prepend * new.
Proof.
  intros Hcur Hnew Hlt Henc Hp. revert m s. induction xs as [|x xs IH] using rev_ind; intros m s Hr Hz.
  { exists m. split; [done|]. change (encs cur []) with (@nil Z) in Hz. zl. }
  rewrite length_app, Nat.add_comm. cbn [Nat.add length upgrade_loop].
  apply Forall_app in Hr as [Hr Hx]. rewrite Forall_singleton in Hx.
  rewrite encs_snoc in Hz |- *.
  rewrite !zlen_app, !zlen_encs, zlen_le_encode, zlen_cons, zlen_nil in Hz by done.
  pose proof (enc_ok_bounds _ Hcur). pose proof (enc_ok_bounds _ Hnew).
  rewrite Z2Nat.id in Hz by lia. pose proof (zlen_nonneg xs). pose proof (zlen_nonneg m).
  rewrite (getEncoded_spec _ (encs cur xs) x (m ++ s)); [|done|simpl; by rewrite <- !app_assoc| |done].
  2: { rewrite zlen_encs by done. unfold zlen. lia. }
  simpl. destruct (split_at (le_encode (Z.to_nat cur) x ++ m) (cur + zlen m - new)) as (m1 & m2 & Em & Hm1).
  { zl. rewrite Z2Nat.id by lia. split; [nia|lia]. }
  assert (zlen m2 = new) as Hm2.
  { apply (f_equal zlen) in Em. zl. }
  rewrite (set_spec _ (encs cur xs ++ m1) m2 s new); [|done|done|simpl| |done].
  2: { rewrite <- !app_assoc, (app_assoc (le_encode _ _)), Em. by rewrite <- !app_assoc. }
  2: { rewrite zlen_app, zlen_encs by done. unfold zlen in *. nia. }
  simpl. rewrite <- app_assoc.
  destruct (IH m1 (le_encode (Z.to_nat new) x ++ s) Hr) as (gap & E & Hg).
  { rewrite zlen_app, zlen_encs by done. nia. }
  exists gap. split; [|done]. rewrite E. f_equal. f_equal.
  by rewrite encs_snoc, <- !app_assoc.
Qed.
End upgrade.

(** ** The operations on represented sets *)

Lemma mk_rep `{Host} w xs :
  enc_ok w -> Forall (in_s (8 * w)) xs -> increasing xs -> zlen xs * w < 2 ^ 32 ->
  intset_rep (Intset (intrev32ifbe w) (intrev32ifbe (zlen xs)) (encs w xs)) w xs.
Proof. by split. Qed.

Lemma Forall_in_s_mono w w' xs :
  enc_ok w -> w <= w' -> Forall (in_s (8 * w)) xs -> Forall (in_s (8 * w')) xs.
Proof.
  intros Hw%enc_ok_bounds ? Hr. eapply Forall_impl; [exact Hr|]. simpl. intros.
  eapply in_s_mono; [| |done]; lia.
Qed.

Section operations.
Context `{Host} (junk : nat -> Z).

Lemma resize_grow is_ w len extra :
  intrev32ifbe (is_encoding is_) = w -> 0 <= len -> len * w < 2 ^ 32 ->
  zlen (is_contents is_) = len * w - extra -> 0 <= extra -> 0 <= w ->
  exists fresh,
    intsetResize junk is_ len =
      Intset (is_encoding is_) (is_length is_) (is_contents is_ ++ fresh) /\
    zlen fresh = extra.
Proof.
  intros He Hl Hsz Hc Hx Hw. unfold intsetResize. rewrite He, wrapu_small by (unfold in_u; nia).
  destruct (realloc_grow junk (is_contents is_) (len * w)) as (fresh & -> & Hf); [lia|].
  exists fresh. split; [done|lia].
Qed.

Lemma upgrade_sorted w xs v :
  enc_ok w -> Forall (in_s (8 * w)) xs -> increasing xs -> in_s 64 v ->
  w < _intsetValueEncoding v ->
  increasing (if v <? 0 then v :: xs else xs ++ [v]).
Proof.
  intros Hw Hr Hs Hv Hlt. rewrite Forall_forall in Hr.
  assert (~ in_s (8 * w) v) as Hout by (rewrite <- valenc_le by done; lia).
  pose proof (enc_ok_bounds w Hw). pose proof (pow2_pos (8 * w - 1)).
  destruct (Z.ltb_spec v 0).
  - apply (increasing_middle [] v xs); [constructor|done|done|].
    apply Forall_forall. intros y Hy%Hr. unfold in_s in *. lia.
  - apply (increasing_middle xs v []); [done|constructor| |done].
    apply Forall_forall. intros y Hy%Hr. unfold in_s in *. lia.
Qed.

Lemma upgradeAndAdd_spec is_ w xs v :
  intset_rep is_ w xs -> in_s 64 v -> w < _intsetValueEncoding v ->
  (zlen xs + 1) * 8 < 2 ^ 32 ->
  exists is',
    intsetUpgradeAndAdd junk is_ v = Some is' /\
    intset_rep is' (_intsetValueEncoding v) (if v <? 0 then v :: xs else xs ++ [v]).
Proof.
  intros R Hv Hlt Hsz. pose proof (valenc_ok v) as Hnew.
  set (new := _intsetValueEncoding v) in *. pose proof (enc_ok_bounds _ Hnew).
  pose proof (rep_w _ _ _ R) as Hw. pose proof (enc_ok_bounds _ Hw).
  pose proof (rep_len_bound _ _ _ R) as Hlen.
  unfold intsetUpgradeAndAdd. fold new. cbv zeta.
  rewrite (rep_enc_get _ _ _ R), (rep_len_get _ _ _ R). cbn [is_length set_encoding].
  rewrite (rep_len_get _ _ _ R).
  rewrite (wrapu_small 8 w), (wraps_small 32), !(wrapu_small 32) by (unfold in_u, in_s; simpl; lia).
  assert (intrev32ifbe (intrev32ifbe new) = new) as Hnn
    by (apply intrev32ifbe_involutive; unfold in_u; lia).
  destruct (resize_grow (set_encoding is_ (intrev32ifbe new)) new (zlen xs + 1)
    ((zlen xs + 1) * new - zlen xs * w)) as (fresh & -> & Hf);
    [done|lia|nia|simpl; rewrite (rep_contents _ _ _ R), zlen_encs by done; lia|nia|lia|].
  cbn [is_encoding is_length is_contents set_encoding]. rewrite (rep_contents _ _ _ R).
  replace (Z.to_nat (zlen xs)) with (length xs) by (unfold zlen; lia).
  pose proof (Forall_in_s_mono w new xs Hw ltac:(lia) (rep_range _ _ _ R)) as Hrange.
  assert (in_s (8 * new) v) as Hvr by (apply valenc_le; [done|done|lia]).
  pose proof (upgrade_sorted w xs v Hw (rep_range _ _ _ R) (rep_sorted _ _ _ R) Hv Hlt) as Hsort.
  destruct (Z.ltb_spec v 0).
  - destruct (upgrade_loop_spec (intrev32ifbe new) (is_length is_) w new 1 xs fresh []) as (gap & E & Hg);
      [done|done|done|done|lia|exact (rep_range _ _ _ R)|rewrite zlen_app, zlen_encs by done; lia|].
    rewrite app_nil_r in E. rewrite E. simpl.
    rewrite (set_spec _ [] gap (encs new xs ++ []) new); [|done|done|done|done|lia]. simpl.
    eexists. split; [done|]. unfold set_length. simpl. rewrite (rep_len_get _ _ _ R), app_nil_r.
    rewrite wrapu_small by (unfold in_u; lia). rewrite <- encs_cons.
    replace (zlen xs + 1) with (zlen (v :: xs)) by zl. apply mk_rep; [done|by constructor|done|zl; nia].
  - destruct (split_at fresh (zlen fresh - new)) as (f1 & f2 & -> & Hf1); [nia|]. zl.
    destruct (upgrade_loop_spec (intrev32ifbe new) (is_length is_) w new 0 xs f1 f2) as (gap & E & Hg);
      [done|done|done|done|lia|exact (rep_range _ _ _ R)|rewrite zlen_app, zlen_encs by done; lia|].
    rewrite E. simpl. rewrite (rep_len_get _ _ _ R).
    assert (gap = []) as -> by (apply zlen_0_inv; lia).
    rewrite (set_spec _ (encs new xs) f2 [] new);
      [|done|done|simpl; by rewrite app_nil_r|by rewrite zlen_encs|lia].
    simpl. eexists. split; [done|]. unfold set_length. simpl. rewrite (rep_len_get _ _ _ R), app_nil_r.
    rewrite wrapu_small by (unfold in_u; lia). rewrite <- encs_snoc.
    replace (zlen xs + 1) with (zlen (xs ++ [v])) by zl.
    apply mk_rep; [done|by apply Forall_app_2; [|constructor]|done|zl; nia].
Qed.

(** Shifting the tail [b] one element up or down inside the buffer. *)
Lemma moveTail_up enc w xs a b gap :
  enc_ok w -> intrev32ifbe enc = w -> xs = a ++ b -> zlen gap = w -> b <> [] ->
  (zlen xs + 1) * w < 2 ^ 32 ->
  exists hole,
    intsetMoveTail (Intset enc (intrev32ifbe (zlen xs)) (encs w xs ++ gap)) (zlen a) (zlen a + 1) =
      Some (Intset enc (intrev32ifbe (zlen xs)) (encs w a ++ hole ++ encs w b)) /\
    zlen hole = w.
Proof.
  intros Hw He -> Hg Hb Hsz. pose proof (enc_ok_bounds _ Hw).
  pose proof (zlen_nonneg a). pose proof (zlen_nonneg b). zl.
  assert (0 < zlen b) by (destruct b; [done|]; pose proof (zlen_nonneg b); zl).
  destruct (split_at (encs w b ++ gap) w) as (h & t & Eh & Hh).
  { zl. rewrite zlen_encs by done. nia. }
  assert (zlen t = zlen b * w) as Ht.
  { apply (f_equal zlen) in Eh. zl. rewrite zlen_encs in Eh by done. nia. }
  exists h. split; [|done]. unfold intsetMoveTail. cbn [is_length is_encoding is_contents].
  rewrite He, intrev32ifbe_involutive by (unfold in_u; nia).
  assert (memmove (encs w (a ++ b) ++ gap) ((zlen a + 1) * w) (zlen a * w)
    (wrapu 32 (wrapu 32 (zlen a + zlen b - zlen a) * w)) = Some (encs w a ++ h ++ encs w b)) as E.
  { rewrite (wrapu_small 32 (_ - _)), wrapu_small by (unfold in_u; nia).
    unfold memmove. rewrite encs_app, <- app_assoc.
    rewrite rd_app by (rewrite zlen_encs by done; nia). simpl.
    rewrite Eh, app_assoc, <- (app_nil_r t), (wr_app _ t _ []).
    - by rewrite app_nil_r, <- app_assoc.
    - rewrite zlen_app, zlen_encs by done. nia.
    - rewrite zlen_encs by done. lia. }
  destruct Hw as [->|[->| ->]]; simpl; by rewrite E.
Qed.

Lemma moveTail_down enc w a v b :
  enc_ok w -> intrev32ifbe enc = w -> (zlen a + 1 + zlen b) * w < 2 ^ 32 ->
  exists rest,
    intsetMoveTail (Intset enc (intrev32ifbe (zlen (a ++ v :: b))) (encs w (a ++ v :: b)))
      (zlen a + 1) (zlen a) =
      Some (Intset enc (intrev32ifbe (zlen (a ++ v :: b))) (encs w (a ++ b) ++ rest)).
Proof.
  intros Hw He Hsz. pose proof (enc_ok_bounds _ Hw).
  pose proof (zlen_nonneg a). pose proof (zlen_nonneg b).
  unfold intsetMoveTail. cbn [is_length is_encoding is_contents].
  rewrite He, intrev32ifbe_involutive by (unfold in_u; zl; nia).
  destruct (split_at (le_encode (Z.to_nat w) v ++ encs w b) (zlen b * w)) as (h & t & Eh & Hh).
  { zl. rewrite zlen_encs by done. nia. }
  exists t.
  assert (memmove (encs w (a ++ v :: b)) (zlen a * w) ((zlen a + 1) * w)
    (wrapu 32 (wrapu 32 (zlen (a ++ v :: b) - (zlen a + 1)) * w)) = Some (encs w (a ++ b) ++ t)) as E.
  { rewrite (wrapu_small 32 (_ - _)), wrapu_small by (unfold in_u; zl; nia).
    unfold memmove. rewrite encs_app, encs_cons.
    rewrite app_assoc, <- (app_nil_r (encs w b)), rd_app, <- app_assoc.
    - simpl. rewrite (app_nil_r (encs w b)), Eh, wr_app; [by rewrite encs_app, <- app_assoc| |].
      + by rewrite zlen_encs.
      + by rewrite zlen_encs.
    - zl. rewrite zlen_encs by done. nia.
    - zl. rewrite zlen_encs by done. lia. }
  destruct Hw as [->|[->| ->]]; simpl; by rewrite E.
Qed.

Lemma rep_eta is_ w xs :
  intset_rep is_ w xs ->
  is_ = Intset (is_encoding is_) (intrev32ifbe (zlen xs)) (encs w xs).
Proof. intros R. destruct is_. simpl. by rewrite <- (rep_length _ _ _ R), <- (rep_contents _ _ _ R). Qed.

(** Opening a one-element hole at position [zlen a], as [intsetAdd] does. *)
Lemma make_room enc w a b fresh :
  enc_ok w -> intrev32ifbe enc = w -> zlen fresh = w -> (zlen (a ++ b) + 1) * 8 < 2 ^ 32 ->
  let is_ := Intset enc (intrev32ifbe (zlen (a ++ b))) (encs w (a ++ b) ++ fresh) in
  exists hole,
    (if zlen a <? zlen (a ++ b)
     then intsetMoveTail is_ (zlen a) (wrapu 32 (zlen a + 1)) else Some is_) =
      Some (Intset enc (intrev32ifbe (zlen (a ++ b))) (encs w a ++ hole ++ encs w b)) /\
    zlen hole = w.
Proof.
  intros Hw He Hf Hsz. pose proof (enc_ok_bounds _ Hw). pose proof (zlen_nonneg a).
  destruct (decide (b = [])) as [->|Hb0].
  - exists fresh. cbv zeta. change (encs w []) with (@nil Z).
    by rewrite !app_nil_r, Z.ltb_irrefl.
  - assert (0 < zlen b) by (destruct b; [done|]; pose proof (zlen_nonneg b); zl).
    rewrite (proj2 (Z.ltb_lt _ _)), wrapu_small by (unfold in_u; zl).
    apply moveTail_up; [done|done|done|done|done|zl; nia].
Qed.

Lemma add_missing_spec is_ w a b v :
  intset_rep is_ w (a ++ b) -> intsetSearch is_ v = Some (false, zlen a) ->
  Forall (fun y => y < v) a -> Forall (fun y => v < y) b ->
  in_s 64 v -> _intsetValueEncoding v <= w -> (zlen (a ++ b) + 1) * 8 < 2 ^ 32 ->
  exists is', intsetAdd junk is_ v = Some (is', true) /\ intset_rep is' w (a ++ v :: b).
Proof.
  intros R Hse Ha Hb Hv Hle Hsz. pose proof (rep_w _ _ _ R) as Hw.
  pose proof (enc_ok_bounds _ Hw). pose proof (zlen_nonneg (a ++ b)).
  pose proof (rep_size _ _ _ R) as Hrs.
  unfold intsetAdd. rewrite Hse, (rep_enc_get _ _ _ R), Z.gtb_ltb.
  rewrite (proj2 (Z.ltb_ge _ _)) by lia. simpl.
  rewrite (rep_len_get _ _ _ R), (wrapu_small 32 (_ + 1)) by (unfold in_u; lia).
  destruct (resize_grow is_ w (zlen (a ++ b) + 1) w) as (fresh & -> & Hf);
    [exact (rep_enc_get _ _ _ R)|lia|nia|rewrite (rep_contents _ _ _ R), zlen_encs by done; lia|lia|lia|].
  rewrite (rep_contents _ _ _ R), (rep_length _ _ _ R). cbn [is_length].
  destruct (make_room (is_encoding is_) w a b fresh) as (hole & -> & Hh);
    [done|exact (rep_enc_get _ _ _ R)|done|done|].
  simpl. rewrite (set_spec _ (encs w a) hole (encs w b) w);
    [|done|exact (rep_enc_get _ _ _ R)|done|by rewrite zlen_encs|done].
  simpl. eexists. split; [done|]. unfold set_length. simpl.
  rewrite intrev32ifbe_involutive, wrapu_small by (unfold in_u; lia).
  rewrite <- encs_cons, <- encs_app, (rep_encoding _ _ _ R).
  replace (zlen (a ++ b) + 1) with (zlen (a ++ v :: b)) by zl.
  pose proof (rep_range _ _ _ R) as [Hra Hrb]%Forall_app.
  pose proof (rep_sorted _ _ _ R) as Hs.
  apply mk_rep; [done| | |zl; nia].
  - apply Forall_app. split; [done|]. constructor; [|done]. by apply valenc_le.
  - apply increasing_middle; [by eapply StronglySorted_app_1_l|by eapply StronglySorted_app_1_r|done|done].
Qed.

Lemma remove_found_spec is_ w a b v :
  intset_rep is_ w (a ++ v :: b) -> intsetSearch is_ v = Some (true, zlen a) ->
  in_s 64 v ->
  exists is', intsetRemove junk is_ v = Some (is', true) /\ intset_rep is' w (a ++ b).
Proof.
  intros R Hse Hv. pose proof (rep_w _ _ _ R) as Hw. pose proof (enc_ok_bounds _ Hw).
  pose proof (rep_len_bound _ _ _ R) as Hlen. pose proof (rep_size _ _ _ R) as Hsz.
  pose proof (zlen_nonneg a). pose proof (zlen_nonneg b).
  pose proof (rep_range _ _ _ R) as [Hra [Hrv Hrb]%Forall_cons]%Forall_app.
  unfold intsetRemove. rewrite (rep_enc_get _ _ _ R).
  rewrite (proj2 (Z.leb_le _ _)) by (by apply valenc_le).
  rewrite Hse. simpl. rewrite (rep_len_get _ _ _ R).
  rewrite !(wrapu_small 32) by (unfold in_u; zl).
  assert (exists rest,
    (if zlen a <? zlen (a ++ v :: b) - 1 then intsetMoveTail is_ (zlen a + 1) (zlen a) else Some is_) =
    Some (Intset (is_encoding is_) (is_length is_) (encs w (a ++ b) ++ rest))) as [rest ->].
  { destruct (decide (b = [])) as [->|Hb].
    - rewrite (proj2 (Z.ltb_ge _ _)) by zl. exists (le_encode (Z.to_nat w) v).
      rewrite app_nil_r, <- encs_snoc, <- (rep_contents _ _ _ R). by destruct is_.
    - assert (0 < zlen b) by (destruct b; [done|]; pose proof (zlen_nonneg b); zl).
      rewrite (proj2 (Z.ltb_lt _ _)) by zl. rewrite (rep_length _ _ _ R).
      destruct (moveTail_down (is_encoding is_) w a v b) as [rest E];
        [done|exact (rep_enc_get _ _ _ R)|zl|].
      exists rest. rewrite <- E. f_equal. exact (rep_eta _ _ _ R). }
  simpl. eexists. split; [done|]. unfold set_length, intsetResize. simpl.
  rewrite (rep_enc_get _ _ _ R), (rep_encoding _ _ _ R).
  replace (zlen (a ++ v :: b) - 1) with (zlen (a ++ b)) by zl.
  rewrite wrapu_small, <- zlen_encs, realloc_shrink by (done || unfold in_u; zl; nia).
  apply mk_rep; [done|by apply Forall_app|eapply increasing_remove_middle, R|zl; nia].
Qed.
End operations.

(** ** Refinement of a finite set of integers *)

Definition intset_abs `{Host} (is_ : intset) (X : gset Z) : Prop :=
  exists w xs, intset_rep is_ w xs /\ X = list_to_set xs.

Lemma abs_size `{Host} is_ w xs (X : gset Z) :
  intset_rep is_ w xs -> X = list_to_set xs -> Z.of_nat (size X) = zlen xs.
Proof.
  intros R ->. rewrite size_list_to_set; [done|]. apply increasing_NoDup, R.
Qed.

Lemma intsetNew_abs `{Host} : intset_abs intsetNew ∅.
Proof.
  exists 2, []. split; [|done]. split; [by left| | |done|done|constructor|done]; [done|].
  unfold intsetNew, intrev32ifbe. simpl. destruct big_endian; [by rewrite intrev32_eq|done].
Qed.

(** [intsetAdd] on every branch (the wider encoding, the value already there,
    the insertion) in terms of the increasing list of members. *)
Lemma intsetAdd_rep `{Host} junk is_ w xs v :
  intset_rep is_ w xs -> in_s 64 v -> (zlen xs + 1) * 8 < 2 ^ 32 ->
  exists is' w' xs',
    intsetAdd junk is_ v = Some (is', bool_decide (v ∉ xs)) /\
    intset_rep is' w' xs' /\ forall y, y ∈ xs' <-> y = v \/ y ∈ xs.
Proof.
  intros R Hv Hsz. destruct (Z.lt_ge_cases w (_intsetValueEncoding v)) as [Hlt|Hge].
  - destruct (upgradeAndAdd_spec junk is_ w xs v R Hv Hlt Hsz) as (is' & E & R').
    exists is'. eexists _, _. split_and!; [|exact R'|destruct (v <? 0); set_solver].
    unfold intsetAdd. rewrite (rep_enc_get _ _ _ R), Z.gtb_ltb, (proj2 (Z.ltb_lt _ _)) by done.
    rewrite E. simpl. f_equal. f_equal. symmetry. apply bool_decide_eq_true_2. intros Hin.
    pose proof (rep_range _ _ _ R) as Hr. rewrite Forall_forall in Hr.
    apply Hr in Hin. apply valenc_le in Hin; [lia|apply R|done].
  - destruct (search_spec is_ w xs v R) as (found & pos & Hse & Hres).
    inversion Hres as [a b Exs|a b Exs Ha Hb]; subst.
    + exists is_, w, (a ++ v :: b). split_and!; [|done|set_solver].
      unfold intsetAdd. rewrite Hse, (rep_enc_get _ _ _ R), Z.gtb_ltb, (proj2 (Z.ltb_ge _ _)) by lia.
      simpl. f_equal. f_equal. symmetry. apply bool_decide_eq_false_2. set_solver.
    + destruct (add_missing_spec junk is_ w a b v R Hse Ha Hb Hv Hge Hsz) as (is' & E & R').
      exists is', w, (a ++ v :: b). split_and!; [|done|set_solver].
      rewrite E. f_equal. f_equal. symmetry. apply bool_decide_eq_true_2.
      rewrite Forall_forall in Ha, Hb.
      intros [Hin|Hin]%elem_of_app; [apply Ha in Hin|apply Hb in Hin]; lia.
Qed.

Lemma intsetRemove_rep `{Host} junk is_ w xs v :
  intset_rep is_ w xs -> in_s 64 v ->
  exists is' xs',
    intsetRemove junk is_ v = Some (is', bool_decide (v ∈ xs)) /\
    intset_rep is' w xs' /\ forall y, y ∈ xs' <-> y <> v /\ y ∈ xs.
Proof.
  intros R Hv. pose proof (rep_w _ _ _ R) as Hw.
  destruct (search_spec is_ w xs v R) as (found & pos & Hse & Hres).
  pose proof (search_result_iff _ _ _ _ (rep_sorted _ _ _ R) Hres) as [Hiff _].
  destruct found.
  - inversion Hres as [a b Exs Hp|]; subst.
    destruct (remove_found_spec junk is_ w a b v R Hse Hv) as (is' & E & R').
    exists is', (a ++ b). split_and!; [|done|].
    + rewrite E. f_equal. f_equal. symmetry. apply bool_decide_eq_true_2. set_solver.
    + pose proof (increasing_NoDup _ (rep_sorted _ _ _ R)) as Hnd.
      intros y. apply NoDup_app in Hnd as (_ & Hd & Hnd). apply NoDup_cons in Hnd as [Hnb _].
      set_solver.
  - assert (v ∉ xs) by naive_solver. exists is_, xs. split_and!; [|done|set_solver].
    unfold intsetRemove. rewrite Hse, bool_decide_eq_false_2 by done. by destruct (_ <=? _).
Qed.

Lemma intsetGet_rep `{Host} is_ w xs pos :
  intset_rep is_ w xs -> in_u 32 pos -> intsetGet is_ pos = Some (zidx xs pos).
Proof.
  intros R Hpos. unfold intsetGet. rewrite (rep_len_get _ _ _ R). pose proof (rep_len_bound _ _ _ R).
  destruct (Z.ltb_spec pos (zlen xs)).
  - rewrite wraps_small by (unfold in_s, in_u in *; simpl; lia).
    destruct (zidx_is_Some xs pos) as [x Hx]; [unfold in_u in *; lia|].
    rewrite Hx. apply zidx_Some_split in Hx as (a & b & Exs & Ha).
    by rewrite (rep_get _ _ _ R a x b pos).
  - f_equal. symmetry. apply eq_None_not_Some. intros [x Hx%zidx_range]. lia.
Qed.

Lemma intsetFind_rep `{Host} is_ w xs v :
  intset_rep is_ w xs -> in_s 64 v -> intsetFind is_ v = Some (bool_decide (v ∈ xs)).
Proof.
  intros R Hv. pose proof (rep_w _ _ _ R) as Hw.
  destruct (search_spec is_ w xs v R) as (found & pos & Hse & Hres).
  pose proof (search_result_iff _ _ _ _ (rep_sorted _ _ _ R) Hres) as [Hiff _].
  unfold intsetFind. rewrite Hse, (rep_enc_get _ _ _ R). simpl.
  destruct (Z.leb_spec (_intsetValueEncoding v) w).
  - f_equal. destruct found; symmetry; [apply bool_decide_eq_true_2|apply bool_decide_eq_false_2];
      naive_solver.
  - f_equal. symmetry. apply bool_decide_eq_false_2. intros Hin.
    pose proof (rep_range _ _ _ R) as Hr. rewrite Forall_forall in Hr.
    apply Hr in Hin. apply valenc_le in Hin; [lia|done|done].
Qed.

(** C4 [intsetAdd] inserts into the represented set and reports whether the
    value was new; no byte outside the allocation is touched. *)
Theorem intsetAdd_refines (H : Host) (junk : nat -> Z) (is_ : intset) (X : gset Z) (v : Z) :
  intset_abs is_ X -> in_s 64 v -> (Z.of_nat (size X) + 1) * 8 < 2 ^ 32 ->
  exists is', intsetAdd junk is_ v = Some (is', bool_decide (v ∉ X)) /\
    intset_abs is' ({[v]} ∪ X).
Proof.
  intros (w & xs & R & HX) Hv Hsz. rewrite (abs_size _ _ _ _ R HX) in Hsz. subst X.
  destruct (intsetAdd_rep junk is_ w xs v R Hv Hsz) as (is' & w' & xs' & E & R' & Hel).
  exists is'. split.
  - rewrite E. f_equal. f_equal. apply bool_decide_ext. set_solver.
  - exists w', xs'. split; [done|]. apply set_eq. set_solver.
Qed.

(** An insertion into the empty set that widens the encoding to 64 bits. *)
Lemma intsetAdd_refines_witness :
  exists is', @intsetAdd false (fun _ => 7) (@intsetNew false) (2 ^ 40) = Some (is', true) /\
    @intset_abs false is' ({[2 ^ 40]} ∪ ∅).
Proof.
  destruct (intsetAdd_refines false (fun _ => 7) (@intsetNew false) ∅ (2 ^ 40)) as (is' & E & A).
  - apply (@intsetNew_abs false).
  - split; vm_compute; congruence.
  - vm_compute. reflexivity.
  - exists is'. split; [|exact A]. rewrite E. reflexivity.
Defined.

(** [intsetRemove] deletes from the represented set and reports whether the
    value was a member. *)
Theorem intsetRemove_refines (H : Host) (junk : nat -> Z) (is_ : intset) (X : gset Z) (v : Z) :
  intset_abs is_ X -> in_s 64 v ->
  exists is', intsetRemove junk is_ v = Some (is', bool_decide (v ∈ X)) /\
    intset_abs is' (X ∖ {[v]}).
Proof.
  intros (w & xs & R & ->) Hv.
  destruct (intsetRemove_rep junk is_ w xs v R Hv) as (is' & xs' & E & R' & Hel).
  exists is'. split.
  - rewrite E. f_equal. f_equal. apply bool_decide_ext. set_solver.
  - exists w, xs'. split; [done|]. apply set_eq. set_solver.
Qed.

(** A concrete set used by the witnesses: [{-5, 3, 70000}], which needs 32 bits. *)
Definition sample_intset : intset :=
  Intset 4 3 (encs 4 [-5; 3; 70000]).

Lemma sample_rep : @intset_rep false sample_intset 4 [-5; 3; 70000].
Proof.
  split; [by right; left|reflexivity|reflexivity|reflexivity| | |reflexivity].
  - repeat constructor; vm_compute; congruence.
  - repeat constructor.
Qed.

Lemma sample_abs : @intset_abs false sample_intset {[-5; 3; 70000]}.
Proof.
  exists 4, [-5; 3; 70000]. split; [apply sample_rep|]. reflexivity.
Qed.

Lemma intsetRemove_refines_witness :
  exists is', @intsetRemove false (fun _ => 7) sample_intset 3 = Some (is', true) /\
    @intset_abs false is' ({[-5; 3; 70000]} ∖ {[3]}).
Proof.
  destruct (intsetRemove_refines false (fun _ => 7) sample_intset {[-5; 3; 70000]} 3) as (is' & E & A).
  - apply sample_abs.
  - split; vm_compute; congruence.
  - exists is'. split; [|exact A]. rewrite E. reflexivity.
Defined.

(** [intsetFind] decides membership, and [intsetGet] at position [pos] returns
    the member of rank [pos], or 0 past the end. *)
Theorem intset_lookup_refines (H : Host) (is_ : intset) (X : gset Z) :
  intset_abs is_ X ->
  (forall v, in_s 64 v -> intsetFind is_ v = Some (bool_decide (v ∈ X))) /\
  intsetLen is_ = Z.of_nat (size X) /\
  exists xs, increasing xs /\ X = list_to_set xs /\
    forall pos, in_u 32 pos -> intsetGet is_ pos = Some (zidx xs pos).
Proof.
  intros (w & xs & R & HX). split_and!.
  - intros v Hv. rewrite (intsetFind_rep _ _ _ _ R Hv). f_equal.
    apply bool_decide_ext. set_solver.
  - unfold intsetLen. by rewrite (rep_len_get _ _ _ R), (abs_size _ _ _ _ R HX).
  - exists xs. split_and!; [apply R|done|]. intros pos Hpos. by apply (intsetGet_rep is_ w).
Qed.

Lemma intset_lookup_refines_witness :
  @intsetFind false sample_intset 70000 = Some true /\
  @intsetFind false sample_intset 70001 = Some false /\
  @intsetLen false sample_intset = Z.of_nat (size ({[-5; 3; 70000]} : gset Z)).
Proof.
  destruct (intset_lookup_refines false sample_intset {[-5; 3; 70000]} sample_abs) as (F & L & _).
  split_and!; [|..|exact L].
  - rewrite F by (split; vm_compute; congruence). reflexivity.
  - rewrite F by (split; vm_compute; congruence). reflexivity.
Defined.

(** The bytes of an intset (the header words in memory and the contents) are
    the same on hosts of either byte order: the blob can be saved as it is. *)
Theorem intset_blob_host_independent (H1 H2 : Host) (is1 is2 : intset) (w : Z) (xs : list Z) :
  @intset_rep H1 is1 w xs -> @intset_rep H2 is2 w xs ->
  @host_bytes H1 4 (is_encoding is1) ++ @host_bytes H1 4 (is_length is1) ++ is_contents is1 =
  @host_bytes H2 4 (is_encoding is2) ++ @host_bytes H2 4 (is_length is2) ++ is_contents is2 /\
  zlen (is_contents is1) + sizeof_intset = @intsetBlobLen H1 is1.
Proof.
  intros R1 R2. split.
  - rewrite (rep_encoding _ _ _ R1), (rep_encoding _ _ _ R2), (rep_length _ _ _ R1),
      (rep_length _ _ _ R2), (rep_contents _ _ _ R1), (rep_contents _ _ _ R2).
    by rewrite !host_bytes_intrev32ifbe.
  - unfold intsetBlobLen. rewrite (rep_len_get _ _ _ R1), (rep_enc_get _ _ _ R1).
    rewrite (rep_contents _ _ _ R1), zlen_encs by apply R1.
    pose proof (rep_size _ _ _ R1). pose proof (zlen_nonneg xs).
    pose proof (enc_ok_bounds _ (rep_w _ _ _ R1)). rewrite wrapu_small by (unfold in_u; nia). lia.
Qed.

Lemma intset_blob_host_independent_witness :
  zlen (is_contents sample_intset) + sizeof_intset = @intsetBlobLen false sample_intset.
Proof.
  apply (intset_blob_host_independent false false sample_intset sample_intset 4 [-5; 3; 70000]).
  - apply sample_rep.
  - apply sample_rep.
Defined.

(** The size computation of [intsetResize] is 32-bit: resizing a set of 64-bit
    members to [2^29] members, which need [2^32] bytes, reallocates it to none. *)
Theorem intsetResize_overflow (H : Host) (junk : nat -> Z) (len : Z) (contents : list Z) :
  is_contents (intsetResize junk (Intset (intrev32ifbe INTSET_ENC_INT64) len contents) (2 ^ 29)) = [].
Proof.
  unfold intsetResize. cbn [is_encoding is_contents].
  rewrite intrev32ifbe_involutive by (unfold in_u, INTSET_ENC_INT64; lia). reflexivity.
Qed.
