(* ===== verification/Adlist.v ===== *)
(** * Generic doubly linked lists (adlist.c, adlist.h)

    The nodes live in a heap, a finite map from addresses to [listNode]; a
    pointer is an [option loc], with [None] for [NULL]. Each function takes the
    heap and the [list] struct it is given and returns them updated; a
    dereference of a pointer that is not in the heap is [None]. The values
    ([void *]) are of an arbitrary type [V] with decidable equality, the method
    pointers [dup], [free] and [match] of the struct are optional functions, and
    the calls of [free] are returned as the list of values it was called on. *)

From S2P Require Import Prelude.

Abbreviation loc := positive.

Section adlist.
Context {V : Type} `{EqDecision V}.

Record listNode := ListNode {
  prev : option loc;
  next : option loc;
  value : V;
}.

Abbreviation heap := (gmap loc listNode).

Record alist := Alist {
  head : option loc;
  tail : option loc;
  dup : option (V -> option V);
  free : bool;
  match_ : option (V -> V -> bool);
  len : Z;
}.

(** [AL_START_HEAD] and [AL_START_TAIL]. *)
Inductive direction := AL_START_HEAD | AL_START_TAIL.

Record listIter := ListIter {
  iter_next : option loc;
  iter_direction : direction;
}.

(** The address [zmalloc] returns for a new node (zmalloc aborts the server when
    memory is exhausted, so it returns no [NULL]). *)
Class Zmalloc := {
  zmalloc : heap -> loc;
  zmalloc_fresh h : h !! zmalloc h = None;
}.

(** Field assignments. *)
Definition with_head (l : alist) (p : option loc) : alist :=
  Alist p (tail l) (dup l) (free l) (match_ l) (len l).
Definition with_tail (l : alist) (p : option loc) : alist :=
  Alist (head l) p (dup l) (free l) (match_ l) (len l).
Definition with_len (l : alist) (n : Z) : alist :=
  Alist (head l) (tail l) (dup l) (free l) (match_ l) n.

(** [p->next = q] and [p->prev = q], undefined unless [p] points to a node. *)
Definition set_next (h : heap) (p : option loc) (q : option loc) : option heap :=
  n ← p; nd ← h !! n; Some (<[n := ListNode (prev nd) q (value nd)]> h).
Definition set_prev (h : heap) (p : option loc) (q : option loc) : option heap :=
  n ← p; nd ← h !! n; Some (<[n := ListNode q (next nd) (value nd)]> h).
Definition deref (h : heap) (p : option loc) : option listNode := n ← p; h !! n.

(** [if (p) p->next = q], and the same for [prev]. *)
Definition set_next_if (h : heap) (p q : option loc) : option heap :=
  match p with Some _ => set_next h p q | None => Some h end.
Definition set_prev_if (h : heap) (p q : option loc) : option heap :=
  match p with Some _ => set_prev h p q | None => Some h end.

Definition listCreate : alist := Alist None None None false None 0.

(** The loop of [listEmpty]: frees [len] nodes from [current] on. *)
Fixpoint listEmpty_loop (len : nat) (h : heap) (fr : bool) (current : option loc)
    : option (heap * list V) :=
  match len with
  | O => Some (h, [])
  | S len =>
      n ← current; nd ← h !! n;
      '(h, freed) ← listEmpty_loop len (delete n h) fr (next nd);
      Some (h, if fr then value nd :: freed else freed)
  end.

Definition listEmpty (h : heap) (l : alist) : option (heap * alist * list V) :=
  '(h, freed) ← listEmpty_loop (Z.to_nat (len l)) h (free l) (head l);
  Some (h, with_len (with_tail (with_head l None) None) 0, freed).

(** [listRelease] also frees the struct itself. *)
Definition listRelease (h : heap) (l : alist) : option (heap * list V) :=
  '(h, _, freed) ← listEmpty h l; Some (h, freed).

Definition listAddNodeHead `{Zmalloc} (h : heap) (l : alist) (v : V) : option (heap * alist) :=
  let node := zmalloc h in
  '(h, l) ←
    (if len l =? 0 then
       Some (<[node := ListNode None None v]> h, with_tail (with_head l (Some node)) (Some node))
     else
       let h := <[node := ListNode None (head l) v]> h in
       h ← set_prev h (head l) (Some node);
       Some (h, with_head l (Some node)));
  Some (h, with_len l (wrapu 64 (len l + 1))).

Definition listAddNodeTail `{Zmalloc} (h : heap) (l : alist) (v : V) : option (heap * alist) :=
  let node := zmalloc h in
  '(h, l) ←
    (if len l =? 0 then
       Some (<[node := ListNode None None v]> h, with_tail (with_head l (Some node)) (Some node))
     else
       let h := <[node := ListNode (tail l) None v]> h in
       h ← set_next h (tail l) (Some node);
       Some (h, with_tail l (Some node)));
  Some (h, with_len l (wrapu 64 (len l + 1))).

Definition listInsertNode `{Zmalloc} (h : heap) (l : alist) (old_node : loc) (v : V)
    (after : bool) : option (heap * alist) :=
  let node := zmalloc h in
  old ← h !! old_node;
  let '(p, q, l) :=
    if after then
      (Some old_node, next old,
       if decide (tail l = Some old_node) then with_tail l (Some node) else l)
    else
      (prev old, Some old_node,
       if decide (head l = Some old_node) then with_head l (Some node) else l) in
  let h := <[node := ListNode p q v]> h in
  h ← set_next_if h p (Some node);
  h ← set_prev_if h q (Some node);
  Some (h, with_len l (wrapu 64 (len l + 1))).

Definition listDelNode (h : heap) (l : alist) (node : loc) : option (heap * alist * list V) :=
  nd ← h !! node;
  '(h, l) ← (match prev nd with
             | Some _ => h ← set_next h (prev nd) (next nd); Some (h, l)
             | None => Some (h, with_head l (next nd))
             end);
  '(h, l) ← (match next nd with
             | Some _ => h ← set_prev h (next nd) (prev nd); Some (h, l)
             | None => Some (h, with_tail l (prev nd))
             end);
  Some (delete node h, with_len l (wrapu 64 (len l - 1)),
        if free l then [value nd] else []).

Definition listGetIterator (l : alist) (d : direction) : listIter :=
  ListIter (match d with AL_START_HEAD => head l | AL_START_TAIL => tail l end) d.

Definition listRewind (l : alist) : listIter := ListIter (head l) AL_START_HEAD.
Definition listRewindTail (l : alist) : listIter := ListIter (tail l) AL_START_TAIL.

(** Returns the current node ([None] inside is [NULL]) and the new iterator. *)
Definition listNext (h : heap) (it : listIter) : option (option loc * listIter) :=
  match iter_next it with
  | None => Some (None, it)
  | Some n =>
      nd ← h !! n;
      Some (Some n, ListIter (match iter_direction it with
                              | AL_START_HEAD => next nd
                              | AL_START_TAIL => prev nd
                              end) (iter_direction it))
  end.

(** The loop of [listDup]; the result [None] inside is the [NULL] returned when
    the [dup] method fails. *)
Fixpoint listDup_loop `{Zmalloc} (fuel : nat) (h : heap) (copy : alist) (it : listIter)
    : option (heap * option alist * list V) :=
  match fuel with
  | O => None
  | S fuel =>
      '(node, it) ← listNext h it;
      match node with
      | None => Some (h, Some copy, [])
      | Some n =>
          nd ← h !! n;
          match (match dup copy with Some d => d (value nd) | None => Some (value nd) end) with
          | None => '(h, freed) ← listRelease h copy; Some (h, None, freed)
          | Some v => '(h, copy) ← listAddNodeTail h copy v; listDup_loop fuel h copy it
          end
      end
  end.

(** Every node of a list is in the heap, so [S (size h)] iterations are enough. *)
Definition listDup `{Zmalloc} (h : heap) (orig : alist) : option (heap * option alist * list V) :=
  let copy := listCreate in
  let copy := Alist (head copy) (tail copy) (dup orig) (free orig) (match_ orig) (len copy) in
  listDup_loop (S (size h)) h copy (listRewind orig).

Fixpoint listSearchKey_loop (fuel : nat) (h : heap) (l : alist) (key : V) (it : listIter)
    : option (option loc) :=
  match fuel with
  | O => None
  | S fuel =>
      '(node, it) ← listNext h it;
      match node with
      | None => Some None
      | Some n =>
          nd ← h !! n;
          if (match match_ l with
              | Some m => m (value nd) key
              | None => bool_decide (key = value nd)
              end) : bool
          then Some (Some n) else listSearchKey_loop fuel h l key it
      end
  end.

Definition listSearchKey (h : heap) (l : alist) (key : V) : option (option loc) :=
  listSearchKey_loop (S (size h)) h l key (listRewind l).

(** [while(index-- && n) n = n->next] (or [prev]). *)
Fixpoint walk (step : listNode -> option loc) (index : nat) (h : heap) (n : option loc)
    : option (option loc) :=
  match index with
  | O => Some n
  | S index =>
      match n with
      | None => Some None
      | Some m => nd ← h !! m; walk step index h (step nd)
      end
  end.

(** [-index] overflows on [LONG_MIN]. *)
Definition listIndex (h : heap) (l : alist) (index : Z) : option (option loc) :=
  if index <? 0 then
    if index =? - 2 ^ 63 then None
    else walk prev (Z.to_nat (- index - 1)) h (tail l)
  else walk next (Z.to_nat index) h (head l).

Definition listRotate (h : heap) (l : alist) : option (heap * alist) :=
  if len l <=? 1 then Some (h, l)
  else
    let t := tail l in
    nd ← deref h t;
    let l := with_tail l (prev nd) in
    h ← set_next h (tail l) None;
    h ← set_prev h (head l) t;
    h ← set_prev h t None;
    h ← set_next h t (head l);
    Some (h, with_head l t).

(** Returns the heap, [l] and [o]. *)
Definition listJoin (h : heap) (l o : alist) : option (heap * alist * alist) :=
  h ← set_prev_if h (head o) (tail l);
  '(h, l) ← (match tail l with
             | Some _ => h ← set_next h (tail l) (head o); Some (h, l)
             | None => Some (h, with_head l (head o))
             end);
  let l := match tail o with Some _ => with_tail l (tail o) | None => l end in
  Some (h, with_len l (wrapu 64 (len l + len o)), with_len (with_tail (with_head o None) None) 0).

End adlist.

Arguments listNode : clear implicits.
Arguments alist : clear implicits.
Arguments Zmalloc : clear implicits.

(** ** Segments of linked nodes

    [dseg h pp xs nn]: the nodes [xs] (address and value) are linked in order in
    [h], the first one back to [pp] and the last one on to [nn]. *)

Section dseg.
Context {V : Type} `{EqDecision V}.
Implicit Types (h : gmap loc (listNode V)) (xs a b : list (loc * V)) (p q : option loc).

Definition first xs nn : option loc := match xs with [] => nn | (n, _) :: _ => Some n end.

Fixpoint final pp xs : option loc :=
  match xs with [] => pp | (n, _) :: xs => final (Some n) xs end.

Fixpoint dseg h pp xs nn : Prop :=
  match xs with
  | [] => True
  | (n, v) :: xs => h !! n = Some (ListNode pp (first xs nn) v) /\ dseg h (Some n) xs nn
  end.

(** [h'] differs from [h] at most on the addresses satisfying [P]. *)
Definition frame (P : loc -> Prop) h h' : Prop := forall m, ~ P m -> h' !! m = h !! m.

Lemma frame_trans (P : loc -> Prop) h1 h2 h3 : frame P h1 h2 -> frame P h2 h3 -> frame P h1 h3.
Proof. intros H1 H2 m Hm. by rewrite H2, H1. Qed.

Lemma frame_weaken (P Q : loc -> Prop) h h' :
  (forall m, P m -> Q m) -> frame P h h' -> frame Q h h'.
Proof. intros HPQ Hf m Hm. apply Hf. auto. Qed.

Lemma frame_insert (P : loc -> Prop) h n x : P n -> frame P h (<[n := x]> h).
Proof. intros HP m Hm. apply lookup_insert_ne. by intros ->. Qed.

Lemma frame_delete (P : loc -> Prop) h n : P n -> frame P h (delete n h).
Proof. intros HP m Hm. apply lookup_delete_ne. by intros ->. Qed.

Lemma first_app a b nn : first (a ++ b) nn = first a (first b nn).
Proof. by destruct a as [|[]]. Qed.

Lemma final_app pp a b : final pp (a ++ b) = final (final pp a) b.
Proof. revert pp. induction a as [|[] a IH]; intros; simpl; auto. Qed.

Lemma dseg_app h pp a b nn :
  dseg h pp (a ++ b) nn <-> dseg h pp a (first b nn) /\ dseg h (final pp a) b nn.
Proof.
  revert pp. induction a as [|[n v] a IH]; intros pp; simpl.
  - tauto.
  - rewrite IH, first_app. tauto.
Qed.

Lemma dseg_frame (P : loc -> Prop) h h' pp xs nn :
  frame P h h' -> (forall m, m ∈ xs.*1 -> ~ P m) -> dseg h pp xs nn -> dseg h' pp xs nn.
Proof.
  intros Hf. revert pp. induction xs as [|[n v] xs IH]; intros pp Hd; simpl; [done|].
  intros [Hn Hr]. split.
  - rewrite Hf; [done|]. apply Hd. set_solver.
  - apply IH; [|done]. intros m Hm. apply Hd. set_solver.
Qed.

Lemma dseg_lookup h pp a n v b nn :
  dseg h pp (a ++ (n, v) :: b) nn -> h !! n = Some (ListNode (final pp a) (first b nn) v).
Proof. rewrite dseg_app. simpl. tauto. Qed.

(** Redirecting the [next] pointer of the last node of a segment. *)
Lemma relink_right h a nn q :
  NoDup a.*1 -> dseg h None a nn ->
  exists h', set_next_if h (final None a) q = Some h' /\
    dseg h' None a q /\ frame (fun m => m ∈ a.*1) h h'.
Proof.
  intros Hnd Hd. destruct a as [|[n v] a _] using rev_ind.
  { exists h. done. }
  rewrite final_app. simpl. pose proof (dseg_lookup _ _ _ _ _ _ _ Hd) as Hn.
  rewrite Hn. simpl. eexists. split; [done|].
  rewrite fmap_app in Hnd. apply NoDup_app in Hnd as (_ & Hdis & _).
  assert (frame (fun m => m = n) h (<[n := ListNode (final None a) q v]> h)) as Hf
    by by apply frame_insert.
  apply dseg_app in Hd as [Hd _]. split.
  - apply dseg_app. split.
    + eapply dseg_frame; [exact Hf| |exact Hd]. simpl. set_solver.
    + simpl. rewrite lookup_insert_eq. done.
  - eapply frame_weaken; [|exact Hf]. simpl. intros ? ->. rewrite fmap_app. set_solver.
Qed.

(** Redirecting the [prev] pointer of the first node of a segment. *)
Lemma relink_left h b pp p :
  NoDup b.*1 -> dseg h pp b None ->
  exists h', set_prev_if h (first b None) p = Some h' /\
    dseg h' p b None /\ frame (fun m => m ∈ b.*1) h h'.
Proof.
  intros Hnd Hd. destruct b as [|[n v] b].
  { exists h. done. }
  destruct Hd as [Hn Hd]. simpl. rewrite Hn. simpl. eexists. split; [done|].
  apply NoDup_cons in Hnd as [Hnb _].
  assert (frame (fun m => m = n) h (<[n := ListNode p (first b None) v]> h)) as Hf
    by by apply frame_insert.
  split.
  - rewrite lookup_insert_eq. split; [done|].
    eapply dseg_frame; [exact Hf| |exact Hd]. simpl. set_solver.
  - eapply frame_weaken; [|exact Hf]. simpl. set_solver.
Qed.

(** ** Well-formed lists *)

Record dll h (l : alist V) xs : Prop := Dll {
  dll_nodup : NoDup xs.*1;
  dll_seg : dseg h None xs None;
  dll_head : head l = first xs None;
  dll_tail : tail l = final None xs;
  dll_len : len l = zlen xs;
  dll_bound : zlen xs < 2 ^ 64;
}.

(** The methods of the list are the ones set by the user. *)
Definition same_methods (l l' : alist V) : Prop :=
  dup l' = dup l /\ free l' = free l /\ match_ l' = match_ l.

Lemma dll_frame (P : loc -> Prop) h h' l xs :
  frame P h h' -> (forall m, m ∈ xs.*1 -> ~ P m) -> dll h l xs -> dll h' l xs.
Proof. intros Hf Hd []. split; [done|by eapply dseg_frame|done..]. Qed.

Lemma dseg_lookup_notin h pp xs nn m : dseg h pp xs nn -> h !! m = None -> m ∉ xs.*1.
Proof.
  intros Hd Hm Hin. apply list_elem_of_fmap in Hin as ([n v] & -> & Hin).
  apply list_elem_of_split in Hin as (a & b & ->).
  apply dseg_lookup in Hd. simpl in *. congruence.
Qed.

Lemma final_cons_is_Some n v xs pp : is_Some (final pp ((n, v) :: xs)).
Proof.
  simpl. revert n. clear v. induction xs as [|[m w] xs IH]; intros n; simpl; eauto.
Qed.

Lemma final_None_inv xs : final None xs = None -> xs = [].
Proof. destruct xs as [|[n v] xs]; [done|]. intros E. destruct (final_cons_is_Some n v xs None). congruence. Qed.

Lemma zlen_0_first (xs : list (loc * V)) : zlen xs = 0 <-> xs = [].
Proof. split; [apply zlen_0_inv|by intros ->]. Qed.
End dseg.

Arguments dll_nodup {V h l xs}.
Arguments dll_seg {V h l xs}.
Arguments dll_head {V h l xs}.
Arguments dll_tail {V h l xs}.
Arguments dll_len {V h l xs}.
Arguments dll_bound {V h l xs}.

(** ** The operations on well-formed lists *)

Section specs.
Context {V : Type} `{EqDecision V} `{!Zmalloc V}.
Implicit Types (h : gmap loc (listNode V)) (l : alist V) (xs a b : list (loc * V)).

(** Linking a new node between [a] and [b]. *)
Lemma link_between h a b node v :
  NoDup (a ++ b).*1 -> dseg h None (a ++ b) None -> h !! node = None ->
  exists h2 h3,
    set_next_if (<[node := ListNode (final None a) (first b None) v]> h)
      (final None a) (Some node) = Some h2 /\
    set_prev_if h2 (first b None) (Some node) = Some h3 /\
    NoDup (a ++ (node, v) :: b).*1 /\
    dseg h3 None (a ++ (node, v) :: b) None /\
    frame (fun m => m = node \/ m ∈ (a ++ b).*1) h h3.
Proof.
  intros Hnd Hd Hfresh. pose proof (dseg_lookup_notin _ _ _ _ _ Hd Hfresh) as Hni.
  rewrite fmap_app in Hnd, Hni. apply NoDup_app in Hnd as (Hna & Hdis & Hnb).
  apply dseg_app in Hd as [Ha Hb].
  set (h1 := <[node := _]> h).
  assert (frame (fun m => m = node) h h1) as Hf1 by by apply frame_insert.
  assert (dseg h1 None a (first b None)) as Ha1
    by (eapply dseg_frame; [exact Hf1| |exact Ha]; set_solver).
  destruct (relink_right h1 a (first b None) (Some node) Hna Ha1) as (h2 & E2 & Ha2 & Hf2).
  assert (dseg h2 (final None a) b None) as Hb2.
  { eapply dseg_frame; [exact Hf2| |eapply dseg_frame; [exact Hf1| |exact Hb]]; set_solver. }
  destruct (relink_left h2 b _ (Some node) Hnb Hb2) as (h3 & E3 & Hb3 & Hf3).
  exists h2, h3. split_and!; [done|done| | |].
  - rewrite fmap_app. simpl. apply NoDup_app. split_and!; [done|set_solver|].
    apply NoDup_cons. split; [set_solver|done].
  - apply dseg_app. split; [|split; [|done]].
    + eapply dseg_frame; [exact Hf3| |exact Ha2]. set_solver.
    + rewrite Hf3 by set_solver. rewrite Hf2 by set_solver. apply lookup_insert_eq.
  - rewrite fmap_app. intros m Hm. rewrite Hf3, Hf2, Hf1; set_solver.
Qed.

Lemma fmap_fst_cons (n : loc) (v : V) xs : ((n, v) :: xs).*1 = n :: xs.*1.
Proof. done. Qed.

Lemma listAddNodeHead_spec h l xs v :
  dll h l xs -> zlen xs + 1 < 2 ^ 64 ->
  exists h' l', listAddNodeHead h l v = Some (h', l') /\
    dll h' l' ((zmalloc h, v) :: xs) /\ same_methods l l' /\
    frame (fun m => m = zmalloc h \/ m ∈ xs.*1) h h'.
Proof.
  intros D Hb. pose proof (zlen_nonneg xs).
  destruct (link_between h [] xs (zmalloc h) v (dll_nodup D) (dll_seg D) (zmalloc_fresh h))
    as (h2 & h3 & E2 & E3 & Hnd & Hd & Hf).
  simpl in E2. injection E2 as <-.
  unfold listAddNodeHead. rewrite (dll_len D), (dll_head D).
  destruct (Z.eqb_spec (zlen xs) 0) as [->%zlen_0_first|Hne].
  - injection E3 as <-. eexists _, _. split; [done|]. split_and!; [|done|done].
    split; simpl; [done|done|done|done| |done]. rewrite (dll_len D). done.
  - destruct xs as [|[n w] xs]; [done|]. simpl in E3 |- *.
    rewrite E3. simpl. eexists _, _. split; [done|]. split_and!; [|done|done].
    split; simpl; [done|done|done|by rewrite (dll_tail D)| |zl].
    rewrite (dll_len D), wrapu_small; zl. unfold in_u. lia.
Qed.

Lemma listAddNodeTail_spec h l xs v :
  dll h l xs -> zlen xs + 1 < 2 ^ 64 ->
  exists h' l', listAddNodeTail h l v = Some (h', l') /\
    dll h' l' (xs ++ [(zmalloc h, v)]) /\ same_methods l l' /\
    frame (fun m => m = zmalloc h \/ m ∈ xs.*1) h h'.
Proof.
  intros D Hb. pose proof (zlen_nonneg xs).
  destruct (link_between h xs [] (zmalloc h) v) as (h2 & h3 & E2 & E3 & Hnd & Hd & Hf);
    [rewrite app_nil_r; apply D|rewrite app_nil_r; apply D|apply zmalloc_fresh|].
  simpl in E3. injection E3 as ->. rewrite app_nil_r in Hf. simpl in E2.
  unfold listAddNodeTail. rewrite (dll_len D), (dll_tail D).
  destruct (decide (xs = [])) as [->|Hne].
  - simpl in *. injection E2 as <-. eexists _, _. split; [done|]. split_and!; [|done|done].
    split; simpl; [done|done|done|done| |done]. rewrite (dll_len D). done.
  - rewrite (proj2 (Z.eqb_neq _ _)) by (rewrite zlen_0_first; done).
    assert (set_next_if (<[zmalloc h:=ListNode (final None xs) None v]> h) (final None xs) (Some (zmalloc h))
      = set_next (<[zmalloc h:=ListNode (final None xs) None v]> h) (final None xs) (Some (zmalloc h))) as <-.
    { destruct xs as [|[n w] xs]; [done|]. destruct (final_cons_is_Some n w xs None) as [? ->]. done. }
    rewrite E2. simpl. eexists _, _. split; [done|]. split_and!; [|done|done].
    split; simpl; [done|done| | | |zl].
    + rewrite (dll_head D), first_app. by destruct xs as [|[]].
    + by rewrite final_app.
    + rewrite (dll_len D), wrapu_small; zl. unfold in_u. lia.
Qed.

Lemma NoDup_final_unique a n v b :
  NoDup (a ++ (n, v) :: b).*1 -> final None (a ++ (n, v) :: b) = Some n -> b = [].
Proof.
  rewrite fmap_app. simpl. intros (_ & _ & [Hn _]%NoDup_cons)%NoDup_app.
  rewrite final_app. simpl. destruct b as [|[m w] b _] using rev_ind; [done|].
  rewrite final_app. simpl. intros [= ->]. exfalso. apply Hn. rewrite fmap_app. set_solver.
Qed.

Lemma NoDup_first_unique a n v b :
  NoDup (a ++ (n, v) :: b).*1 -> first (a ++ (n, v) :: b) None = Some n -> a = [].
Proof.
  destruct a as [|[m w] a]; [done|]. simpl. intros [Hn _]%NoDup_cons [= ->].
  exfalso. apply Hn. rewrite fmap_app. set_solver.
Qed.

(** Where [listInsertNode] puts the new node. *)
Definition insert_at a (n : loc) (w : V) b (node : loc) (v : V) (after : bool) : list (loc * V) :=
  if after then a ++ (n, w) :: (node, v) :: b else a ++ (node, v) :: (n, w) :: b.

Lemma listInsertNode_spec h l a n w b v after :
  dll h l (a ++ (n, w) :: b) -> zlen (a ++ (n, w) :: b) + 1 < 2 ^ 64 ->
  exists h' l', listInsertNode h l n v after = Some (h', l') /\
    dll h' l' (insert_at a n w b (zmalloc h) v after) /\ same_methods l l' /\
    frame (fun m => m = zmalloc h \/ m ∈ (a ++ (n, w) :: b).*1) h h'.
Proof.
  intros D Hb. pose proof (zlen_nonneg a). pose proof (zlen_nonneg b).
  unfold listInsertNode. rewrite (dseg_lookup _ _ _ _ _ _ _ (dll_seg D)). simpl.
  set (x := if after then a ++ [(n, w)] else a). set (y := if after then b else (n, w) :: b).
  assert (x ++ y = a ++ (n, w) :: b) as Exy
    by (unfold x, y; destruct after; by rewrite <- ?app_assoc).
  destruct (link_between h x y (zmalloc h) v) as (h2 & h3 & E2 & E3 & Hnd & Hd & Hf);
    [rewrite Exy; apply D|rewrite Exy; apply D|apply zmalloc_fresh|].
  rewrite Exy in Hf.
  assert (insert_at a n w b (zmalloc h) v after = x ++ (zmalloc h, v) :: y) as Eins
    by (unfold insert_at, x, y; destruct after; by rewrite <- ?app_assoc).
  assert (zlen (x ++ (zmalloc h, v) :: y) = zlen (a ++ (n, w) :: b) + 1) as Elen
    by (rewrite <- Exy; zl).
  assert (wrapu 64 (zlen (a ++ (n, w) :: b) + 1) = zlen (a ++ (n, w) :: b) + 1) as Ew
    by (apply wrapu_small; unfold in_u; zl).
  rewrite Eins. unfold x, y in *. destruct after; simpl in E2, E3 |- *.
  - rewrite final_app in E2. simpl in E2. rewrite E2. simpl. rewrite E3. simpl.
    eexists _, _. split; [done|]. split_and!; [|by case_decide|done].
    split; [done|done| | | |by rewrite Elen].
    + case_decide; simpl; rewrite (dll_head D), !first_app; by destruct a as [|[]].
    + case_decide as Ht; simpl; rewrite !final_app; simpl.
      * rewrite (dll_tail D) in Ht. by rewrite (NoDup_final_unique _ _ _ _ (dll_nodup D) Ht).
      * rewrite (dll_tail D), final_app in Ht |- *. simpl in Ht |- *. by destruct b as [|[]].
    + case_decide; simpl; by rewrite (dll_len D), Elen, Ew.
  - rewrite E2. simpl. rewrite E3. simpl.
    eexists _, _. split; [done|]. split_and!; [|by case_decide|done].
    split; [done|done| | | |by rewrite Elen].
    + case_decide as Hh; simpl; rewrite !first_app; simpl.
      * rewrite (dll_head D) in Hh. by rewrite (NoDup_first_unique _ _ _ _ (dll_nodup D) Hh).
      * rewrite (dll_head D), first_app in Hh |- *. simpl in Hh |- *. by destruct a as [|[]].
    + case_decide; simpl; by rewrite (dll_tail D), !final_app.
    + case_decide; simpl; by rewrite (dll_len D), Elen, Ew.
Qed.

Lemma listDelNode_spec h l a n w b :
  dll h l (a ++ (n, w) :: b) ->
  exists h' l', listDelNode h l n = Some (h', l', if free l then [w] else []) /\
    dll h' l' (a ++ b) /\ same_methods l l' /\ h' !! n = None /\
    frame (fun m => m ∈ (a ++ (n, w) :: b).*1) h h'.
Proof.
  intros D. pose proof (zlen_nonneg a). pose proof (zlen_nonneg b).
  pose proof (dll_bound D) as Hbd. pose proof (dll_seg D) as Hd. pose proof (dll_nodup D) as Hnd.
  unfold listDelNode. rewrite (dseg_lookup _ _ _ _ _ _ _ Hd). simpl.
  apply dseg_app in Hd as [Ha [_ Hbs]]. simpl in Ha.
  rewrite fmap_app in Hnd. simpl in Hnd. apply NoDup_app in Hnd as (Hna & Hdis & [Hnb Hnbd]%NoDup_cons).
  destruct (relink_right h a _ (first b None) Hna Ha) as (h2 & E2 & Ha2 & Hf2).
  assert (dseg h2 (Some n) b None) as Hb2
    by (eapply dseg_frame; [exact Hf2| |exact Hbs]; set_solver).
  destruct (relink_left h2 b _ (final None a) Hnbd Hb2) as (h3 & E3 & Hb3 & Hf3).
  assert (dll (delete n h3) (Alist (first (a ++ b) None) (final None (a ++ b)) (dup l) (free l) (match_ l)
      (wrapu 64 (len l - 1))) (a ++ b)) as D'.
  { split; simpl; [| |done|done| |zl].
    - rewrite fmap_app. apply NoDup_app. split_and!; [done|set_solver|done].
    - assert (frame (fun m => m = n) h3 (delete n h3)) as Hfd by by apply frame_delete.
      eapply dseg_frame; [exact Hfd|rewrite fmap_app; set_solver|].
      apply dseg_app. split; [|done]. eapply dseg_frame; [exact Hf3|set_solver|done].
    - rewrite (dll_len D), wrapu_small; unfold in_u; zl. }
  assert (frame (fun m => m ∈ (a ++ (n, w) :: b).*1) h (delete n h3)) as HF.
  { rewrite fmap_app. simpl. intros m Hm. rewrite lookup_delete_ne, Hf3, Hf2; set_solver. }
  assert (head l = first a (Some n)) as Hhd by (rewrite (dll_head D), first_app; done).
  assert (tail l = final (Some n) b) as Htl by (rewrite (dll_tail D), final_app; done).
  assert (final None a = None -> a = []) as Hae by apply final_None_inv.
  assert (first b None = None -> b = []) as Hbe by by destruct b as [|[]].
  assert (final None (a ++ b) = final (final None a) b) as Hfin by apply final_app.
  assert (first (a ++ b) None = first a (first b None)) as Hfir by apply first_app.
  unfold set_next_if in E2. unfold set_prev_if in E3.
  destruct (final None a) eqn:Ea, (first b None) eqn:Eb; simplify_eq;
    rewrite ?E2; cbn [mbind option_bind]; rewrite ?E3; cbn [mbind option_bind];
    (eexists _, _; split; [done|split_and!; [|done|apply lookup_delete_eq|exact HF]]);
    (match type of D' with dll _ ?l' _ => match goal with |- dll _ ?l'' _ =>
       replace l'' with l'; [exact D'|] end end);
    unfold with_len, with_tail, with_head; simpl; f_equal;
    rewrite ?Hfir, ?Hfin, ?Hhd, ?Htl; try rewrite Hae by done; try rewrite Hbe by done; simpl; try done;
    try (destruct a as [|[]]; done); destruct b as [|[]]; done.
Qed.

Lemma listEmpty_loop_spec h fr pp xs :
  NoDup xs.*1 -> dseg h pp xs None ->
  exists h', listEmpty_loop (length xs) h fr (first xs None) = Some (h', if fr then xs.*2 else []) /\
    (forall m, m ∈ xs.*1 -> h' !! m = None) /\ frame (fun m => m ∈ xs.*1) h h'.
Proof.
  revert h pp. induction xs as [|[n v] xs IH]; intros h pp Hnd Hd.
  - exists h. split_and!; [by destruct fr|set_solver|done].
  - destruct Hd as [Hn Hd]. apply NoDup_cons in Hnd as [Hni Hnd]. simpl.
    rewrite Hn. simpl.
    destruct (IH (delete n h) (Some n)) as (h' & E & Hdel & Hf); [done| |].
    { eapply dseg_frame; [by apply (frame_delete (fun m => m = n))|set_solver|done]. }
    rewrite E. simpl. exists h'. split_and!; [by destruct fr| |].
    + intros m [->|Hm]%elem_of_cons; [|by apply Hdel].
      rewrite Hf by done. apply lookup_delete_eq.
    + intros m Hm. rewrite Hf by set_solver. apply lookup_delete_ne. set_solver.
Qed.

Lemma listEmpty_spec h l xs :
  dll h l xs ->
  exists h' l', listEmpty h l = Some (h', l', if free l then xs.*2 else []) /\
    dll h' l' [] /\ same_methods l l' /\
    (forall m, m ∈ xs.*1 -> h' !! m = None) /\ frame (fun m => m ∈ xs.*1) h h'.
Proof.
  intros D. unfold listEmpty. rewrite (dll_len D), (dll_head D).
  replace (Z.to_nat (zlen xs)) with (length xs) by (unfold zlen; lia).
  destruct (listEmpty_loop_spec h (free l) None xs (dll_nodup D) (dll_seg D)) as (h' & -> & Hdel & Hf).
  simpl. eexists h', _. split; [done|]. split_and!; [|done|done|done].
  split; [constructor|done..].
Qed.

(** ** Walking and searching *)

Lemma walk_next h pp xs :
  dseg h pp xs None -> forall i,
  walk next i h (first xs None) = Some (fst <$> xs !! i).
Proof.
  revert pp. induction xs as [|[n v] xs IH]; intros pp Hd i.
  - by destruct i.
  - destruct i as [|i]; [done|]. destruct Hd as [Hn Hd]. simpl. rewrite Hn. simpl. by eapply IH.
Qed.

Lemma walk_prev h xs nn :
  dseg h None xs nn -> forall i,
  walk prev i h (final None xs) = Some (fst <$> reverse xs !! i).
Proof.
  revert nn. induction xs as [|[n v] xs IH] using rev_ind; intros nn Hd i.
  - by destruct i.
  - rewrite reverse_app, final_app. destruct i as [|i]; [done|]. simpl.
    pose proof (dseg_lookup _ _ _ _ _ _ _ Hd) as Hn. rewrite Hn. simpl.
    apply dseg_app in Hd as [Hd _]. by eapply IH.
Qed.

Lemma dseg_size h pp xs nn : NoDup xs.*1 -> dseg h pp xs nn -> (length xs <= size h)%nat.
Proof.
  intros Hnd Hd. rewrite <- (length_fmap fst), <- (size_list_to_set (C:=gset loc)) by done.
  rewrite <- size_dom. apply subseteq_size. intros m Hm.
  apply elem_of_list_to_set in Hm. apply elem_of_dom.
  destruct (h !! m) eqn:E; [eauto|]. by destruct (dseg_lookup_notin _ _ _ _ _ Hd E).
Qed.

(** The test of [listSearchKey] on a node's value. *)
Definition key_matches l (key v : V) : bool :=
  match match_ l with Some m => m v key | None => bool_decide (key = v) end.

Lemma listSearchKey_loop_spec h l key pp xs fuel :
  dseg h pp xs None -> (length xs < fuel)%nat ->
  listSearchKey_loop fuel h l key (ListIter (first xs None) AL_START_HEAD) =
    Some (fst <$> list_find (fun x => Is_true (key_matches l key x.2)) xs ≫= fun ix => Some ix.2).
Proof.
  revert pp xs. induction fuel as [|fuel IH]; intros pp xs Hd Hf; [lia|].
  destruct xs as [|[n v] xs]; [done|]. destruct Hd as [Hn Hd].
  cbn [listSearchKey_loop]. unfold listNext. simpl. rewrite Hn. simpl. rewrite Hn. simpl.
  fold (key_matches l key v). simpl in Hf. destruct (key_matches l key v) eqn:E.
  - rewrite decide_True by done. done.
  - rewrite decide_False by tauto. rewrite (IH (Some n)) by (done || lia).
    by destruct (list_find _ xs) as [[]|].
Qed.

(** ** Rotation, concatenation and duplication *)

Lemma listRotate_spec h l xs n v :
  dll h l (xs ++ [(n, v)]) ->
  exists h' l', listRotate h l = Some (h', l') /\ dll h' l' ((n, v) :: xs) /\
    same_methods l l' /\ frame (fun m => m ∈ (xs ++ [(n, v)]).*1) h h'.
Proof.
  intros D. pose proof (dll_seg D) as Hd. pose proof (dll_nodup D) as Hnd.
  pose proof (dll_bound D) as Hbd. pose proof (dll_len D) as Hl. pose proof (zlen_nonneg xs).
  unfold listRotate. rewrite (dll_len D).
  destruct (Z.leb_spec (zlen (xs ++ [(n, v)])) 1).
  { destruct xs as [|x xs]; [|pose proof (zlen_nonneg xs); zl]. by exists h, l. }
  rewrite (dll_tail D), final_app. simpl. rewrite (dseg_lookup _ _ _ _ _ _ _ Hd). simpl.
  rewrite fmap_app in Hnd. simpl in Hnd. apply NoDup_app in Hnd as (Hna & Hdis & _).
  apply dseg_app in Hd as [Ha [Hn _]]. simpl in Ha, Hn.
  destruct (relink_right h xs _ None Hna Ha) as (h1 & E1 & H1 & Hf1).
  destruct (relink_left h1 xs _ (Some n) Hna H1) as (h2 & E2 & H2 & Hf2).
  assert (first xs None = head l) as Hh.
  { rewrite (dll_head D), first_app. destruct xs as [|[]]; [zl|done]. }
  assert (set_next h (final None xs) None = Some h1) as ->.
  { destruct xs as [|[k w] xs]; [zl|]. unfold set_next_if in E1.
    by destruct (final_cons_is_Some k w xs None) as [? Hk]; rewrite Hk in E1 |- *. }
  simpl. rewrite <- Hh.
  assert (set_prev h1 (first xs None) (Some n) = Some h2) as ->.
  { destruct xs as [|[k w] xs]; [zl|done]. }
  simpl. assert (n ∉ xs.*1) as Hni by set_solver.
  rewrite Hf2, Hf1, Hn by done. simpl. rewrite lookup_insert_eq. simpl.
  rewrite insert_insert_eq. eexists _, _. split; [done|]. split_and!; [|done|].
  - split; simpl; [by apply NoDup_cons| |done| |by rewrite Hl; zl|zl].
    + rewrite lookup_insert_eq. split; [done|].
      eapply dseg_frame; [by apply (frame_insert (fun m => m = n))|set_solver|done].
    + destruct xs as [|[k w] xs]; [zl|done].
  - rewrite fmap_app. intros m Hm. rewrite lookup_insert_ne, Hf2, Hf1; set_solver.
Qed.

Lemma listJoin_spec h l o xs ys :
  dll h l xs -> dll h o ys -> xs.*1 ## ys.*1 -> zlen xs + zlen ys < 2 ^ 64 ->
  exists h' l' o', listJoin h l o = Some (h', l', o') /\ dll h' l' (xs ++ ys) /\ dll h' o' [] /\
    same_methods l l' /\ same_methods o o' /\ frame (fun m => m ∈ (xs ++ ys).*1) h h'.
Proof.
  intros D O Hdis Hbd. pose proof (zlen_nonneg xs). pose proof (zlen_nonneg ys).
  unfold listJoin. rewrite (dll_tail D), (dll_head O), (dll_tail O).
  destruct (relink_left h ys None (final None xs) (dll_nodup O) (dll_seg O)) as (h1 & E1 & H1 & Hf1).
  rewrite E1. simpl.
  assert (dseg h1 None xs None) as Hx1 by (eapply dseg_frame; [exact Hf1|set_solver|apply D]).
  destruct (relink_right h1 xs None (first ys None) (dll_nodup D) Hx1) as (h2 & E2 & H2 & Hf2).
  assert (dseg h2 None (xs ++ ys) None) as Hd2.
  { apply dseg_app. split; [done|]. eapply dseg_frame; [exact Hf2|set_solver|done]. }
  assert (NoDup (xs ++ ys).*1) as Hnd.
  { rewrite fmap_app. apply NoDup_app. split_and!; [apply D|set_solver|apply O]. }
  assert (frame (fun m => m ∈ (xs ++ ys).*1) h h2) as Hf.
  { rewrite fmap_app. intros m Hm. rewrite Hf2, Hf1; set_solver. }
  assert (forall g, dll g (with_len (with_tail (with_head o None) None) 0) ([] : list (loc * V))) as Hempty
    by (intros g; split; [constructor|done..]).
  unfold set_next_if in E2. destruct (final None xs) eqn:Ex.
  - rewrite E2. simpl. eexists _, _, _. split; [done|].
    split_and!; [|done|by destruct (final None ys)|done|done].
    split; simpl; [done|done| | | |zl].
    + rewrite first_app. destruct xs as [|[] xs]; [done|].
      by destruct (final None ys); simpl; rewrite (dll_head D).
    + rewrite final_app, Ex. destruct ys as [|[k w] ys]; simpl; [by rewrite (dll_tail D)|].
      by destruct (final_cons_is_Some k w ys None) as [? Hk]; simpl in Hk; rewrite Hk.
    + destruct (final None ys); simpl; rewrite (dll_len D), (dll_len O), wrapu_small; unfold in_u; zl.
  - simplify_eq. simpl. apply final_None_inv in Ex as ->.
    eexists _, _, _. split; [done|]. split_and!; [|done|by destruct (final None ys)|done|done].
    split; simpl; [done|done|by destruct (final None ys)| | |zl].
    + destruct ys as [|[k w] ys]; simpl; [by rewrite (dll_tail D)|].
      by destruct (final_cons_is_Some k w ys None) as [? Hk]; simpl in Hk; rewrite Hk.
    + destruct (final None ys); simpl; rewrite (dll_len D), (dll_len O), wrapu_small; unfold in_u; zl.
Qed.

(** The values of the copy: the [dup] method applied to each value, or the values
    themselves; [None] when some call fails. *)
Definition dup_values l (vs : list V) : option (list V) :=
  mapM (match dup l with Some d => d | None => Some end) vs.

Lemma listDup_loop_spec fuel : forall h copy cs pre suf,
  dll h copy cs -> dseg h None (pre ++ suf) None -> cs.*1 ## (pre ++ suf).*1 ->
  (length suf < fuel)%nat -> zlen cs + zlen suf < 2 ^ 64 ->
  match dup_values copy suf.*2 with
  | Some vs => exists h' copy' new,
      listDup_loop fuel h copy (ListIter (first suf None) AL_START_HEAD) = Some (h', Some copy', []) /\
      dll h' copy' (cs ++ new) /\ new.*2 = vs /\ same_methods copy copy' /\
      frame (fun m => m ∈ (cs ++ new).*1) h h' /\ (forall m, m ∈ new.*1 -> h !! m = None)
  | None => exists h' freed,
      listDup_loop fuel h copy (ListIter (first suf None) AL_START_HEAD) = Some (h', None, freed) /\
      (forall m, h' !! m = if decide (m ∈ cs.*1) then None else h !! m)
  end.
Proof.
  induction fuel as [|fuel IH]; intros h copy cs pre suf D Hd Hdis Hf Hb; [lia|].
  destruct suf as [|[n v] suf].
  { exists h, copy, []. rewrite app_nil_r. split_and!; [done|done|done|done|done|set_solver]. }
  pose proof (dseg_lookup _ _ _ _ _ _ _ Hd) as Hn. simpl in Hf.
  pose proof (zlen_nonneg cs). pose proof (zlen_nonneg suf).
  cbn [listDup_loop]. unfold listNext. simpl first. simpl iter_next. cbv iota beta.
  rewrite Hn. simpl. rewrite Hn. simpl. unfold dup_values. simpl.
  destruct (match dup copy with Some d => d | None => Some end v) as [v'|] eqn:Ev.
  all: assert ((match dup copy with Some d => d v | None => Some v end) =
    match dup copy with Some d => d | None => Some end v) as Ev' by (by destruct (dup copy));
    rewrite Ev', Ev; simpl.
  2: { unfold listRelease. destruct (listEmpty_spec h copy cs D) as (h' & l' & -> & _ & _ & Hdel & Hfr).
    simpl. eexists _, _. split; [done|]. intros m. case_decide; [by apply Hdel|by apply Hfr]. }
  destruct (listAddNodeTail_spec h copy cs v' D) as (h1 & copy1 & -> & D1 & Hm1 & Hf1); [zl|].
  simpl. pose proof (zmalloc_fresh h) as Hfresh. set (node := zmalloc h) in *.
  pose proof (dseg_lookup_notin _ _ _ _ _ Hd Hfresh) as Hni.
  pose proof (dseg_lookup_notin _ _ _ _ _ (dll_seg D) Hfresh) as Hnc.
  replace (pre ++ (n, v) :: suf) with ((pre ++ [(n, v)]) ++ suf) in * by by rewrite <- app_assoc.
  specialize (IH h1 copy1 (cs ++ [(node, v')]) (pre ++ [(n, v)]) suf D1).
  assert (dup_values copy1 suf.*2 = mapM (match dup copy with Some d => d | None => Some end) suf.*2) as Edv.
  { unfold dup_values. destruct Hm1 as [-> _]. done. }
  rewrite Edv in IH. ospecialize (IH _ _ _ _).
  { eapply dseg_frame; [exact Hf1| |done]. intros m Hm [->|Hc]; [done|]. by apply (Hdis m). }
  { rewrite fmap_app. intros m [Hc| ->%list_elem_of_singleton]%elem_of_app Hx; [by apply (Hdis m)|done]. }
  { lia. }
  { zl. }
  clear Hdis Hni Hd Hn.
  change (list_fmap (loc * V)%type V snd suf) with (suf.*2).
  destruct (mapM _ suf.*2) as [vs|]; simpl.
  - destruct IH as (h' & copy' & new & E & D' & Hv & Hm & Hfr & Hfresh').
    exists h', copy', ((node, v') :: new). rewrite <- app_assoc in D', Hfr. simpl in D', Hfr.
    split_and!; [done|done|by simpl; f_equal| | |].
    + unfold same_methods in *. naive_solver congruence.
    + rewrite fmap_app in *. simpl in *. intros m Hmm. rewrite Hfr, Hf1; set_solver.
    + simpl. intros m [->|Hmem]%elem_of_cons; [done|].
      pose proof (Hfresh' m Hmem) as Hnone. destruct (decide (m = node \/ m ∈ cs.*1)) as [Hin|Hin].
      * exfalso. pose proof (dll_seg D1) as Hseg.
        apply (dseg_lookup_notin _ _ _ _ _ Hseg Hnone). rewrite fmap_app. set_solver.
      * by rewrite <- Hf1.
  - destruct IH as (h' & freed & E & Hh). exists h', freed. split; [done|].
    intros m. rewrite Hh, fmap_app. simpl. destruct (decide (m ∈ cs.*1)).
    + rewrite decide_True by set_solver. done.
    + destruct (decide (m = node)) as [->|]; [by rewrite decide_True by set_solver|].
      rewrite decide_False, Hf1 by set_solver. done.
Qed.

Lemma listDup_spec h l xs :
  dll h l xs ->
  match dup_values l xs.*2 with
  | Some vs => exists h' copy cs,
      listDup h l = Some (h', Some copy, []) /\ dll h' copy cs /\ cs.*2 = vs /\
      same_methods l copy /\ dll h' l xs
  | None => exists freed, listDup h l = Some (h, None, freed)
  end.
Proof.
  intros D. unfold listDup. set (c0 := Alist _ _ _ _ _ _).
  assert (dll h c0 []) as D0 by (split; [constructor|done..]).
  pose proof (listDup_loop_spec (S (size h)) h c0 [] [] xs D0 (dll_seg D)) as L.
  ospecialize (L _ _ _).
  { set_solver. } { pose proof (dseg_size _ _ _ _ (dll_nodup D) (dll_seg D)). lia. } { apply D. }
  change (dup_values c0 xs.*2) with (dup_values l xs.*2) in L.
  unfold listRewind. rewrite (dll_head D). destruct (dup_values l xs.*2) as [vs|].
  - destruct L as (h' & copy & new & E & D' & Hv & Hm & Hf & Hfresh).
    exists h', copy, new. split_and!; [done|done|done|done|].
    eapply dll_frame; [exact Hf| |done]. simpl. intros m Hm1 Hm2.
    apply (dseg_lookup_notin _ _ _ _ _ (dll_seg D) (Hfresh m Hm2)). done.
  - destruct L as (h' & freed & E & Hh). exists freed. rewrite E. do 3 f_equal.
    apply map_eq. intros m. rewrite Hh. by rewrite decide_False by set_solver.
Qed.

(** [it] is about to visit the nodes [suf] of a list, from the head on. *)
Definition iter_at (it : listIter) (suf : list (loc * V)) : Prop :=
  iter_next it = first suf None /\ iter_direction it = AL_START_HEAD.

Lemma listNext_spec h l pre suf it :
  dll h l (pre ++ suf) -> iter_at it suf ->
  exists it', listNext h it = Some (first suf None, it') /\ iter_at it' (List.tl suf).
Proof.
  intros D [Hn Hdir]. unfold listNext. rewrite Hn. destruct suf as [|[n v] suf]; simpl.
  - exists it. done.
  - rewrite (dseg_lookup _ _ _ _ _ _ _ (dll_seg D)). simpl. rewrite Hdir.
    eexists. split; [done|]. done.
Qed.
End specs.

(** ** An allocator, and a list of two nodes, for concrete runs *)

#[export] Instance zmalloc_Z : Zmalloc Z := {
  zmalloc h := fresh (dom h);
  zmalloc_fresh h := proj1 (not_elem_of_dom h _) (is_fresh (dom h));
}.

Definition sample_heap : gmap loc (listNode Z) :=
  {[ 1%positive := ListNode None (Some 2%positive) 10;
     2%positive := ListNode (Some 1%positive) None 20 ]}.
Definition sample_list : alist Z :=
  Alist (Some 1%positive) (Some 2%positive) (Some (fun v => if v =? 20 then None else Some v))
    true None 2.
Definition sample_nodes : list (loc * Z) := [(1%positive, 10); (2%positive, 20)].

Lemma sample_dll : dll sample_heap sample_list sample_nodes.
Proof. split; [|by repeat split|done..]. repeat constructor; set_solver. Qed.

(** Adding at the head or the tail of a list yields the sequence with the new
    value there, leaves every other node of the heap as it was, and keeps the
    methods of the list. *)
Theorem listAddNode_refines (V : Type) (M : Zmalloc V) (h : gmap loc (listNode V)) (l : alist V)
    (xs : list (loc * V)) (v : V) :
  dll h l xs -> zlen xs + 1 < 2 ^ 64 ->
  (exists h' l', listAddNodeHead h l v = Some (h', l') /\
    dll h' l' ((zmalloc h, v) :: xs) /\ same_methods l l' /\
    frame (fun m => m = zmalloc h \/ m ∈ xs.*1) h h') /\
  (exists h' l', listAddNodeTail h l v = Some (h', l') /\
    dll h' l' (xs ++ [(zmalloc h, v)]) /\ same_methods l l' /\
    frame (fun m => m = zmalloc h \/ m ∈ xs.*1) h h').
Proof. intros. split; [by apply listAddNodeHead_spec|by apply listAddNodeTail_spec]. Qed.

Lemma listAddNode_refines_witness :
  exists h' l', listAddNodeHead sample_heap sample_list 30 = Some (h', l') /\
    dll h' l' [(3%positive, 30); (1%positive, 10); (2%positive, 20)].
Proof.
  destruct (listAddNode_refines Z _ sample_heap sample_list sample_nodes 30 sample_dll ltac:(vm_compute; reflexivity))
    as [(h' & l' & E & D & _) _].
  exists h', l'. split; [exact E|exact D].
Defined.

(** [listInsertNode] puts the value right after or right before the given
    node, wherever that node is in the list. *)
Theorem listInsertNode_refines (V : Type) (EqV : EqDecision V) (M : Zmalloc V)
    (h : gmap loc (listNode V)) (l : alist V) (a b : list (loc * V)) (n : loc) (w v : V) (after : bool) :
  dll h l (a ++ (n, w) :: b) -> zlen (a ++ (n, w) :: b) + 1 < 2 ^ 64 ->
  exists h' l', listInsertNode h l n v after = Some (h', l') /\
    dll h' l' (if after then a ++ (n, w) :: (zmalloc h, v) :: b
               else a ++ (zmalloc h, v) :: (n, w) :: b).
Proof.
  intros D Hb. destruct (listInsertNode_spec h l a n w b v after D Hb) as (h' & l' & E & D' & _).
  by exists h', l'.
Qed.

Lemma listInsertNode_refines_witness :
  exists h' l', listInsertNode sample_heap sample_list 1%positive 30 true = Some (h', l') /\
    dll h' l' [(1%positive, 10); (3%positive, 30); (2%positive, 20)].
Proof.
  destruct (listInsertNode_refines Z _ _ sample_heap sample_list [] [(2%positive, 20)] 1%positive 10 30 true
    sample_dll ltac:(vm_compute; reflexivity)) as (h' & l' & E & D).
  exists h', l'. split; [exact E|exact D].
Defined.

(** Removing the node an iterator just returned is safe: [listDelNode] unlinks
    and frees exactly that node, calls the [free] method on its value, and the
    iterator goes on with the nodes that followed it. *)
Theorem listDelNode_during_iteration (V : Type) (EqV : EqDecision V)
    (h : gmap loc (listNode V)) (l : alist V) (it : listIter) (a b : list (loc * V)) (n : loc) (v : V) :
  dll h l (a ++ (n, v) :: b) -> iter_at it ((n, v) :: b) ->
  exists it' h' l',
    listNext h it = Some (Some n, it') /\
    listDelNode h l n = Some (h', l', if free l then [v] else []) /\
    dll h' l' (a ++ b) /\ h' !! n = None /\ iter_at it' b /\
    frame (fun m => m ∈ (a ++ (n, v) :: b).*1) h h'.
Proof.
  intros D Hit. destruct (listNext_spec h l a ((n, v) :: b) it D Hit) as (it' & E & Hit').
  destruct (listDelNode_spec h l a n v b D) as (h' & l' & E' & D' & _ & Hn & Hf).
  by exists it', h', l'.
Qed.

Lemma listDelNode_during_iteration_witness :
  exists it' h' l',
    listNext sample_heap (listRewind sample_list) = Some (Some 1%positive, it') /\
    listDelNode sample_heap sample_list 1%positive = Some (h', l', [10]) /\
    dll h' l' [(2%positive, 20)].
Proof.
  destruct (listDelNode_during_iteration Z _ sample_heap sample_list (listRewind sample_list)
    [] [(2%positive, 20)] 1%positive 10 sample_dll (conj eq_refl eq_refl))
    as (it' & h' & l' & E & E' & D & _).
  exists it', h', l'. split; [exact E|]. split; [exact E'|exact D].
Defined.

(** [listIndex] counts from the head for [0, 1, ...] and from the tail for
    [-1, -2, ...], and returns [NULL] exactly when the index is out of range. *)
Theorem listIndex_refines (V : Type) (h : gmap loc (listNode V)) (l : alist V)
    (xs : list (loc * V)) (index : Z) :
  dll h l xs -> - 2 ^ 63 < index < 2 ^ 63 ->
  listIndex h l index =
    Some (fst <$> (if index <? 0 then reverse xs !! Z.to_nat (- index - 1)
                   else xs !! Z.to_nat index)).
Proof.
  intros D Hi. unfold listIndex. destruct (Z.ltb_spec index 0).
  - rewrite (proj2 (Z.eqb_neq _ _)) by lia. rewrite (dll_tail D).
    apply (walk_prev h xs None). apply D.
  - rewrite (dll_head D). apply (walk_next h None xs). apply D.
Qed.

Lemma listIndex_refines_witness :
  listIndex sample_heap sample_list (-1) = Some (Some 2%positive).
Proof.
  rewrite (listIndex_refines Z sample_heap sample_list sample_nodes (-1) sample_dll ltac:(lia)).
  reflexivity.
Defined.

(** [listSearchKey] returns the first node whose value matches the key (by the
    [match] method, or by pointer equality without one), [NULL] if there is none. *)
Theorem listSearchKey_refines (V : Type) (EqV : EqDecision V)
    (h : gmap loc (listNode V)) (l : alist V) (xs : list (loc * V)) (key : V) :
  dll h l xs ->
  exists r, listSearchKey h l key = Some r /\
    match r with
    | Some n => exists a v b, xs = a ++ (n, v) :: b /\ key_matches l key v = true /\
        Forall (fun x => key_matches l key x.2 = false) a
    | None => Forall (fun x => key_matches l key x.2 = false) xs
    end.
Proof.
  intros D. unfold listSearchKey, listRewind. rewrite (dll_head D).
  pose proof (dseg_size _ _ _ _ (dll_nodup D) (dll_seg D)).
  rewrite (listSearchKey_loop_spec h l key None xs) by (apply D || lia).
  eexists. split; [done|]. destruct (list_find _ xs) as [[i [n v]]|] eqn:E; simpl.
  - apply list_find_Some in E as (Hl & Hm & Hlt).
    exists (take i xs), v, (drop (S i) xs). split_and!.
    + by rewrite take_drop_middle.
    + simpl in Hm. by destruct (key_matches l key v).
    + apply Forall_forall. intros x Hx. apply list_elem_of_lookup in Hx as [j Hj].
      apply lookup_take_Some in Hj as [Hj Hji]. specialize (Hlt j x Hj Hji).
      destruct (key_matches l key x.2); [destruct Hlt; done|done].
  - apply list_find_None in E. eapply Forall_impl; [exact E|]. simpl. intros x Hx.
    destruct (key_matches l key x.2); [destruct Hx; done|done].
Qed.

Lemma listSearchKey_refines_witness :
  exists r, listSearchKey sample_heap sample_list 20 = Some r /\ r = Some 2%positive.
Proof.
  destruct (listSearchKey_refines Z _ sample_heap sample_list sample_nodes 20 sample_dll) as (r & E & _).
  exists r. split; [exact E|]. vm_compute in E. congruence.
Defined.

(** [listDup] leaves the original list as it was and returns a list of new
    nodes with the (duplicated) values in order; when the [dup] method fails it
    returns [NULL] and the heap is exactly the one it started from. *)
Theorem listDup_refines (V : Type) (EqV : EqDecision V) (M : Zmalloc V)
    (h : gmap loc (listNode V)) (l : alist V) (xs : list (loc * V)) :
  dll h l xs ->
  match dup_values l xs.*2 with
  | Some vs => exists h' copy cs,
      listDup h l = Some (h', Some copy, []) /\ dll h' copy cs /\ cs.*2 = vs /\
      same_methods l copy /\ dll h' l xs
  | None => exists freed, listDup h l = Some (h, None, freed)
  end.
Proof. apply listDup_spec. Qed.

(** The [dup] method of the sample list fails on its second value. *)
Lemma listDup_refines_witness :
  dup_values sample_list sample_nodes.*2 = None /\
  exists freed, listDup sample_heap sample_list = Some (sample_heap, None, freed).
Proof.
  split; [reflexivity|].
  exact (listDup_refines Z _ _ sample_heap sample_list sample_nodes sample_dll).
Defined.

(** [listRotate] moves the last node to the front; [listJoin] appends the nodes
    of the second list to the first and leaves the second empty. *)
Theorem listRotate_listJoin_refine (V : Type) (EqV : EqDecision V)
    (h : gmap loc (listNode V)) (l o : alist V) (xs ys : list (loc * V)) (n : loc) (v : V) :
  dll h l (xs ++ [(n, v)]) -> dll h o ys ->
  (xs ++ [(n, v)]).*1 ## ys.*1 -> zlen (xs ++ [(n, v)]) + zlen ys < 2 ^ 64 ->
  (exists h' l', listRotate h l = Some (h', l') /\ dll h' l' ((n, v) :: xs) /\ dll h' o ys) /\
  (exists h' l' o', listJoin h l o = Some (h', l', o') /\
    dll h' l' (xs ++ [(n, v)] ++ ys) /\ dll h' o' []).
Proof.
  intros D O Hdis Hb. split.
  - destruct (listRotate_spec h l xs n v D) as (h' & l' & E & D' & _ & Hf).
    exists h', l'. split_and!; [done|done|]. eapply dll_frame; [exact Hf| |done].
    intros m Hm Hx. by apply (Hdis m).
  - destruct (listJoin_spec h l o _ _ D O Hdis Hb) as (h' & l' & o' & E & D' & O' & _).
    exists h', l', o'. rewrite <- app_assoc in D'. done.
Qed.

Lemma listRotate_listJoin_refine_witness :
  exists h' l', listRotate sample_heap sample_list = Some (h', l') /\
    dll h' l' [(2%positive, 20); (1%positive, 10)].
Proof.
  destruct (listRotate_listJoin_refine Z _ sample_heap sample_list listCreate [(1%positive, 10)] []
    2%positive 20 sample_dll) as [(h' & l' & E & D & _) _].
  - split; [constructor|done..].
  - intros m _ Hm. set_solver.
  - reflexivity.
  - exists h', l'. split; [exact E|exact D].
Defined.
