(* ===== verification/Util.v ===== *)
(** * Numbers and strings (util.c)

    A C string of known length is the list of its bytes. [ll2string] writes into
    a buffer, so it takes the buffer and returns it updated; [string2ll] and
    [string2l] only read, and return [None] for the C return value 0. *)

From S2P Require Import Prelude.

Definition LLONG_MIN : Z := - 2 ^ 63.
Definition LLONG_MAX : Z := 2 ^ 63 - 1.
Definition ULLONG_MAX : Z := 2 ^ 64 - 1.
(** [long] has 64 bits on the 64-bit targets the server is built for. *)
Definition LONG_MIN : Z := - 2 ^ 63.
Definition LONG_MAX : Z := 2 ^ 63 - 1.

(** A C comparison used as an integer. *)
Definition b2z (b : bool) : Z := if b then 1 else 0.

(** The recursive call divides by [10^12], so two levels cover a [uint64_t]. *)
Fixpoint digits10_rec (fuel : nat) (v : Z) : Z :=
  match fuel with
  | O => 0
  | S fuel =>
      if v <? 10 then 1
      else if v <? 100 then 2
      else if v <? 1000 then 3
      else if v <? 1000000000000 then
        if v <? 100000000 then
          if v <? 1000000 then
            if v <? 10000 then 4 else 5 + b2z (v >=? 100000)
          else 7 + b2z (v >=? 10000000)
        else if v <? 10000000000 then 9 + b2z (v >=? 1000000000)
        else 11 + b2z (v >=? 100000000000)
      else 12 + digits10_rec fuel (v / 1000000000000)
  end.

Definition digits10 (v : Z) : Z := digits10_rec 2 v.

Definition sdigits10 (v : Z) : Z :=
  if v <? 0 then
    let uv := if v =? LLONG_MIN then wrapu 64 (LLONG_MAX + 1) else wrapu 64 (- v) in
    digits10 uv + 1
  else digits10 v.

(** The table of [ll2string]: the two digits of [0], [1], ..., [99]. *)
Definition digits_table : list Z :=
  [48;48;48;49;48;50;48;51;48;52;48;53;48;54;48;55;48;56;48;57;
   49;48;49;49;49;50;49;51;49;52;49;53;49;54;49;55;49;56;49;57;
   50;48;50;49;50;50;50;51;50;52;50;53;50;54;50;55;50;56;50;57;
   51;48;51;49;51;50;51;51;51;52;51;53;51;54;51;55;51;56;51;57;
   52;48;52;49;52;50;52;51;52;52;52;53;52;54;52;55;52;56;52;57;
   53;48;53;49;53;50;53;51;53;52;53;53;53;54;53;55;53;56;53;57;
   54;48;54;49;54;50;54;51;54;52;54;53;54;54;54;55;54;56;54;57;
   55;48;55;49;55;50;55;51;55;52;55;53;55;54;55;55;55;56;55;57;
   56;48;56;49;56;50;56;51;56;52;56;53;56;54;56;55;56;56;56;57;
   57;48;57;49;57;50;57;51;57;52;57;53;57;54;57;55;57;56;57;57;0].

(** [dst[next] = digits[i+1]; dst[next-1] = digits[i]]. *)
Definition put2 (dst : list Z) (next i : Z) : option (list Z) :=
  d1 ← zidx digits_table (i + 1);
  dst ← wr dst next [d1];
  d0 ← zidx digits_table i;
  wr dst (next - 1) [d0].

(** The [while (value >= 100)] loop and the last one or two digits. One unit of
    fuel per iteration; each divides the value by 100. *)
Fixpoint ll2string_digits (fuel : nat) (dst : list Z) (next value : Z) : option (list Z) :=
  if value >=? 100 then
    match fuel with
    | O => None
    | S fuel =>
        let i := wraps 32 (value mod 100 * 2) in
        dst ← put2 dst next i;
        ll2string_digits fuel dst (wrapu 32 (next - 2)) (value / 100)
    end
  else if value <? 10 then wr dst next [48 + wrapu 32 value]
  else put2 dst next (wraps 32 (wrapu 32 value * 2)).

(** Returns the C return value and the buffer. *)
Definition ll2string (dst : list Z) (dstlen svalue : Z) : option (Z * list Z) :=
  let '(value, negative) :=
    if svalue <? 0 then
      (if svalue =? LLONG_MIN then wrapu 64 (LLONG_MAX + 1) else wrapu 64 (- svalue), 1)
    else (svalue, 0) in
  let length := wrapu 32 (digits10 value + negative) in
  if length >=? dstlen then Some (0, dst)
  else
    dst ← wr dst length [0];
    dst ← ll2string_digits 10 dst (wrapu 32 (length - 1)) value;
    dst ← (if negative =? 1 then wr dst 0 [45] else Some dst);
    Some (length, dst).

Definition is_digit (c : Z) : bool := (48 <=? c) && (c <=? 57).

(** The digit loop of [string2ll]: [None] is the overflow return, otherwise the
    value and the bytes not consumed. *)
Fixpoint string2ll_loop (v : Z) (p : list Z) : option (Z * list Z) :=
  match p with
  | [] => Some (v, [])
  | c :: p' =>
      if is_digit c then
        if v >? ULLONG_MAX / 10 then None
        else
          let v := wrapu 64 (v * 10) in
          if v >? ULLONG_MAX - (c - 48) then None
          else string2ll_loop (wrapu 64 (v + (c - 48))) p'
      else Some (v, p)
  end.

(** [None] is the return value 0, [Some v] the return value 1 with [v] stored. *)
Definition string2ll (s : list Z) : option Z :=
  match s with
  | [] => None
  | c :: s' =>
      if (zlen s =? 1) && (c =? 48) then Some 0
      else
        '(negative, p) ← (if c =? 45 then
                            match s' with [] => None | _ => Some (true, s') end
                          else Some (false, s));
        match p with
        | [] => None
        | c :: p =>
            if (49 <=? c) && (c <=? 57) then
              '(v, rest) ← string2ll_loop (c - 48) p;
              match rest with
              | _ :: _ => None
              | [] =>
                  if negative : bool then
                    if v >? wrapu 64 (- (LLONG_MIN + 1)) + 1 then None
                    else Some (wraps 64 (wrapu 64 (- v)))
                  else if v >? LLONG_MAX then None else Some (wraps 64 v)
              end
            else None
        end
  end.

Definition string2l (s : list Z) : option Z :=
  llval ← string2ll s;
  if (llval <? LONG_MIN) || (llval >? LONG_MAX) then None else Some llval.

(** ** Decimal notation

    [dec n v] is the decimal representation of [v], for [0 <= v < 10^n]. *)

Fixpoint dec (n : nat) (v : Z) : list Z :=
  match n with
  | O => []
  | S n => if v <? 10 then [48 + v] else dec n (v / 10) ++ [48 + v mod 10]
  end.

(** Twenty digits are enough for 64 bits. *)
Definition udec (v : Z) : list Z := dec 20 v.
Definition sdec (v : Z) : list Z := if v <? 0 then 45 :: udec (- v) else udec v.

Definition dval (ds : list Z) : Z := fold_left (fun v d => v * 10 + (d - 48)) ds 0.

Lemma pow10_succ n : 10 ^ Z.of_nat (S n) = 10 * 10 ^ Z.of_nat n.
Proof. rewrite Nat2Z.inj_succ, Z.pow_succ_r; lia. Qed.

Lemma pow10_pos n : 0 <= n -> 0 < 10 ^ n.
Proof. intros. apply Z.pow_pos_nonneg; lia. Qed.

Lemma div10_range n v : 0 <= v < 10 ^ Z.of_nat (S n) -> 0 <= v / 10 < 10 ^ Z.of_nat n.
Proof.
  rewrite pow10_succ. intros. split; [apply Z.div_pos; lia|apply Z.div_lt_upper_bound; lia].
Qed.

Lemma dec_S n v : dec (S n) v = if v <? 10 then [48 + v] else dec n (v / 10) ++ [48 + v mod 10].
Proof. done. Qed.

(** The length of the representation is determined by the magnitude. *)
Lemma zlen_dec n v k :
  0 <= v < 10 ^ Z.of_nat (S n) -> 1 <= k -> (k = 1 \/ 10 ^ (k - 1) <= v) -> v < 10 ^ k ->
  zlen (dec (S n) v) = k.
Proof.
  revert v k. induction n as [|n IH]; intros v k Hv Hk Hlo Hhi; rewrite dec_S;
    destruct (Z.ltb_spec v 10) as [Hs|Hs].
  1, 3: destruct Hlo as [->|Hlo]; [done|]; destruct (Z.eq_dec k 1) as [->|]; [done|];
    pose proof (Z.pow_le_mono_r 10 1 (k - 1)); lia.
  { simpl in Hv. lia. }
  assert (k <> 1) by (intros ->; simpl in Hhi; lia).
  replace k with ((k - 1) + 1) in Hhi by lia. rewrite Z.pow_add_r in Hhi by lia.
  rewrite zlen_app, (IH _ (k - 1)); zl.
  - apply div10_range. lia.
  - destruct (Z.eq_dec k 2); [lia|right]. destruct Hlo as [|Hlo]; [lia|].
    replace (k - 1) with ((k - 1 - 1) + 1) in Hlo by lia. rewrite Z.pow_add_r in Hlo by lia.
    apply Z.div_le_lower_bound; lia.
  - apply Z.div_lt_upper_bound; lia.
Qed.

Lemma zlen_udec v k :
  0 <= v < 10 ^ 20 -> 1 <= k -> (k = 1 \/ 10 ^ (k - 1) <= v) -> v < 10 ^ k -> zlen (udec v) = k.
Proof. intros. unfold udec. apply zlen_dec; done. Qed.

(** Splitting off the low [j] digits. *)
Lemma zlen_udec_pos v : 0 <= v < 10 ^ 20 ->
  exists k, 1 <= k <= 20 /\ zlen (udec v) = k /\ (k = 1 \/ 10 ^ (k - 1) <= v) /\ v < 10 ^ k.
Proof.
  intros Hv.
  assert (exists k, 1 <= k <= 20 /\ (k = 1 \/ 10 ^ (k - 1) <= v) /\ v < 10 ^ k) as (k & Hk & H1 & H2).
  { assert (forall n : nat, (1 <= n)%nat -> (n <= 20)%nat -> v < 10 ^ Z.of_nat n ->
      exists k, 1 <= k <= 20 /\ (k = 1 \/ 10 ^ (k - 1) <= v) /\ v < 10 ^ k) as G.
    { induction n as [|n IH]; intros Hn1 Hn Hlt; [lia|].
      destruct (Z.lt_ge_cases v (10 ^ Z.of_nat n)) as [Hl|Hge].
      - destruct n as [|n]; [|apply IH; [lia|lia|done]]. exists 1. split_and!; [lia|lia|auto|done].
      - exists (Z.of_nat (S n)). split_and!; [lia|lia| |done].
        right. replace (Z.of_nat (S n) - 1) with (Z.of_nat n) by lia. done. }
    apply (G 20%nat); [lia|lia|]. apply Hv. }
  exists k. split_and!; [lia|lia|by apply zlen_udec; [|lia|..]|done|done].
Qed.

Lemma zlen_udec_shift v j :
  0 <= v < 10 ^ 20 -> 0 <= j -> 10 ^ j <= v -> zlen (udec v) = j + zlen (udec (v / 10 ^ j)).
Proof.
  intros Hv Hj Hge. pose proof (pow10_pos j Hj).
  assert (1 <= v / 10 ^ j <= v) by (split; [apply Z.div_le_lower_bound; lia|apply Z.div_le_upper_bound; nia]).
  destruct (zlen_udec_pos (v / 10 ^ j)) as (k & Hk & -> & Hlo & Hhi); [lia|].
  apply zlen_udec; [done|lia| |].
  - right. destruct Hlo as [->|Hlo]; [by replace (j + 1 - 1) with j by lia|].
    replace (j + k - 1) with (j + (k - 1)) by lia. rewrite Z.pow_add_r by lia.
    pose proof (Z.mul_div_le v (10 ^ j)). nia.
  - rewrite Z.pow_add_r by lia. pose proof (Z.mod_pos_bound v (10 ^ j)).
    pose proof (Z.div_mod v (10 ^ j)). nia.
Qed.

Lemma digits10_small fuel v : 0 <= v < 10 ^ 12 -> digits10_rec (S fuel) v = zlen (udec v).
Proof.
  intros Hv. cbn [digits10_rec]. rewrite !Z.geb_leb. symmetry.
  assert (0 <= v < 10 ^ 20) by lia.
  repeat (case_if; [|]); unfold b2z; try case_if;
    solve [apply zlen_udec; [done|lia|(left; lia) || (right; simpl; lia)|simpl; lia] | lia].
Qed.

Lemma digits10_correct v : in_u 64 v -> digits10 v = zlen (udec v).
Proof.
  intros Hv. unfold in_u in Hv. destruct (Z.lt_ge_cases v (10 ^ 12)).
  - apply digits10_small. lia.
  - unfold digits10. cbn [digits10_rec].
    repeat (rewrite (proj2 (Z.ltb_ge v _)) by lia).
    change 1000000000000 with (10 ^ 12).
    rewrite (zlen_udec_shift v 12) by lia. f_equal. apply (digits10_small 0).
    split; [apply Z.div_pos; lia|apply Z.div_lt_upper_bound; lia].
Qed.

Lemma udec_range v : in_u 64 v -> 1 <= zlen (udec v) <= 20.
Proof.
  intros Hv. destruct (zlen_udec_pos v) as (k & Hk & -> & _); [unfold in_u in Hv; lia|done].
Qed.

(** Fuel does not matter once it is enough. *)
Lemma dec_fuel n m v :
  0 <= v < 10 ^ Z.of_nat (S n) -> (n <= m)%nat -> dec (S n) v = dec (S m) v.
Proof.
  revert m v. induction n as [|n IH]; intros m v Hv Hm; rewrite (dec_S m v).
  - rewrite dec_S, (proj2 (Z.ltb_lt _ _)) by (simpl in Hv; lia). done.
  - rewrite (dec_S (S n) v). destruct (v <? 10); [done|]. destruct m as [|m]; [lia|].
    rewrite (IH m); [done| |lia]. by apply div10_range.
Qed.

Lemma udec_small v : 0 <= v < 10 -> udec v = [48 + v].
Proof. intros. unfold udec. rewrite dec_S, (proj2 (Z.ltb_lt _ _)) by lia. done. Qed.

Lemma udec_step v : 10 <= v < 10 ^ 20 -> udec v = udec (v / 10) ++ [48 + v mod 10].
Proof.
  intros. unfold udec. rewrite (dec_S 19 v), (proj2 (Z.ltb_ge _ _)) by lia.
  rewrite (dec_fuel 18 19); [done| |lia]. apply div10_range. lia.
Qed.

Lemma digits_table_spec r :
  0 <= r < 100 ->
  zidx digits_table (r * 2) = Some (48 + r / 10) /\
  zidx digits_table (r * 2 + 1) = Some (48 + r mod 10).
Proof.
  intros Hr.
  assert (forallb (fun r => bool_decide (zidx digits_table (r * 2) = Some (48 + r / 10)) &&
    bool_decide (zidx digits_table (r * 2 + 1) = Some (48 + r mod 10))) (seqZ 0 100) = true) as H
    by (vm_compute; reflexivity).
  rewrite forallb_forall in H. specialize (H r).
  rewrite andb_true_iff, !bool_decide_eq_true in H. apply H.
  apply list_elem_of_In, elem_of_seqZ. lia.
Qed.

Lemma put2_spec a x y c next r :
  zlen a = next - 1 -> 0 <= r < 100 ->
  put2 (a ++ x :: y :: c) next (r * 2) = Some (a ++ (48 + r / 10) :: (48 + r mod 10) :: c).
Proof.
  intros Ha Hr. unfold put2. destruct (digits_table_spec r Hr) as [E0 E1]. rewrite E0, E1. simpl.
  change (a ++ x :: y :: c) with (a ++ [x] ++ [y] ++ c).
  rewrite app_assoc, wr_app, <- app_assoc by zl. simpl.
  match goal with |- wr (a ++ x :: ?t) _ _ = _ => change (a ++ x :: t) with (a ++ [x] ++ t) end.
  by rewrite wr_app by zl.
Qed.

Lemma udec_step2 v :
  100 <= v < 10 ^ 20 ->
  udec v = udec (v / 100) ++ [48 + v mod 100 / 10; 48 + (v mod 100) mod 10].
Proof.
  intros Hv. rewrite udec_step by lia.
  rewrite (udec_step (v / 10)) by (split; [apply Z.div_le_lower_bound|apply Z.div_lt_upper_bound]; lia).
  rewrite <- app_assoc, Z.div_div by lia. change (10 * 10) with 100. simpl.
  do 2 f_equal; [|f_equal]; Z.div_mod_to_equations; lia.
Qed.

(** The digit loop fills the last [zlen (udec value)] bytes up to [next]. *)
Lemma ll2string_digits_spec fuel : forall a b c next value,
  in_u 64 value -> value < 100 ^ (Z.of_nat fuel + 1) ->
  zlen b = zlen (udec value) -> zlen a + zlen b = next + 1 -> next < 2 ^ 31 ->
  ll2string_digits fuel (a ++ b ++ c) next value = Some (a ++ udec value ++ c).
Proof.
  assert (forall fuel a b c next value, 0 <= value < 100 ->
    zlen b = zlen (udec value) -> zlen a + zlen b = next + 1 ->
    ll2string_digits fuel (a ++ b ++ c) next value = Some (a ++ udec value ++ c)) as Hbase.
  { intros fuel' a b c next value Hv Hb Hn.
    assert (ll2string_digits fuel' (a ++ b ++ c) next value =
      if value <? 10 then wr (a ++ b ++ c) next [48 + wrapu 32 value]
      else put2 (a ++ b ++ c) next (wraps 32 (wrapu 32 value * 2))) as ->.
    { destruct fuel'; simpl; rewrite Z.geb_leb, (proj2 (Z.leb_gt _ _)) by lia; done. }
    rewrite (wrapu_small 32 value) by (unfold in_u; lia). destruct (Z.ltb_spec value 10).
    - rewrite udec_small in * by lia. apply wr_app; zl.
    - rewrite wraps_small by (unfold in_s; simpl; lia).
      assert (0 <= value / 10 < 10) by (split; [apply Z.div_pos|apply Z.div_lt_upper_bound]; lia).
      rewrite udec_step, udec_small in * by lia.
      destruct b as [|x [|y [|z b]]]; zl; [|pose proof (zlen_nonneg b); lia].
      simpl. apply put2_spec; lia. }
  induction fuel as [|fuel IH]; intros a b c next value Hv Hf Hb Hn Hmax;
    pose proof (udec_range value Hv); unfold in_u in Hv;
    (destruct (Z.lt_ge_cases value 100) as [Hlt|Hge]; [apply Hbase; lia|]); [simpl in Hf; lia|].
  simpl. rewrite Z.geb_leb, (proj2 (Z.leb_le _ _)) by lia.
  pose proof (Z.mod_pos_bound value 100). rewrite wraps_small by (unfold in_s; simpl; lia).
  assert (in_u 64 (value / 100)) as Hv'
    by (split; [apply Z.div_pos|apply Z.div_lt_upper_bound]; lia).
  pose proof (udec_range _ Hv').
  rewrite udec_step2 in * by lia. zl. pose proof (zlen_nonneg a).
  destruct (split_at b (zlen (udec (value / 100)))) as (b1 & b2 & -> & Hb1); [lia|]. zl.
  destruct b2 as [|x [|y [|z b2]]]; zl; [|pose proof (zlen_nonneg b2); lia].
  rewrite <- app_assoc, (app_assoc a). simpl. rewrite put2_spec by zl. simpl.
  rewrite wrapu_small by (unfold in_u; lia). rewrite <- !app_assoc. simpl.
  replace (100 ^ (Z.of_nat (S fuel) + 1)) with (100 * 100 ^ (Z.of_nat fuel + 1)) in Hf
    by (rewrite <- Z.pow_succ_r by lia; f_equal; lia).
  apply IH; [done| |done|lia|lia].
  apply Z.div_lt_upper_bound; lia.
Qed.

Lemma zlen_sdec v : in_s 64 v -> 1 <= zlen (sdec v) <= 21.
Proof.
  intros Hv. unfold in_s in Hv. unfold sdec. destruct (Z.ltb_spec v 0).
  - pose proof (udec_range (- v)). zl. unfold in_u in *. lia.
  - pose proof (udec_range v). unfold in_u in *. lia.
Qed.

(** [ll2string] into a buffer of at least [dstlen] bytes. *)
Lemma ll2string_spec dst dstlen v :
  in_s 64 v -> 0 <= dstlen <= zlen dst ->
  ll2string dst dstlen v =
    if zlen (sdec v) <? dstlen
    then Some (zlen (sdec v), sdec v ++ 0 :: drop (Z.to_nat (zlen (sdec v) + 1)) dst)
    else Some (0, dst).
Proof.
  intros Hv Hd. pose proof (zlen_sdec v Hv) as Hlen. unfold ll2string.
  set (value := if v <? 0 then - v else v). set (neg := if v <? 0 then 1 else 0).
  assert ((if v <? 0 then (if v =? LLONG_MIN then wrapu 64 (LLONG_MAX + 1) else wrapu 64 (- v), 1)
    else (v, 0)) = (value, neg)) as ->.
  { unfold value, neg, in_s, LLONG_MIN, LLONG_MAX in *. destruct (Z.ltb_spec v 0); [|done].
    destruct (Z.eqb_spec v (- 2 ^ 63)) as [->|]; [done|].
    by rewrite wrapu_small by (unfold in_u; lia). }
  assert (in_u 64 value) as Hval
    by (unfold in_u, in_s, value in *; destruct (Z.ltb_spec v 0); lia).
  assert (wrapu 32 (digits10 value + neg) = zlen (sdec v)) as ->.
  { rewrite digits10_correct by done. unfold value, neg, sdec in *.
    destruct (v <? 0); zl; rewrite wrapu_small; unfold in_u; lia. }
  rewrite Z.geb_leb. destruct (Z.leb_spec dstlen (zlen (sdec v))) as [Hs|Hs].
  { by rewrite (proj2 (Z.ltb_ge _ _)) by lia. }
  rewrite (proj2 (Z.ltb_lt _ _)) by lia.
  destruct (split_at dst (zlen (sdec v))) as (a & t & -> & Ha); [lia|].
  destruct t as [|x t]; zl. change (x :: t) with ([x] ++ t).
  assert (drop (Z.to_nat (zlen (sdec v) + 1)) (a ++ [x] ++ t) = t) as ->
    by (rewrite app_assoc; apply drop_zlen_app; zl).
  rewrite wr_app by zl. cbn [mbind option_bind].
  rewrite wrapu_small by (unfold in_u; lia).
  unfold sdec, value, neg in *. destruct (Z.ltb_spec v 0).
  - destruct a as [|y a]; zl.
    change ((y :: a) ++ [0] ++ t) with ([y] ++ a ++ [0] ++ t).
    rewrite ll2string_digits_spec; [|done|unfold in_u in Hval; simpl; lia|zl|zl|zl; lia].
    simpl.
    match goal with |- context [ wr (y :: ?l) 0 _ ] => change (y :: l) with ([] ++ [y] ++ l) end.
    by rewrite wr_app by done.
  - change (a ++ [0] ++ t) with ([] ++ a ++ [0] ++ t).
    rewrite ll2string_digits_spec; [done|done|unfold in_u in Hval; simpl; lia|zl|zl|lia].
Qed.

(** ** Parsing *)

Definition acc (v : Z) (ds : list Z) : Z := fold_left (fun v d => v * 10 + (d - 48)) ds v.

Abbreviation digits := (Forall (fun c => is_digit c = true)).

Lemma is_digit_range c : is_digit c = true -> 48 <= c <= 57.
Proof. unfold is_digit. intros. zbool. lia. Qed.

Lemma acc_snoc v ds d : acc v (ds ++ [d]) = acc v ds * 10 + (d - 48).
Proof. unfold acc. by rewrite fold_left_app. Qed.

Lemma acc_ge v ds : 0 <= v -> digits ds -> v <= acc v ds.
Proof.
  revert v. induction ds as [|d ds IH]; intros v Hv Hds; [simpl; lia|].
  apply Forall_cons in Hds as [Hd Hds]. apply is_digit_range in Hd.
  specialize (IH (v * 10 + (d - 48)) ltac:(lia) Hds). unfold acc in *. simpl. lia.
Qed.

Lemma string2ll_loop_digits v ds :
  0 <= v <= ULLONG_MAX -> digits ds ->
  string2ll_loop v ds = if acc v ds <=? ULLONG_MAX then Some (acc v ds, []) else None.
Proof.
  revert v. induction ds as [|d ds IH]; intros v Hv Hds; simpl.
  { change (acc v []) with v. by rewrite (proj2 (Z.leb_le _ _)) by lia. }
  apply Forall_cons in Hds as [Hd Hds]. rewrite Hd. apply is_digit_range in Hd.
  unfold acc. simpl. fold (acc (v * 10 + (d - 48)) ds).
  pose proof (acc_ge (v * 10 + (d - 48)) ds ltac:(lia) Hds).
  rewrite !Z.gtb_ltb. unfold ULLONG_MAX in *.
  destruct (Z.ltb_spec ((2 ^ 64 - 1) / 10) v).
  { rewrite (proj2 (Z.leb_gt _ _)); [done|]. Z.div_mod_to_equations. lia. }
  assert (v * 10 <= 2 ^ 64 - 1) by (Z.div_mod_to_equations; lia).
  rewrite (wrapu_small 64 (v * 10)) by (unfold in_u; lia).
  destruct (Z.ltb_spec (2 ^ 64 - 1 - (d - 48)) (v * 10)).
  { by rewrite (proj2 (Z.leb_gt _ _)) by lia. }
  rewrite wrapu_small by (unfold in_u; lia). apply IH; [lia|done].
Qed.

Lemma string2ll_loop_all v p v' : string2ll_loop v p = Some (v', []) -> digits p.
Proof.
  revert v. induction p as [|c p IH]; intros v; simpl; [constructor|].
  destruct (is_digit c) eqn:E; [|done]. repeat case_if; try done.
  intros Hr. constructor; eauto.
Qed.

(** Printing after parsing, and parsing after printing, on positive numbers. *)
Lemma udec_acc c p :
  49 <= c <= 57 -> digits p -> acc (c - 48) p < 10 ^ 20 -> udec (acc (c - 48) p) = c :: p.
Proof.
  intros Hc. induction p as [|d p IH] using rev_ind; intros Hp Hlt.
  - unfold acc. simpl. rewrite udec_small by lia. do 2 f_equal. lia.
  - apply Forall_app in Hp as [Hp [Hd _]%Forall_cons]. apply is_digit_range in Hd.
    rewrite acc_snoc in *. pose proof (acc_ge (c - 48) p ltac:(lia) Hp).
    rewrite udec_step by lia.
    replace ((acc (c - 48) p * 10 + (d - 48)) / 10) with (acc (c - 48) p) by (Z.div_mod_to_equations; lia).
    rewrite IH by (done || lia). simpl. do 3 f_equal. Z.div_mod_to_equations. lia.
Qed.

Lemma dec_parse n v :
  0 < v < 10 ^ Z.of_nat n ->
  exists c p, dec n v = c :: p /\ 49 <= c <= 57 /\ digits p /\ acc (c - 48) p = v.
Proof.
  revert v. induction n as [|n IH]; intros v Hv; [simpl in Hv; lia|]. rewrite dec_S.
  destruct (Z.ltb_spec v 10).
  - exists (48 + v), []. split_and!; [done|lia|lia|done|]. unfold acc. simpl. lia.
  - destruct (IH (v / 10)) as (c & p & E & Hc & Hp & Ha).
    { split; [apply Z.div_str_pos; lia|apply div10_range; lia]. }
    exists c, (p ++ [48 + v mod 10]). rewrite E. split_and!; [done|lia|lia| |].
    + apply Forall_app. split; [done|]. constructor; [|done].
      unfold is_digit. pose proof (Z.mod_pos_bound v 10).
      rewrite !(proj2 (Z.leb_le _ _)) by lia. done.
    + rewrite acc_snoc, Ha. Z.div_mod_to_equations. lia.
Qed.

Lemma udec_parse v :
  0 < v < 10 ^ 20 -> exists c p, udec v = c :: p /\ 49 <= c <= 57 /\ digits p /\ acc (c - 48) p = v.
Proof. intros. by apply dec_parse. Qed.

(** The part of [string2ll] after the sign. *)
Lemma string2ll_tail c p :
  49 <= c <= 57 ->
  (v0 ← string2ll_loop (c - 48) p; if v0.2 is [] then Some v0.1 else None) =
    if decide (digits p /\ acc (c - 48) p <= ULLONG_MAX) then Some (acc (c - 48) p) else None.
Proof.
  intros Hc. destruct (decide (digits p)) as [Hp|Hp].
  - rewrite string2ll_loop_digits by (done || unfold ULLONG_MAX; lia).
    destruct (Z.leb_spec (acc (c - 48) p) ULLONG_MAX); simpl.
    + by rewrite decide_True.
    + rewrite decide_False; [done|lia].
  - rewrite decide_False by tauto. destruct (string2ll_loop _ p) as [[v [|]]|] eqn:E; simpl; try done.
    by destruct Hp; eapply string2ll_loop_all.
Qed.

Lemma neg_bound : wrapu 64 (- (LLONG_MIN + 1)) + 1 = 2 ^ 63.
Proof. reflexivity. Qed.

Lemma string2ll_pos_iff c p v :
  c <> 45 -> (c <> 48 \/ p <> []) ->
  string2ll (c :: p) = Some v <->
    49 <= c <= 57 /\ digits p /\ acc (c - 48) p <= LLONG_MAX /\ v = acc (c - 48) p.
Proof.
  intros H1 H2. unfold string2ll.
  assert ((zlen (c :: p) =? 1) && (c =? 48) = false) as ->.
  { destruct H2 as [Hc|Hp]; [rewrite (proj2 (Z.eqb_neq c 48)) by done; apply andb_false_r|].
    destruct p; [done|]. zl. pose proof (zlen_nonneg p).
    rewrite (proj2 (Z.eqb_neq _ 1)) by lia. done. }
  rewrite (proj2 (Z.eqb_neq c 45)) by done. simpl.
  destruct (Z.leb_spec 49 c), (Z.leb_spec c 57); simpl; try (split; [done|lia]).
  pose proof (string2ll_tail c p ltac:(lia)) as T.
  destruct (string2ll_loop (c - 48) p) as [[v0 [|d rest]]|]; simpl in *; case_decide as Hd;
    simplify_eq; unfold LLONG_MAX, ULLONG_MAX in *; try (split; [done|lia]).
  - destruct Hd as [Hp Ha]. pose proof (acc_ge (c - 48) p ltac:(lia) Hp).
    rewrite Z.gtb_ltb. destruct (Z.ltb_spec (2 ^ 63 - 1) (acc (c - 48) p)); [split; [done|lia]|].
    rewrite wraps_small by (unfold in_s; simpl; lia). split; [intros [= <-]; split_and!; done || lia|].
    intros (_ & _ & _ & ->). done.
  - split; [done|]. intros (? & Hp & ? & _). destruct Hd. split; [done|lia].
  - split; [done|]. intros (? & Hp & ? & _). destruct Hd. split; [done|lia].
Qed.

Lemma string2ll_neg_iff s v :
  string2ll (45 :: s) = Some v <->
    exists c p, s = c :: p /\ 49 <= c <= 57 /\ digits p /\ acc (c - 48) p <= 2 ^ 63 /\
      v = - acc (c - 48) p.
Proof.
  unfold string2ll. rewrite andb_false_r. simpl. rewrite neg_bound.
  destruct s as [|c p]; simpl; [split; [done|naive_solver]|].
  destruct (Z.leb_spec 49 c), (Z.leb_spec c 57); simpl;
    try (split; [done|intros (? & ? & [= <- <-] & ? & ?); lia]).
  pose proof (string2ll_tail c p ltac:(lia)) as T.
  destruct (string2ll_loop (c - 48) p) as [[v0 [|d rest]]|]; simpl in *; case_decide as Hd;
    simplify_eq; unfold ULLONG_MAX in *.
  - destruct Hd as [Hp Ha]. pose proof (acc_ge (c - 48) p ltac:(lia) Hp).
    rewrite Z.gtb_ltb. destruct (Z.ltb_spec (2 ^ 63) (acc (c - 48) p)).
    { split; [done|]. intros (? & ? & [= <- <-] & ? & ? & ? & _). lia. }
    rewrite wraps_wrapu, wraps_small by (unfold in_s; simpl; lia). split.
    + intros [= <-]. by exists c, p.
    + by intros (? & ? & [= <- <-] & _ & _ & _ & ->).
  - split; [done|]. intros (? & ? & [= <- <-] & ? & ? & ? & _). destruct Hd. split; [done|lia].
  - split; [done|]. intros (? & ? & [= <- <-] & ? & ? & ? & _). destruct Hd. split; [done|lia].
Qed.

Lemma string2ll_complete v : in_s 64 v -> string2ll (sdec v) = Some v.
Proof.
  intros Hv. unfold in_s in Hv. unfold sdec. destruct (Z.ltb_spec v 0).
  - destruct (udec_parse (- v)) as (c & p & -> & Hc & Hp & Ha); [lia|].
    apply string2ll_neg_iff. exists c, p. split_and!; [done|lia|lia|done|lia|lia].
  - destruct (Z.eq_dec v 0) as [->|]; [done|].
    destruct (udec_parse v) as (c & p & -> & Hc & Hp & Ha); [lia|].
    apply string2ll_pos_iff; [lia|lia|]. unfold LLONG_MAX. split_and!; [lia|lia|done|lia|lia].
Qed.

Lemma string2ll_sound s v : string2ll s = Some v -> in_s 64 v /\ s = sdec v.
Proof.
  destruct s as [|c p]; [done|]. unfold in_s.
  destruct (decide (c = 45)) as [->|Hc].
  { intros (c & p' & -> & Hc & Hp & Ha & ->)%string2ll_neg_iff.
    pose proof (acc_ge (c - 48) p' ltac:(lia) Hp). split; [simpl; lia|].
    unfold sdec. rewrite (proj2 (Z.ltb_lt _ _)), Z.opp_involutive, udec_acc by (done || lia). done. }
  destruct (decide (c = 48 /\ p = [])) as [[-> ->]|Hz].
  { intros [= <-]. split; [simpl; lia|done]. }
  intros (Hr & Hp & Ha & ->)%string2ll_pos_iff; [|done|].
  - pose proof (acc_ge (c - 48) p ltac:(lia) Hp). unfold LLONG_MAX in Ha. split; [simpl; lia|].
    unfold sdec. rewrite (proj2 (Z.ltb_ge _ _)), udec_acc by (done || lia). done.
  - destruct (decide (c = 48)); [right; naive_solver|auto].
Qed.

(** ** Properties *)

(** [string2ll] accepts exactly the canonical decimal representations of the
    64-bit signed integers, and returns the integer represented. *)
Theorem string2ll_canonical (s : list Z) (v : Z) :
  string2ll s = Some v <-> in_s 64 v /\ s = sdec v.
Proof.
  split; [apply string2ll_sound|]. intros [Hv ->]. by apply string2ll_complete.
Qed.

(** [ll2string] writes the decimal representation and a terminator at the
    start of the buffer, touches nothing after them, and returns the length; when
    they do not fit it returns 0 and leaves the buffer as it was. *)
Theorem ll2string_correct (dst : list Z) (dstlen v : Z) :
  in_s 64 v -> 0 <= dstlen <= zlen dst ->
  ll2string dst dstlen v =
    if zlen (sdec v) <? dstlen
    then Some (zlen (sdec v), sdec v ++ 0 :: drop (Z.to_nat (zlen (sdec v) + 1)) dst)
    else Some (0, dst).
Proof. apply ll2string_spec. Qed.

Lemma ll2string_correct_witness :
  ll2string (replicate 22 7) 22 LLONG_MIN =
    Some (20, sdec LLONG_MIN ++ [0; 7]) /\
  ll2string (replicate 22 7) 20 LLONG_MIN = Some (0, replicate 22 7).
Proof.
  split.
  - rewrite (ll2string_correct (replicate 22 7) 22 LLONG_MIN);
      [reflexivity|split; vm_compute; congruence|split; vm_compute; congruence].
  - rewrite (ll2string_correct (replicate 22 7) 20 LLONG_MIN);
      [reflexivity|split; vm_compute; congruence|split; vm_compute; congruence].
Defined.

(** Converting a number to a string in a buffer and parsing the bytes written
    gives the number back, for every 64-bit integer and every buffer of 22 bytes
    or more. *)
Theorem ll2string_string2ll_roundtrip (dst : list Z) (v : Z) :
  in_s 64 v -> 22 <= zlen dst ->
  exists n dst', ll2string dst (zlen dst) v = Some (n, dst') /\ n = sdigits10 v /\
    (s ← rd dst' 0 n; string2ll s) = Some v.
Proof.
  intros Hv Hd. pose proof (zlen_sdec v Hv) as Hl. eexists _, _. split.
  { rewrite ll2string_spec by (done || lia).
    rewrite (proj2 (Z.ltb_lt _ _)) by lia. done. }
  split.
  - unfold sdec, sdigits10, LLONG_MIN, LLONG_MAX. unfold in_s in Hv.
    destruct (Z.ltb_spec v 0); [|by rewrite digits10_correct by (unfold in_u; lia)].
    zl. f_equal. destruct (Z.eqb_spec v (- 2 ^ 63)) as [->|].
    + vm_compute. reflexivity.
    + by rewrite wrapu_small, digits10_correct by (unfold in_u; lia).
  - match goal with |- (_ ← rd ?b 0 _; _) = _ => change b with ([] ++ b) end.
    rewrite rd_app by done. by apply string2ll_complete.
Qed.

Lemma ll2string_string2ll_roundtrip_witness :
  exists n dst', ll2string (replicate 22 7) (zlen (replicate 22 7)) (-120) = Some (n, dst') /\
    n = sdigits10 (-120) /\ (s ← rd dst' 0 n; string2ll s) = Some (-120).
Proof.
  apply (ll2string_string2ll_roundtrip (replicate 22 7) (-120)).
  - split; vm_compute; congruence.
  - vm_compute. congruence.
Defined.

Lemma zlen_sdec_20 v : in_s 64 v -> zlen (sdec v) <= 20.
Proof.
  intros Hv. unfold in_s in Hv. change (64 - 1) with 63 in Hv.
  assert (forall u, 0 <= u <= 2 ^ 63 -> zlen (udec u) <= 19) as H.
  { intros u Hu. destruct (zlen_udec_pos u) as (k & Hk & -> & Hlo & _); [lia|].
    destruct Hlo as [|Hlo]; [lia|]. destruct (Z.le_gt_cases k 19); [done|].
    pose proof (Z.pow_le_mono_r 10 19 (k - 1)). lia. }
  unfold sdec. destruct (Z.ltb_spec v 0).
  - specialize (H (- v)). zl.
  - specialize (H v). lia.
Qed.

Lemma long_not_int x : 20 < zlen x -> string2ll x = None.
Proof.
  intros Hx. destruct (string2ll x) as [v|] eqn:E; [|done].
  apply string2ll_sound in E as [Hv ->]. pose proof (zlen_sdec_20 v Hv). lia.
Qed.
