(* ===== verification/Dict.v ===== *)
(** * Hash tables with incremental rehashing (dict.c, dict.h)

    A bucket is the list of its chained entries, a table the list of its buckets
    (the [NULL] table is the empty list). The functions of a [dictType] are a
    class. An access to a bucket outside the table, a failing assertion and a
    dereference of [NULL] are [None]; the entries handed to the destructors are
    returned as a list of events. An entry pointer is the table, bucket and
    position of the entry. *)

From S2P Require Import Prelude.

Definition DICT_HT_INITIAL_SIZE : Z := 4.
Definition dict_force_resize_ratio : Z := 5.
Definition DICT_LONG_MAX : Z := 2 ^ 63 - 1.

(** [DICT_OK] and [DICT_ERR]. *)
Inductive dict_status := DICT_OK | DICT_ERR.

(** A [dictType]; [None] is a [NULL] method. *)
Class dictType (K V : Type) := {
  hashFunction : K -> Z;
  keyDup : option (K -> K);
  valDup : option (V -> V);
  keyCompare : option (K -> K -> bool);
  keyDestructor : bool;
  valDestructor : bool;
}.

(** Calls of the destructors. *)
Inductive free_event (K V : Type) := FreeKey (k : K) | FreeVal (v : V).
Arguments FreeKey {K V} k.
Arguments FreeVal {K V} v.

Section dict.
Context {K V : Type} `{EqDecision K} `{T : !dictType K V}.

Abbreviation entry := (K * V)%type.
Abbreviation chain := (list entry).

Record dictht := Dictht {
  table : list chain;
  size_ : Z;
  sizemask : Z;
  used : Z;
}.

Record dict := Dict {
  ht0 : dictht;
  ht1 : dictht;
  rehashidx : Z;
  iterators : Z;
}.

(** [&d->ht[t]->table[idx]] and the position in its chain. *)
Record entref := Entref { e_table : bool; e_idx : Z; e_pos : nat }.

Definition dictHashKey (k : K) : Z := hashFunction k.

(** [key == he->key || dictCompareKeys(d, key, he->key)]. *)
Definition same_key (key k : K) : bool :=
  bool_decide (key = k) ||
  match keyCompare with Some cmp => cmp key k | None => bool_decide (key = k) end.

Definition dictSetKey (k : K) : K := match keyDup with Some f => f k | None => k end.
Definition dictSetVal (v : V) : V := match valDup with Some f => f v | None => v end.
Definition dictFreeKey (k : K) : list (free_event K V) := if keyDestructor then [FreeKey k] else [].
Definition dictFreeVal (v : V) : list (free_event K V) := if valDestructor then [FreeVal v] else [].

Definition dictIsRehashing (d : dict) : bool := negb (rehashidx d =? -1).
Definition dictSize (d : dict) : Z := wrapu 64 (used (ht0 d) + used (ht1 d)).
Definition dictSlots (d : dict) : Z := wrapu 64 (size_ (ht0 d) + size_ (ht1 d)).

Definition get_ht (d : dict) (t : bool) : dictht := if t then ht1 d else ht0 d.
Definition set_ht (d : dict) (t : bool) (ht : dictht) : dict :=
  if t then Dict (ht0 d) ht (rehashidx d) (iterators d)
  else Dict ht (ht1 d) (rehashidx d) (iterators d).
Definition set_rehashidx (d : dict) (i : Z) : dict := Dict (ht0 d) (ht1 d) i (iterators d).

(** [ht->table[i] = c]. *)
Definition set_bucket (ht : dictht) (i : Z) (c : chain) : option dictht :=
  _ ← zidx (table ht) i;
  Some (Dictht (<[Z.to_nat i := c]> (table ht)) (size_ ht) (sizemask ht) (used ht)).
Definition set_used (ht : dictht) (n : Z) : dictht :=
  Dictht (table ht) (size_ ht) (sizemask ht) (wrapu 64 n).

Definition _dictReset : dictht := Dictht [] 0 0 0.
Definition _dictInit : dict := Dict _dictReset _dictReset (-1) 0.
Definition dictCreate : dict := _dictInit.

(** The [while(1)] loop of [_dictNextPower]; 63 doublings of 4 pass any size
    below [LONG_MAX]. *)
Fixpoint nextPower_loop (fuel : nat) (i size : Z) : option Z :=
  match fuel with
  | O => None
  | S fuel => if i >=? size then Some i else nextPower_loop fuel (wrapu 64 (i * 2)) size
  end.

Definition _dictNextPower (size : Z) : option Z :=
  if size >=? DICT_LONG_MAX then Some (wrapu 64 (DICT_LONG_MAX + 1))
  else nextPower_loop 63 DICT_HT_INITIAL_SIZE size.

Definition dictExpand (d : dict) (size : Z) : option (dict * dict_status) :=
  if dictIsRehashing d || (used (ht0 d) >? size) then Some (d, DICT_ERR)
  else
    realsize ← _dictNextPower size;
    if realsize =? size_ (ht0 d) then Some (d, DICT_ERR)
    else
      let n := Dictht (replicate (Z.to_nat realsize) []) realsize (wrapu 64 (realsize - 1)) 0 in
      match table (ht0 d) with
      | [] => Some (set_ht d false n, DICT_OK)
      | _ => Some (set_rehashidx (set_ht d true n) 0, DICT_OK)
      end.

(** [dictResize], with the global [dict_can_resize] as an argument. The number of
    elements is truncated to [int]. *)
Definition dictResize (dict_can_resize : bool) (d : dict) : option (dict * dict_status) :=
  if negb dict_can_resize || dictIsRehashing d then Some (d, DICT_ERR)
  else
    let minimal := wraps 32 (used (ht0 d)) in
    let minimal := if minimal <? DICT_HT_INITIAL_SIZE then DICT_HT_INITIAL_SIZE else minimal in
    dictExpand d minimal.

(** [while(table[rehashidx] == NULL) { rehashidx++; if (--empty_visits == 0) return 1; }]:
    the new [rehashidx] and [empty_visits], and whether it returned. *)
Fixpoint skip_empty (fuel : nat) (tb : list chain) (idx empty_visits : Z) : option (Z * Z * bool) :=
  match fuel with
  | O => None
  | S fuel =>
      b ← zidx tb idx;
      match b with
      | [] => if empty_visits - 1 =? 0 then Some (idx + 1, 0, true)
              else skip_empty fuel tb (idx + 1) (empty_visits - 1)
      | _ => Some (idx, empty_visits, false)
      end
  end.

(** Moves the entries of a chain to [ht1]; the counters change one by one. *)
Fixpoint rehash_chain (de : chain) (h0 h1 : dictht) : option (dictht * dictht) :=
  match de with
  | [] => Some (h0, h1)
  | (k, v) :: nextde =>
      let h := Z.land (dictHashKey k) (sizemask h1) in
      b ← zidx (table h1) h;
      h1 ← set_bucket h1 h ((k, v) :: b);
      rehash_chain nextde (set_used h0 (used h0 - 1)) (set_used h1 (used h1 + 1))
  end.

(** The main loop of [dictRehash]; [inl d] is the early [return 1]. *)
Fixpoint dictRehash_loop (n : nat) (d : dict) (empty_visits : Z) : option (dict + dict) :=
  match n with
  | O => Some (inr d)
  | S n =>
      if used (ht0 d) =? 0 then Some (inr d)
      else if size_ (ht0 d) >? wrapu 64 (rehashidx d) then
        '(idx, empty_visits, stop) ←
          skip_empty (S (length (table (ht0 d)))) (table (ht0 d)) (rehashidx d) empty_visits;
        let d := set_rehashidx d idx in
        if stop : bool then Some (inl d)
        else
          de ← zidx (table (ht0 d)) idx;
          '(h0, h1) ← rehash_chain de (ht0 d) (ht1 d);
          h0 ← set_bucket h0 idx [];
          dictRehash_loop n (Dict h0 h1 (idx + 1) (iterators d)) empty_visits
      else None
  end.

(** Returns the dictionary and the C return value. *)
Definition dictRehash (d : dict) (n : nat) : option (dict * bool) :=
  let empty_visits := Z.of_nat n * 10 in
  if negb (dictIsRehashing d) then Some (d, false)
  else
    r ← dictRehash_loop n d empty_visits;
    match r with
    | inl d => Some (d, true)
    | inr d =>
        if used (ht0 d) =? 0 then Some (Dict (ht1 d) _dictReset (-1) (iterators d), false)
        else Some (d, true)
    end.

(** The loop of [dictRehashMilliseconds]; [now i] is the [i]-th reading of the
    clock after the first. Every call moves [rehashidx], so one iteration per
    bucket is enough. *)
Fixpoint rehashMilliseconds_loop (fuel : nat) (now : nat -> Z) (start ms : Z) (d : dict) (rehashes : Z)
    : option (dict * Z) :=
  match fuel with
  | O => None
  | S fuel =>
      '(d, more) ← dictRehash d 100;
      if more : bool then
        let rehashes := wraps 32 (rehashes + 100) in
        if now O - start >? ms then Some (d, rehashes)
        else rehashMilliseconds_loop fuel (fun i => now (S i)) start ms d rehashes
      else Some (d, rehashes)
  end.

Definition dictRehashMilliseconds (clock : nat -> Z) (d : dict) (ms : Z) : option (dict * Z) :=
  rehashMilliseconds_loop (length (table (ht0 d)) + 2) (fun i => clock (S i)) (clock O) ms d 0.

Definition _dictRehashStep (d : dict) : option dict :=
  if iterators d =? 0 then fst <$> dictRehash d 1 else Some d.

(** [if (dictIsRehashing(d)) _dictRehashStep(d)]. *)
Definition rehash_if_needed (d : dict) : option dict :=
  if dictIsRehashing d then _dictRehashStep d else Some d.

Definition _dictExpandIfNeeded (dict_can_resize : bool) (d : dict) : option (dict * dict_status) :=
  if dictIsRehashing d then Some (d, DICT_OK)
  else if size_ (ht0 d) =? 0 then dictExpand d DICT_HT_INITIAL_SIZE
  else if (used (ht0 d) >=? size_ (ht0 d)) &&
          (dict_can_resize || (used (ht0 d) / size_ (ht0 d) >? dict_force_resize_ratio))
  then dictExpand d (wrapu 64 (used (ht0 d) * 2))
  else Some (d, DICT_OK).

(** The position of the first entry of a chain with the given key. *)
Fixpoint chain_find (c : chain) (key : K) : option nat :=
  match c with
  | [] => None
  | (k, _) :: c => if same_key key k then Some O else S <$> chain_find c key
  end.

(** The [for (table = 0; table <= 1; table++)] loop shared by the lookups: the
    reference found, or else the last index computed. *)
Definition search_tables (d : dict) (key : K) (h : Z) : option (entref + Z) :=
  let idx := Z.land h (sizemask (ht0 d)) in
  c ← zidx (table (ht0 d)) idx;
  match chain_find c key with
  | Some pos => Some (inl (Entref false idx pos))
  | None =>
      if negb (dictIsRehashing d) then Some (inr idx)
      else
        let idx := Z.land h (sizemask (ht1 d)) in
        c ← zidx (table (ht1 d)) idx;
        match chain_find c key with
        | Some pos => Some (inl (Entref true idx pos))
        | None => Some (inr idx)
        end
  end.

(** [None] inside is the index -1, with the existing entry if one was found. *)
Definition _dictKeyIndex (dict_can_resize : bool) (d : dict) (key : K) (hash : Z)
    : option (dict * (option entref + Z)) :=
  '(d, st) ← _dictExpandIfNeeded dict_can_resize d;
  match st with
  | DICT_ERR => Some (d, inl None)
  | DICT_OK =>
      r ← search_tables d key hash;
      match r with
      | inl e => Some (d, inl (Some e))
      | inr idx => Some (d, inr idx)
      end
  end.

(** The contents of a new entry before its value is set. *)
Variable junk : V.

(** [inl e] is [NULL] with [*existing = e], [inr e] the new entry. *)
Definition dictAddRaw (dict_can_resize : bool) (d : dict) (key : K)
    : option (dict * (option entref + entref)) :=
  d ← rehash_if_needed d;
  '(d, r) ← _dictKeyIndex dict_can_resize d key (dictHashKey key);
  match r with
  | inl existing => Some (d, inl existing)
  | inr index =>
      let t := dictIsRehashing d in
      let ht := get_ht d t in
      c ← zidx (table ht) index;
      ht ← set_bucket ht index ((dictSetKey key, junk) :: c);
      Some (set_ht d t (set_used ht (used ht + 1)), inr (Entref t index 0))
  end.

(** [*e]. *)
Definition deref_entry (d : dict) (e : entref) : option entry :=
  c ← zidx (table (get_ht d (e_table e))) (e_idx e); c !! e_pos e.

(** [e->v.val = v]. *)
Definition store_val (d : dict) (e : entref) (v : V) : option dict :=
  c ← zidx (table (get_ht d (e_table e))) (e_idx e);
  '(k, _) ← c !! e_pos e;
  ht ← set_bucket (get_ht d (e_table e)) (e_idx e) (<[e_pos e := (k, v)]> c);
  Some (set_ht d (e_table e) ht).

Definition dictAdd (dict_can_resize : bool) (d : dict) (key : K) (val : V)
    : option (dict * dict_status) :=
  '(d, r) ← dictAddRaw dict_can_resize d key;
  match r with
  | inl _ => Some (d, DICT_ERR)
  | inr e => d ← store_val d e (dictSetVal val); Some (d, DICT_OK)
  end.

(** Returns the C return value (true for 1) and the destructor calls. *)
Definition dictReplace (dict_can_resize : bool) (d : dict) (key : K) (val : V)
    : option (dict * bool * list (free_event K V)) :=
  '(d, r) ← dictAddRaw dict_can_resize d key;
  match r with
  | inr e => d ← store_val d e (dictSetVal val); Some (d, true, [])
  | inl existing =>
      e ← existing;
      '(_, old) ← deref_entry d e;
      d ← store_val d e (dictSetVal val);
      Some (d, false, dictFreeVal old)
  end.

Definition dictAddOrFind (dict_can_resize : bool) (d : dict) (key : K)
    : option (dict * option entref) :=
  '(d, r) ← dictAddRaw dict_can_resize d key;
  Some (d, match r with inr e => Some e | inl existing => existing end).

(** Returns the unlinked entry and the destructor calls. *)
Definition dictGenericDelete (d : dict) (key : K) (nofree : bool)
    : option (dict * option entry * list (free_event K V)) :=
  if (used (ht0 d) =? 0) && (used (ht1 d) =? 0) then Some (d, None, [])
  else
    d ← rehash_if_needed d;
    r ← search_tables d key (dictHashKey key);
    match r with
    | inr _ => Some (d, None, [])
    | inl e =>
        let ht := get_ht d (e_table e) in
        c ← zidx (table ht) (e_idx e);
        '(k, v) ← c !! e_pos e;
        ht ← set_bucket ht (e_idx e) (delete (e_pos e) c);
        Some (set_ht d (e_table e) (set_used ht (used ht - 1)), Some (k, v),
              if nofree then [] else dictFreeKey k ++ dictFreeVal v)
    end.

Definition dictDelete (d : dict) (key : K)
    : option (dict * dict_status * list (free_event K V)) :=
  '(d, he, freed) ← dictGenericDelete d key false;
  Some (d, match he with Some _ => DICT_OK | None => DICT_ERR end, freed).

Definition dictUnlink (d : dict) (key : K) : option (dict * option entry) :=
  '(d, he, _) ← dictGenericDelete d key true; Some (d, he).

Definition dictFreeUnlinkedEntry (he : option entry) : list (free_event K V) :=
  match he with None => [] | Some (k, v) => dictFreeKey k ++ dictFreeVal v end.

(** [dictFind] also takes a rehashing step, so it returns the dictionary. *)
Definition dictFind (d : dict) (key : K) : option (dict * option entref) :=
  if wrapu 64 (used (ht0 d) + used (ht1 d)) =? 0 then Some (d, None)
  else
    d ← rehash_if_needed d;
    r ← search_tables d key (dictHashKey key);
    Some (d, match r with inl e => Some e | inr _ => None end).

Definition dictFetchValue (d : dict) (key : K) : option (dict * option V) :=
  '(d, he) ← dictFind d key;
  match he with
  | None => Some (d, None)
  | Some e => '(_, v) ← deref_entry d e; Some (d, Some v)
  end.

(** The loop of [_dictClear] from bucket [i] on: frees chains while
    [i < size && used > 0]. *)
Fixpoint clear_loop (tb : list chain) (used : Z) : list (free_event K V) :=
  match tb with
  | [] => []
  | c :: tb =>
      if used >? 0 then
        (c ≫= fun '(k, v) => dictFreeKey k ++ dictFreeVal v) ++
        clear_loop tb (wrapu 64 (used - zlen c))
      else []
  end.

Definition _dictClear (ht : dictht) : dictht * list (free_event K V) :=
  (_dictReset, clear_loop (table ht) (used ht)).

Definition dictEmpty (d : dict) : dict * list (free_event K V) :=
  let '(h0, f0) := _dictClear (ht0 d) in
  let '(h1, f1) := _dictClear (ht1 d) in
  (Dict h0 h1 (-1) 0, f0 ++ f1).

Definition dictRelease (d : dict) : list (free_event K V) :=
  snd (_dictClear (ht0 d)) ++ snd (_dictClear (ht1 d)).

End dict.

Arguments dictht : clear implicits.
Arguments dict : clear implicits.

(** ** Well-formed dictionaries *)

(** What a [dictType] must satisfy: the comparison is an equivalence that the
    hash function respects, and a duplicated key is the same key. *)
Class DictLaws (K V : Type) `{EqDecision K} `{T : !dictType K V} : Prop := {
  hash_range k : in_u 64 (hashFunction k);
  same_key_sym k1 k2 : same_key k1 k2 = true -> same_key k2 k1 = true;
  same_key_trans k1 k2 k3 : same_key k1 k2 = true -> same_key k2 k3 = true -> same_key k1 k3 = true;
  same_key_hash k1 k2 : same_key k1 k2 = true -> hashFunction k1 = hashFunction k2;
  keyDup_same k : same_key k (dictSetKey k) = true;
}.

Section wf.
Context {K V : Type} `{EqDecision K} `{T : !dictType K V} `{L : !DictLaws K V}.
Implicit Types (d : dict K V) (ht : dictht K V) (k : K) (v : V) (c : list (K * V)).

Definition ht_entries ht : list (K * V) := concat (table ht).
Definition entries d : list (K * V) := ht_entries (ht0 d) ++ ht_entries (ht1 d).

(** No two entries have the same key. *)
Definition distinct (l : list (K * V)) : Prop :=
  StronglySorted (fun e1 e2 => same_key e1.1 e2.1 = false) l.

(** Every entry of bucket [i] hashes to [i]. *)
Definition placed (mask i : Z) c : Prop :=
  Forall (fun e => Z.land (hashFunction e.1) mask = i) c.

Record ht_wf ht : Prop := HtWf {
  ht_len : size_ ht = zlen (table ht);
  ht_pow : size_ ht = 0 \/ exists n, 2 <= n <= 62 /\ size_ ht = 2 ^ n;
  ht_mask : sizemask ht = if size_ ht =? 0 then 0 else size_ ht - 1;
  ht_used : used ht = zlen (ht_entries ht);
  ht_place i c : zidx (table ht) i = Some c -> placed (sizemask ht) i c;
}.

(** The bound on the number of entries keeps the size computations below
    [LONG_MAX]; an entry takes 24 bytes. *)
Record dict_wf d : Prop := DictWf {
  wf_ht0 : ht_wf (ht0 d);
  wf_ht1 : ht_wf (ht1 d);
  wf_idle : rehashidx d = -1 -> ht1 d = _dictReset;
  wf_rehash : rehashidx d <> -1 ->
    0 <= rehashidx d <= size_ (ht0 d) /\ size_ (ht0 d) <> 0 /\ size_ (ht1 d) <> 0 /\
    forall i, 0 <= i < rehashidx d -> zidx (table (ht0 d)) i = Some [];
  wf_distinct : distinct (entries d);
  wf_bound : zlen (entries d) < 2 ^ 60;
}.

Lemma same_key_refl k : same_key k k = true.
Proof. unfold same_key. by rewrite bool_decide_eq_true_2. Qed.

Lemma same_key_false_sym k1 k2 : same_key k1 k2 = false -> same_key k2 k1 = false.
Proof.
  intros E. destruct (same_key k2 k1) eqn:E2; [|done]. apply same_key_sym in E2. congruence.
Qed.

Lemma distinct_perm l l' : l ≡ₚ l' -> distinct l -> distinct l'.
Proof.
  unfold distinct. induction 1 as [|x l l' Hp IH|x y l|l1 l2 l3 _ IH1 _ IH2].
  - done.
  - rewrite !StronglySorted_cons. intros [Hf Hs]. split; [by rewrite <- Hp|auto].
  - rewrite !StronglySorted_cons, !Forall_cons. intros [[Hxy Hx] [Hy Hs]].
    split_and!; auto. by apply same_key_false_sym.
  - auto.
Qed.

#[global] Instance distinct_proper : Proper ((≡ₚ) ==> iff) distinct.
Proof. intros l l' Hp. split; by apply distinct_perm. Qed.

(** ** Buckets *)

Lemma set_bucket_spec ht i c c' :
  zidx (table ht) i = Some c ->
  exists a b, table ht = a ++ c :: b /\ zlen a = i /\
    set_bucket ht i c' = Some (Dictht (a ++ c' :: b) (size_ ht) (sizemask ht) (used ht)).
Proof.
  intros Hi. pose proof (zidx_Some_split _ _ _ Hi) as (a & b & E & Ha).
  exists a, b. split_and!; [done|done|]. unfold set_bucket. rewrite Hi. simpl. do 3 f_equal.
  rewrite E, <- Ha. unfold zlen. rewrite Nat2Z.id.
  rewrite insert_app_r_alt by lia. by rewrite Nat.sub_diag.
Qed.

Lemma zidx_update {A} (a b : list A) x y i j :
  zlen a = i -> j <> i -> zidx (a ++ x :: b) j = zidx (a ++ y :: b) j.
Proof.
  intros <- Hj. unfold zidx, zlen in *. destruct (Z.leb_spec 0 j); [|done].
  destruct (Nat.lt_ge_cases (Z.to_nat j) (length a)).
  - by rewrite !lookup_app_l.
  - rewrite !lookup_app_r by lia. destruct (Z.to_nat j - length a)%nat eqn:E; [lia|done].
Qed.

Lemma ht_wf_update ht a c b c' u :
  ht_wf ht -> table ht = a ++ c :: b -> placed (sizemask ht) (zlen a) c' ->
  u = used ht - zlen c + zlen c' ->
  ht_wf (Dictht (a ++ c' :: b) (size_ ht) (sizemask ht) u).
Proof.
  intros W E Hp ->. split; simpl.
  - rewrite (ht_len _ W), E. zl.
  - apply W.
  - apply W.
  - rewrite (ht_used _ W). unfold ht_entries. simpl. rewrite E, !concat_app. simpl. zl.
  - intros i c0 Hi. destruct (Z.eq_dec i (zlen a)) as [->|Hne].
    + rewrite zidx_app in Hi by done. by simplify_eq.
    + apply (ht_place _ W). rewrite E. rewrite <- Hi. by apply zidx_update with (i := zlen a).
Qed.

Lemma ht_entries_update (a b : list (list (K * V))) c c' x :
  c' ≡ₚ x ++ c -> concat (a ++ c' :: b) ≡ₚ x ++ concat (a ++ c :: b).
Proof.
  intros Hc. rewrite !concat_app. simpl. rewrite Hc. solve_Permutation.
Qed.

Lemma land_mask h n : 0 <= n -> Z.land h (2 ^ n - 1) = h mod 2 ^ n.
Proof. intros. rewrite <- Z.land_ones, Z.ones_equiv by lia. done. Qed.

Lemma hash_idx_range ht h : ht_wf ht -> size_ ht <> 0 -> 0 <= Z.land h (sizemask ht) < zlen (table ht).
Proof.
  intros W Hs. rewrite <- (ht_len _ W), (ht_mask _ W), (proj2 (Z.eqb_neq _ _)) by done.
  destruct (ht_pow _ W) as [|(n & Hn & ->)]; [done|]. rewrite land_mask by lia.
  apply Z.mod_pos_bound, pow2_pos. lia.
Qed.

Lemma hash_bucket ht h : ht_wf ht -> size_ ht <> 0 -> exists c, zidx (table ht) (Z.land h (sizemask ht)) = Some c.
Proof. intros W Hs. by apply zidx_is_Some, hash_idx_range. Qed.

Lemma reset_wf : ht_wf (_dictReset : dictht K V).
Proof. split; simpl; [done|auto|done|done|]. intros i c. unfold zidx. by case_if. Qed.

Lemma zidx_elem ht i c e : zidx (table ht) i = Some c -> e ∈ c -> e ∈ ht_entries ht.
Proof.
  intros (a & b & E & _)%zidx_Some_split He. unfold ht_entries. rewrite E, concat_app. simpl. set_solver.
Qed.

Lemma elem_zidx ht e : e ∈ ht_entries ht -> exists i c, zidx (table ht) i = Some c /\ e ∈ c.
Proof.
  unfold ht_entries. rewrite list_elem_of_In, in_concat. intros (c & Hc & He).
  apply list_elem_of_In in Hc. apply list_elem_of_In in He. apply list_elem_of_split in Hc as (a & b & ->).
  exists (zlen a), c. split; [by apply zidx_app|done].
Qed.
End wf.

(** ** Incremental rehashing *)

Section rehash.
Context {K V : Type} `{EqDecision K} `{T : !dictType K V} `{L : !DictLaws K V}.
Implicit Types (d : dict K V) (ht : dictht K V) (k : K) (v : V) (c : list (K * V)).

Lemma rehash_chain_spec c h0 h1 :
  ht_wf h1 -> size_ h1 <> 0 -> zlen c <= used h0 < 2 ^ 64 -> used h1 + zlen c < 2 ^ 64 ->
  exists h1',
    rehash_chain c h0 h1 =
      Some (Dictht (table h0) (size_ h0) (sizemask h0) (used h0 - zlen c), h1') /\
    ht_wf h1' /\ size_ h1' = size_ h1 /\ ht_entries h1' ≡ₚ c ++ ht_entries h1.
Proof.
  revert h0 h1. induction c as [|[k v] c IH]; intros h0 h1 W Hs H0 H1; simpl.
  { exists h1. rewrite zlen_nil, Z.sub_0_r. split_and!; [by destruct h0|done|done|done]. }
  rewrite zlen_cons in *. pose proof (zlen_nonneg c).
  destruct (hash_bucket h1 (hashFunction k) W Hs) as [b Hb]. unfold dictHashKey. rewrite Hb. simpl.
  destruct (set_bucket_spec h1 _ b ((k, v) :: b) Hb) as (x & y & E & Hx & ->). simpl.
  pose proof (ht_used _ W) as Hu. pose proof (zlen_nonneg (ht_entries h1)).
  set (h1' := set_used (Dictht (x ++ ((k, v) :: b) :: y) (size_ h1) (sizemask h1) (used h1)) (used h1 + 1)).
  assert (ht_wf h1') as W'.
  { apply (ht_wf_update h1 x b y); [done|done| |].
    - constructor; [done|]. rewrite Hx. by apply (ht_place _ W).
    - rewrite wrapu_small; unfold in_u; zl. }
  destruct (IH (set_used h0 (used h0 - 1)) h1') as (h2 & -> & W2 & Hs2 & Hp2); [done|done| | |].
  - unfold set_used. simpl. rewrite wrapu_small; unfold in_u; lia.
  - unfold h1', set_used. simpl. rewrite wrapu_small; unfold in_u; lia.
  - exists h2. split_and!; [|done|done|].
    + unfold set_used. simpl. rewrite wrapu_small by (unfold in_u; lia).
      by replace (used h0 - (zlen c + 1)) with (used h0 - 1 - zlen c) by lia.
    + rewrite Hp2. unfold h1', ht_entries. simpl. rewrite E.
      rewrite (ht_entries_update x y b ((k, v) :: b) [(k, v)]) by done. solve_Permutation.
Qed.

Lemma skip_empty_spec fuel : forall (tb : list (list (K * V))) idx ev,
  0 <= idx -> (exists j c, idx <= j /\ zidx tb j = Some c /\ c <> []) ->
  (Z.to_nat (zlen tb - idx) < fuel)%nat ->
  exists idx' ev' stop, skip_empty fuel tb idx ev = Some (idx', ev', stop) /\
    idx <= idx' <= zlen tb /\ (forall i, idx <= i < idx' -> zidx tb i = Some []) /\
    (if stop : bool then idx < idx' else exists c, zidx tb idx' = Some c /\ c <> []).
Proof.
  induction fuel as [|fuel IH]; intros tb idx ev Hi (j & c & Hj & Hz & Hc) Hf; [lia|].
  pose proof (zidx_range _ _ _ Hz) as Hr.
  destruct (zidx_is_Some tb idx) as [b Hb]; [lia|]. simpl. rewrite Hb. simpl.
  destruct b as [|e b].
  - destruct (Z.eqb_spec (ev - 1) 0).
    + eexists _, _, true. split; [done|]. split_and!; [lia|lia| |lia].
      intros i Hii. by replace i with idx by lia.
    + destruct (IH tb (idx + 1) (ev - 1)) as (idx' & ev' & stop & E & Hr' & He & Hst); [lia| |lia|].
      { exists j, c. split_and!; [|done|done]. destruct (Z.eq_dec j idx) as [->|]; [congruence|lia]. }
      exists idx', ev', stop. split; [done|]. split_and!; [lia|lia| |destruct stop; [lia|done]].
      intros i Hii. destruct (Z.eq_dec i idx) as [->|]; [done|]. apply He. lia.
  - eexists _, _, false. split; [done|]. split_and!; [lia|lia|lia|by exists (e :: b)].
Qed.

(** What a rehashing step preserves. *)
Record rehash_pres d d' : Prop := {
  rp_wf : dict_wf d';
  rp_entries : entries d' ≡ₚ entries d;
  rp_iterators : iterators d' = iterators d;
}.

Lemma rehash_pres_refl d : dict_wf d -> rehash_pres d d.
Proof. by split. Qed.

Lemma rehash_pres_trans d1 d2 d3 : rehash_pres d1 d2 -> rehash_pres d2 d3 -> rehash_pres d1 d3.
Proof. intros [? E1 ?] [? E2 ?]. split; [done|by rewrite E2, E1|congruence]. Qed.

(** Moving the bucket at [idx] after skipping the empty ones before it. *)
Lemma move_bucket d idx c :
  dict_wf d -> rehashidx d <> -1 -> rehashidx d <= idx ->
  (forall i, rehashidx d <= i < idx -> zidx (table (ht0 d)) i = Some []) ->
  zidx (table (ht0 d)) idx = Some c ->
  exists h0 h1 h0',
    rehash_chain c (ht0 d) (ht1 d) = Some (h0, h1) /\ set_bucket h0 idx [] = Some h0' /\
    rehash_pres d (Dict h0' h1 (idx + 1) (iterators d)) /\ size_ h0' = size_ (ht0 d).
Proof.
  intros W Hre Hle Hemp Hz. pose proof (wf_rehash _ W Hre) as (Hi & Hs0 & Hs1 & Hpre).
  pose proof (wf_ht0 _ W) as W0. pose proof (wf_ht1 _ W) as W1.
  pose proof (wf_bound _ W) as Hbd. unfold entries in Hbd.
  pose proof (zidx_range _ _ _ Hz) as Hr.
  destruct (zidx_Some_split _ _ _ Hz) as (x & y & E & Hx).
  pose proof (ht_used _ W0) as Hu0. pose proof (ht_used _ W1) as Hu1.
  assert (ht_entries (ht0 d) ≡ₚ c ++ concat (x ++ [] :: y)) as Hp0.
  { unfold ht_entries. rewrite E. apply ht_entries_update. by rewrite app_nil_r. }
  assert (zlen (ht_entries (ht0 d)) = zlen c + zlen (concat (x ++ [] :: y))) as Hl0.
  { rewrite <- zlen_app. unfold zlen. by rewrite Hp0. }
  zl. pose proof (zlen_nonneg (concat (x ++ [] :: y))). pose proof (zlen_nonneg c).
  pose proof (zlen_nonneg (ht_entries (ht1 d))).
  destruct (rehash_chain_spec c (ht0 d) (ht1 d) W1 Hs1) as (h1 & Ec & Wh1 & Hs1' & Hp1); [lia|lia|].
  set (h0 := Dictht _ _ _ _) in Ec.
  destruct (set_bucket_spec h0 idx c [] Hz) as (x' & y' & E' & Hx' & Eb).
  assert (x' = x /\ y' = y) as [-> ->].
  { simpl in E'. rewrite E in E'. apply app_inj_1 in E' as [-> E']; [by simplify_eq|].
    unfold zlen in *. lia. }
  eexists h0, h1, _. split_and!; [done|exact Eb| |done]. unfold h0 in *. simpl in *.
  assert (ht_wf (Dictht (x ++ [] :: y) (size_ (ht0 d)) (sizemask (ht0 d)) (used (ht0 d) - zlen c))) as W0'.
  { apply (ht_wf_update (ht0 d) x c y); [done|done|constructor|zl]. }
  assert (ht_entries (Dictht (x ++ [] :: y) (size_ (ht0 d)) (sizemask (ht0 d)) (used (ht0 d) - zlen c))
    ++ ht_entries h1 ≡ₚ entries d) as Hent.
  { rewrite Hp1. unfold entries. rewrite Hp0. unfold ht_entries. simpl. solve_Permutation. }
  split; [|done|done]. split; simpl.
  - done.
  - done.
  - lia.
  - intros _. rewrite (ht_len _ W0) in *. split_and!; [lia|lia|done|by rewrite Hs1'|].
    intros i Hii. destruct (Z.eq_dec i idx) as [->|]; [by apply zidx_app|].
    rewrite (zidx_update x y [] c idx) by done. rewrite <- E.
    destruct (Z.lt_ge_cases i (rehashidx d)); [apply Hpre; lia|apply Hemp; lia].
  - unfold entries. simpl. rewrite Hent. apply W.
  - unfold entries. simpl. unfold zlen. rewrite Hent. apply W.
Qed.

(** While [ht0] has entries, there is a bucket to move at or after [rehashidx]. *)
Lemma bucket_to_move d :
  dict_wf d -> rehashidx d <> -1 -> used (ht0 d) <> 0 ->
  exists j c, rehashidx d <= j /\ zidx (table (ht0 d)) j = Some c /\ c <> [].
Proof.
  intros W Hre Hu. pose proof (wf_rehash _ W Hre) as (Hi & _ & _ & Hpre).
  rewrite (ht_used _ (wf_ht0 _ W)) in Hu.
  destruct (ht_entries (ht0 d)) as [|e l] eqn:E; [done|].
  destruct (elem_zidx (ht0 d) e) as (j & c & Hj & He); [rewrite E; set_solver|].
  exists j, c. split_and!; [|done|by intros ->; set_solver].
  destruct (Z.lt_ge_cases j (rehashidx d)); [|done].
  pose proof (zidx_range _ _ _ Hj). rewrite Hpre in Hj by lia. simplify_eq. set_solver.
Qed.

Lemma dictRehash_loop_spec n : forall d ev,
  dict_wf d -> rehashidx d <> -1 ->
  exists r, dictRehash_loop n d ev = Some r /\
    let d' := match r with inl d' | inr d' => d' end in
    rehash_pres d d' /\ rehashidx d' <> -1 /\ size_ (ht0 d') = size_ (ht0 d) /\
    rehashidx d <= rehashidx d' /\
    (n <> O -> used (ht0 d) <> 0 -> rehashidx d < rehashidx d') /\
    (used (ht0 d) = 0 -> r = inr d).
Proof.
  induction n as [|n IH]; intros d ev W Hre; simpl.
  { exists (inr d). split; [done|]. split_and!; [by apply rehash_pres_refl|done|done|lia|done|done]. }
  destruct (Z.eqb_spec (used (ht0 d)) 0) as [Hu|Hu].
  { exists (inr d). split; [done|]. split_and!; [by apply rehash_pres_refl|done|done|lia|done|done]. }
  pose proof (wf_rehash _ W Hre) as (Hi & Hs0 & Hs1 & Hpre).
  pose proof (ht_len _ (wf_ht0 _ W)) as Hlen.
  destruct (bucket_to_move d W Hre Hu) as (j & c & Hj & Hz & Hc).
  pose proof (zidx_range _ _ _ Hz) as Hr.
  assert (size_ (ht0 d) < 2 ^ 63) as Hbig.
  { destruct (ht_pow _ (wf_ht0 _ W)) as [->|(m & Hm & ->)]; [lia|].
    apply Z.pow_lt_mono_r; lia. }
  rewrite Z.gtb_ltb, wrapu_small by (unfold in_u; lia). rewrite (proj2 (Z.ltb_lt _ _)) by lia.
  destruct (skip_empty_spec (S (length (table (ht0 d)))) (table (ht0 d)) (rehashidx d) ev)
    as (idx & ev' & stop & E & Hidx & Hemp & Hst); [lia|by exists j, c|unfold zlen; lia|].
  cbn [skip_empty] in E |- *. rewrite E. clear E. simpl. destruct stop.
  - exists (inl (set_rehashidx d idx)). split; [done|]. unfold set_rehashidx. simpl.
    split_and!; [|lia|done|lia|lia|done].
    split; [|done|done]. split; simpl; [apply W|apply W|lia| |apply W|apply W].
    intros _. split_and!; [lia|lia|done|done|]. intros i Hii.
    destruct (Z.lt_ge_cases i (rehashidx d)); [apply Hpre; lia|apply Hemp; lia].
  - destruct Hst as (c' & Hz' & Hc').
    destruct (move_bucket d idx c' W Hre ltac:(lia) Hemp Hz') as (h0 & h1 & h0' & Ec & Eb & Hp & Hsz).
    rewrite Hz'. simpl. rewrite Ec. simpl. rewrite Eb. simpl.
    destruct (IH (Dict h0' h1 (idx + 1) (iterators d)) ev') as (r & -> & Hp' & Hre' & Hsz' & Hle & _ & _);
      [apply Hp|simpl; lia|].
    exists r. split; [done|]. simpl in *. split_and!; [by eapply rehash_pres_trans|done|congruence|lia|lia|done].
Qed.

Lemma dictRehash_spec d n :
  dict_wf d ->
  exists d' r, dictRehash d n = Some (d', r) /\ rehash_pres d d' /\
    r = dictIsRehashing d' /\
    (r = true -> size_ (ht0 d') = size_ (ht0 d) /\ (n <> O -> rehashidx d < rehashidx d')) /\
    (dictIsRehashing d = false -> d' = d).
Proof.
  intros W. unfold dictRehash, dictIsRehashing. destruct (Z.eqb_spec (rehashidx d) (-1)) as [E|Hre]; simpl.
  { exists d, false. split_and!; [done|by apply rehash_pres_refl|by rewrite E|done|done]. }
  destruct (dictRehash_loop_spec n d (Z.of_nat n * 10) W Hre) as (r & -> & Hp & Hre' & Hsz & Hle & Hlt & H0).
  simpl. destruct r as [d'|d'].
  - exists d', true. split_and!; [done|done|by rewrite (proj2 (Z.eqb_neq _ _))| |done].
    intros _. split; [done|]. intros Hn. apply Hlt; [done|]. intros Hu. discriminate (H0 Hu).
  - destruct (Z.eqb_spec (used (ht0 d')) 0) as [Hu|Hu].
    + eexists _, false. split; [done|]. split_and!; [|done|done|done].
      pose proof (rp_wf _ _ Hp) as W'.
      assert (ht_entries (ht0 d') = []) as He.
      { apply zlen_0_inv. by rewrite <- (ht_used _ (wf_ht0 _ W')). }
      split; simpl; [|unfold entries; simpl; rewrite app_nil_r, <- (rp_entries _ _ Hp);
        unfold entries; by rewrite He|apply Hp].
      pose proof (wf_distinct _ W') as Hd. pose proof (wf_bound _ W') as Hb.
      unfold entries in Hd, Hb. rewrite He in Hd, Hb.
      split; simpl; [apply W'|apply reset_wf|done|done| |];
        unfold entries; simpl; by rewrite app_nil_r.
    + exists d', true. split_and!; [done|done|by rewrite (proj2 (Z.eqb_neq _ _))| |done].
      intros _. split; [done|]. intros Hn. apply Hlt; [done|].
      intros Hu'. specialize (H0 Hu'). by simplify_eq.
Qed.

Lemma rehashStep_spec d : dict_wf d -> exists d', _dictRehashStep d = Some d' /\ rehash_pres d d'.
Proof.
  intros W. unfold _dictRehashStep. destruct (iterators d =? 0).
  - destruct (dictRehash_spec d 1 W) as (d' & r & -> & Hp & _). by exists d'.
  - exists d. split; [done|by apply rehash_pres_refl].
Qed.

Lemma rehash_if_needed_spec d :
  dict_wf d -> exists d', rehash_if_needed d = Some d' /\ rehash_pres d d'.
Proof.
  intros W. unfold rehash_if_needed. destruct (dictIsRehashing d); [by apply rehashStep_spec|].
  exists d. split; [done|by apply rehash_pres_refl].
Qed.

(** ** Resizing *)

Lemma nextPower_loop_spec fuel : forall m size,
  2 <= m -> (Z.to_nat (62 - m) < fuel)%nat -> m <= 62 -> size <= 2 ^ 62 ->
  exists n, nextPower_loop fuel (2 ^ m) size = Some (2 ^ n) /\ m <= n <= 62 /\ size <= 2 ^ n /\
    (n = m \/ 2 ^ (n - 1) < size).
Proof.
  induction fuel as [|fuel IH]; intros m size Hm Hf Hm2 Hs; [lia|]. simpl.
  rewrite Z.geb_leb. destruct (Z.leb_spec size (2 ^ m)).
  - exists m. split_and!; [done|lia|lia|done|auto].
  - assert (m <> 62) by (intros ->; lia).
    replace (2 ^ m * 2) with (2 ^ (m + 1)) by (rewrite Z.pow_add_r by lia; done).
    assert (2 ^ (m + 1) <= 2 ^ 62) by (apply Z.pow_le_mono_r; lia).
    pose proof (pow2_pos (m + 1)). rewrite wrapu_small by (unfold in_u; lia).
    destruct (IH (m + 1) size) as (n & -> & Hn & Hsz & Hmin); [lia|lia|lia|lia|].
    exists n. split_and!; [done|lia|lia|done|]. right. destruct Hmin as [->|]; [|done].
    by replace (m + 1 - 1) with m by lia.
Qed.

(** The next power of two is the least one that is at least 4 and holds [size]. *)
Lemma dictNextPower_spec size :
  size <= 2 ^ 62 ->
  exists n, _dictNextPower size = Some (2 ^ n) /\ 2 <= n <= 62 /\ size <= 2 ^ n /\
    (n = 2 \/ 2 ^ (n - 1) < size).
Proof.
  intros Hs. unfold _dictNextPower, DICT_LONG_MAX.
  rewrite Z.geb_leb, (proj2 (Z.leb_gt _ _)) by lia.
  apply (nextPower_loop_spec 63 2); lia.
Qed.

Lemma fresh_ht_wf n :
  2 <= n <= 62 -> ht_wf (Dictht (replicate (Z.to_nat (2 ^ n)) []) (2 ^ n) (wrapu 64 (2 ^ n - 1)) 0 : dictht K V).
Proof.
  intros Hn. pose proof (pow2_pos n). assert (2 ^ n <= 2 ^ 62) by (apply Z.pow_le_mono_r; lia).
  assert (forall m, concat (replicate m []) = [] :> list (K * V)) as Hc by by induction m.
  split; simpl.
  - unfold zlen. rewrite length_replicate. lia.
  - eauto.
  - rewrite wrapu_small by (unfold in_u; lia). by rewrite (proj2 (Z.eqb_neq _ _)) by lia.
  - unfold ht_entries. simpl. by rewrite Hc.
  - intros i c Hi. apply zidx_elem_of, elem_of_replicate_inv in Hi as ->. constructor.
Qed.

Lemma dictExpand_spec d size :
  dict_wf d -> size <= 2 ^ 62 ->
  exists d' st, dictExpand d size = Some (d', st) /\ rehash_pres d d' /\
    (st = DICT_ERR -> d' = d) /\
    (st = DICT_OK -> size_ (ht0 d') <> 0) /\
    (dictIsRehashing d = false -> used (ht0 d) <= size ->
      (size_ (ht0 d) = 0 \/ size_ (ht0 d) < size) -> st = DICT_OK).
Proof.
  intros W Hsz. unfold dictExpand. rewrite Z.gtb_ltb.
  destruct (dictIsRehashing d) eqn:Hre; simpl.
  { exists d, DICT_ERR. split_and!; [done|by apply rehash_pres_refl|done|done|done]. }
  destruct (Z.ltb_spec size (used (ht0 d))).
  { exists d, DICT_ERR. split_and!; [done|by apply rehash_pres_refl|done|done|lia]. }
  destruct (dictNextPower_spec size Hsz) as (n & -> & Hn & Hle & _). simpl.
  pose proof (pow2_pos n).
  destruct (Z.eqb_spec (2 ^ n) (size_ (ht0 d))) as [E|Hne].
  { exists d, DICT_ERR. split_and!; [done|by apply rehash_pres_refl|done|done|lia]. }
  unfold dictIsRehashing in Hre. zbool. pose proof (wf_idle _ W Hre) as Hht1.
  pose proof (fresh_ht_wf n Hn) as Wn. set (nt := Dictht _ _ _ _) in *.
  assert (ht_entries nt = []) as Hnt by (apply zlen_0_inv; by rewrite <- (ht_used _ Wn)).
  pose proof (wf_distinct _ W) as Hd. pose proof (wf_bound _ W) as Hb.
  destruct (table (ht0 d)) as [|b tb] eqn:Et.
  - eexists _, DICT_OK. split; [done|].
    assert (ht_entries (ht0 d) = []) as He by (unfold ht_entries; by rewrite Et).
    unfold entries in Hd, Hb. rewrite He, Hht1 in Hd, Hb.
    split_and!; [|done|simpl; lia|done].
    split; simpl; [|unfold entries; simpl; by rewrite Hnt, He|done].
    split; simpl; [done|apply W|apply W| | |]; [lia|..]; unfold entries; simpl; rewrite Hnt, Hht1; done.
  - eexists _, DICT_OK. split; [done|].
    assert (size_ (ht0 d) <> 0) as Hs0.
    { rewrite (ht_len _ (wf_ht0 _ W)), Et. zl. pose proof (zlen_nonneg tb). lia. }
    unfold entries in Hd, Hb. rewrite Hht1 in Hd, Hb.
    split_and!; [|done|done|done].
    split; simpl; [|unfold entries; simpl; by rewrite Hnt, Hht1|done].
    split; simpl; [apply W|done|done| | |].
    + intros _. pose proof (zlen_nonneg (table (ht0 d))). rewrite <- (ht_len _ (wf_ht0 _ W)) in *.
      split_and!; [lia|lia|done|lia|lia].
    + unfold entries. simpl. by rewrite Hnt.
    + unfold entries. simpl. by rewrite Hnt.
Qed.

Lemma expandIfNeeded_spec b d :
  dict_wf d ->
  exists d', _dictExpandIfNeeded b d = Some (d', DICT_OK) /\ rehash_pres d d' /\ size_ (ht0 d') <> 0.
Proof.
  intros W. unfold _dictExpandIfNeeded. pose proof (ht_used _ (wf_ht0 _ W)) as Hu.
  pose proof (wf_bound _ W) as Hb. unfold entries in Hb. zl.
  pose proof (zlen_nonneg (ht_entries (ht0 d))). pose proof (zlen_nonneg (ht_entries (ht1 d))).
  destruct (dictIsRehashing d) eqn:Hre.
  { exists d. split_and!; [done|by apply rehash_pres_refl|].
    unfold dictIsRehashing in Hre. zbool. apply (wf_rehash _ W Hre). }
  destruct (Z.eqb_spec (size_ (ht0 d)) 0) as [E|Hne].
  { assert (used (ht0 d) = 0) as Hu0.
    { rewrite (ht_len _ (wf_ht0 _ W)) in E. apply zlen_0_inv in E. rewrite Hu. unfold ht_entries. by rewrite E. }
    destruct (dictExpand_spec d DICT_HT_INITIAL_SIZE W) as (d' & st & -> & Hp & _ & Hs & Hok);
      [unfold DICT_HT_INITIAL_SIZE; lia|].
    rewrite Hok in * by (done || unfold DICT_HT_INITIAL_SIZE; lia). exists d'. split_and!; [done|done|by apply Hs]. }
  destruct (_ && _) eqn:Hc.
  - apply andb_true_iff in Hc as [Hc _]. rewrite Z.geb_leb in Hc. zbool.
    pose proof (zlen_nonneg (table (ht0 d))). pose proof (ht_len _ (wf_ht0 _ W)).
    rewrite wrapu_small by (unfold in_u; lia).
    destruct (dictExpand_spec d (used (ht0 d) * 2) W) as (d' & st & -> & Hp & _ & Hs & Hok); [lia|].
    rewrite Hok in * by (done || lia). exists d'. split_and!; [done|done|by apply Hs].
  - exists d. split_and!; [done|by apply rehash_pres_refl|done].
Qed.
End rehash.

(** ** Lookup, insertion and deletion *)

Section ops_spec.
Context {K V : Type} `{EqDecision K} `{T : !dictType K V} `{L : !DictLaws K V}.
Implicit Types (d : dict K V) (ht : dictht K V) (k key : K) (v : V) (c : list (K * V)).

(** No entry of [l] has the key. *)
Definition absent key (l : list (K * V)) : Prop := Forall (fun e => same_key key e.1 = false) l.

#[global] Instance absent_proper key : Proper ((≡ₚ) ==> iff) (absent key).
Proof. intros l l' Hp. unfold absent. by rewrite Hp. Qed.

Lemma chain_find_Some c key pos :
  chain_find c key = Some pos -> exists k v, c !! pos = Some (k, v) /\ same_key key k = true.
Proof.
  revert pos. induction c as [|[k v] c IH]; intros pos; simpl; [done|].
  destruct (same_key key k) eqn:E; [intros [= <-]; by exists k, v|].
  destruct (chain_find c key) as [p|]; simpl; [|done]. intros [= <-]. simpl. by apply IH.
Qed.

Lemma chain_find_None c key : chain_find c key = None -> absent key c.
Proof.
  induction c as [|[k v] c IH]; simpl; [constructor|].
  destruct (same_key key k) eqn:E; [done|]. destruct (chain_find c key); [done|].
  intros _. constructor; [done|by apply IH].
Qed.

(** A key not in its bucket is not in the table. *)
Lemma absent_ht ht key c :
  ht_wf ht -> zidx (table ht) (Z.land (hashFunction key) (sizemask ht)) = Some c ->
  absent key c -> absent key (ht_entries ht).
Proof.
  intros W Hz Hc. apply Forall_forall. intros [k v] He. simpl.
  destruct (same_key key k) eqn:E; [|done].
  apply elem_zidx in He as (i & c' & Hi & He).
  pose proof (ht_place _ W _ _ Hi) as Hp. unfold placed in Hp. rewrite Forall_forall in Hp.
  specialize (Hp _ He). simpl in Hp. rewrite <- (same_key_hash _ _ E) in Hp. subst i.
  rewrite Hz in Hi. simplify_eq. unfold absent in Hc. rewrite Forall_forall in Hc.
  specialize (Hc _ He). simpl in Hc. congruence.
Qed.

Inductive search_spec d key : entref + Z -> Prop :=
| search_hit e k v :
    deref_entry d e = Some (k, v) -> same_key key k = true ->
    search_spec d key (inl e)
| search_miss :
    absent key (entries d) ->
    search_spec d key (inr (Z.land (hashFunction key) (sizemask (get_ht d (dictIsRehashing d))))).

Lemma search_tables_spec d key :
  dict_wf d -> size_ (ht0 d) <> 0 ->
  exists r, search_tables d key (hashFunction key) = Some r /\ search_spec d key r.
Proof.
  intros W Hs. unfold search_tables.
  destruct (hash_bucket (ht0 d) (hashFunction key) (wf_ht0 _ W) Hs) as [c Hc]. rewrite Hc. simpl.
  destruct (chain_find c key) as [pos|] eqn:Ef.
  { eexists. split; [done|]. destruct (chain_find_Some _ _ _ Ef) as (k & v & Hp & Hk).
    apply (search_hit _ _ _ k v); [|done]. unfold deref_entry. simpl. rewrite Hc. done. }
  pose proof (absent_ht _ _ _ (wf_ht0 _ W) Hc (chain_find_None _ _ Ef)) as Ha0.
  destruct (dictIsRehashing d) eqn:Hre; simpl.
  - assert (rehashidx d <> -1) as Hre' by (unfold dictIsRehashing in Hre; by zbool).
    pose proof (wf_rehash _ W Hre') as (_ & _ & Hs1 & _).
    destruct (hash_bucket (ht1 d) (hashFunction key) (wf_ht1 _ W) Hs1) as [c1 Hc1]. rewrite Hc1. simpl.
    destruct (chain_find c1 key) as [pos|] eqn:Ef1.
    { eexists. split; [done|]. destruct (chain_find_Some _ _ _ Ef1) as (k & v & Hp & Hk).
      apply (search_hit _ _ _ k v); [|done]. unfold deref_entry. simpl. rewrite Hc1. done. }
    pose proof (absent_ht _ _ _ (wf_ht1 _ W) Hc1 (chain_find_None _ _ Ef1)) as Ha1.
    eexists. split; [done|]. pose proof (search_miss d key) as M. rewrite Hre in M. apply M.
    unfold entries, absent. by apply Forall_app.
  - eexists. split; [done|]. pose proof (search_miss d key) as M. rewrite Hre in M. apply M.
    assert (rehashidx d = -1) as Hi by (unfold dictIsRehashing in Hre; by zbool).
    unfold entries. rewrite (wf_idle _ W Hi). unfold ht_entries at 2. simpl. by rewrite app_nil_r.
Qed.

(** Replacing the chain of one bucket. *)
Lemma update_bucket d t idx c c' :
  dict_wf d -> zidx (table (get_ht d t)) idx = Some c ->
  placed (sizemask (get_ht d t)) idx c' ->
  (t = false -> rehashidx d <> -1 -> rehashidx d <= idx) ->
  exists ht rest,
    set_bucket (get_ht d t) idx c' = Some ht /\ used ht = used (get_ht d t) /\
    entries d ≡ₚ c ++ rest /\
    forall u, u = used ht - zlen c + zlen c' ->
      let d' := set_ht d t (Dictht (table ht) (size_ ht) (sizemask ht) u) in
      entries d' ≡ₚ c' ++ rest /\ iterators d' = iterators d /\
      (distinct (c' ++ rest) -> zlen (c' ++ rest) < 2 ^ 60 -> dict_wf d').
Proof.
  intros W Hz Hp Hre. set (other := ht_entries (get_ht d (negb t))).
  assert (ht_wf (get_ht d t)) as Wt by (destruct t; apply W).
  destruct (set_bucket_spec (get_ht d t) idx c c' Hz) as (a & b & E & Ha & Eb).
  eexists _, (concat (a ++ [] :: b) ++ other). split_and!; [exact Eb|done| |].
  { unfold other, entries. assert (ht_entries (get_ht d t) ≡ₚ c ++ concat (a ++ [] :: b)) as Hh.
    { unfold ht_entries. rewrite E. apply ht_entries_update. by rewrite app_nil_r. }
    destruct t; simpl in *; rewrite Hh; solve_Permutation. }
  intros u Hu. cbn [table size_ sizemask used] in *.
  pose proof (ht_wf_update (get_ht d t) a c b c' u Wt E ltac:(by rewrite Ha) Hu) as W'.
  set (h' := Dictht _ _ _ u) in *.
  assert (ht_entries h' ≡ₚ c' ++ concat (a ++ [] :: b)) as Hh'.
  { unfold ht_entries, h'. simpl. apply ht_entries_update. by rewrite app_nil_r. }
  cbv zeta. assert (entries (set_ht d t h') ≡ₚ c' ++ concat (a ++ [] :: b) ++ other) as He.
  { unfold other, entries. destruct t; simpl in *; rewrite Hh'; solve_Permutation. }
  split_and!; [done|by destruct t|]. intros Hd Hb.
  split; [by destruct t; [apply W|done]|by destruct t; [done|apply W]| | |by rewrite He|
    unfold zlen; by rewrite He].
  - destruct t; [|apply W]. simpl in *. intros Hi. rewrite (wf_idle _ W Hi) in E. simpl in E.
    by destruct a.
  - intros Hi. assert (rehashidx (set_ht d t h') = rehashidx d) as Er by by destruct t.
    rewrite Er in *. pose proof (wf_rehash _ W Hi) as (H1 & H2 & H3 & H4).
    destruct t; simpl in *; [split_and!; [lia|lia|done|done|done]|].
    split_and!; [lia|lia|done|done|].
    intros i Hii. specialize (Hre eq_refl Hi). rewrite (zidx_update a b c' c idx) by (done || lia).
    rewrite <- E. by apply H4.
Qed.

(** An occupied bucket of [ht0] is at or after [rehashidx]. *)
Lemma occupied_idx d e k v :
  dict_wf d -> deref_entry d e = Some (k, v) ->
  exists c, zidx (table (get_ht d (e_table e))) (e_idx e) = Some c /\ c !! e_pos e = Some (k, v) /\
    placed (sizemask (get_ht d (e_table e))) (e_idx e) c /\
    (e_table e = false -> rehashidx d <> -1 -> rehashidx d <= e_idx e).
Proof.
  intros W Hd. unfold deref_entry in Hd.
  destruct (zidx (table (get_ht d (e_table e))) (e_idx e)) as [c|] eqn:Hz; [|done]. simpl in Hd.
  exists c. split_and!; [done|done| |].
  - destruct (e_table e); [apply (ht_place _ (wf_ht1 _ W))|apply (ht_place _ (wf_ht0 _ W))]; done.
  - intros Ht Hre. rewrite Ht in Hz. simpl in Hz. pose proof (wf_rehash _ W Hre) as (_ & _ & _ & He).
    destruct (Z.lt_ge_cases (e_idx e) (rehashidx d)); [|done].
    pose proof (zidx_range _ _ _ Hz). rewrite He in Hz by lia. by simplify_eq.
Qed.

Lemma store_val_spec d e k old v :
  dict_wf d -> deref_entry d e = Some (k, old) ->
  exists d' rest, store_val d e v = Some d' /\ dict_wf d' /\
    entries d ≡ₚ (k, old) :: rest /\ entries d' ≡ₚ (k, v) :: rest /\ iterators d' = iterators d.
Proof.
  intros W Hd. destruct (occupied_idx d e k old W Hd) as (c & Hz & Hc & Hp & Hre).
  pose proof (list_elem_of_split_length _ _ _ Hc) as (x & y & -> & Hlen).
  assert (<[e_pos e := (k, v)]> (x ++ (k, old) :: y) = x ++ (k, v) :: y) as Hins.
  { rewrite Hlen, insert_app_r_alt, Nat.sub_diag by lia. done. }
  unfold store_val. rewrite Hz. simpl. rewrite Hc. simpl. rewrite Hins.
  destruct (update_bucket d (e_table e) (e_idx e) _ (x ++ (k, v) :: y) W Hz) as (ht & rest & -> & Hu & He & Hd').
  { unfold placed in *. rewrite !Forall_app, !Forall_cons in *. done. }
  { done. }
  simpl. destruct (Hd' (used ht)) as (He' & Hit & Hwf); [zl|].
  assert (Dictht (table ht) (size_ ht) (sizemask ht) (used ht) = ht) as Heta by by destruct ht.
  cbv zeta in *. rewrite Heta in *.
  exists (set_ht d (e_table e) ht), (x ++ y ++ rest). split_and!; [done| | | |done].
  - pose proof (wf_distinct _ W) as Hds. pose proof (wf_bound _ W) as Hb. apply Hwf.
    + assert ((x ++ (k, v) :: y) ++ rest ≡ₚ (k, v) :: x ++ y ++ rest) as -> by solve_Permutation.
      assert (entries d ≡ₚ (k, old) :: x ++ y ++ rest) as Hr by (rewrite He; solve_Permutation).
      rewrite Hr in Hds. unfold distinct in *. rewrite StronglySorted_cons in *. done.
    + unfold zlen in *. rewrite He in Hb. rewrite !length_app in *. simpl in *. lia.
  - rewrite He. solve_Permutation.
  - rewrite He'. solve_Permutation.
Qed.

Lemma dictAddRaw_spec junk b d key :
  dict_wf d -> zlen (entries d) + 1 < 2 ^ 60 ->
  exists d' r, dictAddRaw junk b d key = Some (d', r) /\ dict_wf d' /\ iterators d' = iterators d /\
    match r with
    | inl None => False
    | inl (Some e) => entries d' ≡ₚ entries d /\
        exists k v, deref_entry d' e = Some (k, v) /\ same_key key k = true
    | inr e => absent key (entries d) /\ deref_entry d' e = Some (dictSetKey key, junk) /\
        entries d' ≡ₚ (dictSetKey key, junk) :: entries d
    end.
Proof.
  intros W Hb. unfold dictAddRaw, _dictKeyIndex, dictHashKey.
  destruct (rehash_if_needed_spec d W) as (d1 & -> & P1). simpl.
  destruct (expandIfNeeded_spec b d1 (rp_wf _ _ P1)) as (d2 & -> & P2 & Hs). simpl.
  pose proof (rehash_pres_trans _ _ _ P1 P2) as [W2 He2 Hi2].
  destruct (search_tables_spec d2 key W2 Hs) as (r & -> & Hr). simpl. destruct Hr as [e k v Hd Hk|Ha].
  { exists d2, (inl (Some e)). split_and!; [done|done|done|done|]. by exists k, v. }
  cbv [mbind option_bind]. cbv iota beta zeta. set (t := dictIsRehashing d2).
  set (idx := Z.land (hashFunction key) (sizemask (get_ht d2 t))).
  assert (size_ (get_ht d2 t) <> 0) as Hst.
  { unfold t. destruct (dictIsRehashing d2) eqn:Hre; [|done].
    unfold dictIsRehashing in Hre. zbool. apply (wf_rehash _ W2 Hre). }
  assert (ht_wf (get_ht d2 t)) as Wt by (destruct t; apply W2).
  destruct (hash_bucket (get_ht d2 t) (hashFunction key) Wt Hst) as [c Hc]. fold idx in Hc.
  rewrite Hc.
  pose proof (keyDup_same key) as Hdup.
  destruct (update_bucket d2 t idx c ((dictSetKey key, junk) :: c) W2 Hc) as (ht & rest & Eb & Hu & Her & Hd').
  { constructor; [|by apply (ht_place _ Wt)]. simpl. unfold idx. by rewrite (same_key_hash _ _ Hdup). }
  { unfold t. intros Hre. unfold dictIsRehashing in Hre. zbool. done. }
  rewrite Eb. rewrite He2 in Ha.
  pose proof (wf_bound _ W2) as Hb2. pose proof (ht_used _ Wt) as Hut.
  assert (0 <= used ht < 2 ^ 60) as Hur.
  { rewrite Hu, Hut. pose proof (zlen_nonneg (ht_entries (get_ht d2 t))).
    unfold entries in Hb2. zl. pose proof (zlen_nonneg (ht_entries (ht0 d2))).
    pose proof (zlen_nonneg (ht_entries (ht1 d2))). destruct t; simpl in *; lia. }
  destruct (Hd' (used ht + 1)) as (He' & Hit & Hwf); [zl|]. cbv zeta in *.
  assert (set_used ht (used ht + 1) = Dictht (table ht) (size_ ht) (sizemask ht) (used ht + 1)) as ->.
  { unfold set_used. by rewrite wrapu_small by (unfold in_u; lia). }
  eexists _, (inr (Entref t idx 0)). split; [done|]. split_and!.
  - apply Hwf; simpl.
    + unfold distinct. rewrite StronglySorted_cons. split.
      * assert (absent key (c ++ rest)) as Ha' by by rewrite <- Her, He2.
        eapply Forall_impl; [exact Ha'|]. simpl. intros e He.
        destruct (same_key (dictSetKey key) e.1) eqn:E2; [|done].
        rewrite (same_key_trans _ _ _ Hdup E2) in He. done.
      * fold (distinct (c ++ rest)). rewrite <- Her. apply W2.
    + zl. unfold zlen in *. rewrite He2 in Her. rewrite Her in Hb. rewrite length_app in Hb. lia.
  - congruence.
  - done.
  - destruct (set_bucket_spec _ _ _ ((dictSetKey key, junk) :: c) Hc) as (x & y & _ & Hx & Eb').
    rewrite Eb' in Eb. simplify_eq. unfold deref_entry. simpl.
    destruct t; simpl; by rewrite zidx_app by done.
  - rewrite He', <- He2, Her. simpl. done.
Qed.
End ops_spec.

(** ** The dictionary as a partial function on keys *)

Section lookup.
Context {K V : Type} `{EqDecision K} `{T : !dictType K V} `{L : !DictLaws K V}.
Implicit Types (d : dict K V) (k key : K) (v : V) (l : list (K * V)).

(** The value stored under a key. *)
Definition assoc l key : option V := snd <$> List.find (fun e => same_key key e.1) l.
Definition lookup_ d key : option V := assoc (entries d) key.

Lemma assoc_cons e l key : assoc (e :: l) key = if same_key key e.1 then Some e.2 else assoc l key.
Proof. unfold assoc. simpl. by destruct (same_key key e.1). Qed.

Lemma absent_assoc l key : absent key l <-> assoc l key = None.
Proof.
  unfold absent. induction l as [|e l IH]; [done|]. rewrite assoc_cons, Forall_cons, IH.
  destruct (same_key key e.1); naive_solver.
Qed.

Lemma same_key_eq_l k1 k2 k : same_key k1 k2 = true -> same_key k1 k = same_key k2 k.
Proof.
  intros E. destruct (same_key k1 k) eqn:E1, (same_key k2 k) eqn:E2; try done.
  - rewrite (same_key_trans _ _ _ (same_key_sym _ _ E) E1) in E2. done.
  - rewrite (same_key_trans _ _ _ E E2) in E1. done.
Qed.

Lemma same_key_comm k1 k2 : same_key k1 k2 = same_key k2 k1.
Proof.
  destruct (same_key k1 k2) eqn:E1, (same_key k2 k1) eqn:E2; try done.
  - rewrite (same_key_sym _ _ E1) in E2. done.
  - rewrite (same_key_sym _ _ E2) in E1. done.
Qed.

Lemma assoc_perm l l' key : distinct l -> l ≡ₚ l' -> assoc l key = assoc l' key.
Proof.
  intros Hd Hp. revert Hd. induction Hp as [|x l l' Hp IH|x y l|l1 l2 l3 Hp1 IH1 Hp2 IH2]; intros Hd.
  - done.
  - rewrite !assoc_cons. unfold distinct in Hd. rewrite StronglySorted_cons in Hd.
    destruct (same_key key x.1); [done|]. apply IH, Hd.
  - rewrite !assoc_cons. unfold distinct in Hd. rewrite StronglySorted_cons, Forall_cons in Hd.
    destruct Hd as [[Hxy _] _].
    destruct (same_key key x.1) eqn:Ex, (same_key key y.1) eqn:Ey; try done.
    rewrite (same_key_trans _ _ _ (same_key_sym _ _ Ey) Ex) in Hxy. done.
  - rewrite IH1 by done. apply IH2. by rewrite <- Hp1.
Qed.

Lemma lookup_perm d d' key : dict_wf d -> entries d' ≡ₚ entries d -> lookup_ d' key = lookup_ d key.
Proof. intros W Hp. unfold lookup_. symmetry. apply assoc_perm; [apply W|by rewrite Hp]. Qed.

Lemma lookup_cons_perm d e rest key :
  dict_wf d -> entries d ≡ₚ e :: rest ->
  lookup_ d key = if same_key key e.1 then Some e.2 else assoc rest key.
Proof.
  intros W Hp. unfold lookup_. rewrite (assoc_perm _ (e :: rest)); [|apply W|done]. apply assoc_cons.
Qed.

(** The entries besides one with the key do not have the key. *)
Lemma rest_absent d e rest key :
  dict_wf d -> entries d ≡ₚ e :: rest -> same_key key e.1 = true -> absent key rest.
Proof.
  intros W Hp Hk. pose proof (wf_distinct _ W) as Hd. rewrite Hp in Hd.
  unfold distinct in Hd. rewrite StronglySorted_cons in Hd. destruct Hd as [Hd _].
  eapply Forall_impl; [exact Hd|]. simpl. intros x Hx. by rewrite (same_key_eq_l _ _ x.1 Hk).
Qed.

Lemma assoc_same_key l k1 k2 : same_key k1 k2 = true -> assoc l k1 = assoc l k2.
Proof.
  intros E. induction l as [|x l IH]; [done|]. rewrite !assoc_cons.
  by rewrite (same_key_eq_l _ _ x.1 E), IH.
Qed.

Lemma dictAdd_spec junk b d key val :
  dict_wf d -> zlen (entries d) + 1 < 2 ^ 60 ->
  exists d' st, dictAdd junk b d key val = Some (d', st) /\ dict_wf d' /\
    match lookup_ d key with
    | Some _ => st = DICT_ERR /\ entries d' ≡ₚ entries d
    | None => st = DICT_OK /\ entries d' ≡ₚ (dictSetKey key, dictSetVal val) :: entries d
    end.
Proof.
  intros W Hb. unfold dictAdd.
  destruct (dictAddRaw_spec junk b d key W Hb) as (d1 & r & -> & W1 & _ & Hr). simpl.
  destruct r as [[e|]|e]; [|done|].
  - destruct Hr as (Hp & k & v & Hd & Hk). exists d1, DICT_ERR. split_and!; [done|done|].
    destruct (lookup_ d key) eqn:El; [done|]. apply absent_assoc in El.
    destruct (occupied_idx d1 e k v W1 Hd) as (c & Hz & Hc & _).
    rewrite <- Hp in El. unfold absent in El. rewrite Forall_forall in El.
    assert ((k, v) ∈ entries d1) as Hin.
    { apply list_elem_of_lookup_2 in Hc. unfold entries. apply elem_of_app.
      destruct (e_table e); [right|left]; by eapply zidx_elem. }
    specialize (El _ Hin). simpl in El. congruence.
  - destruct Hr as (Ha & Hd & Hp). apply absent_assoc in Ha. unfold lookup_. rewrite Ha.
    destruct (store_val_spec d1 e _ _ (dictSetVal val) W1 Hd) as (d2 & rest & -> & W2 & He1 & He2 & _).
    simpl. exists d2, DICT_OK. split_and!; [done|done|done|]. rewrite He2. f_equiv.
    apply (Permutation.Permutation_cons_inv (a := (dictSetKey key, junk))). by rewrite <- He1, Hp.
Qed.

Lemma deref_elem d e k v : dict_wf d -> deref_entry d e = Some (k, v) -> exists rest, entries d ≡ₚ (k, v) :: rest.
Proof.
  intros W Hd. destruct (store_val_spec d e k v v W Hd) as (_ & rest & _ & _ & He & _). by exists rest.
Qed.

Lemma deref_lookup d e k v key :
  dict_wf d -> deref_entry d e = Some (k, v) -> same_key key k = true -> lookup_ d key = Some v.
Proof.
  intros W Hd Hk. destruct (deref_elem d e k v W Hd) as [rest Hp].
  rewrite (lookup_cons_perm d (k, v) rest) by done. simpl. by rewrite Hk.
Qed.

Lemma dictReplace_spec junk b d key val :
  dict_wf d -> zlen (entries d) + 1 < 2 ^ 60 ->
  exists d' isnew freed, dictReplace junk b d key val = Some (d', isnew, freed) /\ dict_wf d' /\
    exists k rest, same_key key k = true /\ entries d' ≡ₚ (k, dictSetVal val) :: rest /\
      match lookup_ d key with
      | Some old => isnew = false /\ freed = dictFreeVal old /\ entries d ≡ₚ (k, old) :: rest
      | None => isnew = true /\ freed = [] /\ entries d ≡ₚ rest
      end.
Proof.
  intros W Hb. unfold dictReplace.
  destruct (dictAddRaw_spec junk b d key W Hb) as (d1 & r & -> & W1 & _ & Hr). simpl.
  destruct r as [[e|]|e]; [|done|].
  - destruct Hr as (Hp & k & v & Hd & Hk). simpl. rewrite Hd. simpl.
    pose proof (deref_lookup d1 e k v key W1 Hd Hk) as Hl. rewrite (lookup_perm d d1) in Hl by done. rewrite Hl.
    destruct (store_val_spec d1 e k v (dictSetVal val) W1 Hd) as (d2 & rest & -> & W2 & He1 & He2 & _).
    simpl. eexists _, _, _. split; [done|]. split; [done|]. exists k, rest.
    split_and!; [done|done|done|done|]. by rewrite <- Hp.
  - destruct Hr as (Ha & Hd & Hp). apply absent_assoc in Ha. unfold lookup_. rewrite Ha.
    destruct (store_val_spec d1 e _ _ (dictSetVal val) W1 Hd) as (d2 & rest & -> & W2 & He1 & He2 & _).
    simpl. eexists _, _, _. split; [done|]. split; [done|]. exists (dictSetKey key), rest.
    split_and!; [apply keyDup_same|done|done|done|].
    apply (Permutation.Permutation_cons_inv (a := (dictSetKey key, junk))). by rewrite <- He1, Hp.
Qed.

Lemma size0_used ht : ht_wf (ht : dictht K V) -> size_ ht = 0 -> used ht = 0.
Proof.
  intros W E. rewrite (ht_len _ W) in E. apply zlen_0_inv in E.
  rewrite (ht_used _ W). unfold ht_entries. by rewrite E.
Qed.

Lemma used_size d : dict_wf d -> used (ht0 d) + used (ht1 d) <> 0 -> size_ (ht0 d) <> 0.
Proof.
  intros W Hu Hs. pose proof (size0_used _ (wf_ht0 _ W) Hs) as H0.
  destruct (Z.eq_dec (rehashidx d) (-1)) as [Hi|Hi].
  - rewrite (wf_idle _ W Hi) in Hu. simpl in Hu. lia.
  - by destruct (wf_rehash _ W Hi) as (_ & ? & _).
Qed.

Lemma used_total d : dict_wf d -> used (ht0 d) + used (ht1 d) = zlen (entries d).
Proof. intros W. rewrite (ht_used _ (wf_ht0 _ W)), (ht_used _ (wf_ht1 _ W)). unfold entries. zl. Qed.

Lemma used_nonneg d : dict_wf d -> 0 <= used (ht0 d) /\ 0 <= used (ht1 d).
Proof.
  intros W. rewrite (ht_used _ (wf_ht0 _ W)), (ht_used _ (wf_ht1 _ W)). split; apply zlen_nonneg.
Qed.

Lemma rehash_size d d' : dict_wf d -> rehash_pres d d' -> zlen (entries d) <> 0 -> size_ (ht0 d') <> 0.
Proof.
  intros W [W' Hp _] Hne. apply used_size; [done|]. rewrite used_total by done.
  unfold zlen in *. by rewrite Hp.
Qed.

Lemma dictFind_spec d key :
  dict_wf d ->
  exists d' r, dictFind d key = Some (d', r) /\ rehash_pres d d' /\
    match r with
    | Some e => exists k v, deref_entry d' e = Some (k, v) /\ same_key key k = true /\ lookup_ d key = Some v
    | None => lookup_ d key = None
    end.
Proof.
  intros W. unfold dictFind, dictHashKey. pose proof (wf_bound _ W). pose proof (zlen_nonneg (entries d)).
  rewrite wrapu_small, used_total by (rewrite ?used_total by done; unfold in_u; done || lia).
  destruct (Z.eqb_spec (zlen (entries d)) 0) as [E|Hne].
  { exists d, None. split_and!; [done|by apply rehash_pres_refl|].
    unfold lookup_. by rewrite (zlen_0_inv _ E). }
  destruct (rehash_if_needed_spec d W) as (d1 & -> & P). simpl.
  pose proof (rp_wf _ _ P) as W1.
  destruct (search_tables_spec d1 key W1 (rehash_size _ _ W P Hne)) as (r & -> & Hr). simpl.
  destruct Hr as [e k v Hd Hk|Ha].
  - eexists _, (Some e). split_and!; [done|done|]. exists k, v. split_and!; [done|done|].
    rewrite <- (lookup_perm d d1 key W (rp_entries _ _ P)). by eapply deref_lookup.
  - eexists _, None. split_and!; [done|done|].
    rewrite <- (lookup_perm d d1 key W (rp_entries _ _ P)). by apply absent_assoc.
Qed.

Lemma dictGenericDelete_spec d key nofree :
  dict_wf d ->
  exists d' r freed, dictGenericDelete d key nofree = Some (d', r, freed) /\ dict_wf d' /\
    match r with
    | Some (k, v) => same_key key k = true /\ lookup_ d key = Some v /\
        entries d ≡ₚ (k, v) :: entries d' /\
        freed = if nofree then [] else dictFreeKey k ++ dictFreeVal v
    | None => lookup_ d key = None /\ entries d' ≡ₚ entries d /\ freed = []
    end.
Proof.
  intros W. unfold dictGenericDelete, dictHashKey. pose proof (used_nonneg d W).
  pose proof (used_total d W) as Hut.
  destruct (_ && _) eqn:Hz.
  { zbool. exists d, None, []. split_and!; [done|done| |done|done]. unfold lookup_.
    by rewrite (zlen_0_inv (entries d)) by lia. }
  assert (zlen (entries d) <> 0) as Hne.
  { intros E. apply andb_false_iff in Hz as [Hz|Hz]; zbool; lia. }
  destruct (rehash_if_needed_spec d W) as (d1 & -> & P). cbn [mbind option_bind].
  pose proof (rp_wf _ _ P) as W1.
  destruct (search_tables_spec d1 key W1 (rehash_size _ _ W P Hne)) as (r & -> & Hr).
  cbn [mbind option_bind]. destruct Hr as [e k v Hd Hk|Ha].
  2: { exists d1, None, []. split_and!; [done|done| |apply P|done].
    rewrite <- (lookup_perm d d1 key W (rp_entries _ _ P)). by apply absent_assoc. }
  destruct (occupied_idx d1 e k v W1 Hd) as (c & Hzi & Hc & Hp & Hre).
  rewrite Hzi. cbn [mbind option_bind]. rewrite Hc. cbn [mbind option_bind].
  pose proof (list_elem_of_split_length _ _ _ Hc) as (x & y & -> & Hlen).
  assert (delete (e_pos e) (x ++ (k, v) :: y) = x ++ y) as -> by (rewrite Hlen; by rewrite delete_middle).
  destruct (update_bucket d1 (e_table e) (e_idx e) _ (x ++ y) W1 Hzi) as (ht & rest & -> & Hu & He & Hd').
  { unfold placed in *. rewrite !Forall_app, !Forall_cons in *. tauto. }
  { done. }
  cbn [mbind option_bind].
  assert (1 <= used ht < 2 ^ 60) as Hur.
  { rewrite Hu. assert (ht_wf (get_ht d1 (e_table e))) as Wt by (destruct (e_table e); apply W1).
    rewrite (ht_used _ Wt). pose proof (zidx_elem _ _ _ (k, v) Hzi) as Hin.
    assert ((k, v) ∈ ht_entries (get_ht d1 (e_table e))) as Hin' by (apply Hin; set_solver).
    destruct (ht_entries (get_ht d1 (e_table e))) as [|z zs] eqn:Ez; [set_solver|].
    pose proof (wf_bound _ W1) as Hb. unfold entries in Hb. zl. pose proof (zlen_nonneg zs).
    pose proof (zlen_nonneg (ht_entries (ht0 d1))). pose proof (zlen_nonneg (ht_entries (ht1 d1))).
    assert (zlen zs + 1 <= zlen (ht_entries (ht0 d1)) + zlen (ht_entries (ht1 d1))); [|lia].
    destruct (e_table e); simpl in Ez; rewrite Ez in *; zl. }
  destruct (Hd' (used ht - 1)) as (He' & Hit & Hwf); [zl|]. cbv zeta in *.
  assert (set_used ht (used ht - 1) = Dictht (table ht) (size_ ht) (sizemask ht) (used ht - 1)) as ->.
  { unfold set_used. by rewrite wrapu_small by (unfold in_u; lia). }
  assert (entries d1 ≡ₚ (k, v) :: (x ++ y) ++ rest) as Hperm by (rewrite He; solve_Permutation).
  eexists _, (Some (k, v)), _. split; [done|]. split.
  - apply Hwf.
    + pose proof (wf_distinct _ W1) as Hds. rewrite Hperm in Hds. unfold distinct in *.
      rewrite StronglySorted_cons in Hds. tauto.
    + pose proof (wf_bound _ W1) as Hb. unfold zlen in *. rewrite Hperm in Hb. simpl in Hb. lia.
  - split_and!; [done| | |done].
    + rewrite <- (lookup_perm d d1 key W (rp_entries _ _ P)). by eapply deref_lookup.
    + rewrite He', <- (rp_entries _ _ P). done.
Qed.
End lookup.

(** ** The contract of the dictionary *)

Section contract.
Context {K V : Type} `{EqDecision K} `{T : !dictType K V} `{L : !DictLaws K V}.
Implicit Types (d : dict K V) (k key : K) (v : V).

Lemma rehashMilliseconds_loop_spec fuel : forall now start ms d n,
  dict_wf d -> (Z.to_nat (size_ (ht0 d) - rehashidx d) < fuel)%nat ->
  exists d' n', rehashMilliseconds_loop fuel now start ms d n = Some (d', n') /\ rehash_pres d d' /\
    ((forall i, now i - start <= ms) -> dictIsRehashing d' = false).
Proof.
  induction fuel as [|fuel IH]; intros now start ms d n W Hf; [lia|]. cbn [rehashMilliseconds_loop].
  destruct (dictRehash_spec d 100 W) as (d1 & r & -> & P1 & Hr & Hprog & _). cbn [mbind option_bind].
  destruct r; [|by exists d1, n].
  rewrite Z.gtb_ltb. destruct (Z.ltb_spec ms (now O - start)) as [Hlt|Hle].
  - eexists d1, _. split_and!; [done|done|]. intros Hnow. specialize (Hnow O). lia.
  - destruct (Hprog eq_refl) as [Hs Hi]. specialize (Hi ltac:(done)). symmetry in Hr.
    unfold dictIsRehashing in Hr. zbool. destruct (wf_rehash _ (rp_wf _ _ P1) Hr) as (Hb & _).
    destruct (IH (fun i => now (S i)) start ms d1 (wraps 32 (n + 100)) (rp_wf _ _ P1))
      as (d' & n' & -> & P & Hfin); [rewrite Hs in *; lia|].
    exists d', n'. split_and!; [done|by eapply rehash_pres_trans|auto].
Qed.

(** The events of freeing an entry. *)
Definition free_entry (e : K * V) : list (free_event K V) := dictFreeKey e.1 ++ dictFreeVal e.2.

Lemma clear_loop_spec (tb : list (list (K * V))) n :
  n = zlen (concat tb) -> n < 2 ^ 64 -> clear_loop tb n = concat tb ≫= free_entry.
Proof.
  revert n. induction tb as [|c tb IH]; intros n -> Hn; simpl in *; [done|]. rewrite zlen_app in *.
  pose proof (zlen_nonneg c). pose proof (zlen_nonneg (concat tb)). rewrite Z.gtb_ltb.
  assert ((c ≫= fun '(k, v) => dictFreeKey k ++ dictFreeVal v) = c ≫= free_entry) as ->.
  { apply list_bind_ext; [|done]. by intros [k v]. }
  destruct (Z.ltb_spec 0 (zlen c + zlen (concat tb))).
  - rewrite bind_app, wrapu_small by (split; lia). f_equal. apply IH; lia.
  - rewrite (zlen_0_inv c), (zlen_0_inv (concat tb)) by lia. done.
Qed.

(** C2 [dictAdd] on a well-formed dictionary always returns. It binds the key
    when the key was absent and otherwise changes no binding and reports an
    error; every other key keeps its value and the invariant is kept, whatever
    rehashing step or expansion the call performs on the way. *)
Theorem dictAdd_refines junk can_resize d key val :
  dict_wf d -> zlen (entries d) + 1 < 2 ^ 60 ->
  exists d' st, dictAdd junk can_resize d key val = Some (d', st) /\ dict_wf d' /\
    (st = DICT_OK <-> lookup_ d key = None) /\
    forall k, lookup_ d' k =
      if same_key k key && bool_decide (lookup_ d key = None) then Some (dictSetVal val) else lookup_ d k.
Proof.
  intros W Hb. destruct (dictAdd_spec junk can_resize d key val W Hb) as (d' & st & -> & W' & Hl).
  exists d', st. split_and!; [done|done| |].
  - destruct (lookup_ d key); destruct Hl as [-> _]; done.
  - intros k. destruct (lookup_ d key) eqn:El; destruct Hl as [_ Hp]; simpl.
    + rewrite andb_false_r. by apply lookup_perm.
    + rewrite andb_true_r, (lookup_cons_perm d' _ _ k W' Hp). simpl.
      by rewrite !(same_key_comm k), (same_key_eq_l key (dictSetKey key)) by apply keyDup_same.
Qed.

(** [dictReplace] always returns, binds the key to the new value, keeps the
    other bindings, reports whether the key is new, and frees the old value
    exactly when there was one. *)
Theorem dictReplace_refines junk can_resize d key val :
  dict_wf d -> zlen (entries d) + 1 < 2 ^ 60 ->
  exists d' isnew freed, dictReplace junk can_resize d key val = Some (d', isnew, freed) /\ dict_wf d' /\
    (forall k, lookup_ d' k = if same_key k key then Some (dictSetVal val) else lookup_ d k) /\
    isnew = bool_decide (lookup_ d key = None) /\
    freed = match lookup_ d key with Some old => dictFreeVal old | None => [] end.
Proof.
  intros W Hb.
  destruct (dictReplace_spec junk can_resize d key val W Hb)
    as (d' & isnew & freed & -> & W' & k0 & rest & Hk0 & Hp' & Hl).
  exists d', isnew, freed.
  assert (forall k, same_key k key = same_key k k0) as Hsk.
  { intros k. by rewrite !(same_key_comm k), (same_key_eq_l key k0). }
  split_and!; [done|done| | |].
  - intros k. rewrite (lookup_cons_perm d' _ _ k W' Hp'), Hsk. simpl.
    destruct (same_key k k0) eqn:Ek; [done|].
    destruct (lookup_ d key); destruct Hl as (_ & _ & Hp).
    + rewrite (lookup_cons_perm d _ _ k W Hp). simpl. by rewrite Ek.
    + symmetry. apply assoc_perm; [apply W|done].
  - destruct (lookup_ d key); by destruct Hl as (-> & _).
  - destruct (lookup_ d key); by destruct Hl as (_ & -> & _).
Qed.

(** C25 [dictDelete] always returns, unbinds exactly the key, reports whether it
    was bound and frees the key and the value of the removed entry once. *)
Theorem dictDelete_refines d key :
  dict_wf d ->
  exists d' st freed, dictDelete d key = Some (d', st, freed) /\ dict_wf d' /\
    (forall k, lookup_ d' k = if same_key k key then None else lookup_ d k) /\
    match lookup_ d key with
    | Some v => st = DICT_OK /\ exists k, same_key key k = true /\ freed = dictFreeKey k ++ dictFreeVal v
    | None => st = DICT_ERR /\ freed = []
    end.
Proof.
  intros W. unfold dictDelete.
  destruct (dictGenericDelete_spec d key false W) as (d' & r & freed & -> & W' & Hr). simpl.
  destruct r as [[k0 v]|]; (eexists d', _, freed; split; [done|]; split; [done|]).
  - destruct Hr as (Hk0 & -> & Hp & ->). split; [|split; [done|by exists k0]].
    intros k. pose proof (rest_absent d _ _ key W Hp Hk0) as Ha. apply absent_assoc in Ha.
    rewrite (lookup_cons_perm d _ _ k W Hp). simpl. unfold lookup_.
    destruct (same_key k key) eqn:Ek; [by rewrite (assoc_same_key _ k key)|].
    by rewrite (same_key_comm k k0), <- (same_key_eq_l key k0 k), (same_key_comm key), Ek by done.
  - destruct Hr as (Hl & Hp & ->). rewrite Hl. split; [|done]. intros k. rewrite (lookup_perm d d') by done.
    destruct (same_key k key) eqn:Ek; [|done]. rewrite <- Hl. unfold lookup_. by apply assoc_same_key.
Qed.

(** [dictFetchValue] returns the value bound to the key; the rehashing step it
    may take leaves every binding as it was. *)
Theorem dictFetchValue_refines d key :
  dict_wf d ->
  exists d', dictFetchValue d key = Some (d', lookup_ d key) /\ dict_wf d' /\
    forall k, lookup_ d' k = lookup_ d k.
Proof.
  intros W. unfold dictFetchValue. destruct (dictFind_spec d key W) as (d' & r & -> & P & Hr). simpl.
  exists d'. destruct r as [e|].
  - destruct Hr as (k & v & -> & _ & ->). split_and!; [done|apply P|]. intros. by apply lookup_perm, P.
  - rewrite Hr. split_and!; [done|apply P|]. intros. by apply lookup_perm, P.
Qed.

(** C37 [dictRehashMilliseconds] always returns, whatever the clock says, with the
    same entries and the same number of iterators; as long as the clock does not
    pass the deadline, it completes the rehashing. *)
Theorem dictRehashMilliseconds_completes clock d ms :
  dict_wf d ->
  exists d' n, dictRehashMilliseconds clock d ms = Some (d', n) /\ dict_wf d' /\
    entries d' ≡ₚ entries d /\ iterators d' = iterators d /\
    ((forall i, clock (S i) - clock O <= ms) -> dictIsRehashing d' = false /\ ht1 d' = _dictReset).
Proof.
  intros W. unfold dictRehashMilliseconds.
  destruct (rehashMilliseconds_loop_spec (length (table (ht0 d)) + 2) (fun i => clock (S i)) (clock O) ms d 0 W)
    as (d' & n & -> & [W' He Hi] & Hfin).
  { pose proof (ht_len _ (wf_ht0 _ W)) as Hl. unfold zlen in Hl.
    destruct (Z.eq_dec (rehashidx d) (-1)) as [->|Hre]; [lia|].
    destruct (wf_rehash _ W Hre) as (? & _). lia. }
  exists d', n. split_and!; [done|done|done|done|]. intros Hc. specialize (Hfin Hc). split; [done|].
  apply (wf_idle _ W'). unfold dictIsRehashing in Hfin. by zbool.
Qed.

Lemma dictEmpty_wf : dict_wf (_dictInit : dict K V).
Proof. split; simpl; [apply reset_wf|apply reset_wf|done|done|constructor|done]. Qed.

(** [dictEmpty] frees the key and the value of every entry exactly once, in
    both tables, and leaves an empty dictionary that is ready for use. *)
Theorem dictEmpty_frees_all d :
  dict_wf d ->
  dictEmpty d = (_dictInit, entries d ≫= free_entry) /\
  dictRelease d = entries d ≫= free_entry /\ dict_wf (_dictInit : dict K V).
Proof.
  intros W. unfold dictEmpty, dictRelease, _dictClear. pose proof (wf_bound _ W) as Hb.
  unfold entries in Hb. zl. pose proof (zlen_nonneg (ht_entries (ht0 d))).
  pose proof (zlen_nonneg (ht_entries (ht1 d))).
  simpl. rewrite !clear_loop_spec by (try apply ht_used; try apply W; rewrite (ht_used _ (wf_ht0 _ W)) || rewrite (ht_used _ (wf_ht1 _ W)); lia).
  unfold entries. rewrite bind_app. split_and!; [done|done|apply dictEmpty_wf].
Qed.
End contract.

(** ** A dictionary in the middle of a rehashing *)

Module Sample.
#[export] Instance ztype : dictType Z Z := {|
  hashFunction k := wrapu 64 k;
  keyDup := None;
  valDup := None;
  keyCompare := Some Z.eqb;
  keyDestructor := true;
  valDestructor := true;
|}.

Lemma same_key_Z k1 k2 : same_key k1 k2 = true <-> k1 = k2.
Proof.
  unfold same_key. simpl. rewrite orb_true_iff, bool_decide_eq_true, Z.eqb_eq. tauto.
Qed.

#[export] Instance zlaws : DictLaws Z Z.
Proof.
  split.
  - intros k. apply wrapu_range. lia.
  - intros k1 k2 ->%same_key_Z. apply same_key_refl.
  - by intros k1 k2 k3 ->%same_key_Z ?.
  - by intros k1 k2 ->%same_key_Z.
  - intros k. apply same_key_refl.
Qed.

Definition add_all (l : list (Z * Z)) (d : dict Z Z) : option (dict Z Z) :=
  foldr (fun kv o => d ← o; '(d, _) ← dictAdd 0 true d kv.1 kv.2; Some d) (Some d) l.

Lemma add_all_wf l : zlen l < 2 ^ 60 ->
  exists d, add_all l dictCreate = Some d /\ dict_wf d /\ zlen (entries d) <= zlen l.
Proof.
  induction l as [|[k v] l IH]; intros Hl; simpl.
  - exists dictCreate. split_and!; [done| |done]. apply (dictEmpty_wf).
  - zl. destruct IH as (d & -> & W & Hb); [lia|]. simpl.
    destruct (dictAdd_spec 0 true d k v W) as (d' & st & -> & W' & Hr); [lia|]. simpl.
    exists d'. split_and!; [done|done|]. destruct (lookup_ d k); destruct Hr as [_ Hp];
      unfold zlen in *; rewrite Hp; simpl; lia.
Qed.

(** Nine keys, some of them in one bucket; the expansion to 16 buckets is on its way. *)
Definition sample : dict Z Z :=
  default dictCreate (add_all ((fun k => (k * 4, k)) <$> seqZ 1 9) dictCreate).

Lemma sample_wf : dict_wf sample.
Proof.
  unfold sample. destruct (add_all_wf ((fun k => (k * 4, k)) <$> seqZ 1 9)) as (d & -> & W & _);
    [vm_compute; reflexivity|done].
Qed.

Lemma sample_rehashing : dictIsRehashing sample = true.
Proof. vm_compute. reflexivity. Qed.

Lemma dictAdd_refines_witness : exists d' st, dictAdd 0 true sample 7 70 = Some (d', st) /\
  st = DICT_OK /\ lookup_ d' 7 = Some 70 /\ lookup_ d' 8 = Some 2.
Proof.
  destruct (dictAdd_refines 0 true sample 7 70 sample_wf) as (d' & st & E & _ & Hst & Hl);
    [vm_compute; reflexivity|].
  exists d', st. rewrite !Hl. split_and!; [exact E|apply Hst|..]; vm_compute; reflexivity.
Defined.

Lemma dictReplace_refines_witness : exists d' isnew freed,
  dictReplace 0 true sample 8 80 = Some (d', isnew, freed) /\ lookup_ d' 8 = Some 80 /\
  lookup_ d' 12 = Some 3 /\ isnew = false /\ freed = [FreeVal 2].
Proof.
  destruct (dictReplace_refines 0 true sample 8 80 sample_wf) as (d' & n & f & E & _ & Hl & Hn & Hf);
    [vm_compute; reflexivity|].
  exists d', n, f. rewrite !Hl, Hn, Hf. split_and!; [rewrite E, Hn, Hf|..]; vm_compute; reflexivity.
Defined.

Lemma dictDelete_refines_witness : exists d' st freed,
  dictDelete sample 8 = Some (d', st, freed) /\ lookup_ d' 8 = None /\ lookup_ d' 12 = Some 3.
Proof.
  destruct (dictDelete_refines sample 8 sample_wf) as (d' & st & f & E & _ & Hl & _).
  exists d', st, f. rewrite !Hl. split_and!; [exact E|..]; vm_compute; reflexivity.
Defined.

Lemma dictFetchValue_refines_witness : exists d', dictFetchValue sample 36 = Some (d', Some 9).
Proof.
  destruct (dictFetchValue_refines sample 36 sample_wf) as (d' & E & _). exists d'. rewrite E.
  vm_compute. reflexivity.
Defined.

Lemma dictRehashMilliseconds_completes_witness : exists d' n,
  dictRehashMilliseconds (fun _ => 0) sample 1 = Some (d', n) /\ dictIsRehashing d' = false.
Proof.
  destruct (dictRehashMilliseconds_completes (fun _ => 0) sample 1 sample_wf)
    as (d' & n & E & _ & _ & _ & Hc).
  exists d', n. split; [exact E|]. apply Hc. intros _. lia.
Defined.

Lemma dictEmpty_frees_all_witness : length (dictRelease sample) = 18%nat.
Proof.
  destruct (dictEmpty_frees_all sample sample_wf) as (_ & E & _). rewrite E. vm_compute. reflexivity.
Defined.
End Sample.
