(* ===== verification/DictScan.v ===== *)
(** * Stateless iteration over a dictionary (dictScan and rev of dict.c)

    [dictScan] returns the new cursor and the entries handed to the callback, in
    order. The proofs measure cursors and hashes by their bit reversal: a call
    covers an interval of reversed hashes, whatever the sizes of the tables. *)

From S2P Require Import Prelude Dict.

(** One iteration per halving of [s]: seven tests for [s = 64]. *)
Fixpoint rev_loop (fuel : nat) (s mask v : Z) : Z :=
  match fuel with
  | O => v
  | S fuel =>
      let s := Z.shiftr s 1 in
      if s >? 0 then
        let mask := Z.lxor mask (wrapu 64 (Z.shiftl mask s)) in
        let v := Z.lor (Z.land (Z.shiftr v s) mask)
                       (Z.land (wrapu 64 (Z.shiftl v s)) (wrapu 64 (Z.lnot mask))) in
        rev_loop fuel s mask v
      else v
  end.

Definition rev (v : Z) : Z := rev_loop 7 64 (wrapu 64 (Z.lnot 0)) v.

(** [v |= ~m; v = rev(v); v++; v = rev(v)]. *)
Definition scan_incr (v m : Z) : Z :=
  let v := Z.lor v (wrapu 64 (Z.lnot m)) in
  let v := rev v in
  let v := wrapu 64 (v + 1) in
  rev v.

Section scan.
Context {K V : Type}.

(** The [do ... while (v & (m0 ^ m1))] loop over the larger table. *)
Fixpoint scan_expand (fuel : nat) (t1 : dictht K V) (m0 m1 v : Z) : option (Z * list (K * V)) :=
  match fuel with
  | O => None
  | S fuel =>
      c ← zidx (table t1) (Z.land v m1);
      let v := scan_incr v m1 in
      if Z.land v (Z.lxor m0 m1) =? 0 then Some (v, c)
      else '(v, es) ← scan_expand fuel t1 m0 m1 v; Some (v, c ++ es)
  end.

Definition dictScan (d : dict K V) (v : Z) : option (Z * list (K * V)) :=
  if dictSize d =? 0 then Some (0, [])
  else if negb (dictIsRehashing d) then
    let t0 := ht0 d in
    let m0 := sizemask t0 in
    c ← zidx (table t0) (Z.land v m0);
    Some (scan_incr v m0, c)
  else
    let '(t0, t1) := if size_ (ht0 d) >? size_ (ht1 d) then (ht1 d, ht0 d) else (ht0 d, ht1 d) in
    let m0 := sizemask t0 in
    let m1 := sizemask t1 in
    c ← zidx (table t0) (Z.land v m0);
    '(v, es) ← scan_expand (S (length (table t1))) t1 m0 m1 v;
    Some (v, c ++ es).

(** A whole iteration: the calls made on the successive states [ds] of the
    dictionary, each with the cursor the previous one returned, until 0. *)
Fixpoint scan_all (ds : list (dict K V)) (v : Z) : option (Z * list (K * V)) :=
  match ds with
  | [] => Some (v, [])
  | d :: ds =>
      '(v, es) ← dictScan d v;
      if v =? 0 then Some (v, es)
      else '(v, es') ← scan_all ds v; Some (v, es ++ es')
  end.
End scan.

(** ** Bit reversal *)

(** One round of [rev] with block size [s] moves bit [i] to [i xor s]. *)
Definition swap_blocks (s mask v : Z) : Z :=
  Z.lor (Z.land (Z.shiftr v s) mask) (Z.land (wrapu 64 (Z.shiftl v s)) (wrapu 64 (Z.lnot mask))).

Definition rounds : list (Z * Z) :=
  [(32, 0x00000000FFFFFFFF); (16, 0x0000FFFF0000FFFF); (8, 0x00FF00FF00FF00FF);
   (4, 0x0F0F0F0F0F0F0F0F); (2, 0x3333333333333333); (1, 0x5555555555555555)].

Lemma rev_rounds v : rev v = fold_left (fun v sm => swap_blocks sm.1 sm.2 v) rounds v.
Proof. reflexivity. Qed.

(** What a round needs of its block size and mask, for one bit position. *)
Definition round_ok (sm : Z * Z) (i : Z) : bool :=
  if Z.testbit sm.2 i then (Z.lxor i sm.1 =? i + sm.1) && (i + sm.1 <? 64)
  else (Z.lxor i sm.1 =? i - sm.1) && (sm.1 <=? i).

Lemma rounds_ok sm i : sm ∈ rounds -> 0 <= i < 64 -> round_ok sm i = true.
Proof.
  intros Hsm Hi.
  assert (forallb (fun sm => forallb (round_ok sm) (seqZ 0 64)) rounds = true) as H by (vm_compute; reflexivity).
  rewrite forallb_forall in H. specialize (H sm ltac:(by apply list_elem_of_In)).
  rewrite forallb_forall in H. apply H. apply list_elem_of_In, elem_of_seqZ. lia.
Qed.

Lemma swap_blocks_spec s mask v :
  (s, mask) ∈ rounds -> in_u 64 v ->
  in_u 64 (swap_blocks s mask v) /\
  forall i, 0 <= i < 64 -> Z.testbit (swap_blocks s mask v) i = Z.testbit v (Z.lxor i s).
Proof.
  intros Hr Hv.
  assert (0 < s < 64 /\ in_u 64 mask) as [Hs Hm].
  { clear Hv. unfold rounds in Hr. unfold in_u.
    repeat (apply elem_of_cons in Hr as [Hr|Hr]; [injection Hr as -> ->; lia|]).
    set_solver. }
  assert (forall i, 0 <= i -> Z.testbit (swap_blocks s mask v) i =
    Z.testbit v (i + s) && Z.testbit mask i ||
    (Z.testbit v (i - s) && (i <? 64)) && (negb (Z.testbit mask i) && (i <? 64))) as Hbit.
  { intros i Hi. unfold swap_blocks. rewrite Z.lor_spec, !Z.land_spec, Z.shiftr_spec by lia.
    rewrite !wrapu_testbit by lia. rewrite Z.shiftl_spec, Z.lnot_spec by lia. done. }
  split.
  - apply testbit_in_u; [lia| |].
    + unfold swap_blocks. apply Z.lor_nonneg. split; apply Z.land_nonneg; right;
        [apply Hm|apply wrapu_range; lia].
    + intros i Hi. rewrite Hbit by lia. rewrite (in_u_testbit 64 mask) by (done || lia).
      rewrite (proj2 (Z.ltb_ge _ _)) by lia. by rewrite !andb_false_r.
  - intros i Hi. rewrite Hbit by lia. pose proof (rounds_ok _ i Hr Hi) as Hok. unfold round_ok in Hok.
    simpl in Hok. rewrite (proj2 (Z.ltb_lt _ _)) by lia. rewrite !andb_true_r.
    destruct (Z.testbit mask i); zbool; simpl.
    + rewrite andb_true_r, andb_false_r, orb_false_r. by replace (Z.lxor i s) with (i + s).
    + rewrite andb_false_r, andb_true_r. simpl. by replace (Z.lxor i s) with (i - s).
Qed.

Lemma rev_spec v :
  in_u 64 v -> in_u 64 (rev v) /\ forall i, 0 <= i < 64 -> Z.testbit (rev v) i = Z.testbit v (63 - i).
Proof.
  intros Hv. rewrite rev_rounds.
  assert (forall l v, (forall sm, sm ∈ l -> sm ∈ rounds) -> in_u 64 v ->
    in_u 64 (fold_left (fun v sm => swap_blocks sm.1 sm.2 v) l v) /\
    forall i, 0 <= i < 64 ->
      (forall l', l' `prefix_of` (List.rev l) -> 0 <= fold_left (fun i sm => Z.lxor i sm.1) l' i < 64) ->
      Z.testbit (fold_left (fun v sm => swap_blocks sm.1 sm.2 v) l v) i =
      Z.testbit v (fold_left (fun i sm => Z.lxor i sm.1) (List.rev l) i)) as G.
  { induction l as [|[s m] l IH] using rev_ind; intros w Hl Hw; [done|].
    rewrite fold_left_app, rev_app_distr. simpl.
    destruct (IH w) as [Hr Hb]; [set_solver|done|].
    destruct (swap_blocks_spec s m _ (Hl (s, m) ltac:(set_solver)) Hr) as [Hr' Hb'].
    split; [done|]. intros i Hi Hp. rewrite Hb' by done. apply Hb.
    - apply (Hp [(s, m)]). by apply prefix_cons, prefix_nil.
    - intros l' Hl'. apply (Hp ((s, m) :: l')). by apply prefix_cons. }
  destruct (G rounds v) as [Hr Hb]; [done|done|]. split; [done|]. intros i Hi.
  assert (forallb (fun i => (fold_left (fun i sm => Z.lxor i sm.1) (List.rev rounds) i =? 63 - i) &&
    forallb (fun n => let z := fold_left (fun i sm => Z.lxor i sm.1) (take n (List.rev rounds)) i in
      (0 <=? z) && (z <? 64)) (seq 0 7)) (seqZ 0 64) = true) as H by (vm_compute; reflexivity).
  rewrite forallb_forall in H. specialize (H i ltac:(apply list_elem_of_In, elem_of_seqZ; lia)).
  apply andb_true_iff in H as [H1 H2]. zbool. rewrite forallb_forall in H2.
  rewrite Hb, H1; [done|done|]. intros l' [k Hk].
  assert (l' = take (length l') (List.rev rounds)) as E by (rewrite Hk; by rewrite take_app_length).
  rewrite E. specialize (H2 (length l')). apply andb_true_iff in H2 as [H2 H3]; [zbool; lia|].
  apply in_seq. apply (f_equal length) in Hk. rewrite length_app in Hk. simpl in Hk. lia.
Qed.

Lemma rev_range v : in_u 64 v -> in_u 64 (rev v).
Proof. intros. by apply rev_spec. Qed.

Lemma rev_testbit v i : in_u 64 v -> 0 <= i < 64 -> Z.testbit (rev v) i = Z.testbit v (63 - i).
Proof. intros. by apply rev_spec. Qed.

Lemma bits64_inj a b :
  in_u 64 a -> in_u 64 b -> (forall i, 0 <= i < 64 -> Z.testbit a i = Z.testbit b i) -> a = b.
Proof.
  intros Ha Hb H. apply Z.bits_inj'. intros i Hi. destruct (Z.lt_ge_cases i 64); [apply H; lia|].
  by rewrite !(in_u_testbit 64) by (done || lia).
Qed.

Lemma rev_involutive v : in_u 64 v -> rev (rev v) = v.
Proof.
  intros Hv. apply bits64_inj; [by repeat apply rev_range|done|]. intros i Hi.
  rewrite !rev_testbit by (done || lia || by apply rev_range). f_equal. lia.
Qed.

Lemma rev_0 : rev 0 = 0.
Proof. reflexivity. Qed.

Lemma rev_eq_0 v : in_u 64 v -> rev v = 0 -> v = 0.
Proof. intros Hv E. by rewrite <- (rev_involutive v), E, rev_0. Qed.

#[global] Opaque rev.

(** ** Reversed cursors

    For a table of [2 ^ k] buckets the reversed cursors split into intervals of
    length [2 ^ (64 - k)], one per bucket; the order in which the buckets are
    visited is that of the intervals. *)

(** The end of the interval of length [w] around [x]. *)
Definition next_multiple (w x : Z) : Z := (x / w + 1) * w.

Lemma next_multiple_gt w x : 0 < w -> x < next_multiple w x.
Proof. intros Hw. unfold next_multiple. pose proof (Z.mul_succ_div_gt x w Hw). lia. Qed.

Lemma next_multiple_le w x y : 0 < w -> x < y -> y mod w = 0 -> next_multiple w x <= y.
Proof.
  intros Hw Hxy Hy. unfold next_multiple. apply Z.mod_divide in Hy as [q ->]; [|lia].
  assert (x / w < q) by (apply Z.div_lt_upper_bound; lia). nia.
Qed.

Lemma next_multiple_mod w x : 0 < w -> next_multiple w x mod w = 0.
Proof. intros. apply Z.mod_mul. lia. Qed.

Lemma pow2_mod a b : 0 <= a <= b -> 2 ^ b mod 2 ^ a = 0.
Proof.
  intros H. apply Z.mod_divide; [pose proof (pow2_pos a); lia|].
  exists (2 ^ (b - a)). rewrite <- Z.pow_add_r by lia. f_equal. lia.
Qed.

Lemma mod_mod_pow2 x a b : 0 <= a <= b -> (x mod 2 ^ b) mod 2 ^ a = x mod 2 ^ a.
Proof. intros H. apply Z.mod_mod_divide, Z.mod_divide; [pose proof (pow2_pos a); lia|by apply pow2_mod]. Qed.

Lemma mod_0_mono x a b : 0 <= a <= b -> x mod 2 ^ b = 0 -> x mod 2 ^ a = 0.
Proof. intros H E. rewrite <- (mod_mod_pow2 x a b) by lia. rewrite E. apply Z.mod_0_l. pose proof (pow2_pos a). lia. Qed.

Lemma lor_low_ones a n : 0 <= n -> Z.lor a (Z.ones n) = next_multiple (2 ^ n) a - 1.
Proof.
  intros Hn. assert (Z.lor a (Z.ones n) = Z.lor (Z.shiftl (Z.shiftr a n) n) (Z.ones n)) as ->.
  { apply Z.bits_inj'. intros i Hi. rewrite !Z.lor_spec, Z.shiftl_spec by lia.
    destruct (Z.lt_ge_cases i n).
    - rewrite Z.ones_spec_low by lia. by rewrite !orb_true_r.
    - rewrite Z.shiftr_spec by lia. by replace (i - n + n) with i by lia. }
  rewrite <- Z.lxor_lor, <- Z.add_nocarry_lxor by (apply Z.bits_inj'; intros i Hi;
    rewrite Z.land_spec, Z.shiftl_spec, Z.bits_0 by lia; destruct (Z.lt_ge_cases i n);
    [by rewrite Z.testbit_neg_r by lia|rewrite Z.ones_spec_high by lia; apply andb_false_r]).
  unfold next_multiple. rewrite Z.shiftl_mul_pow2, Z.shiftr_div_pow2, Z.ones_equiv by lia. lia.
Qed.

Lemma mask_testbit k i : 0 <= k -> 0 <= i -> Z.testbit (2 ^ k - 1) i = (i <? k).
Proof.
  intros Hk Hi. replace (2 ^ k - 1) with (Z.ones k) by (rewrite Z.ones_equiv; lia).
  by apply Z.testbit_ones_nonneg.
Qed.

Lemma set_high_range v m : in_u 64 v -> in_u 64 (Z.lor v (wrapu 64 (Z.lnot m))).
Proof.
  intros Hv. pose proof (wrapu_range 64 (Z.lnot m) ltac:(lia)) as Hm.
  apply testbit_in_u; [lia|apply Z.lor_nonneg; split; [apply Hv|apply Hm]|].
  intros i Hi. by rewrite Z.lor_spec, !(in_u_testbit 64) by done.
Qed.

Lemma rev_set_high k v :
  0 <= k <= 64 -> in_u 64 v ->
  rev (Z.lor v (wrapu 64 (Z.lnot (2 ^ k - 1)))) = Z.lor (rev v) (Z.ones (64 - k)).
Proof.
  intros Hk Hv. assert (in_u 64 (Z.lor (rev v) (Z.ones (64 - k)))) as Hr.
  { pose proof (rev_range v Hv) as Hrv. apply testbit_in_u; [lia| |].
    - apply Z.lor_nonneg. split; [apply Hrv|rewrite Z.ones_equiv; pose proof (pow2_pos (64 - k)); lia].
    - intros i Hi. rewrite Z.lor_spec, (in_u_testbit 64) by done. by rewrite Z.ones_spec_high by lia. }
  apply bits64_inj; [by apply rev_range, set_high_range|done|]. intros i Hi.
  rewrite rev_testbit by (try apply set_high_range; done). rewrite !Z.lor_spec.
  rewrite wrapu_testbit, Z.lnot_spec, mask_testbit, rev_testbit, Z.testbit_ones_nonneg by (done || lia).
  f_equal. zcmp; try done; lia.
Qed.

(** The increment moves to the start of the next interval. *)
Lemma scan_incr_spec k v :
  0 <= k <= 64 -> in_u 64 v ->
  in_u 64 (scan_incr v (2 ^ k - 1)) /\
  rev (scan_incr v (2 ^ k - 1)) = wrapu 64 (next_multiple (2 ^ (64 - k)) (rev v)).
Proof.
  intros Hk Hv. unfold scan_incr. rewrite rev_set_high, lor_low_ones by (done || lia).
  rewrite Z.sub_add. pose proof (wrapu_range 64 (next_multiple (2 ^ (64 - k)) (rev v)) ltac:(lia)).
  split; [by apply rev_range|by apply rev_involutive].
Qed.

(** Two cursors in the same interval select the same bucket. *)
Lemma same_interval k v h :
  0 <= k <= 64 -> in_u 64 v -> in_u 64 h -> rev h / 2 ^ (64 - k) = rev v / 2 ^ (64 - k) ->
  Z.land h (2 ^ k - 1) = Z.land v (2 ^ k - 1).
Proof.
  intros Hk Hv Hh E. apply Z.bits_inj'. intros i Hi. rewrite !Z.land_spec, mask_testbit by lia.
  destruct (Z.ltb_spec i k); [|by rewrite !andb_false_r]. rewrite !andb_true_r.
  rewrite <- (rev_involutive v), <- (rev_involutive h) by done.
  rewrite (rev_testbit (rev v)), (rev_testbit (rev h)) by (lia || by apply rev_range).
  rewrite <- !Z.shiftr_div_pow2 in E by lia.
  assert (forall x, Z.testbit x (63 - i) = Z.testbit (Z.shiftr x (64 - k)) (k - 1 - i)) as G.
  { intros x. rewrite Z.shiftr_spec by lia. f_equal. lia. }
  by rewrite !G, E.
Qed.

Lemma interval_div w x y : 0 < w -> x <= y < next_multiple w x -> y / w = x / w.
Proof.
  intros Hw [H1 H2]. unfold next_multiple in H2. apply Z.le_antisymm.
  - apply Z.lt_succ_r. apply Z.div_lt_upper_bound; lia.
  - by apply Z.div_le_mono.
Qed.

Lemma mod_pow2_0_bits x n : 0 <= n -> (x mod 2 ^ n = 0 <-> forall i, 0 <= i < n -> Z.testbit x i = false).
Proof.
  intros Hn. split.
  - intros E i Hi. rewrite <- (Z.mod_pow2_bits_low x n) by lia. rewrite E. apply Z.bits_0.
  - intros Hb. apply Z.bits_inj'. intros i Hi. rewrite Z.bits_0. destruct (Z.lt_ge_cases i n).
    + rewrite Z.mod_pow2_bits_low by lia. apply Hb. lia.
    + apply Z.mod_pow2_bits_high. lia.
Qed.

(** The test [v & (m0 ^ m1)] of the inner loop: at the start of an interval of
    the larger table, it says whether an interval of the smaller one starts. *)
Lemma scan_test_spec k0 k1 v :
  0 <= k0 <= k1 -> k1 <= 64 -> in_u 64 v -> rev v mod 2 ^ (64 - k1) = 0 ->
  (Z.land v (Z.lxor (2 ^ k0 - 1) (2 ^ k1 - 1)) = 0 <-> rev v mod 2 ^ (64 - k0) = 0).
Proof.
  intros Hk H1 Hv E1. rewrite !mod_pow2_0_bits in * by lia. split.
  - intros E i Hi. destruct (Z.lt_ge_cases i (64 - k1)); [apply E1; lia|].
    rewrite rev_testbit by (done || lia). apply (f_equal (fun z => Z.testbit z (63 - i))) in E.
    rewrite Z.land_spec, Z.lxor_spec, !mask_testbit, Z.bits_0 in E by lia.
    rewrite (proj2 (Z.ltb_ge _ _)), (proj2 (Z.ltb_lt _ _)) in E by lia. by rewrite andb_true_r in E.
  - intros Hb. apply Z.bits_inj'. intros i Hi.
    rewrite Z.land_spec, Z.lxor_spec, !mask_testbit, Z.bits_0 by lia.
    destruct (Z.ltb_spec i k0), (Z.ltb_spec i k1); simpl; try apply andb_false_r; try lia.
    rewrite andb_true_r. rewrite <- (rev_involutive v) by done.
    rewrite (rev_testbit (rev v)) by (lia || by apply rev_range). apply Hb. lia.
Qed.

(** ** What one call covers *)

Section cover.
Context {K V : Type} `{EqDecision K} `{T : !dictType K V} `{L : !DictLaws K V}.
Implicit Types (d : dict K V) (t : dictht K V) (e : K * V).

Definition rhash (k : K) : Z := rev (hashFunction k).

(** The entries [es] are entries of the tables in [l], and among them all those
    with a reversed hash from [a] to [b]. *)
Definition covers (l : list (K * V)) (a b : Z) (es : list (K * V)) : Prop :=
  (forall e, e ∈ es -> e ∈ l) /\ (forall e, e ∈ l -> a <= rhash e.1 < b -> e ∈ es).

Lemma covers_app l1 l2 a b es1 es2 :
  covers l1 a b es1 -> covers l2 a b es2 -> covers (l1 ++ l2) a b (es1 ++ es2).
Proof.
  intros [S1 C1] [S2 C2]. split; intros e; rewrite !elem_of_app; naive_solver.
Qed.

Lemma covers_join l a b c es1 es2 :
  covers l a b es1 -> covers l b c es2 -> covers l a c (es1 ++ es2).
Proof.
  intros [S1 C1] [S2 C2]. split; intros e; rewrite !elem_of_app; [naive_solver|].
  intros He Hr. destruct (Z.lt_ge_cases (rhash e.1) b); [left; apply C1|right; apply C2]; lia || done.
Qed.

(** A table of [2 ^ k] buckets. *)
Definition ht_exp t (k : Z) : Prop := 0 <= k <= 62 /\ size_ t = 2 ^ k /\ sizemask t = 2 ^ k - 1.

Lemma ht_exp_exists t : ht_wf t -> size_ t <> 0 -> exists k, ht_exp t k.
Proof.
  intros W Hs. destruct (ht_pow _ W) as [|(k & Hk & E)]; [done|]. exists k.
  split_and!; [lia|lia|done|]. rewrite (ht_mask _ W), (proj2 (Z.eqb_neq _ _)) by done. lia.
Qed.

Lemma bucket_covers t k v :
  ht_wf t -> ht_exp t k -> in_u 64 v ->
  exists c, zidx (table t) (Z.land v (sizemask t)) = Some c /\
    covers (ht_entries t) (rev v) (next_multiple (2 ^ (64 - k)) (rev v)) c.
Proof.
  intros W (Hk & Hs & Hm) Hv. pose proof (pow2_pos k). pose proof (pow2_pos (64 - k)).
  destruct (hash_bucket t v W) as [c Hc]; [lia|]. exists c. split; [done|].
  split; [intros e; by eapply zidx_elem|]. intros e He Hr.
  destruct (elem_zidx t e He) as (i & c' & Hi & He').
  pose proof (ht_place _ W _ _ Hi) as Hp. unfold placed in Hp. rewrite Forall_forall in Hp.
  specialize (Hp _ He'). rewrite Hm in *. unfold rhash in Hr.
  rewrite (same_interval k v) in Hp; [|lia|done|apply hash_range|].
  - subst i. congruence.
  - apply interval_div; [lia|done].
Qed.

Lemma scan_expand_spec t k0 k1 fuel : forall v,
  ht_wf t -> ht_exp t k1 -> 0 <= k0 <= k1 -> in_u 64 v ->
  let E := next_multiple (2 ^ (64 - k0)) (rev v) in
  (Z.to_nat (E / 2 ^ (64 - k1) - rev v / 2 ^ (64 - k1)) <= fuel)%nat ->
  exists v' es, scan_expand fuel t (2 ^ k0 - 1) (2 ^ k1 - 1) v = Some (v', es) /\
    in_u 64 v' /\ rev v' = wrapu 64 E /\ covers (ht_entries t) (rev v) E es.
Proof.
  induction fuel as [|fuel IH]; intros v W X Hk Hv E Hf; pose proof X as (Hk1 & Hs & Hm);
    pose proof (rev_range v Hv) as [Hr0 Hr1]; set (w0 := 2 ^ (64 - k0)) in *;
    set (w1 := 2 ^ (64 - k1)) in *;
    assert (0 < w0) by (apply pow2_pos; lia); assert (0 < w1) by (apply pow2_pos; lia);
    pose proof (next_multiple_gt w0 (rev v)) as HE;
    assert (E mod w0 = 0) as HE0 by (by apply next_multiple_mod);
    assert (E mod w1 = 0) as HE1 by (by apply (mod_0_mono E (64 - k1) (64 - k0)); [lia|]);
    pose proof (next_multiple_le w1 (rev v) E ltac:(lia) ltac:(lia) HE1) as Hle.
  { apply Z.mod_divide in HE1 as [q Eq]; [|lia]. rewrite Eq, Z.div_mul in Hf by lia.
    assert (rev v / w1 < q); [apply Z.div_lt_upper_bound; lia|lia]. }
  assert (E <= 2 ^ 64) as HEle by (apply next_multiple_le; [lia|lia|apply pow2_mod; lia]).
  destruct (bucket_covers t k1 v W X Hv) as (c & Hc & Hcov). rewrite Hm in Hc.
  destruct (scan_incr_spec k1 v ltac:(lia) Hv) as [Hv1 Er]. fold w1 in Er, Hcov.
  cbn [scan_expand]. rewrite Hc. cbn [mbind option_bind].
  set (x1 := next_multiple w1 (rev v)) in *. set (v1 := scan_incr v (2 ^ k1 - 1)) in *.
  assert (x1 mod w1 = 0) as Hx1 by by apply next_multiple_mod.
  pose proof (scan_test_spec k0 k1 v1 ltac:(lia) ltac:(lia) Hv1) as Htest. rewrite Er in Htest.
  unfold wrapu in Htest. rewrite !mod_mod_pow2 in Htest by lia. specialize (Htest Hx1). fold w0 in Htest.
  destruct (Z.eqb_spec (Z.land v1 (Z.lxor (2 ^ k0 - 1) (2 ^ k1 - 1))) 0) as [Hz|Hz].
  - apply Htest in Hz. pose proof (next_multiple_gt w1 (rev v)).
    assert (x1 = E) as Ex by (apply Z.le_antisymm; [done|apply next_multiple_le; lia]).
    exists v1, c. rewrite <- Ex. done.
  - assert (x1 <> E) as Hne by (intros Ex; apply Hz, Htest; by rewrite Ex).
    pose proof (next_multiple_gt w1 (rev v)) as Hgt. fold x1 in Hgt.
    assert (rev v1 = x1) as Ev1 by (rewrite Er; apply wrapu_small; split; lia).
    assert (next_multiple w0 (rev v1) = E) as EE.
    { rewrite Ev1. unfold E, next_multiple. f_equal. f_equal. apply interval_div; [done|]. fold E. lia. }
    destruct (IH v1 W X Hk Hv1) as (v' & es & Ev & Hv' & Erv & Hcov').
    { fold w0 w1. rewrite EE, Ev1. unfold x1, next_multiple. rewrite Z.div_mul by lia. lia. }
    rewrite Ev. simpl. fold w0 in Erv, Hcov'. rewrite EE in Erv, Hcov'. rewrite Ev1 in Hcov'.
    exists v', (c ++ es). split_and!; [done|done|done|]. by eapply covers_join.
Qed.

(** One call: it covers the reversed hashes from that of the cursor to some [E],
    and returns the cursor of [E]; [E] is a multiple of the interval length of
    the smaller table. *)
Definition scan_step d v (r : Z * list (K * V)) (E : Z) : Prop :=
  rev v < E <= 2 ^ 64 /\ in_u 64 r.1 /\ rev r.1 = wrapu 64 E /\ covers (entries d) (rev v) E r.2 /\
  forall k, 0 <= k <= 64 -> size_ (ht0 d) <= 2 ^ k -> E mod 2 ^ (64 - k) = 0.

Lemma next_multiple_fits k v : 0 <= k <= 64 -> in_u 64 v -> rev v < next_multiple (2 ^ (64 - k)) (rev v) <= 2 ^ 64.
Proof.
  intros Hk Hv. pose proof (rev_range v Hv) as [_ Hr]. pose proof (pow2_pos (64 - k)).
  split; [apply next_multiple_gt; lia|]. apply next_multiple_le; [lia|done|apply pow2_mod; lia].
Qed.

Lemma next_multiple_divides k0 k x :
  0 <= k0 <= 62 -> 0 <= k <= 64 -> 2 ^ k0 <= 2 ^ k -> next_multiple (2 ^ (64 - k0)) x mod 2 ^ (64 - k) = 0.
Proof.
  intros H0 Hk Hle. apply Z.pow_le_mono_r_iff in Hle; [|lia|lia].
  apply (mod_0_mono _ (64 - k) (64 - k0)); [lia|]. apply next_multiple_mod, pow2_pos. lia.
Qed.

(** The two tables of a rehashing dictionary, in either order. *)
Lemma scan_tables_spec d v t0 t1 k0 k1 :
  ht_wf t0 -> ht_wf t1 -> ht_exp t0 k0 -> ht_exp t1 k1 -> k0 <= k1 -> in_u 64 v ->
  exists c r, zidx (table t0) (Z.land v (sizemask t0)) = Some c /\
    scan_expand (S (length (table t1))) t1 (sizemask t0) (sizemask t1) v = Some r /\
    in_u 64 r.1 /\ rev r.1 = wrapu 64 (next_multiple (2 ^ (64 - k0)) (rev v)) /\
    covers (ht_entries t0 ++ ht_entries t1) (rev v) (next_multiple (2 ^ (64 - k0)) (rev v)) (c ++ r.2).
Proof.
  intros W0 W1 X0 X1 Hle Hv. destruct (bucket_covers t0 k0 v W0 X0 Hv) as (c & Hc & Hcov).
  pose proof X0 as (Hk0 & Hs0 & Hm0). pose proof X1 as (Hk1 & Hs1 & Hm1).
  pose proof (pow2_pos (64 - k0)). pose proof (pow2_pos (64 - k1)).
  pose proof (next_multiple_fits k0 v ltac:(lia) Hv) as HE. pose proof (rev_range v Hv) as [Hr0 Hr1].
  destruct (scan_expand_spec t1 k0 k1 (S (length (table t1))) v) as (v' & es & Ev & Hv' & Er & Hcov').
  - done.
  - done.
  - lia.
  - done.
  - assert (next_multiple (2 ^ (64 - k0)) (rev v) / 2 ^ (64 - k1) <= zlen (table t1)).
    { rewrite <- (ht_len _ W1), Hs1. apply Z.div_le_upper_bound; [lia|].
      rewrite <- Z.pow_add_r by lia. replace (64 - k1 + k1) with 64 by lia. lia. }
    pose proof (Z.div_pos (rev v) (2 ^ (64 - k1)) ltac:(lia) ltac:(lia)). unfold zlen in *. lia.
  - rewrite <- Hm0, <- Hm1 in Ev. exists c, (v', es). split_and!; [done|done|done|done|]. by apply covers_app.
Qed.

Lemma covers_perm l l' a b es : l ≡ₚ l' -> covers l a b es -> covers l' a b es.
Proof. intros Hp [H1 H2]. split; intros e; rewrite <- Hp; auto. Qed.

Lemma dictScan_spec d v :
  dict_wf d -> in_u 64 v -> exists r E, dictScan d v = Some r /\ scan_step d v r E.
Proof.
  intros W Hv. unfold dictScan. pose proof (wf_bound _ W). pose proof (zlen_nonneg (entries d)).
  pose proof (rev_range v Hv) as [Hr0 Hr1].
  unfold dictSize. rewrite wrapu_small; rewrite used_total by done; [|split; lia].
  destruct (Z.eqb_spec (zlen (entries d)) 0) as [E0|Hne].
  { exists (0, []), (2 ^ 64). split; [done|]. apply zlen_0_inv in E0. unfold scan_step. rewrite E0.
    split_and!; simpl; [lia|lia|by split|done|split; set_solver|]. intros k Hk _. apply pow2_mod. lia. }
  assert (size_ (ht0 d) <> 0) as Hs0 by (apply used_size; [done|by rewrite used_total]).
  destruct (ht_exp_exists _ (wf_ht0 _ W) Hs0) as (k0 & X0).
  destruct (dictIsRehashing d) eqn:Hre; cbn [negb]; unfold dictIsRehashing in Hre; zbool.
  - destruct (wf_rehash _ W Hre) as (_ & _ & Hs1 & _).
    destruct (ht_exp_exists _ (wf_ht1 _ W) Hs1) as (k1 & X1).
    pose proof X0 as (Hk0 & Es0 & Em0). pose proof X1 as (Hk1 & Es1 & Em1).
    destruct (Z.gtb_spec (size_ (ht0 d)) (size_ (ht1 d))) as [Hgt|Hle].
    + assert (k1 < k0) as Hlt by (apply (Z.pow_lt_mono_r_iff 2); lia).
      destruct (scan_tables_spec d v _ _ _ _ (wf_ht1 _ W) (wf_ht0 _ W) X1 X0 ltac:(lia) Hv)
        as (c & [v' es] & -> & -> & Hr & Er & Hcov).
      eexists _, _. split; [done|]. refine (conj (next_multiple_fits _ v _ Hv) (conj Hr (conj Er (conj _ _)))); [lia| |].
      * eapply covers_perm; [|done]. apply Permutation_app_comm.
      * intros k Hk Hle. apply next_multiple_divides; lia.
    + assert (k0 <= k1) as Hle' by (apply (Z.pow_le_mono_r_iff 2); lia).
      destruct (scan_tables_spec d v _ _ _ _ (wf_ht0 _ W) (wf_ht1 _ W) X0 X1 Hle' Hv)
        as (c & [v' es] & -> & -> & Hr & Er & Hcov).
      eexists _, _. split; [done|]. refine (conj (next_multiple_fits _ v _ Hv) (conj Hr (conj Er (conj Hcov _)))); [lia|].
      intros k Hk Hle2. apply next_multiple_divides; lia.
  - destruct (bucket_covers _ _ v (wf_ht0 _ W) X0 Hv) as (c & -> & Hcov). simpl.
    pose proof X0 as (Hk0 & Es0 & Em0). rewrite Em0.
    destruct (scan_incr_spec k0 v ltac:(lia) Hv) as [Hr Er].
    eexists _, _. split; [done|]. refine (conj (next_multiple_fits _ v _ Hv) (conj Hr (conj Er (conj _ _)))); [lia| |].
    + unfold entries. rewrite (wf_idle _ W Hre). unfold _dictReset, ht_entries at 2. simpl.
      by rewrite app_nil_r.
    + intros k Hk Hle. apply next_multiple_divides; lia.
Qed.

(** The cursor a call returns is 0 exactly when it covered the last interval. *)
Lemma scan_step_cursor d v r E :
  in_u 64 v -> scan_step d v r E -> (r.1 = 0 /\ E = 2 ^ 64) \/ (r.1 <> 0 /\ rev r.1 = E).
Proof.
  intros Hv (HE & Hr & Er & _). pose proof (rev_range v Hv) as [H0 _].
  destruct (Z.eq_dec E (2 ^ 64)) as [->|Hne].
  - left. split; [|done]. apply rev_eq_0; [done|]. rewrite Er. apply Z.mod_same. lia.
  - right. rewrite wrapu_small in Er by (split; lia). split; [|done]. intros Hz.
    rewrite Hz, rev_0 in Er. lia.
Qed.

(** A key bound in every state of the dictionary. *)
Definition always_bound (ds : list (dict K V)) (k : K) : Prop :=
  Forall (fun d => exists x, (k, x) ∈ entries d) ds.

Lemma scan_all_spec ds : forall v,
  Forall dict_wf ds -> in_u 64 v -> ds <> [] \/ v <> 0 ->
  exists v' es, scan_all ds v = Some (v', es) /\ in_u 64 v' /\
    (forall e, e ∈ es -> exists d, d ∈ ds /\ e ∈ entries d) /\
    (v' = 0 -> forall k, always_bound ds k -> rev v <= rhash k -> exists x, (k, x) ∈ es).
Proof.
  induction ds as [|d ds IH]; intros v W Hv Hne; simpl.
  { exists v, []. split_and!; [done|done|set_solver|]. intros ->. by destruct Hne. }
  apply Forall_cons in W as [W Ws].
  destruct (dictScan_spec d v W Hv) as ([v1 es1] & E & -> & St). simpl.
  pose proof (scan_step_cursor d v _ E Hv St) as Hc. destruct St as (HE & Hr & Er & [Hs Hcov] & _).
  simpl in *. destruct (Z.eqb_spec v1 0) as [->|Hv1].
  - exists 0, es1. split_and!; [done|done| |].
    { intros e He. exists d. split; [by left|auto]. }
    intros _ k [[x Hx] _]%Forall_cons Hk.
    exists x. apply Hcov; [done|]. destruct Hc as [[_ ->]|[? _]]; [|done].
    split; [done|]. apply rev_range, hash_range.
  - destruct Hc as [[? _]|[_ Ev1]]; [done|].
    destruct (IH v1 Ws Hr ltac:(by right)) as (v' & es & -> & Hv' & Hs' & Hc'). simpl.
    exists v', (es1 ++ es). split_and!; [done|done| |].
    { intros e [He|He]%elem_of_app; [exists d; split; [by left|auto]|].
      destruct (Hs' e He) as (d' & Hd' & He'). exists d'. split; [by right|done]. }
    intros Hz k [[x Hx] Hb]%Forall_cons Hk. setoid_rewrite elem_of_app.
    destruct (Z.lt_ge_cases (rhash k) E) as [Hlt|Hge].
    + exists x. left. by apply Hcov.
    + destruct (Hc' Hz k Hb) as [y Hy]; [by rewrite Ev1|]. exists y. by right.
Qed.

Lemma scan_all_terminates k ds : forall v,
  Forall dict_wf ds -> Forall (fun d => size_ (ht0 d) <= 2 ^ k) ds -> 0 <= k <= 64 ->
  in_u 64 v -> rev v mod 2 ^ (64 - k) = 0 -> (2 ^ 64 - rev v) / 2 ^ (64 - k) <= zlen ds ->
  exists es, scan_all ds v = Some (0, es).
Proof.
  induction ds as [|d ds IH]; intros v W Hs Hk Hv Hm Hl; simpl; pose proof (rev_range v Hv) as [H0 H1];
    pose proof (pow2_pos (64 - k)); apply Z.mod_divide in Hm as [q Eq]; [|lia| |lia];
    assert (2 ^ 64 = 2 ^ k * 2 ^ (64 - k)) as E64 by (rewrite <- Z.pow_add_r by lia; f_equal; lia);
    rewrite Eq, E64, <- Z.mul_sub_distr_r, Z.div_mul in Hl by lia.
  { rewrite zlen_nil in Hl. nia. }
  rewrite zlen_cons in Hl. apply Forall_cons in W as [W Ws]. apply Forall_cons in Hs as [Hsz Hs].
  destruct (dictScan_spec d v W Hv) as ([v1 es1] & E & -> & St). simpl.
  pose proof (scan_step_cursor d v _ E Hv St) as Hc. destruct St as (HE & Hr & Er & _ & Hd). simpl in *.
  destruct (Z.eqb_spec v1 0) as [->|Hv1]; [by exists es1|]. destruct Hc as [[? _]|[_ Ev1]]; [done|].
  specialize (Hd k Hk Hsz). pose proof Hd as [q' Eq']%Z.mod_divide; [|lia].
  destruct (IH v1 Ws Hs Hk Hr) as [es ->]; [by rewrite Ev1| |by exists (es1 ++ es)].
  rewrite Ev1, Eq', E64, <- Z.mul_sub_distr_r, Z.div_mul by lia.
  assert (q < q') by nia. lia.
Qed.
End cover.

(** ** The guarantees of a full iteration *)

Section guarantees.
Context {K V : Type} `{EqDecision K} `{T : !dictType K V} `{L : !DictLaws K V}.

(** C1 [dictScan] never fails, and an iteration that starts and ends with the
    cursor 0 emits every key that stays in the dictionary during the whole
    iteration, although the dictionary may have been resized in both directions,
    partly rehashed and updated between any two calls; what it emits was in the
    dictionary at one of the calls. *)
Theorem dictScan_complete (ds : list (dict K V)) :
  Forall dict_wf ds -> ds <> [] ->
  exists v es, scan_all ds 0 = Some (v, es) /\
    (forall e, e ∈ es -> exists d, d ∈ ds /\ e ∈ entries d) /\
    (v = 0 -> forall k, always_bound ds k -> exists x, (k, x) ∈ es).
Proof.
  intros W Hne. destruct (scan_all_spec ds 0 W) as (v & es & E & _ & Hs & Hc); [by split|by left|].
  exists v, es. split_and!; [done|done|]. intros Hv k Hk. apply (Hc Hv k Hk).
  rewrite rev_0. apply rev_range, hash_range.
Qed.

(** C38 An iteration ends: when the table never has more than [2 ^ k] buckets,
    [2 ^ k] calls bring the cursor back to 0. *)
Theorem dictScan_terminates k (ds : list (dict K V)) :
  Forall dict_wf ds -> Forall (fun d => size_ (ht0 d) <= 2 ^ k) ds -> 0 <= k <= 64 -> 2 ^ k <= zlen ds ->
  exists es, scan_all ds 0 = Some (0, es).
Proof.
  intros W Hs Hk Hl. apply (scan_all_terminates k); [done|done|done|by split| |].
  - rewrite rev_0. apply Z.mod_0_l. pose proof (pow2_pos (64 - k)). lia.
  - pose proof (pow2_pos (64 - k)). rewrite rev_0, Z.sub_0_r.
    replace (2 ^ 64) with (2 ^ k * 2 ^ (64 - k)) by (rewrite <- Z.pow_add_r by lia; f_equal; lia).
    by rewrite Z.div_mul by lia.
Qed.
End guarantees.

Module ScanSample.
Import Dict.Sample.

(** Two calls on the dictionary that is being rehashed, the rest after the
    rehashing and a deletion. *)
Definition after : dict Z Z :=
  match dictRehash sample 100 with
  | Some (d, _) => match dictDelete d 4 with Some (d, _, _) => d | None => dictCreate end
  | None => dictCreate
  end.

Definition states : list (dict Z Z) := replicate 2 sample ++ replicate 16 after.

Lemma after_wf : dict_wf after.
Proof.
  unfold after. destruct (dictRehash_spec sample 100 sample_wf) as (d & r & -> & P & _).
  unfold dictDelete.
  destruct (dictGenericDelete_spec d 4 false (rp_wf _ _ P)) as (d' & r' & f & -> & W & _). exact W.
Qed.

Lemma states_wf : Forall dict_wf states.
Proof.
  apply Forall_app. split; apply Forall_replicate; [apply sample_wf|apply after_wf].
Qed.

Lemma dictScan_complete_witness : exists v es, scan_all states 0 = Some (v, es) /\
  (v = 0 -> exists x, (36, x) ∈ es).
Proof.
  destruct (dictScan_complete states states_wf) as (v & es & E & _ & Hc); [done|].
  exists v, es. split; [exact E|]. intros Hv. apply (Hc Hv).
  assert (forall d, lookup_ d 36 = Some 9 -> exists x, (36, x) ∈ entries d) as G.
  { intros d Hd. unfold lookup_, assoc in Hd. destruct (List.find _ _) as [[k x]|] eqn:Ef; [|done].
    apply find_some in Ef as [Hin ->%same_key_Z]. exists x. by apply list_elem_of_In. }
  apply Forall_app. split; apply Forall_replicate, G; vm_compute; reflexivity.
Defined.

Lemma dictScan_terminates_witness : exists es, scan_all states 0 = Some (0, es).
Proof.
  apply (dictScan_terminates 4).
  - apply states_wf.
  - apply Forall_app. split; apply Forall_replicate; vm_compute; discriminate.
  - lia.
  - vm_compute. discriminate.
Defined.
End ScanSample.
