(* ===== verification/DictIter.v ===== *)
(** * Iterators and random keys of hash tables (dict.c)

    An iterator holds pointers to entries that must survive the deletion of the
    entry that was returned last, so a pointer to an entry is represented by the key
    the entry holds, which no other entry has; following a pointer to an entry that is
    no longer in the dictionary is [None]. The addresses of the two tables, which
    only the fingerprint reads, are a parameter, and so are the successive results of
    [random()]. *)

From S2P Require Import Prelude Dict.

Section iter.
Context {K V : Type} `{EqDecision K} `{T : !dictType K V}.
Implicit Types (d : dict K V) (ht : dictht K V) (k : K) (v : V) (c : list (K * V)).

(** [(long) d->ht[0].table] and [(long) d->ht[1].table]. *)
Variable addr : dict K V -> Z * Z.

Record dictIterator := DictIterator {
  i_table : bool;
  i_index : Z;
  i_safe : bool;
  i_entry : option K;
  i_next : option K;
  fingerprint : option Z;
}.

(** One round of the hash over an integer, on 64-bit two's complement. *)
Definition fingerprint_step (hash i : Z) : Z :=
  let hash := wraps 64 (hash + i) in
  let hash := wraps 64 (Z.lnot hash + wraps 64 (Z.shiftl hash 21)) in
  let hash := Z.lxor hash (Z.shiftr hash 24) in
  let hash := wraps 64 (wraps 64 (hash + wraps 64 (Z.shiftl hash 3)) + wraps 64 (Z.shiftl hash 8)) in
  let hash := Z.lxor hash (Z.shiftr hash 14) in
  let hash := wraps 64 (wraps 64 (hash + wraps 64 (Z.shiftl hash 2)) + wraps 64 (Z.shiftl hash 4)) in
  let hash := Z.lxor hash (Z.shiftr hash 28) in
  wraps 64 (hash + wraps 64 (Z.shiftl hash 31)).

Definition dictFingerprint d : Z :=
  foldl fingerprint_step 0
    [fst (addr d); size_ (ht0 d); used (ht0 d); snd (addr d); size_ (ht1 d); used (ht1 d)].

Definition dictGetIterator : dictIterator := DictIterator false (-1) false None None None.
Definition dictGetSafeIterator : dictIterator :=
  let i := dictGetIterator in
  DictIterator (i_table i) (i_index i) true (i_entry i) (i_next i) (fingerprint i).

(** The entry with the key [k] in a chain, and the key of the entry after it. *)
Fixpoint in_chain c k : option (K * V * option K) :=
  match c with
  | [] => None
  | e :: c => if bool_decide (e.1 = k) then Some (e, fst <$> head c) else in_chain c k
  end.

(** The entry a pointer leads to, and its [next] pointer. *)
Fixpoint in_chains (cs : list (list (K * V))) k : option (K * V * option K) :=
  match cs with
  | [] => None
  | c :: cs => match in_chain c k with Some r => Some r | None => in_chains cs k end
  end.
Definition follow d k : option (K * V * option K) := in_chains (table (ht0 d) ++ table (ht1 d)) k.

Definition set_iterators d (n : Z) : dict K V := Dict (ht0 d) (ht1 d) (rehashidx d) (wrapu 64 n).

(** [iter->index == -1 && iter->table == 0]: no step was taken yet. *)
Definition not_started (it : dictIterator) : bool := (i_index it =? -1) && negb (i_table it).

(** What the first step records. *)
Definition start_iter d (it : dictIterator) : dict K V * dictIterator :=
  if not_started it then
    if i_safe it then (set_iterators d (iterators d + 1), it)
    else (d, DictIterator (i_table it) (i_index it) (i_safe it) (i_entry it) (i_next it) (Some (dictFingerprint d)))
  else (d, it).

(** [iter->table], [iter->index] and [iter->entry] set to the first entry of a bucket. *)
Definition at_bucket (it : dictIterator) (t : bool) (index : Z) (e : option K) : dictIterator :=
  DictIterator t index (i_safe it) e (i_next it) (fingerprint it).

(** The move to the next bucket; the boolean tells whether there is one. *)
Definition next_bucket d (it : dictIterator) : option (dict K V * dictIterator * bool) :=
  let ht := get_ht d (i_table it) in
  let '(d, it) := start_iter d it in
  let index := i_index it + 1 in
  if index >=? size_ ht then
    if dictIsRehashing d && negb (i_table it) then
      c ← zidx (table (ht1 d)) 0;
      Some (d, at_bucket it true 0 (fst <$> head c), true)
    else Some (d, at_bucket it (i_table it) index None, false)
  else
    c ← zidx (table ht) index;
    Some (d, at_bucket it (i_table it) index (fst <$> head c), true).

(** The [while (1)] loop of [dictNext]; a bucket is entered in each iteration but
    the first. *)
Fixpoint dictNext_loop (fuel : nat) d (it : dictIterator) : option (dict K V * dictIterator * option (K * V)) :=
  match fuel with
  | O => None
  | S fuel =>
      '(d, it, more) ← match i_entry it with
        | None => next_bucket d it
        | Some _ => Some (d, at_bucket it (i_table it) (i_index it) (i_next it), true)
        end;
      if negb more then Some (d, it, None)
      else
        match i_entry it with
        | Some k =>
            '(e, next) ← follow d k;
            Some (d, DictIterator (i_table it) (i_index it) (i_safe it) (Some k) next (fingerprint it), Some e)
        | None => dictNext_loop fuel d it
        end
  end.

(** One iteration for each bucket of the two tables, and two more. *)
Definition dictNext d (it : dictIterator) : option (dict K V * dictIterator * option (K * V)) :=
  dictNext_loop (length (table (ht0 d)) + length (table (ht1 d)) + 2) d it.

(** [None] is the failing assertion on the fingerprint. *)
Definition dictReleaseIterator d (it : dictIterator) : option (dict K V) :=
  if negb (not_started it) then
    if i_safe it then Some (set_iterators d (iterators d - 1))
    else if bool_decide (fingerprint it = Some (dictFingerprint d)) then Some d else None
  else Some d.

(** ** Random keys *)

(** [do { h = ...; he = ...; } while (he == NULL)]: a non-empty bucket, and the results of
    [random()] that are left; [None] if those given do not suffice. *)
Fixpoint random_bucket (rs : list Z) (bucket : Z -> option (list (K * V))) : option (list (K * V) * list Z) :=
  match rs with
  | [] => None
  | r :: rs => c ← bucket r; match c with [] => random_bucket rs bucket | _ => Some (c, rs) end
  end.

Definition dictGetRandomKey (rs : list Z) d : option (dict K V * option (K * V)) :=
  if dictSize d =? 0 then Some (d, None)
  else
    d ← rehash_if_needed d;
    '(c, rs) ← random_bucket rs (fun r =>
       if dictIsRehashing d then
         let h := wrapu 64 (rehashidx d + r mod (wrapu 64 (size_ (ht0 d) + size_ (ht1 d) - rehashidx d))) in
         if h >=? size_ (ht0 d) then zidx (table (ht1 d)) (h - size_ (ht0 d)) else zidx (table (ht0 d)) h
       else zidx (table (ht0 d)) (Z.land r (sizemask (ht0 d))));
    r ← head rs;
    e ← c !! Z.to_nat (r mod zlen c);
    Some (d, Some e).

(** [for (j = 0; j < count; j++) if (dictIsRehashing(d)) _dictRehashStep(d); else break;] *)
Fixpoint rehash_steps (n : nat) d : option (dict K V) :=
  match n with
  | O => Some d
  | S n => if dictIsRehashing d then d ← _dictRehashStep d; rehash_steps n d else Some d
  end.

(** The variables of the sampling loop: the position, the empty buckets so far, the entries
    stored and the results of [random()] that are left. *)
Record sample := Sample_ { s_i : Z; s_empty : Z; s_des : list (K * V); s_rs : list Z }.

(** One table [j] at the current position; the boolean tells whether [count] entries are stored. *)
Definition sample_table d (count maxsizemask : Z) (two : bool) (j : bool) (s : sample) : option (sample * bool) :=
  let i := s_i s in
  let skip := two && negb j && (i <? wrapu 64 (rehashidx d)) in
  if skip && negb (i >=? size_ (ht1 d)) then Some (s, false)
  else
    let i := if skip then wrapu 64 (rehashidx d) else i in
    if i >=? size_ (get_ht d j) then Some (Sample_ i (s_empty s) (s_des s) (s_rs s), false)
    else
      c ← zidx (table (get_ht d j)) i;
      match c with
      | [] =>
          let emptylen := s_empty s + 1 in
          if (emptylen >=? 5) && (emptylen >? count) then
            match s_rs s with
            | [] => None
            | r :: rs => Some (Sample_ (Z.land r maxsizemask) 0 (s_des s) rs, false)
            end
          else Some (Sample_ i emptylen (s_des s) (s_rs s), false)
      | _ =>
          let room := count - zlen (s_des s) in
          Some (Sample_ i 0 (s_des s ++ take (Z.to_nat room) c) (s_rs s), room <=? zlen c)
      end.

(** [while (stored < count && maxsteps--)]. *)
Fixpoint sample_loop (maxsteps : nat) d (count maxsizemask : Z) (two : bool) (s : sample) : option (list (K * V)) :=
  if zlen (s_des s) >=? count then Some (s_des s)
  else
    match maxsteps with
    | O => Some (s_des s)
    | S maxsteps =>
        '(s, full) ← sample_table d count maxsizemask two false s;
        '(s, full) ← (if full : bool then Some (s, true)
                      else if two then sample_table d count maxsizemask two true s else Some (s, false));
        if full : bool then Some (s_des s)
        else sample_loop maxsteps d count maxsizemask two
               (Sample_ (Z.land (s_i s + 1) maxsizemask) (s_empty s) (s_des s) (s_rs s))
    end.

(** [count] is an [unsigned int]; returns the dictionary and the entries stored in [des]. *)
Definition dictGetSomeKeys (rs : list Z) d (count : Z) : option (dict K V * list (K * V)) :=
  let count := if dictSize d <? count then wrapu 32 (dictSize d) else count in
  let maxsteps := wrapu 32 (count * 10) in
  d ← rehash_steps (Z.to_nat count) d;
  let two := dictIsRehashing d in
  let maxsizemask := sizemask (ht0 d) in
  let maxsizemask := if two && (maxsizemask <? sizemask (ht1 d)) then sizemask (ht1 d) else maxsizemask in
  match rs with
  | [] => None
  | r :: rs =>
      des ← sample_loop (Z.to_nat maxsteps) d count maxsizemask two (Sample_ (Z.land r maxsizemask) 0 [] rs);
      Some (d, des)
  end.
End iter.

Arguments dictIterator : clear implicits.

(** ** What an iterator still has to visit *)

Section iter_spec.
Context {K V : Type} `{EqDecision K} `{T : !dictType K V} `{L : !DictLaws K V}.
Implicit Types (d : dict K V) (ht : dictht K V) (k : K) (v : V) (a b c : list (K * V)) (e : K * V) (it : dictIterator K).
Variable addr : dict K V -> Z * Z.

(** The entries of the buckets after [index], and of the second table. *)
Definition later d (t : bool) (index : Z) : list (K * V) :=
  concat (drop (Z.to_nat (index + 1)) (table (get_ht d t))) ++
  (if negb t && dictIsRehashing d then ht_entries (ht1 d) else []).

(** [pending d it rem]: the calls that follow return the entries [rem]. *)
Inductive pending d it : list (K * V) -> Prop :=
| pending_bucket : i_entry it = None -> -1 <= i_index it -> (i_table it = true -> 0 <= i_index it) ->
    pending d it (later d (i_table it) (i_index it))
| pending_chain k a b : i_entry it = Some k -> zidx (table (get_ht d (i_table it))) (i_index it) = Some (a ++ b) ->
    i_next it = fst <$> head b ->
    pending d it (b ++ later d (i_table it) (i_index it)).

(** Only the number of iterators differs. *)
Definition same_tables d d' : Prop := ht0 d' = ht0 d /\ ht1 d' = ht1 d /\ rehashidx d' = rehashidx d.

Lemma same_tables_refl d : same_tables d d.
Proof. done. Qed.

Lemma same_tables_later d d' t i : same_tables d d' -> later d' t i = later d t i.
Proof. intros (E0 & E1 & Er). unfold later, dictIsRehashing, get_ht. by rewrite E0, E1, Er. Qed.

Lemma same_tables_wf d d' : same_tables d d' -> dict_wf d -> dict_wf d'.
Proof.
  intros (E0 & E1 & Er) [W0 W1 Wi Wr Wd Wb]. split; unfold entries in *; rewrite ?E0, ?E1, ?Er; auto.
Qed.

Lemma distinct_keys (l : list (K * V)) : distinct l -> NoDup (fst <$> l).
Proof.
  unfold distinct. induction 1 as [|e l _ IH Hf]; constructor; [|done].
  intros (e' & E & He')%list_elem_of_fmap. rewrite Forall_forall in Hf. specialize (Hf e' He').
  rewrite <- E, same_key_refl in Hf. done.
Qed.

Lemma in_chain_at a e b : e.1 ∉ (fst <$> a) -> in_chain (a ++ e :: b) e.1 = Some (e, fst <$> head b).
Proof.
  induction a as [|x a IH]; intros Hn; cbn [app in_chain].
  - by rewrite bool_decide_eq_true_2.
  - rewrite fmap_cons, not_elem_of_cons in Hn. rewrite bool_decide_eq_false_2 by (symmetry; tauto). apply IH. tauto.
Qed.

Lemma in_chain_none c k : k ∉ (fst <$> c) -> in_chain c k = None.
Proof.
  induction c as [|x c IH]; intros Hn; cbn [in_chain]; [done|].
  rewrite fmap_cons, not_elem_of_cons in Hn. rewrite bool_decide_eq_false_2 by (symmetry; tauto). apply IH. tauto.
Qed.

Lemma in_chains_at (cs1 cs2 : list (list (K * V))) a e b :
  NoDup (fst <$> concat (cs1 ++ (a ++ e :: b) :: cs2)) ->
  in_chains (cs1 ++ (a ++ e :: b) :: cs2) e.1 = Some (e, fst <$> head b).
Proof.
  induction cs1 as [|c cs1 IH]; intros Hn; cbn [app in_chains].
  - rewrite in_chain_at; [done|]. cbn [app concat] in Hn. rewrite <- app_assoc, fmap_app in Hn.
    apply NoDup_app in Hn as (_ & Hn & _). intros Ha. apply (Hn _ Ha). set_solver.
  - cbn [app concat] in Hn. rewrite fmap_app in Hn. apply NoDup_app in Hn as (_ & Hd & Hn).
    rewrite in_chain_none; [by apply IH|]. intros Hc. apply (Hd _ Hc).
    rewrite concat_app, !fmap_app. cbn [concat]. rewrite !fmap_app. set_solver.
Qed.

Lemma follow_at d t i a e b :
  dict_wf d -> zidx (table (get_ht d t)) i = Some (a ++ e :: b) -> follow d e.1 = Some (e, fst <$> head b).
Proof.
  intros W (x & y & E & _)%zidx_Some_split. unfold follow.
  pose proof (distinct_keys _ (wf_distinct _ W)) as Hn. unfold entries, ht_entries in Hn. rewrite <- concat_app in Hn.
  destruct t; cbn [get_ht] in E; rewrite E in *.
  - rewrite (app_assoc (table (ht0 d)) x) in *. by apply in_chains_at.
  - rewrite <- (app_assoc x (_ :: y)) in *. cbn [app] in *. by apply in_chains_at.
Qed.

Lemma drop_bucket {A} (l : list (list A)) i (c : list A) :
  zidx l i = Some c -> concat (drop (Z.to_nat i) l) = c ++ concat (drop (Z.to_nat (i + 1)) l).
Proof.
  intros Hi. pose proof (zidx_range _ _ _ Hi). unfold zidx in Hi. rewrite (proj2 (Z.leb_le _ _)) in Hi by lia.
  rewrite (drop_S l c (Z.to_nat i) Hi). cbn [concat]. do 3 f_equal. lia.
Qed.

(** The first step is taken: what [start_iter] changes. *)
Lemma start_iter_spec d it d1 it1 :
  start_iter addr d it = (d1, it1) ->
  same_tables d d1 /\ i_table it1 = i_table it /\ i_index it1 = i_index it /\ i_safe it1 = i_safe it /\
  (d1, it1) = (if not_started it then
     if i_safe it then (set_iterators d (iterators d + 1), it)
     else (d, DictIterator (i_table it) (i_index it) (i_safe it) (i_entry it) (i_next it) (Some (dictFingerprint addr d)))
   else (d, it)).
Proof.
  unfold start_iter. intros E. rewrite <- E. destruct (not_started it), (i_safe it) eqn:Es; injection E as <- <-; done.
Qed.

(** The tables, and whether the iterator has been started, after one step. *)
Record stepped d it d' it' : Prop := Stepped {
  sp_tables : same_tables d d';
  sp_safe : i_safe it' = i_safe it;
  sp_started : not_started it' = false;
  sp_iterators : iterators d' = if not_started it && i_safe it then wrapu 64 (iterators d + 1) else iterators d;
  sp_print : fingerprint it' = if not_started it && negb (i_safe it) then Some (dictFingerprint addr d) else fingerprint it;
}.

Lemma stepped_trans d it d1 it1 d2 it2 :
  stepped d it d1 it1 -> stepped d1 it1 d2 it2 -> stepped d it d2 it2.
Proof.
  intros [(A0 & A1 & A2) B C D F] [(A0' & A1' & A2') B' C' D' F']. rewrite C in D', F'. cbn in D', F'.
  split; [by split_and!; etrans| |done|..]; congruence.
Qed.

(** The entry [e] was just returned: it is in its chain, and [rest] follows. *)
Definition returned d it e (rest : list (K * V)) : Prop :=
  exists a b, i_entry it = Some e.1 /\ zidx (table (get_ht d (i_table it))) (i_index it) = Some (a ++ e :: b) /\
    i_next it = fst <$> head b /\ rest = b ++ later d (i_table it) (i_index it).

Lemma returned_pending d it e rest : returned d it e rest -> pending d it rest.
Proof.
  intros (a & b & He & Hi & Hn & ->). eapply (pending_chain d it e.1 (a ++ [e]) b); [done| |done].
  by rewrite <- app_assoc.
Qed.

(** The number of buckets after [index]. *)
Definition buckets_left d (t : bool) (index : Z) : nat :=
  length (drop (Z.to_nat (index + 1)) (table (get_ht d t))) +
  (if negb t && dictIsRehashing d then length (table (ht1 d)) else 0).

Definition next_result d it (rem : list (K * V)) (r : option (dict K V * dictIterator K * option (K * V))) : Prop :=
  exists d' it', r = Some (d', it', head rem) /\ stepped d it d' it' /\
    match rem with [] => True | e :: rest => returned d' it' e rest end.

Lemma next_result_step d it d1 it1 rem r :
  stepped d it d1 it1 -> next_result d1 it1 rem r -> next_result d it rem r.
Proof.
  intros Hs (d' & it' & -> & Hs' & Hr). exists d', it'. split_and!; [done|by eapply stepped_trans|done].
Qed.

(** A loop iteration that has moved to the chain [c] of a bucket. *)
Lemma enter_chain fuel d it (a b : list (K * V)) :
  dict_wf d -> not_started it = false ->
  zidx (table (get_ht d (i_table it))) (i_index it) = Some (a ++ b) -> i_entry it = (fst <$> head b : option K) ->
  (b = [] -> next_result d it (later d (i_table it) (i_index it)) (dictNext_loop addr fuel d it)) ->
  next_result d it (b ++ later d (i_table it) (i_index it))
    match i_entry it with
    | Some k =>
        '(e, next) ← follow d k;
        Some (d, DictIterator (i_table it) (i_index it) (i_safe it) (Some k) next (fingerprint it), Some e)
    | None => dictNext_loop addr fuel d it
    end.
Proof.
  intros W Hst Hi He Hrec. rewrite He. destruct b as [|e b]; [by apply Hrec|]. cbn [head fmap option_fmap option_map app].
  rewrite (follow_at d _ _ a e b W Hi). cbn [mbind option_bind].
  eexists _, _. split; [done|]. split.
  - split; [done|done|exact Hst|by rewrite Hst|by rewrite Hst].
  - exists a, b. done.
Qed.

Lemma not_started_spec it : not_started it = true <-> i_index it = -1 /\ i_table it = false.
Proof. unfold not_started. rewrite andb_true_iff, Z.eqb_eq, negb_true_iff. done. Qed.

Lemma start_stepped d it d1 it1 t i (e : option K) :
  start_iter addr d it = (d1, it1) -> (0 <= i) ->
  stepped d it d1 (at_bucket it1 t i e).
Proof.
  intros Hs Hi. destruct (start_iter_spec _ _ _ _ Hs) as (Ht & _ & _ & Hsafe & Heq).
  assert (not_started (at_bucket it1 t i e) = false) as Hns.
  { apply not_true_is_false. rewrite not_started_spec. cbn. lia. }
  split; [done|exact Hsafe|done|..]; destruct (not_started it), (i_safe it); injection Heq as -> ->; done.
Qed.

Lemma zidx_table d t i : dict_wf d -> 0 <= i < size_ (get_ht d t) -> exists c, zidx (table (get_ht d t)) i = Some c.
Proof.
  intros W Hi. apply zidx_is_Some. rewrite <- (ht_len (get_ht d t)); [done|]. destruct t; apply W.
Qed.

Lemma later_next d t i c :
  zidx (table (get_ht d t)) (i + 1) = Some c -> later d t i = c ++ later d t (i + 1).
Proof. intros Hi. unfold later. by rewrite (drop_bucket _ _ _ Hi), <- app_assoc. Qed.

Lemma left_next d t i c :
  -1 <= i -> zidx (table (get_ht d t)) (i + 1) = Some c -> buckets_left d t i = S (buckets_left d t (i + 1)).
Proof.
  intros Hm Hi. pose proof (zidx_range _ _ _ Hi) as Hr. unfold buckets_left, zlen in *. rewrite !length_drop. lia.
Qed.

Lemma dictNext_loop_spec fuel : forall d it rem,
  dict_wf d -> pending d it rem ->
  (buckets_left d (i_table it) (i_index it) + (match i_entry it with Some _ => 1 | None => 0 end) < fuel)%nat ->
  next_result d it rem (dictNext_loop addr fuel d it).
Proof.
  induction fuel as [|fuel IH]; intros d it rem W Hp Hf; [lia|]. cbn [dictNext_loop].
  destruct Hp as [He Hm Ht|k a b He Hi Hn]; rewrite He in *.
  - unfold next_bucket. destruct (start_iter addr d it) as [d1 it1] eqn:Es.
    destruct (start_iter_spec _ _ _ _ Es) as (Htab & Et & Ei & _). rewrite Et, Ei, Z.geb_leb.
    pose proof (same_tables_wf _ _ Htab W) as W1. pose proof Htab as (E0 & E1 & Er).
    assert (forall t, get_ht d t = get_ht d1 t) as Eg by (intros [|]; cbn; congruence).
    rewrite <- (same_tables_later _ _ _ _ Htab). rewrite !Eg in *.
    assert (forall t i, buckets_left d t i = buckets_left d1 t i) as Eb.
    { intros t i. unfold buckets_left, dictIsRehashing. by rewrite Eg, E1, Er. }
    rewrite Eb in Hf. destruct (Z.leb_spec (size_ (get_ht d1 (i_table it))) (i_index it + 1)) as [Hge|Hlt].
    + assert (concat (drop (Z.to_nat (i_index it + 1)) (table (get_ht d1 (i_table it)))) = []) as Enil.
      { rewrite drop_ge; [done|]. rewrite (ht_len (get_ht d1 (i_table it))) in Hge by (destruct (i_table it); apply W1).
        unfold zlen in Hge. lia. }
      unfold later. rewrite Enil. cbn [app]. rewrite (andb_comm (negb _)).
      destruct (dictIsRehashing d1 && negb (i_table it)) eqn:Eh.
      * apply andb_true_iff in Eh as [Hre Hti]. apply negb_true_iff in Hti.
        assert (rehashidx d1 <> -1) as Hre' by (unfold dictIsRehashing in Hre; by zbool).
        destruct (wf_rehash _ W1 Hre') as (_ & _ & Hs1 & _). pose proof (ht_len _ (wf_ht1 _ W1)) as Hl.
        pose proof (zlen_nonneg (table (ht1 d1))).
        destruct (zidx_table d1 true 0 W1) as [c Hc]; [cbn; lia|]. cbn [get_ht] in Hc. rewrite Hc.
        cbn [mbind option_bind negb]. cbn [at_bucket i_table i_index i_safe i_entry fingerprint].
        eapply next_result_step; [by apply (start_stepped d it d1 it1 true 0 (fst <$> head c) Es)|].
        pose proof (later_next d1 true (-1) c Hc) as El. unfold later at 1 in El.
        cbn [negb andb get_ht] in El. change (-1 + 1) with 0 in El. change (Z.to_nat 0) with O in El. rewrite drop_0, app_nil_r in El.
        unfold ht_entries. rewrite El.
        refine (enter_chain fuel d1 (at_bucket it1 true 0 (fst <$> head c)) [] c W1 eq_refl Hc eq_refl _).
        intros ->. apply IH; [done|constructor; cbn; [done|lia|lia]|].
        cbn [at_bucket i_table i_index i_entry head fmap option_fmap option_map]. rewrite Nat.add_0_r in *.
        rewrite Hti in Hf. unfold buckets_left in *. cbn [negb andb get_ht] in *. rewrite Hre in Hf.
        rewrite !length_drop in *. unfold zlen in Hl. lia.
      * cbn [mbind option_bind negb]. eexists d1, _. split; [done|]. split; [|done].
        apply start_stepped; [done|]. lia.
    + destruct (zidx_table d1 (i_table it) (i_index it + 1) W1) as [c Hc]; [lia|]. rewrite Hc.
      cbn [mbind option_bind negb]. cbn [at_bucket i_table i_index i_safe i_entry fingerprint].
      rewrite (later_next _ _ _ _ Hc).
      eapply next_result_step; [by apply (start_stepped d it d1 it1 (i_table it) (i_index it + 1) (fst <$> head c) Es); lia|].
      assert (not_started (at_bucket it1 (i_table it) (i_index it + 1) (fst <$> head c)) = false) as Hns.
      { apply not_true_is_false. rewrite not_started_spec. cbn. lia. }
      refine (enter_chain fuel d1 (at_bucket it1 (i_table it) (i_index it + 1) (fst <$> head c)) [] c W1 Hns Hc eq_refl _).
      intros ->. apply IH; [done|constructor; cbn; [done|lia|lia]|].
      cbn [at_bucket i_table i_index i_entry head fmap option_fmap option_map]. rewrite (left_next _ _ _ _ Hm Hc) in Hf. lia.
  - cbn [mbind option_bind negb]. cbn [at_bucket i_table i_index i_safe i_entry fingerprint].
    pose proof (zidx_range _ _ _ Hi) as Hir.
    assert (not_started it = false) as Hns.
    { apply not_true_is_false. rewrite not_started_spec. lia. }
    eapply (next_result_step d it d (at_bucket it (i_table it) (i_index it) (i_next it))).
    { split; [done|done|exact Hns|by rewrite Hns|by rewrite Hns]. }
    refine (enter_chain fuel d (at_bucket it (i_table it) (i_index it) (i_next it)) a b W Hns Hi Hn _).
    intros ->. apply IH; [done|constructor; cbn; [done|lia|lia]|].
    cbn [at_bucket i_table i_index i_entry]. rewrite Hn. cbn. lia.
Qed.

Lemma dictNext_spec d it rem :
  dict_wf d -> pending d it rem -> next_result d it rem (dictNext addr d it).
Proof.
  intros W Hp. apply dictNext_loop_spec; [done..|]. unfold buckets_left. rewrite length_drop.
  destruct (i_table it), (dictIsRehashing d), (i_entry it); cbn; lia.
Qed.

(** ** Deletion of the entry that was returned *)

Lemma chain_find_at a e b : absent e.1 a -> chain_find (a ++ e :: b) e.1 = Some (length a).
Proof.
  unfold absent. induction 1 as [|x a Hx _ IH]; destruct e as [k v]; cbn [app chain_find] in *.
  - by rewrite same_key_refl.
  - destruct x as [k' v']. cbn [fst] in *. rewrite Hx, IH. done.
Qed.

Lemma chain_find_absent c k : absent k c -> chain_find c k = None.
Proof.
  unfold absent. induction 1 as [|[k' v'] c Hx _ IH]; cbn [chain_find] in *; [done|]. cbn [fst] in Hx. by rewrite Hx, IH.
Qed.

Lemma distinct_absent (x : list (K * V)) e y : distinct (x ++ e :: y) -> absent e.1 x.
Proof.
  unfold distinct. rewrite StronglySorted_app. intros (Hs & _). apply Forall_forall. intros z Hz.
  apply same_key_false_sym. apply Hs; [done|set_solver].
Qed.

Lemma later_idle d t i : dict_wf d ->
  later d t i = concat (drop (Z.to_nat (i + 1)) (table (get_ht d t))) ++ (if t then [] else ht_entries (ht1 d)).
Proof.
  intros W. unfold later. f_equal. destruct t; [done|]. cbn. destruct (dictIsRehashing d) eqn:E; [done|].
  unfold dictIsRehashing in E. zbool. by rewrite (wf_idle _ W E).
Qed.

Lemma delete_returned d it e rest pre :
  dict_wf d -> iterators d <> 0 -> returned d it e rest -> entries d = pre ++ e :: rest ->
  exists d' freed, dictDelete d e.1 = Some (d', DICT_OK, freed) /\ dict_wf d' /\ iterators d' = iterators d /\
    entries d' = pre ++ rest /\ pending d' it rest.
Proof.
  intros W Hit (a & b & He & Hi & Hn & Hrest) Hpre. set (t := i_table it) in *. set (i := i_index it) in *.
  assert (ht_wf (get_ht d t)) as Wt by (destruct t; apply W).
  destruct (dictGenericDelete_spec d e.1 false W) as (d' & r & freed & E & W' & _).
  exists d', freed. unfold dictDelete. rewrite E. cbn [mbind option_bind].
  assert (size_ (ht0 d) <> 0 /\ (t = true -> dictIsRehashing d = true)) as [Hs0 Hre].
  { destruct t; cbn [get_ht] in *.
    - assert (rehashidx d <> -1) as Hre'.
      { intros Hid. pose proof (zidx_range _ _ _ Hi) as Hr. rewrite (wf_idle _ W Hid) in Hr. unfold zlen in Hr. cbn in Hr. lia. }
      split; [apply (wf_rehash _ W Hre')|]. intros _. unfold dictIsRehashing. rewrite negb_true_iff. by apply Z.eqb_neq.
    - split; [|done]. rewrite (ht_len _ Wt). pose proof (zidx_range _ _ _ Hi). lia. }
  pose proof (ht_place _ Wt _ _ Hi) as Hpl. unfold placed in Hpl. rewrite Forall_app, Forall_cons in Hpl.
  destruct Hpl as (_ & Hpl & _).
  destruct (zidx_Some_split _ _ _ Hi) as (x & y & Etab & Hx).
  assert (exists p q, ht_entries (get_ht d t) = p ++ a ++ e :: b ++ q) as (p & q & Hh).
  { exists (concat x), (concat y). unfold ht_entries. rewrite Etab, concat_app. cbn [concat]. by rewrite <- app_assoc. }
  assert (absent e.1 a /\ (t = true -> absent e.1 (ht_entries (ht0 d)))) as [Ha Ha0].
  { pose proof (wf_distinct _ W) as Hd. unfold entries in Hd. destruct t; cbn [get_ht] in Hh; rewrite Hh in Hd.
    - replace (ht_entries (ht0 d) ++ p ++ a ++ e :: b ++ q) with ((ht_entries (ht0 d) ++ p ++ a) ++ e :: b ++ q) in Hd
        by by rewrite <- !app_assoc.
      apply distinct_absent in Hd. unfold absent in *. rewrite !Forall_app in Hd. tauto.
    - replace ((p ++ a ++ e :: b ++ q) ++ ht_entries (ht1 d)) with ((p ++ a) ++ e :: b ++ q ++ ht_entries (ht1 d)) in Hd
        by (rewrite <- !app_assoc; cbn [app]; by rewrite <- !app_assoc).
      apply distinct_absent in Hd. unfold absent in *. rewrite !Forall_app in Hd. split; [tauto|done]. }
  assert (search_tables d e.1 (hashFunction e.1) = Some (inl (Entref t i (length a)))) as Hst.
  { unfold search_tables. destruct t; cbn [get_ht] in *.
    - destruct (hash_bucket (ht0 d) (hashFunction e.1) (wf_ht0 _ W) Hs0) as [c0 Hc0]. rewrite Hc0. cbn [mbind option_bind].
      rewrite chain_find_absent.
      + rewrite Hre by done. cbn [negb]. rewrite Hpl, Hi. cbn [mbind option_bind]. by rewrite chain_find_at.
      + apply Forall_forall. intros z Hz. specialize (Ha0 eq_refl). unfold absent in Ha0. rewrite Forall_forall in Ha0.
        apply Ha0. by eapply zidx_elem.
    - rewrite Hpl, Hi. cbn [mbind option_bind]. by rewrite chain_find_at. }
  assert (rehash_if_needed d = Some d) as Hri.
  { unfold rehash_if_needed, _dictRehashStep. rewrite (proj2 (Z.eqb_neq _ _)) by done. by destruct (dictIsRehashing d). }
  unfold dictGenericDelete, dictHashKey in E. destruct (_ && _) eqn:Hz.
  { exfalso. apply andb_true_iff in Hz as [Hz0 Hz1]. zbool. pose proof (used_total d W) as Hu.
    rewrite Hpre in Hu. zl. pose proof (zlen_nonneg pre). pose proof (zlen_nonneg rest). lia. }
  rewrite Hri in E. cbn [mbind option_bind] in E. rewrite Hst in E. cbn [mbind option_bind e_table e_idx e_pos] in E.
  rewrite Hi in E. cbn [mbind option_bind] in E. rewrite list_lookup_middle in E by done. destruct e as [ke ve].
  cbn [mbind option_bind] in E. rewrite delete_middle in E.
  destruct (set_bucket_spec _ _ _ (a ++ b) Hi) as (x' & y' & Etab' & Hx' & Esb). rewrite Esb in E.
  cbn [mbind option_bind] in E.
  assert (x' = x /\ y' = y) as [-> ->].
  { rewrite Etab in Etab'. apply app_inj_1 in Etab' as [Ea Eb]; [split; congruence|]. unfold zlen in *. lia. }
  set (P := if t then ht_entries (ht0 d) ++ concat x else concat x).
  assert (later d t i = concat y ++ (if t then [] else ht_entries (ht1 d))) as Hl.
  { rewrite (later_idle _ _ _ W), Etab, (cons_middle _ x y), (app_assoc x).
    rewrite (drop_app_length' (x ++ [a ++ (ke, ve) :: b])); [done|]. rewrite length_app. unfold zlen in *. cbn. lia. }
  injection E as Ed <- <-. split_and!; [done|done|by rewrite <- Ed; destruct t| |].
  - assert (pre = P ++ a) as ->.
    { apply (app_inv_tail ((ke, ve) :: rest)). rewrite <- Hpre, Hrest, Hl, <- app_assoc.
      unfold entries, P, ht_entries. destruct t; cbn [get_ht] in *; rewrite Etab, concat_app; cbn [concat];
        rewrite ?app_nil_r, <- !app_assoc; cbn [app]; by rewrite <- ?app_assoc. }
    rewrite Hrest, Hl, <- Ed, <- app_assoc. unfold entries, P, ht_entries, set_used.
    destruct t; cbn [set_ht ht0 ht1 table]; rewrite concat_app; cbn [concat];
      by rewrite ?app_nil_r, <- !app_assoc.
  - rewrite Hrest. assert (later d t i = later d' t i) as ->.
    { rewrite Hl, (later_idle _ _ _ W'), <- Ed. unfold set_used. destruct t; cbn [set_ht get_ht ht0 ht1 table]; f_equal;
        rewrite (cons_middle _ x y), (app_assoc x), (drop_app_length' (x ++ [a ++ b])) by (rewrite length_app; unfold zlen in *; cbn; lia); done. }
    apply (pending_chain d' it ke a b); [done| |done]. fold t i. rewrite <- Ed. unfold set_used.
    destruct t; cbn [set_ht get_ht ht0 ht1 table]; by apply zidx_app.
Qed.

(** A client that runs an iterator to its end and deletes the entries whose key satisfies [del]. *)
Fixpoint iterate (fuel : nat) (del : K -> bool) d it : option (dict K V * dictIterator K * list (K * V)) :=
  match fuel with
  | O => None
  | S fuel =>
      '(d, it, r) ← dictNext addr d it;
      match r with
      | None => Some (d, it, [])
      | Some e =>
          d ← (if del e.1 then '(d, _, _) ← dictDelete d e.1; Some d else Some d);
          '(d, it, es) ← iterate fuel del d it;
          Some (d, it, e :: es)
      end
  end.

Definition kept_entries (del : K -> bool) (l : list (K * V)) : list (K * V) := filter (fun e => del e.1 = false) l.

Lemma iterate_spec del rem : forall fuel d it pre,
  dict_wf d -> pending d it rem -> entries d = pre ++ rem -> (length rem < fuel)%nat ->
  0 <= iterators d -> (not_started it = true -> iterators d < 2 ^ 64 - 1) ->
  (not_started it = false -> i_safe it = true -> iterators d <> 0) ->
  ((i_safe it = false) -> forall k, del k = false) ->
  exists d' it', iterate fuel del d it = Some (d', it', rem) /\ dict_wf d' /\
    entries d' = pre ++ kept_entries del rem /\ i_safe it' = i_safe it /\ not_started it' = false /\
    iterators d' = (if not_started it && i_safe it then iterators d + 1 else iterators d) /\
    (i_safe it = false -> same_tables d d' /\
       fingerprint it' = if not_started it then Some (dictFingerprint addr d) else fingerprint it).
Proof.
  induction rem as [|e rem IH]; intros [|fuel] d it pre W Hp He Hf Hit Hb Hns Hdel; cbn in Hf; try lia; cbn [iterate].
  all: assert (forall d1, iterators d1 = (if not_started it && i_safe it then wrapu 64 (iterators d + 1) else iterators d) ->
    iterators d1 = if not_started it && i_safe it then iterators d + 1 else iterators d) as Hadd
    by (intros d1 ->; destruct (not_started it), (i_safe it); cbn; try done; apply wrapu_small; unfold in_u; specialize (Hb eq_refl); lia).
  - destruct (dictNext_spec d it [] W Hp) as (d' & it' & -> & [Ht Hs Hst Hi Hpr] & _). cbn [mbind option_bind head].
    exists d', it'. split_and!; [done|by eapply same_tables_wf|..]; try done.
    + destruct Ht as (E0 & E1 & _). unfold entries. rewrite E0, E1. exact He.
    + by apply Hadd.
    + intros Hsafe. split; [done|]. rewrite Hpr, Hsafe. by destruct (not_started it).
  - destruct (dictNext_spec d it (e :: rem) W Hp) as (d1 & it1 & -> & [Ht Hs Hst Hi Hpr] & Hret). cbn [mbind option_bind head].
    pose proof (same_tables_wf _ _ Ht W) as W1. pose proof Ht as (E0 & E1 & Er).
    assert (entries d1 = pre ++ e :: rem) as He1 by (unfold entries; rewrite E0, E1; exact He).
    assert (iterators d1 = if not_started it && i_safe it then iterators d + 1 else iterators d) as Hi1.
    { by apply Hadd. }
    assert (i_safe it = true -> iterators d1 <> 0) as Hnz.
    { intros Hsafe. rewrite Hi1, Hsafe. destruct (not_started it); cbn; [lia|by apply Hns]. }
    assert (exists d2, (if del e.1 then '(d, _, _) ← dictDelete d1 e.1; Some d else Some d1) = Some d2 /\ dict_wf d2 /\
      iterators d2 = iterators d1 /\ pending d2 it1 rem /\ entries d2 = (pre ++ kept_entries del [e]) ++ rem /\
      (i_safe it = false -> d2 = d1)) as (d2 & -> & W2 & Hi2 & Hp2 & He2 & Hsame).
    { unfold kept_entries. rewrite filter_cons, filter_nil. destruct (del e.1) eqn:Ed.
      - destruct (i_safe it); [|by rewrite Hdel in Ed].
        destruct (delete_returned d1 it1 e rem pre W1 (Hnz eq_refl) Hret He1) as (d2 & fr & -> & W2 & Hi2 & He2 & Hp2).
        exists d2. cbn [mbind option_bind]. rewrite decide_False by done. rewrite app_nil_r. done.
      - exists d1. rewrite decide_True by done. rewrite <- app_assoc. split_and!; try done. by eapply returned_pending. }
    cbn [mbind option_bind].
    destruct (IH fuel d2 it1 (pre ++ kept_entries del [e]) W2 Hp2 He2) as (d' & it' & -> & W' & He' & Hs' & Hst' & Hi' & Hsm);
      [lia|rewrite Hi2, Hi1; destruct (_ && _); lia|by rewrite Hst|rewrite Hs, Hi2; auto|by rewrite Hs|].
    rewrite Hst in *. cbn [andb] in *.
    exists d', it'. split_and!; [done|done| |congruence|done|congruence|].
    + rewrite He', <- app_assoc. f_equal. unfold kept_entries. by rewrite <- filter_app.
    + intros Hsafe. rewrite Hs in Hsm. destruct (Hsm Hsafe) as [Hta Hfp]. rewrite (Hsame Hsafe) in Hta.
      split; [destruct Hta as (B0 & B1 & B2); split_and!; congruence|]. rewrite Hfp, Hpr, Hsafe. by destruct (not_started it).
Qed.

Lemma iterate_fresh_pending d (it : dictIterator K) : dict_wf d ->
  i_entry it = None -> i_table it = false -> i_index it = -1 -> pending d it (entries d).
Proof.
  intros W He Ht Hi. assert (entries d = later d (i_table it) (i_index it)) as ->.
  { rewrite Ht, Hi, later_idle by done. change (Z.to_nat (-1 + 1)) with O. by rewrite drop_0. }
  constructor; [done|lia|by rewrite Ht].
Qed.

(** C23 A safe iterator returns every entry of the dictionary exactly once, in the order of the
    buckets and whether or not a rehashing is under way, while its client deletes any of the
    entries it was given. The deleted entries and no others are gone at the end, the dictionary
    stays well formed, and releasing the iterator restores the number of iterators. *)
Theorem dictSafeIterator_visits_all del d :
  dict_wf d -> 0 <= iterators d < 2 ^ 64 - 1 ->
  exists d' it' d'', iterate (S (length (entries d))) del d dictGetSafeIterator = Some (d', it', entries d) /\
    dict_wf d' /\ entries d' = kept_entries del (entries d) /\
    dictReleaseIterator addr d' it' = Some d'' /\ dict_wf d'' /\ entries d'' = entries d' /\ iterators d'' = iterators d.
Proof.
  intros W Hit.
  destruct (iterate_spec del (entries d) (S (length (entries d))) d dictGetSafeIterator [] W)
    as (d' & it' & E & W' & He & Hs & Hst & Hi & _); try done; [by apply iterate_fresh_pending|lia..|].
  cbn in Hi, Hs. exists d', it', (set_iterators d' (iterators d' - 1)).
  assert (same_tables d' (set_iterators d' (iterators d' - 1))) as Hsame by done.
  split_and!; [done|done|done| |by eapply same_tables_wf|done|].
  - unfold dictReleaseIterator. by rewrite Hst, Hs.
  - cbn. rewrite Hi, Z.add_simpl_r. apply wrapu_small. unfold in_u. lia.
Qed.

(** An iterator that is not safe returns every entry exactly once too if the dictionary is not
    changed meanwhile, and the assertion on the fingerprint that its release makes holds. *)
Theorem dictIterator_visits_all d :
  dict_wf d -> 0 <= iterators d < 2 ^ 64 - 1 ->
  exists d' it', iterate (S (length (entries d))) (fun _ => false) d dictGetIterator = Some (d', it', entries d) /\
    same_tables d d' /\ (addr d' = addr d -> dictReleaseIterator addr d' it' = Some d').
Proof.
  intros W Hit.
  destruct (iterate_spec (fun _ => false) (entries d) (S (length (entries d))) d dictGetIterator [] W)
    as (d' & it' & E & W' & He & Hs & Hst & Hi & Hsm); try done; [by apply iterate_fresh_pending|lia..|].
  destruct (Hsm eq_refl) as [Ht Hfp]. change (not_started dictGetIterator) with true in Hfp. change (i_safe it' = false) in Hs.
  exists d', it'. split_and!; [done|done|]. intros Ha.
  unfold dictReleaseIterator. rewrite Hst, Hs. cbn [negb]. rewrite bool_decide_eq_true_2; [done|].
  assert (dictFingerprint addr d' = dictFingerprint addr d) as ->; [|exact Hfp].
  unfold dictFingerprint. destruct Ht as (-> & -> & _). rewrite Ha. reflexivity.
Qed.
End iter_spec.

(** ** Random keys *)

Section random_spec.
Context {K V : Type} `{EqDecision K} `{T : !dictType K V} `{L : !DictLaws K V}.
Implicit Types (d : dict K V) (c : list (K * V)) (e : K * V).

(** The bucket the code takes for one result of [random()]. *)
Definition random_choice d (r : Z) : option (list (K * V)) :=
  if dictIsRehashing d then
    let h := wrapu 64 (rehashidx d + r mod (wrapu 64 (size_ (ht0 d) + size_ (ht1 d) - rehashidx d))) in
    if h >=? size_ (ht0 d) then zidx (table (ht1 d)) (h - size_ (ht0 d)) else zidx (table (ht0 d)) h
  else zidx (table (ht0 d)) (Z.land r (sizemask (ht0 d))).

Lemma bucket_elem d t i c e : zidx (table (get_ht d t)) i = Some c -> e ∈ c -> e ∈ entries d.
Proof. intros Hi He. unfold entries. apply elem_of_app. destruct t; [right|left]; by eapply zidx_elem. Qed.

Lemma random_choice_elem d r c e : random_choice d r = Some c -> e ∈ c -> e ∈ entries d.
Proof.
  unfold random_choice. destruct (dictIsRehashing d); [destruct (_ >=? _)|]; intros Hc.
  - by apply (bucket_elem d true _ _ _ Hc).
  - by apply (bucket_elem d false _ _ _ Hc).
  - by apply (bucket_elem d false _ _ _ Hc).
Qed.

Lemma random_bucket_elem d rs c rs' :
  random_bucket rs (random_choice d) = Some (c, rs') -> c <> [] /\ forall e, e ∈ c -> e ∈ entries d.
Proof.
  induction rs as [|r rs IH]; cbn [random_bucket]; [done|].
  destruct (random_choice d r) as [c0|] eqn:Hc; cbn [mbind option_bind]; [|done].
  destruct c0 as [|e0 c0]; [done|]. intros [= <- <-]. split; [done|]. intros e. by apply (random_choice_elem d r).
Qed.

Lemma ht_size_range (ht : dictht K V) : ht_wf ht -> 0 <= size_ ht <= 2 ^ 62.
Proof.
  intros W. destruct (ht_pow _ W) as [->|(n & Hn & ->)]; [done|]. split; [lia|]. apply Z.pow_le_mono_r; lia.
Qed.

(** Every entry is in a bucket some result of [random()] leads to. *)
Lemma random_choice_reaches d e :
  dict_wf d -> e ∈ entries d -> exists r c, 0 <= r /\ random_choice d r = Some c /\ e ∈ c.
Proof.
  intros W He. pose proof (ht_size_range _ (wf_ht0 _ W)) as Hs0. pose proof (ht_size_range _ (wf_ht1 _ W)) as Hs1.
  unfold entries in He. apply elem_of_app in He. unfold random_choice. destruct (dictIsRehashing d) eqn:Hre.
  - unfold dictIsRehashing in Hre. zbool. destruct (wf_rehash _ W Hre) as (Hr & Hn0 & Hn1 & Hempty).
    set (total := size_ (ht0 d) + size_ (ht1 d)). destruct He as [He|He]; apply elem_zidx in He as (i & c & Hi & He).
    + pose proof (zidx_range _ _ _ Hi) as Hir. rewrite <- (ht_len _ (wf_ht0 _ W)) in Hir.
      assert (rehashidx d <= i) as Hle.
      { destruct (Z.lt_ge_cases i (rehashidx d)); [|done]. rewrite Hempty in Hi by lia. set_solver. }
      exists (i - rehashidx d), c. split_and!; [lia| |done].
      rewrite (wrapu_small 64 (total - _)), Z.mod_small by (unfold in_u; lia).
      rewrite Z.add_sub_assoc, Z.add_simpl_l, wrapu_small by (unfold in_u; lia).
      rewrite Z.geb_leb, (proj2 (Z.leb_gt _ _)) by lia. done.
    + pose proof (zidx_range _ _ _ Hi) as Hir. rewrite <- (ht_len _ (wf_ht1 _ W)) in Hir.
      exists (size_ (ht0 d) + i - rehashidx d), c. split_and!; [lia| |done].
      rewrite (wrapu_small 64 (total - _)), Z.mod_small by (unfold in_u; lia).
      rewrite Z.add_sub_assoc, Z.add_simpl_l, wrapu_small by (unfold in_u; lia).
      rewrite Z.geb_leb, (proj2 (Z.leb_le _ _)) by lia. by rewrite Z.add_simpl_l.
  - unfold dictIsRehashing in Hre. zbool. rewrite (wf_idle _ W Hre) in He. destruct He as [He|He]; [|by apply elem_of_nil in He].
    apply elem_zidx in He as (i & c & Hi & He). pose proof (zidx_range _ _ _ Hi) as Hir.
    rewrite <- (ht_len _ (wf_ht0 _ W)) in Hir. exists i, c. split_and!; [lia| |done].
    rewrite (ht_mask _ (wf_ht0 _ W)), (proj2 (Z.eqb_neq _ _)) by lia.
    destruct (ht_pow _ (wf_ht0 _ W)) as [|(n & Hn & En)]; [lia|]. rewrite En, land_mask, Z.mod_small by lia. done.
Qed.

Lemma dictSize_spec d : dict_wf d -> dictSize d = zlen (entries d).
Proof.
  intros W. unfold dictSize. rewrite used_total by done. apply wrapu_small. pose proof (wf_bound _ W).
  pose proof (zlen_nonneg (entries d)). unfold in_u. lia.
Qed.

(** [dictGetRandomKey] returns an entry of the dictionary, or [NULL] exactly when there is none, and
    every entry is returned for some results of [random()]. The step of the rehashing it takes keeps the
    entries. *)
Theorem dictGetRandomKey_correct d :
  dict_wf d ->
  (forall rs d' r, dictGetRandomKey rs d = Some (d', r) ->
     rehash_pres d d' /\ match r with Some e => e ∈ entries d | None => entries d = [] end) /\
  (forall e, e ∈ entries d -> exists rs d', Forall (fun r => 0 <= r) rs /\ dictGetRandomKey rs d = Some (d', Some e)).
Proof.
  intros W. unfold dictGetRandomKey. rewrite dictSize_spec by done.
  destruct (rehash_if_needed_spec d W) as (d1 & -> & P). cbn [mbind option_bind].
  change (fun r : Z => if dictIsRehashing d1 then _ else _) with (random_choice d1).
  destruct (Z.eqb_spec (zlen (entries d)) 0) as [E|Hne].
  { apply zlen_0_inv in E. split; [|rewrite E; set_solver]. intros rs d' r [= <- <-]. split; [by apply rehash_pres_refl|done]. }
  split.
  - intros rs d' r Hr. destruct (random_bucket rs (random_choice d1)) as [[c rs1]|] eqn:Hb; [|done]. cbn [mbind option_bind] in Hr.
    destruct (head rs1) as [r1|]; [|done]. cbn [mbind option_bind] in Hr.
    destruct (c !! Z.to_nat (r1 mod zlen c)) as [e|] eqn:Hc; [|done]. injection Hr as <- <-. split; [done|].
    rewrite <- (rp_entries _ _ P). apply (random_bucket_elem _ _ _ _ Hb). by eapply list_elem_of_lookup_2.
  - intros e He. rewrite <- (rp_entries _ _ P) in He.
    destruct (random_choice_reaches d1 e (rp_wf _ _ P) He) as (r & c & Hr & Hc & Hec).
    apply list_elem_of_lookup_1 in Hec as [i Hi]. pose proof (lookup_lt_Some _ _ _ Hi) as Hlt.
    exists [r; Z.of_nat i], d1. split; [by repeat constructor; lia|]. cbn [random_bucket]. rewrite Hc. cbn [mbind option_bind].
    destruct c as [|e0 c]; [done|]. cbn [mbind option_bind head].
    rewrite Z.mod_small, Nat2Z.id, Hi by (unfold zlen; lia). done.
Qed.

Lemma rehash_steps_spec n : forall d, dict_wf d -> exists d', rehash_steps n d = Some d' /\ rehash_pres d d'.
Proof.
  induction n as [|n IH]; intros d W; cbn [rehash_steps]; [eexists; split; [done|by apply rehash_pres_refl]|].
  destruct (dictIsRehashing d); [|eexists; split; [done|by apply rehash_pres_refl]].
  destruct (rehashStep_spec d W) as (d1 & -> & P1). cbn [mbind option_bind].
  destruct (IH d1 (rp_wf _ _ P1)) as (d2 & -> & P2). exists d2. split; [done|]. by eapply rehash_pres_trans.
Qed.

(** The variables of the sampling loop when [count] entries are not yet stored. *)
Record sampling d (count : Z) (n : nat) (s : sample) : Prop := Sampling {
  sm_i : 0 <= s_i s;
  sm_des : forall e, e ∈ s_des s -> e ∈ entries d;
  sm_count : zlen (s_des s) < count;
  sm_rs : (n <= length (s_rs s))%nat;
}.

Lemma sample_table_spec d count mask two j n s :
  dict_wf d -> 0 <= mask -> sampling d count (S n) s ->
  exists s' full, sample_table d count mask two j s = Some (s', full) /\
    if full : bool then zlen (s_des s') = count /\ (forall e, e ∈ s_des s' -> e ∈ entries d) else sampling d count n s'.
Proof.
  intros W Hm [Hi Hd Hc Hn]. unfold sample_table.
  assert (forall i em, 0 <= i -> sampling d count n (Sample_ i em (s_des s) (s_rs s))) as Hstay
    by (intros; split; cbn; auto; lia).
  set (skip := two && negb j && (s_i s <? wrapu 64 (rehashidx d))). rewrite !Z.geb_leb.
  destruct (skip && negb _); [eexists _, false; split; [done|]; destruct s; by apply Hstay|].
  set (i := if skip then wrapu 64 (rehashidx d) else s_i s).
  assert (0 <= i) as Hi0 by (unfold i; destruct skip; [apply wrapu_range; lia|done]).
  destruct (Z.leb_spec (size_ (get_ht d j)) i) as [|Hlt]; [eexists _, false; split; [done|by apply Hstay]|].
  destruct (zidx_table d j i W) as [c Hz]; [lia|]. rewrite Hz. cbn [mbind option_bind]. destruct c as [|e0 c0] eqn:Ec.
  - case_if; [|eexists _, false; split; [done|by apply Hstay]].
    destruct (s_rs s) as [|r rs] eqn:Ers; cbn in Hn; [lia|]. eexists _, false. split; [done|].
    split; cbn; [by apply Z.land_nonneg; right|done|done|lia].
  - rewrite <- Ec in *. eexists _, _. split; [done|]. cbn [s_des].
    assert (forall e, e ∈ s_des s ++ take (Z.to_nat (count - zlen (s_des s))) c -> e ∈ entries d) as Hin.
    { intros e [He|He]%elem_of_app; [auto|]. eapply bucket_elem; [exact Hz|]. by eapply subseteq_take. }
    destruct (Z.leb_spec (count - zlen (s_des s)) (zlen c)).
    + split; [|done]. rewrite zlen_app. unfold zlen in *. rewrite length_take. lia.
    + split; cbn; [done|done| |lia]. rewrite zlen_app. unfold zlen in *. rewrite length_take. lia.
Qed.

Lemma sample_loop_spec maxsteps : forall d count mask two s,
  dict_wf d -> 0 <= mask -> sampling d count (2 * maxsteps) s ->
  exists des, sample_loop maxsteps d count mask two s = Some des /\ zlen des <= count /\ forall e, e ∈ des -> e ∈ entries d.
Proof.
  induction maxsteps as [|n IH]; intros d count mask two s W Hm Hs; pose proof Hs as [_ Hd Hc _]; cbn [sample_loop];
    rewrite Z.geb_leb, (proj2 (Z.leb_gt _ _)) by lia; [eexists; split_and!; [done|lia|done]|].
  destruct (sample_table_spec d count mask two false (S (2 * n)) s W Hm) as (s1 & full & -> & Hf).
  { destruct Hs. split; try done. lia. }
  cbn [mbind option_bind]. destruct full; [destruct Hf as [Hl Hin]; eexists; split_and!; [done|lia|done]|].
  assert (exists s2 full, (if two then sample_table d count mask two true s1 else Some (s1, false)) = Some (s2, full) /\
    if full : bool then zlen (s_des s2) = count /\ (forall e, e ∈ s_des s2 -> e ∈ entries d) else sampling d count (2 * n) s2)
    as (s2 & full & -> & Hf2).
  { destruct two; [by apply sample_table_spec|]. eexists _, false. split; [done|]. destruct Hf. split; try done. lia. }
  cbn [mbind option_bind]. destruct full; [destruct Hf2 as [Hl Hin]; eexists; split_and!; [done|lia|done]|].
  apply IH; [done|done|]. destruct Hf2. split; try done. cbn. apply Z.land_nonneg. by right.
Qed.

Lemma sizemask_nonneg d t : dict_wf d -> 0 <= sizemask (get_ht d t).
Proof.
  intros W. assert (ht_wf (get_ht d t)) as Wt by (destruct t; apply W). rewrite (ht_mask _ Wt).
  pose proof (ht_size_range _ Wt). destruct (Z.eqb_spec (size_ (get_ht d t)) 0); lia.
Qed.

(** [dictGetSomeKeys] always returns, with entries of the dictionary and at most as many as it was asked
    for and as there are; the results of [random()] it needs are bounded. *)
Theorem dictGetSomeKeys_samples rs d count :
  dict_wf d -> 0 <= count < 2 ^ 32 -> 20 * count + 1 <= zlen rs -> 0 <= default 0 (head rs) ->
  exists d' des, dictGetSomeKeys rs d count = Some (d', des) /\ rehash_pres d d' /\
    zlen des <= Z.min count (zlen (entries d)) /\ forall e, e ∈ des -> e ∈ entries d.
Proof.
  intros W Hc Hrs Hr. unfold dictGetSomeKeys. rewrite dictSize_spec by done. pose proof (zlen_nonneg (entries d)) as Hn.
  set (cnt := if zlen (entries d) <? count then wrapu 32 (zlen (entries d)) else count).
  assert (cnt = Z.min count (zlen (entries d))) as Hcnt.
  { unfold cnt. destruct (Z.ltb_spec (zlen (entries d)) count); [rewrite wrapu_small by (unfold in_u; lia)|]; lia. }
  assert (wrapu 32 (cnt * 10) <= cnt * 10) as Hsteps by (unfold wrapu; apply Z.mod_le; lia).
  pose proof (wrapu_range 32 (cnt * 10) ltac:(lia)) as [Hs0 _].
  destruct (rehash_steps_spec (Z.to_nat cnt) d W) as (d1 & -> & P). cbn [mbind option_bind].
  pose proof (rp_wf _ _ P) as W1. set (mask := if dictIsRehashing d1 && _ then _ else _).
  assert (0 <= mask) as Hm.
  { pose proof (sizemask_nonneg d1 false W1). pose proof (sizemask_nonneg d1 true W1). unfold mask. by destruct (_ && _). }
  destruct rs as [|r rs]; [change (zlen (@nil Z)) with 0 in Hrs; lia|]. rewrite zlen_cons in Hrs.
  destruct (Z.eq_dec cnt 0) as [E0|Hne].
  { exists d1, []. rewrite E0. cbn. split_and!; [done|done|change (zlen (@nil (K * V))) with 0; lia|set_solver]. }
  destruct (sample_loop_spec (Z.to_nat (wrapu 32 (cnt * 10))) d1 cnt mask (dictIsRehashing d1)
    (Sample_ (Z.land r mask) 0 [] rs) W1 Hm) as (des & -> & Hl & Hin).
  { split; cbn; [apply Z.land_nonneg; by right|set_solver|change (zlen (@nil (K * V))) with 0; lia|unfold zlen in *; lia]. }
  exists d1, des. split_and!; [done|done|lia|]. intros e He. rewrite <- (rp_entries _ _ P). by apply Hin.
Qed.
End random_spec.

(** ** The iterators on a dictionary in the middle of a rehashing *)

Module IterSample.
Import Dict.Sample.

(** Deleting the keys above 20 while iterating. *)
Lemma dictSafeIterator_visits_all_witness : exists d' it' d'',
  iterate (fun _ => (1, 2)) 10 (fun k => 20 <? k) sample dictGetSafeIterator = Some (d', it', entries sample) /\
  length (entries sample) = 9%nat /\ length (entries d') = 5%nat /\
  dictReleaseIterator (fun _ => (1, 2)) d' it' = Some d'' /\ iterators d'' = 0.
Proof.
  destruct (dictSafeIterator_visits_all (fun _ => (1, 2)) (fun k => 20 <? k) sample sample_wf)
    as (d' & it' & d'' & E & _ & He & Hr & _ & _ & Hi); [by vm_compute|].
  exists d', it', d''. split_and!; [exact E|by vm_compute|rewrite He; by vm_compute|exact Hr|exact Hi].
Defined.

Lemma dictGetRandomKey_correct_witness : exists rs d', Forall (fun r => 0 <= r) rs /\
  dictGetRandomKey rs sample = Some (d', Some (36, 9)).
Proof.
  destruct (dictGetRandomKey_correct sample sample_wf) as [_ H]. apply H.
  apply list_elem_of_In. vm_compute. tauto.
Defined.
End IterSample.
