(* ===== verification/DictMap.v ===== *)
(** * Dictionaries as finite maps

    For a dictionary type whose keys are compared by equality and whose keys and values are not
    copied, the entries of a dictionary are a finite map [dmap], and the operations of dict.c are
    the operations on it. The class [PlainDict] states what a client relies on. *)

From S2P Require Import Prelude Dict DictIter.

Class PlainDict (K V : Type) `{EqDecision K} `{T : !dictType K V} : Prop := {
  plain_same k1 k2 : same_key k1 k2 = true <-> k1 = k2;
  plain_key k : dictSetKey k = k;
  plain_val v : dictSetVal v = v;
}.

Section dmap.
Context {K V : Type} `{Countable K} `{T : !dictType K V} `{L : !DictLaws K V} `{P : !PlainDict K V}.
Implicit Types (d : dict K V) (k key : K) (v : V).

Definition dmap d : gmap K V := list_to_map (entries d).

Lemma entries_NoDup d : dict_wf d -> NoDup (entries d).*1.
Proof. intros W. apply distinct_keys, W. Qed.

Lemma dmap_perm d d' : dict_wf d -> entries d' ≡ₚ entries d -> dmap d' = dmap d.
Proof.
  intros W Hp. unfold dmap. symmetry. apply list_to_map_proper; [by apply entries_NoDup|by symmetry].
Qed.

Lemma dmap_cons d d' k v : dict_wf d' -> entries d' ≡ₚ (k, v) :: entries d -> dmap d' = <[k:=v]> (dmap d).
Proof.
  intros W Hp. unfold dmap. rewrite <- list_to_map_cons. apply list_to_map_proper; [by apply entries_NoDup|done].
Qed.

Lemma dmap_lookup d k : dmap d !! k = lookup_ d k.
Proof.
  unfold dmap, lookup_. induction (entries d) as [|[k' v'] l IH]; cbn [list_to_map foldr]; [done|].
  rewrite assoc_cons. cbn [fst snd]. destruct (same_key k k') eqn:E.
  - apply plain_same in E as ->. apply lookup_insert_eq.
  - rewrite lookup_insert_ne; [apply IH|]. intros ->. rewrite same_key_refl in E. done.
Qed.

Lemma dmap_elem d k v : dict_wf d -> (k, v) ∈ entries d <-> dmap d !! k = Some v.
Proof. intros W. unfold dmap. apply elem_of_list_to_map. by apply entries_NoDup. Qed.

Lemma dmap_size d : dict_wf d -> zlen (entries d) = Z.of_nat (size (dmap d)).
Proof. intros W. unfold dmap, zlen. f_equal. symmetry. by apply map_size_list_to_map, entries_NoDup. Qed.

Lemma dictSize_map d : dict_wf d -> dictSize d = Z.of_nat (size (dmap d)).
Proof. intros W. by rewrite dictSize_spec, dmap_size. Qed.

Lemma dmap_init : dmap (_dictInit : dict K V) = ∅.
Proof. done. Qed.

Lemma rehash_dmap d d' : dict_wf d -> rehash_pres d d' -> dict_wf d' /\ dmap d' = dmap d.
Proof. intros W []. split; [done|by apply dmap_perm]. Qed.

Lemma dictAddRaw_map junk b d key :
  dict_wf d -> Z.of_nat (size (dmap d)) + 1 < 2 ^ 60 ->
  exists d' r, dictAddRaw junk b d key = Some (d', r) /\ dict_wf d' /\
    match r with
    | inl _ => dmap d' = dmap d /\ is_Some (dmap d !! key)
    | inr e => dmap d !! key = None /\
        forall v, exists d2, store_val d' e v = Some d2 /\ dict_wf d2 /\ dmap d2 = <[key:=v]> (dmap d)
    end.
Proof.
  intros W Hb. rewrite <- dmap_size in Hb by done.
  destruct (dictAddRaw_spec junk b d key W Hb) as (d1 & r & -> & W1 & _ & Hr). exists d1, r.
  split_and!; [done|done|]. destruct r as [[e|]|e]; [|done|].
  - destruct Hr as (Hp & k & v & Hd & Hk). split; [by apply dmap_perm|].
    rewrite dmap_lookup, <- (lookup_perm d d1 key W Hp). eexists. by eapply deref_lookup.
  - destruct Hr as (Ha & Hd & Hp). rewrite plain_key in *. split; [rewrite dmap_lookup; by apply absent_assoc|].
    intros v. destruct (store_val_spec d1 e key junk v W1 Hd) as (d2 & rest & -> & W2 & He1 & He2 & _).
    exists d2. split_and!; [done|done|]. apply dmap_cons; [done|]. rewrite He2. f_equiv.
    apply (Permutation.Permutation_cons_inv (a := (key, junk))). by rewrite <- He1, Hp.
Qed.

Lemma dictAdd_map junk b d key val :
  dict_wf d -> Z.of_nat (size (dmap d)) + 1 < 2 ^ 60 ->
  exists d' st, dictAdd junk b d key val = Some (d', st) /\ dict_wf d' /\
    match dmap d !! key with
    | Some _ => st = DICT_ERR /\ dmap d' = dmap d
    | None => st = DICT_OK /\ dmap d' = <[key:=val]> (dmap d)
    end.
Proof.
  intros W Hb. rewrite <- dmap_size in Hb by done.
  destruct (dictAdd_spec junk b d key val W Hb) as (d' & st & -> & W' & Hr). exists d', st.
  split_and!; [done|done|]. rewrite dmap_lookup. destruct (lookup_ d key); destruct Hr as [-> Hp]; (split; [done|]).
  - by apply dmap_perm.
  - rewrite plain_key, plain_val in Hp. by apply dmap_cons.
Qed.

Lemma dictDelete_map d key :
  dict_wf d ->
  exists d' st freed, dictDelete d key = Some (d', st, freed) /\ dict_wf d' /\ dmap d' = delete key (dmap d) /\
    st = match dmap d !! key with Some _ => DICT_OK | None => DICT_ERR end.
Proof.
  intros W. unfold dictDelete.
  destruct (dictGenericDelete_spec d key false W) as (d' & r & freed & -> & W' & Hr). cbn [mbind option_bind].
  eexists d', _, freed. split; [done|]. split; [done|]. rewrite dmap_lookup. destruct r as [[k v]|].
  - destruct Hr as (Hk & Hl & Hp & _). apply plain_same in Hk as <-. rewrite Hl. split; [|done].
    rewrite (dmap_cons d' d key v W Hp), delete_insert_id; [done|].
    pose proof (entries_NoDup d W) as Hn. rewrite Hp in Hn. cbn in Hn. apply NoDup_cons in Hn as [Hn _].
    unfold dmap. by apply not_elem_of_list_to_map_1.
  - destruct Hr as (Hl & Hp & _). rewrite Hl. split; [|done]. rewrite (dmap_perm d d' W Hp), delete_id; [done|].
    by rewrite dmap_lookup.
Qed.

Lemma dictFind_map d key :
  dict_wf d ->
  exists d' r, dictFind d key = Some (d', r) /\ dict_wf d' /\ dmap d' = dmap d /\
    match r with
    | Some e => exists v, deref_entry d' e = Some (key, v) /\ dmap d !! key = Some v /\
        forall v', exists d2, store_val d' e v' = Some d2 /\ dict_wf d2 /\ dmap d2 = <[key:=v']> (dmap d)
    | None => dmap d !! key = None
    end.
Proof.
  intros W. destruct (dictFind_spec d key W) as (d' & r & -> & Hp & Hr). exists d', r.
  destruct (rehash_dmap d d' W Hp) as [W' E]. split_and!; [done|done|done|]. rewrite dmap_lookup.
  destruct r as [e|]; [|done]. destruct Hr as (k & v & Hd & Hk & Hl). apply plain_same in Hk as <-.
  exists v. split_and!; [done|done|]. intros v'.
  destruct (store_val_spec d' e key v v' W' Hd) as (d2 & rest & -> & W2 & He1 & He2 & _).
  exists d2. split_and!; [done|done|]. rewrite <- E. unfold dmap.
  rewrite (list_to_map_proper (entries d2) ((key, v') :: rest)) by (done || by apply entries_NoDup).
  rewrite (list_to_map_proper (entries d') ((key, v) :: rest)) by (done || by apply entries_NoDup).
  cbn [list_to_map foldr]. by rewrite insert_insert_eq.
Qed.

Lemma dictResize_map b d :
  dict_wf d -> exists d' st, dictResize b d = Some (d', st) /\ dict_wf d' /\ dmap d' = dmap d.
Proof.
  intros W. unfold dictResize. destruct (_ || _); [by exists d, DICT_ERR|].
  set (m := if _ <? _ then _ else _).
  assert (m <= 2 ^ 62) as Hm.
  { unfold m. pose proof (wraps_range 32 (used (ht0 d)) ltac:(lia)) as Hr. unfold in_s in Hr.
    destruct (_ <? _); [done|lia]. }
  destruct (dictExpand_spec d m W Hm) as (d' & st & -> & Hp & _). exists d', st.
  split; [done|]. by apply rehash_dmap.
Qed.

Lemma dictExpand_map d size : dict_wf d -> size <= 2 ^ 62 ->
  exists d' st, dictExpand d size = Some (d', st) /\ dict_wf d' /\ dmap d' = dmap d.
Proof.
  intros W Hs. destruct (dictExpand_spec d size W Hs) as (d' & st & -> & Hp & _). exists d', st.
  split; [done|]. by apply rehash_dmap.
Qed.
End dmap.
