(* ===== verification/Siphash.v ===== *)
(** * The hash function of the hash tables (siphash.c, dict.c)

    SipHash with one round per block and two at the end, as the code has it, and its variant
    that ignores the case of letters. The numbers of rounds are arguments of the common body,
    so that the body can be run on the test vectors of siphash.c, which are those of the variant with
    two and four rounds. The contents of a string are the list of its bytes; the
    result is read back from memory in the byte order of the host, as the code does where
    the processor is not known to be little endian. *)

From S2P Require Import Prelude Endian.

Definition siptlw (c : Z) : Z := if (c >=? 65) && (c <=? 90) then c + (97 - 65) else c.

Definition ROTL (x b : Z) : Z := wrapu 64 (Z.lor (wrapu 64 (Z.shiftl x b)) (Z.shiftr x (64 - b))).

Record sipstate := Sip { v0 : Z; v1 : Z; v2 : Z; v3 : Z }.

Definition SIPROUND (s : sipstate) : sipstate :=
  let 'Sip v0 v1 v2 v3 := s in
  let v0 := wrapu 64 (v0 + v1) in
  let v1 := ROTL v1 13 in
  let v1 := Z.lxor v1 v0 in
  let v0 := ROTL v0 32 in
  let v2 := wrapu 64 (v2 + v3) in
  let v3 := ROTL v3 16 in
  let v3 := Z.lxor v3 v2 in
  let v0 := wrapu 64 (v0 + v3) in
  let v3 := ROTL v3 21 in
  let v3 := Z.lxor v3 v0 in
  let v2 := wrapu 64 (v2 + v1) in
  let v1 := ROTL v1 17 in
  let v1 := Z.lxor v1 v2 in
  let v2 := ROTL v2 32 in
  Sip v0 v1 v2 v3.

(** [U8TO64_LE] of the first eight bytes, and with [siptlw] applied to each. *)
Definition U8TO64_LE (p : list Z) : Z := le_decode (take 8 p).
Definition U8TO64_LE_NOCASE (p : list Z) : Z := le_decode (siptlw <$> take 8 p).

(** [v3 ^= m; SIPROUND; v0 ^= m], with [c] rounds. *)
Definition absorb (c : nat) (m : Z) (s : sipstate) : sipstate :=
  let s := Nat.iter c SIPROUND (Sip (v0 s) (v1 s) (v2 s) (Z.lxor (v3 s) m)) in
  Sip (Z.lxor (v0 s) m) (v1 s) (v2 s) (v3 s).

(** The loop [for (; in != end; in += 8)]; returns what is left of the input. *)
Fixpoint sip_blocks (load : list Z -> Z) (c : nat) (inp : list Z) (s : sipstate) : sipstate * list Z :=
  match inp with
  | b0 :: b1 :: b2 :: b3 :: b4 :: b5 :: b6 :: b7 :: rest =>
      sip_blocks load c rest (absorb c (load inp) s)
  | _ => (s, inp)
  end.

(** The [switch (left)] with its fall-through, from the last byte to the first. *)
Definition sip_left (f : Z -> Z) (b : Z) (left_ : list Z) : Z :=
  foldr (fun ix b => Z.lor b (wrapu 64 (Z.shiftl (f ix.2) (8 * ix.1)))) b (zip (seqZ 0 (zlen left_)) left_).

(** The body of both functions with [c] rounds per block and [d] rounds at the end. *)
Definition sip_body (load : list Z -> Z) (f : Z -> Z) (c d : nat) (inp k : list Z) : Z :=
  let k0 := U8TO64_LE k in
  let k1 := U8TO64_LE (drop 8 k) in
  let b := wrapu 64 (Z.shiftl (zlen inp) 56) in
  let s := Sip (Z.lxor 0x736f6d6570736575 k0) (Z.lxor 0x646f72616e646f6d k1)
               (Z.lxor 0x6c7967656e657261 k0) (Z.lxor 0x7465646279746573 k1) in
  let '(s, left_) := sip_blocks load c inp s in
  let b := sip_left f b left_ in
  let s := absorb c b s in
  let s := Sip (v0 s) (v1 s) (Z.lxor (v2 s) 0xff) (v3 s) in
  let s := Nat.iter d SIPROUND s in
  Z.lxor (Z.lxor (Z.lxor (v0 s) (v1 s)) (v2 s)) (v3 s).

(** [U64TO8_LE(out, b); return hash]. *)
Definition siphash `{Host} (inp k : list Z) : Z :=
  host_uint (le_encode 8 (sip_body U8TO64_LE (fun x => x) 1 2 inp k)).
Definition siphash_nocase `{Host} (inp k : list Z) : Z :=
  host_uint (le_encode 8 (sip_body U8TO64_LE_NOCASE siptlw 1 2 inp k)).

(** For strings whose length fits an [int]. *)
Definition dictGenHashFunction `{Host} (seed key : list Z) : Z := siphash key seed.
Definition dictGenCaseHashFunction `{Host} (seed key : list Z) : Z := siphash_nocase key seed.

(** ** Properties *)

Lemma host_uint_range `{Host} bs : bytes_ok bs -> 0 <= host_uint bs < 2 ^ (8 * zlen bs).
Proof.
  intros Hbs. unfold host_uint. destruct big_endian; [|by apply le_decode_range].
  replace (zlen bs) with (zlen (reverse bs)) by (unfold zlen; by rewrite length_reverse).
  apply le_decode_range. by rewrite Forall_reverse.
Qed.

(** Every string has a hash of 64 bits. *)
Lemma siphash_range `{Host} inp k : in_u 64 (siphash inp k).
Proof.
  unfold siphash, in_u. pose proof (host_uint_range (le_encode 8 (sip_body U8TO64_LE (fun x => x) 1 2 inp k)) (le_encode_bytes _ _)) as Hr.
  rewrite zlen_le_encode in Hr. exact Hr.
Qed.

Lemma siptlw_idem c : siptlw (siptlw c) = siptlw c.
Proof.
  unfold siptlw. destruct ((c >=? 65) && (c <=? 90)) eqn:E; [|by rewrite E].
  zbool. rewrite (proj2 (Z.leb_gt (c + (97 - 65)) 90)) by lia. by rewrite andb_false_r.
Qed.

Lemma sip_blocks_nocase c : forall n inp s, (length inp < n)%nat ->
  sip_blocks U8TO64_LE c (siptlw <$> inp) s =
    let '(s, left_) := sip_blocks U8TO64_LE_NOCASE c inp s in (s, siptlw <$> left_).
Proof.
  induction n as [|n IH]; intros inp s Hn; [lia|].
  destruct inp as [|b0 [|b1 [|b2 [|b3 [|b4 [|b5 [|b6 [|b7 rest]]]]]]]]; try done.
  rewrite !fmap_cons. cbn [sip_blocks]. rewrite IH by (cbn in Hn; lia). done.
Qed.

(** The variant that ignores case is the hash of the string in lower case, so strings that differ in
    case only have the same hash. *)
Theorem siphash_nocase_lower `{Host} inp k : siphash_nocase inp k = siphash (siptlw <$> inp) k.
Proof.
  unfold siphash_nocase, siphash. do 2 f_equal. unfold sip_body.
  rewrite (sip_blocks_nocase 1 (S (length inp))) by lia.
  replace (zlen (siptlw <$> inp)) with (zlen inp) by (unfold zlen; by rewrite length_fmap).
  destruct (sip_blocks U8TO64_LE_NOCASE 1 inp _) as [s left_].
  assert (forall b, sip_left siptlw b left_ = sip_left (fun x => x) b (siptlw <$> left_)) as ->; [|done].
  intros b. unfold sip_left. replace (zlen (siptlw <$> left_)) with (zlen left_) by (unfold zlen; by rewrite length_fmap).
  generalize (seqZ 0 (zlen left_)) as is_. induction left_ as [|x left_ IH]; intros [|i is_]; try done.
  rewrite fmap_cons. cbn [zip zip_with foldr fst snd]. by rewrite IH.
Qed.

(** The first test vectors of siphash.c, for the body with two and four rounds. *)
Definition vectors_sip64 : list Z := [0x726fdb47dd0e0e31; 0x74f839c593dc67fd; 0x0d6c8009d9a94f5a; 0x85676696d7fb7e2d;
  0xcf2794e0277187b7; 0x18765564cd99a68d; 0xcbc9466e58fee3ce; 0xab0200f58b01d137; 0x93f5f5799a932462; 0x9e0082df0ba9e4b0].

Example siphash_test_vectors :
  (fun n => sip_body U8TO64_LE (fun x => x) 2 4 (seqZ 0 n) (seqZ 0 16)) <$> seqZ 0 10 = vectors_sip64.
Proof. vm_compute. reflexivity. Qed.

(** The last checks of [siphash_test], on "hello world" and "HELLO world". *)
Example siphash_test_nocase :
  let hello := [104; 101; 108; 108; 111; 32; 119; 111; 114; 108; 100] in
  let HELLO := [72; 69; 76; 76; 79; 32; 119; 111; 114; 108; 100] in
  let k := [49; 50; 51; 52; 53; 54; 55; 56; 49; 50; 51; 52; 53; 54; 55; 56] in
  @siphash false hello k = @siphash_nocase false HELLO k /\ @siphash false HELLO k <> @siphash_nocase false HELLO k.
Proof. vm_compute. split; [reflexivity|discriminate]. Qed.
