(* ===== verification/Sds.v ===== *)
(** * Comparison of dynamic strings (sdscmp of sds.c)

    The contents of an sds is the list of its bytes. [memcmp] returns the
    difference of the first bytes that differ, as the C library does. *)

From S2P Require Import Prelude.

Abbreviation sds := (list Z).

(** [memcmp(a, b, n)]. *)
Fixpoint memcmp (n : nat) (a b : sds) : Z :=
  match n, a, b with
  | S n, x :: a, y :: b => if x =? y then memcmp n a b else x - y
  | _, _, _ => 0
  end.

Definition sdscmp (s1 s2 : sds) : Z :=
  let l1 := zlen s1 in
  let l2 := zlen s2 in
  let minlen := if l1 <? l2 then l1 else l2 in
  let cmp := memcmp (Z.to_nat minlen) s1 s2 in
  if cmp =? 0 then (if l1 >? l2 then 1 else if l1 <? l2 then -1 else 0) else cmp.

(** ** The lexicographic order *)

Lemma sdscmp_nil_nil : sdscmp [] [] = 0.
Proof. reflexivity. Qed.

Lemma sdscmp_nil_cons y b : sdscmp [] (y :: b) = -1.
Proof.
  unfold sdscmp. rewrite (@zlen_nil Z), zlen_cons. pose proof (zlen_nonneg b).
  rewrite (proj2 (Z.ltb_lt _ _)) by lia. simpl. rewrite Z.gtb_ltb, (proj2 (Z.ltb_ge _ _)) by lia. done.
Qed.

Lemma sdscmp_cons_nil x a : sdscmp (x :: a) [] = 1.
Proof.
  unfold sdscmp. rewrite (@zlen_nil Z), zlen_cons. pose proof (zlen_nonneg a).
  rewrite (proj2 (Z.ltb_ge _ _)) by lia. simpl. rewrite Z.gtb_ltb, (proj2 (Z.ltb_lt _ _)) by lia. done.
Qed.

Lemma sdscmp_cons x a y b : sdscmp (x :: a) (y :: b) = if x =? y then sdscmp a b else x - y.
Proof.
  unfold sdscmp. rewrite !zlen_cons.
  pose proof (zlen_nonneg a). pose proof (zlen_nonneg b).
  replace (Z.to_nat (if zlen a + 1 <? zlen b + 1 then zlen a + 1 else zlen b + 1)) with
    (S (Z.to_nat (if zlen a <? zlen b then zlen a else zlen b))) by (zcmp; lia).
  cbn [memcmp]. destruct (Z.eqb_spec x y) as [->|Hne].
  - rewrite !Z.gtb_ltb. assert (forall u v, (u + 1 <? v + 1) = (u <? v)) as E by (intros u v; zcmp; lia).
    by rewrite !E.
  - by rewrite (proj2 (Z.eqb_neq _ _)) by lia.
Qed.

Lemma sdscmp_eq a : forall b, sdscmp a b = 0 <-> a = b.
Proof.
  induction a as [|x a IH]; intros [|y b].
  - done.
  - by rewrite sdscmp_nil_cons.
  - by rewrite sdscmp_cons_nil.
  - rewrite sdscmp_cons. destruct (Z.eqb_spec x y) as [->|Hne].
    + rewrite IH. naive_solver.
    + split; [lia|congruence].
Qed.

Lemma sdscmp_antisym a : forall b, sdscmp a b < 0 <-> 0 < sdscmp b a.
Proof.
  induction a as [|x a IH]; intros [|y b].
  - done.
  - rewrite sdscmp_nil_cons, sdscmp_cons_nil. lia.
  - rewrite sdscmp_nil_cons, sdscmp_cons_nil. lia.
  - rewrite !sdscmp_cons, (Z.eqb_sym y x). destruct (Z.eqb_spec x y); [apply IH|lia].
Qed.

Lemma sdscmp_trans a : forall b c, sdscmp a b < 0 -> sdscmp b c < 0 -> sdscmp a c < 0.
Proof.
  induction a as [|x a IH]; intros [|y b] [|z c];
    rewrite ?sdscmp_cons, ?sdscmp_nil_cons, ?sdscmp_cons_nil, ?sdscmp_nil_nil; try lia.
  destruct (Z.eqb_spec x y), (Z.eqb_spec y z), (Z.eqb_spec x z); subst; try done; try lia. apply IH.
Qed.

Lemma sdscmp_refl a : sdscmp a a = 0.
Proof. by apply sdscmp_eq. Qed.
