(* ===== verification/SdsArgs.v ===== *)
(** * Quoted strings and lines of arguments (sdscatrepr and sdssplitargs of sds.c)

    [sdscatrepr] prints a string between double quotes, with escapes; [sdssplitargs] splits a
    line into arguments, with double and single quotes. A pointer into the line, which a
    zero byte ends, is the list of the bytes that follow. *)

From S2P Require Import Prelude Sds.

(** The character classes of the C library in the C locale. *)
Definition isprint (c : Z) : bool := (32 <=? c) && (c <=? 126).
Definition isspace (c : Z) : bool := ((9 <=? c) && (c <=? 13)) || (c =? 32).

(** ["%02x"] of an unsigned char. *)
Definition hex_char (d : Z) : Z := if d <? 10 then 48 + d else 87 + d.
Definition hex2 (b : Z) : sds := [hex_char (b / 16); hex_char (b mod 16)].

(** One iteration of the loop of [sdscatrepr]. *)
Definition repr_char (c : Z) : sds :=
  if (c =? 92) || (c =? 34) then [92; c]
  else if c =? 10 then [92; 110]
  else if c =? 13 then [92; 114]
  else if c =? 9 then [92; 116]
  else if c =? 7 then [92; 97]
  else if c =? 8 then [92; 98]
  else if isprint c then [c]
  else 92 :: 120 :: hex2 c.

Definition sdscatrepr (s p : sds) : sds := ((s ++ [34]) ++ concat (repr_char <$> p)) ++ [34].

Definition is_hex_digit (c : Z) : bool :=
  ((48 <=? c) && (c <=? 57)) || ((97 <=? c) && (c <=? 102)) || ((65 <=? c) && (c <=? 70)).

Definition hex_digit_to_int (c : Z) : Z :=
  if (48 <=? c) && (c <=? 57) then c - 48
  else if (97 <=? c) && (c <=? 102) then c - 87
  else if (65 <=? c) && (c <=? 70) then c - 55
  else 0.

(** [*p], and [*(p+1)] where [*p] is not the end. *)
Definition chr (p : sds) : Z := if p is c :: _ then c else 0.

(** The [switch] for escapes in double quotes. *)
Definition escape (c : Z) : Z :=
  if c =? 110 then 10
  else if c =? 114 then 13
  else if c =? 116 then 9
  else if c =? 98 then 8
  else if c =? 97 then 7
  else c.

(** The body of the [while(!done)] loop up to [if ( *p) p++]: [None] is [goto err], otherwise
    [done], the two flags, [p] and [current]. *)
Definition split_step (inq insq : bool) (p current : sds) : option (bool * bool * bool * sds * sds) :=
  let c := chr p in
  let c1 := chr (tail p) in
  if inq then
    if (c =? 92) && (c1 =? 120) && is_hex_digit (chr (drop 2 p)) && is_hex_digit (chr (drop 3 p)) then
      let byte := wrapu 8 (hex_digit_to_int (chr (drop 2 p)) * 16 + hex_digit_to_int (chr (drop 3 p))) in
      Some (false, inq, insq, drop 3 p, current ++ [byte])
    else if (c =? 92) && negb (c1 =? 0) then
      let p := tail p in
      Some (false, inq, insq, p, current ++ [escape (chr p)])
    else if c =? 34 then
      if negb (c1 =? 0) && negb (isspace c1) then None else Some (true, inq, insq, p, current)
    else if c =? 0 then None
    else Some (false, inq, insq, p, current ++ [c])
  else if insq then
    if (c =? 92) && (c1 =? 39) then Some (false, inq, insq, tail p, current ++ [39])
    else if c =? 39 then
      if negb (c1 =? 0) && negb (isspace c1) then None else Some (true, inq, insq, p, current)
    else if c =? 0 then None
    else Some (false, inq, insq, p, current ++ [c])
  else
    if (c =? 32) || (c =? 10) || (c =? 13) || (c =? 9) || (c =? 0) then Some (true, inq, insq, p, current)
    else if c =? 34 then Some (false, true, insq, p, current)
    else if c =? 39 then Some (false, inq, true, p, current)
    else Some (false, inq, insq, p, current ++ [c]).

(** [if ( *p) p++]. *)
Definition advance (p : sds) : sds := if chr p =? 0 then p else tail p.

(** A token: [Some None] is [goto err], otherwise the token and the rest of the line. One
    unit of fuel per iteration; every iteration that is not the last one advances. *)
Fixpoint split_token (fuel : nat) (inq insq : bool) (p current : sds) : option (option (sds * sds)) :=
  match fuel with
  | O => None
  | S fuel =>
      match split_step inq insq p current with
      | None => Some None
      | Some (done, inq, insq, p, current) =>
          let p := advance p in
          if done : bool then Some (Some (current, p)) else split_token fuel inq insq p current
      end
  end.

Fixpoint skip_blanks (p : sds) : sds :=
  match p with
  | c :: p' => if negb (c =? 0) && isspace c then skip_blanks p' else p
  | [] => []
  end.

(** The outer loop. *)
Fixpoint split_loop (fuel : nat) (p : sds) (vector : list sds) : option (option (list sds)) :=
  let p := skip_blanks p in
  if negb (chr p =? 0) then
    match fuel with
    | O => None
    | S fuel =>
        r ← split_token (S (length p)) false false p [];
        match r with
        | None => Some None
        | Some (current, p) => split_loop fuel p (vector ++ [current])
        end
    end
  else Some (Some vector).

(** [Some None] is the return value NULL. *)
Definition sdssplitargs (line : sds) : option (option (list sds)) := split_loop (length line) line [].

(** [set "a b" '' x\x41] and an unbalanced quote. *)
Example splitargs_small :
  sdssplitargs [115; 101; 116; 32; 34; 97; 32; 92; 120; 52; 49; 34; 32; 39; 39; 32; 120]
    = Some (Some [[115; 101; 116]; [97; 32; 65]; []; [120]]) /\
  sdssplitargs [34; 97] = Some None.
Proof. split; reflexivity. Qed.

(** ** Termination *)

Lemma chr_cons p : chr p <> 0 -> exists p', p = chr p :: p'.
Proof. destruct p as [|c p]; [done|]. by exists p. Qed.

Lemma chr_hex p : is_hex_digit (chr p) = true -> chr p <> 0.
Proof. intros H E. by rewrite E in H. Qed.

(** A step stays in the line, and does not stop at its end unless the token is done. *)
Lemma split_step_shrinks inq insq p current d inq' insq' p' current' :
  split_step inq insq p current = Some (d, inq', insq', p', current') ->
  (length p' <= length p)%nat /\ (d = false -> chr p' <> 0).
Proof.
  unfold split_step. intros H.
  repeat match type of H with
  | context [if ?b then _ else _] => destruct b eqn:?; try discriminate H
  end; zbool; simplify_eq; (split; [rewrite ?length_drop; try match goal with |- context [tail ?q] => destruct q end; cbn; lia|]);
    intros; try done; try (by apply chr_hex); repeat match goal with H : (_ || _) = false |- _ => apply orb_false_iff in H as [? H] end;
    zbool; lia.
Qed.

Lemma advance_shrinks p : chr p <> 0 -> (length (advance p) < length p)%nat.
Proof.
  intros Hp. unfold advance. rewrite (proj2 (Z.eqb_neq _ _)) by done.
  destruct (chr_cons p Hp) as [p' ->]. cbn. lia.
Qed.

Lemma advance_le p : (length (advance p) <= length p)%nat.
Proof. unfold advance. destruct (chr p =? 0); [lia|]. destruct p; cbn; lia. Qed.

Lemma split_token_total fuel : forall inq insq p current,
  (length p < fuel)%nat ->
  exists r, split_token fuel inq insq p current = Some r /\
    match r with Some (_, p') => (length p' <= length p)%nat | None => True end.
Proof.
  induction fuel as [|fuel IH]; intros inq insq p current Hf; [lia|]. cbn [split_token].
  destruct (split_step inq insq p current) as [[[[[d inq'] insq'] p'] current']|] eqn:E; [|by eexists].
  apply split_step_shrinks in E as [Hle Hd]. pose proof (advance_le p'). destruct d.
  - eexists. split; [done|]. cbn. lia.
  - pose proof (advance_shrinks p' (Hd eq_refl)).
    destruct (IH inq' insq' (advance p') current') as (r & -> & Hr); [lia|]. exists r. split; [done|].
    destruct r as [[cur q]|]; [|done]. lia.
Qed.

Lemma skip_blanks_spec p :
  (length (skip_blanks p) <= length p)%nat /\ (chr (skip_blanks p) <> 0 -> isspace (chr (skip_blanks p)) = false).
Proof.
  induction p as [|c p IH]; cbn [skip_blanks]; [done|].
  destruct (negb (c =? 0) && isspace c) eqn:E; cbn [length chr].
  - split; [lia|tauto].
  - split; [lia|]. intros Hc. rewrite (proj2 (Z.eqb_neq _ _)) in E by done. done.
Qed.

(** A token that does not start with a blank takes at least one byte. *)
Lemma token_consumes p : chr p <> 0 -> isspace (chr p) = false ->
  exists r, split_token (S (length p)) false false p [] = Some r /\
    match r with Some (_, p') => (length p' < length p)%nat | None => True end.
Proof.
  intros Hc Hs. cbn [split_token].
  destruct (split_step false false p []) as [[[[[d inq'] insq'] p'] current']|] eqn:E; [|by eexists].
  assert (d = false) as ->.
  { unfold split_step in E. unfold isspace in Hs. destruct d; [|done].
    repeat match type of E with context [if ?b then _ else _] => destruct b eqn:?; try discriminate E end.
    zbool. repeat match goal with H : (_ || _) = true |- _ => apply orb_true_iff in H as [H|H] end; zbool; try lia;
      match goal with H : chr p = ?k |- _ => rewrite H in *; done end. }
  pose proof (split_step_shrinks _ _ _ _ _ _ _ _ _ E) as [Hle Hd].
  pose proof (advance_shrinks p' (Hd eq_refl)).
  destruct (split_token_total (length p) inq' insq' (advance p') current') as (r & -> & Hr); [lia|].
  exists r. split; [done|]. destruct r as [[cur q]|]; [|done]. lia.
Qed.

Lemma split_loop_total fuel : forall p vector, (length p <= fuel)%nat -> is_Some (split_loop fuel p vector).
Proof.
  induction fuel as [|fuel IH]; intros p vector Hf; cbn [split_loop];
    pose proof (skip_blanks_spec p) as [Hle Hs]; (destruct (Z.eqb_spec (chr (skip_blanks p)) 0) as [|Hne]; [by eexists|]).
  - destruct (chr_cons _ Hne) as [p' E]. rewrite E in Hle. cbn in Hle. lia.
  - cbn [negb]. destruct (token_consumes _ Hne (Hs Hne)) as ([[cur q]|] & -> & Hr); cbn [mbind option_bind]; [|by eexists].
    apply IH. lia.
Qed.

(** ** Parsing what was printed *)

Lemma hex_check (P : Z -> bool) d : forallb P (seqZ 0 16) = true -> 0 <= d < 16 -> P d = true.
Proof.
  intros HP Hd. rewrite forallb_forall in HP. apply HP, list_elem_of_In, elem_of_seqZ. lia.
Qed.

Lemma hex_char_spec d : 0 <= d < 16 ->
  is_hex_digit (hex_char d) = true /\ hex_digit_to_int (hex_char d) = d.
Proof.
  intros Hd. pose proof (hex_check (fun d => is_hex_digit (hex_char d) && (hex_digit_to_int (hex_char d) =? d)) d
    eq_refl Hd) as H. cbn beta in H. zbool. done.
Qed.

(** One printed character is parsed back. *)
Lemma step_repr c t current :
  byte_ok c ->
  exists p', split_step true false (repr_char c ++ t) current = Some (false, true, false, p', current ++ [c]) /\
    advance p' = t.
Proof.
  intros Hc. unfold repr_char.
  destruct ((c =? 92) || (c =? 34)) eqn:E.
  { apply orb_true_iff in E as [E|E]; zbool; subst c; by eexists. }
  zbool. repeat (match goal with |- context [if c =? ?k then _ else _] => destruct (Z.eqb_spec c k) as [->|] end; [by eexists|]).
  destruct (isprint c) eqn:Ep.
  - unfold isprint in Ep. zbool. eexists. split.
    + unfold split_step. cbn [app chr tail].
      rewrite !(proj2 (Z.eqb_neq c _)) by lia. done.
    + unfold advance. cbn [chr]. by rewrite (proj2 (Z.eqb_neq c _)) by lia.
  - unfold byte_ok in Hc.
    destruct (hex_char_spec (c / 16)) as [H1 H2]; [split; [apply Z.div_pos|apply Z.div_lt_upper_bound]; lia|].
    destruct (hex_char_spec (c mod 16)) as [H3 H4]; [apply Z.mod_pos_bound; lia|].
    eexists. split.
    + unfold split_step, hex2. cbn [app chr tail drop]. rewrite H1, H2, H3, H4. cbn [Z.eqb Pos.eqb andb].
      rewrite wrapu_small by (unfold in_u; pose proof (Z.div_mod c 16); lia).
      replace (c / 16 * 16 + c mod 16) with c by (pose proof (Z.div_mod c 16); lia). reflexivity.
    + unfold advance. cbn [chr]. rewrite (proj2 (Z.eqb_neq _ 0)); [done|]. by apply (chr_hex [_]).
Qed.

(** What may follow a closing quote. *)
Definition ends_token (t : sds) : Prop := chr t = 0 \/ isspace (chr t) = true.

Lemma token_repr x : forall fuel t current,
  bytes_ok x -> ends_token t -> (length x < fuel)%nat ->
  split_token fuel true false (concat (repr_char <$> x) ++ 34 :: t) current = Some (Some (current ++ x, t)).
Proof.
  induction x as [|c x IH]; intros fuel t current Hx Ht Hf; (destruct fuel as [|fuel]; [cbn in Hf; lia|]);
    cbn [split_token fmap list_fmap concat].
  - unfold split_step. cbn [app chr tail Z.eqb Pos.eqb andb]. rewrite app_nil_r.
    assert (negb (chr t =? 0) && negb (isspace (chr t)) = false) as ->; [|done].
    destruct Ht as [-> | ->]; [done|apply andb_false_r].
  - apply Forall_cons in Hx as [Hc Hx]. cbn [length] in Hf. rewrite <- app_assoc.
    destruct (step_repr c (concat (repr_char <$> x) ++ 34 :: t) current Hc) as (p' & -> & ->).
    rewrite IH by (done || lia). by rewrite <- app_assoc.
Qed.

Lemma repr_length x : (length x <= length (concat (repr_char <$> x)))%nat.
Proof.
  induction x as [|c x IH]; [done|]. cbn [fmap list_fmap concat length]. rewrite length_app.
  enough (1 <= length (repr_char c))%nat by lia.
  unfold repr_char. repeat match goal with |- context [if ?b then _ else _] => destruct b end; cbn; lia.
Qed.

(** The quoted strings, separated by spaces. *)
Fixpoint quoted_line (xs : list sds) : sds :=
  match xs with
  | [] => []
  | [x] => sdscatrepr [] x
  | x :: xs => sdscatrepr [] x ++ 32 :: quoted_line xs
  end.

Lemma split_quoted x t fuel vector :
  bytes_ok x -> ends_token t -> (1 <= fuel)%nat ->
  split_loop fuel (sdscatrepr [] x ++ t) vector = split_loop (fuel - 1) t (vector ++ [x]).
Proof.
  intros Hx Ht Hf. destruct fuel as [|fuel]; [lia|].
  assert (sdscatrepr [] x ++ t = 34 :: concat (repr_char <$> x) ++ 34 :: t) as E
    by (unfold sdscatrepr; rewrite <- !app_assoc; done).
  rewrite E. set (l := concat (repr_char <$> x) ++ 34 :: t).
  cbn [split_loop]. change (skip_blanks (34 :: l)) with (34 :: l). cbn [chr Z.eqb negb].
  change (split_token (S (length (34 :: l))) false false (34 :: l) []) with
    (split_token (S (length l)) true false l []).
  unfold l. rewrite token_repr; [|done|done|rewrite length_app; pose proof (repr_length x); cbn; lia].
  cbn [mbind option_bind app]. by replace (S fuel - 1)%nat with fuel by lia.
Qed.

Lemma split_quoted_line xs : forall fuel vector,
  Forall bytes_ok xs -> (length xs <= fuel)%nat ->
  split_loop fuel (quoted_line xs) vector = Some (Some (vector ++ xs)).
Proof.
  induction xs as [|x xs IH]; intros fuel vector Hxs Hf.
  - rewrite app_nil_r. by destruct fuel.
  - apply Forall_cons in Hxs as [Hx Hxs]. cbn [length] in Hf. destruct xs as [|y xs].
    + cbn [quoted_line]. rewrite <- (app_nil_r (sdscatrepr [] x)), split_quoted; [|done|by left|lia].
      by destruct (fuel - 1)%nat.
    + change (quoted_line (x :: y :: xs)) with (sdscatrepr [] x ++ 32 :: quoted_line (y :: xs)).
      rewrite split_quoted; [|done|by right|lia]. cbn [length] in Hf.
      assert (forall n v, split_loop n (32 :: quoted_line (y :: xs)) v = split_loop n (quoted_line (y :: xs)) v) as ->
        by (by intros [|n] v).
      rewrite IH by (done || cbn; lia). by rewrite <- app_assoc.
Qed.

Lemma quoted_line_length xs : (length xs <= length (quoted_line xs))%nat.
Proof.
  induction xs as [|x xs IH]; [done|]. destruct xs as [|y xs].
  - cbn [quoted_line]. unfold sdscatrepr. rewrite !length_app. cbn. lia.
  - change (quoted_line (x :: y :: xs)) with (sdscatrepr [] x ++ 32 :: quoted_line (y :: xs)).
    rewrite length_app. cbn [length] in *. unfold sdscatrepr. rewrite !length_app. cbn [length]. lia.
Qed.

(** ** Properties *)

(** C39 [sdssplitargs] parses what [sdscatrepr] prints: every list of strings of arbitrary
    bytes, printed with quotes and escapes and separated by spaces, is read back as the
    same list; and on every other line [sdssplitargs] ends, with a list of arguments or with
    the error for unbalanced quotes. *)
Theorem sdssplitargs_sdscatrepr (xs : list sds) (line : sds) :
  Forall bytes_ok xs ->
  sdssplitargs (quoted_line xs) = Some (Some xs) /\ is_Some (sdssplitargs line).
Proof.
  intros Hxs. split.
  - apply (split_quoted_line xs _ []); [done|apply quoted_line_length].
  - by apply split_loop_total.
Qed.

Lemma sdssplitargs_sdscatrepr_witness :
  sdssplitargs (quoted_line [[103; 101; 116]; [0; 34; 92; 255]; []]) = Some (Some [[103; 101; 116]; [0; 34; 92; 255]; []]) /\
  is_Some (sdssplitargs [39; 97; 39; 98]).
Proof.
  apply (sdssplitargs_sdscatrepr [[103; 101; 116]; [0; 34; 92; 255]; []] [39; 97; 39; 98]).
  repeat constructor; unfold byte_ok; lia.
Defined.
