(* ===== verification/SdsNum.v ===== *)
(** * Numbers as dynamic strings (sdsll2str, sdsull2str, sdsfromlonglong of sds.c)

    The digits are written from the last to the first into a local buffer and then reversed in
    place. The negation of [LLONG_MIN] overflows a [long long] and is undefined. *)

From S2P Require Import Prelude Util Sds.

(** [do { *p++ = '0'+(v%10); v /= 10; } while(v)], the bytes that are written; 20 digits are enough. *)
Fixpoint put_digits (fuel : nat) (v : Z) : option (list Z) :=
  match fuel with
  | O => None
  | S fuel => if v / 10 =? 0 then Some [48 + v mod 10] else ds ← put_digits fuel (v / 10); Some (48 + v mod 10 :: ds)
  end.

(** [while(s < p) { aux = *s; *s = *p; *p = aux; s++; p--; }] on the indexes [i] and [j]. *)
Fixpoint reverse_loop (fuel : nat) (buf : list Z) (i j : Z) : option (list Z) :=
  if i <? j then
    match fuel with
    | O => None
    | S fuel =>
        aux ← zidx buf i;
        y ← zidx buf j;
        reverse_loop fuel (<[Z.to_nat j := aux]> (<[Z.to_nat i := y]> buf)) (i + 1) (j - 1)
    end
  else Some buf.

(** The string that is left in the buffer of [SDS_LLSTR_SIZE] bytes. *)
Definition SDS_LLSTR_SIZE : Z := 21.

Definition sdsll2str (value : Z) : option (list Z) :=
  v ← (if value <? 0 then if value =? LLONG_MIN then None else Some (- value) else Some value);
  ds ← put_digits 20 v;
  let buf := if value <? 0 then ds ++ [45] else ds in
  if zlen buf <? SDS_LLSTR_SIZE then reverse_loop (length buf) buf 0 (zlen buf - 1) else None.

Definition sdsull2str (v : Z) : option (list Z) :=
  buf ← put_digits 20 v;
  if zlen buf <? SDS_LLSTR_SIZE then reverse_loop (length buf) buf 0 (zlen buf - 1) else None.

Definition sdsfromlonglong (value : Z) : option sds := sdsll2str value.

(** ** Correctness *)

Lemma put_digits_spec fuel : forall v, 0 <= v < 10 ^ Z.of_nat fuel -> (0 < fuel)%nat ->
  put_digits fuel v = Some (reverse (dec fuel v)).
Proof.
  induction fuel as [|fuel IH]; intros v Hv Hf; [lia|]. cbn [put_digits dec].
  assert ((v / 10 =? 0) = (v <? 10)) as ->.
  { destruct (Z.ltb_spec v 10); [apply Z.eqb_eq, Z.div_small; lia|].
    apply Z.eqb_neq. pose proof (Z.div_le_mono 10 v 10 ltac:(lia) ltac:(lia)). change (10 / 10) with 1 in *. lia. }
  destruct (Z.ltb_spec v 10) as [|Hge]; [by rewrite Z.mod_small by lia|].
  destruct fuel as [|fuel]; [cbn in Hv; lia|]. rewrite IH; [|split|lia].
  - cbn [mbind option_bind]. by rewrite reverse_snoc.
  - apply Z.div_pos; lia.
  - rewrite pow10_succ in Hv. apply Z.div_lt_upper_bound; lia.
Qed.

Lemma reverse_loop_spec n : forall fuel a m b,
  length m = n -> (length m <= fuel)%nat ->
  reverse_loop fuel (a ++ m ++ b) (zlen a) (zlen a + zlen m - 1) = Some (a ++ reverse m ++ b).
Proof.
  induction n as [n IH] using lt_wf_ind. intros fuel a m b Hn Hf.
  destruct m as [|x m].
  { rewrite reverse_nil. destruct fuel; cbn [reverse_loop]; rewrite (proj2 (Z.ltb_ge _ _)) by zl; done. }
  destruct m as [|y m] using rev_ind.
  { rewrite reverse_singleton. destruct fuel; cbn [reverse_loop]; rewrite (proj2 (Z.ltb_ge _ _)) by zl; done. }
  destruct fuel as [|fuel]; [cbn in Hf; lia|]. clear IHm.
  cbn [length] in Hn, Hf. rewrite length_app in Hn, Hf. cbn [length] in Hn, Hf.
  cbn [reverse_loop]. rewrite zlen_cons, zlen_app, zlen_cons, zlen_nil. pose proof (zlen_nonneg m).
  rewrite (proj2 (Z.ltb_lt _ _)) by lia. cbn [app]. rewrite (zidx_app a x _ (zlen a) eq_refl). cbn [mbind option_bind].
  replace (a ++ x :: (m ++ [y]) ++ b) with ((a ++ x :: m) ++ y :: b) by (by rewrite <- !app_assoc).
  rewrite (zidx_app (a ++ x :: m)) by zl. cbn [mbind option_bind].
  assert (<[Z.to_nat (zlen a + (zlen m + (0 + 1) + 1) - 1):=x]> (<[Z.to_nat (zlen a):=y]> ((a ++ x :: m) ++ y :: b))
    = (a ++ [y]) ++ m ++ x :: b) as ->.
  { rewrite <- app_assoc. rewrite insert_app_r_alt by (unfold zlen; lia).
    replace (Z.to_nat (zlen a) - length a)%nat with O by (unfold zlen; lia).
    change (<[0%nat:=y]> ((x :: m) ++ y :: b)) with (y :: m ++ y :: b).
    rewrite insert_app_r_alt by (unfold zlen; lia).
    replace (Z.to_nat (zlen a + (zlen m + (0 + 1) + 1) - 1) - length a)%nat with (S (length m)) by (unfold zlen; lia).
    change (<[S (length m):=x]> (y :: m ++ y :: b)) with (y :: <[length m:=x]> (m ++ y :: b)).
    rewrite insert_app_r_alt by lia. rewrite Nat.sub_diag. cbn [insert list_insert].
    by rewrite <- app_assoc. }
  replace (zlen a + 1) with (zlen (a ++ [y])) by zl.
  replace (zlen a + (zlen m + (0 + 1) + 1) - 1 - 1) with (zlen (a ++ [y]) + zlen m - 1) by zl.
  rewrite (IH (length m)) by lia. f_equal. rewrite reverse_cons, reverse_snoc. cbn [app]. by rewrite <- !app_assoc.
Qed.

Lemma reverse_whole buf : reverse_loop (length buf) buf 0 (zlen buf - 1) = Some (reverse buf).
Proof.
  pose proof (reverse_loop_spec (length buf) (length buf) [] buf [] eq_refl ltac:(lia)) as E.
  by rewrite !app_nil_r in E.
Qed.

(** [sdsfromlonglong] writes the decimal representation of every [long long] but [LLONG_MIN]. *)
Theorem sdsfromlonglong_correct v : in_s 64 v -> v <> LLONG_MIN -> sdsfromlonglong v = Some (sdec v).
Proof.
  intros Hv Hne. pose proof (zlen_sdec_20 v Hv) as Hlen. unfold sdsfromlonglong, sdsll2str.
  unfold in_s, LLONG_MIN in *. unfold sdec, udec in *. unfold SDS_LLSTR_SIZE.
  destruct (Z.ltb_spec v 0).
  - rewrite (proj2 (Z.eqb_neq _ _)) by done. cbn [mbind option_bind]. rewrite put_digits_spec by lia. cbn [mbind option_bind].
    assert (reverse (dec 20 (- v)) ++ [45] = reverse (45 :: dec 20 (- v))) as -> by by rewrite reverse_cons.
    assert (zlen (reverse (45 :: dec 20 (- v))) = zlen (45 :: dec 20 (- v))) as E by (unfold zlen; by rewrite length_reverse).
    rewrite (proj2 (Z.ltb_lt _ _)) by lia. by rewrite reverse_whole, reverse_involutive.
  - cbn [mbind option_bind]. rewrite put_digits_spec by lia. cbn [mbind option_bind].
    assert (zlen (reverse (dec 20 v)) = zlen (dec 20 v)) as E by (unfold zlen; by rewrite length_reverse).
    rewrite (proj2 (Z.ltb_lt _ _)) by lia. by rewrite reverse_whole, reverse_involutive.
Qed.

(** The negation of the smallest number is undefined. *)
Theorem sdsfromlonglong_min : sdsfromlonglong LLONG_MIN = None.
Proof. reflexivity. Qed.
