(* ===== verification/SdsBuf.v ===== *)
(** * Dynamic strings in memory (sds.c, sds.h)

    A string is a block with a header of one of five sizes, the bytes, a terminator and the
    free space. [sds_t] is a pointer into such a block: the block and the offset of the first
    byte of the string. The four structs [sdshdr8] to [sdshdr64] differ only in the
    width of their two counters, so the cases of the switches over the type are written once
    for a width. Addresses of other strings are the lists of their bytes. *)

From S2P Require Import Prelude Endian Util.

Definition SDS_MAX_PREALLOC : Z := 1024 * 1024.

Definition SDS_TYPE_5 : Z := 0.
Definition SDS_TYPE_8 : Z := 1.
Definition SDS_TYPE_16 : Z := 2.
Definition SDS_TYPE_32 : Z := 3.
Definition SDS_TYPE_64 : Z := 4.
Definition SDS_TYPE_MASK : Z := 7.
Definition SDS_TYPE_BITS : Z := 3.

Definition SDS_TYPE_5_LEN (f : Z) : Z := Z.shiftr f SDS_TYPE_BITS.

Record sds_t := SDS { blk : list Z; off : Z }.

(** [switch(flags&SDS_TYPE_MASK)]: the case of [SDS_TYPE_5], the others by the width of
    their counters, and what follows the switch. *)
Definition by_type {A} (flags : Z) (t5 : A) (tw : nat -> A) (after : A) : A :=
  let type := Z.land flags SDS_TYPE_MASK in
  if type =? SDS_TYPE_5 then t5
  else if type =? SDS_TYPE_8 then tw 1%nat
  else if type =? SDS_TYPE_16 then tw 2%nat
  else if type =? SDS_TYPE_32 then tw 4%nat
  else if type =? SDS_TYPE_64 then tw 8%nat
  else after.

Definition sdsHdrSize (type : Z) : Z := by_type type 1 (fun w => 2 * Z.of_nat w + 1) 0.

Definition sdsReqType (string_size : Z) : Z :=
  if string_size <? Z.shiftl 1 5 then SDS_TYPE_5
  else if string_size <? Z.shiftl 1 8 then SDS_TYPE_8
  else if string_size <? Z.shiftl 1 16 then SDS_TYPE_16
  else if string_size <? Z.shiftl 1 32 then SDS_TYPE_32
  else SDS_TYPE_64.

Section ops.
Context `{Host}.
Variable junk : nat -> Z.

(** [s[i]], and [s[i] = b]; [s[-1]] is the byte of the flags. *)
Definition at_ (s : sds_t) (i : Z) : option Z := zidx (blk s) (off s + i).
Definition put (s : sds_t) (i : Z) (bs : list Z) : option sds_t :=
  b ← wr (blk s) (off s + i) bs; Some (SDS b (off s)).

(** The fields [len] and [alloc] of the struct with counters of [w] bytes. *)
Definition hdr_len (w : nat) : Z := - (2 * Z.of_nat w + 1).
Definition hdr_alloc (w : nat) : Z := - (Z.of_nat w + 1).
Definition get_field (s : sds_t) (i : Z) (w : nat) : option Z :=
  host_uint <$> rd (blk s) (off s + i) (Z.of_nat w).
Definition set_field (s : sds_t) (i : Z) (w : nat) (v : Z) : option sds_t := put s i (host_bytes w v).

Definition sdslen (s : sds_t) : option Z :=
  flags ← at_ s (-1);
  by_type flags (Some (SDS_TYPE_5_LEN flags)) (fun w => get_field s (hdr_len w) w) (Some 0).

Definition sdsavail (s : sds_t) : option Z :=
  flags ← at_ s (-1);
  by_type flags (Some 0)
    (fun w => alloc ← get_field s (hdr_alloc w) w;
              len ← get_field s (hdr_len w) w;
              Some (wrapu 64 (alloc - len))) (Some 0).

Definition sdssetlen (s : sds_t) (newlen : Z) : option sds_t :=
  flags ← at_ s (-1);
  by_type flags
    (put s (-1) [wrapu 8 (Z.lor SDS_TYPE_5 (Z.shiftl newlen SDS_TYPE_BITS))])
    (fun w => set_field s (hdr_len w) w newlen) (Some s).

Definition sdsinclen (s : sds_t) (inc : Z) : option sds_t :=
  flags ← at_ s (-1);
  by_type flags
    (let newlen := wrapu 8 (SDS_TYPE_5_LEN flags + inc) in
     put s (-1) [wrapu 8 (Z.lor SDS_TYPE_5 (Z.shiftl newlen SDS_TYPE_BITS))])
    (fun w => len ← get_field s (hdr_len w) w; set_field s (hdr_len w) w (len + inc)) (Some s).

Definition sdsalloc (s : sds_t) : option Z :=
  flags ← at_ s (-1);
  by_type flags (Some (SDS_TYPE_5_LEN flags)) (fun w => get_field s (hdr_alloc w) w) (Some 0).

Definition sdssetalloc (s : sds_t) (newlen : Z) : option sds_t :=
  flags ← at_ s (-1);
  by_type flags (Some s) (fun w => set_field s (hdr_alloc w) w newlen) (Some s).

(** [s_malloc(size)] and [s_realloc(sh, size)], which do not return NULL. *)
Definition s_malloc (size : Z) : list Z := realloc junk [] size.

(** What [init] points to: nothing that is read ([SDS_NOINIT]), zeros (NULL), or bytes. *)
Inductive sds_init := NOINIT (len : Z) | ZEROS (len : Z) | BYTES (bs : list Z).

Definition init_len (init : sds_init) : Z :=
  match init with NOINIT n => n | ZEROS n => n | BYTES bs => zlen bs end.

Definition sdsnewlen (init : sds_init) : option sds_t :=
  let initlen := init_len init in
  let type := sdsReqType initlen in
  let type := if (type =? SDS_TYPE_5) && (initlen =? 0) then SDS_TYPE_8 else type in
  let hdrlen := sdsHdrSize type in
  let size := wrapu 64 (hdrlen + initlen + 1) in
  let sh := s_malloc size in
  let sh := if init is ZEROS _ then replicate (Z.to_nat size) 0 else sh in
  let s := SDS sh hdrlen in
  s ← by_type type
        (put s (-1) [wrapu 8 (Z.lor type (Z.shiftl initlen SDS_TYPE_BITS))])
        (fun w => s ← set_field s (hdr_len w) w initlen;
                  s ← set_field s (hdr_alloc w) w initlen;
                  put s (-1) [type]) (Some s);
  s ← (if init is BYTES bs then if negb (initlen =? 0) then put s 0 bs else Some s else Some s);
  put s initlen [0].

Definition sdsempty : option sds_t := sdsnewlen (BYTES []).

(** The bytes of another string, read through its pointer. *)
Definition sds_bytes (s : sds_t) (n : Z) : option (list Z) := rd (blk s) (off s) n.

Definition sdsdup (s : sds_t) : option sds_t :=
  len ← sdslen s;
  bs ← sds_bytes s len;
  sdsnewlen (BYTES bs).

(** [strlen(s)]: the bytes before the first zero. *)
Fixpoint strlen (p : list Z) : option Z :=
  match p with
  | [] => None
  | c :: p => if c =? 0 then Some 0 else Z.add 1 <$> strlen p
  end.

Definition sdsupdatelen (s : sds_t) : option sds_t :=
  reallen ← strlen (drop (Z.to_nat (off s)) (blk s));
  sdssetlen s reallen.

Definition sdsclear (s : sds_t) : option sds_t :=
  s ← sdssetlen s 0;
  put s 0 [0].

(** A new block with another header: the [len+1] bytes of the string are copied. *)
Definition sds_move (s : sds_t) (type hdrlen size len : Z) : option sds_t :=
  let newsh := s_malloc size in
  bs ← sds_bytes s (len + 1);
  newsh ← wr newsh hdrlen bs;
  s ← put (SDS newsh hdrlen) (-1) [type];
  sdssetlen s len.

Definition sdsMakeRoomFor (s : sds_t) (addlen : Z) : option sds_t :=
  avail ← sdsavail s;
  flags ← at_ s (-1);
  let oldtype := Z.land flags SDS_TYPE_MASK in
  if avail >=? addlen then Some s
  else
    len ← sdslen s;
    let newlen := wrapu 64 (len + addlen) in
    let newlen := if newlen <? SDS_MAX_PREALLOC then wrapu 64 (newlen * 2)
                  else wrapu 64 (newlen + SDS_MAX_PREALLOC) in
    let type := sdsReqType newlen in
    let type := if type =? SDS_TYPE_5 then SDS_TYPE_8 else type in
    let hdrlen := sdsHdrSize type in
    let size := wrapu 64 (hdrlen + newlen + 1) in
    s ← (if oldtype =? type then Some (SDS (realloc junk (blk s) size) hdrlen)
         else sds_move s type hdrlen size len);
    sdssetalloc s newlen.

Definition sdsRemoveFreeSpace (s : sds_t) : option sds_t :=
  flags ← at_ s (-1);
  let oldtype := Z.land flags SDS_TYPE_MASK in
  let oldhdrlen := sdsHdrSize oldtype in
  len ← sdslen s;
  let type := sdsReqType len in
  let hdrlen := sdsHdrSize type in
  s ← (if (oldtype =? type) || (type >? SDS_TYPE_8)
       then Some (SDS (realloc junk (blk s) (wrapu 64 (oldhdrlen + len + 1))) oldhdrlen)
       else sds_move s type hdrlen (wrapu 64 (hdrlen + len + 1)) len);
  sdssetalloc s len.

Definition sdsAllocSize (s : sds_t) : option Z :=
  alloc ← sdsalloc s;
  flags ← at_ s (-1);
  Some (wrapu 64 (sdsHdrSize flags + alloc + 1)).

(** The assertion on the increment, by the width of the counters: the difference of the
    counters is an [int], a 32 bit or a 64 bit unsigned number, and the cast of [-incr] is to
    32 bits but for the widest. *)
Definition incr_ok (w : nat) (alloc len incr : Z) : bool :=
  let room := if (w =? 8)%nat then wrapu 64 (alloc - len)
              else if (w =? 4)%nat then wrapu 32 (alloc - len) else alloc - len in
  let neg := if (w =? 8)%nat then wrapu 64 (- incr) else wrapu 32 (- incr) in
  let pos := if (w =? 4)%nat then wrapu 32 incr else incr in
  ((incr >=? 0) && (room >=? pos)) || ((incr <? 0) && (len >=? neg)).

Definition sdsIncrLen (s : sds_t) (incr : Z) : option sds_t :=
  flags ← at_ s (-1);
  '(s, len) ← by_type flags
    (let oldlen := SDS_TYPE_5_LEN flags in
     if ((incr >? 0) && (oldlen + incr <? 32)) || ((incr <? 0) && (oldlen >=? wrapu 32 (- incr))) then
       s ← put s (-1) [wrapu 8 (Z.lor SDS_TYPE_5 (Z.shiftl (oldlen + incr) SDS_TYPE_BITS))];
       Some (s, oldlen + incr)
     else None)
    (fun w =>
       alloc ← get_field s (hdr_alloc w) w;
       len ← get_field s (hdr_len w) w;
       if incr_ok w alloc len incr then
         s ← set_field s (hdr_len w) w (len + incr);
         Some (s, wrapu (8 * Z.of_nat w) (len + incr))
       else None)
    (Some (s, 0));
  put s len [0].

Definition sdsgrowzero (s : sds_t) (len : Z) : option sds_t :=
  curlen ← sdslen s;
  if len <=? curlen then Some s
  else
    s ← sdsMakeRoomFor s (len - curlen);
    s ← put s curlen (replicate (Z.to_nat (len - curlen + 1)) 0);
    sdssetlen s len.

Definition sdscatlen (s : sds_t) (t : list Z) : option sds_t :=
  curlen ← sdslen s;
  s ← sdsMakeRoomFor s (zlen t);
  s ← put s curlen t;
  s ← sdssetlen s (wrapu 64 (curlen + zlen t));
  put s (wrapu 64 (curlen + zlen t)) [0].

Definition sdscpylen (s : sds_t) (t : list Z) : option sds_t :=
  let len := zlen t in
  alloc ← sdsalloc s;
  s ← (if alloc <? len then cur ← sdslen s; sdsMakeRoomFor s (wrapu 64 (len - cur)) else Some s);
  s ← put s 0 t;
  s ← put s len [0];
  sdssetlen s len.

(** [strchr(cset, c)] for the string [cset], whose terminator it also finds. *)
Definition in_cset (cset : list Z) (c : Z) : bool := (c =? 0) || existsb (Z.eqb c) cset.

(** [while(sp <= end && strchr(cset, *sp)) sp++], and the same from the end. *)
Fixpoint trim_left (fuel : nat) (s : sds_t) (cset : list Z) (sp last : Z) : option Z :=
  if sp <=? last then
    match fuel with
    | O => None
    | S fuel => c ← at_ s sp; if in_cset cset c then trim_left fuel s cset (sp + 1) last else Some sp
    end
  else Some sp.

Fixpoint trim_right (fuel : nat) (s : sds_t) (cset : list Z) (ep sp : Z) : option Z :=
  if ep >? sp then
    match fuel with
    | O => None
    | S fuel => c ← at_ s ep; if in_cset cset c then trim_right fuel s cset (ep - 1) sp else Some ep
    end
  else Some ep.

(** [memmove(s, s+from, n)]. *)
Definition sds_memmove (s : sds_t) (from n : Z) : option sds_t :=
  b ← memmove (blk s) (off s) (off s + from) n; Some (SDS b (off s)).

Definition sdstrim (s : sds_t) (cset : list Z) : option sds_t :=
  slen ← sdslen s;
  let last := slen - 1 in
  sp ← trim_left (length (blk s)) s cset 0 last;
  ep ← trim_right (length (blk s)) s cset last sp;
  let len := if sp >? ep then 0 else ep - sp + 1 in
  s ← (if negb (sp =? 0) then sds_memmove s sp len else Some s);
  s ← put s len [0];
  sdssetlen s len.

(** [n+1] in [ssize_t], whose overflow is undefined. *)
Definition ssize_inc (n : Z) : option Z := if n + 1 <? 2 ^ 63 then Some (n + 1) else None.

Definition sdsrange (s : sds_t) (start end_ : Z) : option sds_t :=
  len ← sdslen s;
  if len =? 0 then Some s
  else
    let start := if start <? 0 then Z.max 0 (wraps 64 (len + start)) else start in
    let end_ := if end_ <? 0 then Z.max 0 (wraps 64 (len + end_)) else end_ in
    newlen ← (if start >? end_ then Some 0 else ssize_inc (end_ - start));
    let '(start, newlen) :=
      if negb (newlen =? 0) then
        if start >=? wraps 64 len then (start, 0)
        else if end_ >=? wraps 64 len then
          let end_ := len - 1 in (start, if start >? end_ then 0 else end_ - start + 1)
        else (start, newlen)
      else (0, newlen) in
    s ← (if negb (start =? 0) && negb (newlen =? 0) then sds_memmove s start newlen else Some s);
    s ← put s newlen [0];
    sdssetlen s newlen.

End ops.

Example sds_small :
  let H : Host := false in
  (s ← sdsnewlen (fun _ => 7) (BYTES [97; 98; 99]);
   s ← sdscatlen (fun _ => 7) s [100];
   sdsrange s 1 (-2)) = Some (SDS [2; 8; 1; 98; 99; 0; 100; 0; 7; 7; 7; 7] 3).
Proof. vm_compute. reflexivity. Qed.
