(* ===== verification/SdsBufSpec.v ===== *)
(** * What the functions on dynamic strings do

    [holds s x cap] states that the block of [s] is a well formed string of content [x]
    with room for [cap] bytes, whatever its header. The operations of SdsBuf.v keep
    this invariant and act on the content as the operations on lists that [op_spec] names. *)

From S2P Require Import Prelude Endian Util SdsBuf.

(** The width in bits of the counters of a type. *)
Definition type_bits (t : Z) : Z := by_type t 5 (fun w => 8 * Z.of_nat w) 0.

Definition type_ok (t : Z) : Prop := 0 <= t <= SDS_TYPE_64.

(** A type is [SDS_TYPE_5] or has a width. *)
Lemma type_cases (P : Z -> Prop) :
  P SDS_TYPE_5 ->
  (forall t w, type_ok t -> t <> SDS_TYPE_5 -> w ∈ [1; 2; 4; 8]%nat ->
     (forall A (a c : A) f, by_type t a f c = f w) -> P t) ->
  forall t, type_ok t -> P t.
Proof.
  intros H5 Hw t Ht. unfold type_ok, SDS_TYPE_64 in Ht.
  assert (t = 0 \/ t = 1 \/ t = 2 \/ t = 3 \/ t = 4) as [->|[->|[->|[->| ->]]]] by lia; [done|..].
  - apply (Hw 1 1%nat); [done|done|set_solver|done].
  - apply (Hw 2 2%nat); [done|done|set_solver|done].
  - apply (Hw 3 4%nat); [done|done|set_solver|done].
  - apply (Hw 4 8%nat); [done|done|set_solver|done].
Qed.

Lemma land_flags n : Z.land (wrapu 8 (Z.lor SDS_TYPE_5 (Z.shiftl n SDS_TYPE_BITS))) SDS_TYPE_MASK = 0.
Proof.
  unfold SDS_TYPE_5, SDS_TYPE_BITS, SDS_TYPE_MASK. rewrite Z.lor_0_l.
  apply Z.bits_inj'. intros i Hi. change 7 with (Z.ones 3).
  rewrite Z.land_spec, wrapu_testbit, Z.shiftl_spec, Z.testbit_ones_nonneg, Z.bits_0 by lia.
  destruct (Z.ltb_spec i 3); [|by rewrite !andb_false_r]. by rewrite Z.testbit_neg_r by lia.
Qed.

Lemma len_flags n : 0 <= n < 32 ->
  SDS_TYPE_5_LEN (wrapu 8 (Z.lor SDS_TYPE_5 (Z.shiftl n SDS_TYPE_BITS))) = n.
Proof.
  intros Hn. unfold SDS_TYPE_5_LEN, SDS_TYPE_5, SDS_TYPE_BITS.
  rewrite Z.lor_0_l, Z.shiftl_mul_pow2, wrapu_small, Z.shiftr_div_pow2 by (unfold in_u; lia).
  by rewrite Z.div_mul.
Qed.

Section spec.
Context `{Host}.
Variable junk : nat -> Z.

(** ** The header *)

Definition hdr (t len alloc : Z) : list Z :=
  by_type t [wrapu 8 (Z.lor SDS_TYPE_5 (Z.shiftl len SDS_TYPE_BITS))]
    (fun w => host_bytes w len ++ host_bytes w alloc ++ [t]) [].

(** The string with a header of type [t], whose block goes on with [body]. *)
Definition mk (t len alloc : Z) (body : list Z) : sds_t := SDS (hdr t len alloc ++ body) (sdsHdrSize t).

Lemma zlen_sdshdr t len alloc : type_ok t -> zlen (hdr t len alloc) = sdsHdrSize t.
Proof.
  revert t. refine (type_cases _ _ _); [done|]. intros t w _ _ _ E.
  unfold hdr, sdsHdrSize. rewrite !E. zl.
Qed.

(** The byte of the flags. *)
Lemma flags_mk t len alloc body : type_ok t ->
  exists flags, at_ (mk t len alloc body) (-1) = Some flags /\
    (forall A (a c : A) f, by_type flags a f c = by_type t a f c) /\ Z.land flags SDS_TYPE_MASK = t /\
    (t = SDS_TYPE_5 -> in_u 5 len -> SDS_TYPE_5_LEN flags = len).
Proof.
  revert t. refine (type_cases _ _ _).
  - eexists. split; [reflexivity|]. split_and!.
    + intros. unfold by_type. by rewrite land_flags.
    + apply land_flags.
    + intros _. apply len_flags.
  - intros t w Ht Ht5 _ E. exists t. assert (Z.land t SDS_TYPE_MASK = t) as L.
    { unfold type_ok, SDS_TYPE_64 in Ht.
      assert (t = 0 \/ t = 1 \/ t = 2 \/ t = 3 \/ t = 4) as [->|[->|[->|[->| ->]]]] by lia; done. }
    split_and!; [|done|done|by intros ->].
    unfold at_, mk, sdsHdrSize, hdr. rewrite !E. cbn [blk off].
    rewrite (app_assoc (host_bytes w len)), <- app_assoc. cbn [app].
    apply zidx_app. zl.
Qed.

(** The block of a type that has a width, and its two counters. *)
Lemma mk_wide t w len alloc body :
  (forall A (a c : A) f, by_type t a f c = f w) ->
  mk t len alloc body
  = SDS (host_bytes w len ++ host_bytes w alloc ++ t :: body) (2 * Z.of_nat w + 1).
Proof. intros E. unfold mk, hdr, sdsHdrSize. rewrite !E. by rewrite <- !app_assoc. Qed.

Lemma get_wide w len alloc rest : in_u (8 * Z.of_nat w) len -> in_u (8 * Z.of_nat w) alloc ->
  let s := SDS (host_bytes w len ++ host_bytes w alloc ++ rest) (2 * Z.of_nat w + 1) in
  get_field s (hdr_len w) w = Some len /\ get_field s (hdr_alloc w) w = Some alloc.
Proof.
  intros Hl Ha. unfold get_field, hdr_len, hdr_alloc. cbn [blk off].
  replace (2 * Z.of_nat w + 1 + - (2 * Z.of_nat w + 1)) with 0 by lia.
  replace (2 * Z.of_nat w + 1 + - (Z.of_nat w + 1)) with (Z.of_nat w) by lia.
  rewrite rd_front, rd_app by zl. cbn [fmap option_fmap option_map].
  rewrite !host_uint_bytes. split; f_equal; by apply Z.mod_small.
Qed.

Lemma set_raw w j1 j2 rest v : zlen j1 = Z.of_nat w -> zlen j2 = Z.of_nat w ->
  let s := SDS (j1 ++ j2 ++ rest) (2 * Z.of_nat w + 1) in
  set_field s (hdr_len w) w v = Some (SDS (host_bytes w v ++ j2 ++ rest) (2 * Z.of_nat w + 1)) /\
  set_field s (hdr_alloc w) w v = Some (SDS (j1 ++ host_bytes w v ++ rest) (2 * Z.of_nat w + 1)).
Proof.
  intros H1 H2. unfold set_field, put, hdr_len, hdr_alloc. cbn [blk off].
  replace (2 * Z.of_nat w + 1 + - (2 * Z.of_nat w + 1)) with 0 by lia.
  replace (2 * Z.of_nat w + 1 + - (Z.of_nat w + 1)) with (Z.of_nat w) by lia.
  split.
  - by rewrite wr_front by zl.
  - by rewrite wr_app by zl.
Qed.

(** ** The fields of a string *)

Lemma sdslen_mk t len alloc body :
  type_ok t -> in_u (type_bits t) len -> in_u (type_bits t) alloc ->
  sdslen (mk t len alloc body) = Some len.
Proof.
  intros Ht. destruct (flags_mk t len alloc body Ht) as (f & Hf & Hb & _ & H5).
  unfold sdslen. rewrite Hf. cbn [mbind option_bind]. rewrite Hb. revert t Ht Hb H5 Hf.
  refine (type_cases _ _ _); [intros _ H5 _ ? ?; by rewrite H5|]. intros t w _ _ _ E _ _ _.
  unfold type_bits. rewrite !E, (mk_wide t w) by done. intros. by apply get_wide.
Qed.

Lemma sdsalloc_mk t len alloc body :
  type_ok t -> in_u (type_bits t) len -> in_u (type_bits t) alloc ->
  sdsalloc (mk t len alloc body) = Some (if t =? SDS_TYPE_5 then len else alloc).
Proof.
  intros Ht. destruct (flags_mk t len alloc body Ht) as (f & Hf & Hb & _ & H5).
  unfold sdsalloc. rewrite Hf. cbn [mbind option_bind]. rewrite Hb. revert t Ht Hb H5 Hf.
  refine (type_cases _ _ _); [intros _ H5 _ ? ?; by rewrite H5|]. intros t w _ Ht _ E _ _ _.
  unfold type_bits. rewrite !E, (mk_wide t w) by done. intros.
  rewrite (proj2 (Z.eqb_neq _ _) Ht). by apply get_wide.
Qed.

Lemma sdsavail_mk t len alloc body :
  type_ok t -> in_u (type_bits t) len -> in_u (type_bits t) alloc -> len <= alloc ->
  sdsavail (mk t len alloc body) = Some (if t =? SDS_TYPE_5 then 0 else alloc - len).
Proof.
  intros Ht. destruct (flags_mk t len alloc body Ht) as (f & Hf & Hb & _ & H5).
  unfold sdsavail. rewrite Hf. cbn [mbind option_bind]. rewrite Hb. revert t Ht Hb H5 Hf.
  refine (type_cases _ _ _); [done|]. intros t w _ Ht Hw E _ _ _.
  unfold type_bits. rewrite !E, (mk_wide t w) by done. intros Hl Ha Hle.
  rewrite (proj2 (Z.eqb_neq _ _) Ht).
  destruct (get_wide w len alloc (t :: body) Hl Ha) as [-> ->]. cbn [mbind option_bind].
  f_equal. apply wrapu_small. unfold in_u in *. split; [lia|].
  apply Z.le_lt_trans with alloc; [lia|]. apply Z.lt_le_trans with (1 := proj2 Ha).
  apply Z.pow_le_mono_r; [lia|]. set_unfold in Hw. lia.
Qed.

Lemma put_flags_5 len len' alloc body :
  put (mk SDS_TYPE_5 len alloc body) (-1) [wrapu 8 (Z.lor SDS_TYPE_5 (Z.shiftl len' SDS_TYPE_BITS))]
  = Some (mk SDS_TYPE_5 len' alloc body).
Proof.
  unfold put, mk. cbn [blk off]. change (sdsHdrSize SDS_TYPE_5 + -1) with 0. by rewrite wr_front.
Qed.

Lemma sdssetlen_mk t len alloc body v :
  type_ok t -> sdssetlen (mk t len alloc body) v = Some (mk t v alloc body).
Proof.
  intros Ht. destruct (flags_mk t len alloc body Ht) as (f & Hf & Hb & _ & H5).
  unfold sdssetlen. rewrite Hf. cbn [mbind option_bind]. rewrite Hb. revert t Ht Hb H5 Hf.
  refine (type_cases _ _ _).
  - intros _ _ _. apply put_flags_5.
  - intros t w _ _ _ E _ _ _. rewrite E, !(mk_wide t w) by done. apply set_raw; zl.
Qed.

Lemma sdssetalloc_mk t len alloc body v :
  type_ok t -> sdssetalloc (mk t len alloc body) v = Some (mk t len v body).
Proof.
  intros Ht. destruct (flags_mk t len alloc body Ht) as (f & Hf & Hb & _ & H5).
  unfold sdssetalloc. rewrite Hf. cbn [mbind option_bind]. rewrite Hb. revert t Ht Hb H5 Hf.
  refine (type_cases _ _ _); [done|].
  intros t w _ _ _ E _ _ _. rewrite E, !(mk_wide t w) by done. apply set_raw; zl.
Qed.

(** Reads and writes of the bytes of the string. *)
Lemma put_mk t len alloc a b b' c i :
  type_ok t -> zlen a = i -> zlen b' = zlen b ->
  put (mk t len alloc (a ++ b ++ c)) i b' = Some (mk t len alloc (a ++ b' ++ c)).
Proof.
  intros Ht Ha Hb. unfold put, mk. cbn [blk off].
  rewrite (app_assoc (hdr t len alloc) a), wr_app; [by rewrite <- app_assoc| |done].
  zl. rewrite zlen_sdshdr by done. lia.
Qed.

Lemma bytes_mk t len alloc a c n :
  type_ok t -> zlen a = n -> sds_bytes (mk t len alloc (a ++ c)) n = Some a.
Proof. intros Ht Ha. unfold sds_bytes, mk. cbn [blk off]. apply rd_app; [by apply zlen_sdshdr|done]. Qed.

Lemma at_mk t len alloc a x c i :
  type_ok t -> zlen a = i -> at_ (mk t len alloc (a ++ x :: c)) i = Some x.
Proof.
  intros Ht Ha. unfold at_, mk. cbn [blk off]. rewrite app_assoc. apply zidx_app.
  zl. rewrite zlen_sdshdr by done. lia.
Qed.

(** [memmove] of [b] to the front overwrites as many bytes. *)
Lemma memmove_mk t len alloc a b c :
  type_ok t ->
  exists c', zlen c' = zlen a /\
    sds_memmove (mk t len alloc (a ++ b ++ c)) (zlen a) (zlen b)
    = Some (mk t len alloc (b ++ c' ++ c)).
Proof.
  intros Ht. destruct (split_at (a ++ b) (zlen b)) as (u & v & Euv & Hu).
  { zl. pose proof (zlen_nonneg a). pose proof (zlen_nonneg b). lia. }
  exists v. split. { apply (f_equal zlen) in Euv. zl. }
  unfold sds_memmove, memmove, mk. cbn [blk off].
  rewrite (app_assoc (hdr _ _ _) a), rd_app; [|zl; rewrite zlen_sdshdr by done; lia|done].
  cbn [mbind option_bind]. rewrite <- app_assoc, (app_assoc a b), Euv, <- (app_assoc u v).
  rewrite wr_app; [done|by apply zlen_sdshdr|done].
Qed.

(** A header that is written from scratch, over whatever the allocator returned. *)
Lemma raw_wide t w (j : list Z) : type_ok t ->
  (forall A (a c : A) f, by_type t a f c = f w) -> zlen j = sdsHdrSize t ->
  exists j1 j2 f, j = j1 ++ j2 ++ [f] /\ zlen j1 = Z.of_nat w /\ zlen j2 = Z.of_nat w.
Proof.
  intros Ht E Hj. unfold sdsHdrSize in Hj. rewrite E in Hj.
  destruct (split_at j (Z.of_nat w)) as (j1 & k & -> & H1); [lia|].
  destruct (split_at k (Z.of_nat w)) as (j2 & l & -> & H2); [zl|].
  destruct l as [|f [|? l]]; [zl..| |exfalso; zl; pose proof (zlen_nonneg l); lia].
  by exists j1, j2, f.
Qed.

Lemma raw_init t j body len alloc : type_ok t -> zlen j = sdsHdrSize t ->
  (s ← put (SDS (j ++ body) (sdsHdrSize t)) (-1) [t]; s ← sdssetlen s len; sdssetalloc s alloc)
  = Some (mk t len alloc body).
Proof.
  intros Ht. revert t Ht. refine (type_cases _ _ _).
  - intros Hj. change (sdsHdrSize SDS_TYPE_5) with 1 in *. unfold put. cbn [blk off]. change (1 + -1) with 0.
    rewrite wr_front by (by rewrite Hj). cbn [mbind option_bind].
    change (SDS ([SDS_TYPE_5] ++ body) 1) with (mk SDS_TYPE_5 0 0 body).
    rewrite sdssetlen_mk by done. cbn [mbind option_bind]. by apply sdssetalloc_mk.
  - intros t w Ht Ht5 _ E Hj. destruct (raw_wide t w j Ht E Hj) as (j1 & j2 & f & -> & H1 & H2).
    assert (put (SDS ((j1 ++ j2 ++ [f]) ++ body) (sdsHdrSize t)) (-1) [t]
            = Some (SDS (j1 ++ j2 ++ t :: body) (2 * Z.of_nat w + 1))) as ->.
    { unfold put, sdsHdrSize. rewrite E. cbn [blk off].
      replace (2 * Z.of_nat w + 1 + -1) with (zlen (j1 ++ j2)) by zl.
      rewrite (app_assoc j1 j2), <- app_assoc, (wr_app (j1 ++ j2) [f]) by done.
      by rewrite <- app_assoc. }
    assert (forall k1 k2, zlen k1 = Z.of_nat w -> zlen k2 = Z.of_nat w ->
              at_ (SDS (k1 ++ k2 ++ t :: body) (2 * Z.of_nat w + 1)) (-1) = Some t) as Hat.
    { intros k1 k2 K1 K2. unfold at_. cbn [blk off]. rewrite app_assoc. apply zidx_app. zl. }
    cbn [mbind option_bind]. unfold sdssetlen. rewrite Hat by done. cbn [mbind option_bind].
    rewrite E. destruct (set_raw w j1 j2 (t :: body) len H1 H2) as [-> _].
    cbn [mbind option_bind]. unfold sdssetalloc. rewrite Hat by zl. cbn [mbind option_bind].
    rewrite E. rewrite (mk_wide t w) by done. apply set_raw; zl.
Qed.

Lemma malloc_app size : 0 <= size -> zlen (s_malloc junk size) = size.
Proof.
  intros Hs. destruct (realloc_grow junk [] size) as (f & E & Hf); [done|].
  unfold s_malloc. rewrite E. cbn [app]. change (zlen (@nil Z)) with 0 in Hf. lia.
Qed.

(** The string in a new block, of which it fills the front. *)
Lemma sds_move_mk t0 t len alloc x rest newlen :
  type_ok t0 -> type_ok t -> zlen x = len + 1 -> len <= newlen ->
  exists fresh, zlen fresh = newlen - len /\
    (s ← sds_move junk (mk t0 len alloc (x ++ rest)) t (sdsHdrSize t) (sdsHdrSize t + newlen + 1) len;
     sdssetalloc s newlen) = Some (mk t len newlen (x ++ fresh)).
Proof.
  intros Ht0 Ht Hx Hle. pose proof (zlen_nonneg x). pose proof (zlen_sdshdr t 0 0 Ht) as Hh.
  pose proof (zlen_nonneg (hdr t 0 0)).
  set (m := s_malloc junk (sdsHdrSize t + newlen + 1)).
  assert (zlen m = sdsHdrSize t + newlen + 1) as Hm by (apply malloc_app; lia).
  destruct (split_at m (sdsHdrSize t)) as (j & k & Em & Hj); [lia|].
  assert (zlen k = newlen + 1) as Hk by (apply (f_equal zlen) in Em; zl).
  destruct (split_at k (len + 1)) as (k1 & fresh & -> & Hk1); [lia|].
  exists fresh. split; [zl|]. unfold sds_move. fold m. rewrite Em.
  rewrite bytes_mk by done. cbn [mbind option_bind].
  rewrite wr_app by lia. cbn [mbind option_bind].
  pose proof (raw_init t j (x ++ fresh) len newlen Ht Hj) as R.
  destruct (put _ _ _); [exact R|discriminate R].
Qed.

(** ** The invariant *)

(** The block of [s] is the header of a type that fits, the content, its terminator and the
    free space. A string of type 5 does not remember its free space. *)
Record holds_as (t : Z) (free : list Z) (x : list Z) (cap : Z) (s : sds_t) : Prop := {
  ha_type : type_ok t;
  ha_mk : s = mk t (zlen x) cap (x ++ 0 :: free);
  ha_fits : in_u (type_bits t) cap;
  ha_len : zlen x <= cap;
  ha_5 : t = SDS_TYPE_5 -> cap = zlen x;
  ha_wide : t <> SDS_TYPE_5 -> zlen free = cap - zlen x
}.

Definition holds (s : sds_t) (x : list Z) (cap : Z) : Prop := exists t free, holds_as t free x cap s.

Lemma ha_len_fits t free x cap s : holds_as t free x cap s -> in_u (type_bits t) (zlen x).
Proof.
  intros Hs. pose proof (ha_fits _ _ _ _ _ Hs). pose proof (ha_len _ _ _ _ _ Hs). pose proof (zlen_nonneg x).
  unfold in_u in *. lia.
Qed.

Lemma sdslen_holds s x cap : holds s x cap -> sdslen s = Some (zlen x).
Proof.
  intros (t & free & Hs). rewrite (ha_mk _ _ _ _ _ Hs).
  apply sdslen_mk; [apply Hs|by eapply ha_len_fits|apply Hs].
Qed.

Lemma sdsalloc_holds s x cap : holds s x cap -> sdsalloc s = Some cap.
Proof.
  intros (t & free & Hs). rewrite (ha_mk _ _ _ _ _ Hs).
  rewrite sdsalloc_mk; [|apply Hs|by eapply ha_len_fits|apply Hs].
  f_equal. case_if; [|done]. symmetry. by apply Hs.
Qed.

Lemma sdsavail_holds s x cap : holds s x cap -> sdsavail s = Some (cap - zlen x).
Proof.
  intros (t & free & Hs). rewrite (ha_mk _ _ _ _ _ Hs).
  rewrite sdsavail_mk; [|apply Hs|by eapply ha_len_fits|apply Hs|apply Hs].
  f_equal. case_if; [|done]. rewrite (ha_5 _ _ _ _ _ Hs) by done. lia.
Qed.

Lemma flags_holds t free x cap s : holds_as t free x cap s ->
  exists flags, at_ s (-1) = Some flags /\ Z.land flags SDS_TYPE_MASK = t.
Proof.
  intros Hs. rewrite (ha_mk _ _ _ _ _ Hs).
  destruct (flags_mk t (zlen x) cap (x ++ 0 :: free)) as (f & Hf & _ & L & _); [apply Hs|by exists f].
Qed.

(** ** Allocation *)

Lemma sdsReqType_spec n : in_u 64 n ->
  type_ok (sdsReqType n) /\ in_u (type_bits (sdsReqType n)) n.
Proof.
  unfold in_u, sdsReqType. intros Hn. change (Z.shiftl 1 5) with (2 ^ 5). change (Z.shiftl 1 8) with (2 ^ 8).
  change (Z.shiftl 1 16) with (2 ^ 16). change (Z.shiftl 1 32) with (2 ^ 32).
  repeat case_if; (split; [by vm_compute|]).
  - change (type_bits SDS_TYPE_5) with 5. lia.
  - change (type_bits SDS_TYPE_8) with 8. lia.
  - change (type_bits SDS_TYPE_16) with 16. lia.
  - change (type_bits SDS_TYPE_32) with 32. lia.
  - change (type_bits SDS_TYPE_64) with 64. lia.
Qed.

Lemma sdsHdrSize_range t : type_ok t -> 1 <= sdsHdrSize t <= 17.
Proof.
  revert t. refine (type_cases _ _ _); [done|]. intros t w _ _ Hw E.
  unfold sdsHdrSize. rewrite E. set_unfold in Hw. lia.
Qed.

(** The type of a string that is going to grow: never [SDS_TYPE_5]. *)
Definition grow_type (n : Z) : Z := if sdsReqType n =? SDS_TYPE_5 then SDS_TYPE_8 else sdsReqType n.

Lemma grow_type_spec n : in_u 64 n ->
  type_ok (grow_type n) /\ grow_type n <> SDS_TYPE_5 /\ in_u (type_bits (grow_type n)) n.
Proof.
  intros Hn. destruct (sdsReqType_spec n Hn) as [H1 H2]. unfold grow_type. case_if; [|done].
  split_and!; [done|done|]. rewrite Hif in H2. change (type_bits SDS_TYPE_5) with 5 in H2.
  change (type_bits SDS_TYPE_8) with 8. unfold in_u in *. lia.
Qed.

(** The capacity after a growth to [n] bytes: twice as much, or 1 MB more. *)
Definition grown (n : Z) : Z := if n <? SDS_MAX_PREALLOC then 2 * n else n + SDS_MAX_PREALLOC.

Lemma realloc_mk t len alloc body size :
  type_ok t -> sdsHdrSize t + zlen body <= size ->
  exists fresh, zlen fresh = size - sdsHdrSize t - zlen body /\
    SDS (realloc junk (blk (mk t len alloc body)) size) (sdsHdrSize t) = mk t len alloc (body ++ fresh).
Proof.
  intros Ht Hs. cbn [blk mk]. destruct (realloc_grow junk (hdr t len alloc ++ body) size) as (f & E & Hf).
  { zl. by rewrite zlen_sdshdr. }
  exists f. rewrite E. unfold mk. rewrite <- app_assoc. split; [|done]. zl. rewrite zlen_sdshdr in Hf by done. lia.
Qed.

Lemma sdsMakeRoomFor_holds s x cap addlen :
  holds s x cap -> 0 <= addlen -> zlen x + addlen < 2 ^ 62 ->
  exists s', sdsMakeRoomFor junk s addlen = Some s' /\
    (if addlen <=? cap - zlen x then s' = s
     else exists free, holds_as (grow_type (grown (zlen x + addlen))) free x (grown (zlen x + addlen)) s').
Proof.
  intros Hs Hadd Hlt. unfold sdsMakeRoomFor. rewrite (sdsavail_holds _ _ _ Hs). cbn [mbind option_bind].
  pose proof Hs as Hs'. destruct Hs as (t & free & Hs). pose proof (ha_len _ _ _ _ _ Hs) as Hle.
  destruct (flags_holds _ _ _ _ _ Hs) as (f & -> & Hf). cbn [mbind option_bind]. rewrite Hf, Z.geb_leb.
  destruct (Z.leb_spec addlen (cap - zlen x)); [by eexists|].
  rewrite (sdslen_holds _ _ _ Hs'). cbn [mbind option_bind].
  pose proof (zlen_nonneg x). set (n := zlen x + addlen) in *.
  assert (0 < n <= grown n /\ grown n < 2 ^ 63) as Hg
    by (unfold grown, SDS_MAX_PREALLOC; case_if; lia).
  rewrite (wrapu_small 64 n) by (unfold in_u; lia).
  assert ((if n <? SDS_MAX_PREALLOC then wrapu 64 (n * 2) else wrapu 64 (n + SDS_MAX_PREALLOC)) = grown n) as ->.
  { unfold grown in *. case_if; rewrite wrapu_small; unfold in_u; lia. }
  fold (grow_type (grown n)). destruct (grow_type_spec (grown n)) as (Ht & Hn5 & Hfit); [unfold in_u; lia|].
  set (t' := grow_type (grown n)) in *. pose proof (sdsHdrSize_range t' Ht).
  rewrite (wrapu_small 64 (_ + _ + _)) by (unfold in_u; lia). rewrite (ha_mk _ _ _ _ _ Hs).
  destruct (Z.eqb_spec t t') as [->|Hne].
  - pose proof (ha_wide _ _ _ _ _ Hs Hn5) as Hfree.
    destruct (realloc_mk t' (zlen x) cap (x ++ 0 :: free) (sdsHdrSize t' + grown n + 1)) as (fr & Hfr & ->);
      [done|zl|].
    cbn [mbind option_bind]. rewrite sdssetalloc_mk by done. eexists. split; [done|]. exists (free ++ fr).
    rewrite <- app_assoc. constructor; [done|done|done|lia|done|]. intros _. zl.
  - replace (x ++ 0 :: free) with ((x ++ [0]) ++ free) by by rewrite <- app_assoc.
    destruct (sds_move_mk t t' (zlen x) cap (x ++ [0]) free (grown n)) as (fr & Hfr & ->);
      [apply Hs|done|zl|lia|].
    eexists. split; [done|]. exists fr. rewrite <- app_assoc.
    constructor; [done|done|done|lia|done|by intros _].
Qed.

Lemma sdsMakeRoomFor_room s x cap addlen :
  holds s x cap -> 0 <= addlen -> zlen x + addlen < 2 ^ 62 ->
  exists s' t free cap', sdsMakeRoomFor junk s addlen = Some s' /\ holds_as t free x cap' s' /\
    addlen <= cap' - zlen x /\ (0 < addlen -> t <> SDS_TYPE_5) /\ cap <= cap'.
Proof.
  intros Hs Hadd Hlt. destruct (sdsMakeRoomFor_holds s x cap addlen Hs Hadd Hlt) as (s' & E & Hs').
  pose proof (zlen_nonneg x). destruct (Z.leb_spec addlen (cap - zlen x)) as [Hle|Hgt].
  - subst s'. destruct Hs as (t & free & Hs). exists s, t, free, cap. split_and!; try done.
    intros Hpos ->. pose proof (ha_5 _ _ _ _ _ Hs eq_refl). lia.
  - destruct Hs' as (free & Hs'). pose proof (ha_fits _ _ _ _ _ Hs') as Hf.
    assert (zlen x + addlen <= grown (zlen x + addlen)) by (unfold grown, SDS_MAX_PREALLOC; case_if; lia).
    exists s', (grow_type (grown (zlen x + addlen))), free, (grown (zlen x + addlen)).
    split_and!; [done|done|lia| |lia]. intros _. apply grow_type_spec. unfold in_u, grown, SDS_MAX_PREALLOC.
    case_if; lia.
Qed.

(** ** Strings that are rewritten in their block *)

(** The terminator and the free space hold [n] bytes and a new terminator. *)
Lemma room t free x cap s n : holds_as t free x cap s -> 0 <= n <= cap - zlen x ->
  exists e b rest, 0 :: free = e ++ b :: rest /\ zlen e = n /\ n + zlen rest = zlen free.
Proof.
  intros Hs Hn. destruct (Z.eq_dec n 0) as [->|Hn0]; [by exists [], 0, free|].
  assert (t <> SDS_TYPE_5) as Ht by (intros Ht; rewrite (ha_5 _ _ _ _ _ Hs Ht) in Hn; lia).
  pose proof (ha_wide _ _ _ _ _ Hs Ht) as Hf.
  destruct (split_at (0 :: free) n) as (e & [|b rest] & E & He); [zl|apply (f_equal zlen) in E; zl|].
  exists e, b, rest. split_and!; [done|done|]. apply (f_equal zlen) in E. zl.
Qed.

(** The block holds [n] bytes and a terminator, for [n] up to the capacity. *)
Lemma body_room t free x cap s n : holds_as t free x cap s -> 0 <= n <= cap ->
  exists u b v, x ++ 0 :: free = u ++ b :: v /\ zlen u = n /\ n + zlen v = zlen x + zlen free.
Proof.
  intros Hs Hn. assert (cap <= zlen x + zlen free) as Hc.
  { destruct (Z.eq_dec t SDS_TYPE_5) as [Ht|Ht];
      [rewrite (ha_5 _ _ _ _ _ Hs Ht); pose proof (zlen_nonneg free); lia|].
    rewrite (ha_wide _ _ _ _ _ Hs Ht). lia. }
  destruct (split_at (x ++ 0 :: free) n) as (u & [|b v] & E & Hu); [zl|apply (f_equal zlen) in E; zl|].
  exists u, b, v. split_and!; [done|done|]. apply (f_equal zlen) in E. zl.
Qed.

(** A block that is the old one but for its content and its length. *)
Lemma rebuild t free x cap s x' free' :
  holds_as t free x cap s -> zlen x' <= cap -> zlen x' + zlen free' = zlen x + zlen free ->
  exists cap', holds (mk t (zlen x') cap (x' ++ 0 :: free')) x' cap' /\ zlen x' <= cap' <= cap.
Proof.
  intros Hs Hle Hfree. pose proof (ha_type _ _ _ _ _ Hs) as Ht. pose proof (ha_fits _ _ _ _ _ Hs) as Hfit.
  pose proof (zlen_nonneg x'). destruct (Z.eq_dec t SDS_TYPE_5) as [->|Ht5].
  - exists (zlen x'). split; [|lia]. exists SDS_TYPE_5, free'.
    constructor; try done. unfold in_u in *. lia.
  - exists cap. split; [|lia]. exists t, free'. constructor; try done.
    intros _. pose proof (ha_wide _ _ _ _ _ Hs Ht5). lia.
Qed.

(** ** The operations *)

Lemma sdsclear_holds s x cap : holds s x cap ->
  exists s' cap', sdsclear s = Some s' /\ holds s' [] cap'.
Proof.
  intros (t & free & Hs). pose proof (ha_type _ _ _ _ _ Hs) as Ht. pose proof (ha_len _ _ _ _ _ Hs).
  pose proof (zlen_nonneg x). destruct (body_room _ _ _ _ _ 0 Hs) as (u & b & v & E & Hu & Hv); [lia|].
  apply zlen_0_inv in Hu as ->. unfold sdsclear. rewrite (ha_mk _ _ _ _ _ Hs), sdssetlen_mk by done.
  cbn [mbind option_bind]. rewrite E.
  rewrite (put_mk _ _ _ [] [b] [0] v) by done.
  destruct (rebuild _ _ _ _ _ [] v Hs) as (cap' & Hc & _); [change (zlen (@nil Z)) with 0; lia|done|].
  by eexists _, cap'.
Qed.

Lemma sdscatlen_holds s x cap y : holds s x cap -> zlen x + zlen y < 2 ^ 62 ->
  exists s' cap', sdscatlen junk s y = Some s' /\ holds s' (x ++ y) cap'.
Proof.
  intros Hs Hlt. pose proof (zlen_nonneg x). pose proof (zlen_nonneg y).
  destruct (sdsMakeRoomFor_room s x cap (zlen y) Hs) as (s1 & t & free & cap1 & E1 & Hs1 & Hroom & _); [lia..|].
  destruct (room _ _ _ _ _ (zlen y) Hs1) as (e & b & rest & E & He & Hr); [lia|].
  pose proof (ha_type _ _ _ _ _ Hs1) as Ht.
  unfold sdscatlen. rewrite (sdslen_holds _ _ _ Hs). cbn [mbind option_bind]. rewrite E1.
  cbn [mbind option_bind]. rewrite (ha_mk _ _ _ _ _ Hs1), E, (put_mk _ _ _ x e y (b :: rest)) by done.
  cbn [mbind option_bind]. rewrite wrapu_small by (unfold in_u; lia). rewrite sdssetlen_mk by done.
  cbn [mbind option_bind]. rewrite app_assoc, (put_mk _ _ _ (x ++ y) [b] [0] rest) by first [done | zl].
  rewrite <- zlen_app. destruct (rebuild _ _ _ _ _ (x ++ y) rest Hs1) as (cap' & Hc & _); [zl..|].
  by eexists _, cap'.
Qed.

Lemma sdscpylen_holds s x cap y : holds s x cap -> zlen y < 2 ^ 62 ->
  exists s' cap', sdscpylen junk s y = Some s' /\ holds s' y cap'.
Proof.
  intros Hs Hlt. pose proof (zlen_nonneg x). pose proof (zlen_nonneg y).
  assert (exists s1 t free cap1,
    (if cap <? zlen y then sdsMakeRoomFor junk s (zlen y - zlen x) else Some s) = Some s1 /\
    holds_as t free x cap1 s1 /\ zlen y <= cap1) as (s1 & t & free & cap1 & E1 & Hs1 & Hroom).
  { pose proof Hs as (t & free & Hs'). pose proof (ha_len _ _ _ _ _ Hs') as Hle.
    case_if; [|by exists s, t, free, cap].
    destruct (sdsMakeRoomFor_room s x cap (zlen y - zlen x) Hs) as (s1 & t1 & free1 & cap1 & E1 & Hs1 & Hr & _);
      [lia..|]. exists s1, t1, free1, cap1. split_and!; [done|done|lia]. }
  destruct (body_room _ _ _ _ _ (zlen y) Hs1) as (u & b & v & E & Hu & Hv); [lia|].
  pose proof (ha_type _ _ _ _ _ Hs1) as Ht.
  unfold sdscpylen. rewrite (sdsalloc_holds _ _ _ Hs), (sdslen_holds _ _ _ Hs). cbn [mbind option_bind].
  assert ((if cap <? zlen y then sdsMakeRoomFor junk s (wrapu 64 (zlen y - zlen x)) else Some s) = Some s1) as ->.
  { pose proof Hs as (t0 & free0 & Hs0). pose proof (ha_len _ _ _ _ _ Hs0).
    revert E1. case_if; [|done]. by rewrite wrapu_small by (unfold in_u; lia). }
  cbn [mbind option_bind]. rewrite (ha_mk _ _ _ _ _ Hs1), E, (put_mk _ _ _ [] u y (b :: v)) by done.
  cbn [mbind option_bind app]. rewrite (put_mk _ _ _ y [b] [0] v) by done.
  cbn [mbind option_bind]. rewrite sdssetlen_mk by done.
  destruct (rebuild _ _ _ _ _ y v Hs1) as (cap' & Hc & _); [lia..|]. by eexists _, cap'.
Qed.

Lemma sdsgrowzero_holds s x cap n : holds s x cap -> 0 <= n < 2 ^ 62 ->
  exists s' cap', sdsgrowzero junk s n = Some s' /\
    holds s' (x ++ replicate (Z.to_nat (n - zlen x)) 0) cap'.
Proof.
  intros Hs Hn. pose proof (zlen_nonneg x). unfold sdsgrowzero. rewrite (sdslen_holds _ _ _ Hs).
  cbn [mbind option_bind]. case_if.
  { replace (Z.to_nat (n - zlen x)) with 0%nat by lia. rewrite app_nil_r. by eexists _, _. }
  destruct (sdsMakeRoomFor_room s x cap (n - zlen x) Hs) as (s1 & t & free & cap1 & -> & Hs1 & Hroom & _); [lia..|].
  destruct (room _ _ _ _ _ (n - zlen x) Hs1) as (e & b & rest & E & He & Hr); [lia|].
  pose proof (ha_type _ _ _ _ _ Hs1) as Ht. cbn [mbind option_bind].
  replace (Z.to_nat (n - zlen x + 1)) with (Z.to_nat (n - zlen x) + 1)%nat by lia.
  rewrite replicate_add. cbn [replicate]. set (zs := replicate (Z.to_nat (n - zlen x)) 0).
  assert (zlen zs = n - zlen x) as Hzs by (unfold zs, zlen at 1; rewrite length_replicate; lia).
  rewrite (ha_mk _ _ _ _ _ Hs1), E, (cons_middle b e rest), (app_assoc e [b] rest).
  rewrite (put_mk _ _ _ x (e ++ [b]) (zs ++ [0]) rest) by first [done | zl].
  cbn [mbind option_bind]. rewrite sdssetlen_mk, <- (app_assoc zs [0] rest), app_assoc by done.
  destruct (rebuild _ _ _ _ _ (x ++ zs) rest Hs1) as (cap' & Hc & _); [zl..|].
  eexists _, cap'. split; [done|]. replace n with (zlen (x ++ zs)) at 1 by zl. done.
Qed.

(** No byte is left after the terminator. *)
Lemma sdsRemoveFreeSpace_holds s x cap : holds s x cap -> zlen x < 2 ^ 62 ->
  exists s', sdsRemoveFreeSpace junk s = Some s' /\ holds s' x (zlen x) /\
    zlen (blk s') = off s' + zlen x + 1.
Proof.
  intros Hs Hx. pose proof Hs as (t & free & Hs'). pose proof (ha_type _ _ _ _ _ Hs') as Ht.
  pose proof (zlen_nonneg x). destruct (flags_holds _ _ _ _ _ Hs') as (f & Hf & Hl).
  unfold sdsRemoveFreeSpace. rewrite Hf, (sdslen_holds _ _ _ Hs). cbn [mbind option_bind]. rewrite Hl.
  destruct (sdsReqType_spec (zlen x)) as [Hrt Hrf]; [unfold in_u; lia|]. set (t' := sdsReqType (zlen x)) in *.
  pose proof (sdsHdrSize_range t Ht). pose proof (sdsHdrSize_range t' Hrt).
  rewrite !(wrapu_small 64 (_ + _ + _)) by (unfold in_u; lia). rewrite (ha_mk _ _ _ _ _ Hs').
  replace (x ++ 0 :: free) with ((x ++ [0]) ++ free) by by rewrite <- app_assoc.
  destruct ((t =? t') || (t' >? SDS_TYPE_8)).
  - replace (sdsHdrSize t + zlen x + 1) with (zlen (hdr t (zlen x) cap ++ x ++ [0])).
    2:{ zl. rewrite zlen_sdshdr by done. lia. }
    cbn [blk mk]. rewrite (app_assoc (hdr _ _ _) (x ++ [0]) free), realloc_shrink.
    cbn [mbind option_bind]. change (SDS (hdr t (zlen x) cap ++ x ++ [0]) (sdsHdrSize t))
      with (mk t (zlen x) cap (x ++ [0])). rewrite sdssetalloc_mk by done.
    eexists. split; [done|]. split.
    + exists t, []. constructor; try done; [by eapply ha_len_fits|intros _; change (zlen (@nil Z)) with 0; lia].
    + cbn [blk off mk]. zl. rewrite zlen_sdshdr by done. lia.
  - destruct (sds_move_mk t t' (zlen x) cap (x ++ [0]) free (zlen x)) as (fr & Hfr & ->); [done|done|zl|lia|].
    replace fr with (@nil Z) by (symmetry; apply zlen_0_inv; lia). rewrite app_nil_r.
    eexists. split; [done|]. split.
    + exists t', []. constructor; try done. intros _; change (zlen (@nil Z)) with 0; lia.
    + cbn [blk off mk]. zl. rewrite zlen_sdshdr by done. lia.
Qed.

Lemma incr_ok_grow w cap len k : w ∈ [1; 2; 4; 8]%nat -> in_u (8 * Z.of_nat w) cap ->
  0 <= len -> 0 <= k <= cap - len -> incr_ok w cap len k = true.
Proof.
  intros Hw Hc Hl Hk. unfold incr_ok, in_u in *. rewrite Z.geb_leb, (proj2 (Z.leb_le 0 k)) by lia.
  set_unfold in Hw. destruct Hw as [->|[->|[->|[->|[]]]]];
    cbn [Nat.eqb andb]; rewrite ?(wrapu_small 64), ?(wrapu_small 32) by (unfold in_u; lia);
    by rewrite Z.geb_leb, (proj2 (Z.leb_le k _)) by lia.
Qed.

Lemma incr_ok_shrink w cap len k : w ∈ [1; 2; 4; 8]%nat -> in_u (8 * Z.of_nat w) len ->
  0 < k <= len -> incr_ok w cap len (- k) = true.
Proof.
  intros Hw Hc Hk. unfold incr_ok, in_u in *. rewrite Z.opp_involutive.
  rewrite (Z.geb_leb (- k)), (proj2 (Z.leb_gt 0 (- k))), (proj2 (Z.ltb_lt (- k) 0)) by lia.
  set_unfold in Hw. destruct Hw as [->|[->|[->|[->|[]]]]];
    cbn [Nat.eqb andb orb]; rewrite ?(wrapu_small 64 k), ?(wrapu_small 32 k) by (unfold in_u; lia);
    by rewrite Z.geb_leb, (proj2 (Z.leb_le k _)) by lia.
Qed.

Lemma sdsIncrLen_mk t len cap body k :
  type_ok t -> in_u (type_bits t) len -> in_u (type_bits t) cap -> 0 <= len + k <= cap ->
  k < 0 \/ t <> SDS_TYPE_5 ->
  sdsIncrLen (mk t len cap body) k = put (mk t (len + k) cap body) (len + k) [0].
Proof.
  intros Ht. destruct (flags_mk t len cap body Ht) as (f & Hf & Hb & _ & H5).
  unfold sdsIncrLen. rewrite Hf. cbn [mbind option_bind]. rewrite Hb. revert t Ht Hb H5 Hf.
  refine (type_cases _ _ _).
  - intros _ H5 _ Hl _ Hk [Hneg|Hne]; [|done]. rewrite H5 by done.
    change (type_bits SDS_TYPE_5) with 5 in *. unfold in_u in Hl. change (by_type SDS_TYPE_5 ?a ?b ?c) with a.
    rewrite Z.gtb_ltb, Z.geb_leb, wrapu_small by (unfold in_u; lia).
    rewrite (proj2 (Z.ltb_ge 0 k)), (proj2 (Z.ltb_lt k 0)), (proj2 (Z.leb_le (- k) len)) by lia. cbn [andb orb].
    by rewrite put_flags_5.
  - intros t w _ Hne Hw E _ _ _. unfold type_bits. rewrite !E, !(mk_wide t w) by done. intros Hl Hc Hk _.
    destruct (get_wide w len cap (t :: body) Hl Hc) as [-> ->]. cbn [mbind option_bind].
    assert (incr_ok w cap len k = true) as ->.
    { destruct (Z.lt_ge_cases k 0); [|apply incr_ok_grow; unfold in_u in *; [done|done|lia..]].
      rewrite <- (Z.opp_involutive k). apply incr_ok_shrink; [done|done|]. unfold in_u in Hl. lia. }
    destruct (set_raw w (host_bytes w len) (host_bytes w cap) (t :: body) (len + k)) as [-> _]; [zl..|].
    cbn [mbind option_bind]. by rewrite wrapu_small by (unfold in_u in *; lia).
Qed.

(** The bytes that the caller wrote after the string become part of it. *)
Definition sds_fill (s : sds_t) (n : Z) (y : list Z) : option sds_t :=
  oldlen ← sdslen s;
  s ← sdsMakeRoomFor junk s n;
  s ← put s oldlen y;
  sdsIncrLen s (zlen y).

Lemma sds_fill_holds s x cap n y : holds s x cap -> 0 < n -> zlen y <= n -> zlen x + n < 2 ^ 62 ->
  exists s' cap', sds_fill s n y = Some s' /\ holds s' (x ++ y) cap'.
Proof.
  intros Hs Hpos Hy Hlt. pose proof (zlen_nonneg x). pose proof (zlen_nonneg y).
  unfold sds_fill. rewrite (sdslen_holds _ _ _ Hs). cbn [mbind option_bind].
  destruct (sdsMakeRoomFor_room s x cap n Hs) as (s1 & t & free & cap1 & -> & Hs1 & Hroom & Ht5 & _); [lia..|].
  destruct (room _ _ _ _ _ (zlen y) Hs1) as (e & b & rest & E & He & Hr); [lia|].
  pose proof (ha_type _ _ _ _ _ Hs1) as Ht. cbn [mbind option_bind].
  rewrite (ha_mk _ _ _ _ _ Hs1), E, (put_mk _ _ _ x e y (b :: rest)) by done. cbn [mbind option_bind].
  rewrite sdsIncrLen_mk; [|done|by eapply ha_len_fits|apply Hs1|lia|right; by apply Ht5].
  rewrite app_assoc, (put_mk _ _ _ (x ++ y) [b] [0] rest), <- zlen_app by first [done | zl].
  destruct (rebuild _ _ _ _ _ (x ++ y) rest Hs1) as (cap' & Hc & _); [zl..|]. by eexists _, cap'.
Qed.

(** A string that is cut: its content is a prefix of the old one, behind which the
    terminator was written. *)
Lemma cut_holds t free x cap s a b rest :
  holds_as t free x cap s -> a ++ b :: rest = x ++ 0 :: free -> zlen a <= cap ->
  exists s' cap', put (mk t (zlen a) cap (a ++ b :: rest)) (zlen a) [0] = Some s' /\ holds s' a cap'.
Proof.
  intros Hs E Ha. rewrite (put_mk _ _ _ a [b] [0] rest) by first [done | apply Hs].
  destruct (rebuild _ _ _ _ _ a rest Hs) as (cap' & Hc & _);
    [done|apply (f_equal zlen) in E; zl|by eexists _, cap'].
Qed.

Lemma sdsIncrLen_cut s x cap k : holds s x cap -> 0 < k <= zlen x ->
  exists s' cap', sdsIncrLen s (- k) = Some s' /\ holds s' (take (Z.to_nat (zlen x - k)) x) cap'.
Proof.
  intros (t & free & Hs) Hk. destruct (split_at x (zlen x - k)) as (a & z & Ex & Ha); [lia|].
  pose proof (ha_len _ _ _ _ _ Hs). rewrite (ha_mk _ _ _ _ _ Hs).
  rewrite sdsIncrLen_mk; [|apply Hs|by eapply ha_len_fits|apply Hs|lia|left; lia].
  replace (take (Z.to_nat (zlen x - k)) x) with a by (rewrite <- Ha, Ex; symmetry; by apply take_zlen_app).
  replace (zlen x + - k) with (zlen a) by lia.
  destruct z as [|b z]; [exfalso; apply (f_equal zlen) in Ex; zl|].
  replace (x ++ 0 :: free) with (a ++ b :: z ++ 0 :: free) by by rewrite Ex, <- app_assoc.
  apply (cut_holds _ _ _ _ _ _ _ _ Hs); [by rewrite Ex, <- app_assoc|lia].
Qed.

(** The part [b] of the content is moved to the front, unless it is there or empty. *)
Lemma slide_holds t free x cap s (move : bool) a b c :
  holds_as t free x cap s -> x = a ++ b ++ c -> (move = false -> a = [] \/ b = []) ->
  exists s' cap',
    (s ← (if move then sds_memmove s (zlen a) (zlen b) else Some s);
     s ← put s (zlen b) [0]; sdssetlen s (zlen b)) = Some s' /\ holds s' b cap'.
Proof.
  intros Hs Ex Hmove. pose proof (ha_type _ _ _ _ _ Hs) as Ht. pose proof (ha_len _ _ _ _ _ Hs) as Hle.
  pose proof (zlen_nonneg a). pose proof (zlen_nonneg c). pose proof (zlen_nonneg free).
  assert (exists d, zlen d = zlen a + zlen c + 1 + zlen free /\
    (if move then sds_memmove s (zlen a) (zlen b) else Some s) = Some (mk t (zlen x) cap (b ++ d)))
    as (d & Hd & ->).
  { rewrite (ha_mk _ _ _ _ _ Hs). replace (x ++ 0 :: free) with (a ++ b ++ c ++ 0 :: free) by by rewrite Ex, <- !app_assoc.
    destruct move.
    - destruct (memmove_mk t (zlen x) cap a b (c ++ 0 :: free) Ht) as (c' & Hc' & ->).
      exists (c' ++ c ++ 0 :: free). split; [zl|done].
    - destruct (Hmove eq_refl) as [-> | ->].
      + exists (c ++ 0 :: free). split; [|done]. zl.
      + exists (a ++ c ++ 0 :: free). split; [zl|done]. }
  destruct d as [|q rest]; [exfalso; zl|]. cbn [mbind option_bind].
  rewrite (put_mk _ _ _ b [q] [0] rest) by done. cbn [mbind option_bind]. rewrite sdssetlen_mk by done.
  subst x. destruct (rebuild _ _ _ _ _ b rest Hs) as (cap' & Hc & _); [zl..|]. by eexists _, cap'.
Qed.

(** The bytes between two positions, negative ones counted from the end; an end that is
    before the string is its first byte. *)
Definition range_of (x : list Z) (start last : Z) : list Z :=
  let from i := if i <? 0 then Z.max 0 (zlen x + i) else i in
  take (Z.to_nat (from last - from start + 1)) (drop (Z.to_nat (from start)) x).

Lemma range_of_split (x : list Z) i j : 0 <= i -> i <= j -> i < zlen x ->
  exists a c, x = a ++ take (Z.to_nat (j - i + 1)) (drop (Z.to_nat i) x) ++ c /\ zlen a = i /\
    zlen (take (Z.to_nat (j - i + 1)) (drop (Z.to_nat i) x)) = (if j >=? zlen x then zlen x - i else j - i + 1).
Proof.
  intros Hi Hj Hlt. exists (take (Z.to_nat i) x), (drop (Z.to_nat (j - i + 1)) (drop (Z.to_nat i) x)).
  rewrite !take_drop. split_and!; [done|unfold zlen in *; rewrite length_take; lia|].
  unfold zlen in *. rewrite length_take, length_drop. rewrite Z.geb_leb. case_if; lia.
Qed.

Lemma sdsrange_holds s x cap start last :
  holds s x cap -> in_s 64 start -> in_s 64 last -> last < 2 ^ 63 - 1 -> zlen x < 2 ^ 62 ->
  exists s' cap', sdsrange s start last = Some s' /\ holds s' (range_of x start last) cap'.
Proof.
  intros Hs Hstart Hlast Hmax Hx. pose proof (zlen_nonneg x). unfold in_s in *. change (64 - 1) with 63 in *.
  unfold sdsrange. rewrite (sdslen_holds _ _ _ Hs). cbn [mbind option_bind]. case_if.
  { apply zlen_0_inv in Hif as ->. eexists _, cap. split; [done|]. unfold range_of. by rewrite drop_nil, take_nil. }
  unfold range_of. rewrite (wraps_small 64 (zlen x)) by (unfold in_s; lia).
  set (i := if start <? 0 then Z.max 0 (zlen x + start) else start).
  set (j := if last <? 0 then Z.max 0 (zlen x + last) else last).
  assert ((if start <? 0 then Z.max 0 (wraps 64 (zlen x + start)) else start) = i) as ->.
  { unfold i. case_if; [|done]. by rewrite wraps_small by (unfold in_s; lia). }
  assert ((if last <? 0 then Z.max 0 (wraps 64 (zlen x + last)) else last) = j) as ->.
  { unfold j. case_if; [|done]. by rewrite wraps_small by (unfold in_s; lia). }
  assert (0 <= i) as Hi by (unfold i; case_if; lia). assert (0 <= j < 2 ^ 63 - 1) as Hj by (unfold j; case_if; lia).
  clearbody i j. pose proof Hs as (t & free & Hs'). rewrite !Z.gtb_ltb, !Z.geb_leb. destruct (Z.ltb_spec j i).
  - cbn [mbind option_bind]. replace (Z.to_nat (j - i + 1)) with 0%nat by lia. rewrite take_0.
    apply (slide_holds _ _ _ _ _ false [] [] x Hs'); [done|by left].
  - unfold ssize_inc. rewrite (proj2 (Z.ltb_lt (j - i + 1) _)) by lia. cbn [mbind option_bind].
    rewrite (proj2 (Z.eqb_neq (j - i + 1) 0)) by lia. cbn [negb].
    destruct (Z.leb_spec (zlen x) i).
    + rewrite drop_ge, take_nil by (unfold zlen in *; lia). rewrite andb_false_r.
      apply (slide_holds _ _ _ _ _ false [] [] x Hs'); [done|by left].
    + destruct (range_of_split x i j) as (a & c & Ex & Ha & Hb); [lia..|].
      rewrite Z.geb_leb in Hb. set (b := take _ _) in *. clearbody b.
      assert ((if zlen x <=? j then (i, if zlen x - 1 <? i then 0 else zlen x - 1 - i + 1) else (i, j - i + 1))
              = (zlen a, zlen b)) as E.
      { rewrite Hb, Ha. case_if; [|done]. rewrite (proj2 (Z.ltb_ge _ _)) by lia. f_equal. lia. }
      rewrite E. apply (slide_holds _ _ _ _ _ (negb (zlen a =? 0) && negb (zlen b =? 0)) a b c Hs' Ex).
      intros [Hn|Hn]%andb_false_iff; zbool; [left|right]; by apply zlen_0_inv.
Qed.

(** The list without its first elements that satisfy [p]. *)
Fixpoint drop_while (p : Z -> bool) (l : list Z) : list Z :=
  match l with
  | [] => []
  | c :: l' => if p c then drop_while p l' else l
  end.

Definition trim_of (p : Z -> bool) (x : list Z) : list Z :=
  reverse (drop_while p (reverse (drop_while p x))).

Lemma drop_while_suffix p l : exists u, l = u ++ drop_while p l.
Proof.
  induction l as [|c l [u E]]; [by exists []|]. simpl. case_if; [|by exists []].
  exists (c :: u). simpl. by rewrite <- E.
Qed.

Lemma drop_while_head p l c l' : drop_while p l = c :: l' -> p c = false.
Proof. induction l as [|d l IH]; simpl; [done|]. case_if; [done|]. by intros [= -> _]. Qed.

Lemma trim_left_spec fuel t len alloc cset a y rest :
  type_ok t -> (length y <= fuel)%nat ->
  trim_left fuel (mk t len alloc (a ++ y ++ rest)) cset (zlen a) (zlen a + zlen y - 1)
  = Some (zlen a + zlen y - zlen (drop_while (in_cset cset) y)).
Proof.
  intros Ht. revert fuel a. induction y as [|c y IH]; intros fuel a Hf.
  - destruct fuel; cbn [trim_left drop_while]; change (zlen (@nil Z)) with 0;
      rewrite (proj2 (Z.leb_gt _ _)) by lia; f_equal; lia.
  - destruct fuel as [|fuel]; [simpl in Hf; lia|]. cbn [trim_left drop_while app].
    pose proof (zlen_nonneg y). rewrite (proj2 (Z.leb_le _ _)) by zl.
    rewrite at_mk by done. cbn [mbind option_bind]. case_if; [|f_equal; lia].
    rewrite (cons_middle c a), (app_assoc a [c]).
    replace (zlen a + 1) with (zlen (a ++ [c])) by zl.
    replace (zlen a + zlen (c :: y)) with (zlen (a ++ [c]) + zlen y) by zl.
    apply IH. simpl in Hf. lia.
Qed.

Lemma trim_right_spec fuel t len alloc cset a c y rest :
  type_ok t -> in_cset cset c = false -> (length y <= fuel)%nat ->
  trim_right fuel (mk t len alloc (a ++ (c :: y) ++ rest)) cset (zlen a + zlen y) (zlen a)
  = Some (zlen a + zlen (drop_while (in_cset cset) (reverse (c :: y))) - 1).
Proof.
  intros Ht Hc. revert fuel rest. induction y as [|d y IH] using rev_ind; intros fuel rest Hf.
  - change (reverse [c]) with [c]. cbn [drop_while]. rewrite Hc.
    destruct fuel; cbn [trim_right]; rewrite Z.gtb_ltb, (proj2 (Z.ltb_ge _ _)); zl; f_equal; lia.
  - rewrite length_app in Hf. simpl in Hf. destruct fuel as [|fuel]; [lia|].
    cbn [trim_right]. pose proof (zlen_nonneg y).
    rewrite Z.gtb_ltb, (proj2 (Z.ltb_lt _ _)) by zl.
    change (c :: y ++ [d]) with ((c :: y) ++ [d]). rewrite reverse_snoc. cbn [drop_while].
    rewrite <- (app_assoc (c :: y)), (app_assoc a (c :: y)). cbn [app].
    rewrite (at_mk _ _ _ (a ++ c :: y) d rest) by first [done | zl]. cbn [mbind option_bind]. case_if.
    + rewrite <- app_assoc. replace (zlen a + zlen (y ++ [d]) - 1) with (zlen a + zlen y) by zl.
      apply (IH fuel (d :: rest)). lia.
    + rewrite zlen_cons. f_equal. unfold zlen. rewrite length_reverse, length_app. simpl. lia.
Qed.

Lemma sdstrim_holds s x cap cset : holds s x cap ->
  exists s' cap', sdstrim s cset = Some s' /\ holds s' (trim_of (in_cset cset) x) cap'.
Proof.
  intros Hs. pose proof Hs as (t & free & Hs'). pose proof (ha_type _ _ _ _ _ Hs') as Ht.
  destruct (drop_while_suffix (in_cset cset) x) as (a & Ex).
  destruct (drop_while_suffix (in_cset cset) (reverse (drop_while (in_cset cset) x))) as (c' & Er).
  unfold trim_of. set (y := drop_while (in_cset cset) x) in *.
  set (r := drop_while (in_cset cset) (reverse y)) in *.
  assert (x = a ++ reverse r ++ reverse c') as Hx.
  { rewrite <- reverse_app, <- Er, reverse_involutive. done. }
  assert (length x <= length (blk s))%nat as Hfuel.
  { rewrite (ha_mk _ _ _ _ _ Hs'). cbn [blk mk]. rewrite !length_app. lia. }
  assert (zlen x - zlen y = zlen a) as Ha by (rewrite Ex at 1; zl).
  assert (zlen (reverse r) = zlen r) as Hr by (unfold zlen; by rewrite length_reverse).
  pose proof (zlen_nonneg r). pose proof (zlen_nonneg a).
  unfold sdstrim. rewrite (sdslen_holds _ _ _ Hs). cbn [mbind option_bind].
  assert (trim_left (length (blk s)) s cset 0 (zlen x - 1) = Some (zlen a)) as ->.
  { rewrite (ha_mk _ _ _ _ _ Hs') at 2. rewrite <- Ha.
    by apply (trim_left_spec _ t (zlen x) cap cset [] x). }
  cbn [mbind option_bind].
  assert (trim_right (length (blk s)) s cset (zlen x - 1) (zlen a) = Some (zlen a + zlen r - 1)) as ->.
  { destruct y as [|c y'] eqn:Ey.
    - change r with (@nil Z). change (zlen (@nil Z)) with 0 in *.
      assert ((zlen x - 1 >? zlen a) = false) as E by (rewrite Z.gtb_ltb; apply Z.ltb_ge; lia).
      destruct (length (blk s)); cbn [trim_right]; rewrite E; f_equal; lia.
    - rewrite (ha_mk _ _ _ _ _ Hs') at 2.
      replace (x ++ 0 :: free) with (a ++ (c :: y') ++ 0 :: free) by by rewrite Ex at 1; rewrite <- app_assoc.
      replace (zlen x - 1) with (zlen a + zlen y') by zl.
      apply trim_right_spec; [done|by eapply drop_while_head|].
      rewrite Ex in Hfuel. rewrite length_app in Hfuel. simpl in Hfuel. lia. }
  cbn [mbind option_bind].
  assert ((if zlen a >? zlen a + zlen r - 1 then 0 else zlen a + zlen r - 1 - zlen a + 1) = zlen (reverse r)) as ->
    by (rewrite Hr, Z.gtb_ltb; case_if; lia).
  apply (slide_holds _ _ _ _ _ (negb (zlen a =? 0)) a (reverse r) (reverse c') Hs' Hx).
  intros Hn. zbool. left. by apply zlen_0_inv.
Qed.

(** ** New strings *)

Lemma raw_new t j body n : type_ok t -> zlen j = sdsHdrSize t ->
  (let s := SDS (j ++ body) (sdsHdrSize t) in
   by_type t (put s (-1) [wrapu 8 (Z.lor t (Z.shiftl n SDS_TYPE_BITS))])
     (fun w => s ← set_field s (hdr_len w) w n; s ← set_field s (hdr_alloc w) w n; put s (-1) [t]) (Some s))
  = Some (mk t n n body).
Proof.
  intros Ht. revert t Ht. refine (type_cases _ _ _).
  - intros Hj. change (by_type SDS_TYPE_5 ?a ?b ?c) with a. change (sdsHdrSize SDS_TYPE_5) with 1 in *.
    unfold put. cbn [blk off]. change (1 + -1) with 0. by rewrite wr_front by (by rewrite Hj).
  - intros t w Ht Ht5 _ E Hj. destruct (raw_wide t w j Ht E Hj) as (j1 & j2 & f & -> & H1 & H2).
    cbv zeta. rewrite E, (mk_wide t w) by done. unfold sdsHdrSize. rewrite E.
    replace ((j1 ++ j2 ++ [f]) ++ body) with (j1 ++ j2 ++ f :: body) by by rewrite <- !app_assoc.
    destruct (set_raw w j1 j2 (f :: body) n H1 H2) as [-> _]. cbn [mbind option_bind].
    destruct (set_raw w (host_bytes w n) j2 (f :: body) n) as [_ ->]; [zl..|]. cbn [mbind option_bind].
    unfold put. cbn [blk off]. replace (2 * Z.of_nat w + 1 + -1) with (zlen (host_bytes w n ++ host_bytes w n)) by zl.
    rewrite (app_assoc (host_bytes w n)), (wr_app _ [f] [t] body) by done. by rewrite <- app_assoc.
Qed.

(** What a new string contains. *)
Definition init_of (init : sds_init) (x : list Z) : Prop :=
  match init with
  | NOINIT n => zlen x = n
  | ZEROS n => x = replicate (Z.to_nat n) 0
  | BYTES bs => x = bs
  end.

Lemma sdsnewlen_holds init : 0 <= init_len init < 2 ^ 62 ->
  exists s x, sdsnewlen junk init = Some s /\ holds s x (zlen x) /\ init_of init x.
Proof.
  intros Hn. unfold sdsnewlen. set (n := init_len init) in *.
  set (t := if (sdsReqType n =? SDS_TYPE_5) && (n =? 0) then SDS_TYPE_8 else sdsReqType n).
  assert (type_ok t /\ in_u (type_bits t) n) as [Ht Hfit].
  { unfold t. case_if; [|apply sdsReqType_spec; unfold in_u; lia]. split; [done|].
    change (type_bits SDS_TYPE_8) with 8. unfold in_u. lia. }
  clearbody t. pose proof (sdsHdrSize_range t Ht).
  rewrite (wrapu_small 64 (_ + _ + _)) by (unfold in_u; lia).
  set (m := if init is ZEROS _ then _ else _).
  assert (zlen m = sdsHdrSize t + n + 1) as Hm.
  { unfold m. destruct init; try (apply malloc_app; lia). unfold zlen. rewrite length_replicate. lia. }
  destruct (split_at m (sdsHdrSize t)) as (j & k & Em & Hj); [lia|].
  assert (zlen k = n + 1) as Hk by (rewrite Em in Hm; zl).
  destruct (split_at k n) as (d & [|q [|? l]] & -> & Hd); [lia|zl..| |exfalso; zl; pose proof (zlen_nonneg l); lia].
  assert (exists x, (if init is BYTES bs then if negb (n =? 0) then put (mk t n n (d ++ [q])) 0 bs
            else Some (mk t n n (d ++ [q])) else Some (mk t n n (d ++ [q]))) = Some (mk t n n (x ++ [q])) /\
          zlen x = n /\ init_of init x) as (x & Ex & Hx & Hi).
  { destruct init as [n0|n0|bs]; cbn [init_len init_of] in *.
    - by exists d.
    - exists d. split_and!; [done|done|].
      assert (Forall (eq 0) (j ++ d ++ [q])) as Hall by (rewrite <- Em; unfold m; by apply Forall_replicate).
      apply Forall_app in Hall as [_ [Hall _]%Forall_app].
      replace n0 with (zlen d) by exact Hd. unfold zlen. rewrite Nat2Z.id.
      symmetry. apply replicate_as_Forall. by split; [|apply (Forall_impl _ _ _ Hall)].
    - exists bs. split_and!; [|done..]. case_if; cbn [negb].
      + apply (put_mk t n n [] d bs [q]); done.
      + replace bs with (@nil Z) by (symmetry; by apply zlen_0_inv).
        replace d with (@nil Z) by (symmetry; apply zlen_0_inv; lia). done. }
  pose proof (raw_new t j (d ++ [q]) n Ht Hj) as R. cbv zeta in R. rewrite Em, R. cbn [mbind option_bind].
  rewrite Ex. cbn [mbind option_bind]. rewrite (put_mk _ _ _ x [q] [0] []) by done.
  exists (mk t n n (x ++ [0])), x. split_and!; [done| |done].
  exists t, []. rewrite <- Hx in *. constructor; try done. intros _. change (zlen (@nil Z)) with 0. lia.
Qed.

Lemma sdsdup_holds s x cap : holds s x cap -> zlen x < 2 ^ 62 ->
  exists s', sdsdup junk s = Some s' /\ holds s' x (zlen x).
Proof.
  intros Hs Hx. unfold sdsdup. rewrite (sdslen_holds _ _ _ Hs). cbn [mbind option_bind].
  destruct Hs as (t & free & Hs). rewrite (ha_mk _ _ _ _ _ Hs), bytes_mk by first [done | apply Hs].
  cbn [mbind option_bind]. destruct (sdsnewlen_holds (BYTES x)) as (s' & x' & -> & Hs' & Hi).
  { cbn [init_len]. auto with redis. }
  cbn [init_of] in Hi. subst x'. by eexists.
Qed.

(** ** Sequences of operations *)

(** The calls of a program on one string, which it replaces by the result of each. *)
Inductive sds_op :=
  | Cat (t : list Z) | Cpy (t : list Z) | GrowZero (len : Z) | Range (start last : Z)
  | Trim (cset : list Z) | Clear | MakeRoom (addlen : Z) | RemoveFree | Dup
  | Fill (n : Z) (y : list Z) | Cut (k : Z).

Definition sds_step (s : sds_t) (op : sds_op) : option sds_t :=
  match op with
  | Cat t => sdscatlen junk s t
  | Cpy t => sdscpylen junk s t
  | GrowZero len => sdsgrowzero junk s len
  | Range start last => sdsrange s start last
  | Trim cset => sdstrim s cset
  | Clear => sdsclear s
  | MakeRoom addlen => sdsMakeRoomFor junk s addlen
  | RemoveFree => sdsRemoveFreeSpace junk s
  | Dup => sdsdup junk s
  | Fill n y => sds_fill s n y
  | Cut k => sdsIncrLen s (- k)
  end.

(** The same on the content. *)
Definition op_spec (x : list Z) (op : sds_op) : list Z :=
  match op with
  | Cat t => x ++ t
  | Cpy t => t
  | GrowZero len => x ++ replicate (Z.to_nat (len - zlen x)) 0
  | Range start last => range_of x start last
  | Trim cset => trim_of (in_cset cset) x
  | Clear => []
  | MakeRoom _ | RemoveFree | Dup => x
  | Fill _ y => x ++ y
  | Cut k => take (Z.to_nat (zlen x - k)) x
  end.

(** The arguments a caller may pass for a content [x]: sizes of less than [2 ^ 62] bytes. *)
Definition op_fits (x : list Z) (op : sds_op) : bool :=
  (zlen x <? 2 ^ 62) &&
  match op with
  | Cat t => zlen x + zlen t <? 2 ^ 62
  | Cpy t => zlen t <? 2 ^ 62
  | GrowZero len => (0 <=? len) && (len <? 2 ^ 62)
  | Range start last => bool_decide (in_s 64 start) && bool_decide (in_s 64 last) && (last <? 2 ^ 63 - 1)
  | MakeRoom n => (0 <=? n) && (zlen x + n <? 2 ^ 62)
  | Fill n y => (0 <? n) && (zlen y <=? n) && (zlen x + n <? 2 ^ 62)
  | Cut k => (0 <? k) && (k <=? zlen x)
  | Trim _ | Clear | RemoveFree | Dup => true
  end.

Lemma sds_step_holds s x cap op : holds s x cap -> op_fits x op = true ->
  exists s' cap', sds_step s op = Some s' /\ holds s' (op_spec x op) cap'.
Proof.
  intros Hs Hf. unfold op_fits in Hf. destruct op; zbool; cbn [sds_step op_spec].
  - by eapply sdscatlen_holds.
  - by eapply sdscpylen_holds.
  - by eapply sdsgrowzero_holds.
  - by eapply sdsrange_holds; [|eapply bool_decide_eq_true..| |].
  - by eapply sdstrim_holds.
  - by eapply sdsclear_holds.
  - destruct (sdsMakeRoomFor_room s x cap addlen Hs) as (s' & t & free & cap' & E & Hs' & _); [done..|].
    exists s', cap'. split; [done|]. by exists t, free.
  - destruct (sdsRemoveFreeSpace_holds s x cap Hs) as (s' & E & Hs' & _); [done|]. by exists s', (zlen x).
  - destruct (sdsdup_holds s x cap Hs) as (s' & E & Hs'); [done|]. by exists s', (zlen x).
  - by eapply sds_fill_holds.
  - by eapply sdsIncrLen_cut.
Qed.

Fixpoint sds_run (s : sds_t) (ops : list sds_op) : option sds_t :=
  match ops with
  | [] => Some s
  | op :: ops => s ← sds_step s op; sds_run s ops
  end.

Fixpoint ops_fit (x : list Z) (ops : list sds_op) : bool :=
  match ops with
  | [] => true
  | op :: ops => op_fits x op && ops_fit (op_spec x op) ops
  end.

Lemma sds_run_holds ops s x cap : holds s x cap -> ops_fit x ops = true ->
  exists s' cap', sds_run s ops = Some s' /\ holds s' (fold_left op_spec ops x) cap'.
Proof.
  revert s x cap. induction ops as [|op ops IH]; intros s x cap Hs Hf; [by exists s, cap|].
  cbn [ops_fit] in Hf. zbool. destruct (sds_step_holds s x cap op Hs) as (s1 & cap1 & E & Hs1); [done|].
  cbn [sds_run fold_left]. rewrite E. cbn [mbind option_bind]. by apply (IH s1 _ cap1).
Qed.

(** What a program sees of a string: its length and its bytes with the terminator. *)
Definition sds_view (s : sds_t) : option (list Z) :=
  len ← sdslen s; sds_bytes s (len + 1).

Lemma sds_view_holds s x cap : holds s x cap -> sds_view s = Some (x ++ [0]).
Proof.
  intros Hs. unfold sds_view. rewrite (sdslen_holds _ _ _ Hs). cbn [mbind option_bind].
  destruct Hs as (t & free & Hs). rewrite (ha_mk _ _ _ _ _ Hs).
  replace (x ++ 0 :: free) with ((x ++ [0]) ++ free) by by rewrite <- app_assoc.
  apply bytes_mk; [apply Hs|zl].
Qed.

(** ** The theorems *)

(** C20 Any sequence of calls on a string (append, copy, grow with zeros, range, trim,
    clear, reserve, release the free space, duplicate, append through the buffer, cut
    from the right) whose arguments fit stays within its blocks, fails no assertion and
    leaves the bytes that the list operations give, followed by a terminator, whatever
    the headers the string goes through and whatever the allocator returns. *)
Theorem sds_ops_refine_lists bs ops :
  zlen bs < 2 ^ 62 -> ops_fit bs ops = true ->
  exists s s', sdsnewlen junk (BYTES bs) = Some s /\ sds_run s ops = Some s' /\
    sds_view s' = Some (fold_left op_spec ops bs ++ [0]).
Proof.
  intros Hb Hf. destruct (sdsnewlen_holds (BYTES bs)) as (s & x & E & Hs & Hi); [cbn [init_len]; auto with redis|].
  cbn [init_of] in Hi. subst x. destruct (sds_run_holds ops s bs _ Hs Hf) as (s' & cap' & E' & Hs').
  exists s, s'. split_and!; [done|done|by eapply sds_view_holds].
Qed.

(** sdsMakeRoomFor leaves the content, and room for at least [addlen] bytes: a string
    with enough room is returned as it is, another one gets twice the bytes it needs, or
    1 MB more than them from 1 MB on, under a header whose counters hold that capacity and
    that remembers free space. *)
Theorem sdsMakeRoomFor_grows s x cap addlen :
  holds s x cap -> 0 <= addlen -> zlen x + addlen < 2 ^ 62 ->
  exists s' cap', sdsMakeRoomFor junk s addlen = Some s' /\ holds s' x cap' /\
    sdsalloc s' = Some cap' /\ sdsavail s' = Some (cap' - zlen x) /\ addlen <= cap' - zlen x /\
    (addlen <= cap - zlen x -> s' = s) /\
    (cap - zlen x < addlen -> cap' = grown (zlen x + addlen) /\
       exists flags, at_ s' (-1) = Some flags /\ Z.land flags SDS_TYPE_MASK = grow_type cap').
Proof.
  intros Hs Hadd Hlt. destruct (sdsMakeRoomFor_holds s x cap addlen Hs Hadd Hlt) as (s' & E & Hs').
  destruct (Z.leb_spec addlen (cap - zlen x)) as [Hle|Hgt].
  - subst s'. exists s, cap.
    split_and!; [done|done|by eapply sdsalloc_holds|by eapply sdsavail_holds|done|done|lia].
  - destruct Hs' as (free & Hs'). assert (holds s' x (grown (zlen x + addlen))) as Hh by by eexists _, free.
    exists s', (grown (zlen x + addlen)).
    split_and!; [done|done|by eapply sdsalloc_holds|by eapply sdsavail_holds| |lia|].
    + pose proof (zlen_nonneg x). unfold grown, SDS_MAX_PREALLOC. case_if; lia.
    + intros _. split; [done|]. by eapply flags_holds.
Qed.

(** An increment of zero fails the assertion of sdsIncrLen on a string of type 5, where the
    test is [incr > 0] and not [incr >= 0] as for the other types. *)
Theorem sdsIncrLen_zero_asserts free x cap s :
  holds_as SDS_TYPE_5 free x cap s -> sdsIncrLen s 0 = None.
Proof.
  intros Hs. rewrite (ha_mk _ _ _ _ _ Hs).
  destruct (flags_mk SDS_TYPE_5 (zlen x) cap (x ++ 0 :: free)) as (f & Hf & Hb & _); [done|].
  unfold sdsIncrLen. rewrite Hf. cbn [mbind option_bind]. by rewrite Hb.
Qed.

End spec.

#[local] Instance little_host : Host := false.

(** A string that goes from the header of 1 byte to the one of 5 bytes and back. *)
Definition sample_ops : list sds_op :=
  [Cat [32; 33]; GrowZero 300; Range 1 (-298); Fill 16 [120; 121]; Trim [32]; RemoveFree; Cut 1; Dup].

Lemma sds_ops_refine_lists_witness :
  ops_fit [97; 98; 99] sample_ops = true /\
  exists s s', sdsnewlen (fun _ => 7) (BYTES [97; 98; 99]) = Some s /\
    sds_run (fun _ => 7) s sample_ops = Some s' /\
    sds_view s' = Some (fold_left op_spec sample_ops [97; 98; 99] ++ [0]).
Proof.
  split; [vm_compute; reflexivity|].
  apply (sds_ops_refine_lists (fun _ => 7) [97; 98; 99] sample_ops); vm_compute; reflexivity.
Defined.

Lemma sample_holds : holds (SDS [24; 97; 98; 99; 0] 1) [97; 98; 99] 3.
Proof.
  exists SDS_TYPE_5, []. constructor; try reflexivity; try done.
Qed.

Lemma sdsMakeRoomFor_grows_witness :
  exists s' cap', sdsMakeRoomFor (fun _ => 7) (SDS [24; 97; 98; 99; 0] 1) 4 = Some s' /\
    holds s' [97; 98; 99] cap' /\
    sdsalloc s' = Some cap' /\ sdsavail s' = Some (cap' - 3) /\ 4 <= cap' - 3 /\
    (4 <= 3 - 3 -> s' = SDS [24; 97; 98; 99; 0] 1) /\
    (3 - 3 < 4 -> cap' = grown (3 + 4) /\
       exists flags, at_ s' (-1) = Some flags /\ Z.land flags SDS_TYPE_MASK = grow_type cap').
Proof.
  apply (sdsMakeRoomFor_grows (fun _ => 7) (SDS [24; 97; 98; 99; 0] 1) [97; 98; 99] 3 4 sample_holds);
    vm_compute; congruence.
Defined.

(** sdstrim removes zero bytes too: strchr finds them in the terminator of the set. *)
Example sdstrim_zero_bytes :
  (s ← sdsnewlen (fun _ => 7) (BYTES [0; 97; 0]); s ← sdstrim s [120]; sds_view s) = Some [97; 0].
Proof. vm_compute. reflexivity. Qed.
