(* ===== verification/Network.v ===== *)
(** * Reading commands from clients (networking.c, catAppendOnlyGenericCommand of aof.c)

    The bytes of a connection are appended to the query buffer of the client by
    [readQueryFromClient] and consumed by [processInputBuffer], which parses commands in the
    inline or in the multi bulk protocol and executes them. The fields of the client
    that these functions use are a record [pclient]; an argument of a command is its
    string. The connection is one of a client that is neither a replica nor a master.

    The execution of a command is a parameter of the functions: [processCommand] maps a state
    and the arguments to a state and to what the caller looks at afterwards. *)

From S2P Require Import Prelude Util Sds SdsArgs.

Definition PROTO_IOBUF_LEN : Z := 1024 * 16.
Definition PROTO_INLINE_MAX_SIZE : Z := 1024 * 64.
Definition PROTO_MBULK_BIG_ARG : Z := 1024 * 32.

Inductive request_type := PROTO_REQ_UNKNOWN | PROTO_REQ_INLINE | PROTO_REQ_MULTIBULK.

(** The errors added as replies: two of [processInlineBuffer], two of the count of arguments and three of their lengths. *)
Inductive proto_error :=
  | too_big_inline | unbalanced_quotes | too_big_mbulk_count | invalid_mbulk_length
  | too_big_bulk_count | expected_dollar (c : Z) | invalid_bulk_length.

Record pclient := PClient {
  querybuf : sds;
  qb_pos : Z;
  reqtype : request_type;
  multibulklen : Z;
  bulklen : Z;
  argv : list sds;
  blocked : bool;
  close_after_reply : bool;
  close_asap : bool;
  replies : list proto_error;
}.

Definition set_buf (c : pclient) (buf : sds) (pos : Z) : pclient :=
  PClient buf pos (reqtype c) (multibulklen c) (bulklen c) (argv c) (blocked c) (close_after_reply c)
    (close_asap c) (replies c).
Definition set_reqtype (c : pclient) (r : request_type) : pclient :=
  PClient (querybuf c) (qb_pos c) r (multibulklen c) (bulklen c) (argv c) (blocked c) (close_after_reply c)
    (close_asap c) (replies c).
Definition set_multi (c : pclient) (mb bl : Z) (av : list sds) : pclient :=
  PClient (querybuf c) (qb_pos c) (reqtype c) mb bl av (blocked c) (close_after_reply c)
    (close_asap c) (replies c).

(** [addReplyError] and [setProtocolError]. *)
Definition setProtocolError (e : proto_error) (c : pclient) : pclient :=
  PClient (querybuf c) (qb_pos c) (reqtype c) (multibulklen c) (bulklen c) (argv c) (blocked c) true
    (close_asap c) (replies c ++ [e]).

(** What is left to parse. *)
Definition unread (c : pclient) : sds := drop (Z.to_nat (qb_pos c)) (querybuf c).

(** [strchr(p, ch)] as an offset from [p]: a zero byte ends the search, as does the one
    behind the string. *)
Fixpoint strchr (ch : Z) (p : sds) : option Z :=
  match p with
  | [] => None
  | x :: p => if x =? ch then Some 0 else if x =? 0 then None else Z.add 1 <$> strchr ch p
  end.

(** [sdsrange(s, start, -1)]. *)
Definition sdsrange_from (s : sds) (start : Z) : sds := drop (Z.to_nat start) s.

(** [true] is [C_OK]. *)
Definition processInlineBuffer (c : pclient) : option (bool * pclient) :=
  match strchr 10 (unread c) with
  | None =>
      Some (false, if zlen (querybuf c) - qb_pos c >? PROTO_INLINE_MAX_SIZE
                   then setProtocolError too_big_inline c else c)
  | Some newline =>
      prev ← (if negb (newline =? 0) then zidx (unread c) (newline - 1) else Some 0);
      let '(newline, linefeed_chars) :=
        if negb (newline =? 0) && (prev =? 13) then (newline - 1, 2) else (newline, 1) in
      let querylen := newline in
      aux ← rd (unread c) 0 querylen;
      av ← sdssplitargs aux;
      match av with
      | None => Some (false, setProtocolError unbalanced_quotes c)
      | Some av =>
          let c := set_buf c (querybuf c) (qb_pos c + (querylen + linefeed_chars)) in
          Some (true, set_multi c (multibulklen c) (bulklen c) (filter (fun a => a <> []) av))
      end
  end.

Section server.
(** [server.proto_max_bulk_len], [server.client_max_querybuf_len], [clientsArePaused()]. *)
Variables (proto_max_bulk_len client_max_querybuf_len : Z) (clientsArePaused : bool).

(** The part of the loop of [processMultibulkBuffer] that reads the length of an argument:
    [inl] leaves the loop, with [true] for the [return C_ERR] of a protocol error and
    [false] for a [break]. *)
Definition read_bulklen (c : pclient) : option (bool * pclient + pclient) :=
  if bulklen c =? -1 then
    match strchr 13 (unread c) with
    | None =>
        if zlen (querybuf c) - qb_pos c >? PROTO_INLINE_MAX_SIZE
        then Some (inl (true, setProtocolError too_big_bulk_count c))
        else Some (inl (false, c))
    | Some newline =>
        if newline >? zlen (querybuf c) - qb_pos c - 2 then Some (inl (false, c))
        else
          first ← zidx (querybuf c) (qb_pos c);
          if negb (first =? 36) then Some (inl (true, setProtocolError (expected_dollar first) c))
          else
            s ← rd (querybuf c) (qb_pos c + 1) (newline - 1);
            match string2ll s with
            | Some ll =>
                if (ll <? 0) || (ll >? proto_max_bulk_len)
                then Some (inl (true, setProtocolError invalid_bulk_length c))
                else
                  let c := set_buf c (querybuf c) (qb_pos c + newline + 2) in
                  let c :=
                    if (ll >=? PROTO_MBULK_BIG_ARG) && (zlen (querybuf c) - qb_pos c <=? ll + 2)
                    then set_buf c (sdsrange_from (querybuf c) (qb_pos c)) 0 else c in
                  Some (inr (set_multi c (multibulklen c) ll (argv c)))
            | None => Some (inl (true, setProtocolError invalid_bulk_length c))
            end
    end
  else Some (inr c).

(** The [while(c->multibulklen)] loop: one unit of fuel per argument. The flag of the result
    tells whether a protocol error returned. *)
Fixpoint mbulk_loop (fuel : nat) (c : pclient) : option (bool * pclient) :=
  if multibulklen c =? 0 then Some (false, c)
  else
    match fuel with
    | O => None
    | S fuel =>
        r ← read_bulklen c;
        match r with
        | inl (err, c) => Some (err, c)
        | inr c =>
            if zlen (querybuf c) - qb_pos c <? bulklen c + 2 then Some (false, c)
            else
              c ← (if (qb_pos c =? 0) && (bulklen c >=? PROTO_MBULK_BIG_ARG)
                      && (zlen (querybuf c) =? bulklen c + 2) then
                     a ← rd (querybuf c) 0 (zlen (querybuf c) - 2);
                     Some (set_multi (set_buf c [] (qb_pos c)) (multibulklen c) (bulklen c) (argv c ++ [a]))
                   else
                     a ← rd (querybuf c) (qb_pos c) (bulklen c);
                     Some (set_multi (set_buf c (querybuf c) (qb_pos c + (bulklen c + 2)))
                             (multibulklen c) (bulklen c) (argv c ++ [a])));
              mbulk_loop fuel (set_multi c (multibulklen c - 1) (-1) (argv c))
        end
    end.

(** The part of [processMultibulkBuffer] that reads the number of arguments: [inl] returns
    from the function. *)
Definition read_multibulklen (c : pclient) : option (bool * pclient + pclient) :=
  if multibulklen c =? 0 then
    if negb (zlen (argv c) =? 0) then None
    else
      match strchr 13 (unread c) with
      | None =>
          Some (inl (false, if zlen (querybuf c) - qb_pos c >? PROTO_INLINE_MAX_SIZE
                            then setProtocolError too_big_mbulk_count c else c))
      | Some newline =>
          if newline >? zlen (querybuf c) - qb_pos c - 2 then Some (inl (false, c))
          else
            first ← zidx (querybuf c) (qb_pos c);
            if negb (first =? 42) then None
            else
              s ← rd (querybuf c) (qb_pos c + 1) (newline - 1);
              match string2ll s with
              | Some ll =>
                  if ll >? 1024 * 1024 then Some (inl (false, setProtocolError invalid_mbulk_length c))
                  else
                    let c := set_buf c (querybuf c) (qb_pos c + newline + 2) in
                    if ll <=? 0 then Some (inl (true, c))
                    else Some (inr (set_multi c ll (bulklen c) (argv c)))
              | None => Some (inl (false, setProtocolError invalid_mbulk_length c))
              end
      end
  else Some (inr c).

Definition processMultibulkBuffer (c : pclient) : option (bool * pclient) :=
  r ← read_multibulklen c;
  match r with
  | inl (ok, c) => Some (ok, c)
  | inr c =>
      if negb (multibulklen c >? 0) then None
      else
        '(err, c) ← mbulk_loop (Z.to_nat (multibulklen c)) c;
        if err : bool then Some (false, c) else Some (multibulklen c =? 0, c)
  end.

Definition resetClient (c : pclient) : pclient :=
  set_multi (set_reqtype c PROTO_REQ_UNKNOWN) 0 (-1) [].

(** What [processInputBuffer] looks at after [processCommand]: the return value, the flags of
    the client and whether the client was freed. *)
Record outcome := Outcome {
  o_ok : bool;
  o_blocked : bool;
  o_module : bool;
  o_close_after_reply : bool;
  o_close_asap : bool;
  o_freed : bool;
}.

Section commands.
Context {X : Type}.
Variable processCommand : X -> list sds -> X * outcome.

Definition set_flags (c : pclient) (o : outcome) : pclient :=
  PClient (querybuf c) (qb_pos c) (reqtype c) (multibulklen c) (bulklen c) (argv c) (o_blocked o)
    (o_close_after_reply o) (o_close_asap o) (replies c).

(** The last lines: the bytes that were parsed are removed from the buffer. *)
Definition trim (c : pclient) : pclient :=
  if negb (qb_pos c =? 0) then set_buf c (sdsrange_from (querybuf c) (qb_pos c)) 0 else c.

(** The [while(c->qb_pos < sdslen(c->querybuf))] loop. An iteration that does not leave the
    loop consumes input. After a command that freed the client the code trims its
    buffer, which is an access to freed memory. *)
Fixpoint input_loop (fuel : nat) (c : pclient) (x : X) : option (pclient * X) :=
  if qb_pos c <? zlen (querybuf c) then
    match fuel with
    | O => None
    | S fuel =>
        if clientsArePaused then Some (c, x)
        else if blocked c then Some (c, x)
        else if close_after_reply c || close_asap c then Some (c, x)
        else
          c ← (match reqtype c with
               | PROTO_REQ_UNKNOWN =>
                   first ← zidx (querybuf c) (qb_pos c);
                   Some (set_reqtype c (if first =? 42 then PROTO_REQ_MULTIBULK else PROTO_REQ_INLINE))
               | _ => Some c
               end);
          '(ok, c) ← (match reqtype c with
                      | PROTO_REQ_INLINE => processInlineBuffer c
                      | _ => processMultibulkBuffer c
                      end);
          if negb ok then Some (c, x)
          else if zlen (argv c) =? 0 then input_loop fuel (resetClient c) x
          else
            let '(x, o) := processCommand x (argv c) in
            let c := set_flags c o in
            if o_freed o then None
            else
              let c := if o_ok o && (negb (o_blocked o) || negb (o_module o)) then resetClient c else c in
              input_loop fuel c x
    end
  else Some (c, x).

Definition processInputBuffer (c : pclient) (x : X) : option (pclient * X) :=
  '(c, x) ← input_loop (S (length (querybuf c))) c x;
  Some (trim c, x).

(** How much [readQueryFromClient] asks of [read]. *)
Definition read_len (c : pclient) : Z :=
  let readlen := PROTO_IOBUF_LEN in
  if (match reqtype c with PROTO_REQ_MULTIBULK => true | _ => false end)
     && negb (multibulklen c =? 0) && negb (bulklen c =? -1) && (bulklen c >=? PROTO_MBULK_BIG_ARG) then
    let remaining := bulklen c + 2 - zlen (querybuf c) in
    if (remaining >? 0) && (remaining <? readlen) then remaining else readlen
  else readlen.

(** One call, when [data] has arrived at the socket and [n] of its bytes are available to
    this [read]. The result is the rest of the data with the client and the state, [Some None]
    when the client is closed. *)
Definition readQueryFromClient (n : nat) (data : sds) (c : pclient) (x : X)
  : option (option (sds * pclient * X)) :=
  let nread := (n `min` Z.to_nat (read_len c))%nat in
  let got := take nread data in
  if zlen got =? 0 then Some None
  else
    let c := set_buf c (querybuf c ++ got) (qb_pos c) in
    if zlen (querybuf c) >? client_max_querybuf_len then Some None
    else
      '(c, x) ← processInputBuffer c x;
      Some (Some (drop nread data, c, x)).

End commands.
End server.

(** ** Writing commands *)

(** [buf[0] = ch; len = 1+ll2string(buf+1,sizeof(buf)-1,v); buf[len++] = '\r';
    buf[len++] = '\n'] with the [len] first bytes appended to [dst]. *)
Definition cat_count (dst buf : sds) (ch v : Z) : option (sds * sds) :=
  buf ← wr buf 0 [ch];
  '(n, tail) ← ll2string (drop 1 buf) 31 v;
  let buf := take 1 buf ++ tail in
  let len := 1 + n in
  buf ← wr buf len [13];
  buf ← wr buf (len + 1) [10];
  s ← rd buf 0 (len + 2);
  Some (dst ++ s, buf).

Fixpoint cat_args (dst buf : sds) (args : list sds) : option sds :=
  match args with
  | [] => Some dst
  | o :: args =>
      '(dst, buf) ← cat_count dst buf 36 (zlen o);
      cat_args ((dst ++ o) ++ [13; 10]) buf args
  end.

(** [buf0] is the uninitialised array of 32 bytes. *)
Definition catAppendOnlyGenericCommand (buf0 dst : sds) (args : list sds) : option sds :=
  '(dst, buf) ← cat_count dst buf0 42 (zlen args);
  cat_args dst buf args.
