(* ===== verification/NetworkSpec.v ===== *)
(** * The protocol: commands written are the commands read

    [enc_cmd] is the encoding of a command in the multi bulk protocol, the one of clients,
    replication and the append only file. However the bytes of a sequence of commands are
    split by the network, exactly these commands are executed, in order. *)

From S2P Require Import Prelude Util Sds SdsArgs Network.

(** ** The encoding *)





(** *** [catAppendOnlyGenericCommand] writes it *)




(** ** Lines that are complete, and lines that are not *)







(** ** The parser *)

(** [U] is what is left to parse. *)
Definition at_buf (c : pclient) (U : sds) : Prop :=
  exists P, querybuf c = P ++ U /\ qb_pos c = zlen P.

Lemma at_unread c U : at_buf c U -> unread c = U.
Proof. intros (P & E & Hp). unfold unread. rewrite E. by apply drop_zlen_app. Qed.


Lemma at_consume c A U : at_buf c (A ++ U) -> at_buf (set_buf c (querybuf c) (qb_pos c + zlen A)) U.
Proof. intros (P & E & Hp). exists (P ++ A). cbn. rewrite E, Hp. split; [by rewrite app_assoc|zl]. Qed.




Section parser.
Context (max_bulk max_query : Z).


Context (Hmax : 0 <= max_bulk < 2 ^ 40).





















(** ** Executing commands *)

Context {X : Type} (processCommand : X -> list sds -> X * outcome).










(** ** The connection *)

Context (Hquery : max_bulk + 24 + PROTO_IOBUF_LEN <= max_query).






End parser.

(** ** Properties *)





(** *** Inline commands *)

Lemma repr_no_newline x : bytes_ok x -> Forall (fun c => c <> 10 /\ c <> 0) (concat (repr_char <$> x)).
Proof.
  induction 1 as [|c x Hc _ IH]; [constructor|]. cbn [fmap list_fmap concat]. apply Forall_app. split; [|done].
  pose proof (byte_check (fun c => forallb (fun d => negb (d =? 10) && negb (d =? 0)) (repr_char c)) c eq_refl Hc) as H.
  cbn beta in H. rewrite forallb_forall in H. apply Forall_forall. intros d Hd%list_elem_of_In.
  specialize (H d Hd). zbool. done.
Qed.

Lemma quoted_no_newline xs : Forall bytes_ok xs -> Forall (fun c => c <> 10 /\ c <> 0) (quoted_line xs).
Proof.
  assert (forall x, bytes_ok x -> Forall (fun c => c <> 10 /\ c <> 0) (sdscatrepr [] x)) as H.
  { intros x Hx. unfold sdscatrepr. rewrite !Forall_app. split_and!; [by repeat constructor..|by apply repr_no_newline|by repeat constructor]. }
  induction 1 as [|x xs Hx Hxs IH]; [constructor|]. cbn [quoted_line]. destruct xs; [by apply H|].
  apply Forall_app. split; [by apply H|]. by constructor.
Qed.

Lemma strchr_line l t : Forall (fun c => c <> 10 /\ c <> 0) l -> strchr 10 (l ++ 10 :: t) = Some (zlen l).
Proof.
  induction 1 as [|d l [H1 H2] _ IH]; cbn [app strchr]; [done|].
  rewrite !(proj2 (Z.eqb_neq d _)) by done. rewrite IH, zlen_cons. cbn. f_equal. lia.
Qed.

(** An inline command whose arguments are printed with quotes by [sdscatrepr] is read with
    these arguments, except that the empty ones are dropped, and the bytes up to and
    including the end of the line are consumed. *)
Theorem processInlineBuffer_reads c xs U :
  Forall bytes_ok xs -> at_buf c (quoted_line xs ++ [13; 10] ++ U) ->
  exists c', processInlineBuffer c = Some (true, c') /\ argv c' = filter (fun a => a <> []) xs /\ at_buf c' U /\
    replies c' = replies c /\ close_after_reply c' = close_after_reply c.
Proof.
  intros Hxs HU. unfold processInlineBuffer. rewrite (at_unread c _ HU).
  assert (quoted_line xs ++ [13; 10] ++ U = (quoted_line xs ++ [13]) ++ 10 :: U) as EU by (by rewrite <- app_assoc).
  assert (strchr 10 (quoted_line xs ++ [13; 10] ++ U) = Some (zlen (quoted_line xs) + 1)) as ->.
  { rewrite EU, strchr_line; [f_equal; zl|]. apply Forall_app. split; [by apply quoted_no_newline|by repeat constructor]. }
  pose proof (zlen_nonneg (quoted_line xs)). rewrite (proj2 (Z.eqb_neq _ 0)) by lia. cbn [negb].
  replace (zlen (quoted_line xs) + 1 - 1) with (zlen (quoted_line xs)) by lia.
  rewrite (zidx_app (quoted_line xs) 13 (10 :: U) (zlen (quoted_line xs)) eq_refl : zidx (_ ++ [13; 10] ++ U) _ = _).
  cbn [mbind option_bind Z.eqb Pos.eqb andb].
  rewrite rd_front by done. cbn [mbind option_bind]. unfold sdssplitargs.
  rewrite (split_quoted_line xs _ []) by (done || apply quoted_line_length). cbn [mbind option_bind app].
  eexists. split; [done|]. split; [done|]. split; [|done].
  pose proof (at_consume c (quoted_line xs ++ [13; 10]) U) as H2. rewrite <- app_assoc in H2. specialize (H2 HU).
  destruct H2 as (P & E1 & E2). exists P. split; [exact E1|]. cbn in *. rewrite <- E2. zl.
Qed.

Module Applied.




Lemma processInlineBuffer_reads_witness :
  exists c', processInlineBuffer (PClient (quoted_line [[71; 69; 84]; []; [107; 32]] ++ [13; 10; 80]) 0
      PROTO_REQ_INLINE 0 (-1) [] false false false []) = Some (true, c') /\
    argv c' = [[71; 69; 84]; [107; 32]] /\ at_buf c' [80] /\ replies c' = [] /\ close_after_reply c' = false.
Proof.
  apply (processInlineBuffer_reads (PClient (quoted_line [[71; 69; 84]; []; [107; 32]] ++ [13; 10; 80]) 0
      PROTO_REQ_INLINE 0 (-1) [] false false false []) [[71; 69; 84]; []; [107; 32]] [80]).
  - repeat constructor; unfold byte_ok; lia.
  - exists []. split; reflexivity.
Defined.

End Applied.
