(* ===== verification/Skiplist.v ===== *)
(** * Skip lists of sorted sets (t_zset.c)

    The nodes live in a heap; [level[i]] of a node is the pair of its [forward]
    pointer and its [span]. A dereference of a pointer that is not in the heap,
    an access to a level a node does not have and a failing assertion are
    [None]. The traversals [for (i = zsl->level-1; i >= 0; i--) while ...] share
    the definition [walk] of the inner loop, which takes the loop's condition. *)

From S2P Require Import Prelude Sds.

Abbreviation loc := positive.

(** The [double] comparisons the code uses, as functions on scores. *)
Class Score (S : Type) := {
  isnan : S -> bool;
  sltb : S -> S -> bool;
  seqb : S -> S -> bool;
  szero : S;
}.

Definition sleb {S} `{Score S} (a b : S) : bool := sltb a b || seqb a b.

Definition ZSKIPLIST_MAXLEVEL : nat := 64.

Section zsl.
Context {score : Type} `{Score score}.

Record zskiplistNode := ZskiplistNode {
  ele : option sds;
  nscore : score;
  backward : option loc;
  levels : list (option loc * Z);
}.

Record zskiplist := Zskiplist {
  header : loc;
  tail : option loc;
  length_ : Z;
  level_ : nat;
}.

Abbreviation heap := (gmap loc zskiplistNode).

(** The address of a new node and what its memory holds. *)
Class ZslMalloc := {
  zmalloc : heap -> loc;
  zmalloc_fresh h : h !! zmalloc h = None;
  junk_backward : option loc;
  junk_level : option loc * Z;
}.

(** [x->level[i]] and the assignment to it. *)
Definition get_level (h : heap) (x : loc) (i : nat) : option (option loc * Z) :=
  n ← h !! x; levels n !! i.
Definition set_level (h : heap) (x : loc) (i : nat) (c : option loc * Z) : option heap :=
  n ← h !! x;
  _ ← levels n !! i;
  Some (<[x := ZskiplistNode (ele n) (nscore n) (backward n) (<[i := c]> (levels n))]> h).
Definition set_backward (h : heap) (x : loc) (b : option loc) : option heap :=
  n ← h !! x; Some (<[x := ZskiplistNode (ele n) (nscore n) b (levels n)]> h).
Definition set_score (h : heap) (x : loc) (s : score) : option heap :=
  n ← h !! x; Some (<[x := ZskiplistNode (ele n) s (backward n) (levels n)]> h).

Definition zslCreateNode `{ZslMalloc} (h : heap) (level : nat) (s : score) (e : option sds) : loc * heap :=
  let x := zmalloc h in
  (x, <[x := ZskiplistNode e s junk_backward (replicate level junk_level)]> h).

(** [zslCreate]: the loop over the levels of the header is [init_levels]. *)
Fixpoint init_levels (n : nat) (h : heap) (x : loc) : option heap :=
  match n with
  | O => Some h
  | S n => h ← set_level h x n (None, 0); init_levels n h x
  end.

Definition zslCreate `{ZslMalloc} (h : heap) : option (heap * zskiplist) :=
  let '(x, h) := zslCreateNode h ZSKIPLIST_MAXLEVEL szero None in
  h ← init_levels ZSKIPLIST_MAXLEVEL h x;
  h ← set_backward h x None;
  Some (h, Zskiplist x None 0 1).

(** Frees the node and returns the string passed to [sdsfree]. *)
Definition zslFreeNode (h : heap) (x : loc) : option (heap * option sds) :=
  n ← h !! x; Some (delete x h, ele n).

Fixpoint zslFree_loop (fuel : nat) (h : heap) (node : option loc) : option (heap * list (option sds)) :=
  match fuel with
  | O => None
  | S fuel =>
      match node with
      | None => Some (h, [])
      | Some x =>
          '(next, _) ← get_level h x 0;
          '(h, e) ← zslFreeNode h x;
          '(h, es) ← zslFree_loop fuel h next;
          Some (h, e :: es)
      end
  end.

Definition zslFree (h : heap) (zsl : zskiplist) : option (heap * list (option sds)) :=
  '(node, _) ← get_level h (header zsl) 0;
  zslFree_loop (S (Z.to_nat (length_ zsl))) (delete (header zsl) h) node.

(** [zslRandomLevel] on the successive results [rs] of [random()]; the bound
    [0.25 * 0xFFFF] is 16383.75. [None] if the results given do not suffice. *)
Fixpoint randomLevel_loop (rs : list Z) (level : nat) : option nat :=
  match rs with
  | [] => None
  | r :: rs => if Z.land r 0xFFFF <? 16384 then randomLevel_loop rs (S level) else Some level
  end.

Definition zslRandomLevel (rs : list Z) : option nat :=
  level ← randomLevel_loop rs 1;
  Some (if (level <? ZSKIPLIST_MAXLEVEL)%nat then level else ZSKIPLIST_MAXLEVEL).

(** The loop [while (x->level[i].forward && go(...))]; [go] is given the rank the
    step leads to and the node. Ranks are integers of [w] bits. *)
Fixpoint walk (w : Z) (go : Z -> zskiplistNode -> option bool) (fuel : nat) (h : heap) (i : nat) (x : loc) (rank : Z)
    : option (loc * Z) :=
  match fuel with
  | O => None
  | S fuel =>
      '(forward, span) ← get_level h x i;
      match forward with
      | None => Some (x, rank)
      | Some y =>
          n ← h !! y;
          b ← go (wrapu w (rank + span)) n;
          if b : bool then walk w go fuel h i y (wrapu w (rank + span))
          else Some (x, rank)
      end
  end.

(** The whole traversal from level [i - 1] down; returns [(update[i], rank[i])]
    for the levels from 0. *)
Fixpoint descend (w : Z) (go : Z -> zskiplistNode -> option bool) (fuel : nat) (h : heap) (i : nat) (x : loc) (rank : Z)
    (acc : list (loc * Z)) : option (list (loc * Z)) :=
  match i with
  | O => Some acc
  | S i =>
      '(x, rank) ← walk w go fuel h i x rank;
      descend w go fuel h i x rank ((x, rank) :: acc)
  end.

Definition traverse (w : Z) (go : Z -> zskiplistNode -> option bool) (h : heap) (zsl : zskiplist) : option (list (loc * Z)) :=
  descend w go (S (Z.to_nat (length_ zsl))) h (level_ zsl) (header zsl) 0 [].

(** [n->score < s || (n->score == s && sdscmp(n->ele, e) < 0)], and with [<=]. *)
Definition before (s : score) (e : sds) (n : zskiplistNode) : option bool :=
  if sltb (nscore n) s then Some true
  else if seqb (nscore n) s then ne ← ele n; Some (sdscmp ne e <? 0) else Some false.
Definition before_eq (s : score) (e : sds) (n : zskiplistNode) : option bool :=
  if sltb (nscore n) s then Some true
  else if seqb (nscore n) s then ne ← ele n; Some (sdscmp ne e <=? 0) else Some false.

(** [for (i = zsl->level; i < level; i++) { rank[i] = 0; update[i] = zsl->header;
    update[i]->level[i].span = zsl->length; }], for [n] levels from [i]. *)
Fixpoint raise_levels (n : nat) (h : heap) (zsl : zskiplist) (i : nat) : option (heap * list (loc * Z)) :=
  match n with
  | O => Some (h, [])
  | S n =>
      '(f, _) ← get_level h (header zsl) i;
      h ← set_level h (header zsl) i (f, length_ zsl);
      '(h, upd) ← raise_levels n h zsl (S i);
      Some (h, (header zsl, 0) :: upd)
  end.

(** [for (; ...; i++) body], for the entries [upd] of [update] and [rank] from [i]. *)
Fixpoint each_level (body : nat -> loc * Z -> heap -> option heap) (upd : list (loc * Z)) (i : nat) (h : heap)
    : option heap :=
  match upd with
  | [] => Some h
  | p :: upd => h ← body i p h; each_level body upd (S i) h
  end.

(** Links the new node [x] after [update[i]] at level [i]. *)
Definition link_level (x : loc) (rank0 : Z) (i : nat) (p : loc * Z) (h : heap) : option heap :=
  let '(u, rank) := p in
  '(f, span) ← get_level h u i;
  h ← set_level h x i (f, wrapu 64 (span - wrapu 32 (rank0 - rank)));
  set_level h u i (Some x, wrapu 32 (wrapu 32 (rank0 - rank) + 1)).

(** [update[i]->level[i].span++]. *)
Definition bump_level (i : nat) (p : loc * Z) (h : heap) : option heap :=
  '(f, span) ← get_level h p.1 i;
  set_level h p.1 i (f, wrapu 64 (span + 1)).

Definition zslInsert `{ZslMalloc} (rs : list Z) (h : heap) (zsl : zskiplist) (s : score) (e : sds)
    : option (heap * zskiplist * loc) :=
  if isnan s then None
  else
    upd ← traverse 32 (fun _ => before s e) h zsl;
    level ← zslRandomLevel rs;
    '(h, new) ← raise_levels (level - level_ zsl) h zsl (level_ zsl);
    let upd := upd ++ new in
    let zsl := Zskiplist (header zsl) (tail zsl) (length_ zsl) (Nat.max level (level_ zsl)) in
    let '(x, h) := zslCreateNode h level s (Some e) in
    '(u0, rank0) ← upd !! O;
    h ← each_level (link_level x rank0) (take level upd) 0 h;
    h ← each_level bump_level (drop level upd) level h;
    h ← set_backward h x (if bool_decide (u0 = header zsl) then None else Some u0);
    '(f, _) ← get_level h x 0;
    match f with
    | Some y =>
        h ← set_backward h y (Some x);
        Some (h, Zskiplist (header zsl) (tail zsl) (wrapu 64 (length_ zsl + 1)) (level_ zsl), x)
    | None => Some (h, Zskiplist (header zsl) (Some x) (wrapu 64 (length_ zsl + 1)) (level_ zsl), x)
    end.

(** Unlinks [x] at level [i], the body of the first loop of [zslDeleteNode]. *)
Definition unlink_level (x : loc) (i : nat) (p : loc * Z) (h : heap) : option heap :=
  let u := p.1 in
  '(f, span) ← get_level h u i;
  if bool_decide (f = Some x) then
    '(xf, xspan) ← get_level h x i;
    set_level h u i (xf, wrapu 64 (span + (xspan - 1)))
  else set_level h u i (f, wrapu 64 (span - 1)).

(** [while (zsl->level > 1 && zsl->header->level[zsl->level-1].forward == NULL) zsl->level--]. *)
Fixpoint lower_level (h : heap) (hd : loc) (level : nat) : option nat :=
  match level with
  | S (S l as level') =>
      '(f, _) ← get_level h hd level';
      match f with None => lower_level h hd level' | Some _ => Some level end
  | _ => Some level
  end.

Definition zslDeleteNode (h : heap) (zsl : zskiplist) (x : loc) (upd : list (loc * Z))
    : option (heap * zskiplist) :=
  h ← each_level (unlink_level x) (take (level_ zsl) upd) 0 h;
  '(f, _) ← get_level h x 0;
  n ← h !! x;
  '(h, tl) ← match f with
    | Some y => h ← set_backward h y (backward n); Some (h, tail zsl)
    | None => Some (h, backward n)
    end;
  level ← lower_level h (header zsl) (level_ zsl);
  Some (h, Zskiplist (header zsl) tl (wrapu 64 (length_ zsl - 1)) level).

(** Returns the unlinked node; [keep] says whether the caller passed [node]. *)
Definition zslDelete (h : heap) (zsl : zskiplist) (s : score) (e : sds) (keep : bool)
    : option (heap * zskiplist * option loc) :=
  upd ← traverse 64 (fun _ => before s e) h zsl;
  '(u0, _) ← upd !! O;
  '(f, _) ← get_level h u0 0;
  match f with
  | None => Some (h, zsl, None)
  | Some x =>
      n ← h !! x;
      xe ← ele n;
      if seqb s (nscore n) && (sdscmp xe e =? 0) then
        '(h, zsl) ← zslDeleteNode h zsl x upd;
        h ← (if keep then Some h else fst <$> zslFreeNode h x);
        Some (h, zsl, Some x)
      else Some (h, zsl, None)
  end.

(** [(x->backward == NULL || x->backward->score < newscore) &&
    (x->level[0].forward == NULL || x->level[0].forward->score > newscore)]. *)
Definition stays_in_place (h : heap) (x : loc) (newscore : score) : option bool :=
  n ← h !! x;
  back_ok ← match backward n with
    | None => Some true
    | Some b => nb ← h !! b; Some (sltb (nscore nb) newscore)
    end;
  if back_ok : bool then
    '(xf, _) ← get_level h x 0;
    match xf with
    | None => Some true
    | Some y => ny ← h !! y; Some (sltb newscore (nscore ny))
    end
  else Some false.

Definition zslUpdateScore `{ZslMalloc} (rs : list Z) (h : heap) (zsl : zskiplist) (curscore : score) (e : sds)
    (newscore : score) : option (heap * zskiplist * loc) :=
  upd ← traverse 64 (fun _ => before curscore e) h zsl;
  '(u0, _) ← upd !! O;
  '(f, _) ← get_level h u0 0;
  x ← f;
  n ← h !! x;
  xe ← ele n;
  if negb (seqb curscore (nscore n) && (sdscmp xe e =? 0)) then None
  else
    in_place ← stays_in_place h x newscore;
    if in_place : bool then
      h ← set_score h x newscore; Some (h, zsl, x)
    else
      '(h, zsl) ← zslDeleteNode h zsl x upd;
      '(h, zsl, newnode) ← zslInsert rs h zsl newscore xe;
      h ← fst <$> zslFreeNode h x;
      Some (h, zsl, newnode).

(** ** Ranges of scores *)

Record zrangespec := Zrangespec { min : score; max : score; minex : bool; maxex : bool }.

Definition zslValueGteMin (value : score) (spec : zrangespec) : bool :=
  if minex spec then sltb (min spec) value else sleb (min spec) value.

Definition zslValueLteMax (value : score) (spec : zrangespec) : bool :=
  if maxex spec then sltb value (max spec) else sleb value (max spec).

Definition score_gte (range : zrangespec) (n : zskiplistNode) : option bool :=
  Some (zslValueGteMin (nscore n) range).
Definition score_lte (range : zrangespec) (n : zskiplistNode) : option bool :=
  Some (zslValueLteMax (nscore n) range).

(** Whether the last node satisfies [gte] and the first one [lte]; shared by
    [zslIsInRange] and [zslIsInLexRange]. *)
Definition ends_in_range (h : heap) (zsl : zskiplist) (gte lte : zskiplistNode -> option bool) : option bool :=
  match tail zsl with
  | None => Some false
  | Some x =>
      n ← h !! x;
      b ← gte n;
      if negb b then Some false
      else
        '(f, _) ← get_level h (header zsl) 0;
        match f with
        | None => Some false
        | Some y => ny ← h !! y; lte ny
        end
  end.

Definition zslIsInRange (h : heap) (zsl : zskiplist) (range : zrangespec) : option bool :=
  if sltb (max range) (min range) || (seqb (min range) (max range) && (minex range || maxex range))
  then Some false
  else ends_in_range h zsl (score_gte range) (score_lte range).

(** The common parts of the searches for the first and the last node of a range. *)
Definition first_in (h : heap) (zsl : zskiplist) (gte lte : zskiplistNode -> option bool) : option (option loc) :=
  upd ← traverse 64 (fun _ n => negb <$> gte n) h zsl;
  '(u0, _) ← upd !! O;
  '(f, _) ← get_level h u0 0;
  x ← f;
  n ← h !! x;
  b ← lte n;
  Some (if b : bool then Some x else None).

Definition last_in (h : heap) (zsl : zskiplist) (gte lte : zskiplistNode -> option bool) : option (option loc) :=
  upd ← traverse 64 (fun _ n => lte n) h zsl;
  '(x, _) ← upd !! O;
  n ← h !! x;
  b ← gte n;
  Some (if b : bool then Some x else None).

Definition zslFirstInRange (h : heap) (zsl : zskiplist) (range : zrangespec) : option (option loc) :=
  b ← zslIsInRange h zsl range;
  if negb b then Some None
  else first_in h zsl (score_gte range) (score_lte range).

Definition zslLastInRange (h : heap) (zsl : zskiplist) (range : zrangespec) : option (option loc) :=
  b ← zslIsInRange h zsl range;
  if negb b then Some None
  else last_in h zsl (score_gte range) (score_lte range).

(** ** Lexicographic ranges *)

(** A bound: [shared.minstring], [shared.maxstring] or a string of the command. *)
Inductive lexstr := minstring | maxstring | Lexstr (s : sds).

(** The contents of the string; the shared ones are "minstring" and "maxstring". *)
Definition lex_bytes (a : lexstr) : sds :=
  match a with
  | minstring => [109; 105; 110; 115; 116; 114; 105; 110; 103]
  | maxstring => [109; 97; 120; 115; 116; 114; 105; 110; 103]
  | Lexstr s => s
  end.

Definition sdscmplex (a b : lexstr) : Z :=
  match a, b with
  | minstring, minstring | maxstring, maxstring => 0
  | minstring, _ | _, maxstring => -1
  | maxstring, _ | _, minstring => 1
  | Lexstr a, Lexstr b => sdscmp a b
  end.

Record zlexrangespec := Zlexrangespec { lmin : lexstr; lmax : lexstr; lminex : bool; lmaxex : bool }.

Definition zslLexValueGteMin (value : sds) (spec : zlexrangespec) : bool :=
  if lminex spec then sdscmplex (Lexstr value) (lmin spec) >? 0
  else sdscmplex (Lexstr value) (lmin spec) >=? 0.

Definition zslLexValueLteMax (value : sds) (spec : zlexrangespec) : bool :=
  if lmaxex spec then sdscmplex (Lexstr value) (lmax spec) <? 0
  else sdscmplex (Lexstr value) (lmax spec) <=? 0.

(** [zslParseLexRangeItem] on the string of an object: the bound and whether it is
    exclusive, [None] for [C_ERR]. The byte after the last is the terminator. *)
Definition zslParseLexRangeItem (c : sds) : option (lexstr * bool) :=
  match c with
  | 43 :: c => match c with [] | 0 :: _ => Some (maxstring, false) | _ => None end
  | 45 :: c => match c with [] | 0 :: _ => Some (minstring, false) | _ => None end
  | 40 :: c => Some (Lexstr c, true)
  | 91 :: c => Some (Lexstr c, false)
  | _ => None
  end.

(** [min_int] and [max_int]: whether the objects are integer encoded. *)
Definition zslParseLexRange (min_int max_int : bool) (mn mx : sds) : option zlexrangespec :=
  if min_int || max_int then None
  else
    '(a, aex) ← zslParseLexRangeItem mn;
    '(b, bex) ← zslParseLexRangeItem mx;
    Some (Zlexrangespec a b aex bex).

Definition lex_gte (range : zlexrangespec) (n : zskiplistNode) : option bool :=
  e ← ele n; Some (zslLexValueGteMin e range).
Definition lex_lte (range : zlexrangespec) (n : zskiplistNode) : option bool :=
  e ← ele n; Some (zslLexValueLteMax e range).

Definition zslIsInLexRange (h : heap) (zsl : zskiplist) (range : zlexrangespec) : option bool :=
  if (sdscmplex (lmin range) (lmax range) >? 1) ||
     ((sdscmp (lex_bytes (lmin range)) (lex_bytes (lmax range)) =? 0) && (lminex range || lmaxex range))
  then Some false
  else ends_in_range h zsl (lex_gte range) (lex_lte range).

Definition zslFirstInLexRange (h : heap) (zsl : zskiplist) (range : zlexrangespec) : option (option loc) :=
  b ← zslIsInLexRange h zsl range;
  if negb b then Some None else first_in h zsl (lex_gte range) (lex_lte range).

Definition zslLastInLexRange (h : heap) (zsl : zskiplist) (range : zlexrangespec) : option (option loc) :=
  b ← zslIsInLexRange h zsl range;
  if negb b then Some None else last_in h zsl (lex_gte range) (lex_lte range).

(** ** Deletion of ranges *)

(** [while (x && go(...)) { next = ...; zslDeleteNode; dictDelete; zslFreeNode; x = next; }].
    Returns the elements passed to [dictDelete], in order. *)
Fixpoint delete_loop (fuel : nat) (go : Z -> zskiplistNode -> option bool) (h : heap) (zsl : zskiplist) (x : option loc)
    (upd : list (loc * Z)) (traversed : Z) : option (heap * zskiplist * list sds) :=
  match fuel with
  | O => None
  | S fuel =>
      match x with
      | None => Some (h, zsl, [])
      | Some x =>
          n ← h !! x;
          b ← go traversed n;
          if b : bool then
            '(next, _) ← get_level h x 0;
            '(h, zsl) ← zslDeleteNode h zsl x upd;
            e ← ele n;
            h ← fst <$> zslFreeNode h x;
            '(h, zsl, es) ← delete_loop fuel go h zsl next upd (wrapu 64 (traversed + 1));
            Some (h, zsl, e :: es)
          else Some (h, zsl, [])
      end
  end.

Definition delete_range (skip del : Z -> zskiplistNode -> option bool) (h : heap) (zsl : zskiplist)
    : option (heap * zskiplist * list sds) :=
  upd ← traverse 64 skip h zsl;
  '(u0, traversed) ← upd !! O;
  '(x, _) ← get_level h u0 0;
  delete_loop (S (Z.to_nat (length_ zsl))) del h zsl x upd (wrapu 64 (traversed + 1)).

(** The number of elements removed is the length of the list returned. *)
Definition zslDeleteRangeByScore (h : heap) (zsl : zskiplist) (range : zrangespec)
    : option (heap * zskiplist * list sds) :=
  delete_range
    (fun _ n => Some (if minex range then sleb (nscore n) (min range) else sltb (nscore n) (min range)))
    (fun _ n => Some (if maxex range then sltb (nscore n) (max range) else sleb (nscore n) (max range))) h zsl.

Definition zslDeleteRangeByLex (h : heap) (zsl : zskiplist) (range : zlexrangespec)
    : option (heap * zskiplist * list sds) :=
  delete_range (fun _ n => negb <$> lex_gte range n) (fun _ n => lex_lte range n) h zsl.

(** [start] and [end_] are 1-based and inclusive. *)
Definition zslDeleteRangeByRank (h : heap) (zsl : zskiplist) (start end_ : Z)
    : option (heap * zskiplist * list sds) :=
  delete_range (fun t _ => Some (t <? start)) (fun t _ => Some (t <=? end_)) h zsl.

(** ** Ranks *)

Fixpoint getRank_loop (fuel : nat) (h : heap) (s : score) (e : sds) (i : nat) (x : loc) (rank : Z) : option Z :=
  match i with
  | O => Some 0
  | S i =>
      '(x, rank) ← walk 64 (fun _ => before_eq s e) fuel h i x rank;
      n ← h !! x;
      if match ele n with Some xe => sdscmp xe e =? 0 | None => false end then Some rank
      else getRank_loop fuel h s e i x rank
  end.

Definition zslGetRank (h : heap) (zsl : zskiplist) (s : score) (e : sds) : option Z :=
  getRank_loop (S (Z.to_nat (length_ zsl))) h s e (level_ zsl) (header zsl) 0.

Fixpoint getElement_loop (fuel : nat) (h : heap) (rank : Z) (i : nat) (x : loc) (traversed : Z)
    : option (option loc) :=
  match i with
  | O => Some None
  | S i =>
      '(x, traversed) ← walk 64 (fun t _ => Some (t <=? rank)) fuel h i x traversed;
      if traversed =? rank then Some (Some x)
      else getElement_loop fuel h rank i x traversed
  end.

Definition zslGetElementByRank (h : heap) (zsl : zskiplist) (rank : Z) : option (option loc) :=
  getElement_loop (S (Z.to_nat (length_ zsl))) h rank (level_ zsl) (header zsl) 0.
End zsl.

Arguments zskiplistNode : clear implicits.
Arguments zrangespec : clear implicits.
Arguments ZslMalloc : clear implicits.

(** ** The abstract skip list *)

Section rep.
Context {score : Type} `{Score score}.
Abbreviation heap := (gmap loc (zskiplistNode score)).

(** A node of the list: its address, its number of levels and what it stores. *)
Record znode := Znode { zloc : loc; zheight : nat; zscore : score; zele : sds }.
Implicit Types (h : heap) (zsl : zskiplist) (a b ns s t : list znode) (z : znode) (x y u : loc) (i j k : nat).

(** What a node stores besides the links of its levels. *)
Definition info h x : option (option sds * score * option loc * nat) :=
  (fun n => (ele n, nscore n, backward n, length (levels n))) <$> h !! x.

(** The pointer and the span at level [i] of a node that is followed by [s]. *)
Fixpoint link i s : option loc * Z :=
  match s with
  | [] => (None, 0)
  | z :: s => if (i <? zheight z)%nat then (Some (zloc z), 1) else ((link i s).1, (link i s).2 + 1)
  end.

(** The nodes from which a traversal of [ns] looks ahead, with their rank, number
    of levels and the nodes after them: the header and the nodes of [ns]. *)
Inductive at_pos (hd : loc) ns : loc -> Z -> nat -> list znode -> Prop :=
  | at_header : at_pos hd ns hd 0 ZSKIPLIST_MAXLEVEL ns
  | at_node a z s : ns = a ++ z :: s -> at_pos hd ns (zloc z) (zlen a + 1) (zheight z) s.

(** The last position in [a] with a level [j]: what [update[j]] and [rank[j]] must be. *)
Definition pred_at (hd : loc) a j u (r : Z) : Prop :=
  exists k s, at_pos hd a u r k s /\ (j < k)%nat /\ Forall (fun z => zheight z <= j)%nat s.

Record zsl_struct h zsl ns : Prop := ZslStruct {
  s_header : exists sc, info h (header zsl) = Some (None, sc, None, ZSKIPLIST_MAXLEVEL);
  s_info a z s : ns = a ++ z :: s ->
    info h (zloc z) = Some (Some (zele z), zscore z, zloc <$> last a, zheight z);
  s_cell y r k s j : at_pos (header zsl) ns y r k s -> (j < k)%nat -> (j < level_ zsl)%nat ->
    get_level h y j = Some (link j s);
  s_free j : (level_ zsl <= j < ZSKIPLIST_MAXLEVEL)%nat -> exists sp, get_level h (header zsl) j = Some (None, sp);
  s_nodup : NoDup (header zsl :: (zloc <$> ns));
  s_tail : tail zsl = zloc <$> last ns;
  s_length : length_ zsl = zlen ns;
  s_level : (1 <= level_ zsl <= ZSKIPLIST_MAXLEVEL)%nat;
  s_heights : Forall (fun z => 1 <= zheight z <= level_ zsl)%nat ns;
}.

(** ** Links *)

Lemma link_skip j s t :
  Forall (fun z => zheight z <= j)%nat s -> link j (s ++ t) = ((link j t).1, zlen s + (link j t).2).
Proof.
  induction 1 as [|z s Hz _ IH]; simpl.
  - by destruct (link j t).
  - rewrite (proj2 (Nat.ltb_ge _ _)), IH, zlen_cons by done. simpl. f_equal. lia.
Qed.

Lemma link_hit j s z t :
  Forall (fun z => zheight z <= j)%nat s -> (j < zheight z)%nat ->
  link j (s ++ z :: t) = (Some (zloc z), zlen s + 1).
Proof.
  intros Hs Hz. rewrite link_skip by done. simpl. by rewrite (proj2 (Nat.ltb_lt _ _)).
Qed.

(** The nodes before the next one with a level [j]. *)
Lemma level_split j s :
  Forall (fun z => zheight z <= j)%nat s \/
  exists s1 z s2, s = s1 ++ z :: s2 /\ Forall (fun z => zheight z <= j)%nat s1 /\ (j < zheight z)%nat.
Proof.
  induction s as [|z s [IH|(s1 & z' & s2 & -> & H1 & H2)]]; [by left|..];
    destruct (Nat.lt_ge_cases j (zheight z)).
  1, 3: right; eexists [], z, _; done.
  - left. by constructor.
  - right. exists (z :: s1), z', s2. split_and!; [done|by constructor|done].
Qed.

Lemma link_none j s : Forall (fun z => zheight z <= j)%nat s -> link j s = (None, zlen s).
Proof.
  intros Hs. rewrite <- (app_nil_r s) at 1. rewrite link_skip by done. simpl. f_equal. lia.
Qed.

Lemma link_in j s x : (link j s).1 = Some x -> x ∈ zloc <$> s.
Proof.
  induction s as [|z s IH]; simpl; [done|]. case_match; simpl; set_solver.
Qed.

Lemma link_range j s : 0 <= (link j s).2 <= zlen s.
Proof. induction s as [|z s IH]; simpl; [done|]. rewrite zlen_cons. pose proof (zlen_nonneg s). case_match; simpl; lia. Qed.

(** ** Positions *)

Lemma at_pos_rank hd ns y r k s : at_pos hd ns y r k s -> 0 <= r /\ r + zlen s = zlen ns.
Proof.
  intros [|a z s' ->]; [pose proof (zlen_nonneg ns); lia|]. zl. pose proof (zlen_nonneg a).
  pose proof (zlen_nonneg s'). lia.
Qed.

Lemma at_pos_app hd a b y r k s : at_pos hd a y r k s -> at_pos hd (a ++ b) y r k (s ++ b).
Proof.
  intros [|a' z s' ->]; [constructor|]. apply at_node. by rewrite <- app_assoc.
Qed.

Lemma at_pos_elem hd ns y r k s : at_pos hd ns y r k s -> y ∈ hd :: (zloc <$> ns).
Proof. intros [|a z s' ->]; rewrite ?fmap_app, ?fmap_cons; set_solver. Qed.

Lemma at_pos_header hd ns r k s :
  hd ∉ zloc <$> ns -> at_pos hd ns hd r k s -> r = 0 /\ k = ZSKIPLIST_MAXLEVEL /\ s = ns.
Proof.
  intros Hn Hp. inversion Hp as [|a z s' E Ez]; subst; [done|]. exfalso. apply Hn.
  rewrite fmap_app, fmap_cons. set_solver.
Qed.

Lemma at_pos_app_inv hd a z b y r k s :
  at_pos hd (a ++ z :: b) y r k s ->
  (exists s', at_pos hd a y r k s' /\ s = s' ++ z :: b) \/
  (y = zloc z /\ r = zlen a + 1 /\ k = zheight z /\ s = b) \/
  (exists b1 z', b = b1 ++ z' :: s /\ y = zloc z' /\ k = zheight z').
Proof.
  intros Hp. remember (a ++ z :: b) as ns eqn:En. destruct Hp as [|a' z' s' E]; subst.
  - left. exists a. split; [constructor|done].
  - apply app_eq_inv in E as [(l & -> & E)|(l & -> & E)].
    + destruct l as [|w l]; simplify_eq/=.
      * right. left. by rewrite app_nil_r.
      * left. eexists. split; [by apply at_node|done].
    + destruct l as [|w l]; simplify_eq/=.
      * right. left. by rewrite app_nil_r.
      * right. right. eexists _, _. split; [done|done].
Qed.

(** Two positions of a list are equal or one comes before the other. *)
Lemma at_pos_compare hd ns y r k s y' r' k' s' :
  at_pos hd ns y r k s -> at_pos hd ns y' r' k' s' ->
  (y = y' /\ r = r' /\ k = k' /\ s = s') \/
  (exists s1 z, s = s1 ++ z :: s' /\ y' = zloc z /\ k' = zheight z) \/
  (exists s1 z, s' = s1 ++ z :: s /\ y = zloc z /\ k = zheight z).
Proof.
  intros [|a z t E] [|a' z' t' E'].
  - by left.
  - right. left. by exists a', z'.
  - right. right. by exists a, z.
  - rewrite E in E'. apply app_eq_inv in E' as [(l & -> & E')|(l & -> & E')];
      destruct l as [|w l]; simplify_eq/=; rewrite ?app_nil_r.
    + by left.
    + right. right. by exists l, z.
    + by left.
    + right. left. by exists l, z'.
Qed.

(** Seen from a position with a level [j], [update[j]] is that position, with only
    lower nodes after it, or there is a node with a level [j] after it. *)
Lemma pred_cases hd a j u ru y r k s :
  pred_at hd a j u ru -> at_pos hd a y r k s -> (j < k)%nat -> NoDup (hd :: (zloc <$> a)) ->
  (y = u /\ r = ru /\ Forall (fun z => zheight z <= j)%nat s) \/
  (y <> u /\ exists s1 z s2, s = s1 ++ z :: s2 /\ Forall (fun z => zheight z <= j)%nat s1 /\ (j < zheight z)%nat).
Proof.
  intros (ku & su & Hu & Hku & Hlow) Hy Hk Hnd.
  destruct (at_pos_compare _ _ _ _ _ _ _ _ _ _ Hy Hu) as [(-> & -> & -> & ->)|[(s1 & z & -> & Ez & ->)|(s1 & z & -> & Ez & ->)]].
  - by left.
  - right. split.
    + intros ->. remember (s1 ++ z :: su) as s eqn:Es. destruct Hy as [|a1 z1 s' E1].
      * rewrite Es in Hnd. apply NoDup_cons in Hnd as [Hn _]. apply Hn. rewrite Ez, fmap_app, fmap_cons. set_solver.
      * rewrite E1, Es, fmap_app, fmap_cons, fmap_app, fmap_cons in Hnd. apply NoDup_cons in Hnd as [_ Hnd].
        apply NoDup_app in Hnd as (_ & _ & Hnd). apply NoDup_cons in Hnd as [Hn _]. rewrite Ez in Hn. set_solver.
    + destruct (level_split j (s1 ++ z :: su)) as [Hf|Hs]; [|done].
      apply Forall_app in Hf as [_ Hf]. inversion Hf. lia.
  - apply Forall_app in Hlow as [_ Hf]. inversion Hf. lia.
Qed.
End rep.

(** ** Traversals *)

Section traversal.
Context {score : Type} `{Score score}.
Abbreviation heap := (gmap loc (zskiplistNode score)).
Implicit Types (h : heap) (zsl : zskiplist) (a b ns s t : list (znode (score:=score))) (x y u : loc) (i j k : nat).

Lemma info_Some h x e sc bk k :
  info h x = Some (e, sc, bk, k) ->
  exists n, h !! x = Some n /\ ele n = e /\ nscore n = sc /\ backward n = bk /\ length (levels n) = k.
Proof. unfold info. intros (n & ? & Hn)%fmap_Some. simplify_eq. by exists n. Qed.

(** A loop condition that holds exactly on the nodes of [a], when the list is [a ++ b]. *)
Definition splits (go : Z -> zskiplistNode score -> option bool) a b : Prop :=
  (forall a1 z a2 n, a = a1 ++ z :: a2 -> ele n = Some (zele z) -> nscore n = zscore z ->
    go (zlen a1 + 1) n = Some true) /\
  (forall b1 z b2 n, b = b1 ++ z :: b2 -> ele n = Some (zele z) -> nscore n = zscore z ->
    go (zlen a + zlen b1 + 1) n = Some false).

Section walk.
Context (w : Z) (go : Z -> zskiplistNode score -> option bool) h zsl a b.
Context (Hs : zsl_struct h zsl (a ++ b)) (Hgo : splits go a b) (Hw : zlen (a ++ b) < 2 ^ w).

Lemma node_of a1 z a2 : a ++ b = a1 ++ z :: a2 ->
  exists n, h !! zloc z = Some n /\ ele n = Some (zele z) /\ nscore n = zscore z.
Proof.
  intros E. destruct (info_Some _ _ _ _ _ _ (s_info _ _ _ Hs _ _ _ E)) as (n & Hn & ? & ? & _). by exists n.
Qed.

Lemma walk_spec i fuel : forall x r k s,
  at_pos (header zsl) a x r k s -> (i < k)%nat -> (i < level_ zsl)%nat -> (length s < fuel)%nat ->
  exists x' r', walk w go fuel h i x r = Some (x', r') /\ pred_at (header zsl) a i x' r'.
Proof.
  induction fuel as [|fuel IH]; intros x r k s Hp Hk Hi Hf; [lia|]. cbn [walk].
  rewrite (s_cell _ _ _ Hs x r k (s ++ b) i) by (done || by apply at_pos_app). cbn [mbind option_bind].
  pose proof (at_pos_rank _ _ _ _ _ _ Hp) as [Hr0 Hr]. zl. pose proof (zlen_nonneg b).
  destruct (level_split i s) as [Hlow|(s1 & z & s2 & -> & Hlow & Hz)].
  - destruct (level_split i b) as [Hlowb|(b1 & z & b2 & Eb & Hlowb & Hz)].
    + rewrite link_none by (by apply Forall_app). eexists _, _. split; [done|]. by exists k, s.
    + assert (link i (s ++ b) = (Some (zloc z), zlen s + zlen b1 + 1)) as ->.
      { rewrite Eb, app_assoc, link_hit; [by rewrite zlen_app|by apply Forall_app|done]. }
      destruct (node_of (a ++ b1) z b2) as (n & -> & He & Hsc); [by rewrite Eb, <- app_assoc|].
      assert (zlen b = zlen b1 + (zlen b2 + 1)) by (rewrite Eb; zl).
      simpl. pose proof (zlen_nonneg b1). pose proof (zlen_nonneg b2). pose proof (zlen_nonneg s).
      rewrite wrapu_small by (split; lia).
      replace (r + (zlen s + zlen b1 + 1)) with (zlen a + zlen b1 + 1) by lia.
      rewrite (proj2 Hgo b1 z b2 n Eb He Hsc). simpl. eexists _, _. split; [done|]. by exists k, s.
  - rewrite <- app_assoc. simpl. rewrite link_hit by done.
    assert (exists a1, a = a1 ++ z :: s2 /\ zlen a1 = r + zlen s1) as (a1 & Ea & Hl).
    { remember (s1 ++ z :: s2) as s eqn:Es in Hp. destruct Hp as [|a0 z0 s0 E]; [by exists s1|].
      exists (a0 ++ z0 :: s1). rewrite E, Es, <- app_assoc. split; [done|zl]. }
    destruct (node_of a1 z (s2 ++ b)) as (n & -> & He & Hsc); [by rewrite Ea, <- app_assoc|].
    simpl. pose proof (zlen_nonneg s1). pose proof (zlen_nonneg s2). zl.
    rewrite wrapu_small by (split; lia). replace (r + (zlen s1 + 1)) with (zlen a1 + 1) by lia.
    rewrite (proj1 Hgo a1 z s2 n Ea He Hsc). simpl.
    apply (IH _ _ (zheight z) s2); [by apply at_node|done|done|]. rewrite length_app in Hf. simpl in Hf. lia.
Qed.

Lemma descend_spec fuel i : forall x r k s acc,
  at_pos (header zsl) a x r k s -> (i <= k)%nat -> (i <= level_ zsl)%nat -> (length a < fuel)%nat ->
  (forall j u ru, acc !! j = Some (u, ru) -> pred_at (header zsl) a (i + j) u ru) ->
  exists upd, descend w go fuel h i x r acc = Some upd /\ length upd = (i + length acc)%nat /\
    forall j u ru, upd !! j = Some (u, ru) -> pred_at (header zsl) a j u ru.
Proof.
  induction i as [|i IH]; intros x r k s acc Hp Hk Hi Hf Hacc; cbn [descend].
  { exists acc. done. }
  assert (length s <= length a)%nat as Hsa.
  { pose proof (at_pos_rank _ _ _ _ _ _ Hp). unfold zlen in *. lia. }
  destruct (walk_spec i fuel x r k s) as (x' & r' & -> & Hp'); [done|lia|lia|lia|]. simpl.
  destruct Hp' as (k' & s' & Hp' & Hk' & Hlow).
  destruct (IH x' r' k' s' ((x', r') :: acc)) as (upd & -> & Hl & Hu); [done|lia|lia|done| |].
  - intros [|j] u ru Hj; simplify_eq/=.
    + rewrite Nat.add_0_r. by exists k', s'.
    + replace (i + S j)%nat with (S i + j)%nat by lia. by apply Hacc.
  - exists upd. split_and!; [done| |done]. simpl in Hl. lia.
Qed.

Lemma traverse_spec :
  exists upd, traverse w go h zsl = Some upd /\ length upd = level_ zsl /\
    forall j u ru, upd !! j = Some (u, ru) -> pred_at (header zsl) a j u ru.
Proof.
  unfold traverse. destruct (descend_spec (S (Z.to_nat (length_ zsl))) (level_ zsl) (header zsl) 0 ZSKIPLIST_MAXLEVEL a [])
    as (upd & E & Hl & Hu); [constructor|apply Hs|done| |done|].
  - rewrite (s_length _ _ _ Hs). zl. unfold zlen. lia.
  - exists upd. simpl in Hl. split_and!; [done|lia|done].
Qed.
End walk.

(** [update[0]] is the node right before the cut. *)
Lemma pred_at_0 h zsl a b u r :
  zsl_struct h zsl (a ++ b) -> pred_at (header zsl) a 0 u r ->
  r = zlen a /\ get_level h u 0 = Some (zloc <$> head b, match b with [] => 0 | _ => 1 end) /\
  (u = header zsl /\ a = [] \/ exists a' z, a = a' ++ [z] /\ u = zloc z).
Proof.
  intros Hs (k & s & Hp & Hk & Hlow). pose proof (s_heights _ _ _ Hs) as Hh. apply Forall_app in Hh as [Ha Hb].
  assert (s = []) as ->.
  { destruct s as [|z s]; [done|]. inversion Hlow as [|? ? Hz]; subst.
    assert (1 <= zheight z <= level_ zsl)%nat; [|lia]. rewrite Forall_forall in Ha. apply Ha.
    remember (z :: s) as l eqn:El in Hp. destruct Hp as [|a' z' s' E]; subst; set_solver. }
  pose proof (at_pos_rank _ _ _ _ _ _ Hp) as [_ Hr]. zl. split; [lia|]. split.
  - rewrite (s_cell _ _ _ Hs u r k ([] ++ b) 0) by (done || (by apply at_pos_app) || apply Hs). simpl.
    destruct b as [|z b]; [done|]. apply Forall_cons in Hb as [Hz _]. simpl.
    by rewrite (proj2 (Nat.ltb_lt _ _)) by lia.
  - remember [] as l eqn:El in Hp. destruct Hp as [|a' z s E]; subst; [by left|]. right. by exists a', z.
Qed.
End traversal.

(** ** Updates of the heap *)

Section updates.
Context {score : Type} `{Score score}.
Abbreviation heap := (gmap loc (zskiplistNode score)).
Implicit Types (h g : heap) (x y u : loc) (i j k : nat).

(** Two heaps that differ in the links only. *)
Definition same_info h h' : Prop := forall y, info h' y = info h y.

Lemma get_level_info h y j c : get_level h y j = Some c -> exists e sc bk k, info h y = Some (e, sc, bk, k) /\ (j < k)%nat.
Proof.
  unfold get_level, info. destruct (h !! y) as [n|]; [|done]. simpl. intros Hj%lookup_lt_Some.
  by eexists _, _, _, _.
Qed.

Lemma info_get_level h y e sc bk k j :
  info h y = Some (e, sc, bk, k) -> (j < k)%nat -> is_Some (get_level h y j).
Proof.
  intros (n & Hn & _ & _ & _ & Hl)%info_Some Hj. unfold get_level. rewrite Hn. simpl.
  apply lookup_lt_is_Some. lia.
Qed.

Lemma set_level_spec h x i c0 c :
  get_level h x i = Some c0 ->
  exists h', set_level h x i c = Some h' /\ same_info h h' /\
    forall y j, get_level h' y j = if decide (y = x /\ j = i) then Some c else get_level h y j.
Proof.
  unfold get_level, set_level. destruct (h !! x) as [n|] eqn:En; [|done]. simpl. intros Hi. rewrite Hi. simpl.
  eexists. split; [done|]. split.
  - intros y. unfold info. destruct (decide (y = x)) as [->|Hne]; [|by rewrite lookup_insert_ne].
    rewrite lookup_insert_eq, En. simpl. by rewrite length_insert.
  - intros y j. destruct (decide (y = x)) as [->|Hne].
    + rewrite lookup_insert_eq, En. simpl. destruct (decide (j = i)) as [->|].
      * rewrite decide_True by done. apply list_lookup_insert_eq. by eapply lookup_lt_Some.
      * rewrite decide_False by tauto. by rewrite list_lookup_insert_ne.
    + rewrite lookup_insert_ne by done. by rewrite decide_False by tauto.
Qed.

Lemma set_backward_spec h x e sc bk k b :
  info h x = Some (e, sc, bk, k) ->
  exists h', set_backward h x b = Some h' /\ (forall y j, get_level h' y j = get_level h y j) /\
    forall y, info h' y = if decide (y = x) then Some (e, sc, b, k) else info h y.
Proof.
  intros (n & Hn & <- & <- & _ & <-)%info_Some. unfold set_backward. rewrite Hn. simpl.
  eexists. split; [done|]. split.
  - intros y j. unfold get_level. destruct (decide (y = x)) as [->|Hne].
    + by rewrite lookup_insert_eq, Hn.
    + by rewrite lookup_insert_ne.
  - intros y. unfold info. destruct (decide (y = x)) as [->|Hne].
    + by rewrite lookup_insert_eq.
    + by rewrite lookup_insert_ne.
Qed.

Lemma info_new h x n y :
  info (<[x := n]> h) y = if decide (y = x) then Some (ele n, nscore n, backward n, length (levels n)) else info h y.
Proof.
  unfold info. destruct (decide (y = x)) as [->|Hne]; [by rewrite lookup_insert_eq|by rewrite lookup_insert_ne].
Qed.

Lemma get_level_new h x n y j :
  get_level (<[x := n]> h) y j = if decide (y = x) then levels n !! j else get_level h y j.
Proof.
  unfold get_level. destruct (decide (y = x)) as [->|Hne]; [by rewrite lookup_insert_eq|by rewrite lookup_insert_ne].
Qed.

Lemma info_delete h x y : y <> x -> info (delete x h) y = info h y.
Proof. intros Hne. unfold info. by rewrite lookup_delete_ne. Qed.

Lemma get_level_delete h x y j : y <> x -> get_level (delete x h) y j = get_level h y j.
Proof. intros Hne. unfold get_level. by rewrite lookup_delete_ne. Qed.

(** A loop over the levels whose body changes the links of its level only, to
    what [F] says. *)
Lemma each_level_spec body (F : nat -> loc * Z -> loc -> option (option loc * Z)) upd h0 : forall h i,
  same_info h0 h -> (forall y j, (i <= j)%nat -> get_level h y j = get_level h0 y j) ->
  (forall j p g, upd !! j = Some p -> same_info h0 g ->
    (forall y, get_level g y (i + j) = get_level h0 y (i + j)%nat) ->
    exists g', body (i + j)%nat p g = Some g' /\ same_info h0 g' /\
      forall y k, get_level g' y k = if decide (k = i + j)%nat then F k p y else get_level g y k) ->
  exists h', each_level body upd i h = Some h' /\ same_info h0 h' /\
    forall y k, get_level h' y k =
      match (if decide (i <= k)%nat then upd !! (k - i)%nat else None) with
      | Some p => F k p y
      | None => get_level h y k
      end.
Proof.
  induction upd as [|p upd IH]; intros h i Hi Hl Hb; cbn [each_level].
  { exists h. split_and!; [done|done|]. intros y k. by case_decide. }
  destruct (Hb O p h) as (h1 & E1 & Hi1 & Hc1); [done|done|by intros y; apply Hl; lia|].
  rewrite Nat.add_0_r in E1, Hc1. rewrite E1. simpl.
  destruct (IH h1 (S i) Hi1) as (h2 & -> & Hi2 & Hc2).
  - intros y j Hj. rewrite Hc1, decide_False by lia. apply Hl. lia.
  - intros j q g Hj Hg Hlev. destruct (Hb (S j) q g) as (g' & E & Hi' & Hc'); [done|done| |].
    + intros y. replace (i + S j)%nat with (S i + j)%nat by lia. apply Hlev.
    + replace (i + S j)%nat with (S i + j)%nat in * by lia. by exists g'.
  - exists h2. split_and!; [done|done|]. intros y k. rewrite Hc2.
    destruct (decide (S i <= k)%nat), (decide (i <= k)%nat) as [Hik|]; try lia.
    + replace (k - i)%nat with (S (k - S i)) by lia. simpl.
      destruct (upd !! (k - S i)%nat) eqn:Eu; [done|]. by rewrite Hc1, decide_False by lia.
    + replace (k - i)%nat with O by lia. simpl. by rewrite Hc1, decide_True by lia.
    + by rewrite Hc1, decide_False by lia.
Qed.
End updates.

(** ** Insertion *)

Section insertion.
Context {score : Type} `{Score score}.
Abbreviation heap := (gmap loc (zskiplistNode score)).
Implicit Types (h g : heap) (zsl : zskiplist) (a b ns s t : list (znode (score:=score)))
  (z : znode (score:=score)) (x y u : loc) (i j k : nat).

Definition with_level zsl (l : nat) : zskiplist := Zskiplist (header zsl) (tail zsl) (length_ zsl) l.

Lemma struct_locs h zsl ns y : zsl_struct h zsl ns -> y ∈ header zsl :: (zloc <$> ns) -> exists v, info h y = Some v.
Proof.
  intros Hs [->|(z & -> & (a & b & E)%list_elem_of_split)%list_elem_of_fmap]%elem_of_cons.
  - destruct (s_header _ _ _ Hs) as [sc ->]. eauto.
  - rewrite (s_info _ _ _ Hs _ _ _ E). eauto.
Qed.

(** One more level for the header. *)
Lemma raise_one h zsl ns :
  zsl_struct h zsl ns -> (level_ zsl < ZSKIPLIST_MAXLEVEL)%nat ->
  exists f sp h', get_level h (header zsl) (level_ zsl) = Some (f, sp) /\
    set_level h (header zsl) (level_ zsl) (f, length_ zsl) = Some h' /\ same_info h h' /\
    zsl_struct h' (with_level zsl (S (level_ zsl))) ns.
Proof.
  intros Hs Hl. destruct (s_free _ _ _ Hs (level_ zsl)) as [sp Hc]; [lia|].
  destruct (set_level_spec h _ _ _ (None, length_ zsl) Hc) as (h' & E & Hi & Hc').
  exists None, sp, h'. split_and!; [done|done|done|].
  pose proof (s_nodup _ _ _ Hs) as Hnd. apply NoDup_cons in Hnd as [Hhd _].
  split; simpl; try apply Hs.
  - destruct (s_header _ _ _ Hs) as [sc ?]. exists sc. by rewrite Hi.
  - intros a z s En. rewrite Hi. by apply (s_info _ _ _ Hs a z s).
  - intros y r k s j Hp Hj Hjl. rewrite Hc'. case_decide as Hd.
    + destruct Hd as [-> ->]. rewrite (s_length _ _ _ Hs). f_equal.
      apply at_pos_header in Hp as (_ & _ & ->); [|done].
      symmetry. apply link_none. eapply Forall_impl; [apply Hs|]. simpl. lia.
    + destruct (decide (j = level_ zsl)) as [->|Hne]; [|apply (s_cell _ _ _ Hs y r k); [done|done|lia]].
      exfalso. destruct Hp as [|a z s ->]; [tauto|].
      pose proof (s_heights _ _ _ Hs) as Hh. apply Forall_app in Hh as [_ Hh]. inversion Hh. lia.
  - intros j Hj. destruct (s_free _ _ _ Hs j) as [sp' E']; [lia|]. exists sp'.
    rewrite Hc', decide_False by lia. done.
  - pose proof (s_level _ _ _ Hs). lia.
  - eapply Forall_impl; [apply Hs|]. simpl. lia.
Qed.

Lemma raise_levels_spec n zsl0 ns : forall h zsl,
  header zsl0 = header zsl -> length_ zsl0 = length_ zsl ->
  zsl_struct h zsl ns -> (level_ zsl + n <= ZSKIPLIST_MAXLEVEL)%nat ->
  exists h', raise_levels n h zsl0 (level_ zsl) = Some (h', replicate n (header zsl, 0)) /\ same_info h h' /\
    zsl_struct h' (with_level zsl (level_ zsl + n)) ns.
Proof.
  induction n as [|n IH]; intros h zsl Hh Hl Hs Hn; cbn [raise_levels].
  { exists h. split_and!; [done|done|]. rewrite Nat.add_0_r. by destruct zsl. }
  destruct (raise_one h zsl ns Hs) as (f & sp & h1 & Eg & Es & Hi1 & Hs1); [lia|].
  rewrite Hh, Hl, Eg. simpl. rewrite Es. simpl.
  destruct (IH h1 (with_level zsl (S (level_ zsl)))) as (h2 & E2 & Hi2 & Hs2); [done|done|done|simpl; lia|].
  simpl in *. rewrite E2. simpl. exists h2. split_and!; [done|by intros y; rewrite Hi2|].
  replace (level_ zsl + S n)%nat with (S (level_ zsl + n)) by lia. done.
Qed.

(** The predecessors at the levels where there was no node. *)
Lemma pred_at_new h zsl a b j :
  zsl_struct h zsl (a ++ b) -> (level_ zsl <= j < ZSKIPLIST_MAXLEVEL)%nat -> pred_at (header zsl) a j (header zsl) 0.
Proof.
  intros Hs Hj. exists ZSKIPLIST_MAXLEVEL, a. split_and!; [constructor|lia|].
  pose proof (s_heights _ _ _ Hs) as Hh. apply Forall_app in Hh as [Hh _].
  eapply Forall_impl; [exact Hh|]. simpl. lia.
Qed.

(** The links of level [j] before and after the insertion of [z] between [a] and [b],
    seen from a position of [a]. *)
Lemma insert_link hd a b z j u ru y r k s :
  pred_at hd a j u ru -> at_pos hd a y r k s -> (j < k)%nat -> NoDup (hd :: (zloc <$> a)) ->
  link j (s ++ z :: b) =
    if decide (y = u) then
      if (j <? zheight z)%nat then (Some (zloc z), zlen a - ru + 1)
      else ((link j (s ++ b)).1, (link j (s ++ b)).2 + 1)
    else link j (s ++ b).
Proof.
  intros Hpr Hp Hk Hnd. destruct (pred_cases _ _ _ _ _ _ _ _ _ Hpr Hp Hk Hnd) as [(-> & -> & Hlow)|(Hne & s1 & z1 & s2 & -> & Hlow & Hz1)].
  - rewrite decide_True by done. pose proof (at_pos_rank _ _ _ _ _ _ Hp) as [_ Hr].
    rewrite !(link_skip j s) by done. simpl. destruct (j <? zheight z)%nat; simpl; f_equal; lia.
  - rewrite decide_False by done. rewrite <- !app_assoc. simpl. by rewrite !link_hit.
Qed.

(** What [update[j]] points to, relative to the list after the cut. *)
Lemma pred_link h zsl a b j u ru :
  zsl_struct h zsl (a ++ b) -> pred_at (header zsl) a j u ru -> (j < level_ zsl)%nat ->
  get_level h u j = Some ((link j b).1, zlen a - ru + (link j b).2) /\ 0 <= ru <= zlen a.
Proof.
  intros Hs (k & s & Hp & Hk & Hlow) Hj. pose proof (at_pos_rank _ _ _ _ _ _ Hp) as [H0 Hr].
  pose proof (zlen_nonneg s). split; [|lia].
  rewrite (s_cell _ _ _ Hs u ru k (s ++ b) j) by (done || by apply at_pos_app).
  rewrite link_skip by done. do 3 f_equal. lia.
Qed.

(** The node [z] is inserted between [a] and [b]; [h] is the heap with the new node. *)
Section insert.
Context h zsl a b z (upd : list (loc * Z)) (n : zskiplistNode score).
Context (Hs : zsl_struct h zsl (a ++ b)) (Hfresh : h !! zloc z = None).
Context (Hupd : length upd = level_ zsl)
  (Hpred : forall j u ru, upd !! j = Some (u, ru) -> pred_at (header zsl) a j u ru).
Context (Hz : (1 <= zheight z <= level_ zsl)%nat) (Hlen : zlen (a ++ b) + 1 < 2 ^ 32).
Context (Hn : n = ZskiplistNode (Some (zele z)) (zscore z) (backward n) (levels n) /\ length (levels n) = zheight z).

Definition h_new : heap := <[zloc z := n]> h.

Lemma fresh_loc y : y ∈ header zsl :: (zloc <$> a ++ b) -> y <> zloc z.
Proof.
  intros Hy ->. destruct (struct_locs _ _ _ _ Hs Hy) as [v Hv]. unfold info in Hv. by rewrite Hfresh in Hv.
Qed.

Lemma pred_loc j u ru : upd !! j = Some (u, ru) ->
  u <> zloc z /\ get_level h_new u j = Some ((link j b).1, zlen a - ru + (link j b).2) /\
  0 <= zlen a - ru <= zlen a /\ (j < level_ zsl)%nat.
Proof.
  intros Hj. assert (j < level_ zsl)%nat as Hjl by (rewrite <- Hupd; by eapply lookup_lt_Some).
  pose proof (Hpred _ _ _ Hj) as Hp. destruct (pred_link _ _ _ _ _ _ _ Hs Hp Hjl) as [Hc Hr].
  assert (u <> zloc z) as Hne.
  { apply fresh_loc. destruct Hp as (k & s & Hp & _). apply (at_pos_app _ _ b) in Hp. by eapply at_pos_elem. }
  split_and!; [done| |lia|lia|done]. unfold h_new. by rewrite get_level_new, decide_False.
Qed.

Definition linked j (p : loc * Z) y : option (option loc * Z) :=
  if decide (y = zloc z) then Some (link j b)
  else if decide (y = p.1) then Some (Some (zloc z), zlen a - p.2 + 1) else get_level h_new y j.

Lemma link_level_spec j u ru g :
  upd !! j = Some (u, ru) -> (j < zheight z)%nat -> same_info h_new g ->
  (forall y, get_level g y j = get_level h_new y j) ->
  exists g', link_level (zloc z) (zlen a) j (u, ru) g = Some g' /\ same_info h_new g' /\
    forall y k, get_level g' y k = if decide (k = j) then linked k (u, ru) y else get_level g y k.
Proof.
  intros Hj Hjz Hi Hl. destruct (pred_loc j u ru Hj) as (Hne & Hu & Hr & _).
  pose proof (link_range j b) as Hlr. rewrite zlen_app in Hlen. pose proof (zlen_nonneg a). pose proof (zlen_nonneg b).
  unfold link_level. rewrite Hl, Hu. simpl. rewrite !(wrapu_small 32 (zlen a - ru)) by (split; lia).
  rewrite wrapu_small by (split; lia). rewrite wrapu_small by (split; lia).
  destruct (info_get_level h_new (zloc z) (Some (zele z)) (zscore z) (backward n) (zheight z) j) as [c0 Hc0]; [|done|].
  { unfold h_new. rewrite info_new, decide_True by done. destruct Hn as [E <-]. by rewrite E. }
  destruct (set_level_spec g (zloc z) j c0 ((link j b).1, zlen a - ru + (link j b).2 - (zlen a - ru)))
    as (g1 & -> & Hi1 & Hc1); [by rewrite Hl|]. simpl.
  destruct (set_level_spec g1 u j ((link j b).1, zlen a - ru + (link j b).2) (Some (zloc z), zlen a - ru + 1))
    as (g2 & -> & Hi2 & Hc2); [rewrite Hc1, decide_False by tauto; by rewrite Hl|].
  exists g2. split_and!; [done|by intros y; rewrite Hi2, Hi1|]. intros y k. rewrite Hc2, Hc1.
  destruct (decide (k = j)) as [->|Hk]; [|by rewrite !decide_False by tauto].
  unfold linked. simpl. destruct (decide (y = zloc z)) as [->|Hyz].
  - rewrite decide_False by (intros [? _]; done). rewrite decide_True by done. f_equal. apply injective_projections; simpl; lia || done.
  - destruct (decide (y = u)) as [->|Hyu].
    + by rewrite decide_True.
    + rewrite !decide_False by tauto. apply Hl.
Qed.

Definition bumped j (p : loc * Z) y : option (option loc * Z) :=
  if decide (y = p.1) then Some ((link j b).1, zlen a - p.2 + (link j b).2 + 1) else get_level h_new y j.

Lemma bump_level_spec j u ru g0 g :
  upd !! j = Some (u, ru) -> same_info h_new g0 -> same_info g0 g ->
  (forall y, get_level g0 y j = get_level h_new y j) ->
  (forall y, get_level g y j = get_level g0 y j) ->
  exists g', bump_level j (u, ru) g = Some g' /\ same_info g0 g' /\
    forall y k, get_level g' y k = if decide (k = j) then bumped k (u, ru) y else get_level g y k.
Proof.
  intros Hj Hi0 Hi Hl0 Hl. destruct (pred_loc j u ru Hj) as (Hne & Hu & Hr & _).
  pose proof (link_range j b) as Hlr. rewrite zlen_app in Hlen. pose proof (zlen_nonneg a). pose proof (zlen_nonneg b).
  unfold bump_level. simpl. rewrite Hl, Hl0, Hu. simpl. rewrite wrapu_small by (split; lia).
  destruct (set_level_spec g u j ((link j b).1, zlen a - ru + (link j b).2)
    ((link j b).1, zlen a - ru + (link j b).2 + 1)) as (g2 & -> & Hi2 & Hc2); [by rewrite Hl, Hl0|].
  exists g2. split_and!; [done|by intros y; rewrite Hi2|]. intros y k. rewrite Hc2.
  destruct (decide (k = j)) as [->|Hk]; [|by rewrite decide_False by tauto].
  unfold bumped. simpl. destruct (decide (y = u)) as [->|Hyu].
  - by rewrite decide_True.
  - rewrite decide_False by tauto. by rewrite Hl.
Qed.

(** Both loops over the levels. *)
Lemma insert_loops :
  exists h3 h4, each_level (link_level (zloc z) (zlen a)) (take (zheight z) upd) 0 h_new = Some h3 /\
    each_level bump_level (drop (zheight z) upd) (zheight z) h3 = Some h4 /\ same_info h_new h4 /\
    forall y k, get_level h4 y k =
      match upd !! k with
      | Some p => if (k <? zheight z)%nat then linked k p y else bumped k p y
      | None => get_level h_new y k
      end.
Proof.
  destruct (each_level_spec (link_level (zloc z) (zlen a)) linked (take (zheight z) upd) h_new h_new 0)
    as (h3 & E3 & Hi3 & Hc3); [done|done| |].
  { intros j [u ru] g Hj Hi Hl. simpl in *. apply lookup_take_Some in Hj as [Hj Hlt]. by apply link_level_spec. }
  destruct (each_level_spec bump_level bumped (drop (zheight z) upd) h3 h3 (zheight z))
    as (h4 & E4 & Hi4 & Hc4); [done|done| |].
  { intros j [u ru] g Hj Hi Hl. rewrite lookup_drop in Hj. apply bump_level_spec; [done|done|done| |done].
    intros y. rewrite Hc3, decide_True, Nat.sub_0_r by lia. by rewrite lookup_take_ge by lia. }
  exists h3, h4. split_and!; [done|done|by intros y; rewrite Hi4|]. intros y k. rewrite Hc4, Hc3.
  rewrite (decide_True (P := (0 <= k)%nat)), Nat.sub_0_r by lia.
  destruct (Nat.ltb_spec k (zheight z)).
  - rewrite decide_False, lookup_take_lt by lia. by destruct (upd !! k).
  - rewrite decide_True, lookup_drop, lookup_take_ge by lia.
    replace (zheight z + (k - zheight z))%nat with k by lia. by destruct (upd !! k).
Qed.

(** The heap after the loops and the updates of the [backward] pointers represents
    the list with [z]. *)
Lemma insert_struct h' zsl' :
  header zsl' = header zsl -> level_ zsl' = level_ zsl -> length_ zsl' = zlen (a ++ b) + 1 ->
  tail zsl' = zloc <$> last (a ++ z :: b) ->
  (forall y k, get_level h' y k =
    match upd !! k with
    | Some p => if (k <? zheight z)%nat then linked k p y else bumped k p y
    | None => get_level h_new y k
    end) ->
  info h' (zloc z) = Some (Some (zele z), zscore z, zloc <$> last a, zheight z) ->
  (forall y, y <> zloc z -> y ∉ zloc <$> b -> info h' y = info h y) ->
  (forall b1 w b2, b = b1 ++ w :: b2 ->
    info h' (zloc w) = Some (Some (zele w), zscore w, zloc <$> last (a ++ z :: b1), zheight w)) ->
  zsl_struct h' zsl' (a ++ z :: b).
Proof.
  intros Eh El Elen Et Hc Hiz Hio Hib. pose proof (s_nodup _ _ _ Hs) as Hnd. pose proof fresh_loc as Hfr.
  assert ((header zsl ∉ zloc <$> b) /\ (forall y, y ∈ header zsl :: (zloc <$> a) -> y ∉ (zloc <$> b)) /\
    NoDup (header zsl :: (zloc <$> a))) as (Hhb & Hab & Hnda).
  { rewrite fmap_app, app_comm_cons in Hnd. apply NoDup_app in Hnd as (? & Hd & _).
    split_and!; [apply Hd; by left|done|done]. }
  split; rewrite ?Eh, ?El.
  - destruct (s_header _ _ _ Hs) as [sc E]. exists sc. rewrite Hio; [done|by apply Hfr; left|done].
  - intros c w s E. apply app_eq_inv in E as [(l & -> & E)|(l & -> & E)]; destruct l as [|v l]; simplify_eq/=.
    + by rewrite app_nil_r in *.
    + rewrite Hio; [|apply Hfr; rewrite !fmap_app; set_solver|apply Hab; rewrite fmap_app; set_solver].
      apply (s_info _ _ _ Hs c v (l ++ b)). by rewrite <- app_assoc.
    + by rewrite app_nil_r.
    + by eapply Hib.
  - intros y r k s j Hp Hj Hjl. rewrite Hc.
    destruct (lookup_lt_is_Some_2 upd j) as [[u ru] Hu]; [lia|]. rewrite Hu.
    pose proof (Hpred _ _ _ Hu) as Hpr. destruct (pred_loc _ _ _ Hu) as (Huz & Huc & Hru & _).
    apply at_pos_app_inv in Hp as [(s' & Hp & ->)|[(-> & _ & -> & ->)|(b1 & w & Eb & -> & ->)]].
    + pose proof (insert_link _ a b z j u ru y r k s' Hpr Hp Hj Hnda) as ->.
      assert (y <> zloc z) as Hyz by (apply Hfr; apply (at_pos_app _ _ b) in Hp; by eapply at_pos_elem).
      assert (get_level h_new y j = Some (link j (s' ++ b))) as Hy.
      { unfold h_new. rewrite get_level_new, decide_False by done.
        apply (s_cell _ _ _ Hs y r k); [by apply at_pos_app|done|done]. }
      unfold linked, bumped. simpl. rewrite (decide_False (P := y = zloc z)) by done.
      destruct (decide (y = u)) as [->|]; [|by destruct (j <? zheight z)%nat].
      rewrite Huc in Hy. injection Hy as <-. by destruct (j <? zheight z)%nat.
    + rewrite (proj2 (Nat.ltb_lt _ _)) by done. unfold linked. by rewrite decide_True.
    + assert (zloc w ∈ zloc <$> b) as Hin by (rewrite Eb, fmap_app; set_solver).
      assert (zloc w <> zloc z) as Hwz by (apply Hfr; rewrite fmap_app; set_solver).
      assert (zloc w <> u) as Hwu.
      { intros <-. destruct Hpr as (? & ? & Hpu & _). apply at_pos_elem in Hpu. by apply (Hab _ Hpu). }
      unfold linked, bumped. simpl. rewrite (decide_False (P := zloc w = zloc z)) by done.
      rewrite !(decide_False (P := zloc w = u)) by done.
      assert (get_level h_new (zloc w) j = Some (link j s)) as ->; [|by destruct (j <? zheight z)%nat].
      unfold h_new. rewrite get_level_new, decide_False by done.
      apply (s_cell _ _ _ Hs _ (zlen (a ++ b1) + 1) (zheight w)); [|done|done]. apply at_node. by rewrite Eb, <- app_assoc.
  - intros j Hj. rewrite Hc, lookup_ge_None_2 by lia. unfold h_new.
    rewrite get_level_new, decide_False by (apply Hfr; by left). by apply (s_free _ _ _ Hs).
  - rewrite fmap_app, fmap_cons, app_comm_cons. rewrite fmap_app, app_comm_cons in Hnd, Hfr.
    rewrite <- Permutation_middle. apply NoDup_cons. split; [|done]. intros Hin. by apply (Hfr _ Hin).
  - done.
  - rewrite Elen. zl.
  - apply Hs.
  - pose proof (s_heights _ _ _ Hs) as Hh. apply Forall_app in Hh as [Ha Hb]. apply Forall_app. split; [done|]. by constructor.
Qed.
End insert.
End insertion.

Section insert_spec.
Context {score : Type} `{Score score} `{!ZslMalloc score}.
Abbreviation heap := (gmap loc (zskiplistNode score)).
Implicit Types (h g : heap) (zsl : zskiplist) (a b ns s t : list (znode (score:=score)))
  (z : znode (score:=score)) (x y u : loc) (i j k : nat).

Lemma zslRandomLevel_range rs level : zslRandomLevel rs = Some level -> (1 <= level <= ZSKIPLIST_MAXLEVEL)%nat.
Proof.
  unfold zslRandomLevel.
  assert (forall l m, randomLevel_loop rs l = Some m -> (l <= m)%nat) as G.
  { induction rs as [|r rs IH]; intros l m; simpl; [done|]. case_match; [|naive_solver].
    intros Hm%IH. lia. }
  destruct (randomLevel_loop rs 1) as [m|] eqn:E; [|done]. apply G in E. simpl. intros [= <-].
  unfold ZSKIPLIST_MAXLEVEL. destruct (Nat.ltb_spec m 64); lia.
Qed.

Lemma same_info_fresh h h' x : same_info h h' -> h' !! x = None -> h !! x = None.
Proof.
  intros Hi Hx. specialize (Hi x). unfold info in Hi. rewrite Hx in Hi. by destruct (h !! x).
Qed.

(** The updates of the [backward] pointers after the loops. *)
Lemma insert_backward h4 zsl a b z upd n h :
  zsl_struct h zsl (a ++ b) -> h !! zloc z = None -> length upd = level_ zsl ->
  (forall j u ru, upd !! j = Some (u, ru) -> pred_at (header zsl) a j u ru) ->
  (1 <= zheight z <= level_ zsl)%nat -> zlen (a ++ b) + 1 < 2 ^ 32 ->
  n = ZskiplistNode (Some (zele z)) (zscore z) (backward n) (levels n) -> length (levels n) = zheight z ->
  same_info (h_new h z n) h4 ->
  (forall y k, get_level h4 y k =
    match upd !! k with
    | Some p => if (k <? zheight z)%nat then linked h a b z n k p y else bumped h a b z n k p y
    | None => get_level (h_new h z n) y k
    end) ->
  exists h5 f sp, set_backward h4 (zloc z) (zloc <$> last a) = Some h5 /\ get_level h5 (zloc z) 0 = Some (f, sp) /\
    f = zloc <$> head b /\
    forall zsl', header zsl' = header zsl -> level_ zsl' = level_ zsl -> length_ zsl' = zlen (a ++ b) + 1 ->
      tail zsl' = zloc <$> last (a ++ z :: b) ->
      match f with
      | Some y => exists h6, set_backward h5 y (Some (zloc z)) = Some h6 /\ zsl_struct h6 zsl' (a ++ z :: b)
      | None => zsl_struct h5 zsl' (a ++ z :: b)
      end.
Proof.
  intros Hs Hfresh Hupd Hpred Hz Hlen Hn Hn2 Hi Hc.
  destruct (set_backward_spec h4 (zloc z) (Some (zele z)) (zscore z) (backward n) (zheight z) (zloc <$> last a))
    as (h5 & E5 & Hl5 & Hi5).
  { rewrite Hi. unfold h_new. rewrite info_new, decide_True by done. rewrite Hn2. by rewrite Hn. }
  destruct (lookup_lt_is_Some_2 upd 0) as [[u0 r0] Hu0]; [lia|].
  assert (get_level h5 (zloc z) 0 = Some (link 0 b)) as E0.
  { rewrite Hl5, Hc, Hu0, (proj2 (Nat.ltb_lt _ _)) by lia. unfold linked. by rewrite decide_True. }
  assert (forall y, y <> zloc z -> info h5 y = info h y) as Hio.
  { intros y Hy. rewrite Hi5, decide_False, Hi by done. unfold h_new. by rewrite info_new, decide_False. }
  assert (info h5 (zloc z) = Some (Some (zele z), zscore z, zloc <$> last a, zheight z)) as Hiz.
  { by rewrite Hi5, decide_True. }
  pose proof (fresh_loc h zsl a b z Hs Hfresh) as Hfr.
  destruct b as [|w b].
  - eexists h5, _, _. split_and!; [done|exact E0|done|]. simpl. intros zsl' Eh El Elen Et.
    apply (insert_struct h zsl a [] z upd n Hs Hfresh Hupd Hpred Hz Hlen (conj Hn Hn2) h5 zsl' Eh El Elen Et).
    + intros y k. by rewrite Hl5, Hc.
    + done.
    + intros y Hy _. by apply Hio.
    + intros b1 w b2 E. by destruct b1.
  - assert (1 <= zheight w)%nat as Hw.
    { pose proof (s_heights _ _ _ Hs) as Hh. apply Forall_app in Hh as [_ Hh]. inversion Hh. lia. }
    exists h5, (Some (zloc w)), 1. simpl in E0. rewrite (proj2 (Nat.ltb_lt _ _)) in E0 by lia.
    split_and!; [done|done|done|]. intros zsl' Eh El Elen Et.
    assert (forall c, c ∈ (w :: b) -> zloc c <> zloc z) as Hwz.
    { intros c Hin. apply Hfr. rewrite fmap_app. right. apply elem_of_app. right. by apply list_elem_of_fmap_2. }
    destruct (set_backward_spec h5 (zloc w) (Some (zele w)) (zscore w) (zloc <$> last a) (zheight w) (Some (zloc z)))
      as (h6 & E6 & Hl6 & Hi6).
    { rewrite Hio by (apply Hwz; by left). by apply (s_info _ _ _ Hs a w b). }
    exists h6. split; [done|].
    apply (insert_struct h zsl a (w :: b) z upd n Hs Hfresh Hupd Hpred Hz Hlen (conj Hn Hn2) h6 zsl' Eh El Elen Et).
    + intros y k. by rewrite Hl6, Hl5, Hc.
    + rewrite Hi6, decide_False; [done|]. intros E. symmetry in E. revert E. apply Hwz. by left.
    + intros y Hy Hin. rewrite Hi6, decide_False by (intros ->; set_solver). by apply Hio.
    + intros b1 c b2 E. destruct b1 as [|c1 b1]; simplify_eq/=.
      * by rewrite Hi6, decide_True, last_snoc.
      * rewrite Hi6, decide_False, Hio.
        -- rewrite (s_info _ _ _ Hs (a ++ c1 :: b1) c b2) by (by rewrite <- app_assoc).
           do 3 f_equal. by rewrite !last_app.
        -- apply Hwz. set_solver.
        -- intros Ez. pose proof (s_nodup _ _ _ Hs) as Hnd. rewrite fmap_app in Hnd.
           apply NoDup_cons in Hnd as [_ Hnd]. apply NoDup_app in Hnd as (_ & _ & Hnd).
           rewrite fmap_cons, fmap_app, fmap_cons in Hnd. apply NoDup_cons in Hnd as [Hnd _]. set_solver.
Qed.

Lemma zslInsert_struct rs h zsl a b sc e level :
  zsl_struct h zsl (a ++ b) -> splits (fun _ => before sc e) a b -> isnan sc = false ->
  zslRandomLevel rs = Some level -> zlen (a ++ b) + 1 < 2 ^ 32 ->
  exists h' zsl' x, zslInsert rs h zsl sc e = Some (h', zsl', x) /\ h !! x = None /\
    header zsl' = header zsl /\ zsl_struct h' zsl' (a ++ Znode x level sc e :: b).
Proof.
  intros Hs Hgo Hnan Hlev Hlen. unfold zslInsert. rewrite Hnan.
  destruct (traverse_spec 32 _ h zsl a b Hs Hgo) as (upd & -> & Hul & Hup); [lia|]. cbn [mbind option_bind].
  rewrite Hlev. cbn [mbind option_bind]. pose proof (zslRandomLevel_range _ _ Hlev) as Hlr.
  pose proof (s_level _ _ _ Hs) as Hl.
  destruct (raise_levels_spec (level - level_ zsl) zsl (a ++ b) h zsl eq_refl eq_refl Hs) as (h1 & -> & Hi1 & Hs1); [lia|].
  cbn [mbind option_bind]. unfold zslCreateNode. cbv zeta beta iota. cbn [header tail length_ level_].
  set (upd' := upd ++ replicate (level - level_ zsl) (header zsl, 0)).
  replace (level_ zsl + (level - level_ zsl))%nat with (Nat.max level (level_ zsl)) in Hs1 by lia.
  set (zsl1 := with_level zsl (Nat.max level (level_ zsl))) in Hs1.
  pose proof (zmalloc_fresh h1) as Hfr. set (x := zmalloc h1) in *. set (z := Znode x level sc e).
  assert (length upd' = level_ zsl1) as Hul'.
  { unfold upd'. rewrite length_app, length_replicate. simpl. lia. }
  assert (forall j u ru, upd' !! j = Some (u, ru) -> pred_at (header zsl1) a j u ru) as Hup'.
  { intros j u ru Hj. assert (j < level_ zsl1)%nat as Hjl by (rewrite <- Hul'; by eapply lookup_lt_Some).
    apply lookup_app_Some in Hj as [Hj|[Hge Hj]]; [by apply Hup|].
    apply lookup_replicate in Hj as [[= -> ->] Hlt]. simpl in *. eapply pred_at_new; [done|lia]. }
  set (n := ZskiplistNode (Some e) sc junk_backward (replicate level junk_level)).
  assert (length (levels n) = zheight z) as Hn2 by (simpl; by rewrite length_replicate).
  assert (1 <= zheight z <= level_ zsl1)%nat as Hz by (simpl; lia).
  destruct (insert_loops h1 zsl1 a b z upd' n Hs1 Hfr Hul' Hup' Hz Hlen (conj eq_refl Hn2)) as (h3 & h4 & E3 & E4 & Hi4 & Hc4).
  destruct (insert_backward h4 zsl1 a b z upd' n h1 Hs1 Hfr Hul' Hup' Hz Hlen eq_refl Hn2 Hi4 Hc4)
    as (h5 & f & sp & E5 & Eg & Ef & Hfin).
  destruct (lookup_lt_is_Some_2 upd' 0) as [[u0 r0] Hu0]; [lia|]. rewrite Hu0. cbn [mbind option_bind].
  destruct (pred_at_0 _ _ _ _ _ _ Hs1 (Hup' _ _ _ Hu0)) as (-> & _ & Hu).
  simpl in E3, E4. unfold h_new in E3. simpl in E3. fold n. rewrite E3. cbn [mbind option_bind]. rewrite E4. cbn [mbind option_bind].
  assert ((if bool_decide (u0 = header zsl) then None else Some u0) = zloc <$> last a) as ->.
  { destruct Hu as [[-> ->]|(a' & w & Ea & Eu)]; [by rewrite bool_decide_eq_true_2|].
    rewrite Ea, last_snoc, Eu. rewrite bool_decide_eq_false_2; [done|]. intros Ew.
    pose proof (s_nodup _ _ _ Hs) as Hnd. apply NoDup_cons in Hnd as [Hnd _]. apply Hnd.
    rewrite <- Ew, Ea, !fmap_app. set_solver. }
  simpl in E5, Eg. rewrite E5. cbn [mbind option_bind]. rewrite Eg. cbn [mbind option_bind].
  assert (length_ zsl = zlen (a ++ b)) as Hlz by apply Hs. pose proof (zlen_nonneg (a ++ b)).
  rewrite wrapu_small by (split; lia).
  destruct b as [|w b]; simpl in Ef; subst f.
  - eexists _, _, x. split_and!; [done|by eapply same_info_fresh|done|].
    apply (Hfin (Zskiplist _ _ _ _)); simpl; [done|done|lia|by rewrite last_snoc].
  - destruct (Hfin (Zskiplist (header zsl) (tail zsl) (length_ zsl + 1) (Nat.max level (level_ zsl)))) as (h6 & E6 & Hs6);
      [done|done|simpl; lia|simpl; rewrite (s_tail _ _ _ Hs); by rewrite !last_app|].
    simpl in E6. rewrite E6. cbn [mbind option_bind].
    eexists _, _, x. split_and!; [done|by eapply same_info_fresh|done|done].
Qed.
End insert_spec.

(** ** Deletion *)

Section deletion.
Context {score : Type} `{Score score}.
Abbreviation heap := (gmap loc (zskiplistNode score)).
Implicit Types (h g : heap) (zsl : zskiplist) (a b ns s t : list (znode (score:=score)))
  (z : znode (score:=score)) (x y u : loc) (i j k : nat) (upd : list (loc * Z)).

Lemma link_low j ns : (link j ns).1 = None -> Forall (fun z => zheight z <= j)%nat ns.
Proof.
  induction ns as [|z ns IH]; simpl; [constructor|]. destruct (Nat.ltb_spec j (zheight z)); simpl; [done|].
  intros Hn. constructor; [done|auto].
Qed.

Lemma lower_one h zsl ns l :
  zsl_struct h zsl ns -> level_ zsl = S (S l) -> (link (S l) ns).1 = None -> zsl_struct h (with_level zsl (S l)) ns.
Proof.
  intros Hs El Hn. pose proof (link_low _ _ Hn) as Hlow. pose proof (s_level _ _ _ Hs) as Hl.
  split; simpl; try apply Hs.
  - intros y r k s j Hp Hj Hjl. apply (s_cell _ _ _ Hs y r k); [done|done|lia].
  - intros j Hj. destruct (decide (j = S l)) as [->|Hne]; [|apply (s_free _ _ _ Hs); lia].
    rewrite (s_cell _ _ _ Hs (header zsl) 0 ZSKIPLIST_MAXLEVEL ns) by (apply at_header || lia).
    rewrite link_none by done. eauto.
  - lia.
  - pose proof (s_heights _ _ _ Hs) as Hh. rewrite !Forall_forall in *. intros z Hz.
    specialize (Hh z Hz). specialize (Hlow z Hz). simpl in *. lia.
Qed.

Lemma lower_level_S h x l :
  lower_level h x (S (S l)) =
    ('(f, _) ← get_level h x (S l); match f with None => lower_level h x (S l) | Some _ => Some (S (S l)) end).
Proof. reflexivity. Qed.

Lemma lower_level_spec h ns : forall n zsl,
  zsl_struct h zsl ns -> level_ zsl = n ->
  exists l, lower_level h (header zsl) n = Some l /\ (l <= n)%nat /\ zsl_struct h (with_level zsl l) ns.
Proof.
  induction n as [|[|l] IH]; intros zsl Hs El.
  - pose proof (s_level _ _ _ Hs). lia.
  - exists 1%nat. split_and!; [done|lia|]. rewrite <- El. by destruct zsl.
  - pose proof (s_level _ _ _ Hs) as Hl. rewrite lower_level_S.
    rewrite (s_cell _ _ _ Hs (header zsl) 0 ZSKIPLIST_MAXLEVEL ns) by (apply at_header || lia).
    cbn [mbind option_bind]. destruct (link (S l) ns) as [[f|] sp] eqn:Ef.
    + exists (S (S l)). split_and!; [done|lia|]. rewrite <- El. by destruct zsl.
    + destruct (IH (with_level zsl (S l))) as (l' & El' & Hle & Hs'); [|done|].
      * apply lower_one; [done|done|by rewrite Ef].
      * exists l'. split_and!; [done|lia|done].
Qed.

(** A heap that agrees on the nodes of the list. *)
Lemma struct_ext h h' zsl ns :
  zsl_struct h zsl ns ->
  (forall y, y ∈ header zsl :: (zloc <$> ns) -> info h' y = info h y /\ forall j, get_level h' y j = get_level h y j) ->
  zsl_struct h' zsl ns.
Proof.
  intros Hs He. split; try apply Hs.
  - destruct (s_header _ _ _ Hs) as [sc E]. exists sc. rewrite <- E. apply He. by left.
  - intros a z s E. destruct (He (zloc z)) as [-> _]; [|by apply (s_info _ _ _ Hs a z s)].
    rewrite E, fmap_app. set_solver.
  - intros y r k s j Hp Hj Hjl. rewrite (proj2 (He y (at_pos_elem _ _ _ _ _ _ Hp))). by apply (s_cell _ _ _ Hs y r k).
  - intros j Hj. rewrite (proj2 (He (header zsl) ltac:(by left))). by apply (s_free _ _ _ Hs).
Qed.

Lemma struct_delete h zsl ns x :
  zsl_struct h zsl ns -> x ∉ header zsl :: (zloc <$> ns) -> zsl_struct (delete x h) zsl ns.
Proof.
  intros Hs Hx. apply (struct_ext h); [done|]. intros y Hy. assert (y <> x) by (by intros ->).
  split; [by apply info_delete|intros j; by apply get_level_delete].
Qed.

Section unlink.
Context h zsl a b z upd.
Context (Hs : zsl_struct h zsl (a ++ z :: b)) (Hupd : (level_ zsl <= length upd)%nat).
Context (Hpred : forall j u ru, upd !! j = Some (u, ru) -> pred_at (header zsl) a j u ru).
Context (Hlen : zlen (a ++ z :: b) < 2 ^ 64).

Definition unlinked j (p : loc * Z) y : option (option loc * Z) :=
  if decide (y = p.1) then Some ((link j b).1, zlen a - p.2 + (link j b).2) else get_level h y j.

Lemma z_notin : zloc z ∉ header zsl :: (zloc <$> a ++ b).
Proof.
  pose proof (s_nodup _ _ _ Hs) as Hnd. rewrite fmap_app, fmap_cons, app_comm_cons, <- Permutation_middle in Hnd.
  apply NoDup_cons in Hnd as [Hnd _]. by rewrite fmap_app, app_comm_cons.
Qed.

Lemma nodup_ab : NoDup (header zsl :: (zloc <$> a ++ b)).
Proof.
  pose proof (s_nodup _ _ _ Hs) as Hnd. rewrite fmap_app, fmap_cons, app_comm_cons, <- Permutation_middle in Hnd.
  apply NoDup_cons in Hnd as [_ Hnd]. by rewrite fmap_app, app_comm_cons.
Qed.

Lemma unlink_level_spec j u ru g :
  upd !! j = Some (u, ru) -> (j < level_ zsl)%nat -> same_info h g ->
  (forall y, get_level g y j = get_level h y j) ->
  exists g', unlink_level (zloc z) j (u, ru) g = Some g' /\ same_info h g' /\
    forall y k, get_level g' y k = if decide (k = j) then unlinked k (u, ru) y else get_level g y k.
Proof.
  intros Hj Hjl Hi Hl. destruct (pred_link _ _ _ _ _ _ _ Hs (Hpred _ _ _ Hj) Hjl) as [Hu Hr].
  pose proof (link_range j b) as Hlr. rewrite zlen_app, zlen_cons in Hlen.
  pose proof (zlen_nonneg a). pose proof (zlen_nonneg b).
  unfold unlink_level. simpl. rewrite (Hl u), Hu. cbn [mbind option_bind link].
  assert (forall g', (exists g1, set_level g u j ((link j b).1, zlen a - ru + (link j b).2) = Some g1 /\ g1 = g') ->
    same_info h g' /\ forall y k, get_level g' y k = if decide (k = j) then unlinked k (u, ru) y else get_level g y k) as Hfin.
  { intros g' (g1 & E & <-).
    destruct (set_level_spec g u j _ ((link j b).1, zlen a - ru + (link j b).2) (eq_trans (Hl u) Hu)) as (g2 & E2 & Hi2 & Hc2).
    rewrite E in E2. injection E2 as <-. split; [by intros y; rewrite Hi2|]. intros y k. rewrite Hc2.
    destruct (decide (k = j)) as [->|Hk]; [|by rewrite decide_False by tauto].
    unfold unlinked. simpl. destruct (decide (y = u)) as [->|]; [by rewrite decide_True|].
    rewrite decide_False by tauto. apply Hl. }
  destruct (set_level_spec g u j _ ((link j b).1, zlen a - ru + (link j b).2) (eq_trans (Hl u) Hu)) as (g2 & E2 & _).
  exists g2. split; [|apply Hfin; by exists g2].
  destruct (Nat.ltb_spec j (zheight z)); cbn [fst snd].
  - rewrite bool_decide_eq_true_2 by done. rewrite Hl.
    rewrite (s_cell _ _ _ Hs (zloc z) (zlen a + 1) (zheight z) b) by (done || by apply at_node).
    cbn [mbind option_bind]. rewrite <- E2. destruct (link j b) as [f sp]. simpl in *. do 2 f_equal.
    rewrite wrapu_small by (split; lia). lia.
  - rewrite bool_decide_eq_false_2.
    + rewrite <- E2. do 2 f_equal. rewrite wrapu_small by (split; lia). lia.
    + intros Hin%link_in. apply z_notin. rewrite fmap_app. set_solver.
Qed.

Lemma unlink_loop :
  exists h1, each_level (unlink_level (zloc z)) (take (level_ zsl) upd) 0 h = Some h1 /\ same_info h h1 /\
    forall y k, get_level h1 y k =
      match take (level_ zsl) upd !! k with Some p => unlinked k p y | None => get_level h y k end.
Proof.
  destruct (each_level_spec (unlink_level (zloc z)) unlinked (take (level_ zsl) upd) h h 0)
    as (h1 & E & Hi & Hc); [done|done| |].
  { intros j [u ru] g Hj Hi Hl. simpl in *. apply lookup_take_Some in Hj as [Hj Hlt]. by apply unlink_level_spec. }
  exists h1. split_and!; [done|done|]. intros y k. by rewrite Hc, decide_True, Nat.sub_0_r by lia.
Qed.

Lemma unlink_struct h' zsl' :
  header zsl' = header zsl -> level_ zsl' = level_ zsl -> length_ zsl' = zlen (a ++ b) ->
  tail zsl' = zloc <$> last (a ++ b) ->
  (forall y k, get_level h' y k =
    match take (level_ zsl) upd !! k with Some p => unlinked k p y | None => get_level h y k end) ->
  (forall y, y ∉ zloc <$> b -> info h' y = info h y) ->
  (forall b1 w b2, b = b1 ++ w :: b2 ->
    info h' (zloc w) = Some (Some (zele w), zscore w, zloc <$> last (a ++ b1), zheight w)) ->
  zsl_struct h' zsl' (a ++ b).
Proof.
  intros Eh El Elen Et Hc Hio Hib. pose proof nodup_ab as Hnd. pose proof z_notin as Hzn.
  assert ((forall y, y ∈ header zsl :: (zloc <$> a) -> y ∉ zloc <$> b) /\ NoDup (header zsl :: (zloc <$> a))) as (Hab & Hnda).
  { rewrite fmap_app, app_comm_cons in Hnd. apply NoDup_app in Hnd as (? & Hd & _). done. }
  split; rewrite ?Eh, ?El; try done.
  - destruct (s_header _ _ _ Hs) as [sc E]. exists sc. rewrite Hio; [done|]. apply Hab. by left.
  - intros c w s E. apply app_eq_inv in E as [(l & -> & E)|(l & -> & E)]; [destruct l as [|v l]|]; simplify_eq/=.
    + rewrite app_nil_r in *. rewrite (Hib [] w s) by done. by rewrite app_nil_r.
    + rewrite Hio; [|apply Hab; rewrite fmap_app; set_solver].
      apply (s_info _ _ _ Hs c v (l ++ z :: b)). by rewrite <- app_assoc.
    + by eapply Hib.
  - intros y r k s j Hp Hj Hjl. rewrite Hc, lookup_take_lt by done.
    destruct (lookup_lt_is_Some_2 upd j) as [[u ru] Hu]; [lia|]. rewrite Hu.
    pose proof (Hpred _ _ _ Hu) as Hpr. unfold unlinked. simpl.
    assert ((exists s', at_pos (header zsl) a y r k s' /\ s = s' ++ b) \/
      (exists b1 w, b = b1 ++ w :: s /\ y = zloc w /\ k = zheight w)) as [(s' & Hp' & ->)|(b1 & w & Eb & -> & ->)].
    { destruct Hp as [|c w s E]; [left; eexists; split; [constructor|done]|].
      apply app_eq_inv in E as [(l & -> & E)|(l & -> & E)]; [destruct l as [|v l]|]; simplify_eq/=.
      - right. by eexists [], _.
      - left. eexists. split; [by apply at_node|done].
      - right. by eexists _, _. }
    + destruct (pred_link _ _ _ _ _ _ _ Hs Hpr Hjl) as [Huc Hru].
      destruct (pred_cases _ _ _ _ _ _ _ _ _ Hpr Hp' Hj Hnda) as [(-> & -> & Hlow)|(Hne & s1 & z1 & s2 & -> & Hlow & Hz1)].
      * rewrite decide_True, link_skip by done. pose proof (at_pos_rank _ _ _ _ _ _ Hp'). do 2 f_equal. lia.
      * rewrite decide_False by done. rewrite (s_cell _ _ _ Hs y r k ((s1 ++ z1 :: s2) ++ z :: b))
          by (done || by apply at_pos_app).
        rewrite <- !app_assoc. simpl. by rewrite !link_hit.
    + rewrite decide_False.
      * apply (s_cell _ _ _ Hs _ (zlen (a ++ z :: b1) + 1) (zheight w)); [|done|done]. apply at_node.
        by rewrite Eb, <- app_assoc.
      * intros <-. destruct Hpr as (? & ? & Hpu & _). apply at_pos_elem in Hpu. apply (Hab _ Hpu).
        rewrite Eb, fmap_app. set_solver.
  - intros j Hj. rewrite Hc, lookup_take_ge by lia. by apply (s_free _ _ _ Hs).
  - apply Hs.
  - pose proof (s_heights _ _ _ Hs) as Hh. apply Forall_app in Hh as [Ha Hb]. inversion Hb. by apply Forall_app.
Qed.

(** The update of the [backward] pointer, or of the tail, after the loop. *)
Lemma unlink_backward h1 :
  same_info h h1 ->
  (forall y k, get_level h1 y k =
    match take (level_ zsl) upd !! k with Some p => unlinked k p y | None => get_level h y k end) ->
  exists h2 tl, match (link 0 b).1 with
      | Some y => h ← set_backward h1 y (zloc <$> last a); Some (h, tail zsl)
      | None => Some (h1, zloc <$> last a)
      end = Some (h2, tl) /\
    zsl_struct h2 (Zskiplist (header zsl) tl (zlen (a ++ b)) (level_ zsl)) (a ++ b) /\
    info h2 (zloc z) = info h1 (zloc z) /\ forall j, get_level h2 (zloc z) j = get_level h1 (zloc z) j.
Proof.
  intros Hi1 Hc1. pose proof z_notin as Hzn. pose proof (s_heights _ _ _ Hs) as Hh.
  apply Forall_app in Hh as [_ Hh]. apply Forall_cons in Hh as [_ Hbh].
  assert (b = [] \/ exists w b', b = w :: b') as [Eb|(w & b' & Eb)] by (destruct b; eauto).
  - assert ((link 0 b).1 = None) as -> by (by rewrite Eb). eexists h1, _. split; [done|]. split_and!; [|done|done].
    apply (unlink_struct h1 (Zskiplist _ _ _ _)); simpl; try done.
    + by rewrite Eb, app_nil_r.
    + intros b1 w b2 E. rewrite Eb in E. by destruct b1.
  - assert (1 <= zheight w)%nat as Hw by (rewrite Eb in Hbh; apply Forall_cons in Hbh as [? _]; lia).
    assert ((link 0 b).1 = Some (zloc w)) as -> by (rewrite Eb; simpl; by rewrite (proj2 (Nat.ltb_lt _ _)) by lia).
    destruct (set_backward_spec h1 (zloc w) (Some (zele w)) (zscore w) (Some (zloc z)) (zheight w) (zloc <$> last a))
      as (h2 & -> & Hl2 & Hi2).
    { rewrite Hi1. rewrite (s_info _ _ _ Hs (a ++ [z]) w b') by (by rewrite <- app_assoc, Eb). by rewrite last_snoc. }
    assert (zloc w <> zloc z) as Hwz by (intros E; apply Hzn; rewrite <- E, fmap_app, Eb; set_solver).
    exists h2, (tail zsl). split; [done|]. split_and!.
    + apply (unlink_struct h2 (Zskiplist _ _ _ _)); simpl; try done.
      * rewrite (s_tail _ _ _ Hs), Eb. by rewrite !last_app.
      * intros y k. by rewrite Hl2, Hc1.
      * intros y Hy. rewrite Hi2, decide_False; [by rewrite Hi1|]. intros ->. apply Hy. rewrite Eb. set_solver.
      * intros b1 c b2 E. rewrite Hi2. pose proof nodup_ab as Hnd.
        destruct b1 as [|c1 b1]; rewrite E in Eb; simplify_eq/=; [by rewrite decide_True, app_nil_r|].
        rewrite decide_False.
        -- rewrite Hi1, (s_info _ _ _ Hs (a ++ z :: w :: b1) c b2) by (rewrite E; by rewrite <- app_assoc).
           do 3 f_equal. by rewrite !last_app.
        -- intros Ec. rewrite E, fmap_app in Hnd.
           apply NoDup_cons in Hnd as [_ Hnd]. apply NoDup_app in Hnd as (_ & _ & Hnd).
           rewrite fmap_cons, fmap_app, fmap_cons in Hnd. apply NoDup_cons in Hnd as [Hnd _]. set_solver.
    + by rewrite Hi2, decide_False.
    + intros j. by rewrite Hl2.
Qed.

Lemma zslDeleteNode_struct :
  exists h' zsl', zslDeleteNode h zsl (zloc z) upd = Some (h', zsl') /\ header zsl' = header zsl /\
    (level_ zsl' <= level_ zsl)%nat /\ zsl_struct h' zsl' (a ++ b) /\
    info h' (zloc z) = info h (zloc z) /\ forall j, get_level h' (zloc z) j = get_level h (zloc z) j.
Proof.
  unfold zslDeleteNode. destruct unlink_loop as (h1 & -> & Hi1 & Hc1). cbn [mbind option_bind].
  pose proof z_notin as Hzn. pose proof (s_length _ _ _ Hs) as Hl. pose proof (s_heights _ _ _ Hs) as Hh.
  apply Forall_app in Hh as [_ Hh]. apply Forall_cons in Hh as [Hzh Hbh].
  assert (forall j, get_level h1 (zloc z) j = get_level h (zloc z) j) as Hcz.
  { intros j. rewrite Hc1. destruct (take _ upd !! j) as [[u ru]|] eqn:Eu; [|done].
    unfold unlinked. simpl. rewrite decide_False; [done|]. intros Ez. subst u.
    apply lookup_take_Some in Eu as [Eu _]. destruct (Hpred _ _ _ Eu) as (? & ? & Hp & _).
    apply (at_pos_app _ _ b), at_pos_elem in Hp. done. }
  rewrite Hcz, (s_cell _ _ _ Hs (zloc z) (zlen a + 1) (zheight z) b) by (lia || by apply at_node).
  destruct (info_Some h1 (zloc z) (Some (zele z)) (zscore z) (zloc <$> last a) (zheight z)) as (n & En & _ & _ & Hbk & _).
  { rewrite Hi1. by apply (s_info _ _ _ Hs a z b). }
  destruct (unlink_backward h1 Hi1 Hc1) as (h2 & tl & E2 & Hs2 & Hi2 & Hc2).
  destruct (link 0 b) as [f sp]. cbn [mbind option_bind fst] in *. rewrite En. cbn [mbind option_bind].
  rewrite Hbk, E2. cbn [mbind option_bind].
  destruct (lower_level_spec h2 (a ++ b) _ _ Hs2 eq_refl) as (l & El & Hle & Hsl). simpl in El, Hle.
  rewrite El. cbn [mbind option_bind]. eexists _, _. split; [done|].
  assert (wrapu 64 (length_ zsl - 1) = zlen (a ++ b)) as ->.
  { rewrite Hl. zl. pose proof (zlen_nonneg a). pose proof (zlen_nonneg b). rewrite wrapu_small; [lia|split; lia]. }
  split_and!; [done|done|done|by rewrite Hi2|]. intros j. by rewrite Hc2.
Qed.
End unlink.
End deletion.

(** ** Deletion of ranges, structurally *)

Section ranges.
Context {score : Type} `{Score score}.
Abbreviation heap := (gmap loc (zskiplistNode score)).
Implicit Types (h g : heap) (zsl : zskiplist) (a b m ns s t : list (znode (score:=score)))
  (z : znode (score:=score)) (x y u : loc) (i j k : nat) (upd : list (loc * Z)).

(** A node of the list, with its contents and the node after it. *)
Lemma node_data h zsl a z b :
  zsl_struct h zsl (a ++ z :: b) ->
  exists n, h !! zloc z = Some n /\ ele n = Some (zele z) /\ nscore n = zscore z /\ backward n = zloc <$> last a /\
    exists sp, get_level h (zloc z) 0 = Some (zloc <$> head b, sp).
Proof.
  intros Hs. pose proof (s_heights _ _ _ Hs) as Hh. apply Forall_app in Hh as [_ Hh].
  apply Forall_cons in Hh as [Hz Hb]. pose proof (s_level _ _ _ Hs).
  destruct (info_Some _ _ _ _ _ _ (s_info _ _ _ Hs a z b eq_refl)) as (n & Hn & He & Hsc & Hbk & _).
  exists n. split_and!; [done|done|done|done|].
  rewrite (s_cell _ _ _ Hs (zloc z) (zlen a + 1) (zheight z) b) by (lia || by apply at_node).
  destruct b as [|w b]; [by eexists|]. apply Forall_cons in Hb as [Hw _]. simpl.
  rewrite (proj2 (Nat.ltb_lt _ _)) by lia. by eexists.
Qed.

(** The conditions under which the deletion loop removes exactly [m]. *)
Definition deletes (del : Z -> zskiplistNode score -> option bool) (t : Z) m b : Prop :=
  (forall m1 z m2 n, m = m1 ++ z :: m2 -> ele n = Some (zele z) -> nscore n = zscore z ->
    del (t + zlen m1) n = Some true) /\
  (forall z b' n, b = z :: b' -> ele n = Some (zele z) -> nscore n = zscore z -> del (t + zlen m) n = Some false).

Lemma delete_loop_spec del a b upd fuel : forall m h zsl (r : Z),
  zsl_struct h zsl (a ++ m ++ b) -> (level_ zsl <= length upd)%nat ->
  (forall j u ru, upd !! j = Some (u, ru) -> pred_at (header zsl) a j u ru) ->
  zlen (a ++ m ++ b) < 2 ^ 64 -> (length m < fuel)%nat -> 0 <= r -> r + zlen m < 2 ^ 64 -> deletes del r m b ->
  exists h' zsl', delete_loop fuel del h zsl (zloc <$> head (m ++ b)) upd r = Some (h', zsl', zele <$> m) /\
    zsl_struct h' zsl' (a ++ b).
Proof.
  induction fuel as [|fuel IH]; intros m h zsl r Hs Hl Hpr Hlen Hf Hr0 Hr [Hd1 Hd2]; [lia|].
  destruct m as [|z m]; simpl in *.
  - destruct b as [|w b]; simpl; [by eexists _, _|].
    destruct (node_data _ _ _ _ _ Hs) as (n & -> & He & Hsc & _). simpl.
    specialize (Hd2 w b n eq_refl He Hsc). rewrite (@zlen_nil znode), Z.add_0_r in Hd2. rewrite Hd2. simpl. by eexists _, _.
  - destruct (node_data _ _ _ _ _ Hs) as (n & Hn & He & Hsc & _ & sp & Hg). rewrite Hn. simpl.
    pose proof (Hd1 [] z m n eq_refl He Hsc) as Hd. rewrite (@zlen_nil znode), Z.add_0_r in Hd. rewrite Hd. simpl. rewrite Hg. simpl.
    destruct (zslDeleteNode_struct h zsl a (m ++ b) z upd Hs Hl Hpr) as (h1 & zsl1 & -> & Eh & El & Hs1 & Hi1 & _); [lia|].
    rewrite He. simpl.
    assert (info h1 (zloc z) = Some (Some (zele z), zscore z, zloc <$> last a, zheight z)) as Hiz.
    { rewrite Hi1. by apply (s_info _ _ _ Hs a z (m ++ b)). }
    apply info_Some in Hiz as (n1 & Hn1 & _). unfold zslFreeNode. rewrite Hn1. simpl.
    zl. pose proof (zlen_nonneg a). pose proof (zlen_nonneg m). pose proof (zlen_nonneg b).
    rewrite wrapu_small by (split; lia).
    destruct (IH m (delete (zloc z) h1) zsl1 (r + 1)) as (h2 & zsl2 & -> & Hs2); try (zl || lia || done).
    + apply struct_delete; [done|]. rewrite Eh. by apply (z_notin h zsl a (m ++ b) z Hs).
    + by rewrite Eh.
    + split.
      * intros m1 w m2 n' -> He' Hsc'. rewrite <- (Hd1 (z :: m1) w m2 n' eq_refl He' Hsc'). f_equal. zl.
      * intros w b' n' -> He' Hsc'. rewrite <- (Hd2 w b' n' eq_refl He' Hsc'). f_equal. zl.
    + by eexists _, _.
Qed.

Lemma delete_range_spec skip del h zsl a m b :
  zsl_struct h zsl (a ++ m ++ b) -> splits skip a (m ++ b) -> deletes del (zlen a + 1) m b ->
  zlen (a ++ m ++ b) + 1 < 2 ^ 64 ->
  exists h' zsl', delete_range skip del h zsl = Some (h', zsl', zele <$> m) /\ zsl_struct h' zsl' (a ++ b).
Proof.
  intros Hs Hsk Hdel Hlen. unfold delete_range.
  destruct (traverse_spec 64 _ h zsl a (m ++ b) Hs Hsk) as (upd & -> & Hul & Hup); [lia|]. cbn [mbind option_bind].
  pose proof (s_level _ _ _ Hs) as Hl.
  destruct (lookup_lt_is_Some_2 upd 0) as [[u0 r0] Hu0]; [lia|]. rewrite Hu0. cbn [mbind option_bind].
  destruct (pred_at_0 _ _ _ _ _ _ Hs (Hup _ _ _ Hu0)) as (-> & -> & _). cbn [mbind option_bind].
  zl. pose proof (zlen_nonneg a). pose proof (zlen_nonneg m). pose proof (zlen_nonneg b).
  rewrite wrapu_small by (split; lia).
  apply (delete_loop_spec del a b upd); try (zl || lia || done).
  rewrite (s_length _ _ _ Hs). zl. unfold zlen in *. lia.
Qed.

(** The range "(maxstring" to "+" is reported empty on every skip list, although
    elements such as "z" are inside its bounds: the early test compares the bytes
    of the bounds, and those of [shared.maxstring] are "maxstring". *)
Theorem zslFirstInLexRange_maxstring h zsl :
  exists range, zslParseLexRange false false (40 :: lex_bytes maxstring) [43] = Some range /\
    zslFirstInLexRange h zsl range = Some None /\
    zslLexValueGteMin [122] range = true /\ zslLexValueLteMax [122] range = true.
Proof. eexists. split; [reflexivity|]. split_and!; reflexivity. Qed.
End ranges.
