(* ===== verification/SkiplistSpec.v ===== *)
(** * Skip lists as sorted sequences (the contract of the zsl functions of t_zset.c)

    The comparisons of scores are those of a total preorder on the doubles that
    are not NaN. A skip list represents a strictly increasing sequence of pairs
    of a score and an element; the theorems state every operation on it. *)

From S2P Require Import Prelude Sds Skiplist.

(** The order of the doubles: a score has a rank, and the comparisons of two
    scores that are not NaN are those of their ranks (0 and -0 have the same). *)
Class ScoreLaws (S : Type) `{Score S} := {
  srank : S -> Z;
  sltb_rank a b : isnan a = false -> isnan b = false -> sltb a b = (srank a <? srank b);
  seqb_rank a b : isnan a = false -> isnan b = false -> seqb a b = (srank a =? srank b);
}.

Section order.
Context {score : Type} `{ScoreLaws score}.
Abbreviation heap := (gmap loc (zskiplistNode score)).
Abbreviation znode := (znode (score:=score)).
Implicit Types (h : heap) (zsl : zskiplist) (a b ns : list znode) (z : znode) (sc : score) (e : sds).

(** The order of the pairs. *)
Definition klt sc1 e1 sc2 e2 : bool :=
  (srank sc1 <? srank sc2) || ((srank sc1 =? srank sc2) && (sdscmp e1 e2 <? 0)).
Definition node_lt z1 z2 : Prop := klt (zscore z1) (zele z1) (zscore z2) (zele z2) = true.

Record zsl_rep h zsl ns : Prop := ZslRep {
  r_struct : zsl_struct h zsl ns;
  r_sorted : StronglySorted node_lt ns;
  r_nonan : Forall (fun z => isnan (zscore z) = false) ns;
}.

(** What the skip list contains. *)
Definition pairs ns : list (score * sds) := (fun z => (zscore z, zele z)) <$> ns.

Lemma klt_true sc1 e1 sc2 e2 :
  klt sc1 e1 sc2 e2 = true <-> srank sc1 < srank sc2 \/ srank sc1 = srank sc2 /\ sdscmp e1 e2 < 0.
Proof. unfold klt. rewrite orb_true_iff, andb_true_iff, !Z.ltb_lt, Z.eqb_eq. done. Qed.

Lemma klt_trans sc1 e1 sc2 e2 sc3 e3 :
  klt sc1 e1 sc2 e2 = true -> klt sc2 e2 sc3 e3 = true -> klt sc1 e1 sc3 e3 = true.
Proof.
  rewrite !klt_true. intros [?|[? E1]] [?|[? E2]]; [lia|lia|lia|]. right. split; [lia|].
  by eapply sdscmp_trans.
Qed.

Lemma klt_irrefl sc e : klt sc e sc e = false.
Proof. apply not_true_iff_false. rewrite klt_true, sdscmp_refl. lia. Qed.

Lemma klt_total sc1 e1 sc2 e2 :
  klt sc1 e1 sc2 e2 = false -> klt sc2 e2 sc1 e1 = true \/ (srank sc1 = srank sc2 /\ e1 = e2).
Proof.
  intros Hn%not_true_iff_false. rewrite klt_true in Hn |- *.
  destruct (Z.lt_trichotomy (srank sc1) (srank sc2)) as [?|[?|?]]; [lia| |lia].
  destruct (Z.lt_trichotomy (sdscmp e1 e2) 0) as [?|[E|?]]; [lia| |].
  - right. by apply sdscmp_eq in E.
  - left. right. split; [lia|]. by apply sdscmp_antisym.
Qed.

(** The loop conditions on the nodes of a skip list. *)
Lemma before_klt z n sc e :
  isnan (zscore z) = false -> isnan sc = false -> ele n = Some (zele z) -> nscore n = zscore z ->
  before sc e n = Some (klt (zscore z) (zele z) sc e).
Proof.
  intros H1 H2 He Hs. unfold before, klt. rewrite He, Hs, sltb_rank, seqb_rank by done.
  destruct (srank (zscore z) <? srank sc); [done|]. simpl. by destruct (srank (zscore z) =? srank sc).
Qed.

Lemma before_eq_klt z n sc e :
  isnan (zscore z) = false -> isnan sc = false -> ele n = Some (zele z) -> nscore n = zscore z ->
  before_eq sc e n = Some (negb (klt sc e (zscore z) (zele z))).
Proof.
  intros H1 H2 He Hs. unfold before_eq, klt. rewrite He, Hs, sltb_rank, seqb_rank by done.
  rewrite (Z.eqb_sym (srank sc)).
  destruct (Z.ltb_spec (srank (zscore z)) (srank sc)), (Z.ltb_spec (srank sc) (srank (zscore z))); try lia; simpl.
  - by rewrite (proj2 (Z.eqb_neq _ _)) by lia.
  - by rewrite (proj2 (Z.eqb_neq _ _)) by lia.
  - rewrite (proj2 (Z.eqb_eq _ _)) by lia. simpl. f_equal. pose proof (sdscmp_antisym e (zele z)).
    destruct (Z.leb_spec (sdscmp (zele z) e) 0), (Z.ltb_spec (sdscmp e (zele z)) 0); simpl; try done; lia.
Qed.

(** A sorted list splits at a test that is monotone. *)
Lemma cut (P : znode -> bool) ns :
  StronglySorted node_lt ns -> (forall z1 z2, z1 ∈ ns -> z2 ∈ ns -> node_lt z1 z2 -> P z2 = true -> P z1 = true) ->
  exists a b, ns = a ++ b /\ Forall (fun z => P z = true) a /\ Forall (fun z => P z = false) b.
Proof.
  induction 1 as [|z ns Hs IH Hz]; intros HP; [by exists [], []|].
  destruct (P z) eqn:Ez.
  - destruct IH as (a & b & -> & Ha & Hb).
    { intros z1 z2 H1 H2. apply HP; by right. }
    exists (z :: a), b. split_and!; [done|by constructor|done].
  - exists [], (z :: ns). split_and!; [done|constructor|]. constructor; [done|].
    rewrite Forall_forall in Hz |- *. intros w Hw. destruct (P w) eqn:Ew; [|done].
    rewrite (HP z w) in Ez; [done|by left|by right|by apply Hz|done].
Qed.

Lemma sorted_app a b :
  StronglySorted node_lt (a ++ b) <->
  StronglySorted node_lt a /\ StronglySorted node_lt b /\ (forall z1 z2, z1 ∈ a -> z2 ∈ b -> node_lt z1 z2).
Proof. rewrite StronglySorted_app. naive_solver. Qed.

(** The cut of a skip list before a pair. *)
Lemma cut_before h zsl ns sc e :
  zsl_rep h zsl ns -> isnan sc = false ->
  exists a b, ns = a ++ b /\ splits (fun _ => before sc e) a b /\
    Forall (fun z => klt (zscore z) (zele z) sc e = true) a /\
    Forall (fun z => klt (zscore z) (zele z) sc e = false) b.
Proof.
  intros [Hs Hso Hna] Hnan.
  destruct (cut (fun z => klt (zscore z) (zele z) sc e) ns Hso) as (a & b & -> & Ha & Hb).
  { intros z1 z2 _ _ Hlt. by apply klt_trans. }
  exists a, b. split_and!; [done| |done|done]. apply Forall_app in Hna as [Hna Hnb].
  split; intros c1 z c2 n -> He Hsc; [rename Ha into Hc; rename Hna into Hn|rename Hb into Hc; rename Hnb into Hn];
    apply Forall_app in Hc as [_ [Hc _]%Forall_cons]; apply Forall_app in Hn as [_ [Hn _]%Forall_cons];
    by rewrite (before_klt z n), Hc.
Qed.
End order.

(** ** Insertion and deletion *)

Section updates.
Context {score : Type} `{ScoreLaws score} `{!ZslMalloc score}.
Abbreviation heap := (gmap loc (zskiplistNode score)).
Abbreviation znode := (znode (score:=score)).
Implicit Types (h : heap) (zsl : zskiplist) (a b ns : list znode) (z : znode) (sc : score) (e : sds).

(** A pair fits between the nodes before it and those after it. *)
Lemma sorted_insert a b z :
  StronglySorted node_lt (a ++ b) ->
  Forall (fun w => klt (zscore w) (zele w) (zscore z) (zele z) = true) a ->
  Forall (fun w => klt (zscore z) (zele z) (zscore w) (zele w) = true) b ->
  StronglySorted node_lt (a ++ z :: b).
Proof.
  intros (Ha & Hb & Hab)%sorted_app Hza Hzb. rewrite Forall_forall in Hza. apply sorted_app. split_and!; [done| |].
  - constructor; [done|]. done.
  - intros z1 z2 H1 [->|H2]%elem_of_cons; [by apply Hza|by apply Hab].
Qed.

Lemma sorted_remove a z b : StronglySorted node_lt (a ++ z :: b) -> StronglySorted node_lt (a ++ b).
Proof.
  rewrite !sorted_app, StronglySorted_cons. intros (Ha & [_ Hb] & Hab). split_and!; [done|done|].
  intros z1 z2 H1 H2. apply Hab; [done|]. by right.
Qed.

Lemma zslInsert_rep rs h zsl ns sc e level :
  zsl_rep h zsl ns -> isnan sc = false -> (forall z, z ∈ ns -> srank (zscore z) = srank sc -> zele z <> e) ->
  zslRandomLevel rs = Some level -> zlen ns + 1 < 2 ^ 32 ->
  exists h' zsl' x a b, zslInsert rs h zsl sc e = Some (h', zsl', x) /\ ns = a ++ b /\ h !! x = None /\
    header zsl' = header zsl /\ zsl_rep h' zsl' (a ++ Znode x level sc e :: b).
Proof.
  intros Hr Hnan Hnew Hlev Hlen. destruct (cut_before h zsl ns sc e Hr Hnan) as (a & b & -> & Hsp & Ha & Hb).
  destruct Hr as [Hs Hso Hna].
  destruct (zslInsert_struct rs h zsl a b sc e level Hs Hsp Hnan Hlev Hlen) as (h' & zsl' & x & E & Hx & Eh & Hs').
  exists h', zsl', x, a, b. split_and!; [done|done|done|done|]. split; [done| |].
  - apply sorted_insert; [done|done|]. rewrite Forall_forall in Hb |- *. intros z Hz.
    destruct (klt_total _ _ _ _ (Hb z Hz)) as [?|[Esc Ee]]; [done|]. exfalso. apply (Hnew z); [set_solver|done|done].
  - apply Forall_app in Hna as [? ?]. apply Forall_app. split; [done|]. by constructor.
Qed.

(** The search that [zslDelete] and [zslUpdateScore] start with. *)
Lemma search_pair h zsl ns sc e :
  zsl_rep h zsl ns -> isnan sc = false -> zlen ns < 2 ^ 64 ->
  exists a b upd u0 r0 sp, ns = a ++ b /\ traverse 64 (fun _ => before sc e) h zsl = Some upd /\
    upd !! O = Some (u0, r0) /\ get_level h u0 0 = Some (zloc <$> head b, sp) /\
    length upd = level_ zsl /\ (forall j u ru, upd !! j = Some (u, ru) -> pred_at (header zsl) a j u ru) /\
    Forall (fun z => klt (zscore z) (zele z) sc e = true) a /\
    Forall (fun z => klt (zscore z) (zele z) sc e = false) b.
Proof.
  intros Hr Hnan Hlen. destruct (cut_before h zsl ns sc e Hr Hnan) as (a & b & -> & Hsp & Ha & Hb).
  destruct Hr as [Hs _ _].
  destruct (traverse_spec 64 _ h zsl a b Hs Hsp) as (upd & E & Hul & Hup); [lia|].
  pose proof (s_level _ _ _ Hs). destruct (lookup_lt_is_Some_2 upd 0) as [[u0 r0] Hu0]; [lia|].
  destruct (pred_at_0 _ _ _ _ _ _ Hs (Hup _ _ _ Hu0)) as (_ & Hg & _).
  by eexists a, b, upd, u0, r0, _.
Qed.

(** Whether a node holds the given pair. *)
Definition is_pair sc e z : bool := (srank (zscore z) =? srank sc) && bool_decide (zele z = e).

(** In a sorted list the pair can only be right after the cut. *)
Lemma pair_at_cut a b sc e z :
  StronglySorted node_lt (a ++ b) ->
  Forall (fun z => klt (zscore z) (zele z) sc e = true) a ->
  Forall (fun z => klt (zscore z) (zele z) sc e = false) b ->
  z ∈ a ++ b -> is_pair sc e z = true -> exists b', b = z :: b'.
Proof.
  intros (_ & Hb & _)%sorted_app Ha Hbb Hz Hp. unfold is_pair in Hp.
  apply andb_true_iff in Hp as [Hr He]. zbool. apply bool_decide_eq_true in He.
  assert (klt (zscore z) (zele z) sc e = false) as Hzf.
  { apply not_true_iff_false. rewrite klt_true, He, sdscmp_refl. lia. }
  apply elem_of_app in Hz as [Hz|Hz].
  { rewrite Forall_forall in Ha. rewrite (Ha z Hz) in Hzf. done. }
  destruct b as [|w b]; [by apply elem_of_nil in Hz|]. apply elem_of_cons in Hz as [->|Hz]; [by exists b|].
  apply StronglySorted_cons in Hb as [Hw _]. rewrite Forall_forall in Hw. specialize (Hw z Hz).
  apply Forall_cons in Hbb as [Hwf _]. exfalso. apply not_true_iff_false in Hwf. apply Hwf.
  rewrite klt_true. unfold node_lt in Hw. rewrite klt_true, He in Hw. lia.
Qed.

(** The test on the node after the cut. *)
Lemma pair_test z n sc e :
  isnan (zscore z) = false -> isnan sc = false -> nscore n = zscore z ->
  seqb sc (nscore n) && (sdscmp (zele z) e =? 0) = is_pair sc e z.
Proof.
  intros H1 H2 Hn. rewrite Hn, seqb_rank, Z.eqb_sym by done. unfold is_pair. f_equal.
  destruct (Z.eqb_spec (sdscmp (zele z) e) 0) as [E|E].
  - rewrite bool_decide_eq_true_2; [done|]. by apply sdscmp_eq.
  - rewrite bool_decide_eq_false_2; [done|]. intros <-. by rewrite sdscmp_refl in E.
Qed.

Lemma zslDelete_rep h zsl ns sc e keep :
  zsl_rep h zsl ns -> isnan sc = false -> zlen ns < 2 ^ 64 ->
  exists h' zsl' r, zslDelete h zsl sc e keep = Some (h', zsl', r) /\
    match r with
    | Some x => exists a z b, ns = a ++ z :: b /\ zloc z = x /\ is_pair sc e z = true /\ zsl_rep h' zsl' (a ++ b) /\
        (if keep then is_Some (h' !! x) else h' !! x = None)
    | None => h' = h /\ zsl' = zsl /\ forall z, z ∈ ns -> is_pair sc e z = false
    end.
Proof.
  intros Hr Hnan Hlen.
  destruct (search_pair h zsl ns sc e Hr Hnan Hlen) as (a & b & upd & u0 & r0 & sp & -> & Et & Hu0 & Hg & Hul & Hup & Ha & Hb).
  destruct Hr as [Hs Hso Hna]. unfold zslDelete. rewrite Et. simpl. rewrite Hu0. simpl. rewrite Hg. simpl.
  assert (forall z, z ∈ a ++ b -> is_pair sc e z = true -> head b = Some z) as Hcut.
  { intros z Hz Hp. by destruct (pair_at_cut a b sc e z Hso Ha Hb Hz Hp) as [b' ->]. }
  destruct b as [|z b]; simpl in *.
  { eexists _, _, None. split; [done|]. split_and!; [done|done|]. intros z Hz.
    destruct (is_pair sc e z) eqn:Ep; [|done]. by specialize (Hcut z Hz Ep). }
  destruct (node_data _ _ _ _ _ Hs) as (n & Hn & He & Hsc & _). rewrite Hn. simpl. rewrite He. simpl.
  apply Forall_app in Hna as [Hna Hnb]. apply Forall_cons in Hnb as [Hnz Hnb].
  rewrite (pair_test z n sc e Hnz Hnan Hsc). destruct (is_pair sc e z) eqn:Ep.
  - destruct (zslDeleteNode_struct h zsl a b z upd Hs ltac:(lia) Hup Hlen) as (h1 & zsl1 & -> & Eh & _ & Hs1 & Hi & _).
    simpl. rewrite (s_info _ _ _ Hs a z b) in Hi by done. apply info_Some in Hi as (n1 & Hn1 & _).
    assert (exists h2, (if keep then Some h1 else fst <$> zslFreeNode h1 (zloc z)) = Some h2 /\
      zsl_struct h2 zsl1 (a ++ b) /\ (if keep then is_Some (h2 !! zloc z) else h2 !! zloc z = None)) as (h2 & E2 & Hs2 & Hx).
    { destruct keep; [by exists h1|]. unfold zslFreeNode. rewrite Hn1. simpl. eexists. split; [done|].
      split; [|apply lookup_delete_eq]. apply struct_delete; [done|]. rewrite Eh. by apply (z_notin h zsl a b z). }
    rewrite E2. simpl. eexists _, _, (Some (zloc z)). split; [done|]. exists a, z, b.
    split_and!; [done|done|done| |done]. split; [done|by eapply sorted_remove|by apply Forall_app].
  - eexists _, _, None. split; [done|]. split_and!; [done|done|]. intros w Hw.
    destruct (is_pair sc e w) eqn:Ew; [|done]. specialize (Hcut w Hw Ew). simplify_eq. congruence.
Qed.
End updates.

(** ** Updates of a score *)

Section update_score.
Context {score : Type} `{ScoreLaws score} `{!ZslMalloc score}.
Abbreviation heap := (gmap loc (zskiplistNode score)).
Abbreviation znode := (znode (score:=score)).
Implicit Types (h : heap) (zsl : zskiplist) (a b ns s t : list znode) (z w : znode) (sc : score) (e : sds).

(** No operation below frees a node. *)
Lemma set_level_dom h x i c h' : set_level h x i c = Some h' -> dom h ⊆ dom h'.
Proof. unfold set_level. intros. inv_opt. rewrite dom_insert. set_solver. Qed.

Lemma set_backward_dom h x bk h' : set_backward h x bk = Some h' -> dom h ⊆ dom h'.
Proof. unfold set_backward. intros. inv_opt. rewrite dom_insert. set_solver. Qed.

Lemma each_level_dom body upd : forall i h h',
  (forall i p g g', body i p g = Some g' -> dom g ⊆ dom g') -> each_level body upd i h = Some h' -> dom h ⊆ dom h'.
Proof.
  induction upd as [|p upd IH]; intros i h h' Hb E; simpl in E; inv_opt; [done|].
  etrans; [by eapply Hb|by eapply IH].
Qed.

Lemma link_level_dom x r i p h h' : link_level x r i p h = Some h' -> dom h ⊆ dom h'.
Proof.
  unfold link_level. destruct p as [u ru]. intros. destruct (get_level h u i) as [[f sp]|]; [|done]. simpl in *.
  inv_opt. etrans; by eapply set_level_dom.
Qed.

Lemma bump_level_dom i p h h' : bump_level i p h = Some h' -> dom h ⊆ dom h'.
Proof.
  unfold bump_level. intros. destruct (get_level h p.1 i) as [[f sp]|]; [|done]. by eapply set_level_dom.
Qed.

Lemma raise_levels_dom n : forall zsl h i h' upd, raise_levels n h zsl i = Some (h', upd) -> dom h ⊆ dom h'.
Proof.
  induction n as [|n IH]; intros zsl h i h' upd E; simpl in E; [by simplify_eq|].
  destruct (get_level h _ i) as [[f sp]|]; [|done]. simpl in E. inv_opt.
  destruct (raise_levels n _ _ _) as [[h2 upd2]|] eqn:E2; [|done]. simplify_eq/=.
  etrans; [by eapply set_level_dom|by eapply IH].
Qed.

Lemma zslInsert_dom rs h zsl sc e h' zsl' x : zslInsert rs h zsl sc e = Some (h', zsl', x) -> dom h ⊆ dom h'.
Proof.
  unfold zslInsert, zslCreateNode. destruct (isnan sc); [done|]. intros E.
  destruct (traverse _ _ _ _) as [upd|]; [|done]. cbn [mbind option_bind] in E.
  destruct (zslRandomLevel rs) as [level|]; [|done]. cbn [mbind option_bind] in E.
  destruct (raise_levels _ _ _ _) as [[h1 new]|] eqn:E1; [|done]. cbn [mbind option_bind] in E.
  apply raise_levels_dom in E1. destruct ((upd ++ new) !! 0%nat) as [[u0 r0]|]; [|done]. cbn [mbind option_bind] in E.
  destruct (each_level (link_level _ _) _ _ _) as [h2|] eqn:E2; [|done]. cbn [mbind option_bind] in E.
  apply each_level_dom in E2; [|by intros; eapply link_level_dom]. rewrite dom_insert in E2.
  destruct (each_level bump_level _ _ _) as [h3|] eqn:E3; [|done]. cbn [mbind option_bind] in E.
  apply each_level_dom in E3; [|by intros; eapply bump_level_dom].
  destruct (set_backward _ _ _) as [h4|] eqn:E4; [|done]. cbn [mbind option_bind] in E. apply set_backward_dom in E4.
  destruct (get_level h4 _ 0) as [[[y|] sp]|]; [|by simplify_eq; set_solver|done]. cbn [mbind option_bind] in E.
  destruct (set_backward h4 _ _) as [h5|] eqn:E5; [|done]. apply set_backward_dom in E5. simplify_eq/=. set_solver.
Qed.

(** Links do not depend on the scores. *)
Definition rescore z sc : znode := Znode (zloc z) (zheight z) sc (zele z).

Lemma link_rescore j s z sc t : link j (s ++ rescore z sc :: t) = link j (s ++ z :: t).
Proof. induction s as [|w s IH]; [done|]. simpl. by rewrite IH. Qed.

Lemma set_score_struct h zsl a z b sc :
  zsl_struct h zsl (a ++ z :: b) ->
  exists h', set_score h (zloc z) sc = Some h' /\ zsl_struct h' zsl (a ++ rescore z sc :: b).
Proof.
  intros Hs. destruct (node_data _ _ _ _ _ Hs) as (n & Hn & He & Hsc & Hbk & _).
  unfold set_score. rewrite Hn. simpl. eexists. split; [done|]. set (h' := <[_ := _]> h).
  pose proof (s_nodup _ _ _ Hs) as Hnd.
  assert (forall y j, get_level h' y j = get_level h y j) as Hl.
  { intros y j. unfold h'. rewrite get_level_new. case_decide; [|done]. subst y. unfold get_level. by rewrite Hn. }
  assert (forall y, y <> zloc z -> info h' y = info h y) as Hi by (intros; unfold h'; by rewrite info_new, decide_False).
  assert (zloc <$> a ++ rescore z sc :: b = zloc <$> a ++ z :: b) as El by (by rewrite !fmap_app).
  assert (length (levels n) = zheight z) as Hle.
  { pose proof (s_info _ _ _ Hs a z b eq_refl) as Hiz. unfold info in Hiz. rewrite Hn in Hiz. by injection Hiz. }
  rewrite fmap_app, fmap_cons, app_comm_cons in Hnd. rewrite <- Permutation_middle in Hnd.
  apply NoDup_cons in Hnd as [Hnz _].
  split; rewrite ?El; try apply Hs.
  - destruct (s_header _ _ _ Hs) as [sc0 E0]. exists sc0. rewrite Hi; [done|]. intros E. apply Hnz. rewrite <- E. set_solver.
  - intros c w s E. assert (zloc z ∉ (zloc <$> a) ++ (zloc <$> b)) as Hnz' by set_solver.
    apply app_eq_inv in E as [(l & -> & E)|(l & -> & E)]; destruct l as [|v l]; simplify_eq/=.
    + rewrite app_nil_r in *. unfold h'. rewrite info_new, decide_True by done. simpl.
      by rewrite He, Hbk, Hle.
    + rewrite Hi; [apply (s_info _ _ _ Hs c v (l ++ z :: b)); by rewrite <- app_assoc|].
      intros E. apply Hnz'. rewrite <- E, fmap_app. set_solver.
    + rewrite app_nil_r in *. unfold h'. rewrite info_new, decide_True by done. simpl.
      by rewrite He, Hbk, Hle.
    + rewrite Hi; [|intros E; apply Hnz'; rewrite <- E, fmap_app; set_solver].
      rewrite (s_info _ _ _ Hs (a ++ z :: l) w s) by (by rewrite <- app_assoc). do 3 f_equal.
      rewrite !last_app. by destruct l.
  - intros y r k s j Hp Hj Hjl. rewrite Hl.
    apply at_pos_app_inv in Hp as [(s' & Hp & ->)|[(-> & -> & -> & ->)|(b1 & w & -> & -> & ->)]].
    + rewrite link_rescore. apply (s_cell _ _ _ Hs y r k); [by apply at_pos_app|done|done].
    + apply (s_cell _ _ _ Hs (zloc z) (zlen a + 1) (zheight z)); [by apply at_node|done|done].
    + apply (s_cell _ _ _ Hs _ (zlen (a ++ z :: b1) + 1) (zheight w)); [|done|done].
      apply at_node. by rewrite <- app_assoc.
  - intros j Hj. rewrite Hl. by apply (s_free _ _ _ Hs).
  - rewrite (s_tail _ _ _ Hs), !last_app. by destruct b.
  - rewrite (s_length _ _ _ Hs). zl.
  - pose proof (s_heights _ _ _ Hs) as Hh. rewrite Forall_app, Forall_cons in *. done.
Qed.

(** The neighbours' scores decide whether the node can stay where it is. *)
Lemma stays_sorted a z b sc :
  StronglySorted node_lt (a ++ z :: b) ->
  (forall w, last a = Some w -> srank (zscore w) < srank sc) ->
  (forall w, head b = Some w -> srank sc < srank (zscore w)) ->
  StronglySorted node_lt (a ++ rescore z sc :: b).
Proof.
  intros Hso Hl Hh. apply sorted_insert; [by eapply sorted_remove|..]; apply Forall_forall; intros w Hw; apply klt_true; left; simpl.
  - destruct a as [|a' l _] using rev_ind; [by apply elem_of_nil in Hw|].
    rewrite last_snoc in Hl. specialize (Hl _ eq_refl). apply sorted_app in Hso as (Ha & _). apply sorted_app in Ha as (_ & _ & Ha).
    apply elem_of_app in Hw as [Hw| ->%list_elem_of_singleton]; [|done].
    specialize (Ha w a' Hw ltac:(by left)). unfold node_lt in Ha. rewrite klt_true in Ha. lia.
  - destruct b as [|b' b]; [by apply elem_of_nil in Hw|]. specialize (Hh b' eq_refl).
    apply sorted_app in Hso as (_ & Hb & _). apply StronglySorted_cons in Hb as [_ Hb].
    apply StronglySorted_cons in Hb as [Hb _]. rewrite Forall_forall in Hb.
    apply elem_of_cons in Hw as [->|Hw]; [done|]. specialize (Hb w Hw). unfold node_lt in Hb. rewrite klt_true in Hb. lia.
Qed.

Lemma stays_in_place_spec h zsl a z b sc :
  zsl_struct h zsl (a ++ z :: b) -> Forall (fun z => isnan (zscore z) = false) (a ++ z :: b) -> isnan sc = false ->
  exists ok, stays_in_place h (zloc z) sc = Some ok /\
    (ok = true -> (forall w, last a = Some w -> srank (zscore w) < srank sc) /\
      (forall w, head b = Some w -> srank sc < srank (zscore w))).
Proof.
  intros Hs Hna Hnan. destruct (node_data _ _ _ _ _ Hs) as (n & Hn & _ & _ & Hbk & sp & Hg).
  unfold stays_in_place. rewrite Hn. simpl. rewrite Hbk, Hg.
  apply Forall_app in Hna as [Hna Hnb]. apply Forall_cons in Hnb as [_ Hnb].
  assert (exists bok, match zloc <$> last a with
      | None => Some true
      | Some b => nb ← h !! b; Some (sltb (nscore nb) sc)
      end = Some bok /\ (bok = true -> forall w, last a = Some w -> srank (zscore w) < srank sc)) as (bok & -> & Hbok).
  { destruct a as [|w a _] using rev_ind; [by exists true|]. rewrite last_snoc. simpl.
    rewrite <- app_assoc in Hs. destruct (node_data _ _ _ _ _ Hs) as (nw & -> & _ & Hsw & _). simpl.
    apply Forall_app in Hna as [_ [Hw _]%Forall_cons]. eexists. split; [done|].
    rewrite Hsw, sltb_rank by done. intros Hlt w' [= <-]. by zbool. }
  simpl. destruct bok; [|by exists false]. destruct b as [|w b]; simpl.
  { exists true. split; [done|]. intros _. split; [by apply Hbok|done]. }
  assert (zsl_struct h zsl ((a ++ [z]) ++ w :: b)) as Hs' by (by rewrite <- app_assoc).
  destruct (node_data _ _ _ _ _ Hs') as (nw & -> & _ & Hsw & _). simpl. apply Forall_cons in Hnb as [Hw _].
  eexists. split; [done|]. rewrite Hsw, sltb_rank by done. intros Hlt. zbool. split; [by apply Hbok|]. by intros w' [= <-].
Qed.

(** Removing a node and inserting its element with another score. *)
Lemma reinsert rs h zsl a z b upd new level :
  zsl_rep h zsl (a ++ z :: b) -> length upd = level_ zsl ->
  (forall j u ru, upd !! j = Some (u, ru) -> pred_at (header zsl) a j u ru) -> isnan new = false ->
  (forall w, w ∈ a ++ b -> zele w <> zele z) -> zslRandomLevel rs = Some level -> zlen (a ++ z :: b) < 2 ^ 32 ->
  exists h1 zsl1 h2 zsl2 x h3 o c d, zslDeleteNode h zsl (zloc z) upd = Some (h1, zsl1) /\
    zslInsert rs h1 zsl1 new (zele z) = Some (h2, zsl2, x) /\ zslFreeNode h2 (zloc z) = Some (h3, o) /\
    a ++ b = c ++ d /\ zsl_rep h3 zsl2 (c ++ Znode x level new (zele z) :: d).
Proof.
  intros [Hs Hso Hna] Hul Hup Hnew Hne Hlev Hlen.
  destruct (zslDeleteNode_struct h zsl a b z upd Hs ltac:(lia) Hup ltac:(lia)) as (h1 & zsl1 & E1 & Eh & _ & Hs1 & Hi1 & _).
  rewrite (s_info _ _ _ Hs a z b) in Hi1 by done. apply info_Some in Hi1 as (n1 & Hn1 & _).
  apply Forall_app in Hna as [Hnaa Hnab]. apply Forall_cons in Hnab as [Hnz Hnab].
  destruct (zslInsert_rep rs h1 zsl1 (a ++ b) new (zele z) level) as (h2 & zsl2 & x & c & d & E2 & Ecd & Hx & Eh2 & Hr2).
  { split; [done|by eapply sorted_remove|by apply Forall_app]. }
  { done. }
  { intros w Hw _. by apply Hne. }
  { done. }
  { zl. }
  assert (is_Some (h2 !! zloc z)) as [n2 Hn2].
  { apply elem_of_dom. eapply zslInsert_dom; [done|]. apply elem_of_dom. eauto. }
  eexists h1, zsl1, h2, zsl2, x, _, _, c, d. split_and!; [done|done|unfold zslFreeNode; rewrite Hn2; done|done|].
  destruct Hr2 as [Hs2 Hso2 Hna2]. split; [|done|done]. apply struct_delete; [done|].
  pose proof (z_notin h zsl a b z Hs) as Hzn. rewrite Ecd in Hzn. rewrite Eh2, Eh.
  rewrite fmap_app, fmap_cons, app_comm_cons, <- Permutation_middle. intros [E|Hin]%elem_of_cons.
  - simpl in E. rewrite <- E in Hx. congruence.
  - by rewrite fmap_app, app_comm_cons in Hzn.
Qed.

Lemma zslUpdateScore_rep rs h zsl ns cur e new level z0 :
  zsl_rep h zsl ns -> isnan cur = false -> isnan new = false -> NoDup (zele <$> ns) ->
  z0 ∈ ns -> is_pair cur e z0 = true -> zslRandomLevel rs = Some level -> zlen ns < 2 ^ 32 ->
  exists h' zsl' x ns' a b, zslUpdateScore rs h zsl cur e new = Some (h', zsl', x) /\
    ns = a ++ z0 :: b /\ zsl_rep h' zsl' ns' /\ pairs ns' ≡ₚ (new, e) :: pairs (a ++ b) /\
    exists z, z ∈ ns' /\ zloc z = x /\ zscore z = new /\ zele z = e.
Proof.
  intros Hr Hcur Hnew Hnd Hz0 Hp Hlev Hlen.
  destruct (search_pair h zsl ns cur e Hr Hcur ltac:(lia)) as (a & b & upd & u0 & r0 & sp & -> & Et & Hu0 & Hg & Hul & Hup & Ha & Hb).
  pose proof Hr as [Hs Hso Hna]. destruct (pair_at_cut a b cur e z0 Hso Ha Hb Hz0 Hp) as [b' ->]. clear Hb.
  destruct (node_data _ _ _ _ _ Hs) as (n & Hn & He & Hsc & _).
  pose proof Hna as Hna'. apply Forall_app in Hna' as [Hnaa Hnab]. apply Forall_cons in Hnab as [Hnz Hnab].
  pose proof (pair_test z0 n cur e Hnz Hcur Hsc) as Htest. rewrite Hp in Htest.
  assert (zele z0 = e) as Ee by (apply andb_true_iff in Hp as [_ Hp]; by apply bool_decide_eq_true in Hp).
  unfold zslUpdateScore. rewrite Et. simpl. rewrite Hu0. simpl. rewrite Hg. simpl. rewrite Hn. simpl. rewrite He. simpl.
  rewrite Htest. simpl. destruct (stays_in_place_spec h zsl a z0 b' new Hs Hna Hnew) as (ok & -> & Hok). simpl.
  destruct ok.
  - destruct (Hok eq_refl) as [Hl Hh]. destruct (set_score_struct h zsl a z0 b' new Hs) as (h' & -> & Hs'). simpl.
    eexists h', zsl, _, _, a, b'. split_and!; [done|done| | |].
    + split; [exact Hs'|by apply stays_sorted|]. apply Forall_app. split; [done|]. by constructor.
    + unfold pairs. rewrite fmap_app, fmap_cons, fmap_app, <- Permutation_middle. simpl. by rewrite Ee.
    + exists (rescore z0 new). split_and!; [set_solver|done|done|done].
  - destruct (reinsert rs h zsl a z0 b' upd new level Hr Hul Hup Hnew) as
      (h1 & zsl1 & h2 & zsl2 & x & h3 & o & c & d & -> & E2 & E3 & Ecd & Hr3); [|done|done|].
    + intros w Hw E. rewrite fmap_app, fmap_cons, <- Permutation_middle in Hnd. apply NoDup_cons in Hnd as [Hnd _].
      apply Hnd. rewrite <- E, <- fmap_app. by apply list_elem_of_fmap_2.
    + simpl. rewrite E2. simpl. rewrite E3. simpl. eexists h3, zsl2, x, _, a, b'. split_and!; [done|done|exact Hr3| |].
      * unfold pairs. rewrite Ecd, !fmap_app, fmap_cons, <- Permutation_middle. simpl. by rewrite Ee.
      * exists (Znode x level new (zele z0)). split_and!; [set_solver|done|done|done].
Qed.
End update_score.

(** ** Ranks *)

Section ranks.
Context {score : Type} `{ScoreLaws score}.
Abbreviation heap := (gmap loc (zskiplistNode score)).
Abbreviation znode := (znode (score:=score)).
Implicit Types (h : heap) (zsl : zskiplist) (a b ns s t : list znode) (z w : znode) (sc : score) (e : sds).

(** The node at a position, as the code reads it. *)
Lemma at_pos_node h zsl a b x r k s :
  zsl_struct h zsl (a ++ b) -> at_pos (header zsl) a x r k s ->
  exists n, h !! x = Some n /\
    ((x = header zsl /\ r = 0 /\ ele n = None) \/
     exists a1 z, a = a1 ++ z :: s /\ x = zloc z /\ r = zlen a1 + 1 /\ ele n = Some (zele z)).
Proof.
  intros Hs [|a1 z s' ->].
  - destruct (s_header _ _ _ Hs) as [sc Hi]. apply info_Some in Hi as (n & Hn & He & _). exists n. auto.
  - rewrite <- app_assoc in Hs. destruct (node_data _ _ _ _ _ Hs) as (n & Hn & He & _). exists n. split; [done|].
    right. by exists a1, z.
Qed.

Section loop.
Context h zsl a b (sc : score) (e : sds) (fuel : nat).
Context (Hs : zsl_struct h zsl (a ++ b)) (Hgo : splits (fun _ => before_eq sc e) a b).
Context (Hw : zlen (a ++ b) < 2 ^ 64) (Hf : (length a < fuel)%nat).

(** The position where the walk on level [i] stops, and the test after it. *)
Lemma getRank_test i x r k s :
  at_pos (header zsl) a x r k s -> (S i <= k)%nat -> (S i <= level_ zsl)%nat ->
  exists x' r' n, walk 64 (fun _ => before_eq sc e) fuel h i x r = Some (x', r') /\ h !! x' = Some n /\
    pred_at (header zsl) a i x' r' /\
    match ele n with
    | Some xe => exists a1 z a2, a = a1 ++ z :: a2 /\ r' = zlen a1 + 1 /\ xe = zele z
    | None => r' = 0
    end.
Proof.
  intros Hp Hk Hl. pose proof (at_pos_rank _ _ _ _ _ _ Hp) as [Hr0 Hr].
  destruct (walk_spec 64 _ h zsl a b Hs Hgo Hw i fuel x r k s) as (x' & r' & E & Hpr); [done|lia|lia|unfold zlen in *; lia|].
  pose proof Hpr as (k' & s' & Hp' & Hk' & _).
  destruct (at_pos_node h zsl a b x' r' k' s' Hs Hp') as (n & Hn & Hcase).
  exists x', r', n. split_and!; [done|done|done|].
  destruct Hcase as [(_ & -> & ->)|(a1 & z & E1 & _ & -> & ->)]; [done|]. by exists a1, z, s'.
Qed.

Lemma getRank_loop_found a0 z :
  a = a0 ++ [z] -> zele z = e -> (forall w, w ∈ a0 -> zele w <> e) -> forall i x r k s,
  at_pos (header zsl) a x r k s -> (S i <= k)%nat -> (S i <= level_ zsl)%nat ->
  getRank_loop fuel h sc e (S i) x r = Some (zlen a).
Proof.
  intros Ea Ez Hu. induction i as [|i IH]; intros x r k s Hp Hk Hl;
    destruct (getRank_test _ x r k s Hp Hk Hl) as (x' & r' & n & E & Hn & Hpr & Hele).
  - cbn [getRank_loop]. rewrite E. simpl. rewrite Hn. simpl.
    destruct (pred_at_0 _ _ _ _ _ _ Hs Hpr) as (-> & _ & Hpos). destruct (ele n) as [xe|].
    + destruct Hele as (a1 & w & a2 & E1 & Hr & ->).
      assert (a2 = []) as -> by (apply zlen_0_inv; rewrite E1 in Hr; zl).
      rewrite Ea in E1. apply app_inj_tail in E1 as [_ <-]. by rewrite Ez, sdscmp_refl.
    + rewrite Ea in Hele. zl. pose proof (zlen_nonneg a0). lia.
  - remember (S i) as j eqn:Ej. cbn [getRank_loop]. rewrite E. simpl. rewrite Hn. simpl.
    destruct (match ele n with Some xe => sdscmp xe e =? 0 | None => false end) eqn:Et.
    + destruct (ele n) as [xe|]; [|done]. zbool. apply sdscmp_eq in Et as ->.
      destruct Hele as (a1 & w & a2 & E1 & -> & Ew). f_equal. rewrite Ea in E1 |- *.
      destruct a2 as [|v a2 _] using rev_ind.
      * apply app_inj_tail in E1 as [<- _]. zl.
      * exfalso. rewrite app_comm_cons, app_assoc in E1. apply app_inj_tail in E1 as [E1 _].
        apply (Hu w); [rewrite E1; set_solver|done].
    + subst j. destruct Hpr as (k' & s' & Hp' & Hk' & _). eapply IH; [done|lia|lia].
Qed.

Lemma getRank_loop_absent :
  (forall w, w ∈ a -> zele w <> e) -> forall i x r k s,
  at_pos (header zsl) a x r k s -> (i <= k)%nat -> (i <= level_ zsl)%nat ->
  getRank_loop fuel h sc e i x r = Some 0.
Proof.
  intros Hu. induction i as [|i IH]; intros x r k s Hp Hk Hl; [done|].
  destruct (getRank_test _ x r k s Hp Hk Hl) as (x' & r' & n & E & Hn & Hpr & Hele).
  cbn [getRank_loop]. rewrite E. simpl. rewrite Hn. simpl.
  destruct Hpr as (k' & s' & Hp' & Hk' & _). destruct (ele n) as [xe|]; [|by eapply IH; [done|lia|lia]].
  destruct Hele as (a1 & w & a2 & E1 & _ & ->).
  destruct (Z.eqb_spec (sdscmp (zele w) e) 0) as [Ez|_]; [|by eapply IH; [done|lia|lia]].
  apply sdscmp_eq in Ez. exfalso. apply (Hu w); [rewrite E1; set_solver|done].
Qed.
End loop.

(** The cut of a skip list after a pair. *)
Lemma cut_before_eq h zsl ns sc e :
  zsl_rep h zsl ns -> isnan sc = false ->
  exists a b, ns = a ++ b /\ splits (fun _ => before_eq sc e) a b /\
    Forall (fun z => klt sc e (zscore z) (zele z) = false) a /\
    Forall (fun z => klt sc e (zscore z) (zele z) = true) b.
Proof.
  intros [Hs Hso Hna] Hnan.
  destruct (cut (fun z => negb (klt sc e (zscore z) (zele z))) ns Hso) as (a & b & -> & Ha & Hb).
  { intros z1 z2 _ _ Hlt. rewrite !negb_true_iff. intros H2. destruct (klt sc e (zscore z1) (zele z1)) eqn:H1; [|done].
    rewrite (klt_trans _ _ _ _ _ _ H1 Hlt) in H2. done. }
  exists a, b. split_and!; [done| |eapply Forall_impl; [exact Ha|]; intros z Hz; by apply negb_true_iff|
    eapply Forall_impl; [exact Hb|]; intros z Hz; by apply negb_false_iff].
  apply Forall_app in Hna as [Hna Hnb].
  split; intros c1 z c2 n -> He Hsc; [rename Ha into Hc; rename Hna into Hn|rename Hb into Hc; rename Hnb into Hn];
    apply Forall_app in Hc as [_ [Hc _]%Forall_cons]; apply Forall_app in Hn as [_ [Hn _]%Forall_cons];
    by rewrite (before_eq_klt z n), Hc.
Qed.

Lemma zslGetRank_rep h zsl ns sc e :
  zsl_rep h zsl ns -> isnan sc = false -> NoDup (zele <$> ns) -> zlen ns < 2 ^ 64 ->
  (forall a z b, ns = a ++ z :: b -> is_pair sc e z = true -> zslGetRank h zsl sc e = Some (zlen a + 1)) /\
  (e ∉ zele <$> ns -> zslGetRank h zsl sc e = Some 0).
Proof.
  intros Hr Hnan Hnd Hlen. destruct (cut_before_eq h zsl ns sc e Hr Hnan) as (c & d & -> & Hsp & Hc & Hd).
  pose proof Hr as [Hs Hso _]. pose proof (s_level _ _ _ Hs) as Hl. unfold zslGetRank.
  assert (length c < S (Z.to_nat (length_ zsl)))%nat as Hf.
  { rewrite (s_length _ _ _ Hs). unfold zlen. rewrite length_app. lia. }
  split.
  - intros a z b E Hp. unfold is_pair in Hp. apply andb_true_iff in Hp as [Hr1 He%bool_decide_eq_true]. zbool.
    assert (klt sc e (zscore z) (zele z) = false) as Hz.
    { apply not_true_iff_false. rewrite klt_true, He, sdscmp_refl. lia. }
    assert (c = a ++ [z]) as Ec.
    { rewrite E in Hso. apply app_eq_inv in E as [(l & -> & E)|(l & -> & E)]; destruct l as [|v l]; simplify_eq/=.
      - apply Forall_cons in Hd as [Hd _]. congruence.
      - f_equal. f_equal. destruct l as [|w l]; [done|]. exfalso.
        apply sorted_app in Hso as (_ & Hso & _). apply StronglySorted_cons in Hso as [Hw _].
        apply Forall_cons in Hw as [Hw _]. apply Forall_app in Hc as [_ Hc]. rewrite !Forall_cons in Hc.
        destruct Hc as (_ & Hc & _). apply not_true_iff_false in Hc. apply Hc. unfold node_lt in Hw.
        rewrite klt_true in Hw |- *. lia.
      - apply Forall_cons in Hd as [Hd _]. congruence.
      - rewrite app_comm_cons in Hd. apply Forall_app in Hd as [_ Hd]. apply Forall_cons in Hd as [Hd _]. congruence. }
    replace (zlen a + 1) with (zlen c) by (rewrite Ec; zl). destruct (level_ zsl) as [|l] eqn:El; [lia|].
    apply (getRank_loop_found h zsl c d sc e _ Hs Hsp Hlen Hf a z Ec He) with (k := ZSKIPLIST_MAXLEVEL) (s := c).
    + intros w Hw E2. rewrite fmap_app in Hnd. apply NoDup_app in Hnd as (Hnd & _). rewrite Ec, fmap_app in Hnd.
      apply NoDup_app in Hnd as (_ & Hnd & _). apply (Hnd (zele w)); [by apply list_elem_of_fmap_2|]. rewrite E2, <- He. set_solver.
    + apply at_header.
    + lia.
    + lia.
  - intros Hn. eapply (getRank_loop_absent h zsl c d); [done|done|done|done| |apply at_header|lia|lia].
    intros w Hw E. apply Hn. rewrite <- E, fmap_app. apply elem_of_app. left. by apply list_elem_of_fmap_2.
Qed.
End ranks.

(** ** Elements by rank *)

Section elements.
Context {score : Type} `{ScoreLaws score}.
Abbreviation heap := (gmap loc (zskiplistNode score)).
Abbreviation znode := (znode (score:=score)).
Implicit Types (h : heap) (zsl : zskiplist) (a b ns s t : list znode) (z w : znode).

(** Traversals that count nodes split the list after a number of them. *)
Lemma rank_splits (rank : Z) a b : zlen a <= rank -> (b = [] \/ zlen a = rank) ->
  splits (fun (t : Z) (_ : zskiplistNode score) => Some (t <=? rank)) a b.
Proof.
  intros Ha Hb. split; intros c1 z c2 n -> _ _; f_equal; zl; pose proof (zlen_nonneg c1); pose proof (zlen_nonneg c2).
  - by apply Z.leb_le; lia.
  - destruct Hb as [Hb|Hb]; [by destruct c1|]. apply Z.leb_gt. lia.
Qed.

Lemma getElement_loop_spec h zsl a b rank fuel :
  zsl_struct h zsl (a ++ b) -> zlen a <= rank -> (b = [] \/ zlen a = rank) -> 1 <= rank ->
  zlen (a ++ b) < 2 ^ 64 -> (length a < fuel)%nat -> forall i x r k s,
  at_pos (header zsl) a x r k s -> (i <= k)%nat -> (i <= level_ zsl)%nat ->
  (zlen a = rank -> i <> O) ->
  getElement_loop fuel h rank i x r = Some (if zlen a =? rank then zloc <$> last a else None).
Proof.
  intros Hs Ha Hb Hrk Hlen Hf. induction i as [|i IH]; intros x r k s Hp Hk Hl Hi; cbn [getElement_loop].
  { destruct (Z.eqb_spec (zlen a) rank) as [E|]; [by destruct (Hi E)|done]. }
  pose proof (at_pos_rank _ _ _ _ _ _ Hp) as [Hr0 Hr].
  destruct (walk_spec 64 _ h zsl a b Hs (rank_splits rank a b Ha Hb) Hlen i fuel x r k s)
    as (x' & r' & -> & Hpr); [done|lia|lia|unfold zlen in *; lia|]. simpl.
  pose proof Hpr as (k' & s' & Hp' & Hk' & Hlow). pose proof (at_pos_rank _ _ _ _ _ _ Hp') as [Hr0' Hr'].
  pose proof (zlen_nonneg s').
  destruct (Z.eqb_spec r' rank) as [->|Hne].
  - assert (zlen a = rank) as E by lia. rewrite E, Z.eqb_refl. do 2 f_equal.
    assert (s' = []) as -> by (apply zlen_0_inv; lia).
    remember [] as l eqn:El in Hp'. destruct Hp' as [|a1 z s1 Ea]; [lia|]. subst. by rewrite last_snoc.
  - eapply IH; [done|lia|lia|]. intros E ->.
    destruct (pred_at_0 _ _ _ _ _ _ Hs Hpr) as (-> & _). lia.
Qed.

Lemma zslGetElementByRank_rep h zsl ns rank :
  zsl_struct h zsl ns -> 1 <= rank -> zlen ns < 2 ^ 64 ->
  zslGetElementByRank h zsl rank = Some (zloc <$> zidx ns (rank - 1)).
Proof.
  intros Hs Hrk Hlen. unfold zslGetElementByRank. pose proof (s_level _ _ _ Hs) as Hl.
  assert (forall a b, ns = a ++ b -> zlen a <= rank -> (b = [] \/ zlen a = rank) ->
    getElement_loop (S (Z.to_nat (length_ zsl))) h rank (level_ zsl) (header zsl) 0 =
    Some (if zlen a =? rank then zloc <$> last a else None)) as G.
  { intros a b -> Ha Hb. eapply getElement_loop_spec; [done|done|done|done|done| |apply at_header|lia|lia|lia].
    rewrite (s_length _ _ _ Hs). unfold zlen. rewrite length_app. lia. }
  destruct (Z.lt_ge_cases (zlen ns) rank) as [Hlt|Hge].
  - rewrite (G ns []); [|by rewrite app_nil_r|lia|by left].
    rewrite (proj2 (Z.eqb_neq _ _)) by lia. unfold zidx, zlen in *. rewrite (proj2 (Z.leb_le _ _)) by lia.
    by rewrite lookup_ge_None_2 by lia.
  - destruct (split_at ns rank) as (a & b & -> & Ha); [lia|].
    rewrite (G a b); [|done|lia|by right]. rewrite Ha, Z.eqb_refl. f_equal. f_equal.
    destruct a as [|z a _] using rev_ind; [rewrite (@zlen_nil znode) in Ha; lia|].
    rewrite last_snoc. symmetry. rewrite <- app_assoc. apply zidx_app. zl.
Qed.

(** The rank 0 is the one of the header. *)
Lemma zslGetElementByRank_header h zsl ns :
  zsl_struct h zsl ns -> zlen ns < 2 ^ 64 -> zslGetElementByRank h zsl 0 = Some (Some (header zsl)).
Proof.
  intros Hs Hlen. unfold zslGetElementByRank. pose proof (s_level _ _ _ Hs) as Hl. destruct (level_ zsl) as [|i] eqn:El; [lia|]. cbn [getElement_loop].
  destruct (walk_spec 64 _ h zsl [] ns Hs (rank_splits 0 [] ns (Z.le_refl 0) (or_intror eq_refl)) Hlen i (S (Z.to_nat (length_ zsl))) (header zsl) 0
    ZSKIPLIST_MAXLEVEL []) as (x' & r' & -> & Hpr); [apply at_header|lia|lia|cbn; lia|].
  destruct Hpr as (k' & s' & Hp & _). pose proof (at_pos_rank _ _ _ _ _ _ Hp) as [Hr0 Hr]. rewrite (@zlen_nil znode) in Hr. pose proof (zlen_nonneg s').
  cbn [mbind option_bind]. rewrite (proj2 (Z.eqb_eq r' 0)) by lia. inversion Hp as [|a1 z s1 Ea]; [done|]. by destruct a1.
Qed.
End elements.

(** ** Ranges *)

Section ranges.
Context {score : Type} `{ScoreLaws score}.
Abbreviation heap := (gmap loc (zskiplistNode score)).
Abbreviation znode := (znode (score:=score)).
Implicit Types (h : heap) (zsl : zskiplist) (a b ns s t : list znode) (z w : znode).

(** A range of a sorted list is given by a test [g] that holds from some node on
    and a test [l] that holds up to some node; the code evaluates them as
    [gte] and [lte] on the nodes. *)
Record range_ok ns (g l : znode -> bool) (gte lte : zskiplistNode score -> option bool) : Prop := {
  ro_g z1 z2 : z1 ∈ ns -> z2 ∈ ns -> node_lt z1 z2 -> g z1 = true -> g z2 = true;
  ro_l z1 z2 : z1 ∈ ns -> z2 ∈ ns -> node_lt z1 z2 -> l z2 = true -> l z1 = true;
  ro_gte z n : z ∈ ns -> ele n = Some (zele z) -> nscore n = zscore z -> gte n = Some (g z);
  ro_lte z n : z ∈ ns -> ele n = Some (zele z) -> nscore n = zscore z -> lte n = Some (l z);
}.

Abbreviation in_range g l ns := (List.filter (fun z => g z && l z) ns).

Lemma filter_none (P : znode -> bool) ns : Forall (fun z => P z = false) ns -> List.filter P ns = [].
Proof. induction 1 as [|z ns Hz _ IH]; [done|]. simpl. by rewrite Hz. Qed.

Lemma filter_all (P : znode -> bool) ns : Forall (fun z => P z = true) ns -> List.filter P ns = ns.
Proof. induction 1 as [|z ns Hz _ IH]; [done|]. simpl. by rewrite Hz, IH. Qed.

(** The three parts of the list: before, in and after the range. *)
Lemma range_parts ns g l gte lte :
  StronglySorted node_lt ns -> range_ok ns g l gte lte ->
  exists a m b, ns = a ++ m ++ b /\ Forall (fun z => g z = false) a /\
    Forall (fun z => g z = true /\ l z = true) m /\ Forall (fun z => g z = true /\ l z = false) b.
Proof.
  intros Hso Hro. destruct (cut (fun z => negb (g z)) ns Hso) as (a & c & -> & Ha & Hc).
  { intros z1 z2 H1 H2 Hlt. rewrite !negb_true_iff. intros Hg. destruct (g z1) eqn:E1; [|done].
    by rewrite (ro_g _ _ _ _ _ Hro z1 z2 H1 H2 Hlt E1) in Hg. }
  apply sorted_app in Hso as (_ & Hso & _).
  destruct (cut l c Hso) as (m & b & -> & Hm & Hb).
  { intros z1 z2 H1 H2. apply (ro_l _ _ _ _ _ Hro); set_solver. }
  exists a, m, b. apply Forall_app in Hc as [Hcm Hcb]. split_and!; [done|..]; rewrite !Forall_forall in *; intros z Hz.
  - by apply negb_true_iff, Ha.
  - split; [by apply negb_false_iff, Hcm|by apply Hm].
  - split; [by apply negb_false_iff, Hcb|by apply Hb].
Qed.

Lemma in_range_parts a m b g l :
  Forall (fun z => g z = false) a -> Forall (fun z => g z = true /\ l z = true) m ->
  Forall (fun z => g z = true /\ l z = false) b ->
  in_range g l (a ++ m ++ b) = m /\ List.filter (fun z => negb (g z && l z)) (a ++ m ++ b) = a ++ b.
Proof.
  intros Ha Hm Hb. rewrite !List.filter_app. rewrite Forall_forall in Ha, Hm, Hb. split.
  - rewrite filter_none, filter_all, filter_none; [by rewrite app_nil_r|..]; apply Forall_forall; intros z Hz.
    + destruct (Hb z Hz) as [-> ->]. done.
    + destruct (Hm z Hz) as [-> ->]. done.
    + by rewrite (Ha z Hz).
  - rewrite filter_all, filter_none, filter_all; [done|..]; apply Forall_forall; intros z Hz.
    + destruct (Hb z Hz) as [-> ->]. done.
    + destruct (Hm z Hz) as [-> ->]. done.
    + by rewrite (Ha z Hz).
Qed.

(** The early test: the list has nothing in the range unless its last node
    satisfies [g] and its first one [l]. *)
Lemma ends_in_range_spec h zsl ns g l gte lte :
  zsl_struct h zsl ns -> range_ok ns g l gte lte ->
  ends_in_range h zsl gte lte =
    Some (match last ns, head ns with Some z1, Some z0 => g z1 && l z0 | _, _ => false end).
Proof.
  intros Hs Hro. unfold ends_in_range. rewrite (s_tail _ _ _ Hs).
  destruct ns as [|z1 ns _] using rev_ind; [done|]. rewrite last_snoc. simpl.
  destruct (node_data _ _ _ _ _ Hs) as (n & -> & He & Hsc & _). simpl.
  rewrite (ro_gte _ _ _ _ _ Hro z1 n) by (done || set_solver). simpl.
  assert (exists z0 t, ns ++ [z1] = z0 :: t) as (z0 & t & E) by (destruct ns; simpl; eauto).
  rewrite E in *. destruct (g z1); simpl; [|done].
  pose proof (s_heights _ _ _ Hs) as Hh. apply Forall_cons in Hh as [Hz0 _]. pose proof (s_level _ _ _ Hs).
  rewrite (s_cell _ _ _ Hs (header zsl) 0 ZSKIPLIST_MAXLEVEL (z0 :: t)) by (apply at_header || lia). simpl.
  rewrite (proj2 (Nat.ltb_lt _ _)) by lia. simpl.
  destruct (node_data h zsl [] z0 t Hs) as (n0 & -> & He0 & Hsc0 & _). simpl.
  apply (ro_lte _ _ _ _ _ Hro); [set_solver|done|done].
Qed.

Lemma part_splits (P : Z -> zskiplistNode score -> option bool) (f : znode -> bool) a b :
  (forall (i : Z) z n, z ∈ a ++ b -> ele n = Some (zele z) -> nscore n = zscore z -> P i n = Some (f z)) ->
  Forall (fun z => f z = true) a -> Forall (fun z => f z = false) b -> splits P a b.
Proof.
  intros HP Ha Hb. rewrite Forall_forall in Ha, Hb. split; intros c1 z c2 n -> He Hsc.
  - rewrite (HP _ z) by (done || set_solver). f_equal. apply Ha. set_solver.
  - rewrite (HP _ z) by (done || set_solver). f_equal. apply Hb. set_solver.
Qed.

(** A search of the form shared by the range queries: the early test, then [f]. *)
Lemma guarded_search h zsl ns g l gte lte (f : option (option loc)) r :
  zsl_struct h zsl ns -> range_ok ns g l gte lte -> StronglySorted node_lt ns ->
  (in_range g l ns = [] -> r = None) ->
  (forall z0 z1, head ns = Some z0 -> last ns = Some z1 -> l z0 = true -> g z1 = true -> f = Some r) ->
  (b ← ends_in_range h zsl gte lte; if negb b then Some None else f) = Some r.
Proof.
  intros Hs Hro Hso Hnone Hf. rewrite (ends_in_range_spec h zsl ns g l gte lte Hs Hro). simpl.
  destruct ns as [|z1 ns _] using rev_ind; [by rewrite Hnone|]. rewrite last_snoc.
  assert (exists z0 t, ns ++ [z1] = z0 :: t) as (z0 & t & E) by (destruct ns; simpl; eauto).
  assert (head (ns ++ [z1]) = Some z0) as E0 by by rewrite E. rewrite E0.
  destruct (g z1) eqn:Eg, (l z0) eqn:El; simpl; [by eapply Hf; [done|apply last_snoc|..]|..];
    rewrite Hnone; try done; apply filter_none, Forall_forall; intros z Hz.
  - rewrite andb_false_iff. right. destruct (l z) eqn:Ez; [|done]. exfalso. rewrite E in *.
    apply elem_of_cons in Hz as [->|Hz]; [congruence|]. apply StronglySorted_cons in Hso as [Hso _].
    rewrite Forall_forall in Hso. rewrite (ro_l _ _ _ _ _ Hro z0 z) in El; [done|by left|by right|by apply Hso|done].
  - rewrite andb_false_iff. left. destruct (g z) eqn:Ez; [|done]. exfalso.
    apply elem_of_app in Hz as [Hz| ->%list_elem_of_singleton]; [|congruence].
    apply sorted_app in Hso as (_ & _ & Hso).
    rewrite (ro_g _ _ _ _ _ Hro z z1) in Eg; [done|set_solver|set_solver|apply Hso; set_solver|done].
  - rewrite andb_false_iff. left. destruct (g z) eqn:Ez; [|done]. exfalso.
    apply elem_of_app in Hz as [Hz| ->%list_elem_of_singleton]; [|congruence].
    apply sorted_app in Hso as (_ & _ & Hso).
    rewrite (ro_g _ _ _ _ _ Hro z z1) in Eg; [done|set_solver|set_solver|apply Hso; set_solver|done].
Qed.

(** The traversal that stops before the first node with [g]. *)
Lemma first_in_spec h zsl ns g l gte lte z1 :
  zsl_struct h zsl ns -> range_ok ns g l gte lte -> StronglySorted node_lt ns -> zlen ns < 2 ^ 64 ->
  last ns = Some z1 -> g z1 = true -> first_in h zsl gte lte = Some (zloc <$> head (in_range g l ns)).
Proof.
  intros Hs Hro Hso Hlen Hlast Hg. destruct (range_parts ns g l gte lte Hso Hro) as (a & m & b & -> & Ha & Hm & Hb).
  destruct (in_range_parts a m b g l Ha Hm Hb) as [-> _]. unfold first_in.
  destruct (traverse_spec 64 (fun _ n => negb <$> gte n) h zsl a (m ++ b) Hs) as (upd & -> & Hul & Hup); [|done|].
  { apply (part_splits _ (fun z => negb (g z))).
    - intros _ z n Hz He Hsc. by rewrite (ro_gte _ _ _ _ _ Hro z n).
    - eapply Forall_impl; [exact Ha|]. by intros z ->.
    - apply Forall_app. split; [eapply Forall_impl; [exact Hm|]|eapply Forall_impl; [exact Hb|]]; by intros z [-> _]. }
  simpl. pose proof (s_level _ _ _ Hs). destruct (lookup_lt_is_Some_2 upd 0) as [[u0 r0] Hu0]; [lia|]. rewrite Hu0. simpl.
  destruct (pred_at_0 _ _ _ _ _ _ Hs (Hup _ _ _ Hu0)) as (_ & -> & _). simpl.
  destruct (m ++ b) as [|z t] eqn:E.
  { rewrite app_nil_r in Hlast. apply last_Some_elem_of in Hlast. rewrite Forall_forall in Ha. rewrite Ha in Hg; done. }
  simpl. destruct (node_data _ _ _ _ _ Hs) as (n & -> & He & Hsc & _). simpl.
  rewrite (ro_lte _ _ _ _ _ Hro z n) by (done || set_solver). simpl. f_equal.
  destruct m as [|w m]; simplify_eq/=.
  - apply Forall_cons in Hb as [[_ ->] _]. done.
  - apply Forall_cons in Hm as [[_ ->] _]. done.
Qed.

(** The traversal that stops at the last node with [l]. *)
Lemma last_in_spec h zsl ns g l gte lte z0 :
  zsl_struct h zsl ns -> range_ok ns g l gte lte -> StronglySorted node_lt ns -> zlen ns < 2 ^ 64 ->
  head ns = Some z0 -> l z0 = true -> last_in h zsl gte lte = Some (zloc <$> last (in_range g l ns)).
Proof.
  intros Hs Hro Hso Hlen Hhead Hl0.
  destruct (cut l ns Hso) as (c & d & -> & Hc & Hd).
  { intros w1 w2 H1 H2. apply (ro_l _ _ _ _ _ Hro); done. }
  assert (in_range g l (c ++ d) = List.filter g c) as ->.
  { rewrite List.filter_app, (filter_none _ d), app_nil_r.
    - apply List.filter_ext_in. intros z Hz. rewrite Forall_forall in Hc. rewrite Hc by (by apply list_elem_of_In).
      apply andb_true_r.
    - eapply Forall_impl; [exact Hd|]. intros z ->. apply andb_false_r. }
  unfold last_in.
  destruct (traverse_spec 64 (fun _ n => lte n) h zsl c d Hs) as (upd & -> & Hul & Hup); [|done|].
  { apply (part_splits _ l); [|done|done]. intros _ z n Hz He Hsc. by apply (ro_lte _ _ _ _ _ Hro z n). }
  simpl. pose proof (s_level _ _ _ Hs). destruct (lookup_lt_is_Some_2 upd 0) as [[u0 r0] Hu0]; [lia|]. rewrite Hu0. simpl.
  destruct (pred_at_0 _ _ _ _ _ _ Hs (Hup _ _ _ Hu0)) as (_ & _ & [[_ ->]|(c' & z & -> & ->)]).
  { simpl in Hhead. rewrite Forall_forall in Hd. rewrite Hd in Hl0; [done|]. destruct d; simplify_eq/=. set_solver. }
  rewrite <- app_assoc in Hs. destruct (node_data _ _ _ _ _ Hs) as (n & -> & He & Hsc & _). simpl.
  rewrite (ro_gte _ _ _ _ _ Hro z n) by (done || set_solver). simpl. f_equal. rewrite List.filter_app. simpl.
  destruct (g z) eqn:Eg; [by rewrite last_snoc|]. rewrite app_nil_r, (filter_none g c'); [done|].
  apply Forall_forall. intros w Hw. destruct (g w) eqn:Ew; [|done].
  apply sorted_app in Hso as (Hso & _). apply sorted_app in Hso as (_ & _ & Hso).
  rewrite (ro_g _ _ _ _ _ Hro w z) in Eg; [done|set_solver|set_solver|apply Hso; set_solver|done].
Qed.

Lemma delete_range_rep h zsl ns g l gte lte skip del :
  zsl_rep h zsl ns -> range_ok ns g l gte lte -> zlen ns + 1 < 2 ^ 64 ->
  (forall (i : Z) z n, z ∈ ns -> ele n = Some (zele z) -> nscore n = zscore z -> skip i n = Some (negb (g z))) ->
  (forall (i : Z) z n, z ∈ ns -> ele n = Some (zele z) -> nscore n = zscore z -> del i n = Some (l z)) ->
  exists h' zsl', delete_range skip del h zsl = Some (h', zsl', zele <$> in_range g l ns) /\
    zsl_rep h' zsl' (List.filter (fun z => negb (g z && l z)) ns).
Proof.
  intros [Hs Hso Hna] Hro Hlen Hskip Hdel.
  destruct (range_parts ns g l gte lte Hso Hro) as (a & m & b & -> & Ha & Hm & Hb).
  destruct (in_range_parts a m b g l Ha Hm Hb) as [-> ->].
  destruct (delete_range_spec skip del h zsl a m b Hs) as (h' & zsl' & E & Hs').
  - apply (part_splits _ (fun z => negb (g z))); [done|..].
    + eapply Forall_impl; [exact Ha|]. by intros z ->.
    + apply Forall_app. split; [eapply Forall_impl; [exact Hm|]|eapply Forall_impl; [exact Hb|]]; by intros z [-> _].
  - rewrite Forall_forall in Hm, Hb. split.
    + intros m1 z m2 n -> He Hsc. rewrite (Hdel _ z) by (done || set_solver). f_equal. apply Hm. set_solver.
    + intros z b' n -> He Hsc. rewrite (Hdel _ z) by (done || set_solver). f_equal. apply Hb. set_solver.
  - done.
  - exists h', zsl'. split; [done|]. split; [done| |].
    + rewrite !sorted_app in *. set_solver.
    + rewrite !Forall_app in *. tauto.
Qed.
End ranges.

(** ** Creation and release *)

Section create.
Context {score : Type} `{ScoreLaws score} `{!ZslMalloc score}.
Abbreviation heap := (gmap loc (zskiplistNode score)).
Abbreviation znode := (znode (score:=score)).
Implicit Types (h : heap) (zsl : zskiplist) (ns : list znode).

Lemma init_levels_spec x n : forall h e sc bk k,
  info h x = Some (e, sc, bk, k) -> (n <= k)%nat ->
  exists h', init_levels n h x = Some h' /\ same_info h h' /\
    forall j, get_level h' x j = if decide (j < n)%nat then Some (None, 0) else get_level h x j.
Proof.
  induction n as [|n IH]; intros h e sc bk k Hi Hn; cbn [init_levels]; [by exists h|].
  destruct (info_get_level h x e sc bk k n Hi ltac:(lia)) as [c Hc].
  destruct (set_level_spec h x n c (None, 0) Hc) as (h1 & -> & Hi1 & Hc1). simpl.
  destruct (IH h1 e sc bk k) as (h2 & -> & Hi2 & Hc2); [by rewrite Hi1|lia|].
  exists h2. split_and!; [done|by intros y; rewrite Hi2|]. intros j. rewrite Hc2, Hc1.
  repeat case_decide; try done; exfalso; naive_solver lia.
Qed.

Lemma zslCreate_rep h : exists h' zsl, zslCreate h = Some (h', zsl) /\ zsl_rep h' zsl [].
Proof.
  unfold zslCreate, zslCreateNode. set (x := zmalloc h). set (n := ZskiplistNode _ _ _ _).
  assert (info (<[x := n]> h) x = Some (None, szero, junk_backward, ZSKIPLIST_MAXLEVEL)) as Hi.
  { rewrite info_new, decide_True by done. unfold n. cbn [ele nscore backward levels]. by rewrite length_replicate. }
  destruct (init_levels_spec x ZSKIPLIST_MAXLEVEL _ _ _ _ _ Hi) as (h1 & E1 & Hi1 & Hc1); [done|].
  cbv zeta. rewrite E1. cbn [mbind option_bind].
  destruct (set_backward_spec h1 x None szero junk_backward ZSKIPLIST_MAXLEVEL None) as (h2 & -> & Hl2 & Hi2);
    [by rewrite Hi1|]. cbn [mbind option_bind]. eexists _, _. split; [done|].
  assert (forall j, (j < ZSKIPLIST_MAXLEVEL)%nat -> get_level h2 x j = Some (None, 0)) as Hc.
  { intros j Hj. by rewrite Hl2, Hc1, decide_True. }
  split; [|constructor|constructor]. split; cbn [header tail length_ level_]; try done.
  - exists szero. by rewrite Hi2, decide_True.
  - by intros [].
  - intros y r k s j Hp Hj _. inversion Hp as [|a z s' E]; subst; [by apply Hc|by destruct a].
  - intros j Hj. exists 0. apply Hc. lia.
  - apply NoDup_singleton.
  - unfold ZSKIPLIST_MAXLEVEL. lia.
Qed.

Lemma zslFree_loop_spec fuel : forall h ns,
  (forall a z b, ns = a ++ z :: b ->
    exists n sp, h !! zloc z = Some n /\ ele n = Some (zele z) /\ get_level h (zloc z) 0 = Some (zloc <$> head b, sp)) ->
  NoDup (zloc <$> ns) -> (length ns < fuel)%nat ->
  exists h', zslFree_loop fuel h (zloc <$> head ns) = Some (h', (fun z => Some (zele z)) <$> ns) /\
    dom h' = dom h ∖ list_to_set (zloc <$> ns).
Proof.
  induction fuel as [|fuel IH]; intros h ns Hn Hnd Hf; [lia|]. destruct ns as [|z ns]; simpl in *.
  { exists h. split; [done|]. set_solver. }
  destruct (Hn [] z ns eq_refl) as (n & sp & Hz & He & Hg). rewrite Hg. simpl. unfold zslFreeNode. rewrite Hz. simpl.
  apply NoDup_cons in Hnd as [Hzn Hnd]. destruct (IH (delete (zloc z) h) ns) as (h' & -> & Hdom); [|done|lia|].
  - intros a w b E. destruct (Hn (z :: a) w b) as (n' & sp' & Hw & He' & Hg'); [by rewrite E|].
    assert (zloc w <> zloc z) as Hne by (intros Ew; apply Hzn; rewrite <- Ew, E, fmap_app; set_solver).
    exists n', sp'. rewrite lookup_delete_ne, get_level_delete by done. done.
  - simpl. exists h'. rewrite He. split; [done|]. rewrite Hdom, dom_delete_L. set_solver.
Qed.
End create.

(** ** The contract *)

Section contract.
Context {score : Type} `{ScoreLaws score} `{!ZslMalloc score}.
Abbreviation heap := (gmap loc (zskiplistNode score)).
Abbreviation znode := (znode (score:=score)).
Implicit Types (h : heap) (zsl : zskiplist) (a b ns : list znode) (z : znode) (sc : score) (e : sds).

Lemma score_range_ok ns (range : zrangespec score) :
  Forall (fun z => isnan (zscore z) = false) ns -> isnan (min range) = false -> isnan (max range) = false ->
  range_ok ns (fun z => zslValueGteMin (zscore z) range) (fun z => zslValueLteMax (zscore z) range)
    (score_gte range) (score_lte range).
Proof.
  intros Hna Hmin Hmax. rewrite Forall_forall in Hna.
  assert (forall z, z ∈ ns -> zslValueGteMin (zscore z) range =
    if minex range then srank (min range) <? srank (zscore z) else srank (min range) <=? srank (zscore z)) as Hg.
  { intros z Hz. unfold zslValueGteMin, sleb. rewrite sltb_rank, seqb_rank by (done || by apply Hna).
    destruct (minex range); [done|]. zcmp; try done; lia. }
  assert (forall z, z ∈ ns -> zslValueLteMax (zscore z) range =
    if maxex range then srank (zscore z) <? srank (max range) else srank (zscore z) <=? srank (max range)) as Hl.
  { intros z Hz. unfold zslValueLteMax, sleb. rewrite sltb_rank, seqb_rank by (done || by apply Hna).
    destruct (maxex range); [done|]. zcmp; try done; lia. }
  split.
  - intros z1 z2 H1 H2 Hlt. unfold node_lt in Hlt. rewrite klt_true in Hlt. rewrite !Hg by done.
    destruct (minex range); intros ?; zbool; [apply Z.ltb_lt|apply Z.leb_le]; lia.
  - intros z1 z2 H1 H2 Hlt. unfold node_lt in Hlt. rewrite klt_true in Hlt. rewrite !Hl by done.
    destruct (maxex range); intros ?; zbool; [apply Z.ltb_lt|apply Z.leb_le]; lia.
  - intros z n Hz He Hsc. unfold score_gte. by rewrite Hsc.
  - intros z n Hz He Hsc. unfold score_lte. by rewrite Hsc.
Qed.

(** The elements of a lexicographic range when all the scores are equal, as the
    documentation of the commands requires. *)
Lemma lex_range_ok ns (range : zlexrangespec) :
  (forall z1 z2, z1 ∈ ns -> z2 ∈ ns -> srank (zscore z1) = srank (zscore z2)) ->
  range_ok ns (fun z => zslLexValueGteMin (zele z) range) (fun z => zslLexValueLteMax (zele z) range)
    (lex_gte range) (lex_lte range).
Proof.
  intros Heq.
  assert (forall z1 z2, z1 ∈ ns -> z2 ∈ ns -> node_lt z1 z2 -> sdscmp (zele z1) (zele z2) < 0) as Hlt.
  { intros z1 z2 H1 H2 Hlt. unfold node_lt in Hlt. rewrite klt_true in Hlt. specialize (Heq z1 z2 H1 H2). lia. }
  assert (forall x y (z : sds), sdscmp x y < 0 -> sdscmp x z >= 0 -> sdscmp y z > 0) as T1.
  { intros x y z Hxy Hxz. destruct (Z.le_gt_cases (sdscmp y z) 0) as [Hyz|]; [|lia].
    destruct (Z.eq_dec (sdscmp y z) 0) as [E%sdscmp_eq|]; [subst; lia|].
    pose proof (sdscmp_trans x y z Hxy ltac:(lia)). lia. }
  assert (forall x y (z : sds), sdscmp x y < 0 -> sdscmp y z <= 0 -> sdscmp x z < 0) as T2.
  { intros x y z Hxy Hyz. destruct (Z.eq_dec (sdscmp y z) 0) as [E%sdscmp_eq|]; [by subst|].
    apply (sdscmp_trans x y z Hxy). lia. }
  split.
  - intros z1 z2 H1 H2 Hn. specialize (Hlt z1 z2 H1 H2 Hn). unfold zslLexValueGteMin, sdscmplex.
    rewrite !Z.gtb_ltb, !Z.geb_leb. destruct (lmin range) as [| |m]; [done|done|].
    specialize (T1 _ _ m Hlt). destruct (lminex range); intros ?; zbool; [apply Z.ltb_lt|apply Z.leb_le]; lia.
  - intros z1 z2 H1 H2 Hn. specialize (Hlt z1 z2 H1 H2 Hn). unfold zslLexValueLteMax, sdscmplex.
    destruct (lmax range) as [| |m]; [done|done|].
    specialize (T2 _ _ m Hlt). destruct (lmaxex range); intros ?; zbool; [apply Z.ltb_lt|apply Z.leb_le]; lia.
  - intros z n Hz He Hsc. unfold lex_gte. by rewrite He.
  - intros z n Hz He Hsc. unfold lex_lte. by rewrite He.
Qed.

(** C3 [zslInsert] of an element that is not in the list adds exactly the pair,
    at its place in the order, whatever number of levels the new node gets; the
    links and spans of all levels are again right. The score is not a NaN, and the list has fewer than 2^32 - 1
    nodes, since the code keeps ranks in an unsigned int. *)
Theorem zslInsert_refines rs h zsl ns sc e level :
  zsl_rep h zsl ns -> isnan sc = false -> (forall z, z ∈ ns -> zele z <> e) ->
  zslRandomLevel rs = Some level -> zlen ns + 1 < 2 ^ 32 ->
  exists h' zsl' x ns', zslInsert rs h zsl sc e = Some (h', zsl', x) /\ zsl_rep h' zsl' ns' /\
    pairs ns' ≡ₚ (sc, e) :: pairs ns /\ h !! x = None /\ Znode x level sc e ∈ ns'.
Proof.
  intros Hr Hnan Hne Hlev Hlen.
  destruct (zslInsert_rep rs h zsl ns sc e level) as (h' & zsl' & x & a & b & E & -> & Hx & _ & Hr'); auto.
  eexists h', zsl', x, _. split_and!; [done|exact Hr'| |done|set_solver].
  unfold pairs. rewrite !fmap_app, fmap_cons, <- Permutation_middle. done.
Qed.

(** C26 [zslDelete] removes the node with the given score and element if there is
    one, frees it unless the caller asks for it, and otherwise changes nothing. *)
Theorem zslDelete_refines h zsl ns sc e keep :
  zsl_rep h zsl ns -> isnan sc = false -> zlen ns < 2 ^ 64 ->
  exists h' zsl' r ns', zslDelete h zsl sc e keep = Some (h', zsl', r) /\ zsl_rep h' zsl' ns' /\
    match r with
    | Some x => exists z, ns ≡ₚ z :: ns' /\ zloc z = x /\ is_pair sc e z = true /\
        (is_Some (h' !! x) <-> keep = true)
    | None => ns' = ns /\ h' = h /\ forall z, z ∈ ns -> is_pair sc e z = false
    end.
Proof.
  intros Hr Hnan Hlen. destruct (zslDelete_rep h zsl ns sc e keep Hr Hnan Hlen) as (h' & zsl' & r & E & Hres).
  destruct r as [x|].
  - destruct Hres as (a & z & b & -> & Hz & Hp & Hr' & Hx). exists h', zsl', (Some x), (a ++ b).
    split_and!; [done|done|]. exists z. split_and!; [by rewrite Permutation_middle|done|done|].
    destruct keep; [done|]. rewrite Hx. by split; [intros []|].
  - destruct Hres as (-> & -> & Hn). exists h, zsl, None, ns. by split_and!.
Qed.

(** [zslUpdateScore] never fails on an element of the list: it replaces its
    score and puts it at its new place, reusing the node when it may stay. *)
Theorem zslUpdateScore_refines rs h zsl ns cur e new level z0 :
  zsl_rep h zsl ns -> isnan cur = false -> isnan new = false -> NoDup (zele <$> ns) ->
  z0 ∈ ns -> is_pair cur e z0 = true -> zslRandomLevel rs = Some level -> zlen ns < 2 ^ 32 ->
  exists h' zsl' x ns' rest, zslUpdateScore rs h zsl cur e new = Some (h', zsl', x) /\ zsl_rep h' zsl' ns' /\
    pairs ns ≡ₚ (zscore z0, e) :: rest /\ pairs ns' ≡ₚ (new, e) :: rest /\
    exists z, z ∈ ns' /\ zloc z = x /\ zscore z = new /\ zele z = e.
Proof.
  intros Hr Hcur Hnew Hnd Hz0 Hp Hlev Hlen.
  destruct (zslUpdateScore_rep rs h zsl ns cur e new level z0) as (h' & zsl' & x & ns' & a & b & E & -> & Hr' & Hpp & Hz); auto.
  exists h', zsl', x, ns', (pairs (a ++ b)). split_and!; [done|done| |done|done].
  unfold pairs. rewrite !fmap_app, fmap_cons, <- Permutation_middle.
  apply andb_true_iff in Hp as [_ Hp]. apply bool_decide_eq_true in Hp. by rewrite Hp.
Qed.

(** C27 [zslGetRank] returns the 1-based position of an element, or 0 when no node has it, and [zslGetElementByRank]
    is its inverse: it returns the node at a rank, NULL for a rank beyond the length, and the header, which is not an element,
    for the rank 0. Elements are in the list once, and there are fewer than [2 ^ 64]. *)
Theorem zslGetRank_refines h zsl ns :
  zsl_rep h zsl ns -> NoDup (zele <$> ns) -> zlen ns < 2 ^ 64 ->
  (forall i z, zidx ns i = Some z ->
    zslGetRank h zsl (zscore z) (zele z) = Some (i + 1) /\ zslGetElementByRank h zsl (i + 1) = Some (Some (zloc z))) /\
  (forall sc e, isnan sc = false -> e ∉ (zele <$> ns) -> zslGetRank h zsl sc e = Some 0) /\
  (forall rank, zlen ns < rank -> zslGetElementByRank h zsl rank = Some None) /\
  zslGetElementByRank h zsl 0 = Some (Some (header zsl)).
Proof.
  intros Hr Hnd Hlen. pose proof Hr as [Hs _ Hna]. split_and!.
  - intros i z Hi. pose proof (zidx_range _ _ _ Hi) as Hir.
    destruct (zidx_Some_split _ _ _ Hi) as (a & b & E & Ha).
    assert (isnan (zscore z) = false) as Hz by (rewrite Forall_forall in Hna; apply Hna; rewrite E; set_solver).
    destruct (zslGetRank_rep h zsl ns (zscore z) (zele z) Hr Hz Hnd Hlen) as [Hrank _]. split.
    + rewrite (Hrank a z b E); [by rewrite Ha|]. unfold is_pair. by rewrite Z.eqb_refl, bool_decide_eq_true_2.
    + rewrite (zslGetElementByRank_rep h zsl ns) by (done || lia). replace (i + 1 - 1) with i by lia. by rewrite Hi.
  - intros sc e Hnan He. by apply (zslGetRank_rep h zsl ns sc e Hr Hnan Hnd Hlen).
  - intros rank Hrk. pose proof (zlen_nonneg ns). rewrite (zslGetElementByRank_rep h zsl ns) by (done || lia).
    destruct (zidx ns (rank - 1)) eqn:E; [|done]. apply zidx_range in E. lia.
  - by apply (zslGetElementByRank_header h zsl ns).
Qed.

(** [zslFirstInRange] and [zslLastInRange] return the first and the last node
    with a score in the range, for inclusive and exclusive bounds, and [NULL]
    exactly when no score is in the range. *)
Theorem zslInRange_refines h zsl ns (range : zrangespec score) :
  zsl_rep h zsl ns -> isnan (min range) = false -> isnan (max range) = false -> zlen ns < 2 ^ 64 ->
  let inside := List.filter (fun z => zslValueGteMin (zscore z) range && zslValueLteMax (zscore z) range) ns in
  zslFirstInRange h zsl range = Some (zloc <$> head inside) /\
  zslLastInRange h zsl range = Some (zloc <$> last inside).
Proof.
  intros [Hs Hso Hna] Hmin Hmax Hlen inside. pose proof (score_range_ok ns range Hna Hmin Hmax) as Hro.
  unfold zslFirstInRange, zslLastInRange, zslIsInRange. rewrite sltb_rank, seqb_rank by done.
  destruct (_ || _) eqn:Ht.
  - assert (inside = []) as ->; [|done]. apply filter_none, Forall_forall. intros z Hz.
    rewrite Forall_forall in Hna. specialize (Hna z Hz). unfold zslValueGteMin, zslValueLteMax, sleb.
    rewrite !sltb_rank, !seqb_rank by done. apply orb_true_iff in Ht as [Ht|Ht]; [zbool|apply andb_true_iff in Ht as [Ht Hx]; zbool];
      destruct (minex range), (maxex range); zcmp; try done; lia.
  - split; eapply guarded_search; try done.
    + intros E. unfold inside. by rewrite E.
    + intros z0 z1 _ H1 _ Hg. by eapply first_in_spec.
    + intros E. unfold inside. by rewrite E.
    + intros z0 z1 H0' _ Hl _. by eapply last_in_spec.
Qed.

(** [zslDeleteRangeByScore] removes exactly the nodes with a score in the range
    and hands their elements, in order, to the deletion from the dictionary. *)
Theorem zslDeleteRangeByScore_refines h zsl ns (range : zrangespec score) :
  zsl_rep h zsl ns -> isnan (min range) = false -> isnan (max range) = false -> zlen ns + 1 < 2 ^ 64 ->
  let inside z := zslValueGteMin (zscore z) range && zslValueLteMax (zscore z) range in
  exists h' zsl', zslDeleteRangeByScore h zsl range = Some (h', zsl', zele <$> List.filter inside ns) /\
    zsl_rep h' zsl' (List.filter (fun z => negb (inside z)) ns).
Proof.
  intros Hr Hmin Hmax Hlen inside. pose proof (r_nonan _ _ _ Hr) as Hna. rewrite Forall_forall in Hna.
  eapply delete_range_rep; [done|by apply score_range_ok; [apply Hr|..]|done|..].
  - intros i z n Hz He Hsc. rewrite Hsc. unfold zslValueGteMin, sleb. specialize (Hna z Hz).
    rewrite !sltb_rank, !seqb_rank by done. f_equal. destruct (minex range); zcmp; try done; lia.
  - intros i z n Hz He Hsc. by rewrite Hsc.
Qed.

(** [zslDeleteRangeByRank] removes exactly the nodes with the 1-based ranks from
    [start] to [end_], and the spans of the list stay right. *)
Theorem zslDeleteRangeByRank_refines h zsl ns start end_ :
  zsl_rep h zsl ns -> 1 <= start -> start - 1 <= end_ < 2 ^ 32 -> zlen ns + 1 < 2 ^ 64 ->
  exists h' zsl' a m b, zslDeleteRangeByRank h zsl start end_ = Some (h', zsl', zele <$> m) /\
    ns = a ++ m ++ b /\ zlen a = Z.min (zlen ns) (start - 1) /\ zlen (a ++ m) = Z.min (zlen ns) end_ /\
    zsl_rep h' zsl' (a ++ b).
Proof.
  intros [Hs Hso Hna] Hst Hend Hlen. pose proof (zlen_nonneg ns).
  destruct (split_at ns (Z.min (zlen ns) end_)) as (am & b & -> & Ham); [lia|].
  destruct (split_at am (Z.min (zlen (am ++ b)) (start - 1))) as (a & m & -> & Ha); [lia|].
  rewrite <- app_assoc in *. pose proof (zlen_nonneg b).
  destruct (delete_range_spec (fun t (_ : zskiplistNode score) => Some (t <? start))
    (fun t (_ : zskiplistNode score) => Some (t <=? end_)) h zsl a m b Hs) as (h' & zsl' & E & Hs').
  - split; intros c1 z c2 n E _ _; f_equal.
    + assert (zlen a = zlen c1 + (zlen c2 + 1)) as El by (rewrite E; zl). pose proof (zlen_nonneg c2).
      apply Z.ltb_lt. lia.
    + assert (zlen (m ++ b) = zlen c1 + (zlen c2 + 1)) as El by (rewrite E; zl).
      pose proof (zlen_nonneg c1). pose proof (zlen_nonneg c2). apply Z.ltb_ge. zl.
  - split.
    + intros m1 z m2 n -> _ _. f_equal. apply Z.leb_le. zl. pose proof (zlen_nonneg m2). lia.
    + intros z b' n -> _ _. f_equal. apply Z.leb_gt. zl. pose proof (zlen_nonneg b'). lia.
  - done.
  - exists h', zsl', a, m, b. split_and!; [done|done|done|done|]. split; [done| |].
    + rewrite !sorted_app in *. set_solver.
    + rewrite !Forall_app in *. tauto.
Qed.

(** [zslFree] frees the header and every node, and releases every element once. *)
Theorem zslFree_releases h zsl ns :
  zsl_rep h zsl ns ->
  exists h', zslFree h zsl = Some (h', (fun z => Some (zele z)) <$> ns) /\
    dom h' = dom h ∖ ({[header zsl]} ∪ list_to_set (zloc <$> ns)).
Proof.
  intros [Hs _ _]. unfold zslFree. pose proof (s_level _ _ _ Hs). pose proof (s_nodup _ _ _ Hs) as Hnd.
  apply NoDup_cons in Hnd as [Hh Hnd].
  assert (exists sp, get_level h (header zsl) 0 = Some (zloc <$> head ns, sp)) as [sp ->].
  { rewrite (s_cell _ _ _ Hs (header zsl) 0 ZSKIPLIST_MAXLEVEL ns) by (apply at_header || lia).
    destruct ns as [|z ns]; [by eexists|]. pose proof (s_heights _ _ _ Hs) as Hht. apply Forall_cons in Hht as [Hz _].
    simpl. rewrite (proj2 (Nat.ltb_lt _ _)) by lia. by eexists. }
  cbn [mbind option_bind].
  destruct (zslFree_loop_spec (S (Z.to_nat (length_ zsl))) (delete (header zsl) h) ns) as (h' & -> & Hdom); [|done| |].
  - intros a z b ->. destruct (node_data _ _ _ _ _ Hs) as (n & Hn & He & _ & _ & sp' & Hg).
    assert (zloc z <> header zsl) as Hne by (intros E; apply Hh; rewrite <- E, fmap_app; set_solver).
    exists n, sp'. rewrite lookup_delete_ne, get_level_delete by done. done.
  - rewrite (s_length _ _ _ Hs). unfold zlen. lia.
  - exists h'. split; [done|]. rewrite Hdom, dom_delete_L. set_solver.
Qed.

(** An element in a range orders its bounds. *)
Lemma lex_bounds e range :
  zslLexValueGteMin e range = true -> zslLexValueLteMax e range = true ->
  sdscmplex (lmin range) (lmax range) <= 0 /\
  (sdscmplex (lmin range) (lmax range) = 0 -> lminex range = false /\ lmaxex range = false).
Proof.
  unfold zslLexValueGteMin, zslLexValueLteMax. rewrite Z.gtb_ltb, Z.geb_leb.
  destruct range as [[| |m] [| |x] mex xex]; simpl; destruct mex, xex; intros Hg Hl; zbool; try lia.
  all: pose proof (sdscmp_antisym m e) as A; pose proof (sdscmp_antisym e m) as A'; pose proof (sdscmp_eq e m) as Q;
    pose proof (sdscmp_eq e x) as Q'; pose proof (sdscmp_trans m e x) as T; pose proof (sdscmp_refl e) as R;
    destruct (Z.eq_dec (sdscmp e m) 0) as [E1|E1]; [apply Q in E1; subst m|];
    (destruct (Z.eq_dec (sdscmp e x) 0) as [E2|E2]; [apply Q' in E2; subst x|]);
    split; try (intros E; split; [done|done]); try lia.
Qed.

(** [zslFirstInLexRange] and [zslLastInLexRange] return the first and the last
    element of the range when all scores are equal, provided the two bounds are
    not different bounds with the same bytes. *)
Theorem zslInLexRange_refines h zsl ns (range : zlexrangespec) :
  zsl_rep h zsl ns -> (forall z1 z2, z1 ∈ ns -> z2 ∈ ns -> srank (zscore z1) = srank (zscore z2)) ->
  (lex_bytes (lmin range) = lex_bytes (lmax range) -> sdscmplex (lmin range) (lmax range) = 0) ->
  zlen ns < 2 ^ 64 ->
  let inside := List.filter (fun z => zslLexValueGteMin (zele z) range && zslLexValueLteMax (zele z) range) ns in
  zslFirstInLexRange h zsl range = Some (zloc <$> head inside) /\
  zslLastInLexRange h zsl range = Some (zloc <$> last inside).
Proof.
  intros [Hs Hso Hna] Heq Hbytes Hlen inside. pose proof (lex_range_ok ns range Heq) as Hro.
  unfold zslFirstInLexRange, zslLastInLexRange, zslIsInLexRange. rewrite Z.gtb_ltb.
  destruct (_ || _) eqn:Ht.
  - assert (inside = []) as ->; [|done]. apply filter_none, Forall_forall. intros z Hz.
    destruct (zslLexValueGteMin (zele z) range) eqn:Eg, (zslLexValueLteMax (zele z) range) eqn:El; try done.
    exfalso. destruct (lex_bounds _ _ Eg El) as [Hle Hex].
    apply orb_true_iff in Ht as [Ht|[Hc Hx]%andb_true_iff]; zbool; [lia|].
    apply sdscmp_eq in Hc. destruct (Hex (Hbytes Hc)) as [E1 E2]. by rewrite E1, E2 in Hx.
  - split; eapply guarded_search; try done.
    + intros E. unfold inside. by rewrite E.
    + intros z0 z1 _ H1 _ Hg. by eapply first_in_spec.
    + intros E. unfold inside. by rewrite E.
    + intros z0 z1 H0' _ Hl _. by eapply last_in_spec.
Qed.
End contract.

(** ** A skip list *)

Module Sample.
(** Integers as scores. *)
#[export] Instance zscores : Score Z := {| isnan _ := false; sltb := Z.ltb; seqb := Z.eqb; szero := 0 |}.
#[export] Instance zscore_laws : ScoreLaws Z.
Proof. refine {| srank z := z |}; done. Defined.
#[export] Program Instance zsl_malloc : ZslMalloc Z :=
  {| zmalloc h := fresh (dom h); junk_backward := Some 7%positive; junk_level := (None, 99) |}.
Next Obligation. intros h. apply not_elem_of_dom, is_fresh. Qed.

Definition insert_all (l : list (Z * sds * list Z)) : option (gmap loc (zskiplistNode Z) * zskiplist) :=
  foldr (fun p o => '(h, zsl) ← o; '(h, zsl, _) ← zslInsert p.2 h zsl p.1.1 p.1.2; Some (h, zsl))
    (zslCreate ∅) l.

(** Every number of levels the random results give is fine. *)
Definition entry_ok (p : Z * sds * list Z) : bool := match zslRandomLevel p.2 with Some _ => true | None => false end.

Lemma insert_all_rep l :
  forallb entry_ok l = true -> NoDup ((fun p => p.1.2) <$> l) -> zlen l < 2 ^ 31 ->
  exists h zsl ns, insert_all l = Some (h, zsl) /\ zsl_rep h zsl ns /\ pairs ns ≡ₚ (fst <$> l).
Proof.
  induction l as [|[[sc e] rs] l IH]; intros Hok Hnd Hlen.
  { destruct (zslCreate_rep (score := Z) ∅) as (h & zsl & E & Hr). exists h, zsl, []. unfold insert_all. cbn [foldr]. split; [exact E|]. split; [exact Hr|done]. }
  simpl in Hok. apply andb_true_iff in Hok as [Hrs Hok]. apply NoDup_cons in Hnd as [Hn Hnd]. rewrite zlen_cons in Hlen.
  destruct IH as (h & zsl & ns & E & Hr & Hp); [done|done|lia|].
  change (insert_all ((sc, e, rs) :: l)) with
    ('(h, zsl) ← insert_all l; '(h, zsl, _) ← zslInsert rs h zsl sc e; Some (h, zsl)).
  rewrite E. cbn [mbind option_bind].
  unfold entry_ok in Hrs. simpl in Hrs. destruct (zslRandomLevel rs) as [level|] eqn:Er; [|done].
  assert (zlen ns = zlen l) as El.
  { apply Permutation_length in Hp. unfold pairs in Hp. rewrite !length_fmap in Hp. unfold zlen. lia. }
  destruct (zslInsert_rep rs h zsl ns sc e level) as (h' & zsl' & x & a & b & -> & -> & _ & _ & Hr'); [done|done| |done|lia|].
  - intros z Hz _ Ez. apply Hn. rewrite <- Ez. simpl.
    assert ((zscore z, zele z) ∈ (fst <$> l)) as Hin.
    { rewrite <- Hp. unfold pairs. by apply (list_elem_of_fmap_2 (fun z => (zscore z, zele z))). }
    apply list_elem_of_fmap in Hin as (p & Ep & Hin). apply list_elem_of_fmap. exists p. by rewrite <- Ep.
  - eexists _, _, _. split_and!; [reflexivity|exact Hr'|]. unfold pairs in *.
    rewrite fmap_app, fmap_cons, <- Permutation_middle. simpl. by rewrite <- fmap_app, Hp.
Qed.

(** Four elements on up to three levels. *)
Definition entries : list (Z * sds * list Z) :=
  [(5, [98], [1; 2; 60000]); (3, [97], [60000]); (5, [100], [3; 65000]); (9, [99; 99], [65535])].
Definition built : gmap loc (zskiplistNode Z) * zskiplist := default (∅, Zskiplist 1%positive None 0 1) (insert_all entries).

Lemma built_rep : exists ns, zsl_rep built.1 built.2 ns /\ pairs ns ≡ₚ (fst <$> entries).
Proof.
  unfold built. destruct (insert_all_rep entries) as (h & zsl & ns & -> & Hr & Hp); [done| |done|by exists ns].
  apply (bool_decide_unpack _). vm_compute. exact I.
Qed.

(** What holds of the elements of the list built. *)
Lemma built_forall (P : Z * sds -> bool) ns z :
  pairs ns ≡ₚ (fst <$> entries) -> forallb P (fst <$> entries) = true -> z ∈ ns -> P (zscore z, zele z) = true.
Proof.
  intros Hp HP Hz. rewrite forallb_forall in HP. apply HP, list_elem_of_In. rewrite <- Hp.
  unfold pairs. by apply (list_elem_of_fmap_2 (fun z => (zscore z, zele z))).
Qed.

Lemma built_length ns : pairs ns ≡ₚ (fst <$> entries) -> zlen ns = 4.
Proof. intros Hp%Permutation_length. unfold pairs in Hp. rewrite !length_fmap in Hp. unfold zlen. by rewrite Hp. Qed.

Lemma built_nodup ns : pairs ns ≡ₚ (fst <$> entries) -> NoDup (zele <$> ns).
Proof.
  intros Hp. assert (zele <$> ns = snd <$> pairs ns) as -> by (unfold pairs; by rewrite <- list_fmap_compose).
  rewrite Hp. apply (bool_decide_unpack _). vm_compute. exact I.
Qed.

Lemma built_elem ns p : pairs ns ≡ₚ (fst <$> entries) -> p ∈ (fst <$> entries) -> exists z, z ∈ ns /\ p = (zscore z, zele z).
Proof. intros Hp Hin. rewrite <- Hp in Hin. unfold pairs in Hin. apply list_elem_of_fmap in Hin. naive_solver. Qed.

Lemma zslInsert_refines_witness : exists h' zsl' x, zslInsert [7; 9; 9; 9; 50000] built.1 built.2 5 [99] = Some (h', zsl', x).
Proof.
  destruct built_rep as (ns & Hr & Hp).
  destruct (zslInsert_refines [7; 9; 9; 9; 50000] built.1 built.2 ns 5 [99] 5) as (h' & zsl' & x & ns' & E & _).
  - exact Hr.
  - reflexivity.
  - intros z Hz Ez. pose proof (built_forall (fun p => negb (sdscmp p.2 [99] =? 0)) ns z Hp ltac:(vm_compute; reflexivity) Hz) as Hb.
    simpl in Hb. rewrite Ez in Hb. discriminate Hb.
  - reflexivity.
  - rewrite (built_length ns Hp). reflexivity.
  - exists h', zsl', x. exact E.
Defined.

Lemma zslDelete_refines_witness : exists h' zsl' x, zslDelete built.1 built.2 5 [98] false = Some (h', zsl', Some x).
Proof.
  destruct built_rep as (ns & Hr & Hp).
  destruct (zslDelete_refines built.1 built.2 ns 5 [98] false) as (h' & zsl' & r & ns' & E & _ & Hres).
  - exact Hr.
  - reflexivity.
  - rewrite (built_length ns Hp). reflexivity.
  - destruct r as [x|]; [exists h', zsl', x; exact E|]. exfalso. destruct Hres as (_ & _ & Hn).
    destruct (built_elem ns (5, [98]) Hp) as (z & Hz & Ez); [apply list_elem_of_In; vm_compute; auto|].
    specialize (Hn z Hz). unfold is_pair in Hn. injection Ez as E1 E2. rewrite <- E1, <- E2 in Hn. discriminate Hn.
Defined.

Lemma zslUpdateScore_refines_witness : exists h' zsl' x, zslUpdateScore [2; 60000] built.1 built.2 5 [98] 8 = Some (h', zsl', x).
Proof.
  destruct built_rep as (ns & Hr & Hp). destruct (built_elem ns (5, [98]) Hp) as (z & Hz & Ez); [apply list_elem_of_In; vm_compute; auto|].
  destruct (zslUpdateScore_refines [2; 60000] built.1 built.2 ns 5 [98] 8 2 z) as (h' & zsl' & x & ns' & rest & E & _).
  - exact Hr.
  - reflexivity.
  - reflexivity.
  - exact (built_nodup ns Hp).
  - exact Hz.
  - unfold is_pair. injection Ez as E1 E2. rewrite <- E1, <- E2. reflexivity.
  - reflexivity.
  - rewrite (built_length ns Hp). reflexivity.
  - exists h', zsl', x. exact E.
Defined.

Lemma zslGetRank_refines_witness : zslGetRank built.1 built.2 4 [120] = Some 0 /\ zslGetElementByRank built.1 built.2 5 = Some None.
Proof.
  destruct built_rep as (ns & Hr & Hp).
  destruct (zslGetRank_refines built.1 built.2 ns Hr (built_nodup ns Hp)) as (_ & Habs & Hout & _).
  - rewrite (built_length ns Hp). reflexivity.
  - split; [apply Habs; [reflexivity|]|apply Hout; rewrite (built_length ns Hp); reflexivity].
    intros (z & Ez & Hz)%list_elem_of_fmap.
    pose proof (built_forall (fun p => negb (sdscmp p.2 [120] =? 0)) ns z Hp ltac:(vm_compute; reflexivity) Hz) as Hb.
    simpl in Hb. rewrite <- Ez in Hb. discriminate Hb.
Defined.

Lemma zslInRange_refines_witness : exists x, zslFirstInRange built.1 built.2 (Zrangespec 3 5 true false) = Some x.
Proof.
  destruct built_rep as (ns & Hr & Hp).
  destruct (zslInRange_refines built.1 built.2 ns (Zrangespec 3 5 true false) Hr) as [E _].
  - reflexivity.
  - reflexivity.
  - rewrite (built_length ns Hp). reflexivity.
  - eexists. exact E.
Defined.

Lemma zslDeleteRangeByScore_refines_witness : exists h' zsl' es,
  zslDeleteRangeByScore built.1 built.2 (Zrangespec 3 5 true false) = Some (h', zsl', es).
Proof.
  destruct built_rep as (ns & Hr & Hp).
  destruct (zslDeleteRangeByScore_refines built.1 built.2 ns (Zrangespec 3 5 true false) Hr) as (h' & zsl' & E & _).
  - reflexivity.
  - reflexivity.
  - rewrite (built_length ns Hp). reflexivity.
  - eexists h', zsl', _. exact E.
Defined.

Lemma zslDeleteRangeByRank_refines_witness : exists h' zsl' es,
  zslDeleteRangeByRank built.1 built.2 2 3 = Some (h', zsl', es) /\ length es = 2%nat.
Proof.
  destruct built_rep as (ns & Hr & Hp). pose proof (built_length ns Hp) as Hl.
  destruct (zslDeleteRangeByRank_refines built.1 built.2 ns 2 3 Hr) as (h' & zsl' & a & m & b & E & _ & Ha & Hm & _).
  - lia.
  - lia.
  - rewrite Hl. reflexivity.
  - eexists h', zsl', _. split; [exact E|]. rewrite length_fmap. rewrite Hl in Ha, Hm. zl. unfold zlen in *. lia.
Defined.

Lemma zslFree_releases_witness : exists h' es, zslFree built.1 built.2 = Some (h', es) /\ length es = 4%nat.
Proof.
  destruct built_rep as (ns & Hr & Hp). destruct (zslFree_releases built.1 built.2 ns Hr) as (h' & E & _).
  eexists h', _. split; [exact E|]. rewrite length_fmap. pose proof (built_length ns Hp). unfold zlen in *. lia.
Defined.

(** Two elements with the same score, and the range from "b" to "+". *)
Definition lex_entries : list (Z * sds * list Z) := [(0, [98], [1; 60000]); (0, [97], [60000])].
Definition lex_built : gmap loc (zskiplistNode Z) * zskiplist := default (∅, Zskiplist 1%positive None 0 1) (insert_all lex_entries).

Lemma zslInLexRange_refines_witness : exists x,
  zslFirstInLexRange lex_built.1 lex_built.2 (Zlexrangespec (Lexstr [98]) maxstring false false) = Some x.
Proof.
  assert (exists ns, zsl_rep lex_built.1 lex_built.2 ns /\ pairs ns ≡ₚ (fst <$> lex_entries)) as (ns & Hr & Hp).
  { unfold lex_built. destruct (insert_all_rep lex_entries) as (h & zsl & ns & -> & Hr & Hp); [done| |done|by exists ns].
    apply (bool_decide_unpack _). vm_compute. exact I. }
  assert (forall z, z ∈ ns -> zscore z = 0) as H0.
  { intros z Hz. assert ((zscore z, zele z) ∈ (fst <$> lex_entries)) as Hin.
    { rewrite <- Hp. unfold pairs. by apply (list_elem_of_fmap_2 (fun z => (zscore z, zele z))). }
    vm_compute in Hin. apply list_elem_of_In in Hin. simpl in Hin. naive_solver. }
  destruct (zslInLexRange_refines lex_built.1 lex_built.2 ns (Zlexrangespec (Lexstr [98]) maxstring false false) Hr) as [E _].
  - intros z1 z2 H1 H2. by rewrite (H0 z1 H1), (H0 z2 H2).
  - intros E. discriminate E.
  - apply Permutation_length in Hp. unfold pairs in Hp. rewrite !length_fmap in Hp. unfold zlen. rewrite Hp. reflexivity.
  - eexists. exact E.
Defined.
End Sample.
