(* ===== verification/Crc.v ===== *)
(** * Checksums and hash slots (crc16.c, crc64.c, keyHashSlot of cluster.c)

    The tables are those of the source. The theorems relate the table-driven
    loops to the polynomial division, bit by bit, that the comments name. *)

From S2P Require Import Prelude.

Definition crc16tab : list Z :=
  [0x0000; 0x1021; 0x2042; 0x3063; 0x4084; 0x50a5; 0x60c6; 0x70e7;
   0x8108; 0x9129; 0xa14a; 0xb16b; 0xc18c; 0xd1ad; 0xe1ce; 0xf1ef;
   0x1231; 0x0210; 0x3273; 0x2252; 0x52b5; 0x4294; 0x72f7; 0x62d6;
   0x9339; 0x8318; 0xb37b; 0xa35a; 0xd3bd; 0xc39c; 0xf3ff; 0xe3de;
   0x2462; 0x3443; 0x0420; 0x1401; 0x64e6; 0x74c7; 0x44a4; 0x5485;
   0xa56a; 0xb54b; 0x8528; 0x9509; 0xe5ee; 0xf5cf; 0xc5ac; 0xd58d;
   0x3653; 0x2672; 0x1611; 0x0630; 0x76d7; 0x66f6; 0x5695; 0x46b4;
   0xb75b; 0xa77a; 0x9719; 0x8738; 0xf7df; 0xe7fe; 0xd79d; 0xc7bc;
   0x48c4; 0x58e5; 0x6886; 0x78a7; 0x0840; 0x1861; 0x2802; 0x3823;
   0xc9cc; 0xd9ed; 0xe98e; 0xf9af; 0x8948; 0x9969; 0xa90a; 0xb92b;
   0x5af5; 0x4ad4; 0x7ab7; 0x6a96; 0x1a71; 0x0a50; 0x3a33; 0x2a12;
   0xdbfd; 0xcbdc; 0xfbbf; 0xeb9e; 0x9b79; 0x8b58; 0xbb3b; 0xab1a;
   0x6ca6; 0x7c87; 0x4ce4; 0x5cc5; 0x2c22; 0x3c03; 0x0c60; 0x1c41;
   0xedae; 0xfd8f; 0xcdec; 0xddcd; 0xad2a; 0xbd0b; 0x8d68; 0x9d49;
   0x7e97; 0x6eb6; 0x5ed5; 0x4ef4; 0x3e13; 0x2e32; 0x1e51; 0x0e70;
   0xff9f; 0xefbe; 0xdfdd; 0xcffc; 0xbf1b; 0xaf3a; 0x9f59; 0x8f78;
   0x9188; 0x81a9; 0xb1ca; 0xa1eb; 0xd10c; 0xc12d; 0xf14e; 0xe16f;
   0x1080; 0x00a1; 0x30c2; 0x20e3; 0x5004; 0x4025; 0x7046; 0x6067;
   0x83b9; 0x9398; 0xa3fb; 0xb3da; 0xc33d; 0xd31c; 0xe37f; 0xf35e;
   0x02b1; 0x1290; 0x22f3; 0x32d2; 0x4235; 0x5214; 0x6277; 0x7256;
   0xb5ea; 0xa5cb; 0x95a8; 0x8589; 0xf56e; 0xe54f; 0xd52c; 0xc50d;
   0x34e2; 0x24c3; 0x14a0; 0x0481; 0x7466; 0x6447; 0x5424; 0x4405;
   0xa7db; 0xb7fa; 0x8799; 0x97b8; 0xe75f; 0xf77e; 0xc71d; 0xd73c;
   0x26d3; 0x36f2; 0x0691; 0x16b0; 0x6657; 0x7676; 0x4615; 0x5634;
   0xd94c; 0xc96d; 0xf90e; 0xe92f; 0x99c8; 0x89e9; 0xb98a; 0xa9ab;
   0x5844; 0x4865; 0x7806; 0x6827; 0x18c0; 0x08e1; 0x3882; 0x28a3;
   0xcb7d; 0xdb5c; 0xeb3f; 0xfb1e; 0x8bf9; 0x9bd8; 0xabbb; 0xbb9a;
   0x4a75; 0x5a54; 0x6a37; 0x7a16; 0x0af1; 0x1ad0; 0x2ab3; 0x3a92;
   0xfd2e; 0xed0f; 0xdd6c; 0xcd4d; 0xbdaa; 0xad8b; 0x9de8; 0x8dc9;
   0x7c26; 0x6c07; 0x5c64; 0x4c45; 0x3ca2; 0x2c83; 0x1ce0; 0x0cc1;
   0xef1f; 0xff3e; 0xcf5d; 0xdf7c; 0xaf9b; 0xbfba; 0x8fd9; 0x9ff8;
   0x6e17; 0x7e36; 0x4e55; 0x5e74; 0x2e93; 0x3eb2; 0x0ed1; 0x1ef0].

Definition crc64_tab : list Z :=
  [0x0000000000000000; 0x7ad870c830358979; 0xf5b0e190606b12f2; 0x8f689158505e9b8b;
   0xc038e5739841b68f; 0xbae095bba8743ff6; 0x358804e3f82aa47d; 0x4f50742bc81f2d04;
   0xab28ecb46814fe75; 0xd1f09c7c5821770c; 0x5e980d24087fec87; 0x24407dec384a65fe;
   0x6b1009c7f05548fa; 0x11c8790fc060c183; 0x9ea0e857903e5a08; 0xe478989fa00bd371;
   0x7d08ff3b88be6f81; 0x07d08ff3b88be6f8; 0x88b81eabe8d57d73; 0xf2606e63d8e0f40a;
   0xbd301a4810ffd90e; 0xc7e86a8020ca5077; 0x4880fbd87094cbfc; 0x32588b1040a14285;
   0xd620138fe0aa91f4; 0xacf86347d09f188d; 0x2390f21f80c18306; 0x594882d7b0f40a7f;
   0x1618f6fc78eb277b; 0x6cc0863448deae02; 0xe3a8176c18803589; 0x997067a428b5bcf0;
   0xfa11fe77117cdf02; 0x80c98ebf2149567b; 0x0fa11fe77117cdf0; 0x75796f2f41224489;
   0x3a291b04893d698d; 0x40f16bccb908e0f4; 0xcf99fa94e9567b7f; 0xb5418a5cd963f206;
   0x513912c379682177; 0x2be1620b495da80e; 0xa489f35319033385; 0xde51839b2936bafc;
   0x9101f7b0e12997f8; 0xebd98778d11c1e81; 0x64b116208142850a; 0x1e6966e8b1770c73;
   0x8719014c99c2b083; 0xfdc17184a9f739fa; 0x72a9e0dcf9a9a271; 0x08719014c99c2b08;
   0x4721e43f0183060c; 0x3df994f731b68f75; 0xb29105af61e814fe; 0xc849756751dd9d87;
   0x2c31edf8f1d64ef6; 0x56e99d30c1e3c78f; 0xd9810c6891bd5c04; 0xa3597ca0a188d57d;
   0xec09088b6997f879; 0x96d1784359a27100; 0x19b9e91b09fcea8b; 0x636199d339c963f2;
   0xdf7adabd7a6e2d6f; 0xa5a2aa754a5ba416; 0x2aca3b2d1a053f9d; 0x50124be52a30b6e4;
   0x1f423fcee22f9be0; 0x659a4f06d21a1299; 0xeaf2de5e82448912; 0x902aae96b271006b;
   0x74523609127ad31a; 0x0e8a46c1224f5a63; 0x81e2d7997211c1e8; 0xfb3aa75142244891;
   0xb46ad37a8a3b6595; 0xceb2a3b2ba0eecec; 0x41da32eaea507767; 0x3b024222da65fe1e;
   0xa2722586f2d042ee; 0xd8aa554ec2e5cb97; 0x57c2c41692bb501c; 0x2d1ab4dea28ed965;
   0x624ac0f56a91f461; 0x1892b03d5aa47d18; 0x97fa21650afae693; 0xed2251ad3acf6fea;
   0x095ac9329ac4bc9b; 0x7382b9faaaf135e2; 0xfcea28a2faafae69; 0x8632586aca9a2710;
   0xc9622c4102850a14; 0xb3ba5c8932b0836d; 0x3cd2cdd162ee18e6; 0x460abd1952db919f;
   0x256b24ca6b12f26d; 0x5fb354025b277b14; 0xd0dbc55a0b79e09f; 0xaa03b5923b4c69e6;
   0xe553c1b9f35344e2; 0x9f8bb171c366cd9b; 0x10e3202993385610; 0x6a3b50e1a30ddf69;
   0x8e43c87e03060c18; 0xf49bb8b633338561; 0x7bf329ee636d1eea; 0x012b592653589793;
   0x4e7b2d0d9b47ba97; 0x34a35dc5ab7233ee; 0xbbcbcc9dfb2ca865; 0xc113bc55cb19211c;
   0x5863dbf1e3ac9dec; 0x22bbab39d3991495; 0xadd33a6183c78f1e; 0xd70b4aa9b3f20667;
   0x985b3e827bed2b63; 0xe2834e4a4bd8a21a; 0x6debdf121b863991; 0x1733afda2bb3b0e8;
   0xf34b37458bb86399; 0x8993478dbb8deae0; 0x06fbd6d5ebd3716b; 0x7c23a61ddbe6f812;
   0x3373d23613f9d516; 0x49aba2fe23cc5c6f; 0xc6c333a67392c7e4; 0xbc1b436e43a74e9d;
   0x95ac9329ac4bc9b5; 0xef74e3e19c7e40cc; 0x601c72b9cc20db47; 0x1ac40271fc15523e;
   0x5594765a340a7f3a; 0x2f4c0692043ff643; 0xa02497ca54616dc8; 0xdafce7026454e4b1;
   0x3e847f9dc45f37c0; 0x445c0f55f46abeb9; 0xcb349e0da4342532; 0xb1eceec59401ac4b;
   0xfebc9aee5c1e814f; 0x8464ea266c2b0836; 0x0b0c7b7e3c7593bd; 0x71d40bb60c401ac4;
   0xe8a46c1224f5a634; 0x927c1cda14c02f4d; 0x1d148d82449eb4c6; 0x67ccfd4a74ab3dbf;
   0x289c8961bcb410bb; 0x5244f9a98c8199c2; 0xdd2c68f1dcdf0249; 0xa7f41839ecea8b30;
   0x438c80a64ce15841; 0x3954f06e7cd4d138; 0xb63c61362c8a4ab3; 0xcce411fe1cbfc3ca;
   0x83b465d5d4a0eece; 0xf96c151de49567b7; 0x76048445b4cbfc3c; 0x0cdcf48d84fe7545;
   0x6fbd6d5ebd3716b7; 0x15651d968d029fce; 0x9a0d8ccedd5c0445; 0xe0d5fc06ed698d3c;
   0xaf85882d2576a038; 0xd55df8e515432941; 0x5a3569bd451db2ca; 0x20ed197575283bb3;
   0xc49581ead523e8c2; 0xbe4df122e51661bb; 0x3125607ab548fa30; 0x4bfd10b2857d7349;
   0x04ad64994d625e4d; 0x7e7514517d57d734; 0xf11d85092d094cbf; 0x8bc5f5c11d3cc5c6;
   0x12b5926535897936; 0x686de2ad05bcf04f; 0xe70573f555e26bc4; 0x9ddd033d65d7e2bd;
   0xd28d7716adc8cfb9; 0xa85507de9dfd46c0; 0x273d9686cda3dd4b; 0x5de5e64efd965432;
   0xb99d7ed15d9d8743; 0xc3450e196da80e3a; 0x4c2d9f413df695b1; 0x36f5ef890dc31cc8;
   0x79a59ba2c5dc31cc; 0x037deb6af5e9b8b5; 0x8c157a32a5b7233e; 0xf6cd0afa9582aa47;
   0x4ad64994d625e4da; 0x300e395ce6106da3; 0xbf66a804b64ef628; 0xc5bed8cc867b7f51;
   0x8aeeace74e645255; 0xf036dc2f7e51db2c; 0x7f5e4d772e0f40a7; 0x05863dbf1e3ac9de;
   0xe1fea520be311aaf; 0x9b26d5e88e0493d6; 0x144e44b0de5a085d; 0x6e963478ee6f8124;
   0x21c640532670ac20; 0x5b1e309b16452559; 0xd476a1c3461bbed2; 0xaeaed10b762e37ab;
   0x37deb6af5e9b8b5b; 0x4d06c6676eae0222; 0xc26e573f3ef099a9; 0xb8b627f70ec510d0;
   0xf7e653dcc6da3dd4; 0x8d3e2314f6efb4ad; 0x0256b24ca6b12f26; 0x788ec2849684a65f;
   0x9cf65a1b368f752e; 0xe62e2ad306bafc57; 0x6946bb8b56e467dc; 0x139ecb4366d1eea5;
   0x5ccebf68aecec3a1; 0x2616cfa09efb4ad8; 0xa97e5ef8cea5d153; 0xd3a62e30fe90582a;
   0xb0c7b7e3c7593bd8; 0xca1fc72bf76cb2a1; 0x45775673a732292a; 0x3faf26bb9707a053;
   0x70ff52905f188d57; 0x0a2722586f2d042e; 0x854fb3003f739fa5; 0xff97c3c80f4616dc;
   0x1bef5b57af4dc5ad; 0x61372b9f9f784cd4; 0xee5fbac7cf26d75f; 0x9487ca0fff135e26;
   0xdbd7be24370c7322; 0xa10fceec0739fa5b; 0x2e675fb4576761d0; 0x54bf2f7c6752e8a9;
   0xcdcf48d84fe75459; 0xb71738107fd2dd20; 0x387fa9482f8c46ab; 0x42a7d9801fb9cfd2;
   0x0df7adabd7a6e2d6; 0x772fdd63e7936baf; 0xf8474c3bb7cdf024; 0x829f3cf387f8795d;
   0x66e7a46c27f3aa2c; 0x1c3fd4a417c62355; 0x935745fc4798b8de; 0xe98f353477ad31a7;
   0xa6df411fbfb21ca3; 0xdc0731d78f8795da; 0x536fa08fdfd90e51; 0x29b7d047efec8728].

(** [crc16] on the bytes of the buffer. An index outside the table is [None]. *)
Fixpoint crc16_loop (buf : list Z) (crc : Z) : option Z :=
  match buf with
  | [] => Some crc
  | b :: buf =>
      x ← zidx crc16tab (Z.land (Z.lxor (Z.shiftr crc 8) b) 0x00FF);
      crc16_loop buf (wrapu 16 (Z.lxor (Z.shiftl crc 8) x))
  end.

Definition crc16 (buf : list Z) : option Z := crc16_loop buf 0.

Fixpoint crc64 (crc : Z) (s : list Z) : option Z :=
  match s with
  | [] => Some crc
  | byte :: s =>
      x ← zidx crc64_tab (Z.lxor (wrapu 8 crc) byte);
      crc64 (Z.lxor x (Z.shiftr crc 8)) s
  end.

(** [for (s = i; s < keylen; s++) if (key[s] == c) break], on the bytes from [i]. *)
Fixpoint find_byte (c : Z) (key : list Z) (i : Z) : Z :=
  match key with
  | [] => i
  | b :: key => if b =? c then i else find_byte c key (i + 1)
  end.

Definition keyHashSlot (key : list Z) : option Z :=
  let keylen := zlen key in
  let s := find_byte 123 key 0 in
  if s =? keylen then c ← crc16 key; Some (Z.land c 0x3FFF)
  else
    let e := find_byte 125 (drop (Z.to_nat (s + 1)) key) (s + 1) in
    if (e =? keylen) || (e =? s + 1) then c ← crc16 key; Some (Z.land c 0x3FFF)
    else
      tag ← rd key (s + 1) (e - s - 1);
      c ← crc16 tag;
      Some (Z.land c 0x3FFF).

(** ** The polynomial divisions *)

(** One bit of CRC-16/XMODEM, polynomial [x^16 + x^12 + x^5 + 1], bits from the
    most significant one. *)
Definition xmodem_bit (crc : Z) : Z :=
  if Z.testbit crc 15 then Z.lxor (wrapu 16 (Z.shiftl crc 1)) 0x1021 else wrapu 16 (Z.shiftl crc 1).
Definition xmodem_byte (crc b : Z) : Z := Nat.iter 8 xmodem_bit (Z.lxor crc (Z.shiftl b 8)).
Definition xmodem (buf : list Z) : Z := fold_left xmodem_byte buf 0.

(** One bit of CRC-64/Jones, reflected; 0x95ac9329ac4bc9b5 is the polynomial
    0xad93d23594c935a9 with its bits in reverse order. *)
Definition jones_poly : Z := 0x95ac9329ac4bc9b5.
Definition jones_bit (crc : Z) : Z :=
  if Z.odd crc then Z.lxor (Z.shiftr crc 1) jones_poly else Z.shiftr crc 1.
Definition jones_byte (crc b : Z) : Z := Nat.iter 8 jones_bit (Z.lxor crc b).

(** ** Linearity *)

Lemma wrapu_lxor w a b : 0 <= w -> wrapu w (Z.lxor a b) = Z.lxor (wrapu w a) (wrapu w b).
Proof.
  intros Hw. apply Z.bits_inj'. intros i Hi. rewrite wrapu_testbit, !Z.lxor_spec, !wrapu_testbit by lia.
  destruct (Z.testbit a i), (Z.testbit b i), (i <? w); done.
Qed.

Lemma lxor_in_u w a b : 0 <= w -> in_u w a -> in_u w b -> in_u w (Z.lxor a b).
Proof.
  intros Hw Ha Hb. assert (Z.lxor a b = wrapu w (Z.lxor a b)) as ->; [|by apply wrapu_range].
  by rewrite wrapu_lxor, !wrapu_small.
Qed.

(** A value as its high part and its low byte. *)
Lemma split_byte x : x = Z.lxor (Z.shiftl (Z.shiftr x 8) 8) (Z.land x 0xFF).
Proof.
  apply Z.bits_inj'. intros i Hi. change 0xFF with (Z.ones 8).
  rewrite Z.lxor_spec, Z.land_spec, Z.shiftl_spec, Z.testbit_ones_nonneg by lia.
  destruct (Z.ltb_spec i 8).
  - rewrite (Z.testbit_neg_r _ (i - 8)) by lia. by rewrite xorb_false_l, andb_true_r.
  - rewrite Z.shiftr_spec by lia. replace (i - 8 + 8) with i by lia. by rewrite andb_false_r, xorb_false_r.
Qed.

Lemma iter_linear (f : Z -> Z) n a b :
  (forall x y, f (Z.lxor x y) = Z.lxor (f x) (f y)) ->
  Nat.iter n f (Z.lxor a b) = Z.lxor (Nat.iter n f a) (Nat.iter n f b).
Proof. intros Hf. induction n as [|n IH]; [done|]. simpl. by rewrite IH. Qed.

Lemma xmodem_bit_linear x y : xmodem_bit (Z.lxor x y) = Z.lxor (xmodem_bit x) (xmodem_bit y).
Proof.
  unfold xmodem_bit. rewrite Z.lxor_spec, Z.shiftl_lxor, wrapu_lxor by lia.
  set (a := wrapu 16 (Z.shiftl x 1)). set (b := wrapu 16 (Z.shiftl y 1)).
  apply Z.bits_inj'. intros i _. destruct (Z.testbit x 15), (Z.testbit y 15); simpl; rewrite ?Z.lxor_spec;
    destruct (Z.testbit a i), (Z.testbit b i), (Z.testbit 0x1021 i); done.
Qed.

Lemma jones_bit_linear x y : jones_bit (Z.lxor x y) = Z.lxor (jones_bit x) (jones_bit y).
Proof.
  unfold jones_bit. rewrite <- !Z.bit0_odd, Z.lxor_spec, Z.shiftr_lxor.
  set (a := Z.shiftr x 1). set (b := Z.shiftr y 1).
  apply Z.bits_inj'. intros i _. destruct (Z.testbit x 0), (Z.testbit y 0); simpl; rewrite ?Z.lxor_spec;
    destruct (Z.testbit a i), (Z.testbit b i), (Z.testbit jones_poly i); done.
Qed.

Lemma jones_bit_even h n : (0 < n)%nat -> jones_bit (Z.shiftl h (Z.of_nat n)) = Z.shiftl h (Z.of_nat (n - 1)).
Proof.
  intros Hn. unfold jones_bit. rewrite <- Z.bit0_odd, Z.shiftl_spec, Z.testbit_neg_r by lia.
  rewrite Z.shiftr_shiftl_l by lia. f_equal. lia.
Qed.

Lemma jones_shift h n : Nat.iter n jones_bit (Z.shiftl h (Z.of_nat n)) = h.
Proof.
  induction n as [|n IH] in h |- *; [apply Z.shiftl_0_r|].
  rewrite Nat.iter_succ_r, jones_bit_even by lia. replace (S n - 1)%nat with n by lia. apply IH.
Qed.

(** ** The tables *)

Lemma crc16tab_spec b : in_u 8 b -> zidx crc16tab b = Some (Nat.iter 8 xmodem_bit (Z.shiftl b 8)).
Proof.
  intros Hb. pose proof (byte_check (fun b => match zidx crc16tab b with
    | Some x => x =? Nat.iter 8 xmodem_bit (Z.shiftl b 8) | None => false end) b ltac:(vm_compute; reflexivity) Hb) as E.
  cbv beta in E. destruct (zidx crc16tab b); [|done]. by zbool; subst.
Qed.

Lemma xmodem_low b : in_u 8 b -> Nat.iter 8 xmodem_bit b = Z.shiftl b 8.
Proof.
  intros Hb. pose proof (byte_check (fun b => Nat.iter 8 xmodem_bit b =? Z.shiftl b 8) b ltac:(vm_compute; reflexivity) Hb) as E.
  cbv beta in E. by zbool.
Qed.

Lemma crc64_tab_spec b : in_u 8 b -> zidx crc64_tab b = Some (Nat.iter 8 jones_bit b).
Proof.
  intros Hb. pose proof (byte_check (fun b => match zidx crc64_tab b with
    | Some x => x =? Nat.iter 8 jones_bit b | None => false end) b ltac:(vm_compute; reflexivity) Hb) as E.
  cbv beta in E. destruct (zidx crc64_tab b); [|done]. by zbool; subst.
Qed.

Lemma land_byte x : Z.land x 0xFF = wrapu 8 x.
Proof. change 0xFF with (Z.ones 8). by rewrite Z.land_ones by lia. Qed.

Lemma shiftr_byte w x : 8 <= w -> in_u w x -> in_u (w - 8) (Z.shiftr x 8).
Proof.
  intros Hw [H0 H1]. rewrite Z.shiftr_div_pow2 by lia. split; [apply Z.div_pos; lia|].
  apply Z.div_lt_upper_bound; [lia|]. rewrite <- Z.pow_add_r by lia. by replace (8 + (w - 8)) with w by lia.
Qed.

(** One step of each loop divides by the polynomial for one byte. *)
Lemma crc16_step crc b :
  in_u 16 crc -> in_u 8 b ->
  exists x, zidx crc16tab (Z.land (Z.lxor (Z.shiftr crc 8) b) 0x00FF) = Some x /\
    wrapu 16 (Z.lxor (Z.shiftl crc 8) x) = xmodem_byte crc b.
Proof.
  intros Hc Hb. pose proof (shiftr_byte 16 crc ltac:(lia) Hc) as Hh. simpl in Hh.
  pose proof (lxor_in_u 8 _ _ ltac:(lia) Hh Hb) as Hx. rewrite land_byte, wrapu_small by done.
  rewrite crc16tab_spec by done. eexists. split; [done|].
  unfold xmodem_byte. set (v := Z.lxor crc (Z.shiftl b 8)). rewrite (split_byte v), iter_linear by apply xmodem_bit_linear.
  assert (Z.shiftr v 8 = Z.lxor (Z.shiftr crc 8) b) as ->.
  { unfold v. rewrite Z.shiftr_lxor, Z.shiftr_shiftl_l by lia. by rewrite Z.shiftl_0_r. }
  assert (Z.land v 0xFF = wrapu 8 crc) as ->.
  { unfold v. rewrite land_byte, wrapu_lxor by lia. replace (wrapu 8 (Z.shiftl b 8)) with 0; [apply Z.lxor_0_r|].
    unfold wrapu. rewrite Z.shiftl_mul_pow2 by lia. symmetry. apply Z.mod_mul. lia. }
  rewrite (xmodem_low (wrapu 8 crc)) by (by apply wrapu_range). rewrite wrapu_lxor, Z.lxor_comm by lia. f_equal.
  - apply wrapu_small. pose proof (byte_check (fun b => (0 <=? Nat.iter 8 xmodem_bit (Z.shiftl b 8)) &&
      (Nat.iter 8 xmodem_bit (Z.shiftl b 8) <? 2 ^ 16)) _ ltac:(vm_compute; reflexivity) Hx) as E.
    cbv beta in E. zbool. by split.
  - unfold wrapu. rewrite !Z.shiftl_mul_pow2 by lia. change (2 ^ 16) with (2 ^ 8 * 2 ^ 8).
    by rewrite Z.mul_mod_distr_r by lia.
Qed.

Lemma crc64_step crc b :
  in_u 64 crc -> in_u 8 b ->
  exists x, zidx crc64_tab (Z.lxor (wrapu 8 crc) b) = Some x /\ Z.lxor x (Z.shiftr crc 8) = jones_byte crc b.
Proof.
  intros Hc Hb. pose proof (wrapu_range 8 crc ltac:(lia)) as Hl.
  rewrite crc64_tab_spec by (by apply lxor_in_u). eexists. split; [done|].
  unfold jones_byte. set (v := Z.lxor crc b). rewrite (split_byte v), (iter_linear _ _ (Z.shiftl _ 8)) by apply jones_bit_linear.
  assert (Nat.iter 8 jones_bit (Z.shiftl (Z.shiftr v 8) 8) = Z.shiftr v 8) as -> by apply (jones_shift _ 8).
  rewrite Z.lxor_comm. f_equal.
  - unfold v. rewrite Z.shiftr_lxor. replace (Z.shiftr b 8) with 0; [by rewrite Z.lxor_0_r|].
    rewrite Z.shiftr_div_pow2 by lia. symmetry. by apply Z.div_small.
  - unfold v. by rewrite land_byte, wrapu_lxor, (wrapu_small 8 b) by (done || lia).
Qed.

Lemma xmodem_byte_range crc b : in_u 16 crc -> in_u 8 b -> in_u 16 (xmodem_byte crc b).
Proof. intros Hc Hb. destruct (crc16_step crc b Hc Hb) as (x & _ & <-). apply wrapu_range. lia. Qed.

Lemma crc16_loop_spec buf : forall crc,
  Forall (in_u 8) buf -> in_u 16 crc ->
  crc16_loop buf crc = Some (fold_left xmodem_byte buf crc) /\ in_u 16 (fold_left xmodem_byte buf crc).
Proof.
  induction buf as [|b buf IH]; intros crc Hbuf Hc; [done|]. apply Forall_cons in Hbuf as [Hb Hbuf]. simpl.
  destruct (crc16_step crc b Hc Hb) as (x & -> & E). simpl. rewrite E.
  apply IH; [done|]. by apply xmodem_byte_range.
Qed.

Lemma crc16_spec buf : Forall (in_u 8) buf -> crc16 buf = Some (xmodem buf) /\ in_u 16 (xmodem buf).
Proof. intros Hb. by apply crc16_loop_spec. Qed.

Lemma jones_byte_range crc b : in_u 64 crc -> in_u 8 b -> in_u 64 (jones_byte crc b).
Proof.
  intros Hc Hb. destruct (crc64_step crc b Hc Hb) as (x & Hx & <-). apply lxor_in_u; [lia| |].
  - assert (forallb (fun x => (0 <=? x) && (x <? 2 ^ 64)) crc64_tab = true) as H by (vm_compute; reflexivity).
    rewrite forallb_forall in H. specialize (H x ltac:(by apply list_elem_of_In, (zidx_elem_of _ _ _ Hx))). zbool. by split.
  - pose proof (shiftr_byte 64 crc ltac:(lia) Hc) as [? ?]. split; lia.
Qed.

Lemma crc64_spec s : forall crc,
  Forall (in_u 8) s -> in_u 64 crc ->
  crc64 crc s = Some (fold_left jones_byte s crc) /\ in_u 64 (fold_left jones_byte s crc).
Proof.
  induction s as [|b s IH]; intros crc Hs Hc; [done|]. apply Forall_cons in Hs as [Hb Hs]. simpl.
  destruct (crc64_step crc b Hc Hb) as (x & -> & E). simpl. rewrite E.
  apply IH; [done|]. by apply jones_byte_range.
Qed.

Lemma lxor_cancel a b c : Z.lxor a b = Z.lxor a c -> b = c.
Proof.
  intros E. apply (f_equal (Z.lxor a)) in E. by rewrite <- !Z.lxor_assoc, !Z.lxor_nilpotent, !Z.lxor_0_l in E.
Qed.

(** The high byte of the table entries identifies them. *)
Lemma crc64_tab_inj i j x y :
  zidx crc64_tab i = Some x -> zidx crc64_tab j = Some y -> Z.shiftr x 56 = Z.shiftr y 56 -> i = j.
Proof.
  intros Hi Hj E.
  assert (NoDup ((fun x => Z.shiftr x 56) <$> crc64_tab)) as Hnd by (apply (bool_decide_unpack _); vm_compute; exact I).
  pose proof (zidx_range _ _ _ Hi) as Hri. pose proof (zidx_range _ _ _ Hj) as Hrj.
  unfold zidx in *. rewrite (proj2 (Z.leb_le 0 i)) in Hi by lia. rewrite (proj2 (Z.leb_le 0 j)) in Hj by lia.
  apply (f_equal (fmap (fun x => Z.shiftr x 56))) in Hi, Hj. simpl in Hi, Hj. rewrite <- list_lookup_fmap in Hi, Hj.
  rewrite E in Hi. pose proof (NoDup_lookup _ _ _ _ Hnd Hi Hj). lia.
Qed.

(** A step of the loop loses no information about the state or the byte. *)
Lemma jones_byte_inj c1 c2 b1 b2 :
  in_u 64 c1 -> in_u 64 c2 -> in_u 8 b1 -> in_u 8 b2 -> jones_byte c1 b1 = jones_byte c2 b2 ->
  Z.lxor (wrapu 8 c1) b1 = Z.lxor (wrapu 8 c2) b2 /\ Z.shiftr c1 8 = Z.shiftr c2 8.
Proof.
  intros Hc1 Hc2 Hb1 Hb2 E.
  destruct (crc64_step c1 b1 Hc1 Hb1) as (x1 & H1 & E1). destruct (crc64_step c2 b2 Hc2 Hb2) as (x2 & H2 & E2).
  rewrite <- E1, <- E2 in E.
  assert (forall c, in_u 64 c -> Z.shiftr (Z.shiftr c 8) 56 = 0) as Hz.
  { intros c [Hc Hc']. rewrite Z.shiftr_shiftr, Z.shiftr_div_pow2 by lia. apply Z.div_small. simpl. lia. }
  assert (Z.shiftr x1 56 = Z.shiftr x2 56) as Ex.
  { apply (f_equal (fun z => Z.shiftr z 56)) in E. rewrite !Z.shiftr_lxor, !Hz, !Z.lxor_0_r in E by done. done. }
  pose proof (crc64_tab_inj _ _ _ _ H1 H2 Ex) as Ei. split; [done|].
  rewrite Ei, H2 in H1. injection H1 as <-. by apply lxor_cancel in E.
Qed.

Lemma jones_byte_state_inj c1 c2 b :
  in_u 64 c1 -> in_u 64 c2 -> in_u 8 b -> jones_byte c1 b = jones_byte c2 b -> c1 = c2.
Proof.
  intros H1 H2 Hb E. destruct (jones_byte_inj _ _ _ _ H1 H2 Hb Hb E) as [El Eh].
  rewrite !(Z.lxor_comm _ b) in El. apply lxor_cancel in El.
  by rewrite (split_byte c1), (split_byte c2), !land_byte, El, Eh.
Qed.

Lemma jones_fold_inj s : forall c1 c2,
  Forall (in_u 8) s -> in_u 64 c1 -> in_u 64 c2 -> fold_left jones_byte s c1 = fold_left jones_byte s c2 -> c1 = c2.
Proof.
  induction s as [|b s IH]; intros c1 c2 Hs H1 H2 E; [done|]. apply Forall_cons in Hs as [Hb Hs]. simpl in E.
  apply IH in E; [|done|by apply jones_byte_range|by apply jones_byte_range]. by eapply jones_byte_state_inj.
Qed.

(** A changed byte changes the checksum. *)
Lemma crc64_changed crc a x y b :
  in_u 64 crc -> Forall (in_u 8) (a ++ x :: b) -> in_u 8 y -> y <> x -> crc64 crc (a ++ y :: b) <> crc64 crc (a ++ x :: b).
Proof.
  intros Hc Hd Hy Hne. pose proof Hd as [Ha [Hx Hb]%Forall_cons]%Forall_app.
  destruct (crc64_spec a crc Ha Hc) as [_ Hca]. destruct (crc64_spec _ crc Hd Hc) as [-> _].
  destruct (crc64_spec (a ++ y :: b) crc) as [-> _]; [apply Forall_app; split; [done|by constructor]|done|].
  rewrite !fold_left_app. simpl. intros [= E2].
  apply jones_fold_inj in E2; [|done|by apply jones_byte_range|by apply jones_byte_range].
  apply Hne. destruct (jones_byte_inj _ _ _ _ Hca Hca Hy Hx E2) as [E3 _]. by apply lxor_cancel in E3.
Qed.

(** [crc64] is CRC-64/Jones: it computes the remainder of the bits of the data by
    the polynomial, can be fed the data in pieces, and changing any single byte
    of the data changes the result. *)
Theorem crc64_detects_corruption crc a x b :
  in_u 64 crc -> Forall (in_u 8) (a ++ x :: b) ->
  crc64 crc (a ++ x :: b) = Some (fold_left jones_byte (a ++ x :: b) crc) /\
  (c ← crc64 crc a; crc64 c (x :: b)) = crc64 crc (a ++ x :: b) /\
  forall y, in_u 8 y -> y <> x -> crc64 crc (a ++ y :: b) <> crc64 crc (a ++ x :: b).
Proof.
  intros Hc Hd. pose proof Hd as Hd'. apply Forall_app in Hd' as [Ha Hxb]. pose proof Hxb as [Hx Hb]%Forall_cons.
  destruct (crc64_spec a crc Ha Hc) as [Ea Hca]. destruct (crc64_spec _ crc Hd Hc) as [E _]. rewrite E.
  split_and!; [done| |].
  - rewrite Ea. simpl. destruct (crc64_spec (x :: b) _ Hxb Hca) as [E2 _]. simpl in E2. rewrite E2. by rewrite fold_left_app.
  - intros y Hy Hne. rewrite <- E. by apply crc64_changed.
Qed.

Lemma crc64_detects_corruption_witness :
  crc64 0 [49; 50; 51; 52; 53; 54; 55; 56; 57] = Some 0xe9c6d914c4b8d9ca /\
  crc64 0 [49; 50; 51; 52; 53; 54; 56; 56; 57] <> crc64 0 [49; 50; 51; 52; 53; 54; 55; 56; 57].
Proof.
  split; [vm_compute; reflexivity|].
  destruct (crc64_detects_corruption 0 [49; 50; 51; 52; 53; 54] 55 [56; 57]) as (_ & _ & Hd).
  - split; lia.
  - repeat constructor; lia.
  - apply (Hd 56); [split; lia|lia].
Defined.

(** ** Hash slots *)

Lemma find_byte_hit c p r i : c ∉ p -> find_byte c (p ++ c :: r) i = i + zlen p.
Proof.
  revert i. induction p as [|b p IH]; intros i Hp; simpl.
  - rewrite Z.eqb_refl, (@zlen_nil Z). lia.
  - apply not_elem_of_cons in Hp as [Hne Hp]. rewrite (proj2 (Z.eqb_neq _ _)) by done. rewrite IH by done. zl.
Qed.

Lemma find_byte_miss c p i : c ∉ p -> find_byte c p i = i + zlen p.
Proof.
  revert i. induction p as [|b p IH]; intros i Hp; simpl.
  - rewrite (@zlen_nil Z). lia.
  - apply not_elem_of_cons in Hp as [Hne Hp]. rewrite (proj2 (Z.eqb_neq _ _)) by done. rewrite IH by done. zl.
Qed.

Lemma slot_of c : in_u 16 c -> Z.land c 0x3FFF = c mod 16384.
Proof. intros _. change 0x3FFF with (Z.ones 14). by rewrite Z.land_ones by lia. Qed.

(** The part of a key that is hashed: the first non-empty text between a first "{"
    and the first "}" after it, or else the whole key. *)
Inductive hashed_part : list Z -> list Z -> Prop :=
  | hp_tag p t s : 123 ∉ p -> 125 ∉ t -> t <> [] -> hashed_part (p ++ 123 :: t ++ 125 :: s) t
  | hp_no_open key : 123 ∉ key -> hashed_part key key
  | hp_no_close p r : 123 ∉ p -> 125 ∉ r -> hashed_part (p ++ 123 :: r) (p ++ 123 :: r)
  | hp_empty p s : 123 ∉ p -> hashed_part (p ++ 123 :: 125 :: s) (p ++ 123 :: 125 :: s).

(** Every key has a hashed part. *)
Lemma hashed_part_total key : exists t, hashed_part key t.
Proof.
  destruct (decide (123 ∈ key)) as [Hin|Hn]; [|by exists key; apply hp_no_open].
  apply list_elem_of_split_l in Hin as (p & r & -> & Hp).
  destruct (decide (125 ∈ r)) as [Hin|Hn]; [|by eexists; apply hp_no_close].
  apply list_elem_of_split_l in Hin as (t & s & -> & Ht).
  destruct (decide (t = [])) as [->|Hne]; [by eexists; apply hp_empty|]. exists t. by apply hp_tag.
Qed.

Lemma after_open p r : drop (Z.to_nat (0 + zlen p + 1)) (p ++ 123 :: r) = r.
Proof.
  change (123 :: r) with ([123] ++ r). rewrite app_assoc. apply drop_zlen_app. rewrite zlen_app.
  change (zlen [123]) with 1. lia.
Qed.

(** [keyHashSlot] maps a key to the CRC-16/XMODEM of its hashed part modulo 16384,
    so keys with the same hash tag share a slot, and never reads outside the key. *)
Theorem keyHashSlot_hash_tag key t :
  Forall (in_u 8) key -> hashed_part key t -> keyHashSlot key = Some (xmodem t mod 16384).
Proof.
  intros Hk Hp. assert (Forall (in_u 8) t) as Ht.
  { destruct Hp as [p t s _ _ _| | |]; [|done..]. by apply Forall_app in Hk as [_ [_ [Hk _]%Forall_app]%Forall_cons]. }
  destruct (crc16_spec t Ht) as [Ec Hr]. rewrite <- (slot_of _ Hr). unfold keyHashSlot.
  destruct Hp as [p t s Hp Hn Hne|key Hp|p r Hp Hn|p s Hp]; rewrite ?(find_byte_miss 123 key) by done;
    rewrite ?find_byte_hit, ?after_open, ?find_byte_hit, ?(find_byte_miss 125) by done;
    pose proof (zlen_nonneg p) as H0 || idtac.
  - pose proof (zlen_nonneg t) as Hlt. pose proof (zlen_nonneg s).
    rewrite (proj2 (Z.eqb_neq _ _)) by zl. rewrite (proj2 (Z.eqb_neq _ _)) by zl. rewrite (proj2 (Z.eqb_neq _ _)).
    + simpl. replace (p ++ 123 :: t ++ 125 :: s) with ((p ++ [123]) ++ t ++ (125 :: s)) by (by rewrite <- app_assoc).
      rewrite rd_app; [|rewrite zlen_app; change (zlen [123]) with 1; lia|lia]. simpl. by rewrite Ec.
    + intros E. apply Hne, zlen_0_inv. lia.
  - rewrite Z.add_0_l, Z.eqb_refl. by rewrite Ec.
  - rewrite (proj2 (Z.eqb_neq _ _)) by (pose proof (zlen_nonneg r); zl).
    rewrite (proj2 (Z.eqb_eq _ _)) by zl. simpl. by rewrite Ec.
  - rewrite (proj2 (Z.eqb_neq _ _)) by (pose proof (zlen_nonneg s); zl).
    assert (find_byte 125 (125 :: s) (0 + zlen p + 1) = 0 + zlen p + 1) as -> by done.
    rewrite Z.eqb_refl, orb_true_r. by rewrite Ec.
Qed.

(** The key "{user1000}.following". *)
Lemma keyHashSlot_hash_tag_witness :
  let user := [117; 115; 101; 114; 49; 48; 48; 48] in
  keyHashSlot (123 :: user ++ [125; 46; 102; 111; 108; 108; 111; 119; 105; 110; 103]) = keyHashSlot user.
Proof.
  intros user. assert (Forall (in_u 8) user) as Hu by (repeat constructor; lia).
  rewrite (keyHashSlot_hash_tag _ user).
  - vm_compute. reflexivity.
  - constructor; [split; lia|]. apply Forall_app. split; [done|]. repeat constructor; lia.
  - apply (hp_tag []); [set_solver| |done].
    intros Hin%list_elem_of_In. simpl in Hin. lia.
Defined.
