(* ===== verification/Glob.v ===== *)
(** * Glob-style matching (stringmatchlen of util.c)

    The pattern and the string are memory areas, lists of bytes that include the
    terminator; [ip] and [is_] are the positions the pointers [pattern] and
    [string] have reached, and a read outside an area is [None]. The lengths are
    the [int] counters of the code, which may become negative. Every iteration of
    the outer loop and every recursive call consumes a byte of the pattern, so the
    length of the pattern bounds their number. *)

From S2P Require Import Prelude.

(** [tolower] in the C locale. *)
Definition tolower (c : Z) : Z := if (65 <=? c) && (c <=? 90) then c + 32 else c.

(** A byte as a [char] (signed on the targets of the build). *)
Definition schar (b : Z) : Z := wraps 8 b.

Section stringmatch.
Context (nocase : bool) (pm sm : list Z).

Definition eq_char (a b : Z) : bool := if nocase then tolower a =? tolower b else a =? b.

(** Skips the stars after [pattern[0]]. *)
Fixpoint skip_next_stars (fuel : nat) (ip plen : Z) : option (Z * Z) :=
  match fuel with
  | O => None
  | S fuel =>
      c ← zidx pm (ip + 1);
      if c =? 42 then skip_next_stars fuel (ip + 1) (plen - 1) else Some (ip, plen)
  end.

(** Skips the stars from [pattern[0]] on. *)
Fixpoint skip_stars (fuel : nat) (ip plen : Z) : option (Z * Z) :=
  match fuel with
  | O => None
  | S fuel =>
      c ← zidx pm ip;
      if c =? 42 then skip_stars fuel (ip + 1) (plen - 1) else Some (ip, plen)
  end.

(** The [while(1)] loop over a character class: the position of the "]" (or of the
    last byte of the pattern) and whether the character matches. *)
Fixpoint class_loop (fuel : nat) (ip plen is_ : Z) (m : bool) : option (Z * Z * bool) :=
  match fuel with
  | O => None
  | S fuel =>
      p0 ← zidx pm ip;
      if (p0 =? 92) && (plen >=? 2) then
        p ← zidx pm (ip + 1);
        s ← zidx sm is_;
        class_loop fuel (ip + 2) (plen - 2) is_ (m || (p =? s))
      else if p0 =? 93 then Some (ip, plen, m)
      else if plen =? 0 then Some (ip - 1, plen + 1, m)
      else
        p1 ← zidx pm (ip + 1);
        if (p1 =? 45) && (plen >=? 3) then
          p2 ← zidx pm (ip + 2);
          s ← zidx sm is_;
          let start := schar p0 in
          let end_ := schar p2 in
          let c := schar s in
          let '(start, end_) := if start >? end_ then (end_, start) else (start, end_) in
          let '(start, end_, c) :=
            if nocase then (tolower start, tolower end_, tolower c) else (start, end_, c) in
          class_loop fuel (ip + 3) (plen - 3) is_ (m || ((c >=? start) && (c <=? end_)))
        else
          s ← zidx sm is_;
          class_loop fuel (ip + 1) (plen - 1) is_ (m || eq_char p0 s)
  end.

(** [while (stringLen) { if (stringmatchlen(...)) return 1; string++; stringLen--; } return 0;]. *)
Fixpoint star_loop (rec : Z -> Z -> option bool) (fuel : nat) (is_ slen : Z) : option bool :=
  match fuel with
  | O => None
  | S fuel =>
      if slen =? 0 then Some false
      else
        r ← rec is_ slen;
        if r : bool then Some true else star_loop rec fuel (is_ + 1) (slen - 1)
  end.

(** The end of an iteration of the outer loop, from [pattern++; patternLen--] on;
    [rec] is the rest of the loop. *)
Definition end_of_iteration (rec : Z -> Z -> Z -> Z -> option bool) (ip plen is_ slen : Z) : option bool :=
  let ip := ip + 1 in
  let plen := plen - 1 in
  if slen =? 0 then
    '(_, plen) ← skip_stars (S (length pm)) ip plen;
    Some ((plen =? 0) && (slen =? 0))
  else rec ip plen is_ slen.

(** The [default] case. *)
Definition match_literal (rec : Z -> Z -> Z -> Z -> option bool) (ip plen is_ slen : Z) : option bool :=
  p ← zidx pm ip;
  s ← zidx sm is_;
  if negb (eq_char p s) then Some false else end_of_iteration rec ip plen (is_ + 1) (slen - 1).

Fixpoint match_loop (fuel : nat) (ip plen is_ slen : Z) : option bool :=
  match fuel with
  | O => None
  | S fuel =>
      if plen =? 0 then Some ((plen =? 0) && (slen =? 0))
      else
        c ← zidx pm ip;
        if c =? 42 then
          '(ip, plen) ← skip_next_stars (S (length pm)) ip plen;
          if plen =? 1 then Some true
          else star_loop (match_loop fuel (ip + 1) (plen - 1)) (S (length sm)) is_ slen
        else if c =? 63 then
          if slen =? 0 then Some false else end_of_iteration (match_loop fuel) ip plen (is_ + 1) (slen - 1)
        else if c =? 91 then
          let ip := ip + 1 in
          let plen := plen - 1 in
          p0 ← zidx pm ip;
          let not_ := p0 =? 94 in
          let '(ip, plen) := if not_ then (ip + 1, plen - 1) else (ip, plen) in
          '(ip, plen, m) ← class_loop (S (length pm)) ip plen is_ false;
          if negb (xorb not_ m) then Some false
          else end_of_iteration (match_loop fuel) ip plen (is_ + 1) (slen - 1)
        else if (c =? 92) && (plen >=? 2) then match_literal (match_loop fuel) (ip + 1) (plen - 1) is_ slen
        else match_literal (match_loop fuel) ip plen is_ slen
  end.
End stringmatch.

(** [stringmatchlen] on two terminated strings. *)
Definition stringmatchlen (pattern string : list Z) (nocase : bool) : option bool :=
  match_loop nocase (pattern ++ [0]) (string ++ [0]) (S (length pattern)) 0 (zlen pattern) 0 (zlen string).

(** ** What a pattern without character classes means *)

Section spec.
Context (nocase : bool).

Inductive glob : list Z -> list Z -> Prop :=
  | glob_nil : glob [] []
  | glob_star p s1 s2 : glob p s2 -> glob (42 :: p) (s1 ++ s2)
  | glob_any p c s : glob p s -> glob (63 :: p) (c :: s)
  | glob_escape p c d s : eq_char nocase c d = true -> glob p s -> glob (92 :: c :: p) (d :: s)
  | glob_literal p c d s :
      c <> 42 -> c <> 63 -> (c = 92 -> p = []) -> eq_char nocase c d = true -> glob p s -> glob (c :: p) (d :: s).

(** A pattern byte the theorem covers: not the terminator and not a class. *)
Definition plain (c : Z) : Prop := c <> 0 /\ c <> 91 /\ in_u 8 c.

Lemma eq_char_0 c : in_u 8 c -> c <> 0 -> eq_char nocase c 0 = false.
Proof.
  intros [H0 H1] Hne. unfold eq_char, tolower. destruct nocase; [|by apply Z.eqb_neq].
  apply Z.eqb_neq. simpl. case_if; lia.
Qed.

Lemma split_stars p : exists n q, p = replicate n 42 ++ q /\ head q <> Some 42.
Proof.
  induction p as [|c p (n & q & -> & Hq)]; [by exists O, []|]. destruct (decide (c = 42)) as [->|Hne].
  - by exists (S n), q.
  - exists O, (c :: replicate n 42 ++ q). split; [done|]. by intros [= ->].
Qed.

Lemma glob_nil_r p : glob p [] <-> Forall (fun c => c = 42) p.
Proof.
  split.
  - intros Hg. remember [] as s eqn:Es. induction Hg as [|p s1 s2 _ IH| | |]; try done.
    apply app_nil in Es as [-> ->]. by constructor; [|apply IH].
  - induction 1 as [|c p -> _ IH]; [constructor|]. by apply (glob_star p [] []).
Qed.

Lemma glob_stars n q s : glob (replicate (S n) 42 ++ q) s <-> exists s1 s2, s = s1 ++ s2 /\ glob q s2.
Proof.
  revert s. induction n as [|n IH]; intros s; cbn [replicate app]; split.
  - intros Hg. inversion Hg; subst; eauto; done.
  - intros (s1 & s2 & -> & Hg). by apply glob_star.
  - intros Hg. inversion Hg as [|p s1 s2 Hg'| | |]; subst; try done.
    apply IH in Hg' as (s3 & s4 & -> & Hg'). exists (s1 ++ s3), s4. by rewrite app_assoc.
  - intros (s1 & s2 & -> & Hg). apply (glob_star _ [] (s1 ++ s2)). apply IH. by exists s1, s2.
Qed.
End spec.

(** ** The loops *)

Section correct.
Context (nocase : bool) (pm sm : list Z).

(** A test of the code that decides a property. *)
Definition decides (o : option bool) (P : Prop) : Prop := exists b, o = Some b /\ (b = true <-> P).

Lemma decides_iff o P Q : (P <-> Q) -> decides o P -> decides o Q.
Proof. intros H (b & -> & Hb). exists b. by rewrite Hb. Qed.

Lemma head_not_star (q : list Z) : head q <> Some 42 -> exists c t, q ++ [0] = c :: t /\ c <> 42.
Proof.
  destruct q as [|c q]; intros Hq; simpl; [by exists 0, []|]. exists c, (q ++ [0]). split; [done|]. intros ->. by apply Hq.
Qed.

Lemma skip_stars_spec q n : forall fuel p0 plen,
  pm = p0 ++ replicate n 42 ++ q ++ [0] -> head q <> Some 42 -> (n < fuel)%nat ->
  skip_stars pm fuel (zlen p0) plen = Some (zlen p0 + Z.of_nat n, plen - Z.of_nat n).
Proof.
  induction n as [|n IH]; intros [|fuel] p0 plen E Hq Hf; try lia; cbn [skip_stars].
  - destruct (head_not_star q Hq) as (c & t & Eq & Hc). rewrite E. simpl. rewrite Eq, zidx_app by done. simpl.
    rewrite (proj2 (Z.eqb_neq _ _)) by done. do 2 f_equal; lia.
  - rewrite E at 1. simpl. rewrite zidx_app by done. simpl.
    assert (zlen p0 + 1 = zlen (p0 ++ [42])) as -> by zl.
    rewrite IH; [do 2 f_equal; zl|by rewrite E, <- app_assoc|done|lia].
Qed.

Lemma skip_next_stars_spec q n : forall fuel p0 plen,
  pm = p0 ++ 42 :: replicate n 42 ++ q ++ [0] -> head q <> Some 42 -> (n < fuel)%nat ->
  skip_next_stars pm fuel (zlen p0) plen = Some (zlen p0 + Z.of_nat n, plen - Z.of_nat n).
Proof.
  induction n as [|n IH]; intros [|fuel] p0 plen E Hq Hf; try lia; cbn [skip_next_stars];
    assert (zlen p0 + 1 = zlen (p0 ++ [42])) as -> by zl.
  - destruct (head_not_star q Hq) as (c & t & Eq & Hc). rewrite E. simpl.
    replace (p0 ++ 42 :: q ++ [0]) with ((p0 ++ [42]) ++ q ++ [0]) by (by rewrite <- app_assoc).
    rewrite Eq, zidx_app by done. simpl. rewrite (proj2 (Z.eqb_neq _ _)) by done. do 2 f_equal; lia.
  - rewrite E at 1. simpl.
    replace (p0 ++ 42 :: 42 :: replicate n 42 ++ q ++ [0]) with ((p0 ++ [42]) ++ 42 :: replicate n 42 ++ q ++ [0])
      by (by rewrite <- app_assoc).
    rewrite zidx_app by done. simpl.
    rewrite IH; [do 2 f_equal; zl|by rewrite E, <- app_assoc|done|lia].
Qed.

(** A recursive call that is right on the pattern [p] and the rest of the string. *)
Definition rec_ok (rec : Z -> Z -> Z -> Z -> option bool) p0 p : Prop :=
  pm = p0 ++ p ++ [0] -> forall s0 s, sm = s0 ++ s ++ [0] ->
  decides (rec (zlen p0) (zlen p) (zlen s0) (zlen s)) (glob nocase p s).

Lemma end_of_iteration_spec rec p0 c p s0 s :
  pm = (p0 ++ [c]) ++ p ++ [0] -> sm = s0 ++ s ++ [0] -> rec_ok rec (p0 ++ [c]) p ->
  decides (end_of_iteration pm rec (zlen p0) (zlen (c :: p)) (zlen s0) (zlen s)) (glob nocase p s).
Proof.
  intros Ep Es Hrec. unfold end_of_iteration.
  assert (zlen p0 + 1 = zlen (p0 ++ [c])) as -> by zl. replace (zlen (c :: p) - 1) with (zlen p) by zl.
  destruct (Z.eqb_spec (zlen s) 0) as [E|Hne]; [|by apply Hrec].
  apply zlen_0_inv in E as ->. destruct (split_stars p) as (n & q & -> & Hq).
  rewrite (skip_stars_spec q n); [|by rewrite Ep, <- (app_assoc (replicate n 42))|done|].
  - simpl. eexists. split; [done|]. rewrite glob_nil_r, andb_true_r, Forall_app.
    unfold zlen. rewrite length_app, length_replicate.
    replace (Z.of_nat (n + length q) - Z.of_nat n) with (Z.of_nat (length q)) by lia. split.
    + intros H. zbool. destruct q; [|simpl in H; lia]. split; [by apply Forall_replicate|constructor].
    + intros [_ Hf]. destruct q as [|x q]; [done|]. apply Forall_cons in Hf as [-> _]. done.
  - rewrite Ep, !length_app, length_replicate. simpl. lia.
Qed.

Lemma star_loop_spec rec q s : forall fuel s0,
  sm = s0 ++ s ++ [0] -> (length s < fuel)%nat ->
  (forall s0 s, sm = s0 ++ s ++ [0] -> s <> [] -> decides (rec (zlen s0) (zlen s)) (glob nocase q s)) ->
  decides (star_loop rec fuel (zlen s0) (zlen s)) (exists s1 s2, s = s1 ++ s2 /\ s2 <> [] /\ glob nocase q s2).
Proof.
  induction s as [|d s IH]; intros [|fuel] s0 Es Hf Hrec; simpl in Hf; try lia; cbn [star_loop].
  { eexists. split; [done|]. split; [done|]. intros (s1 & s2 & E & Hne & _). symmetry in E. by apply app_nil in E as [_ ->]. }
  pose proof (zlen_nonneg s). destruct (Z.eqb_spec (zlen (d :: s)) 0) as [E|_]; [zl|].
  destruct (Hrec s0 (d :: s) Es ltac:(done)) as (b & -> & Hb). simpl. destruct b.
  - eexists. split; [done|]. split; [|done]. intros _. exists [], (d :: s). split_and!; [done|done|by apply Hb].
  - rewrite zlen_cons, Z.add_simpl_r. assert (zlen s0 + 1 = zlen (s0 ++ [d])) as -> by zl.
    eapply decides_iff; [|apply IH; [by rewrite Es, <- app_assoc|lia|done]]. split.
    + intros (s1 & s2 & -> & Hne & Hg). by exists (d :: s1), s2.
    + intros (s1 & s2 & E & Hne & Hg). destruct s1 as [|x s1]; simplify_eq/=; [|by exists s1, s2].
      apply Hb in Hg. done.
Qed.

(** The [default] case on a byte that is not special or is escaped. *)
Lemma match_literal_spec rec p0 c p s0 s :
  pm = p0 ++ c :: p ++ [0] -> sm = s0 ++ s ++ [0] -> c <> 0 -> in_u 8 c -> rec_ok rec (p0 ++ [c]) p ->
  decides (match_literal nocase pm sm rec (zlen p0) (zlen (c :: p)) (zlen s0) (zlen s))
    (exists d s', s = d :: s' /\ eq_char nocase c d = true /\ glob nocase p s').
Proof.
  intros Ep Es Hc Hc8 Hrec. unfold match_literal. rewrite Ep, zidx_app by done. simpl.
  assert (pm = (p0 ++ [c]) ++ p ++ [0]) as Ep' by (by rewrite Ep, <- app_assoc).
  destruct s as [|d s].
  - rewrite Es. simpl. rewrite zidx_app by done. simpl. rewrite eq_char_0 by done. simpl.
    eexists. split; [done|]. split; [done|]. by intros (d & s' & ? & _).
  - rewrite Es. simpl. rewrite zidx_app by done. simpl. rewrite <- Ep.
    destruct (eq_char nocase c d) eqn:Ee; simpl.
    + replace (zlen (d :: s) - 1) with (zlen s) by zl. assert (zlen s0 + 1 = zlen (s0 ++ [d])) as -> by zl.
      eapply decides_iff; [|apply end_of_iteration_spec; [done|by rewrite Es, <- app_assoc|done]]. split.
      * intros Hg. by exists d, s.
      * by intros (d' & s' & [= <- <-] & _ & Hg).
    + eexists. split; [done|]. split; [done|]. intros (d' & s' & [= <- <-] & E & _). congruence.
Qed.

Lemma decides_false P : ~ P -> decides (Some false) P.
Proof. intros Hn. exists false. split; [done|]. split; [done|by intros ?%Hn]. Qed.

(** The star case: the code tries every suffix but the empty one. *)
Lemma star_case q n s :
  head q <> Some 42 -> q <> [] ->
  (exists s1 s2, s = s1 ++ s2 /\ s2 <> [] /\ glob nocase q s2) <-> glob nocase (replicate (S n) 42 ++ q) s.
Proof.
  intros Hq Hne. rewrite glob_stars. split; [naive_solver|]. intros (s1 & s2 & -> & Hg). exists s1, s2.
  split_and!; [done| |done]. intros ->. apply glob_nil_r in Hg. destruct q as [|c q]; [done|].
  apply Forall_cons in Hg as [-> _]. by apply Hq.
Qed.

Lemma match_loop_spec fuel : forall p0 p,
  Forall plain p -> (length p < fuel)%nat -> rec_ok (match_loop nocase pm sm fuel) p0 p.
Proof.
  induction fuel as [|fuel IH]; intros p0 p Hp Hf Ep s0 s Es; [lia|]. cbn [match_loop].
  destruct p as [|c p].
  { destruct (Z.eqb_spec (zlen (@nil Z)) 0) as [_|?]; [|done]. eexists. split; [done|].
    rewrite andb_true_l, Z.eqb_eq. split; [intros ->%zlen_0_inv; constructor|]. by inversion 1. }
  destruct (Z.eqb_spec (zlen (c :: p)) 0) as [E|_]; [zl; pose proof (zlen_nonneg p); lia|].
  apply Forall_cons in Hp as [(Hc0 & Hc91 & Hc8) Hp]. simpl in Hf.
  assert (zidx pm (zlen p0) = Some c) as -> by (rewrite Ep; by apply zidx_app). cbn [mbind option_bind].
  assert (rec_ok (match_loop nocase pm sm fuel) (p0 ++ [c]) p) as Hrec by (apply IH; [done|lia]).
  assert (pm = (p0 ++ [c]) ++ p ++ [0]) as Ep' by (by rewrite Ep, <- app_assoc).
  destruct (Z.eqb_spec c 42) as [->|Hc42]; [|destruct (Z.eqb_spec c 63) as [->|Hc63]; [|rewrite (proj2 (Z.eqb_neq c 91)) by done]].
  - clear Hrec. destruct (split_stars p) as (n & q & -> & Hq).
    rewrite (skip_next_stars_spec q n); [|by rewrite Ep; simpl; rewrite <- app_assoc|done|].
    2: { rewrite Ep, !length_app. simpl. rewrite !length_app, length_replicate. lia. }
    assert (zlen (replicate n 42 : list Z) = Z.of_nat n) as Hn by (unfold zlen; by rewrite length_replicate).
    cbn [mbind option_bind]. rewrite zlen_cons, zlen_app, Hn. replace (Z.of_nat n + zlen q + 1 - Z.of_nat n) with (zlen q + 1) by lia.
    destruct q as [|x q].
    + rewrite (@zlen_nil Z). simpl. exists true. split; [done|]. split; [|done]. intros _.
      change (glob nocase (replicate (S n) 42 ++ []) s). apply glob_stars. exists s, []. by rewrite app_nil_r; split; [|constructor].
    + destruct (Z.eqb_spec (zlen (x :: q) + 1) 1) as [E|_]; [zl; pose proof (zlen_nonneg q); lia|].
      rewrite Z.add_simpl_r.
      assert (zlen p0 + Z.of_nat n + 1 = zlen (p0 ++ 42 :: replicate n 42)) as -> by zl.
      eapply decides_iff; [by apply (star_case (x :: q) n)|].
      apply star_loop_spec; [done|rewrite Es, !length_app; simpl; lia|].
      intros s0' s' Es' _. apply Forall_app in Hp as [_ Hp].
      apply (IH (p0 ++ 42 :: replicate n 42) (x :: q)); [done|rewrite length_app in Hf; simpl in *; lia| |done].
      rewrite Ep, <- !app_assoc. simpl. by rewrite <- !app_assoc.
  - destruct s as [|d s].
    + apply decides_false. intros Hg. inversion Hg.
    + destruct (Z.eqb_spec (zlen (d :: s)) 0) as [E|_]; [zl; pose proof (zlen_nonneg s); lia|].
      replace (zlen (d :: s) - 1) with (zlen s) by zl. assert (zlen s0 + 1 = zlen (s0 ++ [d])) as -> by zl.
      eapply decides_iff; [|eapply end_of_iteration_spec; [done|by rewrite Es, <- app_assoc|done]].
      split; [by constructor|]. intros Hg. by inversion Hg; subst.
  - destruct (_ && _) eqn:Hesc.
    + apply andb_true_iff in Hesc as [Hc Hl]. zbool. subst c.
      destruct p as [|c p]; [rewrite zlen_cons, (@zlen_nil Z) in Hl; lia|].
      apply Forall_cons in Hp as [(Hd0 & _ & Hd8) Hp]. simpl in Hf.
      replace (zlen (92 :: c :: p) - 1) with (zlen (c :: p)) by zl. assert (zlen p0 + 1 = zlen (p0 ++ [92])) as -> by zl.
      eapply decides_iff; [|eapply match_literal_spec; [exact Ep'|done|done|done|apply IH; [done|lia]]].
      split.
      * intros (d & s' & -> & He & Hg). by apply glob_escape.
      * intros Hg. inversion Hg as [| | |? ? ? ? He Hg'|? ? ? ? _ _ Hnil]; subst; [by eexists _, _|]. by specialize (Hnil eq_refl).
    + eapply decides_iff; [|eapply match_literal_spec; [done|done|done|done|done]]. split.
      * intros (d & s' & -> & He & Hg). apply glob_literal; try done. intros ->.
        destruct p as [|x p]; [done|]. rewrite Z.eqb_refl, Z.geb_leb in Hesc. simpl in Hesc. zbool. zl. pose proof (zlen_nonneg p). lia.
      * intros Hg. inversion Hg; subst; try done; [|by eexists _, _].
        rewrite Z.geb_leb in Hesc. simpl in Hesc. zbool. zl. pose proof (zlen_nonneg p1). lia.
Qed.
End correct.

(** ** Properties *)

(** C40 On patterns without NUL bytes and without opening square brackets ([plain]), [stringmatchlen] always returns,
    never reads outside the two strings, and accepts exactly the strings the
    pattern denotes, with or without case folding. Classes of characters are excluded, since the code consumes a character
    for a class also at the end of the string. *)
Theorem stringmatchlen_glob pattern string nocase :
  Forall plain pattern ->
  exists b, stringmatchlen pattern string nocase = Some b /\ (b = true <-> glob nocase pattern string).
Proof.
  intros Hp.
  exact (match_loop_spec nocase (pattern ++ [0]) (string ++ [0]) (S (length pattern)) [] pattern Hp
    (Nat.lt_succ_diag_r _) eq_refl [] string eq_refl).
Qed.

(** The pattern "h?l*o" and the string "HELLO". *)
Lemma stringmatchlen_glob_witness :
  exists b, stringmatchlen [104; 63; 108; 42; 111] [72; 69; 76; 76; 79] true = Some b /\
    (b = true <-> glob true [104; 63; 108; 42; 111] [72; 69; 76; 76; 79]).
Proof. apply stringmatchlen_glob. repeat constructor; lia. Defined.

(** After a class the end of the string is not checked: the pattern "[^a]" followed
    by a star matches the empty string, and with one more byte after the star the
    search for it reads past the end of the string. *)
Theorem stringmatchlen_class_overruns :
  stringmatchlen [91; 94; 97; 93; 42] [] false = Some true /\
  stringmatchlen [91; 94; 97; 93; 42; 98] [] false = None.
Proof. split; vm_compute; reflexivity. Qed.
