(* ===== verification/Bitops.v ===== *)
(** * Bitmaps: the bit functions of bitops.c

    [redisPopcount], [redisBitpos] and the bit field accessors of bitops.c, on the
    bytes of a string, and the overflow checks of BITFIELD. The abstract view of
    the bytes is the list of their bits, the most significant bit of the first byte
    first ([bits_of]); counting, searching, reading and writing a field are then
    list operations. *)

From S2P Require Import Prelude Endian Util.

(** [v << n] on [uint64_t]: undefined when [n] is not below the width. *)
Definition shl64 (v n : Z) : option Z :=
  if (0 <=? n) && (n <? 64) then Some (wrapu 64 (Z.shiftl v n)) else None.

(** ** Counting the bits *)

Definition bitsinbyte : list Z :=
  [
   0; 1; 1; 2; 1; 2; 2; 3; 1; 2; 2; 3; 2; 3; 3; 4; 1; 2; 2; 3; 2; 3; 3; 4; 2; 3; 3; 4; 3; 4; 4; 5;
   1; 2; 2; 3; 2; 3; 3; 4; 2; 3; 3; 4; 3; 4; 4; 5; 2; 3; 3; 4; 3; 4; 4; 5; 3; 4; 4; 5; 4; 5; 5; 6;
   1; 2; 2; 3; 2; 3; 3; 4; 2; 3; 3; 4; 3; 4; 4; 5; 2; 3; 3; 4; 3; 4; 4; 5; 3; 4; 4; 5; 4; 5; 5; 6;
   2; 3; 3; 4; 3; 4; 4; 5; 3; 4; 4; 5; 4; 5; 5; 6; 3; 4; 4; 5; 4; 5; 5; 6; 4; 5; 5; 6; 5; 6; 6; 7;
   1; 2; 2; 3; 2; 3; 3; 4; 2; 3; 3; 4; 3; 4; 4; 5; 2; 3; 3; 4; 3; 4; 4; 5; 3; 4; 4; 5; 4; 5; 5; 6;
   2; 3; 3; 4; 3; 4; 4; 5; 3; 4; 4; 5; 4; 5; 5; 6; 3; 4; 4; 5; 4; 5; 5; 6; 4; 5; 5; 6; 5; 6; 6; 7;
   2; 3; 3; 4; 3; 4; 4; 5; 3; 4; 4; 5; 4; 5; 5; 6; 3; 4; 4; 5; 4; 5; 5; 6; 4; 5; 5; 6; 5; 6; 6; 7;
   3; 4; 4; 5; 4; 5; 5; 6; 4; 5; 5; 6; 5; 6; 6; 7; 4; 5; 5; 6; 5; 6; 6; 7; 5; 6; 6; 7; 6; 7; 7; 8].

(** The uses of [aux] in the loop over 28 bytes: the counts of the pairs and then
    of the nibbles of a 32-bit word. *)
Definition count_nibbles (aux : Z) : Z :=
  let aux := wrapu 32 (aux - Z.land (Z.shiftr aux 1) 0x55555555) in
  wrapu 32 (Z.land aux 0x33333333 + Z.land (Z.shiftr aux 2) 0x33333333).

(** [(aux + (aux >> 4)) & 0x0F0F0F0F]. *)
Definition count_bytes (aux : Z) : Z :=
  Z.land (wrapu 32 (aux + Z.shiftr aux 4)) 0x0F0F0F0F.

(** [while((unsigned long)p & 3 && count)]: [p] is the address, [mem] the bytes
    from it on. *)
Fixpoint pop_unaligned (fuel : nat) (p : Z) (mem : list Z) (count bits : Z) : option (list Z * Z * Z) :=
  match fuel with
  | O => None
  | S fuel =>
      if negb (Z.land p 3 =? 0) && negb (count =? 0) then
        match mem with
        | [] => None
        | b :: mem =>
            n ← zidx bitsinbyte b;
            pop_unaligned fuel (p + 1) mem (count - 1) (wrapu 64 (bits + n))
        end
      else Some (mem, count, bits)
  end.

(** [while(count--) bits += bitsinbyte[*p++];]. *)
Fixpoint pop_bytes (fuel : nat) (mem : list Z) (count bits : Z) : option Z :=
  match fuel with
  | O => None
  | S fuel =>
      if count =? 0 then Some bits
      else match mem with
           | [] => None
           | b :: mem => n ← zidx bitsinbyte b; pop_bytes fuel mem (count - 1) (wrapu 64 (bits + n))
           end
  end.

Section host.
Context `{Host}.

(** Reading a [uint32_t] and an [unsigned long] at an offset. *)
Definition load32 (mem : list Z) (off : Z) : option Z := host_uint <$> rd mem off 4.
Definition load64 (mem : list Z) (off : Z) : option Z := host_uint <$> rd mem off 8.

(** The loop over blocks of 28 bytes. *)
Fixpoint pop_blocks (fuel : nat) (mem : list Z) (count bits : Z) : option (list Z * Z * Z) :=
  match fuel with
  | O => None
  | S fuel =>
      if count <? 28 then Some (mem, count, bits) else
      aux1 ← load32 mem 0;
      aux2 ← load32 mem 4;
      aux3 ← load32 mem 8;
      aux4 ← load32 mem 12;
      aux5 ← load32 mem 16;
      aux6 ← load32 mem 20;
      aux7 ← load32 mem 24;
      let s := wrapu 32 (count_bytes (count_nibbles aux1) + count_bytes (count_nibbles aux2) +
                 count_bytes (count_nibbles aux3) + count_bytes (count_nibbles aux4) +
                 count_bytes (count_nibbles aux5) + count_bytes (count_nibbles aux6) +
                 count_bytes (count_nibbles aux7)) in
      let n := Z.shiftr (wrapu 32 (s * 0x01010101)) 24 in
      pop_blocks fuel (drop 28 mem) (count - 28) (wrapu 64 (bits + n))
  end.

(** [p] is the address of the string, [mem] the bytes from there on. *)
Definition redisPopcount (p : Z) (mem : list Z) (count : Z) : option Z :=
  let fuel := S (Z.to_nat count) in
  '(mem, count, bits) ← pop_unaligned fuel p mem count 0;
  '(mem, count, bits) ← pop_blocks fuel mem count bits;
  pop_bytes fuel mem count bits.

(** ** Searching a bit *)

Definition UCHAR_MAX : Z := 255.
Definition ULONG_MAX : Z := 2 ^ 64 - 1.

(** The bytes before the first aligned one; the last result is [found]. *)
Fixpoint pos_unaligned (fuel : nat) (skipval p : Z) (mem : list Z) (count pos : Z) : option (list Z * Z * Z * bool) :=
  match fuel with
  | O => None
  | S fuel =>
      if negb (Z.land p 7 =? 0) && negb (count =? 0) then
        match mem with
        | [] => None
        | c :: mem' =>
            if negb (c =? skipval) then Some (mem, count, pos, true)
            else pos_unaligned fuel skipval (p + 1) mem' (count - 1) (pos + 8)
        end
      else Some (mem, count, pos, false)
  end.

(** The loop that skips whole words. *)
Fixpoint pos_words (fuel : nat) (skipval : Z) (mem : list Z) (count pos : Z) : option (list Z * Z * Z) :=
  match fuel with
  | O => None
  | S fuel =>
      if count <? 8 then Some (mem, count, pos) else
      l ← load64 mem 0;
      if negb (l =? skipval) then Some (mem, count, pos)
      else pos_words fuel skipval (drop 8 mem) (count - 8) (pos + 64)
  end.

(** The [for] loop that loads the rest into [word], [j] rounds from the end. *)
Fixpoint load_word (j : nat) (mem : list Z) (count word : Z) : option Z :=
  match j with
  | O => Some word
  | S j =>
      let word := wrapu 64 (Z.shiftl word 8) in
      if count =? 0 then load_word j mem count word
      else match mem with
           | [] => None
           | c :: mem => load_word j mem (count - 1) (Z.lor word c)
           end
  end.

(** [while(one)]; running off the end is the [serverPanic]. *)
Fixpoint scan_word (fuel : nat) (one word bit pos : Z) : option Z :=
  match fuel with
  | O => None
  | S fuel =>
      if one =? 0 then None
      else if b2z (negb (Z.land one word =? 0)) =? bit then Some pos
      else scan_word fuel (Z.shiftr one 1) word bit (pos + 1)
  end.

Definition redisBitpos (p : Z) (mem : list Z) (count bit : Z) : option Z :=
  let fuel := S (Z.to_nat count) in
  let skipval := if negb (bit =? 0) then 0 else UCHAR_MAX in
  '(mem, count, pos, found) ← pos_unaligned fuel skipval p mem count 0;
  '(mem, count, pos) ←
    (if found : bool then Some (mem, count, pos)
     else pos_words fuel (if negb (bit =? 0) then 0 else ULONG_MAX) mem count pos);
  word ← load_word 8 mem count 0;
  if (bit =? 1) && (word =? 0) then Some (-1)
  else scan_word 65 (wrapu 64 (Z.lnot (Z.shiftr ULONG_MAX 1))) word bit pos.

End host.

(** ** Bit fields *)

(** The loop of [setUnsignedBitfield]: [n] rounds are left, [j] are done. *)
Fixpoint set_loop (n : nat) (p : list Z) (offset bits value j : Z) : option (list Z) :=
  match n with
  | O => Some p
  | S n =>
      mask ← shl64 1 (bits - 1 - j);
      let bitval := b2z (negb (Z.land value mask =? 0)) in
      let byte := Z.shiftr offset 3 in
      let bit := 7 - Z.land offset 0x7 in
      byteval ← zidx p byte;
      let byteval := Z.land byteval (Z.lnot (Z.shiftl 1 bit)) in
      let byteval := Z.lor byteval (Z.shiftl bitval bit) in
      p ← wr p byte [Z.land byteval 0xff];
      set_loop n p (wrapu 64 (offset + 1)) bits value (j + 1)
  end.

Definition setUnsignedBitfield (p : list Z) (offset bits value : Z) : option (list Z) :=
  set_loop (Z.to_nat bits) p offset bits value 0.

Definition setSignedBitfield (p : list Z) (offset bits value : Z) : option (list Z) :=
  let uv := wrapu 64 value in
  setUnsignedBitfield p offset bits uv.

Fixpoint get_loop (n : nat) (p : list Z) (offset value : Z) : option Z :=
  match n with
  | O => Some value
  | S n =>
      let byte := Z.shiftr offset 3 in
      let bit := 7 - Z.land offset 0x7 in
      byteval ← zidx p byte;
      let bitval := Z.land (Z.shiftr byteval bit) 1 in
      get_loop n p (wrapu 64 (offset + 1)) (Z.lor (wrapu 64 (Z.shiftl value 1)) bitval)
  end.

Definition getUnsignedBitfield (p : list Z) (offset bits : Z) : option Z :=
  get_loop (Z.to_nat bits) p offset 0.

Definition getSignedBitfield (p : list Z) (offset bits : Z) : option Z :=
  u ← getUnsignedBitfield p offset bits;
  let value := wraps 64 u in
  msb ← shl64 1 (bits - 1);
  if negb (Z.land (wrapu 64 value) msb =? 0) then
    ext ← shl64 (wrapu 64 (-1)) bits;
    Some (wraps 64 (Z.lor (wrapu 64 value) ext))
  else Some value.

(** ** Overflow checks *)

Inductive bfoverflow : Type := BFOVERFLOW_WRAP | BFOVERFLOW_SAT | BFOVERFLOW_FAIL.

#[global] Instance bfoverflow_eq_dec : EqDecision bfoverflow.
Proof. solve_decision. Defined.

(** The label [handle_wrap] of the unsigned check. *)
Definition unsigned_wrap (value incr bits : Z) : option Z :=
  mask ← shl64 (wrapu 64 (-1)) bits;
  let res := wrapu 64 (value + incr) in
  Some (Z.land res (wrapu 64 (Z.lnot mask))).

(** The result and the value stored in [*limit], [None] where nothing is stored;
    the callers always pass a [limit]. *)
Definition checkUnsignedBitfieldOverflow (value incr bits : Z) (owtype : bfoverflow) : option (Z * option Z) :=
  max ← (if bits =? 64 then Some (2 ^ 64 - 1) else m ← shl64 1 bits; Some (wrapu 64 (m - 1)));
  let maxincr := wraps 64 (max - value) in
  let minincr := wraps 64 (- value) in
  if (value >? max) || ((incr >? 0) && (incr >? maxincr)) then
    match owtype with
    | BFOVERFLOW_WRAP => res ← unsigned_wrap value incr bits; Some (1, Some res)
    | BFOVERFLOW_SAT => Some (1, Some max)
    | BFOVERFLOW_FAIL => Some (1, None)
    end
  else if (incr <? 0) && (incr <? minincr) then
    match owtype with
    | BFOVERFLOW_WRAP => res ← unsigned_wrap value incr bits; Some (1, Some res)
    | BFOVERFLOW_SAT => Some (-1, Some 0)
    | BFOVERFLOW_FAIL => Some (-1, None)
    end
  else Some (0, None).

(** The label [handle_wrap] of the signed check. *)
Definition signed_wrap (value incr bits : Z) : option Z :=
  mask ← shl64 (wrapu 64 (-1)) bits;
  msb ← shl64 1 (bits - 1);
  let c := wrapu 64 (wrapu 64 value + wrapu 64 incr) in
  let c := if negb (Z.land c msb =? 0) then Z.lor c mask
           else Z.land c (wrapu 64 (Z.lnot mask)) in
  Some (wraps 64 c).

(** A sum or a difference of the type [int64_t]. *)
Definition int64_arith (v : Z) : option Z := if (LLONG_MIN <=? v) && (v <=? LLONG_MAX) then Some v else None.

(** The differences [maxincr] and [minincr] are computed before the range of [value] is tested, and may overflow. *)
Definition checkSignedBitfieldOverflow (value incr bits : Z) (owtype : bfoverflow) : option (Z * option Z) :=
  max ← (if bits =? 64 then Some (2 ^ 63 - 1) else m ← shl64 1 (bits - 1); Some (wraps 64 (m - 1)));
  let min := - max - 1 in
  maxincr ← int64_arith (max - value);
  minincr ← int64_arith (min - value);
  if (value >? max) || (negb (bits =? 64) && (incr >? maxincr)) ||
     ((value >=? 0) && (incr >? 0) && (incr >? maxincr)) then
    match owtype with
    | BFOVERFLOW_WRAP => res ← signed_wrap value incr bits; Some (1, Some res)
    | BFOVERFLOW_SAT => Some (1, Some max)
    | BFOVERFLOW_FAIL => Some (1, None)
    end
  else if (value <? min) || (negb (bits =? 64) && (incr <? minincr)) ||
     ((value <? 0) && (incr <? 0) && (incr <? minincr)) then
    match owtype with
    | BFOVERFLOW_WRAP => res ← signed_wrap value incr bits; Some (1, Some res)
    | BFOVERFLOW_SAT => Some (-1, Some min)
    | BFOVERFLOW_FAIL => Some (-1, None)
    end
  else Some (0, None).

(** ** The bits of a string *)

Definition bits_of_byte (b : Z) : list bool := (fun i => Z.testbit b (7 - i)) <$> seqZ 0 8.

Definition bits_of (p : list Z) : list bool := p ≫= bits_of_byte.

(** The number a list of bits denotes, and the [n] low bits of a number. *)
Definition bval (l : list bool) : Z := fold_left (fun v b => 2 * v + b2z b) l 0.
Definition bits_be (n v : Z) : list bool := (fun i => Z.testbit v (n - 1 - i)) <$> seqZ 0 n.

Lemma length_bits_of_byte b : length (bits_of_byte b) = 8%nat.
Proof. reflexivity. Qed.

Lemma bits_of_nil : bits_of [] = [].
Proof. reflexivity. Qed.

Lemma bits_of_cons b p : bits_of (b :: p) = bits_of_byte b ++ bits_of p.
Proof. reflexivity. Qed.

Lemma bits_of_app a b : bits_of (a ++ b) = bits_of a ++ bits_of b.
Proof. apply bind_app. Qed.

Lemma zlen_bits_of p : zlen (bits_of p) = 8 * zlen p.
Proof.
  induction p as [|b p IH]; [done|]. rewrite bits_of_cons. zl. rewrite IH.
  change (zlen (bits_of_byte b)) with 8. lia.
Qed.
#[export] Hint Rewrite zlen_bits_of : zlen.

Lemma byte_lookup b k : 0 <= k < 8 -> bits_of_byte b !! Z.to_nat k = Some (Z.testbit b (7 - k)).
Proof.
  intros Hk. unfold bits_of_byte. rewrite list_lookup_fmap.
  assert (k = 0 \/ k = 1 \/ k = 2 \/ k = 3 \/ k = 4 \/ k = 5 \/ k = 6 \/ k = 7) as Hc by lia.
  by decompose [or] Hc; subst k.
Qed.

(** The byte that holds bit [off], and its place among the bits. *)
Lemma bits_split p off :
  0 <= off < 8 * zlen p ->
  exists a b c, p = a ++ b :: c /\ zlen a = off / 8 /\
    zidx p (Z.shiftr off 3) = Some b /\
    bits_of p = bits_of a ++ bits_of_byte b ++ bits_of c.
Proof.
  intros Hoff. pose proof (Z.div_mod off 8 ltac:(lia)). pose proof (Z.mod_pos_bound off 8 ltac:(lia)).
  destruct (zidx_is_Some p (off / 8)) as [b Hb]; [lia|].
  pose proof Hb as (a & c & -> & Ha)%zidx_Some_split. exists a, b, c. split_and!; [done|done| |].
  - by rewrite Z.shiftr_div_pow2 by lia.
  - by rewrite bits_of_app, bits_of_cons.
Qed.

Lemma land_7 off : Z.land off 0x7 = off mod 8.
Proof. change 7 with (Z.ones 3). by rewrite Z.land_ones by lia. Qed.

Lemma land_shiftr_1 b k : 0 <= k -> Z.land (Z.shiftr b k) 1 = b2z (Z.testbit b k).
Proof.
  intros Hk. change 1 with (Z.ones 1) at 1. rewrite Z.land_ones, Z.shiftr_div_pow2 by lia.
  symmetry. by apply Z.testbit_spec'.
Qed.

(** The place of bit [off] in the list of bits: after those of the bytes before. *)
Lemma bits_index p off a b c :
  0 <= off -> zlen a = off / 8 -> bits_of p = bits_of a ++ bits_of_byte b ++ bits_of c ->
  bits_of p !! Z.to_nat off = Some (Z.testbit b (7 - Z.land off 0x7)).
Proof.
  intros Hoff Ha ->. pose proof (Z.div_mod off 8 ltac:(lia)). pose proof (Z.mod_pos_bound off 8 ltac:(lia)).
  assert (length (bits_of a) = Z.to_nat (8 * (off / 8))) as Hl.
  { pose proof (zlen_bits_of a). unfold zlen in *. lia. }
  rewrite lookup_app_r by lia. rewrite lookup_app_l by (rewrite length_bits_of_byte; lia).
  rewrite Hl. replace (Z.to_nat off - _)%nat with (Z.to_nat (off mod 8)) by lia.
  by rewrite byte_lookup, land_7 by lia.
Qed.

Lemma bit_read p off :
  0 <= off < 8 * zlen p ->
  exists b byteval, bits_of p !! Z.to_nat off = Some b /\
    zidx p (Z.shiftr off 3) = Some byteval /\
    Z.land (Z.shiftr byteval (7 - Z.land off 0x7)) 1 = b2z b.
Proof.
  intros Hoff. destruct (bits_split p off Hoff) as (a & b & c & _ & Ha & Hb & Hp).
  pose proof (Z.mod_pos_bound off 8 ltac:(lia)).
  eexists _, b. split_and!; [by eapply bits_index; [lia|..]|done|].
  apply land_shiftr_1. rewrite land_7. lia.
Qed.

(** ** Reading a field *)

Lemma bval_snoc l b : bval (l ++ [b]) = 2 * bval l + b2z b.
Proof. unfold bval. by rewrite fold_left_app. Qed.

Lemma b2z_range b : 0 <= b2z b < 2.
Proof. destruct b; simpl; lia. Qed.

Lemma bval_range l : in_u (zlen l) (bval l).
Proof.
  induction l as [|b l IH] using rev_ind; [by split|].
  rewrite bval_snoc. unfold in_u in *. zl. pose proof (zlen_nonneg l). pose proof (b2z_range b).
  rewrite Z.pow_add_r by lia. change (2 ^ (0 + 1)) with 2. lia.
Qed.

Lemma take_S_drop {A} (l : list A) n k x :
  l !! n = Some x -> take (S k) (drop n l) = x :: take k (drop (S n) l).
Proof. intros Hx. by rewrite (drop_S l x n Hx). Qed.

Lemma lor_double v b : Z.lor (2 * v) (b2z b) = 2 * v + b2z b.
Proof.
  destruct b; simpl b2z; [|by rewrite Z.lor_0_r, Z.add_0_r].
  destruct v as [|v|v]; [done|done|]. by destruct v.
Qed.

Lemma get_loop_spec n p off l :
  0 <= off -> off + Z.of_nat n <= 8 * zlen p -> 8 * zlen p < 2 ^ 64 -> zlen l + Z.of_nat n <= 64 ->
  get_loop n p off (bval l) = Some (bval (l ++ take n (drop (Z.to_nat off) (bits_of p)))).
Proof.
  revert off l. induction n as [|n IH]; intros off l Hoff Hn Hp Hl.
  { by rewrite take_0, app_nil_r. }
  cbn [get_loop]. destruct (bit_read p off ltac:(lia)) as (b & bv & Hb & -> & Hv).
  cbn [mbind option_bind]. rewrite Hv.
  assert (wrapu 64 (Z.shiftl (bval l) 1) = 2 * bval l) as ->.
  { rewrite Z.shiftl_mul_pow2, wrapu_small by lia || (
      pose proof (bval_range l) as [? ?]; split; [lia|];
      pose proof (Z.pow_le_mono_r 2 (zlen l) 63); lia). lia. }
  rewrite lor_double, <- bval_snoc, wrapu_small by (split; lia).
  rewrite IH by zl. rewrite <- app_assoc. simpl.
  erewrite take_S_drop by done. by replace (S (Z.to_nat off)) with (Z.to_nat (off + 1)) by lia.
Qed.

(** The field of [bits] bits at [off]. *)
Definition field (p : list Z) (off bits : Z) : list bool :=
  take (Z.to_nat bits) (drop (Z.to_nat off) (bits_of p)).

(** The field lies inside the string, whose bits a [uint64_t] can number. *)
Definition field_ok (p : list Z) (off bits : Z) : Prop :=
  0 <= off /\ 0 < bits <= 64 /\ off + bits <= 8 * zlen p < 2 ^ 64.

Lemma zlen_field p off bits : field_ok p off bits -> zlen (field p off bits) = bits.
Proof.
  intros (? & ? & ?). pose proof (zlen_bits_of p). unfold field, zlen in *.
  rewrite length_take, length_drop. lia.
Qed.

Lemma getUnsigned_spec p off bits :
  field_ok p off bits -> getUnsignedBitfield p off bits = Some (bval (field p off bits)).
Proof.
  intros (? & ? & ?). unfold getUnsignedBitfield. change 0 with (bval []).
  rewrite get_loop_spec; [done|..]; rewrite ?(@zlen_nil bool); lia.
Qed.

(** ** Writing a field *)

Definition set_bit_of (byteval : Z) (bit : Z) (bv : bool) : Z :=
  Z.land (Z.lor (Z.land byteval (Z.lnot (Z.shiftl 1 bit))) (Z.shiftl (b2z bv) bit)) 0xff.

Lemma set_bit_of_spec b k bv :
  in_u 8 b -> 0 <= k < 8 ->
  in_u 8 (set_bit_of b (7 - k) bv) /\
  bits_of_byte (set_bit_of b (7 - k) bv) = <[Z.to_nat k := bv]> (bits_of_byte b).
Proof.
  intros Hb Hk.
  assert (forallb (fun b => forallb (fun k => forallb (fun bv =>
     bool_decide (in_u 8 (set_bit_of b (7 - k) bv)) &&
     bool_decide (bits_of_byte (set_bit_of b (7 - k) bv) = <[Z.to_nat k := bv]> (bits_of_byte b)))
     [true; false]) (seqZ 0 8)) (seqZ 0 256) = true) as HP by (vm_compute; reflexivity).
  apply (fun H => byte_check _ b H Hb) in HP.
  cbv beta in HP. rewrite forallb_forall in HP.
  specialize (HP k ltac:(apply list_elem_of_In, elem_of_seqZ; lia)). rewrite forallb_forall in HP.
  specialize (HP bv ltac:(destruct bv; simpl; auto)). zbool.
  split; by eapply bool_decide_eq_true_1.
Qed.

Lemma bit_write p off bv :
  bytes_ok p -> 0 <= off < 8 * zlen p ->
  exists byteval p', zidx p (Z.shiftr off 3) = Some byteval /\
    wr p (Z.shiftr off 3) [set_bit_of byteval (7 - Z.land off 0x7) bv] = Some p' /\
    bytes_ok p' /\ zlen p' = zlen p /\ bits_of p' = <[Z.to_nat off := bv]> (bits_of p).
Proof.
  intros Hp Hoff. destruct (bits_split p off Hoff) as (a & b & c & -> & Ha & Hb & _).
  pose proof (Z.div_mod off 8 ltac:(lia)). pose proof (Z.mod_pos_bound off 8 ltac:(lia)) as Hm.
  rewrite Forall_app, Forall_cons in Hp. destruct Hp as (Hpa & Hpb & Hpc).
  destruct (set_bit_of_spec b (off mod 8) bv Hpb Hm) as [Hr Hbits].
  rewrite <- land_7 in Hr, Hbits. set (b' := set_bit_of _ _ _) in *.
  exists b, (a ++ b' :: c). split_and!.
  - done.
  - apply (wr_app a [b] [b'] c); [|done]. by rewrite Z.shiftr_div_pow2 by lia.
  - rewrite Forall_app, Forall_cons. by split_and!.
  - zl.
  - assert (length (bits_of a) = Z.to_nat (8 * (off / 8))) as Hl.
    { pose proof (zlen_bits_of a). unfold zlen in *. lia. }
    rewrite !bits_of_app, !bits_of_cons, Hbits, land_7, insert_app_r_alt by lia. f_equal.
    rewrite Hl. replace (Z.to_nat off - _)%nat with (Z.to_nat (off mod 8)) by lia.
    by rewrite insert_app_l by (rewrite length_bits_of_byte; lia).
Qed.

Lemma shl64_1 k : 0 <= k < 64 -> shl64 1 k = Some (2 ^ k).
Proof.
  intros Hk. unfold shl64. case_if; [|zbool; lia].
  rewrite Z.shiftl_1_l, wrapu_small; [done|]. split; [apply Z.pow_nonneg; lia|].
  apply Z.pow_lt_mono_r; lia.
Qed.

Lemma land_pow2 v k : 0 <= k -> (Z.land v (2 ^ k) =? 0) = negb (Z.testbit v k).
Proof.
  intros Hk. destruct (Z.testbit v k) eqn:E; simpl.
  - apply Z.eqb_neq. intros H0. apply (f_equal (fun z => Z.testbit z k)) in H0.
    by rewrite Z.land_spec, E, Z.pow2_bits_true, Z.bits_0 in H0 by lia.
  - apply Z.eqb_eq, Z.bits_inj'. intros i Hi. rewrite Z.land_spec, Z.bits_0.
    destruct (Z.eq_dec i k) as [->|Hne]; [by rewrite E|].
    by rewrite Z.pow2_bits_false, andb_false_r by lia.
Qed.

(** Replacing the bits from [off] on by [new]. *)
Definition splice (l : list bool) (off : Z) (new : list bool) : list bool :=
  take (Z.to_nat off) l ++ new ++ drop (Z.to_nat (off + zlen new)) l.

Lemma splice_cons l off b new :
  0 <= off < zlen l -> splice (<[Z.to_nat off := b]> l) (off + 1) new = splice l off (b :: new).
Proof.
  intros Hoff. pose proof (zlen_nonneg new). unfold splice. rewrite drop_insert_lt by lia. zl.
  replace (Z.to_nat (off + 1)) with (S (Z.to_nat off)) by lia.
  erewrite take_S_r by (apply list_lookup_insert_eq; unfold zlen in *; lia).
  rewrite take_insert_ge by lia. rewrite <- app_assoc. simpl. by replace (off + (zlen new + 1)) with (off + 1 + zlen new) by lia.
Qed.

Lemma set_loop_spec n p off bits value j :
  bytes_ok p -> 0 <= off -> off + Z.of_nat n <= 8 * zlen p -> 8 * zlen p < 2 ^ 64 ->
  Z.of_nat n = bits - j -> 0 <= j -> bits <= 64 ->
  exists p', set_loop n p off bits value j = Some p' /\ bytes_ok p' /\ zlen p' = zlen p /\
    bits_of p' = splice (bits_of p) off ((fun i => Z.testbit value (bits - 1 - i)) <$> seqZ j (Z.of_nat n)).
Proof.
  revert p off j. induction n as [|n IH]; intros p off j Hp Hoff Hn Hlen Hj Hj0 Hbits.
  { exists p. split_and!; [done..|]. unfold splice. simpl. rewrite Z.add_0_r. by rewrite take_drop. }
  cbn [set_loop]. rewrite shl64_1 by lia. cbn [mbind option_bind].
  rewrite land_pow2, negb_involutive by lia. set (bv := Z.testbit value _).
  destruct (bit_write p off bv Hp ltac:(lia)) as (b & p1 & -> & Hw & Hp1 & Hl1 & Hb1).
  cbn [mbind option_bind]. unfold set_bit_of in Hw. rewrite Hw. cbn [mbind option_bind].
  rewrite wrapu_small by (split; lia).
  destruct (IH p1 (off + 1) (j + 1)) as (p' & -> & Hp' & Hl' & Hb'); [done|lia..|].
  exists p'. split_and!; [done|done|lia|].
  rewrite Hb', Hb1, splice_cons by (rewrite zlen_bits_of; lia).
  rewrite (seqZ_cons j) by lia. cbn. fold bv. by replace (Z.pred (Z.of_nat (S n))) with (Z.of_nat n) by lia.
Qed.

Lemma zlen_bits_be n v : 0 <= n -> zlen (bits_be n v) = n.
Proof. intros. unfold bits_be, zlen. rewrite length_fmap, length_seqZ. lia. Qed.

Lemma setUnsigned_spec p off bits value :
  bytes_ok p -> field_ok p off bits ->
  exists p', setUnsignedBitfield p off bits value = Some p' /\ bytes_ok p' /\ zlen p' = zlen p /\
    bits_of p' = splice (bits_of p) off (bits_be bits value).
Proof.
  intros Hp (? & ? & ?). destruct (set_loop_spec (Z.to_nat bits) p off bits value 0)
    as (p' & E & ? & ? & Hb); [done|lia..|].
  exists p'. split_and!; [done..|]. rewrite Hb. unfold bits_be. by rewrite Z2Nat.id by lia.
Qed.

(** ** The field read after a write *)

Lemma bits_be_bval n v : 0 <= n -> bval (bits_be n v) = wrapu n v.
Proof.
  intros Hn. revert v. pattern n. apply natlike_ind; [|clear n Hn|done].
  { intros v. unfold wrapu. by rewrite Z.mod_1_r. }
  intros n Hn IH v. 
  assert (bits_be (Z.succ n) v = bits_be n (v / 2) ++ [Z.testbit v 0]) as ->.
  { unfold bits_be. rewrite <- Z.add_1_r, seqZ_app, fmap_app by lia. f_equal.
    - apply list_fmap_ext. intros i x Hi%lookup_seqZ. change 2 with (2 ^ 1). rewrite Z.div_pow2_bits by lia. f_equal. lia.
    - rewrite seqZ_cons, seqZ_nil by lia. cbn [fmap list_fmap]. by replace (_ - _ - _) with 0 by lia. }
  rewrite bval_snoc, IH. unfold wrapu. rewrite Z.pow_succ_r by lia.
  pose proof (pow2_pos n Hn). rewrite Z.rem_mul_r by lia.
  pose proof (Z.bit0_mod v). unfold b2z, Z.b2z in *. destruct (Z.testbit v 0); lia.
Qed.

Lemma splice_lookup l off new i :
  0 <= off -> off + zlen new <= zlen l ->
  Z.of_nat i < off \/ off + zlen new <= Z.of_nat i -> splice l off new !! i = l !! i.
Proof.
  intros Hoff Hl Hi. unfold splice, zlen in *. destruct Hi as [Hi|Hi].
  - rewrite lookup_app_l by (rewrite length_take; lia). apply lookup_take_lt. lia.
  - rewrite lookup_app_r, lookup_app_r, lookup_drop by (rewrite length_take; lia).
    f_equal. rewrite length_take. lia.
Qed.

Lemma field_splice_same p p' off new :
  0 <= off -> off + zlen new <= 8 * zlen p -> bits_of p' = splice (bits_of p) off new ->
  field p' off (zlen new) = new.
Proof.
  intros Hoff Hl Hp. unfold field. rewrite Hp. unfold splice.
  rewrite drop_zlen_app; [by apply take_zlen_app|].
  pose proof (zlen_bits_of p). pose proof (zlen_nonneg new). unfold zlen in *. rewrite length_take. lia.
Qed.

Lemma field_splice_other p p' off new off2 bits2 :
  0 <= off -> off + zlen new <= 8 * zlen p -> bits_of p' = splice (bits_of p) off new ->
  field_ok p off2 bits2 -> off2 + bits2 <= off \/ off + zlen new <= off2 ->
  field p' off2 bits2 = field p off2 bits2.
Proof.
  intros Hoff Hl Hp (? & ? & ?) Hd. unfold field. rewrite Hp. apply list_eq. intros i.
  destruct (decide (i < Z.to_nat bits2)%nat).
  - rewrite !lookup_take_lt, !lookup_drop by lia. apply splice_lookup; zl.
  - by rewrite !lookup_take_ge by lia.
Qed.

(** [setUnsignedBitfield] keeps the low [bits] bits of the value: reading the field back
    gives them, and every field that does not overlap reads as before. *)
Theorem bitfield_set_get p off bits value :
  bytes_ok p -> field_ok p off bits ->
  exists p', setUnsignedBitfield p off bits value = Some p' /\ bytes_ok p' /\ zlen p' = zlen p /\
    getUnsignedBitfield p' off bits = Some (wrapu bits value) /\
    (forall off2 bits2, field_ok p off2 bits2 -> off2 + bits2 <= off \/ off + bits <= off2 ->
       getUnsignedBitfield p' off2 bits2 = getUnsignedBitfield p off2 bits2).
Proof.
  intros Hp Hf. pose proof Hf as (? & ? & ?).
  destruct (setUnsigned_spec p off bits value Hp Hf) as (p' & -> & Hok & Hlen & Hb).
  assert (zlen (bits_be bits value) = bits) as Hbe by (apply zlen_bits_be; lia).
  exists p'. split_and!; [done..| |].
  - rewrite getUnsigned_spec by (unfold field_ok in *; lia).
    rewrite <- Hbe at 1. rewrite (field_splice_same p) by (done || lia). by rewrite bits_be_bval by lia.
  - intros off2 bits2 Hf2 Hd. rewrite !getUnsigned_spec by (unfold field_ok in *; lia).
    do 2 f_equal. eapply field_splice_other; [| |done|done|]; lia.
Qed.

(** ** Two's complement *)

Lemma testbit_top w u : 0 < w -> in_u w u -> Z.testbit u (w - 1) = (2 ^ (w - 1) <=? u).
Proof.
  intros Hw [H0 H1]. rewrite pow2_half in H1 by lia. pose proof (pow2_pos (w - 1) ltac:(lia)) as Hp.
  destruct (Z.leb_spec (2 ^ (w - 1)) u).
  - apply Z.testbit_true; [lia|]. by rewrite <- (Z.div_unique u (2 ^ (w - 1)) 1 (u - 2 ^ (w - 1))) by lia.
  - apply Z.testbit_false; [lia|]. by rewrite Z.div_small by lia.
Qed.

Lemma wraps_of_wrapu w v :
  0 < w -> wraps w v = if Z.testbit (wrapu w v) (w - 1) then wrapu w v - 2 ^ w else wrapu w v.
Proof.
  intros Hw. rewrite <- wraps_wrapu. pose proof (wrapu_range w v ltac:(lia)) as Hr.
  rewrite testbit_top by done. set (u := wrapu w v) in *. destruct Hr as [H0 H1].
  pose proof (pow2_half w Hw). unfold wraps. destruct (Z.leb_spec (2 ^ (w - 1)) u).
  - rewrite <- (Z.mod_unique (u + 2 ^ (w - 1)) (2 ^ w) 1 (u - 2 ^ (w - 1))) by lia. lia.
  - rewrite Z.mod_small by lia. lia.
Qed.

(** [((uint64_t)-1) << bits]. *)
Lemma shl64_ones n : 0 <= n < 64 -> shl64 (wrapu 64 (-1)) n = Some (2 ^ 64 - 2 ^ n).
Proof.
  intros Hn. unfold shl64. case_if; [|zbool; lia]. f_equal.
  change (wrapu 64 (-1)) with (2 ^ 64 - 1). rewrite Z.shiftl_mul_pow2 by lia. unfold wrapu.
  pose proof (pow2_pos n ltac:(lia)). pose proof (Z.pow_lt_mono_r 2 n 64 ltac:(lia) ltac:(lia) ltac:(lia)).
  symmetry. apply (Z.mod_unique _ _ (2 ^ n - 1)); [lia|ring].
Qed.

Lemma high_ones n : 0 <= n < 64 -> 2 ^ 64 - 2 ^ n = Z.shiftl (Z.ones (64 - n)) n.
Proof.
  intros Hn. rewrite Z.shiftl_mul_pow2, Z.ones_equiv by lia.
  rewrite Z.mul_pred_l, <- Z.pow_add_r by lia. by replace (64 - n + n) with 64 by lia.
Qed.

Lemma lor_high u n : 0 <= n < 64 -> in_u n u -> Z.lor u (2 ^ 64 - 2 ^ n) = u + (2 ^ 64 - 2 ^ n).
Proof.
  intros Hn Hu. rewrite high_ones by done. symmetry. apply Z.add_nocarry_lor, Z.bits_inj'. intros i Hi.
  rewrite Z.land_spec, Z.bits_0. destruct (Z.lt_ge_cases i n).
  - by rewrite Z.shiftl_spec_low, andb_false_r by lia.
  - by rewrite (in_u_testbit n) by (done || lia).
Qed.

Lemma in_u_mono a b v : 0 <= a <= b -> in_u a v -> in_u b v.
Proof. intros Hab [? ?]. split; [done|]. pose proof (Z.pow_le_mono_r 2 a b). lia. Qed.

Lemma wrapu_wrapu w w' v : 0 <= w <= w' -> wrapu w (wrapu w' v) = wrapu w v.
Proof.
  intros Hw. apply Z.bits_inj'. intros i Hi. rewrite !wrapu_testbit by lia.
  destruct (Z.ltb_spec i w); [|by rewrite !andb_false_r].
  rewrite (proj2 (Z.ltb_lt i w')) by lia. by rewrite !andb_true_r.
Qed.

Lemma wraps_high w u : 0 < w < 64 -> in_u w u -> wraps 64 (u + (2 ^ 64 - 2 ^ w)) = u - 2 ^ w.
Proof.
  intros Hw [? ?]. pose proof (Z.pow_le_mono_r 2 w 63).
  rewrite <- wraps_wrapu. replace (wrapu 64 _) with (wrapu 64 (u - 2 ^ w)).
  - rewrite wraps_wrapu. apply wraps_small; [lia|]. unfold in_s. change (64 - 1) with 63. lia.
  - unfold wrapu. replace (u + _) with (u - 2 ^ w + 1 * 2 ^ 64) by ring. by rewrite Z.mod_add.
Qed.

(** The sign extension of [getSignedBitfield]; with 64 bits it shifts by the width. *)
Lemma getSigned_spec p off bits v :
  0 < bits <= 64 -> getUnsignedBitfield p off bits = Some (wrapu bits v) ->
  getSignedBitfield p off bits =
    if (bits =? 64) && Z.testbit (wrapu bits v) 63 then None else Some (wraps bits v).
Proof.
  intros Hb E. unfold getSignedBitfield. rewrite E. cbn [mbind option_bind].
  pose proof (wrapu_range bits v ltac:(lia)) as Hr. pose proof (in_u_mono bits 64 _ ltac:(lia) Hr) as Hr64.
  rewrite wrapu_wraps, (wrapu_small 64 (wrapu bits v)) by done. rewrite shl64_1 by lia. cbn [mbind option_bind].
  rewrite land_pow2, negb_involutive, (wraps_of_wrapu bits) by lia.
  destruct (Z.eqb_spec bits 64) as [->|Hne]; cbn [andb].
  - change (64 - 1) with 63. destruct (Z.testbit (wrapu 64 v) 63) eqn:Et; [done|].
    f_equal. rewrite wraps_wrapu, wraps_of_wrapu by lia. by change (64 - 1) with 63; rewrite Et.
  - assert (in_u 63 (wrapu bits v)) as [? ?] by (apply (in_u_mono bits); [lia|done]).
    destruct (Z.testbit _ _).
    + rewrite shl64_ones by lia. cbn [mbind option_bind]. rewrite lor_high by (done || lia). f_equal.
      by rewrite wraps_high by (done || lia).
    + f_equal. apply wraps_small; [lia|]. unfold in_s. change (64 - 1) with 63. lia.
Qed.

(** [setSignedBitfield] and [getSignedBitfield] round trip on two's-complement fields of fewer
    than 64 bits, and of 64 bits when the value is not negative; reading back a
    negative 64-bit field shifts by the width of the type, which is undefined. *)
Theorem bitfield_signed_set_get p off bits value :
  bytes_ok p -> field_ok p off bits -> in_s 64 value ->
  exists p', setSignedBitfield p off bits value = Some p' /\ bytes_ok p' /\ zlen p' = zlen p /\
    getSignedBitfield p' off bits =
      if (bits =? 64) && (value <? 0) then None else Some (wraps bits value).
Proof.
  intros Hp Hf Hv. pose proof Hf as (? & ? & ?).
  destruct (setUnsigned_spec p off bits (wrapu 64 value) Hp Hf) as (p' & Hset & Hok & Hlen & Hb).
  exists p'. split_and!; [done..|].
  rewrite (getSigned_spec p' off bits value) by
    (done || rewrite getUnsigned_spec by (unfold field_ok in *; lia);
     rewrite <- (zlen_bits_be bits (wrapu 64 value)) at 1 by lia;
     rewrite (field_splice_same p), bits_be_bval by (rewrite ?zlen_bits_be by lia; done || lia);
     by rewrite wrapu_wrapu by lia).
  destruct (Z.eqb_spec bits 64) as [->|]; [cbn [andb]|done].
  change 63 with (64 - 1) at 1. rewrite testbit_top by (lia || by apply wrapu_range). unfold wrapu.
  destruct Hv as [? ?]. destruct (Z.ltb_spec value 0).
  - rewrite <- (Z.mod_unique value (2 ^ 64) (-1) (value + 2 ^ 64)) by lia.
    by rewrite (proj2 (Z.leb_le _ _)) by lia.
  - rewrite Z.mod_small by lia. by rewrite (proj2 (Z.leb_gt _ _)) by lia.
Qed.

(** ** The overflow checks *)

Lemma bf_mask_testbit n i :
  0 <= n < 64 -> 0 <= i -> Z.testbit (2 ^ 64 - 2 ^ n) i = (n <=? i) && (i <? 64).
Proof.
  intros Hn Hi. rewrite high_ones by done. destruct (Z.leb_spec n i); cbn [andb].
  - rewrite Z.shiftl_spec by lia. destruct (Z.ltb_spec i 64).
    + apply Z.ones_spec_low. lia.
    + apply Z.ones_spec_high. lia.
  - apply Z.shiftl_spec_low. lia.
Qed.

Lemma lor_mask n c : 0 <= n < 64 -> in_u 64 c -> Z.lor c (2 ^ 64 - 2 ^ n) = wrapu n c + (2 ^ 64 - 2 ^ n).
Proof.
  intros Hn Hc. rewrite <- lor_high by (done || apply wrapu_range; lia).
  apply Z.bits_inj'. intros i Hi. rewrite !Z.lor_spec, bf_mask_testbit, wrapu_testbit by lia.
  destruct (Z.leb_spec n i), (Z.ltb_spec i 64), (Z.ltb_spec i n); try lia; cbn [andb];
    rewrite ?orb_true_r, ?andb_true_r, ?andb_false_r, ?orb_false_r; try done.
  by rewrite (in_u_testbit 64) by (done || lia).
Qed.

Lemma bf_land_mask n c : 0 <= n < 64 -> in_u 64 c -> Z.land c (wrapu 64 (Z.lnot (2 ^ 64 - 2 ^ n))) = wrapu n c.
Proof.
  intros Hn Hc. apply Z.bits_inj'. intros i Hi.
  rewrite Z.land_spec, !wrapu_testbit, Z.lnot_spec, bf_mask_testbit by lia.
  destruct (Z.leb_spec n i), (Z.ltb_spec i 64), (Z.ltb_spec i n); try lia; cbn [andb negb];
    rewrite ?andb_true_r, ?andb_false_r; done.
Qed.

Lemma unsigned_wrap_spec value incr bits :
  0 < bits < 64 -> unsigned_wrap value incr bits = Some (wrapu bits (value + incr)).
Proof.
  intros Hb. unfold unsigned_wrap. rewrite shl64_ones by lia. cbn [mbind option_bind].
  by rewrite bf_land_mask, wrapu_wrapu by (lia || by apply wrapu_range).
Qed.

Lemma wrapu_add w a b : wrapu w (wrapu w a + wrapu w b) = wrapu w (a + b).
Proof. unfold wrapu. symmetry. apply Zplus_mod. Qed.

Lemma signed_wrap_spec value incr bits :
  0 < bits < 64 -> signed_wrap value incr bits = Some (wraps bits (value + incr)).
Proof.
  intros Hb. unfold signed_wrap. rewrite shl64_ones, shl64_1 by lia. cbn [mbind option_bind].
  rewrite wrapu_add. set (s := value + incr). pose proof (wrapu_range 64 s ltac:(lia)) as Hr.
  rewrite land_pow2, negb_involutive, (wraps_of_wrapu bits) by lia.
  pose proof (wrapu_range bits s ltac:(lia)) as [? ?]. pose proof (Z.pow_le_mono_r 2 bits 63).
  rewrite !wrapu_testbit, (proj2 (Z.ltb_lt (bits - 1) 64)), (proj2 (Z.ltb_lt (bits - 1) bits)), !andb_true_r by lia.
  f_equal. destruct (Z.testbit s (bits - 1)).
  - rewrite lor_mask, wrapu_wrapu by (done || lia).
    by rewrite wraps_high by (lia || (by split)).
  - rewrite bf_land_mask, wrapu_wrapu by (done || lia). apply wraps_small; [lia|].
    unfold in_s. change (64 - 1) with 63. lia.
Qed.

(** What a check stores in [*limit] when the result [wrapped] and the bound [sat] apply. *)
Definition limit (owtype : bfoverflow) (wrapped sat : Z) : option Z :=
  match owtype with
  | BFOVERFLOW_WRAP => Some wrapped
  | BFOVERFLOW_SAT => Some sat
  | BFOVERFLOW_FAIL => None
  end.

(** [checkUnsignedBitfieldOverflow] on fields of 1 to 63 bits: it reports an overflow when the value
    or the sum exceeds the maximum, an underflow when the sum is negative (as an
    overflow in the mode WRAP), and the limit is the sum modulo [2 ^ bits] or the bound. *)
Theorem checkUnsigned_exact value incr bits owtype :
  0 < bits < 64 -> in_u 64 value -> in_s 64 incr ->
  checkUnsignedBitfieldOverflow value incr bits owtype =
    let max := 2 ^ bits - 1 in
    let sum := value + incr in
    Some (if (max <? value) || (max <? sum) then (1, limit owtype (wrapu bits sum) max)
          else if sum <? 0 then
            ((if decide (owtype = BFOVERFLOW_WRAP) then 1 else -1), limit owtype (wrapu bits sum) 0)
          else (0, None)).
Proof.
  intros Hb [Hv0 Hv1] [Hi0 Hi1]. change (64 - 1) with 63 in *. unfold checkUnsignedBitfieldOverflow.
  pose proof (Z.pow_le_mono_r 2 bits 63). pose proof (pow2_pos bits).
  rewrite (proj2 (Z.eqb_neq bits 64)), shl64_1 by lia. cbn [mbind option_bind].
  rewrite (wrapu_small 64 (2 ^ bits - 1)) by (split; lia). rewrite unsigned_wrap_spec by lia. cbv zeta.
  rewrite Z.gtb_ltb. destruct (Z.ltb_spec (2 ^ bits - 1) value); cbn [orb]; [by destruct owtype|].
  rewrite !wraps_small by (lia || unfold in_s; change (64 - 1) with 63; lia).
  zcmp; try lia; by destruct owtype.
Qed.

Lemma int64_arith_in v : in_s 64 v -> int64_arith v = Some v.
Proof.
  intros [H1 H2]. change (64 - 1) with 63 in *. unfold int64_arith, LLONG_MIN, LLONG_MAX. by rewrite !(proj2 (Z.leb_le _ _)) by lia.
Qed.

(** [checkSignedBitfieldOverflow] on fields of 1 to 63 bits: as for unsigned fields, with two's-complement bounds. The value must
    not be so low or so high that [max - value] or [min - value] leaves [int64_t]. *)
Theorem checkSigned_exact value incr bits owtype :
  0 < bits < 64 -> 2 ^ (bits - 1) - 2 ^ 63 <= value <= 2 ^ 63 - 2 ^ (bits - 1) -> in_s 64 incr ->
  checkSignedBitfieldOverflow value incr bits owtype =
    let max := 2 ^ (bits - 1) - 1 in
    let min := - 2 ^ (bits - 1) in
    let sum := value + incr in
    Some (if (max <? value) || (max <? sum) then (1, limit owtype (wraps bits sum) max)
          else if (value <? min) || (sum <? min) then
            ((if decide (owtype = BFOVERFLOW_WRAP) then 1 else -1), limit owtype (wraps bits sum) min)
          else (0, None)).
Proof.
  intros Hb [Hv0 Hv1] [Hi0 Hi1]. change (64 - 1) with 63 in *. unfold checkSignedBitfieldOverflow.
  pose proof (Z.pow_le_mono_r 2 (bits - 1) 62 ltac:(lia) ltac:(lia)) as Hp. pose proof (pow2_pos (bits - 1) ltac:(lia)) as Hp0.
  rewrite (proj2 (Z.eqb_neq bits 64)), shl64_1 by lia. cbn [mbind option_bind].
  rewrite (wraps_small 64 (2 ^ (bits - 1) - 1)) by (lia || unfold in_s; change (64 - 1) with 63; lia).
  rewrite signed_wrap_spec by lia. replace (- (2 ^ (bits - 1) - 1) - 1) with (- 2 ^ (bits - 1)) by lia.
  rewrite !int64_arith_in by (unfold in_s; change (64 - 1) with 63; lia). cbn [mbind option_bind negb andb]. cbv zeta.
  rewrite !Z.gtb_ltb, !Z.geb_leb. zcmp; try lia; by destruct owtype.
Qed.

(** Storing [INT64_MIN] or [INT64_MAX] in a signed field of 8 bits overflows one of the differences, although the value is only
    to be compared with the bounds of the field. *)
Theorem checkSigned_overflows owtype :
  checkSignedBitfieldOverflow (- 2 ^ 63) 0 8 owtype = None /\ checkSignedBitfieldOverflow (2 ^ 63 - 1) 0 8 owtype = None.
Proof. split; vm_compute; reflexivity. Qed.

(** ** The population count *)

Definition ones (l : list bool) : Z := zlen (filter (fun b => b = true) l).

Lemma ones_app l k : ones (l ++ k) = ones l + ones k.
Proof. unfold ones. rewrite filter_app. zl. Qed.

Lemma ones_range l : 0 <= ones l <= zlen l.
Proof. unfold ones, zlen. pose proof (length_filter (fun b => b = true) l). lia. Qed.

Lemma ones_bits_of_cons b p : ones (bits_of (b :: p)) = ones (bits_of_byte b) + ones (bits_of p).
Proof. by rewrite bits_of_cons, ones_app. Qed.

Lemma bitsinbyte_spec b : in_u 8 b -> zidx bitsinbyte b = Some (ones (bits_of_byte b)).
Proof.
  intros Hb. assert (forallb (fun b => bool_decide (zidx bitsinbyte b = Some (ones (bits_of_byte b))))
    (seqZ 0 256) = true) as HP by (vm_compute; reflexivity).
  apply (fun H => byte_check _ b H Hb) in HP. by eapply bool_decide_eq_true_1.
Qed.

(** The low byte of a number and the rest. *)
Lemma testbit_low_high a h i :
  in_u 8 a -> 0 <= i -> Z.testbit (a + 256 * h) i = if i <? 8 then Z.testbit a i else Z.testbit h (i - 8).
Proof.
  intros [? ?] Hi. destruct (Z.ltb_spec i 8).
  - rewrite <- (Z.mod_pow2_bits_low (a + 256 * h) 8) by lia. f_equal. symmetry.
    apply (Z.mod_unique _ _ h); change (2 ^ 8) with 256 in *; lia.
  - replace i with (i - 8 + 8) at 1 by lia. rewrite <- Z.div_pow2_bits by lia. f_equal. symmetry.
    apply (Z.div_unique _ _ _ a); change (2 ^ 8) with 256 in *; lia.
Qed.

Lemma land_in_u w a b : 0 <= w -> in_u w a -> 0 <= b -> in_u w (Z.land a b).
Proof.
  intros Hw Ha Hb. apply testbit_in_u; [done|apply Z.land_nonneg; destruct Ha; lia|].
  intros i Hi. by rewrite Z.land_spec, (in_u_testbit w a).
Qed.

(** Masking the bytes of a shifted number one by one, when the mask drops the bits
    that come from the next byte. *)
Lemma land_shiftr_bytes k a h m M :
  0 <= k < 8 -> in_u 8 a -> in_u (8 - k) m ->
  Z.land (Z.shiftr (a + 256 * h) k) (m + 256 * M) =
    Z.land (Z.shiftr a k) m + 256 * Z.land (Z.shiftr h k) M.
Proof.
  intros Hk Ha Hm. pose proof (in_u_mono (8 - k) 8 _ ltac:(lia) Hm) as Hm8.
  assert (in_u 8 (Z.land (Z.shiftr a k) m)) as Hl.
  { rewrite Z.land_comm. apply land_in_u; [lia|done|]. apply Z.shiftr_nonneg. by destruct Ha. }
  apply Z.bits_inj'. intros i Hi.
  rewrite Z.land_spec, Z.shiftr_spec, !testbit_low_high, Z.land_spec by (done || lia).
  destruct (Z.ltb_spec i 8).
  - rewrite Z.shiftr_spec by lia. destruct (Z.ltb_spec (i + k) 8); [done|].
    by rewrite (in_u_testbit (8 - k) m i), !andb_false_r by (done || lia).
  - rewrite Z.land_spec, Z.shiftr_spec by lia. rewrite (proj2 (Z.ltb_ge _ _)) by lia.
    by replace (i + k - 8) with (i - 8 + k) by lia.
Qed.

(** The four bytes of a word, the lowest first. *)
Definition word4 (a b c d : Z) : Z := a + 256 * (b + 256 * (c + 256 * (d + 256 * 0))).

Lemma land_shiftr_word4 k a b c d m :
  0 <= k < 8 -> in_u 8 a -> in_u 8 b -> in_u 8 c -> in_u 8 d -> in_u (8 - k) m ->
  Z.land (Z.shiftr (word4 a b c d) k) (word4 m m m m) =
    word4 (Z.land (Z.shiftr a k) m) (Z.land (Z.shiftr b k) m) (Z.land (Z.shiftr c k) m) (Z.land (Z.shiftr d k) m).
Proof. intros. unfold word4. by rewrite !land_shiftr_bytes, Z.land_0_r by done. Qed.

Lemma land_word4 a b c d m :
  in_u 8 a -> in_u 8 b -> in_u 8 c -> in_u 8 d -> in_u 8 m ->
  Z.land (word4 a b c d) (word4 m m m m) = word4 (Z.land a m) (Z.land b m) (Z.land c m) (Z.land d m).
Proof. intros. by apply (land_shiftr_word4 0). Qed.

(** The two nibble counts of a byte. *)
Definition nib1 (a : Z) : Z := a - Z.land (Z.shiftr a 1) 0x55.
Definition nib2 (a : Z) : Z := Z.land (nib1 a) 0x33 + Z.land (Z.shiftr (nib1 a) 2) 0x33.

Lemma nibbles_spec a :
  in_u 8 a -> in_u 8 (nib1 a) /\
  exists h l, nib2 a = 16 * h + l /\ 0 <= h <= 4 /\ 0 <= l <= 4 /\ h + l = ones (bits_of_byte a).
Proof.
  intros Ha. pose proof (byte_check (fun a => (0 <=? nib1 a) && (nib1 a <? 256) && (0 <=? nib2 a / 16) &&
    (nib2 a / 16 <=? 4) && (nib2 a mod 16 <=? 4) && (nib2 a / 16 + nib2 a mod 16 =? ones (bits_of_byte a)))
    a ltac:(vm_compute; reflexivity) Ha) as E. cbv beta in E. zbool. split; [by split|].
  exists (nib2 a / 16), (nib2 a mod 16). pose proof (Z.mod_pos_bound (nib2 a) 16 ltac:(lia)).
  pose proof (Z.div_mod (nib2 a) 16 ltac:(lia)). split_and!; lia.
Qed.

Lemma count_word a b c d :
  in_u 8 a -> in_u 8 b -> in_u 8 c -> in_u 8 d ->
  count_bytes (count_nibbles (word4 a b c d)) =
    word4 (ones (bits_of_byte a)) (ones (bits_of_byte b)) (ones (bits_of_byte c)) (ones (bits_of_byte d)).
Proof.
  intros Ha Hb Hc Hd.
  destruct (nibbles_spec a Ha) as (Ha1 & ha & la & Ea & ? & ? & Sa), (nibbles_spec b Hb) as (Hb1 & hb & lb & Eb & ? & ? & Sb),
    (nibbles_spec c Hc) as (Hc1 & hc & lc & Ec & ? & ? & Sc), (nibbles_spec d Hd) as (Hd1 & hd & ld & Ed & ? & ? & Sd).
  assert (count_nibbles (word4 a b c d) = word4 (nib2 a) (nib2 b) (nib2 c) (nib2 d)) as ->.
  { unfold count_nibbles. change 0x55555555 with (word4 0x55 0x55 0x55 0x55).
    change 0x33333333 with (word4 0x33 0x33 0x33 0x33).
    rewrite land_shiftr_word4 by (done || lia).
    replace (word4 a b c d - _) with (word4 (nib1 a) (nib1 b) (nib1 c) (nib1 d)) by (unfold word4, nib1; ring).
    rewrite (wrapu_small 32 (word4 _ _ _ _)) by (unfold in_u, word4 in *; lia).
    rewrite land_shiftr_word4, land_word4 by (done || lia).
    replace (_ + _) with (word4 (nib2 a) (nib2 b) (nib2 c) (nib2 d)) by (unfold word4, nib2; ring).
    apply wrapu_small. unfold in_u, word4. lia. }
  unfold count_bytes. change 0x0F0F0F0F with (word4 0x0F 0x0F 0x0F 0x0F).
  assert (Z.shiftr (word4 (nib2 a) (nib2 b) (nib2 c) (nib2 d)) 4 =
    word4 (ha + 16 * lb) (hb + 16 * lc) (hc + 16 * ld) hd) as ->.
  { rewrite Z.shiftr_div_pow2 by lia. symmetry. apply (Z.div_unique _ _ _ la); unfold word4; lia. }
  replace (_ + _) with (word4 (nib2 a + ha + 16 * lb) (nib2 b + hb + 16 * lc) (nib2 c + hc + 16 * ld) (nib2 d + hd))
    by (unfold word4; ring).
  rewrite wrapu_small by (unfold in_u, word4; lia). rewrite land_word4 by (done || unfold in_u; lia).
  assert (forall x h l, x = 16 * h + l -> 0 <= l < 16 -> Z.land x 0x0F = l) as Hlow.
  { intros x h l -> Hl. change 15 with (Z.ones 4). rewrite Z.land_ones by lia.
    symmetry. apply (Z.mod_unique _ _ h); lia. }
  rewrite (Hlow _ (ha + lb) (ha + la)), (Hlow _ (hb + lc) (hb + lb)), (Hlow _ (hc + ld) (hc + lc)),
    (Hlow _ hd (hd + ld)) by lia. unfold word4. lia.
Qed.

Section popcount.
Context `{Host}.

Lemma bits_of_byte_ones b : 0 <= ones (bits_of_byte b) <= 8.
Proof. apply (ones_range (bits_of_byte b)). Qed.

(** The counts of the bytes of one word of the block. *)
Lemma host_uint_count bs :
  bytes_ok bs -> length bs = 4%nat ->
  exists a b c d, count_bytes (count_nibbles (host_uint bs)) = word4 a b c d /\
    0 <= a <= 8 /\ 0 <= b <= 8 /\ 0 <= c <= 8 /\ 0 <= d <= 8 /\ a + b + c + d = ones (bits_of bs).
Proof.
  intros Hok Hl. destruct bs as [|z [|z0 [|z1 [|z2 [|]]]]]; try discriminate Hl. clear Hl.
  rewrite !Forall_cons in Hok. destruct Hok as (? & ? & ? & ? & _).
  rewrite !ones_bits_of_cons. change (ones (bits_of [])) with 0.
  pose proof (bits_of_byte_ones z). pose proof (bits_of_byte_ones z0).
  pose proof (bits_of_byte_ones z1). pose proof (bits_of_byte_ones z2).
  unfold host_uint. destruct big_endian.
  - change (le_decode (reverse [z; z0; z1; z2])) with (word4 z2 z1 z0 z).
    rewrite count_word by done. eexists _, _, _, _. split; [done|]. split_and!; lia.
  - change (le_decode [z; z0; z1; z2]) with (word4 z z0 z1 z2).
    rewrite count_word by done. eexists _, _, _, _. split; [done|]. split_and!; lia.
Qed.

Lemma load32_count mem off :
  bytes_ok mem -> 0 <= off -> off + 4 <= zlen mem ->
  exists v a b c d, load32 mem off = Some v /\ count_bytes (count_nibbles v) = word4 a b c d /\
    0 <= a <= 8 /\ 0 <= b <= 8 /\ 0 <= c <= 8 /\ 0 <= d <= 8 /\
    a + b + c + d = ones (bits_of (take 4 (drop (Z.to_nat off) mem))).
Proof.
  intros Hok Hoff Hlen. unfold load32, rd.
  rewrite (proj2 (Z.leb_le 0 off)), (proj2 (Z.leb_le (off + 4) _)) by lia. cbn.
  destruct (host_uint_count (take 4 (drop (Z.to_nat off) mem))) as (a & b & c & d & E & ?).
  - auto using Forall_take, Forall_drop.
  - unfold zlen in *. rewrite length_take, length_drop. lia.
  - by exists (host_uint (take 4 (drop (Z.to_nat off) mem))), a, b, c, d.
Qed.

(** [* 0x01010101 >> 24] adds up the bytes of the seven words. *)
Lemma sum_bytes a b c d :
  0 <= a <= 56 -> 0 <= b <= 56 -> 0 <= c <= 56 -> 0 <= d <= 56 ->
  Z.shiftr (wrapu 32 (wrapu 32 (word4 a b c d) * 0x01010101)) 24 = a + b + c + d.
Proof.
  intros. rewrite (wrapu_small 32 (word4 _ _ _ _)) by (unfold in_u, word4; lia).
  rewrite Z.shiftr_div_pow2 by lia. unfold wrapu. symmetry.
  apply (Z.div_unique _ _ _ (a + 256 * (a + b) + 65536 * (a + b + c))); [lia|]. symmetry.
  apply (Z.mod_unique _ _ (b + c + d + 256 * (c + d) + 65536 * d)); [lia|]. unfold word4. ring.
Qed.

Lemma ones_take_add k e mem :
  0 <= k -> e = k + 4 ->
  ones (bits_of (take (Z.to_nat e) mem)) =
    ones (bits_of (take (Z.to_nat k) mem)) + ones (bits_of (take 4 (drop (Z.to_nat k) mem))).
Proof.
  intros Hk ->. rewrite <- ones_app, <- bits_of_app, take_take_drop. do 3 f_equal. lia.
Qed.

Lemma pop_blocks_spec fuel mem count bits :
  bytes_ok mem -> count <= zlen mem -> 0 <= count < Z.of_nat fuel -> 0 <= bits -> bits + 8 * count < 2 ^ 64 ->
  exists m1 m2 c, pop_blocks fuel mem count bits = Some (m2, c, bits + ones (bits_of m1)) /\
    mem = m1 ++ m2 /\ count = zlen m1 + c /\ 0 <= c.
Proof.
  revert mem count bits. induction fuel as [|fuel IH]; intros mem count bits Hok Hlen Hf Hb0 Hb; [lia|].
  cbn [pop_blocks]. case_if.
  { exists [], mem, count. rewrite Z.add_0_r. split_and!; done || lia. }
  destruct (load32_count mem 0) as (v1 & a1 & b1 & c1 & d1 & -> & E1 & ? & ? & ? & ? & S1); [done|lia..|].
  destruct (load32_count mem 4) as (v2 & a2 & b2 & c2 & d2 & -> & E2 & ? & ? & ? & ? & S2); [done|lia..|].
  destruct (load32_count mem 8) as (v3 & a3 & b3 & c3 & d3 & -> & E3 & ? & ? & ? & ? & S3); [done|lia..|].
  destruct (load32_count mem 12) as (v4 & a4 & b4 & c4 & d4 & -> & E4 & ? & ? & ? & ? & S4); [done|lia..|].
  destruct (load32_count mem 16) as (v5 & a5 & b5 & c5 & d5 & -> & E5 & ? & ? & ? & ? & S5); [done|lia..|].
  destruct (load32_count mem 20) as (v6 & a6 & b6 & c6 & d6 & -> & E6 & ? & ? & ? & ? & S6); [done|lia..|].
  destruct (load32_count mem 24) as (v7 & a7 & b7 & c7 & d7 & -> & E7 & ? & ? & ? & ? & S7); [done|lia..|].
  cbn [mbind option_bind]. rewrite E1, E2, E3, E4, E5, E6, E7.
  replace (word4 a1 b1 c1 d1 + _ + _ + _ + _ + _ + _) with
    (word4 (a1 + a2 + a3 + a4 + a5 + a6 + a7) (b1 + b2 + b3 + b4 + b5 + b6 + b7)
           (c1 + c2 + c3 + c4 + c5 + c6 + c7) (d1 + d2 + d3 + d4 + d5 + d6 + d7)) by (unfold word4; ring).
  rewrite sum_bytes by lia.
  assert (ones (bits_of (take 28 mem)) =
    a1 + a2 + a3 + a4 + a5 + a6 + a7 + (b1 + b2 + b3 + b4 + b5 + b6 + b7) +
    (c1 + c2 + c3 + c4 + c5 + c6 + c7) + (d1 + d2 + d3 + d4 + d5 + d6 + d7)) as Htot.
  { change 28%nat with (Z.to_nat 28).
    rewrite (ones_take_add 24 28), (ones_take_add 20 24), (ones_take_add 16 20), (ones_take_add 12 16),
      (ones_take_add 8 12), (ones_take_add 4 8), (ones_take_add 0 4) by lia.
    change (ones (bits_of (take (Z.to_nat 0) mem))) with 0. lia. }
  rewrite <- Htot. clear Htot.
  assert (zlen (take 28 mem) = 28) as Hl by (unfold zlen in *; rewrite length_take; lia).
  pose proof (ones_range (bits_of (take 28 mem))) as Hr. rewrite zlen_bits_of, Hl in Hr.
  rewrite wrapu_small by (split; lia).
  destruct (IH (drop 28 mem) (count - 28) (bits + ones (bits_of (take 28 mem)))) as (m1 & m2 & c & -> & Hm & Hc & ?).
  { by apply Forall_drop. } { unfold zlen in *. rewrite length_drop. lia. } 1-3: lia.
  exists (take 28 mem ++ m1), m2, c. rewrite bits_of_app, ones_app, Z.add_assoc. split_and!; [done| | |done].
  - by rewrite <- app_assoc, <- Hm, take_drop.
  - zl.
Qed.

Lemma pop_unaligned_spec fuel p mem count bits :
  bytes_ok mem -> count <= zlen mem -> 0 <= count < Z.of_nat fuel -> 0 <= bits -> bits + 8 * count < 2 ^ 64 ->
  exists m1 m2 c, pop_unaligned fuel p mem count bits = Some (m2, c, bits + ones (bits_of m1)) /\
    mem = m1 ++ m2 /\ count = zlen m1 + c /\ 0 <= c.
Proof.
  revert p mem count bits. induction fuel as [|fuel IH]; intros p mem count bits Hok Hlen Hf Hb0 Hb; [lia|].
  cbn [pop_unaligned]. case_if.
  2:{ exists [], mem, count. rewrite Z.add_0_r. split_and!; done || lia. }
  destruct mem as [|b mem]; [rewrite (@zlen_nil Z) in *; lia|].
  apply Forall_cons in Hok as [Hbok Hok]. rewrite bitsinbyte_spec by done. cbn [mbind option_bind].
  pose proof (bits_of_byte_ones b). rewrite wrapu_small by (split; lia). rewrite zlen_cons in Hlen.
  destruct (IH (p + 1) mem (count - 1) (bits + ones (bits_of_byte b))) as (m1 & m2 & c & -> & -> & ? & ?); [done|lia..|].
  exists (b :: m1), m2, c. rewrite ones_bits_of_cons, Z.add_assoc. split_and!; [done..|zl|done].
Qed.

Lemma pop_bytes_spec fuel mem count bits :
  bytes_ok mem -> count <= zlen mem -> 0 <= count < Z.of_nat fuel -> 0 <= bits -> bits + 8 * count < 2 ^ 64 ->
  pop_bytes fuel mem count bits = Some (bits + ones (bits_of (take (Z.to_nat count) mem))).
Proof.
  revert mem count bits. induction fuel as [|fuel IH]; intros mem count bits Hok Hlen Hf Hb0 Hb; [lia|].
  cbn [pop_bytes]. case_if; [subst; by rewrite Z.add_0_r|].
  destruct mem as [|b mem]; [rewrite (@zlen_nil Z) in *; lia|].
  apply Forall_cons in Hok as [Hbok Hok]. rewrite bitsinbyte_spec by done. cbn [mbind option_bind].
  pose proof (bits_of_byte_ones b). rewrite zlen_cons in Hlen. rewrite wrapu_small by (split; lia).
  rewrite IH by (done || lia). replace (Z.to_nat count) with (S (Z.to_nat (count - 1))) by lia.
  cbn [take]. rewrite ones_bits_of_cons. f_equal. lia.
Qed.

(** [redisPopcount] counts the bits that are set in the first [count] bytes, whatever
    the alignment of the string and the byte order of the host are, although most of them are
    counted in words of four bytes, seven at a time. *)
Theorem redisPopcount_counts p mem count :
  bytes_ok mem -> 0 <= count <= zlen mem -> count < 2 ^ 61 ->
  redisPopcount p mem count = Some (ones (bits_of (take (Z.to_nat count) mem))).
Proof.
  intros Hok Hc Hmax. unfold redisPopcount.
  destruct (pop_unaligned_spec (S (Z.to_nat count)) p mem count 0) as (m1 & m2 & c & -> & -> & -> & ?); [done|lia..|].
  rewrite Forall_app in Hok. destruct Hok as [_ Hok]. rewrite zlen_app in Hc. cbn [mbind option_bind].
  pose proof (ones_range (bits_of m1)) as Hr1. rewrite zlen_bits_of in Hr1. pose proof (zlen_nonneg m1).
  destruct (pop_blocks_spec (S (Z.to_nat (zlen m1 + c))) m2 c (0 + ones (bits_of m1)))
    as (m3 & m4 & c' & -> & -> & -> & ?); [done|lia..|].
  rewrite Forall_app in Hok. destruct Hok as [_ Hok]. rewrite zlen_app in Hc. cbn [mbind option_bind].
  pose proof (ones_range (bits_of m3)) as Hr3. rewrite zlen_bits_of in Hr3. pose proof (zlen_nonneg m3).
  rewrite pop_bytes_spec by (done || lia). f_equal.
  rewrite Z.add_assoc, app_assoc. rewrite take_app_ge by (rewrite length_app; unfold zlen in *; lia).
  rewrite !bits_of_app, !ones_app, length_app.
  replace (Z.to_nat (zlen m1 + zlen m3 + c') - _)%nat with (Z.to_nat c') by (unfold zlen; lia). lia.
Qed.
End popcount.

(** ** The position of the first bit *)

Fixpoint find_bit (bv : bool) (l : list bool) : option Z :=
  match l with
  | [] => None
  | b :: l => if eqb b bv then Some 0 else (fun i => i + 1) <$> find_bit bv l
  end.

Lemma find_bit_app bv l k :
  find_bit bv (l ++ k) =
    match find_bit bv l with Some i => Some i | None => (fun i => zlen l + i) <$> find_bit bv k end.
Proof.
  induction l as [|b l IH]; cbn [find_bit app].
  - destruct (find_bit bv k); done.
  - destruct (eqb b bv); [done|]. rewrite IH. destruct (find_bit bv l); [done|].
    destruct (find_bit bv k); [|done]. cbn. f_equal. rewrite zlen_cons. lia.
Qed.

(** The byte without a bit [bv], which the loops skip. *)
Definition skip_byte (bv : bool) : Z := if bv then 0 else 255.

Lemma find_skip_byte bv : find_bit bv (bits_of_byte (skip_byte bv)) = None.
Proof. by destruct bv. Qed.

Lemma find_other_byte bv b : in_u 8 b -> b <> skip_byte bv -> is_Some (find_bit bv (bits_of_byte b)).
Proof.
  intros Hb Hne. pose proof (byte_check (fun b => forallb (fun bv => (b =? skip_byte bv) ||
    match find_bit bv (bits_of_byte b) with Some _ => true | None => false end) [true; false])
    b ltac:(vm_compute; reflexivity) Hb) as HP.
  cbv beta in HP. rewrite forallb_forall in HP. specialize (HP bv ltac:(destruct bv; simpl; auto)).
  apply orb_true_iff in HP as [HP|HP]; [zbool; done|]. by destruct (find_bit bv _).
Qed.

Lemma find_skipped bv m : Forall (fun b => b = skip_byte bv) m -> find_bit bv (bits_of m) = None.
Proof.
  induction 1 as [|b m -> _ IH]; [done|]. by rewrite bits_of_cons, find_bit_app, find_skip_byte, IH.
Qed.

Lemma find_not_skipped bv m :
  bytes_ok m -> ~ Forall (fun b => b = skip_byte bv) m -> is_Some (find_bit bv (bits_of m)).
Proof.
  induction 1 as [|b m Hb _ IH]; intros Hn; [destruct Hn; constructor|].
  rewrite bits_of_cons, find_bit_app. destruct (decide (b = skip_byte bv)) as [->|Hne].
  - rewrite find_skip_byte. destruct IH as [i ->]; [|by eexists]. intros Hm. apply Hn. by constructor.
  - by destruct (find_other_byte bv b Hb Hne) as [i ->].
Qed.

(** Why a loop stops: fewer than 8 bytes are left, or the bit is among the next 64. *)
Definition stopped (bv : bool) (c : Z) (m : list Z) : Prop :=
  c < 8 \/ is_Some (find_bit bv (bits_of (take 8 (take (Z.to_nat c) m)))).

Lemma pos_unaligned_spec bv fuel p mem count pos :
  bytes_ok mem -> 0 <= count <= zlen mem -> count < Z.of_nat fuel ->
  exists m1 m2 c found, pos_unaligned fuel (skip_byte bv) p mem count pos = Some (m2, c, pos + 8 * zlen m1, found) /\
    mem = m1 ++ m2 /\ count = zlen m1 + c /\ 0 <= c /\ Forall (fun b => b = skip_byte bv) m1 /\
    (found = true -> stopped bv c m2).
Proof.
  revert p mem count pos. induction fuel as [|fuel IH]; intros p mem count pos Hok Hlen Hf; [lia|].
  cbn [pos_unaligned]. case_if.
  2:{ exists [], mem, count, false. rewrite Z.add_0_r. split_and!; done || lia. }
  destruct mem as [|b mem]; [rewrite (@zlen_nil Z) in *; lia|]. case_if.
  - exists [], (b :: mem), count, true. rewrite Z.add_0_r. split_and!; try done || lia. intros _. right.
    replace (Z.to_nat count) with (S (Z.to_nat (count - 1))) by lia. cbn [take].
    rewrite bits_of_cons, find_bit_app. apply Forall_cons in Hok as [Hb _].
    by destruct (find_other_byte bv b Hb ltac:(done)) as [i ->].
  - subst b. apply Forall_cons in Hok as [Hb Hok]. rewrite zlen_cons in Hlen.
    destruct (IH (p + 1) mem (count - 1) (pos + 8)) as (m1 & m2 & c & found & -> & -> & ? & ? & ? & ?); [done|lia..|].
    exists (skip_byte bv :: m1), m2, c, found. rewrite zlen_cons. split_and!; try done; [|lia|by constructor].
    do 2 f_equal. f_equal. lia.
Qed.

Definition skip_word (bv : bool) : Z := if bv then 0 else ULONG_MAX.

Lemma le_decode_inj a b : bytes_ok a -> bytes_ok b -> length a = length b -> le_decode a = le_decode b -> a = b.
Proof. intros Ha Hb Hl E. by rewrite <- (le_encode_decode a), <- (le_encode_decode b), Hl, E by done. Qed.

Lemma host_uint_skip `{Host} bv m :
  bytes_ok m -> length m = 8%nat -> host_uint m = skip_word bv <-> Forall (fun b => b = skip_byte bv) m.
Proof.
  intros Hm Hl. unfold host_uint. set (m' := if big_endian then reverse m else m).
  assert (bytes_ok m' /\ length m' = 8%nat /\
    (Forall (fun b => b = skip_byte bv) m <-> Forall (fun b => b = skip_byte bv) m')) as (Hm' & Hl' & ->).
  { unfold m'. destruct big_endian; [|done]. by rewrite length_reverse, !Forall_reverse. }
  assert (skip_word bv = le_decode (replicate 8 (skip_byte bv))) as -> by (by destruct bv).
  split.
  - intros E%le_decode_inj; [rewrite E; by apply Forall_replicate|done| |by rewrite length_replicate].
    apply Forall_replicate. by destruct bv.
  - intros Hs. f_equal. symmetry. apply replicate_as_Forall_2; [done|].
    eapply Forall_impl; [exact Hs|]. by intros ? ->.
Qed.

Lemma pos_words_spec `{Host} bv fuel mem count pos :
  bytes_ok mem -> 0 <= count <= zlen mem -> count < Z.of_nat fuel ->
  exists m1 m2 c, pos_words fuel (skip_word bv) mem count pos = Some (m2, c, pos + 8 * zlen m1) /\
    mem = m1 ++ m2 /\ count = zlen m1 + c /\ 0 <= c /\ Forall (fun b => b = skip_byte bv) m1 /\
    stopped bv c m2.
Proof.
  revert mem count pos. induction fuel as [|fuel IH]; intros mem count pos Hok Hlen Hf; [lia|].
  cbn [pos_words]. case_if.
  { exists [], mem, count. rewrite Z.add_0_r. split_and!; try done || lia. by left. }
  assert (length (take 8 mem) = 8%nat) as Hl by (unfold zlen in *; rewrite length_take; lia).
  assert (bytes_ok (take 8 mem)) as Hok8 by auto using Forall_take.
  assert (load64 mem 0 = Some (host_uint (take 8 mem))) as ->.
  { unfold load64, rd. by rewrite (proj2 (Z.leb_le (0 + 8) _)) by lia. }
  cbn [mbind option_bind]. case_if.
  - exists [], mem, count. rewrite Z.add_0_r. split_and!; try done || lia. right.
    rewrite take_take. replace (8 `min` _)%nat with 8%nat by lia.
    apply find_not_skipped; [done|]. by rewrite <- host_uint_skip.
  - apply host_uint_skip in Hif0; [|done..].
    destruct (IH (drop 8 mem) (count - 8) (pos + 64)) as (m1 & m2 & c & -> & Hm & ? & ? & ? & ?).
    { by apply Forall_drop. } { unfold zlen in *. rewrite length_drop. lia. } { lia. }
    assert (zlen (take 8 mem) = 8) as Hz by (unfold zlen; lia).
    exists (take 8 mem ++ m1), m2, c. rewrite zlen_app, Hz. split_and!; try done || lia.
    + do 2 f_equal. lia.
    + by rewrite <- app_assoc, <- Hm, take_drop.
    + by apply Forall_app.
Qed.

Lemma bval_app l k : bval (l ++ k) = bval l * 2 ^ zlen k + bval k.
Proof.
  induction k as [|b k IH] using rev_ind.
  - rewrite app_nil_r, (@zlen_nil bool). cbn. lia.
  - rewrite app_assoc, !bval_snoc, IH. zl. rewrite Z.add_0_l, Z.pow_add_r by (pose proof (zlen_nonneg k); lia). lia.
Qed.

Lemma bval_byte b : in_u 8 b -> bval (bits_of_byte b) = b.
Proof. intros Hb. change (bits_of_byte b) with (bits_be 8 b). rewrite bits_be_bval by lia. by apply wrapu_small. Qed.

Lemma lor_low_byte x b : in_u 8 b -> Z.lor (256 * x) b = 256 * x + b.
Proof.
  intros Hb. symmetry. apply Z.add_nocarry_lor. rewrite Z.land_comm.
  replace b with (b + 256 * 0) by lia. rewrite <- (Z.add_0_l (256 * x)).
  pose proof (land_shiftr_bytes 0 b 0 0 x ltac:(lia) Hb) as E. rewrite !Z.shiftr_0_r in E.
  rewrite E, Z.land_0_r, Z.land_0_l by (split; lia). lia.
Qed.

Lemma load_word_spec j k mem count l :
  bytes_ok mem -> 0 <= count <= zlen mem -> (j <= k)%nat -> zlen l + 8 * Z.of_nat j <= 64 ->
  load_word j mem count (bval l) = Some (bval (l ++ bits_of (take j (take (Z.to_nat count) mem ++ replicate k 0)))).
Proof.
  revert k mem count l. induction j as [|j IH]; intros k mem count l Hok Hc Hk Hl.
  { by rewrite take_0, app_nil_r. }
  cbn [load_word]. destruct k as [|k]; [lia|].
  assert (wrapu 64 (Z.shiftl (bval l) 8) = 256 * bval l) as ->.
  { rewrite Z.shiftl_mul_pow2, wrapu_small; [lia| |lia]. pose proof (bval_range l) as [? ?].
    pose proof (Z.pow_le_mono_r 2 (zlen l) 56). split; lia. }
  assert (forall b, in_u 8 b -> 256 * bval l + b = bval (l ++ bits_of_byte b)) as Hb8.
  { intros b Hb. rewrite bval_app, bval_byte by done. change (zlen (bits_of_byte b)) with 8. lia. }
  case_if.
  - subst count. pose proof (Hb8 0 ltac:(split; lia)) as E. rewrite Z.add_0_r in E. rewrite E.
    rewrite (IH (S k)) by (done || lia || rewrite zlen_app; change (zlen (bits_of_byte 0)) with 8; lia).
    change (Z.to_nat 0) with 0%nat. rewrite !take_0, !app_nil_l, !take_replicate.
    rewrite !Nat.min_l by lia. change (replicate (S j) 0) with (0 :: replicate j 0).
    by rewrite bits_of_cons, <- app_assoc.
  - destruct mem as [|c mem]; [rewrite (@zlen_nil Z) in *; lia|].
    apply Forall_cons in Hok as [Hc8 Hok]. rewrite zlen_cons in Hc. rewrite lor_low_byte, Hb8 by done.
    rewrite (IH (S k)) by (done || lia || rewrite zlen_app; change (zlen (bits_of_byte c)) with 8; lia).
    replace (Z.to_nat count) with (S (Z.to_nat (count - 1))) by lia. cbn [take app].
    by rewrite bits_of_cons, <- app_assoc.
Qed.

Lemma testbit_bval l1 b l2 : Z.testbit (bval (l1 ++ b :: l2)) (zlen l2) = b.
Proof.
  change (b :: l2) with ([b] ++ l2). rewrite app_assoc, bval_app.
  pose proof (bval_range l2) as [? ?]. pose proof (zlen_nonneg l2).
  assert (forall x y, b2z x = b2z y -> x = y) as Hinj by (by intros [] []). apply Hinj.
  change (b2z (Z.testbit _ _)) with (Z.b2z (Z.testbit (bval (l1 ++ [b]) * 2 ^ zlen l2 + bval l2) (zlen l2))).
  rewrite Z.testbit_spec', Z.div_add_l, Z.div_small, Z.add_0_r, bval_snoc by lia.
  rewrite Z.add_comm, Z.mul_comm, Z.mod_add by lia. apply Z.mod_small. apply b2z_range.
Qed.

Lemma scan_word_spec bv fuel l1 l2 pos :
  (length l2 < fuel)%nat ->
  scan_word fuel (2 ^ (zlen l2 - 1)) (bval (l1 ++ l2)) (b2z bv) pos = (fun i => pos + i) <$> find_bit bv l2.
Proof.
  revert l1 l2 pos. induction fuel as [|fuel IH]; intros l1 l2 pos Hf; [lia|].
  cbn [scan_word]. destruct l2 as [|b l2]; [done|].
  rewrite zlen_cons. replace (zlen l2 + 1 - 1) with (zlen l2) by lia. pose proof (zlen_nonneg l2).
  rewrite (proj2 (Z.eqb_neq _ 0)) by (pose proof (pow2_pos (zlen l2)); lia).
  rewrite Z.land_comm, land_pow2, negb_involutive, testbit_bval by done. cbn [find_bit].
  destruct (eqb b bv) eqn:E.
  - apply eqb_prop in E as ->. rewrite Z.eqb_refl. cbn. f_equal. lia.
  - rewrite (proj2 (Z.eqb_neq _ _)) by (destruct b, bv; done).
    assert (Z.shiftr (2 ^ zlen l2) 1 = 2 ^ (zlen l2 - 1)) as ->.
    { rewrite Z.shiftr_div_pow2 by lia. destruct (Z.eq_dec (zlen l2) 0) as [->|]; [done|].
      rewrite (pow2_half (zlen l2)) by lia. rewrite Z.mul_comm. apply Z.div_mul. lia. }
    change (b :: l2) with ([b] ++ l2). rewrite app_assoc, IH by (simpl in Hf; lia).
    destruct (find_bit bv l2); [|done]. cbn. f_equal. lia.
Qed.

Lemma bval_0_iff l : bval l = 0 <-> find_bit true l = None.
Proof.
  induction l as [|b l IH] using rev_ind; [done|]. rewrite bval_snoc, find_bit_app.
  pose proof (bval_range l) as [? _]. destruct b; cbn.
  - destruct (find_bit true l); split; done || lia.
  - replace (2 * bval l + 0 = 0) with (2 * bval l = 0) by (f_equal; lia).
    destruct (find_bit true l) as [i|]; split; done || (intros; assert (bval l = 0) by lia; tauto) || (intros; assert (bval l = 0) by tauto; lia).
Qed.

(** What the last word finds: the first bit among the bytes that are left, or the
    zero padding on their right. *)
Lemma padded_find bv c m :
  bytes_ok m -> 0 <= c <= zlen m -> stopped bv c m ->
  find_bit bv (bits_of (take 8 (take (Z.to_nat c) m ++ replicate 8 0))) =
    match find_bit bv (bits_of (take (Z.to_nat c) m)) with
    | Some i => Some i
    | None => if bv then None else Some (8 * c)
    end.
Proof.
  intros Hok Hc Hs. assert (zlen (take (Z.to_nat c) m) = c) as Hl by (unfold zlen in *; rewrite length_take; lia).
  unfold stopped in Hs. set (r := take (Z.to_nat c) m) in *.
  destruct (decide (c < 8)) as [Hc8|Hc8].
  - assert (length r < 8)%nat as Hr by (unfold zlen in Hl; lia).
    rewrite take_app_ge by lia. rewrite bits_of_app, find_bit_app.
    destruct (find_bit bv (bits_of r)); [done|]. rewrite take_replicate, zlen_bits_of, Hl.
    destruct bv.
    + by rewrite find_skipped by (by apply Forall_replicate).
    + replace ((8 - length r) `min` 8)%nat with (S (7 - length r)) by lia.
      change (replicate (S (7 - length r)) 0) with (0 :: replicate (7 - length r) 0).
      rewrite bits_of_cons, find_bit_app. change (find_bit false (bits_of_byte 0)) with (Some 0).
      cbn [fmap option_fmap option_map]. by rewrite Z.add_0_r.
  - destruct Hs as [?|[i Hi]]; [done|]. rewrite take_app_le by (unfold zlen in *; lia).
    rewrite <- (take_drop 8 r) at 2. by rewrite bits_of_app, find_bit_app, Hi.
Qed.

(** [redisBitpos] returns the position of the first bit with the given value among the first [count]
    bytes, for every alignment and byte order; when there is none it returns -1 for
    a set bit and [count * 8] for a clear one, and its final panic is not reached. *)
Theorem redisBitpos_first `{Host} p mem count bv :
  bytes_ok mem -> 0 <= count <= zlen mem ->
  redisBitpos p mem count (b2z bv) =
    Some (match find_bit bv (bits_of (take (Z.to_nat count) mem)) with
          | Some i => i
          | None => if bv then -1 else 8 * count
          end).
Proof.
  intros Hok Hc. unfold redisBitpos.
  replace (if negb (b2z bv =? 0) then 0 else UCHAR_MAX) with (skip_byte bv) by (by destruct bv).
  replace (if negb (b2z bv =? 0) then 0 else ULONG_MAX) with (skip_word bv) by (by destruct bv).
  destruct (pos_unaligned_spec bv (S (Z.to_nat count)) p mem count 0)
    as (m1 & m2 & c & found & -> & -> & -> & Hc0 & Hm1 & Hfound); [done|lia..|].
  rewrite Forall_app in Hok. destruct Hok as [_ Hok]. rewrite zlen_app in Hc. cbn [mbind option_bind].
  pose proof (zlen_nonneg m1).
  assert (exists m3 m4 c', (if found then Some (m2, c, 0 + 8 * zlen m1)
      else pos_words (S (Z.to_nat (zlen m1 + c))) (skip_word bv) m2 c (0 + 8 * zlen m1)) =
        Some (m4, c', 0 + 8 * zlen (m1 ++ m3)) /\ m2 = m3 ++ m4 /\ c = zlen m3 + c' /\ 0 <= c' /\
      Forall (fun b => b = skip_byte bv) m3 /\ stopped bv c' m4) as (m3 & m4 & c' & -> & -> & -> & Hc' & Hm3 & Hst).
  { destruct found.
    - exists [], m2, c. rewrite app_nil_r. split_and!; auto.
    - destruct (pos_words_spec bv (S (Z.to_nat (zlen m1 + c))) m2 c (0 + 8 * zlen m1))
        as (m3 & m4 & c' & -> & ? & ? & ? & ? & ?); [done|lia..|].
      exists m3, m4, c'. split_and!; try done. do 2 f_equal. rewrite zlen_app. lia. }
  rewrite Forall_app in Hok. destruct Hok as [_ Hok]. rewrite zlen_app in Hc. cbn [mbind option_bind].
  change (load_word 8 m4 c' 0) with (load_word 8 m4 c' (bval [])).
  rewrite (load_word_spec 8 8) by (done || lia). rewrite app_nil_l. cbn [mbind option_bind].
  change (wrapu 64 (Z.lnot (Z.shiftr ULONG_MAX 1))) with (2 ^ (64 - 1)).
  pose proof (padded_find bv c' m4 Hok ltac:(lia) Hst) as HL. set (L := bits_of (take 8 _)) in *.
  assert (zlen L = 64) as HlL.
  { unfold L. rewrite zlen_bits_of. unfold zlen. rewrite length_take, length_app, length_replicate. lia. }
  assert (find_bit bv (bits_of (take (Z.to_nat (zlen m1 + (zlen m3 + c'))) (m1 ++ m3 ++ m4))) =
    (fun i => 8 * zlen (m1 ++ m3) + i) <$> find_bit bv (bits_of (take (Z.to_nat c') m4))) as ->.
  { rewrite app_assoc. rewrite take_app_ge by (rewrite length_app; unfold zlen in *; lia).
    rewrite bits_of_app, find_bit_app, find_skipped by (by apply Forall_app).
    rewrite zlen_bits_of. do 4 f_equal. rewrite length_app. unfold zlen. lia. }
  replace ((b2z bv =? 1) && (bval L =? 0)) with (bv && match find_bit bv L with None => true | Some _ => false end).
  2:{ destruct bv; [|done]. cbn. pose proof (bval_0_iff L).
      destruct (find_bit true L), (Z.eqb_spec (bval L) 0); try done; intuition congruence. }
  rewrite <- HlL, <- (app_nil_l L), scan_word_spec by (unfold zlen in HlL; cbn [app]; lia). cbn [app]. rewrite HL.
  destruct (find_bit bv (bits_of (take (Z.to_nat c') m4))), bv; cbn; try done; f_equal; rewrite zlen_app; lia.
Qed.

Module Sample.

Definition text : list Z := [0xff; 0xf0; 0x0f; 0; 7].

Lemma text_ok : bytes_ok text.
Proof. repeat constructor; unfold byte_ok; lia. Qed.

Lemma bitfield_set_get_witness :
  exists p', setUnsignedBitfield text 5 13 5000 = Some p' /\ bytes_ok p' /\ zlen p' = zlen text /\
    getUnsignedBitfield p' 5 13 = Some (wrapu 13 5000) /\
    (forall off2 bits2, field_ok text off2 bits2 -> off2 + bits2 <= 5 \/ 5 + 13 <= off2 ->
       getUnsignedBitfield p' off2 bits2 = getUnsignedBitfield text off2 bits2).
Proof.
  apply (bitfield_set_get text 5 13 5000); [exact text_ok|].
  unfold field_ok. change (zlen text) with 5. lia.
Defined.

Lemma bitfield_signed_set_get_witness :
  exists p', setSignedBitfield text 3 7 (-20) = Some p' /\ bytes_ok p' /\ zlen p' = zlen text /\
    getSignedBitfield p' 3 7 = Some (-20).
Proof.
  apply (bitfield_signed_set_get text 3 7 (-20)); [exact text_ok| |unfold in_s; lia].
  unfold field_ok. change (zlen text) with 5. lia.
Defined.

Lemma checkUnsigned_exact_witness :
  checkUnsignedBitfieldOverflow 250 10 8 BFOVERFLOW_WRAP = Some (1, Some 4).
Proof. apply (checkUnsigned_exact 250 10 8 BFOVERFLOW_WRAP); unfold in_u, in_s; lia. Defined.

Lemma checkSigned_exact_witness :
  checkSignedBitfieldOverflow (-120) (-10) 8 BFOVERFLOW_SAT = Some (-1, Some (-128)).
Proof. apply (checkSigned_exact (-120) (-10) 8 BFOVERFLOW_SAT); unfold in_s; lia. Defined.

Lemma redisPopcount_counts_witness :
  @redisPopcount false 3 text 5 = Some 19.
Proof.
  apply (@redisPopcount_counts false 3 text 5); [exact text_ok| |lia]. change (zlen text) with 5. lia.
Defined.

Lemma redisBitpos_first_witness :
  @redisBitpos true 6 text 5 0 = Some 12.
Proof.
  apply (@redisBitpos_first true 6 text 5 false); [exact text_ok|]. change (zlen text) with 5. lia.
Defined.

End Sample.
