(* ===== verification/Listpack.v ===== *)
(** * Listpacks (listpack.c)

    A listpack is one allocation: a header of six bytes (the total size on four bytes and
    the number of elements on two), the entries and the terminator [LP_EOF]. An entry is the
    encoded element followed by the size of the encoding, written so that it can be read
    backwards. A listpack is the list of its bytes, a pointer into it an offset, [NULL]
    the value [None]; where a function also fails on a read or a write outside of the
    allocation the result is an option of that. An element passed by its address and its
    size is the list of its bytes. *)

From S2P Require Import Prelude Util.

Definition LP_HDR_SIZE : Z := 6.
Definition LP_HDR_NUMELE_UNKNOWN : Z := 65535.
Definition LP_EOF : Z := 255.
Definition LP_INTBUF_SIZE : Z := 21.
Definition UINT64_MAX : Z := 2 ^ 64 - 1.
Definition UINT32_MAX : Z := 2 ^ 32 - 1.
Definition INT64_MIN : Z := - 2 ^ 63.
Definition INT64_MAX : Z := 2 ^ 63 - 1.

Inductive lp_where := LP_BEFORE | LP_AFTER | LP_REPLACE.
Inductive lp_enctype := LP_ENCODING_INT | LP_ENCODING_STRING.

Definition LP_ENCODING_IS_7BIT_UINT (b : Z) : bool := Z.land b 128 =? 0.
Definition LP_ENCODING_IS_6BIT_STR (b : Z) : bool := Z.land b 192 =? 128.
Definition LP_ENCODING_IS_13BIT_INT (b : Z) : bool := Z.land b 224 =? 192.
Definition LP_ENCODING_IS_12BIT_STR (b : Z) : bool := Z.land b 240 =? 224.
Definition LP_ENCODING_IS_16BIT_INT (b : Z) : bool := Z.land b 255 =? 241.
Definition LP_ENCODING_IS_24BIT_INT (b : Z) : bool := Z.land b 255 =? 242.
Definition LP_ENCODING_IS_32BIT_INT (b : Z) : bool := Z.land b 255 =? 243.
Definition LP_ENCODING_IS_64BIT_INT (b : Z) : bool := Z.land b 255 =? 244.
Definition LP_ENCODING_IS_32BIT_STR (b : Z) : bool := Z.land b 255 =? 240.

(** [p[0]<<0 | p[1]<<8 | ...], and the bytes [v&0xff], [(v>>8)&0xff], ... *)
Fixpoint or_bytes (shift : Z) (bs : list Z) : Z :=
  match bs with
  | [] => 0
  | b :: bs => Z.lor (Z.shiftl b shift) (or_bytes (shift + 8) bs)
  end.

Fixpoint and_bytes (n : nat) (v : Z) (shift : Z) : list Z :=
  match n with
  | O => []
  | S n => Z.land (Z.shiftr v shift) 255 :: and_bytes n v (shift + 8)
  end.

Definition LP_ENCODING_6BIT_STR_LEN (b : Z) : Z := Z.land b 63.
Definition LP_ENCODING_12BIT_STR_LEN (b b1 : Z) : Z := Z.lor (Z.shiftl (Z.land b 15) 8) b1.
Definition LP_ENCODING_32BIT_STR_LEN (lp : list Z) (p : Z) : option Z :=
  or_bytes 0 <$> rd lp (p + 1) 4.

Definition lpGetTotalBytes (lp : list Z) : option Z := or_bytes 0 <$> rd lp 0 4.
Definition lpGetNumElements (lp : list Z) : option Z := or_bytes 0 <$> rd lp 4 2.
Definition lpSetTotalBytes (lp : list Z) (v : Z) : option (list Z) := wr lp 0 (and_bytes 4 v 0).
Definition lpSetNumElements (lp : list Z) (v : Z) : option (list Z) := wr lp 4 (and_bytes 2 v 0).

(** The digit loop of [lpStringToInt64]: [None] is the return on overflow, otherwise the
    value and the bytes left. *)
Fixpoint lpStringToInt64_loop (v : Z) (p : list Z) : option (Z * list Z) :=
  match p with
  | [] => Some (v, [])
  | c :: p' =>
      if (48 <=? c) && (c <=? 57) then
        if v >? UINT64_MAX / 10 then None
        else
          let v := wrapu 64 (v * 10) in
          if v >? UINT64_MAX - (c - 48) then None
          else lpStringToInt64_loop (wrapu 64 (v + (c - 48))) p'
      else Some (v, p)
  end.

(** [None] is the return value 0, [Some v] the return value 1 with [v] stored. *)
Definition lpStringToInt64 (s : list Z) : option Z :=
  match s with
  | [] => None
  | c :: s' =>
      if (zlen s =? 1) && (c =? 48) then Some 0
      else
        '(negative, p) ← (if c =? 45 then
                            match s' with [] => None | _ => Some (true, s') end
                          else Some (false, s));
        match p with
        | [] => None
        | c :: p =>
            if (49 <=? c) && (c <=? 57) then
              '(v, rest) ← lpStringToInt64_loop (c - 48) p;
              match rest with
              | _ :: _ => None
              | [] =>
                  if negative : bool then
                    if v >? wrapu 64 (- (INT64_MIN + 1)) + 1 then None
                    else Some (wraps 64 (wrapu 64 (- v)))
                  else if v >? INT64_MAX then None else Some (wraps 64 v)
              end
            else if (c =? 48) && (zlen s =? 1) then Some 0
            else None
        end
  end.

(** Returns the type, the bytes stored in [intenc] and [*enclen]. The sum with [size] is
    computed in the type of [size], [uint32_t]. *)
Definition lpEncodeGetType (ele : list Z) : lp_enctype * list Z * Z :=
  let size := zlen ele in
  match lpStringToInt64 ele with
  | Some v =>
      if (v >=? 0) && (v <=? 127) then (LP_ENCODING_INT, [wrapu 8 v], 1)
      else if (v >=? -4096) && (v <=? 4095) then
        let v := if v <? 0 then Z.shiftl 1 13 + v else v in
        (LP_ENCODING_INT, [wrapu 8 (Z.lor (Z.shiftr v 8) 192); Z.land v 255], 2)
      else if (v >=? -32768) && (v <=? 32767) then
        let v := if v <? 0 then Z.shiftl 1 16 + v else v in
        (LP_ENCODING_INT, 241 :: and_bytes 1 v 0 ++ [wrapu 8 (Z.shiftr v 8)], 3)
      else if (v >=? -8388608) && (v <=? 8388607) then
        let v := if v <? 0 then Z.shiftl 1 24 + v else v in
        (LP_ENCODING_INT, 242 :: and_bytes 2 v 0 ++ [wrapu 8 (Z.shiftr v 16)], 4)
      else if (v >=? -2147483648) && (v <=? 2147483647) then
        let v := if v <? 0 then Z.shiftl 1 32 + v else v in
        (LP_ENCODING_INT, 243 :: and_bytes 3 v 0 ++ [wrapu 8 (Z.shiftr v 24)], 5)
      else
        let uv := wrapu 64 v in
        (LP_ENCODING_INT, 244 :: and_bytes 7 uv 0 ++ [wrapu 8 (Z.shiftr uv 56)], 9)
  | None =>
      (LP_ENCODING_STRING, [],
       if size <? 64 then wrapu 32 (1 + size)
       else if size <? 4096 then wrapu 32 (2 + size)
       else wrapu 32 (5 + size))
  end.

(** The bytes stored when [buf] is not NULL, and the return value. *)
Definition lpEncodeBacklen (l : Z) : list Z * Z :=
  let low s := Z.lor (Z.land (Z.shiftr l s) 127) 128 in
  if l <=? 127 then ([wrapu 8 l], 1)
  else if l <? 16383 then ([wrapu 8 (Z.shiftr l 7); low 0], 2)
  else if l <? 2097151 then ([wrapu 8 (Z.shiftr l 14); low 7; low 0], 3)
  else if l <? 268435455 then ([wrapu 8 (Z.shiftr l 21); low 14; low 7; low 0], 4)
  else ([wrapu 8 (Z.shiftr l 28); low 21; low 14; low 7; low 0], 5).

(** The [do ... while(1)] loop of [lpDecodeBacklen]. It ends after five iterations at
    the latest, because [shift] grows by 7 and is checked against 28. *)
Fixpoint lpDecodeBacklen_loop (fuel : nat) (lp : list Z) (p val shift : Z) : option Z :=
  match fuel with
  | O => None
  | S fuel =>
      b ← zidx lp p;
      let val := Z.lor val (Z.shiftl (Z.land b 127) shift) in
      if Z.land b 128 =? 0 then Some val
      else
        let shift := shift + 7 in
        if shift >? 28 then Some UINT64_MAX
        else lpDecodeBacklen_loop fuel lp (p - 1) val shift
  end.

Definition lpDecodeBacklen (lp : list Z) (p : Z) : option Z := lpDecodeBacklen_loop 5 lp p 0 0.

(** [lpEncodeString(buf+dst, s, len)]. *)
Definition lpEncodeString (buf : list Z) (dst : Z) (s : list Z) : option (list Z) :=
  let len := zlen s in
  if len <? 64 then
    buf ← wr buf dst [wrapu 8 (Z.lor len 128)];
    wr buf (dst + 1) s
  else if len <? 4096 then
    buf ← wr buf dst [wrapu 8 (Z.lor (Z.shiftr len 8) 224); Z.land len 255];
    wr buf (dst + 2) s
  else
    buf ← wr buf dst (240 :: and_bytes 4 len 0);
    wr buf (dst + 5) s.

Definition lpCurrentEncodedSize (lp : list Z) (p : Z) : option Z :=
  b ← zidx lp p;
  if LP_ENCODING_IS_7BIT_UINT b then Some 1
  else if LP_ENCODING_IS_6BIT_STR b then Some (1 + LP_ENCODING_6BIT_STR_LEN b)
  else if LP_ENCODING_IS_13BIT_INT b then Some 2
  else if LP_ENCODING_IS_16BIT_INT b then Some 3
  else if LP_ENCODING_IS_24BIT_INT b then Some 4
  else if LP_ENCODING_IS_32BIT_INT b then Some 5
  else if LP_ENCODING_IS_64BIT_INT b then Some 9
  else if LP_ENCODING_IS_12BIT_STR b then
    b1 ← zidx lp (p + 1); Some (2 + LP_ENCODING_12BIT_STR_LEN b b1)
  else if LP_ENCODING_IS_32BIT_STR b then
    n ← LP_ENCODING_32BIT_STR_LEN lp p; Some (wrapu 32 (5 + n))
  else if b =? LP_EOF then Some 1
  else Some 0.

Definition lpSkip (lp : list Z) (p : Z) : option Z :=
  entrylen ← lpCurrentEncodedSize lp p;
  let entrylen := entrylen + snd (lpEncodeBacklen entrylen) in
  Some (p + entrylen).

Definition lpNext (lp : list Z) (p : Z) : option (option Z) :=
  p ← lpSkip lp p;
  b ← zidx lp p;
  Some (if b =? LP_EOF then None else Some p).

Definition lpPrev (lp : list Z) (p : Z) : option (option Z) :=
  if p =? LP_HDR_SIZE then Some None
  else
    let p := p - 1 in
    prevlen ← lpDecodeBacklen lp p;
    let prevlen := wrapu 64 (prevlen + snd (lpEncodeBacklen prevlen)) in
    Some (Some (p - prevlen + 1)).

Definition lpFirst (lp : list Z) : option (option Z) :=
  b ← zidx lp LP_HDR_SIZE;
  Some (if b =? LP_EOF then None else Some LP_HDR_SIZE).

Definition lpLast (lp : list Z) : option (option Z) :=
  total ← lpGetTotalBytes lp;
  lpPrev lp (total - 1).

(** The [while(p)] loop of [lpLength]; every step moves right, so the fuel is the number of
    bytes. *)
Fixpoint lpLength_loop (fuel : nat) (lp : list Z) (p : option Z) (count : Z) : option Z :=
  match p with
  | None => Some count
  | Some p =>
      match fuel with
      | O => None
      | S fuel =>
          next ← lpNext lp p;
          lpLength_loop fuel lp next (wrapu 32 (count + 1))
      end
  end.

(** Returns the count and the listpack, whose header may be updated. *)
Definition lpLength (lp : list Z) : option (Z * list Z) :=
  numele ← lpGetNumElements lp;
  if negb (numele =? LP_HDR_NUMELE_UNKNOWN) then Some (numele, lp)
  else
    p ← lpFirst lp;
    count ← lpLength_loop (length lp) lp p 0;
    lp ← (if count <? LP_HDR_NUMELE_UNKNOWN then lpSetNumElements lp count else Some lp);
    Some (count, lp).

(** The results of [lpGet]: an integer stored through [count], a pointer into the listpack
    with its length, or the contents of [intbuf] with the value stored through [count]. *)
Inductive lp_value :=
  | LpInt (v : Z)
  | LpStr (p count : Z)
  | LpBuf (intbuf : list Z) (count : Z).

(** [snprintf(buf, n, "%lld", v)]: the characters stored, without the terminator, and the
    return value. *)
Definition snprintf_lld (n v : Z) : list Z * Z :=
  (take (Z.to_nat (n - 1)) (sdec v), zlen (sdec v)).

(** The part of [lpGet] for integers. *)
Definition lpGet_int (intbuf : bool) (uval negstart negmax : Z) : lp_value :=
  let val :=
    if uval >=? negstart then - wraps 64 (wrapu 64 (negmax - uval)) - 1
    else wraps 64 uval in
  if intbuf then let '(s, n) := snprintf_lld LP_INTBUF_SIZE val in LpBuf s n
  else LpInt val.

Definition lpGet (lp : list Z) (p : Z) (intbuf : bool) : option lp_value :=
  b ← zidx lp p;
  if LP_ENCODING_IS_7BIT_UINT b then
    Some (lpGet_int intbuf (Z.land b 127) UINT64_MAX 0)
  else if LP_ENCODING_IS_6BIT_STR b then
    Some (LpStr (p + 1) (LP_ENCODING_6BIT_STR_LEN b))
  else if LP_ENCODING_IS_13BIT_INT b then
    b1 ← zidx lp (p + 1);
    Some (lpGet_int intbuf (Z.lor (Z.shiftl (Z.land b 31) 8) b1) (Z.shiftl 1 12) 8191)
  else if LP_ENCODING_IS_16BIT_INT b then
    bs ← rd lp (p + 1) 2;
    Some (lpGet_int intbuf (or_bytes 0 bs) (Z.shiftl 1 15) 65535)
  else if LP_ENCODING_IS_24BIT_INT b then
    bs ← rd lp (p + 1) 3;
    Some (lpGet_int intbuf (or_bytes 0 bs) (Z.shiftl 1 23) (Z.shiftr UINT32_MAX 8))
  else if LP_ENCODING_IS_32BIT_INT b then
    bs ← rd lp (p + 1) 4;
    Some (lpGet_int intbuf (or_bytes 0 bs) (Z.shiftl 1 31) UINT32_MAX)
  else if LP_ENCODING_IS_64BIT_INT b then
    bs ← rd lp (p + 1) 8;
    Some (lpGet_int intbuf (or_bytes 0 bs) (Z.shiftl 1 63) UINT64_MAX)
  else if LP_ENCODING_IS_12BIT_STR b then
    b1 ← zidx lp (p + 1);
    Some (LpStr (p + 2) (LP_ENCODING_12BIT_STR_LEN b b1))
  else if LP_ENCODING_IS_32BIT_STR b then
    n ← LP_ENCODING_32BIT_STR_LEN lp p;
    Some (LpStr (p + 5) n)
  else Some (lpGet_int intbuf (12345678900000000 + b) UINT64_MAX 0).

Section alloc.
(** What [lp_malloc] and [lp_realloc] leave in new bytes. They are [zmalloc] and
    [zrealloc], which end the process when there is no memory and do not return NULL. *)
Variable junk : nat -> Z.

Definition lpNew : option (list Z) :=
  let lp := realloc junk [] (LP_HDR_SIZE + 1) in
  lp ← lpSetTotalBytes lp (LP_HDR_SIZE + 1);
  lp ← lpSetNumElements lp 0;
  wr lp LP_HDR_SIZE [LP_EOF].

(** The memory moves of [lpInsert]: the bytes after the [replaced_len] ones at [poff] move
    to the end of the [len] bytes of the new entry, and the block gets its new size, before
    the move when it grows and after it when it shrinks. *)
Definition lpInsert_room (lp : list Z) (where_ : lp_where)
  (poff len replaced_len old_bytes new_bytes : Z) : option (list Z) :=
  let lp := if new_bytes >? old_bytes then realloc junk lp new_bytes else lp in
  lp ← (match where_ with
        | LP_BEFORE => memmove lp (poff + len) poff (wrapu 64 (old_bytes - poff))
        | _ =>
            let lendiff := wraps 64 (wrapu 64 (len - replaced_len)) in
            memmove lp (poff + replaced_len + lendiff) (poff + replaced_len)
              (wrapu 64 (old_bytes - poff - replaced_len))
        end);
  Some (if new_bytes <? old_bytes then realloc junk lp new_bytes else lp).

(** [Some None] is the return value NULL; [newp] tells whether [newp] is not NULL, and the
    second component is the pointer stored through it. *)
Definition lpInsert (lp : list Z) (ele : option (list Z)) (p : Z) (where_ : lp_where)
  (newp : bool) : option (option (list Z * option Z)) :=
  let where_ := if ele is None then LP_REPLACE else where_ in
  '(poff, where_) ← (match where_ with
                     | LP_AFTER => p ← lpSkip lp p; Some (p, LP_BEFORE)
                     | _ => Some (p, where_)
                     end);
  let '(enctype, intenc, enclen) :=
    if ele is Some ele then lpEncodeGetType ele else (LP_ENCODING_STRING, [], 0) in
  let '(backlen, backlen_size) :=
    if ele is Some _ then lpEncodeBacklen enclen else ([], 0) in
  old_listpack_bytes ← lpGetTotalBytes lp;
  replaced_len ← (match where_ with
                  | LP_REPLACE =>
                      n ← lpCurrentEncodedSize lp poff;
                      Some (wrapu 32 (n + snd (lpEncodeBacklen n)))
                  | _ => Some 0
                  end);
  let new_listpack_bytes :=
    wrapu 64 (old_listpack_bytes + enclen + backlen_size - replaced_len) in
  if new_listpack_bytes >? UINT32_MAX then Some None
  else
    lp ← lpInsert_room lp where_ poff (enclen + backlen_size) replaced_len
           old_listpack_bytes new_listpack_bytes;
    np ← (if newp then
            match ele with
            | None => b ← zidx lp poff; Some (if b =? LP_EOF then None else Some poff)
            | Some _ => Some (Some poff)
            end
          else Some None);
    lp ← (match ele with
          | Some ele =>
              lp ← (match enctype with
                    | LP_ENCODING_INT => bs ← rd intenc 0 enclen; wr lp poff bs
                    | LP_ENCODING_STRING => lpEncodeString lp poff ele
                    end);
              bs ← rd backlen 0 backlen_size;
              wr lp (poff + enclen) bs
          | None => Some lp
          end);
    lp ← (if (match where_ with LP_REPLACE => false | _ => true end)
             || (if ele is None then true else false) then
            num_elements ← lpGetNumElements lp;
            if negb (num_elements =? LP_HDR_NUMELE_UNKNOWN) then
              if ele is Some _ then lpSetNumElements lp (wrapu 32 (num_elements + 1))
              else lpSetNumElements lp (wrapu 32 (num_elements - 1))
            else Some lp
          else Some lp);
    lp ← lpSetTotalBytes lp new_listpack_bytes;
    Some (Some (lp, np)).

Definition lpAppend (lp : list Z) (ele : list Z) : option (option (list Z)) :=
  listpack_bytes ← lpGetTotalBytes lp;
  let eofptr := listpack_bytes - 1 in
  r ← lpInsert lp (Some ele) eofptr LP_BEFORE false;
  Some (option_map fst r).

Definition lpDelete (lp : list Z) (p : Z) (newp : bool)
  : option (option (list Z * option Z)) :=
  lpInsert lp None p LP_REPLACE newp.

End alloc.

Definition lpBytes (lp : list Z) : option Z := lpGetTotalBytes lp.

(** The two loops of [lpSeek]; the fuel is the number of bytes. *)
Fixpoint lpSeek_fwd (fuel : nat) (lp : list Z) (index : Z) (ele : option Z)
  : option (option Z) :=
  match ele with
  | Some p =>
      if index >? 0 then
        match fuel with
        | O => None
        | S fuel => next ← lpNext lp p; lpSeek_fwd fuel lp (index - 1) next
        end
      else Some ele
  | None => Some ele
  end.

Fixpoint lpSeek_bwd (fuel : nat) (lp : list Z) (index : Z) (ele : option Z)
  : option (option Z) :=
  match ele with
  | Some p =>
      if index <? -1 then
        match fuel with
        | O => None
        | S fuel => prev ← lpPrev lp p; lpSeek_bwd fuel lp (index + 1) prev
        end
      else Some ele
  | None => Some ele
  end.

Definition lpSeek (lp : list Z) (index : Z) : option (option Z) :=
  let scan (forward : bool) index :=
    if forward then ele ← lpFirst lp; lpSeek_fwd (length lp) lp index ele
    else ele ← lpLast lp; lpSeek_bwd (length lp) lp index ele in
  numele ← lpGetNumElements lp;
  if negb (numele =? LP_HDR_NUMELE_UNKNOWN) then
    let index := if index <? 0 then numele + index else index in
    if index <? 0 then Some None
    else if index >=? numele then Some None
    else if index >? numele / 2 then scan false (index - numele)
    else scan true index
  else scan (negb (index <? 0)) index.

Example lp_small :
  (lp ← lpNew (fun _ => 7); r ← lpAppend (fun _ => 7) lp [97; 98];
   lp ← r; r ← lpInsert (fun _ => 7) lp (Some [45; 53; 48; 48; 48]) 6 LP_BEFORE true; r)
  = Some ([15; 0; 0; 0; 2; 0; 241; 120; 236; 3; 130; 97; 98; 3; 255], Some 6).
Proof. vm_compute. reflexivity. Qed.
