(* ===== verification/ListpackSpec.v ===== *)
(** * Listpacks are lists of strings

    [lp_rep lp xs]: the bytes of [lp] are a header, the entries of the strings [xs] and the
    terminator. Every function of listpack.c is an operation on [xs]. *)

From S2P Require Import Prelude Util Listpack.

(** ** Words as bytes *)

Lemma or_bytes_shift s bs : 0 <= s -> or_bytes s bs = Z.shiftl (or_bytes 0 bs) s.
Proof.
  revert s. induction bs as [|b bs IH]; intros s Hs; cbn [or_bytes].
  - by rewrite Z.shiftl_0_l.
  - rewrite (IH (s + 8)), (IH (0 + 8)), Z.shiftl_0_r, Z.shiftl_lor, Z.shiftl_shiftl by lia.
    do 2 f_equal. lia.
Qed.

Lemma or_bytes_le bs : bytes_ok bs -> or_bytes 0 bs = le_decode bs.
Proof.
  induction 1 as [|b bs Hb _ IH]; [done|]. cbn [or_bytes le_decode].
  rewrite or_bytes_shift, IH, Z.shiftl_0_r, Z.lor_comm by lia.
  rewrite lor_shift; [lia|lia|exact Hb].
Qed.

Lemma and_bytes_le n v s : 0 <= s -> and_bytes n v s = le_encode n (v / 2 ^ s).
Proof.
  revert s. induction n as [|n IH]; intros s Hs; [done|]. cbn [and_bytes le_encode].
  rewrite land_255, Z.shiftr_div_pow2, IH, Z.pow_add_r, Z.div_div by lia. done.
Qed.

Lemma and_bytes_0 n v : and_bytes n v 0 = le_encode n v.
Proof. rewrite and_bytes_le by lia. by rewrite Z.div_1_r. Qed.

Lemma le_encode_snoc n v : le_encode (S n) v = le_encode n v ++ [v / 2 ^ (8 * Z.of_nat n) mod 256].
Proof.
  revert v. induction n as [|n IH]; intros v; [by rewrite Z.div_1_r|].
  change (le_encode (S (S n)) v) with (v mod 256 :: le_encode (S n) (v / 256)).
  rewrite IH. cbn [le_encode app]. do 3 f_equal. rewrite Z.div_div by lia.
  replace (8 * Z.of_nat (S n)) with (8 + 8 * Z.of_nat n) by lia.
  by rewrite Z.pow_add_r by lia.
Qed.

Lemma le_encode_wrap n v w : le_decode (le_encode n v) = le_decode (le_encode n w) -> le_encode n v = le_encode n w.
Proof.
  intros E. rewrite <- (le_encode_decode (le_encode n v)), <- (le_encode_decode (le_encode n w)) by auto with redis.
  by rewrite !length_le_encode, E.
Qed.

(** The bytes of an integer that the code stores, the last one without a mask. *)
Lemma int_bytes n v :
  and_bytes n v 0 ++ [wrapu 8 (Z.shiftr v (8 * Z.of_nat n))] = le_encode (S n) v.
Proof. rewrite and_bytes_0, le_encode_snoc, Z.shiftr_div_pow2 by lia. done. Qed.

Lemma le_encode_neg n v k : k = 2 ^ (8 * Z.of_nat n) -> le_encode n (k + v) = le_encode n v.
Proof.
  intros ->. apply le_encode_wrap. rewrite !le_decode_encode.
  rewrite Z.add_comm. rewrite <- (Z.mul_1_l (2 ^ _)) at 1. apply Z.mod_add. pose proof (pow2_pos (8 * Z.of_nat n)). lia.
Qed.

(** ** Integers in strings *)

Lemma lpStringToInt64_string2ll s : lpStringToInt64 s = string2ll s.
Proof.
  unfold lpStringToInt64, string2ll. destruct s as [|c s]; [done|].
  change lpStringToInt64_loop with string2ll_loop.
  destruct ((zlen (c :: s) =? 1) && (c =? 48)) eqn:E0; [done|].
  destruct (c =? 45) eqn:E1; cbn [mbind option_bind].
  - destruct s as [|d s]; [done|]. cbn [mbind option_bind].
    destruct ((49 <=? d) && (d <=? 57)); [done|]. zl.
    pose proof (zlen_nonneg s). rewrite (proj2 (Z.eqb_neq (zlen s + 1 + 1) 1)) by lia.
    by rewrite andb_false_r.
  - destruct ((49 <=? c) && (c <=? 57)); [done|]. by rewrite andb_comm, E0.
Qed.

(** ** Encoded elements

    The bytes [lpEncodeString] writes, and the encoding of an element. *)

Definition str_enc (s : list Z) : list Z :=
  let len := zlen s in
  (if len <? 64 then [wrapu 8 (Z.lor len 128)]
   else if len <? 4096 then [wrapu 8 (Z.lor (Z.shiftr len 8) 224); Z.land len 255]
   else 240 :: and_bytes 4 len 0) ++ s.

Definition lp_enc (x : list Z) : list Z :=
  let '(enctype, intenc, _) := lpEncodeGetType x in
  match enctype with LP_ENCODING_INT => intenc | LP_ENCODING_STRING => str_enc x end.

(** The nine forms of an encoded element: integers by their width, strings by the width of
    their length. *)
Inductive lp_form : list Z -> list Z -> Prop :=
  | form_7 v : 0 <= v <= 127 -> lp_form (sdec v) [v]
  | form_13 v u : in_s 13 v -> u = wrapu 13 v ->
      lp_form (sdec v) [wrapu 8 (Z.lor (Z.shiftr u 8) 192); u mod 256]
  | form_int b n v : (b, n) ∈ [(241, 2); (242, 3); (243, 4); (244, 8)]%nat -> in_s (8 * Z.of_nat n) v ->
      lp_form (sdec v) (Z.of_nat b :: le_encode n v)
  | form_str6 x : string2ll x = None -> zlen x < 64 -> lp_form x (wrapu 8 (Z.lor (zlen x) 128) :: x)
  | form_str12 x : string2ll x = None -> 64 <= zlen x < 4096 ->
      lp_form x (wrapu 8 (Z.lor (Z.shiftr (zlen x) 8) 224) :: zlen x mod 256 :: x)
  | form_str32 x : string2ll x = None -> 4096 <= zlen x < 2 ^ 32 - 5 ->
      lp_form x (240 :: le_encode 4 (zlen x) ++ x).

Definition elem_ok (x : list Z) : Prop := zlen x < 2 ^ 32 - 5.

#[global] Instance elem_ok_dec x : Decision (elem_ok x).
Proof. unfold elem_ok. apply _. Defined.

Lemma neg_13 v : -4096 <= v <= 4095 -> (if v <? 0 then Z.shiftl 1 13 + v else v) = wrapu 13 v.
Proof.
  intros Hv. unfold wrapu. change (Z.shiftl 1 13) with (2 ^ 13). destruct (Z.ltb_spec v 0).
  - rewrite <- (Z.mod_add v 1), Z.mod_small by lia. lia.
  - by rewrite Z.mod_small by lia.
Qed.

Lemma enc_neg n v :
  le_encode n (if v <? 0 then Z.shiftl 1 (8 * Z.of_nat n) + v else v) = le_encode n v.
Proof.
  destruct (v <? 0); [|done]. apply le_encode_neg. rewrite Z.shiftl_mul_pow2; lia.
Qed.

(** [lpEncodeGetType] gives one of the forms, and its length. *)
Lemma enc_form x : elem_ok x -> lp_form x (lp_enc x) /\ snd (lpEncodeGetType x) = zlen (lp_enc x).
Proof.
  intros Hx. unfold lp_enc, lpEncodeGetType. rewrite lpStringToInt64_string2ll.
  destruct (string2ll x) as [v|] eqn:E.
  - apply string2ll_sound in E as [Hv ->]. unfold in_s in Hv.
    rewrite !Z.geb_leb.
    repeat (match goal with |- context [if ?a && ?b then _ else _] => destruct (a && b) eqn:? end; zbool);
      cbn [snd].
    + rewrite wrapu_small by (unfold in_u; lia). split; [by constructor|done].
    + rewrite land_255, neg_13 by lia. split; [|done]. constructor; [|done]. unfold in_s. simpl. lia.
    + rewrite (int_bytes 1), (enc_neg 2). split; [|done].
      apply (form_int 241); [set_solver|unfold in_s; simpl; lia].
    + rewrite (int_bytes 2), (enc_neg 3). split; [|done].
      apply (form_int 242); [set_solver|unfold in_s; simpl; lia].
    + rewrite (int_bytes 3), (enc_neg 4). split; [|done].
      apply (form_int 243); [set_solver|unfold in_s; simpl; lia].
    + rewrite (int_bytes 7). replace (le_encode 8 (wrapu 64 v)) with (le_encode 8 v).
      * split; [|done]. apply (form_int 244); [set_solver|exact Hv].
      * apply le_encode_wrap. rewrite !le_decode_encode. unfold wrapu. by rewrite Zmod_mod.
  - unfold elem_ok in Hx. pose proof (zlen_nonneg x). unfold str_enc. cbn [snd].
    repeat case_if; rewrite (wrapu_small 32) by (unfold in_u; lia); zl.
    + split; [by constructor|done].
    + rewrite land_255. split; [by constructor|done].
    + rewrite and_bytes_0. split; [by constructor|zl].
Qed.

Lemma lpEncodeString_spec a b c x :
  zlen b = zlen (str_enc x) ->
  lpEncodeString (a ++ b ++ c) (zlen a) x = Some (a ++ str_enc x ++ c).
Proof.
  assert (forall h s, zlen b = zlen (h ++ s) ->
    (buf ← wr (a ++ b ++ c) (zlen a) h; wr buf (zlen a + zlen h) s) = Some (a ++ (h ++ s) ++ c)) as H.
  { intros h s Hb. rewrite zlen_app in Hb.
    destruct (split_at b (zlen h)) as (b1 & b2 & -> & Hb1); [pose proof (zlen_nonneg h); pose proof (zlen_nonneg s); lia|].
    rewrite zlen_app in Hb. rewrite <- app_assoc, wr_app by lia. cbn [mbind option_bind].
    rewrite (app_assoc a h), wr_app by (rewrite ?zlen_app; lia). by rewrite <- !app_assoc. }
  unfold lpEncodeString, str_enc. intros Hb.
  repeat case_if; apply H; done.
Qed.

(** The tests the code performs on the first byte of an encoding, in order. *)
Definition lp_tests (b : Z) : list bool :=
  [LP_ENCODING_IS_7BIT_UINT b; LP_ENCODING_IS_6BIT_STR b; LP_ENCODING_IS_13BIT_INT b;
   LP_ENCODING_IS_16BIT_INT b; LP_ENCODING_IS_24BIT_INT b; LP_ENCODING_IS_32BIT_INT b;
   LP_ENCODING_IS_64BIT_INT b; LP_ENCODING_IS_12BIT_STR b; LP_ENCODING_IS_32BIT_STR b; b =? LP_EOF].

Definition lp_kind (b : Z) (i : nat) : Prop := take (S i) (lp_tests b) = replicate i false ++ [true].

#[global] Instance lp_kind_dec b i : Decision (lp_kind b i).
Proof. unfold lp_kind. apply _. Defined.

(** A first byte that carries [k] in its low bits. *)
Definition lp_carries (b tag mask : Z) (i : nat) (k : Z) : Prop :=
  b = wrapu 8 (Z.lor k tag) -> lp_kind b i /\ Z.land b mask = k.

Lemma first_byte tag mask i n k :
  forallb (fun k => bool_decide (lp_kind (wrapu 8 (Z.lor k tag)) i /\
                                 Z.land (wrapu 8 (Z.lor k tag)) mask = k)) (seqZ 0 n) = true ->
  0 <= k < n -> lp_carries (wrapu 8 (Z.lor k tag)) tag mask i k.
Proof.
  intros Hc Hk _. apply (small_check _ _ k) in Hc; [|done]. by apply bool_decide_eq_true in Hc.
Qed.

Lemma first_7 v : 0 <= v <= 127 -> lp_kind v 0 /\ Z.land v 127 = v.
Proof.
  intros Hv. pose proof (first_byte 0 127 0 128 v eq_refl ltac:(lia)) as H. unfold lp_carries in H.
  rewrite Z.lor_0_r, wrapu_small in H by (unfold in_u; lia). by apply H.
Qed.

Lemma first_13 v : in_u 13 v -> lp_carries (wrapu 8 (Z.lor (Z.shiftr v 8) 192)) 192 31 2 (Z.shiftr v 8).
Proof.
  intros [H1 H2]. apply (first_byte 192 31 2 32); [vm_compute; reflexivity|].
  rewrite Z.shiftr_div_pow2 by lia. split; [apply Z.div_pos|apply Z.div_lt_upper_bound]; lia.
Qed.

Lemma first_str6 n : 0 <= n < 64 -> lp_carries (wrapu 8 (Z.lor n 128)) 128 63 1 n.
Proof. intros Hn. by apply (first_byte 128 63 1 64). Qed.

Lemma first_str12 n :
  0 <= n < 4096 -> lp_carries (wrapu 8 (Z.lor (Z.shiftr n 8) 224)) 224 15 7 (Z.shiftr n 8).
Proof.
  intros Hn. apply (first_byte 224 15 7 16); [vm_compute; reflexivity|].
  rewrite Z.shiftr_div_pow2 by lia. split; [apply Z.div_pos|apply Z.div_lt_upper_bound]; lia.
Qed.

Lemma kind_not_eof b i : lp_kind b i -> (i < 9)%nat -> b <> LP_EOF.
Proof. intros Hk Hi ->. unfold lp_kind in Hk. do 9 (destruct i as [|i]; [by vm_compute in Hk|]). lia. Qed.

(** The first byte of an entry is not the terminator. *)
Lemma form_first x e : lp_form x e -> exists b e', e = b :: e' /\ b <> LP_EOF.
Proof.
  destruct 1 as [v Hv|v u Hv ->|b n v Hb Hv|x Hn Hx|x Hn Hx|x Hn Hx]; eexists _, _; (split; [reflexivity|]).
  - eapply kind_not_eof; [apply first_7|]; lia.
  - eapply kind_not_eof; [by apply first_13; [apply wrapu_range|]|lia].
  - rewrite !elem_of_cons, elem_of_nil in Hb. unfold LP_EOF. naive_solver lia.
  - pose proof (zlen_nonneg x). eapply kind_not_eof; [by apply first_str6|lia].
  - eapply kind_not_eof; [apply first_str12; [lia|done]|lia].
  - done.
Qed.

(** [first_tests H] decides the conditionals of the goal with [H : lp_kind b i]. *)
Ltac first_tests H :=
  unfold lp_kind, lp_tests in H; cbn [take replicate app] in H; injection H; intros;
  repeat match goal with E : ?t = _ |- context [if ?t then _ else _] => rewrite E end.

(** The four integer forms of more than two bytes. *)
Ltac int_cases H :=
  rewrite !elem_of_cons, elem_of_nil in H;
  destruct H as [[= -> ->]|[[= -> ->]|[[= -> ->]|[[= -> ->]|[]]]]].

Lemma len12 n b : 0 <= n -> Z.land b 15 = Z.shiftr n 8 -> LP_ENCODING_12BIT_STR_LEN b (n mod 256) = n.
Proof.
  intros Hn Hb. unfold LP_ENCODING_12BIT_STR_LEN. rewrite Hb, lor_shift, Z.shiftr_div_pow2;
    [|lia|lia|apply Z.mod_pos_bound; lia].
  change (2 ^ 8) with 256. pose proof (Z.div_mod n 256). lia.
Qed.

Lemma len32 P n T b : in_u 32 n -> LP_ENCODING_32BIT_STR_LEN (P ++ b :: le_encode 4 n ++ T) (zlen P) = Some n.
Proof.
  intros Hn. unfold LP_ENCODING_32BIT_STR_LEN.
  rewrite cons_middle, app_assoc, rd_app by zl. cbn [fmap option_fmap option_map].
  rewrite or_bytes_le, le_decode_encode by auto with redis. by rewrite Z.mod_small by done.
Qed.

Lemma zidx_second {A} (a b : A) l : zidx (a :: b :: l) 1 = Some b.
Proof. done. Qed.

Lemma encoded_size P x e T : lp_form x e -> lpCurrentEncodedSize (P ++ e ++ T) (zlen P) = Some (zlen e).
Proof.
  intros Hf. unfold lpCurrentEncodedSize. rewrite (zidx_here P _ (zlen P)) by done.
  destruct Hf as [v Hv|v u Hv ->|b n v Hb Hv|x Hn Hx|x Hn Hx|x Hn Hx]; cbn [app lookup list_lookup mbind option_bind].
  - destruct (first_7 v Hv) as [K _]. by first_tests K.
  - destruct (first_13 (wrapu 13 v) ltac:(auto with redis lia) eq_refl) as [K _]. by first_tests K.
  - int_cases Hb; done.
  - pose proof (zlen_nonneg x).
    destruct (first_str6 (zlen x) ltac:(lia) eq_refl) as [K E]. first_tests K.
    unfold LP_ENCODING_6BIT_STR_LEN. rewrite E. zl. f_equal. lia.
  - destruct (first_str12 (zlen x) ltac:(lia) eq_refl) as [K E]. first_tests K.
    rewrite (zidx_at P _ (zlen P) 1), zidx_second by done. cbn [mbind option_bind]. rewrite len12 by (done || lia). zl. f_equal. lia.
  - rewrite <- app_assoc, len32 by (unfold in_u; lia).
    change (Some (wrapu 32 (5 + zlen x)) = Some (zlen (240 :: le_encode 4 (zlen x) ++ x))).
    rewrite wrapu_small by (unfold in_u; lia). zl. f_equal. lia.
Qed.

(** ** Reading an element

    An integer is returned as such or, with [intbuf], as the text in the buffer; any other
    string as a pointer to its bytes in the listpack. *)
Definition lp_int_result (intbuf : bool) (v : Z) : lp_value :=
  if intbuf then LpBuf (sdec v) (zlen (sdec v)) else LpInt v.

Definition lp_reads (lp : list Z) (p : Z) (intbuf : bool) (x : list Z) : Prop :=
  match string2ll x with
  | Some v => lpGet lp p intbuf = Some (lp_int_result intbuf v)
  | None => exists q, lpGet lp p intbuf = Some (LpStr q (zlen x)) /\ rd lp q (zlen x) = Some x
  end.

Lemma lpGet_int_val intbuf uval negstart negmax v :
  in_s 64 v ->
  (if uval >=? negstart then - wraps 64 (wrapu 64 (negmax - uval)) - 1 else wraps 64 uval) = v ->
  lpGet_int intbuf uval negstart negmax = lp_int_result intbuf v.
Proof.
  intros Hv E. unfold lpGet_int. rewrite E. destruct intbuf; [|done].
  unfold snprintf_lld. rewrite take_ge; [done|].
  pose proof (zlen_sdec_20 v Hv). unfold zlen in *. unfold LP_INTBUF_SIZE. lia.
Qed.

Lemma lpGet_int_spec intbuf w v :
  0 < w <= 64 -> in_s w v ->
  lpGet_int intbuf (wrapu w v) (2 ^ (w - 1)) (2 ^ w - 1) = lp_int_result intbuf v.
Proof.
  intros Hw Hv. unfold in_s in Hv. pose proof (pow2_half w ltac:(lia)) as Hh.
  assert (2 ^ (w - 1) <= 2 ^ 63) by (apply Z.pow_le_mono_r; lia).
  apply lpGet_int_val; [unfold in_s; lia|].
  assert (wrapu w v = if v <? 0 then v + 2 ^ w else v) as ->.
  { unfold wrapu. destruct (Z.ltb_spec v 0).
    - rewrite <- (Z.mod_add v 1), Z.mod_small; lia.
    - rewrite Z.mod_small; lia. }
  rewrite Z.geb_leb. destruct (Z.ltb_spec v 0).
  - rewrite (proj2 (Z.leb_le _ _)) by lia.
    rewrite wrapu_small, wraps_small by (unfold in_u, in_s; lia). lia.
  - rewrite (proj2 (Z.leb_gt _ _)) by lia. apply wraps_small; unfold in_s; lia.
Qed.

Lemma get_int_bytes intbuf n v P T b :
  (0 < n <= 8)%nat -> in_s (8 * Z.of_nat n) v ->
  (bs ← rd (P ++ b :: le_encode n v ++ T) (zlen P + 1) (Z.of_nat n);
   Some (lpGet_int intbuf (or_bytes 0 bs) (2 ^ (8 * Z.of_nat n - 1)) (2 ^ (8 * Z.of_nat n) - 1)))
  = Some (lp_int_result intbuf v).
Proof.
  intros Hn Hv. rewrite cons_middle, app_assoc, rd_app by zl. cbn [mbind option_bind].
  rewrite or_bytes_le, le_decode_encode by auto with redis.
  rewrite <- (lpGet_int_spec intbuf (8 * Z.of_nat n) v) by (done || lia). done.
Qed.

Lemma reads_int lp p intbuf v :
  in_s 64 v -> lpGet lp p intbuf = Some (lp_int_result intbuf v) -> lp_reads lp p intbuf (sdec v).
Proof. intros Hv E. unfold lp_reads. by rewrite string2ll_complete. Qed.

Lemma reads_str P h x T intbuf :
  string2ll x = None ->
  lpGet (P ++ (h ++ x) ++ T) (zlen P) intbuf = Some (LpStr (zlen P + zlen h) (zlen x)) ->
  lp_reads (P ++ (h ++ x) ++ T) (zlen P) intbuf x.
Proof.
  intros Hn E. unfold lp_reads. rewrite Hn. eexists. split; [exact E|].
  rewrite <- app_assoc, (app_assoc P). apply rd_app; zl.
Qed.

Lemma get_form P x e T intbuf : lp_form x e -> lp_reads (P ++ e ++ T) (zlen P) intbuf x.
Proof.
  destruct 1 as [v Hv|v u Hv ->|b n v Hb Hv|x Hn Hx|x Hn Hx|x Hn Hx].
  - apply reads_int; [unfold in_s; lia|]. unfold lpGet. rewrite (zidx_here P _ (zlen P)) by done.
    cbn [app lookup list_lookup mbind option_bind].
    destruct (first_7 v Hv) as [K E]. first_tests K. rewrite E. f_equal.
    apply lpGet_int_val; [unfold in_s; lia|]. unfold UINT64_MAX.
    rewrite Z.geb_leb, (proj2 (Z.leb_gt _ _)) by lia. apply wraps_small; unfold in_s; lia.
  - apply reads_int; [unfold in_s in *; lia|]. unfold lpGet. rewrite (zidx_here P _ (zlen P)) by done.
    cbn [app lookup list_lookup mbind option_bind].
    destruct (first_13 (wrapu 13 v) ltac:(auto with redis lia) eq_refl) as [K E]. first_tests K.
    rewrite (zidx_at P _ (zlen P) 1), zidx_second by done. cbn [mbind option_bind]. f_equal.
    rewrite E, lor_shift, Z.shiftr_div_pow2; [|lia|lia|apply Z.mod_pos_bound; lia].
    change (2 ^ 8) with 256. rewrite Z.mul_comm, <- Z.div_mod by lia.
    by apply (lpGet_int_spec intbuf 13).
  - apply reads_int; [int_cases Hb; unfold in_s in *; lia|].
    unfold lpGet. rewrite (zidx_here P _ (zlen P)) by done. int_cases Hb;
      [exact (get_int_bytes intbuf 2 v P T 241 ltac:(lia) Hv)|exact (get_int_bytes intbuf 3 v P T 242 ltac:(lia) Hv)
      |exact (get_int_bytes intbuf 4 v P T 243 ltac:(lia) Hv)|exact (get_int_bytes intbuf 8 v P T 244 ltac:(lia) Hv)].
  - apply (reads_str P [_]); [done|]. unfold lpGet. rewrite (zidx_here P _ (zlen P)) by done.
    cbn [app lookup list_lookup mbind option_bind]. pose proof (zlen_nonneg x).
    destruct (first_str6 (zlen x) ltac:(lia) eq_refl) as [K E]. first_tests K.
    unfold LP_ENCODING_6BIT_STR_LEN. by rewrite E.
  - apply (reads_str P [_; _]); [done|]. unfold lpGet. rewrite (zidx_here P _ (zlen P)) by done.
    cbn [app lookup list_lookup mbind option_bind].
    destruct (first_str12 (zlen x) ltac:(lia) eq_refl) as [K E]. first_tests K.
    rewrite (zidx_at P _ (zlen P) 1), zidx_second by done. cbn [mbind option_bind].
    by rewrite len12 by (done || lia).
  - apply (reads_str P (240 :: _)); [done|]. unfold lpGet. rewrite (zidx_here P _ (zlen P)) by done.
    cbn [app lookup list_lookup mbind option_bind].
    rewrite <- app_assoc, len32 by (unfold in_u; lia). done.
Qed.

(** ** The size that follows an element, read backwards *)

Lemma backlen_more fuel lp p l s :
  0 <= s <= 21 -> 0 <= l -> zidx lp p = Some (Z.lor (Z.land (Z.shiftr l s) 127) 128) ->
  lpDecodeBacklen_loop (S fuel) lp p (l mod 2 ^ s) s =
    lpDecodeBacklen_loop fuel lp (p - 1) (l mod 2 ^ (s + 7)) (s + 7).
Proof.
  intros Hs Hl Hb. cbn [lpDecodeBacklen_loop]. rewrite Hb. cbn [mbind option_bind].
  set (k := Z.land (Z.shiftr l s) 127).
  assert (k = l / 2 ^ s mod 128) as Ek.
  { unfold k. rewrite <- Z.shiftr_div_pow2 by lia. apply (Z.land_ones _ 7). lia. }
  assert (0 <= k < 128) as Hk by (rewrite Ek; apply Z.mod_pos_bound; lia).
  pose proof (small_check (fun k => (Z.land (Z.lor k 128) 127 =? k) &&
    negb (Z.land (Z.lor k 128) 128 =? 0)) 128 k eq_refl Hk) as Hc. cbn beta in Hc. zbool.
  rewrite (proj2 (Z.eqb_neq _ 0)) by done. rewrite H, Z.gtb_ltb, (proj2 (Z.ltb_ge _ _)) by lia.
  f_equal. rewrite Z.lor_comm, lor_shift, Ek; [|lia|apply Z.mod_pos_bound; lia].
  rewrite Z.pow_add_r, Z.rem_mul_r by lia. change (2 ^ 7) with 128. lia.
Qed.

Lemma backlen_last fuel lp p l s :
  0 <= s <= 28 -> 0 <= l < 2 ^ (s + 7) -> zidx lp p = Some (wrapu 8 (Z.shiftr l s)) ->
  lpDecodeBacklen_loop (S fuel) lp p (l mod 2 ^ s) s = Some l.
Proof.
  intros Hs Hl Hb. cbn [lpDecodeBacklen_loop]. rewrite Hb. cbn [mbind option_bind].
  rewrite Z.shiftr_div_pow2 by lia. rewrite Z.pow_add_r in Hl by lia. change (2 ^ 7) with 128 in Hl.
  assert (0 <= l / 2 ^ s < 128) as Hk
    by (split; [apply Z.div_pos; lia|apply Z.div_lt_upper_bound; lia]).
  rewrite wrapu_small by (unfold in_u; lia).
  pose proof (small_check (fun k => (Z.land k 127 =? k) && (Z.land k 128 =? 0)) 128 _ eq_refl Hk) as Hc.
  cbn beta in Hc. zbool. rewrite H, H0. cbn [Z.eqb]. f_equal.
  rewrite Z.lor_comm, lor_shift; [|lia|apply Z.mod_pos_bound; lia].
  pose proof (Z.div_mod l (2 ^ s)). lia.
Qed.

(** Between one and five bytes, and the length read back from the last of them. *)
Lemma backlen_spec n Q T :
  0 <= n < 2 ^ 35 ->
  snd (lpEncodeBacklen n) = zlen (fst (lpEncodeBacklen n)) /\ 1 <= zlen (fst (lpEncodeBacklen n)) <= 5 /\
  lpDecodeBacklen (Q ++ fst (lpEncodeBacklen n) ++ T) (zlen Q + zlen (fst (lpEncodeBacklen n)) - 1) = Some n.
Proof.
  intros Hn. unfold lpEncodeBacklen.
  assert (forall l j p, 0 <= j -> p = zlen Q + j -> zidx (Q ++ l ++ T) p = zidx (l ++ T) j) as Hz
    by (intros; subst; by apply zidx_at).
  assert (forall l p, lpDecodeBacklen l p = lpDecodeBacklen_loop 5 l p (n mod 2 ^ 0) 0) as Hstart
    by (intros; change (2 ^ 0) with 1; by rewrite Z.mod_1_r).
  repeat case_if; cbn [fst snd]; (split; [done|]); (split; [done|]); rewrite Hstart; autorewrite with zlen.
  - apply backlen_last; [lia|simpl; lia|]. rewrite (Hz _ 0) by lia. by rewrite Z.shiftr_0_r.
  - rewrite backlen_more by (lia || by rewrite (Hz _ 1) by lia).
    apply backlen_last; [lia|simpl; lia|]. by rewrite (Hz _ 0) by lia.
  - rewrite backlen_more by (lia || by rewrite (Hz _ 2) by lia).
    rewrite backlen_more by (lia || by rewrite (Hz _ 1) by lia).
    apply backlen_last; [lia|simpl; lia|]. by rewrite (Hz _ 0) by lia.
  - rewrite backlen_more by (lia || by rewrite (Hz _ 3) by lia).
    rewrite backlen_more by (lia || by rewrite (Hz _ 2) by lia).
    rewrite backlen_more by (lia || by rewrite (Hz _ 1) by lia).
    apply backlen_last; [lia|simpl; lia|]. by rewrite (Hz _ 0) by lia.
  - rewrite backlen_more by (lia || by rewrite (Hz _ 4) by lia).
    rewrite backlen_more by (lia || by rewrite (Hz _ 3) by lia).
    rewrite backlen_more by (lia || by rewrite (Hz _ 2) by lia).
    rewrite backlen_more by (lia || by rewrite (Hz _ 1) by lia).
    apply backlen_last; [lia|simpl; lia|]. by rewrite (Hz _ 0) by lia.
Qed.

(** ** The representation *)

Definition lp_entry (x : list Z) : list Z := lp_enc x ++ fst (lpEncodeBacklen (zlen (lp_enc x))).
Definition lp_body (xs : list (list Z)) : list Z := concat (lp_entry <$> xs).
Definition lp_total (xs : list (list Z)) : Z := LP_HDR_SIZE + zlen (lp_body xs) + 1.

Definition lp_bytes (num : Z) (xs : list (list Z)) : list Z :=
  le_encode 4 (lp_total xs) ++ le_encode 2 num ++ lp_body xs ++ [LP_EOF].

(** The count of the header is exact or marked unknown. *)
Definition num_ok (num : Z) (xs : list (list Z)) : Prop :=
  num = LP_HDR_NUMELE_UNKNOWN \/ (num = zlen xs /\ zlen xs < LP_HDR_NUMELE_UNKNOWN).

Definition lp_rep (lp : list Z) (xs : list (list Z)) : Prop :=
  exists num, lp = lp_bytes num xs /\ num_ok num xs /\ lp_total xs <= UINT32_MAX /\ Forall elem_ok xs.

(** The pointer to the element that follows the elements [a]. *)
Definition lp_at (a : list (list Z)) : Z := LP_HDR_SIZE + zlen (lp_body a).

Lemma body_app a b : lp_body (a ++ b) = lp_body a ++ lp_body b.
Proof. unfold lp_body. by rewrite fmap_app, concat_app. Qed.

Lemma body_cons x b : lp_body (x :: b) = lp_entry x ++ lp_body b.
Proof. done. Qed.

Lemma body_one x : lp_body [x] = lp_entry x.
Proof. unfold lp_body. cbn. apply app_nil_r. Qed.

Lemma lp_at_snoc a x : lp_at (a ++ [x]) = lp_at a + zlen (lp_entry x).
Proof. unfold lp_at. rewrite body_app, body_one. zl. Qed.

(** What precedes the element after [a], and what follows it. *)
Definition lp_pre (num total : Z) (a : list (list Z)) : list Z :=
  le_encode 4 total ++ le_encode 2 num ++ lp_body a.
Definition lp_post (b : list (list Z)) : list Z := lp_body b ++ [LP_EOF].

Lemma lp_split num a b : lp_bytes num (a ++ b) = lp_pre num (lp_total (a ++ b)) a ++ lp_post b.
Proof. unfold lp_bytes, lp_pre, lp_post. by rewrite body_app, <- !app_assoc. Qed.

Lemma zlen_pre num total a : zlen (lp_pre num total a) = lp_at a.
Proof. unfold lp_pre, lp_at, LP_HDR_SIZE. zl. Qed.

Lemma zlen_lp_bytes num xs : zlen (lp_bytes num xs) = lp_total xs.
Proof. unfold lp_bytes, lp_total, LP_HDR_SIZE. zl. Qed.

Lemma post_cons x b : lp_post (x :: b) = lp_enc x ++ fst (lpEncodeBacklen (zlen (lp_enc x))) ++ lp_post b.
Proof. unfold lp_post. rewrite body_cons. unfold lp_entry. by rewrite <- !app_assoc. Qed.

Lemma post_first b : Forall elem_ok b ->
  exists c l, lp_post b = c :: l /\ (c = LP_EOF <-> b = []).
Proof.
  intros Hb. destruct Hb as [|x b Hx _]; [by eexists _, _|].
  destruct (form_first x (lp_enc x)) as (c & e & E & Hc); [by apply enc_form|].
  rewrite post_cons, E. eexists _, _. split; [reflexivity|]. by split.
Qed.

Lemma zlen_form x e : lp_form x e -> 1 <= zlen e < 2 ^ 32 + 2 /\ zlen e <= 2 ^ 32 - 1.
Proof.
  destruct 1 as [v Hv|v u Hv ->|b n v Hb Hv|x Hn Hx|x Hn Hx|x Hn Hx]; [done..|int_cases Hb; done| | |];
    pose proof (zlen_nonneg x); zl.
Qed.

Lemma backlen_size n :
  0 <= n < 2 ^ 35 -> snd (lpEncodeBacklen n) = zlen (fst (lpEncodeBacklen n)) /\
  1 <= zlen (fst (lpEncodeBacklen n)) <= 5.
Proof. intros Hn. destruct (backlen_spec n [] [] Hn) as (? & ? & _). done. Qed.

Lemma zlen_enc x : elem_ok x -> 1 <= zlen (lp_enc x) <= 2 ^ 32 - 1.
Proof. intros Hx. destruct (zlen_form x (lp_enc x)); [by apply enc_form|]. lia. Qed.

Lemma entry_size x : elem_ok x ->
  zlen (lp_entry x) = zlen (lp_enc x) + snd (lpEncodeBacklen (zlen (lp_enc x))) /\
  1 <= zlen (lp_entry x) < 2 ^ 33.
Proof.
  intros Hx. pose proof (zlen_enc x Hx). destruct (backlen_size (zlen (lp_enc x))) as [E ?]; [lia|].
  unfold lp_entry. rewrite E. zl.
Qed.

(** ** Moving between elements *)

Lemma current_size num a x b :
  elem_ok x -> lpCurrentEncodedSize (lp_bytes num (a ++ x :: b)) (lp_at a) = Some (zlen (lp_enc x)).
Proof.
  intros Hx. rewrite lp_split, post_cons, <- (zlen_pre num (lp_total (a ++ x :: b)) a).
  eapply encoded_size. by apply enc_form.
Qed.

Lemma skip_spec num a x b :
  elem_ok x -> lpSkip (lp_bytes num (a ++ x :: b)) (lp_at a) = Some (lp_at (a ++ [x])).
Proof.
  intros Hx. unfold lpSkip. rewrite current_size by done. cbn [mbind option_bind].
  destruct (entry_size x Hx) as [<- _]. by rewrite lp_at_snoc.
Qed.

(** The pointer at which the elements [b] start, or NULL when there are none. *)
Definition lp_ptr (a b : list (list Z)) : option Z := if b is [] then None else Some (lp_at a).

Lemma at_eof num a b :
  Forall elem_ok b ->
  exists c, zidx (lp_bytes num (a ++ b)) (lp_at a) = Some c /\
    (if c =? LP_EOF then None else Some (lp_at a)) = lp_ptr a b.
Proof.
  intros Hb. destruct (post_first b Hb) as (c & l & E & Hc). exists c.
  rewrite lp_split, (zidx_here (lp_pre num _ a)) by apply zlen_pre. rewrite E. split; [done|].
  unfold lp_ptr. destruct b as [|x b].
  - by rewrite (proj2 (Z.eqb_eq _ _)) by tauto.
  - rewrite (proj2 (Z.eqb_neq _ _)); [done|]. by intros ?%Hc.
Qed.

Lemma next_spec num a x b :
  Forall elem_ok (a ++ x :: b) -> lpNext (lp_bytes num (a ++ x :: b)) (lp_at a) = Some (lp_ptr (a ++ [x]) b).
Proof.
  intros Hok. apply Forall_app in Hok as [_ [Hx Hb]%Forall_cons]. unfold lpNext.
  rewrite skip_spec by done. cbn [mbind option_bind].
  replace (a ++ x :: b) with ((a ++ [x]) ++ b) by by rewrite <- app_assoc.
  destruct (at_eof num (a ++ [x]) b Hb) as (c & -> & E). cbn [mbind option_bind]. by rewrite E.
Qed.

Lemma first_spec num xs : Forall elem_ok xs -> lpFirst (lp_bytes num xs) = Some (lp_ptr [] xs).
Proof.
  intros Hok. unfold lpFirst. destruct (at_eof num [] xs Hok) as (c & Hc & E).
  change (lp_at []) with LP_HDR_SIZE in *. rewrite app_nil_l in Hc. rewrite Hc. cbn [mbind option_bind].
  by rewrite E.
Qed.

Lemma prev_spec num a x b :
  elem_ok x ->
  lpPrev (lp_bytes num (a ++ x :: b)) (lp_at (a ++ [x])) = Some (Some (lp_at a)).
Proof.
  intros Hx. unfold lpPrev. destruct (entry_size x Hx) as [Es Er]. pose proof (zlen_enc x Hx).
  rewrite lp_at_snoc. assert (LP_HDR_SIZE <= lp_at a) by (unfold lp_at; pose proof (zlen_nonneg (lp_body a)); lia).
  rewrite (proj2 (Z.eqb_neq _ _)) by lia.
  destruct (backlen_spec (zlen (lp_enc x)) (lp_pre num (lp_total (a ++ x :: b)) a ++ lp_enc x) (lp_post b))
    as (Eb & Hb & Hd); [lia|].
  rewrite lp_split, post_cons, app_assoc.
  assert (zlen (lp_pre num (lp_total (a ++ x :: b)) a ++ lp_enc x) = lp_at a + zlen (lp_enc x)) as Ez
    by (by rewrite zlen_app, zlen_pre).
  rewrite Ez in Hd. rewrite Es, Eb.
  replace (lp_at a + (zlen (lp_enc x) + zlen (fst (lpEncodeBacklen (zlen (lp_enc x))))) - 1)
    with (lp_at a + zlen (lp_enc x) + zlen (fst (lpEncodeBacklen (zlen (lp_enc x)))) - 1) by lia.
  rewrite Hd. cbn [mbind option_bind]. rewrite Eb, wrapu_small by (unfold in_u; lia). do 2 f_equal. lia.
Qed.

Lemma prev_first num xs : lpPrev (lp_bytes num xs) (lp_at []) = Some None.
Proof. done. Qed.

(** ** The header *)

Lemma num_range num xs : num_ok num xs -> in_u 16 num.
Proof. unfold num_ok, in_u, LP_HDR_NUMELE_UNKNOWN. pose proof (zlen_nonneg xs). lia. Qed.

Lemma total_pos xs : 7 <= lp_total xs.
Proof. unfold lp_total, LP_HDR_SIZE. pose proof (zlen_nonneg (lp_body xs)). lia. Qed.

Lemma get_total num xs : lp_total xs <= UINT32_MAX -> lpGetTotalBytes (lp_bytes num xs) = Some (lp_total xs).
Proof.
  intros Ht. unfold lpGetTotalBytes, lp_bytes.
  rewrite rd_front by zl. cbn [fmap option_fmap option_map].
  rewrite or_bytes_le, le_decode_encode by auto with redis.
  pose proof (total_pos xs). unfold UINT32_MAX in Ht. by rewrite Z.mod_small by lia.
Qed.

Lemma get_num total num T :
  in_u 16 num -> lpGetNumElements (le_encode 4 total ++ le_encode 2 num ++ T) = Some num.
Proof.
  intros Hn. unfold lpGetNumElements. rewrite rd_app by zl. cbn [fmap option_fmap option_map].
  rewrite or_bytes_le, le_decode_encode by auto with redis. by rewrite Z.mod_small.
Qed.

Lemma set_num total num num' T :
  lpSetNumElements (le_encode 4 total ++ le_encode 2 num ++ T) num' =
    Some (le_encode 4 total ++ le_encode 2 num' ++ T).
Proof. unfold lpSetNumElements. rewrite and_bytes_0. apply wr_app; zl. Qed.

Lemma set_total total total' T :
  lpSetTotalBytes (le_encode 4 total ++ T) total' = Some (le_encode 4 total' ++ T).
Proof. unfold lpSetTotalBytes. rewrite and_bytes_0. apply (wr_app []); zl. Qed.

Lemma body_length xs : Forall elem_ok xs -> zlen xs <= zlen (lp_body xs).
Proof.
  induction 1 as [|x xs Hx _ IH]; [done|]. rewrite body_cons. pose proof (entry_size x Hx). zl.
Qed.

Lemma rep_length_fuel num xs : Forall elem_ok xs -> (length xs <= length (lp_bytes num xs))%nat.
Proof.
  intros Hok. pose proof (body_length xs Hok). pose proof (zlen_lp_bytes num xs) as E.
  unfold lp_total, LP_HDR_SIZE, zlen in *. lia.
Qed.

(** ** Counting *)

Lemma length_loop num xs fuel : Forall elem_ok xs ->
  forall a b count, xs = a ++ b -> (length b <= fuel)%nat ->
  lpLength_loop fuel (lp_bytes num xs) (lp_ptr a b) count =
    Some (if b is [] then count else wrapu 32 (count + zlen b)).
Proof.
  intros Hok. induction fuel as [|fuel IH]; intros a b count -> Hf; (destruct b as [|x b]; [done|]);
    cbn [length] in Hf; [lia|].
  cbn [lp_ptr lpLength_loop]. rewrite next_spec by done. cbn [mbind option_bind].
  rewrite (IH (a ++ [x]) b); [|by rewrite <- app_assoc|lia]. f_equal. destruct b as [|y b].
  - zl. done.
  - unfold wrapu. rewrite Zplus_mod_idemp_l. zl. f_equal. lia.
Qed.

(** ** Seeking *)

Lemma seek_fwd num xs fuel : Forall elem_ok xs ->
  forall a b i, xs = a ++ b -> (length b <= fuel)%nat ->
  lpSeek_fwd fuel (lp_bytes num xs) (Z.of_nat i) (lp_ptr a b) = Some (lp_ptr (a ++ take i b) (drop i b)).
Proof.
  intros Hok. induction fuel as [|fuel IH]; intros a b i -> Hf;
    (destruct b as [|x b]; [by destruct i|]); cbn [length] in Hf; [lia|].
  cbn [lp_ptr lpSeek_fwd]. destruct i as [|i]; [by rewrite app_nil_r|].
  rewrite Z.gtb_ltb, (proj2 (Z.ltb_lt _ _)) by lia.
  rewrite next_spec by done. cbn [mbind option_bind].
  replace (Z.of_nat (S i) - 1) with (Z.of_nat i) by lia.
  rewrite (IH (a ++ [x]) b); [|by rewrite <- app_assoc|lia]. cbn [take drop]. by rewrite <- app_assoc.
Qed.

(** The pointer to the last element of [a]. *)
Definition lp_rptr (a : list (list Z)) : option Z :=
  if a is [] then None else Some (lp_at (take (length a - 1) a)).

Lemma rptr_snoc a x : lp_rptr (a ++ [x]) = Some (lp_at a).
Proof.
  unfold lp_rptr. rewrite length_app. cbn [length].
  rewrite take_app_le, take_ge by lia. by destruct a.
Qed.

Lemma prev_any num a b : Forall elem_ok (a ++ b) -> lpPrev (lp_bytes num (a ++ b)) (lp_at a) = Some (lp_rptr a).
Proof.
  intros Hok. destruct a as [|x a _] using rev_ind; [done|].
  rewrite rptr_snoc. rewrite <- app_assoc in *. apply prev_spec.
  apply Forall_app in Hok as [_ Hok]. by apply Forall_cons in Hok as [? _].
Qed.

Lemma last_spec num xs :
  Forall elem_ok xs -> lp_total xs <= UINT32_MAX -> lpLast (lp_bytes num xs) = Some (lp_rptr xs).
Proof.
  intros Hok Ht. unfold lpLast. rewrite get_total by done. cbn [mbind option_bind].
  replace (lp_total xs - 1) with (lp_at xs) by (unfold lp_total, lp_at; lia).
  pose proof (prev_any num xs []) as H. rewrite app_nil_r in H. by apply H.
Qed.

Lemma seek_bwd num xs fuel : Forall elem_ok xs ->
  forall a b (k : nat), xs = a ++ b -> (length a <= fuel)%nat ->
  lpSeek_bwd fuel (lp_bytes num xs) (- Z.of_nat k - 1) (lp_rptr a) = Some (lp_rptr (take (length a - k) a)).
Proof.
  intros Hok. induction fuel as [|fuel IH]; intros a b k -> Hf;
    (destruct a as [|x a _] using rev_ind; [done|]); rewrite length_app in *; cbn [length] in *; [lia|].
  rewrite rptr_snoc. cbn [lpSeek_bwd]. destruct k as [|k].
  - rewrite (proj2 (Z.ltb_ge _ _)) by lia. rewrite take_ge by (rewrite length_app; cbn; lia).
    by rewrite rptr_snoc.
  - rewrite (proj2 (Z.ltb_lt _ _)) by lia. rewrite <- app_assoc in *. rewrite prev_any by done.
    cbn [mbind option_bind]. replace (- Z.of_nat (S k) - 1 + 1) with (- Z.of_nat k - 1) by lia.
    rewrite (IH a ([x] ++ b)); [|done|lia]. replace (length a + 1 - S k)%nat with (length a - k)%nat by lia.
    by rewrite take_app_le by lia.
Qed.

(** ** Insertion, replacement and deletion *)

(** [memmove] of the last bytes of a block, to the right or to the left. *)
Lemma memmove_tail P R T F n :
  0 <= n -> zlen P + n + zlen T <= zlen (P ++ R ++ T ++ F) ->
  exists M G, zlen M = n /\ zlen (P ++ M ++ T ++ G) = zlen (P ++ R ++ T ++ F) /\
    memmove (P ++ R ++ T ++ F) (zlen P + n) (zlen P + zlen R) (zlen T) = Some (P ++ M ++ T ++ G).
Proof.
  intros Hn Hlen. rewrite zlen_app in Hlen. pose proof (zlen_nonneg T).
  destruct (split_at (R ++ T ++ F) n) as (M & S & E & HM); [lia|].
  rewrite E, zlen_app in Hlen. destruct (split_at S (zlen T)) as (T' & G & -> & HT); [lia|].
  exists M, G. split; [done|]. rewrite E. split; [zl|]. unfold memmove.
  rewrite <- E, (app_assoc P R), rd_app by zl. cbn [mbind option_bind].
  rewrite <- app_assoc, E, (app_assoc P M), wr_app by zl. by rewrite <- app_assoc.
Qed.

Lemma room_spec junk P R T w n old new :
  (w = LP_BEFORE -> R = []) -> old = zlen (P ++ R ++ T) -> new = old + n - zlen R ->
  0 <= n < 2 ^ 40 -> old < 2 ^ 40 -> 0 <= new ->
  exists M, zlen M = n /\
    lpInsert_room junk (P ++ R ++ T) w (zlen P) n (zlen R) old new = Some (P ++ M ++ T).
Proof.
  intros Hw Hold Hnew Hn Ho Hp.
  pose proof (zlen_nonneg P). pose proof (zlen_nonneg R). pose proof (zlen_nonneg T).
  assert (old = zlen P + zlen R + zlen T) as Hold' by zl.
  assert (forall F, zlen P + n + zlen T <= zlen (P ++ R ++ T ++ F) ->
    (match w with
     | LP_BEFORE => memmove (P ++ R ++ T ++ F) (zlen P + n) (zlen P) (wrapu 64 (old - zlen P))
     | _ => memmove (P ++ R ++ T ++ F) (zlen P + zlen R + wraps 64 (wrapu 64 (n - zlen R)))
              (zlen P + zlen R) (wrapu 64 (old - zlen P - zlen R))
     end) = memmove (P ++ R ++ T ++ F) (zlen P + n) (zlen P + zlen R) (zlen T)) as Hmove.
  { intros F HF. destruct w.
    - rewrite Hw in * by done. rewrite zlen_nil in *. rewrite wrapu_small by (unfold in_u; lia).
      f_equal; lia.
    - rewrite wraps_wrapu, wraps_small, wrapu_small by (unfold in_u, in_s; simpl; lia). f_equal; lia.
    - rewrite wraps_wrapu, wraps_small, wrapu_small by (unfold in_u, in_s; simpl; lia). f_equal; lia. }
  unfold lpInsert_room. rewrite Z.gtb_ltb. destruct (Z.ltb_spec old new).
  - destruct (realloc_grow junk (P ++ R ++ T) new) as (F & -> & HF); [lia|].
    rewrite <- !app_assoc. destruct (memmove_tail P R T F n) as (M & G & HM & HG & E); [lia|zl|].
    rewrite Hmove, E by zl. cbn [mbind option_bind]. exists M. split; [done|].
    rewrite (proj2 (Z.ltb_ge _ _)) by lia. do 4 f_equal.
    assert (G = []) as -> by (apply zlen_0_inv; zl). by rewrite app_nil_r.
  - destruct (memmove_tail P R T [] n) as (M & G & HM & HG & E); [lia|zl|].
    rewrite app_nil_r in E, HG. specialize (Hmove []). rewrite app_nil_r in Hmove.
    rewrite Hmove, E by zl. cbn [mbind option_bind]. exists M. split; [done|]. f_equal.
    destruct (Z.ltb_spec new old).
    + rewrite (app_assoc M), (app_assoc P). replace new with (zlen (P ++ M ++ T)) by zl. apply realloc_shrink.
    + assert (G = []) as -> by (apply zlen_0_inv; zl). by rewrite app_nil_r.
Qed.

(** Storing the new entry in the room made for it. *)
Lemma store_entry P M T e enctype intenc enclen :
  lpEncodeGetType e = (enctype, intenc, enclen) -> elem_ok e -> zlen M = zlen (lp_entry e) ->
  (lp ← (match enctype with
         | LP_ENCODING_INT => bs ← rd intenc 0 enclen; wr (P ++ M ++ T) (zlen P) bs
         | LP_ENCODING_STRING => lpEncodeString (P ++ M ++ T) (zlen P) e
         end);
   bs ← rd (fst (lpEncodeBacklen enclen)) 0 (snd (lpEncodeBacklen enclen));
   wr lp (zlen P + enclen) bs) = Some (P ++ lp_entry e ++ T).
Proof.
  intros E He HM. destruct (enc_form e He) as [_ El]. rewrite E in El. cbn in El. subst enclen.
  pose proof (zlen_enc e He). destruct (backlen_size (zlen (lp_enc e))) as [Eb _]; [lia|].
  assert (rd (fst (lpEncodeBacklen (zlen (lp_enc e)))) 0 (snd (lpEncodeBacklen (zlen (lp_enc e)))) =
    Some (fst (lpEncodeBacklen (zlen (lp_enc e))))) as Hbl.
  { rewrite Eb. rewrite <- (app_nil_r (fst _)) at 1. by apply rd_front. }
  unfold lp_entry in HM |- *. rewrite zlen_app in HM.
  destruct (split_at M (zlen (lp_enc e))) as (M1 & M2 & -> & HM1);
    [pose proof (zlen_nonneg (fst (lpEncodeBacklen (zlen (lp_enc e))))); lia|].
  rewrite zlen_app in HM. rewrite <- !app_assoc.
  assert ((match enctype with
         | LP_ENCODING_INT => bs ← rd intenc 0 (zlen (lp_enc e)); wr (P ++ M1 ++ M2 ++ T) (zlen P) bs
         | LP_ENCODING_STRING => lpEncodeString (P ++ M1 ++ M2 ++ T) (zlen P) e
         end) = Some (P ++ lp_enc e ++ M2 ++ T)) as ->.
  { unfold lp_enc in *. rewrite E in *. destruct enctype.
    - rewrite <- (app_nil_r intenc) at 1. rewrite rd_front by done. cbn [mbind option_bind]. by apply wr_app.
    - by apply lpEncodeString_spec. }
  cbn [mbind option_bind]. rewrite Hbl. cbn [mbind option_bind].
  rewrite (app_assoc P), wr_app by (rewrite ?zlen_app; lia). by rewrite <- app_assoc.
Qed.

Definition new_elems (ele : option (list Z)) : list (list Z) := if ele is Some e then [e] else [].

(** The header after the update of the number of elements. *)
Definition new_num (num : Z) (w : lp_where) (ele : option (list Z)) : Z :=
  if num =? LP_HDR_NUMELE_UNKNOWN then num
  else match w, ele with LP_REPLACE, Some _ => num | _, Some _ => num + 1 | _, None => num - 1 end.

Lemma update_num total num w ele xs T :
  num_ok num xs -> (ele = None -> 0 < zlen xs) ->
  (if (match w with LP_REPLACE => false | _ => true end) || (if ele is None then true else false) then
     n ← lpGetNumElements (le_encode 4 total ++ le_encode 2 num ++ T);
     if negb (n =? LP_HDR_NUMELE_UNKNOWN) then
       if ele is Some _ then lpSetNumElements (le_encode 4 total ++ le_encode 2 num ++ T) (wrapu 32 (n + 1))
       else lpSetNumElements (le_encode 4 total ++ le_encode 2 num ++ T) (wrapu 32 (n - 1))
     else Some (le_encode 4 total ++ le_encode 2 num ++ T)
   else Some (le_encode 4 total ++ le_encode 2 num ++ T))
  = Some (le_encode 4 total ++ le_encode 2 (new_num num w ele) ++ T).
Proof.
  intros Hnum Hpos. pose proof (num_range num xs Hnum) as Hr. unfold in_u in Hr.
  rewrite get_num by done. cbn [mbind option_bind]. unfold new_num.
  destruct Hnum as [-> |[-> ?]].
  - rewrite Z.eqb_refl. by destruct w, ele.
  - rewrite (proj2 (Z.eqb_neq _ _)) by lia.
    destruct w, ele as [e|]; cbn [orb negb]; rewrite ?set_num; try done;
      rewrite wrapu_small; try done; unfold in_u; try lia; specialize (Hpos eq_refl); lia.
Qed.

(** The elements [r] that an insertion at a pointer replaces. *)
Definition edits (w : lp_where) (ele : option (list Z)) (r : list (list Z)) : Prop :=
  (w = LP_BEFORE /\ r = [] /\ is_Some ele) \/ (w = LP_REPLACE /\ exists x, r = [x]).

Lemma new_num_ok num w ele a r b :
  edits w ele r -> num_ok num (a ++ r ++ b) -> num_ok (new_num num w ele) (a ++ new_elems ele ++ b).
Proof.
  unfold num_ok, new_num. intros He [->|[-> Hn]]; [by left; rewrite Z.eqb_refl|].
  rewrite (proj2 (Z.eqb_neq _ _)) by lia.
  destruct He as [(-> & -> & e & ->)|(-> & x & ->)]; [|destruct ele as [e|]]; cbn [new_elems] in *;
    rewrite !zlen_app, ?zlen_cons, ?zlen_nil in *; lia.
Qed.

Lemma replaced_size num a r b w ele :
  edits w ele r -> Forall elem_ok (a ++ r ++ b) -> lp_total (a ++ r ++ b) <= UINT32_MAX ->
  (match w with
   | LP_REPLACE =>
       n ← lpCurrentEncodedSize (lp_bytes num (a ++ r ++ b)) (lp_at a);
       Some (wrapu 32 (n + snd (lpEncodeBacklen n)))
   | _ => Some 0
   end) = Some (zlen (lp_body r)).
Proof.
  intros [(-> & -> & _)|(-> & x & ->)] Hok Ht; [done|].
  apply Forall_app in Hok as [_ [Hx _]%Forall_cons].
  change ([x] ++ b) with (x :: b). rewrite current_size by done. cbn [mbind option_bind].
  destruct (entry_size x Hx) as [<- ?]. rewrite body_one.
  unfold lp_total, UINT32_MAX, LP_HDR_SIZE in Ht. rewrite !body_app, body_one, !zlen_app in Ht.
  pose proof (zlen_nonneg (lp_body a)). pose proof (zlen_nonneg (lp_body b)).
  rewrite wrapu_small by (unfold in_u; lia). done.
Qed.

(** The pointer stored through [newp]. *)
Definition new_ptr (newp : bool) (ele : option (list Z)) (a b : list (list Z)) : option Z :=
  if newp then if ele is Some _ then Some (lp_at a) else lp_ptr a b else None.

Lemma total_edit a r b n :
  lp_total (a ++ r ++ b) + zlen (lp_body n) - zlen (lp_body r) = lp_total (a ++ n ++ b).
Proof. unfold lp_total. rewrite !body_app. zl. Qed.

Lemma edit_ptr P M a b ele (newp : bool) :
  zlen P = lp_at a -> zlen M = zlen (lp_body (new_elems ele)) -> Forall elem_ok b ->
  (if newp then
     match ele with
     | None => c ← zidx (P ++ M ++ lp_post b) (lp_at a); Some (if c =? LP_EOF then None else Some (lp_at a))
     | Some _ => Some (Some (lp_at a))
     end
   else Some None) = Some (new_ptr newp ele a b).
Proof.
  intros HP HM Hb. destruct newp; [|done]. destruct ele as [e|]; [done|].
  assert (M = []) as -> by (by apply zlen_0_inv).
  destruct (post_first b Hb) as (c & l & Ec & Hc). rewrite (zidx_here P) by done.
  rewrite app_nil_l, Ec. cbn [lookup list_lookup mbind option_bind new_ptr]. unfold lp_ptr. destruct b as [|x b].
  - by rewrite (proj2 (Z.eqb_eq c LP_EOF)) by tauto.
  - rewrite (proj2 (Z.eqb_neq c LP_EOF)); [done|]. by intros ?%Hc.
Qed.

(** The type, the integer encoding and the length that [lpInsert] computes. *)
Definition edit_enc (ele : option (list Z)) : lp_enctype * list Z * Z :=
  if ele is Some ele then lpEncodeGetType ele else (LP_ENCODING_STRING, [], 0).
Definition edit_backlen (ele : option (list Z)) (enclen : Z) : list Z * Z :=
  if ele is Some _ then lpEncodeBacklen enclen else ([], 0).

Lemma edit_size ele enctype intenc enclen backlen backlen_size :
  Forall elem_ok (new_elems ele) -> edit_enc ele = (enctype, intenc, enclen) ->
  edit_backlen ele enclen = (backlen, backlen_size) ->
  0 <= enclen + backlen_size < 2 ^ 40 /\ enclen + backlen_size = zlen (lp_body (new_elems ele)).
Proof.
  intros Hnew Ee Eb. destruct ele as [e|]; cbn [edit_enc edit_backlen] in *; [|by simplify_eq].
  cbn [new_elems] in *. apply Forall_cons in Hnew as [Hx _].
  destruct (enc_form e Hx) as [_ El]. rewrite Ee in El. cbn [snd] in El. subst enclen.
  rewrite body_one. destruct (entry_size e Hx) as [-> ?]. rewrite Eb in *. cbn [snd] in *. lia.
Qed.

Lemma edit_store P M T ele enctype intenc enclen backlen backlen_size :
  Forall elem_ok (new_elems ele) -> edit_enc ele = (enctype, intenc, enclen) ->
  edit_backlen ele enclen = (backlen, backlen_size) -> zlen M = enclen + backlen_size ->
  (match ele with
   | Some e =>
       lp ← (match enctype with
             | LP_ENCODING_INT => bs ← rd intenc 0 enclen; wr (P ++ M ++ T) (zlen P) bs
             | LP_ENCODING_STRING => lpEncodeString (P ++ M ++ T) (zlen P) e
             end);
       bs ← rd backlen 0 backlen_size;
       wr lp (zlen P + enclen) bs
   | None => Some (P ++ M ++ T)
   end) = Some (P ++ lp_body (new_elems ele) ++ T).
Proof.
  intros Hnew Ee Eb HM. destruct (edit_size _ _ _ _ _ _ Hnew Ee Eb) as [_ Hs]. rewrite Hs in HM.
  destruct ele as [e|]; cbn [edit_enc edit_backlen new_elems] in *.
  - apply Forall_cons in Hnew as [Hx _]. rewrite body_one in *.
    pose proof (store_entry P M T e enctype intenc enclen Ee Hx HM) as H. by rewrite Eb in H.
  - by assert (M = []) as -> by by apply zlen_0_inv.
Qed.

Lemma insert_core junk num a r b ele w newp :
  edits w ele r -> num_ok num (a ++ r ++ b) -> Forall elem_ok (a ++ r ++ b) ->
  lp_total (a ++ r ++ b) <= UINT32_MAX -> Forall elem_ok (new_elems ele) ->
  lpInsert junk (lp_bytes num (a ++ r ++ b)) ele (lp_at a) w newp =
    Some (if lp_total (a ++ new_elems ele ++ b) <=? UINT32_MAX
          then Some (lp_bytes (new_num num w ele) (a ++ new_elems ele ++ b), new_ptr newp ele a b)
          else None).
Proof.
  intros He Hnum Hok Ht Hnew.
  set (lp := lp_bytes num (a ++ r ++ b)). unfold lpInsert.
  assert ((if ele is None then LP_REPLACE else w) = w) as ->
    by (destruct He as [(-> & _ & e & ->)|(-> & _)]; [done|by destruct ele]).
  assert ((match w with LP_AFTER => p ← lpSkip lp (lp_at a); Some (p, LP_BEFORE) | _ => Some (lp_at a, w) end)
    = Some (lp_at a, w)) as -> by (by destruct He as [(-> & _)|(-> & _)]).
  cbn [mbind option_bind].
  fold (edit_enc ele). destruct (edit_enc ele) as [[enctype intenc] enclen] eqn:Ee.
  fold (edit_backlen ele enclen). destruct (edit_backlen ele enclen) as [backlen backlen_size] eqn:Eb.
  destruct (edit_size _ _ _ _ _ _ Hnew Ee Eb) as [Hsz Hlen].
  rewrite (get_total num _ Ht : lpGetTotalBytes lp = _). cbn [mbind option_bind].
  pose proof (replaced_size num a r b w ele He Hok Ht) as Hrep. fold lp in Hrep. rewrite Hrep.
  cbn [mbind option_bind].
  pose proof (total_pos (a ++ r ++ b)). pose proof (total_pos (a ++ new_elems ele ++ b)).
  pose proof (total_edit a r b (new_elems ele)) as Htot. unfold UINT32_MAX in *.
  rewrite (wrapu_small 64) by (unfold in_u; pose proof (zlen_nonneg (lp_body r)); lia).
  replace (lp_total (a ++ r ++ b) + enclen + backlen_size - zlen (lp_body r))
    with (lp_total (a ++ new_elems ele ++ b)) by lia.
  rewrite Z.gtb_ltb, Z.leb_antisym. destruct (Z.ltb_spec (2 ^ 32 - 1) (lp_total (a ++ new_elems ele ++ b)));
    cbn [negb]; [done|].
  set (P := lp_pre num (lp_total (a ++ r ++ b)) a).
  assert (lp = P ++ lp_body r ++ lp_post b) as Elp.
  { unfold lp, P. rewrite lp_split. unfold lp_post. by rewrite body_app, <- app_assoc. }
  assert (zlen P = lp_at a) as EP by apply zlen_pre.
  destruct (room_spec junk P (lp_body r) (lp_post b) w (enclen + backlen_size)
    (lp_total (a ++ r ++ b)) (lp_total (a ++ new_elems ele ++ b))) as (M & HM & Hroom).
  { intros ->. by destruct He as [(_ & -> & _)|[? _]]. }
  { by rewrite <- Elp, <- (zlen_lp_bytes num). }
  1-4: lia.
  rewrite EP in Hroom. rewrite Elp, Hroom. cbn [mbind option_bind].
  rewrite (edit_ptr P M a b ele newp EP) by (rewrite ?Forall_app in Hok; tauto || lia). cbn [mbind option_bind].
  rewrite <- EP, (edit_store P M (lp_post b) ele enctype intenc enclen backlen backlen_size) by done.
  cbn [mbind option_bind]. unfold P, lp_pre. rewrite <- !app_assoc.
  rewrite (update_num _ num w ele (a ++ r ++ b)); [|done|].
  - cbn [mbind option_bind]. rewrite set_total. unfold lp_bytes, lp_post. by rewrite !body_app, <- !app_assoc.
  - intros ->. destruct He as [(_ & _ & ? & ?)|(_ & x & ->)]; [done|].
    rewrite !zlen_app. pose proof (zlen_nonneg a). pose proof (zlen_nonneg b). change (zlen [x]) with 1. lia.
Qed.

(** ** Properties *)

(** The list after [lpInsert] at the element [x] between [a] and [b], and the pointer it
    returns through [newp]. *)
Definition spliced (w : lp_where) (ele : option (list Z)) (a : list (list Z)) (x : list Z)
  (b : list (list Z)) : list (list Z) :=
  match ele, w with
  | None, _ => a ++ b
  | Some e, LP_BEFORE => a ++ e :: x :: b
  | Some e, LP_AFTER => a ++ x :: e :: b
  | Some e, LP_REPLACE => a ++ e :: b
  end.

Definition spliced_ptr (w : lp_where) (ele : option (list Z)) (a : list (list Z)) (x : list Z)
  (b : list (list Z)) : option Z :=
  match ele, w with
  | None, _ => lp_ptr a b
  | Some _, LP_AFTER => Some (lp_at (a ++ [x]))
  | Some _, _ => Some (lp_at a)
  end.

Lemma insert_after junk num a x b e newp :
  elem_ok x ->
  lpInsert junk (lp_bytes num (a ++ x :: b)) (Some e) (lp_at a) LP_AFTER newp =
  lpInsert junk (lp_bytes num (a ++ x :: b)) (Some e) (lp_at (a ++ [x])) LP_BEFORE newp.
Proof. intros Hx. unfold lpInsert. rewrite skip_spec by done. done. Qed.

Lemma rep_edit junk num a r b ele w newp :
  edits w ele r -> num_ok num (a ++ r ++ b) -> Forall elem_ok (a ++ r ++ b) ->
  lp_total (a ++ r ++ b) <= UINT32_MAX -> Forall elem_ok (new_elems ele) ->
  exists res, lpInsert junk (lp_bytes num (a ++ r ++ b)) ele (lp_at a) w newp = Some res /\
    if decide (lp_total (a ++ new_elems ele ++ b) <= UINT32_MAX)
    then exists lp', res = Some (lp', new_ptr newp ele a b) /\ lp_rep lp' (a ++ new_elems ele ++ b)
    else res = None.
Proof.
  intros He Hnum Hok Ht Hnew. rewrite insert_core by done. eexists. split; [reflexivity|]. case_decide as Hd.
  - rewrite (proj2 (Z.leb_le _ _)) by done. eexists. split; [reflexivity|].
    eexists. split_and!; [reflexivity|by eapply new_num_ok|done|].
    rewrite !Forall_app in *. tauto.
  - rewrite (proj2 (Z.leb_gt _ _)) by lia. done.
Qed.

(** Every call of [lpInsert] edits the list at one place. *)
Lemma insert_as_edit junk num a x b ele w newp :
  elem_ok x ->
  exists a' r b' w', a ++ x :: b = a' ++ r ++ b' /\ edits w' ele r /\
    lpInsert junk (lp_bytes num (a ++ x :: b)) ele (lp_at a) w newp =
      lpInsert junk (lp_bytes num (a' ++ r ++ b')) ele (lp_at a') w' newp /\
    spliced w ele a x b = a' ++ new_elems ele ++ b' /\
    (if newp then spliced_ptr w ele a x b else None) = new_ptr newp ele a' b'.
Proof.
  intros Hx. destruct ele as [e|]; [destruct w|].
  - exists a, [], (x :: b), LP_BEFORE. by split_and!; [|left|..].
  - exists (a ++ [x]), [], b, LP_BEFORE. rewrite insert_after, <- !app_assoc by done. by split_and!; [|left|..].
  - exists a, [x], b, LP_REPLACE. by split_and!; [|right; split; [|exists x]|..].
  - exists a, [x], b, LP_REPLACE. by split_and!; [|right; split; [|exists x]|destruct w|..].
Qed.

(** C5 [lpInsert] at the pointer of any element [x] of a listpack inserts before it,
    inserts after it, replaces it or, without an element, deletes it, as its argument says,
    for every element that is shorter than [2 ^ 32 - 5] bytes: the result is a well-formed
    listpack of exactly the expected strings, the pointer returned through [newp] is that
    of the new element, or after a deletion that of the next one or NULL; NULL is
    returned instead exactly when the listpack would exceed [2 ^ 32 - 1] bytes. No access
    leaves the block. *)
Theorem lpInsert_refines junk lp a x b ele w newp :
  lp_rep lp (a ++ x :: b) -> Forall elem_ok (new_elems ele) ->
  let ys := spliced w ele a x b in
  exists res, lpInsert junk lp ele (lp_at a) w newp = Some res /\
    if decide (lp_total ys <= UINT32_MAX)
    then exists lp', res = Some (lp', if newp then spliced_ptr w ele a x b else None) /\ lp_rep lp' ys
    else res = None.
Proof.
  intros (num & -> & Hnum & Ht & Hok) Hnew ys.
  pose proof Hok as [_ [Hx _]%Forall_cons]%Forall_app.
  destruct (insert_as_edit junk num a x b ele w newp Hx) as (a' & r & b' & w' & E & He & -> & Es & ->).
  subst ys. rewrite Es. rewrite E in *. by apply rep_edit.
Qed.

(** [lpDelete] removes the element, and never fails. *)
Lemma lpDelete_removes junk lp a x b newp :
  lp_rep lp (a ++ x :: b) ->
  exists lp', lpDelete junk lp (lp_at a) newp = Some (Some (lp', if newp then lp_ptr a b else None)) /\
    lp_rep lp' (a ++ b).
Proof.
  intros (num & -> & Hnum & Ht & Hok).
  destruct (rep_edit junk num a [x] b None LP_REPLACE newp) as (res & E & Hres);
    [by right; split; [|exists x]|done..|].
  cbn [app new_elems] in *. rewrite decide_True in Hres.
  - destruct Hres as (lp' & -> & Hr). by exists lp'.
  - unfold lp_total, UINT32_MAX in *. rewrite body_app, zlen_app in *. rewrite body_cons, zlen_app in Ht.
    pose proof (zlen_nonneg (lp_entry x)). lia.
Qed.

(** [lpNew] and [lpAppend]. *)
Lemma lpNew_empty junk : exists lp, lpNew junk = Some lp /\ lp_rep lp [].
Proof.
  exists (lp_bytes 0 []). split; [done|]. exists 0. split_and!; [done|by right|done|done].
Qed.

Lemma lpAppend_appends junk lp xs e :
  lp_rep lp xs -> elem_ok e ->
  exists res, lpAppend junk lp e = Some res /\
    if decide (lp_total (xs ++ [e]) <= UINT32_MAX)
    then exists lp', res = Some lp' /\ lp_rep lp' (xs ++ [e]) else res = None.
Proof.
  intros (num & -> & Hnum & Ht & Hok) He. unfold lpAppend. rewrite get_total by done. cbn [mbind option_bind].
  replace (lp_total xs - 1) with (lp_at xs) by (unfold lp_total, lp_at; lia).
  destruct (rep_edit junk num xs [] [] (Some e) LP_BEFORE false) as (res & E & Hres);
    [by left|by rewrite app_nil_r..|by constructor|].
  cbn [app new_elems] in *. rewrite app_nil_r in E. rewrite E. cbn [mbind option_bind]. eexists. split; [done|].
  case_decide; [|by subst]. destruct Hres as (lp' & -> & Hr). by exists lp'.
Qed.

(** The position that an index of [lpSeek] denotes; negative indexes count from the end. *)
Definition seek_index (xs : list (list Z)) (index : Z) : Z := if index <? 0 then zlen xs + index else index.

Lemma ptr_drop xs i : lp_ptr (take i xs) (drop i xs) = if decide (i < length xs)%nat then Some (lp_at (take i xs)) else None.
Proof.
  unfold lp_ptr. case_decide as Hi.
  - destruct (drop i xs) eqn:E; [|done]. apply (f_equal length) in E. rewrite length_drop in E. cbn in E. lia.
  - by rewrite drop_ge by lia.
Qed.

Lemma rptr_take xs i : (i < length xs)%nat -> lp_rptr (take (S i) xs) = Some (lp_at (take i xs)).
Proof.
  intros Hi. destruct (lookup_lt_is_Some_2 xs i Hi) as [x Hx]. by rewrite (take_S_r _ _ _ Hx), rptr_snoc.
Qed.

Lemma seek_forward num xs i :
  Forall elem_ok xs -> 0 <= i ->
  (ele ← lpFirst (lp_bytes num xs); lpSeek_fwd (length (lp_bytes num xs)) (lp_bytes num xs) i ele) =
    Some (if decide (i < zlen xs) then Some (lp_at (take (Z.to_nat i) xs)) else None).
Proof.
  intros Hok Hi. rewrite first_spec by done. cbn [mbind option_bind].
  pose proof (seek_fwd num xs (length (lp_bytes num xs)) Hok [] xs (Z.to_nat i) eq_refl) as H.
  rewrite Z2Nat.id in H by done. rewrite H by by apply rep_length_fuel.
  rewrite app_nil_l, ptr_drop. f_equal. unfold zlen. by repeat case_decide; try lia.
Qed.

Lemma seek_backward num xs i :
  Forall elem_ok xs -> lp_total xs <= UINT32_MAX -> i < 0 ->
  (ele ← lpLast (lp_bytes num xs); lpSeek_bwd (length (lp_bytes num xs)) (lp_bytes num xs) i ele) =
    Some (if decide (0 <= zlen xs + i) then Some (lp_at (take (Z.to_nat (zlen xs + i)) xs)) else None).
Proof.
  intros Hok Ht Hi. rewrite last_spec by done. cbn [mbind option_bind].
  pose proof (seek_bwd num xs (length (lp_bytes num xs)) Hok xs [] (Z.to_nat (- i - 1))) as H.
  rewrite app_nil_r in H. specialize (H eq_refl (rep_length_fuel num xs Hok)).
  replace (- Z.of_nat (Z.to_nat (- i - 1)) - 1) with i in H by lia. rewrite H. f_equal. unfold zlen in *.
  case_decide.
  - replace (length xs - Z.to_nat (- i - 1))%nat with (S (Z.to_nat (Z.of_nat (length xs) + i))) by lia.
    apply rptr_take. lia.
  - by replace (length xs - Z.to_nat (- i - 1))%nat with 0%nat by lia.
Qed.

Lemma seek_spec num xs index :
  num_ok num xs -> Forall elem_ok xs -> lp_total xs <= UINT32_MAX ->
  lpSeek (lp_bytes num xs) index =
    Some (if decide (0 <= seek_index xs index < zlen xs)
          then Some (lp_at (take (Z.to_nat (seek_index xs index)) xs)) else None).
Proof.
  intros Hnum Hok Ht. unfold lpSeek.
  rewrite (get_num _ num _ (num_range num xs Hnum) : lpGetNumElements (lp_bytes num xs) = _).
  cbn [mbind option_bind]. pose proof (zlen_nonneg xs). unfold seek_index. destruct Hnum as [->|[-> Hn]].
  - rewrite Z.eqb_refl. cbn [negb]. destruct (Z.ltb_spec index 0); cbn [negb].
    + rewrite seek_backward by (done || lia). f_equal. by repeat case_decide; try lia.
    + rewrite seek_forward by (done || lia). f_equal. by repeat case_decide; try lia.
  - rewrite (proj2 (Z.eqb_neq _ _)) by lia. cbn [negb].
    set (i := if index <? 0 then zlen xs + index else index).
    rewrite Z.geb_leb, Z.gtb_ltb. destruct (Z.ltb_spec i 0); [by rewrite decide_False by lia|].
    destruct (Z.leb_spec (zlen xs) i); [by rewrite decide_False by lia|].
    rewrite (decide_True (P := 0 <= i < zlen xs)) by lia. case_if.
    + rewrite seek_backward by (done || lia). replace (zlen xs + (i - zlen xs)) with i by lia.
      by rewrite decide_True by lia.
    + rewrite seek_forward by (done || lia). by rewrite decide_True by lia.
Qed.

Lemma get_at num a x b intbuf :
  elem_ok x -> lp_reads (lp_bytes num (a ++ x :: b)) (lp_at a) intbuf x.
Proof.
  intros Hx. rewrite lp_split, post_cons, <- (zlen_pre num (lp_total (a ++ x :: b)) a).
  apply get_form. by apply enc_form.
Qed.

(** C6 [lpSeek] followed by [lpGet] is indexing: for every index, counted from the start or,
    when negative, from the end, [lpSeek] returns a pointer at which [lpGet] reads
    exactly the string that was stored (as an integer when it is the canonical decimal
    notation of one, as the bytes otherwise), and NULL when the index is out of range,
    whether or not the header still knows the number of elements. *)
Theorem lpSeek_lpGet_roundtrip lp xs index intbuf :
  lp_rep lp xs ->
  match xs !! Z.to_nat (seek_index xs index) with
  | Some x => if decide (0 <= seek_index xs index)
              then exists p, lpSeek lp index = Some (Some p) /\ lp_reads lp p intbuf x
              else lpSeek lp index = Some None
  | None => lpSeek lp index = Some None
  end.
Proof.
  intros (num & -> & Hnum & Ht & Hok). rewrite seek_spec by done. set (i := seek_index xs index).
  destruct (xs !! Z.to_nat i) as [x|] eqn:E; [case_decide as Hi|].
  - pose proof (lookup_lt_Some _ _ _ E). rewrite decide_True by (unfold zlen; lia).
    eexists. split; [done|]. rewrite <- (take_drop_middle _ _ _ E) at 1. apply get_at.
    by eapply Forall_lookup_1 in E.
  - by rewrite decide_False by lia.
  - apply lookup_ge_None_1 in E. rewrite decide_False; [done|]. unfold zlen. lia.
Qed.

(** [lpLength] returns the number of elements, also when the header does not know it;
    the listpack stays the same list, and its header is exact again when the number is below
    [65535]. *)
Theorem lpLength_counts lp xs :
  lp_rep lp xs ->
  exists lp', lpLength lp = Some (zlen xs, lp') /\ lp_rep lp' xs /\
    lpGetNumElements lp' = Some (zlen xs `min` LP_HDR_NUMELE_UNKNOWN).
Proof.
  intros (num & -> & Hnum & Ht & Hok). unfold lpLength. pose proof (zlen_nonneg xs).
  pose proof (get_num _ num _ (num_range num xs Hnum) : lpGetNumElements (lp_bytes num xs) = _) as Hg.
  rewrite Hg. cbn [mbind option_bind]. pose proof (body_length xs Hok).
  destruct (Z.eqb_spec num LP_HDR_NUMELE_UNKNOWN) as [->|Hne]; cbn [negb].
  - rewrite first_spec by done. cbn [mbind option_bind].
    rewrite (length_loop _ xs) by (done || by apply rep_length_fuel). cbn [mbind option_bind].
    assert ((if xs is [] then 0 else wrapu 32 (0 + zlen xs)) = zlen xs) as ->.
    { destruct xs; [done|]. unfold lp_total, LP_HDR_SIZE, UINT32_MAX in Ht. apply wrapu_small. unfold in_u. lia. }
    case_if.
    + rewrite (set_num _ _ (zlen xs) _ : lpSetNumElements (lp_bytes _ xs) _ = _). cbn [mbind option_bind].
      eexists. split; [done|]. split; [exists (zlen xs); split_and!; [done|by right|done|done]|].
      rewrite get_num by (unfold in_u, LP_HDR_NUMELE_UNKNOWN in *; lia). f_equal. lia.
    + cbn [mbind option_bind]. eexists. split; [done|].
      split; [exists LP_HDR_NUMELE_UNKNOWN; split_and!; [done|by left|done|done]|]. rewrite Hg. f_equal. lia.
  - destruct Hnum as [|[-> Hn]]; [done|]. eexists. split; [done|].
    split; [exists (zlen xs); split_and!; [done|by right|done|done]|]. rewrite Hg. f_equal. lia.
Qed.

(** [lpNext] and [lpPrev] walk the elements one by one and are inverse to each other:
    from an element [x] the next pointer is that of the following element, or NULL at the
    end, from which [lpPrev] leads back to [x]; [lpFirst] and [lpLast] are the two ends. *)
Theorem lpNext_lpPrev_inverse lp a x b :
  lp_rep lp (a ++ x :: b) ->
  lpNext lp (lp_at a) = Some (lp_ptr (a ++ [x]) b) /\
  lpPrev lp (lp_at (a ++ [x])) = Some (Some (lp_at a)) /\
  lpPrev lp (lp_at a) = Some (lp_rptr a) /\
  lpFirst lp = Some (Some (lp_at [])) /\
  lpLast lp = Some (lp_rptr (a ++ x :: b)).
Proof.
  intros (num & -> & Hnum & Ht & Hok).
  assert (elem_ok x) by (pose proof Hok as [_ [? _]%Forall_cons]%Forall_app; done).
  split_and!.
  - by apply next_spec.
  - by apply prev_spec.
  - by apply prev_any.
  - rewrite first_spec by done. by destruct a.
  - by apply last_spec.
Qed.

Lemma zlen_wr buf off bs buf' : wr buf off bs = Some buf' -> zlen buf' = zlen buf.
Proof.
  unfold wr. case_if; [|done]. intros [= <-]. unfold zlen in *.
  rewrite !length_app, length_take, length_drop. lia.
Qed.

Lemma encode_outside P b e :
  4096 <= zlen e -> zlen b < 5 + zlen e -> lpEncodeString (P ++ b) (zlen P) e = None.
Proof.
  intros He Hb. unfold lpEncodeString. rewrite !(proj2 (Z.ltb_ge (zlen e) _)) by lia.
  destruct (wr (P ++ b) (zlen P) _) as [buf|] eqn:E; [|done]. cbn [mbind option_bind].
  apply zlen_wr in E.
  unfold wr. rewrite E, zlen_app.
  rewrite (proj2 (Z.leb_gt (zlen P + 5 + zlen e) _)), andb_false_r by lia. done.
Qed.

(** An element of [2 ^ 32 - 5] bytes or more overflows the size of its encoding, which is computed on 32 bits as
    [5+size]: before an element of a listpack of fewer than [2 ^ 32 - 8] bytes, [lpInsert] does not return NULL as it does
    for every other element that does not fit, but has no defined result: it makes room for at most 5 bytes ([room_spec]) and
    the element does not fit there ([encode_outside]). *)
Theorem lpInsert_size_overflow junk lp a b e newp :
  lp_rep lp (a ++ b) -> lp_total (a ++ b) < 2 ^ 32 - 8 -> 2 ^ 32 - 5 <= zlen e < 2 ^ 32 ->
  lpInsert junk lp (Some e) (lp_at a) LP_BEFORE newp = None.
Proof.
  intros (num & -> & Hnum & _ & Hok) Ht He. unfold lpInsert, lpEncodeGetType. cbn [mbind option_bind].
  rewrite lpStringToInt64_string2ll, long_not_int by lia.
  rewrite !(proj2 (Z.ltb_ge (zlen e) _)) by lia.
  assert (wrapu 32 (5 + zlen e) = 5 + zlen e - 2 ^ 32) as ->.
  { unfold wrapu. rewrite <- (Z.mod_add _ (-1)), Z.mod_small; lia. }
  set (k := 5 + zlen e - 2 ^ 32). assert (0 <= k < 5) as Hk by lia. clearbody k.
  assert (lpEncodeBacklen k = ([k], 1)) as ->.
  { unfold lpEncodeBacklen. rewrite (proj2 (Z.leb_le _ _)), wrapu_small by (unfold in_u; lia). done. }
  pose proof (total_pos (a ++ b)). rewrite get_total by (unfold UINT32_MAX; lia). cbn [mbind option_bind].
  rewrite (wrapu_small 64) by (unfold in_u; lia). unfold UINT32_MAX.
  rewrite Z.gtb_ltb, (proj2 (Z.ltb_ge _ _)) by lia.
  rewrite lp_split, <- (zlen_pre num (lp_total (a ++ b)) a).
  set (P := lp_pre num (lp_total (a ++ b)) a).
  assert (zlen (P ++ lp_post b) = lp_total (a ++ b)) as Hz by (unfold P; by rewrite <- lp_split, zlen_lp_bytes).
  destruct (room_spec junk P [] (lp_post b) LP_BEFORE (k + 1) (lp_total (a ++ b))
    (lp_total (a ++ b) + k + 1 - 0)) as (M & HM & Hroom); [done|done|change (zlen (@nil Z)) with 0; lia|lia..|].
  cbn [app] in Hroom. change (zlen []) with 0 in Hroom. rewrite Hroom. cbn [mbind option_bind].
  rewrite (encode_outside P (M ++ lp_post b) e); [by destruct newp|lia|].
  rewrite zlen_app in *. pose proof (zlen_nonneg P). lia.
Qed.

Module Applied.

(** "7", "-300", "redis" and a string of 100 letters. *)
Definition words : list (list Z) :=
  [[55]; [45; 51; 48; 48]; [114; 101; 100; 105; 115]; replicate 100 97].

Definition words_lp : list Z := lp_bytes 4 words.

Lemma words_rep : lp_rep words_lp words.
Proof.
  exists 4. split_and!; [done|right; vm_compute; split; reflexivity|vm_compute; congruence|].
  apply (bool_decide_unpack _). vm_compute. exact I.
Qed.

Lemma lpInsert_refines_witness :
  exists res, lpInsert (fun _ => 0) words_lp (Some [49; 48]) (lp_at [[55]]) LP_AFTER true = Some res /\
    exists lp', res = Some (lp', Some (lp_at (take 2 words))) /\
      lp_rep lp' [[55]; [45; 51; 48; 48]; [49; 48]; [114; 101; 100; 105; 115]; replicate 100 97].
Proof.
  apply (lpInsert_refines (fun _ => 0) words_lp [[55]] [45; 51; 48; 48]
    [[114; 101; 100; 105; 115]; replicate 100 97] (Some [49; 48]) LP_AFTER true words_rep).
  apply (bool_decide_unpack _). vm_compute. exact I.
Defined.

Lemma lpSeek_lpGet_roundtrip_witness :
  exists p, lpSeek words_lp (-2) = Some (Some p) /\ lp_reads words_lp p false [114; 101; 100; 105; 115].
Proof. apply (lpSeek_lpGet_roundtrip words_lp words (-2) false words_rep). Defined.

Lemma lpLength_counts_witness :
  exists lp', lpLength words_lp = Some (4, lp') /\ lp_rep lp' words /\ lpGetNumElements lp' = Some 4.
Proof. apply (lpLength_counts words_lp words words_rep). Defined.

Lemma lpNext_lpPrev_inverse_witness :
  lpNext words_lp (lp_at [[55]]) = Some (Some (lp_at (take 2 words))) /\
  lpPrev words_lp (lp_at (take 2 words)) = Some (Some (lp_at [[55]])) /\
  lpPrev words_lp (lp_at [[55]]) = Some (Some (lp_at [])) /\
  lpFirst words_lp = Some (Some (lp_at [])) /\
  lpLast words_lp = Some (Some (lp_at (take 3 words))).
Proof.
  apply (lpNext_lpPrev_inverse words_lp [[55]] [45; 51; 48; 48]
    [[114; 101; 100; 105; 115]; replicate 100 97] words_rep).
Defined.

(** An element of [2 ^ 32 - 1] letters. *)
Definition huge : list Z := replicate (Z.to_nat (2 ^ 32 - 1)) 97.

Lemma zlen_huge : zlen huge = 2 ^ 32 - 1.
Proof. unfold zlen, huge. rewrite length_replicate, Z2Nat.id; lia. Qed.

#[local] Opaque huge.

Lemma lpInsert_size_overflow_witness :
  lpInsert (fun _ => 0) words_lp (Some huge) (lp_at [[55]]) LP_BEFORE false = None.
Proof.
  apply (lpInsert_size_overflow (fun _ => 0) words_lp [[55]] (drop 1 words) huge false words_rep).
  - vm_compute. reflexivity.
  - rewrite zlen_huge. lia.
Defined.

End Applied.
