(* ===== verification/Ziplist.v ===== *)
(** * Ziplists (ziplist.c, ziplist.h)

    A ziplist is the block of its bytes, a pointer into it an offset. The header fields are
    read and written through the macros of the file, in the byte order of the host with the
    [intrev] macros around each access. A read or write outside of the block, a failed
    assertion, a panic and a loop without end are [None]. *)

From S2P Require Import Prelude Endian Util.

Definition ZIPLIST_HEAD : Z := 0.
Definition ZIPLIST_TAIL : Z := 1.

Definition ZIP_END : Z := 255.
Definition ZIP_BIG_PREVLEN : Z := 254.

Definition ZIP_STR_MASK : Z := 192.
Definition ZIP_STR_06B : Z := Z.shiftl 0 6.
Definition ZIP_STR_14B : Z := Z.shiftl 1 6.
Definition ZIP_STR_32B : Z := Z.shiftl 2 6.
Definition ZIP_INT_16B : Z := Z.lor 192 (Z.shiftl 0 4).
Definition ZIP_INT_32B : Z := Z.lor 192 (Z.shiftl 1 4).
Definition ZIP_INT_64B : Z := Z.lor 192 (Z.shiftl 2 4).
Definition ZIP_INT_24B : Z := Z.lor 192 (Z.shiftl 3 4).
Definition ZIP_INT_8B : Z := 254.
Definition ZIP_INT_IMM_MASK : Z := 15.
Definition ZIP_INT_IMM_MIN : Z := 241.
Definition ZIP_INT_IMM_MAX : Z := 253.

Definition INT24_MAX : Z := 8388607.
Definition INT24_MIN : Z := - INT24_MAX - 1.
Definition UINT16_MAX : Z := 65535.

Definition ZIPLIST_HEADER_SIZE : Z := 10.
Definition ZIPLIST_END_SIZE : Z := 1.
Definition ZIPLIST_ENTRY_HEAD : Z := ZIPLIST_HEADER_SIZE.

Definition ZIP_IS_STR (enc : Z) : bool := Z.land enc ZIP_STR_MASK <? ZIP_STR_MASK.

Record zlentry := Zlentry {
  prevrawlensize : Z;
  prevrawlen : Z;
  lensize : Z;
  len : Z;
  headersize : Z;
  encoding : Z;
}.

Definition is_imm (encoding : Z) : bool := (encoding >=? ZIP_INT_IMM_MIN) && (encoding <=? ZIP_INT_IMM_MAX).

Definition zipIntSize (encoding : Z) : option Z :=
  if encoding =? ZIP_INT_8B then Some 1
  else if encoding =? ZIP_INT_16B then Some 2
  else if encoding =? ZIP_INT_24B then Some 3
  else if encoding =? ZIP_INT_32B then Some 4
  else if encoding =? ZIP_INT_64B then Some 8
  else if is_imm encoding then Some 0
  else None.

(** The bytes of [buf] that are stored, whose number is returned. *)
Definition encoding_buf (encoding rawlen : Z) : list Z :=
  if ZIP_IS_STR encoding then
    if rawlen <=? 63 then [wrapu 8 (Z.lor ZIP_STR_06B rawlen)]
    else if rawlen <=? 16383 then
      [wrapu 8 (Z.lor ZIP_STR_14B (Z.land (Z.shiftr rawlen 8) 63)); Z.land rawlen 255]
    else
      [ZIP_STR_32B; Z.land (Z.shiftr rawlen 24) 255; Z.land (Z.shiftr rawlen 16) 255;
       Z.land (Z.shiftr rawlen 8) 255; Z.land rawlen 255]
  else [encoding].

(** Without [p] only the size is computed. *)
Definition zipStoreEntryEncoding_size (encoding rawlen : Z) : Z := zlen (encoding_buf encoding rawlen).
Definition zipStoreEntryEncoding (zl : list Z) (p encoding rawlen : Z) : option (list Z * Z) :=
  zl ← wr zl p (encoding_buf encoding rawlen);
  Some (zl, zlen (encoding_buf encoding rawlen)).

Definition ZIP_ENTRY_ENCODING (zl : list Z) (ptr : Z) : option Z :=
  encoding ← zidx zl ptr;
  Some (if encoding <? ZIP_STR_MASK then Z.land encoding ZIP_STR_MASK else encoding).

(** The encoding, the size of its header and the length; the first of the four bytes of a
    length is shifted into the sign of an [int]. *)
Definition ZIP_DECODE_LENGTH (zl : list Z) (ptr : Z) : option (Z * Z * Z) :=
  encoding ← ZIP_ENTRY_ENCODING zl ptr;
  if encoding <? ZIP_STR_MASK then
    if encoding =? ZIP_STR_06B then
      b ← zidx zl ptr;
      Some (encoding, 1, Z.land b 63)
    else if encoding =? ZIP_STR_14B then
      b ← zidx zl ptr;
      b1 ← zidx zl (ptr + 1);
      Some (encoding, 2, Z.lor (Z.shiftl (Z.land b 63) 8) b1)
    else if encoding =? ZIP_STR_32B then
      b1 ← zidx zl (ptr + 1);
      b2 ← zidx zl (ptr + 2);
      b3 ← zidx zl (ptr + 3);
      b4 ← zidx zl (ptr + 4);
      if b1 <? 128 then
        Some (encoding, 5, Z.lor (Z.lor (Z.lor (Z.shiftl b1 24) (Z.shiftl b2 16)) (Z.shiftl b3 8)) b4)
      else None
    else None
  else
    n ← zipIntSize encoding;
    Some (encoding, 1, n).

(** The smallest encoding that holds a value. *)
Definition int_encoding (value : Z) : Z :=
  if (value >=? 0) && (value <=? 12) then wrapu 8 (ZIP_INT_IMM_MIN + value)
  else if (value >=? -128) && (value <=? 127) then ZIP_INT_8B
  else if (value >=? - 2 ^ 15) && (value <=? 2 ^ 15 - 1) then ZIP_INT_16B
  else if (value >=? INT24_MIN) && (value <=? INT24_MAX) then ZIP_INT_24B
  else if (value >=? - 2 ^ 31) && (value <=? 2 ^ 31 - 1) then ZIP_INT_32B
  else ZIP_INT_64B.

Definition zipTryEncoding (entry : list Z) : option (Z * Z) :=
  let entrylen := zlen entry in
  if (entrylen >=? 32) || (entrylen =? 0) then None
  else
    value ← string2ll entry;
    Some (value, int_encoding value).

Section ops.
Context `{Host}.
Variable junk : nat -> Z.

(** ** The header *)

Definition ZIPLIST_BYTES (zl : list Z) : option Z := host_uint <$> rd zl 0 4.
Definition ZIPLIST_TAIL_OFFSET (zl : list Z) : option Z := host_uint <$> rd zl 4 4.
Definition ZIPLIST_LENGTH (zl : list Z) : option Z := host_uint <$> rd zl 8 2.

Definition set_ZIPLIST_BYTES (zl : list Z) (v : Z) : option (list Z) := wr zl 0 (host_bytes 4 v).
Definition set_ZIPLIST_TAIL_OFFSET (zl : list Z) (v : Z) : option (list Z) := wr zl 4 (host_bytes 4 v).
Definition set_ZIPLIST_LENGTH (zl : list Z) (v : Z) : option (list Z) := wr zl 8 (host_bytes 2 v).

Definition ZIPLIST_ENTRY_TAIL (zl : list Z) : option Z := intrev32ifbe <$> ZIPLIST_TAIL_OFFSET zl.
Definition ZIPLIST_ENTRY_END (zl : list Z) : option Z :=
  bytes ← ZIPLIST_BYTES zl; Some (intrev32ifbe bytes - 1).

(** [ZIPLIST_TAIL_OFFSET(zl) = intrev32ifbe(intrev32ifbe(ZIPLIST_TAIL_OFFSET(zl))+n)]. *)
Definition add_tail (zl : list Z) (n : Z) : option (list Z) :=
  tail ← ZIPLIST_TAIL_OFFSET zl;
  set_ZIPLIST_TAIL_OFFSET zl (intrev32ifbe (wrapu 32 (intrev32ifbe tail + n))).

Definition ZIPLIST_INCR_LENGTH (zl : list Z) (incr : Z) : option (list Z) :=
  length ← ZIPLIST_LENGTH zl;
  if length <? UINT16_MAX then
    set_ZIPLIST_LENGTH zl (intrev16ifbe (wrapu 16 (intrev16ifbe length + incr)))
  else Some zl.

(** ** Entries *)

Definition zipStorePrevEntryLengthLarge (zl : list Z) (p len : Z) : option (list Z * Z) :=
  zl ← wr zl p [ZIP_BIG_PREVLEN];
  zl ← wr zl (p + 1) (host_bytes 4 len);
  bs ← rd zl (p + 1) 4;
  bs ← memrev32ifbe bs;
  zl ← wr zl (p + 1) bs;
  Some (zl, 5).

Definition zipStorePrevEntryLength_size (len : Z) : Z := if len <? ZIP_BIG_PREVLEN then 1 else 5.

Definition zipStorePrevEntryLength (zl : list Z) (p len : Z) : option (list Z * Z) :=
  if len <? ZIP_BIG_PREVLEN then
    zl ← wr zl p [wrapu 8 len];
    Some (zl, 1)
  else zipStorePrevEntryLengthLarge zl p len.

Definition ZIP_DECODE_PREVLENSIZE (zl : list Z) (ptr : Z) : option Z :=
  b ← zidx zl ptr;
  Some (if b <? ZIP_BIG_PREVLEN then 1 else 5).

Definition ZIP_DECODE_PREVLEN (zl : list Z) (ptr : Z) : option (Z * Z) :=
  prevlensize ← ZIP_DECODE_PREVLENSIZE zl ptr;
  if prevlensize =? 1 then
    prevlen ← zidx zl ptr;
    Some (prevlensize, prevlen)
  else
    bs ← rd zl (ptr + 1) 4;
    bs ← memrev32ifbe bs;
    Some (prevlensize, host_uint bs).

Definition zipPrevLenByteDiff (zl : list Z) (p len : Z) : option Z :=
  prevlensize ← ZIP_DECODE_PREVLENSIZE zl p;
  Some (zipStorePrevEntryLength_size len - prevlensize).

Definition zipRawEntryLength (zl : list Z) (p : Z) : option Z :=
  prevlensize ← ZIP_DECODE_PREVLENSIZE zl p;
  '(_, lensize, len) ← ZIP_DECODE_LENGTH zl (p + prevlensize);
  Some (wrapu 32 (prevlensize + lensize + len)).

(** [memcpy(p,&i,n); memrevNifbe(p)] and the converse. *)
Definition save_word (memrevifbe : list Z -> option (list Z)) (n : nat) (zl : list Z) (p v : Z) : option (list Z) :=
  zl ← wr zl p (host_bytes n v);
  bs ← rd zl p (Z.of_nat n);
  bs ← memrevifbe bs;
  wr zl p bs.

Definition load_word (memrevifbe : list Z -> option (list Z)) (n : nat) (zl : list Z) (p : Z) : option Z :=
  bs ← rd zl p (Z.of_nat n);
  bs ← memrevifbe bs;
  Some (wraps (8 * Z.of_nat n) (host_uint bs)).

Definition zipSaveInteger (zl : list Z) (p value encoding : Z) : option (list Z) :=
  if encoding =? ZIP_INT_8B then wr zl p [wrapu 8 value]
  else if encoding =? ZIP_INT_16B then save_word memrev16ifbe 2 zl p value
  else if encoding =? ZIP_INT_24B then
    i32 ← memrev32ifbe (host_bytes 4 (Z.shiftl value 8));
    bs ← rd i32 1 3;
    wr zl p bs
  else if encoding =? ZIP_INT_32B then save_word memrev32ifbe 4 zl p value
  else if encoding =? ZIP_INT_64B then save_word memrev64ifbe 8 zl p value
  else if is_imm encoding then Some zl
  else None.

Definition zipLoadInteger (zl : list Z) (p encoding : Z) : option Z :=
  if encoding =? ZIP_INT_8B then b ← zidx zl p; Some (wraps 8 b)
  else if encoding =? ZIP_INT_16B then load_word memrev16ifbe 2 zl p
  else if encoding =? ZIP_INT_32B then load_word memrev32ifbe 4 zl p
  else if encoding =? ZIP_INT_24B then
    bs ← rd zl p 3;
    i32 ← wr (host_bytes 4 0) 1 bs;
    i32 ← memrev32ifbe i32;
    Some (Z.shiftr (wraps 32 (host_uint i32)) 8)
  else if encoding =? ZIP_INT_64B then load_word memrev64ifbe 8 zl p
  else if is_imm encoding then Some (Z.land encoding ZIP_INT_IMM_MASK - 1)
  else None.

Definition zipEntry (zl : list Z) (p : Z) : option zlentry :=
  '(prevrawlensize, prevrawlen) ← ZIP_DECODE_PREVLEN zl p;
  '(encoding, lensize, len) ← ZIP_DECODE_LENGTH zl (p + prevrawlensize);
  Some (Zlentry prevrawlensize prevrawlen lensize len (wrapu 32 (prevrawlensize + lensize)) encoding).

(** ** Operations *)

Definition ziplistNew : option (list Z) :=
  let bytes := ZIPLIST_HEADER_SIZE + 1 in
  let zl := realloc junk [] bytes in
  zl ← set_ZIPLIST_BYTES zl (intrev32ifbe bytes);
  zl ← set_ZIPLIST_TAIL_OFFSET zl (intrev32ifbe ZIPLIST_HEADER_SIZE);
  zl ← set_ZIPLIST_LENGTH zl 0;
  wr zl (bytes - 1) [ZIP_END].

Definition ziplistResize (zl : list Z) (len : Z) : option (list Z) :=
  let len := wrapu 32 len in
  let zl := realloc junk zl len in
  zl ← set_ZIPLIST_BYTES zl (intrev32ifbe len);
  wr zl (wrapu 32 (len - 1)) [ZIP_END].

(** The loop of [__ziplistCascadeUpdate], one unit of fuel per iteration. *)
Fixpoint cascade_loop (fuel : nat) (zl : list Z) (p curlen : Z) : option (list Z) :=
  b ← zidx zl p;
  if b =? ZIP_END then Some zl
  else
    match fuel with
    | O => None
    | S fuel =>
        cur ← zipEntry zl p;
        let rawlen := wrapu 32 (headersize cur + len cur) in
        let rawlensize := zipStorePrevEntryLength_size rawlen in
        b ← zidx zl (p + rawlen);
        if b =? ZIP_END then Some zl
        else
          next ← zipEntry zl (p + rawlen);
          if prevrawlen next =? rawlen then Some zl
          else if prevrawlensize next <? rawlensize then
            let extra := rawlensize - prevrawlensize next in
            zl ← ziplistResize zl (curlen + extra);
            let np := p + rawlen in
            tail ← ZIPLIST_ENTRY_TAIL zl;
            zl ← (if negb (tail =? np) then add_tail zl extra else Some zl);
            zl ← memmove zl (np + rawlensize) (np + prevrawlensize next)
                   (curlen - np - prevrawlensize next - 1);
            '(zl, _) ← zipStorePrevEntryLength zl np rawlen;
            cascade_loop fuel zl (p + rawlen) (curlen + extra)
          else
            '(zl, _) ← (if prevrawlensize next >? rawlensize
                        then zipStorePrevEntryLengthLarge zl (p + rawlen) rawlen
                        else zipStorePrevEntryLength zl (p + rawlen) rawlen);
            Some zl
    end.

Definition __ziplistCascadeUpdate (zl : list Z) (p : Z) : option (list Z) :=
  bytes ← ZIPLIST_BYTES zl;
  cascade_loop (length zl) zl p (intrev32ifbe bytes).

(** [for (i = 0; p[0] != ZIP_END && i < num; i++) { p += zipRawEntryLength(p); deleted++; }] *)
Fixpoint skip_entries (fuel : nat) (zl : list Z) (p i num : Z) : option (Z * Z) :=
  b ← zidx zl p;
  if negb (b =? ZIP_END) && (i <? num) then
    match fuel with
    | O => None
    | S fuel =>
        n ← zipRawEntryLength zl p;
        skip_entries fuel zl (p + n) (i + 1) num
    end
  else Some (p, i).

(** The tail of the list moves to the front over the deleted entries; the difference in
    the size of its first entry is returned. *)
Definition delete_move (zl : list Z) (first_p first_prevrawlen p totlen : Z) : option (list Z * Z) :=
  nextdiff ← zipPrevLenByteDiff zl p first_prevrawlen;
  let p := p - nextdiff in
  '(zl, _) ← zipStorePrevEntryLength zl p first_prevrawlen;
  zl ← add_tail zl (- totlen);
  tail ← zipEntry zl p;
  b ← zidx zl (p + wrapu 32 (headersize tail + len tail));
  zl ← (if negb (b =? ZIP_END) then add_tail zl nextdiff else Some zl);
  bytes ← ZIPLIST_BYTES zl;
  zl ← memmove zl first_p p (intrev32ifbe bytes - p - 1);
  Some (zl, nextdiff).

Definition __ziplistDelete (zl : list Z) (p num : Z) : option (list Z) :=
  first ← zipEntry zl p;
  let first_p := p in
  '(p, deleted) ← skip_entries (length zl) zl p 0 num;
  let totlen := wrapu 32 (p - first_p) in
  if totlen >? 0 then
    b ← zidx zl p;
    '(zl, nextdiff) ←
      (if negb (b =? ZIP_END) then delete_move zl first_p (prevrawlen first) p totlen
       else zl ← set_ZIPLIST_TAIL_OFFSET zl (intrev32ifbe (wrapu 32 (first_p - prevrawlen first)));
            Some (zl, 0));
    bytes ← ZIPLIST_BYTES zl;
    zl ← ziplistResize zl (intrev32ifbe bytes - totlen + nextdiff);
    zl ← ZIPLIST_INCR_LENGTH zl (- deleted);
    if negb (nextdiff =? 0) then __ziplistCascadeUpdate zl first_p else Some zl
  else Some zl.

(** The room for the new entry and the update of the entry that follows it. *)
Definition insert_move (zl : list Z) (p curlen reqlen nextdiff : Z) (forcelarge : bool) : option (list Z) :=
  zl ← memmove zl (p + reqlen) (p - nextdiff) (curlen - p - 1 + nextdiff);
  '(zl, _) ← (if forcelarge then zipStorePrevEntryLengthLarge zl (p + reqlen) (wrapu 32 reqlen)
              else zipStorePrevEntryLength zl (p + reqlen) (wrapu 32 reqlen));
  zl ← add_tail zl reqlen;
  tail ← zipEntry zl (p + reqlen);
  b ← zidx zl (p + (reqlen + headersize tail + len tail));
  if negb (b =? ZIP_END) then add_tail zl nextdiff else Some zl.

(** From the resize to the cascading update of the entries behind. *)
Definition insert_room (zl : list Z) (p curlen reqlen nextdiff : Z) (forcelarge : bool) : option (list Z) :=
  zl ← ziplistResize zl (curlen + reqlen + nextdiff);
  b ← zidx zl p;
  zl ← (if negb (b =? ZIP_END) then insert_move zl p curlen reqlen nextdiff forcelarge
        else set_ZIPLIST_TAIL_OFFSET zl (intrev32ifbe (wrapu 32 p)));
  if negb (nextdiff =? 0) then __ziplistCascadeUpdate zl (p + reqlen) else Some zl.

(** The length of the entry before [p]. *)
Definition insert_prevlen (zl : list Z) (p : Z) : option Z :=
  b ← zidx zl p;
  if negb (b =? ZIP_END) then snd <$> ZIP_DECODE_PREVLEN zl p
  else
    ptail ← ZIPLIST_ENTRY_TAIL zl;
    b ← zidx zl ptail;
    if negb (b =? ZIP_END) then zipRawEntryLength zl ptail else Some 0.

Definition insert_write (zl : list Z) (p prevlen encoding value : Z) (s : list Z) : option (list Z) :=
  '(zl, n) ← zipStorePrevEntryLength zl p prevlen;
  let p := p + n in
  '(zl, n) ← zipStoreEntryEncoding zl p encoding (zlen s);
  let p := p + n in
  if ZIP_IS_STR encoding then wr zl p s else zipSaveInteger zl p value encoding.

Definition __ziplistInsert (zl : list Z) (p : Z) (s : list Z) : option (list Z) :=
  bytes ← ZIPLIST_BYTES zl;
  let curlen := intrev32ifbe bytes in
  let slen := zlen s in
  prevlen ← insert_prevlen zl p;
  let '(value, encoding) := default (123456789, 0) (zipTryEncoding s) in
  reqlen ← (if zipTryEncoding s is Some _ then zipIntSize encoding else Some slen);
  let reqlen := reqlen + zipStorePrevEntryLength_size prevlen in
  let reqlen := reqlen + zipStoreEntryEncoding_size encoding slen in
  b ← zidx zl p;
  nextdiff ← (if negb (b =? ZIP_END) then zipPrevLenByteDiff zl p (wrapu 32 reqlen) else Some 0);
  let forcelarge := (nextdiff =? -4) && (reqlen <? 4) in
  let nextdiff := if forcelarge then 0 else nextdiff in
  zl ← insert_room zl p curlen reqlen nextdiff forcelarge;
  zl ← insert_write zl p prevlen encoding value s;
  ZIPLIST_INCR_LENGTH zl 1.

(** The two pointers may be NULL or equal ([same]). The result is [None] for NULL, or whether
    the second list was appended to the block of the first one, and the block. *)
Definition ziplistMerge (same : bool) (first second : option (list Z)) : option (option (bool * list Z)) :=
  match first, second with
  | Some first, Some second =>
      if same then Some None
      else
        first_bytes ← ZIPLIST_BYTES first;
        first_len ← ZIPLIST_LENGTH first;
        second_bytes ← ZIPLIST_BYTES second;
        second_len ← ZIPLIST_LENGTH second;
        let first_bytes := intrev32ifbe first_bytes in
        let first_len := intrev16ifbe first_len in
        let second_bytes := intrev32ifbe second_bytes in
        let second_len := intrev16ifbe second_len in
        let append := first_len >=? second_len in
        let '(target, target_bytes, source, source_bytes) :=
          if append then (first, first_bytes, second, second_bytes)
          else (second, second_bytes, first, first_bytes) in
        let zlbytes := first_bytes + second_bytes - ZIPLIST_HEADER_SIZE - ZIPLIST_END_SIZE in
        let zllength := first_len + second_len in
        let zllength := if zllength <? UINT16_MAX then zllength else UINT16_MAX in
        first_offset ← ZIPLIST_TAIL_OFFSET first;
        second_offset ← ZIPLIST_TAIL_OFFSET second;
        let first_offset := intrev32ifbe first_offset in
        let second_offset := intrev32ifbe second_offset in
        let target := realloc junk target zlbytes in
        target ←
          (if append then
             bs ← rd source ZIPLIST_HEADER_SIZE (source_bytes - ZIPLIST_HEADER_SIZE);
             wr target (target_bytes - ZIPLIST_END_SIZE) bs
           else
             target ← memmove target (source_bytes - ZIPLIST_END_SIZE) ZIPLIST_HEADER_SIZE
                        (target_bytes - ZIPLIST_HEADER_SIZE);
             bs ← rd source 0 (source_bytes - ZIPLIST_END_SIZE);
             wr target 0 bs);
        target ← set_ZIPLIST_BYTES target (intrev32ifbe (wrapu 32 zlbytes));
        target ← set_ZIPLIST_LENGTH target (intrev16ifbe zllength);
        target ← set_ZIPLIST_TAIL_OFFSET target
                   (intrev32ifbe (wrapu 32 ((first_bytes - ZIPLIST_END_SIZE) +
                                            (second_offset - ZIPLIST_HEADER_SIZE))));
        target ← __ziplistCascadeUpdate target first_offset;
        Some (Some (append, target))
  | _, _ => Some None
  end.

Definition ziplistPush (zl : list Z) (s : list Z) (where_ : Z) : option (list Z) :=
  p ← (if where_ =? ZIPLIST_HEAD then Some ZIPLIST_ENTRY_HEAD else ZIPLIST_ENTRY_END zl);
  __ziplistInsert zl p s.

(** [while (p[0] != ZIP_END && index--) p += zipRawEntryLength(p);], and the loop from the tail. *)
Fixpoint index_forward (fuel : nat) (zl : list Z) (p index : Z) : option (Z * Z) :=
  b ← zidx zl p;
  if b =? ZIP_END then Some (p, index)
  else if index =? 0 then Some (p, index - 1)
  else
    match fuel with
    | O => None
    | S fuel =>
        n ← zipRawEntryLength zl p;
        index_forward fuel zl (p + n) (index - 1)
    end.

Fixpoint index_backward (fuel : nat) (zl : list Z) (p prevlen index : Z) : option (Z * Z) :=
  if prevlen >? 0 then
    if index =? 0 then Some (p, index - 1)
    else
      match fuel with
      | O => None
      | S fuel =>
          let p := p - prevlen in
          '(_, prevlen) ← ZIP_DECODE_PREVLEN zl p;
          index_backward fuel zl p prevlen (index - 1)
      end
  else Some (p, index).

Definition ziplistIndex (zl : list Z) (index : Z) : option (option Z) :=
  '(p, index) ←
    (if index <? 0 then
       if index =? - 2 ^ 31 then None
       else
         let index := - index - 1 in
         p ← ZIPLIST_ENTRY_TAIL zl;
         b ← zidx zl p;
         if negb (b =? ZIP_END) then
           '(_, prevlen) ← ZIP_DECODE_PREVLEN zl p;
           index_backward (length zl) zl p prevlen index
         else Some (p, index)
     else index_forward (length zl) zl ZIPLIST_ENTRY_HEAD index);
  b ← zidx zl p;
  Some (if (b =? ZIP_END) || (index >? 0) then None else Some p).

Definition ziplistNext (zl : list Z) (p : Z) : option (option Z) :=
  b ← zidx zl p;
  if b =? ZIP_END then Some None
  else
    n ← zipRawEntryLength zl p;
    b ← zidx zl (p + n);
    Some (if b =? ZIP_END then None else Some (p + n)).

Definition ziplistPrev (zl : list Z) (p : Z) : option (option Z) :=
  b ← zidx zl p;
  if b =? ZIP_END then
    p ← ZIPLIST_ENTRY_TAIL zl;
    b ← zidx zl p;
    Some (if b =? ZIP_END then None else Some p)
  else if p =? ZIPLIST_ENTRY_HEAD then Some None
  else
    '(_, prevlen) ← ZIP_DECODE_PREVLEN zl p;
    if prevlen >? 0 then Some (Some (p - prevlen)) else None.

(** What [ziplistGet] stores: the position and length of a string, or an integer. *)
Inductive zl_got := ZlStr (pos len : Z) | ZlInt (sval : Z).

Definition ziplistGet (zl : list Z) (p : option Z) : option (option zl_got) :=
  match p with
  | None => Some None
  | Some p =>
      b ← zidx zl p;
      if b =? ZIP_END then Some None
      else
        entry ← zipEntry zl p;
        if ZIP_IS_STR (encoding entry) then Some (Some (ZlStr (p + headersize entry) (len entry)))
        else
          v ← zipLoadInteger zl (p + headersize entry) (encoding entry);
          Some (Some (ZlInt v))
  end.

Definition ziplistInsert (zl : list Z) (p : Z) (s : list Z) : option (list Z) := __ziplistInsert zl p s.

(** The offset of [*p] does not change. *)
Definition ziplistDelete (zl : list Z) (p : Z) : option (list Z * Z) :=
  let offset := p in
  zl ← __ziplistDelete zl p 1;
  Some (zl, offset).

Definition ziplistDeleteRange (zl : list Z) (index num : Z) : option (list Z) :=
  p ← ziplistIndex zl index;
  match p with
  | None => Some zl
  | Some p => __ziplistDelete zl p num
  end.

Definition ziplistCompare (zl : list Z) (p : Z) (sstr : list Z) : option bool :=
  b ← zidx zl p;
  if b =? ZIP_END then Some false
  else
    entry ← zipEntry zl p;
    if ZIP_IS_STR (encoding entry) then
      if len entry =? zlen sstr then
        bs ← rd zl (p + headersize entry) (zlen sstr);
        Some (bool_decide (bs = sstr))
      else Some false
    else
      match zipTryEncoding sstr with
      | Some (sval, _) =>
          zval ← zipLoadInteger zl (p + headersize entry) (encoding entry);
          Some (zval =? sval)
      | None => Some false
      end.

(** The comparison of [ziplistFind]: whether the entry is the one that is searched, and the
    remembered encoding of [vstr]. *)
Definition find_compare (zl : list Z) (q encoding len : Z) (vstr : list Z) (vencoding vll : Z)
  : option (bool * Z * Z) :=
  if ZIP_IS_STR encoding then
    if len =? zlen vstr then
      bs ← rd zl q (zlen vstr);
      Some (bool_decide (bs = vstr), vencoding, vll)
    else Some (false, vencoding, vll)
  else
    let '(vencoding, vll) :=
      if vencoding =? 0 then
        match zipTryEncoding vstr with
        | Some (v, e) => (e, v)
        | None => (255, vll)
        end
      else (vencoding, vll) in
    if vencoding =? 0 then None
    else if negb (vencoding =? 255) then
      ll ← zipLoadInteger zl q encoding;
      Some (ll =? vll, vencoding, vll)
    else Some (false, vencoding, vll).

Fixpoint find_loop (fuel : nat) (zl : list Z) (p : Z) (vstr : list Z) (skip skipcnt vencoding vll : Z)
  : option (option Z) :=
  b ← zidx zl p;
  if b =? ZIP_END then Some None
  else
    match fuel with
    | O => None
    | S fuel =>
        prevlensize ← ZIP_DECODE_PREVLENSIZE zl p;
        '(encoding, lensize, len) ← ZIP_DECODE_LENGTH zl (p + prevlensize);
        let q := p + prevlensize + lensize in
        if skipcnt =? 0 then
          '(found, vencoding, vll) ← find_compare zl q encoding len vstr vencoding vll;
          if found : bool then Some (Some p)
          else find_loop fuel zl (q + len) vstr skip (wraps 32 skip) vencoding vll
        else find_loop fuel zl (q + len) vstr skip (skipcnt - 1) vencoding vll
    end.

Definition ziplistFind (zl : list Z) (p : Z) (vstr : list Z) (skip : Z) : option (option Z) :=
  find_loop (length zl) zl p vstr skip 0 0 0.

Fixpoint len_loop (fuel : nat) (zl : list Z) (p len : Z) : option Z :=
  b ← zidx zl p;
  if b =? ZIP_END then Some len
  else
    match fuel with
    | O => None
    | S fuel =>
        n ← zipRawEntryLength zl p;
        len_loop fuel zl (p + n) (wrapu 32 (len + 1))
    end.

(** The length, and the list, in which a length that is known again is stored. *)
Definition ziplistLen (zl : list Z) : option (Z * list Z) :=
  length ← ZIPLIST_LENGTH zl;
  if intrev16ifbe length <? UINT16_MAX then Some (intrev16ifbe length, zl)
  else
    len ← len_loop (List.length zl) zl ZIPLIST_HEADER_SIZE 0;
    zl ← (if len <? UINT16_MAX then set_ZIPLIST_LENGTH zl (intrev16ifbe (wrapu 16 len)) else Some zl);
    Some (len, zl).

Definition ziplistBlobLen (zl : list Z) : option Z := intrev32ifbe <$> ZIPLIST_BYTES zl.

End ops.

(** The example of the header of the file: the strings 2 and 5, then Hello World. *)
Example ziplist_header_example :
  let H : Host := false in let junk := fun _ : nat => 7 in
  (zl ← ziplistNew junk;
   zl ← ziplistPush junk zl [50] ZIPLIST_TAIL;
   zl ← ziplistPush junk zl [53] ZIPLIST_TAIL;
   ziplistPush junk zl [72; 101; 108; 108; 111; 32; 87; 111; 114; 108; 100] ZIPLIST_TAIL)
  = Some [28; 0; 0; 0; 14; 0; 0; 0; 3; 0; 0; 243; 2; 246;
          2; 11; 72; 101; 108; 108; 111; 32; 87; 111; 114; 108; 100; 255].
Proof. vm_compute. reflexivity. Qed.
