(* ===== verification/ZiplistSpec.v ===== *)
(** * Ziplists are lists of strings

    [zl_rep zl xs]: the bytes of [zl] are a header, the entries of the strings [xs], each with
    the length of the one before it, and the terminator. The functions of ziplist.c are
    operations on [xs]. Whether the length of the previous entry takes one byte or five is a
    detail of the representation: a long field may hold a short length. *)

From S2P Require Import Prelude Endian Util Ziplist.

(** ** Encoded elements *)

(** The five forms of an encoded element: its string, its encoding as it is decoded, the header
    with the encoding and the length, and the payload. *)
Inductive zl_form : list Z -> Z -> list Z -> list Z -> Prop :=
  | zf_imm v : 0 <= v <= 12 -> zl_form (sdec v) (241 + v) [241 + v] []
  | zf_int b n v : (b, n) ∈ [(254, 1%nat); (192, 2%nat); (240, 3%nat); (208, 4%nat); (224, 8%nat)] ->
      in_s (8 * Z.of_nat n) v -> zl_form (sdec v) b [b] (le_encode n v)
  | zf_str06 x : string2ll x = None -> zlen x <= 63 -> zl_form x 0 [zlen x] x
  | zf_str14 x : string2ll x = None -> 64 <= zlen x <= 16383 ->
      zl_form x 64 [64 + zlen x / 256; zlen x mod 256] x
  | zf_str32 x : string2ll x = None -> 16384 <= zlen x < 2 ^ 31 ->
      zl_form x 128 (128 :: reverse (le_encode 4 (zlen x))) x.

Definition elem_ok (x : list Z) : Prop := zlen x < 2 ^ 31.

(** The encoding that is passed to the functions that write an element, and what they write. *)
Definition enc_of (x : list Z) : Z := from_option snd 0 (zipTryEncoding x).
Definition hdr_of (x : list Z) : list Z := encoding_buf (enc_of x) (zlen x).
Definition int_size (v : Z) : nat := from_option Z.to_nat 0%nat (zipIntSize (int_encoding v)).
Definition pay_of (x : list Z) : list Z :=
  match string2ll x with Some v => le_encode (int_size v) v | None => x end.

Lemma zipTryEncoding_eq x : zipTryEncoding x = (fun v => (v, int_encoding v)) <$> string2ll x.
Proof.
  unfold zipTryEncoding. rewrite Z.geb_leb. destruct (Z.leb_spec 32 (zlen x)); cbn [orb].
  { by rewrite long_not_int by lia. }
  destruct (Z.eqb_spec (zlen x) 0) as [E|_]; [by apply zlen_0_inv in E as ->|].
  by destruct (string2ll x).
Qed.

Lemma zl_form_of x : elem_ok x -> exists enc, zl_form x enc (hdr_of x) (pay_of x).
Proof.
  intros Hx. pose proof (zlen_nonneg x). unfold elem_ok, hdr_of, pay_of, enc_of in *. rewrite zipTryEncoding_eq.
  destruct (string2ll x) as [v|] eqn:E; cbn [fmap option_fmap option_map from_option snd].
  - apply string2ll_sound in E as [Hv ->]. unfold in_s in Hv. change (64 - 1) with 63 in Hv.
    unfold int_size, int_encoding, INT24_MIN, INT24_MAX. rewrite !Z.geb_leb.
    repeat match goal with |- context [if ?b && ?c then _ else _] => destruct (b && c) eqn:?; zbool end.
    + rewrite wrapu_small by (unfold in_u, ZIP_INT_IMM_MIN; lia). unfold ZIP_INT_IMM_MIN.
      pose proof (small_check (fun k => negb (ZIP_IS_STR (241 + k)) && bool_decide (zipIntSize (241 + k) = Some 0))
        13 v eq_refl ltac:(lia)) as C. cbn beta in C. apply andb_true_iff in C as [C1 C2].
      apply negb_true_iff in C1. apply bool_decide_eq_true in C2.
      exists (241 + v). unfold encoding_buf. rewrite C1, C2.
      by constructor.
    + exists 254. by apply (zf_int 254 1%nat); [set_solver|split; lia].
    + exists 192. apply (zf_int 192 2%nat); [set_solver|split; lia].
    + exists 240. apply (zf_int 240 3%nat); [set_solver|split; lia].
    + exists 208. apply (zf_int 208 4%nat); [set_solver|split; lia].
    + exists 224. apply (zf_int 224 8%nat); [set_solver|split; lia].
  - unfold encoding_buf. change (ZIP_IS_STR 0) with true. cbn [from_option].
    repeat case_if.
    + exists 0. unfold ZIP_STR_06B. change (Z.shiftl 0 6) with 0. rewrite Z.lor_0_l, wrapu_small by (unfold in_u; lia).
      by constructor.
    + exists 64. unfold ZIP_STR_14B.
      rewrite land_255, (Z.land_ones _ 6), Z.shiftr_div_pow2 by lia. change (2 ^ 8) with 256.
      assert (0 <= zlen x / 256 < 64) as Hq by (split; [apply Z.div_pos|apply Z.div_lt_upper_bound]; lia).
      rewrite (Z.mod_small (zlen x / 256)) by (change (2 ^ 6) with 64; lia).
      rewrite lor_shift, wrapu_small by (unfold in_u; lia). constructor; [done|lia].
    + exists 128. rewrite !land_255, !Z.shiftr_div_pow2 by lia.
      replace [ZIP_STR_32B; zlen x / 2 ^ 24 mod 256; zlen x / 2 ^ 16 mod 256; zlen x / 2 ^ 8 mod 256; zlen x mod 256]
        with (128 :: reverse (le_encode 4 (zlen x))); [constructor; [done|lia]|].
      cbn [le_encode]. rewrite !Z.div_div by lia. reflexivity.
Qed.

(** The integer encodings, one by one. *)
Ltac int_cases H :=
  repeat (apply elem_of_cons in H as [[= -> ->]|H]; [|]); try by apply elem_of_nil in H.

(** Four bytes, the most significant one first. *)
Lemma or_be32 b1 b2 b3 b4 : byte_ok b2 -> byte_ok b3 -> byte_ok b4 ->
  Z.lor (Z.lor (Z.lor (Z.shiftl b1 24) (Z.shiftl b2 16)) (Z.shiftl b3 8)) b4
  = le_decode [b4; b3; b2; b1].
Proof.
  intros H2 H3 H4.
  change 24 with (8 + 8 + 8). change 16 with (8 + 8). rewrite <- !Z.shiftl_shiftl, <- !Z.shiftl_lor by lia.
  rewrite !lor_shift by (done || lia). cbn [le_decode]. lia.
Qed.

Lemma div_byte_small n k : 0 <= n < 2 ^ (k + 7) -> 0 <= k -> n / 2 ^ k mod 256 < 128.
Proof.
  intros Hn Hk. rewrite Z.pow_add_r in Hn by lia.
  assert (0 <= n / 2 ^ k < 128) by (split; [apply Z.div_pos|apply Z.div_lt_upper_bound]; lia).
  rewrite Z.mod_small; lia.
Qed.

Lemma zidx_bytes (P : list Z) a l : zidx (P ++ a :: l) (zlen P) = Some a.
Proof. by apply zidx_app. Qed.

Lemma decode_form P x enc h pay T : zl_form x enc h pay ->
  ZIP_DECODE_LENGTH (P ++ h ++ pay ++ T) (zlen P) = Some (enc, zlen h, zlen pay).
Proof.
  intros Hf. unfold ZIP_DECODE_LENGTH, ZIP_ENTRY_ENCODING.
  destruct Hf as [v Hv|b n v Hb Hv|x _ Hx|x _ Hx|x _ Hx]; cbn [app]; rewrite zidx_bytes; cbn [mbind option_bind].
  - pose proof (small_check (fun k => negb (241 + k <? ZIP_STR_MASK) && bool_decide (zipIntSize (241 + k) = Some 0))
      13 v eq_refl ltac:(lia)) as C. cbn beta in C. apply andb_true_iff in C as [C1 C2].
    apply negb_true_iff in C1. apply bool_decide_eq_true in C2. rewrite C1, C1, C2. done.
  - rewrite zlen_le_encode. int_cases Hb; reflexivity.
  - pose proof (zlen_nonneg x).
    pose proof (small_check (fun k => (k <? ZIP_STR_MASK) && (Z.land k ZIP_STR_MASK =? 0) && (Z.land k 63 =? k))
      64 (zlen x) eq_refl ltac:(lia)) as C. cbn beta in C.
    apply andb_true_iff in C as [[C1 C2]%andb_true_iff C3]. apply Z.eqb_eq in C2, C3. rewrite C1, C2.
    change (0 <? ZIP_STR_MASK) with true. change (0 =? ZIP_STR_06B) with true. cbv iota. by rewrite C3.
  - assert (0 <= zlen x / 256 < 64) as Hq by (split; [apply Z.div_pos|apply Z.div_lt_upper_bound]; lia).
    pose proof (small_check (fun k => (64 + k <? ZIP_STR_MASK) && (Z.land (64 + k) ZIP_STR_MASK =? 64)
        && (Z.land (64 + k) 63 =? k)) 64 (zlen x / 256) eq_refl Hq) as C. cbn beta in C.
    apply andb_true_iff in C as [[C1 C2]%andb_true_iff C3]. apply Z.eqb_eq in C2, C3. rewrite C1, C2. change (64 <? ZIP_STR_MASK) with true.
    change (64 =? ZIP_STR_06B) with false. change (64 =? ZIP_STR_14B) with true. cbv iota.
    cbn [mbind option_bind]. rewrite (zidx_at P _ (zlen P) 1) by (done || lia).
    change (zidx (?a :: ?b :: ?l) 1) with (Some b). cbn [mbind option_bind].
    rewrite C3, lor_shift by (try apply Z.mod_pos_bound; lia). do 2 f_equal.
    change (2 ^ 8) with 256. rewrite Z.mul_comm. symmetry. apply Z.div_mod. lia.
  - change (128 <? ZIP_STR_MASK) with true. change (Z.land 128 ZIP_STR_MASK) with 128. cbv iota.
    change (128 <? ZIP_STR_MASK) with true. change (128 =? ZIP_STR_06B) with false.
    change (128 =? ZIP_STR_14B) with false. change (128 =? ZIP_STR_32B) with true. cbv iota.
    rewrite !(zidx_at P _ (zlen P)) by (done || lia).
    set (n := zlen x) in *. cbn [le_encode]. rewrite !Z.div_div by lia.
    change (reverse [?a; ?b; ?c; ?d]) with [d; c; b; a]. cbn [app].
    change (zidx (?a :: ?b :: ?c :: ?d :: ?e :: ?l) 1) with (Some b).
    change (zidx (?a :: ?b :: ?c :: ?d :: ?e :: ?l) 2) with (Some c).
    change (zidx (?a :: ?b :: ?c :: ?d :: ?e :: ?l) 3) with (Some d).
    change (zidx (?a :: ?b :: ?c :: ?d :: ?e :: ?l) 4) with (Some e). cbn [mbind option_bind].
    rewrite (proj2 (Z.ltb_lt _ _)) by (apply (div_byte_small n 24); lia).
    rewrite or_be32 by (apply Z.mod_pos_bound; lia). do 2 f_equal.
    pose proof (le_decode_encode 4 n) as D. cbn [le_encode] in D. rewrite !Z.div_div in D by lia.
    change (256 * 256) with 65536 in *. change (65536 * 256) with 16777216 in *. rewrite D.
    apply Z.mod_small. lia.
Qed.

(** ** Entries *)

Definition body (x : list Z) : list Z := hdr_of x ++ pay_of x.

(** The entry of an element and whether its field for the previous length is the long one. *)
Abbreviation entry := (bool * list Z)%type.

Definition psize (b : bool) : Z := if b then 5 else 1.
Definition pbytes (prev : Z) (b : bool) : list Z := if b then ZIP_BIG_PREVLEN :: le_encode 4 prev else [prev].
Definition elen (e : entry) : Z := psize (fst e) + zlen (body (snd e)).

Definition ent (prev : Z) (e : entry) : list Z := pbytes prev (fst e) ++ body (snd e).

Fixpoint ebytes (prev : Z) (l : list entry) : list Z :=
  match l with
  | [] => []
  | e :: l => ent prev e ++ ebytes (elen e) l
  end.

(** The field holds the length of the previous entry. *)
Definition prev_fits (prev : Z) (b : bool) : Prop := in_u 32 prev /\ (prev < ZIP_BIG_PREVLEN \/ b = true).

Fixpoint entries_ok (prev : Z) (l : list entry) : Prop :=
  match l with
  | [] => True
  | e :: l => prev_fits prev (fst e) /\ elem_ok (snd e) /\ elen e < 2 ^ 32 /\ entries_ok (elen e) l
  end.

(** The length of the last entry, and the bytes of all. *)
Definition last_len (prev : Z) (l : list entry) : Z := from_option elen prev (last l).
Fixpoint elens (l : list entry) : Z := match l with [] => 0 | e :: l => elen e + elens l end.

(** The offset of the last entry of a list that starts at [off]. *)
Fixpoint tail_of (off : Z) (l : list entry) : Z :=
  match l with
  | [] => off
  | e :: l' => match l' with [] => off | _ => tail_of (off + elen e) l' end
  end.

Lemma zlen_hdr_of x : elem_ok x -> 1 <= zlen (hdr_of x) <= 5.
Proof.
  intros Hx. destruct (zl_form_of x Hx) as (enc & Hf).
  destruct Hf; cbn [zlen]; zl; unfold zlen; cbn [length]; rewrite ?length_reverse; cbn; lia.
Qed.

Lemma body_pos x : elem_ok x -> 1 <= zlen (body x).
Proof. intros Hx. unfold body. pose proof (zlen_hdr_of x Hx). zl. pose proof (zlen_nonneg (pay_of x)). lia. Qed.

Lemma zlen_pbytes prev b : zlen (pbytes prev b) = psize b.
Proof. unfold pbytes. destruct b; [|done]. by rewrite zlen_cons, zlen_le_encode. Qed.

Lemma psize_range b : 1 <= psize b <= 5.
Proof. destruct b; cbn; lia. Qed.

Lemma zlen_ent prev e : zlen (ent prev e) = elen e.
Proof. unfold ent, elen. zl. by rewrite zlen_pbytes. Qed.

Lemma zlen_ebytes prev l : zlen (ebytes prev l) = elens l.
Proof.
  revert prev. induction l as [|e l IH]; intros prev; [done|]. cbn [ebytes elens].
  rewrite zlen_app, zlen_ent, IH. lia.
Qed.

Lemma elen_pos e : elem_ok (snd e) -> 2 <= elen e.
Proof. intros Hx. unfold elen. pose proof (body_pos _ Hx). pose proof (psize_range (fst e)). lia. Qed.

Lemma elens_app a b : elens (a ++ b) = elens a + elens b.
Proof. induction a as [|e a IH]; [done|]. cbn [app elens]. lia. Qed.

Lemma ebytes_app prev a b : ebytes prev (a ++ b) = ebytes prev a ++ ebytes (last_len prev a) b.
Proof.
  revert prev. induction a as [|e a IH]; intros prev; [done|]. cbn [app ebytes].
  rewrite IH, <- !app_assoc. do 2 f_equal. unfold last_len. rewrite last_cons. by destruct (last a).
Qed.

Lemma entries_ok_app prev a b :
  entries_ok prev (a ++ b) <-> entries_ok prev a /\ entries_ok (last_len prev a) b.
Proof.
  revert prev. induction a as [|e a IH]; intros prev; [cbn; tauto|]. cbn [app entries_ok].
  rewrite IH. unfold last_len. rewrite last_cons. destruct (last a); cbn [from_option]; tauto.
Qed.

Lemma tail_of_app off a b : b <> [] -> tail_of off (a ++ b) = tail_of (off + elens a) b.
Proof.
  intros Hb. revert off. induction a as [|e a IH]; intros off; [cbn; f_equal; lia|].
  cbn [app tail_of elens]. specialize (IH (off + elen e)).
  destruct (a ++ b) eqn:E; [by apply app_eq_nil in E as [_ ?]|]. rewrite IH. f_equal. lia.
Qed.

Lemma tail_of_shift off k l : l <> [] -> tail_of (off + k) l = tail_of off l + k.
Proof.
  revert off. induction l as [|e l IH]; intros off Hl; [done|]. cbn [tail_of].
  destruct l as [|e' l']; [done|]. rewrite <- IH by done. f_equal. lia.
Qed.

Lemma entries_elems prev l : entries_ok prev l -> Forall (fun e => elem_ok (snd e)) l.
Proof.
  revert prev. induction l as [|e l IH]; intros prev Hl; [done|]. destruct Hl as (_ & Hx & _ & Hl).
  constructor; [done|]. by eapply IH.
Qed.

Lemma elens_elems l : Forall (fun e => elem_ok (snd e)) l -> 2 * zlen l <= elens l.
Proof. induction 1 as [|e l Hx Hl IH]; [done|]. cbn [elens]. pose proof (elen_pos e Hx). zl. Qed.

Lemma elens_ge prev l : entries_ok prev l -> 2 * zlen l <= elens l.
Proof. intros Hl. eapply elens_elems, entries_elems, Hl. Qed.

Lemma tail_of_range off l : Forall (fun e => elem_ok (snd e)) l -> off <= tail_of off l <= off + elens l.
Proof.
  intros Hl. revert off. induction Hl as [|e l Hx Hl IH]; intros off; [cbn; lia|].
  pose proof (elen_pos e Hx). pose proof (elens_elems _ Hl). pose proof (zlen_nonneg l). cbn [tail_of elens].
  destruct l as [|e' l']; [cbn; lia|]. specialize (IH (off + elen e)). lia.
Qed.

Section spec.
Context `{Host}.
Variable junk : nat -> Z.

(** ** Words in memory *)

Lemma load_word_le memrev n P v T :
  (forall u, memrev (le_encode n u) = Some (host_bytes n u)) ->
  (0 < n)%nat -> in_s (8 * Z.of_nat n) v -> load_word memrev n (P ++ le_encode n v ++ T) (zlen P) = Some v.
Proof.
  intros Hm Hn Hv. unfold load_word. rewrite rd_app by zl. cbn [mbind option_bind].
  rewrite Hm. cbn [mbind option_bind]. rewrite host_uint_bytes. f_equal.
  change (v mod 2 ^ (8 * Z.of_nat n)) with (wrapu (8 * Z.of_nat n) v).
  rewrite wraps_wrapu. apply wraps_small; [lia|done].
Qed.

Lemma save_word_le memrev n P M T v :
  (forall u, memrev (host_bytes n u) = Some (le_encode n u)) ->
  zlen M = Z.of_nat n -> save_word memrev n (P ++ M ++ T) (zlen P) v = Some (P ++ le_encode n v ++ T).
Proof.
  intros Hm HM. unfold save_word. rewrite wr_app by zl. cbn [mbind option_bind].
  rewrite rd_app by zl. cbn [mbind option_bind]. rewrite Hm. cbn [mbind option_bind]. by rewrite wr_app by zl.
Qed.

Lemma le_encode_shift n v : le_encode (S n) (256 * v) = 0 :: le_encode n v.
Proof.
  cbn [le_encode]. rewrite Z.mul_comm, Z_mod_mult, Z.div_mul by lia. done.
Qed.

Lemma imm_encoding v : 0 <= v <= 12 ->
  ZIP_IS_STR (241 + v) = false /\ is_imm (241 + v) = true /\ Z.land (241 + v) ZIP_INT_IMM_MASK - 1 = v /\
  Forall (fun e => (241 + v =? e) = false) [ZIP_INT_8B; ZIP_INT_16B; ZIP_INT_24B; ZIP_INT_32B; ZIP_INT_64B].
Proof.
  intros Hv. pose proof (small_check (fun k => negb (ZIP_IS_STR (241 + k)) && (is_imm (241 + k) &&
    ((Z.land (241 + k) ZIP_INT_IMM_MASK - 1 =? k) &&
    forallb (fun e => negb (241 + k =? e)) [ZIP_INT_8B; ZIP_INT_16B; ZIP_INT_24B; ZIP_INT_32B; ZIP_INT_64B])))
    13 v eq_refl ltac:(lia)) as C. cbn beta in C.
  apply andb_true_iff in C as [C1%negb_true_iff [C2 [C3%Z.eqb_eq C4]%andb_true_iff]%andb_true_iff].
  split_and!; [done..|]. apply Forall_forall. intros e He%list_elem_of_In. rewrite forallb_forall in C4.
  by apply negb_true_iff, C4.
Qed.

Lemma load_form P x enc h pay T : zl_form x enc h pay ->
  (ZIP_IS_STR enc = true /\ pay = x /\ string2ll x = None) \/
  exists v, ZIP_IS_STR enc = false /\ x = sdec v /\ in_s 64 v /\
    zipLoadInteger (P ++ pay ++ T) (zlen P) enc = Some v.
Proof.
  destruct 1 as [v Hv|b n v Hb Hv|x ? Hx|x ? Hx|x ? Hx]; try by left.
  - right. exists v. destruct (imm_encoding v Hv) as (C1 & C2 & C3 & C4). rewrite !Forall_cons in C4.
    destruct C4 as (E1 & E2 & E3 & E4 & E5 & _). split_and!; [done|done|unfold in_s; lia|].
    unfold zipLoadInteger. by rewrite E1, E2, E3, E4, E5, C2, C3.
  - right. exists v. assert (in_s 64 v) as Hv64.
    { unfold in_s in *. int_cases Hb; cbn in Hv; lia. }
    int_cases Hb; (split_and!; [done|done|done|]); unfold zipLoadInteger.
    + change (254 =? ZIP_INT_8B) with true. cbv iota. cbn [le_encode app]. rewrite zidx_bytes.
      cbn [mbind option_bind]. f_equal. change (v mod 256) with (wrapu 8 v).
      rewrite wraps_wrapu. by apply wraps_small.
    + apply (load_word_le memrev16ifbe 2); [apply memrev16ifbe_le|lia|done].
    + change (240 =? ZIP_INT_8B) with false. change (240 =? ZIP_INT_16B) with false.
      change (240 =? ZIP_INT_32B) with false. change (240 =? ZIP_INT_24B) with true. cbv iota.
      rewrite rd_app by zl. cbn [mbind option_bind].
      assert (host_bytes 4 0 = [0; 0; 0; 0]) as -> by (unfold host_bytes; by destruct big_endian).
      rewrite (wr_app [0] [0; 0; 0] _ []) by zl. cbn [mbind option_bind].
      rewrite app_nil_r. change ([0] ++ ?l) with (0 :: l). rewrite <- le_encode_shift, memrev32ifbe_le.
      cbn [mbind option_bind]. rewrite host_uint_bytes. f_equal.
      change (256 * v mod 2 ^ (8 * Z.of_nat 4)) with (wrapu 32 (256 * v)). rewrite wraps_wrapu, wraps_small.
      * rewrite Z.shiftr_div_pow2, Z.mul_comm, Z.div_mul; lia.
      * lia.
      * unfold in_s in *. cbn in Hv |- *. lia.
    + apply (load_word_le memrev32ifbe 4); [apply memrev32ifbe_le|lia|done].
    + apply (load_word_le memrev64ifbe 8); [apply memrev64ifbe_le|lia|done].
Qed.

(** What [zipSaveInteger] leaves in the bytes of the payload. *)
Lemma save_int P M T v : in_s 64 v -> zlen M = Z.of_nat (int_size v) ->
  zipSaveInteger (P ++ M ++ T) (zlen P) v (int_encoding v) = Some (P ++ le_encode (int_size v) v ++ T).
Proof.
  intros Hv. unfold int_size, int_encoding, INT24_MIN, INT24_MAX. rewrite !Z.geb_leb.
  repeat match goal with |- context [if ?b && ?c then _ else _] => destruct (b && c) eqn:?; zbool end.
  - rewrite wrapu_small by (unfold in_u, ZIP_INT_IMM_MIN; lia). unfold ZIP_INT_IMM_MIN.
    destruct (imm_encoding v) as (C1 & C2 & C3 & C4); [lia|]. rewrite !Forall_cons in C4.
    destruct C4 as (E1 & E2 & E3 & E4 & E5 & _). unfold zipIntSize, zipSaveInteger.
    rewrite E1, E2, E3, E4, E5, C2. cbn [from_option le_encode]. intros HM.
    by rewrite (zlen_0_inv M) by (rewrite HM; done).
  - intros HM. by apply wr_app.
  - apply (save_word_le memrev16ifbe 2). apply memrev16ifbe_host.
  - intros HM. unfold zipSaveInteger. change (ZIP_INT_24B =? ZIP_INT_8B) with false.
    change (ZIP_INT_24B =? ZIP_INT_16B) with false. change (ZIP_INT_24B =? ZIP_INT_24B) with true. cbv iota.
    rewrite memrev32ifbe_host. cbn [mbind option_bind].
    rewrite Z.shiftl_mul_pow2 by lia. change (2 ^ 8) with 256. rewrite Z.mul_comm, le_encode_shift.
    change (0 :: ?l) with ([0] ++ l). rewrite <- (app_nil_r ([0] ++ _)), <- app_assoc.
    rewrite (rd_app [0]) by zl. cbn [mbind option_bind]. by apply wr_app.
  - apply (save_word_le memrev32ifbe 4). apply memrev32ifbe_host.
  - apply (save_word_le memrev64ifbe 8). apply memrev64ifbe_host.
Qed.

(** ** The block *)

Definition zblk (total tail cnt : Z) (B : list Z) : list Z :=
  le_encode 4 total ++ le_encode 4 tail ++ le_encode 2 cnt ++ B.

Lemma zblk_app t a c A B : zblk t a c (A ++ B) = zblk t a c A ++ B.
Proof. unfold zblk. by rewrite <- !app_assoc. Qed.

Lemma zlen_zblk t a c B : zlen (zblk t a c B) = 10 + zlen B.
Proof. unfold zblk. zl. Qed.

Lemma get_zbytes t a c B : ZIPLIST_BYTES (zblk t a c B) = Some (host_uint (le_encode 4 t)).
Proof. unfold ZIPLIST_BYTES, zblk. by rewrite rd_front by zl. Qed.

Lemma get_ztail t a c B : ZIPLIST_TAIL_OFFSET (zblk t a c B) = Some (host_uint (le_encode 4 a)).
Proof. unfold ZIPLIST_TAIL_OFFSET, zblk. by rewrite rd_app by zl. Qed.

Lemma get_zlength t a c B : ZIPLIST_LENGTH (zblk t a c B) = Some (host_uint (le_encode 2 c)).
Proof. unfold ZIPLIST_LENGTH, zblk. rewrite (app_assoc (le_encode 4 t)). by rewrite rd_app by zl. Qed.

Lemma set_zbytes t a c B v : set_ZIPLIST_BYTES (zblk t a c B) (intrev32ifbe v) = Some (zblk v a c B).
Proof. unfold set_ZIPLIST_BYTES, zblk. rewrite host_bytes_intrev32ifbe. by rewrite wr_front by zl. Qed.

Lemma set_ztail t a c B v : set_ZIPLIST_TAIL_OFFSET (zblk t a c B) (intrev32ifbe v) = Some (zblk t v c B).
Proof. unfold set_ZIPLIST_TAIL_OFFSET, zblk. rewrite host_bytes_intrev32ifbe. by rewrite wr_app by zl. Qed.

Lemma set_zlength t a c B v : set_ZIPLIST_LENGTH (zblk t a c B) (intrev16ifbe v) = Some (zblk t a v B).
Proof.
  unfold set_ZIPLIST_LENGTH, zblk. rewrite host_bytes_intrev16ifbe, (app_assoc (le_encode 4 t)), wr_app by zl.
  by rewrite <- app_assoc.
Qed.

Lemma get_tail t a c B : in_u 32 a -> ZIPLIST_ENTRY_TAIL (zblk t a c B) = Some a.
Proof. intros Ha. unfold ZIPLIST_ENTRY_TAIL. rewrite get_ztail. cbn [fmap option_fmap option_map]. by rewrite host_uint_le32. Qed.

Lemma add_tail_zblk t a c B n : in_u 32 a -> in_u 32 (a + n) -> add_tail (zblk t a c B) n = Some (zblk t (a + n) c B).
Proof.
  intros Ha Hn. unfold add_tail. rewrite get_ztail. cbn [mbind option_bind].
  by rewrite host_uint_le32, wrapu_small, set_ztail by done.
Qed.

(** The length field stays at its largest value once it got there. *)
Definition add_count (c n : Z) : Z := if c <? UINT16_MAX then c + n else c.

Lemma raw_count c : in_u 16 c -> (host_uint (le_encode 2 c) <? UINT16_MAX) = (c <? UINT16_MAX).
Proof.
  intros Hc. pose proof (host_uint_le16 c Hc) as E. set (u := host_uint _) in *.
  assert (in_u 16 u) as Hu.
  { unfold u, host_uint. destruct big_endian.
    - pose proof (le_decode_range (reverse (le_encode 2 c))) as R. unfold zlen in R. rewrite length_reverse in R.
      apply R. rewrite Forall_reverse. auto with redis.
    - pose proof (le_decode_range (le_encode 2 c) ltac:(auto with redis)) as R. by rewrite zlen_le_encode in R. }
  unfold in_u, UINT16_MAX in *. change (2 ^ 16) with 65536 in *.
  destruct (Z.ltb_spec u 65535), (Z.ltb_spec c 65535); [done| | |done].
  - exfalso. assert (c = 65535) as -> by lia. unfold u, host_uint in *. destruct big_endian; vm_compute in H0; discriminate H0.
  - exfalso. assert (u = 65535) as Eu by lia. rewrite Eu in E. unfold intrev16ifbe, intrev16, host_bytes, host_uint in E.
    destruct big_endian; vm_compute in E; lia.
Qed.

Lemma incr_length t a c B n : in_u 16 c -> (c < UINT16_MAX -> in_u 16 (c + n)) ->
  ZIPLIST_INCR_LENGTH (zblk t a c B) n = Some (zblk t a (add_count c n) B).
Proof.
  intros Hc Hn. unfold ZIPLIST_INCR_LENGTH, add_count. rewrite get_zlength. cbn [mbind option_bind].
  rewrite raw_count by done. case_if; [|done]. by rewrite host_uint_le16, wrapu_small, set_zlength by auto.
Qed.

Lemma wr_zblk t a c A M M' R : zlen M' = zlen M ->
  wr (zblk t a c (A ++ M ++ R)) (10 + zlen A) M' = Some (zblk t a c (A ++ M' ++ R)).
Proof. intros HM. rewrite !zblk_app. apply wr_app; [by rewrite zlen_zblk|done]. Qed.

Lemma memmove_zblk t a c D W S T src : zlen S = zlen W ->
  rd (zblk t a c (D ++ W ++ T)) src (zlen S) = Some S ->
  memmove (zblk t a c (D ++ W ++ T)) (10 + zlen D) src (zlen S) = Some (zblk t a c (D ++ S ++ T)).
Proof. intros HS E. unfold memmove. rewrite E. cbn [mbind option_bind]. by apply wr_zblk. Qed.

(** ** Reading and writing of entries *)

(** The size of the field that a length needs. *)
Definition big (n : Z) : bool := ZIP_BIG_PREVLEN <=? n.

Lemma store_size n : zipStorePrevEntryLength_size n = psize (big n).
Proof. unfold zipStorePrevEntryLength_size, big, psize. rewrite Z.ltb_antisym. by destruct (_ <=? _). Qed.

Lemma store_large t a c A M R n : zlen M = 5 ->
  zipStorePrevEntryLengthLarge (zblk t a c (A ++ M ++ R)) (10 + zlen A) n
  = Some (zblk t a c (A ++ pbytes n true ++ R), 5).
Proof.
  intros HM. destruct M as [|m M]; [done|]. rewrite zlen_cons in HM.
  unfold zipStorePrevEntryLengthLarge. change ((m :: M) ++ R) with ([m] ++ M ++ R). rewrite wr_zblk by done.
  cbn [mbind option_bind app]. replace (A ++ ZIP_BIG_PREVLEN :: M ++ R) with ((A ++ [ZIP_BIG_PREVLEN]) ++ M ++ R)
    by by rewrite <- app_assoc.
  replace (10 + zlen A + 1) with (10 + zlen (A ++ [ZIP_BIG_PREVLEN])) by zl.
  rewrite wr_zblk by zl. cbn [mbind option_bind].
  rewrite (zblk_app t a c (A ++ [_])), rd_app by (rewrite ?zlen_zblk; zl). cbn [mbind option_bind].
  rewrite memrev32ifbe_host. cbn [mbind option_bind]. rewrite <- zblk_app, wr_zblk by zl. cbn [mbind option_bind].
  by rewrite <- app_assoc.
Qed.

Lemma store_prev t a c A M R n : in_u 32 n -> zlen M = psize (big n) ->
  zipStorePrevEntryLength (zblk t a c (A ++ M ++ R)) (10 + zlen A) n
  = Some (zblk t a c (A ++ pbytes n (big n) ++ R), psize (big n)).
Proof.
  unfold zipStorePrevEntryLength, big. intros Hn HM. rewrite Z.ltb_antisym.
  destruct (Z.leb_spec ZIP_BIG_PREVLEN n) as [Hle|Hlt]; cbn [negb psize] in *; [by apply store_large|].
  rewrite wr_zblk by done. cbn [mbind option_bind].
  by rewrite wrapu_small by (unfold in_u, ZIP_BIG_PREVLEN in *; lia).
Qed.

Lemma decode_prevsize P prev b T : prev_fits prev b ->
  ZIP_DECODE_PREVLENSIZE (P ++ pbytes prev b ++ T) (zlen P) = Some (psize b).
Proof.
  intros [Hp Hb]. unfold ZIP_DECODE_PREVLENSIZE, pbytes. destruct b; cbn [app]; rewrite zidx_bytes; cbn [mbind option_bind].
  - done.
  - destruct Hb; [|done]. by rewrite (proj2 (Z.ltb_lt _ _)).
Qed.

Lemma decode_prev P prev b T : prev_fits prev b ->
  ZIP_DECODE_PREVLEN (P ++ pbytes prev b ++ T) (zlen P) = Some (psize b, prev).
Proof.
  intros Hf. unfold ZIP_DECODE_PREVLEN. rewrite decode_prevsize by done. cbn [mbind option_bind].
  destruct Hf as [Hp _]. destruct b; cbn [psize pbytes].
  - change (5 =? 1) with false. cbv iota.
    change ((ZIP_BIG_PREVLEN :: le_encode 4 prev) ++ T) with ([ZIP_BIG_PREVLEN] ++ le_encode 4 prev ++ T).
    rewrite (app_assoc P), rd_app by zl. cbn [mbind option_bind]. rewrite memrev32ifbe_le. cbn [mbind option_bind].
    rewrite host_uint_bytes, Z.mod_small by apply Hp. done.
  - change (1 =? 1) with true. cbv iota. cbn [app]. by rewrite zidx_bytes.
Qed.

(** The first byte of an entry is not the terminator. *)
Lemma first_byte_ok prev b : prev_fits prev b -> exists c l, pbytes prev b = c :: l /\ c <> ZIP_END.
Proof.
  intros [Hp Hb]. unfold pbytes. destruct b; [by eexists _, _|]. exists prev, []. split; [done|].
  destruct Hb; [|done]. unfold ZIP_BIG_PREVLEN, ZIP_END in *. lia.
Qed.

Lemma entry_at P prev e T :
  prev_fits prev (fst e) -> elem_ok (snd e) -> elen e < 2 ^ 32 ->
  let zl := P ++ ent prev e ++ T in
  zipRawEntryLength zl (zlen P) = Some (elen e) /\
  exists enc, zl_form (snd e) enc (hdr_of (snd e)) (pay_of (snd e)) /\
    zipEntry zl (zlen P) = Some (Zlentry (psize (fst e)) prev (zlen (hdr_of (snd e))) (zlen (pay_of (snd e)))
                                   (psize (fst e) + zlen (hdr_of (snd e))) enc).
Proof.
  intros Hp Hx He. destruct (zl_form_of _ Hx) as (enc & Hf). cbv zeta. unfold ent. rewrite <- app_assoc.
  pose proof (zlen_hdr_of _ Hx). pose proof (psize_range (fst e)). pose proof (zlen_nonneg (pay_of (snd e))).
  assert (ZIP_DECODE_LENGTH (P ++ pbytes prev (fst e) ++ body (snd e) ++ T) (zlen P + psize (fst e))
          = Some (enc, zlen (hdr_of (snd e)), zlen (pay_of (snd e)))) as D.
  { unfold body. rewrite <- app_assoc, (app_assoc P).
    replace (zlen P + psize (fst e)) with (zlen (P ++ pbytes prev (fst e))) by (zl; rewrite zlen_pbytes; lia).
    by apply decode_form with (x := snd e). }
  unfold elen, body in He. rewrite zlen_app in He. split.
  - unfold zipRawEntryLength. rewrite decode_prevsize by done. cbn [mbind option_bind]. rewrite D.
    cbn [mbind option_bind]. unfold elen, body. rewrite zlen_app, wrapu_small by (unfold in_u; lia). f_equal. lia.
  - exists enc. split; [done|]. unfold zipEntry. rewrite decode_prev by done. cbn [mbind option_bind]. rewrite D.
    cbn [mbind option_bind]. by rewrite wrapu_small by (unfold in_u; lia).
Qed.

(** An entry of the block: its length, its fields and its first byte. *)
Lemma entry_zblk t a c A prev e T :
  prev_fits prev (fst e) -> elem_ok (snd e) -> elen e < 2 ^ 32 ->
  let zl := zblk t a c (A ++ ent prev e ++ T) in
  zipRawEntryLength zl (10 + zlen A) = Some (elen e) /\
  (exists ch, zidx zl (10 + zlen A) = Some ch /\ (ch =? ZIP_END) = false) /\
  ZIP_DECODE_PREVLENSIZE zl (10 + zlen A) = Some (psize (fst e)) /\
  ZIP_DECODE_PREVLEN zl (10 + zlen A) = Some (psize (fst e), prev) /\
  exists r, zipEntry zl (10 + zlen A) = Some r /\ prevrawlensize r = psize (fst e) /\ prevrawlen r = prev /\
    headersize r + len r = elen e /\ 0 <= len r /\ 0 <= headersize r.
Proof.
  intros Hp Hx He. cbv zeta. rewrite zblk_app, <- (zlen_zblk t a c A).
  destruct (entry_at (zblk t a c A) prev e T Hp Hx He) as (E1 & enc & Hf & E2).
  split_and!; [done| | | |].
  - destruct (first_byte_ok _ _ Hp) as (ch & l & Ech & Hne). exists ch. unfold ent. rewrite Ech. cbn [app].
    rewrite zidx_bytes. split; [done|]. by apply Z.eqb_neq.
  - unfold ent. rewrite <- app_assoc. by apply decode_prevsize.
  - unfold ent. rewrite <- app_assoc. by apply decode_prev.
  - eexists. split; [exact E2|]. cbn [prevrawlensize prevrawlen headersize len]. unfold elen, body.
    pose proof (psize_range (fst e)). pose proof (zlen_nonneg (hdr_of (snd e))). pose proof (zlen_nonneg (pay_of (snd e))).
    split_and!; [done|done|zl|lia|lia].
Qed.

Lemma end_zblk t a c A T : zidx (zblk t a c (A ++ ZIP_END :: T)) (10 + zlen A) = Some ZIP_END.
Proof. rewrite zblk_app, <- (zlen_zblk t a c A). apply zidx_bytes. Qed.

(** ** Resizing *)

(** The new bytes come before a new terminator; the first of them is the old one. *)
Lemma zl_resize_grow t a c B k : 0 <= k -> 11 + zlen B + k < 2 ^ 32 ->
  exists M, ziplistResize junk (zblk t a c (B ++ [ZIP_END])) (11 + zlen B + k)
    = Some (zblk (11 + zlen B + k) a c (B ++ M ++ [ZIP_END])) /\
    zlen M = k /\ (M ++ [ZIP_END]) !! 0%nat = Some ZIP_END.
Proof.
  intros Hk Hlt. pose proof (zlen_nonneg B). unfold ziplistResize.
  rewrite (wrapu_small 32 (11 + zlen B + k)), (wrapu_small 32 (_ - 1)) by (unfold in_u; lia).
  destruct (realloc_grow junk (zblk t a c (B ++ [ZIP_END])) (11 + zlen B + k)) as (f & -> & Hf);
    [rewrite zlen_zblk; zl|].
  rewrite zlen_zblk, zlen_app in Hf. change (zlen [ZIP_END]) with 1 in Hf.
  rewrite <- zblk_app, <- app_assoc, set_zbytes. cbn [mbind option_bind].
  destruct (split_at ([ZIP_END] ++ f) k) as (M & [|z [|? r]] & E & HM); [zl|..].
  - exfalso. apply (f_equal zlen) in E. zl.
  - exists M. rewrite E. assert (zlen [ZIP_END] = zlen [z]) as Hz by done.
    replace (11 + zlen B + k - 1) with (10 + zlen (B ++ M)) by zl.
    pose proof (wr_zblk (11 + zlen B + k) a c (B ++ M) [z] [ZIP_END] [] Hz) as W.
    rewrite !app_nil_r, <- !app_assoc in W. split_and!; [exact W|done|].
    destruct M as [|m M]; [done|]. by injection E as <- _.
  - exfalso. apply (f_equal zlen) in E. zl. pose proof (zlen_nonneg r). lia.
Qed.

Lemma resize_shrink t a c B z R : 11 + zlen B < 2 ^ 32 ->
  ziplistResize junk (zblk t a c (B ++ z :: R)) (11 + zlen B) = Some (zblk (11 + zlen B) a c (B ++ [ZIP_END])).
Proof.
  intros Hlt. pose proof (zlen_nonneg B). unfold ziplistResize.
  rewrite (wrapu_small 32 (11 + zlen B)), (wrapu_small 32 (_ - 1)) by (unfold in_u; lia).
  replace (11 + zlen B) with (zlen (zblk t a c (B ++ [z]))) at 1 by (rewrite zlen_zblk; zl).
  rewrite (cons_middle z B R), (app_assoc B), zblk_app, realloc_shrink, set_zbytes. cbn [mbind option_bind].
  pose proof (wr_zblk (11 + zlen B) a c B [z] [ZIP_END] [] eq_refl) as W. rewrite !app_nil_r in W.
  replace (11 + zlen B - 1) with (10 + zlen B) by lia. exact W.
Qed.

(** ** Cascading updates *)

(** The fields that are too short for the length before them become long ones. *)
Fixpoint fixl (prev : Z) (l : list entry) : list entry :=
  match l with
  | [] => []
  | e :: l' => if big prev && negb (fst e) then let e' := (true, snd e) in e' :: fixl (elen e') l' else l
  end.

Lemma fixl_values prev l : snd <$> fixl prev l = snd <$> l.
Proof.
  revert prev. induction l as [|e l IH]; intros prev; [done|]. cbn [fixl].
  case_if; [|done]. cbn. by rewrite IH.
Qed.

Lemma fixl_ok prev l : entries_ok prev l -> fixl prev l = l.
Proof.
  destruct l as [|e l]; [done|]. intros (Hp & _). cbn [fixl].
  destruct Hp as [_ [Hp| ->]]; [|by rewrite andb_false_r].
  unfold big. by rewrite (proj2 (Z.leb_gt _ _)).
Qed.

Lemma elens_fixl prev l : elens l <= elens (fixl prev l) <= elens l + 4 * zlen l.
Proof.
  revert prev. induction l as [|e l IH]; intros prev.
  { cbn [fixl elens]. change (zlen (@nil entry)) with 0. lia. }
  cbn [fixl]. rewrite zlen_cons. pose proof (zlen_nonneg l). case_if; [|lia]. cbn [elens]. specialize (IH (elen (true, snd e))).
  destruct e as [[] x]; cbn [negb fst snd] in *; [done|]. unfold elen in *. cbn [fst snd psize] in *. lia.
Qed.

Lemma entries_ok_fixl prev prev0 l : in_u 32 prev -> entries_ok prev0 l -> elens l + 4 * zlen l < 2 ^ 32 ->
  entries_ok prev (fixl prev l).
Proof.
  revert prev prev0. induction l as [|e l IH]; intros prev prev0 Hp Hl Hlt; [done|].
  destruct Hl as (Hf & Hx & He & Hl). rewrite zlen_cons in Hlt. cbn [elens] in Hlt.
  pose proof (elens_ge _ _ Hl). pose proof (zlen_nonneg l). pose proof (elen_pos e Hx). cbn [fixl]. case_if.
  - assert (elen (true, snd e) <= elen e + 4) as Hle
      by (unfold elen; cbn [fst snd psize]; pose proof (psize_range (fst e)); lia).
    pose proof (elen_pos (true, snd e) Hx). cbn [entries_ok fst snd]. split_and!; [|done|lia|].
    + split; [done|by right].
    + apply (IH _ (elen e)); [unfold in_u; lia|done|lia].
  - cbn [entries_ok]. split_and!; [|done|done|done]. split; [done|].
    apply andb_false_iff in Hif as [Hif|Hif]; unfold big in *; zbool; [by left|by right].
Qed.

(** The room for a long field in front of [S], whose short field is [z]. *)
Lemma widen t a c A z S M n : in_u 32 n -> big n = true -> zlen M = 4 ->
  (zl ← memmove (zblk t a c (A ++ [z] ++ S ++ M ++ [ZIP_END])) (10 + zlen A + 5) (10 + zlen A + 1) (zlen S);
   zipStorePrevEntryLength zl (10 + zlen A) n)
  = Some (zblk t a c (A ++ pbytes n true ++ S ++ [ZIP_END]), 5).
Proof.
  intros Hn Hb HM. pose proof (zlen_nonneg S).
  destruct (split_at ([z] ++ S ++ M) 5) as (K & W & E & HK); [zl|].
  assert (zlen S = zlen W) as HSW by (apply (f_equal zlen) in E; zl).
  replace (A ++ [z] ++ S ++ M ++ [ZIP_END]) with ((A ++ K) ++ W ++ [ZIP_END])
    by by rewrite <- app_assoc, (app_assoc K), <- E, <- !app_assoc.
  replace (10 + zlen A + 5) with (10 + zlen (A ++ K)) by zl.
  rewrite memmove_zblk; [|done|].
  - cbn [mbind option_bind]. rewrite <- app_assoc, store_prev by (by rewrite ?Hb). by rewrite Hb.
  - rewrite <- app_assoc, (app_assoc K), <- E, <- !app_assoc, (app_assoc A), zblk_app.
    apply rd_app; [|done]. rewrite zlen_zblk. zl.
Qed.

(** One step that makes the field of [n] a long one, before the update goes on with [K]. *)
Lemma cascade_grow t a c A stale n l rawlen (K : list Z -> option (list Z)) :
  t = 11 + zlen A + elen n + elens l -> a = tail_of (10 + zlen A) (n :: l) ->
  fst n = false -> elem_ok (snd n) -> Forall (fun e => elem_ok (snd e)) l ->
  in_u 32 rawlen -> big rawlen = true -> t + 4 < 2 ^ 32 ->
  let n' := (true, snd n) : entry in
  (zl ← ziplistResize junk (zblk t a c (A ++ ent stale n ++ ebytes (elen n) l ++ [ZIP_END])) (t + 4);
   tail ← ZIPLIST_ENTRY_TAIL zl;
   zl ← (if negb (tail =? 10 + zlen A) then add_tail zl 4 else Some zl);
   zl ← memmove zl (10 + zlen A + 5) (10 + zlen A + 1) (t - (10 + zlen A) - 1 - 1);
   '(zl, _) ← zipStorePrevEntryLength zl (10 + zlen A) rawlen;
   K zl)
  = K (zblk (t + 4) (tail_of (10 + zlen A) (n' :: l)) c (A ++ ent rawlen n' ++ ebytes (elen n) l ++ [ZIP_END])).
Proof.
  intros Ht Ha Hfn Hx Hl Hr Hbig Hlt n'. pose proof (zlen_nonneg A). pose proof (elen_pos n Hx).
  pose proof (elens_elems _ Hl). pose proof (zlen_nonneg l).
  set (S := body (snd n) ++ ebytes (elen n) l).
  assert (elen n' = elen n + 4) as En' by (unfold elen, n'; cbn [fst snd]; rewrite Hfn; cbn [psize]; lia).
  assert (zlen S = elen n - 1 + elens l) as HS.
  { unfold S. zl. rewrite zlen_ebytes. unfold elen. rewrite Hfn. cbn [psize]. lia. }
  replace (A ++ ent stale n ++ ebytes (elen n) l ++ [ZIP_END]) with ((A ++ [stale] ++ S) ++ [ZIP_END])
    by (unfold S, ent; rewrite Hfn; by rewrite <- !app_assoc).
  assert (t + 4 = 11 + zlen (A ++ [stale] ++ S) + 4) as Et by zl.
  destruct (zl_resize_grow t a c (A ++ [stale] ++ S) 4) as (M & ER & HM & _); [lia|lia|].
  rewrite Et, ER. clear ER. cbn [mbind option_bind]. rewrite <- Et.
  assert (in_u 32 a /\ a <= t) as [Ha32 Hat].
  { rewrite Ha. pose proof (tail_of_range (10 + zlen A) (n :: l)) as R. cbn [elens] in R.
    unfold in_u. destruct R; [|lia]. by constructor. }
  rewrite get_tail by done. cbn [mbind option_bind].
  assert ((if negb (a =? 10 + zlen A)
           then add_tail (zblk (t + 4) a c ((A ++ [stale] ++ S) ++ M ++ [ZIP_END])) 4
           else Some (zblk (t + 4) a c ((A ++ [stale] ++ S) ++ M ++ [ZIP_END])))
          = Some (zblk (t + 4) (tail_of (10 + zlen A) (n' :: l)) c
                    ((A ++ [stale] ++ S) ++ M ++ [ZIP_END]))) as ->.
  { cbn [tail_of] in *. destruct l as [|n1 l1]; [by rewrite Ha, Z.eqb_refl|].
    pose proof (tail_of_range (10 + zlen A + elen n) (n1 :: l1) Hl).
    rewrite (proj2 (Z.eqb_neq _ _)) by lia. cbn [negb].
    rewrite En', Z.add_assoc, (tail_of_shift _ 4), <- Ha by done. apply add_tail_zblk; [done|].
    unfold in_u in *. lia. }
  cbn [mbind option_bind]. replace (t - (10 + zlen A) - 1 - 1) with (zlen S) by lia. rewrite <- !app_assoc.
  pose proof (widen (t + 4) (tail_of (10 + zlen A) (n' :: l)) c A stale S M rawlen Hr Hbig HM) as W.
  destruct (memmove _ _ _ _); [|discriminate W]. cbn [mbind option_bind] in *. rewrite W. cbn [mbind option_bind].
  unfold S, ent. cbn [fst snd n']. by rewrite <- !app_assoc.
Qed.

(** The update that ends: the length is stored in a field that has room for it. *)
Lemma cascade_store t a c A stale n T rawlen :
  in_u 32 rawlen -> (psize (fst n) <? psize (big rawlen)) = false ->
  let zl := zblk t a c (A ++ ent stale n ++ T) in
  ('(zl, _) ← (if psize (fst n) >? psize (big rawlen)
               then zipStorePrevEntryLengthLarge zl (10 + zlen A) rawlen
               else zipStorePrevEntryLength zl (10 + zlen A) rawlen);
   Some zl)
  = Some (zblk t a c (A ++ ent rawlen n ++ T)).
Proof.
  intros Hr Hlt. unfold ent. cbv zeta. rewrite <- !(app_assoc (pbytes _ _)).
  destruct (fst n) eqn:Hfn, (big rawlen) eqn:Hbig; try done; cbn [psize];
    [change (5 >? 5) with false|change (5 >? 1) with true|change (1 >? 1) with false]; cbv iota.
  - rewrite store_prev by (done || by rewrite zlen_pbytes, Hbig). by rewrite Hbig.
  - by rewrite store_large by (by rewrite zlen_pbytes).
  - rewrite store_prev by (done || by rewrite zlen_pbytes, Hbig). by rewrite Hbig.
Qed.

Lemma cascade_spec fuel t a c A prev e stale l :
  t = 11 + zlen A + elen e + elens l -> a = tail_of (10 + zlen A) (e :: l) ->
  prev_fits prev (fst e) -> elem_ok (snd e) -> elen e < 2 ^ 32 -> entries_ok stale l ->
  t + 4 * zlen l < 2 ^ 32 -> (length l < fuel)%nat ->
  let l' := fixl (elen e) l in
  cascade_loop junk fuel (zblk t a c (A ++ ent prev e ++ ebytes stale l ++ [ZIP_END])) (10 + zlen A) t
  = Some (zblk (11 + zlen A + elen e + elens l') (tail_of (10 + zlen A) (e :: l')) c
            (A ++ ent prev e ++ ebytes (elen e) l' ++ [ZIP_END])).
Proof.
  cbv zeta. revert fuel t a A prev e stale. induction l as [|n l IH];
    intros fuel t a A prev e stale Ht Ha Hp Hx He Hl Hlt Hfuel; (destruct fuel as [|fuel]; [cbn in Hfuel; lia|]);
    pose proof (zlen_nonneg A) as HA; cbn [cascade_loop].
  - destruct (entry_zblk t a c A prev e (ebytes stale [] ++ [ZIP_END]) Hp Hx He)
      as (_ & (ch & Ech & Hch) & _ & _ & r & Er & R1 & R2 & R3 & R4 & R5).
    rewrite Ech. cbn [mbind option_bind]. rewrite Hch, Er. cbn [mbind option_bind].
    rewrite R3, wrapu_small by (unfold in_u; lia). cbn [ebytes fixl elens app].
    rewrite app_assoc. replace (10 + zlen A + elen e) with (10 + zlen (A ++ ent prev e)) by (zl; rewrite zlen_ent; lia).
    rewrite end_zblk. cbn [mbind option_bind]. change (ZIP_END =? ZIP_END) with true. cbv iota.
    subst t a. cbn [elens]. done.
  - destruct Hl as (Hsf & Hnx & Hnl & Hl). rewrite zlen_cons in Hlt. pose proof (zlen_nonneg l).
    pose proof (elens_ge _ _ Hl). pose proof (elen_pos n Hnx). pose proof (elen_pos e Hx). cbn [elens] in Ht.
    destruct (entry_zblk t a c A prev e (ebytes stale (n :: l) ++ [ZIP_END]) Hp Hx He)
      as (_ & (ch & Ech & Hch) & _ & _ & r & Er & R1 & R2 & R3 & R4 & R5).
    rewrite Ech. cbn [mbind option_bind]. rewrite Hch, Er. cbn [mbind option_bind].
    rewrite R3, (wrapu_small 32 (elen e)) by (unfold in_u; lia). cbn [ebytes].
    set (A' := A ++ ent prev e).
    assert (10 + zlen A + elen e = 10 + zlen A') as EA by (unfold A'; zl; rewrite zlen_ent; lia).
    rewrite <- (app_assoc (ent stale n)), (app_assoc A), EA. fold A'.
    destruct (entry_zblk t a c A' stale n (ebytes (elen n) l ++ [ZIP_END]) Hsf Hnx Hnl)
      as (_ & (ch' & Ech' & Hch') & _ & _ & r' & Er' & Q1 & Q2 & Q3 & Q4 & Q5).
    rewrite Ech'. cbn [mbind option_bind]. rewrite Hch', Er'. cbn [mbind option_bind]. rewrite Q1, Q2, store_size.
    assert (big (elen e) && negb (fst n) = false ->
      zblk t a c (A' ++ ent (elen e) n ++ ebytes (elen n) l ++ [ZIP_END])
      = zblk (11 + zlen A + elen e + elens (fixl (elen e) (n :: l)))
          (tail_of (10 + zlen A) (e :: fixl (elen e) (n :: l))) c
          (A ++ ent prev e ++ ebytes (elen e) (fixl (elen e) (n :: l)) ++ [ZIP_END])) as Hsame.
    { intros E. cbn [fixl]. rewrite E, Ht, Ha. unfold A'. cbn [ebytes elens]. by rewrite <- !app_assoc. }
    destruct (Z.eqb_spec stale (elen e)) as [->|Hne].
    { f_equal. apply Hsame. destruct Hsf as [_ [Hs| ->]]; [|by rewrite andb_false_r].
      unfold big. by rewrite (proj2 (Z.leb_gt _ _)). }
    destruct (psize (fst n) <? psize (big (elen e))) eqn:Hgrow.
    + destruct (fst n) eqn:Hfn; [by destruct (big (elen e))|].
      destruct (big (elen e)) eqn:Hbig; [|done]. cbn [psize]. change (5 - 1) with 4. set (n' := (true, snd n) : entry).
      assert (elen n' = elen n + 4) as En' by (unfold elen, n'; cbn [fst snd]; rewrite Hfn; cbn [psize]; lia).
      rewrite cascade_grow; try done; [|unfold A' in *; lia|by rewrite <- EA, Ha
        |by eapply entries_elems|unfold in_u; lia|lia]. fold n'.
      rewrite (IH fuel (t + 4) _ A' (elen e) n' (elen n)); try done.
      * cbn [fixl]. rewrite Hbig, Hfn. cbn [negb andb]. fold n'. cbv zeta. cbn [ebytes elens].
        unfold A'. rewrite <- !app_assoc. f_equal. f_equal; [unfold A' in EA; lia|]. cbn [tail_of]. by rewrite EA.
      * lia.
      * split; [unfold in_u; lia|by right].
      * lia.
      * lia.
      * cbn in Hfuel. lia.
    + rewrite cascade_store by (done || unfold in_u; lia). f_equal. apply Hsame.
      by destruct (fst n), (big (elen e)).
Qed.

Lemma cascade_update t a c A prev e stale l :
  t = 11 + zlen A + elen e + elens l -> a = tail_of (10 + zlen A) (e :: l) ->
  prev_fits prev (fst e) -> elem_ok (snd e) -> elen e < 2 ^ 32 -> entries_ok stale l ->
  t + 4 * zlen l < 2 ^ 32 ->
  let l' := fixl (elen e) l in
  __ziplistCascadeUpdate junk (zblk t a c (A ++ ent prev e ++ ebytes stale l ++ [ZIP_END])) (10 + zlen A)
  = Some (zblk (11 + zlen A + elen e + elens l') (tail_of (10 + zlen A) (e :: l')) c
            (A ++ ent prev e ++ ebytes (elen e) l' ++ [ZIP_END])).
Proof.
  intros Ht Ha Hp Hx He Hl Hlt. pose proof (zlen_nonneg A). pose proof (zlen_nonneg l).
  pose proof (elens_ge _ _ Hl). pose proof (elen_pos e Hx). unfold __ziplistCascadeUpdate.
  rewrite get_zbytes. cbn [mbind option_bind]. rewrite host_uint_le32 by (unfold in_u; lia).
  apply cascade_spec; try done.
  enough (zlen l < zlen (zblk t a c (A ++ ent prev e ++ ebytes stale l ++ [ZIP_END]))) by (unfold zlen in *; lia).
  rewrite zlen_zblk. zl. rewrite zlen_ent, zlen_ebytes. lia.
Qed.

(** ** The parts of an insertion *)

Lemma int_encoding_cases v : in_s 64 v ->
  ZIP_IS_STR (int_encoding v) = false /\ zipIntSize (int_encoding v) = Some (Z.of_nat (int_size v)) /\
  Z.of_nat (int_size v) <= 8.
Proof.
  intros Hv. unfold int_size, int_encoding, INT24_MIN, INT24_MAX. rewrite !Z.geb_leb.
  repeat match goal with |- context [if ?b && ?c then _ else _] => destruct (b && c) eqn:?; zbool end; try done.
  rewrite wrapu_small by (unfold in_u, ZIP_INT_IMM_MIN; lia). unfold ZIP_INT_IMM_MIN.
  destruct (imm_encoding v) as (C1 & C2 & _ & C4); [lia|]. rewrite !Forall_cons in C4.
  destruct C4 as (E1 & E2 & E3 & E4 & E5 & _). unfold zipIntSize. by rewrite E1, E2, E3, E4, E5, C2.
Qed.

(** The length of a payload, as the insertion computes it. *)
Lemma payload_size x :
  (if zipTryEncoding x is Some _ then zipIntSize (enc_of x) else Some (zlen x)) = Some (zlen (pay_of x)) /\
  zlen (pay_of x) <= zlen x + 8.
Proof.
  pose proof (zlen_nonneg x). unfold enc_of, pay_of. rewrite zipTryEncoding_eq. destruct (string2ll x) as [v|] eqn:E.
  - apply string2ll_sound in E as [Hv _]. cbn [fmap option_fmap option_map from_option snd].
    destruct (int_encoding_cases v Hv) as (_ & -> & Hle). rewrite zlen_le_encode. split; [done|lia].
  - cbn [fmap option_fmap option_map]. split; [done|lia].
Qed.

Lemma insert_write_spec t a c A M R prev x : elem_ok x -> in_u 32 prev ->
  zlen M = elen (big prev, x) ->
  insert_write (zblk t a c (A ++ M ++ R)) (10 + zlen A) prev (enc_of x)
    (from_option fst 123456789 (zipTryEncoding x)) x
  = Some (zblk t a c (A ++ ent prev (big prev, x) ++ R)).
Proof.
  intros Hx Hp HM. unfold elen, body in HM. cbn [fst snd] in HM. rewrite zlen_app in HM.
  pose proof (zlen_nonneg (hdr_of x)). pose proof (zlen_nonneg (pay_of x)). pose proof (psize_range (big prev)).
  destruct (split_at M (psize (big prev))) as (M1 & M' & -> & HM1); [lia|]. rewrite zlen_app in HM.
  destruct (split_at M' (zlen (hdr_of x))) as (M2 & M3 & -> & HM2); [lia|]. rewrite zlen_app in HM.
  unfold insert_write. rewrite <- (app_assoc M1), store_prev by done. cbn [mbind option_bind].
  replace (10 + zlen A + psize (big prev)) with (10 + zlen (A ++ pbytes prev (big prev)))
    by (zl; rewrite zlen_pbytes; lia).
  unfold zipStoreEntryEncoding. fold (hdr_of x). rewrite <- (app_assoc M2), (app_assoc A).
  rewrite wr_zblk by lia. cbn [mbind option_bind]. rewrite (app_assoc _ (hdr_of x)).
  replace (10 + zlen (A ++ pbytes prev (big prev)) + zlen (hdr_of x))
    with (10 + zlen ((A ++ pbytes prev (big prev)) ++ hdr_of x)) by zl.
  replace (A ++ ent prev (big prev, x) ++ R)
    with (((A ++ pbytes prev (big prev)) ++ hdr_of x) ++ pay_of x ++ R)
    by (unfold ent, body; cbn [fst snd]; by rewrite <- !app_assoc).
  unfold enc_of, pay_of in *. rewrite zipTryEncoding_eq in *. destruct (string2ll x) as [v|] eqn:E.
  - apply string2ll_sound in E as [Hv _]. cbn [fmap option_fmap option_map from_option snd fst].
    destruct (int_encoding_cases v Hv) as (-> & _). rewrite !zblk_app, <- (zlen_zblk t a c), !zblk_app.
    apply save_int; [done|]. rewrite zlen_le_encode in HM. lia.
  - cbn [fmap option_fmap option_map from_option]. change (ZIP_IS_STR 0) with true. cbv iota. apply wr_zblk. lia.
Qed.

(** Whether the block goes on with another entry behind [A]. *)
Lemma more_entries t a c A prev l : entries_ok prev l ->
  exists ch, zidx (zblk t a c (A ++ ebytes prev l ++ [ZIP_END])) (10 + zlen A) = Some ch /\
    (ch =? ZIP_END) = match l with [] => true | _ => false end.
Proof.
  destruct l as [|e l]; intros Hl.
  - exists ZIP_END. split; [apply end_zblk|done].
  - destruct Hl as (Hp & Hx & He & _). cbn [ebytes]. rewrite <- app_assoc.
    destruct (entry_zblk t a c A prev e (ebytes (elen e) l ++ [ZIP_END]) Hp Hx He) as (_ & H1 & _). exact H1.
Qed.

(** The bytes that are moved by an insertion: all but the field of the next entry, in front of
    which there are as many bytes as its new field takes. *)
Lemma insert_slide t a c A prev n R M (nf : bool) reqlen nextdiff :
  nextdiff = psize nf - psize (fst n) -> 0 <= reqlen -> zlen M = reqlen + nextdiff ->
  exists F K, zlen F = reqlen /\ zlen K = psize nf /\
    memmove (zblk t a c (A ++ ent prev n ++ R ++ M ++ [ZIP_END])) (10 + zlen A + reqlen) (10 + zlen A - nextdiff)
      (elen n + zlen R + nextdiff)
    = Some (zblk t a c ((A ++ F) ++ K ++ body (snd n) ++ R ++ [ZIP_END])).
Proof.
  intros Hd Hr HM. pose proof (zlen_nonneg A). pose proof (zlen_nonneg R). pose proof (zlen_nonneg (body (snd n))).
  pose proof (psize_range nf). pose proof (psize_range (fst n)).
  destruct (split_at (zblk t a c (A ++ pbytes prev (fst n))) (10 + zlen A - nextdiff)) as (U & K & EU & HU).
  { rewrite zlen_zblk. zl. rewrite zlen_pbytes. lia. }
  assert (zlen K = psize nf) as HK.
  { apply (f_equal zlen) in EU. rewrite zlen_zblk in EU. zl. rewrite zlen_pbytes in EU. lia. }
  assert (elen n + zlen R + nextdiff = zlen (K ++ body (snd n) ++ R)) as HS by (unfold elen; zl).
  destruct (split_at (ent prev n ++ R ++ M) reqlen) as (F & W & EF & HF).
  { zl. rewrite zlen_ent. unfold elen. lia. }
  exists F, K. split_and!; [done|done|].
  replace (10 + zlen A + reqlen) with (10 + zlen (A ++ F)) by zl. rewrite HS.
  assert (A ++ ent prev n ++ R ++ M ++ [ZIP_END] = (A ++ F) ++ W ++ [ZIP_END]) as EB.
  { rewrite <- app_assoc, (app_assoc F), <- EF. by rewrite <- !app_assoc. }
  rewrite EB, memmove_zblk; [by rewrite <- !app_assoc| |].
  - apply (f_equal zlen) in EF. zl. rewrite zlen_ent in EF. unfold elen in *. lia.
  - rewrite <- EB. unfold ent. rewrite <- app_assoc, (app_assoc A), zblk_app, EU, <- !app_assoc.
    rewrite (app_assoc (body _) R), (app_assoc K). by apply rd_app.
Qed.

(** The size of the next entry after an insertion. *)
Definition next_flag (reqlen : Z) (old : bool) : bool :=
  if (psize (big reqlen) - psize old =? -4) && (reqlen <? 4) then true else big reqlen.

Lemma next_flag_cases reqlen old :
  let nextdiff := psize (big reqlen) - psize old in
  let forcelarge := (nextdiff =? -4) && (reqlen <? 4) in
  (if forcelarge then 0 else nextdiff) = psize (next_flag reqlen old) - psize old /\
  (if forcelarge then next_flag reqlen old = true else next_flag reqlen old = big reqlen).
Proof.
  cbv zeta. unfold next_flag. destruct ((_ =? -4) && _) eqn:E; [|done]. split; [|done].
  zbool. by destruct (big reqlen), old.
Qed.

(** The offset of the tail when the first of the last entries got another size. *)
Lemma tail_resized t tl c B off n n' l nextdiff :
  elen n' = elen n + nextdiff -> tl = tail_of off (n :: l) -> in_u 32 tl -> in_u 32 (tl + nextdiff) ->
  (if negb match l with [] => true | _ => false end then add_tail (zblk t tl c B) nextdiff else Some (zblk t tl c B))
  = Some (zblk t (tail_of off (n' :: l)) c B).
Proof.
  intros En' -> H1 H2. cbn [tail_of] in *. destruct l as [|m l]; cbn [negb]; [done|].
  rewrite add_tail_zblk by done. by rewrite En', Z.add_assoc, (tail_of_shift _ nextdiff).
Qed.

Lemma insert_move_spec t a c A prev n l M (forcelarge : bool) reqlen (nf : bool) curlen :
  let nextdiff := psize nf - psize (fst n) in let n' := (nf, snd n) : entry in
  a = tail_of (10 + zlen A) (n :: l) -> curlen = 11 + zlen A + elen n + elens l ->
  (if forcelarge then nf = true else nf = big reqlen) -> 0 < reqlen ->
  elem_ok (snd n) -> entries_ok (elen n) l -> zlen M = reqlen + nextdiff ->
  curlen + reqlen + 4 < 2 ^ 32 ->
  exists F, zlen F = reqlen /\
    insert_move (zblk t a c (A ++ ent prev n ++ ebytes (elen n) l ++ M ++ [ZIP_END])) (10 + zlen A) curlen reqlen
      nextdiff forcelarge
    = Some (zblk t (tail_of (10 + zlen A + reqlen) (n' :: l)) c
              ((A ++ F) ++ ent reqlen n' ++ ebytes (elen n) l ++ [ZIP_END])).
Proof.
  intros nextdiff n' Ha Hc Hforce Hr Hx Hl HM Hlt. pose proof (zlen_nonneg A). pose proof (elen_pos n Hx).
  pose proof (elens_ge _ _ Hl). pose proof (zlen_nonneg l).
  assert (elen n' = elen n + nextdiff) as En' by (unfold elen, n', nextdiff; cbn [fst snd]; lia).
  pose proof (elen_pos n' Hx). assert (-4 <= nextdiff <= 4) as Hd by (unfold nextdiff; destruct nf, (fst n); cbn; lia).
  destruct (insert_slide t a c A prev n (ebytes (elen n) l) M nf reqlen nextdiff eq_refl) as (F & K & HF & HK & E); [lia|done|].
  exists F. split; [done|]. rewrite zlen_ebytes in E. unfold insert_move.
  replace (curlen - (10 + zlen A) - 1 + nextdiff) with (elen n + elens l + nextdiff) by lia. rewrite E.
  cbn [mbind option_bind]. replace (10 + zlen A + reqlen) with (10 + zlen (A ++ F)) by zl.
  assert (exists k, (if forcelarge
    then zipStorePrevEntryLengthLarge (zblk t a c ((A ++ F) ++ K ++ body (snd n) ++ ebytes (elen n) l ++ [ZIP_END]))
           (10 + zlen (A ++ F)) (wrapu 32 reqlen)
    else zipStorePrevEntryLength (zblk t a c ((A ++ F) ++ K ++ body (snd n) ++ ebytes (elen n) l ++ [ZIP_END]))
           (10 + zlen (A ++ F)) (wrapu 32 reqlen))
    = Some (zblk t a c ((A ++ F) ++ ent reqlen n' ++ ebytes (elen n) l ++ [ZIP_END]), k)) as (k & ->).
  { unfold ent, n'. cbn [fst snd]. rewrite <- (app_assoc (pbytes _ _)).
    rewrite !(wrapu_small 32 reqlen) by (unfold in_u; lia). destruct forcelarge; subst nf.
    - rewrite store_large by done. by eexists.
    - rewrite store_prev by (done || unfold in_u; lia). by eexists. }
  cbn [mbind option_bind].
  assert (Forall (fun e => elem_ok (snd e)) (n :: l)) as Hel by (constructor; [done|by eapply entries_elems]).
  assert (in_u 32 a /\ in_u 32 (a + reqlen)) as [Ha1 Ha2].
  { pose proof (tail_of_range (10 + zlen A) (n :: l) Hel) as R. rewrite <- Ha in R. cbn [elens] in R. unfold in_u. lia. }
  rewrite add_tail_zblk by done. cbn [mbind option_bind].
  assert (prev_fits reqlen nf) as Hpf.
  { split; [unfold in_u; lia|]. destruct forcelarge; [by right|]. subst nf. unfold big.
    destruct (Z.leb_spec ZIP_BIG_PREVLEN reqlen); [by right|by left]. }
  destruct (entry_zblk t (a + reqlen) c (A ++ F) reqlen n' (ebytes (elen n) l ++ [ZIP_END]) Hpf Hx)
    as (_ & _ & _ & _ & r & -> & _ & _ & Hsz & _); [lia|]. cbn [mbind option_bind].
  replace (10 + zlen A + (reqlen + headersize r + len r)) with (10 + zlen ((A ++ F) ++ ent reqlen n'))
    by (rewrite !zlen_app, zlen_ent; lia).
  destruct (more_entries t (a + reqlen) c ((A ++ F) ++ ent reqlen n') (elen n) l Hl) as (ch & Ech & Hch).
  rewrite <- (app_assoc _ (ent reqlen n')) in Ech. rewrite Ech. cbn [mbind option_bind]. rewrite Hch.
  replace (10 + zlen (A ++ F)) with (10 + zlen A + reqlen) by zl.
  apply (tail_resized _ _ _ _ _ n); [done|by rewrite Ha, (tail_of_shift (10 + zlen A))|done|].
  pose proof (tail_of_range (10 + zlen A) (n :: l) Hel) as R. rewrite <- Ha in R. cbn [elens] in R. unfold in_u in *. lia.
Qed.

End spec.
