(* ===== verification/ZiplistEdit.v ===== *)
(** * The operations of ziplists on lists of strings

    [zl_rep zl xs] relates a ziplist to its elements; insertion, deletion and merge act on
    the elements as on a list, navigation visits them in order. *)

From S2P Require Import Prelude Endian Util Ziplist ZiplistSpec.

(** ** The representation *)

(** The number of entries, or the value that stands for too many. *)
Definition count_ok (cnt : Z) (l : list entry) : Prop := in_u 16 cnt /\ (cnt = UINT16_MAX \/ cnt = zlen l).

Definition zl_bytes (cnt : Z) (l : list entry) : list Z :=
  zblk (11 + elens l) (tail_of 10 l) cnt (ebytes 0 l ++ [ZIP_END]).

Record zl_as (cnt : Z) (l : list entry) (zl : list Z) : Prop := {
  za_bytes : zl = zl_bytes cnt l;
  za_entries : entries_ok 0 l;
  za_size : 11 + elens l < 2 ^ 32;
  za_count : count_ok cnt l
}.

Definition zl_rep (zl : list Z) (xs : list (list Z)) : Prop := exists cnt l, zl_as cnt l zl /\ snd <$> l = xs.

(** The bytes of the entries in front of a position. *)
Definition zl_at (l : list entry) : Z := 10 + elens l.

Lemma zl_split cnt a b :
  zl_bytes cnt (a ++ b) = zblk (11 + elens (a ++ b)) (tail_of 10 (a ++ b)) cnt
                            (ebytes 0 a ++ ebytes (last_len 0 a) b ++ [ZIP_END]).
Proof. unfold zl_bytes. by rewrite ebytes_app, <- app_assoc. Qed.

Lemma zl_at_eq a : zl_at a = 10 + zlen (ebytes 0 a).
Proof. unfold zl_at. by rewrite zlen_ebytes. Qed.

Lemma last_len_range a : entries_ok 0 a -> in_u 32 (last_len 0 a).
Proof.
  destruct a as [|e a _] using rev_ind; [by vm_compute|]. rewrite entries_ok_app. intros (_ & _ & Hx & He & _).
  unfold last_len. rewrite last_snoc. cbn [from_option]. pose proof (elen_pos e Hx). unfold in_u. lia.
Qed.

Lemma add_count_ok cnt n l l' : count_ok cnt l -> zlen l' = zlen l + n ->
  (cnt < UINT16_MAX -> in_u 16 (cnt + n)) -> count_ok (add_count cnt n) l'.
Proof.
  intros [Hc Hl] Hn Hr. unfold add_count, count_ok in *. case_if; [|split; [done|left; unfold in_u, UINT16_MAX in *; lia]].
  split; [auto|]. destruct Hl as [->| ->]; [done|]. right. lia.
Qed.

Section edit.
Context `{Host}.
Variable junk : nat -> Z.

Lemma zl_get_total cnt l : 11 + elens l < 2 ^ 32 -> 0 <= elens l ->
  (intrev32ifbe <$> ZIPLIST_BYTES (zl_bytes cnt l)) = Some (11 + elens l).
Proof.
  intros. unfold zl_bytes. rewrite get_zbytes. cbn [fmap option_fmap option_map].
  rewrite host_uint_le32; [done|]. unfold in_u. lia.
Qed.

(** ** Insertion *)

Lemma insert_prevlen_spec cnt a b : entries_ok 0 (a ++ b) -> 11 + elens (a ++ b) < 2 ^ 32 ->
  insert_prevlen (zl_bytes cnt (a ++ b)) (zl_at a) = Some (last_len 0 a).
Proof.
  intros Hok Hlt. apply entries_ok_app in Hok as [Ha Hb]. unfold insert_prevlen. rewrite zl_split, zl_at_eq.
  destruct (more_entries (11 + elens (a ++ b)) (tail_of 10 (a ++ b)) cnt (ebytes 0 a) (last_len 0 a) b Hb)
    as (ch & -> & Hch). cbn [mbind option_bind]. rewrite Hch.
  destruct b as [|n b]; cbn [negb].
  - rewrite app_nil_r in *. destruct a as [|e a _] using rev_ind.
    + rewrite get_tail by by vm_compute. cbn [mbind option_bind]. change (tail_of 10 []) with (10 + zlen (@nil Z)).
      change (ebytes 0 [] ++ ebytes (last_len 0 []) [] ++ [ZIP_END]) with ([] ++ [ZIP_END]).
      rewrite end_zblk. done.
    + rewrite tail_of_app by done. cbn [tail_of]. apply entries_ok_app in Ha as (Ha & Hp & Hx & He & _).
      pose proof (elens_ge _ _ Ha). pose proof (zlen_nonneg a). rewrite elens_app in Hlt. cbn [elens] in Hlt.
      pose proof (elen_pos e Hx). rewrite get_tail by (unfold in_u; lia). cbn [mbind option_bind].
      rewrite ebytes_app. cbn [ebytes app]. rewrite app_nil_r, <- app_assoc.
      replace (10 + elens a) with (10 + zlen (ebytes 0 a)) by by rewrite zlen_ebytes.
      edestruct entry_zblk as (E1 & (ch' & E2 & Hch') & _); [exact Hp|exact Hx|exact He|].
      rewrite E2. cbn [mbind option_bind]. rewrite Hch'. cbn [negb]. rewrite E1.
      unfold last_len. by rewrite last_snoc.
  - destruct Hb as (Hp & Hx & He & _). cbn [ebytes]. rewrite <- (app_assoc (ent _ _)).
    edestruct entry_zblk as (_ & _ & _ & -> & _); [exact Hp|exact Hx|exact He|done].
Qed.

Lemma default_enc x :
  default (123456789, 0) (zipTryEncoding x) = (from_option fst 123456789 (zipTryEncoding x), enc_of x).
Proof. unfold enc_of. by destruct (zipTryEncoding x) as [[]|]. Qed.

(** The entries after an insertion of [x] between [a] and [b]. *)
Definition ins_list (a : list entry) (x : list Z) (b : list entry) : list entry :=
  let ne := (big (last_len 0 a), x) in
  match b with
  | [] => a ++ [ne]
  | n :: b => let n' := (next_flag (elen ne) (fst n), snd n) in a ++ ne :: n' :: fixl (elen n') b
  end.

Lemma elen_new prev x : elem_ok x -> 2 <= elen (big prev, x) <= zlen x + 18.
Proof.
  intros Hx. pose proof (elen_pos (big prev, x) Hx). split; [done|]. unfold elen, body. cbn [fst snd].
  pose proof (psize_range (big prev)). pose proof (zlen_hdr_of x Hx). pose proof (proj2 (payload_size x)). zl.
Qed.

(** The update of the entries behind one that got another size. *)
Lemma resized_cascade t c A prev n n' b nextdiff :
  elen n' = elen n + nextdiff -> t = 11 + zlen A + elen n' + elens b ->
  prev_fits prev (fst n') -> elem_ok (snd n') -> entries_ok (elen n) b -> t + 4 * zlen b < 2 ^ 32 ->
  let zl := zblk t (tail_of (10 + zlen A) (n' :: b)) c (A ++ ent prev n' ++ ebytes (elen n) b ++ [ZIP_END]) in
  let l' := n' :: fixl (elen n') b in
  (if negb (nextdiff =? 0) then __ziplistCascadeUpdate junk zl (10 + zlen A) else Some zl)
  = Some (zblk (11 + zlen A + elens l') (tail_of (10 + zlen A) l') c (A ++ ebytes prev l' ++ [ZIP_END])).
Proof.
  intros En' Ht Hp Hx Hb Hlt. cbv zeta. cbn [ebytes elens]. pose proof (zlen_nonneg A).
  pose proof (elens_ge _ _ Hb). pose proof (zlen_nonneg b). pose proof (elen_pos n' Hx).
  destruct (Z.eqb_spec nextdiff 0) as [->|Hne]; cbn [negb].
  - assert (elen n' = elen n) as E by lia. rewrite E, fixl_ok by done. rewrite Ht, E.
    rewrite <- !app_assoc. do 2 f_equal. lia.
  - rewrite cascade_update; try done; [|lia]. rewrite <- !app_assoc. do 2 f_equal. lia.
Qed.

(** The room made at the end, and the room made in front of [n :: b]. *)
Lemma insert_room_end a cnt x :
  let ne := (big (last_len 0 a), x) in
  entries_ok 0 a -> elem_ok x -> 11 + elens a + elen ne < 2 ^ 32 ->
  exists F, zlen F = elen ne /\
  insert_room junk (zl_bytes cnt a) (zl_at a) (11 + elens a) (elen ne) 0 false
  = Some (zblk (11 + elens (a ++ [ne])) (tail_of 10 (a ++ [ne])) cnt (ebytes 0 a ++ F ++ [ZIP_END])).
Proof.
  intros ne Ha Hx Hlt. pose proof (elens_ge _ _ Ha). pose proof (zlen_nonneg a).
  pose proof (elen_new (last_len 0 a) x Hx) as Hne. fold ne in Hne.
  destruct (zl_resize_grow junk (11 + elens a) (tail_of 10 a) cnt (ebytes 0 a) (elen ne)) as (M & ER & HM & Hfirst);
    [lia|rewrite zlen_ebytes; lia|]. rewrite zlen_ebytes in ER.
  exists M. split; [done|]. unfold insert_room, zl_bytes. rewrite Z.add_0_r, ER.
  cbn [mbind option_bind]. rewrite zl_at_eq.
  assert (zidx (zblk (11 + elens a + elen ne) (tail_of 10 a) cnt (ebytes 0 a ++ M ++ [ZIP_END]))
            (10 + zlen (ebytes 0 a)) = Some ZIP_END) as ->.
  { rewrite zblk_app. rewrite (zidx_here (zblk _ _ _ _)); [done|by rewrite zlen_zblk]. }
  cbn [mbind option_bind]. change (negb (ZIP_END =? ZIP_END)) with false. cbv iota.
  rewrite zlen_ebytes, wrapu_small, set_ztail by (unfold in_u; lia). cbn [mbind option_bind].
  change (negb (0 =? 0)) with false. cbv iota. rewrite elens_app, tail_of_app by done. cbn [tail_of elens].
  do 2 f_equal. lia.
Qed.

Lemma insert_room_mid a n b cnt x :
  let ne := (big (last_len 0 a), x) in
  let nf := next_flag (elen ne) (fst n) in let n' := (nf, snd n) in
  entries_ok 0 (a ++ n :: b) -> elem_ok x -> 11 + elens (a ++ n :: b) + elen ne + 4 * zlen b + 4 < 2 ^ 32 ->
  exists F, zlen F = elen ne /\
  insert_room junk (zl_bytes cnt (a ++ n :: b)) (zl_at a) (11 + elens (a ++ n :: b)) (elen ne) (psize nf - psize (fst n))
    ((psize (big (elen ne)) - psize (fst n) =? -4) && (elen ne <? 4))
  = Some (zblk (11 + elens (ins_list a x (n :: b))) (tail_of 10 (ins_list a x (n :: b))) cnt
            (ebytes 0 a ++ F ++ ebytes (elen ne) (n' :: fixl (elen n') b) ++ [ZIP_END])).
Proof.
  intros ne nf n' Hok Hx Hlt. apply entries_ok_app in Hok as [Ha (Hp & Hnx & Hnl & Hb)].
  rewrite elens_app in *. cbn [elens] in *.
  pose proof (elens_ge _ _ Ha). pose proof (zlen_nonneg a). pose proof (elen_new (last_len 0 a) x Hx) as Hne. fold ne in Hne.
  pose proof (elens_ge _ _ Hb). pose proof (zlen_nonneg b). pose proof (elen_pos n Hnx).
  destruct (next_flag_cases (elen ne) (fst n)) as [_ Hforce]. cbv zeta in Hforce. fold nf in Hforce.
  set (nextdiff := psize nf - psize (fst n)). set (fl := (_ =? -4) && _) in *.
  assert (elen n' = elen n + nextdiff) as En' by (unfold elen, n', nextdiff; cbn [fst snd]; lia).
  assert (-4 <= nextdiff <= 4) as Hd by (unfold nextdiff; destruct nf, (fst n); cbn; lia).
  assert (elem_ok (snd n')) as Hnx' by done. pose proof (elen_pos n' Hnx').
  assert (0 <= elen ne + nextdiff) as Hgrow.
  { unfold nextdiff, nf, next_flag. fold fl. destruct fl eqn:Efl; [cbn [psize]; destruct (fst n); cbn; lia|].
    unfold fl in Efl. destruct (big (elen ne)), (fst n); cbn in Efl |- *; zbool; lia. }
  assert (prev_fits (elen ne) nf) as Hpf.
  { split; [unfold in_u; lia|]. destruct fl; [by right|]. rewrite Hforce. unfold big.
    destruct (Z.leb_spec ZIP_BIG_PREVLEN (elen ne)); [by right|by left]. }
  set (T := 11 + (elens a + (elen n + elens b))) in *.
  set (B := ebytes 0 a ++ ent (last_len 0 a) n ++ ebytes (elen n) b).
  assert (11 + zlen B = T) as HB by (unfold B, T; zl; rewrite zlen_ent, !zlen_ebytes; lia).
  destruct (zl_resize_grow junk T (tail_of 10 (a ++ n :: b)) cnt B (elen ne + nextdiff)) as (M & ER & HM & _); [done|lia|].
  rewrite HB in ER.
  destruct (insert_move_spec (T + (elen ne + nextdiff)) (tail_of 10 (a ++ n :: b)) cnt (ebytes 0 a) (last_len 0 a)
    n b M fl (elen ne) nf T) as (F & HF & EM); try done;
    [by rewrite tail_of_app, zlen_ebytes|unfold T; rewrite zlen_ebytes; lia|lia|lia|].
  fold n' nextdiff in EM. exists F. split; [done|]. unfold insert_room. rewrite zl_split, elens_app. cbn [elens ebytes].
  fold T. replace (ebytes 0 a ++ (ent (last_len 0 a) n ++ ebytes (elen n) b) ++ [ZIP_END]) with (B ++ [ZIP_END])
    by (unfold B; by rewrite <- !app_assoc).
  rewrite <- Z.add_assoc, ER. cbn [mbind option_bind].
  replace (B ++ M ++ [ZIP_END])
    with (ebytes 0 a ++ ent (last_len 0 a) n ++ ebytes (elen n) b ++ M ++ [ZIP_END])
    by (unfold B; by rewrite <- !app_assoc).
  rewrite zl_at_eq. destruct (entry_zblk (T + (elen ne + nextdiff)) (tail_of 10 (a ++ n :: b)) cnt (ebytes 0 a)
    (last_len 0 a) n (ebytes (elen n) b ++ M ++ [ZIP_END]) Hp Hnx Hnl) as (_ & (ch & -> & Hch) & _).
  cbn [mbind option_bind]. rewrite Hch. cbn [negb]. rewrite EM. cbn [mbind option_bind].
  replace (10 + zlen (ebytes 0 a) + elen ne) with (10 + zlen (ebytes 0 a ++ F)) by zl.
  rewrite resized_cascade; try done; [|rewrite zlen_app, zlen_ebytes; unfold T; lia|lia].
  rewrite zlen_app, HF, <- app_assoc. replace (10 + (zlen (ebytes 0 a) + elen ne)) with (10 + zlen (ebytes 0 a) + elen ne) by lia.
  unfold ins_list. fold ne nf n'. rewrite elens_app, tail_of_app by done. cbn [elens]. rewrite zlen_ebytes.
  do 2 f_equal. lia.
Qed.

(** Both cases at once. *)
Definition ins_nextdiff (a : list entry) (x : list Z) (b : list entry) : Z :=
  match b with
  | [] => 0
  | n :: _ => psize (next_flag (elen (big (last_len 0 a), x)) (fst n)) - psize (fst n)
  end.

Definition ins_forcelarge (a : list entry) (x : list Z) (b : list entry) : bool :=
  match b with
  | [] => false
  | n :: _ => let reqlen := elen (big (last_len 0 a), x) in
      (psize (big reqlen) - psize (fst n) =? -4) && (reqlen <? 4)
  end.

Lemma insert_room_spec a b cnt x :
  let ne := (big (last_len 0 a), x) in
  entries_ok 0 (a ++ b) -> elem_ok x -> 11 + elens (a ++ b) + elen ne + 4 * zlen b + 4 < 2 ^ 32 ->
  exists F R, zlen F = elen ne /\
    insert_room junk (zl_bytes cnt (a ++ b)) (zl_at a) (11 + elens (a ++ b)) (elen ne) (ins_nextdiff a x b)
      (ins_forcelarge a x b)
    = Some (zblk (11 + elens (ins_list a x b)) (tail_of 10 (ins_list a x b)) cnt (ebytes 0 a ++ F ++ R)) /\
    ebytes 0 (ins_list a x b) ++ [ZIP_END] = ebytes 0 a ++ ent (last_len 0 a) ne ++ R.
Proof.
  intros ne Hok Hx Hlt. pose proof (zlen_nonneg b). unfold ins_list. fold ne.
  destruct b as [|n b]; cbn [ins_nextdiff ins_forcelarge].
  - rewrite app_nil_r in *. destruct (insert_room_end a cnt x Hok Hx) as (F & HF & E); [fold ne; lia|].
    exists F, [ZIP_END]. split_and!; [done|exact E|]. rewrite ebytes_app. cbn [ebytes].
    by rewrite app_nil_r, <- !app_assoc.
  - rewrite zlen_cons in *. destruct (insert_room_mid a n b cnt x Hok Hx) as (F & HF & E); [fold ne; lia|].
    eexists F, _. split_and!; [done|exact E|]. rewrite ebytes_app. cbn [ebytes]. by rewrite <- !app_assoc.
Qed.

Lemma ins_list_values a x b : snd <$> ins_list a x b = (snd <$> a) ++ x :: (snd <$> b).
Proof.
  unfold ins_list. destruct b as [|n b]; rewrite fmap_app; [done|]. cbn. by rewrite fixl_values.
Qed.

Lemma ins_list_ok a x b :
  entries_ok 0 (a ++ b) -> elem_ok x ->
  11 + elens (a ++ b) + elen (big (last_len 0 a), x) + 4 * zlen b + 4 < 2 ^ 32 ->
  entries_ok 0 (ins_list a x b) /\ 11 + elens (ins_list a x b) < 2 ^ 32.
Proof.
  intros Hok Hx Hlt. apply entries_ok_app in Hok as [Ha Hb]. pose proof (last_len_range a Ha) as Hll.
  pose proof (elen_new (last_len 0 a) x Hx). pose proof (elens_ge _ _ Ha). pose proof (zlen_nonneg a).
  pose proof (elens_ge _ _ Hb). pose proof (zlen_nonneg b).
  assert (forall p, in_u 32 p -> prev_fits p (big p)) as Hbig.
  { intros p Hp. split; [done|]. unfold big. destruct (Z.leb_spec ZIP_BIG_PREVLEN p); [by right|by left]. }
  rewrite elens_app in Hlt. unfold ins_list. set (ne := (big (last_len 0 a), x)) in *.
  destruct b as [|n b]; rewrite entries_ok_app, elens_app; cbn [elens entries_ok fst snd] in *.
  - split; [|lia]. split_and!; auto. lia.
  - destruct Hb as (Hp & Hnx & Hnl & Hb). rewrite zlen_cons in *. pose proof (zlen_nonneg b).
    pose proof (elens_ge _ _ Hb). destruct (next_flag_cases (elen ne) (fst n)) as [_ Hf]. cbv zeta in Hf.
    set (nf := next_flag _ _) in *. set (n' := (nf, snd n)).
    assert (elen n' <= elen n + 4) as En' by
      (unfold elen, n'; cbn [fst snd]; destruct nf, (fst n); cbn [psize]; lia).
    pose proof (elen_pos n' Hnx). pose proof (elens_fixl (elen n') b). split; [|lia].
    split_and!; auto; [lia| |lia|].
    + destruct (_ && _) in Hf; rewrite Hf; [split; [unfold in_u; lia|by right]|apply Hbig; unfold in_u; lia].
    + apply (entries_ok_fixl _ (elen n)); [unfold in_u; lia|done|lia].
Qed.

Lemma zlen_ins_list a x b : zlen (ins_list a x b) = zlen (a ++ b) + 1.
Proof.
  assert (forall l : list entry, zlen (snd <$> l) = zlen l) as E by (intros; unfold zlen; by rewrite length_fmap).
  rewrite <- (E (ins_list a x b)), ins_list_values, zlen_app, zlen_cons, !E, zlen_app. lia.
Qed.

(** The difference in the size of the next entry, as it is computed before the resize. *)
Lemma insert_nextdiff a b cnt reqlen {A} (K : Z -> option A) :
  entries_ok 0 (a ++ b) -> in_u 32 reqlen ->
  (ch ← zidx (zl_bytes cnt (a ++ b)) (zl_at a);
   nextdiff ← (if negb (ch =? ZIP_END) then zipPrevLenByteDiff (zl_bytes cnt (a ++ b)) (zl_at a) (wrapu 32 reqlen)
               else Some 0);
   K nextdiff)
  = K (match b with [] => 0 | n :: _ => psize (big reqlen) - psize (fst n) end).
Proof.
  intros Hok Hr. apply entries_ok_app in Hok as [_ Hb]. rewrite wrapu_small by done. rewrite zl_split, zl_at_eq.
  destruct (more_entries (11 + elens (a ++ b)) (tail_of 10 (a ++ b)) cnt (ebytes 0 a) _ b Hb) as (ch & -> & Hch).
  cbn [mbind option_bind]. rewrite Hch. destruct b as [|n b]; cbn [negb]; [done|].
  destruct Hb as (Hp & Hx & He & _). cbn [ebytes]. rewrite <- (app_assoc (ent _ _)). unfold zipPrevLenByteDiff.
  edestruct entry_zblk as (_ & _ & -> & _); [exact Hp|exact Hx|exact He|]. cbn [mbind option_bind]. by rewrite store_size.
Qed.

Lemma zl_insert_core a b cnt x zl :
  zl_as cnt (a ++ b) zl -> elem_ok x -> 11 + elens (a ++ b) + elen (big (last_len 0 a), x) + 4 * zlen b + 4 < 2 ^ 32 ->
  exists zl', __ziplistInsert junk zl (zl_at a) x = Some zl' /\ zl_as (add_count cnt 1) (ins_list a x b) zl'.
Proof.
  intros Hz Hx Hlt. destruct (ins_list_ok a x b (za_entries _ _ _ Hz) Hx Hlt) as [Hok' Hsz'].
  pose proof (za_entries _ _ _ Hz) as Hok. pose proof (za_size _ _ _ Hz) as Hsz. pose proof (elens_ge _ _ Hok).
  pose proof (zlen_nonneg (a ++ b)). rewrite (za_bytes _ _ _ Hz). pose proof (zl_get_total cnt (a ++ b) Hsz ltac:(lia)) as Ht.
  pose proof (proj1 (entries_ok_app 0 a b) Hok) as [Ha Hb].
  pose proof (elen_new (last_len 0 a) x Hx) as Hne. pose proof (zlen_nonneg b). pose proof (zlen_hdr_of x Hx).
  pose proof (zlen_nonneg (pay_of x)). set (ne := (big (last_len 0 a), x)) in *.
  unfold __ziplistInsert. destruct (ZIPLIST_BYTES _) as [w|]; [|discriminate Ht]. injection Ht as Ht.
  cbn [mbind option_bind]. rewrite Ht, insert_prevlen_spec by done. cbn [mbind option_bind].
  rewrite default_enc. cbn [mbind option_bind].
  destruct (payload_size x) as [-> _]. cbn [mbind option_bind]. rewrite store_size. unfold zipStoreEntryEncoding_size.
  fold (hdr_of x). replace (zlen (pay_of x) + psize (big (last_len 0 a)) + zlen (hdr_of x)) with (elen ne)
    by (unfold elen, body, ne; cbn [fst snd]; zl).
  destruct (insert_room_spec a b cnt x Hok Hx Hlt) as (F & R & HF & ER & EB). fold ne in HF, ER, EB.
  rewrite (insert_nextdiff a b cnt (elen ne) _ Hok) by (unfold in_u; lia). cbv zeta.
  assert (forall nd, nd = match b with [] => 0 | n :: _ => psize (big (elen ne)) - psize (fst n) end ->
    (nd =? -4) && (elen ne <? 4) = ins_forcelarge a x b /\
    (if ins_forcelarge a x b then 0 else nd) = ins_nextdiff a x b) as Hnd.
  { intros nd ->. destruct b as [|n b']; [done|]. cbn [ins_forcelarge ins_nextdiff]. fold ne.
    split; [done|]. apply (next_flag_cases (elen ne) (fst n)). }
  destruct (Hnd _ eq_refl) as [-> ->]. rewrite ER. cbn [mbind option_bind].
  rewrite zl_at_eq, insert_write_spec by (done || by apply last_len_range). cbn [mbind option_bind].
  pose proof (za_count _ _ _ Hz) as Hcnt. rewrite incr_length.
  - eexists. split; [done|]. fold ne. rewrite <- EB. constructor; [done|done|done|].
    apply (add_count_ok cnt 1 (a ++ b)); [done|apply zlen_ins_list|].
    destruct Hcnt as [Hc _]. unfold in_u, UINT16_MAX in *. lia.
  - apply Hcnt.
  - destruct Hcnt as [Hc _]. unfold in_u, UINT16_MAX in *. lia.
Qed.

(** ** Deletion *)

Lemma elens_nonneg prev l : entries_ok prev l -> 0 <= elens l.
Proof. intros Hl. pose proof (elens_ge _ _ Hl). pose proof (zlen_nonneg l). lia. Qed.

Lemma fuel_enough cnt l : entries_ok 0 l -> (length l < length (zl_bytes cnt l))%nat.
Proof.
  intros Hl. pose proof (elens_ge _ _ Hl). enough (zlen l < zlen (zl_bytes cnt l)) by (unfold zlen in *; lia).
  unfold zl_bytes. rewrite zlen_zblk. zl. rewrite zlen_ebytes. pose proof (zlen_nonneg l). lia.
Qed.

(** The entry behind [a]. *)
Lemma at_entry cnt a e b : entries_ok 0 (a ++ e :: b) ->
  let zl := zl_bytes cnt (a ++ e :: b) in
  zipRawEntryLength zl (zl_at a) = Some (elen e) /\
  (exists ch, zidx zl (zl_at a) = Some ch /\ (ch =? ZIP_END) = false) /\
  ZIP_DECODE_PREVLEN zl (zl_at a) = Some (psize (fst e), last_len 0 a) /\
  exists r, zipEntry zl (zl_at a) = Some r /\ prevrawlen r = last_len 0 a.
Proof.
  intros (_ & Hp & Hx & He & _)%entries_ok_app. cbv zeta. rewrite zl_split, zl_at_eq. cbn [ebytes].
  rewrite <- (app_assoc (ent _ _)).
  edestruct entry_zblk as (E1 & E2 & _ & E4 & r & Er & _ & R2 & _); [exact Hp|exact Hx|exact He|].
  split_and!; [exact E1|exact E2|exact E4|by eexists].
Qed.

Lemma at_end cnt a : zidx (zl_bytes cnt a) (zl_at a) = Some ZIP_END.
Proof. unfold zl_bytes. rewrite zl_at_eq. apply end_zblk. Qed.

Lemma zl_at_snoc a e : zl_at (a ++ [e]) = zl_at a + elen e.
Proof. unfold zl_at. rewrite elens_app. cbn [elens]. lia. Qed.

Lemma skip_entries_spec cnt a d b fuel i num :
  entries_ok 0 (a ++ d ++ b) -> (length d <= fuel)%nat -> 0 <= i ->
  (b = [] /\ i + zlen d <= num) \/ num = i + zlen d ->
  skip_entries fuel (zl_bytes cnt (a ++ d ++ b)) (zl_at a) i num = Some (zl_at (a ++ d), i + zlen d).
Proof.
  revert a fuel i. induction d as [|e d IH]; intros a fuel i Hok Hf Hi Hn.
  - rewrite app_nil_r, zlen_nil, Z.add_0_r in *. cbn [app] in *. destruct b as [|n b].
    + rewrite app_nil_r. destruct fuel; cbn [skip_entries]; by rewrite at_end.
    + destruct Hn as [[? _]| ->]; [done|].
      destruct (at_entry cnt a n b Hok) as (_ & (ch & E & Hch) & _).
      destruct fuel; cbn [skip_entries]; rewrite E; cbn [mbind option_bind]; by rewrite Hch, Z.ltb_irrefl.
  - destruct fuel as [|fuel]; [cbn in Hf; lia|]. cbn [skip_entries app]. rewrite zlen_cons in *.
    destruct (at_entry cnt a e (d ++ b) Hok) as (E1 & (ch & E2 & Hch) & _). rewrite E2. cbn [mbind option_bind].
    pose proof (zlen_nonneg d). rewrite Hch, (proj2 (Z.ltb_lt i num)) by lia. cbn [negb andb]. rewrite E1.
    cbn [mbind option_bind]. rewrite <- zl_at_snoc.
    assert (a ++ e :: d ++ b = (a ++ [e]) ++ d ++ b) as Ea by by rewrite <- app_assoc. cbn [app] in Hok.
    rewrite Ea in Hok |- *. replace (a ++ e :: d) with ((a ++ [e]) ++ d) by by rewrite <- app_assoc.
    rewrite IH; [f_equal; f_equal; lia|done|cbn in Hf; lia|lia|].
    destruct Hn as [[-> Hn]| ->]; [left; split; [done|lia]|right; lia].
Qed.

Lemma tail_of_last off a prev : entries_ok prev a -> a <> [] -> tail_of off a = off + elens a - last_len prev a.
Proof.
  destruct a as [|e a _] using rev_ind; [done|]. intros _ _. rewrite tail_of_app, elens_app by done.
  unfold last_len. rewrite last_snoc. cbn [tail_of elens from_option]. lia.
Qed.

(** The entries after a deletion between [a] and [b]. *)
Definition del_list (a b : list entry) : list entry :=
  match b with
  | [] => a
  | n :: b => let n' := (big (last_len 0 a), snd n) in a ++ n' :: fixl (elen n') b
  end.

(** The new field of the next entry is written over the end of the deleted entries. *)
Lemma delete_move_spec t c A D prev n b prev0 :
  let nf := big prev0 in let n' := (nf, snd n) in let nextdiff := psize nf - psize (fst n) in
  t = 11 + zlen A + zlen D + elen n + elens b -> t + 4 < 2 ^ 32 ->
  prev_fits prev (fst n) -> in_u 32 prev0 -> elem_ok (snd n) -> elen n < 2 ^ 32 -> entries_ok (elen n) b ->
  nextdiff <= zlen D ->
  exists z J,
    delete_move (zblk t (tail_of (10 + zlen A + zlen D) (n :: b)) c (A ++ D ++ ent prev n ++ ebytes (elen n) b ++ [ZIP_END]))
      (10 + zlen A) prev0 (10 + zlen A + zlen D) (zlen D)
    = Some (zblk t (tail_of (10 + zlen A) (n' :: b)) c ((A ++ ent prev0 n' ++ ebytes (elen n) b) ++ z :: J), nextdiff).
Proof.
  intros nf n' nextdiff Ht Hlt Hp Hp0 Hx He Hb Hd. pose proof (zlen_nonneg A). pose proof (zlen_nonneg D).
  pose proof (elen_pos n Hx). pose proof (elens_ge _ _ Hb). pose proof (zlen_nonneg b).
  assert (elen n' = elen n + nextdiff) as En' by (unfold elen, n', nextdiff; cbn [fst snd]; lia).
  assert (-4 <= nextdiff <= 4) as Hd4 by (unfold nextdiff; destruct nf, (fst n); cbn; lia).
  assert (elem_ok (snd n')) as Hx' by done. pose proof (elen_pos n' Hx').
  assert (prev_fits prev0 nf) as Hpf.
  { split; [done|]. unfold nf, big. destruct (Z.leb_spec ZIP_BIG_PREVLEN prev0); [by right|by left]. }
  destruct (split_at (D ++ pbytes prev (fst n)) (zlen D - nextdiff)) as (U & K & EU & HU).
  { zl. rewrite zlen_pbytes. pose proof (psize_range (fst n)). unfold nextdiff in *. pose proof (psize_range nf). lia. }
  assert (zlen K = psize nf) as HK.
  { apply (f_equal zlen) in EU. zl. rewrite zlen_pbytes in EU. unfold nextdiff in *. lia. }
  set (R := ebytes (elen n) b) in *.
  destruct (split_at (U ++ ent prev0 n' ++ R) (zlen (ent prev0 n' ++ R))) as (W & J & EW & HW).
  { zl. pose proof (zlen_nonneg U). pose proof (zlen_nonneg (ent prev0 n')). pose proof (zlen_nonneg R). lia. }
  assert (zlen (ent prev0 n' ++ R) = elen n' + elens b) as HS by (unfold R; zl; by rewrite zlen_ent, zlen_ebytes).
  assert (exists z J', J ++ [ZIP_END] = z :: J') as (z & J' & EJ) by (destruct J; by eexists _, _).
  exists z, J'. unfold delete_move, zipPrevLenByteDiff.
  destruct (entry_zblk t (tail_of (10 + zlen A + zlen D) (n :: b)) c (A ++ D) prev n (R ++ [ZIP_END]) Hp Hx He)
    as (_ & _ & E1 & _). rewrite <- app_assoc, zlen_app, Z.add_assoc in E1. rewrite E1. cbn [mbind option_bind].
  rewrite store_size. fold nf. fold nextdiff.
  replace (10 + zlen A + zlen D - nextdiff) with (10 + zlen (A ++ U)) by zl.
  replace (A ++ D ++ ent prev n ++ R ++ [ZIP_END]) with ((A ++ U) ++ K ++ body (snd n) ++ R ++ [ZIP_END]).
  2:{ unfold ent. rewrite <- !app_assoc. f_equal. rewrite (app_assoc U), <- EU, <- !app_assoc. done. }
  rewrite store_prev by done. cbn [mbind option_bind].
  replace ((A ++ U) ++ pbytes prev0 (big prev0) ++ body (snd n) ++ R ++ [ZIP_END])
    with ((A ++ U) ++ ent prev0 n' ++ R ++ [ZIP_END]) by (unfold ent, n', nf; cbn [fst snd]; by rewrite <- !app_assoc).
  set (tl := tail_of (10 + zlen A + zlen D) (n :: b)).
  assert (Forall (fun e => elem_ok (snd e)) (n :: b)) as Hel by (constructor; [done|by eapply entries_elems]).
  pose proof (tail_of_range (10 + zlen A + zlen D) (n :: b) Hel) as Htl. fold tl in Htl. cbn [elens] in Htl.
  rewrite add_tail_zblk by (unfold in_u; lia). cbn [mbind option_bind].
  destruct (entry_zblk t (tl + - zlen D) c (A ++ U) prev0 n' (R ++ [ZIP_END]) Hpf Hx')
    as (_ & _ & _ & _ & r & -> & _ & _ & Hsz & _); [lia|]. cbn [mbind option_bind].
  rewrite Hsz, wrapu_small by (unfold in_u; lia).
  destruct (more_entries t (tl + - zlen D) c ((A ++ U) ++ ent prev0 n') (elen n) b Hb) as (ch & Ech & Hch).
  rewrite <- (app_assoc _ (ent prev0 n')), zlen_app, zlen_ent, Z.add_assoc in Ech. fold R in Ech. rewrite Ech.
  cbn [mbind option_bind]. rewrite Hch.
  rewrite (tail_resized _ _ _ _ (10 + zlen A) n n' b nextdiff);
    [|done|unfold tl; rewrite (tail_of_shift (10 + zlen A)) by done; lia|unfold in_u; lia|unfold in_u; lia].
  cbn [mbind option_bind]. rewrite get_zbytes. cbn [mbind option_bind].
  rewrite host_uint_le32 by (unfold in_u; lia).
  replace (t - (10 + zlen (A ++ U)) - 1) with (zlen (ent prev0 n' ++ R)) by zl.
  replace ((A ++ U) ++ ent prev0 n' ++ R ++ [ZIP_END]) with (A ++ W ++ J ++ [ZIP_END]).
  2:{ rewrite <- app_assoc, (app_assoc W), <- EW, <- !app_assoc. done. }
  rewrite memmove_zblk; [|done|].
  - cbn [mbind option_bind]. rewrite EJ. by rewrite <- !app_assoc.
  - rewrite (app_assoc W), <- EW, <- !app_assoc, (app_assoc A U), zblk_app, (app_assoc (ent _ _)).
    apply rd_app; [by rewrite zlen_zblk|done].
Qed.

(** What follows the move: the block [A ++ S] is cut to its size and the count is updated. *)
Lemma delete_finish t tl c A S z J totlen nextdiff k l (K : list Z -> option (list Z)) :
  in_u 32 t -> t - totlen + nextdiff = 11 + zlen (A ++ S) -> 11 + zlen (A ++ S) < 2 ^ 32 ->
  count_ok c l -> 0 <= k <= zlen l ->
  (bytes ← ZIPLIST_BYTES (zblk t tl c ((A ++ S) ++ z :: J));
   zl ← ziplistResize junk (zblk t tl c ((A ++ S) ++ z :: J)) (intrev32ifbe bytes - totlen + nextdiff);
   zl ← ZIPLIST_INCR_LENGTH zl (- k); K zl)
  = K (zblk (11 + zlen (A ++ S)) tl (add_count c (- k)) ((A ++ S) ++ [ZIP_END])).
Proof.
  intros Ht Hsz Hlt [Hc Hl] Hk. rewrite get_zbytes. cbn [mbind option_bind]. rewrite host_uint_le32, Hsz by done.
  rewrite resize_shrink by done. cbn [mbind option_bind]. rewrite incr_length; [done|done|].
  intros Hmax. unfold in_u in *. destruct Hl; lia.
Qed.

Lemma delete_all a d cnt :
  count_ok cnt (a ++ d) -> entries_ok 0 (a ++ d) -> 11 + elens (a ++ d) < 2 ^ 32 ->
  let zl := zl_bytes cnt (a ++ d) in
  (zl ← set_ZIPLIST_TAIL_OFFSET zl (intrev32ifbe (wrapu 32 (zl_at a - last_len 0 a)));
   bytes ← ZIPLIST_BYTES zl;
   zl ← ziplistResize junk zl (intrev32ifbe bytes - elens d + 0);
   ZIPLIST_INCR_LENGTH zl (- zlen d))
  = Some (zl_bytes (add_count cnt (- zlen d)) a).
Proof.
  intros Hcnt Hok Hlt. cbv zeta. pose proof (zlen_nonneg d). pose proof (zlen_nonneg a).
  pose proof (proj1 (entries_ok_app 0 a d) Hok) as [Ha Hd]. pose proof (elens_ge _ _ Ha). pose proof (elens_ge _ _ Hd).
  rewrite elens_app in Hlt.
  assert (zl_at a - last_len 0 a = tail_of 10 a) as ->.
  { unfold zl_at. destruct a as [|e a']; [done|]. by rewrite (tail_of_last 10 (e :: a') 0). }
  pose proof (tail_of_range 10 a (entries_elems _ _ Ha)). rewrite wrapu_small by (unfold in_u; lia).
  rewrite zl_split, set_ztail. cbn [mbind option_bind]. rewrite elens_app.
  assert (exists z J, ebytes (last_len 0 a) d ++ [ZIP_END] = z :: J) as (z & J & ->)
    by (destruct (ebytes _ d); by eexists _, _).
  replace (ebytes 0 a ++ z :: J) with ((ebytes 0 a ++ []) ++ z :: J) by by rewrite app_nil_r.
  pose proof (delete_finish (11 + (elens a + elens d)) (tail_of 10 a) cnt (ebytes 0 a) [] z J (elens d) 0 (zlen d)
    (a ++ d) Some) as Hf. rewrite app_nil_r, zlen_ebytes in Hf. rewrite app_nil_r.
  transitivity (ZIPLIST_BYTES (zblk (11 + (elens a + elens d)) (tail_of 10 a) cnt (ebytes 0 a ++ z :: J)) ≫= λ bytes,
    ziplistResize junk (zblk (11 + (elens a + elens d)) (tail_of 10 a) cnt (ebytes 0 a ++ z :: J))
      (intrev32ifbe bytes - elens d + 0) ≫= λ zl, ZIPLIST_INCR_LENGTH zl (- zlen d) ≫= Some).
  { destruct (ZIPLIST_BYTES _); [|done]. cbn [mbind option_bind]. destruct (ziplistResize _ _ _); [|done].
    cbn [mbind option_bind]. by destruct (ZIPLIST_INCR_LENGTH _ _). }
  etrans; [apply Hf; [unfold in_u; lia|lia|lia|done|rewrite zlen_app; lia]|done].
Qed.

Lemma del_list_ok a d b :
  entries_ok 0 (a ++ d ++ b) -> 11 + elens (a ++ d ++ b) + 4 * zlen b + 4 < 2 ^ 32 ->
  entries_ok 0 (del_list a b) /\ 11 + elens (del_list a b) < 2 ^ 32.
Proof.
  intros Hok Hlt. rewrite !elens_app in Hlt. apply entries_ok_app in Hok as [Ha [Hd Hb]%entries_ok_app].
  pose proof (last_len_range a Ha) as Hll. pose proof (elens_ge _ _ Ha). pose proof (zlen_nonneg a).
  pose proof (elens_ge _ _ Hd). pose proof (zlen_nonneg d). unfold del_list. destruct b as [|n b]; cbn [elens] in *.
  - change (zlen (@nil entry)) with 0 in Hlt. split; [done|lia].
  - rewrite zlen_cons in Hlt. destruct Hb as (Hp & Hnx & Hnl & Hb). pose proof (zlen_nonneg b).
    pose proof (elens_ge _ _ Hb). set (n' := (big (last_len 0 a), snd n)).
    assert (elen n' <= elen n + 4) as En'
      by (unfold elen, n'; cbn [fst snd]; destruct (big _), (fst n); cbn [psize]; lia).
    pose proof (elen_pos n' Hnx). pose proof (elens_fixl (elen n') b).
    rewrite entries_ok_app, elens_app. cbn [elens entries_ok fst snd]. split; [|lia].
    split_and!; [done| |done|lia|apply (entries_ok_fixl _ (elen n)); [unfold in_u; lia|done|lia]].
    split; [done|]. cbn [n' fst]. unfold big. destruct (Z.leb_spec ZIP_BIG_PREVLEN (last_len 0 a)); [by right|by left].
Qed.

Lemma del_list_values a b : snd <$> del_list a b = (snd <$> a) ++ (snd <$> b).
Proof.
  unfold del_list. destruct b as [|n b]; [by rewrite app_nil_r|]. rewrite fmap_app. cbn. by rewrite fixl_values.
Qed.

Lemma zlen_del_list a b : zlen (del_list a b) = zlen a + zlen b.
Proof.
  assert (forall l : list entry, zlen (snd <$> l) = zlen l) as E by (intros; unfold zlen; by rewrite length_fmap).
  by rewrite <- (E (del_list a b)), del_list_values, zlen_app, !E.
Qed.

(** The next entry has room for its new field in the deleted ones. *)
Lemma delete_room a d (n : entry) : entries_ok 0 (a ++ d) -> d <> [] ->
  psize (big (last_len 0 a)) - psize (fst n) <= elens d /\ 0 < elens d.
Proof.
  intros [Ha Hd]%entries_ok_app Hne. destruct d as [|e d]; [done|]. destruct Hd as ([_ Hp] & Hx & _ & Hd).
  cbn [elens]. pose proof (elens_ge _ _ Hd). pose proof (zlen_nonneg d). pose proof (elen_pos e Hx). split; [|lia].
  pose proof (psize_range (fst n)). unfold big in *. destruct (Z.leb_spec ZIP_BIG_PREVLEN (last_len 0 a)); cbn [psize].
  - destruct Hp as [Hp|Hp]; [lia|]. pose proof (body_pos _ Hx). unfold elen in *. rewrite Hp. cbn [psize]. lia.
  - lia.
Qed.

Lemma delete_mid a d n b cnt :
  entries_ok 0 ((a ++ d) ++ n :: b) -> d <> [] -> count_ok cnt ((a ++ d) ++ n :: b) ->
  11 + elens ((a ++ d) ++ n :: b) + 4 * zlen b + 4 < 2 ^ 32 ->
  ('(zl, nextdiff) ← delete_move (zl_bytes cnt ((a ++ d) ++ n :: b)) (zl_at a) (last_len 0 a) (zl_at (a ++ d)) (elens d);
   bytes ← ZIPLIST_BYTES zl;
   zl ← ziplistResize junk zl (intrev32ifbe bytes - elens d + nextdiff);
   zl ← ZIPLIST_INCR_LENGTH zl (- zlen d);
   if negb (nextdiff =? 0) then __ziplistCascadeUpdate junk zl (zl_at a) else Some zl)
  = Some (zl_bytes (add_count cnt (- zlen d)) (del_list a (n :: b))).
Proof.
  intros Hok Hd Hcnt Hlt. pose proof (proj1 (entries_ok_app _ _ _) Hok) as [Had (Hp & Hx & He & Hb)].
  destruct (delete_room a d n Had Hd) as [Hroom _]. pose proof (proj1 (entries_ok_app _ _ _) Had) as [Ha Hdok].
  pose proof (elens_nonneg _ _ Ha). pose proof (elens_nonneg _ _ Hdok). pose proof (elens_nonneg _ _ Hb).
  pose proof (elen_pos n Hx). pose proof (zlen_nonneg b). rewrite !elens_app in Hlt. cbn [elens] in Hlt.
  pose proof (last_len_range a Ha) as Hll. set (p0 := last_len 0 a) in *. set (D := ebytes p0 d).
  assert (zlen D = elens d) as HD by (unfold D; by rewrite zlen_ebytes).
  set (nf := big p0) in *. set (n' := (nf, snd n)). set (nextdiff := psize nf - psize (fst n)) in *.
  assert (elen n' = elen n + nextdiff) as En' by (unfold elen, n', nextdiff; cbn [fst snd]; lia).
  pose proof (elen_pos n' Hx). assert (nextdiff <= 4) as Hd4 by (unfold nextdiff; destruct nf, (fst n); cbn; lia).
  destruct (delete_move_spec (11 + elens ((a ++ d) ++ n :: b)) cnt (ebytes 0 a) D (last_len 0 (a ++ d)) n b p0)
    as (z & J & E); try done.
  { rewrite !elens_app, zlen_ebytes. cbn [elens]. lia. }
  { rewrite !elens_app. cbn [elens]. lia. }
  { fold nf. lia. }
  fold nf n' nextdiff in E. rewrite HD, zlen_ebytes in E.
  assert (zl_bytes cnt ((a ++ d) ++ n :: b) = zblk (11 + elens ((a ++ d) ++ n :: b)) (tail_of (10 + elens a + elens d) (n :: b)) cnt
    (ebytes 0 a ++ D ++ ent (last_len 0 (a ++ d)) n ++ ebytes (elen n) b ++ [ZIP_END])) as EZ.
  { rewrite zl_split. cbn [ebytes]. rewrite ebytes_app, <- !app_assoc. f_equal.
    rewrite app_assoc, tail_of_app, elens_app by done. f_equal. lia. }
  rewrite EZ. replace (zl_at (a ++ d)) with (10 + elens a + elens d) by (unfold zl_at; rewrite elens_app; lia).
  unfold zl_at. rewrite E. cbn [mbind option_bind].
  set (S := ent p0 n' ++ ebytes (elen n) b).
  assert (zlen (ebytes 0 a ++ S) = elens a + (elen n' + elens b)) as HS
    by (unfold S; zl; by rewrite zlen_ent, !zlen_ebytes).
  rewrite (delete_finish _ _ _ (ebytes 0 a) S z J _ _ _ ((a ++ d) ++ n :: b)); try done.
  - rewrite HS. unfold S. rewrite <- !app_assoc.
    pose proof (resized_cascade (11 + (elens a + (elen n' + elens b))) (add_count cnt (- zlen d)) (ebytes 0 a) p0 n n' b nextdiff) as C.
    cbv zeta in C. rewrite zlen_ebytes in *. rewrite C; try done.
    + unfold zl_bytes, del_list. fold p0 nf n'. rewrite ebytes_app, elens_app, tail_of_app by done. cbn [elens].
      rewrite <- app_assoc. f_equal. f_equal. lia.
    + lia.
    + split; [done|]. unfold n', nf, big. cbn [fst]. destruct (Z.leb_spec ZIP_BIG_PREVLEN p0); [by right|by left].
    + lia.
  - rewrite !elens_app. cbn [elens]. unfold in_u. lia.
  - rewrite HS, !elens_app. cbn [elens]. lia.
  - rewrite HS. lia.
  - rewrite !zlen_app, zlen_cons. pose proof (zlen_nonneg a). pose proof (zlen_nonneg d). lia.
Qed.

(** The whole function, by whether entries follow the deleted ones. *)
Lemma delete_core a d b cnt num zl :
  zl_as cnt (a ++ d ++ b) zl -> d <> [] -> (b = [] /\ zlen d <= num) \/ num = zlen d ->
  11 + elens (a ++ d ++ b) + 4 * zlen b + 4 < 2 ^ 32 ->
  exists zl', __ziplistDelete junk zl (zl_at a) num = Some zl' /\
    zl_as (add_count cnt (- zlen d)) (del_list a b) zl'.
Proof.
  intros Hz Hd Hnum Hlt. pose proof (za_entries _ _ _ Hz) as Hok. pose proof (za_count _ _ _ Hz) as Hcnt.
  destruct (del_list_ok a d b Hok Hlt) as [Hok' Hsz']. rewrite (za_bytes _ _ _ Hz).
  assert (zl_as (add_count cnt (- zlen d)) (del_list a b) (zl_bytes (add_count cnt (- zlen d)) (del_list a b))) as Hfin.
  { constructor; [done|done|done|]. eapply add_count_ok; [exact Hcnt| |].
    - rewrite zlen_del_list, !zlen_app. lia.
    - destruct Hcnt as [Hc [->| ->]]; [unfold UINT16_MAX; lia|]. unfold in_u in *. rewrite !zlen_app in *.
      pose proof (zlen_nonneg a). pose proof (zlen_nonneg b). pose proof (zlen_nonneg d). lia. }
  enough (__ziplistDelete junk (zl_bytes cnt (a ++ d ++ b)) (zl_at a) num
          = Some (zl_bytes (add_count cnt (- zlen d)) (del_list a b))) as -> by by eexists.
  clear Hfin. destruct (delete_room a d (false, [])) as [_ Hpos]; [by rewrite app_assoc in Hok; apply entries_ok_app in Hok as [? _]|done|].
  unfold __ziplistDelete.
  assert (exists r, zipEntry (zl_bytes cnt (a ++ d ++ b)) (zl_at a) = Some r /\ prevrawlen r = last_len 0 a) as (r & -> & Hr).
  { destruct d as [|e d']; [done|]. by destruct (at_entry cnt a e (d' ++ b) Hok) as (_ & _ & _ & ?). }
  cbn [mbind option_bind]. rewrite skip_entries_spec; [|done| |done|].
  2:{ pose proof (fuel_enough cnt (a ++ d ++ b) Hok). rewrite !length_app in *. lia. }
  2:{ destruct Hnum as [[-> Hn]| ->]; [left; split; [done|lia]|by right]. }
  cbn [mbind option_bind]. rewrite Hr, Z.add_0_l. rewrite !elens_app in Hlt. pose proof (zlen_nonneg b).
  pose proof (elens_nonneg _ _ (proj1 (proj1 (entries_ok_app _ _ _) Hok))) as Hae.
  pose proof (elens_nonneg _ _ (proj2 (proj1 (entries_ok_app _ _ _) Hok))) as Hbe. rewrite elens_app in Hbe.
  replace (zl_at (a ++ d) - zl_at a) with (elens d) by (unfold zl_at; rewrite elens_app; lia).
  assert (0 <= elens b) as Hb0.
  { rewrite app_assoc in Hok. apply entries_ok_app in Hok as [_ Hb]. by eapply elens_nonneg. }
  rewrite wrapu_small by (unfold in_u; lia). rewrite Z.gtb_ltb, (proj2 (Z.ltb_lt _ _)) by done.
  rewrite app_assoc in *. destruct b as [|n b].
  - rewrite app_nil_r in *. rewrite at_end. cbn [mbind option_bind]. change (negb (ZIP_END =? ZIP_END)) with false.
    cbv iota. pose proof (delete_all a d cnt Hcnt Hok) as E. cbv zeta in E. rewrite elens_app in E.
    specialize (E ltac:(lia)). destruct (set_ZIPLIST_TAIL_OFFSET _ _); [|discriminate E]. cbn [mbind option_bind] in *.
    destruct (ZIPLIST_BYTES _); [|discriminate E]. cbn [mbind option_bind] in *.
    destruct (ziplistResize _ _ _); [|discriminate E]. cbn [mbind option_bind] in *. rewrite E. done.
  - destruct (at_entry cnt (a ++ d) n b Hok) as (_ & (ch & -> & Hch) & _). cbn [mbind option_bind]. rewrite Hch.
    cbn [negb]. apply delete_mid; [done|done|done|]. rewrite !elens_app. cbn [elens] in *. rewrite zlen_cons in *. lia.
Qed.

(** ** Merge *)

(** The entries of the second list behind those of the first one, in the block of the first. *)
Lemma merge_append t1 a1 c1 E1 t2 a2 c2 E2 :
  t1 = 11 + zlen E1 -> t2 = 11 + zlen E2 ->
  (bs ← rd (zblk t2 a2 c2 (E2 ++ [ZIP_END])) ZIPLIST_HEADER_SIZE (t2 - ZIPLIST_HEADER_SIZE);
   wr (realloc junk (zblk t1 a1 c1 (E1 ++ [ZIP_END])) (t1 + t2 - ZIPLIST_HEADER_SIZE - ZIPLIST_END_SIZE))
     (t1 - ZIPLIST_END_SIZE) bs)
  = Some (zblk t1 a1 c1 (E1 ++ E2 ++ [ZIP_END])).
Proof.
  unfold ZIPLIST_HEADER_SIZE, ZIPLIST_END_SIZE. intros H1 H2. pose proof (zlen_nonneg E2).
  destruct (realloc_grow junk (zblk t1 a1 c1 (E1 ++ [ZIP_END])) (t1 + t2 - 10 - 1)) as (f & -> & Hf);
    [rewrite zlen_zblk; zl|]. rewrite zlen_zblk in Hf.
  pose proof (zblk_app t2 a2 c2 [] (E2 ++ [ZIP_END])) as Ez. cbn [app] in Ez. rewrite Ez.
  rewrite <- (app_nil_r (E2 ++ [ZIP_END])) at 1. rewrite rd_app by (rewrite ?zlen_zblk; zl). cbn [mbind option_bind].
  rewrite <- zblk_app, <- app_assoc. replace (t1 - 1) with (10 + zlen E1) by lia.
  rewrite <- (app_nil_r ([ZIP_END] ++ f)), wr_zblk by zl. by rewrite app_nil_r.
Qed.

(** The same in the block of the second one. *)
Lemma merge_prepend t1 a1 c1 E1 t2 a2 c2 E2 :
  t1 = 11 + zlen E1 -> t2 = 11 + zlen E2 ->
  (target ← memmove (realloc junk (zblk t2 a2 c2 (E2 ++ [ZIP_END])) (t1 + t2 - ZIPLIST_HEADER_SIZE - ZIPLIST_END_SIZE))
     (t1 - ZIPLIST_END_SIZE) ZIPLIST_HEADER_SIZE (t2 - ZIPLIST_HEADER_SIZE);
   bs ← rd (zblk t1 a1 c1 (E1 ++ [ZIP_END])) 0 (t1 - ZIPLIST_END_SIZE);
   wr target 0 bs)
  = Some (zblk t1 a1 c1 (E1 ++ E2 ++ [ZIP_END])).
Proof.
  unfold ZIPLIST_HEADER_SIZE, ZIPLIST_END_SIZE. intros H1 H2. pose proof (zlen_nonneg E1). pose proof (zlen_nonneg E2).
  destruct (realloc_grow junk (zblk t2 a2 c2 (E2 ++ [ZIP_END])) (t1 + t2 - 10 - 1)) as (f & -> & Hf);
    [rewrite zlen_zblk; zl|]. rewrite zlen_zblk in Hf. rewrite <- zblk_app.
  destruct (split_at ((E2 ++ [ZIP_END]) ++ f) (zlen E1)) as (D & W & EW & HD); [zl|].
  assert (zlen (E2 ++ [ZIP_END]) = zlen W) as HW by (apply (f_equal zlen) in EW; zl).
  replace (t1 - 1) with (10 + zlen D) by lia. replace (t2 - 10) with (zlen (E2 ++ [ZIP_END])) by zl.
  rewrite EW, <- (app_nil_r W), memmove_zblk; [|done|].
  - cbn [mbind option_bind]. rewrite (zblk_app t1 a1 c1 E1 [ZIP_END]), rd_front by (rewrite zlen_zblk; lia). cbn [mbind option_bind].
    rewrite app_nil_r, (zblk_app t2 a2 c2 D), wr_front by (rewrite !zlen_zblk; lia). by rewrite <- zblk_app.
  - rewrite app_nil_r, <- EW. pose proof (zblk_app t2 a2 c2 [] ((E2 ++ [ZIP_END]) ++ f)) as Ez.
    cbn [app] in Ez. rewrite Ez. apply rd_app; [by rewrite zlen_zblk|done].
Qed.

(** The seam between two lists. *)
Lemma merge_cascade l1 l2 c :
  entries_ok 0 l1 -> entries_ok 0 l2 -> l2 <> [] -> 11 + elens l1 + elens l2 + 4 * zlen l2 < 2 ^ 32 ->
  __ziplistCascadeUpdate junk (zblk (11 + elens (l1 ++ l2)) (tail_of (10 + elens l1) l2) c
                                 (ebytes 0 l1 ++ ebytes 0 l2 ++ [ZIP_END])) (tail_of 10 l1)
  = Some (zl_bytes c (l1 ++ fixl (last_len 0 l1) l2)).
Proof.
  intros H1 H2 Hne Hlt. pose proof (elens_nonneg _ _ H1). pose proof (elens_nonneg _ _ H2). pose proof (zlen_nonneg l2).
  destruct l1 as [|e l1 _] using rev_ind.
  - cbn [app elens ebytes] in *. change (last_len 0 []) with 0. rewrite fixl_ok by done.
    destruct l2 as [|e l2]; [done|]. destruct H2 as (Hp & Hx & He & Hl). cbn [ebytes elens] in *.
    rewrite zlen_cons in Hlt. rewrite <- app_assoc.
    pose proof (cascade_update junk (11 + (elen e + elens l2)) (tail_of 10 (e :: l2)) c [] 0 e (elen e) l2) as C.
    cbv zeta in C. rewrite fixl_ok in C by done. change (zlen (@nil Z)) with 0 in C. cbn [app] in C.
    change (10 + 0) with 10 in *. change (tail_of 10 []) with 10. rewrite C; try done; [|lia|lia]. unfold zl_bytes. cbn [elens ebytes]. rewrite <- app_assoc. do 2 f_equal. lia.
  - rewrite tail_of_app by done. cbn [tail_of]. rewrite entries_ok_app in H1. destruct H1 as (H1 & Hp & Hx & He & _).
    rewrite ebytes_app, <- !app_assoc. cbn [ebytes]. rewrite app_nil_r. rewrite !elens_app in *. cbn [elens] in *.
    replace (10 + elens l1) with (10 + zlen (ebytes 0 l1)) by by rewrite zlen_ebytes.
    rewrite cascade_update; try done.
    + unfold last_len at 2. rewrite last_snoc. cbn [from_option]. unfold zl_bytes.
      rewrite ebytes_app, elens_app, tail_of_app, zlen_ebytes by done. cbn [app ebytes elens].
      rewrite <- !app_assoc. do 2 f_equal. lia.
    + rewrite zlen_ebytes. lia.
    + rewrite zlen_ebytes. cbn [tail_of]. destruct l2; [done|]. f_equal. lia.
    + lia.
Qed.

Lemma merge_core l1 l2 c1 c2 f s :
  zl_as c1 l1 f -> zl_as c2 l2 s -> l2 <> [] -> 11 + elens l1 + elens l2 + 4 * zlen l2 < 2 ^ 32 ->
  exists zl, ziplistMerge junk false (Some f) (Some s) = Some (Some (c1 >=? c2, zl)) /\
    zl_as (Z.min (c1 + c2) UINT16_MAX) (l1 ++ fixl (last_len 0 l1) l2) zl.
Proof.
  intros Hf Hs Hne Hlt. rewrite (za_bytes _ _ _ Hf), (za_bytes _ _ _ Hs).
  pose proof (za_entries _ _ _ Hf) as Ok1. pose proof (za_entries _ _ _ Hs) as Ok2.
  pose proof (elens_nonneg _ _ Ok1). pose proof (elens_nonneg _ _ Ok2). pose proof (zlen_nonneg l2).
  destruct (za_count _ _ _ Hf) as [Hc1 Hn1], (za_count _ _ _ Hs) as [Hc2 Hn2].
  pose proof (tail_of_range 10 l1 (entries_elems _ _ Ok1)). pose proof (tail_of_range 10 l2 (entries_elems _ _ Ok2)).
  unfold ziplistMerge, zl_bytes. rewrite !get_zbytes, !get_zlength, !get_ztail. cbn [mbind option_bind].
  rewrite !host_uint_le32, !host_uint_le16 by (done || unfold in_u; lia).
  set (t1 := 11 + elens l1) in *. set (t2 := 11 + elens l2) in *.
  set (Z1 := zblk t1 (tail_of 10 l1) c1 (ebytes 0 l1 ++ [ZIP_END])).
  set (Z2 := zblk t2 (tail_of 10 l2) c2 (ebytes 0 l2 ++ [ZIP_END])).
  assert ((if c1 >=? c2
     then bs ← rd Z2 ZIPLIST_HEADER_SIZE (t2 - ZIPLIST_HEADER_SIZE);
          wr (realloc junk Z1 (t1 + t2 - ZIPLIST_HEADER_SIZE - ZIPLIST_END_SIZE)) (t1 - ZIPLIST_END_SIZE) bs
     else target ← memmove (realloc junk Z2 (t1 + t2 - ZIPLIST_HEADER_SIZE - ZIPLIST_END_SIZE))
            (t1 - ZIPLIST_END_SIZE) ZIPLIST_HEADER_SIZE (t2 - ZIPLIST_HEADER_SIZE);
          bs ← rd Z1 0 (t1 - ZIPLIST_END_SIZE); wr target 0 bs)
    = Some (zblk t1 (tail_of 10 l1) c1 (ebytes 0 l1 ++ ebytes 0 l2 ++ [ZIP_END]))) as EM.
  { destruct (c1 >=? c2); [apply merge_append|apply merge_prepend]; by rewrite zlen_ebytes. }
  replace (if c1 + c2 <? UINT16_MAX then c1 + c2 else UINT16_MAX) with (Z.min (c1 + c2) UINT16_MAX) by (zcmp; lia).
  assert (wrapu 32 (t1 + t2 - ZIPLIST_HEADER_SIZE - ZIPLIST_END_SIZE) = 11 + elens (l1 ++ l2)) as Et.
  { unfold t1, t2, ZIPLIST_HEADER_SIZE, ZIPLIST_END_SIZE in *. rewrite elens_app, wrapu_small; unfold in_u; lia. }
  assert (wrapu 32 (t1 - ZIPLIST_END_SIZE + (tail_of 10 l2 - ZIPLIST_HEADER_SIZE)) = tail_of (10 + elens l1) l2) as Ea.
  { unfold t1, ZIPLIST_HEADER_SIZE, ZIPLIST_END_SIZE in *.
    rewrite (tail_of_shift 10), wrapu_small by (done || unfold in_u; lia). lia. }
  exists (zl_bytes (Z.min (c1 + c2) UINT16_MAX) (l1 ++ fixl (last_len 0 l1) l2)). split.
  - destruct (c1 >=? c2); rewrite EM; cbn [mbind option_bind]; rewrite Et, Ea, set_zbytes; cbn [mbind option_bind];
      rewrite set_zlength; cbn [mbind option_bind]; rewrite set_ztail; cbn [mbind option_bind];
      by rewrite merge_cascade.
  - pose proof (elens_fixl (last_len 0 l1) l2). constructor; [done| | |].
    + apply entries_ok_app. split; [done|]. apply (entries_ok_fixl _ 0); [by apply last_len_range|done|unfold t1 in *; lia].
    + rewrite elens_app. unfold t1 in *. lia.
    + assert (zlen (fixl (last_len 0 l1) l2) = zlen l2) as El.
      { unfold zlen. rewrite <- (length_fmap snd (fixl _ _)), fixl_values, length_fmap. done. }
      pose proof (zlen_nonneg l1). split; [unfold in_u, UINT16_MAX in *; lia|].
      rewrite zlen_app, El. unfold UINT16_MAX, in_u in *. lia.
Qed.

End edit.
