(* ===== verification/ZiplistRead.v ===== *)
(** * Reading ziplists, and the theorems about them

    Navigation in both directions, the value of an entry, comparison, search and the
    length; then the theorems on the whole data type. *)

From S2P Require Import Prelude Endian Util Ziplist ZiplistSpec ZiplistEdit.

Section read.
Context `{Host}.
Variable junk : nat -> Z.

(** ** The value of an entry *)

(** The string that the result of [ziplistGet] stands for. *)
Definition got_is (zl : list Z) (g : zl_got) (x : list Z) : Prop :=
  match g with
  | ZlStr pos len => rd zl pos len = Some x
  | ZlInt v => in_s 64 v /\ x = sdec v
  end.

(** The payload behind the header of an entry. *)
Lemma at_payload cnt a e b : entries_ok 0 (a ++ e :: b) ->
  exists P T enc, zl_bytes cnt (a ++ e :: b) = P ++ pay_of (snd e) ++ T /\
    zlen P = zl_at a + psize (fst e) + zlen (hdr_of (snd e)) /\
    zl_form (snd e) enc (hdr_of (snd e)) (pay_of (snd e)) /\
    zipEntry (zl_bytes cnt (a ++ e :: b)) (zl_at a)
    = Some (Zlentry (psize (fst e)) (last_len 0 a) (zlen (hdr_of (snd e))) (zlen (pay_of (snd e)))
              (psize (fst e) + zlen (hdr_of (snd e))) enc) /\
    ZIP_DECODE_LENGTH (zl_bytes cnt (a ++ e :: b)) (zl_at a + psize (fst e))
    = Some (enc, zlen (hdr_of (snd e)), zlen (pay_of (snd e))).
Proof.
  intros (_ & Hp & Hx & He & _)%entries_ok_app. rewrite zl_split, zl_at_eq. cbn [ebytes].
  set (t := 11 + _). set (tl := tail_of _ _). rewrite <- (app_assoc (ent _ _)), zblk_app.
  destruct (entry_at (zblk t tl cnt (ebytes 0 a)) (last_len 0 a) e (ebytes (elen e) b ++ [ZIP_END]) Hp Hx He)
    as (_ & enc & Hf & E). rewrite zlen_zblk in E.
  exists ((zblk t tl cnt (ebytes 0 a) ++ pbytes (last_len 0 a) (fst e)) ++ hdr_of (snd e)), (ebytes (elen e) b ++ [ZIP_END]), enc.
  split_and!; [|rewrite !zlen_app, zlen_zblk, zlen_pbytes; lia|done|done|].
  - unfold ent, body. by rewrite <- !app_assoc.
  - unfold ent, body. rewrite <- !app_assoc, (app_assoc (zblk _ _ _ _)).
    replace (10 + zlen (ebytes 0 a) + psize (fst e)) with (zlen (zblk t tl cnt (ebytes 0 a) ++ pbytes (last_len 0 a) (fst e)))
      by (rewrite zlen_app, zlen_zblk, zlen_pbytes; lia).
    by apply decode_form with (x := snd e).
Qed.

Lemma get_spec cnt a e b : entries_ok 0 (a ++ e :: b) ->
  exists g, ziplistGet (zl_bytes cnt (a ++ e :: b)) (Some (zl_at a)) = Some (Some g) /\
    got_is (zl_bytes cnt (a ++ e :: b)) g (snd e).
Proof.
  intros Hok. destruct (at_entry cnt a e b Hok) as (_ & (ch & E1 & Hch) & _).
  destruct (at_payload cnt a e b Hok) as (P & T & enc & EZ & HP & Hf & E2 & _).
  unfold ziplistGet. rewrite E1. cbn [mbind option_bind]. rewrite Hch, E2. cbn [mbind option_bind encoding headersize len].
  destruct (load_form P _ _ _ _ T Hf) as [(-> & Epay & _)|(v & -> & Ex & Hv & El)].
  - eexists. split; [done|]. cbn [got_is]. rewrite EZ, Z.add_assoc, <- HP, Epay. by apply rd_app.
  - rewrite EZ, Z.add_assoc, <- HP, El. cbn [mbind option_bind]. eexists. split; [done|]. by split.
Qed.

(** Whether an element is the given string, by its encoding. *)
Lemma compare_payload P x enc h pay T (s : list Z) : zl_form x enc h pay ->
  (if ZIP_IS_STR enc then
     if zlen pay =? zlen s then bs ← rd (P ++ pay ++ T) (zlen P) (zlen s); Some (bool_decide (bs = s)) else Some false
   else
     match string2ll s with
     | Some sval => zval ← zipLoadInteger (P ++ pay ++ T) (zlen P) enc; Some (zval =? sval)
     | None => Some false
     end) = Some (bool_decide (x = s)).
Proof.
  intros Hf. destruct (load_form P _ _ _ _ T Hf) as [(-> & -> & _)|(v & -> & -> & Hv & El)].
  - destruct (Z.eqb_spec (zlen x) (zlen s)) as [E|E].
    + rewrite <- E, rd_app by done. done.
    + f_equal. symmetry. apply bool_decide_eq_false. by intros ->.
  - destruct (string2ll s) as [sval|] eqn:Es.
    + rewrite El. cbn [mbind option_bind]. f_equal. apply string2ll_sound in Es as [Hs ->].
      destruct (Z.eqb_spec v sval) as [->|Hne]; symmetry; [by apply bool_decide_eq_true|].
      apply bool_decide_eq_false. intros Es. apply Hne.
      apply (f_equal string2ll) in Es. rewrite !string2ll_complete in Es by done. by injection Es.
    + f_equal. symmetry. apply bool_decide_eq_false. intros <-. by rewrite string2ll_complete in Es.
Qed.

Lemma compare_spec cnt a e b s : entries_ok 0 (a ++ e :: b) ->
  ziplistCompare (zl_bytes cnt (a ++ e :: b)) (zl_at a) s = Some (bool_decide (snd e = s)).
Proof.
  intros Hok. destruct (at_entry cnt a e b Hok) as (_ & (ch & E1 & Hch) & _).
  destruct (at_payload cnt a e b Hok) as (P & T & enc & EZ & HP & Hf & E2 & _).
  unfold ziplistCompare. rewrite E1. cbn [mbind option_bind]. rewrite Hch, E2. cbn [mbind option_bind encoding headersize len].
  rewrite <- (compare_payload P _ _ _ _ T s Hf), EZ, Z.add_assoc, <- HP, zipTryEncoding_eq.
  by destruct (string2ll s).
Qed.

(** ** Navigation *)

(** Whether an entry is behind [a]. *)
Lemma at_more cnt a b : entries_ok 0 (a ++ b) ->
  exists ch, zidx (zl_bytes cnt (a ++ b)) (zl_at a) = Some ch /\
    (ch =? ZIP_END) = match b with [] => true | _ => false end.
Proof.
  intros Hok. destruct b as [|e b]; [rewrite app_nil_r; exists ZIP_END; by rewrite at_end|].
  by destruct (at_entry cnt a e b Hok) as (_ & ? & _).
Qed.

Lemma last_len_pos a : entries_ok 0 a -> a <> [] -> 0 < last_len 0 a.
Proof.
  destruct a as [|e a _] using rev_ind; [done|]. intros (_ & _ & Hx & _)%entries_ok_app _.
  unfold last_len. rewrite last_snoc. cbn [from_option]. pose proof (elen_pos e Hx). lia.
Qed.

Lemma zl_tail cnt l : entries_ok 0 l -> 11 + elens l < 2 ^ 32 ->
  ZIPLIST_ENTRY_TAIL (zl_bytes cnt l) = Some (tail_of 10 l).
Proof.
  intros Hl Hlt. pose proof (tail_of_range 10 l (entries_elems _ _ Hl)). apply get_tail. unfold in_u. lia.
Qed.

Lemma zl_next_spec cnt a e b : entries_ok 0 (a ++ e :: b) ->
  ziplistNext (zl_bytes cnt (a ++ e :: b)) (zl_at a)
  = Some (match b with [] => None | _ => Some (zl_at (a ++ [e])) end).
Proof.
  intros Hok. destruct (at_entry cnt a e b Hok) as (E1 & (ch & E2 & Hch) & _).
  unfold ziplistNext. rewrite E2. cbn [mbind option_bind]. rewrite Hch, E1. cbn [mbind option_bind].
  rewrite <- zl_at_snoc, (cons_middle e a b), app_assoc in *.
  destruct (at_more cnt (a ++ [e]) b Hok) as (ch' & -> & Hch'). cbn [mbind option_bind]. rewrite Hch'. by destruct b.
Qed.

Lemma zl_prev_spec cnt a b : entries_ok 0 (a ++ b) -> 11 + elens (a ++ b) < 2 ^ 32 ->
  ziplistPrev (zl_bytes cnt (a ++ b)) (zl_at a)
  = Some (match last a with None => None | Some e => Some (zl_at a - elen e) end).
Proof.
  intros Hok Hlt. destruct (at_more cnt a b Hok) as (ch & E & Hch). unfold ziplistPrev. rewrite E. cbn [mbind option_bind].
  rewrite Hch. pose proof (proj1 (entries_ok_app _ _ _) Hok) as [Ha Hb]. pose proof (elens_nonneg _ _ Ha).
  destruct b as [|e b].
  - rewrite app_nil_r in *. rewrite zl_tail by done. cbn [mbind option_bind]. destruct a as [|e a _] using rev_ind.
    + change (tail_of 10 []) with (zl_at []). by rewrite at_end.
    + rewrite tail_of_app by done. cbn [tail_of]. fold (zl_at a). destruct (at_entry cnt a e [] Hok) as (_ & (ch' & -> & Hch') & _).
      cbn [mbind option_bind]. rewrite Hch', last_snoc, zl_at_snoc. do 2 f_equal. lia.
  - destruct (at_entry cnt a e b Hok) as (_ & _ & E3 & _). rewrite E3. cbn [mbind option_bind].
    destruct a as [|e' a _] using rev_ind; [done|]. pose proof (last_len_pos _ Ha ltac:(by destruct a)) as Hpos.
    apply entries_ok_app in Ha as (Ha & _ & Hx & _). pose proof (elens_nonneg _ _ Ha). pose proof (elen_pos e' Hx).
    rewrite zl_at_snoc. rewrite (proj2 (Z.eqb_neq _ _)) by (unfold zl_at, ZIPLIST_ENTRY_HEAD, ZIPLIST_HEADER_SIZE; lia).
    rewrite Z.gtb_ltb, (proj2 (Z.ltb_lt _ _)) by done. unfold last_len. by rewrite last_snoc.
Qed.

(** The pointer to the entry of an index, if there is one. *)
Definition zl_ptr (l : list entry) (i : nat) : option Z :=
  if (i <? length l)%nat then Some (zl_at (take i l)) else None.

Lemma index_forward_spec cnt a b fuel i : entries_ok 0 (a ++ b) -> (length b <= fuel)%nat ->
  index_forward fuel (zl_bytes cnt (a ++ b)) (zl_at a) (Z.of_nat i)
  = Some (if (i <? length b)%nat then (zl_at (a ++ take i b), -1)
          else (zl_at (a ++ b), Z.of_nat i - zlen b)).
Proof.
  revert a fuel i. induction b as [|e b IH]; intros a fuel i Hok Hf.
  - rewrite app_nil_r in *. destruct fuel; cbn [index_forward]; rewrite at_end; cbn [mbind option_bind];
      change (ZIP_END =? ZIP_END) with true; cbv iota; rewrite zlen_nil, Z.sub_0_r; done.
  - destruct fuel as [|fuel]; [cbn in Hf; lia|]. cbn [index_forward].
    destruct (at_entry cnt a e b Hok) as (E1 & (ch & E2 & Hch) & _). rewrite E2. cbn [mbind option_bind]. rewrite Hch.
    destruct i as [|i]; [cbn; by rewrite app_nil_r|].
    rewrite (proj2 (Z.eqb_neq _ _)) by lia. rewrite E1. cbn [mbind option_bind]. rewrite <- zl_at_snoc.
    replace (Z.of_nat (S i) - 1) with (Z.of_nat i) by lia.
    assert (a ++ e :: b = (a ++ [e]) ++ b) as Ea by by rewrite <- app_assoc. rewrite Ea in Hok |- *.
    rewrite IH by (done || cbn in Hf; lia). cbn [length take]. change (S i <? S (length b))%nat with (i <? length b)%nat.
    rewrite zlen_cons, <- (app_assoc a [e] (take i b)). cbn [app]. destruct (i <? length b)%nat; do 2 f_equal. lia.
Qed.

Lemma index_backward_spec cnt a e b fuel j : entries_ok 0 (a ++ e :: b) -> (length a <= fuel)%nat ->
  index_backward fuel (zl_bytes cnt (a ++ e :: b)) (zl_at a) (last_len 0 a) (Z.of_nat j)
  = Some (if (j <? length a)%nat then (zl_at (take (length a - j) a), -1)
          else (zl_at [], Z.of_nat j - zlen a)).
Proof.
  revert e b fuel j. induction a as [|x a IH] using rev_ind; intros e b fuel j Hok Hf.
  - destruct fuel; cbn; by rewrite zlen_nil, Z.sub_0_r.
  - rewrite length_app in Hf. cbn in Hf. pose proof (proj1 (entries_ok_app _ _ _) Hok) as [Ha _].
    pose proof (last_len_pos _ Ha ltac:(by destruct a)) as Hpos.
    destruct fuel as [|fuel]; [lia|]. cbn [index_backward]. rewrite Z.gtb_ltb, (proj2 (Z.ltb_lt _ _)) by done.
    rewrite length_app. cbn [length]. destruct j as [|j].
    { replace (0 <? length a + 1)%nat with true by (symmetry; apply Nat.ltb_lt; lia). cbn [Z.of_nat Z.eqb].
      rewrite take_ge by (rewrite length_app; cbn; lia). done. }
    rewrite (proj2 (Z.eqb_neq _ _)) by lia. unfold last_len at 1 2. rewrite last_snoc. cbn [from_option].
    rewrite zl_at_snoc, Z.add_simpl_r. rewrite <- app_assoc in *. cbn [app] in *.
    destruct (at_entry cnt a x (e :: b) Hok) as (_ & _ & -> & _). cbn [mbind option_bind].
    replace (Z.of_nat (S j) - 1) with (Z.of_nat j) by lia. rewrite IH by (done || lia). f_equal.
    replace (S j <? length a + 1)%nat with (j <? length a)%nat
      by (destruct (Nat.ltb_spec j (length a)), (Nat.ltb_spec (S j) (length a + 1)); done || lia).
    rewrite zlen_app. change (zlen [x]) with 1. destruct (Nat.ltb_spec j (length a)); f_equal; [|lia].
    replace (length a + 1 - S j)%nat with (length a - j)%nat by lia. by rewrite take_app_le by lia.
Qed.

Lemma at_index cnt l k : entries_ok 0 l -> (k < length l)%nat ->
  exists ch, zidx (zl_bytes cnt l) (zl_at (take k l)) = Some ch /\ (ch =? ZIP_END) = false.
Proof.
  intros Hl Hk. rewrite <- (take_drop k l) in Hl. destruct (at_more cnt _ _ Hl) as (ch & E & Hch).
  rewrite take_drop in E. exists ch. split; [done|]. rewrite Hch. destruct (drop k l) eqn:Ed; [|done].
  apply (f_equal length) in Ed. rewrite length_drop in Ed. cbn in Ed. lia.
Qed.

Lemma index_spec cnt l index : entries_ok 0 l -> 11 + elens l < 2 ^ 32 -> - 2 ^ 31 < index ->
  ziplistIndex (zl_bytes cnt l) index
  = Some (if 0 <=? index then zl_ptr l (Z.to_nat index)
          else if - index <=? zlen l then zl_ptr l (Z.to_nat (zlen l + index)) else None).
Proof.
  intros Hl Hlt Hi. unfold ziplistIndex, zl_ptr. pose proof (fuel_enough cnt l Hl) as Hfuel.
  rewrite Z.ltb_antisym. destruct (Z.leb_spec 0 index); cbn [negb].
  - replace index with (Z.of_nat (Z.to_nat index)) at 1 by lia. set (i := Z.to_nat index).
    rewrite (index_forward_spec cnt [] l) by (done || lia). cbn [app mbind option_bind].
    destruct (Nat.ltb_spec i (length l)) as [Hlen|Hlen]; [|by rewrite at_end].
    destruct (at_index cnt l i Hl Hlen) as (ch & -> & Hch). cbn [mbind option_bind]. by rewrite Hch.
  - rewrite (proj2 (Z.eqb_neq _ _)) by lia. rewrite zl_tail by done. cbn [mbind option_bind].
    destruct l as [|e l _] using rev_ind.
    { change (tail_of 10 []) with (zl_at []). rewrite at_end. cbn [mbind option_bind].
      change (negb (ZIP_END =? ZIP_END)) with false. cbv iota. cbn [mbind option_bind]. rewrite at_end.
      cbn [mbind option_bind]. change (zlen (@nil entry)) with 0. by rewrite (proj2 (Z.leb_gt _ _)) by lia. }
    rewrite tail_of_app by done. cbn [tail_of]. fold (zl_at l).
    destruct (at_entry cnt l e [] Hl) as (_ & (ch & -> & Hch) & -> & _). cbn [mbind option_bind]. rewrite Hch. cbn [negb].
    cbn [mbind option_bind]. rewrite length_app in *. cbn [length] in *.
    replace (- index - 1) with (Z.of_nat (Z.to_nat (- index - 1))) by lia. set (j := Z.to_nat (- index - 1)).
    rewrite index_backward_spec by (done || lia). cbn [mbind option_bind].
    assert (zlen (l ++ [e]) = zlen l + 1) as Elen by zl. rewrite Elen.
    assert (Z.of_nat (length l) = zlen l) as El by done.
    destruct (Nat.ltb_spec j (length l)) as [Hj|Hj].
    + rewrite (proj2 (Z.leb_le _ _)) by lia. set (k := Z.to_nat (zlen l + 1 + index)).
      replace (length l - j)%nat with k by lia. replace (take k l) with (take k (l ++ [e])) by (apply take_app_le; lia).
      destruct (at_index cnt (l ++ [e]) k Hl) as (ch' & -> & Hch'); [rewrite length_app; cbn; lia|].
      cbn [mbind option_bind]. rewrite Hch'. by rewrite (proj2 (Nat.ltb_lt _ _)) by lia.
    + destruct (at_index cnt (l ++ [e]) 0 Hl) as (ch' & E0 & Hch'); [rewrite length_app; cbn; lia|].
      rewrite take_0 in E0. rewrite E0. cbn [mbind option_bind]. rewrite Hch'. cbn [orb]. rewrite Z.gtb_ltb.
      destruct (Z.leb_spec (- index) (zlen l + 1)).
      * rewrite (proj2 (Z.ltb_ge _ _)) by lia. replace (Z.to_nat (zlen l + 1 + index)) with 0%nat by lia.
        rewrite take_0. by rewrite (proj2 (Nat.ltb_lt _ _)) by lia.
      * by rewrite (proj2 (Z.ltb_lt _ _)) by lia.
Qed.

(** ** Search and length *)

(** The first of the elements at distance [skip + 1] that is [v], from the one after
    [skipcnt] others. *)
Fixpoint find_in (skip skipcnt : Z) (v : list Z) (xs : list (list Z)) : option nat :=
  match xs with
  | [] => None
  | x :: xs =>
      if skipcnt =? 0 then
        if bool_decide (x = v) then Some O else S <$> find_in skip skip v xs
      else S <$> find_in skip (skipcnt - 1) v xs
  end.

Lemma find_in_sound skip skipcnt v xs i : find_in skip skipcnt v xs = Some i -> xs !! i = Some v.
Proof.
  revert skipcnt i. induction xs as [|x xs IH]; intros skipcnt i; [done|]. cbn [find_in]. case_if.
  - case_bool_decide; [by intros [= <-]; subst|]. destruct (find_in _ _ _ _) eqn:E; [|done].
    intros [= <-]. by eapply IH.
  - destruct (find_in _ _ _ _) eqn:E; [|done]. intros [= <-]. by eapply IH.
Qed.

(** What is remembered of the encoding of [v]. *)
Definition memo_ok (v : list Z) (vencoding vll : Z) : Prop :=
  vencoding = 0 \/ (string2ll v = None /\ vencoding = 255) \/
  (string2ll v = Some vll /\ vencoding <> 0 /\ vencoding <> 255).

Lemma int_encoding_range v : in_s 64 v -> int_encoding v <> 0 /\ int_encoding v <> 255.
Proof.
  intros Hv. unfold int_encoding, INT24_MIN, INT24_MAX. rewrite !Z.geb_leb.
  repeat match goal with |- context [if ?b && ?c then _ else _] => destruct (b && c) eqn:?; zbool end; try done.
  rewrite wrapu_small by (unfold in_u, ZIP_INT_IMM_MIN; lia). unfold ZIP_INT_IMM_MIN. lia.
Qed.

Lemma find_compare_spec P x enc h pay T v vencoding vll :
  zl_form x enc h pay -> memo_ok v vencoding vll ->
  exists ve' vl', find_compare (P ++ pay ++ T) (zlen P) enc (zlen pay) v vencoding vll
    = Some (bool_decide (x = v), ve', vl') /\ memo_ok v ve' vl'.
Proof.
  intros Hf Hm. pose proof (compare_payload P x enc h pay T v Hf) as C. unfold find_compare.
  destruct (ZIP_IS_STR enc).
  - exists vencoding, vll. split; [|done]. destruct (zlen pay =? zlen v); [|by injection C as ->].
    destruct (rd _ _ _); [|done]. cbn [mbind option_bind] in *. by injection C as ->.
  - set (m := if vencoding =? 0 then _ else _).
    assert (exists ve' vl', m = (ve', vl') /\ ve' <> 0 /\ memo_ok v ve' vl') as (ve' & vl' & -> & Hne & Hm').
    { unfold m. destruct (Z.eqb_spec vencoding 0) as [E|E].
      - rewrite zipTryEncoding_eq. destruct (string2ll v) as [u|] eqn:Ev; cbn [fmap option_fmap option_map].
        + destruct (int_encoding_range u (proj1 (string2ll_sound _ _ Ev))).
          eexists _, _. split_and!; [done|done|]. right. right. by rewrite Ev.
        + eexists _, _. split_and!; [done|done|]. right. by left.
      - by eexists _, _. }
    rewrite (proj2 (Z.eqb_neq _ _)) by done. destruct Hm' as [?|[[Ev ->]|(Ev & _ & H255)]]; [done|..].
    + rewrite Ev in C. change (negb (255 =? 255)) with false. cbv iota. exists 255, vl'.
      split; [by injection C as ->|]. right. by left.
    + rewrite Ev in C. rewrite (proj2 (Z.eqb_neq ve' 255)) by done. cbn [negb]. exists ve', vl'.
      split; [|right; by right]. destruct (zipLoadInteger _ _ _); [|done]. cbn [mbind option_bind] in *. by injection C as ->.
Qed.

Lemma find_loop_spec cnt a b fuel v skip skipcnt vencoding vll :
  entries_ok 0 (a ++ b) -> (length b <= fuel)%nat -> 0 <= skip < 2 ^ 31 -> memo_ok v vencoding vll ->
  find_loop fuel (zl_bytes cnt (a ++ b)) (zl_at a) v skip skipcnt vencoding vll
  = Some ((fun i => zl_at (a ++ take i b)) <$> find_in skip skipcnt v (snd <$> b)).
Proof.
  revert a fuel skipcnt vencoding vll. induction b as [|e b IH]; intros a fuel skipcnt vencoding vll Hok Hf Hs Hm.
  - rewrite app_nil_r in *. destruct fuel; cbn [find_loop]; by rewrite at_end.
  - destruct fuel as [|fuel]; [cbn in Hf; lia|]. cbn [find_loop fmap list_fmap find_in].
    destruct (at_more cnt a (e :: b) Hok) as (ch & -> & Hch). cbn [mbind option_bind]. rewrite Hch.
    destruct (at_payload cnt a e b Hok) as (P & T & enc & EZ & HP & Hform & _ & E2).
    assert (ZIP_DECODE_PREVLENSIZE (zl_bytes cnt (a ++ e :: b)) (zl_at a) = Some (psize (fst e))) as ->.
    { destruct (at_entry cnt a e b Hok) as (_ & _ & E3 & _). unfold ZIP_DECODE_PREVLEN in E3.
      destruct (ZIP_DECODE_PREVLENSIZE _ _) as [n|]; [|done]. cbn [mbind option_bind] in E3. f_equal.
      destruct (n =? 1); [destruct (zidx _ _)|destruct (rd _ _ _) as [l|]; [cbn [mbind option_bind] in E3; destruct (memrev32ifbe l)|]];
        try done; cbn [mbind option_bind] in E3; by injection E3. }
    cbn [mbind option_bind]. rewrite E2. cbn [mbind option_bind].
    assert (zl_at a + psize (fst e) + zlen (hdr_of (snd e)) + zlen (pay_of (snd e)) = zl_at (a ++ [e])) as ->
      by (rewrite zl_at_snoc; unfold elen, body; zl).
    rewrite <- HP. destruct (find_compare_spec P _ _ _ _ T v vencoding vll Hform Hm) as (ve' & vl' & E4 & Hm').
    rewrite <- EZ in E4. rewrite E4. cbn [mbind option_bind].
    assert (forall sc ve vl, memo_ok v ve vl ->
      find_loop fuel (zl_bytes cnt (a ++ e :: b)) (zl_at (a ++ [e])) v skip sc ve vl
      = Some ((fun i => zl_at (a ++ take i (e :: b))) <$> (S <$> find_in skip sc v (snd <$> b)))) as Hrest.
    { intros sc ve vl Hmm. rewrite (cons_middle e a b), app_assoc in Hok. rewrite (cons_middle e a b), app_assoc.
      rewrite IH by (done || cbn in Hf; lia). f_equal. destruct (find_in _ _ _ _); cbn; [|done]. by rewrite <- app_assoc. }
    case_if; [|by apply Hrest]. destruct (bool_decide (snd e = v)).
    + cbn. by rewrite app_nil_r.
    + rewrite wraps_small by (unfold in_s; lia). by apply Hrest.
Qed.

Lemma len_loop_spec cnt a b fuel n : entries_ok 0 (a ++ b) -> (length b <= fuel)%nat -> 0 <= n -> n + zlen b < 2 ^ 32 ->
  len_loop fuel (zl_bytes cnt (a ++ b)) (zl_at a) n = Some (n + zlen b).
Proof.
  revert a fuel n. induction b as [|e b IH]; intros a fuel n Hok Hf Hn Hlt.
  - rewrite app_nil_r in *. rewrite zlen_nil, Z.add_0_r. destruct fuel; cbn [len_loop]; by rewrite at_end.
  - destruct fuel as [|fuel]; [cbn in Hf; lia|]. cbn [len_loop]. rewrite zlen_cons in *. pose proof (zlen_nonneg b).
    destruct (at_entry cnt a e b Hok) as (E1 & (ch & E2 & Hch) & _). rewrite E2. cbn [mbind option_bind]. rewrite Hch, E1.
    cbn [mbind option_bind]. rewrite <- zl_at_snoc, (cons_middle e a b), app_assoc in *.
    rewrite wrapu_small by (unfold in_u; lia). rewrite IH by (done || cbn in Hf; lia). f_equal. lia.
Qed.

End read.

(** ** The theorems *)

Section theorems.
Context `{Host}.
Variable junk : nat -> Z.

Lemma rep_length zl xs : zl_rep zl xs ->
  exists cnt l, zl_as cnt l zl /\ snd <$> l = xs /\ zlen zl = 11 + elens l /\ length l = length xs /\
    2 * zlen xs <= elens l.
Proof.
  intros (cnt & l & Hz & <-). exists cnt, l. pose proof (elens_ge _ _ (za_entries _ _ _ Hz)).
  split_and!; [done|done| |by rewrite length_fmap|].
  - rewrite (za_bytes _ _ _ Hz). unfold zl_bytes. rewrite zlen_zblk. zl. rewrite zlen_ebytes. lia.
  - unfold zlen in *. by rewrite length_fmap.
Qed.

(** The pointer to the place of an index, the end included. *)
Definition points_to (zl : list Z) (xs : list (list Z)) (i : nat) (p : Z) : Prop :=
  if decide (i < length xs)%nat then ziplistIndex zl (Z.of_nat i) = Some (Some p)
  else ZIPLIST_ENTRY_END zl = Some p.

Lemma points_to_at cnt l zl i : zl_as cnt l zl -> (i <= length l)%nat -> points_to zl (snd <$> l) i (zl_at (take i l)).
Proof.
  intros Hz Hi. pose proof (za_entries _ _ _ Hz) as Hok. pose proof (za_size _ _ _ Hz) as Hlt.
  pose proof (elens_nonneg _ _ Hok). rewrite (za_bytes _ _ _ Hz). unfold points_to. rewrite length_fmap. case_decide.
  - rewrite index_spec by (done || lia). rewrite (proj2 (Z.leb_le _ _)) by lia. rewrite Nat2Z.id. unfold zl_ptr.
    by rewrite (proj2 (Nat.ltb_lt _ _)).
  - rewrite take_ge by lia. unfold ZIPLIST_ENTRY_END, zl_bytes. rewrite get_zbytes. cbn [mbind option_bind].
    rewrite host_uint_le32 by (unfold in_u; lia). f_equal. unfold zl_at. lia.
Qed.

(** C7 An insertion at any place of a ziplist, the end included, gives the ziplist of the list
    with the string inserted there: the entry is encoded, the field with the length of the
    previous entry of the next one is adjusted, entries behind it grow when the change
    cascades, and the header is updated. *)
Theorem ziplistInsert_refines zl xs i x :
  zl_rep zl xs -> (i <= length xs)%nat -> zlen x < 2 ^ 31 -> zlen zl + zlen x + 4 * zlen xs + 32 < 2 ^ 32 ->
  exists p zl', points_to zl xs i p /\ ziplistInsert junk zl p x = Some zl' /\
    zl_rep zl' (take i xs ++ x :: drop i xs).
Proof.
  intros Hrep Hi Hx Hlt. destruct (rep_length _ _ Hrep) as (cnt & l & Hz & <- & Hzl & Hlen & _).
  exists (zl_at (take i l)). rewrite length_fmap in Hi.
  assert (zl_as cnt (take i l ++ drop i l) zl) as Hz' by by rewrite take_drop.
  destruct (zl_insert_core junk (take i l) (drop i l) cnt x zl Hz' Hx) as (zl' & E & Hz1).
  { rewrite take_drop. pose proof (elen_new (last_len 0 (take i l)) x Hx).
    assert (zlen (drop i l) <= zlen (snd <$> l)) by (unfold zlen; rewrite length_drop, length_fmap; lia). lia. }
  exists zl'. split_and!; [by eapply points_to_at|exact E|]. eexists _, _. split; [exact Hz1|].
  by rewrite ins_list_values, fmap_take, fmap_drop.
Qed.

(** The elements without [num] of them from an index, which counts from the end if it is negative. *)
Definition delete_range (xs : list (list Z)) (index num : Z) : list (list Z) :=
  let i := if 0 <=? index then index else zlen xs + index in
  if (0 <=? i) && (i <? zlen xs) then take (Z.to_nat i) xs ++ drop (Z.to_nat (i + num)) xs else xs.

Lemma index_rep zl xs index cnt l : zl_as cnt l zl -> snd <$> l = xs -> - 2 ^ 31 < index ->
  let i := if 0 <=? index then index else zlen xs + index in
  ziplistIndex zl index
  = Some (if (0 <=? i) && (i <? zlen xs) then Some (zl_at (take (Z.to_nat i) l)) else None).
Proof.
  intros Hz <- Hi. cbv zeta. rewrite (za_bytes _ _ _ Hz), index_spec by (done || apply Hz). unfold zl_ptr.
  assert (zlen (snd <$> l) = zlen l) as -> by (unfold zlen; by rewrite length_fmap).
  assert (forall k, 0 <= k -> (Z.to_nat k <? length l)%nat = (k <? zlen l)) as E.
  { intros k Hk. unfold zlen. destruct (Nat.ltb_spec (Z.to_nat k) (length l)), (Z.ltb_spec k (Z.of_nat (length l))); lia. }
  destruct (Z.leb_spec 0 index); [by rewrite (proj2 (Z.leb_le 0 index)), E by lia|].
  destruct (Z.leb_spec (- index) (zlen l)), (Z.leb_spec 0 (zlen l + index)); try lia; [by rewrite E by lia|done].
Qed.

Lemma zl_delete_none cnt a b : entries_ok 0 (a ++ b) -> b <> [] ->
  __ziplistDelete junk (zl_bytes cnt (a ++ b)) (zl_at a) 0 = Some (zl_bytes cnt (a ++ b)).
Proof.
  intros Hok Hb. destruct b as [|e b]; [done|]. destruct (at_entry cnt a e b Hok) as (_ & _ & _ & r & Er & _).
  unfold __ziplistDelete. rewrite Er. cbn [mbind option_bind].
  rewrite (skip_entries_spec cnt a [] (e :: b)) by (done || cbn; lia || by right). cbn [mbind option_bind].
  by rewrite app_nil_r, Z.sub_diag.
Qed.

(** C8 The deletion of a range removes its elements, up to the end of the list: the next entry
    takes over the length of the one before the range, in a field that may have to grow
    into the deleted bytes, and the change cascades. *)
Theorem ziplistDeleteRange_refines zl xs index num :
  zl_rep zl xs -> - 2 ^ 31 < index -> 0 <= num -> zlen zl + 4 * zlen xs + 4 < 2 ^ 32 ->
  exists zl', ziplistDeleteRange junk zl index num = Some zl' /\ zl_rep zl' (delete_range xs index num).
Proof.
  intros Hrep Hi Hn Hlt. destruct (rep_length _ _ Hrep) as (cnt & l & Hz & Hxs & Hzl & Hlen & _).
  unfold ziplistDeleteRange, delete_range. rewrite (index_rep _ _ _ _ _ Hz Hxs Hi).
  set (i := if 0 <=? index then index else zlen xs + index). destruct ((0 <=? i) && (i <? zlen xs)) eqn:Hin.
  2:{ exists zl. by split. }
  zbool. cbn [mbind option_bind]. assert (zlen l = zlen xs) as Hlx by (unfold zlen; by rewrite Hlen).
  destruct (Z.eq_dec num 0) as [->|Hn0].
  { exists zl. rewrite Z.add_0_r, take_drop. split; [|done].
    rewrite (za_bytes _ _ _ Hz). pose proof (za_entries _ _ _ Hz) as Hok.
    pose proof (zl_delete_none cnt (take (Z.to_nat i) l) (drop (Z.to_nat i) l)) as E. rewrite take_drop in E.
    apply E; [done|]. intros Ed. apply (f_equal length) in Ed. rewrite length_drop in Ed. unfold zlen in *. cbn in Ed. lia. }
  set (k := Z.to_nat i). set (d := take (Z.to_nat num) (drop k l)). set (b := drop (Z.to_nat num) (drop k l)).
  assert (l = take k l ++ d ++ b) as El by (unfold d, b; by rewrite !take_drop).
  rewrite El in Hz. destruct (delete_core junk (take k l) d b cnt num zl Hz) as (zl' & E & Hz1).
  - unfold d. intros Ed. apply (f_equal length) in Ed. rewrite length_take, length_drop in Ed. unfold zlen in *. cbn in Ed. lia.
  - unfold d, b, zlen. rewrite length_take, length_drop.
    destruct (Z.le_gt_cases (Z.of_nat (length l - k)) num).
    + left. split; [apply drop_ge; rewrite length_drop|]; lia.
    + right. lia.
  - rewrite <- El. assert (zlen b <= zlen xs) by (rewrite <- Hlx; unfold b, zlen; rewrite !length_drop; lia). lia.
  - exists zl'. split; [exact E|]. eexists _, _. split; [exact Hz1|]. rewrite del_list_values. unfold b.
    rewrite drop_drop, <- Hxs, fmap_take, fmap_drop. do 2 f_equal. lia.
Qed.

(** The merge of two lists, the second of which has elements, is their concatenation. *)
Theorem ziplistMerge_refines first second xs ys :
  zl_rep first xs -> zl_rep second ys -> ys <> [] -> zlen first + zlen second + 4 * zlen ys < 2 ^ 32 ->
  exists append zl, ziplistMerge junk false (Some first) (Some second) = Some (Some (append, zl)) /\ zl_rep zl (xs ++ ys).
Proof.
  intros Hf Hs Hne Hlt. destruct (rep_length _ _ Hf) as (c1 & l1 & Hz1 & <- & Hzl1 & _ & _).
  destruct (rep_length _ _ Hs) as (c2 & l2 & Hz2 & <- & Hzl2 & Hlen & _).
  destruct (merge_core junk l1 l2 c1 c2 first second Hz1 Hz2) as (zl & E & Hz).
  - intros ->. by apply Hne.
  - assert (zlen l2 = zlen (snd <$> l2)) by (unfold zlen; by rewrite length_fmap). lia.
  - eexists _, zl. split; [exact E|]. eexists _, _. split; [exact Hz|]. by rewrite fmap_app, fixl_values.
Qed.

(** The element of an index, from the start or from the end, is read back as the string that
    was inserted, through the encodings of integers too; without such an element the index has
    no entry. *)
Theorem ziplistIndex_ziplistGet_roundtrip zl xs index :
  zl_rep zl xs -> - 2 ^ 31 < index ->
  let i := if 0 <=? index then index else zlen xs + index in
  exists p, ziplistIndex zl index = Some p /\
    match (if 0 <=? i then xs !! Z.to_nat i else None) with
    | Some x => exists g, ziplistGet zl p = Some (Some g) /\ got_is zl g x
    | None => p = None
    end.
Proof.
  intros Hrep Hi. cbv zeta. destruct (rep_length _ _ Hrep) as (cnt & l & Hz & Hxs & _ & Hlen & _).
  rewrite (index_rep _ _ _ _ _ Hz Hxs Hi). set (i := if 0 <=? index then index else zlen xs + index).
  eexists. split; [done|]. destruct (Z.leb_spec 0 i); cbn [andb]; [|done].
  destruct (Z.ltb_spec i (zlen xs)) as [Hlt|Hge].
  - assert (Z.to_nat i < length l)%nat as [e He]%lookup_lt_is_Some_2 by (unfold zlen in *; lia).
    rewrite <- Hxs, list_lookup_fmap, He. cbn [fmap option_fmap option_map].
    rewrite (za_bytes _ _ _ Hz). pose proof (za_entries _ _ _ Hz) as Hok.
    rewrite <- (take_drop_middle _ _ _ He) in Hok. destruct (get_spec cnt _ _ _ Hok) as (g & E & Hg).
    rewrite (take_drop_middle _ _ _ He) in E, Hg. by exists g.
  - by rewrite lookup_ge_None_2 by (unfold zlen in *; lia).
Qed.

(** The search for a string, from the first element and every [skip] elements, finds the first
    one that is equal to it, whether it is stored as a string or as an integer. *)
Theorem ziplistFind_finds zl xs v skip :
  zl_rep zl xs -> 0 <= skip < 2 ^ 31 ->
  exists r, ziplistFind zl ZIPLIST_ENTRY_HEAD v skip = Some r /\
    match find_in skip 0 v xs with
    | Some i => ziplistIndex zl (Z.of_nat i) = Some r /\ xs !! i = Some v
    | None => r = None
    end.
Proof.
  intros Hrep Hs. destruct (rep_length _ _ Hrep) as (cnt & l & Hz & Hxs & _ & Hlen & _).
  pose proof (za_entries _ _ _ Hz) as Hok. unfold ziplistFind.
  assert (ziplistFind zl ZIPLIST_ENTRY_HEAD v skip
          = Some ((fun i => zl_at (take i l)) <$> find_in skip 0 v xs)) as E.
  { unfold ziplistFind. rewrite (za_bytes _ _ _ Hz), <- Hxs. pose proof (fuel_enough cnt l Hok).
    apply (find_loop_spec cnt [] l); [done|lia|done|by left]. }
  eexists. split; [exact E|]. destruct (find_in skip 0 v xs) as [i|] eqn:Ef; cbn [fmap option_fmap option_map]; [|done].
  assert (xs !! i = Some v) as Hv by by eapply find_in_sound. split; [|done].
  apply lookup_lt_Some in Hv. rewrite (index_rep _ _ _ _ _ Hz Hxs) by lia.
  rewrite (proj2 (Z.leb_le 0 (Z.of_nat i))) by lia. rewrite (proj2 (Z.leb_le 0 (Z.of_nat i))) by lia.
  by rewrite (proj2 (Z.ltb_lt _ _)), Nat2Z.id by (unfold zlen; lia).
Qed.

(** The length is the number of elements, counted again when the header does not know it. *)
Theorem ziplistLen_counts zl xs : zl_rep zl xs ->
  exists zl', ziplistLen zl = Some (zlen xs, zl') /\ zl_rep zl' xs.
Proof.
  intros Hrep. destruct (rep_length _ _ Hrep) as (cnt & l & Hz & Hxs & _ & Hlen & Hge).
  pose proof (za_entries _ _ _ Hz) as Hok. destruct (za_count _ _ _ Hz) as [Hc Hcnt]. pose proof (za_size _ _ _ Hz) as Hlt.
  assert (zlen l = zlen xs) as Hlx by (unfold zlen; by rewrite Hlen). pose proof (zlen_nonneg xs).
  unfold ziplistLen. rewrite (za_bytes _ _ _ Hz). 
  assert (ZIPLIST_LENGTH (zl_bytes cnt l) = Some (host_uint (le_encode 2 cnt))) as -> by apply get_zlength.
  cbn [mbind option_bind]. rewrite !host_uint_le16 by done. case_if.
  - eexists. split; [|by exists cnt, l]. destruct Hcnt as [->| ->]; [done|]. by rewrite <- (za_bytes _ _ _ Hz), Hlx.
  - pose proof (fuel_enough cnt l Hok). rewrite (len_loop_spec cnt [] l _ 0) by (done || lia).
    cbn [mbind option_bind]. rewrite Z.add_0_l, Hlx. case_if; cbn [mbind option_bind].
    + rewrite wrapu_small by (unfold in_u, UINT16_MAX in *; lia). unfold zl_bytes. rewrite set_zlength. cbn [mbind option_bind].
      eexists. split; [done|]. exists (zlen xs), l. split; [|done]. constructor; [done|done|done|].
      split; [unfold in_u, UINT16_MAX in *; lia|by right].
    + eexists. split; [done|]. rewrite <- (za_bytes _ _ _ Hz). by exists cnt, l.
Qed.

Theorem ziplistNew_empty : exists zl, ziplistNew junk = Some zl /\ zl_rep zl [].
Proof.
  unfold ziplistNew, ZIPLIST_HEADER_SIZE. change (10 + 1) with 11.
  destruct (realloc_grow junk [] 11) as (f & -> & Hf); [done|]. change (zlen (@nil Z)) with 0 in Hf.
  destruct (split_at f 4) as (f1 & f' & -> & H1); [lia|]. destruct (split_at f' 4) as (f2 & f'' & -> & H2); [zl|].
  destruct (split_at f'' 2) as (f3 & f4 & -> & H3); [zl|]. destruct f4 as [|z [|? r]]; [zl..| |exfalso; zl; pose proof (zlen_nonneg r); lia].
  cbn [app]. unfold set_ZIPLIST_BYTES, set_ZIPLIST_TAIL_OFFSET, set_ZIPLIST_LENGTH. rewrite !host_bytes_intrev32ifbe.
  rewrite wr_front by zl. cbn [mbind option_bind]. rewrite wr_app by zl. cbn [mbind option_bind].
  rewrite (app_assoc (le_encode 4 11)), wr_app by zl. cbn [mbind option_bind].
  rewrite (app_assoc _ (host_bytes 2 0)), <- (app_nil_r [z]), wr_app by zl. rewrite app_nil_r, <- !app_assoc.
  eexists. split; [done|]. exists 0, []. split; [|done]. constructor; [|done|done|by split; [by vm_compute|right]].
  unfold zl_bytes, zblk. cbn [elens tail_of ebytes app]. by assert (host_bytes 2 0 = le_encode 2 0) as -> by (unfold host_bytes; by destruct big_endian).
Qed.

End theorems.

(** ** The theorems applied *)

#[local] Instance little : Host := false.

(** The strings 2, 5 and Hello World. *)
Definition hello : list Z := [72; 101; 108; 108; 111; 32; 87; 111; 114; 108; 100].
Definition words : list (list Z) := [[50]; [53]; hello].
Definition words_zl : list Z :=
  [28; 0; 0; 0; 14; 0; 0; 0; 3; 0; 0; 243; 2; 246;
   2; 11; 72; 101; 108; 108; 111; 32; 87; 111; 114; 108; 100; 255].

Lemma zl_words_rep : zl_rep words_zl words.
Proof.
  exists 3, ((fun x => (false, x)) <$> words). split; [|done]. constructor; [by vm_compute| |by vm_compute|].
  - cbn [words fmap list_fmap entries_ok fst snd]. unfold prev_fits, elem_ok, in_u.
    split_and!; try (vm_compute; congruence); try (left; vm_compute; congruence); done.
  - split; [split; vm_compute; congruence|]. by right.
Qed.

Lemma ziplistInsert_refines_witness :
  exists p zl', points_to words_zl words 1 p /\ ziplistInsert (fun _ => 7) words_zl p [49; 48; 50; 52] = Some zl' /\
    zl_rep zl' [[50]; [49; 48; 50; 52]; [53]; hello].
Proof.
  apply (ziplistInsert_refines (fun _ => 7) words_zl words 1 [49; 48; 50; 52] zl_words_rep); vm_compute; (reflexivity || lia).
Defined.

Lemma ziplistDeleteRange_refines_witness :
  exists zl', ziplistDeleteRange (fun _ => 7) words_zl (-2) 1 = Some zl' /\ zl_rep zl' [[50]; hello].
Proof.
  apply (ziplistDeleteRange_refines (fun _ => 7) words_zl words (-2) 1 zl_words_rep); vm_compute; congruence.
Defined.

Lemma ziplistIndex_ziplistGet_roundtrip_witness :
  exists p, ziplistIndex words_zl (-1) = Some p /\
    exists g, ziplistGet words_zl p = Some (Some g) /\ got_is words_zl g hello.
Proof. apply (ziplistIndex_ziplistGet_roundtrip words_zl words (-1) zl_words_rep). vm_compute. reflexivity. Defined.

Lemma ziplistFind_finds_witness :
  exists r, ziplistFind words_zl ZIPLIST_ENTRY_HEAD hello 1 = Some r /\
    ziplistIndex words_zl 2 = Some r /\ words !! 2%nat = Some hello.
Proof. apply (ziplistFind_finds words_zl words hello 1 zl_words_rep). split; vm_compute; congruence. Defined.

Lemma ziplistMerge_refines_witness :
  exists append zl, ziplistMerge (fun _ => 7) false (Some words_zl) (Some words_zl) = Some (Some (append, zl)) /\
    zl_rep zl (words ++ words).
Proof.
  apply (ziplistMerge_refines (fun _ => 7) words_zl words_zl words words zl_words_rep zl_words_rep); [done|]. vm_compute. reflexivity.
Defined.

Lemma ziplistLen_counts_witness :
  exists zl', ziplistLen words_zl = Some (3, zl') /\ zl_rep zl' words.
Proof. apply (ziplistLen_counts words_zl words zl_words_rep). Defined.

(** Three entries of 253 bytes behind a new one of 303: each of them grows by four bytes. *)
Example cascade_example :
  (zl ← ziplistNew (fun _ => 7);
   zl ← ziplistPush (fun _ => 7) zl (replicate 250 97) ZIPLIST_TAIL;
   zl ← ziplistPush (fun _ => 7) zl (replicate 250 98) ZIPLIST_TAIL;
   zl ← ziplistPush (fun _ => 7) zl (replicate 250 99) ZIPLIST_TAIL;
   zl' ← ziplistPush (fun _ => 7) zl (replicate 300 100) ZIPLIST_HEAD;
   Some (zlen zl' - zlen zl)) = Some (303 + 3 * 4).
Proof. vm_compute. reflexivity. Qed.

(** A merge with an empty second list leaves the offset of the tail at the end: the last element is
    not found, and an append does not record the length before it. *)
Example merge_empty_tail :
  (empty ← ziplistNew (fun _ => 7);
   m ← ziplistMerge (fun _ => 7) false (Some words_zl) (Some empty);
   '(_, zl) ← m;
   ziplistIndex zl (-1)) = Some None.
Proof. vm_compute. reflexivity. Qed.
