(* ===== verification/ZiplistPlace.v ===== *)
(** * Places in a ziplist

    [zl_place zl xs k p]: the ziplist [zl] of the strings [xs] has its place [k], the end included, at the
    offset [p]. A client that walks through a ziplist, or edits it where it stands, reasons with places
    instead of bytes. *)

From S2P Require Import Prelude Endian Util Ziplist ZiplistSpec ZiplistEdit ZiplistRead.

Section place.
Context `{Host}.
Variable junk : nat -> Z.

Definition zl_place (zl : list Z) (xs : list (list Z)) (k : nat) (p : Z) : Prop :=
  exists cnt l, zl_as cnt l zl /\ snd <$> l = xs /\ (k <= length xs)%nat /\ p = zl_at (take k l).

Lemma place_rep zl xs k p : zl_place zl xs k p -> zl_rep zl xs.
Proof. intros (cnt & l & Hz & Hxs & _). by exists cnt, l. Qed.

(** The bytes that the strings take at most in a ziplist, with room for the fields that may grow. *)
Definition zl_weight (xs : list (list Z)) : Z := foldr (fun x n => zlen x + 26 + n) 0 xs.

Lemma zl_weight_cons x xs : zl_weight (x :: xs) = zlen x + 26 + zl_weight xs.
Proof. done. Qed.
Lemma zl_weight_app xs ys : zl_weight (xs ++ ys) = zl_weight xs + zl_weight ys.
Proof. induction xs as [|x xs IH]; [done|]. cbn [app]. rewrite !zl_weight_cons, IH. lia. Qed.
Lemma zl_weight_nonneg xs : 0 <= zl_weight xs.
Proof. induction xs as [|x xs IH]; [done|]. rewrite zl_weight_cons. pose proof (zlen_nonneg x). lia. Qed.

Lemma elen_bound e : elem_ok (snd e) -> elen e <= zlen (snd e) + 18.
Proof.
  intros Hx. unfold elen, body. pose proof (psize_range (fst e)). pose proof (zlen_hdr_of (snd e) Hx).
  pose proof (proj2 (payload_size (snd e))). zl.
Qed.

Lemma weight_bound prev l : entries_ok prev l -> elens l + 8 * zlen l <= zl_weight (snd <$> l).
Proof.
  revert prev. induction l as [|e l IH]; intros prev; [done|]. intros (_ & Hx & _ & Hl).
  cbn [fmap list_fmap elens]. rewrite zl_weight_cons, zlen_cons. specialize (IH _ Hl). pose proof (elen_bound e Hx). lia.
Qed.

Lemma place_index0 zl xs : zl_rep zl xs ->
  exists q, ziplistIndex zl 0 = Some q /\
    if decide (xs = []) then q = None else q = Some ZIPLIST_ENTRY_HEAD /\ zl_place zl xs 0 ZIPLIST_ENTRY_HEAD.
Proof.
  intros (cnt & l & Hz & Hxs). rewrite (index_rep zl xs 0 cnt l Hz Hxs) by lia. cbn [Z.leb Z.compare andb].
  eexists. split; [done|]. case_decide as Hx.
  - by rewrite Hx.
  - assert (0 < zlen xs) by (destruct xs; [done|]; rewrite zlen_cons; pose proof (zlen_nonneg xs); lia).
    rewrite (proj2 (Z.ltb_lt _ _)) by done. change (Z.to_nat 0) with 0%nat. rewrite take_0. split; [done|].
    exists cnt, l. split_and!; [done|done|lia|by rewrite take_0].
Qed.

Lemma place_next zl xs k p : zl_place zl xs k p -> (k < length xs)%nat ->
  exists q, ziplistNext zl p = Some q /\
    if decide (S k < length xs)%nat then exists p', q = Some p' /\ zl_place zl xs (S k) p' else q = None.
Proof.
  intros (cnt & l & Hz & <- & _ & ->) Hk. rewrite length_fmap in *.
  destruct (lookup_lt_is_Some_2 l k Hk) as [e He]. pose proof (za_entries _ _ _ Hz) as Hok.
  assert (take k l ++ e :: drop (S k) l = l) as El by by apply take_drop_middle.
  pose proof (zl_next_spec cnt (take k l) e (drop (S k) l)) as E. rewrite El in E. rewrite (za_bytes _ _ _ Hz), (E Hok).
  eexists. split; [done|]. case_decide as HS.
  - assert (length (drop (S k) l) = (length l - S k)%nat) as Hd by by rewrite length_drop.
    destruct (drop (S k) l) as [|e' b]; [cbn in Hd; lia|]. rewrite <- (take_S_r _ _ _ He). eexists. split; [done|].
    exists cnt, l. split_and!; [by rewrite <- (za_bytes _ _ _ Hz)|done|rewrite length_fmap; lia|done].
  - by rewrite drop_ge by lia.
Qed.

Lemma place_get zl xs k p x : zl_place zl xs k p -> xs !! k = Some x ->
  exists g, ziplistGet zl (Some p) = Some (Some g) /\ got_is zl g x.
Proof.
  intros (cnt & l & Hz & <- & _ & ->) Hx. rewrite list_lookup_fmap in Hx. destruct (l !! k) as [e|] eqn:He; [|done].
  injection Hx as <-. pose proof (za_entries _ _ _ Hz) as Hok.
  assert (take k l ++ e :: drop (S k) l = l) as El by by apply take_drop_middle.
  pose proof (get_spec cnt (take k l) e (drop (S k) l)) as E. rewrite El in E. rewrite (za_bytes _ _ _ Hz). by apply E.
Qed.

Lemma place_find zl xs v skip : zl_rep zl xs -> 0 <= skip < 2 ^ 31 ->
  exists q, ziplistFind zl ZIPLIST_ENTRY_HEAD v skip = Some q /\
    match find_in skip 0 v xs with
    | Some i => exists p, q = Some p /\ zl_place zl xs i p
    | None => q = None
    end.
Proof.
  intros (cnt & l & Hz & Hxs) Hs. pose proof (za_entries _ _ _ Hz) as Hok. pose proof (fuel_enough cnt l Hok) as Hf.
  assert (ziplistFind zl ZIPLIST_ENTRY_HEAD v skip
          = Some ((fun i => zl_at (take i l)) <$> find_in skip 0 v xs)) as E.
  { unfold ziplistFind. rewrite (za_bytes _ _ _ Hz), <- Hxs. apply (find_loop_spec cnt [] l); [done|lia|done|by left]. }
  eexists. split; [exact E|]. destruct (find_in skip 0 v xs) as [i|] eqn:Ef; cbn [fmap option_fmap option_map]; [|done].
  eexists. split; [done|]. exists cnt, l. split_and!; [done|done| |done].
  apply find_in_sound, lookup_lt_Some in Ef. lia.
Qed.

Lemma place_insert zl xs k p x : zl_place zl xs k p -> zl_weight xs + zlen x + 64 < 2 ^ 31 ->
  exists zl', ziplistInsert junk zl p x = Some zl' /\ zl_rep zl' (take k xs ++ x :: drop k xs).
Proof.
  intros (cnt & l & Hz & <- & Hk & ->) Hb. rewrite length_fmap in Hk.
  pose proof (weight_bound _ _ (za_entries _ _ _ Hz)) as Hw. pose proof (zl_weight_nonneg (snd <$> l)). pose proof (zlen_nonneg x).
  assert (elem_ok x) as Hx by (unfold elem_ok; lia). pose proof (elen_new (last_len 0 (take k l)) x Hx).
  assert (zl_as cnt (take k l ++ drop k l) zl) as Hz' by by rewrite take_drop.
  assert (zlen (drop k l) <= zlen l) by (unfold zlen; rewrite length_drop; lia). pose proof (zlen_nonneg l).
  destruct (zl_insert_core junk (take k l) (drop k l) cnt x zl Hz' Hx) as (zl' & E & Hz1); [rewrite take_drop; lia|].
  exists zl'. split; [exact E|]. eexists _, _. split; [exact Hz1|]. by rewrite ins_list_values, fmap_take, fmap_drop.
Qed.

Lemma place_end zl xs : zl_rep zl xs -> exists p, ZIPLIST_ENTRY_END zl = Some p /\ zl_place zl xs (length xs) p.
Proof.
  intros (cnt & l & Hz & Hxs). assert (length xs = length l) as Hlen by (rewrite <- Hxs; by rewrite length_fmap).
  exists (zl_at l). split.
  - pose proof (points_to_at cnt l zl (length l) Hz ltac:(lia)) as Hp. unfold points_to in Hp.
    rewrite length_fmap, decide_False, take_ge in Hp by lia. done.
  - exists cnt, l. split_and!; [done|done|lia|]. by rewrite take_ge by lia.
Qed.

Lemma place_push zl xs x : zl_rep zl xs -> zl_weight xs + zlen x + 64 < 2 ^ 31 ->
  exists zl', ziplistPush junk zl x ZIPLIST_TAIL = Some zl' /\ zl_rep zl' (xs ++ [x]).
Proof.
  intros Hrep Hb. destruct (place_end zl xs Hrep) as (p & Hp & Hpl).
  destruct (place_insert zl xs _ p x Hpl Hb) as (zl' & E & Hr). exists zl'. rewrite firstn_all, skipn_all in Hr. split; [|done].
  unfold ziplistPush. change (ZIPLIST_TAIL =? ZIPLIST_HEAD) with false. cbv iota. by rewrite Hp.
Qed.

(** The place stays where it is, and the next element moves to it. *)
Lemma place_delete zl xs k p : zl_place zl xs k p -> (k < length xs)%nat -> zl_weight xs + 64 < 2 ^ 31 ->
  exists zl', ziplistDelete junk zl p = Some (zl', p) /\ zl_place zl' (take k xs ++ drop (S k) xs) k p.
Proof.
  intros (cnt & l & Hz & <- & _ & ->) Hk Hb. rewrite length_fmap in Hk.
  pose proof (weight_bound _ _ (za_entries _ _ _ Hz)) as Hw.
  destruct (lookup_lt_is_Some_2 l k Hk) as [e He].
  assert (take k l ++ [e] ++ drop (S k) l = l) as El by by apply take_drop_middle.
  assert (zl_as cnt (take k l ++ [e] ++ drop (S k) l) zl) as Hz' by by rewrite El.
  assert (zlen (drop (S k) l) <= zlen l) by (unfold zlen; rewrite length_drop; lia). pose proof (zlen_nonneg l).
  destruct (delete_core junk (take k l) [e] (drop (S k) l) cnt 1 zl Hz') as (zl' & E & Hz1); [done|by right|rewrite El; lia|].
  exists zl'. unfold ziplistDelete. rewrite E. split; [done|]. eexists _, _. split; [exact Hz1|].
  rewrite del_list_values, fmap_take, fmap_drop. split_and!; [done| |].
  - rewrite length_app, length_take, length_fmap. lia.
  - f_equal. symmetry. unfold del_list. destruct (drop (S k) l) as [|n b].
    + rewrite take_take. by rewrite Nat.min_id.
    + rewrite take_app_le by (rewrite length_take; lia). rewrite take_take. by rewrite Nat.min_id.
Qed.

(** ** The block *)

Lemma body_bytes x : elem_ok x -> bytes_ok x -> bytes_ok (body x).
Proof.
  intros Hx Hb. unfold body. destruct (zl_form_of x Hx) as [enc Hf]. pose proof (zlen_nonneg x).
  revert Hf. generalize (hdr_of x) (pay_of x). intros h p Hf.
  destruct Hf as [v Hv|b n v Hin Hv|x Hn Hl|x Hn Hl|x Hn Hl]; apply Forall_app; (split; [|try done; try auto with redis]).
  - repeat constructor; unfold byte_ok; lia.
  - rewrite !list_elem_of_In in Hin. cbn in Hin. apply Forall_singleton. unfold byte_ok.
    destruct Hin as [[= <- _]|[[= <- _]|[[= <- _]|[[= <- _]|[[= <- _]|[]]]]]]; lia.
  - repeat constructor; unfold byte_ok; lia.
  - pose proof (Z.div_lt_upper_bound (zlen x) 256 64 ltac:(lia) ltac:(lia)). pose proof (Z.div_pos (zlen x) 256 ltac:(lia) ltac:(lia)).
    pose proof (Z.mod_pos_bound (zlen x) 256 ltac:(lia)). repeat constructor; unfold byte_ok; lia.
  - constructor; [unfold byte_ok; lia|]. rewrite Forall_reverse. auto with redis.
Qed.

Lemma ebytes_bytes l : forall prev, entries_ok prev l -> Forall bytes_ok (snd <$> l) -> bytes_ok (ebytes prev l).
Proof.
  induction l as [|e l IH]; intros prev Hok Hb; [constructor|]. destruct Hok as (Hp & Hx & He & Hl).
  cbn [fmap list_fmap] in Hb. apply Forall_cons in Hb as [Hb1 Hb2]. cbn [ebytes]. unfold ent. rewrite !Forall_app. split_and!.
  - unfold pbytes. destruct Hp as [Hp [Hlt|Ht]]; [|rewrite Ht; constructor; [by unfold byte_ok|auto with redis]].
    destruct (fst e); [constructor; [by unfold byte_ok|auto with redis]|]. repeat constructor; unfold in_u, byte_ok, ZIP_BIG_PREVLEN in *; lia.
  - by apply body_bytes.
  - by apply IH.
Qed.

(** The block of a ziplist: its length is that of its header, its bytes are bytes, and it is an empty
    ziplist if it has not more than 11. *)
Lemma rep_block zl xs : zl_rep zl xs ->
  ziplistBlobLen zl = Some (zlen zl) /\ 11 <= zlen zl <= 11 + zl_weight xs /\
  (Forall bytes_ok xs -> bytes_ok zl) /\ (zlen zl <= 11 -> exists cnt, zl = [11; 0; 0; 0; 10; 0; 0; 0] ++ le_encode 2 cnt ++ [ZIP_END]).
Proof.
  intros Hrep. destruct (rep_length _ _ Hrep) as (cnt & l & Hz & Hxs & Hlen & Hl & Hge). pose proof (zlen_nonneg xs).
  pose proof (weight_bound _ _ (za_entries _ _ _ Hz)) as Hw. rewrite Hxs in Hw. pose proof (zlen_nonneg l). split_and!.
  - unfold ziplistBlobLen. rewrite (za_bytes _ _ _ Hz), zl_get_total; [|apply (za_size _ _ _ Hz)|lia].
    rewrite <- (za_bytes _ _ _ Hz). by rewrite Hlen.
  - lia.
  - lia.
  - intros Hb. rewrite (za_bytes _ _ _ Hz). unfold zl_bytes, zblk. rewrite !Forall_app. split_and!; auto with redis.
    + apply ebytes_bytes; [apply Hz|by rewrite Hxs].
    + repeat constructor; by unfold byte_ok.
  - intros H11. assert (zlen xs = 0) as Hx0 by lia. apply zlen_0_inv in Hx0. subst xs. apply fmap_nil_inv in Hx0. subst l.
    exists cnt. rewrite (za_bytes _ _ _ Hz). done.
Qed.
End place.
