(* ===== verification/Lzf.v ===== *)
(** * LZF compression (lzf_c.c, lzf_d.c)

    The compressor and the decompressor of strings in RDB files and in quicklist nodes, with
    the configuration of lzfP.h ([VERY_FAST], [CHECK_INPUT], no [INIT_HTAB]) on a 64-bit
    little endian host. Input and output are lists of bytes, pointers are offsets; an
    access outside of a buffer is [None]. The table of the compressor is a local array
    that is not initialised: its contents at the start are an argument. *)

From S2P Require Import Prelude.

Definition HLOG : Z := 16.
Definition HSIZE : Z := Z.shiftl 1 HLOG.
Definition MAX_LIT : Z := Z.shiftl 1 5.
Definition MAX_OFF : Z := Z.shiftl 1 13.
Definition MAX_REF : Z := Z.shiftl 1 8 + Z.shiftl 1 3.

Definition FRST (inp : list Z) (p : Z) : option Z :=
  a ← zidx inp p;
  b ← zidx inp (p + 1);
  Some (Z.lor (Z.shiftl a 8) b).

Definition NEXT (v : Z) (inp : list Z) (p : Z) : option Z :=
  c ← zidx inp (p + 2);
  Some (Z.lor (wrapu 32 (Z.shiftl v 8)) c).

Definition IDX (h : Z) : Z :=
  Z.land (wrapu 32 (Z.shiftr h (3 * 8 - HLOG) - wrapu 32 (h * 5))) (HSIZE - 1).

(** ** The compressor *)

(** The local variables of [lzf_compress], and the output. *)
Record cstate := CState {
  htab : Z -> Z;
  ip : Z;
  op : Z;
  hval : Z;
  lit : Z;
  out : list Z;
}.

(** [htab[i] = p - LZF_HSLOT_BIAS], stored in an [unsigned int]. *)
Definition set_slot (htab : Z -> Z) (i p : Z) : Z -> Z :=
  fun j => if j =? i then wrapu 32 p else htab j.

(** [op [- lit - 1] = lit - 1]. *)
Definition stop_run (out : list Z) (op lit : Z) : option (list Z) :=
  wr out (op - lit - 1) [wrapu 8 (lit - 1)].

(** [lit++; *op++ = *ip++;] and the start of a new run when the run is full. *)
Definition put_literal (inp : list Z) (s : cstate) : option cstate :=
  b ← zidx inp (ip s);
  out ← wr (out s) (op s) [b];
  let lit := lit s + 1 in
  let op := op s + 1 in
  if lit =? MAX_LIT then
    out ← stop_run out op lit;
    Some (CState (htab s) (ip s + 1) (op + 1) (hval s) 0 out)
  else Some (CState (htab s) (ip s + 1) op (hval s) lit out).

(** The condition for a match of [ip] with [ref], tests in the order of the source. *)
Definition is_match (inp : list Z) (ip ref : Z) : option bool :=
  if (wrapu 64 (ip - ref - 1) <? MAX_OFF) && (ref >? 0) then
    r2 ← zidx inp (ref + 2);
    i2 ← zidx inp (ip + 2);
    if r2 =? i2 then
      r ← rd inp ref 2;
      i ← rd inp ip 2;
      Some (bool_decide (r = i))
    else Some false
  else Some false.

(** The unrolled comparisons: [(len, true)] after a [break], [(len, false)] when all are equal. *)
Fixpoint unrolled (n : nat) (inp : list Z) (ref ip len : Z) : option (Z * bool) :=
  match n with
  | O => Some (len, false)
  | S n =>
      let len := len + 1 in
      r ← zidx inp (ref + len);
      i ← zidx inp (ip + len);
      if r =? i then unrolled n inp ref ip len else Some (len, true)
  end.

(** [do len++; while (len < maxlen && ref[len] == ip[len])]; at most [MAX_REF] iterations. *)
Fixpoint extend (fuel : nat) (inp : list Z) (ref ip maxlen len : Z) : option Z :=
  match fuel with
  | O => None
  | S fuel =>
      let len := len + 1 in
      if len <? maxlen then
        r ← zidx inp (ref + len);
        i ← zidx inp (ip + len);
        if r =? i then extend fuel inp ref ip maxlen len else Some len
      else Some len
  end.

(** The [for (;;)] that computes the length of the match. *)
Definition match_len (inp : list Z) (ref ip : Z) : option Z :=
  let len := 2 in
  let maxlen := wrapu 32 (zlen inp - ip - len) in
  let maxlen := if maxlen >? MAX_REF then MAX_REF else maxlen in
  '(len, brk) ← (if maxlen >? 16 then unrolled 16 inp ref ip len else Some (len, false));
  if brk : bool then Some len
  else extend (Z.to_nat MAX_REF) inp ref ip maxlen len.

(** The bytes of a back reference. *)
Definition put_ref (out : list Z) (op off len : Z) : option (list Z * Z) :=
  '(out, op) ←
    (if len <? 7 then
       out ← wr out op [wrapu 8 (Z.shiftr off 8 + Z.shiftl len 5)]; Some (out, op + 1)
     else
       out ← wr out op [wrapu 8 (Z.shiftr off 8 + Z.shiftl 7 5)];
       out ← wr out (op + 1) [wrapu 8 (len - 7)]; Some (out, op + 2));
  out ← wr out op [wrapu 8 off];
  Some (out, op + 1).

(** The body of the loop when a match is found; [Some None] is [return 0], the flag tells
    whether the loop is left. *)
Definition step_match (inp : list Z) (s : cstate) (ref : Z) : option (option (cstate * bool)) :=
  let out_end := zlen (out s) in
  let in_end := zlen inp in
  let notlit := if lit s =? 0 then 1 else 0 in
  if (op s + 3 + 1 >=? out_end) && (op s - notlit + 3 + 1 >=? out_end) then Some None
  else
    let off := wrapu 64 (ip s - ref - 1) in
    out ← stop_run (out s) (op s) (lit s);
    let op := op s - notlit in
    len ← match_len inp ref (ip s);
    let len := wrapu 32 (len - 2) in
    let ip := ip s + 1 in
    '(out, op) ← put_ref out op off len;
    let op := op + 1 in
    let ip := ip + (len + 1) in
    if ip >=? in_end - 2 then Some (Some (CState (htab s) ip op (hval s) 0 out, true))
    else
      let ip := ip - 1 in
      let ip := ip - 1 in
      hval ← FRST inp ip;
      hval ← NEXT hval inp ip;
      let htab := set_slot (htab s) (IDX hval) ip in
      let ip := ip + 1 in
      hval ← NEXT hval inp ip;
      let htab := set_slot htab (IDX hval) ip in
      let ip := ip + 1 in
      Some (Some (CState htab ip op hval 0 out, false)).

(** The [while (ip < in_end - 2)] loop; every iteration consumes input, so the fuel is
    the length of the input. *)
Fixpoint compress_loop (fuel : nat) (inp : list Z) (s : cstate) : option (option cstate) :=
  if ip s <? zlen inp - 2 then
    match fuel with
    | O => None
    | S fuel =>
        hval ← NEXT (hval s) inp (ip s);
        let i := IDX hval in
        let ref := htab s i in
        let s := CState (set_slot (htab s) i (ip s)) (ip s) (op s) hval (lit s) (out s) in
        m ← is_match inp (ip s) ref;
        if m : bool then
          r ← step_match inp s ref;
          match r with
          | None => Some None
          | Some (s, brk) => if brk : bool then Some (Some s) else compress_loop fuel inp s
          end
        else if op s >=? zlen (out s) then Some None
        else s ← put_literal inp s; compress_loop fuel inp s
    end
  else Some (Some s).

(** The last [while (ip < in_end)] loop, with at most two iterations. *)
Fixpoint flush_loop (fuel : nat) (inp : list Z) (s : cstate) : option cstate :=
  if ip s <? zlen inp then
    match fuel with
    | O => None
    | S fuel => s ← put_literal inp s; flush_loop fuel inp s
    end
  else Some s.

(** The return value and the output; [Some None] is the return value 0. *)
Definition lzf_compress (htab0 : Z -> Z) (inp out0 : list Z) : option (option (Z * list Z)) :=
  if (zlen inp =? 0) || (zlen out0 =? 0) then Some None
  else
    hval ← FRST inp 0;
    r ← compress_loop (length inp) inp (CState htab0 0 1 hval 0 out0);
    match r with
    | None => Some None
    | Some s =>
        if op s + 3 >? zlen (out s) then Some None
        else
          s ← flush_loop 2 inp s;
          out ← stop_run (out s) (op s) (lit s);
          let op := op s - (if lit s =? 0 then 1 else 0) in
          Some (Some (wrapu 32 op, out))
    end.

(** ** The decompressor *)

(** The value of [errno] with the return value 0. *)
Inductive lzf_error := E2BIG | EINVAL.

(** [do *op++ = *ref++; while (--len)], [n] bytes. *)
Fixpoint copy_octets (n : nat) (out : list Z) (op ref : Z) : option (list Z) :=
  match n with
  | O => Some out
  | S n =>
      b ← zidx out ref;
      out ← wr out op [b];
      copy_octets n out (op + 1) (ref + 1)
  end.

(** The [switch (len)] of a back reference: [len+2] bytes, one by one up to [len] 9 and for
    overlapping areas, else by [memcpy]. *)
Definition copy_ref (out : list Z) (op ref len : Z) : option (list Z) :=
  if len <=? 9 then copy_octets (Z.to_nat (len + 2)) out op ref
  else
    let len := len + 2 in
    if op >=? ref + len then bs ← rd out ref len; wr out op bs
    else copy_octets (Z.to_nat len) out op ref.

(** One iteration of the loop: the new [ip], [op] and output, or an error. *)
Definition decompress_step (inp out : list Z) (ip op : Z) : option (lzf_error + Z * Z * list Z) :=
  let in_end := zlen inp in
  let out_end := zlen out in
  ctrl ← zidx inp ip;
  let ip := ip + 1 in
  if ctrl <? Z.shiftl 1 5 then
    let ctrl := ctrl + 1 in
    if op + ctrl >? out_end then Some (inl E2BIG)
    else if ip + ctrl >? in_end then Some (inl EINVAL)
    else
      bs ← rd inp ip ctrl;
      out ← wr out op bs;
      Some (inr (ip + ctrl, op + ctrl, out))
  else
    let len := Z.shiftr ctrl 5 in
    let ref := op - Z.shiftl (Z.land ctrl 31) 8 - 1 in
    if ip >=? in_end then Some (inl EINVAL)
    else
      '(err, len, ip) ← (if len =? 7 then
                           b ← zidx inp ip;
                           Some (ip + 1 >=? in_end, len + b, ip + 1)
                         else Some (false, len, ip));
      if err : bool then Some (inl EINVAL)
      else
        b ← zidx inp ip;
        let ref := ref - b in
        let ip := ip + 1 in
        if op + len + 2 >? out_end then Some (inl E2BIG)
        else if ref <? 0 then Some (inl EINVAL)
        else
          out ← copy_ref out op ref len;
          Some (inr (ip, op + len + 2, out)).

(** The [do ... while (ip < in_end)] loop; every iteration consumes input. *)
Fixpoint decompress_loop (fuel : nat) (inp out : list Z) (ip op : Z)
  : option (lzf_error + Z * list Z) :=
  match fuel with
  | O => None
  | S fuel =>
      r ← decompress_step inp out ip op;
      match r with
      | inl e => Some (inl e)
      | inr (ip, op, out) =>
          if ip <? zlen inp then decompress_loop fuel inp out ip op
          else Some (inr (wrapu 32 op, out))
      end
  end.

Definition lzf_decompress (inp out : list Z) : option (lzf_error + Z * list Z) :=
  decompress_loop (length inp) inp out 0 0.

Example lzf_small :
  let x := [97; 98; 99; 97; 98; 99; 97; 98; 99; 97; 98; 99; 97; 98; 99; 97; 98; 99; 97; 98; 99; 97; 98; 99] in
  (r ← lzf_compress (fun _ => 0) x (replicate 24 0);
   '(n, out) ← r;
   lzf_decompress (take (Z.to_nat n) out) (replicate 24 0)) = Some (inr (24, x)).
Proof. vm_compute. reflexivity. Qed.
