(* ===== verification/LzfSpec.v ===== *)
(** * LZF: the round trip, and safety on any input

    The compressed format is a sequence of tokens, literal runs and back references
    ([token]); [expand] is the text they stand for. The compressor writes the bytes of
    tokens that stand for its input, the decompressor appends what each token stands for. *)

From S2P Require Import Prelude Lzf.

(** ** Tokens *)

(** [Ref off n]: [n] octets that start [off + 1] octets before the end. *)
Inductive token := Lit (bs : list Z) | Ref (off n : Z).

Definition tok_bytes (t : token) : list Z :=
  match t with
  | Lit bs => zlen bs - 1 :: bs
  | Ref off n =>
      let l := n - 2 in
      if l <? 7 then [off / 256 + l * 32; off mod 256] else [off / 256 + 224; l - 7; off mod 256]
  end.

(** [n] octets appended one by one, the first from position [ref]. *)
Fixpoint copy_from (n ref : nat) (acc : list Z) : list Z :=
  match n with
  | O => acc
  | S n => if acc !! ref is Some b then copy_from n (S ref) (acc ++ [b]) else acc
  end.

Definition tok_out (acc : list Z) (t : token) : list Z :=
  match t with
  | Lit bs => acc ++ bs
  | Ref off n => copy_from (Z.to_nat n) (Z.to_nat (zlen acc - off - 1)) acc
  end.

Definition tok_ok (acc : list Z) (t : token) : Prop :=
  match t with
  | Lit bs => 1 <= zlen bs <= 32
  | Ref off n => 0 <= off < 8192 /\ off < zlen acc /\ 3 <= n <= 264
  end.

Definition toks_bytes (ts : list token) : list Z := concat (tok_bytes <$> ts).
Definition expand (acc : list Z) (ts : list token) : list Z := fold_left tok_out ts acc.

Fixpoint toks_ok (acc : list Z) (ts : list token) : Prop :=
  match ts with [] => True | t :: ts => tok_ok acc t /\ toks_ok (tok_out acc t) ts end.

Lemma toks_bytes_app a b : toks_bytes (a ++ b) = toks_bytes a ++ toks_bytes b.
Proof. unfold toks_bytes. by rewrite fmap_app, concat_app. Qed.

Lemma toks_bytes_one t : toks_bytes [t] = tok_bytes t.
Proof. apply app_nil_r. Qed.

Lemma toks_ok_snoc acc ts t : toks_ok acc (ts ++ [t]) <-> toks_ok acc ts /\ tok_ok (expand acc ts) t.
Proof.
  revert acc. induction ts as [|u ts IH]; intros acc; cbn [toks_ok app].
  - unfold expand. cbn. tauto.
  - rewrite IH. unfold expand. cbn. tauto.
Qed.

Lemma expand_snoc acc ts t : expand acc (ts ++ [t]) = tok_out (expand acc ts) t.
Proof. unfold expand. by rewrite fold_left_app. Qed.

Lemma copy_from_length n ref acc :
  (ref < length acc)%nat -> length (copy_from n ref acc) = (length acc + n)%nat.
Proof.
  revert ref acc. induction n as [|n IH]; intros ref acc Hr; cbn [copy_from]; [lia|].
  destruct (lookup_lt_is_Some_2 acc ref Hr) as [b ->]. rewrite IH; rewrite length_app; cbn; lia.
Qed.

Lemma zlen_tok_out acc t :
  tok_ok acc t -> zlen (tok_out acc t) = zlen acc + match t with Lit bs => zlen bs | Ref _ n => n end.
Proof.
  destruct t as [bs|off n]; cbn [tok_ok tok_out]; intros Hok; [by rewrite zlen_app|].
  unfold zlen in *. rewrite copy_from_length by lia. lia.
Qed.

(** Copying from a text that repeats. *)
Lemma copy_from_text n ref k x :
  (ref < k)%nat -> (k + n <= length x)%nat ->
  (forall j, (j < n)%nat -> x !! (ref + j)%nat = x !! (k + j)%nat) ->
  copy_from n ref (take k x) = take (k + n) x.
Proof.
  revert ref k. induction n as [|n IH]; intros ref k Hr Hk Hx; cbn [copy_from]; [by rewrite Nat.add_0_r|].
  rewrite lookup_take_lt by done. pose proof (Hx 0%nat ltac:(lia)) as H0. rewrite !Nat.add_0_r in H0.
  destruct (lookup_lt_is_Some_2 x k ltac:(lia)) as [b Hb]. rewrite H0, Hb, <- (take_S_r _ _ _ Hb).
  rewrite IH; [by f_equal; lia|lia|lia|]. intros j Hj. specialize (Hx (S j) ltac:(lia)).
  by rewrite !Nat.add_succ_r in Hx.
Qed.

(** Copying from an area that ends before the text does. *)
Lemma copy_from_disjoint n ref acc :
  (ref + n <= length acc)%nat -> copy_from n ref acc = acc ++ take n (drop ref acc).
Proof.
  assert (forall ys, (ref + n <= length acc)%nat ->
    copy_from n ref (acc ++ ys) = acc ++ ys ++ take n (drop ref acc)) as H.
  { revert ref. induction n as [|n IH]; intros ref ys Hr; cbn [copy_from]; [by rewrite app_nil_r|].
    destruct (lookup_lt_is_Some_2 acc ref ltac:(lia)) as [b Hb].
    rewrite lookup_app_l, Hb, <- app_assoc, IH by lia.
    by rewrite (drop_S _ _ _ Hb), <- app_assoc. }
  intros Hr. pose proof (H [] Hr) as E. by rewrite app_nil_r in E.
Qed.

(** ** The decompressor *)

Lemma zidx_nat (l : list Z) (i : nat) : zidx l (Z.of_nat i) = l !! i.
Proof. unfold zidx. rewrite (proj2 (Z.leb_le _ _)) by lia. by rewrite Nat2Z.id. Qed.

Lemma copy_octets_spec n ref acc F :
  (ref < length acc)%nat -> (n <= length F)%nat ->
  copy_octets n (acc ++ F) (zlen acc) (Z.of_nat ref) = Some (copy_from n ref acc ++ drop n F).
Proof.
  revert ref acc F. induction n as [|n IH]; intros ref acc F Hr Hn; cbn [copy_octets copy_from]; [done|].
  destruct F as [|f F]; cbn [length] in Hn; [lia|].
  destruct (lookup_lt_is_Some_2 acc ref Hr) as [b Hb].
  rewrite zidx_nat, lookup_app_l, Hb by done. cbn [mbind option_bind].
  rewrite (wr_app acc [f] [b] F) by done. cbn [mbind option_bind].
  rewrite (app_assoc acc). replace (zlen acc + 1) with (zlen (acc ++ [b])) by zl.
  replace (Z.of_nat ref + 1) with (Z.of_nat (S ref)) by lia.
  apply IH; rewrite ?length_app; cbn; lia.
Qed.

Lemma copy_ref_spec acc F ref len :
  0 <= ref < zlen acc -> 0 <= len -> len + 2 <= zlen F ->
  copy_ref (acc ++ F) (zlen acc) ref len =
    Some (copy_from (Z.to_nat (len + 2)) (Z.to_nat ref) acc ++ drop (Z.to_nat (len + 2)) F).
Proof.
  intros Hr Hl HF. unfold copy_ref. assert (exists r : nat, ref = Z.of_nat r) as [r ->] by (exists (Z.to_nat ref); lia).
  rewrite Nat2Z.id.
  assert (copy_octets (Z.to_nat (len + 2)) (acc ++ F) (zlen acc) (Z.of_nat r) =
    Some (copy_from (Z.to_nat (len + 2)) r acc ++ drop (Z.to_nat (len + 2)) F)) as Hc.
  { apply copy_octets_spec; unfold zlen in *; lia. }
  destruct (len <=? 9); [done|]. rewrite Z.geb_leb. case_if; [|done]. clear Hc.
  destruct (split_at acc (Z.of_nat r)) as (a & b & -> & Ha); [lia|]. rewrite zlen_app in *.
  destruct (split_at b (len + 2)) as (b1 & b2 & -> & Hb1); [lia|].
  rewrite <- !app_assoc, rd_app by lia. cbn [mbind option_bind].
  destruct (split_at F (len + 2)) as (F1 & F2 & -> & HF1); [lia|].
  rewrite copy_from_disjoint by (rewrite !length_app; unfold zlen in *; lia).
  rewrite <- (Nat2Z.id r), (drop_zlen_app a) by lia. rewrite (take_zlen_app b1), (drop_zlen_app F1) by done.
  rewrite !app_assoc, <- (app_assoc _ F1), wr_app by (rewrite ?zlen_app in *; lia). by rewrite <- !app_assoc.
Qed.

Lemma bytes_of_ctrl h l : 0 <= h < 32 -> 0 <= l < 8 ->
  Z.shiftr (h + l * 32) 5 = l /\ Z.land (h + l * 32) 31 = h.
Proof.
  intros Hh Hl. rewrite Z.shiftr_div_pow2, (Z.land_ones _ 5) by lia. change (2 ^ 5) with 32. split.
  - rewrite Z.div_add, Z.div_small by lia. lia.
  - rewrite Z.mod_add, Z.mod_small by lia. lia.
Qed.

(** The part of a step after the length of a back reference is known. *)
Lemma tail_of_ref acc F off n :
  tok_ok acc (Ref off n) -> n <= zlen F ->
  let ref := zlen acc - Z.shiftl (off / 256) 8 - 1 - off mod 256 in
  ref = zlen acc - off - 1 /\
  copy_ref (acc ++ F) (zlen acc) ref (n - 2) = Some (tok_out acc (Ref off n) ++ drop (Z.to_nat n) F).
Proof.
  intros (Hoff & Ha & Hn) HF ref.
  assert (ref = zlen acc - off - 1) as E.
  { unfold ref. rewrite Z.shiftl_mul_pow2 by lia. change (2 ^ 8) with 256. pose proof (Z.div_mod off 256). lia. }
  split; [done|]. rewrite E, copy_ref_spec by lia. cbn [tok_out]. by replace (n - 2 + 2) with n by lia.
Qed.

Lemma step_token A t B acc F :
  tok_ok acc t -> zlen (tok_out acc t) <= zlen (acc ++ F) ->
  exists F', zlen (tok_out acc t ++ F') = zlen (acc ++ F) /\
    decompress_step (A ++ tok_bytes t ++ B) (acc ++ F) (zlen A) (zlen acc) =
      Some (inr (zlen A + zlen (tok_bytes t), zlen (tok_out acc t), tok_out acc t ++ F')).
Proof.
  intros Hok Hsz. pose proof (zlen_tok_out acc t Hok) as Hz. rewrite zlen_app in Hsz.
  pose proof (zlen_nonneg A). pose proof (zlen_nonneg B).
  destruct t as [bs|off n]; cbn [tok_bytes].
  - cbn [tok_ok tok_out] in *. destruct (split_at F (zlen bs)) as (F1 & F2 & -> & HF1); [lia|].
    exists F2. split; [zl|]. unfold decompress_step. cbn [app]. rewrite (zidx_app A _ _ (zlen A)) by done. cbn [mbind option_bind].
    change (Z.shiftl 1 5) with 32. rewrite (proj2 (Z.ltb_lt _ _)) by lia.
    replace (zlen bs - 1 + 1) with (zlen bs) by lia.
    rewrite !Z.gtb_ltb, !(proj2 (Z.ltb_ge _ _)) by zl.
    rewrite cons_middle, (app_assoc A), rd_app by zl. cbn [mbind option_bind]. rewrite wr_app by lia.
    cbn [mbind option_bind]. do 2 f_equal. rewrite <- app_assoc. zl. do 2 f_equal; lia.
  - destruct (tail_of_ref acc F off n Hok ltac:(lia)) as [Href Hcopy].
    pose proof Hok as (Hoff & Ha & Hn). exists (drop (Z.to_nat n) F).
    assert (0 <= off / 256 < 32) as Hh by (split; [apply Z.div_pos|apply Z.div_lt_upper_bound]; lia).
    split. { rewrite !zlen_app, Hz. unfold zlen in *. rewrite length_drop. lia. }
    unfold decompress_step. change (Z.shiftl 1 5) with 32. destruct (Z.ltb_spec (n - 2) 7).
    + destruct (bytes_of_ctrl (off / 256) (n - 2) Hh ltac:(lia)) as [E1 E2].
      cbn [app]. rewrite (zidx_app A _ _ (zlen A)) by done. cbn [mbind option_bind].
      rewrite (proj2 (Z.ltb_ge _ _)) by lia. rewrite E1, E2.
      rewrite !Z.geb_leb, (proj2 (Z.leb_gt _ _)) by zl. rewrite (proj2 (Z.eqb_neq _ 7)) by lia.
      cbn [mbind option_bind app]. rewrite cons_middle, app_assoc, zidx_app by zl. cbn [mbind option_bind].
      rewrite Z.gtb_ltb, zlen_app, (proj2 (Z.ltb_ge _ _)) by lia.
      rewrite Href in Hcopy |- *. rewrite (proj2 (Z.ltb_ge _ 0)) by lia. rewrite Hcopy. cbn [mbind option_bind].
      do 3 f_equal. rewrite Hz. zl. f_equal; lia.
    + destruct (bytes_of_ctrl (off / 256) 7 Hh ltac:(lia)) as [E1 E2]. change (7 * 32) with 224 in *.
      cbn [app]. rewrite (zidx_app A _ _ (zlen A)) by done. cbn [mbind option_bind].
      rewrite (proj2 (Z.ltb_ge _ _)) by lia. rewrite E1, E2.
      rewrite !Z.geb_leb, (proj2 (Z.leb_gt _ _)) by zl. cbn [Z.eqb Pos.eqb].
      cbn [app]. rewrite cons_middle, app_assoc, zidx_app by zl. cbn [mbind option_bind].
      rewrite (proj2 (Z.leb_gt _ _)) by zl.
      rewrite (cons_middle (n - 2 - 7)), app_assoc, zidx_app by zl. cbn [mbind option_bind].
      replace (7 + (n - 2 - 7)) with (n - 2) by lia.
      rewrite Z.gtb_ltb, zlen_app, (proj2 (Z.ltb_ge _ _)) by lia.
      rewrite Href in Hcopy |- *. rewrite (proj2 (Z.ltb_ge _ 0)) by lia. rewrite Hcopy. cbn [mbind option_bind].
      do 3 f_equal. rewrite Hz. zl. f_equal; lia.
Qed.

Lemma zlen_tok_bytes acc t : tok_ok acc t -> 2 <= zlen (tok_bytes t).
Proof. destruct t as [bs|off n]; cbn [tok_ok tok_bytes]; intros H; [zl|]. by case_if. Qed.

Lemma expand_grows acc ts : toks_ok acc ts -> zlen acc <= zlen (expand acc ts).
Proof.
  revert acc. induction ts as [|t ts IH]; intros acc; [done|]. cbn [toks_ok]. intros [Ht Hts].
  specialize (IH _ Hts). rewrite (zlen_tok_out acc t Ht) in IH. unfold expand in *. cbn.
  destruct t as [bs|off n]; cbn [tok_ok] in Ht; lia.
Qed.

Lemma decompress_tokens ts : forall fuel A acc F,
  ts <> [] -> toks_ok acc ts -> (length ts <= fuel)%nat ->
  zlen (expand acc ts) <= zlen (acc ++ F) -> zlen (acc ++ F) < 2 ^ 32 ->
  exists F', zlen (expand acc ts ++ F') = zlen (acc ++ F) /\
    decompress_loop fuel (A ++ toks_bytes ts) (acc ++ F) (zlen A) (zlen acc) =
      Some (inr (zlen (expand acc ts), expand acc ts ++ F')).
Proof.
  induction ts as [|t ts IH]; intros fuel A acc F Hne Hok Hf Hsz Hmax; [done|]. destruct Hok as [Ht Hts].
  destruct fuel as [|fuel]; cbn [length] in Hf; [lia|]. cbn [decompress_loop].
  change (toks_bytes (t :: ts)) with (tok_bytes t ++ toks_bytes ts).
  change (expand acc (t :: ts)) with (expand (tok_out acc t) ts) in *.
  pose proof (expand_grows _ _ Hts).
  destruct (step_token A t (toks_bytes ts) acc F Ht) as (F1 & HF1 & ->); [lia|]. cbn [mbind option_bind].
  rewrite app_assoc, <- (zlen_app A). destruct ts as [|u ts].
  - rewrite (proj2 (Z.ltb_ge _ _)) by (rewrite app_nil_r; lia). exists F1. split; [done|].
    pose proof (zlen_nonneg (tok_out acc t)). unfold expand in *. cbn in *.
    rewrite wrapu_small by (unfold in_u; lia). done.
  - assert (2 <= zlen (tok_bytes u)) by (eapply zlen_tok_bytes, Hts).
    rewrite (proj2 (Z.ltb_lt _ _)).
    + rewrite <- HF1 in *. apply IH; [done|done|cbn [length] in *; lia|done|done].
    + change (toks_bytes (u :: ts)) with (tok_bytes u ++ toks_bytes ts).
      pose proof (zlen_nonneg (toks_bytes ts)). zl.
Qed.

Lemma toks_length acc ts : toks_ok acc ts -> (length ts <= length (toks_bytes ts))%nat.
Proof.
  revert acc. induction ts as [|t ts IH]; intros acc; cbn [toks_ok]; [done|]. intros [Ht Hts].
  specialize (IH _ Hts). pose proof (zlen_tok_bytes acc t Ht).
  change (toks_bytes (t :: ts)) with (tok_bytes t ++ toks_bytes ts).
  rewrite length_app. unfold zlen in *. cbn. lia.
Qed.

(** The decompressor restores what the tokens stand for. *)
Lemma decompress_expand ts buf :
  ts <> [] -> toks_ok [] ts -> zlen (expand [] ts) = zlen buf -> zlen buf < 2 ^ 32 ->
  lzf_decompress (toks_bytes ts) buf = Some (inr (zlen buf, expand [] ts)).
Proof.
  intros Hne Hok Hz Hmax. unfold lzf_decompress.
  destruct (decompress_tokens ts (length (toks_bytes ts)) [] [] buf) as (F & HF & E);
    [done|done|by eapply toks_length|cbn; lia|done|].
  cbn [app] in *. change (zlen []) with 0 in E. rewrite E.
  assert (F = []) as -> by (apply zlen_0_inv; rewrite zlen_app in HF; lia). by rewrite app_nil_r, Hz.
Qed.

(** *** Any input *)

Lemma copy_octets_safe n : forall out op ref,
  0 <= ref < op -> op + Z.of_nat n <= zlen out ->
  exists out', copy_octets n out op ref = Some out' /\ zlen out' = zlen out.
Proof.
  induction n as [|n IH]; intros out op ref Hr Hn; cbn [copy_octets]; [by exists out|].
  destruct (zidx_is_Some out ref) as [b ->]; [lia|]. cbn [mbind option_bind].
  destruct (split_at out op) as (a & t & -> & Ha); [lia|].
  destruct t as [|y t]; [zl|]. change (y :: t) with ([y] ++ t) in *.
  rewrite (wr_app a [y] [b] t op Ha) by done. cbn [mbind option_bind].
  destruct (IH (a ++ [b] ++ t) (op + 1) (ref + 1)) as (out' & -> & Hl); [lia|zl|].
  exists out'. split; [done|zl].
Qed.

Lemma write_safe out off bs :
  0 <= off -> off + zlen bs <= zlen out -> exists out', wr out off bs = Some out' /\ zlen out' = zlen out.
Proof.
  intros H1 H2. destruct (split_at out off) as (a & t & -> & Ha); [pose proof (zlen_nonneg bs); lia|].
  rewrite zlen_app in H2. destruct (split_at t (zlen bs)) as (b & c & -> & Hb); [pose proof (zlen_nonneg bs); lia|].
  rewrite wr_app by lia. eexists. split; [done|zl].
Qed.

Lemma read_safe (buf : list Z) off n :
  0 <= off -> 0 <= n -> off + n <= zlen buf -> exists bs, rd buf off n = Some bs /\ zlen bs = n.
Proof.
  intros H1 H2 H3. destruct (split_at buf off) as (a & t & -> & Ha); [lia|].
  rewrite zlen_app in H3. destruct (split_at t n) as (b & c & -> & Hb); [lia|].
  exists b. split; [by apply rd_app|done].
Qed.

Lemma copy_ref_safe out op ref len :
  0 <= ref < op -> 0 <= len -> op + len + 2 <= zlen out ->
  exists out', copy_ref out op ref len = Some out' /\ zlen out' = zlen out.
Proof.
  intros Hr Hl Ho. unfold copy_ref. case_if; [apply copy_octets_safe; lia|].
  rewrite Z.geb_leb. case_if; [|apply copy_octets_safe; lia].
  destruct (read_safe out ref (len + 2)) as (bs & -> & Hb); [lia..|]. cbn [mbind option_bind].
  apply write_safe; lia.
Qed.

(** A step on any bytes ends in an error or goes on behind the bytes it read, with the
    output inside of its buffer. *)
Lemma step_safe inp out ip op :
  bytes_ok inp -> 0 <= ip < zlen inp -> 0 <= op <= zlen out ->
  exists r, decompress_step inp out ip op = Some r /\
    match r with
    | inl _ => True
    | inr (ip', op', out') => ip < ip' <= zlen inp /\ op <= op' <= zlen out /\ zlen out' = zlen out
    end.
Proof.
  intros Hok Hip Hop.
  assert (forall i b, zidx inp i = Some b -> 0 <= b < 256) as Hb.
  { intros i b Hb%zidx_elem_of. by eapply Forall_forall in Hok. }
  unfold decompress_step. destruct (zidx_is_Some inp ip Hip) as [ctrl Hc]. rewrite Hc. cbn [mbind option_bind].
  apply Hb in Hc. change (Z.shiftl 1 5) with 32. rewrite !Z.gtb_ltb, !Z.geb_leb.
  destruct (Z.ltb_spec ctrl 32).
  - destruct (Z.ltb_spec (zlen out) (op + (ctrl + 1))); [by eexists|].
    destruct (Z.ltb_spec (zlen inp) (ip + 1 + (ctrl + 1))); [by eexists|].
    destruct (read_safe inp (ip + 1) (ctrl + 1)) as (bs & -> & Hbs); [lia..|]. cbn [mbind option_bind].
    destruct (write_safe out op bs) as (out' & -> & Hl); [lia..|]. cbn [mbind option_bind].
    eexists. split; [done|]. cbn. lia.
  - assert (0 <= Z.shiftr ctrl 5 < 8 /\ 0 <= Z.shiftl (Z.land ctrl 31) 8) as [Hs1 Hs2].
    { rewrite Z.shiftr_div_pow2, Z.shiftl_mul_pow2, (Z.land_ones _ 5) by lia.
      pose proof (Z.mod_pos_bound ctrl (2 ^ 5) ltac:(lia)).
      split; [split; [apply Z.div_pos|apply Z.div_lt_upper_bound]; lia|lia]. }
    destruct (Z.leb_spec (zlen inp) (ip + 1)); [by eexists|].
    assert (exists err len ip', (if Z.shiftr ctrl 5 =? 7 then
         b ← zidx inp (ip + 1);
         Some (zlen inp <=? ip + 1 + 1, Z.shiftr ctrl 5 + b, ip + 1 + 1)
       else Some (false, Z.shiftr ctrl 5, ip + 1)) = Some (err, len, ip') /\
       0 <= len /\ ip + 1 <= ip' /\ (err = false -> ip' < zlen inp)) as (err & len & ip' & -> & Hlen & Hip' & Herr).
    { case_if; [|by eexists _, _, _; split_and!; [done|lia..]].
      destruct (zidx_is_Some inp (ip + 1)) as [b Eb]; [lia|]. rewrite Eb. cbn [mbind option_bind].
      apply Hb in Eb. eexists _, _, _. split_and!; [done|lia|lia|]. intros. zbool. lia. }
    cbn [mbind option_bind]. destruct err; [by eexists|]. specialize (Herr eq_refl).
    destruct (zidx_is_Some inp ip') as [b Eb]; [lia|]. rewrite Eb. cbn [mbind option_bind]. apply Hb in Eb.
    rewrite Z.gtb_ltb. destruct (Z.ltb_spec (zlen out) (op + len + 2)); [by eexists|].
    destruct (Z.ltb_spec (op - Z.shiftl (Z.land ctrl 31) 8 - 1 - b) 0); [by eexists|].
    destruct (copy_ref_safe out op (op - Z.shiftl (Z.land ctrl 31) 8 - 1 - b) len) as (out' & -> & Hl); [lia..|].
    cbn [mbind option_bind]. eexists. split; [done|]. cbn. lia.
Qed.

Lemma loop_safe fuel : forall inp out ip op,
  bytes_ok inp -> 0 <= ip < zlen inp -> 0 <= op <= zlen out -> zlen inp - ip <= Z.of_nat fuel ->
  exists r, decompress_loop fuel inp out ip op = Some r /\
    match r with inl _ => True | inr (n, out') => in_u 32 n /\ zlen out' = zlen out end.
Proof.
  induction fuel as [|fuel IH]; intros inp out ip op Hok Hip Hop Hf; [lia|]. cbn [decompress_loop].
  destruct (step_safe inp out ip op Hok Hip Hop) as ([e|[[ip' op'] out']] & -> & Hr); cbn [mbind option_bind].
  { by eexists. }
  case_if.
  - destruct (IH inp out' ip' op') as (r & -> & H); [done|lia..|]. exists r. split; [done|].
    destruct r as [|[n o]]; [done|]. destruct H as [? ->]. by destruct Hr as (_ & _ & ->).
  - eexists. split; [done|]. split; [apply wrapu_range; lia|]. by destruct Hr as (_ & _ & ->).
Qed.

(** ** The compressor *)

(** The text two positions share. *)
Definition same (x : list Z) (ref ip len : Z) : Prop :=
  forall j, 0 <= j < len -> zidx x (ref + j) = zidx x (ip + j).

Lemma same_more x ref ip len v w :
  same x ref ip len -> zidx x (ref + len) = Some v -> zidx x (ip + len) = Some w -> v = w ->
  same x ref ip (len + 1).
Proof.
  intros Hs Hv Hw -> j Hj. destruct (Z.eq_dec j len) as [->|]; [by rewrite Hv, Hw|]. apply Hs. lia.
Qed.

(** [ref + len] and [ip + len] are inside the text. *)
Lemma read_both (x : list Z) ref ip len :
  0 <= ref < ip -> 0 <= len -> ip + len < zlen x ->
  exists v w, zidx x (ref + len) = Some v /\ zidx x (ip + len) = Some w.
Proof.
  intros. destruct (zidx_is_Some x (ref + len)) as [v Hv]; [lia|].
  destruct (zidx_is_Some x (ip + len)) as [w Hw]; [lia|]. eauto.
Qed.

Lemma unrolled_spec n : forall x ref ip len,
  0 <= ref < ip -> 0 <= len -> ip + len + Z.of_nat n < zlen x -> same x ref ip (len + 1) ->
  exists len' brk, unrolled n x ref ip len = Some (len', brk) /\ len <= len' <= len + Z.of_nat n /\
    same x ref ip len' /\ (brk = true -> len < len') /\ (brk = false -> len' = len + Z.of_nat n /\ same x ref ip (len' + 1)).
Proof.
  induction n as [|n IH]; intros x ref ip len Hr Hl Hx Hs; cbn [unrolled].
  { exists len, false. split_and!; [done|lia|lia| |done|intros _; split; [lia|done]]. intros j Hj. apply Hs. lia. }
  destruct (read_both x ref ip (len + 1)) as (v & w & Hv & Hw); [lia..|]. rewrite Hv, Hw. cbn [mbind option_bind].
  destruct (Z.eqb_spec v w) as [Evw|].
  - destruct (IH x ref ip (len + 1)) as (len' & brk & E & ? & ? & Hb1 & Hb2);
      [lia..|by eapply same_more|]. exists len', brk. split_and!; [done|lia|lia|done| |].
    + intros Hb. specialize (Hb1 Hb). lia.
    + intros Hb. destruct (Hb2 Hb). split; [lia|done].
  - exists (len + 1), true. split_and!; [done|lia|lia|done|lia|done].
Qed.

Lemma extend_spec fuel : forall x ref ip maxlen len,
  0 <= ref < ip -> 0 <= len -> len < zlen x - ip -> maxlen <= zlen x - ip -> same x ref ip (len + 1) ->
  maxlen - len <= Z.of_nat fuel -> (1 <= fuel)%nat ->
  exists len', extend fuel x ref ip maxlen len = Some len' /\ len < len' <= Z.max maxlen (len + 1) /\
    same x ref ip len'.
Proof.
  induction fuel as [|fuel IH]; intros x ref ip maxlen len Hr Hl Hx Hm Hs Hf Hf1; [lia|]. cbn [extend].
  destruct (Z.ltb_spec (len + 1) maxlen); [|exists (len + 1); split_and!; [done|lia|lia|done]].
  destruct (read_both x ref ip (len + 1)) as (v & w & Hv & Hw); [lia..|]. rewrite Hv, Hw. cbn [mbind option_bind].
  destruct (Z.eqb_spec v w) as [Evw|]; [|exists (len + 1); split_and!; [done|lia|lia|done]].
  destruct (IH x ref ip maxlen (len + 1)) as (len' & E & ? & ?); [lia..|by eapply same_more|lia|lia|].
  exists len'. split_and!; [done|lia|lia|done].
Qed.

(** The length of a match: at least three octets, inside the text, and at most [MAX_REF]. *)
Lemma match_len_spec x ref ip :
  0 <= ref < ip -> ip + 3 <= zlen x -> zlen x < 2 ^ 32 -> same x ref ip 3 ->
  exists n, match_len x ref ip = Some n /\ 3 <= n <= 264 /\ ip + n <= zlen x /\ same x ref ip n.
Proof.
  intros Hr Hx Hmax Hs. unfold match_len. change MAX_REF with 264.
  rewrite wrapu_small by (unfold in_u; lia). rewrite !Z.gtb_ltb.
  set (maxlen := if 264 <? zlen x - ip - 2 then 264 else zlen x - ip - 2).
  assert (maxlen <= zlen x - ip - 2 /\ 1 <= maxlen <= 264) as [Hm Hm'].
  { subst maxlen. case_if; lia. }
  clearbody maxlen. destruct (Z.ltb_spec 16 maxlen).
  - destruct (unrolled_spec 16 x ref ip 2) as (len & brk & -> & ? & Hsame & Hb1 & Hb2); [lia..|done|].
    cbn [mbind option_bind]. destruct brk.
    + specialize (Hb1 eq_refl). exists len. split_and!; [done|lia|lia|lia|done].
    + destruct (Hb2 eq_refl) as [-> Hs'].
      destruct (extend_spec (Z.to_nat 264) x ref ip maxlen (2 + Z.of_nat 16)) as (n & E & ? & ?); [lia..|done|lia|lia|].
      exists n. split_and!; [done|lia|lia|lia|done].
  - cbn [mbind option_bind].
    destruct (extend_spec (Z.to_nat 264) x ref ip maxlen 2) as (n & E & ? & ?); [lia..|done|lia|lia|].
    exists n. split_and!; [done|lia|lia|lia|done].
Qed.

Lemma read_two (x : list Z) p :
  0 <= p -> p + 2 <= zlen x ->
  exists a b, rd x p 2 = Some [a; b] /\ zidx x (p + 0) = Some a /\ zidx x (p + 1) = Some b.
Proof.
  intros Hp Hx. destruct (split_at x p) as (c & t & -> & Hc); [lia|].
  destruct t as [|a [|b t]]; zl. exists a, b. split_and!.
  - by apply (rd_app c [a; b]).
  - apply zidx_app. lia.
  - rewrite (cons_middle a), app_assoc. apply zidx_app. zl.
Qed.

Lemma is_match_spec x ip ref :
  0 <= ip -> ip + 3 <= zlen x -> zlen x < 2 ^ 32 -> in_u 32 ref ->
  exists m, is_match x ip ref = Some m /\
    (m = true -> 0 < ref < ip /\ ip - ref - 1 < 8192 /\ same x ref ip 3).
Proof.
  intros Hip Hx Hmax Hr. unfold in_u in Hr. unfold is_match. change MAX_OFF with 8192.
  destruct (Z.ltb_spec (wrapu 64 (ip - ref - 1)) 8192) as [Ho|]; [|by exists false].
  rewrite Z.gtb_ltb. destruct (Z.ltb_spec 0 ref); cbn [andb]; [|by exists false].
  destruct (Z.lt_ge_cases ref ip) as [Hlt|Hge].
  2: { unfold wrapu in Ho. rewrite <- (Z.mod_add _ 1), Z.mod_small in Ho by lia. lia. }
  rewrite wrapu_small in Ho by (unfold in_u; lia).
  destruct (read_both x ref ip 2) as (v & w & Hv & Hw); [lia..|]. rewrite Hv, Hw. cbn [mbind option_bind].
  destruct (Z.eqb_spec v w) as [->|]; [|by exists false].
  destruct (read_two x ref) as (r0 & r1 & -> & R0 & R1); [lia..|].
  destruct (read_two x ip) as (i0 & i1 & -> & I0 & I1); [lia..|].
  cbn [mbind option_bind]. eexists. split; [done|]. intros [= <- <-]%bool_decide_eq_true. split_and!; [lia..|].
  intros j Hj. assert (j = 0 \/ j = 1 \/ j = 2) as [->|[->| ->]] by lia; congruence.
Qed.

(** The state of the compressor: the tokens [ts] written so far and the octets [pend] of the
    run that is open stand for the input up to [ip]; the byte before them is the
    one that will hold the length of the run, which is outside the buffer when a run was
    started at its end. The tokens take at most 33 bytes for 32 octets. *)
Record cinv (x : list Z) (outlen : Z) (s : cstate) (ts : list token) (pend : list Z) : Prop := CInv {
  inv_ok : toks_ok [] ts;
  inv_text : expand [] ts ++ pend = take (Z.to_nat (ip s)) x;
  inv_lit : zlen pend = lit s;
  inv_full : lit s < 32;
  inv_ip : 0 <= ip s <= zlen x;
  inv_op : op s = zlen (toks_bytes ts) + 1 + lit s;
  inv_len : zlen (out s) = outlen;
  inv_out : (exists h F, out s = toks_bytes ts ++ h :: pend ++ F) \/ (pend = [] /\ out s = toks_bytes ts);
  inv_htab : forall i, in_u 32 (htab s i);
  inv_cost : 32 * zlen (toks_bytes ts) <= 33 * zlen (expand [] ts);
}.

(** A state at the start of a run behind the bytes of the tokens. *)
Lemma start_run x ts R htab ip hval :
  toks_ok [] ts -> expand [] ts = take (Z.to_nat ip) x -> 0 <= ip <= zlen x ->
  (forall i, in_u 32 (htab i)) -> 32 * zlen (toks_bytes ts) <= 33 * zlen (expand [] ts) ->
  cinv x (zlen (toks_bytes ts ++ R)) (CState htab ip (zlen (toks_bytes ts) + 1) hval 0 (toks_bytes ts ++ R)) ts [].
Proof.
  intros. constructor; cbn [Lzf.ip Lzf.op Lzf.lit Lzf.out Lzf.htab]; try done; try lia.
  - by rewrite app_nil_r.
  - destruct R as [|h R]; [right; by rewrite app_nil_r|left; by exists h, R].
Qed.

Lemma inv_open x outlen s ts pend :
  cinv x outlen s ts pend -> op s <= outlen ->
  exists h F, out s = toks_bytes ts ++ h :: pend ++ F /\ zlen F = outlen - op s.
Proof.
  intros I Ho. pose proof (inv_op _ _ _ _ _ I) as E. pose proof (inv_len _ _ _ _ _ I) as L.
  pose proof (inv_lit _ _ _ _ _ I) as Hl.
  destruct (inv_out _ _ _ _ _ I) as [(h & F & EO)|[-> EO]]; rewrite EO in L.
  - exists h, F. split; [done|]. rewrite zlen_app, zlen_cons, zlen_app in L. lia.
  - change (zlen (@nil Z)) with 0 in Hl. lia.
Qed.

Lemma inv_text_len x outlen s ts pend : cinv x outlen s ts pend -> zlen (expand [] ts) + lit s = ip s.
Proof.
  intros I. pose proof (f_equal zlen (inv_text _ _ _ _ _ I)) as E. pose proof (inv_ip _ _ _ _ _ I).
  rewrite zlen_app, (inv_lit _ _ _ _ _ I) in E. rewrite E. unfold zlen in *. rewrite length_take. lia.
Qed.

(** A literal in a run that stays open. *)
Lemma grow_run x outlen s ts pend h f F b :
  cinv x outlen s ts pend -> out s = toks_bytes ts ++ h :: pend ++ f :: F ->
  expand [] ts ++ pend ++ [b] = take (Z.to_nat (ip s + 1)) x -> ip s < zlen x -> lit s + 1 < 32 ->
  cinv x outlen (CState (htab s) (ip s + 1) (op s + 1) (hval s) (lit s + 1) (toks_bytes ts ++ h :: (pend ++ [b]) ++ F))
    ts (pend ++ [b]).
Proof.
  intros I EO Ht Hip Hl. pose proof (inv_lit _ _ _ _ _ I). pose proof (inv_len _ _ _ _ _ I) as Hlen.
  pose proof (inv_op _ _ _ _ _ I). pose proof (inv_ip _ _ _ _ _ I). rewrite EO in Hlen.
  constructor; cbn [Lzf.ip Lzf.op Lzf.lit Lzf.out Lzf.htab]; try apply I; try done; try lia.
  - zl.
  - rewrite <- Hlen. zl.
  - left. by exists h, F.
Qed.

(** A literal that fills its run. *)
Lemma fill_run x outlen s ts pend h f F b :
  cinv x outlen s ts pend -> out s = toks_bytes ts ++ h :: pend ++ f :: F ->
  expand [] ts ++ pend ++ [b] = take (Z.to_nat (ip s + 1)) x -> ip s < zlen x -> lit s + 1 = 32 ->
  exists out', stop_run (toks_bytes ts ++ h :: (pend ++ [b]) ++ F) (op s + 1) (lit s + 1) = Some out' /\
    cinv x outlen (CState (htab s) (ip s + 1) (op s + 1 + 1) (hval s) 0 out') (ts ++ [Lit (pend ++ [b])]) [].
Proof.
  intros I EO Ht Hip E32. pose proof (inv_lit _ _ _ _ _ I) as Elit. pose proof (inv_len _ _ _ _ _ I) as Hlen.
  pose proof (inv_op _ _ _ _ _ I) as Eop. pose proof (inv_ip _ _ _ _ _ I). pose proof (inv_cost _ _ _ _ _ I).
  assert (tok_ok (expand [] ts) (Lit (pend ++ [b]))) as Htok by (cbn [tok_ok]; zl).
  unfold stop_run. replace (op s + 1 - (lit s + 1) - 1) with (zlen (toks_bytes ts)) by lia.
  change (toks_bytes ts ++ h :: (pend ++ [b]) ++ F) with (toks_bytes ts ++ [h] ++ (pend ++ [b]) ++ F).
  rewrite wr_app by done. eexists. split; [done|].
  assert (toks_bytes ts ++ [wrapu 8 (lit s + 1 - 1)] ++ (pend ++ [b]) ++ F =
    toks_bytes (ts ++ [Lit (pend ++ [b])]) ++ F) as ->.
  { rewrite toks_bytes_app, toks_bytes_one. cbn [tok_bytes]. rewrite <- (app_assoc (toks_bytes ts)). cbn [app].
    rewrite wrapu_small by (unfold in_u; lia). do 2 f_equal. zl. }
  assert (zlen (toks_bytes (ts ++ [Lit (pend ++ [b])])) = zlen (toks_bytes ts) + 33) as Ez
    by (rewrite toks_bytes_app, toks_bytes_one; cbn [tok_bytes]; zl).
  replace outlen with (zlen (toks_bytes (ts ++ [Lit (pend ++ [b])]) ++ F))
    by (rewrite <- Hlen, EO, zlen_app, Ez; zl).
  replace (op s + 1 + 1) with (zlen (toks_bytes (ts ++ [Lit (pend ++ [b])])) + 1) by lia.
  apply start_run; [by apply toks_ok_snoc; split; [apply I|]|by rewrite expand_snoc|lia|apply I|].
  rewrite expand_snoc, (zlen_tok_out _ _ Htok), Ez. zl.
Qed.

Lemma put_literal_spec x outlen s ts pend :
  cinv x outlen s ts pend -> op s < outlen -> ip s < zlen x ->
  exists s' ts' pend', put_literal x s = Some s' /\ cinv x outlen s' ts' pend' /\ ip s' = ip s + 1 /\
    (if lit s + 1 =? 32 then lit s' = 0 /\ op s' = op s + 2 else lit s' = lit s + 1 /\ op s' = op s + 1).
Proof.
  intros I Hop Hip. pose proof (inv_ip _ _ _ _ _ I). pose proof (inv_op _ _ _ _ _ I) as Eop.
  pose proof (inv_lit _ _ _ _ _ I) as Elit. pose proof (inv_full _ _ _ _ _ I) as Hfull.
  destruct (inv_open _ _ _ _ _ I) as (h & F & EO & HF); [lia|].
  destruct F as [|f F]; [change (zlen (@nil Z)) with 0 in HF; lia|].
  destruct (zidx_is_Some x (ip s)) as [b Hb]; [lia|]. unfold put_literal. rewrite Hb, EO. cbn [mbind option_bind].
  assert (wr (toks_bytes ts ++ h :: pend ++ f :: F) (op s) [b] = Some (toks_bytes ts ++ h :: (pend ++ [b]) ++ F)) as ->.
  { pose proof (wr_app (toks_bytes ts ++ h :: pend) [f] [b] F (op s) ltac:(zl) eq_refl) as E.
    rewrite <- !app_assoc in E. cbn [app] in E. by rewrite <- app_assoc. }
  cbn [mbind option_bind].
  assert (expand [] ts ++ pend ++ [b] = take (Z.to_nat (ip s + 1)) x) as Htext.
  { unfold zidx in Hb. rewrite (proj2 (Z.leb_le _ _)) in Hb by lia.
    rewrite app_assoc, (inv_text _ _ _ _ _ I), <- (take_S_r _ _ _ Hb). f_equal. lia. }
  pose proof (zlen_nonneg pend). change MAX_LIT with 32. destruct (Z.eqb_spec (lit s + 1) 32) as [E32|Hne].
  - destruct (fill_run x outlen s ts pend h f F b) as (out' & -> & I'); [done..|]. cbn [mbind option_bind].
    eexists _, _, _. split; [reflexivity|]. split; [exact I'|]. split; [done|cbn; lia].
  - eexists _, _, _. split; [reflexivity|]. split; [eapply grow_run; (done || lia)|]. done.
Qed.

Definition notlit (lit : Z) : Z := if lit =? 0 then 1 else 0.

(** The end of a run: an empty one is undone. *)
Lemma close_run x outlen s ts pend :
  cinv x outlen s ts pend -> op s <= outlen ->
  exists ts' R, stop_run (out s) (op s) (lit s) = Some (toks_bytes ts' ++ R) /\
    zlen (toks_bytes ts') = op s - notlit (lit s) /\ zlen R = outlen - (op s - notlit (lit s)) /\
    toks_ok [] ts' /\ expand [] ts' = take (Z.to_nat (ip s)) x /\
    32 * zlen (toks_bytes ts') <= 33 * zlen (expand [] ts') + 32.
Proof.
  intros I Ho. destruct (inv_open _ _ _ _ _ I Ho) as (h & F & EO & HF). rewrite EO.
  pose proof (inv_lit _ _ _ _ _ I) as Elit. pose proof (inv_full _ _ _ _ _ I). pose proof (inv_op _ _ _ _ _ I) as Eop.
  pose proof (inv_text _ _ _ _ _ I) as Ht. pose proof (inv_cost _ _ _ _ _ I).
  unfold stop_run. replace (op s - lit s - 1) with (zlen (toks_bytes ts)) by lia.
  change (toks_bytes ts ++ h :: pend ++ F) with (toks_bytes ts ++ [h] ++ pend ++ F). rewrite wr_app by done.
  unfold notlit. destruct pend as [|p pend].
  - change (zlen (@nil Z)) with 0 in Elit. rewrite <- Elit in *. cbn [Z.eqb].
    exists ts, ([wrapu 8 (0 - 1)] ++ F). rewrite app_nil_r in Ht. split_and!; [done|lia|zl|apply I|done|lia].
  - rewrite zlen_cons in Elit. pose proof (zlen_nonneg pend). rewrite (proj2 (Z.eqb_neq _ 0)) by lia.
    assert (tok_ok (expand [] ts) (Lit (p :: pend))) as Htok by (cbn [tok_ok]; zl).
    exists (ts ++ [Lit (p :: pend)]), F. rewrite toks_bytes_app, toks_bytes_one, expand_snoc, zlen_tok_out by done.
    cbn [tok_bytes]. split_and!; [|zl|zl|by apply toks_ok_snoc; split; [apply I|]|done|zl].
    rewrite <- app_assoc. cbn [app]. rewrite wrapu_small by (unfold in_u; lia). do 3 f_equal. zl.
Qed.

Lemma put_ref_spec P R off n :
  0 <= off < 8192 -> 3 <= n <= 264 -> 3 <= zlen R ->
  exists R', put_ref (P ++ R) (zlen P) off (n - 2) =
      Some (P ++ tok_bytes (Ref off n) ++ R', zlen P + zlen (tok_bytes (Ref off n))) /\
    zlen R' = zlen R - zlen (tok_bytes (Ref off n)).
Proof.
  intros Ho Hn HR. destruct R as [|a [|b [|c R]]]; rewrite ?zlen_cons in HR; change (zlen (@nil Z)) with 0 in HR; try lia.
  assert (0 <= off / 256 < 32) by (split; [apply Z.div_pos|apply Z.div_lt_upper_bound]; lia).
  unfold put_ref. cbn [tok_bytes]. rewrite Z.shiftr_div_pow2, !Z.shiftl_mul_pow2 by lia.
  change (2 ^ 8) with 256. change (7 * 2 ^ 5) with 224. change (2 ^ 5) with 32.
  destruct (Z.ltb_spec (n - 2) 7).
  - exists (c :: R). split; [|zl].
    rewrite (wr_app P [a] [_] (b :: c :: R)) by done. cbn [mbind option_bind].
    rewrite (app_assoc P), (wr_app (P ++ [_]) [b] [_] (c :: R)) by (done || zl). cbn [mbind option_bind].
    rewrite (wrapu_small 8 (off / 256 + _)) by (unfold in_u; lia). rewrite <- app_assoc. do 2 f_equal. zl.
  - exists R. split; [|zl].
    rewrite (wr_app P [a] [_] (b :: c :: R)) by done. cbn [mbind option_bind].
    rewrite (app_assoc P), (wr_app (P ++ [_]) [b] [_] (c :: R)) by (done || zl). cbn [mbind option_bind].
    rewrite (app_assoc (P ++ [_])), (wr_app ((P ++ [_]) ++ [_]) [c] [_] R) by (done || zl). cbn [mbind option_bind].
    rewrite (wrapu_small 8 (off / 256 + _)), (wrapu_small 8 (n - 2 - 7)) by (unfold in_u; lia).
    rewrite <- !app_assoc. do 2 f_equal. zl.
Qed.

(** Adding the back reference to the tokens. *)
Lemma ref_token x ts ip ref n :
  toks_ok [] ts -> expand [] ts = take (Z.to_nat ip) x -> 0 < ref < ip -> ip - ref - 1 < 8192 ->
  3 <= n <= 264 -> ip + n <= zlen x -> same x ref ip n ->
  toks_ok [] (ts ++ [Ref (ip - ref - 1) n]) /\ expand [] (ts ++ [Ref (ip - ref - 1) n]) = take (Z.to_nat (ip + n)) x.
Proof.
  intros Hok Ht Hr Ho Hn Hx Hs.
  assert (zlen (expand [] ts) = ip) as Hl by (rewrite Ht; unfold zlen in *; rewrite length_take; lia).
  split.
  - apply toks_ok_snoc. split; [done|]. cbn [tok_ok]. lia.
  - rewrite expand_snoc. cbn [tok_out]. rewrite Hl, Ht. replace (ip - (ip - ref - 1) - 1) with ref by lia.
    rewrite copy_from_text.
    + f_equal. lia.
    + lia.
    + unfold zlen in *. lia.
    + intros j Hj. specialize (Hs (Z.of_nat j) ltac:(lia)). unfold zidx in Hs.
      rewrite !(proj2 (Z.leb_le 0 _)), !Z2Nat.inj_add, !Nat2Z.id in Hs by lia. done.
Qed.

Lemma ref_cost x ts ip off n :
  toks_ok [] (ts ++ [Ref off n]) -> expand [] (ts ++ [Ref off n]) = take (Z.to_nat (ip + n)) x ->
  expand [] ts = take (Z.to_nat ip) x -> 0 <= ip -> ip + n <= zlen x ->
  32 * zlen (toks_bytes ts) <= 33 * zlen (expand [] ts) + 32 ->
  32 * zlen (toks_bytes (ts ++ [Ref off n])) <= 33 * zlen (expand [] (ts ++ [Ref off n])).
Proof.
  intros [_ Hok]%toks_ok_snoc Ht2 Ht1 Hip Hx Hc. cbn [tok_ok] in Hok. rewrite toks_bytes_app, toks_bytes_one.
  assert (zlen (expand [] ts) = ip) by (rewrite Ht1; unfold zlen in *; rewrite length_take; lia).
  assert (zlen (expand [] (ts ++ [Ref off n])) = ip + n) by (rewrite Ht2; unfold zlen in *; rewrite length_take; lia).
  cbn [tok_bytes]. case_if; zl.
Qed.

(** The two hash slots filled after a match. *)
Lemma rehash x p :
  2 <= p -> p + 1 < zlen x ->
  exists h0 h1 h2, FRST x (p - 1 - 1) = Some h0 /\ NEXT h0 x (p - 1 - 1) = Some h1 /\ NEXT h1 x (p - 1) = Some h2.
Proof.
  intros H1 H2. unfold FRST, NEXT.
  destruct (zidx_is_Some x (p - 1 - 1)) as [a ->]; [lia|].
  destruct (zidx_is_Some x (p - 1 - 1 + 1)) as [b ->]; [lia|].
  destruct (zidx_is_Some x (p - 1 - 1 + 2)) as [c ->]; [lia|].
  destruct (zidx_is_Some x (p - 1 + 2)) as [d ->]; [lia|]. cbn [mbind option_bind]. by eexists _, _, _.
Qed.

Lemma set_slot_range htab i p : (forall i, in_u 32 (htab i)) -> forall j, in_u 32 (set_slot htab i p j).
Proof. intros H j. unfold set_slot. case_if; [apply wrapu_range; lia|done]. Qed.

Lemma step_match_spec x outlen s ts pend ref :
  cinv x outlen s ts pend -> ip s + 3 <= zlen x -> zlen x < 2 ^ 32 ->
  0 < ref < ip s -> ip s - ref - 1 < 8192 -> same x ref (ip s) 3 ->
  exists r, step_match x s ref = Some r /\
    match r with
    | None => outlen <= op s + 4
    | Some (s', brk) => (exists ts' pend', cinv x outlen s' ts' pend') /\ ip s < ip s' /\
                        (brk = true -> zlen x - 2 <= ip s')
    end.
Proof.
  intros I Hx Hmax Hr Ho Hs. unfold step_match. fold (notlit (lit s)). rewrite (inv_len _ _ _ _ _ I), !Z.geb_leb.
  assert (0 <= notlit (lit s) <= 1) as Hnl by (unfold notlit; case_if; lia).
  assert ((outlen <=? op s + 3 + 1) && (outlen <=? op s - notlit (lit s) + 3 + 1) =
    (outlen <=? op s - notlit (lit s) + 3 + 1)) as ->.
  { destruct (Z.leb_spec outlen (op s - notlit (lit s) + 3 + 1)); [|apply andb_false_r].
    by rewrite (proj2 (Z.leb_le _ _)) by lia. }
  destruct (Z.leb_spec outlen (op s - notlit (lit s) + 3 + 1)); [eexists; split; [done|]; cbn; lia|].
  destruct (close_run x outlen s ts pend I ltac:(lia)) as (ts1 & R & -> & Hz & HR & Hok1 & Ht1 & Hc1).
  destruct (match_len_spec x ref (ip s)) as (n & E & Hn & Hxn & Hsame); [lia..|done|]. cbn [mbind option_bind].
  rewrite E. cbn [mbind option_bind]. clear E.
  rewrite (wrapu_small 32), (wrapu_small 64) by (unfold in_u; lia).
  destruct (put_ref_spec (toks_bytes ts1) R (ip s - ref - 1) n) as (R' & E & HR'); [lia..|].
  rewrite <- Hz, E. cbn [mbind option_bind]. clear E.
  destruct (ref_token x ts1 (ip s) ref n) as [Hok2 Ht2]; [done|done|lia..|done|].
  set (ts2 := ts1 ++ [Ref (ip s - ref - 1) n]) in *.
  assert (toks_bytes ts1 ++ tok_bytes (Ref (ip s - ref - 1) n) ++ R' = toks_bytes ts2 ++ R') as ->
    by (unfold ts2; by rewrite toks_bytes_app, toks_bytes_one, <- app_assoc).
  assert (zlen (toks_bytes ts1) + zlen (tok_bytes (Ref (ip s - ref - 1) n)) = zlen (toks_bytes ts2)) as ->
    by (unfold ts2; by rewrite toks_bytes_app, toks_bytes_one, zlen_app).
  replace (ip s + 1 + (n - 2 + 1)) with (ip s + n) by lia.
  assert (forall htab' hval', (forall i, in_u 32 (htab' i)) ->
    cinv x outlen (CState htab' (ip s + n) (zlen (toks_bytes ts2) + 1) hval' 0 (toks_bytes ts2 ++ R')) ts2 []) as I2.
  { intros htab' hval' Hh. replace outlen with (zlen (toks_bytes ts2 ++ R')).
    - apply start_run; [done|done|lia|done|]. eapply (ref_cost x ts1 (ip s)); (done || lia).
    - unfold ts2. rewrite toks_bytes_app, toks_bytes_one. zl. }
  pose proof (inv_htab _ _ _ _ _ I) as Hh.
  rewrite Z.geb_leb. destruct (Z.leb_spec (zlen x - 2) (ip s + n)).
  - eexists. split; [done|]. cbn. split; [exists ts2, []; exact (I2 _ _ Hh)|lia].
  - destruct (rehash x (ip s + n)) as (h0 & h1 & h2 & -> & E1 & E2); [lia..|]. cbn [mbind option_bind].
    rewrite E1. cbn [mbind option_bind]. replace (ip s + n - 1 - 1 + 1) with (ip s + n - 1) by lia. rewrite E2.
    cbn [mbind option_bind]. replace (ip s + n - 1 + 1) with (ip s + n) by lia.
    eexists. split; [done|]. cbn. split; [|split; [lia|done]]. exists ts2, []. apply I2. by do 2 apply set_slot_range.
Qed.

(** The loops. The compressor gives up only in a state with [op] near the end of the output. *)
Lemma loop_spec x outlen fuel : zlen x < 2 ^ 32 -> forall s ts pend,
  cinv x outlen s ts pend -> zlen x - ip s <= Z.of_nat fuel ->
  exists r, compress_loop fuel x s = Some r /\
    match r with
    | None => 32 * outlen <= 33 * zlen x + 160
    | Some s' => (exists ts' pend', cinv x outlen s' ts' pend') /\ zlen x - 2 <= ip s'
    end.
Proof.
  intros Hmax. induction fuel as [|fuel IH]; intros s ts pend I Hf; pose proof (inv_ip _ _ _ _ _ I) as Hip;
    cbn [compress_loop]; (destruct (Z.ltb_spec (ip s) (zlen x - 2)); [|by eexists; split; [done|]; split; [eauto|lia]]);
    [lia|].
  assert (32 * op s <= 33 * zlen x + 32) as Hop.
  { pose proof (inv_cost _ _ _ _ _ I). pose proof (inv_op _ _ _ _ _ I). pose proof (inv_text_len _ _ _ _ _ I).
    pose proof (inv_lit _ _ _ _ _ I). pose proof (zlen_nonneg pend). lia. }
  unfold NEXT. destruct (zidx_is_Some x (ip s + 2)) as [c ->]; [lia|]. cbn [mbind option_bind].
  set (hval' := Z.lor _ c). set (s1 := CState _ _ _ _ _ _).
  assert (cinv x outlen s1 ts pend) as I1.
  { destruct I. constructor; try done. intros i. by apply set_slot_range. }
  destruct (is_match_spec x (ip s1) (htab s (IDX hval'))) as (m & -> & Hm); [cbn; lia..|apply I|]. cbn [mbind option_bind].
  destruct m.
  - destruct (Hm eq_refl) as (Hr & Ho & Hs).
    destruct (step_match_spec x outlen s1 ts pend _ I1 ltac:(cbn; lia) Hmax Hr Ho Hs) as ([[s' brk]|] & -> & Hstep);
      cbn [mbind option_bind]; [|eexists; split; [done|]; cbn in *; lia].
    destruct Hstep as ((ts' & pend' & I') & Hlt & Hbrk). cbn in Hlt. destruct brk.
    + eexists. split; [done|]. split; [eauto|by apply Hbrk].
    + eapply IH; [done|lia].
  - rewrite Z.geb_leb, (inv_len _ _ _ _ _ I1). destruct (Z.leb_spec outlen (op s1)).
    { eexists. split; [done|]. cbn in *. lia. }
    destruct (put_literal_spec x outlen s1 ts pend I1) as (s' & ts' & pend' & -> & I' & E & _); [lia|cbn; lia|].
    cbn [mbind option_bind]. eapply IH; [done|]. cbn in E. lia.
Qed.

(** The last octets, at most one of which fills a run. *)
Lemma flush_spec x outlen fuel : forall s ts pend,
  cinv x outlen s ts pend -> zlen x - ip s <= Z.of_nat fuel -> zlen x - ip s <= 2 ->
  op s + (zlen x - ip s) + (if 32 <=? lit s + (zlen x - ip s) then 1 else 0) <= outlen ->
  exists s' ts' pend', flush_loop fuel x s = Some s' /\ cinv x outlen s' ts' pend' /\ ip s' = zlen x /\ op s' <= outlen.
Proof.
  induction fuel as [|fuel IH]; intros s ts pend I Hf H2 Hop; pose proof (inv_ip _ _ _ _ _ I);
    pose proof (inv_full _ _ _ _ _ I); cbn [flush_loop].
  - rewrite (proj2 (Z.ltb_ge _ _)) by lia. exists s, ts, pend. split_and!; [done|done|lia|]. revert Hop. case_if; lia.
  - destruct (Z.ltb_spec (ip s) (zlen x)).
    + destruct (put_literal_spec x outlen s ts pend I) as (s' & ts' & pend' & -> & I' & Eip & Elit);
        [revert Hop; case_if; lia|done|].
      cbn [mbind option_bind]. eapply IH; [done|lia|lia|]. rewrite Eip.
      revert Hop Elit. destruct (Z.eqb_spec (lit s + 1) 32), (Z.leb_spec 32 (lit s + (zlen x - ip s))),
        (Z.leb_spec 32 (lit s' + (zlen x - (ip s + 1)))); lia.
    + exists s, ts, pend. split_and!; [done|done|lia|]. revert Hop. case_if; lia.
Qed.

(** ** Properties *)

(** The compressed bytes are bytes when the text is. *)
Lemma copy_from_prefix n : forall ref acc, exists e, copy_from n ref acc = acc ++ e.
Proof.
  induction n as [|n IH]; intros ref acc; cbn [copy_from]; [exists []; by rewrite app_nil_r|].
  destruct (acc !! ref); [|exists []; by rewrite app_nil_r]. destruct (IH (S ref) (acc ++ [z])) as [e ->]. eexists. by rewrite <- app_assoc.
Qed.
Lemma tok_out_prefix acc t : exists e, tok_out acc t = acc ++ e.
Proof. destruct t; cbn [tok_out]; [by eexists|apply copy_from_prefix]. Qed.
Lemma expand_prefix ts : forall acc, exists e, expand acc ts = acc ++ e.
Proof.
  induction ts as [|t ts IH]; intros acc; [exists []; by rewrite app_nil_r|]. destruct (tok_out_prefix acc t) as [e Ht].
  destruct (IH (tok_out acc t)) as [e' He]. exists (e ++ e'). change (expand acc (t :: ts)) with (expand (tok_out acc t) ts).
  by rewrite He, Ht, <- app_assoc.
Qed.
Lemma toks_bytes_ok ts : forall acc, toks_ok acc ts -> bytes_ok (expand acc ts) -> bytes_ok (toks_bytes ts).
Proof.
  induction ts as [|t ts IH]; intros acc Hok Hb; [constructor|]. destruct Hok as [Ht Hok].
  change (expand acc (t :: ts)) with (expand (tok_out acc t) ts) in Hb. change (toks_bytes (t :: ts)) with (tok_bytes t ++ toks_bytes ts).
  apply Forall_app. split; [|by apply (IH (tok_out acc t))]. destruct (expand_prefix ts (tok_out acc t)) as [e He].
  rewrite He in Hb. apply Forall_app in Hb as [Hb _]. destruct t as [bs|off n]; cbn [tok_bytes tok_out tok_ok] in *.
  - apply Forall_app in Hb as [_ Hb]. constructor; [unfold byte_ok; lia|done].
  - destruct Ht as (Ho & _ & Hn). pose proof (Z.mod_pos_bound off 256 ltac:(lia)). pose proof (Z.div_lt_upper_bound off 256 32 ltac:(lia) ltac:(lia)).
    pose proof (Z.div_pos off 256 ltac:(lia) ltac:(lia)). case_if; repeat constructor; unfold byte_ok; lia.
Qed.

Lemma lzf_inverse htab0 x out0 buf :
  (forall i, in_u 32 (htab0 i)) -> 2 <= zlen x < 2 ^ 32 -> 0 < zlen out0 < 2 ^ 32 -> zlen buf = zlen x ->
  exists r, lzf_compress htab0 x out0 = Some r /\
    match r with
    | None => 32 * zlen out0 <= 33 * zlen x + 160
    | Some (n, out) => 0 < n <= zlen out0 /\ zlen out = zlen out0 /\
        lzf_decompress (take (Z.to_nat n) out) buf = Some (inr (zlen x, x)) /\
        (bytes_ok x -> bytes_ok (take (Z.to_nat n) out))
    end.
Proof.
  intros Hh Hx Ho Hbuf. unfold lzf_compress. rewrite !(proj2 (Z.eqb_neq _ 0)) by lia. cbn [orb].
  unfold FRST. destruct (zidx_is_Some x 0) as [a ->]; [lia|]. destruct (zidx_is_Some x (0 + 1)) as [b ->]; [lia|].
  cbn [mbind option_bind].
  pose proof (start_run x [] out0 htab0 0 (Z.lor (Z.shiftl a 8) b) I eq_refl ltac:(lia) Hh ltac:(done)
    : cinv x (zlen out0) (CState htab0 0 1 _ 0 out0) [] []) as I0.
  destruct (loop_spec x (zlen out0) (length x) ltac:(lia) _ _ _ I0) as (r & -> & Hr); [cbn; unfold zlen; lia|].
  cbn [mbind option_bind]. destruct r as [s|]; [|by eexists]. destruct Hr as ((ts & pend & I1) & Hip).
  rewrite Z.gtb_ltb, (inv_len _ _ _ _ _ I1). pose proof (inv_ip _ _ _ _ _ I1). destruct (Z.ltb_spec (zlen out0) (op s + 3)).
  { eexists. split; [done|]. cbn beta iota. pose proof (inv_cost _ _ _ _ _ I1). pose proof (inv_op _ _ _ _ _ I1).
    pose proof (inv_text_len _ _ _ _ _ I1). pose proof (inv_lit _ _ _ _ _ I1). pose proof (zlen_nonneg pend). lia. }
  destruct (flush_spec x (zlen out0) 2 s ts pend I1) as (s2 & ts2 & pend2 & -> & I2 & Eip & Hop);
    [lia|lia|case_if; lia|]. cbn [mbind option_bind].
  destruct (close_run x (zlen out0) s2 ts2 pend2 I2 Hop) as (ts3 & R & -> & Hz & HR & Hok & Ht & Hc).
  cbn [mbind option_bind]. fold (notlit (lit s2)). rewrite <- Hz. rewrite Eip in Ht. unfold zlen in Ht. rewrite Nat2Z.id, take_ge in Ht by lia.
  assert (0 < zlen (toks_bytes ts3)) as Hpos.
  { destruct ts3 as [|t ts3]; [cbn in Ht; subst x; unfold zlen in Hx; cbn in Hx; lia|]. destruct Hok as [Ht1 _].
    pose proof (zlen_tok_bytes _ _ Ht1). pose proof (zlen_nonneg (toks_bytes ts3)).
    change (toks_bytes (t :: ts3)) with (tok_bytes t ++ toks_bytes ts3). zl. }
  pose proof (zlen_nonneg R). rewrite wrapu_small by (unfold in_u; lia).
  eexists. split; [done|]. cbn beta iota. split; [lia|]. split; [zl|].
  rewrite take_zlen_app by done. split; [|intros Hbx; apply (toks_bytes_ok ts3 []); [done|by rewrite Ht]].
  rewrite <- Hbuf, <- Ht at 1. apply decompress_expand; [|done|congruence|lia].
  intros ->. done.
Qed.

(** C21 What [lzf_compress] returns, [lzf_decompress] restores: for every input of at least
    two bytes, every output buffer and whatever the table of the compressor, which is
    not initialised, contains, the compressor stays inside its buffers; when it returns a size,
    decompressing that many bytes into a buffer of the length of the input gives
    the input; and it does return one when the output has room for 33 bytes per 32 bytes of
    input and six more. *)
Theorem lzf_roundtrip htab0 x out0 buf :
  (forall i, in_u 32 (htab0 i)) -> 2 <= zlen x < 2 ^ 32 -> 0 < zlen out0 < 2 ^ 32 -> zlen buf = zlen x ->
  exists r, lzf_compress htab0 x out0 = Some r /\
    match r with
    | None => 32 * zlen out0 <= 33 * zlen x + 160
    | Some (n, out) => 0 < n <= zlen out0 /\ zlen out = zlen out0 /\
        lzf_decompress (take (Z.to_nat n) out) buf = Some (inr (zlen x, x))
    end.
Proof.
  intros Hh Hx Ho Hbuf. destruct (lzf_inverse htab0 x out0 buf Hh Hx Ho Hbuf) as (r & E & Hr). exists r. split; [done|].
  destruct r as [[n out]|]; [|done]. destruct Hr as (Hn & Hl & Hd & _). done.
Qed.

(** C22 [lzf_decompress] is safe on any input: for every non-empty sequence of bytes, valid or
    not, and every output buffer, it ends, reads only the input and writes only inside the
    output, whose bytes it returns with a size or an error. *)
Theorem lzf_decompress_safe inp buf :
  bytes_ok inp -> 0 < zlen inp ->
  exists r, lzf_decompress inp buf = Some r /\
    match r with inl _ => True | inr (n, out) => in_u 32 n /\ zlen out = zlen buf end.
Proof.
  intros Hok Hlen. apply loop_safe; [done|lia|pose proof (zlen_nonneg buf); lia|unfold zlen; lia].
Qed.

(** [lzf_compress] reads two bytes before it tests the length of the input, so it reads
    outside of an input of one byte. *)
Theorem lzf_compress_one_byte htab0 b out0 : 0 < zlen out0 -> lzf_compress htab0 [b] out0 = None.
Proof.
  intros Ho. unfold lzf_compress. rewrite !(proj2 (Z.eqb_neq _ 0)) by (zl; lia). done.
Qed.

Module Applied.

(** A text with a period of three octets. *)
Definition text : list Z := [114; 101; 100; 105; 115] ++ concat (replicate 20 [97; 98; 99]) ++ [33].

(** The table of the compressor holds arbitrary numbers. *)
Lemma lzf_roundtrip_witness :
  exists r, lzf_compress (fun i => wrapu 32 (i * 77)) text (replicate 80 0) = Some r /\
    match r with
    | None => False
    | Some (n, out) => n = 15 /\ lzf_decompress (take (Z.to_nat n) out) (replicate 66 7) = Some (inr (66, text))
    end.
Proof.
  destruct (lzf_roundtrip (fun i => wrapu 32 (i * 77)) text (replicate 80 0) (replicate 66 7)) as (r & E & H).
  - intros i. apply wrapu_range. lia.
  - vm_compute. split; congruence.
  - vm_compute. split; congruence.
  - reflexivity.
  - exists r. split; [exact E|]. destruct r as [[n out]|].
    + split; [|exact (proj2 (proj2 H))]. vm_compute in E. injection E as <- _. reflexivity.
    + vm_compute in E. discriminate E.
Defined.

(** A back reference to before the start of the output. *)
Lemma lzf_decompress_safe_witness :
  lzf_decompress [0; 65; 32; 9] (replicate 10 0) = Some (inl EINVAL) /\
  exists r, lzf_decompress [0; 65; 32; 9] (replicate 10 0) = Some r /\
    match r with inl _ => True | inr (n, out) => in_u 32 n /\ zlen out = zlen (replicate 10 0) end.
Proof.
  split; [reflexivity|]. apply (lzf_decompress_safe [0; 65; 32; 9] (replicate 10 0)).
  - repeat constructor; unfold byte_ok; lia.
  - vm_compute. reflexivity.
Defined.

End Applied.
