(* ===== verification/Data.v ===== *)
(** * The data of the values that are not strings (server.h, server.c)

    What the pointer of an object refers to when its type is a set or a hash: the blob of an
    integer set, the bytes of a ziplist, or a dictionary of the type [setDictType] or
    [hashDictType]. The data of the other types is opaque. The functions of these dictionary
    types hash a key with the seed of the process and compare the bytes. *)

From S2P Require Import Prelude Endian Intset Sds Dict DictMap Siphash.

#[global] Instance dictht_eq_dec {K V} `{EqDecision K} `{EqDecision V} : EqDecision (dictht K V).
Proof. solve_decision. Defined.
#[global] Instance dict_eq_dec {K V} `{EqDecision K} `{EqDecision V} : EqDecision (dict K V).
Proof. solve_decision. Defined.
#[global] Instance intset_eq_dec : EqDecision intset.
Proof. solve_decision. Defined.

Inductive data : Type :=
| DIntset (is_ : intset)
| DSet (d : dict sds unit)
| DZiplist (zl : list Z)
| DHash (d : dict sds sds)
| DOther (n : Z).

#[global] Instance data_eq_dec : EqDecision data.
Proof. solve_decision. Defined.

(** The code stores the two lengths in an [int]; the strings of the key space are shorter than 512 MB. *)
Definition dictSdsKeyCompare (key1 key2 : sds) : bool :=
  let l1 := zlen key1 in
  let l2 := zlen key2 in
  if negb (l1 =? l2) then false else memcmp (Z.to_nat l1) key1 key2 =? 0.

Definition dictSdsHash `{Host} (seed : list Z) (key : sds) : Z := dictGenHashFunction seed key.

(** What the data structures need of the process: the byte order, the seed of the hash function, whether
    tables may be resized ([dict_can_resize]), what new memory holds, and the addresses of tables, which only
    fingerprints of iterators read. *)
Record env := Env {
  env_big_endian : bool;
  hash_seed : list Z;
  can_resize : bool;
  new_bytes : nat -> Z;
  table_addr : Z * Z;
}.

#[global] Instance env_host (E : env) : Host := env_big_endian E.

Definition setDictType (E : env) : dictType sds unit := {|
  hashFunction := @dictSdsHash (env_host E) (hash_seed E);
  keyDup := None;
  valDup := None;
  keyCompare := Some dictSdsKeyCompare;
  keyDestructor := true;
  valDestructor := false;
|}.

Definition hashDictType (E : env) : dictType sds sds := {|
  hashFunction := @dictSdsHash (env_host E) (hash_seed E);
  keyDup := None;
  valDup := None;
  keyCompare := Some dictSdsKeyCompare;
  keyDestructor := true;
  valDestructor := true;
|}.

(** [htNeedsResize]; the product is a [long long]. *)
Definition HASHTABLE_MIN_FILL : Z := 10.
Definition htNeedsResize {K V} (d : dict K V) : bool :=
  let size := wraps 64 (dictSlots d) in
  let used := wraps 64 (dictSize d) in
  (size >? DICT_HT_INITIAL_SIZE) && (Z.quot (wraps 64 (used * 100)) size <? HASHTABLE_MIN_FILL).

(** ** The dictionary types are lawful *)

Lemma memcmp_zero a : forall b n, length a = n -> length b = n -> memcmp n a b = 0 <-> a = b.
Proof.
  induction a as [|x a IH]; intros [|y b] [|n] Ha Hb; cbn in *; try done; try lia.
  destruct (Z.eqb_spec x y) as [->|Hne].
  - rewrite (IH b n) by lia. split; [by intros ->|by intros [= ->]].
  - split; [lia|]. by intros [= -> _].
Qed.

Lemma dictSdsKeyCompare_eq key1 key2 : dictSdsKeyCompare key1 key2 = true <-> key1 = key2.
Proof.
  unfold dictSdsKeyCompare. destruct (Z.eqb_spec (zlen key1) (zlen key2)) as [E|Hne]; cbn [negb].
  - rewrite Z.eqb_eq. apply memcmp_zero; unfold zlen in *; lia.
  - split; [done|]. by intros ->.
Qed.

Lemma dictSdsHash_range `{Host} seed key : in_u 64 (dictSdsHash seed key).
Proof. unfold dictSdsHash, dictGenHashFunction. apply siphash_range. Qed.

Section laws.
Variable E : env.
#[local] Existing Instance setDictType.
#[local] Existing Instance hashDictType.

Lemma same_key_set (k1 k2 : sds) : same_key (T := setDictType E) k1 k2 = true <-> k1 = k2.
Proof. unfold same_key. cbn. rewrite orb_true_iff, bool_decide_eq_true, dictSdsKeyCompare_eq. tauto. Qed.
Lemma same_key_hash_type (k1 k2 : sds) : same_key (T := hashDictType E) k1 k2 = true <-> k1 = k2.
Proof. unfold same_key. cbn. rewrite orb_true_iff, bool_decide_eq_true, dictSdsKeyCompare_eq. tauto. Qed.

#[global] Instance setDictLaws : DictLaws sds unit (T := setDictType E).
Proof.
  split.
  - intros k. exact (@dictSdsHash_range (env_host E) (hash_seed E) k).
  - by intros k1 k2 ->%same_key_set; apply same_key_set.
  - by intros k1 k2 k3 ->%same_key_set.
  - by intros k1 k2 ->%same_key_set.
  - intros k. by apply same_key_set.
Qed.
#[global] Instance hashDictLaws : DictLaws sds sds (T := hashDictType E).
Proof.
  split.
  - intros k. exact (@dictSdsHash_range (env_host E) (hash_seed E) k).
  - by intros k1 k2 ->%same_key_hash_type; apply same_key_hash_type.
  - by intros k1 k2 k3 ->%same_key_hash_type.
  - by intros k1 k2 ->%same_key_hash_type.
  - intros k. by apply same_key_hash_type.
Qed.

#[global] Instance setPlain : PlainDict sds unit (T := setDictType E).
Proof. split; [apply same_key_set|done|done]. Qed.
#[global] Instance hashPlain : PlainDict sds sds (T := hashDictType E).
Proof. split; [apply same_key_hash_type|done|done]. Qed.
End laws.
