(* ===== verification/State.v ===== *)
(** * State-passing computations

    The functions of the server read and write a shared state and may stop the
    process: an assertion or a panic fails, a read through a dangling pointer or an
    arithmetic overflow of a signed type is undefined. Such a function is a [ST S A]:
    from a state, the result and the next state, or [None]. A theorem that it
    returns [Some] therefore excludes all of these. *)

From S2P Require Import Prelude.

Definition ST (S A : Type) : Type := S -> option (A * S).

#[global] Instance ST_ret S : MRet (ST S) := fun A a s => Some (a, s).
#[global] Instance ST_bind S : MBind (ST S) := fun A B f m s =>
  match m s with Some (a, s') => f a s' | None => None end.

Definition get {S} : ST S S := fun s => Some (s, s).
Definition gets {S A} (f : S -> A) : ST S A := fun s => Some (f s, s).
Definition modify {S} (f : S -> S) : ST S unit := fun s => Some (tt, f s).
Definition fail {S A} : ST S A := fun _ => None.
Definition assert_that {S} (b : bool) : ST S unit := if b then mret tt else fail.

(** A partial pure computation. *)
Definition lift {S A} (o : option A) : ST S A :=
  match o with Some a => mret a | None => fail end.

(** Runs a computation on a part of the state. *)
Definition zoom {S T A} (proj : S -> T) (upd : T -> S -> S) (m : ST T A) : ST S A := fun s =>
  match m (proj s) with Some (a, t) => Some (a, upd t s) | None => None end.

(** Runs [f] on the elements of a list, in order. *)
Fixpoint for_each {S A} (f : A -> ST S unit) (l : list A) : ST S unit :=
  match l with
  | [] => mret tt
  | a :: l => _ ← f a; for_each f l
  end.

Lemma bind_run {S A B} (m : ST S A) (f : A -> ST S B) s a s' :
  m s = Some (a, s') -> (m ≫= f) s = f a s'.
Proof. unfold mbind, ST_bind. by intros ->. Qed.

Lemma bind_inv {S A B} (m : ST S A) (f : A -> ST S B) s b s' :
  (m ≫= f) s = Some (b, s') -> exists a s1, m s = Some (a, s1) /\ f a s1 = Some (b, s').
Proof. unfold mbind, ST_bind. destruct (m s) as [[a s1]|]; [|done]. intros H. by exists a, s1. Qed.

Lemma bind_none {S A B} (m : ST S A) (f : A -> ST S B) s : m s = None -> (m ≫= f) s = None.
Proof. unfold mbind, ST_bind. by intros ->. Qed.

Lemma bind_assoc_run {S A B C} (m : ST S A) (f : A -> ST S B) (g : B -> ST S C) s :
  ((m ≫= f) ≫= g) s = (m ≫= (fun a => f a ≫= g)) s.
Proof. unfold mbind, ST_bind. by destruct (m s) as [[a s']|]. Qed.

Lemma ret_run {S A} (a : A) (s : S) : (mret a : ST S A) s = Some (a, s).
Proof. done. Qed.
Lemma get_run {S} (s : S) : get s = Some (s, s).
Proof. done. Qed.
Lemma gets_run {S A} (f : S -> A) s : gets f s = Some (f s, s).
Proof. done. Qed.
Lemma modify_run {S} (f : S -> S) s : modify f s = Some (tt, f s).
Proof. done. Qed.
Lemma assert_run {S} (b : bool) (s : S) : b = true -> assert_that b s = Some (tt, s).
Proof. by intros ->. Qed.
Lemma lift_run {S A} (o : option A) a (s : S) : o = Some a -> lift o s = Some (a, s).
Proof. by intros ->. Qed.
Lemma zoom_run {S T A} (proj : S -> T) upd (m : ST T A) s a t :
  m (proj s) = Some (a, t) -> zoom proj upd m s = Some (a, upd t s).
Proof. unfold zoom. by intros ->. Qed.

(** [run_as H] runs the first step of a sequence with the equation [H]. *)
Tactic Notation "run_as" uconstr(H) := erewrite bind_run by (apply H; try done).
(** [run] runs the primitive steps at the head of a sequence. *)
Ltac run :=
  repeat first
    [ erewrite bind_run by (first
        [ apply ret_run | apply get_run | apply gets_run | apply modify_run
        | apply assert_run; done | apply lift_run; done ])
    | progress cbv beta iota zeta ].
