(* ===== verification/Rio.v ===== *)
(** * Streams (rio.h, rio.c)

    A stream has a backend with a method that reads and one that writes, and keeps the checksum of the
    bytes that passed and their number. The methods are a class [Backend]; the buffer in memory,
    which DUMP and RESTORE use, is an instance. What the readers of a stream rely on is the class
    [Source]: a read of available bytes returns them, a read of more fails. Files and sockets are
    backends of the operating system and have no instance here. *)

From S2P Require Import Prelude Sds Crc State.

(** [read] returns the bytes it stored in its argument, or [None] for the return value 0; a method is
    [None] where it is undefined. *)
Class Backend (B : Type) := {
  read : B -> Z -> option (option (list Z) * B);
  write : B -> list Z -> option (bool * B);
}.

Record rio (B : Type) := Rio {
  update_cksum : bool;
  cksum : Z;
  processed_bytes : Z;
  max_processing_chunk : Z;
  io : B;
}.
#[global] Arguments Rio {B} _ _ _ _ _.
#[global] Arguments update_cksum {B} _.
#[global] Arguments cksum {B} _.
#[global] Arguments processed_bytes {B} _.
#[global] Arguments max_processing_chunk {B} _.
#[global] Arguments io {B} _.

Section rio.
Context {B : Type} `{!Backend B}.

Definition rioGenericUpdateChecksum (r : rio B) (buf : list Z) : option (rio B) :=
  c ← crc64 (cksum r) buf;
  Some (Rio (update_cksum r) c (processed_bytes r) (max_processing_chunk r) (io r)).

(** [if (r->update_cksum) r->update_cksum(r,buf,len)]; the method is [rioGenericUpdateChecksum] or [NULL]. *)
Definition checksum (r : rio B) (buf : list Z) : option (rio B) :=
  if update_cksum r then rioGenericUpdateChecksum r buf else Some r.

Definition set_io (io : B) (r : rio B) : rio B :=
  Rio (update_cksum r) (cksum r) (processed_bytes r) (max_processing_chunk r) io.
Definition processed (n : Z) (r : rio B) : rio B :=
  Rio (update_cksum r) (cksum r) (wrapu 64 (processed_bytes r + n)) (max_processing_chunk r) (io r).

(** The size of the next piece. *)
Definition piece (r : rio B) (len : Z) : Z :=
  if negb (max_processing_chunk r =? 0) && (max_processing_chunk r <? len) then max_processing_chunk r else len.

(** [while (len)]; each iteration writes at least one byte. *)
Fixpoint rioWrite_loop (fuel : nat) (r : rio B) (buf : list Z) : option (bool * rio B) :=
  match buf with
  | [] => Some (true, r)
  | _ =>
      match fuel with
      | O => None
      | S fuel =>
          let bytes_to_write := piece r (zlen buf) in
          let p := take (Z.to_nat bytes_to_write) buf in
          r ← checksum r p;
          '(ok, b) ← write (io r) p;
          let r := set_io b r in
          if negb ok then Some (false, r)
          else rioWrite_loop fuel (processed bytes_to_write r) (drop (Z.to_nat bytes_to_write) buf)
      end
  end.
Definition rioWrite (r : rio B) (buf : list Z) : option (bool * rio B) := rioWrite_loop (length buf) r buf.

(** The bytes that were read, or [None] for the return value 0. *)
Fixpoint rioRead_loop (fuel : nat) (r : rio B) (len : Z) (buf : list Z) : option (option (list Z) * rio B) :=
  if len =? 0 then Some (Some buf, r)
  else
    match fuel with
    | O => None
    | S fuel =>
        let bytes_to_read := piece r len in
        '(p, b) ← read (io r) bytes_to_read;
        let r := set_io b r in
        match p with
        | None => Some (None, r)
        | Some p =>
            r ← checksum r p;
            rioRead_loop fuel (processed bytes_to_read r) (len - bytes_to_read) (buf ++ p)
        end
    end.
Definition rioRead (len : Z) : ST (rio B) (option (list Z)) := fun r => rioRead_loop (Z.to_nat len) r len [].
End rio.

(** ** The buffer *)

Record rioBuffer := RioBuffer { b_ptr : sds; b_pos : Z }.

Definition rioBufferWrite (r : rioBuffer) (buf : list Z) : option (bool * rioBuffer) :=
  Some (true, RioBuffer (b_ptr r ++ buf) (b_pos r + zlen buf)).

(** The subtraction is one of [size_t]. *)
Definition rioBufferRead (r : rioBuffer) (len : Z) : option (option (list Z) * rioBuffer) :=
  if wrapu 64 (zlen (b_ptr r) - b_pos r) <? len then Some (None, r)
  else
    buf ← rd (b_ptr r) (b_pos r) len;
    Some (Some buf, RioBuffer (b_ptr r) (b_pos r + len)).

#[global] Instance rioBufferIO : Backend rioBuffer := {| read := rioBufferRead; write := rioBufferWrite |}.

Definition rioInitWithBuffer (s : sds) : rio rioBuffer := Rio false 0 0 0 (RioBuffer s 0).

(** ** Reading *)

Class Source (B : Type) `{!Backend B} := {
  holds : B -> list Z -> Prop;
  read_ok b x y : holds b (x ++ y) -> x <> [] -> exists b', read b (zlen x) = Some (Some x, b') /\ holds b' y;
  read_short b y n : holds b y -> zlen y < n -> exists b', read b n = Some (None, b');
}.

Lemma piece_range {B} (r : rio B) len : 0 <= max_processing_chunk r -> 0 < len -> 0 < piece r len <= len.
Proof.
  intros Hm Hl. unfold piece. destruct (Z.eqb_spec (max_processing_chunk r) 0); cbn [negb andb]; [lia|].
  destruct (Z.ltb_spec (max_processing_chunk r) len); lia.
Qed.

Lemma crc64_app x : forall c y, crc64 c (x ++ y) = c' ← crc64 c x; crc64 c' y.
Proof.
  induction x as [|b x IH]; intros c y; [done|]. cbn [crc64 app]. destruct (zidx crc64_tab _); cbn [mbind option_bind]; [apply IH|done].
Qed.

Section source.
Context {B : Type} `{Source B}.

(** The stream [r'] is [r] after the bytes [x] passed. *)
Record passed (r : rio B) (x : list Z) (r' : rio B) : Prop := Passed {
  pa_update : update_cksum r' = update_cksum r;
  pa_chunk : max_processing_chunk r' = max_processing_chunk r;
  pa_cksum : (if update_cksum r then crc64 (cksum r) x else Some (cksum r)) = Some (cksum r');
  pa_count : processed_bytes r' = wrapu 64 (processed_bytes r + zlen x);
}.

(** What is needed of the stream: its count and checksum are 64-bit numbers. *)
Record rio_ok (r : rio B) : Prop := RioOk {
  ro_cksum : in_u 64 (cksum r);
  ro_count : in_u 64 (processed_bytes r);
  ro_chunk : 0 <= max_processing_chunk r;
}.

Lemma checksum_spec r p : rio_ok r -> bytes_ok p -> exists r', checksum r p = Some r' /\ rio_ok r' /\ io r' = io r /\
  update_cksum r' = update_cksum r /\ max_processing_chunk r' = max_processing_chunk r /\ processed_bytes r' = processed_bytes r /\
  (if update_cksum r then crc64 (cksum r) p else Some (cksum r)) = Some (cksum r').
Proof.
  intros [Hc Hn Hm] Hp. unfold checksum, rioGenericUpdateChecksum. destruct (update_cksum r) eqn:Eu; [|by exists r].
  destruct (crc64_spec p (cksum r) Hp Hc) as [-> Hr]. cbn [mbind option_bind]. eexists. split; [done|]. by split_and!.
Qed.

Lemma passed_trans r x r1 y r2 : passed r x r1 -> passed r1 y r2 -> passed r (x ++ y) r2.
Proof.
  intros [U1 M1 C1 P1] [U2 M2 C2 P2]. split; [congruence|congruence| |].
  - rewrite U1 in C2. destruct (update_cksum r); [|congruence]. rewrite crc64_app, C1. exact C2.
  - rewrite P2, P1. unfold wrapu. rewrite Z.add_mod_idemp_l by done. f_equal. rewrite zlen_app. lia.
Qed.

Lemma passed_nil r : rio_ok r -> passed r [] r.
Proof.
  intros [Hc Hn Hm]. split; try done; [by destruct (update_cksum r)|]. rewrite zlen_nil, Z.add_0_r. by rewrite wrapu_small.
Qed.

(** [r] holds the bytes [l]. *)
Definition ready (r : rio B) (l : list Z) : Prop := rio_ok r /\ holds (io r) l.

Lemma rioRead_loop_ok fuel : forall r x y buf, ready r (x ++ y) -> bytes_ok x -> (length x <= fuel)%nat ->
  exists r', rioRead_loop fuel r (zlen x) buf = Some (Some (buf ++ x), r') /\ ready r' y /\ passed r x r'.
Proof.
  induction fuel as [|fuel IH]; intros r x y buf [Hr Hh] Hx Hf.
  - destruct x; [|cbn in Hf; lia]. exists r. cbn [rioRead_loop]. rewrite zlen_nil, app_nil_r. split; [done|]. split; [by split|].
    by apply passed_nil.
  - cbn [rioRead_loop]. destruct (Z.eqb_spec (zlen x) 0) as [E0|E0].
    { apply zlen_0_inv in E0 as ->. exists r. rewrite app_nil_r. split; [done|]. split; [by split|]. by apply passed_nil. }
    pose proof (zlen_nonneg x). destruct (piece_range r (zlen x)) as [Hp1 Hp2]; [apply Hr|lia|].
    set (n := piece r (zlen x)) in *. destruct (split_at x n ltac:(lia)) as (a & b & -> & Ha).
    rewrite <- (app_assoc a b y) in Hh. destruct (read_ok (io r) a (b ++ y) Hh) as (io1 & E1 & H1).
    { intros ->. rewrite zlen_nil in Ha. lia. }
    rewrite Ha in E1. rewrite E1. cbn [mbind option_bind].
    apply Forall_app in Hx as [Hxa Hxb].
    destruct (checksum_spec (set_io io1 r) a) as (r1 & -> & O1 & I1 & U1 & M1 & P1 & C1); [destruct Hr; by split|done|].
    cbn [mbind option_bind]. rewrite zlen_app, Ha. replace (n + zlen b - n) with (zlen b) by lia.
    destruct (IH (processed n r1) b y (buf ++ a)) as (r2 & -> & R2 & P2).
    + split; [|cbn; rewrite I1; exact H1]. destruct O1 as [O1 O2 O3]. split; [done| |done]. cbn. apply wrapu_range. lia.
    + done.
    + rewrite length_app in Hf. unfold zlen in Ha. lia.
    + exists r2. rewrite app_assoc. split; [done|]. split; [done|]. apply (passed_trans r a (processed n r1) b); [|done].
      split; [done|done|done|]. cbn. rewrite P1, Ha. done.
Qed.

Lemma rioRead_ok r x y : ready r (x ++ y) -> bytes_ok x -> exists r', rioRead (zlen x) r = Some (Some x, r') /\ ready r' y /\ passed r x r'.
Proof. intros Hr Hx. unfold rioRead. apply (rioRead_loop_ok _ r x y []); [done|done|]. unfold zlen. lia. Qed.
End source.

(** The bytes a buffer holds from its position on. *)
#[global] Program Instance rioBuffer_source : Source rioBuffer := {|
  holds b l := exists x, b_ptr b = x ++ l /\ zlen x = b_pos b /\ zlen (b_ptr b) < 2 ^ 64;
|}.
Next Obligation.
  intros [p n] x y (z & Hz & Hn & Hl) Hx. cbn [b_ptr b_pos] in *. cbn [read rioBufferIO]. unfold rioBufferRead. cbn [b_ptr b_pos].
  subst p n. rewrite !zlen_app in *. pose proof (zlen_nonneg x). pose proof (zlen_nonneg y). pose proof (zlen_nonneg z).
  rewrite wrapu_small by (unfold in_u; lia). rewrite (proj2 (Z.ltb_ge _ _)) by lia. rewrite rd_app by done. cbn [mbind option_bind].
  eexists. split; [done|]. exists (z ++ x). cbn. rewrite app_assoc, !zlen_app. split_and!; [done|done|lia].
Qed.
Next Obligation.
  intros [p k] y n (z & Hz & Hn & Hl) Hy. cbn [b_ptr b_pos] in *. cbn [read rioBufferIO]. unfold rioBufferRead. cbn [b_ptr b_pos].
  subst p k. rewrite zlen_app in *. pose proof (zlen_nonneg y). pose proof (zlen_nonneg z).
  rewrite wrapu_small by (unfold in_u; lia). rewrite (proj2 (Z.ltb_lt _ _)) by lia. by eexists.
Qed.

Lemma init_ready s : zlen s < 2 ^ 64 -> ready (rioInitWithBuffer s) s.
Proof. intros Hs. split; [by split|]. exists []. done. Qed.

(** ** Writing to a buffer *)

Lemma rioWrite_loop_buffer fuel : forall (r : rio rioBuffer) buf, rio_ok r -> bytes_ok buf -> (length buf <= fuel)%nat ->
  exists r', rioWrite_loop fuel r buf = Some (true, r') /\ rio_ok r' /\ passed r buf r' /\
    io r' = RioBuffer (b_ptr (io r) ++ buf) (b_pos (io r) + zlen buf).
Proof.
  induction fuel as [|fuel IH]; intros r buf Hr Hb Hf.
  - destruct buf; [|cbn in Hf; lia]. exists r. rewrite app_nil_r, zlen_nil, Z.add_0_r. split_and!; [done|done|by apply passed_nil|by destruct (io r)].
  - destruct buf as [|b0 buf0] eqn:Eb.
    { exists r. rewrite app_nil_r, zlen_nil, Z.add_0_r. split_and!; [done|done|by apply passed_nil|by destruct (io r)]. }
    cbn [rioWrite_loop]. rewrite <- Eb in *. assert (0 < zlen buf) as H0 by (subst buf; rewrite zlen_cons; pose proof (zlen_nonneg buf0); lia).
    destruct (piece_range r (zlen buf)) as [Hp1 Hp2]; [apply Hr|lia|]. clear Eb b0 buf0.
    set (n := piece r (zlen buf)) in *. destruct (split_at buf n ltac:(lia)) as (a & b & -> & Ha).
    rewrite take_zlen_app, drop_zlen_app by done. apply Forall_app in Hb as [Hba Hbb].
    destruct (checksum_spec r a) as (r1 & -> & O1 & I1 & U1 & M1 & P1 & C1); [done|done|].
    cbn [mbind option_bind write rioBufferIO]. unfold rioBufferWrite. cbn [mbind option_bind negb]. rewrite I1.
    set (b1 := RioBuffer _ _).
    destruct (IH (processed n (set_io b1 r1)) b) as (r2 & -> & O2 & P2 & I2).
    + destruct O1 as [O1 O2 O3]. split; [done| |done]. cbn. apply wrapu_range. lia.
    + done.
    + rewrite length_app in Hf. unfold zlen in Ha. lia.
    + exists r2. split; [done|]. split; [done|]. split.
      * apply (passed_trans r a (processed n (set_io b1 r1)) b); [|done]. split; [done|done|done|]. cbn. rewrite P1, Ha. done.
      * rewrite I2. cbn. by rewrite zlen_app, <- app_assoc, Z.add_assoc.
Qed.

Lemma rioWrite_buffer (r : rio rioBuffer) buf : rio_ok r -> bytes_ok buf ->
  exists r', rioWrite r buf = Some (true, r') /\ rio_ok r' /\ passed r buf r' /\
    io r' = RioBuffer (b_ptr (io r) ++ buf) (b_pos (io r) + zlen buf).
Proof. intros Hr Hb. by apply rioWrite_loop_buffer. Qed.
