(* ===== verification/Object.v ===== *)
(** * Objects and reference counts (object.c)

    A value of the key space is a [robj]: a type, an encoding, the payload its pointer
    refers to and a reference count. Objects live in a heap and are shared by
    reference; the small integers [shared.integers] are preallocated objects that are
    never written. The heap, the dictionary and the expires of the databases are the
    [store]; the dictionaries of all databases are one map from the number of the
    database and the key.

    The invariant [store_ok] is exact reference counting: the count of an object is the
    number of references to it from the databases and from elsewhere. *)

From S2P Require Import Prelude Util Sds Data State.

Inductive otype : Type :=
  OBJ_STRING | OBJ_LIST | OBJ_SET | OBJ_ZSET | OBJ_HASH | OBJ_MODULE | OBJ_STREAM.

Inductive oencoding : Type :=
  OBJ_ENCODING_RAW | OBJ_ENCODING_INT | OBJ_ENCODING_HT | OBJ_ENCODING_ZIPMAP
| OBJ_ENCODING_LINKEDLIST | OBJ_ENCODING_ZIPLIST | OBJ_ENCODING_INTSET | OBJ_ENCODING_SKIPLIST
| OBJ_ENCODING_EMBSTR | OBJ_ENCODING_QUICKLIST | OBJ_ENCODING_STREAM.

#[global] Instance otype_eq_dec : EqDecision otype.
Proof. solve_decision. Defined.
#[global] Instance oencoding_eq_dec : EqDecision oencoding.
Proof. solve_decision. Defined.

(** What [o->ptr] holds: a string, a [long], or the data of another type. *)
Inductive payload : Type := PSds (s : sds) | PLong (v : Z) | PData (d : data).

#[global] Instance payload_eq_dec : EqDecision payload.
Proof. solve_decision. Defined.

Record robj : Type := Robj {
  type : otype;
  encoding : oencoding;
  ptr : payload;
  refcount : Z
}.

#[global] Instance robj_eq_dec : EqDecision robj.
Proof. solve_decision. Defined.

Definition with_ptr (p : payload) (o : robj) : robj := Robj (type o) (encoding o) p (refcount o).
Definition with_encoding (e : oencoding) (o : robj) : robj := Robj (type o) e (ptr o) (refcount o).
Definition with_refcount (n : Z) (o : robj) : robj := Robj (type o) (encoding o) (ptr o) n.

(** The address of an object: a shared integer or a cell of the heap. *)
Inductive oid : Type := Shared (n : Z) | Heap (p : positive).

#[global] Instance oid_eq_dec : EqDecision oid.
Proof. solve_decision. Defined.

Definition OBJ_SHARED_REFCOUNT : Z := 2 ^ 31 - 1.
Definition OBJ_SHARED_INTEGERS : Z := 10000.
Definition OBJ_ENCODING_EMBSTR_SIZE_LIMIT : Z := 44.

Record store : Type := Store {
  objs : gmap positive robj;
  dict : gmap (Z * sds) oid;
  expires : gmap (Z * sds) Z
}.

Definition with_objs (f : gmap positive robj -> gmap positive robj) (s : store) : store :=
  Store (f (objs s)) (dict s) (expires s).
Definition with_dict (f : gmap (Z * sds) oid -> gmap (Z * sds) oid) (s : store) : store :=
  Store (objs s) (f (dict s)) (expires s).
Definition with_expires (f : gmap (Z * sds) Z -> gmap (Z * sds) Z) (s : store) : store :=
  Store (objs s) (dict s) (f (expires s)).

Definition is_shared_integer (n : Z) : bool := (0 <=? n) && (n <? OBJ_SHARED_INTEGERS).

(** The object at an address. *)
Definition obj_at (s : store) (o : oid) : option robj :=
  match o with
  | Shared n => if is_shared_integer n
                then Some (Robj OBJ_STRING OBJ_ENCODING_INT (PLong n) OBJ_SHARED_REFCOUNT) else None
  | Heap p => objs s !! p
  end.

Definition obj (o : oid) : ST store robj := s ← get; lift (obj_at s o).

(** Writes an object; writing a shared integer would corrupt the server. *)
Definition set_obj (o : oid) (r : robj) : ST store unit :=
  match o with
  | Shared _ => fail
  | Heap p => modify (with_objs (insert p r))
  end.

Definition alloc_obj (r : robj) : ST store oid :=
  s ← get;
  let p := fresh (dom (objs s)) in
  _ ← modify (with_objs (insert p r));
  mret (Heap p).

Definition free_obj (o : oid) : ST store unit :=
  match o with
  | Shared _ => fail
  | Heap p => modify (with_objs (delete p))
  end.

(** ** Creation *)

Definition createObject (t : otype) (p : payload) : ST store oid :=
  alloc_obj (Robj t OBJ_ENCODING_RAW p 1).

Definition createRawStringObject (s : sds) : ST store oid := createObject OBJ_STRING (PSds s).

Definition createEmbeddedStringObject (s : sds) : ST store oid :=
  alloc_obj (Robj OBJ_STRING OBJ_ENCODING_EMBSTR (PSds s) 1).

Definition createStringObject (s : sds) : ST store oid :=
  if zlen s <=? OBJ_ENCODING_EMBSTR_SIZE_LIMIT then createEmbeddedStringObject s
  else createRawStringObject s.

(** ** Reference counts *)

Definition incrRefCount (o : oid) : ST store unit :=
  r ← obj o;
  if negb (refcount r =? OBJ_SHARED_REFCOUNT) then set_obj o (with_refcount (refcount r + 1) r)
  else mret tt.

Definition decrRefCount (o : oid) : ST store unit :=
  r ← obj o;
  if refcount r =? 1 then free_obj o
  else if refcount r <=? 0 then fail
  else if negb (refcount r =? OBJ_SHARED_REFCOUNT) then set_obj o (with_refcount (refcount r - 1) r)
  else mret tt.

(** [share] is [server.maxmemory == 0] or the policy has not the flag
    [MAXMEMORY_FLAG_NO_SHARED_INTEGERS]. A [long long] always fits a [long] here. *)
Definition createStringObjectFromLongLongWithOptions (share : bool) (value : Z) (valueobj : bool) : ST store oid :=
  let valueobj := if share then false else valueobj in
  if is_shared_integer value && negb valueobj then
    _ ← incrRefCount (Shared value); mret (Shared value)
  else if (value >=? LONG_MIN) && (value <=? LONG_MAX) then
    alloc_obj (Robj OBJ_STRING OBJ_ENCODING_INT (PLong value) 1)
  else fail.

Definition createStringObjectFromLongLong (share : bool) (value : Z) : ST store oid :=
  createStringObjectFromLongLongWithOptions share value false.

Definition createStringObjectFromLongLongForValue (share : bool) (value : Z) : ST store oid :=
  createStringObjectFromLongLongWithOptions share value true.

(** ** Encoding and decoding *)

Definition sdsEncodedObject (r : robj) : bool :=
  bool_decide (encoding r = OBJ_ENCODING_RAW) || bool_decide (encoding r = OBJ_ENCODING_EMBSTR).

(** Reads of [o->ptr] as a string and as a [long]. *)
Definition as_sds (r : robj) : option sds := match ptr r with PSds s => Some s | _ => None end.
Definition as_long (r : robj) : option Z := match ptr r with PLong v => Some v | _ => None end.

(** The bytes [ll2string] leaves in a local buffer of 32 bytes. *)
Definition ll_bytes (v : Z) : option sds :=
  '(n, buf) ← ll2string (replicate 32 0) 32 v; Some (take (Z.to_nat n) buf).

Definition dupStringObject (o : oid) : ST store oid :=
  r ← obj o;
  _ ← assert_that (bool_decide (type r = OBJ_STRING));
  match encoding r with
  | OBJ_ENCODING_RAW => s ← lift (as_sds r); createRawStringObject s
  | OBJ_ENCODING_EMBSTR => s ← lift (as_sds r); createEmbeddedStringObject s
  | OBJ_ENCODING_INT => alloc_obj (Robj OBJ_STRING OBJ_ENCODING_INT (ptr r) 1)
  | _ => fail
  end.

Definition tryObjectEncoding (share : bool) (o : oid) : ST store oid :=
  r ← obj o;
  _ ← assert_that (bool_decide (type r = OBJ_STRING));
  if negb (sdsEncodedObject r) then mret o
  else if refcount r >? 1 then mret o
  else
    s ← lift (as_sds r);
    let len := zlen s in
    match (if len <=? 20 then string2l s else None) with
    | Some value =>
        if share && is_shared_integer value then
          _ ← decrRefCount o; _ ← incrRefCount (Shared value); mret (Shared value)
        else
          _ ← set_obj o (with_ptr (PLong value) (with_encoding OBJ_ENCODING_INT r)); mret o
    | None =>
        if len <=? OBJ_ENCODING_EMBSTR_SIZE_LIMIT then
          if bool_decide (encoding r = OBJ_ENCODING_EMBSTR) then mret o
          else emb ← createEmbeddedStringObject s; _ ← decrRefCount o; mret emb
        else mret o
    end.

Definition getDecodedObject (o : oid) : ST store oid :=
  r ← obj o;
  if sdsEncodedObject r then _ ← incrRefCount o; mret o
  else if bool_decide (type r = OBJ_STRING) && bool_decide (encoding r = OBJ_ENCODING_INT) then
    v ← lift (as_long r); buf ← lift (ll_bytes v); createStringObject buf
  else fail.

(** The bytes of a string object, on the stack when it is an integer. *)
Definition string_bytes (r : robj) : option sds :=
  if sdsEncodedObject r then as_sds r else v ← as_long r; ll_bytes v.

Definition compareStringObjects (a b : oid) : ST store Z :=
  ra ← obj a; rb ← obj b;
  _ ← assert_that (bool_decide (type ra = OBJ_STRING) && bool_decide (type rb = OBJ_STRING));
  if bool_decide (a = b) then mret 0 else
  astr ← lift (string_bytes ra); bstr ← lift (string_bytes rb);
  let alen := zlen astr in
  let blen := zlen bstr in
  let minlen := if alen <? blen then alen else blen in
  let cmp := memcmp (Z.to_nat minlen) astr bstr in
  mret (if cmp =? 0 then wraps 32 (alen - blen) else cmp).

Definition equalStringObjects (a b : oid) : ST store bool :=
  ra ← obj a; rb ← obj b;
  if bool_decide (encoding ra = OBJ_ENCODING_INT) && bool_decide (encoding rb = OBJ_ENCODING_INT) then
    mret (bool_decide (ptr ra = ptr rb))
  else
    c ← compareStringObjects a b; mret (c =? 0).

Definition stringObjectLen (o : oid) : ST store Z :=
  r ← obj o;
  _ ← assert_that (bool_decide (type r = OBJ_STRING));
  if sdsEncodedObject r then s ← lift (as_sds r); mret (zlen s)
  else v ← lift (as_long r); mret (sdigits10 v).

(** [None] is [C_ERR]; a null object counts as 0. *)
Definition getLongLongFromObject (o : option oid) : ST store (option Z) :=
  match o with
  | None => mret (Some 0)
  | Some o =>
      r ← obj o;
      _ ← assert_that (bool_decide (type r = OBJ_STRING));
      if sdsEncodedObject r then s ← lift (as_sds r); mret (string2ll s)
      else if bool_decide (encoding r = OBJ_ENCODING_INT) then v ← lift (as_long r); mret (Some v)
      else fail
  end.

Definition isObjectRepresentableAsLongLong (o : oid) : ST store (option Z) :=
  r ← obj o;
  _ ← assert_that (bool_decide (type r = OBJ_STRING));
  if bool_decide (encoding r = OBJ_ENCODING_INT) then v ← lift (as_long r); mret (Some v)
  else s ← lift (as_sds r); mret (string2ll s).

(** ** Exact reference counting *)

(** Number of occurrences of an address. *)
Definition occ (o : oid) (l : list oid) : Z := zlen (filter (fun x => x = o) l).

(** The references from the databases, and all references when [E] are the others. *)
Definition dict_refs (m : gmap (Z * sds) oid) : list oid := (map_to_list m).*2.
Definition refs (s : store) (E : list oid) : list oid := dict_refs (dict s) ++ E.

Definition robj_ok (r : robj) : Prop :=
  match type r, encoding r, ptr r with
  | OBJ_STRING, (OBJ_ENCODING_RAW | OBJ_ENCODING_EMBSTR), PSds bs => bytes_ok bs
  | OBJ_STRING, OBJ_ENCODING_INT, PLong v => in_s 64 v
  | OBJ_STRING, _, _ => False
  | OBJ_SET, OBJ_ENCODING_INTSET, PData (DIntset _) => True
  | OBJ_SET, OBJ_ENCODING_HT, PData (DSet _) => True
  | OBJ_SET, _, _ => False
  | OBJ_HASH, OBJ_ENCODING_ZIPLIST, PData (DZiplist _) => True
  | OBJ_HASH, OBJ_ENCODING_HT, PData (DHash _) => True
  | OBJ_HASH, _, _ => False
  | _, _, PData _ => True
  | _, _, _ => False
  end.

(** A count that reaches [OBJ_SHARED_REFCOUNT] stays there: the object is never freed. *)
Definition count_ok (n : Z) (r : robj) : Prop :=
  (refcount r = n /\ 0 < n < OBJ_SHARED_REFCOUNT) \/ refcount r = OBJ_SHARED_REFCOUNT.

Record store_ok (s : store) (E : list oid) : Prop := {
  ok_count : forall p r, objs s !! p = Some r -> count_ok (occ (Heap p) (refs s E)) r;
  ok_obj : forall p r, objs s !! p = Some r -> robj_ok r;
  ok_live : forall o, o ∈ refs s E -> is_Some (obj_at s o);
  ok_expires : dom (expires s) ⊆ dom (dict s)
}.

(** The value a client sees: the bytes of a string, or data of another type. *)
Inductive value : Type := VStr (s : sds) | VObj (t : otype) (d : data).

#[global] Instance value_eq_dec : EqDecision value.
Proof. solve_decision. Defined.

Definition val_of (r : robj) : value :=
  match ptr r with
  | PSds s => VStr s
  | PLong v => VStr (sdec v)
  | PData d => VObj (type r) d
  end.

(** The value at an address, and the value bound to a key. *)
Definition val_at (s : store) (o : oid) : option value := val_of <$> obj_at s o.
Definition view (s : store) (k : Z * sds) : option value := dict s !! k ≫= val_at s.

Lemma occ_nil o : occ o [] = 0.
Proof. done. Qed.
Lemma occ_cons o x l : occ o (x :: l) = (if decide (x = o) then 1 else 0) + occ o l.
Proof.
  unfold occ. rewrite filter_cons. destruct (decide (x = o)); [|done]. rewrite zlen_cons. lia.
Qed.
Lemma occ_app o l k : occ o (l ++ k) = occ o l + occ o k.
Proof. unfold occ. rewrite filter_app, zlen_app. done. Qed.
Lemma occ_perm o l k : l ≡ₚ k -> occ o l = occ o k.
Proof. intros H. unfold occ, zlen. by rewrite H. Qed.
Lemma occ_nonneg o l : 0 <= occ o l.
Proof. apply zlen_nonneg. Qed.
Lemma occ_pos o l : o ∈ l <-> 0 < occ o l.
Proof.
  induction l as [|x l IH]; [rewrite occ_nil; split; [by intros ?%elem_of_nil|lia]|].
  rewrite occ_cons, elem_of_cons, IH. pose proof (occ_nonneg o l).
  destruct (decide (x = o)) as [->|Hne]; split.
  - intros _. lia.
  - intros _. by left.
  - intros [->|]; [done|lia].
  - intros ?. right. lia.
Qed.
#[export] Hint Resolve occ_nonneg : redis.

Lemma dict_refs_insert m k o : m !! k = None -> dict_refs (<[k:=o]> m) ≡ₚ o :: dict_refs m.
Proof. intros Hk. unfold dict_refs. by rewrite map_to_list_insert. Qed.

Lemma dict_refs_delete m k o : m !! k = Some o -> dict_refs m ≡ₚ o :: dict_refs (delete k m).
Proof.
  intros Hk. rewrite <- (insert_delete_id m k o Hk) at 1. apply dict_refs_insert, lookup_delete_eq.
Qed.

Lemma dict_refs_elem m k o : m !! k = Some o -> o ∈ dict_refs m.
Proof. intros Hk. unfold dict_refs. apply (list_elem_of_fmap_2 snd _ (k, o)). by apply elem_of_map_to_list. Qed.

Lemma refs_dict s E k o : dict s !! k = Some o -> o ∈ refs s E.
Proof. intros. unfold refs. apply elem_of_app. left. by eapply dict_refs_elem. Qed.

Lemma refs_ext s E o : o ∈ E -> o ∈ refs s E.
Proof. intros. unfold refs. apply elem_of_app. by right. Qed.
#[export] Hint Resolve refs_dict refs_ext : redis.

Lemma store_ok_perm s E E' : E ≡ₚ E' -> store_ok s E -> store_ok s E'.
Proof.
  intros HE [H1 H2 H3 H4]. split; [| |intros o Ho; apply H3|]; try done.
  - intros p r Hp. specialize (H1 p r Hp). unfold refs in *. by rewrite occ_app, <- (occ_perm _ _ _ HE), <- occ_app.
  - unfold refs in *. by rewrite HE.
Qed.

#[global] Instance store_ok_proper s : Proper ((≡ₚ) ==> iff) (store_ok s).
Proof. intros E E' HE. split; by apply store_ok_perm. Qed.

(** Two objects that differ at most in the count. *)
Definition same_obj (r r' : robj) : Prop := with_refcount 0 r = with_refcount 0 r'.

(** The objects at the addresses of [l] are kept. *)
Definition kept (l : list oid) (s s' : store) : Prop :=
  forall o, o ∈ l -> exists r r', obj_at s o = Some r /\ obj_at s' o = Some r' /\ same_obj r r'.

(** A step on the heap alone, that keeps the objects of [l]. *)
Definition heap_step (l : list oid) (s s' : store) : Prop :=
  dict s' = dict s /\ expires s' = expires s /\ kept l s s'.

Lemma same_obj_val r r' : same_obj r r' -> val_of r = val_of r'.
Proof. unfold same_obj, with_refcount, val_of. destruct r, r'; simpl. by intros [= -> -> ->]. Qed.

Lemma kept_val l s s' o : kept l s s' -> o ∈ l -> val_at s' o = val_at s o.
Proof.
  intros Hk Ho. destruct (Hk o Ho) as (r & r' & H1 & H2 & H3). unfold val_at. rewrite H1, H2. cbn.
  by rewrite (same_obj_val _ _ H3).
Qed.

Lemma heap_step_view E s s' k : heap_step (refs s E) s s' -> view s' k = view s k.
Proof.
  intros (Hd & _ & Hk). unfold view. rewrite Hd. destruct (dict s !! k) as [o|] eqn:E0; [|done].
  cbn. eapply kept_val; eauto with redis.
Qed.

Lemma with_objs_refs f s E : refs (with_objs f s) E = refs s E.
Proof. done. Qed.

(** ** The primitive steps on the heap *)

Lemma alloc_obj_spec s E r :
  store_ok s E -> robj_ok r -> refcount r = 1 ->
  exists o s', alloc_obj r s = Some (o, s') /\ store_ok s' (o :: E) /\ obj_at s' o = Some r /\
    (o ∉ refs s E) /\ heap_step (refs s E) s s'.
Proof.
  intros Hok Hr Hc. unfold alloc_obj. run. set (p := fresh (dom (objs s))).
  assert (objs s !! p = None) as Hp by (apply not_elem_of_dom, is_fresh).
  assert (forall o, o ∈ refs s E -> o <> Heap p) as Hne.
  { intros o Ho ->. apply (ok_live _ _ Hok) in Ho as [x Hx]. cbn in Hx. congruence. }
  exists (Heap p), (with_objs (insert p r) s). split_and!;
    [done| |apply lookup_insert_eq|by intros Ho%Hne|split; [done|split; [done|]]].
  - split; unfold refs; cbn [with_objs objs dict expires].
    + intros q x Hq. rewrite occ_app, occ_cons. destruct (decide (Heap p = Heap q)) as [[= <-]|Hqp].
      * rewrite lookup_insert_eq in Hq. injection Hq as <-. left.
        assert (occ (Heap p) (refs s E) = 0) as H0.
        { pose proof (occ_nonneg (Heap p) (refs s E)). destruct (Z.eq_dec (occ (Heap p) (refs s E)) 0); [done|].
          exfalso. apply (Hne (Heap p)); [|done]. apply occ_pos. lia. }
        unfold refs in H0. rewrite occ_app in H0. unfold OBJ_SHARED_REFCOUNT. lia.
      * rewrite lookup_insert_ne in Hq by congruence. apply (ok_count _ _ Hok) in Hq.
        unfold refs in Hq. by rewrite occ_app in Hq.
    + intros q x Hq. destruct (decide (p = q)) as [<-|Hqp].
      * rewrite lookup_insert_eq in Hq. congruence.
      * rewrite lookup_insert_ne in Hq by done. by eapply (ok_obj _ _ Hok).
    + intros o Ho. apply elem_of_app in Ho. rewrite elem_of_cons in Ho.
      destruct (decide (o = Heap p)) as [->|Hn]; [exists r; apply lookup_insert_eq|].
      destruct (ok_live _ _ Hok o) as [x Hx]; [unfold refs; rewrite elem_of_app; tauto|].
      exists x. destruct o as [n|q]; [done|]. cbn in *. rewrite lookup_insert_ne by congruence. done.
    + apply (ok_expires _ _ Hok).
  - intros o Ho. destruct (ok_live _ _ Hok o Ho) as [x Hx]. exists x, x. split_and!; [done| |done].
    specialize (Hne o Ho). destruct o as [n|q]; [done|]. cbn in *. by rewrite lookup_insert_ne by congruence.
Qed.

Lemma count_ok_pos n r : count_ok n r -> refcount r <= 0 -> False.
Proof. unfold count_ok, OBJ_SHARED_REFCOUNT. lia. Qed.

(** Replacing an object: what has to be checked. *)
Lemma update_ok s E E' p r r' :
  store_ok s E -> objs s !! p = Some r -> robj_ok r' ->
  (forall q, q <> p -> occ (Heap q) E' = occ (Heap q) E) ->
  (forall o, o ∈ E' -> o ∈ refs s E) ->
  count_ok (occ (Heap p) (refs s E')) r' ->
  store_ok (with_objs (insert p r') s) E'.
Proof.
  intros Hok Hp Hr Hq HE Hc. split; unfold refs; cbn [with_objs objs dict expires].
  - intros q x Hx. destruct (decide (p = q)) as [<-|Hne].
    + rewrite lookup_insert_eq in Hx. by injection Hx as <-.
    + rewrite lookup_insert_ne in Hx by done. apply (ok_count _ _ Hok) in Hx.
      unfold refs in Hx. rewrite occ_app, Hq by done. by rewrite occ_app in Hx.
  - intros q x Hx. destruct (decide (p = q)) as [<-|Hne].
    + rewrite lookup_insert_eq in Hx. by injection Hx as <-.
    + rewrite lookup_insert_ne in Hx by done. by eapply (ok_obj _ _ Hok).
  - intros o Ho. assert (o ∈ refs s E) as Ho'.
    { apply elem_of_app in Ho as [Ho|Ho]; [|by apply HE]. unfold refs. apply elem_of_app. by left. }
    destruct (ok_live _ _ Hok o Ho') as [x Hx]. destruct o as [n|q]; [by exists x|]. cbn in *.
    destruct (decide (p = q)) as [<-|Hne]; [rewrite lookup_insert_eq; by eexists|].
    rewrite lookup_insert_ne by done. by exists x.
  - apply (ok_expires _ _ Hok).
Qed.

Lemma update_step s l p r r' :
  objs s !! p = Some r -> same_obj r r' -> (forall o, o ∈ l -> is_Some (obj_at s o)) ->
  heap_step l s (with_objs (insert p r') s).
Proof.
  intros Hp Hr Hl. split; [done|split; [done|]]. intros o Ho. destruct (Hl o Ho) as [x Hx].
  destruct o as [n|q]; [by exists x, x|]. cbn in *. destruct (decide (p = q)) as [<-|Hne].
  - exists r, r'. rewrite lookup_insert_eq. split_and!; done.
  - exists x, x. by rewrite lookup_insert_ne by done.
Qed.

Lemma same_obj_refcount n r : same_obj r (with_refcount n r).
Proof. by destruct r. Qed.

Lemma same_obj_ok r r' : same_obj r r' -> robj_ok r -> robj_ok r'.
Proof. unfold same_obj, robj_ok, with_refcount. destruct r, r'; simpl. by intros [= -> -> ->]. Qed.

Lemma obj_run s E o :
  store_ok s E -> o ∈ refs s E -> exists r, obj o s = Some (r, s) /\ obj_at s o = Some r.
Proof.
  intros Hok Ho. destruct (ok_live _ _ Hok o Ho) as [r Hr]. exists r. split; [|done].
  unfold obj. run. by erewrite lift_run by done.
Qed.

Lemma shared_refcount s n r : obj_at s (Shared n) = Some r -> refcount r = OBJ_SHARED_REFCOUNT.
Proof. cbn. destruct (is_shared_integer n); [|done]. by intros [= <-]. Qed.

(** A reference to a shared integer is not counted. *)
Lemma shared_ref_ok s E n : is_shared_integer n = true -> store_ok s (Shared n :: E) <-> store_ok s E.
Proof.
  intros Hn. split; intros [H1 H2 H3 H4].
  - split; [|done| |done].
    + intros p r Hp. specialize (H1 p r Hp). unfold refs in *. by rewrite occ_app, occ_cons, decide_False, Z.add_0_l, <- occ_app in H1.
    + intros o Ho. apply H3. unfold refs in *. set_solver.
  - split; [|done| |done].
    + intros p r Hp. specialize (H1 p r Hp). unfold refs in *. by rewrite occ_app, occ_cons, decide_False, Z.add_0_l, <- occ_app.
    + intros o Ho. unfold refs in *. apply elem_of_app in Ho. rewrite elem_of_cons in Ho.
      destruct (decide (o = Shared n)) as [->|]; [cbn; rewrite Hn; by eexists|]. apply H3. apply elem_of_app. tauto.
Qed.

Lemma incrRefCount_spec s E o :
  store_ok s E -> o ∈ refs s E ->
  exists s', incrRefCount o s = Some (tt, s') /\ store_ok s' (o :: E) /\ heap_step (refs s E) s s'.
Proof.
  intros Hok Ho. destruct (obj_run s E o Hok Ho) as (r & Hrun & Hr). unfold incrRefCount.
  erewrite bind_run by exact Hrun.
  assert (heap_step (refs s E) s s) as Hrefl.
  { split; [done|split; [done|]]. intros x Hx. destruct (ok_live _ _ Hok x Hx) as [y Hy]. by exists y, y. }
  destruct o as [n|p].
  - rewrite (shared_refcount _ _ _ Hr), Z.eqb_refl. cbn [negb]. exists s. split_and!; [done| |done].
    apply shared_ref_ok; [|done]. cbn in Hr. by destruct (is_shared_integer n).
  - cbn in Hr. pose proof (ok_count _ _ Hok p r Hr) as Hc.
    assert (forall q, q <> p -> occ (Heap q) (Heap p :: E) = occ (Heap q) E) as Hq.
    { intros q Hne. rewrite occ_cons, decide_False by congruence. done. }
    assert (forall x, x ∈ Heap p :: E -> x ∈ refs s E) as Hin.
    { intros x [->|Hx]%elem_of_cons; [done|]. by apply refs_ext. }
    assert (occ (Heap p) (refs s (Heap p :: E)) = occ (Heap p) (refs s E) + 1) as Hocc.
    { unfold refs. rewrite !occ_app, occ_cons, decide_True by done. lia. }
    destruct (Z.eqb_spec (refcount r) OBJ_SHARED_REFCOUNT) as [Hs|Hs]; cbn [negb].
    + exists s. split_and!; [done| |done].
      destruct Hok as [H1 H2 H3 H4]. split; [|done| |done].
      * intros q x Hx. destruct (decide (q = p)) as [->|Hne].
        { right. congruence. }
        specialize (H1 q x Hx). unfold refs in *. rewrite occ_app, Hq by done. by rewrite occ_app in H1.
      * intros x Hx. apply H3. apply elem_of_app in Hx as [Hx|Hx]; [|by apply Hin].
        apply elem_of_app. by left.
    + exists (with_objs (insert p (with_refcount (refcount r + 1) r)) s). split_and!; [done| |].
      * eapply update_ok; [done|done| |done|done|].
        { eapply same_obj_ok; [apply same_obj_refcount|]. by eapply (ok_obj _ _ Hok). }
        rewrite Hocc. unfold count_ok in *. cbn. unfold OBJ_SHARED_REFCOUNT in *. lia.
      * eapply update_step; [done|apply same_obj_refcount|apply (ok_live _ _ Hok)].
Qed.

Lemma decrRefCount_spec s E o :
  store_ok s (o :: E) ->
  exists s', decrRefCount o s = Some (tt, s') /\ store_ok s' E /\ heap_step (refs s E) s s'.
Proof.
  intros Hok. destruct (obj_run s _ o Hok) as (r & Hrun & Hr); [apply refs_ext; set_solver|].
  unfold decrRefCount. erewrite bind_run by exact Hrun.
  assert (forall x, x ∈ refs s E -> x ∈ refs s (o :: E)) as Hsub.
  { intros x Hx. unfold refs in *. set_solver. }
  assert (heap_step (refs s E) s s) as Hrefl.
  { split; [done|split; [done|]]. intros x Hx. destruct (ok_live _ _ Hok x (Hsub x Hx)) as [y Hy]. by exists y, y. }
  destruct o as [n|p].
  - rewrite (shared_refcount _ _ _ Hr). change (OBJ_SHARED_REFCOUNT =? 1) with false.
    change (OBJ_SHARED_REFCOUNT <=? 0) with false. rewrite Z.eqb_refl. cbn [negb]. exists s. split_and!; [done| |done].
    apply shared_ref_ok in Hok; [done|]. cbn in Hr. by destruct (is_shared_integer n).
  - cbn in Hr. pose proof (ok_count _ _ Hok p r Hr) as Hc.
    assert (forall q, q <> p -> occ (Heap q) E = occ (Heap q) (Heap p :: E)) as Hq.
    { intros q Hne. rewrite occ_cons, decide_False by congruence. done. }
    assert (occ (Heap p) (refs s (Heap p :: E)) = occ (Heap p) (refs s E) + 1) as Hocc.
    { unfold refs. rewrite !occ_app, occ_cons, decide_True by done. lia. }
    rewrite Hocc in Hc. destruct (Z.eqb_spec (refcount r) 1) as [H1|H1].
    + assert (occ (Heap p) (refs s E) = 0) as H0 by (unfold count_ok, OBJ_SHARED_REFCOUNT in Hc; lia).
      assert (forall x, x ∈ refs s E -> x <> Heap p) as Hne.
      { intros x Hx ->. apply occ_pos in Hx. lia. }
      exists (with_objs (delete p) s). split_and!; [done| |split; [done|split; [done|]]].
      * destruct Hok as [K1 K2 K3 K4]. split; cbn [with_objs objs dict expires]; [| | |done].
        { intros q x [Hne' Hx]%lookup_delete_Some. specialize (K1 q x Hx). unfold refs in *.
          cbn [dict with_objs]. rewrite occ_app, Hq by congruence. by rewrite occ_app in K1. }
        { intros q x [_ Hx]%lookup_delete_Some. by eapply K2. }
        { intros x Hx. specialize (Hne x Hx). destruct (K3 x (Hsub x Hx)) as [y Hy]. exists y.
          destruct x as [n|q]; [done|]. cbn in *. by rewrite lookup_delete_ne by congruence. }
      * intros x Hx. specialize (Hne x Hx). destruct (ok_live _ _ Hok x (Hsub x Hx)) as [y Hy]. exists y, y.
        split_and!; [done| |done]. destruct x as [n|q]; [done|]. cbn in *. by rewrite lookup_delete_ne by congruence.
    + destruct (Z.leb_spec (refcount r) 0) as [H2|H2]; [exfalso; by eapply count_ok_pos|].
      destruct (Z.eqb_spec (refcount r) OBJ_SHARED_REFCOUNT) as [Hs|Hs]; cbn [negb].
      * exists s. split_and!; [done| |done]. destruct Hok as [K1 K2 K3 K4]. split; [|done| |done].
        { intros q x Hx. destruct (decide (q = p)) as [->|Hne]; [right; congruence|].
          specialize (K1 q x Hx). unfold refs in *. rewrite occ_app, Hq by done. by rewrite occ_app in K1. }
        { intros x Hx. by apply K3, Hsub. }
      * exists (with_objs (insert p (with_refcount (refcount r - 1) r)) s). split_and!; [done| |].
        { eapply update_ok; [exact Hok|done| |done| |].
          - eapply same_obj_ok; [apply same_obj_refcount|]. by eapply (ok_obj _ _ Hok).
          - intros x Hx. by apply Hsub, refs_ext.
          - unfold count_ok in *. cbn. unfold OBJ_SHARED_REFCOUNT in *. lia. }
        { eapply update_step; [done|apply same_obj_refcount|]. intros x Hx. by apply (ok_live _ _ Hok), Hsub. }
Qed.

(** The primitives write no other object. *)
Lemma set_obj_other o r s a s' x : set_obj o r s = Some (a, s') -> x <> o -> obj_at s' x = obj_at s x.
Proof.
  intros Hs Hne. destruct o as [n|p]; [done|]. injection Hs as _ <-. destruct x as [m|q]; [done|].
  cbn. by rewrite lookup_insert_ne by congruence.
Qed.

Lemma free_obj_other o s a s' x : free_obj o s = Some (a, s') -> x <> o -> obj_at s' x = obj_at s x.
Proof.
  intros Hs Hne. destruct o as [n|p]; [done|]. injection Hs as _ <-. destruct x as [m|q]; [done|].
  cbn. by rewrite lookup_delete_ne by congruence.
Qed.

Lemma incrRefCount_other o s a s' x : incrRefCount o s = Some (a, s') -> x <> o -> obj_at s' x = obj_at s x.
Proof.
  unfold incrRefCount, obj, mbind, ST_bind, get. destruct (obj_at s o) as [r|]; cbn; [|done].
  case_if; [apply set_obj_other|]. by intros [= _ <-].
Qed.

Lemma decrRefCount_other o s a s' x : decrRefCount o s = Some (a, s') -> x <> o -> obj_at s' x = obj_at s x.
Proof.
  unfold decrRefCount, obj, mbind, ST_bind, get. destruct (obj_at s o) as [r|]; cbn; [|done].
  repeat case_if; [apply free_obj_other|done|apply set_obj_other|]. by intros [= _ <-].
Qed.

(** ** Exclusive writes *)

Lemma occ_dict_two m k k' o : k <> k' -> m !! k = Some o -> m !! k' = Some o -> 2 <= occ o (dict_refs m).
Proof.
  intros Hne Hk Hk'. rewrite (occ_perm _ _ _ (dict_refs_delete m k o Hk)), occ_cons, decide_True by done.
  assert (delete k m !! k' = Some o) as Hd by (by rewrite lookup_delete_ne).
  rewrite (occ_perm _ _ _ (dict_refs_delete _ k' o Hd)), occ_cons, decide_True by done.
  pose proof (occ_nonneg o (dict_refs (delete k' (delete k m)))). lia.
Qed.

(** An object with the count 1 is referred to once. *)
Lemma exclusive s E o r :
  store_ok s E -> obj_at s o = Some r -> refcount r = 1 -> occ o (refs s E) = 1.
Proof.
  intros Hok Hr H1. destruct o as [n|p]; [apply shared_refcount in Hr; unfold OBJ_SHARED_REFCOUNT in Hr; lia|].
  pose proof (ok_count _ _ Hok p r Hr) as Hc. unfold count_ok, OBJ_SHARED_REFCOUNT in Hc. lia.
Qed.

Lemma exclusive_key s E o r k k' :
  store_ok s E -> obj_at s o = Some r -> refcount r = 1 ->
  dict s !! k = Some o -> dict s !! k' = Some o -> k = k'.
Proof.
  intros Hok Hr H1 Hk Hk'. destruct (decide (k = k')) as [|Hne]; [done|]. exfalso.
  pose proof (exclusive s E o r Hok Hr H1) as Ho. unfold refs in Ho. rewrite occ_app in Ho.
  pose proof (occ_dict_two _ k k' o Hne Hk Hk'). pose proof (occ_nonneg o E). lia.
Qed.

Lemma exclusive_ext s E o r k :
  store_ok s (o :: E) -> obj_at s o = Some r -> refcount r = 1 -> dict s !! k <> Some o /\ o ∉ E.
Proof.
  intros Hok Hr H1. pose proof (exclusive s _ o r Hok Hr H1) as Ho. unfold refs in Ho.
  rewrite occ_app, occ_cons, decide_True in Ho by done.
  pose proof (occ_nonneg o E). pose proof (occ_nonneg o (dict_refs (dict s))). split.
  - intros Hk%dict_refs_elem%occ_pos. lia.
  - intros HE%occ_pos. lia.
Qed.

Lemma set_obj_spec s E o r r' :
  store_ok s E -> obj_at s o = Some r -> refcount r = 1 -> robj_ok r' -> refcount r' = 1 ->
  exists s', set_obj o r' s = Some (tt, s') /\ store_ok s' E /\ dict s' = dict s /\ expires s' = expires s /\
    obj_at s' o = Some r' /\ (forall x, x <> o -> obj_at s' x = obj_at s x).
Proof.
  intros Hok Hr H1 Hr' H1'. pose proof (exclusive s E o r Hok Hr H1) as Ho.
  destruct o as [n|p]; [apply shared_refcount in Hr; unfold OBJ_SHARED_REFCOUNT in Hr; lia|].
  exists (with_objs (insert p r') s). cbn in Hr. split_and!; [done| |done|done|apply lookup_insert_eq|].
  - eapply update_ok; [done..| |]; [auto with redis|]. left. unfold OBJ_SHARED_REFCOUNT. lia.
  - intros [n|q] Hne; [done|]. cbn. by rewrite lookup_insert_ne by congruence.
Qed.

(** ** The values of objects *)

Lemma live_ok s E o r : store_ok s E -> o ∈ refs s E -> obj_at s o = Some r -> robj_ok r.
Proof.
  intros Hok Ho Hr. destruct o as [n|p]; [|by eapply (ok_obj _ _ Hok)]. cbn in Hr.
  destruct (is_shared_integer n) eqn:En; [|done]. injection Hr as <-.
  unfold is_shared_integer, OBJ_SHARED_INTEGERS in En. zbool. unfold robj_ok, in_s. cbn [type encoding ptr].
  change (64 - 1) with 63. lia.
Qed.

(** The ways a string is represented. *)
Inductive string_obj (bs : sds) : robj -> Prop :=
| string_raw n : bytes_ok bs -> string_obj bs (Robj OBJ_STRING OBJ_ENCODING_RAW (PSds bs) n)
| string_embstr n : bytes_ok bs -> string_obj bs (Robj OBJ_STRING OBJ_ENCODING_EMBSTR (PSds bs) n)
| string_int v n : in_s 64 v -> bs = sdec v -> string_obj bs (Robj OBJ_STRING OBJ_ENCODING_INT (PLong v) n).

Lemma string_obj_of s E o bs :
  store_ok s E -> o ∈ refs s E -> val_at s o = Some (VStr bs) ->
  exists r, obj_at s o = Some r /\ string_obj bs r.
Proof.
  intros Hok Ho Hv. unfold val_at in Hv. destruct (obj_at s o) as [r|] eqn:Hr; [|done].
  exists r. split; [done|]. pose proof (live_ok s E o r Hok Ho Hr) as Hrok. cbn in Hv. injection Hv as Hv.
  destruct r as [t e p n]. unfold robj_ok, val_of in *. cbn in *.
  destruct t, e, p; try done; injection Hv as <-; by constructor.
Qed.

Lemma string_obj_val bs r : string_obj bs r -> val_of r = VStr bs.
Proof. by inversion 1; subst. Qed.
Lemma string_obj_ok bs r : string_obj bs r -> robj_ok r.
Proof. by inversion 1. Qed.
Lemma string_obj_type bs r : string_obj bs r -> type r = OBJ_STRING.
Proof. by inversion 1. Qed.

Lemma not_string_obj s E o t d :
  store_ok s E -> o ∈ refs s E -> val_at s o = Some (VObj t d) ->
  exists r, obj_at s o = Some r /\ type r = t /\ type r <> OBJ_STRING.
Proof.
  intros Hok Ho Hv. unfold val_at in Hv. destruct (obj_at s o) as [r|] eqn:Hr; [|done].
  exists r. pose proof (live_ok s E o r Hok Ho Hr) as Hrok. cbn in Hv. injection Hv as Hv.
  destruct r as [t' e p n]. unfold robj_ok, val_of in *. cbn in *. split; [done|].
  destruct p; try done. injection Hv as -> ->. split; [done|]. intros ->. by destruct e.
Qed.


Lemma dec_bytes n v : 0 <= v -> bytes_ok (dec n v).
Proof.
  revert v. induction n as [|n IH]; intros v Hv; cbn [dec]; [constructor|]. case_if.
  - repeat constructor; unfold byte_ok; lia.
  - apply Forall_app. split; [apply IH, Z.div_pos; lia|].
    pose proof (Z.mod_pos_bound v 10 ltac:(lia)). repeat constructor; unfold byte_ok; lia.
Qed.

Lemma sdec_bytes v : bytes_ok (sdec v).
Proof.
  unfold sdec. destruct (Z.ltb_spec v 0).
  - constructor; [unfold byte_ok; lia|]. apply dec_bytes. lia.
  - by apply dec_bytes.
Qed.

Lemma sdigits10_correct v : in_s 64 v -> sdigits10 v = zlen (sdec v).
Proof.
  intros [Hv0 Hv1]. change (64 - 1) with 63 in *. unfold sdigits10, sdec. destruct (Z.ltb_spec v 0).
  - assert ((if v =? LLONG_MIN then wrapu 64 (LLONG_MAX + 1) else wrapu 64 (- v)) = - v) as ->.
    { destruct (Z.eqb_spec v LLONG_MIN) as [->|]; [done|]. apply wrapu_small. unfold in_u. lia. }
    rewrite zlen_cons, digits10_correct; [done|]. unfold in_u. lia.
  - apply digits10_correct. unfold in_u. lia.
Qed.

Lemma ll_bytes_correct v : in_s 64 v -> ll_bytes v = Some (sdec v).
Proof.
  intros Hv. unfold ll_bytes. pose proof (zlen_sdec v Hv) as Hl.
  rewrite ll2string_spec by (done || change (zlen (replicate 32 0)) with 32; lia).
  rewrite (proj2 (Z.ltb_lt _ _)) by lia. cbn [mbind option_bind]. f_equal. by apply take_zlen_app.
Qed.

(** A step that keeps the databases and the values at the addresses of [l]. *)
Definition val_step (l : list oid) (s s' : store) : Prop :=
  dict s' = dict s /\ expires s' = expires s /\ forall o, o ∈ l -> val_at s' o = val_at s o.

Lemma heap_val_step l s s' : heap_step l s s' -> val_step l s s'.
Proof. intros (? & ? & Hk). split_and!; [done..|]. intros o Ho. by eapply kept_val. Qed.

Lemma val_step_refl l s : val_step l s s.
Proof. done. Qed.

Lemma val_step_trans l s1 s2 s3 : val_step l s1 s2 -> val_step l s2 s3 -> val_step l s1 s3.
Proof.
  intros (? & ? & H1) (? & ? & H2). split_and!; try congruence. intros o Ho. by rewrite H2, H1.
Qed.

Lemma val_step_mono l k s s' : k ⊆ l -> val_step l s s' -> val_step k s s'.
Proof. intros Hsub (? & ? & H). split_and!; auto. Qed.

Lemma val_step_view E s s' k : val_step (refs s E) s s' -> view s' k = view s k.
Proof.
  intros (Hd & _ & Hk). unfold view. rewrite Hd. destruct (dict s !! k) as [o|] eqn:E0; [|done].
  cbn. apply Hk. eauto with redis.
Qed.

Lemma val_step_refs E l s s' : val_step l s s' -> refs s' E = refs s E.
Proof. intros (Hd & _). unfold refs. by rewrite Hd. Qed.

Lemma refs_cons_sub s o E : refs s E ⊆ refs s (o :: E).
Proof. unfold refs. set_solver. Qed.

(** ** The operations on string objects *)

Section string_ops.
Context (s : store) (E : list oid) (Hok : store_ok s E).

Lemma string_run o bs :
  o ∈ refs s E -> val_at s o = Some (VStr bs) ->
  exists r, obj o s = Some (r, s) /\ obj_at s o = Some r /\ string_obj bs r.
Proof.
  intros Ho Hv. destruct (obj_run s E o Hok Ho) as (r & Hrun & Hr).
  destruct (string_obj_of s E o bs Hok Ho Hv) as (r' & Hr' & Hs). exists r.
  by replace r with r' in * by congruence.
Qed.

Lemma stringObjectLen_spec o bs :
  o ∈ refs s E -> val_at s o = Some (VStr bs) -> stringObjectLen o s = Some (zlen bs, s).
Proof.
  intros Ho Hv. destruct (string_run o bs Ho Hv) as (r & Hrun & _ & Hs). unfold stringObjectLen.
  erewrite bind_run by exact Hrun. destruct Hs; try done. subst. by rewrite <- sdigits10_correct.
Qed.

Lemma getLongLong_spec o bs :
  o ∈ refs s E -> val_at s o = Some (VStr bs) -> getLongLongFromObject (Some o) s = Some (string2ll bs, s).
Proof.
  intros Ho Hv. destruct (string_run o bs Ho Hv) as (r & Hrun & _ & Hs). unfold getLongLongFromObject.
  erewrite bind_run by exact Hrun. destruct Hs; try done. subst. by rewrite string2ll_complete.
Qed.

Lemma string_bytes_spec bs r : string_obj bs r -> string_bytes r = Some bs.
Proof. destruct 1; try done. subst. unfold string_bytes. cbn [sdsEncodedObject]. by apply ll_bytes_correct. Qed.

Lemma memcmp_eq a b : zlen a = zlen b -> memcmp (Z.to_nat (zlen a)) a b = 0 <-> a = b.
Proof.
  unfold zlen. rewrite Nat2Z.id. intros Hl%Nat2Z.inj. revert b Hl.
  induction a as [|x a IH]; intros [|y b] Hl; try done. cbn [memcmp length].
  destruct (Z.eqb_spec x y) as [->|Hne]; [rewrite IH by (by injection Hl)|]; split; try congruence; intros; lia.
Qed.

(** Comparing by pointer, by integer or by content all mean equality of the strings. *)
Lemma equalStringObjects_spec a b x y :
  a ∈ refs s E -> b ∈ refs s E -> val_at s a = Some (VStr x) -> val_at s b = Some (VStr y) ->
  zlen x < 2 ^ 31 -> zlen y < 2 ^ 31 ->
  equalStringObjects a b s = Some (bool_decide (x = y), s).
Proof.
  intros Ha Hb Hva Hvb Hx Hy.
  destruct (string_run a x Ha Hva) as (ra & Hra & Ha' & Hsa), (string_run b y Hb Hvb) as (rb & Hrb & Hb' & Hsb).
  unfold equalStringObjects. erewrite bind_run by exact Hra. erewrite bind_run by exact Hrb.
  assert (compareStringObjects a b s = Some (if bool_decide (a = b) then 0 else
     let m := if zlen x <? zlen y then zlen x else zlen y in
     let cmp := memcmp (Z.to_nat m) x y in if cmp =? 0 then wraps 32 (zlen x - zlen y) else cmp, s)) as Hc.
  { unfold compareStringObjects. erewrite bind_run by exact Hra. erewrite bind_run by exact Hrb.
    erewrite bind_run by (apply assert_run; by rewrite (string_obj_type _ _ Hsa), (string_obj_type _ _ Hsb)).
    destruct (bool_decide (a = b)); [done|].
    rewrite (string_bytes_spec _ _ Hsa), (string_bytes_spec _ _ Hsb). by run. }
  case_if.
  - destruct Hsa; try done. destruct Hsb; try done. cbn. unfold mret, ST_ret. do 3 f_equal. subst.
    apply bool_decide_ext. split; [by intros [= ->]|]. intros Hd. f_equal.
    apply (f_equal string2ll) in Hd. rewrite !string2ll_complete in Hd by done. by injection Hd.
  - erewrite bind_run by exact Hc. unfold mret, ST_ret. do 3 f_equal. clear Hc.
    destruct (bool_decide_reflect (a = b)) as [->|Hne].
    { rewrite Hva in Hvb. injection Hvb as ->. by rewrite bool_decide_true. }
    cbv zeta. pose proof (zlen_nonneg x). pose proof (zlen_nonneg y).
    rewrite (wraps_small 32) by (lia || unfold in_s; change (32 - 1) with 31; lia).
    destruct (Z.eq_dec (zlen x) (zlen y)) as [Heq|Hlen].
    + rewrite Heq, Z.ltb_irrefl, <- Heq, Z.sub_diag. pose proof (memcmp_eq x y Heq) as Hm.
      destruct (Z.eqb_spec (memcmp (Z.to_nat (zlen x)) x y) 0) as [Hz|Hz].
      * by rewrite bool_decide_true by tauto.
      * rewrite bool_decide_false by tauto. by apply Z.eqb_neq.
    + rewrite bool_decide_false by congruence.
      match goal with |- context [memcmp ?m x y =? 0] => destruct (Z.eqb_spec (memcmp m x y) 0) end;
        apply Z.eqb_neq; [lia|done].
Qed.

End string_ops.

Lemma alloc_string s E bs r :
  store_ok s E -> string_obj bs r -> refcount r = 1 ->
  exists o s', alloc_obj r s = Some (o, s') /\ store_ok s' (o :: E) /\ obj_at s' o = Some r /\
    val_at s' o = Some (VStr bs) /\ (o ∉ refs s E) /\ heap_step (refs s E) s s'.
Proof.
  intros Hok Hs H1. destruct (alloc_obj_spec s E r Hok (string_obj_ok _ _ Hs) H1) as (o & s' & ? & ? & Ho & ? & ?).
  exists o, s'. split_and!; [done..| |done|done].
  unfold val_at. rewrite Ho. cbn. by rewrite (string_obj_val _ _ Hs).
Qed.

Lemma createString_spec s E bs :
  store_ok s E -> bytes_ok bs ->
  exists o s', createStringObject bs s = Some (o, s') /\ store_ok s' (o :: E) /\
    val_at s' o = Some (VStr bs) /\ heap_step (refs s E) s s' /\
    exists r, obj_at s' o = Some r /\ string_obj bs r /\ sdsEncodedObject r = true.
Proof.
  intros Hok Hbs. unfold createStringObject. case_if.
  - destruct (alloc_string s E bs (Robj OBJ_STRING OBJ_ENCODING_EMBSTR (PSds bs) 1)) as (o & s' & ? & ? & ? & ? & _ & ?);
      [done|by constructor|done|]. exists o, s'. split_and!; try done. eexists. split_and!; [done|by constructor|done].
  - destruct (alloc_string s E bs (Robj OBJ_STRING OBJ_ENCODING_RAW (PSds bs) 1)) as (o & s' & ? & ? & ? & ? & _ & ?);
      [done|by constructor|done|]. exists o, s'. split_and!; try done. eexists. split_and!; [done|by constructor|done].
Qed.

Lemma is_shared_integer_64 n : is_shared_integer n = true -> in_s 64 n.
Proof.
  unfold is_shared_integer, OBJ_SHARED_INTEGERS, in_s. intros. zbool. change (64 - 1) with 63. lia.
Qed.

Lemma shared_integer_val s n : is_shared_integer n = true -> val_at s (Shared n) = Some (VStr (sdec n)).
Proof. intros Hn. unfold val_at, obj_at. by rewrite Hn. Qed.

Lemma createStringFromLL_spec share s E v valueobj :
  store_ok s E -> in_s 64 v ->
  exists o s', createStringObjectFromLongLongWithOptions share v valueobj s = Some (o, s') /\
    store_ok s' (o :: E) /\ val_at s' o = Some (VStr (sdec v)) /\ val_step (refs s E) s s' /\
    (exists r, obj_at s' o = Some r /\ ptr r = PLong v).
Proof.
  intros Hok Hv. unfold createStringObjectFromLongLongWithOptions.
  destruct (is_shared_integer v && _) eqn:Hb; [apply andb_true_iff in Hb as [Hsh _]|].
  - unfold incrRefCount. erewrite bind_run.
    2:{ erewrite bind_run by (unfold obj; run; apply lift_run; cbn; by rewrite Hsh). cbn [refcount].
        by rewrite Z.eqb_refl. }
    exists (Shared v), s. split_and!; [done|by apply shared_ref_ok|by apply shared_integer_val|done|].
    eexists. split; [cbn; by rewrite Hsh|done].
  - assert ((v >=? LONG_MIN) && (v <=? LONG_MAX) = true) as ->.
    { destruct Hv as [? ?]. change (64 - 1) with 63 in *. unfold LONG_MIN, LONG_MAX. rewrite Z.geb_leb.
      apply andb_true_iff. split; apply Z.leb_le; lia. }
    destruct (alloc_string s E (sdec v) (Robj OBJ_STRING OBJ_ENCODING_INT (PLong v) 1))
      as (o & s' & ? & ? & ? & ? & _ & ?%heap_val_step); [done|by constructor|done|].
    exists o, s'. split_and!; try done. by eexists.
Qed.

(** [getDecodedObject] returns a reference to an object with the same bytes. *)
Lemma getDecodedObject_spec s E o bs :
  store_ok s E -> o ∈ refs s E -> val_at s o = Some (VStr bs) ->
  exists o' s', getDecodedObject o s = Some (o', s') /\ store_ok s' (o' :: E) /\
    val_at s' o' = Some (VStr bs) /\ heap_step (refs s E) s s' /\
    exists r, obj_at s' o' = Some r /\ string_obj bs r /\ sdsEncodedObject r = true.
Proof.
  intros Hok Ho Hv. destruct (string_run s E Hok o bs Ho Hv) as (r & Hrun & Hr & Hs). unfold getDecodedObject.
  erewrite bind_run by exact Hrun. destruct (sdsEncodedObject r) eqn:Henc.
  - destruct (incrRefCount_spec s E o Hok Ho) as (s' & Hincr & Hok' & Hstep).
    erewrite bind_run by exact Hincr. exists o, s'. pose proof (heap_val_step _ _ _ Hstep) as Hvs.
    split_and!; [done|done| |done|].
    + destruct Hvs as (_ & _ & H). by rewrite H.
    + destruct Hstep as (_ & _ & Hk). destruct (Hk o Ho) as (r1 & r2 & H1 & H2 & H3).
      replace r1 with r in H3 by congruence. exists r2. split_and!; [done| |].
      * unfold same_obj, with_refcount in H3. destruct r2; destruct Hs; cbn in H3; injection H3 as <- <- <-; by constructor.
      * unfold same_obj, with_refcount in H3. destruct r, r2; cbn in *. injection H3 as <- <- <-. done.
  - destruct Hs as [| |v n Hv64 ->]; try done. rewrite !bool_decide_true by done. cbn [andb].
    erewrite bind_run by (by apply lift_run). erewrite bind_run by (by apply lift_run, ll_bytes_correct).
    apply createString_spec; [done|apply sdec_bytes].
Qed.

Lemma string2l_sound bs v : string2l bs = Some v -> in_s 64 v /\ bs = sdec v.
Proof.
  unfold string2l. destruct (string2ll bs) as [w|] eqn:Hw; [|done]. cbn. case_if; [done|]. intros [= <-].
  by apply string2ll_sound.
Qed.

Lemma val_at_ext s s' o : obj_at s' o = obj_at s o -> val_at s' o = val_at s o.
Proof. unfold val_at. by intros ->. Qed.

(** [tryObjectEncoding] consumes a reference to a string and returns one to a string with the same
    bytes; every other reference still reads the same value. *)
Lemma tryObjectEncoding_spec share s E o bs :
  store_ok s (o :: E) -> val_at s o = Some (VStr bs) ->
  exists o' s', tryObjectEncoding share o s = Some (o', s') /\ store_ok s' (o' :: E) /\
    val_at s' o' = Some (VStr bs) /\ val_step (refs s E) s s'.
Proof.
  intros Hok Hv. assert (o ∈ refs s (o :: E)) as Ho by (apply refs_ext; set_solver).
  destruct (string_run s _ Hok o bs Ho Hv) as (r & Hrun & Hr & Hs). unfold tryObjectEncoding.
  erewrite bind_run by exact Hrun.
  erewrite bind_run by (apply assert_run; by rewrite bool_decide_true by (by eapply string_obj_type)).
  assert (exists o' s', (mret o : ST store oid) s = Some (o', s') /\ store_ok s' (o' :: E) /\
    val_at s' o' = Some (VStr bs) /\ val_step (refs s E) s s') as Hsame by (by exists o, s).
  destruct (sdsEncodedObject r) eqn:Henc; cbn [negb]; [|exact Hsame].
  destruct (Z.gtb_spec (refcount r) 1) as [|Hrc]; [exact Hsame|].
  assert (refcount r = 1) as H1.
  { destruct o as [n|p]; [apply shared_refcount in Hr; unfold OBJ_SHARED_REFCOUNT in Hr; lia|].
    pose proof (count_ok_pos _ _ (ok_count _ _ Hok p r Hr)). lia. }
  assert (as_sds r = Some bs) as Hsds by (by destruct Hs). erewrite bind_run by (by apply lift_run).
  destruct (if zlen bs <=? 20 then string2l bs else None) as [v|] eqn:Hl.
  - assert (string2l bs = Some v) as Hl' by (by destruct (zlen bs <=? 20)).
    apply string2l_sound in Hl' as [Hv64 ->]. destruct (share && is_shared_integer v) eqn:Hsh.
    + apply andb_true_iff in Hsh as [_ Hsh].
      destruct (decrRefCount_spec s E o Hok) as (s' & Hdecr & Hok' & Hstep).
      erewrite bind_run by exact Hdecr. unfold incrRefCount. erewrite bind_run.
      2:{ erewrite bind_run by (unfold obj; run; apply lift_run; cbn; by rewrite Hsh). cbn [refcount].
          by rewrite Z.eqb_refl. }
      exists (Shared v), s'. split_and!; [done|by apply shared_ref_ok|by apply shared_integer_val|by apply heap_val_step].
    + destruct (set_obj_spec s _ o r (with_ptr (PLong v) (with_encoding OBJ_ENCODING_INT r)) Hok Hr H1)
        as (s' & Hset & Hok' & Hd & He & Ho' & Hne); [by destruct Hs|by destruct r|].
      erewrite bind_run by exact Hset. exists o, s'. split_and!; [done|done| |split; [done|split; [done|]]].
      * unfold val_at. rewrite Ho'. by destruct Hs.
      * intros x Hx. apply val_at_ext, Hne. intros ->.
        pose proof (exclusive s _ o r Hok Hr H1) as Hocc. unfold refs in Hx, Hocc.
        rewrite occ_app, occ_cons, decide_True in Hocc by done. apply occ_pos in Hx. rewrite occ_app in Hx. lia.
  - case_if; [|exact Hsame]. case_if; [exact Hsame|].
    destruct (alloc_string s _ bs (Robj OBJ_STRING OBJ_ENCODING_EMBSTR (PSds bs) 1) Hok)
      as (emb & s1 & Halloc & Hok1 & _ & Hv1 & _ & Hst1%heap_val_step); [destruct Hs; [by constructor..|done]|done|].
    erewrite bind_run by exact Halloc.
    destruct (decrRefCount_spec s1 (emb :: E) o) as (s2 & Hdecr & Hok2 & Hst2).
    { eapply store_ok_perm; [|exact Hok1]. apply Permutation_swap. }
    erewrite bind_run by exact Hdecr. apply heap_val_step in Hst2.
    exists emb, s2. split_and!; [done|done| |].
    + destruct Hst2 as (_ & _ & Hk). rewrite Hk by (apply refs_ext; set_solver). done.
    + eapply val_step_trans.
      * eapply val_step_mono; [|exact Hst1]. apply refs_cons_sub.
      * eapply val_step_mono; [|exact Hst2]. rewrite <- (val_step_refs E _ _ _ Hst1). apply refs_cons_sub.
Qed.

(** ** The databases *)

Lemma store_ok_with_dict f s E E' :
  store_ok s E -> dict_refs (f (dict s)) ++ E' ≡ₚ refs s E -> dom (expires s) ⊆ dom (f (dict s)) ->
  store_ok (with_dict f s) E'.
Proof.
  intros [H1 H2 H3 H4] Hp Hd. split; [|done| |done]; unfold refs; cbn [dict with_dict objs].
  - intros p r Hr. rewrite (occ_perm _ _ _ Hp). by apply H1.
  - intros o Ho. rewrite Hp in Ho. by apply H3.
Qed.

Lemma view_insert s k o k' :
  view (with_dict (insert k o) s) k' = if decide (k' = k) then val_at s o else view s k'.
Proof.
  unfold view. cbn [dict with_dict]. destruct (decide (k' = k)) as [->|Hne].
  - by rewrite lookup_insert_eq.
  - by rewrite lookup_insert_ne by done.
Qed.

Lemma view_delete s k k' :
  view (with_dict (delete k) s) k' = if decide (k' = k) then None else view s k'.
Proof.
  unfold view. cbn [dict with_dict]. destruct (decide (k' = k)) as [->|Hne].
  - by rewrite lookup_delete_eq.
  - by rewrite lookup_delete_ne by done.
Qed.

Lemma dict_add_ok s E k o :
  store_ok s (o :: E) -> dict s !! k = None -> store_ok (with_dict (insert k o) s) E.
Proof.
  intros Hok Hk. eapply store_ok_with_dict; [done| |].
  - rewrite dict_refs_insert by done. unfold refs. by rewrite <- Permutation_middle.
  - rewrite dom_insert. pose proof (ok_expires _ _ Hok). set_solver.
Qed.

Lemma dict_set_ok s E k o old :
  store_ok s (o :: E) -> dict s !! k = Some old -> store_ok (with_dict (insert k o) s) (old :: E).
Proof.
  intros Hok Hk. eapply store_ok_with_dict; [done| |].
  - rewrite <- insert_delete_eq, dict_refs_insert by apply lookup_delete_eq. unfold refs.
    rewrite (dict_refs_delete _ k old Hk). rewrite <- !Permutation_middle. simpl. by rewrite Permutation_swap.
  - rewrite dom_insert. pose proof (ok_expires _ _ Hok). set_solver.
Qed.

Lemma dict_delete_ok s E k old :
  store_ok s E -> dict s !! k = Some old -> expires s !! k = None -> store_ok (with_dict (delete k) s) (old :: E).
Proof.
  intros Hok Hk He. eapply store_ok_with_dict; [done| |].
  - unfold refs. rewrite (dict_refs_delete _ k old Hk). by rewrite <- Permutation_middle.
  - rewrite dom_delete. apply not_elem_of_dom in He. pose proof (ok_expires _ _ Hok). set_solver.
Qed.

Lemma expires_ok f s E : store_ok s E -> dom (f (expires s)) ⊆ dom (dict s) -> store_ok (with_expires f s) E.
Proof. intros [H1 H2 H3 H4] Hd. by split. Qed.

Lemma expires_delete_ok s E k : store_ok s E -> store_ok (with_expires (delete k) s) E.
Proof. intros Hok. apply expires_ok; [done|]. rewrite dom_delete. pose proof (ok_expires _ _ Hok). set_solver. Qed.
