(* ===== verification/Server.v ===== *)
(** * The state of the server (server.h)

    The parts of [struct redisServer], [struct redisDb] and [struct client] that the
    commands on keys read and write. The array of databases is represented by maps
    whose keys are a database number and a key name: [dict] and [expires] (in the
    [store] of Object.v) and [watched_keys], which holds for a name the key object and
    the clients that watch it. Clients are named by numbers. The clock is
    a sequence of readings, one for each call of [mstime()]; the calls of
    [notifyKeyspaceEvent], of the propagation functions and of [signalKeyAsReady] are
    recorded in the order in which they happen. *)

From stdpp Require Export strings.
From S2P Require Import Prelude Sds Data State Object.

Open Scope Z_scope.

(** A reply: the shared objects by name, and the formatted ones. The shared integers
    [shared.czero] and [shared.cone] are [RInt 0] and [RInt 1]. *)
Inductive reply : Type :=
| R_ok | R_nullbulk | R_nullmultibulk | R_emptybulk | R_emptymultibulk | R_queued
| R_wrongtypeerr | R_syntaxerr | R_nokeyerr | R_outofrangeerr | R_sameobjecterr | R_execaborterr
| R_roslaveerr | R_busykeyerr
| RInt (n : Z)
| RBulk (s : sds)
| RMultiBulkLen (n : Z)
| RStatus (msg : string)
| RError (msg : string).

(** The commands that are modelled. *)
Inductive redisCommand : Type :=
| SET | SETNX | SETEX | PSETEX | GET | GETSET
| SETRANGE | GETRANGE | MGET | MSET | MSETNX
| INCR | DECR | INCRBY | DECRBY | APPEND | STRLEN
| DEL | UNLINK | EXISTS | SELECT | TYPE
| RENAME | RENAMENX | MOVE | SWAPDB
| EXPIRE | EXPIREAT | PEXPIRE | PEXPIREAT
| TTL | PTTL | PERSIST | TOUCH
| SETBIT | GETBIT | BITFIELD | BITOP
| SADD | SREM | SMOVE | SISMEMBER | SCARD | SMEMBERS | SINTER | SINTERSTORE | SUNION | SUNIONSTORE | SDIFF | SDIFFSTORE
| HSET | HSETNX | HGET | HMSET | HMGET | HINCRBY | HDEL | HLEN | HSTRLEN | HKEYS | HVALS | HGETALL | HEXISTS
| DUMP | RESTORE
| MULTI | EXEC | DISCARD | WATCH | UNWATCH.

#[global] Instance redisCommand_eq_dec : EqDecision redisCommand.
Proof. solve_decision. Defined.

(** An entry of [c->watched_keys]; the key is an object of its own. *)
Record watchedKey : Type := WatchedKey { wk_key : oid; wk_db : Z }.

(** [flags] has a boolean for each flag that is modelled; [watched] is
    [c->watched_keys]. *)
Record client : Type := Client {
  c_db : Z;
  CLIENT_MASTER : bool;
  CLIENT_MULTI : bool;
  CLIENT_DIRTY_CAS : bool;
  CLIENT_DIRTY_EXEC : bool;
  mstate : list (redisCommand * list oid);
  watched : list watchedKey;
  replies : list reply
}.

Inductive event_class : Type := NOTIFY_STRING | NOTIFY_GENERIC | NOTIFY_EXPIRED | NOTIFY_SET | NOTIFY_HASH.

Record event : Type := Event {
  ev_class : event_class;
  ev_name : string;
  ev_key : sds;
  ev_db : Z
}.

(** What is sent to the replicas and the append only file. *)
Inductive propagation : Type :=
| PropagateDel (lazy : bool) (db : Z) (key : sds)
| PropagateMulti (db : Z)
| PropagateCommand (db : Z) (argv : list sds).

(** Configuration and environment. [masterhost] tells whether this is a replica;
    [lua_time_start] is set while a script runs; [share] is true when
    [server.maxmemory == 0] or the policy has not [MAXMEMORY_FLAG_NO_SHARED_INTEGERS];
    [free_effort] is the number of allocations of the data of the types that are opaque; [lzf_table] is what
    the table of the compressor holds, which is not initialised; [qsort_tie] is the order in which [qsort] leaves sets
    of the same size, which the C library does not specify; [data_env] is what the hash tables and the compact encodings need of the process. *)
Record config : Type := Config {
  dbnum : Z;
  masterhost : bool;
  master : option Z;
  loading : bool;
  lua_time_start : option Z;
  lazyfree_lazy_server_del : bool;
  lazyfree_lazy_expire : bool;
  repl_slave_ro : bool;
  share : bool;
  free_effort : Z -> Z;
  set_max_intset_entries : Z;
  hash_max_ziplist_entries : Z;
  hash_max_ziplist_value : Z;
  rdb_compression : bool;
  lzf_table : Z -> Z;
  qsort_tie : option oid -> Z;
  data_env : env;
  clock : nat -> Z
}.

Record server : Type := Server {
  conf : config;
  st : store;
  watched_keys : gmap (Z * sds) (oid * list Z);
  clients : gmap Z client;
  dirty : Z;
  stat_keyspace_hits : Z;
  stat_keyspace_misses : Z;
  stat_expiredkeys : Z;
  events : list event;
  propagated : list propagation;
  ready_keys : list (Z * sds);
  slave_keys : gmap sds Z;
  ticks : nat;
  current : option (Z * bool)
}.

Definition upd_st (f : store -> store) (s : server) : server :=
  Server (conf s) (f (st s)) (watched_keys s) (clients s) (dirty s) (stat_keyspace_hits s) (stat_keyspace_misses s) (stat_expiredkeys s) (events s) (propagated s) (ready_keys s) (slave_keys s) (ticks s) (current s).
Definition upd_watched_keys (f : gmap (Z * sds) (oid * list Z) -> gmap (Z * sds) (oid * list Z)) (s : server) : server :=
  Server (conf s) (st s) (f (watched_keys s)) (clients s) (dirty s) (stat_keyspace_hits s) (stat_keyspace_misses s) (stat_expiredkeys s) (events s) (propagated s) (ready_keys s) (slave_keys s) (ticks s) (current s).
Definition upd_clients (f : gmap Z client -> gmap Z client) (s : server) : server :=
  Server (conf s) (st s) (watched_keys s) (f (clients s)) (dirty s) (stat_keyspace_hits s) (stat_keyspace_misses s) (stat_expiredkeys s) (events s) (propagated s) (ready_keys s) (slave_keys s) (ticks s) (current s).
Definition upd_dirty (f : Z -> Z) (s : server) : server :=
  Server (conf s) (st s) (watched_keys s) (clients s) (f (dirty s)) (stat_keyspace_hits s) (stat_keyspace_misses s) (stat_expiredkeys s) (events s) (propagated s) (ready_keys s) (slave_keys s) (ticks s) (current s).
Definition upd_stat_keyspace_hits (f : Z -> Z) (s : server) : server :=
  Server (conf s) (st s) (watched_keys s) (clients s) (dirty s) (f (stat_keyspace_hits s)) (stat_keyspace_misses s) (stat_expiredkeys s) (events s) (propagated s) (ready_keys s) (slave_keys s) (ticks s) (current s).
Definition upd_stat_keyspace_misses (f : Z -> Z) (s : server) : server :=
  Server (conf s) (st s) (watched_keys s) (clients s) (dirty s) (stat_keyspace_hits s) (f (stat_keyspace_misses s)) (stat_expiredkeys s) (events s) (propagated s) (ready_keys s) (slave_keys s) (ticks s) (current s).
Definition upd_stat_expiredkeys (f : Z -> Z) (s : server) : server :=
  Server (conf s) (st s) (watched_keys s) (clients s) (dirty s) (stat_keyspace_hits s) (stat_keyspace_misses s) (f (stat_expiredkeys s)) (events s) (propagated s) (ready_keys s) (slave_keys s) (ticks s) (current s).
Definition upd_events (f : list event -> list event) (s : server) : server :=
  Server (conf s) (st s) (watched_keys s) (clients s) (dirty s) (stat_keyspace_hits s) (stat_keyspace_misses s) (stat_expiredkeys s) (f (events s)) (propagated s) (ready_keys s) (slave_keys s) (ticks s) (current s).
Definition upd_propagated (f : list propagation -> list propagation) (s : server) : server :=
  Server (conf s) (st s) (watched_keys s) (clients s) (dirty s) (stat_keyspace_hits s) (stat_keyspace_misses s) (stat_expiredkeys s) (events s) (f (propagated s)) (ready_keys s) (slave_keys s) (ticks s) (current s).
Definition upd_ready_keys (f : list (Z * sds) -> list (Z * sds)) (s : server) : server :=
  Server (conf s) (st s) (watched_keys s) (clients s) (dirty s) (stat_keyspace_hits s) (stat_keyspace_misses s) (stat_expiredkeys s) (events s) (propagated s) (f (ready_keys s)) (slave_keys s) (ticks s) (current s).
Definition upd_slave_keys (f : gmap sds Z -> gmap sds Z) (s : server) : server :=
  Server (conf s) (st s) (watched_keys s) (clients s) (dirty s) (stat_keyspace_hits s) (stat_keyspace_misses s) (stat_expiredkeys s) (events s) (propagated s) (ready_keys s) (f (slave_keys s)) (ticks s) (current s).
Definition upd_ticks (f : nat -> nat) (s : server) : server :=
  Server (conf s) (st s) (watched_keys s) (clients s) (dirty s) (stat_keyspace_hits s) (stat_keyspace_misses s) (stat_expiredkeys s) (events s) (propagated s) (ready_keys s) (slave_keys s) (f (ticks s)) (current s).
Definition upd_current (f : option (Z * bool) -> option (Z * bool)) (s : server) : server :=
  Server (conf s) (st s) (watched_keys s) (clients s) (dirty s) (stat_keyspace_hits s) (stat_keyspace_misses s) (stat_expiredkeys s) (events s) (propagated s) (ready_keys s) (slave_keys s) (ticks s) (f (current s)).

(** The same for clients. *)
Definition set_c_db (v : Z) (c : client) : client :=
  Client v (CLIENT_MASTER c) (CLIENT_MULTI c) (CLIENT_DIRTY_CAS c) (CLIENT_DIRTY_EXEC c) (mstate c) (watched c) (replies c).
Definition set_multi (v : bool) (c : client) : client :=
  Client (c_db c) (CLIENT_MASTER c) v (CLIENT_DIRTY_CAS c) (CLIENT_DIRTY_EXEC c) (mstate c) (watched c) (replies c).
Definition set_dirty_cas (v : bool) (c : client) : client :=
  Client (c_db c) (CLIENT_MASTER c) (CLIENT_MULTI c) v (CLIENT_DIRTY_EXEC c) (mstate c) (watched c) (replies c).
Definition set_dirty_exec (v : bool) (c : client) : client :=
  Client (c_db c) (CLIENT_MASTER c) (CLIENT_MULTI c) (CLIENT_DIRTY_CAS c) v (mstate c) (watched c) (replies c).
Definition set_mstate (v : list (redisCommand * list oid)) (c : client) : client :=
  Client (c_db c) (CLIENT_MASTER c) (CLIENT_MULTI c) (CLIENT_DIRTY_CAS c) (CLIENT_DIRTY_EXEC c) v (watched c) (replies c).
Definition set_watched (v : list watchedKey) (c : client) : client :=
  Client (c_db c) (CLIENT_MASTER c) (CLIENT_MULTI c) (CLIENT_DIRTY_CAS c) (CLIENT_DIRTY_EXEC c) (mstate c) v (replies c).
Definition set_replies (v : list reply) (c : client) : client :=
  Client (c_db c) (CLIENT_MASTER c) (CLIENT_MULTI c) (CLIENT_DIRTY_CAS c) (CLIENT_DIRTY_EXEC c) (mstate c) (watched c) v.

Abbreviation M := (ST server).

(** Runs a computation on the store. *)
Definition in_store {A} (m : ST store A) : M A := zoom st (fun t => upd_st (fun _ => t)) m.

(** ** Effects *)

Definition mstime : M Z :=
  s ← get; _ ← modify (upd_ticks S); mret (clock (conf s) (ticks s)).

Definition this_client (c : Z) : M client := s ← get; lift (clients s !! c).
Definition upd_client (c : Z) (f : client -> client) : M unit := modify (upd_clients (alter f c)).

Definition addReply (c : Z) (r : reply) : M unit := upd_client c (fun cl => set_replies (replies cl ++ [r]) cl).
Definition addReplyLongLong (c n : Z) : M unit := addReply c (RInt n).
Definition addReplyError (c : Z) (msg : string) : M unit := addReply c (RError msg).
Definition addReplyMultiBulkLen (c n : Z) : M unit := addReply c (RMultiBulkLen n).

(** The bytes of a string object, as a bulk. *)
Definition addReplyBulk (c : Z) (o : oid) : M unit :=
  r ← in_store (obj o); bs ← lift (string_bytes r); addReply c (RBulk bs).

Definition notifyKeyspaceEvent (cls : event_class) (name : string) (key : sds) (db : Z) : M unit :=
  modify (upd_events (fun l => l ++ [Event cls name key db])).

Definition incr_dirty (n : Z) : M unit := modify (upd_dirty (fun d => d + n)).

(** [c->db->id], and [c->argv[i]]. *)
Definition client_db (c : Z) : M Z := cl ← this_client c; mret (c_db cl).
Definition arg (argv : list oid) (i : nat) : M oid := lift (argv !! i).

(** The name of a key: the string an argument object holds. *)
Definition arg_sds (argv : list oid) (i : nat) : M sds :=
  o ← arg argv i; r ← in_store (obj o); lift (as_sds r).

(** [true] is the return value 1, after an error was sent. *)
Definition checkType (c : Z) (o : oid) (t : otype) : M bool :=
  r ← in_store (obj o);
  if negb (bool_decide (type r = t)) then _ ← addReply c R_wrongtypeerr; mret true else mret false.

(** [None] is [C_ERR], after an error was sent. *)
Definition getLongLongFromObjectOrReply (c : Z) (o : option oid) (msg : option string) : M (option Z) :=
  v ← in_store (getLongLongFromObject o);
  match v with
  | Some v => mret (Some v)
  | None =>
      _ ← addReplyError c (match msg with Some m => m | None => "value is not an integer or out of range"%string end);
      mret None
  end.

Definition getLongFromObjectOrReply (c : Z) (o : option oid) (msg : option string) : M (option Z) :=
  v ← getLongLongFromObjectOrReply c o msg;
  match v with
  | Some v =>
      if (v <? Util.LONG_MIN) || (v >? Util.LONG_MAX) then
        _ ← addReplyError c (match msg with Some m => m | None => "value is out of range"%string end);
        mret None
      else mret (Some v)
  | None => mret None
  end.
