(* ===== verification/Db.v ===== *)
(** * The key space and its commands (db.c, expire.c, lazyfree.c)

    Lookup with lazy expiration, the writes of the key space, and the commands on keys
    that do not depend on the type of the value. The access time of objects ([lru])
    is not part of the model, and the server is not in cluster mode. *)

From S2P Require Import Prelude Util Sds Dict Data State Object Server.

(** ** Lazy freeing *)

Definition LAZYFREE_THRESHOLD : Z := 64.

Definition lazyfreeGetFreeEffort (r : robj) : M Z :=
  s ← get;
  mret (match ptr r with
        | PData (DSet d) => dictSize d
        | PData (DHash d) => dictSize d
        | PData (DOther n) => free_effort (conf s) n
        | _ => 1
        end).

(** An object handed to the background thread leaves the heap of the main thread. *)
Definition freeObjAsync (o : oid) : M unit :=
  r ← in_store (obj o);
  free_effort ← lazyfreeGetFreeEffort r;
  if (free_effort >? LAZYFREE_THRESHOLD) && (refcount r =? 1) then in_store (free_obj o)
  else in_store (decrRefCount o).

Definition dbSyncDelete (db : Z) (key : sds) : M bool :=
  _ ← in_store (modify (with_expires (delete (db, key))));
  s ← get;
  match dict (st s) !! (db, key) with
  | Some val =>
      _ ← in_store (modify (with_dict (delete (db, key))));
      _ ← in_store (decrRefCount val);
      mret true
  | None => mret false
  end.

Definition dbAsyncDelete (db : Z) (key : sds) : M bool :=
  _ ← in_store (modify (with_expires (delete (db, key))));
  s ← get;
  match dict (st s) !! (db, key) with
  | Some val =>
      _ ← in_store (modify (with_dict (delete (db, key))));
      _ ← freeObjAsync val;
      mret true
  | None => mret false
  end.

Definition dbDelete (db : Z) (key : sds) : M bool :=
  s ← get;
  if lazyfree_lazy_server_del (conf s) then dbAsyncDelete db key else dbSyncDelete db key.

(** The deletion of an expired key. *)
Definition expire_delete (db : Z) (key : sds) : M bool :=
  s ← get;
  if lazyfree_lazy_expire (conf s) then dbAsyncDelete db key else dbSyncDelete db key.

(** ** Expires *)

Definition removeExpire (db : Z) (key : sds) : M bool :=
  s ← get;
  _ ← assert_that (bool_decide (is_Some (dict (st s) !! (db, key))));
  _ ← in_store (modify (with_expires (delete (db, key))));
  mret (bool_decide (is_Some (expires (st s) !! (db, key)))).

Definition rememberSlaveKeyWithExpire (db : Z) (key : sds) : M unit :=
  if db >? 63 then mret tt
  else modify (upd_slave_keys (fun m =>
         let dbids := match m !! key with Some b => b | None => 0 end in
         <[key := Z.lor dbids (wrapu 64 (Z.shiftl 1 db))]> m)).

Definition setExpire (c : option Z) (db : Z) (key : sds) (when : Z) : M unit :=
  s ← get;
  _ ← assert_that (bool_decide (is_Some (dict (st s) !! (db, key))));
  _ ← in_store (modify (with_expires (insert (db, key) when)));
  let writable_slave := masterhost (conf s) && negb (repl_slave_ro (conf s)) in
  match c with
  | Some c =>
      cl ← this_client c;
      if writable_slave && negb (CLIENT_MASTER cl) then rememberSlaveKeyWithExpire db key else mret tt
  | None => mret tt
  end.

Definition getExpire (db : Z) (key : sds) : M Z :=
  s ← get;
  match expires (st s) !! (db, key) with
  | None => mret (-1)
  | Some when =>
      _ ← assert_that (bool_decide (is_Some (dict (st s) !! (db, key))));
      mret when
  end.

Definition propagateExpire (db : Z) (key : sds) (lazy : bool) : M unit :=
  modify (upd_propagated (fun l => (l ++ [PropagateDel lazy db key])%list)).

Definition keyIsExpired (db : Z) (key : sds) : M bool :=
  when ← getExpire db key;
  if when <? 0 then mret false
  else
    s ← get;
    if loading (conf s) then mret false
    else
      now ← (match lua_time_start (conf s) with Some t => mret t | None => mstime end);
      mret (now >? when).

Definition expireIfNeeded (db : Z) (key : sds) : M bool :=
  expired ← keyIsExpired db key;
  if negb expired then mret false
  else
    s ← get;
    if masterhost (conf s) then mret true
    else
      _ ← modify (upd_stat_expiredkeys (fun n => n + 1));
      _ ← propagateExpire db key (lazyfree_lazy_expire (conf s));
      _ ← notifyKeyspaceEvent NOTIFY_EXPIRED "expired" key db;
      expire_delete db key.

(** ** Lookup *)

Definition lookupKey (db : Z) (key : sds) : M (option oid) :=
  gets (fun s => dict (st s) !! (db, key)).

Definition miss : M (option oid) :=
  _ ← modify (upd_stat_keyspace_misses (fun n => n + 1)); mret None.

Definition lookupKeyReadWithFlags (db : Z) (key : sds) : M (option oid) :=
  expired ← expireIfNeeded db key;
  s ← get;
  if expired && negb (masterhost (conf s)) then miss
  else if expired && match current s with
                     | Some (c, readonly) => negb (bool_decide (Some c = master (conf s))) && readonly
                     | None => false
                     end then miss
  else
    val ← lookupKey db key;
    match val with
    | None => miss
    | Some o => _ ← modify (upd_stat_keyspace_hits (fun n => n + 1)); mret (Some o)
    end.

Definition lookupKeyRead (db : Z) (key : sds) : M (option oid) := lookupKeyReadWithFlags db key.

Definition lookupKeyWrite (db : Z) (key : sds) : M (option oid) :=
  _ ← expireIfNeeded db key; lookupKey db key.

Definition lookupKeyReadOrReply (c : Z) (key : sds) (r : reply) : M (option oid) :=
  db ← client_db c;
  o ← lookupKeyRead db key;
  match o with None => _ ← addReply c r; mret None | Some o => mret (Some o) end.

Definition lookupKeyWriteOrReply (c : Z) (key : sds) (r : reply) : M (option oid) :=
  db ← client_db c;
  o ← lookupKeyWrite db key;
  match o with None => _ ← addReply c r; mret None | Some o => mret (Some o) end.

(** ** Writing the key space *)

Definition signalKeyAsReady (db : Z) (key : sds) : M unit :=
  modify (upd_ready_keys (fun l => (l ++ [(db, key)])%list)).

Definition dbAdd (db : Z) (key : sds) (val : oid) : M unit :=
  s ← get;
  _ ← assert_that (bool_decide (dict (st s) !! (db, key) = None));
  _ ← in_store (modify (with_dict (insert (db, key) val)));
  r ← in_store (obj val);
  if bool_decide (type r = OBJ_LIST) || bool_decide (type r = OBJ_ZSET) then signalKeyAsReady db key
  else mret tt.

Definition dbOverwrite (db : Z) (key : sds) (val : oid) : M unit :=
  s ← get;
  old ← lift (dict (st s) !! (db, key));
  _ ← in_store (modify (with_dict (insert (db, key) val)));
  if lazyfree_lazy_server_del (conf s) then freeObjAsync old else in_store (decrRefCount old).

(** [touchWatchedKey] of multi.c. *)
Definition touchWatchedKey (db : Z) (key : sds) : M unit :=
  s ← get;
  match watched_keys s !! (db, key) with
  | None => mret tt
  | Some (_, cs) => for_each (fun c => upd_client c (set_dirty_cas true)) cs
  end.

Definition signalModifiedKey (db : Z) (key : sds) : M unit := touchWatchedKey db key.

Definition setKey (db : Z) (key : sds) (val : oid) : M unit :=
  o ← lookupKeyWrite db key;
  _ ← (match o with None => dbAdd db key val | Some _ => dbOverwrite db key val end);
  _ ← in_store (incrRefCount val);
  _ ← removeExpire db key;
  signalModifiedKey db key.

Definition dbUnshareStringValue (db : Z) (key : sds) (o : oid) : M oid :=
  r ← in_store (obj o);
  _ ← assert_that (bool_decide (type r = OBJ_STRING));
  if negb (refcount r =? 1) || negb (bool_decide (encoding r = OBJ_ENCODING_RAW)) then
    decoded ← in_store (getDecodedObject o);
    d ← in_store (obj decoded);
    bs ← lift (as_sds d);
    o ← in_store (createRawStringObject bs);
    _ ← in_store (decrRefCount decoded);
    _ ← dbOverwrite db key o;
    mret o
  else mret o.

Definition selectDb (c id : Z) : M bool :=
  s ← get;
  if (id <? 0) || (id >=? dbnum (conf s)) then mret false
  else _ ← upd_client c (set_c_db id); mret true.

(** ** Commands on keys *)

(** The loop of DEL and UNLINK, over the arguments after the command name. *)
Fixpoint del_loop (c db : Z) (lazy : bool) (keys : list oid) (numdel : Z) : M Z :=
  match keys with
  | [] => mret numdel
  | o :: keys =>
      r ← in_store (obj o); key ← lift (as_sds r);
      _ ← expireIfNeeded db key;
      deleted ← (if lazy then dbAsyncDelete db key else dbSyncDelete db key);
      if deleted : bool then
        _ ← signalModifiedKey db key;
        _ ← notifyKeyspaceEvent NOTIFY_GENERIC "del" key db;
        _ ← incr_dirty 1;
        del_loop c db lazy keys (numdel + 1)
      else del_loop c db lazy keys numdel
  end.

Definition delGenericCommand (c : Z) (argv : list oid) (lazy : bool) : M (list oid) :=
  db ← client_db c;
  numdel ← del_loop c db lazy (tail argv) 0;
  _ ← addReplyLongLong c numdel;
  mret argv.

Definition delCommand (c : Z) (argv : list oid) : M (list oid) := delGenericCommand c argv false.
Definition unlinkCommand (c : Z) (argv : list oid) : M (list oid) := delGenericCommand c argv true.

Fixpoint exists_loop (db : Z) (keys : list oid) (count : Z) : M Z :=
  match keys with
  | [] => mret count
  | o :: keys =>
      r ← in_store (obj o); key ← lift (as_sds r);
      v ← lookupKeyRead db key;
      exists_loop db keys (match v with Some _ => count + 1 | None => count end)
  end.

Definition existsCommand (c : Z) (argv : list oid) : M (list oid) :=
  db ← client_db c;
  count ← exists_loop db (tail argv) 0;
  _ ← addReplyLongLong c count;
  mret argv.

Definition touchCommand (c : Z) (argv : list oid) : M (list oid) :=
  db ← client_db c;
  touched ← exists_loop db (tail argv) 0;
  _ ← addReplyLongLong c touched;
  mret argv.

(** A [long] passed as an [int]. *)
Definition to_int (v : Z) : Z := wraps 32 v.

Definition selectCommand (c : Z) (argv : list oid) : M (list oid) :=
  o ← arg argv 1;
  id ← getLongFromObjectOrReply c (Some o) (Some "invalid DB index"%string);
  match id with
  | None => mret argv
  | Some id =>
      ok ← selectDb c (to_int id);
      _ ← (if ok : bool then addReply c R_ok else addReplyError c "DB index is out of range");
      mret argv
  end.

(** The types of modules have names of their own, which are not modelled. *)
Definition typeCommand (c : Z) (argv : list oid) : M (list oid) :=
  db ← client_db c;
  key ← arg_sds argv 1;
  o ← lookupKeyReadWithFlags db key;
  name ← (match o with
          | None => mret "none"%string
          | Some o =>
              r ← in_store (obj o);
              match type r with
              | OBJ_STRING => mret "string"%string
              | OBJ_LIST => mret "list"%string
              | OBJ_SET => mret "set"%string
              | OBJ_ZSET => mret "zset"%string
              | OBJ_HASH => mret "hash"%string
              | OBJ_STREAM => mret "stream"%string
              | OBJ_MODULE => mret "module"%string
              end
          end);
  _ ← addReply c (RStatus name);
  mret argv.

Definition renameGenericCommand (c : Z) (argv : list oid) (nx : bool) : M (list oid) :=
  db ← client_db c;
  src ← arg_sds argv 1;
  dst ← arg_sds argv 2;
  let samekey := sdscmp src dst =? 0 in
  o ← lookupKeyWriteOrReply c src R_nokeyerr;
  match o with
  | None => mret argv
  | Some o =>
      if samekey then _ ← addReply c (if nx then RInt 0 else R_ok); mret argv
      else
        _ ← in_store (incrRefCount o);
        expire ← getExpire db src;
        old ← lookupKeyWrite db dst;
        match old, nx with
        | Some _, true => _ ← in_store (decrRefCount o); _ ← addReply c (RInt 0); mret argv
        | _, _ =>
            _ ← (match old with Some _ => dbDelete db dst | None => mret true end);
            _ ← dbAdd db dst o;
            _ ← (if negb (expire =? -1) then setExpire (Some c) db dst expire else mret tt);
            _ ← dbDelete db src;
            _ ← signalModifiedKey db src;
            _ ← signalModifiedKey db dst;
            _ ← notifyKeyspaceEvent NOTIFY_GENERIC "rename_from" src db;
            _ ← notifyKeyspaceEvent NOTIFY_GENERIC "rename_to" dst db;
            _ ← incr_dirty 1;
            _ ← addReply c (if nx then RInt 1 else R_ok);
            mret argv
        end
  end.

Definition renameCommand (c : Z) (argv : list oid) : M (list oid) := renameGenericCommand c argv false.
Definition renamenxCommand (c : Z) (argv : list oid) : M (list oid) := renameGenericCommand c argv true.

Definition INT_MIN : Z := - 2 ^ 31.
Definition INT_MAX : Z := 2 ^ 31 - 1.

Definition moveCommand (c : Z) (argv : list oid) : M (list oid) :=
  srcid ← client_db c;
  key ← arg_sds argv 1;
  o ← arg argv 2;
  dbid ← in_store (getLongLongFromObject (Some o));
  dst ← (match dbid with
         | None => mret None
         | Some dbid =>
             if (dbid <? INT_MIN) || (dbid >? INT_MAX) then mret None
             else ok ← selectDb c dbid; mret (if ok : bool then Some dbid else None)
         end);
  match dst with
  | None => _ ← addReply c R_outofrangeerr; mret argv
  | Some dst =>
      _ ← selectDb c srcid;
      if srcid =? dst then _ ← addReply c R_sameobjecterr; mret argv
      else
        o ← lookupKeyWrite srcid key;
        match o with
        | None => _ ← addReply c (RInt 0); mret argv
        | Some o =>
            expire ← getExpire srcid key;
            old ← lookupKeyWrite dst key;
            match old with
            | Some _ => _ ← addReply c (RInt 0); mret argv
            | None =>
                _ ← dbAdd dst key o;
                _ ← (if negb (expire =? -1) then setExpire (Some c) dst key expire else mret tt);
                _ ← in_store (incrRefCount o);
                _ ← dbDelete srcid key;
                _ ← incr_dirty 1;
                _ ← addReply c (RInt 1);
                mret argv
            end
        end
  end.

(** Exchanges the numbers of two databases in a map. *)
Definition swap_db (id1 id2 : Z) (k : Z * sds) : Z * sds :=
  (if k.1 =? id1 then id2 else if k.1 =? id2 then id1 else k.1, k.2).

Definition dbSwapDatabases (id1 id2 : Z) : M bool :=
  s ← get;
  if (id1 <? 0) || (id1 >=? dbnum (conf s)) || (id2 <? 0) || (id2 >=? dbnum (conf s)) then mret false
  else if id1 =? id2 then mret true
  else
    _ ← in_store (modify (fun t => Store (objs t) (kmap (swap_db id1 id2) (dict t)) (kmap (swap_db id1 id2) (expires t))));
    mret true.

Definition swapdbCommand (c : Z) (argv : list oid) : M (list oid) :=
  o1 ← arg argv 1;
  id1 ← getLongFromObjectOrReply c (Some o1) (Some "invalid first DB index"%string);
  match id1 with
  | None => mret argv
  | Some id1 =>
      o2 ← arg argv 2;
      id2 ← getLongFromObjectOrReply c (Some o2) (Some "invalid second DB index"%string);
      match id2 with
      | None => mret argv
      | Some id2 =>
          ok ← dbSwapDatabases (to_int id1) (to_int id2);
          if ok : bool then _ ← incr_dirty 1; _ ← addReply c R_ok; mret argv
          else _ ← addReplyError c "DB index is out of range"; mret argv
      end
  end.

(** ** Commands on expires *)

Inductive time_unit : Type := UNIT_SECONDS | UNIT_MILLISECONDS.

(** Arithmetic of [long long]: an overflow is undefined. *)
Definition ll_arith (v : Z) : M Z :=
  if (LLONG_MIN <=? v) && (v <=? LLONG_MAX) then mret v else fail.

(** The contents of [shared.del] and [shared.unlink]. *)
Definition DEL_NAME : sds := [68; 69; 76].
Definition UNLINK_NAME : sds := [85; 78; 76; 73; 78; 75].

(** [rewriteClientCommandVector(c,2,aux,key)]: the new vector holds references of its own,
    those of the old one are dropped. The shared object [aux] is represented by a
    new string with the same contents. *)
Definition rewriteClientCommandVector (name : sds) (argv : list oid) : M (list oid) :=
  key ← arg argv 1;
  aux ← in_store (createStringObject name);
  _ ← in_store (incrRefCount key);
  _ ← in_store (for_each decrRefCount argv);
  mret [aux; key].

Definition expireGenericCommand (c : Z) (argv : list oid) (basetime : Z) (tu : time_unit) : M (list oid) :=
  db ← client_db c;
  key ← arg_sds argv 1;
  param ← arg argv 2;
  when ← getLongLongFromObjectOrReply c (Some param) None;
  match when with
  | None => mret argv
  | Some when =>
      when ← (match tu with UNIT_SECONDS => ll_arith (when * 1000) | UNIT_MILLISECONDS => mret when end);
      when ← ll_arith (when + basetime);
      o ← lookupKeyWrite db key;
      match o with
      | None => _ ← addReply c (RInt 0); mret argv
      | Some _ =>
          now ← mstime;
          s ← get;
          if (when <=? now) && negb (loading (conf s)) && negb (masterhost (conf s)) then
            deleted ← expire_delete db key;
            _ ← assert_that deleted;
            _ ← incr_dirty 1;
            argv ← rewriteClientCommandVector (if lazyfree_lazy_expire (conf s) then UNLINK_NAME else DEL_NAME) argv;
            _ ← signalModifiedKey db key;
            _ ← notifyKeyspaceEvent NOTIFY_GENERIC "del" key db;
            _ ← addReply c (RInt 1);
            mret argv
          else
            _ ← setExpire (Some c) db key when;
            _ ← addReply c (RInt 1);
            _ ← signalModifiedKey db key;
            _ ← notifyKeyspaceEvent NOTIFY_GENERIC "expire" key db;
            _ ← incr_dirty 1;
            mret argv
      end
  end.

Definition expireCommand (c : Z) (argv : list oid) : M (list oid) :=
  now ← mstime; expireGenericCommand c argv now UNIT_SECONDS.
Definition expireatCommand (c : Z) (argv : list oid) : M (list oid) :=
  expireGenericCommand c argv 0 UNIT_SECONDS.
Definition pexpireCommand (c : Z) (argv : list oid) : M (list oid) :=
  now ← mstime; expireGenericCommand c argv now UNIT_MILLISECONDS.
Definition pexpireatCommand (c : Z) (argv : list oid) : M (list oid) :=
  expireGenericCommand c argv 0 UNIT_MILLISECONDS.

Definition ttlGenericCommand (c : Z) (argv : list oid) (output_ms : bool) : M (list oid) :=
  db ← client_db c;
  key ← arg_sds argv 1;
  o ← lookupKeyReadWithFlags db key;
  match o with
  | None => _ ← addReplyLongLong c (-2); mret argv
  | Some _ =>
      expire ← getExpire db key;
      ttl ← (if negb (expire =? -1) then
               now ← mstime;
               ttl ← ll_arith (expire - now);
               mret (if ttl <? 0 then 0 else ttl)
             else mret (-1));
      if ttl =? -1 then _ ← addReplyLongLong c (-1); mret argv
      else
        out ← (if output_ms then mret ttl else t ← ll_arith (ttl + 500); mret (Z.quot t 1000));
        _ ← addReplyLongLong c out; mret argv
  end.

Definition ttlCommand (c : Z) (argv : list oid) : M (list oid) := ttlGenericCommand c argv false.
Definition pttlCommand (c : Z) (argv : list oid) : M (list oid) := ttlGenericCommand c argv true.

Definition persistCommand (c : Z) (argv : list oid) : M (list oid) :=
  db ← client_db c;
  key ← arg_sds argv 1;
  o ← lookupKeyWrite db key;
  match o with
  | Some _ =>
      removed ← removeExpire db key;
      if removed : bool then _ ← addReply c (RInt 1); _ ← incr_dirty 1; mret argv
      else _ ← addReply c (RInt 0); mret argv
  | None => _ ← addReply c (RInt 0); mret argv
  end.

(** ** Values that are changed in place *)

(** Runs a function of the set or hash type on the object at an address. *)
Definition on_obj {A} (o : oid) (f : env -> robj -> option (robj * A)) : M A :=
  r ← in_store (obj o);
  E ← gets (fun s => data_env (conf s));
  '(r, a) ← lift (f E r);
  _ ← in_store (set_obj o r);
  mret a.

(** The argument string [c->argv[j]->ptr]. *)
Definition sds_of (o : oid) : M sds := r ← in_store (obj o); lift (as_sds r).
