(* ===== verification/DbSpec.v ===== *)
(** * What the key space functions do (specification of Db.v)

    The functions of Db.v in terms of the values and expire times the databases hold,
    under the invariant of exact reference counting. *)

From S2P Require Import Prelude Util Sds State Object Server Db.

(** ** Running a computation on the store *)

Definition with_st (t : store) (s : server) : server := upd_st (fun _ => t) s.

Lemma in_store_run {A} (m : ST store A) s a t :
  m (st s) = Some (a, t) -> in_store m s = Some (a, with_st t s).
Proof. apply zoom_run. Qed.

Lemma in_store_same {A} (m : ST store A) s a :
  m (st s) = Some (a, st s) -> in_store m s = Some (a, s).
Proof. intros H. rewrite (in_store_run _ _ _ _ H). by destruct s. Qed.

Lemma with_st_st t s : st (with_st t s) = t.
Proof. done. Qed.
Lemma with_st_with_st t t' s : with_st t' (with_st t s) = with_st t' s.
Proof. done. Qed.
Lemma with_st_id s : with_st (st s) s = s.
Proof. by destruct s. Qed.

(** The parts of the server that the key space functions leave alone. *)
Definition quiet (s s' : server) : Prop :=
  conf s' = conf s /\ watched_keys s' = watched_keys s /\ clients s' = clients s /\
  dirty s' = dirty s /\ current s' = current s.

Lemma quiet_refl s : quiet s s.
Proof. done. Qed.
Lemma quiet_with_st t s : quiet s (with_st t s).
Proof. done. Qed.
Lemma quiet_trans a b c : quiet a b -> quiet b c -> quiet a c.
Proof. unfold quiet. intuition congruence. Qed.
#[export] Hint Resolve quiet_refl quiet_with_st : redis.

(** ** Deletion *)

(** [k] is gone; the other keys and the references of [E] are as before. *)
Definition del_step (k : Z * sds) (E : list oid) (t t' : store) : Prop :=
  dict t' = delete k (dict t) /\ expires t' = delete k (expires t) /\ kept (refs t' E) t t'.

Lemma free_obj_decr o t r : obj_at t o = Some r -> refcount r = 1 -> free_obj o t = decrRefCount o t.
Proof.
  intros Hr H1. unfold decrRefCount. erewrite bind_run by (unfold obj; run; by apply lift_run).
  by rewrite H1.
Qed.

Lemma freeObjAsync_spec s E o :
  store_ok (st s) (o :: E) ->
  exists t, freeObjAsync o s = Some (tt, with_st t s) /\ store_ok t E /\ heap_step (refs (st s) E) (st s) t.
Proof.
  intros Hok. destruct (obj_run _ _ o Hok) as (r & Hrun & Hr); [apply refs_ext; set_solver|].
  destruct (decrRefCount_spec (st s) E o Hok) as (t & Hdecr & Hok' & Hstep). exists t. split_and!; [|done..].
  unfold freeObjAsync. erewrite bind_run by (by apply in_store_same). unfold lazyfreeGetFreeEffort. run.
  case_if; [|by apply in_store_run]. apply in_store_run. by erewrite free_obj_decr.
Qed.

Lemma delete_entry t E k val :
  store_ok t E -> dict t !! k = Some val -> expires t !! k = None ->
  store_ok (with_dict (delete k) t) (val :: E).
Proof. apply dict_delete_ok. Qed.

Lemma delete_none {A} (m : gmap (Z * sds) A) k : m !! k = None -> delete k m = m.
Proof. apply delete_id. Qed.

Lemma del_step_absent k E t : dict t !! k = None -> store_ok t E -> del_step k E t (with_expires (delete k) t).
Proof.
  intros Hk Hok. split_and!; [by rewrite delete_id|done|]. intros o Ho.
  destruct (ok_live _ _ Hok o Ho) as [r Hr]. by exists r, r.
Qed.

Lemma del_step_heap k E t t' :
  heap_step (refs (with_dict (delete k) (with_expires (delete k) t)) E) (with_dict (delete k) (with_expires (delete k) t)) t' ->
  del_step k E t t'.
Proof.
  intros (Hd & He & Hv). split_and!; [done..|]. intros o Ho. unfold refs in Ho. rewrite Hd in Ho.
  by apply Hv in Ho.
Qed.

Section delete.
Context (s : server) (E : list oid) (db : Z) (key : sds) (Hok : store_ok (st s) E).

Lemma dbSyncDelete_spec :
  exists t, dbSyncDelete db key s = Some (bool_decide (is_Some (dict (st s) !! (db, key))), with_st t s) /\
    store_ok t E /\ del_step (db, key) E (st s) t.
Proof.
  unfold dbSyncDelete. erewrite bind_run by (by apply in_store_run). run. cbn [st with_st upd_st dict with_expires].
  pose proof (expires_delete_ok _ _ (db, key) Hok) as Hok1.
  destruct (dict (st s) !! (db, key)) as [val|] eqn:Hk.
  - erewrite bind_run by (by apply in_store_run).
    pose proof (dict_delete_ok _ _ (db, key) val Hok1 Hk (lookup_delete_eq _ _)) as Hok2.
    destruct (decrRefCount_spec _ E val Hok2) as (t & Hdecr & Hok3 & Hstep).
    erewrite bind_run by (apply in_store_run; exact Hdecr). exists t. split_and!; [done|done|].
    by apply del_step_heap.
  - exists (with_expires (delete (db, key)) (st s)). split_and!; [done|done|by apply del_step_absent].
Qed.

Lemma dbAsyncDelete_spec :
  exists t, dbAsyncDelete db key s = Some (bool_decide (is_Some (dict (st s) !! (db, key))), with_st t s) /\
    store_ok t E /\ del_step (db, key) E (st s) t.
Proof.
  unfold dbAsyncDelete. erewrite bind_run by (by apply in_store_run). run. cbn [st with_st upd_st dict with_expires].
  pose proof (expires_delete_ok _ _ (db, key) Hok) as Hok1.
  destruct (dict (st s) !! (db, key)) as [val|] eqn:Hk.
  - erewrite bind_run by (by apply in_store_run).
    pose proof (dict_delete_ok _ _ (db, key) val Hok1 Hk (lookup_delete_eq _ _)) as Hok2.
    destruct (freeObjAsync_spec (with_st (with_dict (delete (db, key)) (with_expires (delete (db, key)) (st s))) s) E val)
      as (t & Hfree & Hok3 & Hstep); [done|].
    erewrite bind_run by exact Hfree. exists t. split_and!; [done|done|]. by apply del_step_heap.
  - exists (with_expires (delete (db, key)) (st s)). split_and!; [done|done|by apply del_step_absent].
Qed.

Lemma dbDelete_spec :
  exists t, dbDelete db key s = Some (bool_decide (is_Some (dict (st s) !! (db, key))), with_st t s) /\
    store_ok t E /\ del_step (db, key) E (st s) t.
Proof.
  unfold dbDelete. run. destruct (lazyfree_lazy_server_del _); [apply dbAsyncDelete_spec|apply dbSyncDelete_spec].
Qed.

Lemma expire_delete_spec :
  exists t, expire_delete db key s = Some (bool_decide (is_Some (dict (st s) !! (db, key))), with_st t s) /\
    store_ok t E /\ del_step (db, key) E (st s) t.
Proof.
  unfold expire_delete. run. destruct (lazyfree_lazy_expire _); [apply dbAsyncDelete_spec|apply dbSyncDelete_spec].
Qed.
End delete.

(** ** Lazy expiration *)

(** Whether the next check finds [k] expired. *)
Definition expired (s : server) (k : Z * sds) : bool :=
  match expires (st s) !! k with
  | Some when =>
      (0 <=? when) && negb (loading (conf s)) &&
      (match lua_time_start (conf s) with Some t => t | None => clock (conf s) (ticks s) end >? when)
  | None => false
  end.

(** A check that finds an expired key removes it, unless this is a replica. *)
Definition removes (s : server) (k : Z * sds) : bool := expired s k && negb (masterhost (conf s)).

Record expire_step (k : Z * sds) (E : list oid) (s s' : server) : Prop := {
  es_ok : store_ok (st s') E;
  es_quiet : quiet s s';
  es_slave : slave_keys s' = slave_keys s;
  es_ready : ready_keys s' = ready_keys s;
  es_ticks : (ticks s <= ticks s')%nat;
  es_dict : dict (st s') = if removes s k then delete k (dict (st s)) else dict (st s);
  es_expires : expires (st s') = if removes s k then delete k (expires (st s)) else expires (st s);
  es_kept : kept (refs (st s') E) (st s) (st s');
  es_same : removes s k = false -> st s' = st s
}.

Lemma es_val k E s s' o : expire_step k E s s' -> o ∈ refs (st s') E -> val_at (st s') o = val_at (st s) o.
Proof. intros Hes. eapply kept_val, Hes. Qed.

Lemma kept_refl t E : store_ok t E -> kept (refs t E) t t.
Proof. intros Hok o Ho. destruct (ok_live _ _ Hok o Ho) as [r Hr]. by exists r, r. Qed.

Lemma getExpire_spec s E db key :
  store_ok (st s) E ->
  getExpire db key s = Some (match expires (st s) !! (db, key) with Some w => w | None => -1 end, s).
Proof.
  intros Hok. unfold getExpire. run. destruct (expires (st s) !! (db, key)) as [w|] eqn:He; [|done].
  erewrite bind_run; [done|]. apply assert_run, bool_decide_eq_true_2.
  apply elem_of_dom. apply (ok_expires _ _ Hok). by apply elem_of_dom.
Qed.

Lemma keyIsExpired_spec s E db key :
  store_ok (st s) E ->
  exists n, (ticks s <= n)%nat /\ keyIsExpired db key s = Some (expired s (db, key), upd_ticks (fun _ => n) s).
Proof.
  intros Hok. unfold keyIsExpired, expired. rewrite (bind_run _ _ _ _ _ (getExpire_spec s E db key Hok)).
  assert (upd_ticks (fun _ => ticks s) s = s) as Hid by (by destruct s).
  destruct (expires (st s) !! (db, key)) as [w|] eqn:He.
  2:{ cbn. exists (ticks s). split; [done|]. by rewrite Hid. }
  destruct (Z.ltb_spec w 0).
  { exists (ticks s). split; [done|]. rewrite (proj2 (Z.leb_gt 0 w)), Hid by lia. done. }
  rewrite (proj2 (Z.leb_le 0 w)) by lia. run. destruct (loading (conf s)).
  { exists (ticks s). split; [done|]. by rewrite Hid. }
  destruct (lua_time_start (conf s)) as [t|]; cbn [negb andb].
  - exists (ticks s). split; [done|]. run. by rewrite Hid.
  - exists (S (ticks s)). split; [lia|done].
Qed.

Lemma expireIfNeeded_spec s E db key :
  store_ok (st s) E ->
  exists s', expireIfNeeded db key s = Some (expired s (db, key), s') /\ expire_step (db, key) E s s'.
Proof.
  intros Hok. destruct (keyIsExpired_spec s E db key Hok) as (n & Hn & Hexp). unfold expireIfNeeded.
  erewrite bind_run by exact Hexp. destruct (expired s (db, key)) eqn:Hx; cbn [negb].
  2:{ eexists. split; [done|]. split; cbn; unfold removes; rewrite ?Hx; try done. by apply kept_refl. }
  run. cbn [conf upd_ticks]. destruct (masterhost (conf s)) eqn:Hm.
  { eexists. split; [done|]. split; cbn; unfold removes; rewrite ?Hx, ?Hm; try done. by apply kept_refl. }
  run. unfold propagateExpire, notifyKeyspaceEvent. run.
  match goal with |- context [expire_delete db key ?s1] => set (s1' := s1) end.
  destruct (expire_delete_spec s1' E db key Hok) as (t & Hdel & Hok' & Hd & He & Hv).
  assert (is_Some (dict (st s) !! (db, key))) as Hsome.
  { apply elem_of_dom, (ok_expires _ _ Hok), elem_of_dom. unfold expired in Hx.
    by destruct (expires (st s) !! (db, key)). }
  exists (with_st t s1'). split.
  - rewrite Hdel. by rewrite bool_decide_true by exact Hsome.
  - split; try done; unfold removes; rewrite Hx, Hm; done.
Qed.

(** ** Views of the databases *)

(** The values at all references of [t'] are those of [t]. *)
Definition vals_kept (E : list oid) (t t' : store) : Prop :=
  forall o, o ∈ refs t' E -> val_at t' o = val_at t o.

Lemma kept_vals E t t' : kept (refs t' E) t t' -> vals_kept E t t'.
Proof. intros Hk o Ho. by eapply kept_val. Qed.

Lemma view_of_dict E t t' k :
  vals_kept E t t' -> view t' k = dict t' !! k ≫= val_at t.
Proof.
  intros Hv. unfold view. destruct (dict t' !! k) as [o|] eqn:Hk; [|done]. cbn. apply Hv. eauto with redis.
Qed.

Lemma view_of_insert E t t' k o k' :
  vals_kept E t t' -> dict t' = <[k:=o]> (dict t) ->
  view t' k' = if decide (k' = k) then val_at t o else view t k'.
Proof.
  intros Hv Hd. rewrite (view_of_dict E t t' k' Hv), Hd. destruct (decide (k' = k)) as [->|Hne].
  - by rewrite lookup_insert_eq.
  - by rewrite lookup_insert_ne by done.
Qed.

Lemma view_of_delete E t t' k k' :
  vals_kept E t t' -> dict t' = delete k (dict t) ->
  view t' k' = if decide (k' = k) then None else view t k'.
Proof.
  intros Hv Hd. rewrite (view_of_dict E t t' k' Hv), Hd. destruct (decide (k' = k)) as [->|Hne].
  - by rewrite lookup_delete_eq.
  - by rewrite lookup_delete_ne by done.
Qed.

Lemma view_of_same E t t' k' : vals_kept E t t' -> dict t' = dict t -> view t' k' = view t k'.
Proof. intros Hv Hd. by rewrite (view_of_dict E t t' k' Hv), Hd. Qed.

Lemma es_vals k E s s' : expire_step k E s s' -> vals_kept E (st s) (st s').
Proof. intros Hes o Ho. by eapply es_val. Qed.

(** The value a key has once the check for expiration is done. *)
Definition alive (s : server) (k : Z * sds) : option value :=
  if removes s k then None else view (st s) k.

Lemma es_view k E s s' k' :
  expire_step k E s s' -> view (st s') k' = if decide (k' = k) then alive s k else view (st s) k'.
Proof.
  intros Hes. pose proof (es_dict _ _ _ _ Hes) as Hd. pose proof (es_vals _ _ _ _ Hes) as Hv.
  unfold alive. destruct (removes s k).
  - by apply (view_of_delete E).
  - rewrite (view_of_same E (st s)) by done. by destruct (decide (k' = k)) as [->|].
Qed.

Lemma es_ext k E s s' o : expire_step k E s s' -> o ∈ E -> val_at (st s') o = val_at (st s) o.
Proof. intros Hes Ho. eapply es_val; [done|]. by apply refs_ext. Qed.

(** ** Lookup for writing *)

Lemma lookupKeyWrite_spec s E db key :
  store_ok (st s) E ->
  exists s', lookupKeyWrite db key s = Some (dict (st s') !! (db, key), s') /\ expire_step (db, key) E s s'.
Proof.
  intros Hok. destruct (expireIfNeeded_spec s E db key Hok) as (s' & Hrun & Hes).
  exists s'. split; [|done]. unfold lookupKeyWrite. by erewrite bind_run by exact Hrun.
Qed.

(** After the lookup the key has no value or a live object. *)
Lemma found_value k E s s' o :
  expire_step k E s s' -> dict (st s') !! k = Some o -> val_at (st s') o = alive s k /\ o ∈ refs (st s') E.
Proof.
  intros Hes Ho. split; [|by eapply refs_dict].
  pose proof (es_view k E s s' k Hes) as Hview. rewrite decide_True in Hview by done.
  unfold view in Hview. by rewrite Ho in Hview.
Qed.

Lemma absent_value k E s s' :
  expire_step k E s s' -> dict (st s') !! k = None -> alive s k = None.
Proof.
  intros Hes Ho. pose proof (es_view k E s s' k Hes) as Hview. rewrite decide_True in Hview by done.
  unfold view in Hview. by rewrite Ho in Hview.
Qed.

Lemma live_value s E o : store_ok (st s) E -> o ∈ refs (st s) E -> exists v, val_at (st s) o = Some v.
Proof. intros Hok Ho. destruct (ok_live _ _ Hok o Ho) as [r Hr]. exists (val_of r). unfold val_at. by rewrite Hr. Qed.

(** ** Writing a key *)

Definition put (db : Z) (key : sds) (o : oid) (old : option oid) : M unit :=
  match old with None => dbAdd db key o | Some _ => dbOverwrite db key o end.

Lemma put_spec s E db key o :
  store_ok (st s) (o :: E) ->
  exists s', put db key o (dict (st s) !! (db, key)) s = Some (tt, s') /\ store_ok (st s') E /\ quiet s s' /\
    slave_keys s' = slave_keys s /\ ticks s' = ticks s /\
    dict (st s') = <[(db, key):=o]> (dict (st s)) /\ expires (st s') = expires (st s) /\
    kept (refs (st s') E) (st s) (st s').
Proof.
  intros Hok. destruct (dict (st s) !! (db, key)) as [old|] eqn:Hk; cbn [put].
  - unfold dbOverwrite. run.
    pose proof (dict_set_ok _ _ (db, key) o old Hok Hk) as Hok1.
    destruct (lazyfree_lazy_server_del (conf s)).
    + destruct (freeObjAsync_spec (with_st (with_dict (insert (db, key) o) (st s)) s) E old Hok1)
        as (t & Hfree & Hok2 & Hstep). exists (with_st t s).
      destruct Hstep as (Hd & He & Hv). split_and!; try done.
      intros x Hx. unfold refs in Hx. cbn in Hd, Hx |- *. rewrite Hd in Hx. by apply Hv.
    + destruct (decrRefCount_spec (with_dict (insert (db, key) o) (st s)) E old Hok1)
        as (t & Hdecr & Hok2 & Hstep). exists (with_st t s).
      destruct Hstep as (Hd & He & Hv). split_and!; try done.
      * exact (in_store_run _ (with_st (with_dict (insert (db, key) o) (st s)) s) _ _ Hdecr).
      * intros x Hx. unfold refs in Hx. cbn in Hd, Hx |- *. rewrite Hd in Hx. by apply Hv.
  - unfold dbAdd. run. erewrite bind_run by (apply assert_run; by rewrite bool_decide_true).
    erewrite bind_run by (by apply in_store_run).
    pose proof (dict_add_ok _ _ (db, key) o Hok Hk) as Hok1.
    destruct (obj_run _ _ o Hok1) as (r & Hrun & Hr).
    { unfold refs. cbn. apply elem_of_app. left. eapply dict_refs_elem, lookup_insert_eq. }
    erewrite bind_run by (by apply in_store_same). case_if.
    + unfold signalKeyAsReady. eexists. split; [apply modify_run|]. split_and!; try done. by apply (kept_refl _ _ Hok1).
    + eexists. split; [apply ret_run|]. split_and!; try done. by apply (kept_refl _ _ Hok1).
Qed.

(** [dbAdd] does not touch the heap. *)
Lemma dbAdd_objs s db key o a s' : dbAdd db key o s = Some (a, s') -> objs (st s') = objs (st s).
Proof.
  unfold dbAdd. run. unfold assert_that. destruct (bool_decide _); [|done]. run.
  unfold in_store, zoom, obj, mbind, ST_bind. cbn. destruct (obj_at _ o) as [r|]; [|done]. cbn.
  case_if; by intros [= _ <-].
Qed.

(** ** Touching the watchers of a key *)

Definition touch_clients (cs : list Z) (m : gmap Z client) : gmap Z client :=
  foldl (fun m c => alter (set_dirty_cas true) c m) m cs.

Definition watchers (s : server) (k : Z * sds) : list Z :=
  match watched_keys s !! k with Some (_, cs) => cs | None => [] end.

Lemma touch_loop cs s :
  for_each (fun c => upd_client c (set_dirty_cas true)) cs s = Some (tt, upd_clients (touch_clients cs) s).
Proof.
  revert s. induction cs as [|c cs IH]; intros s; cbn [for_each].
  - by destruct s.
  - unfold upd_client at 1. run. rewrite IH. by destruct s.
Qed.

Lemma signalModifiedKey_spec db key s :
  signalModifiedKey db key s = Some (tt, upd_clients (touch_clients (watchers s (db, key))) s).
Proof.
  unfold signalModifiedKey, touchWatchedKey, watchers. run.
  destruct (watched_keys s !! (db, key)) as [[ko cs]|]; [apply touch_loop|]. by destruct s.
Qed.

Lemma touch_clients_lookup cs m c :
  touch_clients cs m !! c = if decide (c ∈ cs) then set_dirty_cas true <$> m !! c else m !! c.
Proof.
  revert m. induction cs as [|d cs IH]; intros m; cbn [touch_clients foldl].
  { by rewrite decide_False by (apply not_elem_of_nil). }
  fold (touch_clients cs (alter (set_dirty_cas true) d m)). rewrite IH.
  destruct (decide (c = d)) as [->|Hne].
  - rewrite lookup_alter_eq, (decide_True (P := d ∈ d :: cs)) by set_solver.
    destruct (decide (d ∈ cs)); [|done]. by destruct (m !! d).
  - rewrite lookup_alter_ne by done. destruct (decide (c ∈ cs)).
    + by rewrite decide_True by set_solver.
    + by rewrite decide_False by set_solver.
Qed.

(** ** [setKey] *)

Lemma removeExpire_spec s db key :
  is_Some (dict (st s) !! (db, key)) ->
  removeExpire db key s =
    Some (bool_decide (is_Some (expires (st s) !! (db, key))), with_st (with_expires (delete (db, key)) (st s)) s).
Proof.
  intros Hk. unfold removeExpire. run. erewrite bind_run by (apply assert_run; by rewrite bool_decide_true).
  by erewrite bind_run by (by apply in_store_run).
Qed.

(** [setKey] binds the key to the object, without expire time, and touches the key. *)
Lemma setKey_spec s E db key o :
  store_ok (st s) (o :: E) ->
  exists s', setKey db key o s = Some (tt, s') /\ store_ok (st s') (o :: E) /\
    conf s' = conf s /\ watched_keys s' = watched_keys s /\ dirty s' = dirty s /\ current s' = current s /\
    (ticks s <= ticks s')%nat /\ dict (st s') !! (db, key) = Some o /\
    clients s' = touch_clients (watchers s (db, key)) (clients s) /\
    (forall k, view (st s') k = if decide (k = (db, key)) then val_at (st s) o else view (st s) k) /\
    expires (st s') = delete (db, key) (expires (st s)) /\
    (forall x, x ∈ o :: E -> val_at (st s') x = val_at (st s) x).
Proof.
  intros Hok. destruct (lookupKeyWrite_spec s (o :: E) db key Hok) as (s1 & Hl & Hes).
  unfold setKey. erewrite bind_run by exact Hl.
  destruct (put_spec s1 E db key o (es_ok _ _ _ _ Hes)) as (s2 & Hput & Hok2 & Hq2 & _ & Htk2 & Hd2 & He2 & Hv2%kept_vals).
  fold (put db key o (dict (st s1) !! (db, key))). erewrite bind_run by exact Hput.
  assert (dict (st s2) !! (db, key) = Some o) as Hk2 by (by rewrite Hd2, lookup_insert_eq).
  destruct (incrRefCount_spec (st s2) E o Hok2 (refs_dict _ _ _ _ Hk2)) as (t3 & Hincr & Hok3 & Hst3).
  erewrite bind_run by (apply in_store_run; exact Hincr).
  pose proof (heap_val_step _ _ _ Hst3) as (Hd3 & He3 & Hv3).
  erewrite bind_run by (apply removeExpire_spec; cbn; rewrite Hd3, Hk2; by eexists).
  destruct Hq2 as (Hc2 & Hw2 & Hcl2 & Hdi2 & Hcu2). destruct (es_quiet _ _ _ _ Hes) as (Hc1 & Hw1 & Hcl1 & Hdi1 & Hcu1).
  eexists. split; [apply signalModifiedKey_spec|]. cbn. unfold watchers. cbn.
  assert (forall x, x ∈ refs (st s2) E -> val_at t3 x = val_at (st s) x) as Hall.
  { intros x Hx. rewrite Hv3, Hv2 by done. unfold refs in Hx. rewrite Hd2 in Hx.
    destruct (decide (x = o)) as [->|Hne].
    { eapply es_ext; [done|set_solver]. }
    eapply es_val; [done|]. unfold refs. apply elem_of_app in Hx as [Hx|Hx]; [|set_solver].
    apply list_elem_of_fmap in Hx as ([k y] & -> & Hx%elem_of_map_to_list). cbn in Hne.
    destruct (decide (k = (db, key))) as [->|Hk]; [rewrite lookup_insert_eq in Hx; congruence|].
    rewrite lookup_insert_ne in Hx by done. apply elem_of_app. left. by eapply dict_refs_elem. }
  split_and!; try congruence.
  - by apply expires_delete_ok.
  - rewrite Htk2. apply Hes.
  - by rewrite Hw2, Hw1, Hcl2, Hcl1.
  - intros k. change (view (with_expires _ t3) k) with (view t3 k).
    rewrite (view_of_dict E (st s)) by (intros x Hx; unfold refs in Hx; rewrite Hd3 in Hx; by apply Hall).
    rewrite Hd3, Hd2. destruct (decide (k = (db, key))) as [->|Hne].
    + by rewrite lookup_insert_eq.
    + rewrite lookup_insert_ne by done. unfold view.
      rewrite (es_dict _ _ _ _ Hes). destruct (removes s (db, key)); [|done]. by rewrite lookup_delete_ne by done.
  - rewrite He3, He2, (es_expires _ _ _ _ Hes). destruct (removes s (db, key)); [|done]. apply delete_delete_eq.
  - intros x Hx. change (val_at (with_expires _ t3) x) with (val_at t3 x). apply Hall.
    apply elem_of_cons in Hx as [->|Hx]; [by eapply refs_dict|by apply refs_ext].
Qed.

(** [setExpire] on a key that exists; on a writable replica the name of the key is remembered. *)
Lemma setExpire_spec s E c cl db key when :
  store_ok (st s) E -> is_Some (dict (st s) !! (db, key)) -> clients s !! c = Some cl ->
  exists f, setExpire (Some c) db key when s =
      Some (tt, upd_slave_keys f (with_st (with_expires (insert (db, key) when) (st s)) s)) /\
    store_ok (with_expires (insert (db, key) when) (st s)) E.
Proof.
  intros Hok Hk Hc. unfold setExpire. run.
  erewrite bind_run by (apply assert_run; by rewrite bool_decide_true).
  erewrite bind_run by (by apply in_store_run).
  erewrite bind_run by (unfold this_client; run; by apply lift_run).
  assert (store_ok (with_expires (insert (db, key) when) (st s)) E) as Hok'.
  { apply expires_ok; [done|]. rewrite dom_insert. apply elem_of_dom in Hk.
    pose proof (ok_expires _ _ Hok). set_solver. }
  case_if; [|by exists id]. unfold rememberSlaveKeyWithExpire. case_if; [by exists id|].
  eexists. split; [apply modify_run|done].
Qed.

(** ** Writing a string in place *)

(** An object with the count 1 that is bound to a key can be written: no other key and no other
    reference sees it. *)
Lemma write_obj t E k o r r' :
  store_ok t E -> dict t !! k = Some o -> obj_at t o = Some r -> refcount r = 1 ->
  robj_ok r' -> refcount r' = 1 ->
  exists t', set_obj o r' t = Some (tt, t') /\ store_ok t' E /\
    dict t' = dict t /\ expires t' = expires t /\ obj_at t' o = Some r' /\
    (forall k', view t' k' = if decide (k' = k) then Some (val_of r') else view t k') /\
    (forall x, x ∈ E -> val_at t' x = val_at t x).
Proof.
  intros Hok Hk Hr H1 Hr' H1'.
  destruct (set_obj_spec t E o r r' Hok Hr H1 Hr' H1') as (t' & Hset & Hok' & Hd & Hx & Ho & Hne).
  exists t'. split_and!; [done..| |].
  - intros k'. unfold view. rewrite Hd. destruct (decide (k' = k)) as [->|Hk'].
    + rewrite Hk. cbn. unfold val_at. by rewrite Ho.
    + destruct (dict t !! k') as [x|] eqn:Hx'; [|done]. cbn. apply val_at_ext, Hne. intros ->.
      apply Hk'. by eapply (exclusive_key t E o).
  - intros x Hx'. apply val_at_ext, Hne. intros ->.
    pose proof (exclusive t E o _ Hok Hr H1) as Hocc. unfold refs in Hocc. rewrite occ_app in Hocc.
    apply occ_pos in Hx'. apply dict_refs_elem, occ_pos in Hk. lia.
Qed.

Lemma refcount_live t E o r : store_ok t E -> obj_at t o = Some r -> 0 < refcount r.
Proof.
  intros Hok Hr. destruct o as [n|p].
  - rewrite (shared_refcount _ _ _ Hr). unfold OBJ_SHARED_REFCOUNT. lia.
  - pose proof (count_ok_pos _ _ (ok_count _ _ Hok p r Hr)). lia.
Qed.

Lemma freeObjAsync_other o s a s' x :
  freeObjAsync o s = Some (a, s') -> x <> o -> obj_at (st s') x = obj_at (st s) x.
Proof.
  unfold freeObjAsync, lazyfreeGetFreeEffort, obj, in_store, zoom, mbind, ST_bind, get.
  destruct (obj_at (st s) o) as [r|] eqn:Hr; [|done]. cbn [lift mret ST_ret].
  case_if; change (st (upd_st (fun _ => st s) s)) with (st s).
  - destruct (free_obj o (st s)) as [[b t]|] eqn:Hf; [|done]. intros [= _ <-]. cbn. by eapply free_obj_other.
  - destruct (decrRefCount o (st s)) as [[b t]|] eqn:Hf; [|done]. intros [= _ <-]. cbn. by eapply decrRefCount_other.
Qed.

(** [dbOverwrite] does not touch the new object. *)
Lemma dbOverwrite_keeps s db key o old a s' :
  dict (st s) !! (db, key) = Some old -> o <> old ->
  dbOverwrite db key o s = Some (a, s') -> obj_at (st s') o = obj_at (st s) o.
Proof.
  intros Hk Hne. unfold dbOverwrite. run. destruct (lazyfree_lazy_server_del (conf s)).
  - intros Hf. by eapply freeObjAsync_other in Hf as ->.
  - unfold in_store, zoom. cbn [st upd_st].
    destruct (decrRefCount old _) as [[b t]|] eqn:Hf; [|done]. intros [= _ <-]. cbn.
    by eapply decrRefCount_other in Hf as ->.
Qed.

(** [dbUnshareStringValue] leaves the key bound to an unshared raw string with the same bytes. *)
Lemma dbUnshareStringValue_spec s E db key o bs :
  store_ok (st s) E -> dict (st s) !! (db, key) = Some o -> val_at (st s) o = Some (VStr bs) ->
  exists o' s', dbUnshareStringValue db key o s = Some (o', s') /\ store_ok (st s') E /\ quiet s s' /\
    slave_keys s' = slave_keys s /\ ticks s' = ticks s /\
    dict (st s') !! (db, key) = Some o' /\
    obj_at (st s') o' = Some (Robj OBJ_STRING OBJ_ENCODING_RAW (PSds bs) 1) /\
    expires (st s') = expires (st s) /\
    (forall k, view (st s') k = view (st s) k) /\
    (forall x, x ∈ E -> val_at (st s') x = val_at (st s) x).
Proof.
  intros Hok Hk Hv. assert (o ∈ refs (st s) E) as Ho by (by eapply refs_dict).
  destruct (string_run _ _ Hok o bs Ho Hv) as (r & Hrun & Hr & Hs).
  unfold dbUnshareStringValue. erewrite bind_run by (by apply in_store_same).
  erewrite bind_run by (apply assert_run; by rewrite bool_decide_true by (by eapply string_obj_type)).
  destruct (negb (refcount r =? 1) || negb (bool_decide (encoding r = OBJ_ENCODING_RAW))) eqn:Hcopy.
  2:{ exists o, s. apply orb_false_iff in Hcopy as [H1 H2]. apply negb_false_iff in H1, H2. zbool.
      apply bool_decide_eq_true_1 in H2. split_and!; try done.
      destruct Hs; cbn in *; try done. by subst. }
  destruct (getDecodedObject_spec (st s) E o bs Hok Ho Hv) as (dec & t1 & Hdec & Hok1 & Hv1 & Hst1%heap_val_step & rd & Hrd & Hsd & Hed).
  erewrite bind_run by (by apply in_store_run).
  erewrite bind_run by (apply in_store_same; unfold obj; run; by apply lift_run).
  assert (as_sds rd = Some bs) as Hbs by (by destruct Hsd). erewrite bind_run by (by apply lift_run).
  assert (bytes_ok bs) as Hbok by (by destruct Hsd).
  destruct (alloc_string t1 (dec :: E) bs (Robj OBJ_STRING OBJ_ENCODING_RAW (PSds bs) 1) Hok1)
    as (new & t2 & Hnew & Hok2 & Hr2 & Hv2 & Hfresh & Hst2%heap_val_step); [by constructor|done|].
  erewrite bind_run by (by apply in_store_run).
  destruct (decrRefCount_spec t2 (new :: E) dec) as (t3 & Hdecr & Hok3 & Hst3).
  { eapply store_ok_perm; [apply Permutation_swap|done]. }
  erewrite bind_run by (apply in_store_run; exact Hdecr).
  pose proof (heap_val_step _ _ _ Hst3) as Hvs3. rewrite !with_st_with_st. set (s3 := with_st t3 s).
  destruct Hst1 as (Hd1 & He1 & Hk1). pose proof Hst2 as (Hd2 & He2 & Hk2). destruct Hvs3 as (Hd3 & He3 & Hk3).
  assert (dict (st s3) !! (db, key) = Some o) as Hk3' by (cbn; by rewrite Hd3, Hd2, Hd1).
  destruct (put_spec s3 E db key new Hok3) as (s4 & Hput & Hok4 & Hq4 & Hsl4 & Htk4 & Hd4 & He4 & Hv4%kept_vals).
  rewrite Hk3' in Hput. cbn [put] in Hput. erewrite bind_run by exact Hput.
  assert (new <> o) as Hno.
  { intros ->. apply Hfresh. unfold refs. rewrite Hd1. apply elem_of_app. left. by eapply dict_refs_elem. }
  assert (obj_at t3 new = Some (Robj OBJ_STRING OBJ_ENCODING_RAW (PSds bs) 1)) as Hr3.
  { erewrite decrRefCount_other; [done|exact Hdecr|]. intros ->. apply Hfresh, refs_ext. set_solver. }
  exists new, s4. split_and!; try done.
  - by rewrite Hd4, lookup_insert_eq.
  - by rewrite (dbOverwrite_keeps s3 db key new o _ _ Hk3' Hno Hput).
  - rewrite He4. cbn. congruence.
  - intros k. rewrite (view_of_insert E (st s3) (st s4) (db, key) new k Hv4 Hd4).
    assert (forall x, x ∈ refs (st s) E -> val_at t3 x = val_at (st s) x) as Hall.
    { intros x Hx. rewrite Hk3, Hk2, Hk1; [done|done| |].
      - unfold refs in *. rewrite Hd1. set_solver.
      - unfold refs in *. rewrite Hd2, Hd1. set_solver. }
    destruct (decide (k = (db, key))) as [->|Hne].
    + unfold view. rewrite Hk. cbn. rewrite Hv. unfold val_at. by rewrite Hr3.
    + unfold view. cbn. rewrite Hd3, Hd2, Hd1. destruct (dict (st s) !! k) as [x|] eqn:Hx; [|done].
      cbn. apply Hall. by eapply refs_dict.
  - intros x Hx. rewrite Hv4 by (by apply refs_ext). cbn. rewrite Hk3, Hk2, Hk1; [done|..].
    + by apply refs_ext.
    + apply refs_ext. set_solver.
    + apply refs_ext. set_solver.
Qed.
