(* ===== verification/Outcome.v ===== *)
(** * The outcome of a command on one key

    A command on one key is described by its [outcome]: the value and the expire time
    of the key afterwards, whether the clients that watch the key are flagged, the
    change of [server.dirty] and the replies; every other key keeps its value and its
    expire time, and the reference counts stay exact. The lemmas of this file take the
    specification of the key space functions (DbSpec.v) to the outcome of a command. *)

From S2P Require Import Prelude Util Sds State Object Server Db DbSpec.

(** The argument [i] is a string object with the bytes [bs], not encoded as an integer. *)
Definition is_arg (t : store) (argv : list oid) (i : nat) (bs : sds) : Prop :=
  exists o r, argv !! i = Some o /\ obj_at t o = Some r /\ as_sds r = Some bs.

Definition says (rs : list reply) (cl : client) : client := set_replies (replies cl ++ rs)%list cl.

(** Replies that are added one after the other. *)
Lemma says_nil c (m : gmap Z client) : alter (says []) c m = m.
Proof.
  apply map_eq. intros i. destruct (decide (i = c)) as [->|Hne]; [|by rewrite lookup_alter_ne].
  rewrite lookup_alter_eq. destruct (m !! c) as [cl|]; [|done]. cbn. f_equal. unfold says.
  rewrite app_nil_r. by destruct cl.
Qed.

Lemma says_says rs rs' c s :
  upd_clients (alter (says rs') c) (upd_clients (alter (says rs) c) s) = upd_clients (alter (says (rs ++ rs')%list) c) s.
Proof.
  unfold upd_clients. cbn. f_equal. apply map_eq. intros i. destruct (decide (i = c)) as [->|Hne].
  - rewrite !lookup_alter_eq. destruct (clients s !! c) as [cl|]; [|done]. cbn. f_equal. unfold says. cbn. by rewrite app_assoc.
  - by rewrite !lookup_alter_ne by done.
Qed.

Record outcome (s : server) (c : Z) (k : Z * sds) (E : list oid) (s' : server)
    (v : option value) (x : option Z) (touched : bool) (d : Z) (rs : list reply) : Prop := {
  o_ok : store_ok (st s') E;
  o_conf : conf s' = conf s;
  o_watched : watched_keys s' = watched_keys s;
  o_view : forall k', view (st s') k' = if decide (k' = k) then v else view (st s) k';
  o_expires : forall k', expires (st s') !! k' = if decide (k' = k) then x else expires (st s) !! k';
  o_clients : clients s' = alter (says rs) c (if touched then touch_clients (watchers s k) (clients s) else clients s);
  o_dirty : dirty s' = dirty s + d
}.

(** The outcome given by a specification: value, expire time, whether the watchers are flagged,
    number of changes, replies. *)
Definition achieves (s : server) (c : Z) (k : Z * sds) (E : list oid) (s' : server)
    (r : option value * option Z * bool * Z * list reply) : Prop :=
  let '(v, x, touched, d, rs) := r in outcome s c k E s' v x touched d rs.

(** The expire time of a key once the check for expiration is done. *)
Definition alive_expire (s : server) (k : Z * sds) : option Z :=
  if removes s k then None else expires (st s) !! k.

Lemma es_expire_at k E s s' k' :
  expire_step k E s s' -> expires (st s') !! k' = if decide (k' = k) then alive_expire s k else expires (st s) !! k'.
Proof.
  intros Hes. rewrite (es_expires _ _ _ _ Hes). unfold alive_expire. destruct (removes s k).
  - destruct (decide (k' = k)) as [->|]; [apply lookup_delete_eq|by apply lookup_delete_ne].
  - by destruct (decide (k' = k)) as [->|].
Qed.

Lemma is_arg_run s argv i bs : is_arg (st s) argv i bs -> arg_sds argv i s = Some (bs, s).
Proof.
  intros (o & r & Ho & Hr & Hbs). unfold arg_sds, arg. erewrite bind_run by (by apply lift_run).
  erewrite bind_run by (apply in_store_same; unfold obj; run; by apply lift_run). by apply lift_run.
Qed.

Lemma is_arg_val t argv i bs :
  is_arg t argv i bs -> exists o, argv !! i = Some o /\ val_at t o = Some (VStr bs).
Proof.
  intros (o & r & Ho & Hr & Hbs). exists o. split; [done|]. unfold val_at, val_of, as_sds in *. rewrite Hr. cbn.
  by destruct (ptr r); simplify_eq.
Qed.

Lemma client_db_run s c cl : clients s !! c = Some cl -> client_db c s = Some (c_db cl, s).
Proof. intros Hc. unfold client_db, this_client. run. by rewrite ret_run. Qed.

Lemma arg_in (argv F : list oid) (i : nat) (o : oid) : argv !! i = Some o -> o ∈ (argv ++ F)%list.
Proof. intros Ho. apply elem_of_app. left. by eapply list_elem_of_lookup_2. Qed.

(** ** What a lookup for writing finds *)

Inductive found (s s1 : server) (k : Z * sds) (E : list oid) : option oid -> option value -> Prop :=
| found_none : alive s k = None -> dict (st s1) !! k = None -> found s s1 k E None None
| found_some o v : alive s k = Some v -> dict (st s1) !! k = Some o -> val_at (st s1) o = Some v ->
    o ∈ refs (st s1) E -> found s s1 k E (Some o) (Some v).

Lemma lookup_found s E db key :
  store_ok (st s) E ->
  exists s1 old, lookupKeyWrite db key s = Some (old, s1) /\ expire_step (db, key) E s s1 /\
    found s s1 (db, key) E old (alive s (db, key)).
Proof.
  intros Hok. destruct (lookupKeyWrite_spec s E db key Hok) as (s1 & Hl & Hes).
  exists s1, (dict (st s1) !! (db, key)). split_and!; [done..|].
  destruct (dict (st s1) !! (db, key)) as [o|] eqn:Ho.
  - destruct (found_value _ _ _ _ _ Hes Ho) as [Hv Hin].
    destruct (live_value s1 E o (es_ok _ _ _ _ Hes) Hin) as [v Hv']. rewrite <- Hv, Hv'. by econstructor; [congruence|..].
  - pose proof (absent_value _ _ _ _ Hes Ho) as Ha. rewrite Ha. by constructor.
Qed.

Lemma checkType_string s E c o bs :
  store_ok (st s) E -> o ∈ refs (st s) E -> val_at (st s) o = Some (VStr bs) ->
  checkType c o OBJ_STRING s = Some (false, s).
Proof.
  intros Hok Ho Hv. destruct (string_run _ _ Hok o bs Ho Hv) as (r & Hrun & _ & Hs). unfold checkType.
  erewrite bind_run by (by apply in_store_same). by rewrite bool_decide_true by (by eapply string_obj_type).
Qed.

Lemma checkType_wrong s E c o t d :
  store_ok (st s) E -> o ∈ refs (st s) E -> val_at (st s) o = Some (VObj t d) ->
  checkType c o OBJ_STRING s = Some (true, upd_clients (alter (says [R_wrongtypeerr]) c) s).
Proof.
  intros Hok Ho Hv. destruct (not_string_obj _ _ o t d Hok Ho Hv) as (r & Hr & _ & Hne). unfold checkType.
  erewrite bind_run by (apply in_store_same; unfold obj; run; by apply lift_run).
  by rewrite bool_decide_false by done.
Qed.

(** A command that ends after the lookup leaves what the lookup left. *)
Lemma outcome_lookup s c k E s1 rs :
  expire_step k E s s1 ->
  outcome s c k E (upd_clients (alter (says rs) c) s1) (alive s k) (alive_expire s k) false 0 rs.
Proof.
  intros Hes. destruct (es_quiet _ _ _ _ Hes) as (? & ? & Hcl & Hd & _).
  split; cbn; try done.
  - apply Hes.
  - intros k'. by eapply es_view.
  - intros k'. by eapply es_expire_at.
  - by rewrite Hcl.
  - rewrite Hd. lia.
Qed.

(** ** The step from a written key to the end of a command *)

(** The key [k] was given the value [v] and the expire time [x] since the state [s]. *)
Record written (s : server) (k : Z * sds) (E : list oid) (s1 : server) (v : option value) (x : option Z) : Prop := {
  w_ok : store_ok (st s1) E;
  w_quiet : quiet s s1;
  w_view : forall k', view (st s1) k' = if decide (k' = k) then v else view (st s) k';
  w_expires : forall k', expires (st s1) !! k' = if decide (k' = k) then x else expires (st s) !! k'
}.

Lemma outcome_written s c k E s1 s' v x d rs :
  written s k E s1 v x ->
  st s' = st s1 -> conf s' = conf s1 -> watched_keys s' = watched_keys s1 ->
  clients s' = alter (says rs) c (touch_clients (watchers s1 k) (clients s1)) -> dirty s' = dirty s1 + d ->
  outcome s c k E s' v x true d rs.
Proof.
  intros [Hok (Hc & Hw & Hcl & Hd & _) Hv Hx] Est Ec Ew Ecl Ed. split; rewrite ?Est; try done; try congruence.
  rewrite Ecl, Hcl. unfold watchers. by rewrite Hw.
Qed.

(** ** Arguments *)

Lemma is_arg_kept l t t' argv i bs :
  kept l t t' -> argv ⊆ l -> is_arg t argv i bs -> is_arg t' argv i bs.
Proof.
  intros Hk Hsub (o & r & Ho & Hr & Hbs). destruct (Hk o) as (r1 & r2 & H1 & H2 & H3).
  { apply Hsub. by eapply list_elem_of_lookup_2. }
  exists o, r2. split_and!; [done..|]. replace r1 with r in H3 by congruence.
  unfold same_obj, with_refcount, as_sds in *. destruct r, r2; cbn in *. by injection H3 as <- <- <-.
Qed.

Lemma argv_refs (t : store) (argv F : list oid) : argv ⊆ refs t (argv ++ F)%list.
Proof. intros o Ho. apply refs_ext, elem_of_app. by left. Qed.

Lemma is_arg_es k argv F s s1 i bs :
  expire_step k (argv ++ F)%list s s1 -> is_arg (st s) argv i bs -> is_arg (st s1) argv i bs.
Proof. intros Hes. eapply is_arg_kept; [apply Hes|apply argv_refs]. Qed.

Lemma argv_perm (argv F : list oid) i o :
  argv !! i = Some o -> (argv ++ F)%list ≡ₚ o :: (delete i argv ++ F)%list.
Proof. intros Ho. by rewrite (delete_Permutation argv i o Ho) at 1. Qed.

Lemma argv_insert_perm (argv F : list oid) i o' :
  (i < length argv)%nat -> (<[i:=o']> argv ++ F)%list ≡ₚ o' :: (delete i argv ++ F)%list.
Proof.
  intros Hi. rewrite (argv_perm (<[i:=o']> argv) F i o') by (by apply list_lookup_insert_eq).
  f_equiv. f_equiv. rewrite !delete_take_drop, take_insert_ge, drop_insert_lt by lia. done.
Qed.

Lemma store_ok_bytes t E o bs :
  store_ok t E -> o ∈ refs t E -> val_at t o = Some (VStr bs) -> bytes_ok bs.
Proof.
  intros Hok Ho Hv. destruct (string_obj_of _ _ o bs Hok Ho Hv) as (r & _ & Hs).
  destruct Hs as [| |v n Hv' ->]; [done..|]. apply sdec_bytes.
Qed.

Lemma is_arg_bytes t argv F i bs : store_ok t (argv ++ F)%list -> is_arg t argv i bs -> bytes_ok bs.
Proof.
  intros Hok Ha. destruct (is_arg_val _ _ _ _ Ha) as (o & Ho & Hv).
  eapply store_ok_bytes; [done| |done]. apply refs_ext. by eapply arg_in.
Qed.

(** After [dbUnshareStringValue] the key holds the same bytes in an unshared raw string. *)
Lemma unshare_key s s1 E db key o bs :
  expire_step (db, key) E s s1 -> dict (st s1) !! (db, key) = Some o -> val_at (st s1) o = Some (VStr bs) ->
  exists o' s2, dbUnshareStringValue db key o s1 = Some (o', s2) /\
    written s (db, key) E s2 (Some (VStr bs)) (alive_expire s (db, key)) /\ dict (st s2) !! (db, key) = Some o' /\
    obj_at (st s2) o' = Some (Robj OBJ_STRING OBJ_ENCODING_RAW (PSds bs) 1).
Proof.
  intros Hes Ho Hv. destruct (dbUnshareStringValue_spec s1 E db key o bs (es_ok _ _ _ _ Hes) Ho Hv)
    as (o' & s2 & Hun & Hok2 & Hq2 & _ & _ & Hk2 & Hr2 & He2 & Hv2 & _).
  exists o', s2. split_and!; try done. split; [done| | |].
  - eapply quiet_trans; [apply Hes|done].
  - intros k'. rewrite Hv2. destruct (decide (k' = (db, key))) as [->|Hne].
    + unfold view. by rewrite Ho.
    + rewrite (es_view _ _ _ _ k' Hes). by rewrite decide_False by done.
  - intros k'. rewrite He2. by apply (es_expire_at _ E).
Qed.

(** The bytes of a key that was just written are written again. *)
Lemma written_again s k E s2 v x o bs bs' :
  written s k E s2 v x -> dict (st s2) !! k = Some o ->
  obj_at (st s2) o = Some (Robj OBJ_STRING OBJ_ENCODING_RAW (PSds bs) 1) -> bytes_ok bs' ->
  exists t, set_obj o (Robj OBJ_STRING OBJ_ENCODING_RAW (PSds bs') 1) (st s2) = Some (tt, t) /\
    written s k E (with_st t s2) (Some (VStr bs')) x /\ dict t !! k = Some o /\
    obj_at t o = Some (Robj OBJ_STRING OBJ_ENCODING_RAW (PSds bs') 1).
Proof.
  intros [Hok Hq Hv Hx] Hk Hr Hbs.
  destruct (write_obj (st s2) E k o _ (Robj OBJ_STRING OBJ_ENCODING_RAW (PSds bs') 1) Hok Hk Hr)
    as (t & Hset & Hok' & Hd' & Hx' & Hr' & Hv' & _); [done|exact Hbs|done|].
  exists t. split_and!; [done| |by rewrite Hd'|done]. split; cbn; [done|done| |].
  - intros k'. rewrite Hv', Hv. by destruct (decide (k' = k)).
  - intros k'. by rewrite Hx'.
Qed.

Lemma absent_expire s k E s1 :
  expire_step k E s s1 -> dict (st s1) !! k = None -> alive_expire s k = None.
Proof.
  intros Hes Hk. pose proof (es_expire_at k E s s1 k Hes) as Hx. rewrite decide_True in Hx by done.
  rewrite <- Hx. apply not_elem_of_dom. intros Hd%(ok_expires _ _ (es_ok _ _ _ _ Hes)).
  apply elem_of_dom in Hd as [o Ho]. congruence.
Qed.

(** A key bound to an object: a new key, or one whose old object is released. *)
Lemma put_key s s1 E E1 db key o v :
  expire_step (db, key) E s s1 ->
  forall s2, quiet s1 s2 -> store_ok (st s2) (o :: E1) -> dict (st s2) = dict (st s1) ->
  expires (st s2) = expires (st s1) -> (forall k', view (st s2) k' = view (st s1) k') -> val_at (st s2) o = Some v ->
  exists s3, put db key o (dict (st s1) !! (db, key)) s2 = Some (tt, s3) /\
    written s (db, key) E1 s3 (Some v) (alive_expire s (db, key)) /\
    kept (refs (st s3) E1) (st s2) (st s3) /\ dict (st s3) !! (db, key) = Some o.
Proof.
  intros Hes s2 Hq Hok Hd He Hv Ho. rewrite <- Hd.
  destruct (put_spec s2 E1 db key o Hok) as (s3 & Hput & Hok3 & Hq3 & _ & _ & Hd3 & He3 & Hv3).
  exists s3. split_and!; [done| |done|by rewrite Hd3, lookup_insert_eq]. split; [done| | |].
  - eapply quiet_trans; [apply Hes|]. by eapply quiet_trans.
  - intros k'. rewrite (view_of_insert E1 (st s2) (st s3) (db, key) o k' (kept_vals _ _ _ Hv3) Hd3).
    destruct (decide (k' = (db, key))) as [->|Hne]; [done|].
    rewrite Hv, (es_view _ _ _ _ k' Hes). by rewrite decide_False by done.
  - intros k'. rewrite He3, He. by apply (es_expire_at _ E).
Qed.

(** ** What a lookup for reading finds *)

(** A reader does not see an expired key: a master has removed it, and a replica hides it from
    the commands that only read, unless they come from its master. *)
Definition hidden (s : server) (k : Z * sds) : bool :=
  expired s k &&
  (negb (masterhost (conf s)) ||
   match current s with
   | Some (c, readonly) => negb (bool_decide (Some c = master (conf s))) && readonly
   | None => false
   end).

Definition visible (s : server) (k : Z * sds) : option value :=
  if hidden s k then None else view (st s) k.

Inductive read_found (s1 : server) (k : Z * sds) (E : list oid) : option oid -> option value -> Prop :=
| read_none : read_found s1 k E None None
| read_some o v : val_at (st s1) o = Some v -> o ∈ refs (st s1) E -> dict (st s1) !! k = Some o ->
    read_found s1 k E (Some o) (Some v).

Lemma expire_step_stats k E s s1 s2 :
  expire_step k E s s1 -> st s2 = st s1 -> quiet s1 s2 -> slave_keys s2 = slave_keys s1 ->
  ready_keys s2 = ready_keys s1 -> ticks s2 = ticks s1 -> expire_step k E s s2.
Proof.
  intros [] Est Hq E1 E2 E3. split; rewrite ?Est, ?E1, ?E2, ?E3; try done. by eapply quiet_trans.
Qed.

(** The lookup of a key that was not removed counts a hit or a miss. *)
Lemma read_dict s E db key s1 :
  expire_step (db, key) E s s1 -> removes s (db, key) = false ->
  exists s2 old, (val ← lookupKey db key;
      match val with
      | None => miss
      | Some o => _ ← modify (upd_stat_keyspace_hits (fun n => n + 1)); mret (Some o)
      end) s1 = Some (old, s2) /\
    expire_step (db, key) E s s2 /\ read_found s2 (db, key) E old (view (st s) (db, key)).
Proof.
  intros Hes Hr. pose proof (es_view _ _ _ _ (db, key) Hes) as Hview. rewrite decide_True in Hview by done.
  unfold alive in Hview. rewrite Hr in Hview. rewrite <- Hview. unfold lookupKey. run. unfold view.
  destruct (dict (st s1) !! (db, key)) as [o|] eqn:Hk.
  - assert (o ∈ refs (st s1) E) as Hin by (by eapply refs_dict).
    destruct (live_value s1 E o (es_ok _ _ _ _ Hes) Hin) as [v Hv].
    eexists _, (Some o). split; [done|]. split; [by eapply expire_step_stats|]. cbn. rewrite Hv. by constructor.
  - eexists _, None. split; [done|]. split; [by eapply expire_step_stats|constructor].
Qed.

Lemma lookupKeyRead_spec s E db key :
  store_ok (st s) E ->
  exists s1 old, lookupKeyReadWithFlags db key s = Some (old, s1) /\ expire_step (db, key) E s s1 /\
    read_found s1 (db, key) E old (visible s (db, key)).
Proof.
  intros Hok. destruct (expireIfNeeded_spec s E db key Hok) as (s1 & Hexp & Hes).
  destruct (es_quiet _ _ _ _ Hes) as (Hc & _ & _ & _ & Hcu).
  unfold lookupKeyReadWithFlags. erewrite bind_run by exact Hexp. run. rewrite Hc, Hcu.
  assert (exists s2 old, miss s1 = Some (old, s2) /\ expire_step (db, key) E s s2 /\ read_found s2 (db, key) E old None) as Hmiss.
  { eexists _, None. split; [done|]. split; [by eapply expire_step_stats|constructor]. }
  pose proof (read_dict s E db key s1 Hes) as Hdict. unfold visible, hidden, removes in *.
  destruct (expired s (db, key)), (masterhost (conf s)); cbn [andb negb orb] in *; eauto.
  destruct (match current s with Some _ => _ | None => _ end); eauto.
Qed.

(** ** Numbers *)

Lemma ll_arith_run v s : LLONG_MIN <= v <= LLONG_MAX -> ll_arith v s = Some (v, s).
Proof. intros H. unfold ll_arith. by rewrite !(proj2 (Z.leb_le _ _)) by lia. Qed.

Lemma getLongLongOrReply_spec s E c o bs msg :
  store_ok (st s) E -> o ∈ refs (st s) E -> val_at (st s) o = Some (VStr bs) ->
  getLongLongFromObjectOrReply c (Some o) msg s =
    match string2ll bs with
    | Some v => Some (Some v, s)
    | None => Some (None, upd_clients (alter (says [RError (default "value is not an integer or out of range"%string msg)]) c) s)
    end.
Proof.
  intros Hok Ho Hv. unfold getLongLongFromObjectOrReply.
  erewrite bind_run by (apply in_store_same; by eapply getLongLong_spec).
  destruct (string2ll bs); [done|]. by destruct msg.
Qed.

(** ** Dropping references *)

Lemma kept_mono l l' t t' : kept l t t' -> l' ⊆ l -> kept l' t t'.
Proof. intros Hk Hs o Ho. by apply Hk, Hs. Qed.

Lemma kept_trans l t1 t2 t3 : kept l t1 t2 -> kept l t2 t3 -> kept l t1 t3.
Proof.
  intros H1 H2 o Ho. destruct (H1 o Ho) as (r1 & r2 & A1 & A2 & A3), (H2 o Ho) as (r2' & r3 & B1 & B2 & B3).
  replace r2' with r2 in * by congruence. exists r1, r3. split_and!; [done..|]. unfold same_obj in *. congruence.
Qed.

Lemma heap_step_trans E E' t1 t2 t3 :
  E' ⊆ E -> heap_step (refs t1 E) t1 t2 -> heap_step (refs t2 E') t2 t3 -> heap_step (refs t1 E') t1 t3.
Proof.
  intros Hs (Hd1 & Hx1 & Hk1) (Hd2 & Hx2 & Hk2). split; [congruence|]. split; [congruence|].
  unfold refs in *. rewrite Hd1 in Hk2. eapply kept_trans; [|exact Hk2]. eapply kept_mono; [exact Hk1|]. set_solver.
Qed.

Lemma decr_all l : forall t E,
  store_ok t (l ++ E)%list ->
  exists t', for_each decrRefCount l t = Some (tt, t') /\ store_ok t' E /\ heap_step (refs t E) t t'.
Proof.
  induction l as [|o l IH]; intros t E Hok; cbn [for_each].
  { exists t. split; [done|]. split; [done|]. split; [done|]. split; [done|]. by apply kept_refl. }
  destruct (decrRefCount_spec t (l ++ E)%list o Hok) as (t1 & Hrun & Hok1 & Hst).
  erewrite bind_run by exact Hrun. destruct (IH t1 E Hok1) as (t2 & Hrun2 & Hok2 & Hst2).
  exists t2. split; [done|]. split; [done|]. eapply heap_step_trans; [|exact Hst|exact Hst2]. set_solver.
Qed.

(** ** Names of keys *)

(** The bytes of a key object. *)
Definition name_at (t : store) (o : oid) : option sds := obj_at t o ≫= as_sds.

Lemma kept_name l t t' o : kept l t t' -> o ∈ l -> name_at t' o = name_at t o.
Proof.
  intros Hk Ho. destruct (Hk o Ho) as (r & r' & H1 & H2 & H3). unfold name_at. rewrite H1, H2. cbn.
  unfold same_obj, with_refcount, as_sds in *. destruct r, r'; cbn in *. by injection H3 as -> -> ->.
Qed.

(** A list of objects with the given bytes. *)
Abbreviation named t keys names := (Forall2 (fun o n => name_at t o = Some n) keys names).

Lemma named_kept t t' l keys names : kept l t t' -> keys ⊆ l -> named t keys names -> named t' keys names.
Proof.
  intros Hk Hs Hn. rewrite Forall2_lookup in Hn |- *. intros i. specialize (Hn i).
  destruct (keys !! i) as [o|] eqn:Hi; inversion Hn as [? m Hm|]; constructor.
  rewrite (kept_name _ _ _ o Hk); [done|]. apply list_elem_of_lookup_2 in Hi. set_solver.
Qed.

(** ** Lookups that reply when the key is absent *)

Lemma lookupWriteOrReply_spec s c cl E key r :
  clients s !! c = Some cl -> store_ok (st s) E ->
  let k := (c_db cl, key) in
  exists s1 old, expire_step k E s s1 /\ found s s1 k E old (alive s k) /\
    lookupKeyWriteOrReply c key r s =
      Some (old, match old with Some _ => s1 | None => upd_clients (alter (says [r]) c) s1 end).
Proof.
  intros Hc Hok k. destruct (lookup_found s E (c_db cl) key Hok) as (s1 & old & Hl & Hes & Hf).
  exists s1, old. split; [done|]. split; [done|]. unfold lookupKeyWriteOrReply.
  rewrite (bind_run _ _ _ _ _ (client_db_run s c cl Hc)). erewrite bind_run by exact Hl. by destruct old.
Qed.

Lemma lookupReadOrReply_spec s c cl E key r :
  clients s !! c = Some cl -> store_ok (st s) E ->
  let k := (c_db cl, key) in
  exists s1 old, expire_step k E s s1 /\ read_found s1 k E old (visible s k) /\
    lookupKeyReadOrReply c key r s =
      Some (old, match old with Some _ => s1 | None => upd_clients (alter (says [r]) c) s1 end).
Proof.
  intros Hc Hok k. destruct (lookupKeyRead_spec s E (c_db cl) key Hok) as (s1 & old & Hrun & Hes & Hf).
  exists s1, old. split; [done|]. split; [done|]. unfold lookupKeyReadOrReply.
  rewrite (bind_run _ _ _ _ _ (client_db_run s c cl Hc)). unfold lookupKeyRead. erewrite bind_run by exact Hrun.
  by destruct old.
Qed.
