(* ===== verification/InPlace.v ===== *)
(** * Values that are changed in place

    A set or a hash is changed through the pointer to its object. The key that holds the object
    is the only reference to it ([holding]); the functions of its type take the object to another one of the
    same key, and no other key and no argument changes. *)

From S2P Require Import Prelude Util Sds Data State Object Server Db DbSpec Outcome.

(** The key is the only reference to its value. *)
Definition unshared (s : server) (k : Z * sds) : Prop :=
  forall o r, dict (st s) !! k = Some o -> obj_at (st s) o = Some r -> refcount r = 1.

(** Since the state [s] the key [k] was given the object [r], which has the address [o]. *)
Record holding (s : server) (k : Z * sds) (E : list oid) (s1 : server) (o : oid) (r : robj) (x : option Z) : Prop := {
  h_written : written s k E s1 (Some (val_of r)) x;
  h_key : dict (st s1) !! k = Some o;
  h_obj : obj_at (st s1) o = Some r;
  h_count : refcount r = 1;
  h_data : exists d, ptr r = PData d
}.

Lemma holding_conf s k E s1 o r x : holding s k E s1 o r x -> conf s1 = conf s.
Proof. intros H. apply (w_quiet _ _ _ _ _ _ (h_written _ _ _ _ _ _ _ H)). Qed.

Lemma holding_ok s k E s1 o r x : holding s k E s1 o r x -> store_ok (st s1) E.
Proof. intros H. apply (h_written _ _ _ _ _ _ _ H). Qed.

Lemma obj_run_at s o r : obj_at (st s) o = Some r -> in_store (obj o) s = Some (r, s).
Proof. intros Hr. apply in_store_same. unfold obj. run. by apply lift_run. Qed.

Lemma holding_on_obj {A} s k E s1 o r x (f : env -> robj -> option (robj * A)) r' a :
  holding s k E s1 o r x -> f (data_env (conf s)) r = Some (r', a) ->
  robj_ok r' -> refcount r' = 1 -> (exists d, ptr r' = PData d) ->
  exists t, on_obj o f s1 = Some (a, with_st t s1) /\ holding s k E (with_st t s1) o r' x /\
    (forall y, y <> o -> obj_at t y = obj_at (st s1) y).
Proof.
  intros H Hf Hok Hc Hd. pose proof (holding_conf _ _ _ _ _ _ _ H) as Hconf. destruct H as [[Hok1 Hq Hv Hx] Hk Hr H1 _].
  destruct (write_obj (st s1) E k o r r' Hok1 Hk Hr H1 Hok Hc) as (t & Hset & Hok' & Hdt & Hxt & Hrt & Hvt & _).
  exists t. split_and!.
  - unfold on_obj. rewrite (bind_run _ _ _ _ _ (obj_run_at s1 o r Hr)). run. rewrite Hconf, Hf. run.
    erewrite bind_run by (apply in_store_run; exact Hset). done.
  - split; cbn; [split; cbn|by rewrite Hdt|done|done|done]; [done|done| |].
    + intros k'. rewrite Hvt. destruct (decide (k' = k)) as [->|Hne]; [done|]. rewrite Hv. by rewrite decide_False.
    + intros k'. by rewrite Hxt.
  - intros y Hy. by apply (set_obj_other o r' (st s1) tt t y Hset).
Qed.

(** Strings are not changed by a write of the object. *)
Lemma holding_name s k E s1 o r x t y n :
  holding s k E s1 o r x -> (forall y, y <> o -> obj_at t y = obj_at (st s1) y) ->
  name_at (st s1) y = Some n -> name_at t y = Some n.
Proof.
  intros H Ht Hy. unfold name_at in *. rewrite Ht; [done|]. intros ->.
  rewrite (h_obj _ _ _ _ _ _ _ H) in Hy. cbn in Hy. destruct (h_data _ _ _ _ _ _ _ H) as [d Hd].
  unfold as_sds in Hy. by rewrite Hd in Hy.
Qed.

Lemma holding_named s k E s1 o r x t keys names :
  holding s k E s1 o r x -> (forall y, y <> o -> obj_at t y = obj_at (st s1) y) ->
  named (st s1) keys names -> named t keys names.
Proof. intros H Ht Hn. eapply Forall2_impl; [exact Hn|]. intros y n. by eapply holding_name. Qed.

Lemma name_run s o n : name_at (st s) o = Some n -> sds_of o s = Some (n, s).
Proof.
  unfold name_at. destruct (obj_at (st s) o) as [r|] eqn:Hr; [|done]. cbn. intros Hs. unfold sds_of.
  rewrite (bind_run _ _ _ _ _ (obj_run_at s o r Hr)). by apply lift_run.
Qed.

(** ** How a command comes to hold a value *)

Lemma alive_kept s k v : alive s k = Some v -> removes s k = false.
Proof. unfold alive. by destruct (removes s k). Qed.

(** A value of another type that the lookup found. *)
Lemma found_data s s1 k E o t d :
  expire_step k E s s1 -> found s s1 k E (Some o) (Some (VObj t d)) ->
  exists r, obj_at (st s1) o = Some r /\ type r = t /\ ptr r = PData d /\ robj_ok r /\ dict (st s1) !! k = Some o /\
    (unshared s k -> holding s k E s1 o r (alive_expire s k)).
Proof.
  intros Hes Hf. inversion Hf as [|o' v' Ha Hk Hv Ho]; subst. unfold val_at in Hv.
  destruct (obj_at (st s1) o) as [r|] eqn:Hr; [|done]. cbn in Hv. exists r.
  assert (type r = t /\ ptr r = PData d) as [Ht Hp].
  { unfold val_of in Hv. destruct (ptr r); by simplify_eq. }
  split_and!; [done|done|done| |done|].
  - by apply (live_ok (st s1) E o); [apply Hes|..].
  - intros Hu. pose proof (es_same _ _ _ _ Hes (alive_kept _ _ _ Ha)) as Est. split; [|done|done| |by eexists].
    + split; [apply Hes|apply Hes| |].
      * intros k'. rewrite (es_view _ _ _ _ k' Hes), Ha. unfold val_of. by rewrite Hp, Ht.
      * intros k'. by apply (es_expire_at _ E).
    + rewrite Est in *. by apply (Hu o r).
Qed.

(** A value that a reader sees is one that a writer would see. *)
Lemma read_found_alive s s1 k E o v :
  read_found s1 k E (Some o) v -> v = visible s k -> found s s1 k E (Some o) (alive s k) /\ alive s k = v.
Proof.
  intros Hf Hv. inversion Hf as [|o' w Hw Ho Hk]; subst. unfold visible, alive, hidden, removes in *.
  assert ((if expired s k && negb (masterhost (conf s)) then None else view (st s) k) = Some w) as ->.
  { destruct (expired s k), (masterhost (conf s)); cbn in *; try done. by destruct (match current s with Some _ => _ | None => _ end). }
  split; [|done]. constructor; try done. unfold alive, removes.
  destruct (expired s k), (masterhost (conf s)); cbn in *; try done. by destruct (match current s with Some _ => _ | None => _ end).
Qed.

(** A new value for a key that has none. *)
Lemma new_data s s1 db key E r :
  expire_step (db, key) E s s1 -> dict (st s1) !! (db, key) = None ->
  robj_ok r -> refcount r = 1 -> (exists d, ptr r = PData d) ->
  exists o s2 s3, in_store (alloc_obj r) s1 = Some (o, s2) /\ dbAdd db key o s2 = Some (tt, s3) /\
    holding s (db, key) E s3 o r (alive_expire s (db, key)) /\
    forall y, y ∈ refs (st s1) E -> obj_at (st s3) y = obj_at (st s1) y.
Proof.
  intros Hes Hk Hr Hc Hd.
  destruct (alloc_obj_spec (st s1) E r (es_ok _ _ _ _ Hes) Hr Hc) as (o & t & Ha & Hok & Hro & Hnew & Hst).
  pose proof Hst as (Hdt & Hxt & Hkt).
  destruct (put_key s s1 E E db key o (val_of r) Hes (with_st t s1)) as (s3 & Hput & Hw & _ & Hk3); try done.
  { intros k'. by eapply heap_step_view. }
  { cbn. unfold val_at. by rewrite Hro. }
  rewrite Hk in Hput. cbn [put] in Hput. pose proof (dbAdd_objs _ _ _ _ _ _ Hput) as Hobjs. cbn in Hobjs.
  assert (forall y, obj_at (st s3) y = obj_at t y) as Hobj.
  { intros [n|p]; [done|]. cbn. by rewrite Hobjs. }
  exists o, (with_st t s1), s3. split_and!; [by apply in_store_run|done| |].
  - split; [done|done|by rewrite Hobj|done|done].
  - intros y Hy. rewrite Hobj. unfold alloc_obj in Ha.
    assert (t = with_objs (insert (fresh (dom (objs (st s1)))) r) (st s1) /\ o = Heap (fresh (dom (objs (st s1))))) as [-> ->].
    { by injection Ha as <- <-. }
    destruct y as [n|p]; [done|]. cbn. rewrite lookup_insert_ne; [done|]. intros <-. by apply Hnew.
Qed.

(** A key whose value has become empty is deleted. *)
Lemma holding_delete s db key E s1 o r x :
  holding s (db, key) E s1 o r x ->
  exists t, dbDelete db key s1 = Some (true, with_st t s1) /\ written s (db, key) E (with_st t s1) None None.
Proof.
  intros H. destruct H as [[Hok Hq Hv Hx] Hk _ _ _].
  destruct (dbDelete_spec s1 E db key Hok) as (t & Hdel & Hok' & Hd & He & Hkept). exists t.
  rewrite Hdel, bool_decide_true by (rewrite Hk; by eexists). split; [done|]. split; cbn; [done|done| |].
  - intros k'. rewrite (view_of_delete E (st s1) t (db, key) k' (kept_vals _ _ _ Hkept) Hd), Hv. by destruct (decide (k' = (db, key))).
  - intros k'. rewrite He. destruct (decide (k' = (db, key))) as [->|Hne]; [apply lookup_delete_eq|].
    rewrite lookup_delete_ne, Hx by done. by rewrite decide_False.
Qed.

(** The end of a command that flags the watchers when it changed something. *)
Lemma outcome_changed s c k E s1 s' v x (touched : bool) d rs :
  written s k E s1 v x ->
  st s' = st s1 -> conf s' = conf s1 -> watched_keys s' = watched_keys s1 ->
  clients s' = alter (says rs) c (if touched then touch_clients (watchers s1 k) (clients s1) else clients s1) ->
  dirty s' = dirty s1 + d ->
  outcome s c k E s' v x touched d rs.
Proof.
  intros [Hok (Hc & Hw & Hcl & Hd & _) Hv Hx] Est Ec Ew Ecl Ed. split; rewrite ?Est; try done; try congruence.
  rewrite Ecl, Hcl. unfold watchers. by rewrite Hw.
Qed.

Lemma checkType_data s E c o t t' d :
  store_ok (st s) E -> o ∈ refs (st s) E -> val_at (st s) o = Some (VObj t d) -> 
  checkType c o t' s = if decide (t = t') then Some (false, s)
                       else Some (true, upd_clients (alter (says [R_wrongtypeerr]) c) s).
Proof.
  intros Hok Ho Hv. unfold val_at in Hv. destruct (obj_at (st s) o) as [r|] eqn:Hr; [|done]. cbn in Hv.
  assert (type r = t) as Ht by (unfold val_of in Hv; destruct (ptr r); by simplify_eq).
  unfold checkType. rewrite (bind_run _ _ _ _ _ (obj_run_at s o r Hr)), Ht. destruct (decide (t = t')).
  - by rewrite bool_decide_true.
  - by rewrite bool_decide_false.
Qed.

Lemma checkType_holds s c o r t : obj_at (st s) o = Some r -> type r = t -> checkType c o t s = Some (false, s).
Proof. intros Hr <-. unfold checkType. by rewrite (bind_run _ _ _ _ _ (obj_run_at s o r Hr)), bool_decide_true. Qed.

Lemma checkType_str s E c o t' bs :
  store_ok (st s) E -> o ∈ refs (st s) E -> val_at (st s) o = Some (VStr bs) -> t' <> OBJ_STRING ->
  checkType c o t' s = Some (true, upd_clients (alter (says [R_wrongtypeerr]) c) s).
Proof.
  intros Hok Ho Hv Hne. destruct (string_run _ _ Hok o bs Ho Hv) as (r & Hrun & _ & Hs). unfold checkType.
  erewrite bind_run by (by apply in_store_same). by rewrite (string_obj_type _ _ Hs), bool_decide_false by congruence.
Qed.

(** A value that is there and has another type than [t]. *)
Definition other_type (t : otype) (v : option value) : Prop :=
  match v with Some (VObj t' _) => t' <> t | Some (VStr _) => True | None => False end.

Lemma other_type_found s k E s1 c o t :
  t <> OBJ_STRING -> expire_step k E s s1 -> found s s1 k E (Some o) (alive s k) -> other_type t (alive s k) ->
  exists r, obj_at (st s1) o = Some r /\ type r <> t /\
    checkType c o t s1 = Some (true, upd_clients (alter (says [R_wrongtypeerr]) c) s1).
Proof.
  intros Ht Hes Hf Hother. pose proof (es_ok _ _ _ _ Hes) as Hok.
  assert (val_at (st s1) o = alive s k /\ o ∈ refs (st s1) E) as [Hva Ho] by (by inversion Hf).
  unfold val_at in Hva. destruct (obj_at (st s1) o) as [r|] eqn:Hr; [|by rewrite <- Hva in Hother].
  assert (type r <> t) as Hne.
  { cbn in Hva. rewrite <- Hva in Hother. pose proof (live_ok (st s1) E o r Hok Ho Hr) as Hrk. unfold robj_ok in Hrk.
    intros <-. unfold val_of in Hother. destruct (type r), (encoding r), (ptr r) as [| |[]]; naive_solver. }
  exists r. split_and!; [done|done|]. unfold checkType. rewrite (bind_run _ _ _ _ _ (obj_run_at s1 o r Hr)).
  by rewrite bool_decide_false.
Qed.

(** ** Lists of arguments *)

Lemma named_is_arg (t : store) argv vals i v :
  named t (drop i argv) vals -> head vals = Some v -> is_arg t argv i v.
Proof.
  intros Hn Hv. destruct vals as [|v' vals]; [done|]. injection Hv as ->.
  apply Forall2_cons_inv_r in Hn as (o & l & Ho & _ & Hd). unfold name_at in Ho.
  destruct (obj_at t o) as [r|] eqn:Hr; [|done]. exists o, r. split_and!; [|done|done].
  rewrite <- (Nat.add_0_r i), <- lookup_drop, Hd. done.
Qed.

Lemma named_es k argv F s s1 i vals :
  expire_step k (argv ++ F)%list s s1 -> named (st s) (drop i argv) vals -> named (st s1) (drop i argv) vals.
Proof.
  intros Hes. apply (named_kept _ _ (refs (st s1) (argv ++ F)%list)); [apply Hes|].
  intros o Ho. apply argv_refs. by eapply subseteq_drop.
Qed.

Lemma named_same (t t' : store) argv F l vals :
  (forall y, y ∈ refs t (argv ++ F)%list -> obj_at t' y = obj_at t y) -> l ⊆ argv -> named t l vals -> named t' l vals.
Proof.
  intros Ht Hs Hn. induction Hn as [|o v l vals Ho _ IH]; constructor.
  - unfold name_at. rewrite Ht; [done|]. apply argv_refs, Hs. set_solver.
  - apply IH. set_solver.
Qed.

Lemma named_cons_arg t argv i v vals :
  is_arg t argv i v -> named t (drop (S i) argv) vals -> named t (drop i argv) (v :: vals).
Proof.
  intros (o & r & Ho & Hr & Hs) Hn. rewrite (drop_S _ _ _ Ho). constructor; [|done]. unfold name_at. by rewrite Hr.
Qed.
