(* ===== verification/SampleState.v ===== *)
(** * A concrete state of the server

    A decision procedure for the invariant of the store, and a state with a string that
    is shared by a key and an argument, an integer, a list and two clients, on which
    the theorems on commands are applied. *)

From S2P Require Import Prelude Util Sds Data State Object Server Db DbSpec Outcome.

Definition robj_check (r : robj) : bool :=
  match type r, encoding r, ptr r with
  | OBJ_STRING, (OBJ_ENCODING_RAW | OBJ_ENCODING_EMBSTR), PSds bs => bool_decide (bytes_ok bs)
  | OBJ_STRING, OBJ_ENCODING_INT, PLong v => bool_decide (in_s 64 v)
  | OBJ_STRING, _, _ => false
  | OBJ_SET, OBJ_ENCODING_INTSET, PData (DIntset _) => true
  | OBJ_SET, OBJ_ENCODING_HT, PData (DSet _) => true
  | OBJ_SET, _, _ => false
  | OBJ_HASH, OBJ_ENCODING_ZIPLIST, PData (DZiplist _) => true
  | OBJ_HASH, OBJ_ENCODING_HT, PData (DHash _) => true
  | OBJ_HASH, _, _ => false
  | _, _, PData _ => true
  | _, _, _ => false
  end.

Lemma robj_check_sound r : robj_check r = true -> robj_ok r.
Proof.
  unfold robj_check, robj_ok. destruct (type r), (encoding r), (ptr r) as [| |[]]; try done; apply bool_decide_eq_true_1.
Qed.

Definition count_check (n : Z) (r : robj) : bool :=
  ((refcount r =? n) && (0 <? n) && (n <? OBJ_SHARED_REFCOUNT)) || (refcount r =? OBJ_SHARED_REFCOUNT).

Definition store_check (t : store) (E : list oid) : bool :=
  forallb (fun p => count_check (occ (Heap p.1) (refs t E)) p.2 && robj_check p.2) (map_to_list (objs t)) &&
  forallb (fun o => match obj_at t o with Some _ => true | None => false end) (refs t E) &&
  forallb (fun p => match dict t !! p.1 with Some _ => true | None => false end) (map_to_list (expires t)).

Lemma forallb_elem {A} (f : A -> bool) l x : forallb f l = true -> x ∈ l -> f x = true.
Proof. intros H Hx. rewrite forallb_forall in H. apply H. by apply list_elem_of_In. Qed.

Lemma store_check_sound t E : store_check t E = true -> store_ok t E.
Proof.
  unfold store_check. intros [[H1 H2]%andb_true_iff H3]%andb_true_iff. split.
  - intros p r Hp. apply elem_of_map_to_list in Hp. pose proof (forallb_elem _ _ _ H1 Hp) as Hc. cbn in Hc.
    apply andb_true_iff in Hc as [Hc _]. unfold count_check in Hc. unfold count_ok.
    apply orb_true_iff in Hc as [[[Ha Hb]%andb_true_iff Hd]%andb_true_iff|Hc]; zbool; [left; lia|by right].
  - intros p r Hp. apply elem_of_map_to_list in Hp. pose proof (forallb_elem _ _ _ H1 Hp) as Hc. cbn in Hc.
    apply andb_true_iff in Hc as [_ Hc]. by apply robj_check_sound.
  - intros o Ho. pose proof (forallb_elem _ _ _ H2 Ho) as Hc. cbn in Hc. destruct (obj_at t o) as [r|]; [by eexists|done].
  - intros k Hk. apply elem_of_dom in Hk as [w Hw]. apply elem_of_map_to_list in Hw.
    pose proof (forallb_elem _ _ _ H3 Hw) as Hc. cbn in Hc. apply elem_of_dom.
    destruct (dict t !! k) as [o|]; [by eexists|done].
Qed.

Module Sample.
(** Database 0 binds "a" to the string "xy", with an expire time, "n" to the integer 20000 and "l"
    to a list; the arguments are the command name "c", the keys and some values. *)
Definition t0 : store := {|
  objs := <[10%positive := Robj OBJ_STRING OBJ_ENCODING_EMBSTR (PSds [97]) 2]>
         (<[1%positive := Robj OBJ_STRING OBJ_ENCODING_EMBSTR (PSds [120; 121]) 2]>
         (<[2%positive := Robj OBJ_STRING OBJ_ENCODING_INT (PLong 20000) 1]>
         (<[3%positive := Robj OBJ_LIST OBJ_ENCODING_QUICKLIST (PData (DOther 7)) 1]>
         (<[4%positive := Robj OBJ_STRING OBJ_ENCODING_EMBSTR (PSds [99]) 1]>
         (<[5%positive := Robj OBJ_STRING OBJ_ENCODING_EMBSTR (PSds [97]) 1]>
         (<[6%positive := Robj OBJ_STRING OBJ_ENCODING_EMBSTR (PSds [110]) 1]>
         (<[7%positive := Robj OBJ_STRING OBJ_ENCODING_EMBSTR (PSds [49]) 1]>
         (<[8%positive := Robj OBJ_STRING OBJ_ENCODING_EMBSTR (PSds (sdec (2 ^ 63 - 1))) 1]>
         (<[9%positive := Robj OBJ_STRING OBJ_ENCODING_EMBSTR (PSds [122]) 1]> ∅)))))))));
  dict := <[(0, [97]) := Heap 1]> (<[(0, [110]) := Heap 2]> (<[(0, [108]) := Heap 3]> ∅));
  expires := <[(0, [97]) := 5000]> ∅
|}.

(** "xy", held by the key "a" too, the command name, and the arguments. *)
Definition o_xy : oid := Heap 1.
Definition o_cmd : oid := Heap 4.
Definition o_a : oid := Heap 5.
Definition o_n : oid := Heap 6.
Definition o_one : oid := Heap 7.
Definition o_max : oid := Heap 8.
Definition o_z : oid := Heap 9.
(** The name "a" as a watched key: held by the table of watched keys and by the client. *)
Definition o_watch : oid := Heap 10.

(** A little endian host. *)
Definition env0 : env := Env false (seqZ 0 16) true (fun _ => 170) (4096, 8192).

Definition conf0 : config := {|
  dbnum := 16; masterhost := false; master := None; loading := false; lua_time_start := None;
  lazyfree_lazy_server_del := false; lazyfree_lazy_expire := false; repl_slave_ro := true;
  share := true; free_effort := fun _ => 1;
  set_max_intset_entries := 512; hash_max_ziplist_entries := 512; hash_max_ziplist_value := 64;
  rdb_compression := true; lzf_table := fun _ => 7; qsort_tie := fun o => if o is Some (Heap p) then Z.neg p else 0; data_env := env0; clock := fun n => 1000 + Z.of_nat (n mod 100)
|}.

Definition client0 : client := Client 0 false false false false [] [] [].

(** Client 2 watches the key "a". *)
Definition s0 : server := {|
  conf := conf0; st := t0;
  watched_keys := <[(0, [97]) := (o_watch, [2])]> ∅;
  clients := <[1 := client0]> (<[2 := Client 0 false false false false [] [WatchedKey o_watch 0] []]> ∅);
  dirty := 0; stat_keyspace_hits := 0; stat_keyspace_misses := 0; stat_expiredkeys := 0;
  events := []; propagated := []; ready_keys := []; slave_keys := ∅; ticks := 0; current := Some (1, false)
|}.

(** The same state at a time when "a" has expired, with commands that read. *)
Definition late : server :=
  {| conf := {| dbnum := 16; masterhost := false; master := None; loading := false; lua_time_start := None;
                lazyfree_lazy_server_del := false; lazyfree_lazy_expire := false; repl_slave_ro := true;
                share := true; free_effort := fun _ => 1;
  set_max_intset_entries := 512; hash_max_ziplist_entries := 512; hash_max_ziplist_value := 64;
  rdb_compression := true; lzf_table := fun _ => 7; qsort_tie := fun o => if o is Some (Heap p) then Z.neg p else 0; data_env := env0; clock := fun n => 9000 |};
     st := t0; watched_keys := watched_keys s0; clients := clients s0; dirty := 0; stat_keyspace_hits := 0;
     stat_keyspace_misses := 0; stat_expiredkeys := 0; events := []; propagated := []; ready_keys := [];
     slave_keys := ∅; ticks := 0; current := Some (1, true) |}.

(** The references that an argument vector leaves. *)
Definition rest (argv : list oid) : list oid := filter (fun o => o ∉ argv) [o_xy; o_cmd; o_a; o_n; o_one; o_max; o_z; o_watch; o_watch].

Lemma ok_argv argv F : store_check t0 (argv ++ F)%list = true -> store_ok t0 (argv ++ F)%list.
Proof. apply store_check_sound. Qed.

Lemma clock_range n : 1000 <= clock conf0 n <= 1100.
Proof. cbn. pose proof (Nat.mod_upper_bound n 100). lia. Qed.

(** The same state with the arguments of bit commands: another "1", "or", "incrby", "i8", "#1" and "get". *)
Definition t1 : store := with_objs (fun m =>
   <[11%positive := Robj OBJ_STRING OBJ_ENCODING_EMBSTR (PSds [49]) 1]>
  (<[12%positive := Robj OBJ_STRING OBJ_ENCODING_EMBSTR (PSds [79; 114]) 1]>
  (<[13%positive := Robj OBJ_STRING OBJ_ENCODING_EMBSTR (PSds [105; 110; 99; 114; 98; 121]) 1]>
  (<[14%positive := Robj OBJ_STRING OBJ_ENCODING_EMBSTR (PSds [105; 56]) 2]>
  (<[15%positive := Robj OBJ_STRING OBJ_ENCODING_EMBSTR (PSds [35; 49]) 2]>
  (<[16%positive := Robj OBJ_STRING OBJ_ENCODING_EMBSTR (PSds [103; 101; 116]) 1]> m)))))) t0.

Definition o_one' : oid := Heap 11.
Definition o_or : oid := Heap 12.
Definition o_incrby : oid := Heap 13.
Definition o_i8 : oid := Heap 14.
Definition o_hash1 : oid := Heap 15.
Definition o_get : oid := Heap 16.

Definition s1 : server := with_st t1 s0.
Definition rest1 (argv : list oid) : list oid :=
  filter (fun o => o ∉ argv) [o_xy; o_cmd; o_a; o_n; o_one; o_max; o_z; o_watch; o_watch; o_one'; o_or; o_incrby; o_i8; o_i8; o_hash1; o_hash1; o_get].

Lemma ok_argv1 argv F : store_check t1 (argv ++ F)%list = true -> store_ok t1 (argv ++ F)%list.
Proof. apply store_check_sound. Qed.

(** [is_arg] on a concrete vector. *)
Ltac arg := eexists _, _; split; [reflexivity|split; reflexivity].
End Sample.
