(* ===== verification/KeySpec.v ===== *)
(** * What the commands on keys do (specification of the commands of Db.v)

    RENAME, DEL, EXPIRE and PERSIST in terms of the values and expire times the
    databases hold. *)

From S2P Require Import Prelude Util Sds State Object Server Db DbSpec Outcome SampleState.

(** ** Steps of a command in terms of what the databases hold *)

(** From [s] to [s'] the keys take the values [v] and the expire times [x], the references
    become [E'], and the values of the references in [keep] stay. *)
Record step_to (s s' : server) (E' keep : list oid) (v : Z * sds -> option value) (x : Z * sds -> option Z) : Prop := {
  to_ok : store_ok (st s') E';
  to_quiet : quiet s s';
  to_view : forall k, view (st s') k = v k;
  to_expires : forall k, expires (st s') !! k = x k;
  to_keep : forall o, o ∈ keep -> val_at (st s') o = val_at (st s) o
}.

(** The function that is [v] at [k] and [f] elsewhere. *)
Definition at_key {A} (k : Z * sds) (v : A) (f : Z * sds -> A) (k' : Z * sds) : A :=
  if decide (k' = k) then v else f k'.

Lemma at_key_same {A} k (v : A) f : at_key k v f k = v.
Proof. unfold at_key. by rewrite decide_True. Qed.
Lemma at_key_other {A} k (v : A) f k' : k' <> k -> at_key k v f k' = f k'.
Proof. intros. unfold at_key. by rewrite decide_False. Qed.

(** [s] itself, seen as a state reached by a step. *)
Lemma dbDelete_step s E db key :
  store_ok (st s) E ->
  exists t, dbDelete db key s = Some (bool_decide (is_Some (dict (st s) !! (db, key))), with_st t s) /\
    step_to s (with_st t s) E E (at_key (db, key) None (view (st s))) (at_key (db, key) None (fun k => expires (st s) !! k)) /\
    dict t = delete (db, key) (dict (st s)).
Proof.
  intros Hok. destruct (dbDelete_spec s E db key Hok) as (t & Hrun & Hok' & Hd & Hx & Hk).
  exists t. split; [done|]. split; [|done]. split; cbn; [done|done| | |].
  - intros k. rewrite (view_of_delete E (st s) t (db, key) k (kept_vals _ _ _ Hk) Hd). done.
  - intros k. rewrite Hx. unfold at_key. destruct (decide (k = (db, key))) as [->|]; [apply lookup_delete_eq|by apply lookup_delete_ne].
  - intros o Ho. eapply kept_val; [exact Hk|by apply refs_ext].
Qed.

Lemma dbAdd_step s E db key o v :
  store_ok (st s) (o :: E) -> dict (st s) !! (db, key) = None -> val_at (st s) o = Some v ->
  exists s', dbAdd db key o s = Some (tt, s') /\
    step_to s s' E E (at_key (db, key) (Some v) (view (st s))) (fun k => expires (st s) !! k) /\
    dict (st s') = <[(db, key):=o]> (dict (st s)).
Proof.
  intros Hok Hk Hv. destruct (put_spec s E db key o Hok) as (s' & Hrun & Hok' & Hq & _ & _ & Hd & Hx & Hkept).
  rewrite Hk in Hrun. exists s'. split; [done|]. split; [|done]. split; [done|done| | |].
  - intros k. rewrite (view_of_insert E (st s) (st s') (db, key) o k (kept_vals _ _ _ Hkept) Hd).
    unfold at_key. by rewrite Hv.
  - intros k. by rewrite Hx.
  - intros x Hx'. eapply kept_val; [exact Hkept|by apply refs_ext].
Qed.

Lemma step_refl s E : store_ok (st s) E -> step_to s s E E (view (st s)) (fun k => expires (st s) !! k).
Proof. by split. Qed.

Lemma step_trans s1 s2 s3 E keep E' keep' v x v' x' :
  step_to s1 s2 E keep v x -> step_to s2 s3 E' keep' v' x' -> keep' ⊆ keep -> step_to s1 s3 E' keep' v' x'.
Proof.
  intros [H1 H2 H3 H4 H5] [K1 K2 K3 K4 K5] Hsub. split; [done|by eapply quiet_trans|done|done|].
  intros o Ho. rewrite K5 by done. by apply H5, Hsub.
Qed.

Lemma step_quiet s0 s s' E keep v x : quiet s0 s -> step_to s s' E keep v x -> step_to s0 s' E [] v x.
Proof. intros Hq []. split; try done; [by eapply quiet_trans|by intros ? ?%elem_of_nil]. Qed.

Lemma step_ext s s' E keep v x v' x' :
  step_to s s' E keep v x -> (forall k, v k = v' k) -> (forall k, x k = x' k) -> step_to s s' E keep v' x'.
Proof. intros [] Hv Hx. split; try done; intros k; [rewrite <- Hv|rewrite <- Hx]; auto. Qed.

Lemma step_lookup s E k s1 :
  expire_step k E s s1 ->
  step_to s s1 E E (at_key k (alive s k) (view (st s))) (at_key k (alive_expire s k) (fun k => expires (st s) !! k)).
Proof.
  intros Hes. split; try apply Hes.
  - intros k'. by apply (es_view _ _ _ _ k' Hes).
  - intros k'. by apply (es_expire_at _ _ _ _ k' Hes).
  - intros o Ho. by eapply es_ext.
Qed.

(** [setExpire] or nothing, as RENAME and MOVE use it. *)
Definition carry_expire (w : Z) : option Z := if w =? -1 then None else Some w.

Lemma carry_step s E c cl db key w :
  store_ok (st s) E -> is_Some (dict (st s) !! (db, key)) -> clients s !! c = Some cl ->
  expires (st s) !! (db, key) = None ->
  exists s', (if negb (w =? -1) then setExpire (Some c) db key w else mret tt) s = Some (tt, s') /\
    step_to s s' E E (view (st s)) (at_key (db, key) (carry_expire w) (fun k => expires (st s) !! k)) /\
    dict (st s') = dict (st s).
Proof.
  intros Hok Hk Hc Hx. unfold carry_expire. destruct (Z.eqb_spec w (-1)) as [->|Hw]; cbn [negb].
  - exists s. split; [done|]. split; [|done]. eapply step_ext; [by apply step_refl|done|].
    intros k. unfold at_key. by destruct (decide (k = (db, key))) as [->|].
  - destruct (setExpire_spec s E c cl db key w Hok Hk Hc) as (f & Hrun & Hok').
    eexists. split; [exact Hrun|]. split; [|done]. split; cbn; try done.
    intros k. unfold at_key. destruct (decide (k = (db, key))) as [->|]; [apply lookup_insert_eq|by apply lookup_insert_ne].
Qed.

(** The entry of [dst] is replaced by the object of [src], and [src] is deleted. *)
Definition move_entry (c db : Z) (src dst : sds) (o : oid) (expire : Z) (old : option oid) : M unit :=
  _ ← (match old with Some _ => dbDelete db dst | None => mret true end);
  _ ← dbAdd db dst o;
  _ ← (if negb (expire =? -1) then setExpire (Some c) db dst expire else mret tt);
  _ ← dbDelete db src;
  mret tt.

Lemma move_entry_then {A} c db src dst o w old (K : M A) s :
  (_ ← (match old with Some _ => dbDelete db dst | None => mret true end);
   _ ← dbAdd db dst o;
   _ ← (if negb (w =? -1) then setExpire (Some c) db dst w else mret tt);
   _ ← dbDelete db src;
   K) s = (_ ← move_entry c db src dst o w old; K) s.
Proof.
  unfold move_entry, mbind, ST_bind.
  destruct ((match old with Some _ => dbDelete db dst | None => mret true end) s) as [[? s1]|]; [|done].
  destruct (dbAdd db dst o s1) as [[? s2]|]; [|done].
  destruct ((if negb (w =? -1) then setExpire (Some c) db dst w else mret tt) s2) as [[? s3]|]; [|done].
  by destruct (dbDelete db src s3) as [[? s4]|].
Qed.

Lemma absent_view t k : dict t !! k = None -> view t k = None.
Proof. intros Hk. unfold view. by rewrite Hk. Qed.
Lemma absent_no_expire t E k : store_ok t E -> dict t !! k = None -> expires t !! k = None.
Proof. intros Hok Hk. apply not_elem_of_dom. intros Hd%(ok_expires _ _ Hok). apply elem_of_dom in Hd as [? ?]. congruence. Qed.

Lemma clear_dst s E db key :
  store_ok (st s) E ->
  exists b s', (match dict (st s) !! (db, key) with Some _ => dbDelete db key | None => mret true end) s = Some (b, s') /\
    step_to s s' E E (at_key (db, key) None (view (st s))) (at_key (db, key) None (fun k => expires (st s) !! k)) /\
    dict (st s') = delete (db, key) (dict (st s)).
Proof.
  intros Hok. destruct (dict (st s) !! (db, key)) as [o|] eqn:Hk.
  - destruct (dbDelete_step s E db key Hok) as (t & Hrun & Hst & Hd). by eexists _, _.
  - exists true, s. split; [done|]. split; [|by rewrite delete_id].
    eapply step_ext; [by apply step_refl| |]; intros k; unfold at_key; destruct (decide (k = (db, key))) as [->|]; try done.
    + by apply absent_view.
    + by eapply absent_no_expire.
Qed.

Lemma move_entry_spec s E c cl db src dst o v w :
  store_ok (st s) (o :: E) -> src <> dst -> dict (st s) !! (db, src) = Some o -> val_at (st s) o = Some v ->
  clients s !! c = Some cl ->
  exists s', move_entry c db src dst o w (dict (st s) !! (db, dst)) s = Some (tt, s') /\
    step_to s s' E E
      (at_key (db, src) None (at_key (db, dst) (Some v) (view (st s))))
      (at_key (db, src) None (at_key (db, dst) (carry_expire w) (fun k => expires (st s) !! k))).
Proof.
  intros Hok Hne Hsrc Hv Hc. unfold move_entry.
  destruct (clear_dst s (o :: E) db dst Hok) as (b & s3 & H3 & S3 & D3). erewrite bind_run by exact H3.
  assert (dict (st s3) !! (db, dst) = None) as K3 by (by rewrite D3, lookup_delete_eq).
  destruct (dbAdd_step s3 E db dst o v (to_ok _ _ _ _ _ _ S3) K3) as (s4 & H4 & S4 & D4).
  { rewrite (to_keep _ _ _ _ _ _ S3) by set_solver. done. }
  erewrite bind_run by exact H4.
  assert (quiet s s4) as Q4 by (eapply quiet_trans; [apply S3|apply S4]).
  assert (clients s4 !! c = Some cl) as Hc4 by (destruct Q4 as (_ & _ & -> & _); done).
  destruct (carry_step s4 E c cl db dst w (to_ok _ _ _ _ _ _ S4)) as (s5 & H5 & S5 & D5); [|done| |].
  { rewrite D4, lookup_insert_eq. by eexists. }
  { rewrite (to_expires _ _ _ _ _ _ S4). by eapply absent_no_expire, K3; apply S3. }
  erewrite bind_run by exact H5.
  destruct (dbDelete_step s5 E db src (to_ok _ _ _ _ _ _ S5)) as (t & H6 & S6 & _).
  erewrite bind_run by exact H6. eexists. split; [done|].
  eapply step_ext.
  - eapply (step_trans _ _ _ _ _ _ _ _ _ _ _ S3); [|set_solver].
    eapply (step_trans _ _ _ _ _ _ _ _ _ _ _ S4); [|set_solver].
    eapply (step_trans _ _ _ _ _ _ _ _ _ _ _ S5); [|set_solver]. exact S6.
  - intros k. unfold at_key at 1 2. destruct (decide (k = (db, src))); [done|].
    rewrite (to_view _ _ _ _ _ _ S5), (to_view _ _ _ _ _ _ S4). unfold at_key. destruct (decide (k = (db, dst))); [done|].
    rewrite (to_view _ _ _ _ _ _ S3). by rewrite at_key_other.
  - intros k. unfold at_key at 1 2. destruct (decide (k = (db, src))); [done|].
    rewrite (to_expires _ _ _ _ _ _ S5). unfold at_key. destruct (decide (k = (db, dst))); [done|].
    rewrite (to_expires _ _ _ _ _ _ S4), (to_expires _ _ _ _ _ _ S3). by rewrite at_key_other.
Qed.

(** ** RENAME *)

(** The outcome of a command on several keys: the values and expire times of all the keys, and
    the keys whose watchers are flagged. *)
Record outcomes (s : server) (c : Z) (E : list oid) (s' : server) (v : Z * sds -> option value)
    (x : Z * sds -> option Z) (touched : list (Z * sds)) (d : Z) (rs : list reply) : Prop := {
  os_ok : store_ok (st s') E;
  os_conf : conf s' = conf s;
  os_watched : watched_keys s' = watched_keys s;
  os_view : forall k, view (st s') k = v k;
  os_expires : forall k, expires (st s') !! k = x k;
  os_clients : clients s' = alter (says rs) c (foldl (fun m k => touch_clients (watchers s k) m) (clients s) touched);
  os_dirty : dirty s' = dirty s + d
}.

Lemma outcomes_step s c E s1 s' keep v x touched d rs :
  step_to s s1 E keep v x ->
  st s' = st s1 -> conf s' = conf s1 -> watched_keys s' = watched_keys s1 ->
  clients s' = alter (says rs) c (foldl (fun m k => touch_clients (watchers s1 k) m) (clients s1) touched) ->
  dirty s' = dirty s1 + d -> outcomes s c E s' v x touched d rs.
Proof.
  intros [Hok (Hc & Hw & Hcl & Hd & _) Hv Hx _] Est Ec Ew Ecl Ed. split; rewrite ?Est; try done; try congruence.
  rewrite Ecl, Hcl. f_equal. clear -Hw. generalize (clients s). induction touched as [|k ks IH]; intros m; [done|].
  cbn. replace (watchers s1 k) with (watchers s k) by (unfold watchers; by rewrite Hw). by apply IH.
Qed.

Lemma outcomes_ext s c E s' v x v' x' touched d rs :
  outcomes s c E s' v x touched d rs -> (forall k, v k = v' k) -> (forall k, x k = x' k) ->
  outcomes s c E s' v' x' touched d rs.
Proof. intros [] Hv Hx. split; try done; intros k; [rewrite <- Hv|rewrite <- Hx]; auto. Qed.

(** The end of RENAME: the entry is moved and both keys are signalled. *)
Lemma rename_commit s s2 E c cl db src dst o v w r (argv : list oid) :
  store_ok (st s2) (o :: E) -> src <> dst -> dict (st s2) !! (db, src) = Some o -> val_at (st s2) o = Some v ->
  clients s2 !! c = Some cl -> quiet s s2 ->
  exists s', (_ ← (match dict (st s2) !! (db, dst) with Some _ => dbDelete db dst | None => mret true end);
    _ ← dbAdd db dst o;
    _ ← (if negb (w =? -1) then setExpire (Some c) db dst w else mret tt);
    _ ← dbDelete db src;
    _ ← signalModifiedKey db src;
    _ ← signalModifiedKey db dst;
    _ ← notifyKeyspaceEvent NOTIFY_GENERIC "rename_from" src db;
    _ ← notifyKeyspaceEvent NOTIFY_GENERIC "rename_to" dst db;
    _ ← incr_dirty 1;
    _ ← addReply c r;
    mret argv) s2 = Some (argv, s') /\
    outcomes s c E s'
      (at_key (db, src) None (at_key (db, dst) (Some v) (view (st s2))))
      (at_key (db, src) None (at_key (db, dst) (carry_expire w) (fun k => expires (st s2) !! k)))
      [(db, src); (db, dst)] 1 [r].
Proof.
  intros Hok Hne Hsrc Hv Hc Hq.
  destruct (move_entry_spec s2 E c cl db src dst o v w Hok Hne Hsrc Hv Hc) as (s3 & Hmove & Hst).
  apply (step_quiet s) in Hst; [|done].
  rewrite move_entry_then, (bind_run _ _ _ _ _ Hmove).
  rewrite (bind_run _ _ _ _ _ (signalModifiedKey_spec _ _ _)), (bind_run _ _ _ _ _ (signalModifiedKey_spec _ _ _)).
  eexists. split; [done|]. by eapply outcomes_step.
Qed.

Lemma rename_rest s s1 c cl argv F src dst o v (nx : bool) :
  let ks := (c_db cl, src) in let kd := (c_db cl, dst) in
  clients s !! c = Some cl -> expire_step ks (argv ++ F)%list s s1 -> src <> dst ->
  dict (st s1) !! ks = Some o -> val_at (st s1) o = Some v ->
  exists s', (_ ← in_store (incrRefCount o);
    expire ← getExpire (c_db cl) src;
    old ← lookupKeyWrite (c_db cl) dst;
    match old, nx with
    | Some _, true => _ ← in_store (decrRefCount o); _ ← addReply c (RInt 0); mret argv
    | _, _ =>
        _ ← (match old with Some _ => dbDelete (c_db cl) dst | None => mret true end);
        _ ← dbAdd (c_db cl) dst o;
        _ ← (if negb (expire =? -1) then setExpire (Some c) (c_db cl) dst expire else mret tt);
        _ ← dbDelete (c_db cl) src;
        _ ← signalModifiedKey (c_db cl) src;
        _ ← signalModifiedKey (c_db cl) dst;
        _ ← notifyKeyspaceEvent NOTIFY_GENERIC "rename_from" src (c_db cl);
        _ ← notifyKeyspaceEvent NOTIFY_GENERIC "rename_to" dst (c_db cl);
        _ ← incr_dirty 1;
        _ ← addReply c (if nx then RInt 1 else R_ok);
        mret argv
    end) s1 = Some (argv, s') /\
    if nx && bool_decide (is_Some (alive s1 kd)) then
      outcomes s c (argv ++ F)%list s'
        (at_key kd (alive s1 kd) (view (st s1))) (at_key kd (alive_expire s1 kd) (fun k => expires (st s1) !! k))
        [] 0 [RInt 0]
    else
      outcomes s c (argv ++ F)%list s'
        (at_key ks None (at_key kd (Some v) (view (st s1))))
        (at_key ks None (at_key kd (alive_expire s ks ≫= carry_expire) (fun k => expires (st s1) !! k)))
        [ks; kd] 1 [if nx then RInt 1 else R_ok].
Proof.
  intros ks kd Hc Hes Hne Hk Hv. pose proof (es_ok _ _ _ _ Hes) as Hok1.
  destruct (incrRefCount_spec (st s1) (argv ++ F)%list o Hok1) as (t2 & Hincr & Hok2 & Hst2); [by eapply refs_dict|].
  erewrite bind_run by (by apply in_store_run).
  erewrite bind_run by (by eapply getExpire_spec). pose proof Hst2 as (Hd2 & Hx2 & Hkept2).
  set (w := match expires (st (with_st t2 s1)) !! (c_db cl, src) with Some w => w | None => -1 end).
  assert (carry_expire w = alive_expire s ks ≫= carry_expire) as Hw.
  { subst w. cbn. rewrite Hx2. pose proof (es_expire_at _ _ _ _ ks Hes) as Hxs. rewrite decide_True in Hxs by done.
    fold ks. rewrite <- Hxs. by destruct (expires (st s1) !! ks). }
  destruct (lookup_found (with_st t2 s1) _ (c_db cl) dst Hok2) as (s3 & old & Hl & Hes3 & Hf). fold kd in Hes3, Hf.
  assert (forall k, view t2 k = view (st s1) k) as Hview2 by (intros k; by eapply heap_step_view).
  assert (alive (with_st t2 s1) kd = alive s1 kd /\ alive_expire (with_st t2 s1) kd = alive_expire s1 kd) as [Ea Ex].
  { unfold alive, alive_expire, removes, expired. cbn. by rewrite Hx2, Hview2. }
  assert (quiet s s3) as Hq by (eapply quiet_trans; [apply Hes|]; eapply quiet_trans; [apply quiet_with_st|apply Hes3]).
  assert (clients s3 !! c = Some cl) as Hc3 by (destruct Hq as (_ & _ & -> & _); done).
  rewrite (bind_run _ _ _ _ _ Hl), <- Ea.
  destruct (nx && bool_decide (is_Some (alive (with_st t2 s1) kd))) eqn:Hbusy.
  - apply andb_true_iff in Hbusy as [-> [vd Hvd]%bool_decide_eq_true_1]. rewrite Hvd in Hf |- *.
    inversion Hf. subst. rewrite <- Hvd.
    destruct (decrRefCount_spec (st s3) (argv ++ F)%list o (es_ok _ _ _ _ Hes3)) as (t4 & Hdecr & Hok4 & Hst4).
    erewrite bind_run by (by apply in_store_run). eexists. split; [done|].
    pose proof Hst4 as (Hd4 & Hx4 & _).
    eapply (outcomes_step s c _ (with_st t4 s3) _ []); [|done..|cbn; lia]. split; cbn; [done|exact Hq| | |].
    + intros k. rewrite (heap_step_view _ _ _ k Hst4), (es_view _ _ _ _ k Hes3), Ea. unfold at_key.
      destruct (decide (k = kd)); [done|]. by rewrite Hview2.
    + intros k. rewrite Hx4, (es_expire_at _ _ _ _ k Hes3), Ex. unfold at_key. cbn. by rewrite Hx2.
    + by intros x Hx%elem_of_nil.
  - assert (dict (st s3) !! ks = Some o) as Hks3.
    { rewrite (es_dict _ _ _ _ Hes3). cbn. rewrite Hd2. case_match; [|done]. rewrite lookup_delete_ne; [done|]. intros [= ?]. congruence. }
    assert (val_at (st s3) o = Some v) as Hv3.
    { rewrite (es_ext _ _ _ _ _ Hes3) by set_solver. cbn. rewrite (kept_val _ _ _ o Hkept2); [done|]. by eapply refs_dict. }
    destruct (rename_commit s s3 (argv ++ F)%list c cl (c_db cl) src dst o v w (if nx then RInt 1 else R_ok) argv
      (es_ok _ _ _ _ Hes3) Hne Hks3 Hv3 Hc3 Hq) as (s' & Hrun & Ho).
    exists s'. split.
    + fold kd in Hrun. destruct (alive (with_st t2 s1) kd); inversion Hf as [_ Hkd|o' v' _ Hkd _ _]; subst; rewrite Hkd in Hrun.
      * by destruct nx.
      * by destruct nx.
    + fold ks kd in Ho. rewrite Hw in Ho. eapply outcomes_ext; [exact Ho| |]; intros k; unfold at_key;
        destruct (decide (k = ks)); try done; destruct (decide (k = kd)); try done.
      * rewrite (es_view _ _ _ _ k Hes3), decide_False by done. by rewrite <- Hview2.
      * rewrite (es_expire_at _ _ _ _ k Hes3), decide_False by done. cbn. by rewrite Hx2.
Qed.

(** C31 [renameGenericCommand] gives the destination the value and the expire time of the source, which
    is gone afterwards; the former value and expire time of the destination are
    dropped, and the clients that watch either key are flagged. Without a source, or
    with NX and an existing destination, no value changes. [s1] is the state after the
    lookup of the source. *)
Theorem renameGenericCommand_moves s c cl argv F src dst nx :
  clients s !! c = Some cl -> store_ok (st s) (argv ++ F)%list ->
  is_arg (st s) argv 1 src -> is_arg (st s) argv 2 dst ->
  let ks := (c_db cl, src) in let kd := (c_db cl, dst) in
  exists s', renameGenericCommand c argv nx s = Some (argv, s') /\
    match alive s ks with
    | None => outcome s c ks (argv ++ F)%list s' None None false 0 [R_nokeyerr]
    | Some v =>
        if decide (src = dst) then
          outcome s c ks (argv ++ F)%list s' (Some v) (alive_expire s ks) false 0 [if nx then RInt 0 else R_ok]
        else
          exists s1, expire_step ks (argv ++ F)%list s s1 /\
            if nx && bool_decide (is_Some (alive s1 kd)) then
              outcomes s c (argv ++ F)%list s'
                (at_key kd (alive s1 kd) (view (st s1))) (at_key kd (alive_expire s1 kd) (fun k => expires (st s1) !! k))
                [] 0 [RInt 0]
            else
              outcomes s c (argv ++ F)%list s'
                (at_key ks None (at_key kd (Some v) (view (st s1))))
                (at_key ks None (at_key kd (alive_expire s ks ≫= carry_expire) (fun k => expires (st s1) !! k)))
                [ks; kd] 1 [if nx then RInt 1 else R_ok]
    end.
Proof.
  intros Hc Hok Hsrc Hdst ks kd. unfold renameGenericCommand.
  rewrite (bind_run _ _ _ _ _ (client_db_run s c cl Hc)), (bind_run _ _ _ _ _ (is_arg_run s argv 1 src Hsrc)),
    (bind_run _ _ _ _ _ (is_arg_run s argv 2 dst Hdst)).
  destruct (lookupWriteOrReply_spec s c cl _ src R_nokeyerr Hc Hok) as (s1 & old & Hes & Hf & Hrun). fold ks in Hes, Hf.
  cbv zeta. rewrite (bind_run _ _ _ _ _ Hrun).
  destruct (alive s ks) as [v|] eqn:Ha; [inversion Hf as [|o v' _ Hk Hv Hin]|inversion Hf as [_ Hk|]]; subst; cbv beta iota.
  2:{ eexists. split; [done|]. rewrite <- (absent_expire _ _ _ _ Hes Hk), <- Ha. by apply outcome_lookup. }
  destruct (decide (src = dst)) as [Heq|Hne].
  { rewrite (proj2 (Z.eqb_eq _ _)) by (by apply sdscmp_eq). eexists. split; [done|]. rewrite <- Ha. by apply outcome_lookup. }
  rewrite (proj2 (Z.eqb_neq _ _)) by (by rewrite sdscmp_eq).
  destruct (rename_rest s s1 c cl argv F src dst o v nx Hc Hes Hne Hk Hv) as (s' & Hrun' & Ho).
  exists s'. split; [exact Hrun'|]. by exists s1.
Qed.

(** ** EXPIRE *)

Lemma rewriteClientCommandVector_spec name s argv F key :
  store_ok (st s) (argv ++ F)%list -> argv !! 1%nat = Some key -> bytes_ok name ->
  exists aux t, rewriteClientCommandVector name argv s = Some ([aux; key], with_st t s) /\
    store_ok t ([aux; key] ++ F)%list /\ expires t = expires (st s) /\ (forall k, view t k = view (st s) k).
Proof.
  intros Hok Hkey Hname. unfold rewriteClientCommandVector, arg. erewrite bind_run by (by apply lift_run).
  destruct (createString_spec (st s) _ name Hok Hname) as (aux & t1 & Hcr & Hok1 & Hv1 & Hst1%heap_val_step & _).
  erewrite bind_run by (by apply in_store_run).
  destruct (incrRefCount_spec t1 _ key Hok1) as (t2 & Hincr & Hok2 & Hst2).
  { apply refs_ext. apply elem_of_cons. right. by eapply arg_in. }
  erewrite bind_run by (apply in_store_run; exact Hincr).
  destruct (decr_all argv t2 ([aux; key] ++ F)%list) as (t3 & Hdecr & Hok3 & Hst3).
  { eapply store_ok_perm; [|exact Hok2]. change ([aux; key] ++ F)%list with (aux :: key :: F).
    etrans; [apply Permutation_swap|]. etrans; [apply perm_skip, Permutation_middle|]. apply Permutation_middle. }
  erewrite bind_run by (apply in_store_run; exact Hdecr).
  exists aux, t3. split_and!; [done|done| |].
  - destruct Hst3 as (_ & -> & _). destruct Hst2 as (_ & -> & _). by destruct Hst1 as (_ & -> & _).
  - intros k. rewrite (heap_step_view _ _ _ k Hst3), (heap_step_view _ _ _ k Hst2). by eapply val_step_view.
Qed.

Lemma touch_says cs rs c m : touch_clients cs (alter (says rs) c m) = alter (says rs) c (touch_clients cs m).
Proof.
  apply map_eq. intros i. rewrite touch_clients_lookup. destruct (decide (i = c)) as [->|Hne].
  - rewrite !lookup_alter_eq, touch_clients_lookup. case_decide; [|done]. by destruct (m !! c).
  - rewrite !lookup_alter_ne, touch_clients_lookup by done. done.
Qed.

(** The absolute expire time an EXPIRE command asks for. *)
Definition expire_when (n basetime : Z) (tu : time_unit) : Z :=
  match tu with UNIT_SECONDS => n * 1000 | UNIT_MILLISECONDS => n end + basetime.

Definition when_ok (n basetime : Z) (tu : time_unit) : Prop :=
  LLONG_MIN <= match tu with UNIT_SECONDS => n * 1000 | UNIT_MILLISECONDS => n end <= LLONG_MAX /\
  LLONG_MIN <= expire_when n basetime tu <= LLONG_MAX.

(** A command that expires a key in the past deletes it, and is rewritten to DEL or UNLINK. *)
Lemma expire_now_spec s s1 c argv F db key ko v :
  expire_step (db, key) (argv ++ F)%list s s1 -> dict (st s1) !! (db, key) = Some v -> argv !! 1%nat = Some ko ->
  forall s2, quiet s1 s2 -> st s2 = st s1 ->
  exists argv' s', (deleted ← expire_delete db key;
      _ ← assert_that deleted;
      _ ← incr_dirty 1;
      argv ← rewriteClientCommandVector (if lazyfree_lazy_expire (conf s2) then UNLINK_NAME else DEL_NAME) argv;
      _ ← signalModifiedKey db key;
      _ ← notifyKeyspaceEvent NOTIFY_GENERIC "del" key db;
      _ ← addReply c (RInt 1);
      mret argv) s2 = Some (argv', s') /\
    outcome s c (db, key) (argv' ++ F)%list s' None None true 1 [RInt 1].
Proof.
  intros Hes Hk Hko s2 Hq2 Est. pose proof (es_ok _ _ _ _ Hes) as Hok. rewrite <- Est in Hok, Hk.
  destruct (expire_delete_spec s2 _ db key Hok) as (t & Hdel & Hok3 & Hd3 & Hx3 & Hk3).
  erewrite bind_run by exact Hdel. rewrite bool_decide_true by (rewrite Hk; by eexists).
  erewrite bind_run by (by apply assert_run). unfold incr_dirty. run.
  destruct (rewriteClientCommandVector_spec (if lazyfree_lazy_expire (conf s2) then UNLINK_NAME else DEL_NAME)
    (upd_dirty (fun d => d + 1) (with_st t s2)) argv F ko Hok3 Hko) as (aux & t4 & Hrw & Hok4 & Hx4 & Hv4).
  { destruct (lazyfree_lazy_expire _); repeat constructor; lia. }
  erewrite bind_run by exact Hrw. rewrite (bind_run _ _ _ _ _ (signalModifiedKey_spec _ _ _)).
  eexists _, _. split; [done|].
  apply (outcome_written s c (db, key) _ (with_st t4 s2)); try done.
  split; cbn; [done| | |].
  - eapply quiet_trans; [apply Hes|]. eapply quiet_trans; [exact Hq2|apply quiet_with_st].
  - intros k'. rewrite Hv4. cbn. rewrite (view_of_delete _ (st s2) t (db, key) k' (kept_vals _ _ _ Hk3) Hd3), Est.
    destruct (decide (k' = (db, key))); [done|]. rewrite (es_view _ _ _ _ k' Hes). by rewrite decide_False.
  - intros k'. rewrite Hx4. cbn. rewrite Hx3, Est.
    destruct (decide (k' = (db, key))) as [->|]; [apply lookup_delete_eq|]. rewrite lookup_delete_ne by done.
    rewrite (es_expire_at _ _ _ _ k' Hes). by rewrite decide_False.
Qed.

Lemma expire_later_spec s s1 c cl argv F db key o v when :
  expire_step (db, key) (argv ++ F)%list s s1 -> dict (st s1) !! (db, key) = Some o -> val_at (st s1) o = Some v ->
  clients s !! c = Some cl ->
  forall s2, quiet s1 s2 -> st s2 = st s1 ->
  exists s', (_ ← setExpire (Some c) db key when;
      _ ← addReply c (RInt 1);
      _ ← signalModifiedKey db key;
      _ ← notifyKeyspaceEvent NOTIFY_GENERIC "expire" key db;
      _ ← incr_dirty 1;
      mret argv) s2 = Some (argv, s') /\
    outcome s c (db, key) (argv ++ F)%list s' (Some v) (Some when) true 1 [RInt 1].
Proof.
  intros Hes Hk Hv Hc s2 Hq2 Est. pose proof (es_ok _ _ _ _ Hes) as Hok.
  assert (quiet s s2) as Hq by (eapply quiet_trans; [apply Hes|done]).
  destruct (setExpire_spec s2 (argv ++ F)%list c cl db key when) as (f & Hse & Hok3).
  { by rewrite Est. }
  { rewrite Est, Hk. by eexists. }
  { destruct Hq as (_ & _ & -> & _). done. }
  erewrite bind_run by exact Hse. unfold addReply, upd_client. run.
  rewrite (bind_run _ _ _ _ _ (signalModifiedKey_spec _ _ _)).
  eexists. split; [done|].
  apply (outcome_written s c (db, key) _ (upd_slave_keys f (with_st (with_expires (insert (db, key) when) (st s2)) s2))); try done.
  - split; cbn; [done|done| |].
    + intros k'. change (view (with_expires _ (st s2)) k') with (view (st s2) k'). rewrite Est, (es_view _ _ _ _ k' Hes).
      destruct (decide (k' = (db, key))) as [->|]; [|done].
      pose proof (es_view _ _ _ _ (db, key) Hes) as Hview. rewrite decide_True in Hview by done. rewrite <- Hview.
      unfold view. by rewrite Hk.
    + intros k'. destruct (decide (k' = (db, key))) as [->|]; [apply lookup_insert_eq|].
      rewrite lookup_insert_ne, Est, (es_expire_at _ _ _ _ k' Hes) by done. by rewrite decide_False.
  - cbn. by rewrite (touch_says _ [RInt 1]).
Qed.

(** C35 [expireGenericCommand] gives an existing key the requested expire time, also when it has one, and
    flags its watchers; on a master that is not loading, a time that is not in the
    future deletes the key instead. A bad number is an error and an absent key is
    answered with 0. [n] is the reading of the clock the time is compared with. It is stated for numbers whose time in milliseconds, and
    its sum with the base time, fit a long long ([when_ok]); the code overflows a signed type on the others, for an absent key too. *)
Theorem expireGenericCommand_expires s c cl argv F key nb basetime tu :
  clients s !! c = Some cl -> store_ok (st s) (argv ++ F)%list ->
  is_arg (st s) argv 1 key -> is_arg (st s) argv 2 nb ->
  (forall n, string2ll nb = Some n -> when_ok n basetime tu) ->
  let k := (c_db cl, key) in
  exists argv' s', expireGenericCommand c argv basetime tu s = Some (argv', s') /\
    match string2ll nb with
    | None => argv' = argv /\ s' = upd_clients (alter (says [RError "value is not an integer or out of range"]) c) s
    | Some amount =>
        match alive s k with
        | None => argv' = argv /\ outcome s c k (argv ++ F)%list s' None None false 0 [RInt 0]
        | Some v => exists n, (ticks s <= n)%nat /\
            if (expire_when amount basetime tu <=? clock (conf s) n) && negb (loading (conf s)) && negb (masterhost (conf s))
            then outcome s c k (argv' ++ F)%list s' None None true 1 [RInt 1]
            else argv' = argv /\
              outcome s c k (argv ++ F)%list s' (Some v) (Some (expire_when amount basetime tu)) true 1 [RInt 1]
        end
    end.
Proof.
  intros Hc Hok Hkey Hnum Hwhen k. unfold expireGenericCommand.
  rewrite (bind_run _ _ _ _ _ (client_db_run s c cl Hc)), (bind_run _ _ _ _ _ (is_arg_run s argv 1 key Hkey)).
  destruct (is_arg_val _ _ _ _ Hnum) as (o2 & Ho2 & Hv2). erewrite bind_run by (by apply lift_run).
  pose proof (getLongLongOrReply_spec s _ c o2 nb None Hok (refs_ext _ _ _ (arg_in _ F _ _ Ho2)) Hv2) as Hget.
  destruct (string2ll nb) as [m|]; erewrite bind_run by exact Hget; cbv beta iota.
  2:{ eexists _, _. split; [done|]. done. }
  destruct (Hwhen m eq_refl) as [Hw1 Hw2].
  rewrite (bind_run _ _ s (match tu with UNIT_SECONDS => m * 1000 | UNIT_MILLISECONDS => m end) s)
    by (destruct tu; [by apply ll_arith_run|done]).
  erewrite bind_run by (by apply ll_arith_run). fold (expire_when m basetime tu).
  destruct (lookup_found s _ (c_db cl) key Hok) as (s1 & old & Hl & Hes & Hf). rewrite (bind_run _ _ _ _ _ Hl). fold k in Hes, Hf.
  destruct (es_quiet _ _ _ _ Hes) as (Hc1 & _). pose proof (es_ticks _ _ _ _ Hes) as Ht.
  destruct (alive s k) as [v|] eqn:Ha; [inversion Hf as [|o v' _ Hk Hv Ho]|inversion Hf as [_ Hk|]]; subst; cbv beta iota.
  2:{ eexists _, _. split; [done|]. split; [done|]. rewrite <- (absent_expire _ _ _ _ Hes Hk), <- Ha. by apply outcome_lookup. }
  erewrite bind_run by (unfold mstime; run; done). run. cbn [conf upd_ticks]. rewrite <- Hc1.
  destruct (_ && _ && _) eqn:Hnow.
  - destruct Hkey as (ko & ? & Hko & _).
    destruct (expire_now_spec s s1 c argv F (c_db cl) key ko o Hes Hk Hko (upd_ticks S s1)) as (argv' & s' & Hrun & Hout); [done..|].
    exists argv', s'. split; [exact Hrun|]. exists (ticks s1). split; [done|]. by rewrite Hnow.
  - destruct (expire_later_spec s s1 c cl argv F (c_db cl) key o v (expire_when m basetime tu) Hes Hk Hv Hc (upd_ticks S s1))
      as (s' & Hrun & Hout); [done..|].
    exists argv, s'. split; [exact Hrun|]. exists (ticks s1). split; [done|]. by rewrite Hnow.
Qed.

(** ** DEL *)

(** The keys of a list that are deleted when they are deleted one after the other: those with a value,
    each once. *)
Fixpoint deleted (v : Z * sds -> option value) (ks : list (Z * sds)) : list (Z * sds) :=
  match ks with
  | [] => []
  | k :: ks =>
      match v k with
      | Some _ => k :: deleted (at_key k None v) ks
      | None => deleted v ks
      end
  end.

(** [f] except at the keys of [ks], where there is nothing. *)
Definition without {A} (ks : list (Z * sds)) (f : Z * sds -> option A) (k : Z * sds) : option A :=
  if decide (k ∈ ks) then None else f k.

(** Whether the keys have expired does not change while the command runs. *)
Definition steady (s : server) (ks : list (Z * sds)) : Prop :=
  forall k n, k ∈ ks -> expired (upd_ticks (fun _ => n) s) k = expired s k.

Lemma deleted_ext v v' ks : (forall k, k ∈ ks -> v k = v' k) -> deleted v ks = deleted v' ks.
Proof.
  revert v v'. induction ks as [|k ks IH]; intros v v' Hv; [done|]. cbn. rewrite <- (Hv k) by set_solver.
  destruct (v k).
  - f_equal. apply IH. intros k' Hk'. unfold at_key. destruct (decide (k' = k)); [done|]. apply Hv. set_solver.
  - apply IH. intros k' Hk'. apply Hv. set_solver.
Qed.

Lemma key_step {A} s o n (K : sds -> M A) :
  name_at (st s) o = Some n -> (r ← in_store (obj o); key ← lift (as_sds r); K key) s = K n s.
Proof.
  unfold name_at. destruct (obj_at (st s) o) as [r|] eqn:Hr; [|done]. intros Hn.
  erewrite bind_run by (apply in_store_same; unfold obj; run; by apply lift_run).
  by erewrite bind_run by (by apply lift_run).
Qed.

(** The outcome of the loop. *)
Record del_result (s : server) (E : list oid) (ks D : list (Z * sds)) (s' : server) : Prop := {
  dr_ok : store_ok (st s') E;
  dr_conf : conf s' = conf s;
  dr_watched : watched_keys s' = watched_keys s;
  dr_view : forall k, view (st s') k = without ks (view (st s)) k;
  dr_expires : forall k, expires (st s') !! k = without ks (fun k => expires (st s) !! k) k;
  dr_clients : clients s' = foldl (fun m k => touch_clients (watchers s k) m) (clients s) D;
  dr_dirty : dirty s' = dirty s + zlen D
}.

(** One key: the check for expiration and the deletion. *)
Lemma del_one s E db key (lazy : bool) :
  store_ok (st s) E ->
  exists s1 s2, expireIfNeeded db key s = Some (expired s (db, key), s1) /\
    (if lazy then dbAsyncDelete db key else dbSyncDelete db key) s1 = Some (bool_decide (is_Some (alive s (db, key))), s2) /\
    store_ok (st s2) E /\ quiet s s2 /\ kept (refs (st s2) E) (st s) (st s2) /\
    (forall k, view (st s2) k = at_key (db, key) None (view (st s)) k) /\
    (forall k, expires (st s2) !! k = at_key (db, key) None (fun k => expires (st s) !! k) k).
Proof.
  intros Hok. destruct (expireIfNeeded_spec s E db key Hok) as (s1 & Hexp & Hes). pose proof (es_ok _ _ _ _ Hes) as Hok1.
  assert (exists t, (if lazy then dbAsyncDelete db key else dbSyncDelete db key) s1 =
      Some (bool_decide (is_Some (dict (st s1) !! (db, key))), with_st t s1) /\
    store_ok t E /\ del_step (db, key) E (st s1) t) as (t & Hdel & Hok2 & Hd & Hx & Hk).
  { destruct lazy; [by apply dbAsyncDelete_spec|by apply dbSyncDelete_spec]. }
  exists s1, (with_st t s1). split; [done|]. split_and!.
  - rewrite Hdel. do 2 f_equal. apply bool_decide_ext.
    destruct (dict (st s1) !! (db, key)) as [o|] eqn:Ho.
    + destruct (found_value _ _ _ _ _ Hes Ho) as [Hv Hin]. destruct (live_value s1 E o Hok1 Hin) as [v Hv'].
      rewrite <- Hv, Hv'. split; intros _; by eexists.
    + by rewrite (absent_value _ _ _ _ Hes Ho).
  - done.
  - eapply quiet_trans; [apply Hes|apply quiet_with_st].
  - cbn. eapply kept_trans; [|exact Hk]. eapply kept_mono; [apply Hes|].
    unfold refs. rewrite Hd. intros o Ho. apply elem_of_app in Ho as [Ho|Ho]; [|set_solver]. apply elem_of_app. left.
    apply list_elem_of_fmap in Ho as ([k' o'] & -> & Ho%elem_of_map_to_list). apply lookup_delete_Some in Ho as [_ Ho].
    by eapply dict_refs_elem.
  - intros k. cbn. rewrite (view_of_delete E (st s1) t (db, key) k (kept_vals _ _ _ Hk) Hd). unfold at_key.
    destruct (decide (k = (db, key))) as [->|Hne]; [done|]. rewrite (es_view _ _ _ _ k Hes). by rewrite decide_False.
  - intros k. cbn. rewrite Hx. unfold at_key. destruct (decide (k = (db, key))) as [->|Hne]; [apply lookup_delete_eq|].
    rewrite lookup_delete_ne, (es_expire_at _ _ _ _ k Hes) by done. by rewrite decide_False.
Qed.

Lemma expired_dep s s' k :
  conf s' = conf s -> expires (st s') !! k = expires (st s) !! k -> expired s' k = expired (upd_ticks (fun _ => ticks s') s) k.
Proof. intros Hc Hx. unfold expired. cbn. by rewrite Hx, Hc. Qed.

(** After [key] is deleted the other keys are as live as before. *)
Lemma alive_after s s' k0 ks :
  steady s (k0 :: ks) -> conf s' = conf s ->
  (forall k, view (st s') k = at_key k0 None (view (st s)) k) ->
  (forall k, expires (st s') !! k = at_key k0 None (fun k => expires (st s) !! k) k) ->
  steady s' ks /\ (forall k, k ∈ ks -> alive s' k = at_key k0 None (alive s) k).
Proof.
  intros Hst Hc Hv Hx.
  assert (forall s2 k, conf s2 = conf s -> (forall k, expires (st s2) !! k = at_key k0 None (fun k => expires (st s) !! k) k) ->
    k ∈ ks -> expired s2 k = if decide (k = k0) then false else expired s k) as Hexp.
  { intros s2 k Hc2 Hx2 Hk. destruct (decide (k = k0)) as [->|Hne].
    - unfold expired. by rewrite Hx2, at_key_same.
    - rewrite (expired_dep s s2 k Hc2) by (by rewrite Hx2, at_key_other). apply Hst. set_solver. }
  split.
  - intros k n Hk. rewrite (Hexp s' k Hc Hx Hk). by apply (Hexp (upd_ticks (fun _ => n) s') k).
  - intros k Hk. unfold alive, removes. rewrite (Hexp s' k Hc Hx Hk), Hv, Hc. unfold at_key.
    destruct (decide (k = k0)); [|done]. done.
Qed.

Lemma without_cons {A} k0 ks (f : Z * sds -> option A) k :
  without (k0 :: ks) f k = without ks (at_key k0 None f) k.
Proof.
  unfold without, at_key. destruct (decide (k ∈ ks)); [by rewrite decide_True by set_solver|].
  destruct (decide (k = k0)); [by rewrite decide_True by set_solver|by rewrite decide_False by set_solver].
Qed.

Lemma touches_ext s s' D m :
  watched_keys s' = watched_keys s ->
  foldl (fun m k => touch_clients (watchers s' k) m) m D = foldl (fun m k => touch_clients (watchers s k) m) m D.
Proof.
  intros Hw. revert m. induction D as [|k D IH]; intros m; [done|]. cbn.
  replace (watchers s' k) with (watchers s k) by (unfold watchers; by rewrite Hw). apply IH.
Qed.

(** The rest of the loop, after one key. *)
Lemma del_result_cons s s3 E k0 ks s' (D0 : list (Z * sds)) :
  del_result s3 E ks (deleted (alive s3) ks) s' ->
  (forall k, view (st s3) k = at_key k0 None (view (st s)) k) ->
  (forall k, expires (st s3) !! k = at_key k0 None (fun k => expires (st s) !! k) k) ->
  conf s3 = conf s -> watched_keys s3 = watched_keys s ->
  clients s3 = foldl (fun m k => touch_clients (watchers s k) m) (clients s) D0 -> dirty s3 = dirty s + zlen D0 ->
  del_result s E (k0 :: ks) (D0 ++ deleted (alive s3) ks) s'.
Proof.
  intros [] Hv Hx Hc Hw Hcl Hd. split; try congruence; try done.
  - intros k. rewrite without_cons, dr_view0. unfold without. destruct (decide (k ∈ ks)); [done|]. apply Hv.
  - intros k. rewrite without_cons, dr_expires0. unfold without. destruct (decide (k ∈ ks)); [done|]. apply Hx.
  - rewrite dr_clients0, foldl_app, (touches_ext s s3) by done. by rewrite Hcl.
  - rewrite zlen_app. lia.
Qed.

Lemma del_loop_spec c db lazy E keys names : forall s n,
  named (st s) keys names -> keys ⊆ E -> store_ok (st s) E -> steady s (pair db <$> names) ->
  exists s', del_loop c db lazy keys n s = Some (n + zlen (deleted (alive s) (pair db <$> names)), s') /\
    del_result s E (pair db <$> names) (deleted (alive s) (pair db <$> names)) s'.
Proof.
  revert names. induction keys as [|o keys IH]; intros names s n Hn Hsub Hok Hst; cbn [del_loop].
  { apply Forall2_nil_inv_l in Hn as ->. exists s. cbn. rewrite Z.add_0_r. split; [done|].
    split; try done; [by intros k; unfold without; rewrite decide_False by set_solver..|].
    rewrite zlen_nil. lia. }
  apply Forall2_cons_inv_l in Hn as (key & names' & Hkey & Hn & ->). cbn [fmap list_fmap] in *.
  rewrite (key_step s o key _ Hkey). destruct (del_one s E db key lazy Hok) as (s1 & s2 & Hexp & Hdel & Hok2 & Hq & Hk2 & Hv2 & Hx2).
  erewrite bind_run by exact Hexp. erewrite bind_run by exact Hdel. cbn [deleted].
  assert (forall s3, st s3 = st s2 -> conf s3 = conf s2 -> watched_keys s3 = watched_keys s2 -> forall m D0,
    clients s3 = foldl (fun m k => touch_clients (watchers s k) m) (clients s) D0 -> dirty s3 = dirty s + zlen D0 ->
    exists s', del_loop c db lazy keys m s3 = Some (m + zlen (deleted (at_key (db, key) None (alive s)) (pair db <$> names')), s') /\
      del_result s E ((db, key) :: (pair db <$> names')) (D0 ++ deleted (at_key (db, key) None (alive s)) (pair db <$> names')) s') as Hrest.
  { intros s3 Est Ec Ew m D0 Hcl Hd. destruct Hq as (Hc2 & Hw2 & _).
    rewrite <- Est in Hok2, Hk2, Hv2, Hx2.
    destruct (alive_after s s3 (db, key) (pair db <$> names') Hst) as [Hst3 Hal3]; [congruence|done..|].
    destruct (IH names' s3 m) as (s' & Hrun & Hres); [|set_solver|done|done|].
    { eapply named_kept; [exact Hk2| |done]. intros x Hx'. apply refs_ext. set_solver. }
    rewrite <- (deleted_ext _ _ _ Hal3). exists s'. split; [done|].
    eapply del_result_cons; try done; congruence. }
  destruct (alive s (db, key)) as [v|] eqn:Ha.
  - rewrite bool_decide_true by (by eexists). rewrite (bind_run _ _ _ _ _ (signalModifiedKey_spec _ _ _)).
    unfold notifyKeyspaceEvent, incr_dirty. run.
    destruct (Hrest (upd_dirty (fun d => d + 1) (upd_events (fun l => (l ++ [Event NOTIFY_GENERIC "del" key db])%list)
      (upd_clients (touch_clients (watchers s2 (db, key))) s2))) eq_refl eq_refl eq_refl (n + 1) [(db, key)]) as (s' & Hrun & Hres).
    + destruct Hq as (_ & Hw & Hcl & _). cbn. unfold watchers. by rewrite Hw, Hcl.
    + destruct Hq as (_ & _ & _ & Hd & _). cbn. rewrite Hd. done.
    + exists s'. rewrite Hrun. split; [|exact Hres]. do 2 f_equal. rewrite zlen_cons. lia.
  - rewrite bool_decide_false by (by intros [? ?]).
    rewrite (deleted_ext (alive s) (at_key (db, key) None (alive s))).
    + destruct (Hrest s2 eq_refl eq_refl eq_refl n []) as (s' & Hrun & Hres); [by destruct Hq as (_ & _ & -> & _)| |by exists s'].
      destruct Hq as (_ & _ & _ & -> & _). rewrite zlen_nil. lia.
    + intros k' _. unfold at_key. by destruct (decide (k' = (db, key))) as [->|].
Qed.

(** C34 DEL and UNLINK remove the keys they are given, with their expire times, and reply with the number of
    live keys among them, each counted once; the clients that watch one of these are
    flagged, and every other key stays. The keys may repeat; whether they have
    expired must not change while the command runs. *)
Theorem delGenericCommand_deletes s c cl argv F names lazy :
  clients s !! c = Some cl -> store_ok (st s) (argv ++ F)%list -> named (st s) (tail argv) names ->
  let ks := pair (c_db cl) <$> names in
  steady s ks ->
  let D := deleted (alive s) ks in
  exists s', delGenericCommand c argv lazy s = Some (argv, s') /\
    outcomes s c (argv ++ F)%list s' (without ks (view (st s))) (without ks (fun k => expires (st s) !! k))
      D (zlen D) [RInt (zlen D)].
Proof.
  intros Hc Hok Hn ks Hst D. unfold delGenericCommand. rewrite (bind_run _ _ _ _ _ (client_db_run s c cl Hc)).
  destruct (del_loop_spec c (c_db cl) lazy (argv ++ F)%list (tail argv) names s 0 Hn) as (s1 & Hrun & []);
    [destruct argv; set_solver|done|done|].
  erewrite bind_run by exact Hrun. eexists. split; [done|]. split; cbn; try done. by rewrite dr_clients0.
Qed.

(** ** PERSIST *)

Definition persist_spec (old : option value) (x : option Z) : option value * option Z * bool * Z * list reply :=
  match x with
  | Some _ => (old, None, false, 1, [RInt 1])
  | None => (old, None, false, 0, [RInt 0])
  end.

(** [persistCommand] removes the expire time of a key and keeps its value. It does not signal the key:
    the clients that watch it are not flagged, although the number of changes
    grows and EXPIRE on the same key would flag them. *)
Theorem persistCommand_unnoticed s c cl argv F key :
  clients s !! c = Some cl -> store_ok (st s) (argv ++ F)%list -> is_arg (st s) argv 1 key ->
  let k := (c_db cl, key) in
  exists s', persistCommand c argv s = Some (argv, s') /\
    achieves s c k (argv ++ F)%list s' (persist_spec (alive s k) (alive_expire s k)).
Proof.
  intros Hc Hok Hkey k. unfold persistCommand.
  rewrite (bind_run _ _ _ _ _ (client_db_run s c cl Hc)), (bind_run _ _ _ _ _ (is_arg_run s argv 1 key Hkey)).
  destruct (lookup_found s _ (c_db cl) key Hok) as (s1 & old & Hl & Hes & Hf). rewrite (bind_run _ _ _ _ _ Hl). fold k in Hes, Hf.
  pose proof (es_expire_at _ _ _ _ k Hes) as Hx. rewrite decide_True in Hx by done.
  destruct (alive s k) as [v|] eqn:Ha; [inversion Hf as [|o v' _ Hk Hv Ho]|inversion Hf as [_ Hk|]]; subst; cbv beta iota.
  2:{ eexists. split; [done|]. rewrite (absent_expire _ _ _ _ Hes Hk). cbn.
      rewrite <- (absent_expire _ _ _ _ Hes Hk), <- Ha. by apply outcome_lookup. }
  erewrite bind_run by (apply removeExpire_spec; fold k; rewrite Hk; by eexists). fold k. rewrite Hx.
  destruct (alive_expire s k) as [w|] eqn:Hb; cbn [persist_spec achieves].
  - eexists. split; [done|]. pose proof (outcome_lookup s c k _ s1 [RInt 1] Hes) as [H1 H2 H3 H4 H5 H6 H7].
    split; cbn in *; try done.
    + by apply expires_delete_ok.
    + intros k'. change (view (with_expires _ (st s1)) k') with (view (st s1) k'). by rewrite H4, Ha.
    + intros k'. destruct (decide (k' = k)) as [->|]; [apply lookup_delete_eq|]. rewrite lookup_delete_ne by done.
      rewrite H5. by rewrite decide_False.
    + lia.
  - assert (with_st (with_expires (delete k) (st s1)) s1 = s1) as Hid.
    { destruct s1 as [? [? ? ex] ? ? ? ? ? ? ? ? ? ? ? ?]. unfold with_st, upd_st, with_expires. cbn in *. by rewrite delete_id. }
    rewrite Hid. eexists. split; [done|]. rewrite <- Ha, <- Hb. by apply outcome_lookup.
Qed.

(** ** Applications to a concrete state *)

Module Applied.
Import SampleState.Sample.

(** RENAME of "a" to "n", both existing. *)
Lemma renameGenericCommand_moves_witness :
  exists s', renameGenericCommand 1 [o_cmd; o_a; o_n] false s0 = Some ([o_cmd; o_a; o_n], s') /\
    exists s1, expire_step (0, [97]) ([o_cmd; o_a; o_n] ++ rest [o_cmd; o_a; o_n])%list s0 s1 /\
      outcomes s0 1 ([o_cmd; o_a; o_n] ++ rest [o_cmd; o_a; o_n])%list s'
        (at_key (0, [97]) None (at_key (0, [110]) (Some (VStr [120; 121])) (view (st s1))))
        (at_key (0, [97]) None (at_key (0, [110]) (Some 5000) (fun k => expires (st s1) !! k)))
        [(0, [97]); (0, [110])] 1 [R_ok].
Proof.
  apply (renameGenericCommand_moves s0 1 client0 [o_cmd; o_a; o_n] (rest [o_cmd; o_a; o_n]) [97] [110] false).
  - reflexivity.
  - apply ok_argv. vm_compute. reflexivity.
  - arg.
  - arg.
Defined.

(** DEL of "a", "n" and "a" again. *)
Lemma delGenericCommand_deletes_witness :
  let ks := [(0, [97]); (0, [110]); (0, [97])] in
  let D := deleted (alive s0) ks in
  exists s', delGenericCommand 1 [o_cmd; o_a; o_n; o_watch] false s0 = Some ([o_cmd; o_a; o_n; o_watch], s') /\
    outcomes s0 1 ([o_cmd; o_a; o_n; o_watch] ++ [o_watch; o_xy; o_one; o_max; o_z])%list s'
      (without ks (view (st s0))) (without ks (fun k => expires (st s0) !! k)) D (zlen D) [RInt (zlen D)].
Proof.
  apply (delGenericCommand_deletes s0 1 client0 [o_cmd; o_a; o_n; o_watch] [o_watch; o_xy; o_one; o_max; o_z] [[97]; [110]; [97]] false).
  - reflexivity.
  - apply ok_argv. vm_compute. reflexivity.
  - repeat constructor.
  - intros k n Hk. assert (k = (0, [97]) \/ k = (0, [110])) as [->| ->] by set_solver; [|reflexivity].
    unfold expired. cbn [expires st s0 conf lua_time_start loading upd_ticks ticks]. pose proof (clock_range n). pose proof (clock_range 0).
    change (expires t0 !! (0, [97])) with (Some 5000). cbv iota. cbn [loading lua_time_start conf0 negb].
    rewrite !Z.gtb_ltb, !(proj2 (Z.ltb_ge _ _)) by lia. reflexivity.
Defined.

(** PERSIST of "a", which client 2 watches. *)
Lemma persistCommand_unnoticed_witness :
  exists s', persistCommand 1 [o_cmd; o_a] s0 = Some ([o_cmd; o_a], s') /\
    achieves s0 1 (0, [97]) ([o_cmd; o_a] ++ rest [o_cmd; o_a])%list s'
      (persist_spec (alive s0 (0, [97])) (alive_expire s0 (0, [97]))).
Proof.
  apply (persistCommand_unnoticed s0 1 client0 [o_cmd; o_a] (rest [o_cmd; o_a]) [97]).
  - reflexivity.
  - apply ok_argv. vm_compute. reflexivity.
  - arg.
Defined.

(** EXPIREAT of "a" at the second 1. *)
Lemma expireGenericCommand_expires_witness :
  exists argv' s', expireGenericCommand 1 [o_cmd; o_a; o_one] 0 UNIT_SECONDS s0 = Some (argv', s') /\
    exists n, (0 <= n)%nat /\
      if (1000 <=? clock conf0 n) && true && true
      then outcome s0 1 (0, [97]) (argv' ++ rest [o_cmd; o_a; o_one])%list s' None None true 1 [RInt 1]
      else argv' = [o_cmd; o_a; o_one] /\
        outcome s0 1 (0, [97]) ([o_cmd; o_a; o_one] ++ rest [o_cmd; o_a; o_one])%list s' (Some (VStr [120; 121])) (Some 1000) true 1 [RInt 1].
Proof.
  apply (expireGenericCommand_expires s0 1 client0 [o_cmd; o_a; o_one] (rest [o_cmd; o_a; o_one]) [97] [49] 0 UNIT_SECONDS).
  - reflexivity.
  - apply ok_argv. vm_compute. reflexivity.
  - arg.
  - arg.
  - intros n Hn. vm_compute in Hn. injection Hn as <-. unfold when_ok, expire_when, LLONG_MIN, LLONG_MAX. lia.
Defined.
End Applied.
