(* ===== verification/TString.v ===== *)
(** * String commands (t_string.c)

    One definition per command, with every branch. A command gets the client and its
    argument vector and returns the vector, whose entries it may have replaced.
    INCRBYFLOAT is not modelled (long double arithmetic). *)

From S2P Require Import Prelude Util Sds State Object Server Db.

(** A request that no allocator satisfies stops the process; [malloc] refuses sizes of
    [2 ^ 63] bytes and more. *)
Definition alloc_size (n : Z) : M unit := assert_that ((0 <=? n) && (n <? 2 ^ 63)).

(** [sdsnewlen(NULL, n)] and [sdsgrowzero(s, n)]. *)
Definition sdszero (n : Z) : M sds := _ ← alloc_size n; mret (replicate (Z.to_nat n) 0).
Definition sdsgrowzero (s : sds) (n : Z) : M sds :=
  if n <=? zlen s then mret s
  else _ ← alloc_size n; mret (s ++ replicate (Z.to_nat (n - zlen s)) 0)%list.

(** [size] is a [long long]. *)
Definition checkStringLength (c size : Z) : M bool :=
  if size >? 512 * 1024 * 1024 then
    _ ← addReplyError c "string exceeds maximum allowed size (512MB)"; mret false
  else mret true.

(** The flags of SET. *)
Record set_flags : Type := SetFlags {
  OBJ_SET_NX : bool; OBJ_SET_XX : bool; OBJ_SET_EX : bool; OBJ_SET_PX : bool
}.
Definition OBJ_SET_NO_FLAGS : set_flags := SetFlags false false false false.

(** [name] is [c->cmd->name]. *)
Definition setGenericCommand (c : Z) (name : string) (flags : set_flags) (key : sds) (val : oid) (expire : option oid)
    (tu : time_unit) (ok_reply abort_reply : option reply) : M unit :=
  db ← client_db c;
  ms ← (match expire with
        | None => mret (Some None)
        | Some e =>
            v ← getLongLongFromObjectOrReply c (Some e) None;
            match v with
            | None => mret None
            | Some v =>
                if v <=? 0 then _ ← addReplyError c ("invalid expire time in " +:+ name); mret None
                else v ← (match tu with UNIT_SECONDS => ll_arith (v * 1000) | UNIT_MILLISECONDS => mret v end);
                     mret (Some (Some v))
            end
        end);
  match ms with
  | None => mret tt
  | Some milliseconds =>
      nx ← (if OBJ_SET_NX flags then o ← lookupKeyWrite db key; mret (bool_decide (is_Some o)) else mret false);
      abort ← (if nx : bool then mret true
               else if OBJ_SET_XX flags then o ← lookupKeyWrite db key; mret (bool_decide (o = None))
               else mret false);
      if abort : bool then addReply c (match abort_reply with Some r => r | None => R_nullbulk end)
      else
        _ ← setKey db key val;
        _ ← incr_dirty 1;
        _ ← (match milliseconds with
             | Some ms => now ← mstime; when ← ll_arith (now + ms); setExpire (Some c) db key when
             | None => mret tt
             end);
        _ ← notifyKeyspaceEvent NOTIFY_STRING "set" key db;
        _ ← (match milliseconds with
             | Some _ => notifyKeyspaceEvent NOTIFY_GENERIC "expire" key db
             | None => mret tt
             end);
        addReply c (match ok_reply with Some r => r | None => R_ok end)
  end.

(** [a] is the two letters [x y] in either case. *)
Definition is_option (a : sds) (x y : Z) : bool :=
  match a with
  | [p; q] => ((p =? x) || (p =? x - 32)) && ((q =? y) || (q =? y - 32))
  | p :: q :: 0 :: _ => ((p =? x) || (p =? x - 32)) && ((q =? y) || (q =? y - 32))
  | _ => false
  end.

(** The option loop of SET over the arguments from the third on: the flags, the expire
    argument and its unit, or [None] for a syntax error. *)
Fixpoint set_options (args : list oid) (flags : set_flags) (expire : option oid) (tu : time_unit) :
    M (option (set_flags * option oid * time_unit)) :=
  match args with
  | [] => mret (Some (flags, expire, tu))
  | o :: rest =>
      r ← in_store (obj o); a ← lift (as_sds r);
      if is_option a 110 120 && negb (OBJ_SET_XX flags) then
        set_options rest (SetFlags true (OBJ_SET_XX flags) (OBJ_SET_EX flags) (OBJ_SET_PX flags)) expire tu
      else if is_option a 120 120 && negb (OBJ_SET_NX flags) then
        set_options rest (SetFlags (OBJ_SET_NX flags) true (OBJ_SET_EX flags) (OBJ_SET_PX flags)) expire tu
      else match rest with
        | next :: rest' =>
            if is_option a 101 120 && negb (OBJ_SET_PX flags) then
              set_options rest' (SetFlags (OBJ_SET_NX flags) (OBJ_SET_XX flags) true (OBJ_SET_PX flags)) (Some next) UNIT_SECONDS
            else if is_option a 112 120 && negb (OBJ_SET_EX flags) then
              set_options rest' (SetFlags (OBJ_SET_NX flags) (OBJ_SET_XX flags) (OBJ_SET_EX flags) true) (Some next) UNIT_MILLISECONDS
            else mret None
        | [] => mret None
        end
  end.

(** [c->argv[i] = tryObjectEncoding(c->argv[i])]. *)
Definition encode_arg (argv : list oid) (i : nat) : M (list oid * oid) :=
  o ← arg argv i;
  s ← get;
  o' ← in_store (tryObjectEncoding (share (conf s)) o);
  mret (<[i := o']> argv, o').

Definition setCommand (c : Z) (argv : list oid) : M (list oid) :=
  opts ← set_options (drop 3 argv) OBJ_SET_NO_FLAGS None UNIT_SECONDS;
  match opts with
  | None => _ ← addReply c R_syntaxerr; mret argv
  | Some (flags, expire, tu) =>
      key ← arg_sds argv 1;
      '(argv, val) ← encode_arg argv 2;
      _ ← setGenericCommand c "set" flags key val expire tu None None;
      mret argv
  end.

Definition setnxCommand (c : Z) (argv : list oid) : M (list oid) :=
  key ← arg_sds argv 1;
  '(argv, val) ← encode_arg argv 2;
  _ ← setGenericCommand c "setnx" (SetFlags true false false false) key val None UNIT_SECONDS (Some (RInt 1)) (Some (RInt 0));
  mret argv.

Definition setexCommand (c : Z) (argv : list oid) : M (list oid) :=
  key ← arg_sds argv 1;
  '(argv, val) ← encode_arg argv 3;
  e ← arg argv 2;
  _ ← setGenericCommand c "setex" OBJ_SET_NO_FLAGS key val (Some e) UNIT_SECONDS None None;
  mret argv.

Definition psetexCommand (c : Z) (argv : list oid) : M (list oid) :=
  key ← arg_sds argv 1;
  '(argv, val) ← encode_arg argv 3;
  e ← arg argv 2;
  _ ← setGenericCommand c "psetex" OBJ_SET_NO_FLAGS key val (Some e) UNIT_MILLISECONDS None None;
  mret argv.

(** [false] is [C_ERR]. *)
Definition getGenericCommand (c : Z) (argv : list oid) : M bool :=
  key ← arg_sds argv 1;
  o ← lookupKeyReadOrReply c key R_nullbulk;
  match o with
  | None => mret true
  | Some o =>
      r ← in_store (obj o);
      if negb (bool_decide (type r = OBJ_STRING)) then _ ← addReply c R_wrongtypeerr; mret false
      else _ ← addReplyBulk c o; mret true
  end.

Definition getCommand (c : Z) (argv : list oid) : M (list oid) := _ ← getGenericCommand c argv; mret argv.

Definition getsetCommand (c : Z) (argv : list oid) : M (list oid) :=
  ok ← getGenericCommand c argv;
  if negb ok then mret argv
  else
    db ← client_db c;
    key ← arg_sds argv 1;
    '(argv, val) ← encode_arg argv 2;
    _ ← setKey db key val;
    _ ← notifyKeyspaceEvent NOTIFY_STRING "set" key db;
    _ ← incr_dirty 1;
    mret argv.

(** [offset+sdslen(value)]: a [long] and a [size_t] give a [size_t]. *)
Definition size_sum (offset len : Z) : Z := wrapu 64 (offset + len).

(** [memcpy(o->ptr+offset, value, len)] on the string of an object. *)
Definition write_at (o : oid) (offset : Z) (value : sds) : M Z :=
  r ← in_store (obj o); bs ← lift (as_sds r);
  bs ← sdsgrowzero bs (size_sum offset (zlen value));
  bs ← lift (wr bs offset value);
  _ ← in_store (set_obj o (with_ptr (PSds bs) r));
  mret (zlen bs).

(** The branches of SETRANGE that find the object to write, or [None] when a reply was
    sent. *)
Definition setrange_new (c db : Z) (key : sds) (offset : Z) (value : sds) : M (option oid) :=
  if zlen value =? 0 then _ ← addReply c (RInt 0); mret None
  else
    fits ← checkStringLength c (wraps 64 (size_sum offset (zlen value)));
    if negb fits then mret None
    else
      bs ← sdszero (size_sum offset (zlen value));
      o ← in_store (createObject OBJ_STRING (PSds bs));
      _ ← dbAdd db key o;
      mret (Some o).

Definition setrange_old (c db : Z) (key : sds) (offset : Z) (value : sds) (o : oid) : M (option oid) :=
  wrong ← checkType c o OBJ_STRING;
  if wrong : bool then mret None
  else
    olen ← in_store (stringObjectLen o);
    if zlen value =? 0 then _ ← addReplyLongLong c olen; mret None
    else
      fits ← checkStringLength c (wraps 64 (size_sum offset (zlen value)));
      if negb fits then mret None
      else o ← dbUnshareStringValue db key o; mret (Some o).

Definition setrangeCommand (c : Z) (argv : list oid) : M (list oid) :=
  db ← client_db c;
  key ← arg_sds argv 1;
  value ← arg_sds argv 3;
  o2 ← arg argv 2;
  offset ← getLongFromObjectOrReply c (Some o2) None;
  match offset with
  | None => mret argv
  | Some offset =>
      if offset <? 0 then _ ← addReplyError c "offset is out of range"; mret argv
      else
        o ← lookupKeyWrite db key;
        target ← (match o with
                  | None => setrange_new c db key offset value
                  | Some o => setrange_old c db key offset value o
                  end);
        match target with
        | None => mret argv
        | Some o =>
            len ← write_at o offset value;
            _ ← signalModifiedKey db key;
            _ ← notifyKeyspaceEvent NOTIFY_STRING "setrange" key db;
            _ ← incr_dirty 1;
            _ ← addReplyLongLong c len;
            mret argv
        end
  end.

Definition getrangeCommand (c : Z) (argv : list oid) : M (list oid) :=
  key ← arg_sds argv 1;
  o2 ← arg argv 2;
  start ← getLongLongFromObjectOrReply c (Some o2) None;
  match start with
  | None => mret argv
  | Some start =>
      o3 ← arg argv 3;
      end_ ← getLongLongFromObjectOrReply c (Some o3) None;
      match end_ with
      | None => mret argv
      | Some end_ =>
          o ← lookupKeyReadOrReply c key R_emptybulk;
          match o with
          | None => mret argv
          | Some o =>
              wrong ← checkType c o OBJ_STRING;
              if wrong : bool then mret argv
              else
                r ← in_store (obj o);
                str ← lift (string_bytes r);
                let strlen := zlen str in
                if (start <? 0) && (end_ <? 0) && (start >? end_) then _ ← addReply c R_emptybulk; mret argv
                else
                  let start := if start <? 0 then strlen + start else start in
                  let end_ := if end_ <? 0 then strlen + end_ else end_ in
                  let start := if start <? 0 then 0 else start in
                  let end_ := if end_ <? 0 then 0 else end_ in
                  let end_ := if wrapu 64 end_ >=? strlen then strlen - 1 else end_ in
                  if (start >? end_) || (strlen =? 0) then _ ← addReply c R_emptybulk; mret argv
                  else
                    bs ← lift (rd str start (end_ - start + 1));
                    _ ← addReply c (RBulk bs); mret argv
          end
      end
  end.

Fixpoint mget_loop (c db : Z) (keys : list oid) : M unit :=
  match keys with
  | [] => mret tt
  | ko :: keys =>
      r ← in_store (obj ko); key ← lift (as_sds r);
      o ← lookupKeyRead db key;
      _ ← (match o with
           | None => addReply c R_nullbulk
           | Some o =>
               r ← in_store (obj o);
               if negb (bool_decide (type r = OBJ_STRING)) then addReply c R_nullbulk else addReplyBulk c o
           end);
      mget_loop c db keys
  end.

Definition mgetCommand (c : Z) (argv : list oid) : M (list oid) :=
  db ← client_db c;
  _ ← addReplyMultiBulkLen c (zlen argv - 1);
  _ ← mget_loop c db (tail argv);
  mret argv.

(** Whether one of the keys (every second argument) exists. *)
Fixpoint msetnx_check (db : Z) (args : list oid) : M bool :=
  match args with
  | ko :: _ :: args =>
      r ← in_store (obj ko); key ← lift (as_sds r);
      o ← lookupKeyWrite db key;
      match o with Some _ => mret true | None => msetnx_check db args end
  | _ => mret false
  end.

(** The loop of MSET; the rest of the vector with its values encoded. *)
Fixpoint mset_loop (db : Z) (args : list oid) : M (list oid) :=
  match args with
  | ko :: vo :: args =>
      s ← get;
      vo ← in_store (tryObjectEncoding (share (conf s)) vo);
      r ← in_store (obj ko); key ← lift (as_sds r);
      _ ← setKey db key vo;
      _ ← notifyKeyspaceEvent NOTIFY_STRING "set" key db;
      args ← mset_loop db args;
      mret (ko :: vo :: args)
  | _ => mret args
  end.

Definition msetGenericCommand (c : Z) (argv : list oid) (nx : bool) : M (list oid) :=
  db ← client_db c;
  if Z.even (zlen argv) then _ ← addReplyError c "wrong number of arguments for MSET"; mret argv
  else
    busy ← (if nx then msetnx_check db (tail argv) else mret false);
    if busy : bool then _ ← addReply c (RInt 0); mret argv
    else
      args ← mset_loop db (tail argv);
      _ ← incr_dirty ((zlen argv - 1) / 2);
      _ ← addReply c (if nx then RInt 1 else R_ok);
      mret (match argv with [] => [] | name :: _ => name :: args end).

Definition msetCommand (c : Z) (argv : list oid) : M (list oid) := msetGenericCommand c argv false.
Definition msetnxCommand (c : Z) (argv : list oid) : M (list oid) := msetGenericCommand c argv true.

(** Stores the new value: in place when the object is an unshared integer that stays out of
    the range of the shared ones, in a new object otherwise. *)
Definition incr_store (db : Z) (key : sds) (o : option oid) (value : Z) : M oid :=
  s ← get;
  match o with
  | Some o =>
      r ← in_store (obj o);
      if (refcount r =? 1) && bool_decide (encoding r = OBJ_ENCODING_INT) &&
         ((value <? 0) || (value >=? OBJ_SHARED_INTEGERS)) &&
         (value >=? LONG_MIN) && (value <=? LONG_MAX) then
        _ ← in_store (set_obj o (with_ptr (PLong value) r)); mret o
      else
        new ← in_store (createStringObjectFromLongLongForValue (share (conf s)) value);
        _ ← dbOverwrite db key new;
        mret new
  | None =>
      new ← in_store (createStringObjectFromLongLongForValue (share (conf s)) value);
      _ ← dbAdd db key new;
      mret new
  end.

Definition incrDecrCommand (c : Z) (argv : list oid) (incr : Z) : M (list oid) :=
  db ← client_db c;
  key ← arg_sds argv 1;
  o ← lookupKeyWrite db key;
  wrong ← (match o with Some o => checkType c o OBJ_STRING | None => mret false end);
  if wrong : bool then mret argv
  else
    v ← getLongLongFromObjectOrReply c o None;
    match v with
    | None => mret argv
    | Some oldvalue =>
        if ((incr <? 0) && (oldvalue <? 0) && (incr <? LLONG_MIN - oldvalue)) ||
           ((incr >? 0) && (oldvalue >? 0) && (incr >? LLONG_MAX - oldvalue)) then
          _ ← addReplyError c "increment or decrement would overflow"; mret argv
        else
          value ← ll_arith (oldvalue + incr);
          new ← incr_store db key o value;
          _ ← signalModifiedKey db key;
          _ ← notifyKeyspaceEvent NOTIFY_STRING "incrby" key db;
          _ ← incr_dirty 1;
          r ← in_store (obj new);
          n ← lift (as_long r);
          _ ← addReply c (RInt n);
          mret argv
    end.

Definition incrCommand (c : Z) (argv : list oid) : M (list oid) := incrDecrCommand c argv 1.
Definition decrCommand (c : Z) (argv : list oid) : M (list oid) := incrDecrCommand c argv (-1).

Definition incrbyCommand (c : Z) (argv : list oid) : M (list oid) :=
  o ← arg argv 2;
  incr ← getLongLongFromObjectOrReply c (Some o) None;
  match incr with None => mret argv | Some incr => incrDecrCommand c argv incr end.

Definition decrbyCommand (c : Z) (argv : list oid) : M (list oid) :=
  o ← arg argv 2;
  incr ← getLongLongFromObjectOrReply c (Some o) None;
  match incr with None => mret argv | Some incr => n ← ll_arith (- incr); incrDecrCommand c argv n end.

(** The branches of APPEND: the key is created, or its string is extended. The result
    is the vector and the length, or [None] when an error was sent. *)
Definition append_new (argv : list oid) (db : Z) (key : sds) : M (option (list oid * Z)) :=
  '(argv, val) ← encode_arg argv 2;
  _ ← dbAdd db key val;
  _ ← in_store (incrRefCount val);
  totlen ← in_store (stringObjectLen val);
  mret (Some (argv, totlen)).

Definition append_old (c : Z) (argv : list oid) (db : Z) (key : sds) (o : oid) : M (option (list oid * Z)) :=
  wrong ← checkType c o OBJ_STRING;
  if wrong : bool then mret None
  else
    append ← arg_sds argv 2;
    olen ← in_store (stringObjectLen o);
    fits ← checkStringLength c (wraps 64 (size_sum olen (zlen append)));
    if negb fits then mret None
    else
      o ← dbUnshareStringValue db key o;
      r ← in_store (obj o); bs ← lift (as_sds r);
      let bs := (bs ++ append)%list in
      _ ← in_store (set_obj o (with_ptr (PSds bs) r));
      mret (Some (argv, zlen bs)).

Definition appendCommand (c : Z) (argv : list oid) : M (list oid) :=
  db ← client_db c;
  key ← arg_sds argv 1;
  o ← lookupKeyWrite db key;
  out ← (match o with
         | None => append_new argv db key
         | Some o => append_old c argv db key o
         end);
  match out with
  | None => mret argv
  | Some (argv, totlen) =>
      _ ← signalModifiedKey db key;
      _ ← notifyKeyspaceEvent NOTIFY_STRING "append" key db;
      _ ← incr_dirty 1;
      _ ← addReplyLongLong c totlen;
      mret argv
  end.

Definition strlenCommand (c : Z) (argv : list oid) : M (list oid) :=
  key ← arg_sds argv 1;
  o ← lookupKeyReadOrReply c key (RInt 0);
  match o with
  | None => mret argv
  | Some o =>
      wrong ← checkType c o OBJ_STRING;
      if wrong : bool then mret argv
      else len ← in_store (stringObjectLen o); _ ← addReplyLongLong c len; mret argv
  end.
