(* ===== verification/BitCmd.v ===== *)
(** * Bit commands (the commands of bitops.c)

    SETBIT, GETBIT, BITOP, BITCOUNT, BITPOS and BITFIELD, on the functions of Bitops.v.
    The functions that read words of memory take the address of the first byte, because
    they treat bytes before the first aligned address in another way: [address o] is the
    address of the bytes of the string [o], or of the local buffer when the string is
    stored as an integer. These commands are not in the command table of Multi.v. *)

From S2P Require Import Prelude Endian Util Sds Glob Bitops State Object Server Db TString.

(** ** C strings *)

(** The bytes of a string literal. *)
Definition codes (s : string) : sds := (fun a => Z.of_N (Ascii.N_of_ascii a)) <$> String.list_ascii_of_string s.

(** The characters of an sds up to its first zero byte, which is what the functions on C
    strings see. *)
Fixpoint c_string (bs : sds) : sds :=
  match bs with
  | [] => []
  | b :: bs => if b =? 0 then [] else b :: c_string bs
  end.

(** [p[0]], the terminator when the string is empty. *)
Definition first_char (bs : sds) : Z := default 0 (head bs).

(** [!strcasecmp(a, name)] for a [name] in lower case. *)
Definition strcaseeq (a : sds) (name : string) : bool := bool_decide (tolower <$> c_string a = codes name).

(** ** Arguments *)

Definition BIT_OFFSET_ERR : string := "bit offset is not an integer or out of range".

(** [None] is [C_ERR]. *)
Definition getBitOffsetFromArgument (c : Z) (o : oid) (hash : bool) (bits : Z) : M (option Z) :=
  r ← in_store (obj o); p ← lift (as_sds r);
  let usehash := (first_char p =? 35) && hash && (bits >? 0) in
  match string2ll (if usehash then tail p else p) with
  | None => _ ← addReplyError c BIT_OFFSET_ERR; mret None
  | Some loffset =>
      loffset ← (if usehash then ll_arith (loffset * bits) else mret loffset);
      if (loffset <? 0) || (Z.shiftr loffset 3 >=? 512 * 1024 * 1024) then
        _ ← addReplyError c BIT_OFFSET_ERR; mret None
      else mret (Some loffset)
  end.

Definition BITFIELD_TYPE_ERR : string :=
  "Invalid bitfield type. Use something like i16 u8. Note that u64 is not supported but i64 is.".

(** The sign and the number of bits; [None] is [C_ERR]. *)
Definition getBitfieldTypeFromArgument (c : Z) (o : oid) : M (option (bool * Z)) :=
  r ← in_store (obj o); p ← lift (as_sds r);
  let err := _ ← addReplyError c BITFIELD_TYPE_ERR; mret None in
  if negb ((first_char p =? 105) || (first_char p =? 117)) then err
  else
    let sign := first_char p =? 105 in
    match string2ll (c_string (tail p)) with
    | None => err
    | Some llbits =>
        if (llbits <? 1) || (sign && (llbits >? 64)) || (negb sign && (llbits >? 63)) then err
        else mret (Some (sign, llbits))
    end.

(** The string of the key is created or padded so that it has a bit [maxbit]; [None] is
    [NULL], after an error was sent. [db] and [key] are [c->db] and [c->argv[1]]. *)
Definition lookupStringForBitCommand (c db : Z) (key : sds) (maxbit : Z) : M (option oid) :=
  let byte := Z.shiftr maxbit 3 in
  o ← lookupKeyWrite db key;
  match o with
  | None =>
      bs ← sdszero (byte + 1);
      o ← in_store (createObject OBJ_STRING (PSds bs));
      _ ← dbAdd db key o;
      mret (Some o)
  | Some o =>
      wrong ← checkType c o OBJ_STRING;
      if wrong : bool then mret None
      else
        o ← dbUnshareStringValue db key o;
        r ← in_store (obj o); bs ← lift (as_sds r);
        bs ← sdsgrowzero bs (byte + 1);
        _ ← in_store (set_obj o (with_ptr (PSds bs) r));
        mret (Some o)
  end.

(** The bytes of the string; their number is stored in [*len]. *)
Definition getObjectReadOnlyString (o : oid) : M sds :=
  r ← in_store (obj o);
  _ ← assert_that (bool_decide (type r = OBJ_STRING));
  lift (if bool_decide (encoding r = OBJ_ENCODING_INT) then v ← as_long r; ll_bytes v else as_sds r).

(** ** SETBIT and GETBIT *)

Definition BIT_ERR : string := "bit is not an integer or out of range".

(** Reads the byte that has bit [bitoffset] and replaces the bit; the result is the old bit. *)
Definition replace_bit (o : oid) (bitoffset on : Z) : M Z :=
  let byte := Z.shiftr bitoffset 3 in
  r ← in_store (obj o); p ← lift (as_sds r);
  byteval ← lift (zidx p byte);
  let bit := 7 - Z.land bitoffset 0x7 in
  let bitval := Z.land byteval (Z.shiftl 1 bit) in
  let byteval := Z.land byteval (Z.lnot (Z.shiftl 1 bit)) in
  let byteval := Z.lor byteval (Z.shiftl (Z.land on 0x1) bit) in
  p ← lift (wr p byte [wrapu 8 byteval]);
  _ ← in_store (set_obj o (with_ptr (PSds p) r));
  mret bitval.

Definition setbitCommand (c : Z) (argv : list oid) : M (list oid) :=
  db ← client_db c;
  key ← arg_sds argv 1;
  o2 ← arg argv 2;
  bitoffset ← getBitOffsetFromArgument c o2 false 0;
  match bitoffset with
  | None => mret argv
  | Some bitoffset =>
      o3 ← arg argv 3;
      on ← getLongFromObjectOrReply c (Some o3) (Some BIT_ERR);
      match on with
      | None => mret argv
      | Some on =>
          if negb (Z.land on (Z.lnot 1) =? 0) then _ ← addReplyError c BIT_ERR; mret argv
          else
            o ← lookupStringForBitCommand c db key bitoffset;
            match o with
            | None => mret argv
            | Some o =>
                bitval ← replace_bit o bitoffset on;
                _ ← signalModifiedKey db key;
                _ ← notifyKeyspaceEvent NOTIFY_STRING "setbit" key db;
                _ ← incr_dirty 1;
                _ ← addReply c (RInt (if negb (bitval =? 0) then 1 else 0));
                mret argv
            end
      end
  end.

Definition getbitCommand (c : Z) (argv : list oid) : M (list oid) :=
  o2 ← arg argv 2;
  bitoffset ← getBitOffsetFromArgument c o2 false 0;
  match bitoffset with
  | None => mret argv
  | Some bitoffset =>
      key ← arg_sds argv 1;
      o ← lookupKeyReadOrReply c key (RInt 0);
      match o with
      | None => mret argv
      | Some o =>
          wrong ← checkType c o OBJ_STRING;
          if wrong : bool then mret argv
          else
            let byte := Z.shiftr bitoffset 3 in
            let bit := 7 - Z.land bitoffset 0x7 in
            r ← in_store (obj o);
            str ← lift (string_bytes r);
            bitval ← (if byte <? zlen str then
                        b ← lift (zidx str byte); mret (Z.land b (Z.shiftl 1 bit))
                      else mret 0);
            _ ← addReply c (RInt (if negb (bitval =? 0) then 1 else 0));
            mret argv
      end
  end.

(** ** BITOP *)

Inductive bitop : Type := BITOP_AND | BITOP_OR | BITOP_XOR | BITOP_NOT.

#[global] Instance bitop_eq_dec : EqDecision bitop.
Proof. solve_decision. Defined.

Definition parse_bitop (opname : sds) : option bitop :=
  if ((first_char opname =? 97) || (first_char opname =? 65)) && strcaseeq opname "and" then Some BITOP_AND
  else if ((first_char opname =? 111) || (first_char opname =? 79)) && strcaseeq opname "or" then Some BITOP_OR
  else if ((first_char opname =? 120) || (first_char opname =? 88)) && strcaseeq opname "xor" then Some BITOP_XOR
  else if ((first_char opname =? 110) || (first_char opname =? 78)) && strcaseeq opname "not" then Some BITOP_NOT
  else None.

(** A source key: its object ([NULL] when the key does not exist) and [src[j]]. The string does
    not change while the command holds a reference to the object; [len[j]] is its length. *)
Record bitop_src : Type := BitopSrc { src_obj : option oid; src_bytes : sds }.

Definition release_srcs (l : list bitop_src) : M unit :=
  in_store (for_each (fun x => match src_obj x with Some o => decrRefCount o | None => mret tt end) l).

(** The loop over the keys from [j] on; [acc] are the sources before. [None] is the early return on a
    key of another type. *)
Fixpoint bitop_load (c db : Z) (keys : list oid) (acc : list bitop_src) (minlen maxlen : Z) :
    M (option (list bitop_src * Z * Z)) :=
  match keys with
  | [] => mret (Some (acc, minlen, maxlen))
  | ko :: keys =>
      r ← in_store (obj ko); key ← lift (as_sds r);
      o ← lookupKeyRead db key;
      match o with
      | None => bitop_load c db keys (acc ++ [BitopSrc None []]) 0 maxlen
      | Some o =>
          wrong ← checkType c o OBJ_STRING;
          if wrong : bool then _ ← release_srcs acc; mret None
          else
            d ← in_store (getDecodedObject o);
            r ← in_store (obj d); bs ← lift (as_sds r);
            let len := zlen bs in
            let maxlen := if len >? maxlen then len else maxlen in
            let minlen := if (zlen acc =? 0) || (len <? minlen) then len else minlen in
            bitop_load c db keys (acc ++ [BitopSrc (Some d) bs]) minlen maxlen
      end
  end.

(** [output op= byte] of the byte loop and [lres[k] op= lp[i][k]] of the word loops. *)
Definition bitop_fun (op : bitop) (a b : Z) : Z :=
  match op with
  | BITOP_AND => Z.land a b
  | BITOP_OR => Z.lor a b
  | BITOP_XOR => Z.lxor a b
  | BITOP_NOT => a
  end.

(** The loop over the bytes from [j] on, [n] of them. *)
Fixpoint bitop_bytes (n : nat) (op : bitop) (srcs : list sds) (res : sds) (j : Z) : option sds :=
  match n with
  | O => Some res
  | S n =>
      src0 ← head srcs;
      output ← (if zlen src0 <=? j then Some 0 else zidx src0 j);
      let output := if bool_decide (op = BITOP_NOT) then wrapu 8 (Z.lnot output) else output in
      output ← foldl (fun acc s =>
                 output ← acc;
                 byte ← (if zlen s <=? j then Some 0 else zidx s j);
                 Some (bitop_fun op output byte)) (Some output) (tail srcs);
      res ← wr res j [output];
      bitop_bytes n op srcs res (j + 1)
  end.

Section words.
Context `{Host}.

(** One word of the fast path: [lres] and [lp[i]] have advanced together, so both are at the
    byte [off]. *)
Definition bitop_word (op : bitop) (res s : sds) (off : Z) : option sds :=
  a ← load64 res off; b ← load64 s off; wr res off (host_bytes 8 (bitop_fun op a b)).

Definition bitop_block (op : bitop) (res s : sds) (j : Z) : option sds :=
  res ← bitop_word op res s j;
  res ← bitop_word op res s (j + 8);
  res ← bitop_word op res s (j + 16);
  bitop_word op res s (j + 24).

Definition not_word (res : sds) (off : Z) : option sds :=
  a ← load64 res off; wr res off (host_bytes 8 (wrapu 64 (Z.lnot a))).

Definition not_block (res : sds) (j : Z) : option sds :=
  res ← not_word res j;
  res ← not_word res (j + 8);
  res ← not_word res (j + 16);
  not_word res (j + 24).

(** [while(minlen >= sizeof(unsigned long)*4)] of the branch of [op]; the result is the buffer
    and [j]. *)
Fixpoint bitop_words (fuel : nat) (op : bitop) (others : list sds) (res : sds) (j minlen : Z) : option (sds * Z) :=
  match fuel with
  | O => None
  | S fuel =>
      if minlen <? 32 then Some (res, j)
      else
        res ← (if bool_decide (op = BITOP_NOT) then not_block res j
               else foldl (fun acc s => res ← acc; bitop_block op res s j) (Some res) others);
        bitop_words fuel op others res (j + 32) (minlen - 32)
  end.

(** The computation of the result, with the fast path when every source has 32 bytes. *)
Definition bitop_compute (op : bitop) (srcs : list sds) (minlen maxlen : Z) : option sds :=
  let res := replicate (Z.to_nat maxlen) 0 in
  '(res, j) ← (if (minlen >=? 32) && (zlen srcs <=? 16) then
                 src0 ← head srcs;
                 bs ← rd src0 0 minlen;
                 res ← wr res 0 bs;
                 bitop_words (S (Z.to_nat minlen)) op (tail srcs) res 0 minlen
               else Some (res, 0));
  bitop_bytes (Z.to_nat (maxlen - j)) op srcs res j.

Definition bitopCommand (c : Z) (argv : list oid) : M (list oid) :=
  opname ← arg_sds argv 1;
  match parse_bitop opname with
  | None => _ ← addReply c R_syntaxerr; mret argv
  | Some op =>
      if bool_decide (op = BITOP_NOT) && negb (zlen argv =? 4) then
        _ ← addReplyError c "BITOP NOT must be called with a single source key."; mret argv
      else
        db ← client_db c;
        loaded ← bitop_load c db (drop 3 argv) [] 0 0;
        match loaded with
        | None => mret argv
        | Some (srcs, minlen, maxlen) =>
            res ← (if negb (maxlen =? 0) then lift (bitop_compute op (src_bytes <$> srcs) minlen maxlen) else mret []);
            _ ← release_srcs srcs;
            targetkey ← arg_sds argv 2;
            _ ← (if negb (maxlen =? 0) then
                   o ← in_store (createObject OBJ_STRING (PSds res));
                   _ ← setKey db targetkey o;
                   _ ← notifyKeyspaceEvent NOTIFY_STRING "set" targetkey db;
                   in_store (decrRefCount o)
                 else
                   deleted ← dbDelete db targetkey;
                   if deleted : bool then
                     _ ← signalModifiedKey db targetkey;
                     notifyKeyspaceEvent NOTIFY_GENERIC "del" targetkey db
                   else mret tt);
            _ ← incr_dirty 1;
            _ ← addReplyLongLong c maxlen;
            mret argv
        end
  end.
End words.

(** ** BITCOUNT and BITPOS *)

Section addresses.
Context `{Host} (address : oid -> Z).

(** The conversion of negative indexes. *)
Definition range_start (strlen start : Z) : Z :=
  let start := if start <? 0 then strlen + start else start in
  if start <? 0 then 0 else start.
Definition range_end (strlen end_ : Z) : Z :=
  let end_ := if end_ <? 0 then strlen + end_ else end_ in
  let end_ := if end_ <? 0 then 0 else end_ in
  if end_ >=? strlen then strlen - 1 else end_.

Definition count_range (c : Z) (o : oid) (p : sds) (start end_ : Z) : M unit :=
  if start >? end_ then addReply c (RInt 0)
  else
    let bytes := end_ - start + 1 in
    n ← lift (redisPopcount (address o + start) (drop (Z.to_nat start) p) bytes);
    addReplyLongLong c (wraps 64 n).

Definition bitcountCommand (c : Z) (argv : list oid) : M (list oid) :=
  key ← arg_sds argv 1;
  o ← lookupKeyReadOrReply c key (RInt 0);
  match o with
  | None => mret argv
  | Some o =>
      wrong ← checkType c o OBJ_STRING;
      if wrong : bool then mret argv
      else
        p ← getObjectReadOnlyString o;
        let strlen := zlen p in
        if zlen argv =? 4 then
          o2 ← arg argv 2;
          start ← getLongFromObjectOrReply c (Some o2) None;
          match start with
          | None => mret argv
          | Some start =>
              o3 ← arg argv 3;
              end_ ← getLongFromObjectOrReply c (Some o3) None;
              match end_ with
              | None => mret argv
              | Some end_ =>
                  if (start <? 0) && (end_ <? 0) && (start >? end_) then _ ← addReply c (RInt 0); mret argv
                  else _ ← count_range c o p (range_start strlen start) (range_end strlen end_); mret argv
              end
          end
        else if zlen argv =? 2 then _ ← count_range c o p 0 (strlen - 1); mret argv
        else _ ← addReply c R_syntaxerr; mret argv
  end.

Definition pos_range (c : Z) (o : oid) (p : sds) (start end_ bit : Z) (end_given : bool) : M unit :=
  if start >? end_ then addReplyLongLong c (-1)
  else
    let bytes := end_ - start + 1 in
    pos ← lift (redisBitpos (address o + start) (drop (Z.to_nat start) p) bytes bit);
    if end_given && (bit =? 0) && (pos =? bytes * 8) then addReplyLongLong c (-1)
    else addReplyLongLong c (if negb (pos =? -1) then pos + start * 8 else pos).

Definition bitposCommand (c : Z) (argv : list oid) : M (list oid) :=
  o2 ← arg argv 2;
  bit ← getLongFromObjectOrReply c (Some o2) None;
  match bit with
  | None => mret argv
  | Some bit =>
      if negb (bit =? 0) && negb (bit =? 1) then _ ← addReplyError c "The bit argument must be 1 or 0."; mret argv
      else
        db ← client_db c;
        key ← arg_sds argv 1;
        o ← lookupKeyRead db key;
        match o with
        | None => _ ← addReplyLongLong c (if negb (bit =? 0) then -1 else 0); mret argv
        | Some o =>
            wrong ← checkType c o OBJ_STRING;
            if wrong : bool then mret argv
            else
              p ← getObjectReadOnlyString o;
              let strlen := zlen p in
              if (zlen argv =? 4) || (zlen argv =? 5) then
                o3 ← arg argv 3;
                start ← getLongFromObjectOrReply c (Some o3) None;
                match start with
                | None => mret argv
                | Some start =>
                    end_ ← (if zlen argv =? 5 then o4 ← arg argv 4; getLongFromObjectOrReply c (Some o4) None
                            else mret (Some (strlen - 1)));
                    match end_ with
                    | None => mret argv
                    | Some end_ =>
                        _ ← pos_range c o p (range_start strlen start) (range_end strlen end_) bit (zlen argv =? 5);
                        mret argv
                    end
                end
              else if zlen argv =? 3 then _ ← pos_range c o p 0 (strlen - 1) bit false; mret argv
              else _ ← addReply c R_syntaxerr; mret argv
        end
  end.
End addresses.

(** ** BITFIELD *)

Inductive bitfield_opcode : Type := BITFIELDOP_GET | BITFIELDOP_SET | BITFIELDOP_INCRBY.

#[global] Instance bitfield_opcode_eq_dec : EqDecision bitfield_opcode.
Proof. solve_decision. Defined.

Record bitfieldOp : Type := BitfieldOp {
  bf_offset : Z;
  bf_i64 : Z;
  bf_opcode : bitfield_opcode;
  bf_owtype : bfoverflow;
  bf_bits : Z;
  bf_sign : bool
}.

(** The state of the parsing loop: [ops], [owtype], [readonly] and [highest_write_offset]. *)
Record bitfield_args : Type := BitfieldArgs {
  ba_ops : list bitfieldOp;
  ba_owtype : bfoverflow;
  ba_readonly : bool;
  ba_highest : Z
}.

Definition parse_owtype (name : sds) : option bfoverflow :=
  if strcaseeq name "wrap" then Some BFOVERFLOW_WRAP
  else if strcaseeq name "sat" then Some BFOVERFLOW_SAT
  else if strcaseeq name "fail" then Some BFOVERFLOW_FAIL
  else None.

(** The part of the loop that is common to GET, SET and INCRBY: the type and the offset, and for the
    last two ([value] is [c->argv[j+3]]) the value; [None] after an error was sent. *)
Definition bitfield_op (c : Z) (a : bitfield_args) (opcode : bitfield_opcode) (type_ offset : oid) (value : option oid) :
    M (option bitfield_args) :=
  t ← getBitfieldTypeFromArgument c type_;
  match t with
  | None => mret None
  | Some (sign, bits) =>
      bitoffset ← getBitOffsetFromArgument c offset true bits;
      match bitoffset with
      | None => mret None
      | Some bitoffset =>
          let op i64 := BitfieldOp bitoffset i64 opcode (ba_owtype a) bits sign in
          match value with
          | None => mret (Some (BitfieldArgs (ba_ops a ++ [op 0]) (ba_owtype a) (ba_readonly a) (ba_highest a)))
          | Some value =>
              let last := wrapu 64 (bitoffset + bits - 1) in
              let highest := if ba_highest a <? last then last else ba_highest a in
              i64 ← getLongLongFromObjectOrReply c (Some value) None;
              match i64 with
              | None => mret None
              | Some i64 => mret (Some (BitfieldArgs (ba_ops a ++ [op i64]) (ba_owtype a) false highest))
              end
          end
      end
  end.

(** The parsing loop over the arguments from [j] on; [None] after an error was sent. *)
Fixpoint bitfield_parse (c : Z) (args : list oid) (a : bitfield_args) : M (option bitfield_args) :=
  match args with
  | [] => mret (Some a)
  | sub :: rest =>
      r ← in_store (obj sub); subcmd ← lift (as_sds r);
      let syntaxerr := _ ← addReply c R_syntaxerr; mret None in
      if strcaseeq subcmd "get" then
        match rest with
        | t :: off :: rest =>
            a ← bitfield_op c a BITFIELDOP_GET t off None;
            match a with Some a => bitfield_parse c rest a | None => mret None end
        | _ => syntaxerr
        end
      else if strcaseeq subcmd "set" || strcaseeq subcmd "incrby" then
        match rest with
        | t :: off :: v :: rest =>
            a ← bitfield_op c a (if strcaseeq subcmd "set" then BITFIELDOP_SET else BITFIELDOP_INCRBY) t off (Some v);
            match a with Some a => bitfield_parse c rest a | None => mret None end
        | _ => syntaxerr
        end
      else if strcaseeq subcmd "overflow" then
        match rest with
        | ow :: rest =>
            r ← in_store (obj ow); owtypename ← lift (as_sds r);
            match parse_owtype owtypename with
            | Some owtype => bitfield_parse c rest (BitfieldArgs (ba_ops a) owtype (ba_readonly a) (ba_highest a))
            | None => _ ← addReplyError c "Invalid OVERFLOW type specified"; mret None
            end
        | [] => syntaxerr
        end
      else syntaxerr
  end.

(** The value after the check, given the result of the check and the value computed before:
    with an overflow it is the variable [wrapped]; when that was not set ([FAIL]), it is
    not used. *)
Definition after_check (r : Z * option Z) (newval : Z) : Z :=
  match r with
  | (overflow, Some wrapped) => if overflow =? 0 then newval else wrapped
  | (_, None) => newval
  end.

(** SET and INCRBY on the bytes of a string: the new bytes and the reply. The sum
    [oldval + i64] of the signed branch is computed before the check, and may overflow. *)
Definition bitfield_write (op : bitfieldOp) (p : sds) : option (sds * reply) :=
  let '(BitfieldOp offset i64 opcode owtype bits sign) := op in
  if sign : bool then
    oldval ← getSignedBitfield p offset bits;
    '(r, newval, retval) ←
      (if bool_decide (opcode = BITFIELDOP_INCRBY) then
         newval ← int64_arith (oldval + i64);
         r ← checkSignedBitfieldOverflow oldval i64 bits owtype;
         let newval := after_check r newval in
         Some (r, newval, newval)
       else
         r ← checkSignedBitfieldOverflow i64 0 bits owtype;
         Some (r, after_check r i64, oldval));
    if negb (negb (r.1 =? 0) && bool_decide (owtype = BFOVERFLOW_FAIL)) then
      p ← setSignedBitfield p offset bits newval; Some (p, RInt retval)
    else Some (p, R_nullbulk)
  else
    oldval ← getUnsignedBitfield p offset bits;
    '(r, newval, retval) ←
      (if bool_decide (opcode = BITFIELDOP_INCRBY) then
         r ← checkUnsignedBitfieldOverflow oldval i64 bits owtype;
         let newval := after_check r (wrapu 64 (oldval + i64)) in
         Some (r, newval, newval)
       else
         let newval := wrapu 64 i64 in
         r ← checkUnsignedBitfieldOverflow newval 0 bits owtype;
         Some (r, after_check r newval, oldval));
    if negb (negb (r.1 =? 0) && bool_decide (owtype = BFOVERFLOW_FAIL)) then
      p ← setUnsignedBitfield p offset bits newval; Some (p, RInt (wraps 64 retval))
    else Some (p, R_nullbulk).

(** The nine bytes of the local buffer from [byte] on, zero where the string has ended. *)
Definition bitfield_buf (src : sds) (byte : Z) : sds :=
  take 9 (drop (Z.to_nat byte) src ++ replicate 9 0).

(** GET. *)
Definition bitfield_read (op : bitfieldOp) (src : sds) : option reply :=
  let byte := Z.shiftr (bf_offset op) 3 in
  let buf := bitfield_buf src byte in
  let offset := bf_offset op - byte * 8 in
  if bf_sign op then RInt <$> getSignedBitfield buf offset (bf_bits op)
  else v ← getUnsignedBitfield buf offset (bf_bits op); Some (RInt (wraps 64 v)).

(** The loop that executes the operations; the result is [changes]. *)
Fixpoint bitfield_exec (c : Z) (o : option oid) (ops : list bitfieldOp) (changes : Z) : M Z :=
  match ops with
  | [] => mret changes
  | op :: ops =>
      if bool_decide (bf_opcode op = BITFIELDOP_GET) then
        src ← (match o with Some o => getObjectReadOnlyString o | None => mret [] end);
        rep ← lift (bitfield_read op src);
        _ ← addReply c rep;
        bitfield_exec c o ops changes
      else
        o' ← lift o;
        r ← in_store (obj o'); p ← lift (as_sds r);
        '(p, rep) ← lift (bitfield_write op p);
        _ ← addReply c rep;
        _ ← in_store (set_obj o' (with_ptr (PSds p) r));
        bitfield_exec c o ops (changes + 1)
  end.

Definition bitfieldCommand (c : Z) (argv : list oid) : M (list oid) :=
  parsed ← bitfield_parse c (drop 2 argv) (BitfieldArgs [] BFOVERFLOW_WRAP true 0);
  match parsed with
  | None => mret argv
  | Some a =>
      db ← client_db c;
      key ← arg_sds argv 1;
      target ← (if ba_readonly a then
                  o ← lookupKeyRead db key;
                  match o with
                  | None => mret (Some None)
                  | Some o => wrong ← checkType c o OBJ_STRING; mret (if wrong : bool then None else Some (Some o))
                  end
                else
                  o ← lookupStringForBitCommand c db key (ba_highest a);
                  mret (Some <$> o));
      match target with
      | None => mret argv
      | Some o =>
          _ ← addReplyMultiBulkLen c (zlen (ba_ops a));
          changes ← bitfield_exec c o (ba_ops a) 0;
          _ ← (if negb (changes =? 0) then
                 _ ← signalModifiedKey db key;
                 _ ← notifyKeyspaceEvent NOTIFY_STRING "setbit" key db;
                 incr_dirty changes
               else mret tt);
          mret argv
      end
  end.
