(* ===== verification/TSet.v ===== *)
(** * Sets (t_set.c)

    A set is an object whose data is an integer set or a dictionary without values. The
    functions of the set type are functions on the object; the commands read the object from the
    heap and write it back. [None] is a failing assertion or panic. *)

From S2P Require Import Prelude Endian Util Intset Sds SdsNum Dict DictIter Data State Object Server Db.

(** ** The set type *)

Section settype.
Variable E : env.
#[local] Hint Extern 0 Host => exact (env_host E) : typeclass_instances.
#[local] Hint Extern 0 (dictType sds unit) => exact (setDictType E) : typeclass_instances.

Definition createSetObject : robj := Robj OBJ_SET OBJ_ENCODING_HT (PData (DSet dictCreate)) 1.
Definition createIntsetObject : robj := Robj OBJ_SET OBJ_ENCODING_INTSET (PData (DIntset intsetNew)) 1.

(** [C_OK] with the number, or [None] for [C_ERR]. *)
Definition isSdsRepresentableAsLongLong (s : sds) : option Z := string2ll s.

Definition setTypeCreate (value : sds) : robj :=
  match isSdsRepresentableAsLongLong value with
  | Some _ => createIntsetObject
  | None => createSetObject
  end.

(** Reads of [o->ptr] as a dictionary and as an integer set. *)
Definition as_set (r : robj) : option (Dict.dict sds unit) := match ptr r with PData (DSet d) => Some d | _ => None end.
Definition as_intset (r : robj) : option intset := match ptr r with PData (DIntset is_) => Some is_ | _ => None end.

Definition with_set (d : Dict.dict sds unit) (r : robj) : robj := with_ptr (PData (DSet d)) r.
Definition with_intset (is_ : intset) (r : robj) : robj := with_ptr (PData (DIntset is_)) r.

(** ** Iterators *)

Record setTypeIterator := SetTypeIterator { si_encoding : oencoding; si_ii : Z; si_di : dictIterator sds }.

Definition setTypeInitIterator (r : robj) : option setTypeIterator :=
  match encoding r with
  | OBJ_ENCODING_HT => Some (SetTypeIterator OBJ_ENCODING_HT 0 dictGetIterator)
  | OBJ_ENCODING_INTSET => Some (SetTypeIterator OBJ_ENCODING_INTSET 0 dictGetIterator)
  | _ => None
  end.

(** What [setTypeNext] stores through its arguments. *)
Inductive set_element := EleSds (s : sds) | EleInt (v : Z).

(** [None] inside is the return value -1. *)
Definition setTypeNext (r : robj) (si : setTypeIterator) : option (robj * setTypeIterator * option set_element) :=
  match si_encoding si with
  | OBJ_ENCODING_HT =>
      d ← as_set r;
      '(d, di, de) ← dictNext (fun _ => table_addr E) d (si_di si);
      Some (with_set d r, SetTypeIterator (si_encoding si) (si_ii si) di, match de with Some e => Some (EleSds (fst e)) | None => None end)
  | OBJ_ENCODING_INTSET =>
      is_ ← as_intset r;
      v ← intsetGet is_ (wrapu 32 (si_ii si));
      Some (r, SetTypeIterator (si_encoding si) (wraps 32 (si_ii si + 1)) (si_di si), match v with Some v => Some (EleInt v) | None => None end)
  | _ => None
  end.

Definition setTypeReleaseIterator (r : robj) (si : setTypeIterator) : option robj :=
  match si_encoding si with
  | OBJ_ENCODING_HT => d ← as_set r; d ← dictReleaseIterator (fun _ => table_addr E) d (si_di si); Some (with_set d r)
  | _ => Some r
  end.

Definition setTypeNextObject (r : robj) (si : setTypeIterator) : option (robj * setTypeIterator * option sds) :=
  '(r, si, e) ← setTypeNext r si;
  match e with
  | None => Some (r, si, None)
  | Some (EleInt v) => s ← sdsfromlonglong v; Some (r, si, Some s)
  | Some (EleSds s) => Some (r, si, Some s)
  end.

(** The loop of [setTypeConvert]: [while (setTypeNext(si,&element,&intele) != -1)]; an integer set
    has at most one iteration for each element and a last one. *)
Fixpoint convert_loop (fuel : nat) (r : robj) (si : setTypeIterator) (d : Dict.dict sds unit)
    : option (robj * setTypeIterator * Dict.dict sds unit) :=
  match fuel with
  | O => None
  | S fuel =>
      '(r, si, e) ← setTypeNext r si;
      match e with
      | None => Some (r, si, d)
      | Some (EleSds _) => None
      | Some (EleInt intele) =>
          element ← sdsfromlonglong intele;
          '(d, st) ← dictAdd tt (can_resize E) d element tt;
          match st with DICT_OK => convert_loop fuel r si d | DICT_ERR => None end
      end
  end.

Definition setTypeConvert (r : robj) (enc : oencoding) : option robj :=
  if bool_decide (type r = OBJ_SET) && bool_decide (encoding r = OBJ_ENCODING_INTSET) then
    match enc with
    | OBJ_ENCODING_HT =>
        is_ ← as_intset r;
        '(d, _) ← dictExpand dictCreate (intsetLen is_);
        si ← setTypeInitIterator r;
        '(r, si, d) ← convert_loop (S (Z.to_nat (intsetLen is_))) r si d;
        r ← setTypeReleaseIterator r si;
        Some (with_set d (with_encoding OBJ_ENCODING_HT r))
    | _ => None
    end
  else None.

(** ** Members *)

(** [max] is [server.set_max_intset_entries]; the boolean is the return value. *)
Definition setTypeAdd (max : Z) (r : robj) (value : sds) : option (robj * bool) :=
  match encoding r with
  | OBJ_ENCODING_HT =>
      ht ← as_set r;
      '(ht, de) ← dictAddRaw tt (can_resize E) ht value;
      match de with
      | inr de => ht ← store_val ht de tt; Some (with_set ht r, true)
      | inl _ => Some (with_set ht r, false)
      end
  | OBJ_ENCODING_INTSET =>
      is_ ← as_intset r;
      match isSdsRepresentableAsLongLong value with
      | Some llval =>
          '(is_, success) ← intsetAdd (new_bytes E) is_ llval;
          let r := with_intset is_ r in
          if success : bool then
            r ← (if intsetLen is_ >? max then setTypeConvert r OBJ_ENCODING_HT else Some r);
            Some (r, true)
          else Some (r, false)
      | None =>
          r ← setTypeConvert r OBJ_ENCODING_HT;
          d ← as_set r;
          '(d, st) ← dictAdd tt (can_resize E) d value tt;
          match st with DICT_OK => Some (with_set d r, true) | DICT_ERR => None end
      end
  | _ => None
  end.

Definition setTypeRemove (r : robj) (value : sds) : option (robj * bool) :=
  match encoding r with
  | OBJ_ENCODING_HT =>
      d ← as_set r;
      '(d, st, _) ← dictDelete d value;
      match st with
      | DICT_OK =>
          d ← (if htNeedsResize d then fst <$> dictResize (can_resize E) d else Some d);
          Some (with_set d r, true)
      | DICT_ERR => Some (with_set d r, false)
      end
  | OBJ_ENCODING_INTSET =>
      is_ ← as_intset r;
      match isSdsRepresentableAsLongLong value with
      | Some llval =>
          '(is_, success) ← intsetRemove (new_bytes E) is_ llval; Some (with_intset is_ r, success)
      | None => Some (r, false)
      end
  | _ => None
  end.

(** The search in a dictionary may take a step of its rehashing, so the object is returned too. *)
Definition setTypeIsMember (r : robj) (value : sds) : option (robj * bool) :=
  match encoding r with
  | OBJ_ENCODING_HT =>
      d ← as_set r;
      '(d, de) ← dictFind d value;
      Some (with_set d r, match de with Some _ => true | None => false end)
  | OBJ_ENCODING_INTSET =>
      is_ ← as_intset r;
      match isSdsRepresentableAsLongLong value with
      | Some llval => b ← intsetFind is_ llval; Some (r, b)
      | None => Some (r, false)
      end
  | _ => None
  end.

Definition setTypeSize (r : robj) : option Z :=
  match encoding r with
  | OBJ_ENCODING_HT => d ← as_set r; Some (dictSize d)
  | OBJ_ENCODING_INTSET => is_ ← as_intset r; Some (intsetLen is_)
  | _ => None
  end.

(** [rs] are the results of [random()], and of [rand()] for an integer set. *)
Definition setTypeRandomElement (rs : list Z) (r : robj) : option (robj * set_element) :=
  match encoding r with
  | OBJ_ENCODING_HT =>
      d ← as_set r;
      '(d, de) ← dictGetRandomKey rs d;
      '(k, _) ← de;
      Some (with_set d r, EleSds k)
  | OBJ_ENCODING_INTSET =>
      is_ ← as_intset r;
      x ← head rs;
      v ← intsetRandom is_ x;
      Some (r, EleInt v)
  | _ => None
  end.
End settype.

(** ** Commands *)

(** [setTypeSize] of the object at an address. *)
Definition size_of (o : oid) : M Z :=
  r ← in_store (obj o); E ← gets (fun s => data_env (conf s)); lift (setTypeSize E r).

(** The loop of SADD over the elements. *)
Fixpoint sadd_loop (set : oid) (elements : list oid) (added : Z) : M Z :=
  match elements with
  | [] => mret added
  | e :: elements =>
      v ← sds_of e;
      s ← get;
      b ← on_obj set (fun E r => setTypeAdd E (set_max_intset_entries (conf s)) r v);
      sadd_loop set elements (if b : bool then added + 1 else added)
  end.

Definition saddCommand (c : Z) (argv : list oid) : M (list oid) :=
  db ← client_db c;
  key ← arg_sds argv 1;
  old ← lookupKeyWrite db key;
  set ← (match old with
         | None =>
             v ← arg_sds argv 2;
             s ← get;
             set ← in_store (alloc_obj (setTypeCreate (data_env (conf s)) v));
             _ ← dbAdd db key set;
             mret (Some set)
         | Some set =>
             r ← in_store (obj set);
             if negb (bool_decide (type r = OBJ_SET)) then _ ← addReply c R_wrongtypeerr; mret None
             else mret (Some set)
         end);
  match set with
  | None => mret argv
  | Some set =>
      added ← sadd_loop set (drop 2 argv) 0;
      _ ← (if negb (added =? 0) then
             _ ← signalModifiedKey db key; notifyKeyspaceEvent NOTIFY_SET "sadd" key db
           else mret tt);
      _ ← incr_dirty added;
      _ ← addReplyLongLong c added;
      mret argv
  end.

(** The loop of SREM: the number of deleted elements and whether the key was removed. *)
Fixpoint srem_loop (db : Z) (key : sds) (set : oid) (elements : list oid) (deleted : Z) : M (Z * bool) :=
  match elements with
  | [] => mret (deleted, false)
  | e :: elements =>
      v ← sds_of e;
      b ← on_obj set (fun E r => setTypeRemove E r v);
      if b : bool then
        n ← size_of set;
        if n =? 0 then _ ← dbDelete db key; mret (deleted + 1, true)
        else srem_loop db key set elements (deleted + 1)
      else srem_loop db key set elements deleted
  end.

Definition sremCommand (c : Z) (argv : list oid) : M (list oid) :=
  db ← client_db c;
  key ← arg_sds argv 1;
  set ← lookupKeyWriteOrReply c key (RInt 0);
  match set with
  | None => mret argv
  | Some set =>
      wrong ← checkType c set OBJ_SET;
      if wrong : bool then mret argv
      else
        '(deleted, keyremoved) ← srem_loop db key set (drop 2 argv) 0;
        _ ← (if negb (deleted =? 0) then
               _ ← signalModifiedKey db key;
               _ ← notifyKeyspaceEvent NOTIFY_SET "srem" key db;
               _ ← (if keyremoved : bool then notifyKeyspaceEvent NOTIFY_GENERIC "del" key db else mret tt);
               incr_dirty deleted
             else mret tt);
        _ ← addReplyLongLong c deleted;
        mret argv
  end.

Definition smoveCommand (c : Z) (argv : list oid) : M (list oid) :=
  db ← client_db c;
  src ← arg_sds argv 1;
  dst ← arg_sds argv 2;
  srcset ← lookupKeyWrite db src;
  dstset ← lookupKeyWrite db dst;
  ele ← arg_sds argv 3;
  match srcset with
  | None => _ ← addReply c (RInt 0); mret argv
  | Some srcset =>
      wrong ← checkType c srcset OBJ_SET;
      wrong ← (if wrong : bool then mret true
               else match dstset with Some d => checkType c d OBJ_SET | None => mret false end);
      if wrong : bool then mret argv
      else if bool_decide (Some srcset = dstset) then
        b ← on_obj srcset (fun E r => setTypeIsMember E r ele);
        _ ← addReply c (RInt (if b : bool then 1 else 0));
        mret argv
      else
        b ← on_obj srcset (fun E r => setTypeRemove E r ele);
        if negb b then _ ← addReply c (RInt 0); mret argv
        else
          _ ← notifyKeyspaceEvent NOTIFY_SET "srem" src db;
          n ← size_of srcset;
          _ ← (if n =? 0 then _ ← dbDelete db src; notifyKeyspaceEvent NOTIFY_GENERIC "del" src db else mret tt);
          dstset ← (match dstset with
                    | Some d => mret d
                    | None =>
                        s ← get;
                        d ← in_store (alloc_obj (setTypeCreate (data_env (conf s)) ele));
                        _ ← dbAdd db dst d;
                        mret d
                    end);
          _ ← signalModifiedKey db src;
          _ ← signalModifiedKey db dst;
          _ ← incr_dirty 1;
          s ← get;
          b ← on_obj dstset (fun E r => setTypeAdd E (set_max_intset_entries (conf s)) r ele);
          _ ← (if b : bool then _ ← incr_dirty 1; notifyKeyspaceEvent NOTIFY_SET "sadd" dst db else mret tt);
          _ ← addReply c (RInt 1);
          mret argv
  end.

Definition sismemberCommand (c : Z) (argv : list oid) : M (list oid) :=
  key ← arg_sds argv 1;
  set ← lookupKeyReadOrReply c key (RInt 0);
  match set with
  | None => mret argv
  | Some set =>
      wrong ← checkType c set OBJ_SET;
      if wrong : bool then mret argv
      else
        v ← arg_sds argv 2;
        b ← on_obj set (fun E r => setTypeIsMember E r v);
        _ ← addReply c (RInt (if b : bool then 1 else 0));
        mret argv
  end.

Definition scardCommand (c : Z) (argv : list oid) : M (list oid) :=
  key ← arg_sds argv 1;
  o ← lookupKeyReadOrReply c key (RInt 0);
  match o with
  | None => mret argv
  | Some o =>
      wrong ← checkType c o OBJ_SET;
      if wrong : bool then mret argv
      else
        n ← size_of o;
        _ ← addReplyLongLong c n;
        mret argv
  end.
