(* ===== verification/THash.v ===== *)
(** * Hashes (t_hash.c)

    A hash is an object whose data is a ziplist, in which each field is followed by its value, or a
    dictionary. The functions of the hash type are functions on the object; the commands read the
    object from the heap and write it back. Who owns the strings that are passed (the flags
    [HASH_SET_TAKE_FIELD] and [HASH_SET_TAKE_VALUE] of [hashTypeSet]) has no counterpart here. [None] is
    a failing assertion or panic. *)

From S2P Require Import Prelude Endian Util Sds SdsNum Ziplist Dict DictIter Data State Object Server Db.

(** ** The hash type *)

Section hashtype.
Variable E : env.
#[local] Hint Extern 0 Host => exact (env_host E) : typeclass_instances.
#[local] Hint Extern 0 (dictType sds sds) => exact (hashDictType E) : typeclass_instances.

Definition createHashObject : option robj :=
  zl ← ziplistNew (new_bytes E);
  Some (Robj OBJ_HASH OBJ_ENCODING_ZIPLIST (PData (DZiplist zl)) 1).

(** Reads of [o->ptr] as a ziplist and as a dictionary. *)
Definition as_zl (r : robj) : option (list Z) := match ptr r with PData (DZiplist zl) => Some zl | _ => None end.
Definition as_hash (r : robj) : option (Dict.dict sds sds) := match ptr r with PData (DHash d) => Some d | _ => None end.

Definition with_zl (zl : list Z) (r : robj) : robj := with_ptr (PData (DZiplist zl)) r.
Definition with_hash (d : Dict.dict sds sds) (r : robj) : robj := with_ptr (PData (DHash d)) r.

(** A field or a value that is read: [*vstr] and [*vlen], or [*vll] when [*vstr] is [NULL]. *)
Inductive hval := HStr (vstr : sds) | HInt (vll : Z).

Definition read_got (zl : list Z) (g : zl_got) : option hval :=
  match g with
  | ZlStr pos len => s ← rd zl pos len; Some (HStr s)
  | ZlInt v => Some (HInt v)
  end.

(** [None] inside is the return value -1. *)
Definition hashTypeGetFromZiplist (r : robj) (field : sds) : option (option hval) :=
  match encoding r with
  | OBJ_ENCODING_ZIPLIST =>
      zl ← as_zl r;
      fptr ← ziplistIndex zl ZIPLIST_HEAD;
      fptr ← (match fptr with Some p => ziplistFind zl p field 1 | None => Some None end);
      match fptr with
      | None => Some None
      | Some p =>
          vptr ← ziplistNext zl p;
          match vptr with
          | None => None
          | Some _ =>
              g ← ziplistGet zl vptr;
              match g with None => None | Some g => v ← read_got zl g; Some (Some v) end
          end
      end
  | _ => None
  end.

(** The search may take a step of the rehashing, so the object is returned too. *)
Definition hashTypeGetFromHashTable (r : robj) (field : sds) : option (robj * option sds) :=
  match encoding r with
  | OBJ_ENCODING_HT =>
      d ← as_hash r;
      '(d, de) ← dictFind d field;
      match de with
      | None => Some (with_hash d r, None)
      | Some de => '(_, v) ← deref_entry d de; Some (with_hash d r, Some v)
      end
  | _ => None
  end.

(** [None] inside is [C_ERR]. *)
Definition hashTypeGetValue (r : robj) (field : sds) : option (robj * option hval) :=
  match encoding r with
  | OBJ_ENCODING_ZIPLIST => v ← hashTypeGetFromZiplist r field; Some (r, v)
  | OBJ_ENCODING_HT => '(r, v) ← hashTypeGetFromHashTable r field; Some (r, match v with Some s => Some (HStr s) | None => None end)
  | _ => None
  end.

Definition hashTypeGetValueLength (r : robj) (field : sds) : option (robj * Z) :=
  match encoding r with
  | OBJ_ENCODING_ZIPLIST =>
      v ← hashTypeGetFromZiplist r field;
      Some (r, match v with None => 0 | Some (HStr s) => zlen s | Some (HInt vll) => sdigits10 vll end)
  | OBJ_ENCODING_HT =>
      '(r, v) ← hashTypeGetFromHashTable r field; Some (r, match v with None => 0 | Some s => zlen s end)
  | _ => None
  end.

Definition hashTypeExists (r : robj) (field : sds) : option (robj * bool) :=
  match encoding r with
  | OBJ_ENCODING_ZIPLIST =>
      v ← hashTypeGetFromZiplist r field; Some (r, match v with Some _ => true | None => false end)
  | OBJ_ENCODING_HT =>
      '(r, v) ← hashTypeGetFromHashTable r field; Some (r, match v with Some _ => true | None => false end)
  | _ => None
  end.

(** [ziplistLen] may store the number of entries, so the object is returned too. *)
Definition hashTypeLength (r : robj) : option (robj * Z) :=
  match encoding r with
  | OBJ_ENCODING_ZIPLIST => zl ← as_zl r; '(n, zl) ← ziplistLen zl; Some (with_zl zl r, n / 2)
  | OBJ_ENCODING_HT => d ← as_hash r; Some (r, dictSize d)
  | _ => None
  end.

(** ** Iterators *)

Record hashTypeIterator := HashTypeIterator {
  hi_encoding : oencoding;
  hi_fptr : option Z;
  hi_vptr : option Z;
  hi_di : dictIterator sds;
  hi_de : option (sds * sds);
}.

Definition hashTypeInitIterator (r : robj) : option hashTypeIterator :=
  match encoding r with
  | OBJ_ENCODING_ZIPLIST => Some (HashTypeIterator OBJ_ENCODING_ZIPLIST None None dictGetIterator None)
  | OBJ_ENCODING_HT => Some (HashTypeIterator OBJ_ENCODING_HT None None dictGetIterator None)
  | _ => None
  end.

Definition hashTypeReleaseIterator (r : robj) (hi : hashTypeIterator) : option robj :=
  match hi_encoding hi with
  | OBJ_ENCODING_HT => d ← as_hash r; d ← dictReleaseIterator (fun _ => table_addr E) d (hi_di hi); Some (with_hash d r)
  | _ => Some r
  end.

(** The boolean is [C_OK]; at the end the iterator keeps its pointers. *)
Definition hashTypeNext (r : robj) (hi : hashTypeIterator) : option (robj * hashTypeIterator * bool) :=
  match hi_encoding hi with
  | OBJ_ENCODING_ZIPLIST =>
      zl ← as_zl r;
      fptr ← (match hi_fptr hi, hi_vptr hi with
              | None, None => ziplistIndex zl 0
              | Some _, Some vptr => ziplistNext zl vptr
              | _, _ => None
              end);
      match fptr with
      | None => Some (r, hi, false)
      | Some fptr =>
          vptr ← ziplistNext zl fptr;
          match vptr with
          | None => None
          | Some vptr => Some (r, HashTypeIterator (hi_encoding hi) (Some fptr) (Some vptr) (hi_di hi) (hi_de hi), true)
          end
      end
  | OBJ_ENCODING_HT =>
      d ← as_hash r;
      '(d, di, de) ← dictNext (fun _ => table_addr E) d (hi_di hi);
      Some (with_hash d r, HashTypeIterator (hi_encoding hi) (hi_fptr hi) (hi_vptr hi) di de,
            match de with Some _ => true | None => false end)
  | _ => None
  end.

(** [what & OBJ_HASH_KEY], else the value. *)
Definition hashTypeCurrentFromZiplist (r : robj) (hi : hashTypeIterator) (key : bool) : option hval :=
  match hi_encoding hi with
  | OBJ_ENCODING_ZIPLIST =>
      zl ← as_zl r;
      g ← ziplistGet zl (if key then hi_fptr hi else hi_vptr hi);
      match g with None => None | Some g => read_got zl g end
  | _ => None
  end.

Definition hashTypeCurrentFromHashTable (hi : hashTypeIterator) (key : bool) : option sds :=
  match hi_encoding hi with
  | OBJ_ENCODING_HT => de ← hi_de hi; Some (if key then fst de else snd de)
  | _ => None
  end.

Definition hashTypeCurrentObject (r : robj) (hi : hashTypeIterator) (key : bool) : option hval :=
  match hi_encoding hi with
  | OBJ_ENCODING_ZIPLIST => hashTypeCurrentFromZiplist r hi key
  | OBJ_ENCODING_HT => s ← hashTypeCurrentFromHashTable hi key; Some (HStr s)
  | _ => None
  end.

Definition hashTypeCurrentObjectNewSds (r : robj) (hi : hashTypeIterator) (key : bool) : option sds :=
  v ← hashTypeCurrentObject r hi key;
  match v with HStr s => Some s | HInt vll => sdsfromlonglong vll end.

(** ** Conversion *)

(** [while (hashTypeNext(hi) != C_ERR)]: one iteration for each field and a last one. *)
Fixpoint hash_convert_loop (fuel : nat) (r : robj) (hi : hashTypeIterator) (d : Dict.dict sds sds)
    : option (robj * hashTypeIterator * Dict.dict sds sds) :=
  match fuel with
  | O => None
  | S fuel =>
      '(r, hi, more) ← hashTypeNext r hi;
      if negb more then Some (r, hi, d)
      else
        key ← hashTypeCurrentObjectNewSds r hi true;
        value ← hashTypeCurrentObjectNewSds r hi false;
        '(d, ret) ← dictAdd [] (can_resize E) d key value;
        match ret with DICT_OK => hash_convert_loop fuel r hi d | DICT_ERR => None end
  end.

Definition hashTypeConvertZiplist (r : robj) (enc : oencoding) : option robj :=
  match encoding r with
  | OBJ_ENCODING_ZIPLIST =>
      match enc with
      | OBJ_ENCODING_ZIPLIST => Some r
      | OBJ_ENCODING_HT =>
          zl ← as_zl r;
          hi ← hashTypeInitIterator r;
          '(r, hi, d) ← hash_convert_loop (length zl) r hi dictCreate;
          r ← hashTypeReleaseIterator r hi;
          Some (with_hash d (with_encoding OBJ_ENCODING_HT r))
      | _ => None
      end
  | _ => None
  end.

Definition hashTypeConvert (r : robj) (enc : oencoding) : option robj :=
  match encoding r with OBJ_ENCODING_ZIPLIST => hashTypeConvertZiplist r enc | _ => None end.

(** [args] are [argv[start]] to [argv[end]], and [max] is [server.hash_max_ziplist_value]. *)
Fixpoint try_conversion (max : Z) (r : robj) (args : list robj) : option robj :=
  match args with
  | [] => Some r
  | a :: args =>
      if sdsEncodedObject a then
        s ← as_sds a;
        if zlen s >? max then hashTypeConvert r OBJ_ENCODING_HT else try_conversion max r args
      else try_conversion max r args
  end.
Definition hashTypeTryConversion (max : Z) (r : robj) (args : list robj) : option robj :=
  if negb (bool_decide (encoding r = OBJ_ENCODING_ZIPLIST)) then Some r else try_conversion max r args.

(** ** Fields *)

(** The ziplist of [hashTypeSet], and whether the field was found. *)
Definition set_in_ziplist (zl : list Z) (field value : sds) : option (list Z * bool) :=
  fptr ← ziplistIndex zl ZIPLIST_HEAD;
  fptr ← (match fptr with Some p => ziplistFind zl p field 1 | None => Some None end);
  match fptr with
  | Some p =>
      vptr ← ziplistNext zl p;
      match vptr with
      | None => None
      | Some vptr =>
          '(zl, vptr) ← ziplistDelete (new_bytes E) zl vptr;
          zl ← ziplistInsert (new_bytes E) zl vptr value;
          Some (zl, true)
      end
  | None =>
      zl ← ziplistPush (new_bytes E) zl field ZIPLIST_TAIL;
      zl ← ziplistPush (new_bytes E) zl value ZIPLIST_TAIL;
      Some (zl, false)
  end.

(** [max] is [server.hash_max_ziplist_entries]; the boolean is [update]. *)
Definition hashTypeSet (max : Z) (r : robj) (field value : sds) : option (robj * bool) :=
  match encoding r with
  | OBJ_ENCODING_ZIPLIST =>
      zl ← as_zl r;
      '(zl, update) ← set_in_ziplist zl field value;
      '(r, n) ← hashTypeLength (with_zl zl r);
      r ← (if n >? max then hashTypeConvert r OBJ_ENCODING_HT else Some r);
      Some (r, update)
  | OBJ_ENCODING_HT =>
      d ← as_hash r;
      '(d, de) ← dictFind d field;
      match de with
      | Some de => d ← store_val d de value; Some (with_hash d r, true)
      | None => '(d, _) ← dictAdd [] (can_resize E) d field value; Some (with_hash d r, false)
      end
  | _ => None
  end.

Definition hashTypeDelete (r : robj) (field : sds) : option (robj * bool) :=
  match encoding r with
  | OBJ_ENCODING_ZIPLIST =>
      zl ← as_zl r;
      fptr ← ziplistIndex zl ZIPLIST_HEAD;
      fptr ← (match fptr with Some p => ziplistFind zl p field 1 | None => Some None end);
      match fptr with
      | Some fptr =>
          '(zl, fptr) ← ziplistDelete (new_bytes E) zl fptr;
          '(zl, fptr) ← ziplistDelete (new_bytes E) zl fptr;
          Some (with_zl zl r, true)
      | None => Some (r, false)
      end
  | OBJ_ENCODING_HT =>
      d ← as_hash r;
      '(d, st, _) ← dictDelete d field;
      match st with
      | DICT_OK =>
          d ← (if htNeedsResize d then fst <$> dictResize (can_resize E) d else Some d);
          Some (with_hash d r, true)
      | DICT_ERR => Some (with_hash d r, false)
      end
  | _ => None
  end.
End hashtype.

(** ** Commands *)

Definition addReplyBulkCBuffer (c : Z) (p : sds) : M unit := addReply c (RBulk p).
Definition addReplyBulkLongLong (c ll : Z) : M unit :=
  '(len, buf) ← lift (ll2string (replicate 64 0) 64 ll);
  addReplyBulkCBuffer c (take (Z.to_nat len) buf).

(** The reply with what was read: from [vstr], or from [vll]. *)
Definition reply_hval (c : Z) (v : hval) : M unit :=
  match v with HStr vstr => addReplyBulkCBuffer c vstr | HInt vll => addReplyBulkLongLong c vll end.

Definition hashTypeLookupWriteOrCreate (c : Z) (key : sds) : M (option oid) :=
  db ← client_db c;
  o ← lookupKeyWrite db key;
  match o with
  | None =>
      s ← get;
      r ← lift (createHashObject (data_env (conf s)));
      o ← in_store (alloc_obj r);
      _ ← dbAdd db key o;
      mret (Some o)
  | Some o =>
      r ← in_store (obj o);
      if negb (bool_decide (type r = OBJ_HASH)) then _ ← addReply c R_wrongtypeerr; mret None
      else mret (Some o)
  end.

Fixpoint read_objs (os : list oid) : M (list robj) :=
  match os with
  | [] => mret []
  | o :: os => r ← in_store (obj o); rs ← read_objs os; mret (r :: rs)
  end.

(** [hashTypeTryConversion] on the object at an address. *)
Definition try_conversion_at (o : oid) (args : list oid) : M unit :=
  rs ← read_objs args;
  s ← get;
  on_obj o (fun E r => r ← hashTypeTryConversion E (hash_max_ziplist_value (conf s)) r rs; Some (r, tt)).

Definition set_field (o : oid) (field value : sds) : M bool :=
  s ← get; on_obj o (fun E r => hashTypeSet E (hash_max_ziplist_entries (conf s)) r field value).

Definition hsetnxCommand (c : Z) (argv : list oid) : M (list oid) :=
  db ← client_db c;
  key ← arg_sds argv 1;
  o ← hashTypeLookupWriteOrCreate c key;
  match o with
  | None => mret argv
  | Some o =>
      _ ← try_conversion_at o (take 2 (drop 2 argv));
      field ← arg_sds argv 2;
      ex ← on_obj o (fun E r => hashTypeExists E r field);
      if ex : bool then _ ← addReply c (RInt 0); mret argv
      else
        value ← arg_sds argv 3;
        _ ← set_field o field value;
        _ ← addReply c (RInt 1);
        _ ← signalModifiedKey db key;
        _ ← notifyKeyspaceEvent NOTIFY_HASH "hset" key db;
        _ ← incr_dirty 1;
        mret argv
  end.

(** [for (i = 2; i < c->argc; i += 2)]; the number of arguments is even. *)
Fixpoint hset_loop (o : oid) (args : list oid) (created : Z) : M Z :=
  match args with
  | f :: v :: args =>
      field ← sds_of f;
      value ← sds_of v;
      update ← set_field o field value;
      hset_loop o args (if update : bool then created else created + 1)
  | _ => mret created
  end.

(** HSET and HMSET; the string of the command name ends with a zero byte. *)
Definition hsetCommand (c : Z) (argv : list oid) : M (list oid) :=
  if zlen argv mod 2 =? 1 then _ ← addReplyError c "wrong number of arguments for HMSET"; mret argv
  else
    db ← client_db c;
    key ← arg_sds argv 1;
    o ← hashTypeLookupWriteOrCreate c key;
    match o with
    | None => mret argv
    | Some o =>
        _ ← try_conversion_at o (drop 2 argv);
        created ← hset_loop o (drop 2 argv) 0;
        cmdname ← arg_sds argv 0;
        ch ← lift ((cmdname ++ [0]) !! 1%nat);
        _ ← (if (ch =? 115) || (ch =? 83) then addReplyLongLong c created else addReply c R_ok);
        _ ← signalModifiedKey db key;
        _ ← notifyKeyspaceEvent NOTIFY_HASH "hset" key db;
        _ ← incr_dirty 1;
        mret argv
    end.

Definition hincrbyCommand (c : Z) (argv : list oid) : M (list oid) :=
  a3 ← arg argv 3;
  incr ← getLongLongFromObjectOrReply c (Some a3) None;
  match incr with
  | None => mret argv
  | Some incr =>
      db ← client_db c;
      key ← arg_sds argv 1;
      o ← hashTypeLookupWriteOrCreate c key;
      match o with
      | None => mret argv
      | Some o =>
          field ← arg_sds argv 2;
          v ← on_obj o (fun E r => hashTypeGetValue E r field);
          oldvalue ← (match v with
                      | Some (HStr vstr) =>
                          match string2ll vstr with
                          | None => _ ← addReplyError c "hash value is not an integer"; mret None
                          | Some value => mret (Some value)
                          end
                      | Some (HInt value) => mret (Some value)
                      | None => mret (Some 0)
                      end);
          match oldvalue with
          | None => mret argv
          | Some oldvalue =>
              if ((incr <? 0) && (oldvalue <? 0) && (incr <? LLONG_MIN - oldvalue)) ||
                 ((incr >? 0) && (oldvalue >? 0) && (incr >? LLONG_MAX - oldvalue)) then
                _ ← addReplyError c "increment or decrement would overflow"; mret argv
              else
                value ← ll_arith (oldvalue + incr);
                new ← lift (sdsfromlonglong value);
                _ ← set_field o field new;
                _ ← addReplyLongLong c value;
                _ ← signalModifiedKey db key;
                _ ← notifyKeyspaceEvent NOTIFY_HASH "hincrby" key db;
                _ ← incr_dirty 1;
                mret argv
          end
      end
  end.

(** [None] is the pointer [NULL]. *)
Definition addHashFieldToReply (c : Z) (o : option oid) (field : sds) : M unit :=
  match o with
  | None => addReply c R_nullbulk
  | Some o =>
      v ← on_obj o (fun E r =>
        match encoding r with
        | OBJ_ENCODING_ZIPLIST => v ← hashTypeGetFromZiplist E r field; Some (r, v)
        | OBJ_ENCODING_HT =>
            '(r, v) ← hashTypeGetFromHashTable E r field;
            Some (r, match v with Some s => Some (HStr s) | None => None end)
        | _ => None
        end);
      match v with
      | None => addReply c R_nullbulk
      | Some v => reply_hval c v
      end
  end.

Definition hgetCommand (c : Z) (argv : list oid) : M (list oid) :=
  key ← arg_sds argv 1;
  o ← lookupKeyReadOrReply c key R_nullbulk;
  match o with
  | None => mret argv
  | Some o =>
      wrong ← checkType c o OBJ_HASH;
      if wrong : bool then mret argv
      else field ← arg_sds argv 2; _ ← addHashFieldToReply c (Some o) field; mret argv
  end.

Fixpoint hmget_loop (c : Z) (o : option oid) (fields : list oid) : M unit :=
  match fields with
  | [] => mret tt
  | f :: fields => field ← sds_of f; _ ← addHashFieldToReply c o field; hmget_loop c o fields
  end.

Definition hmgetCommand (c : Z) (argv : list oid) : M (list oid) :=
  db ← client_db c;
  key ← arg_sds argv 1;
  o ← lookupKeyRead db key;
  wrong ← (match o with
           | Some o => r ← in_store (obj o); mret (negb (bool_decide (type r = OBJ_HASH)))
           | None => mret false
           end);
  if wrong : bool then _ ← addReply c R_wrongtypeerr; mret argv
  else
    _ ← addReplyMultiBulkLen c (zlen argv - 2);
    _ ← hmget_loop c o (drop 2 argv);
    mret argv.

(** The loop of HDEL: the number of deleted fields and whether the key was removed. *)
Fixpoint hdel_loop (db : Z) (key : sds) (o : oid) (fields : list oid) (deleted : Z) : M (Z * bool) :=
  match fields with
  | [] => mret (deleted, false)
  | f :: fields =>
      field ← sds_of f;
      b ← on_obj o (fun E r => hashTypeDelete E r field);
      if b : bool then
        n ← on_obj o (fun E r => hashTypeLength E r);
        if n =? 0 then _ ← dbDelete db key; mret (deleted + 1, true)
        else hdel_loop db key o fields (deleted + 1)
      else hdel_loop db key o fields deleted
  end.

Definition hdelCommand (c : Z) (argv : list oid) : M (list oid) :=
  db ← client_db c;
  key ← arg_sds argv 1;
  o ← lookupKeyWriteOrReply c key (RInt 0);
  match o with
  | None => mret argv
  | Some o =>
      wrong ← checkType c o OBJ_HASH;
      if wrong : bool then mret argv
      else
        '(deleted, keyremoved) ← hdel_loop db key o (drop 2 argv) 0;
        _ ← (if negb (deleted =? 0) then
               _ ← signalModifiedKey db key;
               _ ← notifyKeyspaceEvent NOTIFY_HASH "hdel" key db;
               _ ← (if keyremoved : bool then notifyKeyspaceEvent NOTIFY_GENERIC "del" key db else mret tt);
               incr_dirty deleted
             else mret tt);
        _ ← addReplyLongLong c deleted;
        mret argv
  end.

(** [lookupKeyReadOrReply] and [checkType], then the number that is replied is computed from the object. *)
Definition hread (c : Z) (argv : list oid) (f : oid -> M Z) : M (list oid) :=
  key ← arg_sds argv 1;
  o ← lookupKeyReadOrReply c key (RInt 0);
  match o with
  | None => mret argv
  | Some o =>
      wrong ← checkType c o OBJ_HASH;
      if wrong : bool then mret argv
      else n ← f o; _ ← addReplyLongLong c n; mret argv
  end.

Definition hlenCommand (c : Z) (argv : list oid) : M (list oid) :=
  hread c argv (fun o => on_obj o hashTypeLength).

Definition hstrlenCommand (c : Z) (argv : list oid) : M (list oid) :=
  hread c argv (fun o => field ← arg_sds argv 2; on_obj o (fun E r => hashTypeGetValueLength E r field)).

Definition hexistsCommand (c : Z) (argv : list oid) : M (list oid) :=
  hread c argv (fun o =>
    field ← arg_sds argv 2;
    b ← on_obj o (fun E r => hashTypeExists E r field);
    mret (if b : bool then 1 else 0)).

Definition addHashIteratorCursorToReply (c : Z) (o : oid) (hi : hashTypeIterator) (key : bool) : M unit :=
  r ← in_store (obj o);
  E ← gets (fun s => data_env (conf s));
  v ← lift (match hi_encoding hi with
            | OBJ_ENCODING_ZIPLIST => hashTypeCurrentFromZiplist E r hi key
            | OBJ_ENCODING_HT => s ← hashTypeCurrentFromHashTable hi key; Some (HStr s)
            | _ => None
            end);
  reply_hval c v.

(** The loop of HGETALL; [keys] and [values] are the two flags. *)
Fixpoint hgetall_loop (fuel : nat) (c : Z) (o : oid) (hi : hashTypeIterator) (keys values : bool) (count : Z)
    : M (hashTypeIterator * Z) :=
  match fuel with
  | O => lift None
  | S fuel =>
      '(hi, more) ← on_obj o (fun E r => '(r, hi, more) ← hashTypeNext E r hi; Some (r, (hi, more)));
      if negb more then mret (hi, count)
      else
        count ← (if keys then _ ← addHashIteratorCursorToReply c o hi true; mret (count + 1) else mret count);
        count ← (if values then _ ← addHashIteratorCursorToReply c o hi false; mret (count + 1) else mret count);
        hgetall_loop fuel c o hi keys values count
  end.

Definition genericHgetallCommand (c : Z) (argv : list oid) (keys values : bool) : M (list oid) :=
  key ← arg_sds argv 1;
  o ← lookupKeyReadOrReply c key R_emptymultibulk;
  match o with
  | None => mret argv
  | Some o =>
      wrong ← checkType c o OBJ_HASH;
      if wrong : bool then mret argv
      else
        n ← on_obj o (fun E r => hashTypeLength E r);
        let multiplier := (if keys then 1 else 0) + (if values then 1 else 0) in
        let length := wraps 32 (n * multiplier) in
        _ ← addReplyMultiBulkLen c length;
        r ← in_store (obj o);
        hi ← lift (hashTypeInitIterator r);
        '(hi, count) ← hgetall_loop (S (Z.to_nat n)) c o hi keys values 0;
        _ ← on_obj o (fun E r => r ← hashTypeReleaseIterator E r hi; Some (r, tt));
        _ ← assert_that (count =? length);
        mret argv
  end.

Definition hkeysCommand (c : Z) (argv : list oid) : M (list oid) := genericHgetallCommand c argv true false.
Definition hvalsCommand (c : Z) (argv : list oid) : M (list oid) := genericHgetallCommand c argv false true.
Definition hgetallCommand (c : Z) (argv : list oid) : M (list oid) := genericHgetallCommand c argv true true.
