(* ===== verification/TSetOp.v ===== *)
(** * Set algebra (t_set.c)

    SINTER, SUNION, SDIFF and their STORE forms. The sets are objects of the heap, several of which may be
    the same one; the result is an object that no one else refers to until it is stored, so it is a value of
    the model. The iterators are not safe ones: they assert that the set they run over is not changed. *)

From stdpp Require Import sorting.
From S2P Require Import Prelude Endian Util Intset Sds SdsNum Dict DictIter Data State Object Server Db TSet THash.

(** ** Replies of a length that is not known yet (networking.c) *)

(** The place of the length among the replies. *)
Definition addDeferredMultiBulkLength (c : Z) : M nat := cl ← this_client c; mret (length (replies cl)).
Definition setDeferredMultiBulkLength (c : Z) (node : nat) (length : Z) : M unit :=
  upd_client c (fun cl => set_replies (take node (replies cl) ++ [RMultiBulkLen length] ++ drop node (replies cl))%list cl).

(** An addition of the type [int]. *)
Definition int_arith (v : Z) : M Z := if (- 2 ^ 31 <=? v) && (v <? 2 ^ 31) then mret v else fail.

(** ** The order of the sets *)

(** [setTypeSize] of each set; a missing one counts as empty. *)
Fixpoint sizes_of (sets : list (option oid)) : M (list (Z * option oid)) :=
  match sets with
  | [] => mret []
  | o :: sets =>
      n ← (match o with Some o => size_of o | None => mret 0 end);
      l ← sizes_of sets;
      mret ((n, o) :: l)
  end.

(** The two comparisons, of sets with their sizes. *)
Definition qsortCompareSetsByCardinality (s1 s2 : Z * option oid) : Z :=
  if s1.1 >? s2.1 then 1 else if s1.1 <? s2.1 then -1 else 0.

Definition qsortCompareSetsByRevCardinality (s1 s2 : Z * option oid) : Z :=
  if s1.1 <? s2.1 then 1 else if s1.1 >? s2.1 then -1 else 0.

(** [qsort]: the order of sets that compare as equal is not specified by the C library; [tie] stands for it. *)
Definition qsort_before (tie : option oid -> Z) (compar : Z * option oid -> Z * option oid -> Z) (x y : Z * option oid) : Prop :=
  compar x y < 0 \/ compar x y = 0 /\ tie x.2 <= tie y.2.
#[global] Instance qsort_before_dec tie compar x y : Decision (qsort_before tie compar x y).
Proof. unfold qsort_before. apply _. Defined.
Definition qsort (tie : option oid -> Z) (compar : Z * option oid -> Z * option oid -> Z) : list (Z * option oid) -> list (Z * option oid) :=
  merge_sort (qsort_before tie compar).

(** ** Elements *)

(** [setTypeNext] and [setTypeNextObject] on the object at an address. *)
Definition next_of (o : oid) (si : setTypeIterator) : M (setTypeIterator * option set_element) :=
  on_obj o (fun E r => '(r, si, e) ← setTypeNext E r si; Some (r, (si, e))).
Definition next_object_of (o : oid) (si : setTypeIterator) : M (setTypeIterator * option sds) :=
  on_obj o (fun E r => '(r, si, e) ← setTypeNextObject E r si; Some (r, (si, e))).
Definition init_iterator (o : oid) : M setTypeIterator := r ← in_store (obj o); lift (setTypeInitIterator r).
Definition release_iterator (o : oid) (si : setTypeIterator) : M unit :=
  on_obj o (fun E r => r ← setTypeReleaseIterator E r si; Some (r, tt)).
Definition is_member (o : oid) (ele : sds) : M bool := on_obj o (fun E r => setTypeIsMember E r ele).

(** [setTypeAdd] on the result. *)
Definition add_result (dstset : robj) (ele : sds) : M (robj * bool) :=
  s ← get; lift (setTypeAdd (data_env (conf s)) (set_max_intset_entries (conf s)) dstset ele).
Definition remove_result (dstset : robj) (ele : sds) : M (robj * bool) :=
  s ← get; lift (setTypeRemove (data_env (conf s)) dstset ele).

(** [while((ele = setTypeNextObject(si)) != NULL)]: [f] is the body, [a] what it changes. *)
Fixpoint each_element {A} (fuel : nat) (o : oid) (si : setTypeIterator) (f : sds -> A -> M A) (a : A) : M (setTypeIterator * A) :=
  match fuel with
  | O => fail
  | S fuel =>
      '(si, ele) ← next_object_of o si;
      match ele with
      | None => mret (si, a)
      | Some ele => a ← f ele a; each_element fuel o si f a
      end
  end.
Definition for_elements {A} (o : oid) (f : sds -> A -> M A) (a : A) : M A :=
  n ← size_of o;
  si ← init_iterator o;
  '(si, a) ← each_element (S (Z.to_nat n)) o si f a;
  _ ← release_iterator o si;
  mret a.

(** ** The result of a STORE form *)

Definition store_result (c db : Z) (dstkey : sds) (dstset : robj) (event : string) : M unit :=
  deleted ← dbDelete db dstkey;
  s ← get;
  n ← lift (setTypeSize (data_env (conf s)) dstset);
  _ ← (if n >? 0 then
         o ← in_store (alloc_obj dstset);
         _ ← dbAdd db dstkey o;
         _ ← addReplyLongLong c n;
         notifyKeyspaceEvent NOTIFY_SET event dstkey db
       else
         _ ← addReply c (RInt 0);
         if deleted : bool then notifyKeyspaceEvent NOTIFY_GENERIC "del" dstkey db else mret tt);
  _ ← signalModifiedKey db dstkey;
  incr_dirty 1.

(** ** SINTER *)

Definition lookup_set (dstkey : option sds) (db : Z) (key : sds) : M (option oid) :=
  match dstkey with Some _ => lookupKeyWrite db key | None => lookupKeyRead db key end.

(** A key does not exist: the result is empty. *)
Definition missing_set (c db : Z) (dstkey : option sds) : M unit :=
  match dstkey with
  | Some dstkey =>
      deleted ← dbDelete db dstkey;
      _ ← (if deleted : bool then _ ← signalModifiedKey db dstkey; incr_dirty 1 else mret tt);
      addReply c (RInt 0)
  | None => addReply c R_emptymultibulk
  end.

(** The loop over the keys: the sets, or [None] after a reply was sent. *)
Fixpoint sinter_sets (c db : Z) (dstkey : option sds) (setkeys : list oid) (sets : list oid) : M (option (list oid)) :=
  match setkeys with
  | [] => mret (Some sets)
  | k :: setkeys =>
      key ← sds_of k;
      setobj ← lookup_set dstkey db key;
      match setobj with
      | None =>
          _ ← missing_set c db dstkey;
          mret None
      | Some o =>
          wrong ← checkType c o OBJ_SET;
          if wrong : bool then mret None else sinter_sets c db dstkey setkeys (sets ++ [o])%list
      end
  end.

(** Whether a set has the element of [sets[0]]: an integer is looked up as it is in an integer set. *)
Definition has_element (o : oid) (e : set_element) : M bool :=
  match e with
  | EleInt intobj =>
      s ← get;
      r ← in_store (obj o);
      match encoding r with
      | OBJ_ENCODING_INTSET => is_ ← lift (as_intset r); lift (@intsetFind (env_host (data_env (conf s))) is_ intobj)
      | OBJ_ENCODING_HT => elesds ← lift (sdsfromlonglong intobj); is_member o elesds
      | _ => mret true
      end
  | EleSds elesds => is_member o elesds
  end.

(** The test of an element of [sets[0]] against the other sets. *)
Fixpoint in_all (first : oid) (sets : list oid) (e : set_element) : M bool :=
  match sets with
  | [] => mret true
  | o :: sets =>
      if bool_decide (o = first) then in_all first sets e
      else
        ok ← has_element o e;
        if ok : bool then in_all first sets e else mret false
  end.

(** An element that is in all the sets is sent, or added to the result. *)
Definition take_element (c : Z) (e : set_element) (dstset : option robj) (cardinality : Z) : M (option robj * Z) :=
  match dstset with
  | None =>
      _ ← (match e with EleSds elesds => addReplyBulkCBuffer c elesds | EleInt intobj => addReplyBulkLongLong c intobj end);
      mret (None, wrapu 64 (cardinality + 1))
  | Some dstset =>
      elesds ← (match e with EleSds elesds => mret elesds | EleInt intobj => lift (sdsfromlonglong intobj) end);
      '(dstset, _) ← add_result dstset elesds;
      mret (Some dstset, cardinality)
  end.

Fixpoint sinter_loop (fuel : nat) (c : Z) (first : oid) (sets : list oid) (si : setTypeIterator) (dstset : option robj)
    (cardinality : Z) : M (setTypeIterator * option robj * Z) :=
  match fuel with
  | O => fail
  | S fuel =>
      '(si, e) ← next_of first si;
      match e with
      | None => mret (si, dstset, cardinality)
      | Some e =>
          ok ← in_all first sets e;
          '(dstset, cardinality) ← (if ok : bool then take_element c e dstset cardinality else mret (dstset, cardinality));
          sinter_loop fuel c first sets si dstset cardinality
      end
  end.

(** The elements of [sets[0]] that are in all the other sets. *)
Definition inter_elements (c : Z) (sets : list oid) (dstset : option robj) : M (option robj * Z) :=
  first ← lift (head sets);
  n ← size_of first;
  si ← init_iterator first;
  '(si, dstset, cardinality) ← sinter_loop (S (Z.to_nat n)) c first (tail sets) si dstset 0;
  _ ← release_iterator first si;
  mret (dstset, cardinality).

Definition sinterGenericCommand (c : Z) (setkeys : list oid) (dstkey : option sds) : M unit :=
  db ← client_db c;
  sets ← sinter_sets c db dstkey setkeys [];
  match sets with
  | None => mret tt
  | Some sets =>
      l ← sizes_of (Some <$> sets);
      s ← get;
      sets ← lift (mapM snd (qsort (qsort_tie (conf s)) qsortCompareSetsByCardinality l));
      replylen ← (match dstkey with None => addDeferredMultiBulkLength c | Some _ => mret O end);
      let dstset := match dstkey with None => None | Some _ => Some (createIntsetObject (data_env (conf s))) end in
      '(dstset, cardinality) ← inter_elements c sets dstset;
      match dstkey, dstset with
      | Some dstkey, Some dstset => store_result c db dstkey dstset "sinterstore"
      | _, _ => setDeferredMultiBulkLength c replylen cardinality
      end
  end.

(** ** SUNION and SDIFF *)

Inductive set_op := SET_OP_UNION | SET_OP_DIFF.

Fixpoint sunion_sets (c db : Z) (dstkey : option sds) (setkeys : list oid) (sets : list (option oid)) : M (option (list (option oid))) :=
  match setkeys with
  | [] => mret (Some sets)
  | k :: setkeys =>
      key ← sds_of k;
      setobj ← lookup_set dstkey db key;
      match setobj with
      | None => sunion_sets c db dstkey setkeys (sets ++ [None])%list
      | Some o =>
          wrong ← checkType c o OBJ_SET;
          if wrong : bool then mret None else sunion_sets c db dstkey setkeys (sets ++ [Some o])%list
      end
  end.

(** The work of the two algorithms; [n0] is the size of [sets[0]]. *)
Fixpoint diff_work (n0 : Z) (l : list (Z * option oid)) (algo_one_work algo_two_work : Z) : M (Z * Z) :=
  match l with
  | [] => mret (algo_one_work, algo_two_work)
  | (_, None) :: l => diff_work n0 l algo_one_work algo_two_work
  | (n, Some _) :: l =>
      algo_one_work ← ll_arith (algo_one_work + n0);
      algo_two_work ← ll_arith (algo_two_work + n);
      diff_work n0 l algo_one_work algo_two_work
  end.

(** [diff_algo] and the sets, the ones to subtract ordered by decreasing size. *)
Definition choose_algo (first : oid) (sets : list (option oid)) : M (Z * list (option oid)) :=
  n0 ← size_of first;
  l ← sizes_of sets;
  '(algo_one_work, algo_two_work) ← diff_work n0 ((n0, Some first) :: l) 0 0;
  let algo_one_work := Z.quot algo_one_work 2 in
  let diff_algo := if algo_one_work <=? algo_two_work then 1 else 2 in
  s ← get;
  mret (diff_algo, if diff_algo =? 1 then (qsort (qsort_tie (conf s)) qsortCompareSetsByRevCardinality l).*2 else sets).

Abbreviation result := (robj * Z)%type.

(** [if (setTypeAdd(dstset,ele)) cardinality++], and the removal. *)
Definition add_count (ele : sds) (a : result) : M result :=
  '(dstset, b) ← add_result a.1 ele;
  cardinality ← (if b : bool then int_arith (a.2 + 1) else mret a.2);
  mret (dstset, cardinality).
Definition remove_count (ele : sds) (a : result) : M result :=
  '(dstset, b) ← remove_result a.1 ele;
  cardinality ← (if b : bool then int_arith (a.2 - 1) else mret a.2);
  mret (dstset, cardinality).

Fixpoint union_loop (sets : list (option oid)) (a : result) : M result :=
  match sets with
  | [] => mret a
  | None :: sets => union_loop sets a
  | Some o :: sets => a ← for_elements o add_count a; union_loop sets a
  end.

(** Whether no other set has the element; a set that is [sets[0]] has it. *)
Fixpoint in_none (first : oid) (sets : list (option oid)) (ele : sds) : M bool :=
  match sets with
  | [] => mret true
  | None :: sets => in_none first sets ele
  | Some o :: sets =>
      if bool_decide (o = first) then mret false
      else
        b ← is_member o ele;
        if b : bool then mret false else in_none first sets ele
  end.
Definition diff1_body (first : oid) (sets : list (option oid)) (ele : sds) (a : result) : M result :=
  b ← in_none first sets ele;
  if b : bool then
    '(dstset, _) ← add_result a.1 ele;
    cardinality ← int_arith (a.2 + 1);
    mret (dstset, cardinality)
  else mret a.

(** The sets after [sets[0]], whose elements were added. *)
Fixpoint diff2_loop (sets : list (option oid)) (a : result) : M result :=
  match sets with
  | [] => mret a
  | None :: sets => diff2_loop sets a
  | Some o :: sets =>
      a ← for_elements o remove_count a;
      if a.2 =? 0 then mret a else diff2_loop sets a
  end.

Definition set_operation (op : set_op) (sets : list (option oid)) (a : result) : M result :=
  match op, sets with
  | SET_OP_UNION, _ => union_loop sets a
  | SET_OP_DIFF, Some first :: rest =>
      '(diff_algo, rest) ← choose_algo first rest;
      if diff_algo =? 1 then for_elements first (diff1_body first rest) a
      else
        a ← for_elements first add_count a;
        if a.2 =? 0 then mret a else diff2_loop rest a
  | SET_OP_DIFF, _ => mret a
  end.

(** The elements of the result are sent. *)
Fixpoint send_elements (fuel : nat) (c : Z) (dstset : robj) (si : setTypeIterator) : M (robj * setTypeIterator) :=
  match fuel with
  | O => fail
  | S fuel =>
      s ← get;
      '(dstset, si, ele) ← lift (setTypeNextObject (data_env (conf s)) dstset si);
      match ele with
      | None => mret (dstset, si)
      | Some ele => _ ← addReplyBulkCBuffer c ele; send_elements fuel c dstset si
      end
  end.

Definition sunionDiffGenericCommand (c : Z) (setkeys : list oid) (dstkey : option sds) (op : set_op) : M unit :=
  db ← client_db c;
  sets ← sunion_sets c db dstkey setkeys [];
  match sets with
  | None => mret tt
  | Some sets =>
      s ← get;
      '(dstset, cardinality) ← set_operation op sets (createIntsetObject (data_env (conf s)), 0);
      match dstkey with
      | None =>
          _ ← addReplyMultiBulkLen c cardinality;
          n ← lift (setTypeSize (data_env (conf s)) dstset);
          si ← lift (setTypeInitIterator dstset);
          '(dstset, si) ← send_elements (S (Z.to_nat n)) c dstset si;
          _ ← lift (setTypeReleaseIterator (data_env (conf s)) dstset si);
          mret tt
      | Some dstkey =>
          store_result c db dstkey dstset (match op with SET_OP_UNION => "sunionstore" | SET_OP_DIFF => "sdiffstore" end)
      end
  end.

Definition read_op (f : list oid -> option sds -> M unit) (argv : list oid) : M (list oid) :=
  _ ← f (drop 1 argv) None; mret argv.
Definition store_op (f : list oid -> option sds -> M unit) (argv : list oid) : M (list oid) :=
  dstkey ← arg_sds argv 1; _ ← f (drop 2 argv) (Some dstkey); mret argv.

Definition sinterCommand (c : Z) : list oid -> M (list oid) := read_op (sinterGenericCommand c).
Definition sinterstoreCommand (c : Z) : list oid -> M (list oid) := store_op (sinterGenericCommand c).
Definition sunionCommand (c : Z) : list oid -> M (list oid) := read_op (fun keys dst => sunionDiffGenericCommand c keys dst SET_OP_UNION).
Definition sunionstoreCommand (c : Z) : list oid -> M (list oid) := store_op (fun keys dst => sunionDiffGenericCommand c keys dst SET_OP_UNION).
Definition sdiffCommand (c : Z) : list oid -> M (list oid) := read_op (fun keys dst => sunionDiffGenericCommand c keys dst SET_OP_DIFF).
Definition sdiffstoreCommand (c : Z) : list oid -> M (list oid) := store_op (fun keys dst => sunionDiffGenericCommand c keys dst SET_OP_DIFF).
