(* ===== verification/Rdb.v ===== *)
(** * The format of snapshots: lengths and strings (rdb.c, rdb.h)

    The functions that save write to a stream, or only count the bytes when the stream is [NULL],
    and return the number of bytes or -1; the functions that load read from a stream. The state of a
    saving function is the stream, or [None] for [NULL]; that of a function that creates objects
    is the stream and the store. [None] is also the exit of the process that
    [rdbExitReportCorruptRDB] performs. *)

From S2P Require Import Prelude Endian Util Sds SdsArgs SdsNum Crc Lzf Data State Rio Object.

Definition RDB_6BITLEN : Z := 0.
Definition RDB_14BITLEN : Z := 1.
Definition RDB_32BITLEN : Z := 0x80.
Definition RDB_64BITLEN : Z := 0x81.
Definition RDB_ENCVAL : Z := 3.
Definition RDB_LENERR : Z := 2 ^ 64 - 1.

Definition RDB_ENC_INT8 : Z := 0.
Definition RDB_ENC_INT16 : Z := 1.
Definition RDB_ENC_INT32 : Z := 2.
Definition RDB_ENC_LZF : Z := 3.

Definition RDB_LOAD_NONE : Z := 0.
Definition RDB_LOAD_ENC : Z := Z.shiftl 1 0.
Definition RDB_LOAD_PLAIN : Z := Z.shiftl 1 1.
Definition RDB_LOAD_SDS : Z := Z.shiftl 1 2.

(** [htonl] and [ntohl] of the C library. *)
Definition htonl `{Host} (v : Z) : Z := if big_endian then v else intrev32 v.
Definition ntohl `{Host} (v : Z) : Z := if big_endian then v else intrev32 v.

(** [strtoll(s,&endptr,10)] on the bytes of memory from [s] on: the value, saturated, and
    the index of [endptr]. *)
Fixpoint strtoll_digits (s : list Z) (acc : Z) (n : nat) : option (Z * nat) :=
  match s with
  | [] => None
  | c :: s => if (48 <=? c) && (c <=? 57) then strtoll_digits s (acc * 10 + (c - 48)) (S n) else Some (acc, n)
  end.
Fixpoint skip_spaces (s : list Z) : nat :=
  match s with
  | [] => O
  | c :: s => if isspace c then S (skip_spaces s) else O
  end.
Definition strtoll (s : list Z) : option (Z * Z) :=
  let i := skip_spaces s in
  c ← s !! i;
  let signed := (c =? 43) || (c =? 45) in
  let i := if signed then S i else i in
  '(v, n) ← strtoll_digits (drop i s) 0 O;
  if bool_decide (n = O) then Some (0, 0)
  else
    let v := if signed && (c =? 45) then - v else v in
    Some (Z.max LLONG_MIN (Z.min LLONG_MAX v), Z.of_nat (i + n)).

(** ** Saving *)

Section save.
Context {B : Type} `{!Backend B} (E : env).
#[local] Hint Extern 0 Host => exact (env_host E) : typeclass_instances.
Abbreviation W := (ST (option (rio B)) Z).

(** [server.rdb_compression], and what the table of the compressor holds, which is not initialised. *)
Context (rdb_compression : bool) (htab : Z -> Z).

(** [(rdb && rioWrite(rdb,p,len) == 0)], negated. *)
Definition put_raw (p : list Z) : ST (option (rio B)) bool := fun rdb =>
  match rdb with
  | None => Some (true, None)
  | Some r => '(ok, r) ← rioWrite r p; Some (ok, Some r)
  end.

(** The return type is [int]. *)
Definition rdbWriteRaw (p : list Z) : W :=
  ok ← put_raw p;
  if negb ok then mret (-1) else mret (wraps 32 (zlen p)).

(** [if ((n = m) == -1) return -1; ...]. *)
Definition or_error (m : W) (k : Z -> W) : W := n ← m; if n =? -1 then mret (-1) else k n.
Local Notation "n <~ m ;; k" := (or_error m (fun n => k)) (at level 100, m at next level, right associativity).

Definition rdbSaveType (type : Z) : W := rdbWriteRaw [type].

Definition rdbSaveMillisecondTime (t : Z) : W :=
  t64 ← lift (memrev64ifbe (host_bytes 8 t));
  rdbWriteRaw t64.

Definition rdbSaveLen (len : Z) : W :=
  if len <? Z.shiftl 1 6 then
    _ <~ rdbWriteRaw [Z.lor (Z.land len 0xFF) (Z.shiftl RDB_6BITLEN 6)];;
    mret 1
  else if len <? Z.shiftl 1 14 then
    _ <~ rdbWriteRaw [Z.lor (Z.land (Z.shiftr len 8) 0xFF) (Z.shiftl RDB_14BITLEN 6); Z.land len 0xFF];;
    mret 2
  else if len <=? 2 ^ 32 - 1 then
    _ <~ rdbWriteRaw [RDB_32BITLEN];;
    _ <~ rdbWriteRaw (host_bytes 4 (htonl len));;
    mret (1 + 4)
  else
    _ <~ rdbWriteRaw [RDB_64BITLEN];;
    _ <~ rdbWriteRaw (host_bytes 8 (htonu64 len));;
    mret (1 + 8).

(** The bytes of [enc] that are used; none for the return value 0. *)
Definition rdbEncodeInteger (value : Z) : list Z :=
  if (value >=? - Z.shiftl 1 7) && (value <=? Z.shiftl 1 7 - 1) then
    [Z.lor (Z.shiftl RDB_ENCVAL 6) RDB_ENC_INT8; Z.land value 0xFF]
  else if (value >=? - Z.shiftl 1 15) && (value <=? Z.shiftl 1 15 - 1) then
    [Z.lor (Z.shiftl RDB_ENCVAL 6) RDB_ENC_INT16; Z.land value 0xFF; Z.land (Z.shiftr value 8) 0xFF]
  else if (value >=? - Z.shiftl 1 31) && (value <=? Z.shiftl 1 31 - 1) then
    [Z.lor (Z.shiftl RDB_ENCVAL 6) RDB_ENC_INT32; Z.land value 0xFF; Z.land (Z.shiftr value 8) 0xFF;
     Z.land (Z.shiftr value 16) 0xFF; Z.land (Z.shiftr value 24) 0xFF]
  else [].

(** [s] is the memory from the pointer on: a string with its terminator, or a block. *)
Definition rdbTryIntegerEncoding (s : list Z) (len : Z) : option (list Z) :=
  '(value, endptr) ← strtoll s;
  c ← zidx s endptr;
  if negb (c =? 0) then Some []
  else
    buf ← ll_bytes value;
    if negb (zlen buf =? len) || negb (memcmp (Z.to_nat len) buf s =? 0) then Some []
    else Some (rdbEncodeInteger value).

Definition rdbSaveLzfBlob (data : list Z) (original_len : Z) : W :=
  n1 <~ rdbWriteRaw [Z.lor (Z.shiftl RDB_ENCVAL 6) RDB_ENC_LZF];;
  n2 <~ rdbSaveLen (zlen data);;
  n3 <~ rdbSaveLen original_len;;
  n4 <~ rdbWriteRaw data;;
  mret (n1 + n2 + n3 + n4).

(** The block of [outlen+1] bytes has [outlen] for the compressor. *)
Definition rdbSaveLzfStringObject (s : list Z) : W :=
  let len := zlen s in
  if len <=? 4 then mret 0
  else
    let out := realloc (new_bytes E) [] (len - 4) in
    comprlen ← lift (lzf_compress htab s out);
    match comprlen with
    | None => mret 0
    | Some (comprlen, out) => rdbSaveLzfBlob (take (Z.to_nat comprlen) out) len
    end.

Definition rdbSaveRawString (s : list Z) (len : Z) : W :=
  enc ← (if len <=? 11 then lift (rdbTryIntegerEncoding s len) else mret []);
  if negb (bool_decide (enc = [])) then
    _ <~ rdbWriteRaw enc;;
    mret (zlen enc)
  else
    data ← lift (rd s 0 len);
    n ← (if rdb_compression && (len >? 20) then rdbSaveLzfStringObject data else mret 0);
    if n =? -1 then mret (-1)
    else if n >? 0 then mret n
    else
      n <~ rdbSaveLen len;;
      if len >? 0 then
        _ <~ rdbWriteRaw data;;
        mret (n + len)
      else mret n.

(** A string is followed by a zero byte. *)
Definition rdbSaveSds (s : sds) : W := rdbSaveRawString (s ++ [0]) (zlen s).

Definition rdbSaveLongLongAsStringObject (value : Z) : W :=
  let enc := rdbEncodeInteger value in
  if negb (bool_decide (enc = [])) then rdbWriteRaw enc
  else
    buf ← lift (ll_bytes value);
    _ ← assert_that (zlen buf <? 32);
    n1 <~ rdbSaveLen (zlen buf);;
    n2 <~ rdbWriteRaw buf;;
    mret (n1 + n2).

Definition rdbSaveStringObject (obj : robj) : W :=
  if bool_decide (encoding obj = OBJ_ENCODING_INT) then
    v ← lift (as_long obj); rdbSaveLongLongAsStringObject v
  else
    _ ← assert_that (sdsEncodedObject obj);
    s ← lift (as_sds obj);
    rdbSaveSds s.
End save.

(** ** Loading *)

Section load.
Context {B : Type} `{!Backend B} (E : env).
#[local] Hint Extern 0 Host => exact (env_host E) : typeclass_instances.
Abbreviation R := (ST (rio B)).

(** [if (m == 0) return e; ...], for a read and for the functions below. *)
Definition or_null {S A C} (m : ST S (option A)) (e : C) (k : A -> ST S C) : ST S C :=
  a ← m; match a with None => mret e | Some a => k a end.

(** [rdbLoadRaw] exits when the bytes are not there. *)
Definition rdbLoadRaw (len : Z) : R (list Z) :=
  buf ← rioRead len; lift buf.

(** [None] is the return value -1. *)
Definition rdbLoadType : R (option Z) :=
  or_null (rioRead 1) None (fun buf => type ← lift (zidx buf 0); mret (Some type)).

Definition rdbLoadTime : R Z :=
  t32 ← rdbLoadRaw 4; mret (wraps 32 (host_uint t32)).

Definition rdbLoadMillisecondTime (rdbver : Z) : R Z :=
  t64 ← rdbLoadRaw 8;
  t64 ← (if rdbver >=? 9 then lift (memrev64ifbe t64) else mret t64);
  mret (wraps 64 (host_uint t64)).

(** [*isencoded] and [*lenptr]; [None] is the return value -1. *)
Definition rdbLoadLenByRef : R (option (bool * Z)) :=
  or_null (rioRead 1) None (fun buf =>
    b0 ← lift (zidx buf 0);
    let type := Z.shiftr (Z.land b0 0xC0) 6 in
    if type =? RDB_ENCVAL then mret (Some (true, Z.land b0 0x3F))
    else if type =? RDB_6BITLEN then mret (Some (false, Z.land b0 0x3F))
    else if type =? RDB_14BITLEN then
      or_null (rioRead 1) None (fun buf =>
        b1 ← lift (zidx buf 0);
        mret (Some (false, Z.lor (Z.shiftl (Z.land b0 0x3F) 8) b1)))
    else if b0 =? RDB_32BITLEN then
      or_null (rioRead 4) None (fun len => mret (Some (false, ntohl (host_uint len))))
    else if b0 =? RDB_64BITLEN then
      or_null (rioRead 8) None (fun len => mret (Some (false, ntohu64 (host_uint len))))
    else fail).

(** The length and [*isencoded], which is 0 in case of an error. *)
Definition rdbLoadLen : R (Z * bool) :=
  l ← rdbLoadLenByRef;
  mret (match l with None => (RDB_LENERR, false) | Some (isencoded, len) => (len, isencoded) end).

(** [if ((len = rdbLoadLen(rdb,NULL)) == RDB_LENERR) return NULL]: the length or [None]. *)
Definition loaded_len : R (option Z) :=
  '(len, _) ← rdbLoadLen; mret (if len =? RDB_LENERR then None else Some len).

(** What the pointer that is returned refers to: a block, a string or an object. *)
Inductive loaded := LPlain (buf : list Z) | LSds (s : sds) | LObj (o : oid).

Abbreviation L := (ST (rio B * store)).
Definition in_rio {A} (m : R A) : L A := zoom fst (fun r s => (r, snd s)) m.
Definition in_heap {A} (m : ST store A) : L A := zoom snd (fun t s => (fst s, t)) m.

(** [share] is the condition on shared integers of [createStringObjectFromLongLongForValue]. *)
Context (share : bool).

Definition has (flags f : Z) : bool := negb (Z.land flags f =? 0).

(** [plain ? zmalloc(len) : sdsnewlen(SDS_NOINIT,len)]: the sum of the sizes of the largest header, of
    the string and of its terminator is one of [size_t]. *)
Definition new_string (len : Z) : L (list Z) :=
  _ ← assert_that (len + 18 <? 2 ^ 64);
  mret (realloc (new_bytes E) [] len).

Definition as_loaded (flags : Z) (s : list Z) : loaded :=
  if has flags RDB_LOAD_PLAIN then LPlain s else LSds s.

(** The value that [rdbLoadIntegerObject] reads. The shift of the fourth byte into the sign of an [int] is
    taken as that of its representation. *)
Definition read_integer (enctype : Z) : R (option Z) :=
  if enctype =? RDB_ENC_INT8 then
    or_null (rioRead 1) None (fun enc => b0 ← lift (zidx enc 0); mret (Some (wraps 8 b0)))
  else if enctype =? RDB_ENC_INT16 then
    or_null (rioRead 2) None (fun enc =>
      b0 ← lift (zidx enc 0); b1 ← lift (zidx enc 1);
      mret (Some (wraps 16 (wrapu 16 (Z.lor b0 (Z.shiftl b1 8))))))
  else if enctype =? RDB_ENC_INT32 then
    or_null (rioRead 4) None (fun enc =>
      b0 ← lift (zidx enc 0); b1 ← lift (zidx enc 1); b2 ← lift (zidx enc 2); b3 ← lift (zidx enc 3);
      mret (Some (wraps 32 (wrapu 32
        (Z.lor (Z.lor (Z.lor b0 (Z.shiftl b1 8)) (Z.shiftl b2 16)) (Z.shiftl b3 24))))))
  else fail.

Definition rdbLoadIntegerObject (enctype flags : Z) : L (option loaded) :=
  let plain := has flags RDB_LOAD_PLAIN in
  let sds := has flags RDB_LOAD_SDS in
  let encode := has flags RDB_LOAD_ENC in
  or_null (in_rio (read_integer enctype)) None (fun val =>
    if plain || sds then
      p ← lift (ll_bytes val);
      mret (Some (as_loaded flags p))
    else if encode then
      o ← in_heap (createStringObjectFromLongLongForValue share val); mret (Some (LObj o))
    else
      s ← lift (sdsfromlonglong val);
      o ← in_heap (createObject OBJ_STRING (PSds s)); mret (Some (LObj o))).

Definition rdbLoadLzfStringObject (flags : Z) : L (option loaded) :=
  let plain := has flags RDB_LOAD_PLAIN in
  let sds := has flags RDB_LOAD_SDS in
  or_null (in_rio loaded_len) None (fun clen =>
  or_null (in_rio loaded_len) None (fun len =>
  val ← new_string len;
  or_null (in_rio (rioRead clen)) None (fun c =>
  r ← lift (lzf_decompress c val);
  match r with
  | inl _ => mret None
  | inr (n, val) =>
      if n =? 0 then mret None
      else if plain || sds then mret (Some (as_loaded flags val))
      else o ← in_heap (createObject OBJ_STRING (PSds val)); mret (Some (LObj o))
  end))).

Definition rdbGenericLoadStringObject (flags : Z) : L (option loaded) :=
  let encode := has flags RDB_LOAD_ENC in
  let plain := has flags RDB_LOAD_PLAIN in
  let sds := has flags RDB_LOAD_SDS in
  '(len, isencoded) ← in_rio rdbLoadLen;
  if isencoded : bool then
    if (len =? RDB_ENC_INT8) || (len =? RDB_ENC_INT16) || (len =? RDB_ENC_INT32) then rdbLoadIntegerObject len flags
    else if len =? RDB_ENC_LZF then rdbLoadLzfStringObject flags
    else fail
  else if len =? RDB_LENERR then mret None
  else
    _ ← new_string len;
    or_null (in_rio (rioRead len)) None (fun buf =>
    if plain || sds then mret (Some (as_loaded flags buf))
    else
      o ← in_heap (if encode then createStringObject buf else createRawStringObject buf);
      mret (Some (LObj o))).

Definition as_object (l : loaded) : L oid := match l with LObj o => mret o | _ => fail end.
Definition as_string (l : loaded) : L Sds.sds := match l with LSds s => mret s | _ => fail end.
Definition as_block (l : loaded) : L (list Z) := match l with LPlain s => mret s | _ => fail end.

Definition rdbLoadStringObject : L (option oid) :=
  or_null (rdbGenericLoadStringObject RDB_LOAD_NONE) None (fun l => o ← as_object l; mret (Some o)).
Definition rdbLoadEncodedStringObject : L (option oid) :=
  or_null (rdbGenericLoadStringObject RDB_LOAD_ENC) None (fun l => o ← as_object l; mret (Some o)).
End load.
