(* ===== verification/RdbSpec.v ===== *)
(** * What is saved is loaded: lengths and strings (rdb.c)

    [writes cs n m] states all that a saving function [m] does: it writes the pieces [cs] in order to
    the stream, whatever its backend is, returns -1 as soon as a write fails and [n] else. [loads x v m]
    states that [m] returns [v] after reading exactly the bytes [x]. The theorems connect the two:
    the bytes a function writes are those its counterpart reads. *)

From S2P Require Import Prelude Endian Util Sds SdsArgs SdsNum Crc Lzf LzfSpec Data State Rio Object Rdb.

(** ** What a saving function writes *)

Section writes.
Context {B : Type} `{!Backend B}.
Abbreviation W := (ST (option (rio B)) Z).

Fixpoint put_all (cs : list (list Z)) (n : Z) : W :=
  match cs with
  | [] => mret n
  | c :: cs => ok ← put_raw c; if negb ok then mret (-1) else put_all cs n
  end.

Definition writes (cs : list (list Z)) (n : Z) (m : W) : Prop := forall rdb, m rdb = put_all cs n rdb.

(** The function writes the bytes [bs] and returns their number. *)
Definition saves (bs : list Z) (m : W) : Prop := exists cs, concat cs = bs /\ writes cs (zlen bs) m.

Lemma writes_ret n : writes [] n (mret n).
Proof. done. Qed.

Lemma put_all_then cs : forall n cs' n' k rdb, n <> -1 -> writes cs' n' (k n) ->
  or_error (put_all cs n) k rdb = put_all (cs ++ cs') n' rdb.
Proof.
  induction cs as [|c cs IH]; intros n cs' n' k rdb Hn Hk.
  - unfold or_error. cbn [put_all app]. rewrite (bind_run _ _ _ _ _ (ret_run n rdb)). cbv beta.
    rewrite (proj2 (Z.eqb_neq _ _) Hn). apply Hk.
  - unfold or_error. cbn [put_all app]. rewrite bind_assoc_run. unfold mbind at 1 3, ST_bind.
    destruct (put_raw c rdb) as [[ok r]|]; [|done]. destruct ok; cbn [negb]; [|done]. exact (IH n cs' n' k r Hn Hk).
Qed.

Lemma writes_then cs n cs' n' m k : writes cs n m -> n <> -1 -> writes cs' n' (k n) -> writes (cs ++ cs') n' (or_error m k).
Proof.
  intros Hm Hn Hk rdb. rewrite <- (put_all_then cs n cs' n' k rdb Hn Hk). unfold or_error, mbind, ST_bind. by rewrite Hm.
Qed.

Lemma writes_raw p : zlen p < 2 ^ 31 -> writes [p] (zlen p) (rdbWriteRaw p).
Proof.
  intros Hp rdb. unfold rdbWriteRaw. cbn [put_all]. pose proof (zlen_nonneg p). by rewrite wraps_small by (unfold in_s; lia).
Qed.

Lemma saves_raw p : zlen p < 2 ^ 31 -> saves p (rdbWriteRaw p).
Proof. intros Hp. exists [p]. cbn. rewrite app_nil_r. split; [done|]. by apply writes_raw. Qed.

(** A sequence whose last function returns the sum. *)
Lemma saves_then x m k y n : saves x m -> (exists cs, concat cs = y /\ writes cs n (k (zlen x))) -> n = zlen x + zlen y -> saves (x ++ y) (or_error m k).
Proof.
  intros (cs & <- & H1) (cs' & <- & H2) ->. exists (cs ++ cs'). rewrite concat_app, zlen_app. split; [done|].
  eapply writes_then; [exact H1| |exact H2]. pose proof (zlen_nonneg (concat cs)). lia.
Qed.

Lemma writes_eq cs n m m' : (forall rdb, m rdb = m' rdb) -> writes cs n m' -> writes cs n m.
Proof. intros H1 H2 rdb. by rewrite H1. Qed.
Lemma saves_eq bs m m' : (forall rdb, m rdb = m' rdb) -> saves bs m' -> saves bs m.
Proof. intros H1 (cs & Hc & H2). exists cs. split; [done|]. by eapply writes_eq. Qed.

(** Without a stream the function only counts. *)
Lemma saves_counts bs m : saves bs m -> m None = Some (zlen bs, None).
Proof.
  intros (cs & _ & H). rewrite H. clear H. generalize (zlen bs). intros n. induction cs as [|c cs IH]; [done|]. exact IH.
Qed.
End writes.

(** On a buffer the bytes are appended. *)
Lemma saves_buffer bs (m : ST (option (rio rioBuffer)) Z) (r : rio rioBuffer) : saves bs m -> bytes_ok bs -> rio_ok r ->
  exists r', m (Some r) = Some (zlen bs, Some r') /\ rio_ok r' /\ passed r bs r' /\
    io r' = RioBuffer (b_ptr (io r) ++ bs) (b_pos (io r) + zlen bs).
Proof.
  intros (cs & <- & H) Hb Hr. rewrite H. clear H. generalize (zlen (concat cs)) at 1 2. intros n. revert r Hb Hr. induction cs as [|c cs IH]; intros r Hb Hr.
  - exists r. cbn. rewrite app_nil_r, zlen_nil, Z.add_0_r. split_and!; [done|done|by apply passed_nil|by destruct (io r)].
  - cbn [concat] in Hb |- *. apply Forall_app in Hb as [Hc Hb].
    destruct (rioWrite_buffer r c Hr Hc) as (r1 & E1 & O1 & P1 & I1).
    destruct (IH r1 Hb O1) as (r2 & E2 & O2 & P2 & I2). exists r2. split.
    + cbn [put_all]. rewrite (bind_run _ _ _ true (Some r1)); [exact E2|]. cbn. by rewrite E1.
    + split; [done|]. split; [by eapply passed_trans|]. rewrite I2, I1. cbn. by rewrite zlen_app, <- app_assoc, Z.add_assoc.
Qed.

(** ** What a loading function reads *)

Section loads.
Context {B : Type} `{Source B}.

Definition loads {A} (x : list Z) (v : A) (m : ST (rio B) A) : Prop := forall r y, ready r (x ++ y) ->
  exists r', m r = Some (v, r') /\ ready r' y /\ passed r x r'.

Lemma loads_ret {A} (v : A) : loads [] v (mret v).
Proof. intros r y Hr. exists r. split; [done|]. split; [done|]. apply passed_nil, Hr. Qed.

Lemma loads_bind {A C} x y (a : A) (c : C) m k : loads x a m -> loads y c (k a) -> loads (x ++ y) c (m ≫= k).
Proof.
  intros Hm Hk r z Hr. rewrite <- app_assoc in Hr. destruct (Hm r _ Hr) as (r1 & E1 & R1 & P1).
  destruct (Hk r1 z R1) as (r2 & E2 & R2 & P2). exists r2. rewrite (bind_run _ _ _ _ _ E1). split; [done|]. split; [done|].
  by eapply passed_trans.
Qed.

Lemma loads_map {A C} x (a : A) (c : C) m k : loads x a m -> loads [] c (k a) -> loads x c (m ≫= k).
Proof. intros Hm Hk. rewrite <- (app_nil_r x). by eapply loads_bind. Qed.

Lemma loads_read x : bytes_ok x -> loads x (Some x) (rioRead (zlen x)).
Proof. intros Hx r y Hr. by apply rioRead_ok. Qed.

Lemma loads_read_n x n : bytes_ok x -> zlen x = n -> loads x (Some x) (rioRead n).
Proof. intros Hx <-. by apply loads_read. Qed.

Lemma loads_or_null {A C} x y (a : A) (c e : C) m k : loads x (Some a) m -> loads y c (k a) -> loads (x ++ y) c (or_null m e k).
Proof. intros Hm Hk. by eapply loads_bind. Qed.

(** The same with the store. *)
Definition loads_obj {A} (x : list Z) (t : store) (v : A) (t' : store) (m : ST (rio B * store) A) : Prop := forall r y, ready r (x ++ y) ->
  exists r', m (r, t) = Some (v, (r', t')) /\ ready r' y /\ passed r x r'.

Lemma loads_in_rio {A} x (v : A) m t : loads x v m -> loads_obj x t v t (in_rio m).
Proof. intros Hm r y Hr. destruct (Hm r y Hr) as (r' & E & H1 & H2). exists r'. split; [|done]. unfold in_rio, zoom. cbn. by rewrite E. Qed.

Lemma loads_in_heap {A} (v : A) m t t' : m t = Some (v, t') -> loads_obj [] t v t' (in_heap m).
Proof. intros Hm r y Hr. exists r. unfold in_heap, zoom. cbn. rewrite Hm. split; [done|]. split; [done|]. apply passed_nil, Hr. Qed.

Lemma loads_obj_ret {A} (v : A) t : loads_obj [] t v t (mret v).
Proof. intros r y Hr. exists r. split; [done|]. split; [done|]. apply passed_nil, Hr. Qed.

Lemma loads_obj_bind {A C} x y t1 t2 t3 (a : A) (c : C) m k :
  loads_obj x t1 a t2 m -> loads_obj y t2 c t3 (k a) -> loads_obj (x ++ y) t1 c t3 (m ≫= k).
Proof.
  intros Hm Hk r z Hr. rewrite <- app_assoc in Hr. destruct (Hm r _ Hr) as (r1 & E1 & R1 & P1).
  destruct (Hk r1 z R1) as (r2 & E2 & R2 & P2). exists r2. rewrite (bind_run _ _ _ _ _ E1). split; [done|]. split; [done|].
  by eapply passed_trans.
Qed.

Lemma loads_obj_map {A C} x t1 t2 t3 (a : A) (c : C) m k :
  loads_obj x t1 a t2 m -> loads_obj [] t2 c t3 (k a) -> loads_obj x t1 c t3 (m ≫= k).
Proof. intros Hm Hk. rewrite <- (app_nil_r x). by eapply loads_obj_bind. Qed.

Lemma loads_obj_lift {A} (v : A) o t : o = Some v -> loads_obj [] t v t (lift o).
Proof. intros ->. apply loads_obj_ret. Qed.

Lemma loads_obj_step {A C} x t t' (v : A) (c : C) o k : o = Some v -> loads_obj x t c t' (k v) -> loads_obj x t c t' (lift o ≫= k).
Proof. by intros ->. Qed.
End loads.

(** ** Lengths *)

(** The bytes of a number in network order. *)
Definition be_bytes (n : nat) (v : Z) : list Z := reverse (le_encode n v).

Lemma be_bytes_ok n v : bytes_ok (be_bytes n v).
Proof. unfold be_bytes. rewrite Forall_reverse. auto with redis. Qed.
Lemma zlen_be_bytes n v : zlen (be_bytes n v) = Z.of_nat n.
Proof. unfold be_bytes, zlen. by rewrite length_reverse, length_le_encode. Qed.

(** The format of a length. *)
Definition len_bytes (len : Z) : list Z :=
  if len <? 2 ^ 6 then [len]
  else if len <? 2 ^ 14 then [2 ^ 6 + len / 2 ^ 8; len mod 2 ^ 8]
  else if len <? 2 ^ 32 then RDB_32BITLEN :: be_bytes 4 len
  else RDB_64BITLEN :: be_bytes 8 len.

Section lengths.
Context {B : Type} `{Source B} (E : env).
#[local] Hint Extern 0 Host => exact (env_host E) : typeclass_instances.

Lemma host_bytes_htonl v : host_bytes 4 (htonl v) = be_bytes 4 v.
Proof.
  unfold htonl, host_bytes, be_bytes. destruct big_endian; [done|]. rewrite intrev32_eq.
  set (bs := reverse (le_encode 4 v)). change 4%nat with (length bs) at 1. apply le_encode_decode.
  unfold bs. rewrite Forall_reverse. auto with redis.
Qed.
Lemma host_bytes_htonu64 v : host_bytes 8 (htonu64 v) = be_bytes 8 v.
Proof.
  unfold htonu64, host_bytes, be_bytes. destruct big_endian; [done|]. rewrite intrev64_eq.
  set (bs := reverse (le_encode 8 v)). change 8%nat with (length bs) at 1. apply le_encode_decode.
  unfold bs. rewrite Forall_reverse. auto with redis.
Qed.

Lemma ntohl_be v : in_u 32 v -> ntohl (host_uint (be_bytes 4 v)) = v.
Proof.
  intros Hv. unfold ntohl, host_uint, be_bytes. destruct big_endian.
  - rewrite reverse_involutive, le_decode_encode. by apply Z.mod_small.
  - rewrite intrev32_eq. by apply rev_decode_involutive.
Qed.
Lemma ntohu64_be v : in_u 64 v -> ntohu64 (host_uint (be_bytes 8 v)) = v.
Proof.
  intros Hv. unfold ntohu64, host_uint, be_bytes. destruct big_endian.
  - rewrite reverse_involutive, le_decode_encode. by apply Z.mod_small.
  - rewrite intrev64_eq. by apply rev_decode_involutive.
Qed.

Lemma len_bytes_ok len : 0 <= len -> bytes_ok (len_bytes len).
Proof.
  intros Hl. unfold len_bytes. repeat case_if.
  - apply Forall_singleton. unfold byte_ok. lia.
  - pose proof (Z.div_lt_upper_bound len (2 ^ 8) (2 ^ 6) ltac:(lia) ltac:(lia)). pose proof (Z.div_pos len (2 ^ 8) ltac:(lia) ltac:(lia)).
    pose proof (Z.mod_pos_bound len (2 ^ 8) ltac:(lia)). repeat constructor; unfold byte_ok; lia.
  - constructor; [by unfold byte_ok|apply be_bytes_ok].
  - constructor; [by unfold byte_ok|apply be_bytes_ok].
Qed.

Lemma zlen_len_bytes len : 1 <= zlen (len_bytes len) <= 9.
Proof. unfold len_bytes. repeat case_if; rewrite !zlen_cons, ?zlen_nil, ?zlen_be_bytes; lia. Qed.

Lemma saves_len len : in_u 64 len -> saves (len_bytes len) (rdbSaveLen (B := B) E len).
Proof.
  intros Hl. unfold in_u in Hl. unfold rdbSaveLen, len_bytes. change (Z.shiftl 1 6) with (2 ^ 6). change (Z.shiftl 1 14) with (2 ^ 14).
  destruct (Z.ltb_spec len (2 ^ 6)) as [H6|H6].
  { assert (Z.lor (Z.land len 255) (Z.shiftl RDB_6BITLEN 6) = len) as ->.
    { change (Z.shiftl RDB_6BITLEN 6) with 0. rewrite Z.lor_0_r, land_255. apply Z.mod_small. lia. }
    rewrite <- (app_nil_r [len]) at 1. eapply saves_then; [by apply saves_raw|by exists []|done]. }
  destruct (Z.ltb_spec len (2 ^ 14)) as [H14|H14].
  { assert (Z.lor (Z.land (Z.shiftr len 8) 255) (Z.shiftl RDB_14BITLEN 6) = 2 ^ 6 + len / 2 ^ 8) as ->.
    { rewrite land_255, Z.shiftr_div_pow2 by lia. pose proof (Z.div_lt_upper_bound len (2 ^ 8) (2 ^ 6) ltac:(lia) ltac:(lia)). pose proof (Z.div_pos len (2 ^ 8) ltac:(lia) ltac:(lia)).
      rewrite Z.mod_small by lia. change (Z.shiftl RDB_14BITLEN 6) with (Z.shiftl 1 6). rewrite Z.lor_comm, lor_shift by (unfold in_u; lia). lia. }
    rewrite land_255. rewrite <- (app_nil_r [_; _]) at 1. eapply saves_then; [by apply saves_raw|by exists []|done]. }
  destruct (Z.leb_spec len (2 ^ 32 - 1)) as [H32|H32]; [rewrite (proj2 (Z.ltb_lt len (2 ^ 32))) by lia|rewrite (proj2 (Z.ltb_ge len (2 ^ 32))) by lia].
  - rewrite host_bytes_htonl. change (RDB_32BITLEN :: be_bytes 4 len) with ([RDB_32BITLEN] ++ be_bytes 4 len).
    eapply saves_then; [by apply saves_raw| |]; [exists [be_bytes 4 len]; cbn [concat]; rewrite app_nil_r; split; [done|]|rewrite zlen_be_bytes; done].
    rewrite <- (app_nil_r [_]). eapply writes_then; [by apply writes_raw; rewrite zlen_be_bytes|rewrite zlen_be_bytes; lia|done].
  - rewrite host_bytes_htonu64. change (RDB_64BITLEN :: be_bytes 8 len) with ([RDB_64BITLEN] ++ be_bytes 8 len).
    eapply saves_then; [by apply saves_raw| |]; [exists [be_bytes 8 len]; cbn [concat]; rewrite app_nil_r; split; [done|]|rewrite zlen_be_bytes; done].
    rewrite <- (app_nil_r [_]). eapply writes_then; [by apply writes_raw; rewrite zlen_be_bytes|rewrite zlen_be_bytes; lia|done].
Qed.

(** The first byte decides which case of [rdbLoadLenByRef] is taken. *)
Lemma loads_first b0 y v k : byte_ok b0 -> loads y v (k b0) ->
  loads (b0 :: y) v (or_null (rioRead 1) None (fun buf => b ← lift (zidx buf 0); k b) : ST (rio B) (option (bool * Z))).
Proof.
  intros Hb Hk. change (b0 :: y) with ([b0] ++ y). eapply loads_or_null; [apply (loads_read [b0]); by constructor|].
  exact Hk.
Qed.

Lemma loads_len_ref len : in_u 64 len -> loads (B := B) (len_bytes len) (Some (false, len)) (rdbLoadLenByRef E).
Proof.
  intros Hl. unfold in_u in Hl. pose proof (len_bytes_ok len ltac:(lia)) as Hok. unfold rdbLoadLenByRef. unfold len_bytes in *.
  destruct (Z.ltb_spec len (2 ^ 6)) as [H6|H6].
  { apply loads_first; [by inversion Hok|]. cbv beta.
    assert (Z.shiftr (Z.land len 192) 6 = 0) as ->.
    { apply Z.eqb_eq. pose proof (byte_check (fun len => (2 ^ 6 <=? len) || (Z.shiftr (Z.land len 192) 6 =? 0)) len ltac:(vm_compute; done) ltac:(unfold in_u; lia)) as X.
      cbv beta in X. rewrite (proj2 (Z.leb_gt _ _)) in X by lia. done. }
    assert (Z.land len 63 = len) as -> by (change 63 with (Z.ones 6); rewrite Z.land_ones, Z.mod_small by lia; done).
    apply loads_ret. }
  destruct (Z.ltb_spec len (2 ^ 14)) as [H14|H14].
  { pose proof (Z.div_lt_upper_bound len (2 ^ 8) (2 ^ 6) ltac:(lia) ltac:(lia)). pose proof (Z.div_pos len (2 ^ 8) ltac:(lia) ltac:(lia)). pose proof (Z.mod_pos_bound len (2 ^ 8) ltac:(lia)).
    inversion Hok as [|? ? Hb0 Hb1]; subst. apply loads_first; [done|]. cbv beta.
    set (h := len / 2 ^ 8) in *. assert (0 <= h < 64) as Hh by lia.
    assert (Z.shiftr (Z.land (2 ^ 6 + h) 192) 6 = 1) as ->.
    { apply Z.eqb_eq. pose proof (byte_check (fun h => (2 ^ 6 <=? h) || (Z.shiftr (Z.land (2 ^ 6 + h) 192) 6 =? 1)) h ltac:(vm_compute; done) ltac:(unfold in_u; lia)) as X.
      cbv beta in X. rewrite (proj2 (Z.leb_gt _ _)) in X by lia. done. }
    assert (Z.land (2 ^ 6 + h) 63 = h) as ->.
    { change 63 with (Z.ones 6). rewrite Z.land_ones by lia. change (2 ^ 6) with (1 * 2 ^ 6) at 1. rewrite Z.add_comm, Z_mod_plus_full. apply Z.mod_small. lia. }
    cbn [Z.eqb]. rewrite <- (app_nil_r [len mod 2 ^ 8]). eapply loads_or_null; [by apply loads_read_n|]. cbv beta.
    apply (loads_map [] (len mod 2 ^ 8)); [apply loads_ret|]. cbv beta. rewrite lor_shift by (unfold in_u; lia).
    replace (h * 2 ^ 8 + len mod 2 ^ 8) with len; [apply loads_ret|]. unfold h. pose proof (Z.div_mod len (2 ^ 8)). lia. }
  destruct (Z.ltb_spec len (2 ^ 32)) as [H32|H32].
  - apply loads_first; [by inversion Hok|]. cbv beta. change (Z.shiftr (Z.land RDB_32BITLEN 192) 6) with 2. cbn [Z.eqb Pos.eqb RDB_ENCVAL RDB_6BITLEN RDB_14BITLEN].
    rewrite Z.eqb_refl. rewrite <- (app_nil_r (be_bytes 4 len)). eapply loads_or_null; [apply loads_read_n; [apply be_bytes_ok|by rewrite zlen_be_bytes]|].
    cbv beta. rewrite ntohl_be by (unfold in_u; lia). apply loads_ret.
  - apply loads_first; [by inversion Hok|]. cbv beta. change (Z.shiftr (Z.land RDB_64BITLEN 192) 6) with 2. cbn [Z.eqb Pos.eqb RDB_ENCVAL RDB_6BITLEN RDB_14BITLEN].
    change (RDB_64BITLEN =? RDB_32BITLEN) with false. rewrite Z.eqb_refl. rewrite <- (app_nil_r (be_bytes 8 len)).
    eapply loads_or_null; [apply loads_read_n; [apply be_bytes_ok|by rewrite zlen_be_bytes]|].
    cbv beta. rewrite ntohu64_be by (unfold in_u; lia). apply loads_ret.
Qed.

Lemma loads_len len : in_u 64 len -> loads (B := B) (len_bytes len) (len, false) (rdbLoadLen E).
Proof. intros Hl. eapply loads_map; [by apply loads_len_ref|]. apply loads_ret. Qed.

Lemma loads_loaded_len len : in_u 64 len -> len <> RDB_LENERR -> loads (B := B) (len_bytes len) (Some len) (loaded_len E).
Proof.
  intros Hl Hne. eapply loads_map; [by apply loads_len|]. cbv beta iota. rewrite (proj2 (Z.eqb_neq _ _) Hne). apply loads_ret.
Qed.
End lengths.

(** ** Integers *)

Lemma shiftr_byte_mod v n : 0 <= n -> Z.land (Z.shiftr v n) 0xFF = (v / 2 ^ n) mod 256.
Proof. intros Hn. by rewrite land_255, Z.shiftr_div_pow2. Qed.

(** The format of a string that is a small integer: the kind and the little-endian bytes. *)
Inductive int_code (v : Z) : Z -> nat -> Prop :=
| int_code8 : in_s 8 v -> int_code v RDB_ENC_INT8 1
| int_code16 : in_s 16 v -> int_code v RDB_ENC_INT16 2
| int_code32 : in_s 32 v -> int_code v RDB_ENC_INT32 4.

Lemma encode_integer v : (in_s 32 v -> exists t k, int_code v t k /\ rdbEncodeInteger v = (0xC0 + t) :: le_encode k v) /\
  (rdbEncodeInteger v <> [] -> in_s 32 v).
Proof.
  unfold rdbEncodeInteger. change (Z.shiftl 1 7) with (2 ^ 7). change (Z.shiftl 1 15) with (2 ^ 15). change (Z.shiftl 1 31) with (2 ^ 31).
  rewrite !Z.geb_leb. split; [intros Hv|].
  - unfold in_s in Hv. repeat case_if; zbool.
    + exists RDB_ENC_INT8, 1%nat. split; [constructor; unfold in_s; lia|]. cbn [le_encode]. by rewrite land_255.
    + exists RDB_ENC_INT16, 2%nat. split; [constructor; unfold in_s; lia|]. cbn [le_encode]. by rewrite land_255, shiftr_byte_mod.
    + exists RDB_ENC_INT32, 4%nat. split; [by constructor|]. cbn [le_encode]. rewrite land_255, !shiftr_byte_mod by lia.
      rewrite !Z.div_div by lia. done.
    + exfalso. rewrite !andb_false_iff, !Z.leb_gt in *. lia.
  - repeat case_if; intros Hne; try done; zbool; unfold in_s; lia.
Qed.

Lemma encode_integer_out v : ~ in_s 32 v -> rdbEncodeInteger v = [].
Proof.
  intros Hv. destruct (rdbEncodeInteger v) as [|b l] eqn:Ev; [done|]. exfalso. apply Hv, (proj2 (encode_integer v)). by rewrite Ev.
Qed.

Lemma encode_integer_bytes v : bytes_ok (rdbEncodeInteger v) /\ zlen (rdbEncodeInteger v) <= 5.
Proof.
  destruct (decide (in_s 32 v)) as [Hv|Hv]; [|rewrite encode_integer_out by done; rewrite zlen_nil; split; [constructor|lia]].
  destruct (proj1 (encode_integer v) Hv) as (t & k & Hc & ->). rewrite zlen_cons. split.
  - constructor; [inversion Hc; subst; by unfold byte_ok|auto with redis].
  - unfold zlen. rewrite length_le_encode. inversion Hc; lia.
Qed.

Lemma in_s_32 v : in_s 32 v -> in_s 64 v.
Proof. unfold in_s. cbn. lia. Qed.
Lemma int_code_range v t k : int_code v t k -> in_s 32 v.
Proof. inversion 1; subst; unfold in_s in *; cbn in *; lia. Qed.

Lemma memcmp_prefix a : forall b n, length a = n -> (n <= length b)%nat -> memcmp n a b = 0 -> take n b = a.
Proof.
  induction a as [|x a IH]; intros [|y b] [|n] Ha Hb Hm; cbn in *; try done; try lia.
  destruct (Z.eqb_spec x y) as [->|Hne]; [|lia]. f_equal. apply IH; [lia|lia|done].
Qed.

(** [strtoll] stops at a zero byte at the latest. *)
Lemma digits_stop s : forall acc n, exists v k, strtoll_digits (s ++ [0]) acc n = Some (v, (n + k)%nat) /\ (k <= length s)%nat.
Proof.
  induction s as [|c s IH]; intros acc n; cbn [strtoll_digits app length].
  - exists acc, 0%nat. rewrite Nat.add_0_r. split; [done|lia].
  - destruct (_ && _).
    + destruct (IH (acc * 10 + (c - 48)) (S n)) as (v & k & -> & Hk). exists v, (S k). split; [do 2 f_equal; lia|lia].
    + exists acc, 0%nat. rewrite Nat.add_0_r. split; [done|lia].
Qed.

Lemma skip_spaces_stop (s : list Z) : (skip_spaces (s ++ [0%Z]) <= length s)%nat.
Proof. induction s as [|c s IH]; cbn [skip_spaces app length]; [done|]. destruct (isspace c); lia. Qed.

Lemma strtoll_string s : exists v e, strtoll (s ++ [0]) = Some (v, e) /\ in_s 64 v /\ 0 <= e <= zlen s.
Proof.
  unfold strtoll. pose proof (skip_spaces_stop s) as Hi. set (i := skip_spaces (s ++ [0])) in *.
  destruct (lookup_lt_is_Some_2 (s ++ [0]) i) as [c Hc]; [rewrite length_app; cbn; lia|]. rewrite Hc. cbn [mbind option_bind].
  set (j := if _ : bool then S i else i).
  assert (j <= length s)%nat as Hj.
  { unfold j. destruct (_ || _) eqn:Es; [|done]. destruct (decide (i = length s)) as [Eq|]; [|lia].
    rewrite Eq, list_lookup_middle in Hc by done. injection Hc as <-. done. }
  rewrite drop_app_le by done. destruct (digits_stop (drop j s) 0 0) as (v & k & -> & Hk). cbn [mbind option_bind Nat.add].
  rewrite length_drop in Hk. pose proof (zlen_nonneg s). case_bool_decide.
  - exists 0, 0. split; [done|]. split; [done|lia].
  - eexists _, _. split; [done|]. split; [unfold in_s, LLONG_MIN, LLONG_MAX; lia|]. unfold zlen. lia.
Qed.

Lemma try_integer_result v s mem : in_s 64 v -> (length s <= length mem)%nat -> take (length s) mem = s ->
  exists enc, (buf ← ll_bytes v;
    if negb (zlen buf =? zlen s) || negb (memcmp (Z.to_nat (zlen s)) buf mem =? 0) then Some []
    else Some (rdbEncodeInteger v)) = Some enc /\ (enc = [] \/ in_s 32 v /\ s = sdec v /\ enc = rdbEncodeInteger v).
Proof.
  intros Hv Hlen Ht. rewrite ll_bytes_correct by done. cbn [mbind option_bind].
  destruct (Z.eqb_spec (zlen (sdec v)) (zlen s)) as [El|]; cbn [negb orb]; [|exists []; split; [done|by left]].
  destruct (Z.eqb_spec (memcmp (Z.to_nat (zlen s)) (sdec v) mem) 0) as [Em|]; cbn [negb]; [|exists []; split; [done|by left]].
  eexists. split; [done|]. destruct (decide (in_s 32 v)) as [Hs|Hs]; [right|left; by apply encode_integer_out].
  split; [done|]. split; [|done]. unfold zlen in *. rewrite Nat2Z.id in Em. apply memcmp_prefix in Em; [congruence|lia|lia].
Qed.

Lemma try_integer_string s : exists enc, rdbTryIntegerEncoding (s ++ [0]) (zlen s) = Some enc /\
  (enc = [] \/ exists v, in_s 32 v /\ s = sdec v /\ enc = rdbEncodeInteger v).
Proof.
  unfold rdbTryIntegerEncoding. destruct (strtoll_string s) as (v & e & -> & Hv & He). cbn [mbind option_bind].
  destruct (zidx_is_Some (s ++ [0]) e) as [c ->]; [rewrite zlen_app; change (zlen [0]) with 1; lia|]. cbn [mbind option_bind].
  destruct (c =? 0); cbn [negb]; [|exists []; split; [done|by left]].
  destruct (try_integer_result v s (s ++ [0]) Hv) as (enc & -> & Henc); [rewrite length_app; lia|by rewrite take_app_length|].
  exists enc. split; [done|]. destruct Henc as [?|?]; [by left|right; by exists v].
Qed.

(** A block whose first byte is neither zero nor the start of a number. *)
Lemma try_integer_block c l len : c <> 0 -> strtoll (c :: l) = Some (0, 0) -> rdbTryIntegerEncoding (c :: l) len = Some [].
Proof.
  intros Hc Hs. unfold rdbTryIntegerEncoding. rewrite Hs. cbn [mbind option_bind].
  change (zidx (c :: l) 0) with (Some c). cbn [mbind option_bind]. by rewrite (proj2 (Z.eqb_neq _ _) Hc).
Qed.

(** ** Strings *)

(** The three formats of a string. *)
Inductive string_code (s : sds) : list Z -> Prop :=
| code_int v t k : int_code v t k -> s = sdec v -> string_code s ((0xC0 + t) :: le_encode k v)
| code_lzf c : 0 < zlen c < 2 ^ 31 -> bytes_ok c -> 0 < zlen s < 2 ^ 31 ->
    (forall buf, zlen buf = zlen s -> lzf_decompress c buf = Some (inr (zlen s, s))) ->
    string_code s ([0xC0 + RDB_ENC_LZF] ++ len_bytes (zlen c) ++ len_bytes (zlen s) ++ c)
| code_raw : zlen s < 2 ^ 31 -> string_code s (len_bytes (zlen s) ++ s).

Lemma string_code_bytes s bs : bytes_ok s -> string_code s bs -> bytes_ok bs.
Proof.
  intros Hs Hc. pose proof (zlen_nonneg s). inversion Hc as [v t k Hi|c Hl Hb|]; subst.
  - constructor; [inversion Hi; subst; by unfold byte_ok|auto with redis].
  - pose proof (zlen_nonneg c). rewrite !Forall_app. split_and!; [repeat constructor; by unfold byte_ok|by apply len_bytes_ok|by apply len_bytes_ok|done].
  - apply Forall_app. split; [by apply len_bytes_ok|done].
Qed.

Lemma string_code_pos s bs : string_code s bs -> 0 < zlen bs.
Proof.
  intros Hc. pose proof (zlen_nonneg s). pose proof (zlen_len_bytes (zlen s)). inversion Hc as [v t k|c|]; subst.
  - rewrite zlen_cons. pose proof (zlen_nonneg (le_encode k v)). lia.
  - pose proof (zlen_nonneg c). pose proof (zlen_len_bytes (zlen c)). zl.
  - rewrite zlen_app. lia.
Qed.

Section strings.
Context {B : Type} `{Source B} (E : env) (compression : bool) (htab : Z -> Z).
#[local] Hint Extern 0 Host => exact (env_host E) : typeclass_instances.
Hypothesis htab_ok : forall i, in_u 32 (htab i).

Lemma zlen_realloc_nil n : 0 <= n -> zlen (realloc (new_bytes E) [] n) = n.
Proof. intros Hn. unfold realloc, zlen. rewrite take_nil. cbn. rewrite length_fmap, length_seq. lia. Qed.

Lemma saves_lzf_blob c len : 0 < zlen c < 2 ^ 31 -> 0 <= len < 2 ^ 31 ->
  saves ([0xC0 + RDB_ENC_LZF] ++ len_bytes (zlen c) ++ len_bytes len ++ c) (rdbSaveLzfBlob (B := B) E c len).
Proof.
  intros Hc Hl. unfold rdbSaveLzfBlob.
  destruct (saves_len (B := B) E (zlen c)) as (cs1 & E1 & W1); [unfold in_u; lia|].
  destruct (saves_len (B := B) E len) as (cs2 & E2 & W2); [unfold in_u; lia|].
  pose proof (zlen_len_bytes (zlen c)). pose proof (zlen_len_bytes len).
  eapply saves_then; [by apply saves_raw| |reflexivity]. exists (cs1 ++ cs2 ++ [c]). split.
  - rewrite !concat_app, E1, E2. cbn [concat]. by rewrite app_nil_r.
  - eapply writes_then; [exact W1|lia|]. eapply writes_then; [exact W2|lia|].
    rewrite <- (app_nil_r [c]). eapply writes_then; [apply writes_raw; lia|lia|].
    rewrite !zlen_app. replace (_ + (_ + (_ + zlen c))) with (zlen [0xC0 + RDB_ENC_LZF] + zlen (len_bytes (zlen c)) + zlen (len_bytes len) + zlen c) by lia.
    apply writes_ret.
Qed.

(** Either nothing is written and 0 is returned, or the compressed format. *)
Lemma saves_lzf_string s : 20 < zlen s < 2 ^ 31 -> bytes_ok s ->
  (forall rdb, rdbSaveLzfStringObject (B := B) E htab s rdb = Some (0, rdb)) \/
  exists bs, string_code s bs /\ saves bs (rdbSaveLzfStringObject (B := B) E htab s).
Proof.
  intros Hs Hb. unfold rdbSaveLzfStringObject. rewrite (proj2 (Z.leb_gt _ _)) by lia.
  set (out := realloc _ _ _). assert (zlen out = zlen s - 4) as Hout by (apply zlen_realloc_nil; lia).
  destruct (lzf_inverse htab s out s htab_ok) as (r & Er & Hr); [lia|lia|done|]. rewrite Er.
  destruct r as [[n o]|]; [right|by left]. destruct Hr as (Hn & Ho & _ & Hbo). set (c := take (Z.to_nat n) o) in *.
  assert (zlen c = n) as Hc by (unfold c, zlen in *; rewrite length_take; lia).
  exists ([0xC0 + RDB_ENC_LZF] ++ len_bytes (zlen c) ++ len_bytes (zlen s) ++ c). split; [|apply saves_lzf_blob; lia].
  constructor; [lia|by apply Hbo|lia|]. intros buf Hbuf.
  destruct (lzf_inverse htab s out buf htab_ok) as (r & Er' & Hr); [lia|lia|done|].
  rewrite Er in Er'. injection Er' as <-. apply Hr.
Qed.

Lemma saves_raw_string mem s : rd mem 0 (zlen s) = Some s -> bytes_ok s -> zlen s < 2 ^ 31 ->
  (zlen s <= 11 -> exists enc, rdbTryIntegerEncoding mem (zlen s) = Some enc /\
    (enc = [] \/ exists v, in_s 32 v /\ s = sdec v /\ enc = rdbEncodeInteger v)) ->
  exists bs, string_code s bs /\ saves bs (rdbSaveRawString (B := B) E compression htab mem (zlen s)).
Proof.
  intros Hrd Hb Hl Htry. pose proof (zlen_nonneg s) as H0.
  assert (exists enc, (forall rdb : option (rio B), (if zlen s <=? 11 then lift (rdbTryIntegerEncoding mem (zlen s)) else mret []) rdb = Some (enc, rdb)) /\
    (enc = [] \/ exists v, in_s 32 v /\ s = sdec v /\ enc = rdbEncodeInteger v)) as (enc & Eenc & Henc).
  { destruct (Z.leb_spec (zlen s) 11); [|exists []; split; [done|by left]]. destruct (Htry ltac:(lia)) as (enc & -> & Henc). by exists enc. }
  unfold rdbSaveRawString. destruct (decide (enc = [])) as [->|Hne].
  - assert (saves (len_bytes (zlen s) ++ s) (or_error (rdbSaveLen (B := B) E (zlen s)) (fun n => if zlen s >? 0 then
      or_error (rdbWriteRaw s) (fun _ => mret (n + zlen s)) else mret n))) as Hraw.
    { eapply saves_then; [apply saves_len; unfold in_u; lia| |reflexivity]. rewrite Z.gtb_ltb. destruct (Z.ltb_spec 0 (zlen s)).
      - exists [s]. cbn [concat]. rewrite app_nil_r. split; [done|]. rewrite <- (app_nil_r [s]). eapply writes_then; [by apply writes_raw|lia|done].
      - assert (zlen s = 0) as Hz by lia. exists []. split; [by rewrite (zlen_0_inv s Hz)|]. rewrite Hz, Z.add_0_r. done. }
    assert (forall m, (forall rdb, m rdb = Some (0, rdb)) ->
      saves (len_bytes (zlen s) ++ s) (n ← m; if n =? -1 then mret (-1) else if n >? 0 then mret n else
        or_error (rdbSaveLen (B := B) E (zlen s)) (fun n => if zlen s >? 0 then or_error (rdbWriteRaw s) (fun _ => mret (n + zlen s)) else mret n))) as Hnone.
    { intros m Hm. eapply saves_eq; [|exact Hraw]. intros rdb. by rewrite (bind_run _ _ _ _ _ (Hm rdb)). }
    destruct (compression && (zlen s >? 20)) eqn:Ec.
    + apply andb_true_iff in Ec as [_ Ec]. zbool. destruct (saves_lzf_string s ltac:(lia) Hb) as [Hz|(bs & Hcode & Hsave)].
      * exists (len_bytes (zlen s) ++ s). split; [by constructor|]. eapply saves_eq; [|exact (Hnone _ Hz)].
        intros rdb. rewrite (bind_run _ _ _ _ _ (Eenc rdb)). cbn [bool_decide negb]. by rewrite Hrd.
      * exists bs. split; [done|]. eapply saves_eq.
        -- intros rdb. rewrite (bind_run _ _ _ _ _ (Eenc rdb)). cbn [negb]. rewrite Hrd. reflexivity.
        -- rewrite <- (app_nil_r bs). eapply saves_then; [exact Hsave| |]; [|by rewrite zlen_nil, Z.add_0_r].
           exists []. split; [done|]. pose proof (string_code_pos s bs Hcode) as Hpos.
           rewrite Z.gtb_ltb, (proj2 (Z.ltb_lt _ _) Hpos). done.
    + exists (len_bytes (zlen s) ++ s). split; [by constructor|]. eapply saves_eq; [|exact (Hnone (mret 0 : ST (option (rio B)) Z) (fun _ => eq_refl))].
      intros rdb. rewrite (bind_run _ _ _ _ _ (Eenc rdb)). cbn [negb]. by rewrite Hrd.
  - destruct Henc as [?|(v & Hv & -> & ->)]; [done|]. destruct (proj1 (encode_integer v) Hv) as (t & k & Hc & Ee).
    exists (rdbEncodeInteger v). split; [rewrite Ee; by econstructor|].
    eapply saves_eq; [intros rdb; rewrite (bind_run _ _ _ _ _ (Eenc rdb)); rewrite bool_decide_eq_false_2 by done; reflexivity|].
    rewrite <- (app_nil_r (rdbEncodeInteger v)) at 1. pose proof (proj2 (encode_integer_bytes v)).
    eapply saves_then; [apply saves_raw; lia|by exists []|by rewrite zlen_nil, Z.add_0_r].
Qed.

Lemma saves_sds s : bytes_ok s -> zlen s < 2 ^ 31 -> exists bs, string_code s bs /\ saves bs (rdbSaveSds (B := B) E compression htab s).
Proof.
  intros Hb Hl. apply saves_raw_string; [by apply rd_front|done|done|]. intros _. apply try_integer_string.
Qed.

Lemma saves_string_object s r : string_obj s r -> zlen s < 2 ^ 31 ->
  exists bs, string_code s bs /\ saves bs (rdbSaveStringObject (B := B) E compression htab r).
Proof.
  intros Hr Hl. unfold rdbSaveStringObject. inversion Hr as [n Hb|n Hb|v n Hv Hs]; subst; cbn [encoding].
  - apply saves_sds; done.
  - apply saves_sds; done.
  - rewrite bool_decide_eq_true_2 by done. cbn [as_long ptr].
    change (mbind _ (lift (Some v))) with (rdbSaveLongLongAsStringObject (B := B) E v). unfold rdbSaveLongLongAsStringObject.
    destruct (decide (in_s 32 v)) as [Hs|Hs].
    + destruct (proj1 (encode_integer v) Hs) as (t & k & Hc & Ee). exists (rdbEncodeInteger v). split; [rewrite Ee; by econstructor|].
      rewrite bool_decide_eq_false_2 by (rewrite Ee; done). pose proof (proj2 (encode_integer_bytes v)). apply saves_raw. lia.
    + rewrite encode_integer_out, bool_decide_eq_true_2 by done. cbn [negb]. rewrite ll_bytes_correct by done. pose proof (zlen_sdec v Hv) as Hz.
      exists (len_bytes (zlen (sdec v)) ++ sdec v). split; [by constructor|].
      eapply saves_eq; [intros rdb; cbn [lift]; rewrite (bind_run _ _ _ _ _ (ret_run _ _)); rewrite (proj2 (Z.ltb_lt (zlen (sdec v)) 32)) by lia;
        rewrite (bind_run _ _ _ _ _ (assert_run true _ eq_refl)); reflexivity|].
      eapply saves_then; [apply saves_len; unfold in_u; lia| |reflexivity]. exists [sdec v]. cbn [concat]. rewrite app_nil_r. split; [done|].
      rewrite <- (app_nil_r [sdec v]). eapply writes_then; [by apply writes_raw|lia|done].
Qed.
End strings.

(** ** Loading of strings *)

(** The object that is created for a string: from the integer it is, with or without an encoding. *)
Inductive makes (share encode : bool) (s : sds) : ST store oid -> Prop :=
| makes_raw : makes share encode s (createRawStringObject s)
| makes_string : encode = true -> makes share encode s (createStringObject s)
| makes_int v : encode = true -> in_s 32 v -> s = sdec v -> makes share encode s (createStringObjectFromLongLongForValue share v).

Lemma le_lor2 v : Z.lor (v mod 256) (Z.shiftl (v / 256 mod 256) 8) = v mod 2 ^ 16.
Proof.
  rewrite Z.lor_comm, lor_shift by (unfold in_u; (lia || apply Z.mod_pos_bound; lia)).
  change (2 ^ 16) with (256 * 256). rewrite Z.rem_mul_r by lia. lia.
Qed.

Lemma lor_shifted a b n : 0 <= n -> in_u n a -> Z.lor a (Z.shiftl b n) = b * 2 ^ n + a.
Proof. intros Hn Ha. by rewrite Z.lor_comm, lor_shift. Qed.

Lemma le_lor4 v : Z.lor (Z.lor (Z.lor (v mod 256) (Z.shiftl (v / 256 mod 256) 8)) (Z.shiftl (v / 256 / 256 mod 256) 16))
  (Z.shiftl (v / 256 / 256 / 256 mod 256) 24) = v mod 2 ^ 32.
Proof.
  rewrite le_lor2, (Z.div_div v 256 256) by lia. change (256 * 256) with (2 ^ 16). set (h := v / 2 ^ 16).
  pose proof (Z.mod_pos_bound v (2 ^ 16) ltac:(lia)) as H1. pose proof (Z.mod_pos_bound h 256 ltac:(lia)) as H2.
  rewrite (lor_shifted (v mod 2 ^ 16) (h mod 256) 16) by (unfold in_u; lia). rewrite lor_shifted by (unfold in_u; lia).
  change (2 ^ 32) with (2 ^ 16 * 2 ^ 16). rewrite (Z.rem_mul_r v (2 ^ 16) (2 ^ 16)) by lia. fold h.
  assert (h mod 2 ^ 16 = h mod 256 + 256 * ((h / 256) mod 256)) as -> by (change (2 ^ 16) with (256 * 256); apply Z.rem_mul_r; lia).
  lia.
Qed.

Section load_strings.
Context {B : Type} `{Source B} (E : env) (share : bool).
#[local] Hint Extern 0 Host => exact (env_host E) : typeclass_instances.

Lemma loads_kind t : 0 <= t < 4 -> loads (B := B) [0xC0 + t] (t, true) (rdbLoadLen E).
Proof.
  intros Ht. apply (loads_map _ (Some (true, t))); [|apply loads_ret]. unfold rdbLoadLenByRef. apply loads_first; [unfold byte_ok; lia|]. cbv beta.
  assert (t = 0 \/ t = 1 \/ t = 2 \/ t = 3) as [-> | [-> | [-> | ->]]] by lia; apply loads_ret.
Qed.

Lemma loads_integer v t k : int_code v t k -> loads (B := B) (le_encode k v) (Some v) (read_integer t).
Proof.
  intros Hc. unfold read_integer. rewrite <- (app_nil_r (le_encode k v)).
  inversion Hc as [Hv|Hv|Hv]; subst; cbn [Z.eqb Pos.eqb RDB_ENC_INT8 RDB_ENC_INT16 RDB_ENC_INT32];
    (eapply loads_or_null; [apply loads_read_n; [auto with redis|done]|]); cbv beta; cbn [le_encode].
  - assert (wraps 8 (v mod 256) = v) as Hw by (rewrite <- (wraps_small 8 v) at 2 by done; apply (wraps_wrapu 8)).
    change (loads [] (Some v) (mret (Some (wraps 8 (v mod 256))) : ST (rio B) (option Z))). rewrite Hw. apply loads_ret.
  - set (x := Z.lor (v mod 256) (Z.shiftl (v / 256 mod 256) 8)).
    assert (wraps 16 (wrapu 16 x) = v) as Hw.
    { unfold x. rewrite le_lor2, wraps_wrapu. rewrite <- (wraps_small 16 v) at 2 by done. apply (wraps_wrapu 16). }
    change (loads [] (Some v) (mret (Some (wraps 16 (wrapu 16 x))) : ST (rio B) (option Z))). rewrite Hw. apply loads_ret.
  - set (x := Z.lor (Z.lor (Z.lor (v mod 256) (Z.shiftl (v / 256 mod 256) 8)) (Z.shiftl (v / 256 / 256 mod 256) 16))
      (Z.shiftl (v / 256 / 256 / 256 mod 256) 24)).
    assert (wraps 32 (wrapu 32 x) = v) as Hw.
    { unfold x. rewrite le_lor4, wraps_wrapu. rewrite <- (wraps_small 32 v) at 2 by done. apply (wraps_wrapu 32). }
    change (loads [] (Some v) (mret (Some (wraps 32 (wrapu 32 x))) : ST (rio B) (option Z))). rewrite Hw. apply loads_ret.
Qed.

(** The flags ask for bytes, or for an object. *)
Definition bytes_flags (flags : Z) : bool := has flags RDB_LOAD_PLAIN || has flags RDB_LOAD_SDS.

Lemma loads_new_string len t : len + 18 < 2 ^ 64 -> loads_obj (B := B) [] t (realloc (new_bytes E) [] len) t (new_string E len).
Proof.
  intros Hl. unfold new_string. rewrite (proj2 (Z.ltb_lt _ _) Hl).
  eapply (loads_obj_map [] t t t tt); [apply loads_obj_ret|apply loads_obj_ret].
Qed.

Lemma loads_obj_or_null {A C} x y t1 t2 t3 (a : A) (c e : C) m k :
  loads_obj (B := B) x t1 (Some a) t2 m -> loads_obj y t2 c t3 (k a) -> loads_obj (x ++ y) t1 c t3 (or_null m e k).
Proof. intros Hm Hk. by eapply loads_obj_bind. Qed.

Lemma in_s32_min v : in_s 32 v -> v <> LLONG_MIN.
Proof. unfold in_s, LLONG_MIN. cbn. lia. Qed.

(** After the read of its integer: the bytes, or the object. *)
Lemma loads_int_object v t k flags st : int_code v t k ->
  if bytes_flags flags then
    loads_obj (B := B) (le_encode k v) st (Some (as_loaded flags (sdec v))) st (rdbLoadIntegerObject share t flags)
  else exists mk, makes share (has flags RDB_LOAD_ENC) (sdec v) mk /\ forall o st', mk st = Some (o, st') ->
    loads_obj (B := B) (le_encode k v) st (Some (LObj o)) st' (rdbLoadIntegerObject share t flags).
Proof.
  intros Hc. pose proof (int_code_range v t k Hc) as Hr. pose proof (in_s_32 v Hr) as Hr64. unfold rdbLoadIntegerObject.
  rewrite <- (app_nil_r (le_encode k v)). destruct (bytes_flags flags) eqn:Ef.
  - eapply loads_obj_or_null; [by apply loads_in_rio, loads_integer|]. cbv beta. fold (bytes_flags flags). rewrite Ef, ll_bytes_correct by done.
    eapply loads_obj_map; [by apply loads_obj_lift|]. apply loads_obj_ret.
  - destruct (has flags RDB_LOAD_ENC) eqn:Ee.
    + eexists. split; [by apply (makes_int _ _ _ v)|]. intros o st' Hmk.
      eapply loads_obj_or_null; [by apply loads_in_rio, loads_integer|]. cbv beta. fold (bytes_flags flags). rewrite Ef.
      eapply loads_obj_map; [by apply loads_in_heap|]. apply loads_obj_ret.
    + eexists. split; [apply makes_raw|]. intros o st' Hmk.
      eapply loads_obj_or_null; [by apply loads_in_rio, loads_integer|]. cbv beta. fold (bytes_flags flags). rewrite Ef.
      rewrite sdsfromlonglong_correct by (done || by apply in_s32_min).
      eapply loads_obj_map; [by apply loads_obj_lift|]. cbv beta. eapply loads_obj_map; [by apply loads_in_heap|]. apply loads_obj_ret.
Qed.

Lemma loads_lzf_object s c flags st : 0 < zlen c < 2 ^ 31 -> bytes_ok c -> 0 < zlen s < 2 ^ 31 ->
  (forall buf, zlen buf = zlen s -> lzf_decompress c buf = Some (inr (zlen s, s))) ->
  let x := len_bytes (zlen c) ++ len_bytes (zlen s) ++ c in
  if bytes_flags flags then loads_obj (B := B) x st (Some (as_loaded flags s)) st (rdbLoadLzfStringObject E flags)
  else forall o st', createRawStringObject s st = Some (o, st') -> loads_obj (B := B) x st (Some (LObj o)) st' (rdbLoadLzfStringObject E flags).
Proof.
  intros Hc Hbc Hs Hd x.
  assert (forall st' v, loads_obj (B := B) [] st v st' (if bytes_flags flags then mret (Some (as_loaded flags s))
      else o ← in_heap (createObject OBJ_STRING (PSds s)); mret (Some (LObj o))) -> loads_obj (B := B) x st v st' (rdbLoadLzfStringObject E flags)) as Hmain.
  { intros st' v Hend. unfold rdbLoadLzfStringObject, x.
    eapply loads_obj_or_null; [apply loads_in_rio, loads_loaded_len; unfold in_u, RDB_LENERR; lia|]. cbv beta.
    eapply loads_obj_or_null; [apply loads_in_rio, loads_loaded_len; unfold in_u, RDB_LENERR; lia|]. cbv beta.
    change c with ([] ++ c) at 1. eapply loads_obj_bind; [apply loads_new_string; lia|]. cbv beta.
    rewrite <- (app_nil_r c) at 1. eapply loads_obj_or_null; [by apply loads_in_rio, loads_read|]. cbv beta.
    eapply loads_obj_map; [apply loads_obj_lift, Hd, zlen_realloc_nil; lia|]. cbv beta iota.
    rewrite (proj2 (Z.eqb_neq (zlen s) 0)) by lia. exact Hend. }
  destruct (bytes_flags flags) eqn:Ef.
  - apply Hmain, loads_obj_ret.
  - intros o st' Hmk. apply Hmain. eapply loads_obj_map; [by apply loads_in_heap|]. apply loads_obj_ret.
Qed.

(** The format of a string is read back by every variant of the function. *)
Lemma loads_string s bs flags st : string_code s bs -> bytes_ok s ->
  if bytes_flags flags then loads_obj (B := B) bs st (Some (as_loaded flags s)) st (rdbGenericLoadStringObject E share flags)
  else exists mk, makes share (has flags RDB_LOAD_ENC) s mk /\ forall o st', mk st = Some (o, st') ->
    loads_obj (B := B) bs st (Some (LObj o)) st' (rdbGenericLoadStringObject E share flags).
Proof.
  intros Hc Hb. pose proof (zlen_nonneg s) as H0. inversion Hc as [v t k Hi Es Ebs|c Hl Hbc Hs Hd Ebs|Hl Ebs].
  - pose proof (loads_int_object v t k flags st Hi) as HI. rewrite <- Es in HI.
    assert (0 <= t < 4 /\ (t =? RDB_ENC_INT8) || (t =? RDB_ENC_INT16) || (t =? RDB_ENC_INT32) = true) as [Ht Et] by (inversion Hi; subst; done).
    assert (forall st' v', loads_obj (B := B) (le_encode k v) st v' st' (rdbLoadIntegerObject share t flags) ->
      loads_obj (B := B) ((192 + t) :: le_encode k v) st v' st' (rdbGenericLoadStringObject E share flags)) as Hgo.
    { intros st' v' Hv. change (192 + t :: le_encode k v) with ([192 + t] ++ le_encode k v). unfold rdbGenericLoadStringObject.
      eapply loads_obj_bind; [by apply loads_in_rio, loads_kind|]. cbv beta iota. by rewrite Et. }
    destruct (bytes_flags flags); [by apply Hgo|]. destruct HI as (mk & Hmk & HI). exists mk. split; [done|]. intros o st' Ho. by apply Hgo, HI.
  - pose proof (loads_lzf_object s c flags st Hl Hbc Hs Hd) as HI. cbv zeta in HI.
    assert (forall st' v', loads_obj (B := B) (len_bytes (zlen c) ++ len_bytes (zlen s) ++ c) st v' st' (rdbLoadLzfStringObject E flags) ->
      loads_obj (B := B) ([192 + RDB_ENC_LZF] ++ len_bytes (zlen c) ++ len_bytes (zlen s) ++ c) st v' st' (rdbGenericLoadStringObject E share flags)) as Hgo.
    { intros st' v' Hv. unfold rdbGenericLoadStringObject. eapply loads_obj_bind; [by apply loads_in_rio, loads_kind|]. exact Hv. }
    destruct (bytes_flags flags); [by apply Hgo|]. eexists. split; [apply makes_raw|]. intros o st' Ho. by apply Hgo, HI.
  - assert (forall st' v', loads_obj (B := B) [] st v' st' (if bytes_flags flags then mret (Some (as_loaded flags s))
        else o ← in_heap (if has flags RDB_LOAD_ENC then createStringObject s else createRawStringObject s); mret (Some (LObj o))) ->
      loads_obj (B := B) (len_bytes (zlen s) ++ s) st v' st' (rdbGenericLoadStringObject E share flags)) as Hgo.
    { intros st' v' Hv. unfold rdbGenericLoadStringObject. eapply loads_obj_bind; [apply loads_in_rio, loads_len; unfold in_u; lia|]. cbv beta iota.
      rewrite (proj2 (Z.eqb_neq (zlen s) RDB_LENERR)) by (unfold RDB_LENERR; lia).
      change s with ([] ++ s) at 1. eapply loads_obj_bind; [apply loads_new_string; lia|]. cbv beta.
      rewrite <- (app_nil_r s) at 1. eapply loads_obj_or_null; [by apply loads_in_rio, loads_read|]. exact Hv. }
    destruct (bytes_flags flags); [apply Hgo, loads_obj_ret|].
    exists (if has flags RDB_LOAD_ENC then createStringObject s else createRawStringObject s). split.
    + destruct (has flags RDB_LOAD_ENC); [by apply makes_string|apply makes_raw].
    + intros o st' Ho. apply Hgo. eapply loads_obj_map; [by apply loads_in_heap|]. apply loads_obj_ret.
Qed.
End load_strings.
