(* ===== verification/RdbObject.v ===== *)
(** * The format of snapshots: objects (rdb.c)

    Saving and loading of the values that are strings, sets and hashes, in each of their encodings. The
    functions fail on the types whose data is opaque (lists, sorted sets, streams and modules), and
    loading fails on the formats of older versions. *)

From S2P Require Import Prelude Endian Intset Sds Ziplist Dict DictIter Data State Rio Object Server TSet THash Rdb.

Definition RDB_TYPE_STRING : Z := 0.
Definition RDB_TYPE_SET : Z := 2.
Definition RDB_TYPE_HASH : Z := 4.
Definition RDB_TYPE_ZSET_2 : Z := 5.
Definition RDB_TYPE_MODULE_2 : Z := 7.
Definition RDB_TYPE_SET_INTSET : Z := 11.
Definition RDB_TYPE_ZSET_ZIPLIST : Z := 12.
Definition RDB_TYPE_HASH_ZIPLIST : Z := 13.
Definition RDB_TYPE_LIST_QUICKLIST : Z := 14.
Definition RDB_TYPE_STREAM_LISTPACKS : Z := 15.

Definition rdbIsObjectType (t : Z) : bool := ((t >=? 0) && (t <=? 7)) || ((t >=? 9) && (t <=? 15)).

(** The block of an integer set: its header and its contents. *)
Definition intset_block `{Host} (is_ : intset) : list Z :=
  host_bytes 4 (is_encoding is_) ++ host_bytes 4 (is_length is_) ++ is_contents is_.
Definition block_intset `{Host} (b : list Z) : option intset :=
  e ← rd b 0 4; l ← rd b 4 4;
  Some (Intset (host_uint e) (host_uint l) (drop 8 b)).

(** ** Saving *)

Section save.
Context {B : Type} `{!Backend B} (C : config).
Let E : env := data_env C.
#[local] Hint Extern 0 Host => exact (env_host (data_env C)) : typeclass_instances.
Abbreviation W := (ST (option (rio B)) Z).
Local Notation "n <~ m ;; k" := (or_error m (fun n => k)) (at level 100, m at next level, right associativity).

Definition save_raw (s : list Z) (len : Z) : W := rdbSaveRawString E (rdb_compression C) (lzf_table C) s len.
Definition save_sds (s : sds) : W := rdbSaveSds E (rdb_compression C) (lzf_table C) s.

Definition rdbSaveObjectType (o : robj) : W :=
  match type o, encoding o with
  | OBJ_STRING, _ => rdbSaveType RDB_TYPE_STRING
  | OBJ_LIST, OBJ_ENCODING_QUICKLIST => rdbSaveType RDB_TYPE_LIST_QUICKLIST
  | OBJ_SET, OBJ_ENCODING_INTSET => rdbSaveType RDB_TYPE_SET_INTSET
  | OBJ_SET, OBJ_ENCODING_HT => rdbSaveType RDB_TYPE_SET
  | OBJ_ZSET, OBJ_ENCODING_ZIPLIST => rdbSaveType RDB_TYPE_ZSET_ZIPLIST
  | OBJ_ZSET, OBJ_ENCODING_SKIPLIST => rdbSaveType RDB_TYPE_ZSET_2
  | OBJ_HASH, OBJ_ENCODING_ZIPLIST => rdbSaveType RDB_TYPE_HASH_ZIPLIST
  | OBJ_HASH, OBJ_ENCODING_HT => rdbSaveType RDB_TYPE_HASH
  | OBJ_STREAM, _ => rdbSaveType RDB_TYPE_STREAM_LISTPACKS
  | OBJ_MODULE, _ => rdbSaveType RDB_TYPE_MODULE_2
  | _, _ => fail
  end.

(** [while((de = dictNext(di)) != NULL)]: one iteration for each entry and a last one. The iterator is
    not a safe one, so the dictionary does not change. *)
Fixpoint save_entries {V} (fuel : nat) (save : sds * V -> W) (d : Dict.dict sds V) (di : dictIterator sds)
    (nwritten : Z) : W :=
  match fuel with
  | O => fail
  | S fuel =>
      '(d, di, de) ← lift (dictNext (fun _ => table_addr E) d di);
      match de with
      | None => _ ← lift (dictReleaseIterator (fun _ => table_addr E) d di); mret nwritten
      | Some e =>
          n ← save e;
          if n =? -1 then _ ← lift (dictReleaseIterator (fun _ => table_addr E) d di); mret (-1)
          else save_entries fuel save d di (nwritten + n)
      end
  end.

(** The iterator is released on an error of the first write too. *)
Definition save_dict {V} (save : sds * V -> W) (d : Dict.dict sds V) : W :=
  n <~ rdbSaveLen E (dictSize d);;
  save_entries (S (Z.to_nat (dictSize d))) save d dictGetIterator n.

Definition save_set (o : robj) : W :=
  match encoding o with
  | OBJ_ENCODING_HT => set ← lift (as_set o); save_dict (fun e => save_sds (fst e)) set
  | OBJ_ENCODING_INTSET =>
      is_ ← lift (as_intset o);
      save_raw (intset_block is_) (intsetBlobLen is_)
  | _ => fail
  end.

Definition save_hash (o : robj) : W :=
  match encoding o with
  | OBJ_ENCODING_ZIPLIST =>
      zl ← lift (as_zl o);
      l ← lift (ziplistBlobLen zl);
      save_raw zl l
  | OBJ_ENCODING_HT =>
      d ← lift (as_hash o);
      save_dict (fun e => n1 <~ save_sds (fst e);; n2 <~ save_sds (snd e);; mret (n1 + n2)) d
  | _ => fail
  end.

Definition rdbSaveObject (o : robj) : W :=
  match type o with
  | OBJ_STRING => rdbSaveStringObject E (rdb_compression C) (lzf_table C) o
  | OBJ_SET => save_set o
  | OBJ_HASH => save_hash o
  | _ => fail
  end.

(** The length of the value when it is saved; the stream is [NULL]. *)
Definition rdbSavedObjectLen (o : robj) : option Z :=
  '(len, _) ← rdbSaveObject o None;
  if len =? -1 then None else Some (wrapu 64 len).
End save.


(** ** Loading *)

Section load.
Context {B : Type} `{!Backend B} (C : config).
Let E : env := data_env C.
#[local] Hint Extern 0 Host => exact (env_host (data_env C)) : typeclass_instances.
#[local] Hint Extern 0 (dictType sds unit) => exact (setDictType (data_env C)) : typeclass_instances.
#[local] Hint Extern 0 (dictType sds sds) => exact (hashDictType (data_env C)) : typeclass_instances.
Abbreviation L := (ST (rio B * store)).

(** [None] is the return value -1. *)
Definition rdbLoadObjectType : ST (rio B) (option Z) :=
  or_null rdbLoadType None (fun type => mret (if negb (rdbIsObjectType type) then None else Some type)).

Definition load_sds : L (option sds) :=
  or_null (rdbGenericLoadStringObject E (share C) RDB_LOAD_SDS) None (fun l => s ← as_string l; mret (Some s)).
Definition load_block : L (option (list Z)) :=
  or_null (rdbGenericLoadStringObject E (share C) RDB_LOAD_PLAIN) None (fun l => s ← as_block l; mret (Some s)).

(** An element of a set of [len] elements goes into the object. *)
Definition load_element (len : Z) (r : robj) (sdsele : sds) : option robj :=
  r ← (if bool_decide (encoding r = OBJ_ENCODING_INTSET) then
         match isSdsRepresentableAsLongLong sdsele with
         | Some llval =>
             is_ ← as_intset r;
             '(is_, _) ← intsetAdd (new_bytes E) is_ llval;
             Some (with_intset is_ r)
         | None =>
             r ← setTypeConvert E r OBJ_ENCODING_HT;
             d ← as_set r;
             '(d, _) ← dictExpand d len;
             Some (with_set d r)
         end
       else Some r);
  if bool_decide (encoding r = OBJ_ENCODING_HT) then
    d ← as_set r;
    '(d, _) ← dictAdd tt (can_resize E) d sdsele tt;
    Some (with_set d r)
  else Some r.

(** [for (i = 0; i < len; i++)] with a counter of 32 bits; the boolean is false after a failed read. The
    loop does not end when [len] does not fit the counter: then the fuel is not enough. *)
Fixpoint load_set_loop (fuel : nat) (i len : Z) (r : robj) : L (robj * bool) :=
  if i <? len then
    match fuel with
    | O => fail
    | S fuel =>
        or_null load_sds (r, false) (fun sdsele =>
        r ← lift (load_element len r sdsele);
        load_set_loop fuel (wrapu 32 (i + 1)) len r)
    end
  else mret (r, true).

(** An object whose loading failed is not freed. *)
Definition finish (x : robj * bool) : L (option oid) :=
  o ← in_heap (alloc_obj (fst x));
  mret (if snd x then Some o else None).

Definition load_set : L (option oid) :=
  or_null (in_rio (loaded_len E)) None (fun len =>
  r ← (if len >? set_max_intset_entries C then
         if len >? DICT_HT_INITIAL_SIZE then
           '(d, _) ← lift (dictExpand dictCreate len); mret (with_set d createSetObject)
         else mret createSetObject
       else mret (createIntsetObject E));
  x ← load_set_loop (Z.to_nat len) 0 len r;
  finish x).

(** The loop that fills the ziplist: the object and how many fields are left; the boolean as above. *)
Fixpoint load_zl_loop (fuel : nat) (len : Z) (r : robj) : L (robj * Z * bool) :=
  if bool_decide (encoding r = OBJ_ENCODING_ZIPLIST) && (len >? 0) then
    match fuel with
    | O => fail
    | S fuel =>
        let len := len - 1 in
        or_null load_sds (r, len, false) (fun field =>
        or_null load_sds (r, len, false) (fun value =>
        zl ← lift (as_zl r);
        zl ← lift (ziplistPush (new_bytes E) zl field ZIPLIST_TAIL);
        zl ← lift (ziplistPush (new_bytes E) zl value ZIPLIST_TAIL);
        let r := with_zl zl r in
        if (zlen field >? hash_max_ziplist_value C) || (zlen value >? hash_max_ziplist_value C) then
          r ← lift (hashTypeConvert E r OBJ_ENCODING_HT); mret (r, len, true)
        else load_zl_loop fuel len r))
    end
  else mret (r, len, true).

(** The loop that fills the hash table; a field that is there already ends the process. *)
Fixpoint load_ht_loop (fuel : nat) (len : Z) (r : robj) : L (robj * Z * bool) :=
  if bool_decide (encoding r = OBJ_ENCODING_HT) && (len >? 0) then
    match fuel with
    | O => fail
    | S fuel =>
        let len := len - 1 in
        or_null load_sds (r, len, false) (fun field =>
        or_null load_sds (r, len, false) (fun value =>
        d ← lift (as_hash r);
        '(d, ret) ← lift (dictAdd [] (can_resize E) d field value);
        match ret with DICT_OK => load_ht_loop fuel len (with_hash d r) | DICT_ERR => fail end))
    end
  else mret (r, len, true).

(** The fields that are left go into the hash table. *)
Definition load_remaining (len : Z) (r : robj) : L (option oid) :=
  r ← (if bool_decide (encoding r = OBJ_ENCODING_HT) && (len >? DICT_HT_INITIAL_SIZE) then
         d ← lift (as_hash r); '(d, _) ← lift (dictExpand d len); mret (with_hash d r)
       else mret r);
  '(r, len, ok) ← load_ht_loop (Z.to_nat len) len r;
  if negb ok then finish (r, false)
  else
    _ ← assert_that (len =? 0);
    finish (r, true).

Definition load_hash : L (option oid) :=
  '(len, _) ← in_rio (rdbLoadLen E);
  if len =? RDB_LENERR then mret None
  else
    r ← lift (createHashObject E);
    r ← (if len >? hash_max_ziplist_entries C then lift (hashTypeConvert E r OBJ_ENCODING_HT) else mret r);
    '(r, len, ok) ← load_zl_loop (Z.to_nat len) len r;
    if negb ok then finish (r, false) else load_remaining len r.

Definition load_intset : L (option oid) :=
  or_null load_block None (fun encoded =>
  is_ ← lift (block_intset encoded);
  let r := Robj OBJ_SET OBJ_ENCODING_INTSET (PData (DIntset is_)) 1 in
  r ← (if intsetLen is_ >? set_max_intset_entries C then lift (setTypeConvert E r OBJ_ENCODING_HT) else mret r);
  finish (r, true)).

Definition load_hash_ziplist : L (option oid) :=
  or_null load_block None (fun encoded =>
  let r := Robj OBJ_HASH OBJ_ENCODING_ZIPLIST (PData (DZiplist encoded)) 1 in
  '(r, n) ← lift (hashTypeLength E r);
  r ← (if n >? hash_max_ziplist_entries C then lift (hashTypeConvert E r OBJ_ENCODING_HT) else mret r);
  finish (r, true)).

Definition rdbLoadObject (rdbtype : Z) : L (option oid) :=
  if rdbtype =? RDB_TYPE_STRING then
    or_null (rdbLoadEncodedStringObject E (share C)) None (fun o =>
    o ← in_heap (tryObjectEncoding (share C) o); mret (Some o))
  else if rdbtype =? RDB_TYPE_SET then load_set
  else if rdbtype =? RDB_TYPE_HASH then load_hash
  else if rdbtype =? RDB_TYPE_SET_INTSET then load_intset
  else if rdbtype =? RDB_TYPE_HASH_ZIPLIST then load_hash_ziplist
  else fail.
End load.
