(* ===== verification/Dump.v ===== *)
(** * DUMP and RESTORE (cluster.c)

    DUMP replies with the value of a key in the format of snapshots, followed by the version of the
    format and a checksum; RESTORE creates a key from such a payload. The access time and frequency of
    objects are not part of the model, so the options IDLETIME and FREQ of RESTORE are only parsed. *)

From S2P Require Import Prelude Endian Sds Crc Data State Rio Object Server Db BitCmd Rdb RdbObject.

Definition RDB_VERSION : Z := 9.

(** The buffer of the payload. *)
Definition createDumpPayload (C : config) (o : robj) : option sds :=
  '(n, payload) ← rdbSaveObjectType o (Some (rioInitWithBuffer []));
  _ ← (if n =? 0 then None else Some tt);
  '(n, payload) ← rdbSaveObject C o payload;
  _ ← (if n =? 0 then None else Some tt);
  payload ← payload;
  let ptr := b_ptr (io payload) ++ [Z.land RDB_VERSION 0xff; Z.land (Z.shiftr RDB_VERSION 8) 0xff] in
  crc ← crc64 0 ptr;
  crc ← @memrev64ifbe (env_host (data_env C)) (@host_bytes (env_host (data_env C)) 8 crc);
  Some (ptr ++ crc).

(** [true] is [C_OK]. *)
Definition verifyDumpPayload (E : env) (p : list Z) : option bool :=
  let len := zlen p in
  if len <? 10 then Some false
  else
    let footer := len - 10 in
    f0 ← zidx p footer; f1 ← zidx p (footer + 1);
    let rdbver := wrapu 16 (Z.lor (Z.shiftl f1 8) f0) in
    if rdbver >? RDB_VERSION then Some false
    else
      data ← rd p 0 (len - 8);
      crc ← crc64 0 data;
      crc ← @memrev64ifbe (env_host E) (@host_bytes (env_host E) 8 crc);
      stored ← rd p (footer + 2) 8;
      Some (memcmp 8 crc stored =? 0).

Definition dumpCommand (c : Z) (argv : list oid) : M (list oid) :=
  db ← client_db c;
  key ← arg_sds argv 1;
  o ← lookupKeyRead db key;
  match o with
  | None => _ ← addReply c R_nullbulk; mret argv
  | Some o =>
      s ← get;
      r ← in_store (obj o);
      payload ← lift (createDumpPayload (conf s) r);
      dumpobj ← in_store (createObject OBJ_STRING (PSds payload));
      _ ← addReplyBulk c dumpobj;
      _ ← in_store (decrRefCount dumpobj);
      mret argv
  end.

(** The options from [argv[4]] on: [replace], [absttl], [lru_idle] and [lfu_freq]; [None] after an error was
    sent. *)
Fixpoint restore_options (c : Z) (args : list oid) (replace absttl : bool) (lru_idle lfu_freq : Z)
    : M (option (bool * bool * Z * Z)) :=
  match args with
  | [] => mret (Some (replace, absttl, lru_idle, lfu_freq))
  | a :: args =>
      s ← sds_of a;
      if strcaseeq s "replace" then restore_options c args true absttl lru_idle lfu_freq
      else if strcaseeq s "absttl" then restore_options c args replace true lru_idle lfu_freq
      else if strcaseeq s "idletime" && (zlen args >=? 1) && (lfu_freq =? -1) then
        match args with
        | [] => fail
        | b :: args =>
            v ← getLongLongFromObjectOrReply c (Some b) None;
            match v with
            | None => mret None
            | Some v =>
                if v <? 0 then _ ← addReplyError c "Invalid IDLETIME value, must be >= 0"; mret None
                else restore_options c args replace absttl v lfu_freq
            end
        end
      else if strcaseeq s "freq" && (zlen args >=? 1) && (lru_idle =? -1) then
        match args with
        | [] => fail
        | b :: args =>
            v ← getLongLongFromObjectOrReply c (Some b) None;
            match v with
            | None => mret None
            | Some v =>
                if (v <? 0) || (v >? 255) then _ ← addReplyError c "Invalid FREQ value, must be >= 0 and <= 255"; mret None
                else restore_options c args replace absttl lru_idle v
            end
        end
      else _ ← addReply c R_syntaxerr; mret None
  end.

(** Runs a loading function on the buffer of the payload. *)
Definition load_from {A} (payload : rio rioBuffer) (m : ST (rio rioBuffer * store) A) : M A := fun s =>
  match m (payload, st s) with Some (a, (_, t)) => Some (a, upd_st (fun _ => t) s) | None => None end.

(** [rdbLoadObjectType] and [rdbLoadObject]; [None] when either fails. *)
Definition load_payload (C : config) : ST (rio rioBuffer * store) (option oid) :=
  or_null (in_rio rdbLoadObjectType) None (fun type => rdbLoadObject C type).

Definition restoreCommand (c : Z) (argv : list oid) : M (list oid) :=
  opts ← restore_options c (drop 4 argv) false false (-1) (-1);
  match opts with
  | None => mret argv
  | Some (replace, absttl, _, _) =>
      db ← client_db c;
      key ← arg_sds argv 1;
      busy ← (if negb replace then o ← lookupKeyWrite db key; mret (bool_decide (is_Some o)) else mret false);
      if busy : bool then _ ← addReply c R_busykeyerr; mret argv
      else
        o2 ← arg argv 2;
        ttl ← getLongLongFromObjectOrReply c (Some o2) None;
        match ttl with
        | None => mret argv
        | Some ttl =>
            if ttl <? 0 then _ ← addReplyError c "Invalid TTL value, must be >= 0"; mret argv
            else
              s ← get;
              data ← arg_sds argv 3;
              ok ← lift (verifyDumpPayload (data_env (conf s)) data);
              if negb ok then _ ← addReplyError c "DUMP payload version or checksum are wrong"; mret argv
              else
                obj ← load_from (rioInitWithBuffer data) (load_payload (conf s));
                match obj with
                | None => _ ← addReplyError c "Bad data format"; mret argv
                | Some obj =>
                    _ ← (if replace : bool then _ ← dbDelete db key; mret tt else mret tt);
                    _ ← dbAdd db key obj;
                    _ ← (if negb (ttl =? 0) then
                           when ← (if negb absttl then now ← mstime; ll_arith (ttl + now) else mret ttl);
                           setExpire (Some c) db key when
                         else mret tt);
                    _ ← signalModifiedKey db key;
                    _ ← addReply c R_ok;
                    _ ← incr_dirty 1;
                    mret argv
                end
        end
  end.
