(* ===== verification/Multi.v ===== *)
(** * Transactions (multi.c, and call() of server.c)

    MULTI, EXEC, DISCARD, WATCH and UNWATCH, the queue of a client, and the execution of
    a command with its propagation. The commands that run are those of Db.v,
    TString.v, TSet.v, THash.v, BitCmd.v and Dump.v, but for BITCOUNT and BITPOS, which depend on addresses. No client is in MONITOR mode, blocked or a Lua script, and the slow log
    and the statistics of commands are not part of the model. *)

From S2P Require Import Prelude Endian Util Sds Data State Object Server Db TString BitCmd TSet THash TSetOp Dump.

(** ** The command table *)

(** The flag CMD_READONLY of the command table; none of these commands has CMD_ADMIN. *)
Definition CMD_READONLY (cmd : redisCommand) : bool :=
  match cmd with
  | GET | STRLEN | EXISTS | GETRANGE | MGET | TYPE | TTL | TOUCH | PTTL
  | GETBIT | SISMEMBER | SCARD | SMEMBERS | SINTER | SUNION | SDIFF | DUMP
  | HGET | HMGET | HLEN | HSTRLEN | HKEYS | HVALS | HGETALL | HEXISTS => true
  | _ => false
  end.

(** ** Watched keys *)

(** The loop that looks for the key among those the client watches. *)
Fixpoint already_watched (db : Z) (key : oid) (l : list watchedKey) : ST store bool :=
  match l with
  | [] => mret false
  | wk :: l =>
      if wk_db wk =? db then
        same ← equalStringObjects key (wk_key wk);
        if same : bool then mret true else already_watched db key l
      else already_watched db key l
  end.

(** The name of a key object. *)
Definition key_name (key : oid) : M sds := r ← in_store (obj key); lift (as_sds r).

Definition watchForKey (c : Z) (key : oid) : M unit :=
  cl ← this_client c;
  seen ← in_store (already_watched (c_db cl) key (watched cl));
  if seen : bool then mret tt
  else
    name ← key_name key;
    s ← get;
    _ ← (match watched_keys s !! (c_db cl, name) with
         | None =>
             _ ← modify (upd_watched_keys (insert (c_db cl, name) (key, [c])));
             in_store (incrRefCount key)
         | Some (ko, cs) => modify (upd_watched_keys (insert (c_db cl, name) (ko, (cs ++ [c])%list)))
         end);
    _ ← in_store (incrRefCount key);
    upd_client c (fun cl => set_watched (watched cl ++ [WatchedKey key (c_db cl)])%list cl).

(** Removes the first occurrence; [None] when there is none. *)
Fixpoint remove_first (c : Z) (l : list Z) : option (list Z) :=
  match l with
  | [] => None
  | d :: l => if d =? c then Some l else cons d <$> remove_first c l
  end.

Fixpoint unwatch_loop (c : Z) (l : list watchedKey) : M unit :=
  match l with
  | [] => mret tt
  | wk :: l =>
      name ← key_name (wk_key wk);
      s ← get;
      '(ko, cs) ← lift (watched_keys s !! (wk_db wk, name));
      cs ← lift (remove_first c cs);
      _ ← (match cs with
           | [] =>
               _ ← modify (upd_watched_keys (delete (wk_db wk, name)));
               in_store (decrRefCount ko)
           | _ => modify (upd_watched_keys (insert (wk_db wk, name) (ko, cs)))
           end);
      _ ← upd_client c (set_watched l);
      _ ← in_store (decrRefCount (wk_key wk));
      unwatch_loop c l
  end.

Definition unwatchAllKeys (c : Z) : M unit :=
  cl ← this_client c; unwatch_loop c (watched cl).

Definition watchCommand (c : Z) (argv : list oid) : M (list oid) :=
  cl ← this_client c;
  if CLIENT_MULTI cl then _ ← addReplyError c "WATCH inside MULTI is not allowed"; mret argv
  else
    _ ← for_each (watchForKey c) (tail argv);
    _ ← addReply c R_ok;
    mret argv.

Definition unwatchCommand (c : Z) (argv : list oid) : M (list oid) :=
  _ ← unwatchAllKeys c;
  _ ← upd_client c (set_dirty_cas false);
  _ ← addReply c R_ok;
  mret argv.

(** ** The queue *)

(** The references of a queue. *)
Definition queue_refs (q : list (redisCommand * list oid)) : list oid := q ≫= snd.

(** Releases the commands of the queue, one after the other. *)
Definition freeClientMultiState (c : Z) : M unit :=
  cl ← this_client c; for_each (fun mc => in_store (for_each decrRefCount mc.2)) (mstate cl).

Definition initClientMultiState (c : Z) : M unit := upd_client c (set_mstate []).

Definition queueMultiCommand (c : Z) (cmd : redisCommand) (argv : list oid) : M unit :=
  _ ← upd_client c (fun cl => set_mstate (mstate cl ++ [(cmd, argv)])%list cl);
  in_store (for_each incrRefCount argv).

Definition discardTransaction (c : Z) : M unit :=
  _ ← freeClientMultiState c;
  _ ← initClientMultiState c;
  _ ← upd_client c (fun cl => set_multi false (set_dirty_cas false (set_dirty_exec false cl)));
  unwatchAllKeys c.

Definition flagTransaction (c : Z) : M unit :=
  upd_client c (fun cl => if CLIENT_MULTI cl then set_dirty_exec true cl else cl).

Definition multiCommand (c : Z) (argv : list oid) : M (list oid) :=
  cl ← this_client c;
  if CLIENT_MULTI cl then _ ← addReplyError c "MULTI calls can not be nested"; mret argv
  else
    _ ← upd_client c (set_multi true);
    _ ← addReply c R_ok;
    mret argv.

Definition discardCommand (c : Z) (argv : list oid) : M (list oid) :=
  cl ← this_client c;
  if negb (CLIENT_MULTI cl) then _ ← addReplyError c "DISCARD without MULTI"; mret argv
  else
    _ ← discardTransaction c;
    _ ← addReply c R_ok;
    mret argv.

(** ** Execution *)

(** The commands that may be queued. The transaction commands never are ([exec_or_queue]). *)
Definition proc (cmd : redisCommand) (c : Z) (argv : list oid) : M (list oid) :=
  match cmd with
  | SET => setCommand c argv | SETNX => setnxCommand c argv | SETEX => setexCommand c argv
  | PSETEX => psetexCommand c argv | GET => getCommand c argv | GETSET => getsetCommand c argv
  | SETRANGE => setrangeCommand c argv | GETRANGE => getrangeCommand c argv
  | MGET => mgetCommand c argv | MSET => msetCommand c argv | MSETNX => msetnxCommand c argv
  | INCR => incrCommand c argv | DECR => decrCommand c argv
  | INCRBY => incrbyCommand c argv | DECRBY => decrbyCommand c argv
  | APPEND => appendCommand c argv | STRLEN => strlenCommand c argv
  | DEL => delCommand c argv | UNLINK => unlinkCommand c argv | EXISTS => existsCommand c argv
  | SELECT => selectCommand c argv | TYPE => typeCommand c argv
  | RENAME => renameCommand c argv | RENAMENX => renamenxCommand c argv
  | MOVE => moveCommand c argv | SWAPDB => swapdbCommand c argv
  | EXPIRE => expireCommand c argv | EXPIREAT => expireatCommand c argv
  | PEXPIRE => pexpireCommand c argv | PEXPIREAT => pexpireatCommand c argv
  | TTL => ttlCommand c argv | PTTL => pttlCommand c argv | PERSIST => persistCommand c argv
  | TOUCH => touchCommand c argv | UNWATCH => unwatchCommand c argv
  | SETBIT => setbitCommand c argv | GETBIT => getbitCommand c argv | BITFIELD => bitfieldCommand c argv
  | BITOP => E ← gets (fun s => data_env (conf s)); @bitopCommand (env_host E) c argv
  | SADD => saddCommand c argv | SREM => sremCommand c argv | SMOVE => smoveCommand c argv
  | SISMEMBER => sismemberCommand c argv | SCARD => scardCommand c argv
  | SMEMBERS | SINTER => sinterCommand c argv | SINTERSTORE => sinterstoreCommand c argv | SUNION => sunionCommand c argv
  | SUNIONSTORE => sunionstoreCommand c argv | SDIFF => sdiffCommand c argv | SDIFFSTORE => sdiffstoreCommand c argv
  | HSET | HMSET => hsetCommand c argv | HSETNX => hsetnxCommand c argv | HGET => hgetCommand c argv
  | HMGET => hmgetCommand c argv | HINCRBY => hincrbyCommand c argv | HDEL => hdelCommand c argv
  | HLEN => hlenCommand c argv | HSTRLEN => hstrlenCommand c argv | HKEYS => hkeysCommand c argv
  | HVALS => hvalsCommand c argv | HGETALL => hgetallCommand c argv | HEXISTS => hexistsCommand c argv
  | DUMP => dumpCommand c argv | RESTORE => restoreCommand c argv
  | MULTI | EXEC | DISCARD | WATCH => fail
  end.

(** The contents of an argument vector, as it is sent to the replicas and the append only file. *)
Fixpoint contents (argv : list oid) : M (list sds) :=
  match argv with
  | [] => mret []
  | o :: argv => r ← in_store (obj o); bs ← lift (string_bytes r); l ← contents argv; mret (bs :: l)
  end.

(** Runs a command; it is propagated when it changed the data set. [full] is CMD_CALL_FULL. *)
Definition call_with (run_proc : M (list oid)) (c : Z) (full : bool) : M (list oid) :=
  s ← get;
  argv ← run_proc;
  s' ← get;
  let d := dirty s' - dirty s in
  let d := if d <? 0 then 0 else d in
  _ ← (if full && negb (d =? 0) then
         db ← client_db c;
         l ← contents argv;
         modify (upd_propagated (fun p => (p ++ [PropagateCommand db l])%list))
       else mret tt);
  mret argv.

Definition call (c : Z) (cmd : redisCommand) (argv : list oid) (full : bool) : M (list oid) :=
  call_with (proc cmd c argv) c full.

Definition execCommandPropagateMulti (c : Z) : M unit :=
  db ← client_db c; modify (upd_propagated (fun p => (p ++ [PropagateMulti db])%list)).

(** The loop over the queue. The vectors that the commands leave are put back in the
    queue, and [must_propagate] is returned. *)
Fixpoint exec_loop (c : Z) (done todo : list (redisCommand * list oid)) (must_propagate : bool) : M bool :=
  match todo with
  | [] => mret must_propagate
  | (cmd, argv) :: todo =>
      must_propagate ← (if negb must_propagate && negb (CMD_READONLY cmd) then
                          _ ← execCommandPropagateMulti c; mret true
                        else mret must_propagate);
      s ← get;
      argv ← call c cmd argv (negb (loading (conf s)));
      _ ← upd_client c (set_mstate (done ++ (cmd, argv) :: todo)%list);
      exec_loop c (done ++ [(cmd, argv)])%list todo must_propagate
  end.

Definition execCommand (c : Z) (argv : list oid) : M (list oid) :=
  cl ← this_client c;
  if negb (CLIENT_MULTI cl) then _ ← addReplyError c "EXEC without MULTI"; mret argv
  else if CLIENT_DIRTY_CAS cl || CLIENT_DIRTY_EXEC cl then
    _ ← addReply c (if CLIENT_DIRTY_EXEC cl then R_execaborterr else R_nullmultibulk);
    _ ← discardTransaction c;
    mret argv
  else
    _ ← unwatchAllKeys c;
    _ ← addReplyMultiBulkLen c (zlen (mstate cl));
    must_propagate ← exec_loop c [] (mstate cl) false;
    _ ← discardTransaction c;
    _ ← (if must_propagate : bool then incr_dirty 1 else mret tt);
    mret argv.

(** The end of [processCommand]: inside MULTI the command is queued, otherwise it runs. *)
Definition exec_or_queue (c : Z) (cmd : redisCommand) (argv : list oid) : M (list oid) :=
  cl ← this_client c;
  if CLIENT_MULTI cl && negb (bool_decide (cmd = EXEC)) && negb (bool_decide (cmd = DISCARD)) &&
     negb (bool_decide (cmd = MULTI)) && negb (bool_decide (cmd = WATCH)) then
    _ ← queueMultiCommand c cmd argv;
    _ ← addReply c R_queued;
    mret argv
  else
    call_with (match cmd with
               | MULTI => multiCommand c argv
               | EXEC => execCommand c argv
               | DISCARD => discardCommand c argv
               | WATCH => watchCommand c argv
               | _ => proc cmd c argv
               end) c true.
