(* ===== verification/TStringSpec.v ===== *)
(** * What the string commands do (specification of TString.v)

    For each command its outcome on every branch, errors included. *)

From S2P Require Import Prelude Util Sds State Object Server Db DbSpec Outcome SampleState TString.

(** Encoding an argument replaces its reference; the databases and the other arguments keep
    their values. *)
Lemma encode_arg_spec s argv F i bs :
  store_ok (st s) (argv ++ F)%list -> is_arg (st s) argv i bs ->
  exists o' t, encode_arg argv i s = Some ((<[i:=o']> argv, o'), with_st t s) /\
    store_ok t (<[i:=o']> argv ++ F)%list /\ val_at t o' = Some (VStr bs) /\
    dict t = dict (st s) /\ expires t = expires (st s) /\ (forall k, view t k = view (st s) k) /\
    (<[i:=o']> argv) !! i = Some o' /\
    (forall x, x ∈ (delete i argv ++ F)%list -> val_at t x = val_at (st s) x).
Proof.
  intros Hok Ha. destruct (is_arg_val _ _ _ _ Ha) as (o & Ho & Hv).
  assert (i < length argv)%nat as Hi by (by eapply lookup_lt_Some).
  rewrite (argv_perm argv F i o Ho) in Hok.
  destruct (tryObjectEncoding_spec (share (conf s)) _ _ o bs Hok Hv) as (o' & t & Henc & Hok' & Hv' & Hst).
  exists o', t. unfold encode_arg, arg. erewrite bind_run by (by apply lift_run). run.
  erewrite bind_run by (by apply in_store_run).
  pose proof Hst as (Hd & He & Hk). split_and!; try done.
  - by rewrite (argv_insert_perm argv F i o' Hi).
  - intros k. by eapply val_step_view.
  - by apply list_lookup_insert_eq.
  - intros x Hx. by apply Hk, refs_ext.
Qed.

(** ** APPEND *)

Lemma size_sum_small a b : 0 <= a -> 0 <= b -> a + b < 2 ^ 63 -> wraps 64 (size_sum a b) = a + b.
Proof.
  intros. unfold size_sum. rewrite wraps_wrapu. apply wraps_small; [lia|].
  unfold in_s. change (64 - 1) with 63. lia.
Qed.

Definition MAX_STRING : Z := 512 * 1024 * 1024.

(** What APPEND has to do: the new value of the key, its expire time, and so on. *)
Definition append_spec (old : option value) (x : option Z) (value : sds) :
    option Object.value * option Z * bool * Z * list reply :=
  match old with
  | None => (Some (VStr value), None, true, 1, [RInt (zlen value)])
  | Some (VStr bs) =>
      if MAX_STRING <? zlen bs + zlen value then
        (old, x, false, 0, [RError "string exceeds maximum allowed size (512MB)"])
      else (Some (VStr (bs ++ value)), x, true, 1, [RInt (zlen bs + zlen value)])
  | Some (VObj _ _) => (old, x, false, 0, [R_wrongtypeerr])
  end%list.

Lemma append_new_spec s s1 argv F db key value :
  expire_step (db, key) (argv ++ F)%list s s1 -> dict (st s1) !! (db, key) = None ->
  is_arg (st s1) argv 2 value ->
  exists argv' s2, append_new argv db key s1 = Some (Some (argv', zlen value), s2) /\
    written s (db, key) (argv' ++ F)%list s2 (Some (VStr value)) None.
Proof.
  intros Hes Hk Hval. destruct (encode_arg_spec s1 argv F 2 value (es_ok _ _ _ _ Hes) Hval)
    as (o' & t & Henc & Hok2 & Hv2 & Hd2 & He2 & Hview2 & Hi & _).
  assert (2 < length argv)%nat as Hlt by (destruct Hval as (? & ? & ? & _); by eapply lookup_lt_Some).
  rewrite (argv_insert_perm argv F 2 o' Hlt) in Hok2. unfold append_new.
  erewrite bind_run by exact Henc.
  destruct (put_key s s1 _ (delete 2%nat argv ++ F)%list db key o' (VStr value) Hes (with_st t s1))
    as (s3 & Hadd & Hw & Hvk%kept_vals & Hk3); [done..|].
  rewrite Hk in Hadd. rewrite (absent_expire _ _ _ _ Hes Hk) in Hw.
  erewrite bind_run by exact Hadd.
  destruct (incrRefCount_spec (st s3) (delete 2%nat argv ++ F)%list o' (w_ok _ _ _ _ _ _ Hw)) as (t4 & Hincr & Hok4 & Hst4); [by eapply refs_dict|].
  erewrite bind_run by (by apply in_store_run).
  pose proof (heap_val_step _ _ _ Hst4) as (Hd4 & He4 & Hv4).
  assert (val_at t4 o' = Some (VStr value)) as Ho4.
  { rewrite Hv4 by (by eapply refs_dict). rewrite Hvk by (by eapply refs_dict). done. }
  erewrite bind_run by (apply in_store_same; eapply stringObjectLen_spec; [exact Hok4|apply refs_ext; set_solver|done]).
  eexists _, _. split; [done|]. destruct Hw as [Hwok Hwq Hwv Hwx].
  split; cbn.
  - by rewrite (argv_insert_perm argv F 2 o' Hlt).
  - done.
  - intros k'. rewrite <- Hwv. by eapply heap_step_view.
  - intros k'. by rewrite He4.
Qed.

Lemma append_old_spec s s1 c argv F db key o bs value :
  expire_step (db, key) (argv ++ F)%list s s1 -> dict (st s1) !! (db, key) = Some o ->
  val_at (st s1) o = Some (VStr bs) -> is_arg (st s1) argv 2 value ->
  zlen bs + zlen value <= MAX_STRING ->
  exists s2, append_old c argv db key o s1 = Some (Some (argv, zlen bs + zlen value), s2) /\
    written s (db, key) (argv ++ F)%list s2 (Some (VStr (bs ++ value)%list)) (alive_expire s (db, key)).
Proof.
  intros Hes Hk Hv Hval Hfit. pose proof (es_ok _ _ _ _ Hes) as Hok.
  assert (o ∈ refs (st s1) (argv ++ F)%list) as Ho by (by eapply refs_dict).
  assert (bytes_ok bs) as Hbs by (by eapply store_ok_bytes).
  assert (bytes_ok value) as Hvs by (by eapply is_arg_bytes).
  pose proof (zlen_nonneg bs). pose proof (zlen_nonneg value). unfold append_old, MAX_STRING in *.
  rewrite (bind_run _ _ _ _ _ (checkType_string _ _ c o bs Hok Ho Hv)).
  rewrite (bind_run _ _ _ _ _ (is_arg_run _ _ _ _ Hval)).
  erewrite bind_run by (apply in_store_same; by eapply stringObjectLen_spec).
  unfold checkStringLength. rewrite size_sum_small by lia.
  destruct (Z.gtb_spec (zlen bs + zlen value) (512 * 1024 * 1024)); [lia|]. run. cbn [negb].
  destruct (unshare_key s s1 _ db key o bs Hes Hk Hv) as (o' & s2 & Hun & Hw2 & Hk2 & Hr).
  destruct (written_again _ _ _ _ _ _ o' bs (bs ++ value)%list Hw2 Hk2 Hr) as (t & Hset & Hw & _ & _).
  { by apply Forall_app. }
  erewrite bind_run by exact Hun.
  erewrite bind_run by (apply in_store_same; unfold obj; run; by apply lift_run).
  erewrite bind_run by (by apply lift_run). cbv zeta.
  erewrite bind_run by (apply in_store_run; exact Hset).
  eexists. split; [|done]. rewrite ret_run. by rewrite zlen_app.
Qed.

(** C29 [appendCommand] appends to the string of the key, or creates the key, replies with the new length and flags the clients
    that watch the key, whose expire time stays; the string is copied first when it is shared or encoded, so no
    other key changes. For a key that exists, another type than a string and a result above 512 MB are errors that change nothing;
    the result has fewer than 2^63 bytes. *)
Theorem appendCommand_appends s c cl argv F key value :
  clients s !! c = Some cl -> store_ok (st s) (argv ++ F)%list ->
  is_arg (st s) argv 1 key -> is_arg (st s) argv 2 value ->
  let k := (c_db cl, key) in
  (forall bs, alive s k = Some (VStr bs) -> zlen bs + zlen value < 2 ^ 63) ->
  exists argv' s', appendCommand c argv s = Some (argv', s') /\
    achieves s c k (argv' ++ F)%list s' (append_spec (alive s k) (alive_expire s k) value).
Proof.
  intros Hc Hok Hkey Hval k Hsize. unfold appendCommand.
  rewrite (bind_run _ _ _ _ _ (client_db_run s c cl Hc)), (bind_run _ _ _ _ _ (is_arg_run s argv 1 key Hkey)).
  destruct (lookup_found s _ (c_db cl) key Hok) as (s1 & old & Hl & Hes & Hf).
  rewrite (bind_run _ _ _ _ _ Hl). fold k in Hes, Hf. pose proof (is_arg_es _ _ _ _ _ _ _ Hes Hval) as Hval1.
  destruct (alive s k) as [v|] eqn:Ha; cbn [append_spec]; [inversion Hf as [|o v' _ Hk Hv Ho]|inversion Hf as [_ Hk|]]; subst.
  - destruct v as [bs|t d].
    + specialize (Hsize bs eq_refl). unfold MAX_STRING. destruct (Z.ltb_spec (512 * 1024 * 1024) (zlen bs + zlen value)).
      * unfold append_old. erewrite bind_run.
        2:{ rewrite (bind_run _ _ _ _ _ (checkType_string _ _ c o bs (es_ok _ _ _ _ Hes) Ho Hv)).
            rewrite (bind_run _ _ _ _ _ (is_arg_run _ _ _ _ Hval1)).
            erewrite bind_run by (apply in_store_same; by eapply stringObjectLen_spec; [apply Hes|..]).
            unfold checkStringLength. rewrite size_sum_small by (done || apply zlen_nonneg).
            rewrite (proj2 (Z.gtb_lt _ _)) by done. run. done. }
        eexists _, _. split; [done|]. rewrite <- Ha. by apply outcome_lookup.
      * destruct (append_old_spec s s1 c argv F (c_db cl) key o bs value Hes Hk Hv Hval1) as (s2 & Hold & Hw); [done|].
        erewrite bind_run by exact Hold. cbv beta iota. rewrite (bind_run _ _ _ _ _ (signalModifiedKey_spec _ _ _)).
        eexists _, _. split; [done|]. by eapply outcome_written.
    + unfold append_old. erewrite bind_run.
      2:{ by rewrite (bind_run _ _ _ _ _ (checkType_wrong _ _ c o t d (es_ok _ _ _ _ Hes) Ho Hv)). }
      eexists _, _. split; [done|]. rewrite <- Ha. by apply outcome_lookup.
  - destruct (append_new_spec s s1 argv F (c_db cl) key value Hes Hk Hval1) as (argv' & s2 & Hnew & Hw).
    erewrite bind_run by exact Hnew. cbv beta iota. rewrite (bind_run _ _ _ _ _ (signalModifiedKey_spec _ _ _)).
    eexists _, _. split; [done|]. by eapply outcome_written.
Qed.

(** ** SET *)

(** What a command may have done to a key before it overwrites it: looked it up. *)
Record prepared (s : server) (k : Z * sds) (E : list oid) (s1 : server) : Prop := {
  pr_ok : store_ok (st s1) E;
  pr_quiet : quiet s s1;
  pr_ticks : (ticks s <= ticks s1)%nat;
  pr_view : forall k', k' <> k -> view (st s1) k' = view (st s) k';
  pr_expires : forall k', k' <> k -> expires (st s1) !! k' = expires (st s) !! k';
  pr_val : forall o, o ∈ E -> val_at (st s1) o = val_at (st s) o
}.

Lemma prepared_refl s k E : store_ok (st s) E -> prepared s k E s.
Proof. by split. Qed.

Lemma prepared_es s k E s1 : expire_step k E s s1 -> prepared s k E s1.
Proof.
  intros Hes. split; try apply Hes.
  - intros k' Hk. rewrite (es_view _ _ _ _ k' Hes). by rewrite decide_False.
  - intros k' Hk. rewrite (es_expire_at _ _ _ _ k' Hes). by rewrite decide_False.
  - intros o Ho. by eapply es_ext.
Qed.

(** The checks of SET before the key space is touched: an error, or the time to live in
    milliseconds. [e] is the expire argument: absent, not a number, or a number. *)
Definition set_check (name : string) (tu : time_unit) (e : option (option Z)) : reply + option Z :=
  match e with
  | None => inr None
  | Some None => inl (RError "value is not an integer or out of range")
  | Some (Some n) =>
      if n <=? 0 then inl (RError ("invalid expire time in " +:+ name))
      else inr (Some (match tu with UNIT_SECONDS => n * 1000 | UNIT_MILLISECONDS => n end))
  end.

(** The conditions NX and XX. *)
Definition set_refused (flags : set_flags) (old : option value) : bool :=
  (OBJ_SET_NX flags && bool_decide (is_Some old)) || (OBJ_SET_XX flags && bool_decide (old = None)).

(** The expire argument holds [e]. *)
Definition expire_arg (t : store) (E : list oid) (expire : option oid) (e : option (option Z)) : Prop :=
  match expire with
  | None => e = None
  | Some o => o ∈ E /\ exists bs, val_at t o = Some (VStr bs) /\ e = Some (string2ll bs)
  end.

(** The arithmetic of expire times does not overflow. *)
Definition times_ok (s : server) (name : string) (tu : time_unit) (e : option (option Z)) : Prop :=
  forall ms, set_check name tu e = inr (Some ms) ->
    ms <= LLONG_MAX /\ forall n, LLONG_MIN <= clock (conf s) n + ms <= LLONG_MAX.

(** The end of SET: the key is bound to the object and given its expire time. *)
Definition set_commit (c db : Z) (key : sds) (val : oid) (ms : option Z) (r : reply) : M unit :=
  _ ← setKey db key val;
  _ ← incr_dirty 1;
  _ ← (match ms with
       | Some ms => now ← mstime; when ← ll_arith (now + ms); setExpire (Some c) db key when
       | None => mret tt
       end);
  _ ← notifyKeyspaceEvent NOTIFY_STRING "set" key db;
  _ ← (match ms with
       | Some _ => notifyKeyspaceEvent NOTIFY_GENERIC "expire" key db
       | None => mret tt
       end);
  addReply c r.

(** The expire time given by [ms] at the reading [n] of the clock. *)
Definition expire_at (s : server) (n : nat) (ms : option Z) : option Z :=
  (fun ms => clock (conf s) n + ms) <$> ms.

Lemma set_commit_spec s s1 c cl E db key val v ms r :
  prepared s (db, key) (val :: E) s1 -> clients s !! c = Some cl -> val_at (st s) val = Some v ->
  (forall m, ms = Some m -> forall n, LLONG_MIN <= clock (conf s) n + m <= LLONG_MAX) ->
  exists n s', (ticks s <= n)%nat /\ set_commit c db key val ms r s1 = Some (tt, s') /\
    outcome s c (db, key) (val :: E) s' (Some v) (expire_at s n ms) true 1 [r].
Proof.
  intros [Hok1 (Qc & Qw & Qcl & Qd & _) Ht1 Hv1 Hx1 Hval1] Hc Hv Hms.
  destruct (setKey_spec s1 E db key val Hok1)
    as (s2 & Hset & Hok2 & Hc2 & Hw2 & Hd2 & _ & Ht2 & Hk2 & Hcl2 & Hv2 & Hx2 & _).
  unfold set_commit. erewrite bind_run by exact Hset. unfold incr_dirty. run.
  assert (forall k', view (st s2) k' = if decide (k' = (db, key)) then Some v else view (st s) k') as Hview.
  { intros k'. rewrite Hv2. destruct (decide (k' = (db, key))); [|by rewrite Hv1].
    rewrite Hval1 by set_solver. done. }
  assert (forall k', k' <> (db, key) -> expires (st s2) !! k' = expires (st s) !! k') as Hexp.
  { intros k' Hne. rewrite Hx2, lookup_delete_ne by done. by rewrite Hx1. }
  assert (clients s2 = touch_clients (watchers s (db, key)) (clients s)) as Hcl.
  { rewrite Hcl2. unfold watchers. by rewrite Qw, Qcl. }
  destruct ms as [m|]; cbn [expire_at fmap option_fmap option_map].
  - exists (ticks s2). assert (is_Some (clients s2 !! c)) as [cl2 Hcl2'].
    { rewrite Hcl, touch_clients_lookup, Hc. case_decide; by eexists. }
    destruct (setExpire_spec (upd_ticks S (upd_dirty (fun d => d + 1) s2)) (val :: E) c cl2 db key
      (clock (conf s) (ticks s2) + m)) as (f & Hse & Hok3); [done|cbn; rewrite Hk2; by eexists|done|].
    erewrite bind_run.
    2:{ erewrite bind_run by (unfold mstime; run; done). cbn [conf upd_dirty ticks]. rewrite Hc2, Qc.
        erewrite bind_run by (apply ll_arith_run; by apply Hms). exact Hse. }
    unfold notifyKeyspaceEvent. run.
    eexists. split; [lia|]. split; [apply modify_run|].
    split; cbn in *; try done; try congruence.
    + intros k'. destruct (decide (k' = (db, key))) as [->|Hne]; [apply lookup_insert_eq|].
      rewrite lookup_insert_ne by done. by apply Hexp.
    + by rewrite Hcl.
  - exists (ticks s). unfold notifyKeyspaceEvent. run.
    eexists. split; [done|]. split; [apply modify_run|].
    split; cbn in *; try done; try congruence.
    + intros k'. destruct (decide (k' = (db, key))) as [->|Hne]; [by rewrite Hx2, lookup_delete_eq|by apply Hexp].
    + by rewrite Hcl.
Qed.

(** The test of NX and XX is made on the live value. *)
Lemma set_refused_spec s E db key flags :
  store_ok (st s) E -> OBJ_SET_NX flags && OBJ_SET_XX flags = false ->
  exists s1, (nx ← (if OBJ_SET_NX flags then o ← lookupKeyWrite db key; mret (bool_decide (is_Some o)) else mret false);
              if nx : bool then mret true
              else if OBJ_SET_XX flags then o ← lookupKeyWrite db key; mret (bool_decide (o = None))
              else mret false) s = Some (set_refused flags (alive s (db, key)), s1) /\
    prepared s (db, key) E s1 /\ (set_refused flags (alive s (db, key)) = true -> expire_step (db, key) E s s1).
Proof.
  intros Hok Hex. destruct (lookup_found s E db key Hok) as (s1 & old & Hl & Hes & Hf).
  assert (is_Some old <-> is_Some (alive s (db, key))) as Hold.
  { destruct (alive s (db, key)) eqn:Ha; inversion Hf; subst; split; intros [? ?]; by eauto. }
  unfold set_refused. destruct (OBJ_SET_NX flags) eqn:Hnx; cbn [andb orb] in *.
  - rewrite Hex. erewrite bind_run by (by erewrite bind_run by exact Hl). exists s1.
    rewrite (bool_decide_ext _ _ Hold), orb_false_r.
    split; [by case_bool_decide|]. split; [by apply prepared_es|done].
  - run. destruct (OBJ_SET_XX flags); cbn [andb].
    + erewrite bind_run by exact Hl. exists s1. rewrite ret_run. split.
      * do 2 f_equal. apply bool_decide_ext. rewrite !eq_None_not_Some. tauto.
      * split; [by apply prepared_es|done].
    + exists s. split; [done|]. split; [by apply prepared_refl|done].
Qed.

(** What follows the checks: the test of the conditions and the store. *)
Lemma set_store_spec s c cl flags key val v ms ok_reply abort_reply E :
  clients s !! c = Some cl -> store_ok (st s) (val :: E) -> val_at (st s) val = Some v ->
  OBJ_SET_NX flags && OBJ_SET_XX flags = false ->
  (forall m, ms = Some m -> forall n, LLONG_MIN <= clock (conf s) n + m <= LLONG_MAX) ->
  let k := (c_db cl, key) in
  exists s', (nx ← (if OBJ_SET_NX flags then o ← lookupKeyWrite (c_db cl) key; mret (bool_decide (is_Some o)) else mret false);
      abort ← (if nx : bool then mret true
               else if OBJ_SET_XX flags then o ← lookupKeyWrite (c_db cl) key; mret (bool_decide (o = None))
               else mret false);
      if abort : bool then addReply c (default R_nullbulk abort_reply)
      else set_commit c (c_db cl) key val ms (default R_ok ok_reply)) s = Some (tt, s') /\
    if set_refused flags (alive s k) then
      outcome s c k (val :: E) s' (alive s k) (alive_expire s k) false 0 [default R_nullbulk abort_reply]
    else exists n, (ticks s <= n)%nat /\
      outcome s c k (val :: E) s' (Some v) (expire_at s n ms) true 1 [default R_ok ok_reply].
Proof.
  intros Hc Hok Hv Hex Hms k. destruct (set_refused_spec s _ (c_db cl) key flags Hok Hex) as (s1 & Hrun & Hp & Hes).
  fold k in Hrun, Hp, Hes. rewrite <- bind_assoc_run, (bind_run _ _ _ _ _ Hrun).
  destruct (set_refused flags (alive s k)).
  - eexists. split; [apply modify_run|]. by apply outcome_lookup, Hes.
  - destruct (set_commit_spec s s1 c cl E (c_db cl) key val v ms (default R_ok ok_reply) Hp Hc Hv Hms)
      as (n & s' & Hn & Hcm & Ho).
    exists s'. split; [done|]. by exists n.
Qed.

(** C10 [setGenericCommand] binds the key to the value with the requested expire time, drops the
    old value and the old expire time, and flags the clients that watch the key; it
    does so only if the time is a positive number and the condition NX or XX holds for
    the live value of the key, and otherwise replies with the error or the abort reply
    and leaves the key as the lookup found it. It is stated for times that do not overflow: a positive time in milliseconds, and its
    sum with any reading of the clock, fit a long long ([times_ok]); where they do not, the code overflows a signed type. At most one of
    NX and XX is given, which [setCommand] ensures. *)
Theorem setGenericCommand_sets s c cl name flags key val v expire tu ok_reply abort_reply E e :
  clients s !! c = Some cl -> store_ok (st s) (val :: E) -> val_at (st s) val = Some v ->
  OBJ_SET_NX flags && OBJ_SET_XX flags = false ->
  expire_arg (st s) (val :: E) expire e -> times_ok s name tu e ->
  let k := (c_db cl, key) in
  exists s', setGenericCommand c name flags key val expire tu ok_reply abort_reply s = Some (tt, s') /\
    match set_check name tu e with
    | inl err => s' = upd_clients (alter (says [err]) c) s
    | inr ms =>
        if set_refused flags (alive s k) then
          outcome s c k (val :: E) s' (alive s k) (alive_expire s k) false 0 [default R_nullbulk abort_reply]
        else exists n, (ticks s <= n)%nat /\
          outcome s c k (val :: E) s' (Some v) (expire_at s n ms) true 1 [default R_ok ok_reply]
    end.
Proof.
  intros Hc Hok Hv Hex He Htimes k. unfold setGenericCommand.
  rewrite (bind_run _ _ _ _ _ (client_db_run s c cl Hc)).
  assert (forall ms, set_check name tu e = inr ms -> exists s', _) as Hmain
    by (intros ms Hms; exact (set_store_spec s c cl flags key val v ms ok_reply abort_reply E Hc Hok Hv Hex
      (fun m Hm => proj2 (Htimes m (eq_trans Hms (f_equal inr Hm)))))).
  destruct expire as [o|]; cbn in He.
  - destruct He as (Ho & bs & Hbs & ->). cbn [set_check] in *.
    pose proof (getLongLongOrReply_spec s _ c o bs None Hok (refs_ext _ _ _ Ho) Hbs) as Hget.
    destruct (string2ll bs) as [n|]; cbn [default] in Hget.
    + destruct (Z.leb_spec n 0).
      * erewrite bind_run by (erewrite bind_run by exact Hget; cbv beta iota; rewrite (proj2 (Z.leb_le n 0)) by done; run; done).
        eexists. split; [done|]. done.
      * destruct (Hmain _ eq_refl) as (s' & Hrun & Hout). exists s'. split; [|done].
        rewrite (bind_run _ _ s (Some (Some (match tu with UNIT_SECONDS => n * 1000 | UNIT_MILLISECONDS => n end))) s); [exact Hrun|].
        erewrite bind_run by exact Hget. cbv beta iota.
        rewrite (proj2 (Z.leb_gt n 0)) by done.
        destruct tu; [|done]. erewrite bind_run; [done|]. apply ll_arith_run. unfold LLONG_MIN in *.
        destruct (Htimes (n * 1000)); [|lia]. cbn [set_check]. by rewrite (proj2 (Z.leb_gt n 0)).
    + erewrite bind_run by (erewrite bind_run by exact Hget; done). eexists. split; [done|]. done.
  - subst e. destruct (Hmain None eq_refl) as (s' & Hrun & Hout). exists s'. split; [|done]. run. exact Hrun.
Qed.

(** ** INCR and DECR *)

Definition number_of (old : option value) : option Z :=
  match old with Some (VStr bs) => string2ll bs | _ => Some 0 end.

(** What INCRBY has to do; an absent key counts as 0. *)
Definition incr_spec (old : option value) (x : option Z) (incr : Z) :
    option value * option Z * bool * Z * list reply :=
  match old with
  | Some (VObj _ _) => (old, x, false, 0, [R_wrongtypeerr])
  | _ =>
      match number_of old with
      | None => (old, x, false, 0, [RError "value is not an integer or out of range"])
      | Some n =>
          if (LLONG_MIN <=? n + incr) && (n + incr <=? LLONG_MAX) then
            (Some (VStr (sdec (n + incr))), x, true, 1, [RInt (n + incr)])
          else (old, x, false, 0, [RError "increment or decrement would overflow"])
      end
  end.

(** The test of the code for an overflow, which does not overflow itself, is exact. *)
Lemma incr_overflow_test n incr :
  in_s 64 n -> in_s 64 incr ->
  ((incr <? 0) && (n <? 0) && (incr <? LLONG_MIN - n)) || ((incr >? 0) && (n >? 0) && (incr >? LLONG_MAX - n)) =
    negb ((LLONG_MIN <=? n + incr) && (n + incr <=? LLONG_MAX)).
Proof.
  unfold in_s, LLONG_MIN, LLONG_MAX. change (64 - 1) with 63. intros [? ?] [? ?]. rewrite !Z.gtb_ltb.
  destruct (Z.ltb_spec incr 0), (Z.ltb_spec n 0), (Z.ltb_spec incr (- 2 ^ 63 - n)), (Z.ltb_spec 0 incr),
    (Z.ltb_spec 0 n), (Z.ltb_spec (2 ^ 63 - 1 - n) incr), (Z.leb_spec (- 2 ^ 63) (n + incr)),
    (Z.leb_spec (n + incr) (2 ^ 63 - 1)); cbn; try done; lia.
Qed.

Lemma kept_payload l t t' o r : kept l t t' -> o ∈ l -> obj_at t o = Some r ->
  exists r', obj_at t' o = Some r' /\ ptr r' = ptr r.
Proof.
  intros Hk Ho Hr. destruct (Hk o Ho) as (r1 & r2 & H1 & H2 & H3). replace r1 with r in * by congruence.
  exists r2. split; [done|]. unfold same_obj, with_refcount in H3. by injection H3.
Qed.

(** A new object with the number [n] is bound to the key. *)
Lemma incr_put s s1 E db key n :
  expire_step (db, key) E s s1 -> in_s 64 n ->
  exists o t s3, createStringObjectFromLongLongForValue (share (conf s1)) n (st s1) = Some (o, t) /\
    put db key o (dict (st s1) !! (db, key)) (with_st t s1) = Some (tt, s3) /\
    written s (db, key) E s3 (Some (VStr (sdec n))) (alive_expire s (db, key)) /\
    exists r, obj_at (st s3) o = Some r /\ ptr r = PLong n.
Proof.
  intros Hes Hn. unfold createStringObjectFromLongLongForValue.
  destruct (createStringFromLL_spec (share (conf s1)) (st s1) E n true (es_ok _ _ _ _ Hes) Hn)
    as (o & t & Hcr & Hok & Hv & Hst & r & Hr & Hp).
  destruct (put_key s s1 E E db key o (VStr (sdec n)) Hes (with_st t s1)) as (s3 & Hput & Hw & Hkept & Hk3);
    [done|done|apply Hst|apply Hst| |done|].
  { intros k'. by eapply val_step_view. }
  exists o, t, s3. split_and!; [done..|].
  destruct (kept_payload _ _ _ o r Hkept) as (r' & Hr' & Hp'); [by eapply refs_dict|done|].
  exists r'. split; [done|]. by rewrite Hp'.
Qed.

(** An unshared number is overwritten in place. *)
Lemma incr_in_place s s1 E db key o r n :
  expire_step (db, key) E s s1 -> dict (st s1) !! (db, key) = Some o -> obj_at (st s1) o = Some r ->
  refcount r = 1 -> encoding r = OBJ_ENCODING_INT -> type r = OBJ_STRING -> in_s 64 n ->
  exists t, set_obj o (with_ptr (PLong n) r) (st s1) = Some (tt, t) /\
    written s (db, key) E (with_st t s1) (Some (VStr (sdec n))) (alive_expire s (db, key)) /\
    obj_at t o = Some (with_ptr (PLong n) r).
Proof.
  intros Hes Hk Hr H1 He Ht Hn. destruct r as [ty en p c]. cbn in H1, He, Ht. subst.
  destruct (write_obj (st s1) E (db, key) o _ (Robj OBJ_STRING OBJ_ENCODING_INT (PLong n) 1)
    (es_ok _ _ _ _ Hes) Hk Hr) as (t & Hset & Hok & Hd & Hx & Ho & Hv & _); [done|exact Hn|done|].
  exists t. split_and!; [done| |done]. split; cbn; [done| | |].
  - eapply quiet_trans; [apply Hes|apply quiet_with_st].
  - intros k'. rewrite Hv. destruct (decide (k' = (db, key))); [done|].
    rewrite (es_view _ _ _ _ k' Hes). by rewrite decide_False.
  - intros k'. rewrite Hx. by apply (es_expire_at _ E).
Qed.

Lemma incr_store_spec s s1 E db key old v n :
  expire_step (db, key) E s s1 -> found s s1 (db, key) E old v -> (forall t d, v <> Some (VObj t d)) -> in_s 64 n ->
  exists o s2, incr_store db key old n s1 = Some (o, s2) /\
    written s (db, key) E s2 (Some (VStr (sdec n))) (alive_expire s (db, key)) /\
    exists r, obj_at (st s2) o = Some r /\ ptr r = PLong n.
Proof.
  intros Hes Hf Hstr Hn. destruct (incr_put s s1 E db key n Hes Hn) as (o & t & s3 & Hcr & Hput & Hw & Hr).
  unfold incr_store. run. destruct Hf as [_ Hk|o1 v _ Hk Hv Hin]; rewrite Hk in Hput; cbn [put] in Hput.
  - erewrite bind_run by (by apply in_store_run). erewrite bind_run by exact Hput. by exists o, s3.
  - destruct v as [bs|ty d]; [|by destruct (Hstr ty d)].
    destruct (string_run _ _ (es_ok _ _ _ _ Hes) o1 bs Hin Hv) as (r & Hrun & Hr1 & Hs).
    erewrite bind_run by (by apply in_store_same).
    destruct (_ && _) eqn:Hb.
    + do 3 (apply andb_true_iff in Hb as [Hb _]). apply andb_true_iff in Hb as [H1 He]. zbool.
      apply bool_decide_eq_true_1 in He.
      destruct (incr_in_place s s1 E db key o1 r n Hes Hk Hr1 H1 He) as (t' & Hset & Hw' & Hr'); [by eapply string_obj_type|done|].
      erewrite bind_run by (by apply in_store_run). exists o1, (with_st t' s1). split_and!; [done..|].
      by eexists.
    + erewrite bind_run by (by apply in_store_run). erewrite bind_run by exact Hput. by exists o, s3.
Qed.

Lemma is_other (v : option value) :
  (exists t d, v = Some (VObj t d)) \/ (forall t d, v <> Some (VObj t d)).
Proof. destruct v as [[bs|t d]|]; [by right|left; by eexists _, _|by right]. Qed.

Lemma incr_spec_number old x incr :
  (forall t d, old <> Some (VObj t d)) ->
  incr_spec old x incr =
    match number_of old with
    | None => (old, x, false, 0, [RError "value is not an integer or out of range"])
    | Some n =>
        if (LLONG_MIN <=? n + incr) && (n + incr <=? LLONG_MAX) then
          (Some (VStr (sdec (n + incr))), x, true, 1, [RInt (n + incr)])
        else (old, x, false, 0, [RError "increment or decrement would overflow"])
    end.
Proof. intros Hstr. destruct old as [[bs|t d]|]; [done|by destruct (Hstr t d)|done]. Qed.

Lemma ll_in_s v : LLONG_MIN <= v -> v <= LLONG_MAX -> in_s 64 v.
Proof. unfold LLONG_MIN, LLONG_MAX, in_s. change (64 - 1) with 63. lia. Qed.

(** The number of a key that was looked up. *)
Lemma read_number s s1 k E old c v :
  store_ok (st s1) E -> found s s1 k E old v -> (forall t d, v <> Some (VObj t d)) ->
  (match old with Some o => checkType c o OBJ_STRING | None => mret false end) s1 = Some (false, s1) /\
  getLongLongFromObjectOrReply c old None s1 = match number_of v with
    | Some n => Some (Some n, s1)
    | None => Some (None, upd_clients (alter (says [RError "value is not an integer or out of range"]) c) s1)
    end /\
  (forall n, number_of v = Some n -> in_s 64 n).
Proof.
  intros Hok Hf Hstr. destruct Hf as [_ Hk|o v _ Hk Hv Hin].
  - split_and!; [done|by destruct s1|]. intros n [= <-]. by apply ll_in_s.
  - destruct v as [bs|t d]; [|by destruct (Hstr t d)]. split_and!.
    + by eapply checkType_string.
    + by rewrite (getLongLongOrReply_spec _ _ _ _ _ _ Hok Hin Hv).
    + intros n Hn. by apply string2ll_sound in Hn as [? _].
Qed.

(** C28 [incrDecrCommand] replaces the number of the key by its sum with the increment, in decimal, and
    keeps its expire time, whether the object is overwritten in place or replaced; a
    value of another type, a string that is not a canonical 64-bit integer and a sum out
    of the range of [long long] are errors that change nothing. The sum itself never
    overflows. *)
Theorem incrDecrCommand_adds s c cl argv F key incr :
  clients s !! c = Some cl -> store_ok (st s) (argv ++ F)%list -> is_arg (st s) argv 1 key -> in_s 64 incr ->
  let k := (c_db cl, key) in
  exists s', incrDecrCommand c argv incr s = Some (argv, s') /\
    achieves s c k (argv ++ F)%list s' (incr_spec (alive s k) (alive_expire s k) incr).
Proof.
  intros Hc Hok Hkey Hincr k. unfold incrDecrCommand.
  rewrite (bind_run _ _ _ _ _ (client_db_run s c cl Hc)), (bind_run _ _ _ _ _ (is_arg_run s argv 1 key Hkey)).
  destruct (lookup_found s _ (c_db cl) key Hok) as (s1 & old & Hl & Hes & Hf).
  rewrite (bind_run _ _ _ _ _ Hl). fold k in Hes, Hf.
  pose proof (es_ok _ _ _ _ Hes) as Hok1.
  destruct (is_other (alive s k)) as [(t & d & Ha)|Hstr].
  { rewrite Ha in Hf |- *. inversion Hf as [|o v' _ Hk Hv Ho]. subst.
    erewrite bind_run by (exact (checkType_wrong _ _ c o t d Hok1 Ho Hv)).
    eexists. split; [done|]. cbn. rewrite <- Ha. by apply outcome_lookup. }
  destruct (read_number s s1 k _ old c (alive s k) Hok1 Hf Hstr) as (Hty & Hget & Hrange).
  erewrite bind_run by exact Hty. cbv beta iota. rewrite (incr_spec_number _ _ _ Hstr).
  destruct (number_of (alive s k)) as [n|]; erewrite bind_run by exact Hget.
  2:{ eexists. split; [done|]. by apply outcome_lookup. }
  specialize (Hrange n eq_refl). cbv beta iota. rewrite incr_overflow_test by done.
  destruct (_ && _) eqn:Hfit; cbn [negb].
  2:{ eexists. split; [done|]. by apply outcome_lookup. }
  apply andb_true_iff in Hfit as [Hlo Hhi]. zbool.
  erewrite bind_run by (by apply ll_arith_run).
  destruct (incr_store_spec s s1 _ (c_db cl) key old _ (n + incr) Hes Hf Hstr) as (o & s2 & Hst & Hw & r & Hr & Hp).
  { by apply ll_in_s. }
  erewrite bind_run by exact Hst. rewrite (bind_run _ _ _ _ _ (signalModifiedKey_spec _ _ _)).
  unfold notifyKeyspaceEvent, incr_dirty. run.
  erewrite bind_run by (apply in_store_same; unfold obj; run; apply lift_run; exact Hr).
  erewrite bind_run by (apply lift_run; unfold as_long; by rewrite Hp).
  eexists. split; [done|]. by eapply outcome_written.
Qed.

(** ** SETRANGE *)

(** The bytes [bs], padded with zeros to reach the offset, with [value] written over them. *)
Definition patch (bs : sds) (offset : Z) (value : sds) : sds :=
  let padded := bs ++ replicate (Z.to_nat (offset + zlen value - zlen bs)) 0 in
  take (Z.to_nat offset) padded ++ value ++ drop (Z.to_nat (offset + zlen value)) padded.

(** What SETRANGE has to do once the offset is known to be valid. *)
Definition setrange_spec (old : option value) (x : option Z) (offset : Z) (value : sds) :
    option Object.value * option Z * bool * Z * list reply :=
  match old with
  | Some (VObj _ _) => (old, x, false, 0, [R_wrongtypeerr])
  | _ =>
      let bs := match old with Some (VStr bs) => bs | _ => [] end in
      if zlen value =? 0 then (old, x, false, 0, [RInt (zlen bs)])
      else if MAX_STRING <? offset + zlen value then
        (old, x, false, 0, [RError "string exceeds maximum allowed size (512MB)"])
      else (Some (VStr (patch bs offset value)), x, true, 1, [RInt (Z.max (zlen bs) (offset + zlen value))])
  end.

Lemma zlen_patch bs offset value : 0 <= offset -> zlen (patch bs offset value) = Z.max (zlen bs) (offset + zlen value).
Proof.
  intros Ho. pose proof (zlen_nonneg bs). pose proof (zlen_nonneg value). unfold patch, zlen in *.
  rewrite !length_app, length_take, length_drop, length_app, length_replicate. lia.
Qed.

Lemma bytes_patch bs offset value : bytes_ok bs -> bytes_ok value -> bytes_ok (patch bs offset value).
Proof.
  intros Hb Hv. assert (bytes_ok (bs ++ replicate (Z.to_nat (offset + zlen value - zlen bs)) 0)) as Hp.
  { apply Forall_app. split; [done|]. by apply Forall_replicate. }
  unfold patch. apply Forall_app. split; [by apply Forall_take|].
  apply Forall_app. split; [done|by apply Forall_drop].
Qed.

Lemma wr_patch bs offset value :
  0 <= offset ->
  wr (bs ++ replicate (Z.to_nat (offset + zlen value - zlen bs)) 0) offset value = Some (patch bs offset value).
Proof.
  intros Ho. unfold wr. rewrite (proj2 (Z.leb_le 0 offset)) by done.
  rewrite (proj2 (Z.leb_le _ _)); [done|]. unfold zlen. rewrite length_app, length_replicate. lia.
Qed.

(** Memory for [offset] and the length of [value] is there, and [sdsgrowzero] pads the string. *)
Lemma sdsgrowzero_spec bs offset len s :
  0 <= offset -> 0 <= len -> offset + len < 2 ^ 63 ->
  sdsgrowzero bs (size_sum offset len) s = Some (bs ++ replicate (Z.to_nat (offset + len - zlen bs)) 0, s)%list.
Proof.
  intros Ho Hl Hs. unfold sdsgrowzero, size_sum. rewrite wrapu_small by (unfold in_u; lia).
  destruct (Z.leb_spec (offset + len) (zlen bs)).
  - rewrite (Z2Nat.nonpos (offset + len - zlen bs)) by lia. cbn. by rewrite app_nil_r.
  - erewrite bind_run; [done|]. unfold alloc_size. pose proof (zlen_nonneg bs).
    apply assert_run, andb_true_iff. split; [apply Z.leb_le|apply Z.ltb_lt]; lia.
Qed.

Lemma write_at_spec s k E s2 v x o bs offset value :
  written s k E s2 v x -> dict (st s2) !! k = Some o ->
  obj_at (st s2) o = Some (Robj OBJ_STRING OBJ_ENCODING_RAW (PSds bs) 1) -> bytes_ok bs -> bytes_ok value ->
  0 <= offset -> offset + zlen value < 2 ^ 63 ->
  exists s3, write_at o offset value s2 = Some (Z.max (zlen bs) (offset + zlen value), s3) /\
    written s k E s3 (Some (VStr (patch bs offset value))) x.
Proof.
  intros Hw Hk Hr Hbs Hval Ho Hfit. pose proof (zlen_nonneg value).
  destruct (written_again s k E s2 v x o bs (patch bs offset value) Hw Hk Hr) as (t & Hset & Hw' & _ & _); [by apply bytes_patch|].
  unfold write_at. erewrite bind_run by (apply in_store_same; unfold obj; run; by apply lift_run).
  erewrite bind_run by (by apply lift_run).
  erewrite bind_run by (by apply sdsgrowzero_spec).
  erewrite bind_run by (apply lift_run; by apply wr_patch).
  erewrite bind_run by (by apply in_store_run). rewrite ret_run, zlen_patch by done. by eexists.
Qed.

Lemma checkStringLength_spec c size s :
  checkStringLength c size s =
    if MAX_STRING <? size then
      Some (false, upd_clients (alter (says [RError "string exceeds maximum allowed size (512MB)"]) c) s)
    else Some (true, s).
Proof. unfold checkStringLength, MAX_STRING. rewrite Z.gtb_ltb. by destruct (_ <? _). Qed.

(** An absent key is created with a string of [n] zero bytes. *)
Lemma new_zeros s s1 E db key n :
  expire_step (db, key) E s s1 -> dict (st s1) !! (db, key) = None -> 0 <= n < 2 ^ 63 ->
  exists o s2, (bs ← sdszero n; o ← in_store (createObject OBJ_STRING (PSds bs)); _ ← dbAdd db key o; mret (Some o)) s1 =
      Some (Some o, s2) /\
    let zeros := replicate (Z.to_nat n) 0 in
    written s (db, key) E s2 (Some (VStr zeros)) (alive_expire s (db, key)) /\ dict (st s2) !! (db, key) = Some o /\
    obj_at (st s2) o = Some (Robj OBJ_STRING OBJ_ENCODING_RAW (PSds zeros) 1).
Proof.
  intros Hes Hk Hn. erewrite bind_run.
  2:{ unfold sdszero. erewrite bind_run; [done|]. apply assert_run, andb_true_iff.
      split; [apply Z.leb_le|apply Z.ltb_lt]; lia. }
  set (zeros := replicate (Z.to_nat n) 0).
  destruct (alloc_string (st s1) E zeros (Robj OBJ_STRING OBJ_ENCODING_RAW (PSds zeros) 1) (es_ok _ _ _ _ Hes))
    as (o & t & Hnew & Hok & Hr & Hv & Hfresh & Hst%heap_val_step); [constructor; by apply Forall_replicate|done|].
  erewrite bind_run by (by apply in_store_run).
  destruct (put_key s s1 E E db key o (VStr zeros) Hes (with_st t s1)) as (s3 & Hput & Hw & Hkept & Hk3);
    [done|done|apply Hst|apply Hst| |done|].
  { intros k'. by eapply val_step_view. }
  rewrite Hk in Hput. cbn [put] in Hput. erewrite bind_run by exact Hput.
  exists o, s3. split; [done|]. cbv zeta. split_and!; [done..|]. destruct o as [m|q]; [done|]. cbn. rewrite (dbAdd_objs _ _ _ _ _ _ Hput). exact Hr.
Qed.

Lemma setrange_new_spec s s1 E c db key offset value :
  expire_step (db, key) E s s1 -> dict (st s1) !! (db, key) = None ->
  0 <= offset -> 0 < zlen value -> offset + zlen value <= MAX_STRING ->
  exists o s2, setrange_new c db key offset value s1 = Some (Some o, s2) /\
    let zeros := replicate (Z.to_nat (offset + zlen value)) 0 in
    written s (db, key) E s2 (Some (VStr zeros)) (alive_expire s (db, key)) /\ dict (st s2) !! (db, key) = Some o /\
    obj_at (st s2) o = Some (Robj OBJ_STRING OBJ_ENCODING_RAW (PSds zeros) 1).
Proof.
  intros Hes Hk Ho Hlen Hfit. unfold setrange_new. rewrite (proj2 (Z.eqb_neq _ _)) by lia.
  unfold MAX_STRING in *. erewrite bind_run.
  2:{ rewrite checkStringLength_spec, size_sum_small by lia. by rewrite (proj2 (Z.ltb_ge _ _)) by (unfold MAX_STRING; lia). }
  cbn [negb]. unfold size_sum. rewrite wrapu_small by (unfold in_u; lia). apply (new_zeros s s1 E); [done..|lia].
Qed.

Lemma setrange_old_spec s s1 E c db key o bs offset value :
  expire_step (db, key) E s s1 -> dict (st s1) !! (db, key) = Some o -> val_at (st s1) o = Some (VStr bs) ->
  0 <= offset -> 0 < zlen value -> offset + zlen value <= MAX_STRING ->
  exists o' s2, setrange_old c db key offset value o s1 = Some (Some o', s2) /\
    written s (db, key) E s2 (Some (VStr bs)) (alive_expire s (db, key)) /\ dict (st s2) !! (db, key) = Some o' /\
    obj_at (st s2) o' = Some (Robj OBJ_STRING OBJ_ENCODING_RAW (PSds bs) 1).
Proof.
  intros Hes Hk Hv Ho Hlen Hfit. pose proof (es_ok _ _ _ _ Hes) as Hok.
  assert (o ∈ refs (st s1) E) as Hin by (by eapply refs_dict).
  destruct (unshare_key s s1 E db key o bs Hes Hk Hv) as (o' & s2 & Hun & Hw & Hk2 & Hr).
  unfold setrange_old. rewrite (bind_run _ _ _ _ _ (checkType_string _ _ c o bs Hok Hin Hv)). cbv beta iota.
  erewrite bind_run by (apply in_store_same; by eapply stringObjectLen_spec).
  rewrite (proj2 (Z.eqb_neq _ _)) by lia. unfold MAX_STRING in *. erewrite bind_run.
  2:{ rewrite checkStringLength_spec, size_sum_small by lia. by rewrite (proj2 (Z.ltb_ge _ _)) by (unfold MAX_STRING; lia). }
  cbn [negb]. erewrite bind_run by exact Hun. by exists o', s2.
Qed.

Lemma patch_zeros offset value :
  0 <= offset -> patch (replicate (Z.to_nat (offset + zlen value)) 0) offset value = patch [] offset value.
Proof.
  intros Ho. pose proof (zlen_nonneg value). unfold patch.
  rewrite (Z2Nat.nonpos (offset + zlen value - zlen (replicate _ _))), app_nil_r by (unfold zlen in *; rewrite length_replicate; lia).
  change (zlen []) with 0. by rewrite Z.sub_0_r.
Qed.

(** The branches of SETRANGE: an early reply, or an unshared string to write. *)
Lemma setrange_target s s1 E c db key old v x offset value :
  expire_step (db, key) E s s1 -> found s s1 (db, key) E old v ->
  0 <= offset -> offset + zlen value < 2 ^ 63 ->
  let target := match old with
                | None => setrange_new c db key offset value
                | Some o => setrange_old c db key offset value o
                end in
  (exists rs, target s1 = Some (None, upd_clients (alter (says rs) c) s1) /\
     setrange_spec v x offset value = (v, x, false, 0, rs)) \/
  (exists o s2 bs bs' v', target s1 = Some (Some o, s2) /\
     written s (db, key) E s2 v' (alive_expire s (db, key)) /\ dict (st s2) !! (db, key) = Some o /\
     obj_at (st s2) o = Some (Robj OBJ_STRING OBJ_ENCODING_RAW (PSds bs) 1) /\ bytes_ok bs /\
     patch bs offset value = patch bs' offset value /\
     Z.max (zlen bs) (offset + zlen value) = Z.max (zlen bs') (offset + zlen value) /\
     setrange_spec v x offset value =
       (Some (VStr (patch bs' offset value)), x, true, 1, [RInt (Z.max (zlen bs') (offset + zlen value))])).
Proof.
  intros Hes Hf Ho Hfit. pose proof (zlen_nonneg value). pose proof (es_ok _ _ _ _ Hes) as Hok.
  destruct Hf as [_ Hk|o v _ Hk Hv Hin]; cbn [setrange_spec].
  - destruct (Z.eqb_spec (zlen value) 0) as [Hz|Hnz].
    { left. eexists. split; [|done]. unfold setrange_new. by rewrite (proj2 (Z.eqb_eq _ _)) by done. }
    destruct (Z.ltb_spec MAX_STRING (offset + zlen value)).
    { left. eexists. split; [|done]. unfold setrange_new. rewrite (proj2 (Z.eqb_neq _ _)) by done. erewrite bind_run.
      2:{ rewrite checkStringLength_spec, size_sum_small by lia. by rewrite (proj2 (Z.ltb_lt _ _)). }
      done. }
    right. destruct (setrange_new_spec s s1 E c db key offset value Hes Hk Ho) as (o & s2 & Hrun & Hw & Hk2 & Hr); [lia|done|].
    exists o, s2, (replicate (Z.to_nat (offset + zlen value)) 0), [], (Some (VStr (replicate (Z.to_nat (offset + zlen value)) 0))).
    split_and!; try done; [by apply Forall_replicate|by apply patch_zeros|].
    unfold zlen at 1. rewrite length_replicate. change (zlen []) with 0. lia.
  - destruct v as [bs|t d].
    2:{ left. eexists. split; [|done]. unfold setrange_old.
        by rewrite (bind_run _ _ _ _ _ (checkType_wrong _ _ c o t d Hok Hin Hv)). }
    destruct (Z.eqb_spec (zlen value) 0) as [Hz|Hnz].
    { left. eexists. split; [|done]. unfold setrange_old.
      rewrite (bind_run _ _ _ _ _ (checkType_string _ _ c o bs Hok Hin Hv)). cbv beta iota.
      erewrite bind_run by (apply in_store_same; by eapply stringObjectLen_spec). by rewrite (proj2 (Z.eqb_eq _ _)) by done. }
    destruct (Z.ltb_spec MAX_STRING (offset + zlen value)).
    { left. eexists. split; [|done]. unfold setrange_old.
      rewrite (bind_run _ _ _ _ _ (checkType_string _ _ c o bs Hok Hin Hv)). cbv beta iota.
      erewrite bind_run by (apply in_store_same; by eapply stringObjectLen_spec). rewrite (proj2 (Z.eqb_neq _ _)) by done.
      erewrite bind_run.
      2:{ rewrite checkStringLength_spec, size_sum_small by lia. by rewrite (proj2 (Z.ltb_lt _ _)). }
      done. }
    right. destruct (setrange_old_spec s s1 E c db key o bs offset value Hes Hk Hv Ho) as (o' & s2 & Hrun & Hw & Hk2 & Hr); [lia|done|].
    exists o', s2, bs, bs, (Some (VStr bs)). split_and!; try done. by eapply store_ok_bytes.
Qed.

Lemma getLongOrReply_spec s E c o bs msg :
  store_ok (st s) E -> o ∈ refs (st s) E -> val_at (st s) o = Some (VStr bs) ->
  getLongFromObjectOrReply c (Some o) msg s =
    match string2ll bs with
    | Some v => Some (Some v, s)
    | None => Some (None, upd_clients (alter (says [RError (default "value is not an integer or out of range"%string msg)]) c) s)
    end.
Proof.
  intros Hok Ho Hv. unfold getLongFromObjectOrReply.
  pose proof (getLongLongOrReply_spec s E c o bs msg Hok Ho Hv) as Hget.
  destruct (string2ll bs) as [v|] eqn:Hn; erewrite bind_run by exact Hget; [|done].
  apply string2ll_sound in Hn as [[? ?] _]. change (64 - 1) with 63 in *. unfold LONG_MIN, LONG_MAX.
  rewrite Z.gtb_ltb, !(proj2 (Z.ltb_ge _ _)) by lia. done.
Qed.

(** [setrangeCommand] writes the value over the string of the key at the offset, after padding it
    with zero bytes, and creates an absent key; other branches are the errors and the
    empty value, which change nothing. The offset and the length of the value must
    not sum to [2 ^ 63] or more. *)
Theorem setrangeCommand_writes s c cl argv F key ob value :
  clients s !! c = Some cl -> store_ok (st s) (argv ++ F)%list ->
  is_arg (st s) argv 1 key -> is_arg (st s) argv 2 ob -> is_arg (st s) argv 3 value ->
  (forall n, string2ll ob = Some n -> n + zlen value < 2 ^ 63) ->
  let k := (c_db cl, key) in
  exists s', setrangeCommand c argv s = Some (argv, s') /\
    match string2ll ob with
    | None => s' = upd_clients (alter (says [RError "value is not an integer or out of range"]) c) s
    | Some offset =>
        if offset <? 0 then s' = upd_clients (alter (says [RError "offset is out of range"]) c) s
        else achieves s c k (argv ++ F)%list s' (setrange_spec (alive s k) (alive_expire s k) offset value)
    end.
Proof.
  intros Hc Hok Hkey Hoff Hval Hsum k. unfold setrangeCommand.
  rewrite (bind_run _ _ _ _ _ (client_db_run s c cl Hc)), (bind_run _ _ _ _ _ (is_arg_run s argv 1 key Hkey)),
    (bind_run _ _ _ _ _ (is_arg_run s argv 3 value Hval)).
  destruct (is_arg_val _ _ _ _ Hoff) as (o2 & Ho2 & Hv2).
  erewrite bind_run by (by apply lift_run).
  pose proof (getLongOrReply_spec s _ c o2 ob None Hok (refs_ext _ _ _ (arg_in _ F _ _ Ho2)) Hv2) as Hget.
  destruct (string2ll ob) as [offset|]; erewrite bind_run by exact Hget; cbv beta iota.
  2:{ eexists. split; [done|]. done. }
  specialize (Hsum offset eq_refl). destruct (Z.ltb_spec offset 0) as [Hneg|Hpos].
  { eexists. split; [done|]. done. }
  destruct (lookup_found s _ (c_db cl) key Hok) as (s1 & old & Hl & Hes & Hf).
  rewrite (bind_run _ _ _ _ _ Hl). fold k in Hes, Hf.
  destruct (setrange_target s s1 _ c (c_db cl) key old _ (alive_expire s k) offset value Hes Hf Hpos Hsum)
    as [(rs & Hrun & ->)|(o & s2 & bs & bs' & v' & Hrun & Hw & Hk2 & Hr & Hbs & Hpatch & Hmax & ->)].
  - erewrite bind_run by exact Hrun. eexists. split; [done|]. by apply outcome_lookup.
  - erewrite bind_run by exact Hrun. cbv beta iota.
    destruct (write_at_spec s k _ s2 v' _ o bs offset value Hw Hk2 Hr Hbs) as (s3 & Hwr & Hw3); [by eapply is_arg_bytes|done..|].
    erewrite bind_run by exact Hwr. rewrite (bind_run _ _ _ _ _ (signalModifiedKey_spec _ _ _)).
    rewrite Hpatch in Hw3. rewrite Hmax. eexists. split; [done|]. by eapply outcome_written.
Qed.

(** The end of the range to write is not a [long long]. *)
Definition past_llong (offset : Z) (value : sds) : Prop := LLONG_MAX < offset + zlen value.

(** SETRANGE of an absent key with an offset near [2 ^ 63] stops the server: the sum of the
    offset and the length passes the check for 512 MB as a negative [long long], and is
    then requested from the allocator as a [size_t]. *)
Theorem setrangeCommand_huge_offset s c cl argv F key ob value offset :
  clients s !! c = Some cl -> store_ok (st s) (argv ++ F)%list ->
  is_arg (st s) argv 1 key -> is_arg (st s) argv 2 ob -> is_arg (st s) argv 3 value ->
  string2ll ob = Some offset -> 0 < zlen value < 2 ^ 62 -> past_llong offset value ->
  alive s (c_db cl, key) = None ->
  setrangeCommand c argv s = None.
Proof.
  intros Hc Hok Hkey Hoff Hval Hn Hlen Hbig Ha. unfold past_llong, LLONG_MAX in Hbig. unfold setrangeCommand.
  rewrite (bind_run _ _ _ _ _ (client_db_run s c cl Hc)), (bind_run _ _ _ _ _ (is_arg_run s argv 1 key Hkey)),
    (bind_run _ _ _ _ _ (is_arg_run s argv 3 value Hval)).
  destruct (is_arg_val _ _ _ _ Hoff) as (o2 & Ho2 & Hv2). erewrite bind_run by (by apply lift_run).
  pose proof (getLongOrReply_spec s _ c o2 ob None Hok (refs_ext _ _ _ (arg_in _ F _ _ Ho2)) Hv2) as Hget.
  rewrite Hn in Hget. erewrite bind_run by exact Hget. cbv beta iota.
  apply string2ll_sound in Hn as [[_ Hhi] _]. change (64 - 1) with 63 in Hhi. rewrite (proj2 (Z.ltb_ge _ _)) by lia.
  destruct (lookup_found s _ (c_db cl) key Hok) as (s1 & old & Hl & Hes & Hf).
  rewrite (bind_run _ _ _ _ _ Hl). rewrite Ha in Hf. inversion Hf. subst. unfold setrange_new.
  rewrite (proj2 (Z.eqb_neq _ _)) by lia.
  assert (size_sum offset (zlen value) = offset + zlen value) as Hss.
  { unfold size_sum. apply wrapu_small. unfold in_u. lia. }
  rewrite Hss. assert (wraps 64 (offset + zlen value) = offset + zlen value - 2 ^ 64) as Hw.
  { rewrite <- (wraps_small 64 (offset + zlen value - 2 ^ 64)) by (lia || unfold in_s; change (64 - 1) with 63; lia).
    unfold wraps. f_equal. replace (offset + zlen value - 2 ^ 64 + 2 ^ (64 - 1)) with (offset + zlen value + 2 ^ (64 - 1) + (-1) * 2 ^ 64) by lia.
    by rewrite Z.mod_add by lia. }
  rewrite Hw. erewrite bind_none; [done|]. erewrite bind_run.
  2:{ rewrite checkStringLength_spec, (proj2 (Z.ltb_ge _ _)) by (unfold MAX_STRING; lia). done. }
  cbn [negb]. erewrite bind_none; [done|]. unfold sdszero. erewrite bind_none; [done|].
  unfold alloc_size. by rewrite (proj2 (Z.ltb_ge _ _)), andb_false_r by lia.
Qed.

(** ** GET and GETRANGE *)

Definition get_reply (v : option value) : reply :=
  match v with
  | None => R_nullbulk
  | Some (VStr bs) => RBulk bs
  | Some (VObj _ _) => R_wrongtypeerr
  end.

(** [getCommand] replies with the string a reader sees, also when it is stored as an integer, with
    nil for an absent or expired key and with an error for another type; it changes
    nothing but to remove the key when it has expired on a master. *)
Theorem getCommand_reads s c cl argv F key :
  clients s !! c = Some cl -> store_ok (st s) (argv ++ F)%list -> is_arg (st s) argv 1 key ->
  let k := (c_db cl, key) in
  exists s', getCommand c argv s = Some (argv, s') /\
    outcome s c k (argv ++ F)%list s' (alive s k) (alive_expire s k) false 0 [get_reply (visible s k)].
Proof.
  intros Hc Hok Hkey k. unfold getCommand, getGenericCommand.
  destruct (lookupReadOrReply_spec s c cl _ key R_nullbulk Hc Hok) as (s1 & old & Hes & Hf & Hrun). fold k in Hes, Hf.
  rewrite bind_assoc_run, (bind_run _ _ _ _ _ (is_arg_run s argv 1 key Hkey)), bind_assoc_run, (bind_run _ _ _ _ _ Hrun).
  pose proof (es_ok _ _ _ _ Hes) as Hok1. destruct Hf as [|o v Hv Hin]; cbv beta iota.
  { eexists. split; [done|]. by apply outcome_lookup. }
  rewrite bind_assoc_run. destruct v as [bs|t d].
  - destruct (string_run _ _ Hok1 o bs Hin Hv) as (r & Hr & _ & Hs).
    erewrite bind_run by (by apply in_store_same). rewrite bool_decide_true by (by eapply string_obj_type).
    cbn [negb]. rewrite bind_assoc_run. unfold addReplyBulk.
    erewrite bind_run.
    2:{ erewrite bind_run by (by apply in_store_same). erewrite bind_run by (apply lift_run; by apply string_bytes_spec).
        apply modify_run. }
    eexists. split; [done|]. by apply outcome_lookup.
  - destruct (not_string_obj _ _ o t d Hok1 Hin Hv) as (r & Hr & _ & Hne).
    erewrite bind_run by (apply in_store_same; unfold obj; run; by apply lift_run).
    rewrite bool_decide_false by done. cbn [negb]. eexists. split; [done|]. by apply outcome_lookup.
Qed.

(** The positions GETRANGE selects in a string of length [n]: a negative index counts from the
    end, and an index out of range is moved to the nearest position. *)
Definition clamp (n i : Z) : Z := if i <? 0 then Z.max 0 (n + i) else i.

Definition slice (bs : sds) (start stop : Z) : sds :=
  if (start <? 0) && (stop <? 0) && (stop <? start) then []
  else
    let a := clamp (zlen bs) start in
    let b := Z.min (clamp (zlen bs) stop) (zlen bs - 1) in
    take (Z.to_nat (b - a + 1)) (drop (Z.to_nat a) bs).

Definition range_reply (v : option value) (start stop : Z) : reply :=
  match v with
  | None => R_emptybulk
  | Some (VObj _ _) => R_wrongtypeerr
  | Some (VStr bs) => match slice bs start stop with [] => R_emptybulk | l => RBulk l end
  end.

(** The computation of the code on the indexes. *)
Definition range_bytes (c : Z) (argv : list oid) (start end_ : Z) (str : sds) : M (list oid) :=
  let strlen := zlen str in
  if (start <? 0) && (end_ <? 0) && (start >? end_) then _ ← addReply c R_emptybulk; mret argv
  else
    let start := if start <? 0 then strlen + start else start in
    let end_ := if end_ <? 0 then strlen + end_ else end_ in
    let start := if start <? 0 then 0 else start in
    let end_ := if end_ <? 0 then 0 else end_ in
    let end_ := if wrapu 64 end_ >=? strlen then strlen - 1 else end_ in
    if (start >? end_) || (strlen =? 0) then _ ← addReply c R_emptybulk; mret argv
    else
      bs ← lift (rd str start (end_ - start + 1));
      _ ← addReply c (RBulk bs); mret argv.

Lemma clamp_code n i : 0 <= n -> (let j := if i <? 0 then n + i else i in if j <? 0 then 0 else j) = clamp n i.
Proof. intros Hn. unfold clamp. destruct (Z.ltb_spec i 0), (Z.ltb_spec (n + i) 0); cbn; zcmp; lia. Qed.

Lemma range_bytes_spec c argv start stop bs s :
  in_s 64 start -> in_s 64 stop -> zlen bs < 2 ^ 63 ->
  range_bytes c argv start stop bs s =
    Some (argv, upd_clients (alter (says [range_reply (Some (VStr bs)) start stop]) c) s).
Proof.
  intros [? ?] [? ?] Hlen. change (64 - 1) with 63 in *. pose proof (zlen_nonneg bs) as Hn0.
  unfold range_bytes. cbn [range_reply]. unfold slice. rewrite Z.gtb_ltb.
  destruct ((start <? 0) && (stop <? 0) && (stop <? start)); [done|].
  rewrite !clamp_code by done. set (a := clamp (zlen bs) start). set (b0 := clamp (zlen bs) stop).
  assert (0 <= a /\ 0 <= b0 < 2 ^ 63) as [Ha Hb].
  { unfold a, b0, clamp. destruct (Z.ltb_spec start 0), (Z.ltb_spec stop 0); lia. }
  rewrite wrapu_small by (unfold in_u; lia). rewrite Z.geb_leb, Z.gtb_ltb.
  assert ((if zlen bs <=? b0 then zlen bs - 1 else b0) = Z.min b0 (zlen bs - 1)) as ->.
  { destruct (Z.leb_spec (zlen bs) b0); lia. }
  set (b := Z.min b0 (zlen bs - 1)).
  destruct (Z.ltb_spec b a); cbn [orb].
  { rewrite (Z2Nat.nonpos (b - a + 1)) by lia. done. }
  destruct (Z.eqb_spec (zlen bs) 0) as [Hz|Hz]; [unfold b in *; lia|].
  assert (rd bs a (b - a + 1) = Some (take (Z.to_nat (b - a + 1)) (drop (Z.to_nat a) bs))) as Hrd.
  { unfold rd. rewrite (proj2 (Z.leb_le 0 a)), (proj2 (Z.leb_le 0 (b - a + 1))), (proj2 (Z.leb_le (a + (b - a + 1)) (zlen bs)))
      by (unfold b in *; lia). done. }
  erewrite bind_run by (by apply lift_run).
  destruct (take (Z.to_nat (b - a + 1)) (drop (Z.to_nat a) bs)) eqn:Ht; [|done].
  apply (f_equal length) in Ht. rewrite length_take, length_drop in Ht. change (length []) with 0%nat in Ht.
  assert (b <= zlen bs - 1) by (unfold b; lia). unfold zlen in *. clearbody a b. lia.
Qed.

(** [getrangeCommand] replies with the selected bytes of the string a reader sees; it never reads out
    of the bounds of the string. Bad numbers are errors, and an absent key or an empty
    selection give the empty string. *)
Theorem getrangeCommand_slices s c cl argv F key sb eb :
  clients s !! c = Some cl -> store_ok (st s) (argv ++ F)%list ->
  is_arg (st s) argv 1 key -> is_arg (st s) argv 2 sb -> is_arg (st s) argv 3 eb ->
  let k := (c_db cl, key) in
  (forall bs, visible s k = Some (VStr bs) -> zlen bs < 2 ^ 63) ->
  exists s', getrangeCommand c argv s = Some (argv, s') /\
    match string2ll sb, string2ll eb with
    | Some start, Some stop =>
        outcome s c k (argv ++ F)%list s' (alive s k) (alive_expire s k) false 0 [range_reply (visible s k) start stop]
    | _, _ => s' = upd_clients (alter (says [RError "value is not an integer or out of range"]) c) s
    end.
Proof.
  intros Hc Hok Hkey Hs2 Hs3 k Hlen. unfold getrangeCommand.
  rewrite (bind_run _ _ _ _ _ (is_arg_run s argv 1 key Hkey)).
  destruct (is_arg_val _ _ _ _ Hs2) as (o2 & Ho2 & Hv2). destruct (is_arg_val _ _ _ _ Hs3) as (o3 & Ho3 & Hv3).
  erewrite bind_run by (by apply lift_run).
  pose proof (getLongLongOrReply_spec s _ c o2 sb None Hok (refs_ext _ _ _ (arg_in _ F _ _ Ho2)) Hv2) as Hg2.
  destruct (string2ll sb) as [start|] eqn:Es; erewrite bind_run by exact Hg2; cbv beta iota.
  2:{ eexists. split; [done|]. done. }
  erewrite bind_run by (by apply lift_run).
  pose proof (getLongLongOrReply_spec s _ c o3 eb None Hok (refs_ext _ _ _ (arg_in _ F _ _ Ho3)) Hv3) as Hg3.
  destruct (string2ll eb) as [stop|] eqn:Ee; erewrite bind_run by exact Hg3; cbv beta iota.
  2:{ eexists. split; [done|]. done. }
  apply string2ll_sound in Es as [Hstart _], Ee as [Hstop _].
  destruct (lookupReadOrReply_spec s c cl _ key R_emptybulk Hc Hok) as (s1 & old & Hes & Hf & Hrun). fold k in Hes, Hf.
  rewrite (bind_run _ _ _ _ _ Hrun). pose proof (es_ok _ _ _ _ Hes) as Hok1.
  destruct (visible s k) as [v|]; [inversion Hf as [|o v' Hv Hin]|inversion Hf]; subst; cbv beta iota.
  2:{ eexists. split; [done|]. by apply outcome_lookup. }
  destruct v as [bs|t d].
  - rewrite (bind_run _ _ _ _ _ (checkType_string _ _ c o bs Hok1 Hin Hv)). cbv beta iota.
    destruct (string_run _ _ Hok1 o bs Hin Hv) as (r & Hr & _ & Hs).
    erewrite bind_run by (by apply in_store_same). erewrite bind_run by (apply lift_run; by apply string_bytes_spec).
    fold (range_bytes c argv start stop bs). rewrite range_bytes_spec by (done || by apply Hlen).
    eexists. split; [done|]. by apply outcome_lookup.
  - rewrite (bind_run _ _ _ _ _ (checkType_wrong _ _ c o t d Hok1 Hin Hv)). eexists. split; [done|]. by apply outcome_lookup.
Qed.

(** ** Applications to a concrete state *)

Module Applied.
Import SampleState.Sample.

(** Appending "z" to "a", whose string is shared with another reference. *)
Lemma appendCommand_appends_witness :
  exists argv' s', appendCommand 1 [o_cmd; o_a; o_z] s0 = Some (argv', s') /\
    achieves s0 1 (0, [97]) (argv' ++ rest [o_cmd; o_a; o_z])%list s'
      (append_spec (alive s0 (0, [97])) (alive_expire s0 (0, [97])) [122]).
Proof.
  apply (appendCommand_appends s0 1 client0 [o_cmd; o_a; o_z] (rest [o_cmd; o_a; o_z]) [97] [122]).
  - reflexivity.
  - apply ok_argv. vm_compute. reflexivity.
  - arg.
  - arg.
  - intros bs [= <-]. vm_compute. reflexivity.
Defined.

(** SET of "a" to "z" with a time to live of 1 second. *)
Lemma setGenericCommand_sets_witness :
  exists s', setGenericCommand 1 "set" (SetFlags false true true false) [97] o_z (Some o_one) UNIT_SECONDS None None s0 = Some (tt, s') /\
    exists n, (0 <= n)%nat /\
      outcome s0 1 (0, [97]) (o_z :: rest [o_z]) s' (Some (VStr [122])) (expire_at s0 n (Some 1000)) true 1 [R_ok].
Proof.
  apply (setGenericCommand_sets s0 1 client0 "set" (SetFlags false true true false) [97] o_z (VStr [122])
    (Some o_one) UNIT_SECONDS None None (rest [o_z]) (Some (Some 1))).
  - reflexivity.
  - apply (ok_argv [o_z]). vm_compute. reflexivity.
  - reflexivity.
  - reflexivity.
  - split; [vm_compute; set_solver|]. exists [49]. split; reflexivity.
  - intros ms [= <-]. split; [vm_compute; discriminate|]. intros n. pose proof (clock_range n).
    unfold LLONG_MIN, LLONG_MAX. cbn [conf s0]. lia.
Defined.

(** INCRBY on the unshared integer of "n". *)
Lemma incrDecrCommand_adds_witness :
  exists s', incrDecrCommand 1 [o_cmd; o_n] 5 s0 = Some ([o_cmd; o_n], s') /\
    achieves s0 1 (0, [110]) ([o_cmd; o_n] ++ rest [o_cmd; o_n])%list s'
      (incr_spec (alive s0 (0, [110])) (alive_expire s0 (0, [110])) 5).
Proof.
  apply (incrDecrCommand_adds s0 1 client0 [o_cmd; o_n] (rest [o_cmd; o_n]) [110] 5).
  - reflexivity.
  - apply ok_argv. vm_compute. reflexivity.
  - arg.
  - vm_compute. split; [discriminate|reflexivity].
Defined.

(** SETRANGE of "a" at offset 1. *)
Lemma setrangeCommand_writes_witness :
  exists s', setrangeCommand 1 [o_cmd; o_a; o_one; o_z] s0 = Some ([o_cmd; o_a; o_one; o_z], s') /\
    achieves s0 1 (0, [97]) ([o_cmd; o_a; o_one; o_z] ++ rest [o_cmd; o_a; o_one; o_z])%list s'
      (setrange_spec (alive s0 (0, [97])) (alive_expire s0 (0, [97])) 1 [122]).
Proof.
  apply (setrangeCommand_writes s0 1 client0 [o_cmd; o_a; o_one; o_z] (rest [o_cmd; o_a; o_one; o_z]) [97] [49] [122]).
  - reflexivity.
  - apply ok_argv. vm_compute. reflexivity.
  - arg.
  - arg.
  - arg.
  - intros n [= <-]. vm_compute. reflexivity.
Defined.

(** SETRANGE of the absent key "z" at the largest offset. *)
Lemma setrangeCommand_huge_offset_witness :
  setrangeCommand 1 [o_cmd; o_z; o_max; o_one] s0 = None.
Proof.
  apply (setrangeCommand_huge_offset s0 1 client0 [o_cmd; o_z; o_max; o_one] (rest [o_cmd; o_z; o_max; o_one])
    [122] (sdec (2 ^ 63 - 1)) [49] (2 ^ 63 - 1)).
  - reflexivity.
  - apply ok_argv. vm_compute. reflexivity.
  - arg.
  - arg.
  - arg.
  - vm_compute. reflexivity.
  - vm_compute. split; reflexivity.
  - vm_compute. reflexivity.
  - vm_compute. reflexivity.
Defined.

(** GET of "a" after it has expired. *)
Lemma getCommand_reads_witness :
  exists s', getCommand 1 [o_cmd; o_a] late = Some ([o_cmd; o_a], s') /\
    outcome late 1 (0, [97]) ([o_cmd; o_a] ++ rest [o_cmd; o_a])%list s' (alive late (0, [97]))
      (alive_expire late (0, [97])) false 0 [get_reply (visible late (0, [97]))].
Proof.
  apply (getCommand_reads late 1 client0 [o_cmd; o_a] (rest [o_cmd; o_a]) [97]).
  - reflexivity.
  - apply ok_argv. vm_compute. reflexivity.
  - arg.
Defined.

(** GETRANGE of "n" from 1 to the largest index. *)
Lemma getrangeCommand_slices_witness :
  exists s', getrangeCommand 1 [o_cmd; o_n; o_one; o_max] s0 = Some ([o_cmd; o_n; o_one; o_max], s') /\
    outcome s0 1 (0, [110]) ([o_cmd; o_n; o_one; o_max] ++ rest [o_cmd; o_n; o_one; o_max])%list s' (alive s0 (0, [110]))
      (alive_expire s0 (0, [110])) false 0 [range_reply (visible s0 (0, [110])) 1 (2 ^ 63 - 1)].
Proof.
  apply (getrangeCommand_slices s0 1 client0 [o_cmd; o_n; o_one; o_max] (rest [o_cmd; o_n; o_one; o_max])
    [110] [49] (sdec (2 ^ 63 - 1))).
  - reflexivity.
  - apply ok_argv. vm_compute. reflexivity.
  - arg.
  - arg.
  - arg.
  - intros bs [= <-]. vm_compute. reflexivity.
Defined.
End Applied.
