(* ===== verification/TSetSpec.v ===== *)
(** * Sets refine finite sets of strings

    [set_data E d X]: the data [d], in either encoding, holds the finite set of strings [X]. The
    functions of the set type are the operations on that set, through the conversion of an integer
    set to a dictionary; the commands SADD, SREM, SMOVE, SISMEMBER and SCARD have the outcome
    these operations give. The string of [LLONG_MIN] is excluded where an integer set may be
    converted, since [sdsfromlonglong] is undefined on it. *)

From S2P Require Import Prelude Endian Util Intset Sds SdsNum Dict DictIter DictMap Data State Object Server Db DbSpec Outcome InPlace SampleState TSet.

(** No element is the one that [sdsfromlonglong] cannot write. *)
Abbreviation writable X := (sdec LLONG_MIN ∉ (X : gset sds)).

Section settype.
Variable E : env.
#[local] Hint Extern 0 Host => exact (env_host E) : typeclass_instances.
#[local] Hint Extern 0 (dictType sds unit) => exact (setDictType E) : typeclass_instances.

Definition set_data (d : data) (X : gset sds) : Prop :=
  match d with
  | DIntset is_ => exists Zs, @intset_abs (env_host E) is_ Zs /\ X = set_map sdec Zs
  | DSet d => dict_wf (T := setDictType E) d /\ X = dom (dmap d)
  | _ => False
  end.

Record set_rep (r : robj) (X : gset sds) : Prop := SetRep {
  sr_type : type r = OBJ_SET;
  sr_ok : robj_ok r;
  sr_data : exists d, ptr r = PData d /\ set_data d X;
}.

Lemma sdec_inj v w : in_s 64 v -> in_s 64 w -> sdec v = sdec w -> v = w.
Proof.
  intros Hv Hw Hs. apply string2ll_complete in Hv, Hw. rewrite Hs in Hv. congruence.
Qed.

Lemma set_map_list (xs : list Z) : set_map sdec (list_to_set xs : gset Z) = (list_to_set (sdec <$> xs) : gset sds).
Proof. apply set_eq. intros y. rewrite elem_of_map, elem_of_list_to_set, list_elem_of_fmap. set_solver. Qed.

(** The two shapes of a set. *)
Inductive set_shape (r : robj) (X : gset sds) : Prop :=
| shape_int is_ w xs : r = Robj OBJ_SET OBJ_ENCODING_INTSET (PData (DIntset is_)) (refcount r) ->
    @intset_rep (env_host E) is_ w xs -> X = list_to_set (sdec <$> xs) -> set_shape r X
| shape_ht d : r = Robj OBJ_SET OBJ_ENCODING_HT (PData (DSet d)) (refcount r) ->
    dict_wf (T := setDictType E) d -> X = dom (dmap d) -> set_shape r X.

Lemma set_rep_shape r X : set_rep r X -> set_shape r X.
Proof.
  intros [Ht Hok (d & Hp & Hd)]. destruct r as [t e p n]. cbn in *. subst t p. unfold robj_ok in Hok. cbn in Hok.
  destruct d as [is_|d|zl|d|m]; cbn in Hd; try done.
  - destruct Hd as (Zs & (w & xs & R & ->) & ->). destruct e; try done.
    apply (shape_int _ _ is_ w xs); [done|done|]. by rewrite set_map_list.
  - destruct Hd as [W ->]. destruct e; try done. by apply (shape_ht _ _ d).
Qed.

Lemma shape_set_rep r X : set_shape r X -> set_rep r X.
Proof.
  intros [is_ w xs Er R ->|d Er W ->]; rewrite Er.
  - split; [done|done|]. exists (DIntset is_). split; [done|]. exists (list_to_set xs). split; [by exists w, xs|].
    by rewrite set_map_list.
  - split; [done|done|]. exists (DSet d). done.
Qed.

(** ** Conversion *)

Lemma xs_range is_ w xs x : @intset_rep (env_host E) is_ w xs -> x ∈ xs -> in_s 64 x.
Proof.
  intros R Hx. pose proof (rep_range _ _ _ R) as Hr. rewrite Forall_forall in Hr. specialize (Hr x Hx).
  destruct (rep_w _ _ _ R) as [->|[->| ->]]; unfold in_s in *; lia.
Qed.

Lemma sdec_not_in is_ w xs a x b :
  @intset_rep (env_host E) is_ w xs -> xs = a ++ x :: b -> sdec x ∉ (list_to_set (sdec <$> a) : gset sds).
Proof.
  intros R Exs. rewrite elem_of_list_to_set, list_elem_of_fmap. intros (y & Ey & Hy).
  assert (x = y) as <-.
  { apply sdec_inj; [apply (xs_range _ _ _ _ R); rewrite Exs; set_solver..|done]. }
  pose proof (increasing_NoDup _ (rep_sorted _ _ _ R)) as Hn. rewrite Exs in Hn.
  apply NoDup_app in Hn as (_ & Hn & _). apply (Hn x Hy). set_solver.
Qed.

Lemma NoDup_sdec is_ w xs : @intset_rep (env_host E) is_ w xs -> NoDup (sdec <$> xs).
Proof.
  intros R. apply NoDup_fmap_2_strong; [|apply increasing_NoDup, (rep_sorted _ _ _ R)].
  intros x y Hx Hy. apply sdec_inj; by apply (xs_range _ _ _ _ R).
Qed.

Abbreviation int_robj is_ n := (Robj OBJ_SET OBJ_ENCODING_INTSET (PData (DIntset is_)) n).
Abbreviation ht_robj d n := (Robj OBJ_SET OBJ_ENCODING_HT (PData (DSet d)) n).

Lemma convert_loop_spec is_ w xs n b : forall a d fuel di,
  @intset_rep (env_host E) is_ w xs -> xs = a ++ b -> writable (list_to_set (sdec <$> xs)) -> (length b < fuel)%nat ->
  dict_wf (T := setDictType E) d -> dom (dmap d) = list_to_set (sdec <$> a) ->
  exists si d', convert_loop E fuel (int_robj is_ n) (SetTypeIterator OBJ_ENCODING_INTSET (zlen a) di) d
    = Some (int_robj is_ n, si, d') /\ si_encoding si = OBJ_ENCODING_INTSET /\
    dict_wf (T := setDictType E) d' /\ dom (dmap d') = list_to_set (sdec <$> xs).
Proof.
  induction b as [|x b IH]; intros a d [|fuel] di R Exs Hw Hf W Hd; cbn in Hf; try lia; cbn [convert_loop].
  all: pose proof (rep_len_bound _ _ _ R) as Hlen; rewrite Exs, zlen_app in Hlen; pose proof (zlen_nonneg a) as Ha.
  all: unfold setTypeNext; cbn [si_encoding as_intset ptr mbind option_bind si_ii si_di].
  - pose proof (zlen_nonneg (@nil Z)). rewrite (wrapu_small 32) by (unfold in_u; lia).
    rewrite (intsetGet_rep _ _ _ _ R) by (unfold in_u; lia). cbn [mbind option_bind].
    rewrite Exs, app_nil_r in *. 
    assert (zidx a (zlen a) = None) as -> by (apply eq_None_not_Some; intros [y Hy%zidx_range]; lia).
    eexists _, d. done.
  - rewrite zlen_cons in Hlen. pose proof (zlen_nonneg b). rewrite (wrapu_small 32) by (unfold in_u; lia).
    rewrite (intsetGet_rep _ _ _ _ R) by (unfold in_u; lia). cbn [mbind option_bind].
    assert (zidx xs (zlen a) = Some x) as -> by (rewrite Exs; by apply zidx_app). cbn [mbind option_bind].
    assert (in_s 64 x) as Hx by (apply (xs_range _ _ _ _ R); rewrite Exs; set_solver).
    rewrite sdsfromlonglong_correct; [|done|].
    2:{ intros ->. apply Hw. rewrite Exs, fmap_app. set_solver. }
    cbn [mbind option_bind].
    destruct (dictAdd_map (T := setDictType E) tt (can_resize E) d (sdec x) tt W) as (d1 & st & Ea & W1 & Hst).
    { rewrite <- (size_dom (D := gset sds)), Hd, size_list_to_set, length_fmap by
        (pose proof (NoDup_sdec _ _ _ R) as Hn; rewrite Exs, fmap_app in Hn; apply NoDup_app in Hn; tauto).
      unfold zlen in *. lia. }
    rewrite Ea. cbn [mbind option_bind].
    pose proof (sdec_not_in _ _ _ a x b R Exs) as Hni. rewrite <- Hd, not_elem_of_dom in Hni. rewrite Hni in Hst.
    destruct Hst as [-> Hd1]. rewrite wraps_small by (unfold in_s; lia).
    replace (zlen a + 1) with (zlen (a ++ [x])) by zl.
    destruct (IH (a ++ [x]) d1 fuel di R) as (si & d' & -> & Hsi & W' & Hd'); [by rewrite <- app_assoc|done|lia|done| |].
    { rewrite Hd1, dom_insert_L, Hd, fmap_app, list_to_set_app_L. set_solver. }
    by exists si, d'.
Qed.

(** The dictionary that the conversion of an integer set gives has the same members. *)
Lemma setTypeConvert_spec is_ w xs n :
  @intset_rep (env_host E) is_ w xs -> writable (list_to_set (sdec <$> xs)) ->
  exists d, setTypeConvert E (int_robj is_ n) OBJ_ENCODING_HT = Some (ht_robj d n) /\
    dict_wf (T := setDictType E) d /\ dom (dmap d) = list_to_set (sdec <$> xs).
Proof.
  intros R Hw. pose proof (rep_len_bound _ _ _ R) as Hlen. unfold setTypeConvert. cbn [type encoding].
  rewrite !bool_decide_eq_true_2 by done. cbn [andb as_intset ptr mbind option_bind].
  unfold intsetLen. rewrite !(rep_len_get _ _ _ R).
  destruct (dictExpand_map (T := setDictType E) (_dictInit : Dict.dict sds unit) (zlen xs) (dictEmpty_wf (T := setDictType E)))
    as (d1 & st & Ee & W1 & Hd1); [lia|]. unfold dictCreate. rewrite Ee. cbn [mbind option_bind].
  unfold setTypeInitIterator. cbn [encoding mbind option_bind].
  destruct (convert_loop_spec is_ w xs n xs [] d1 (S (Z.to_nat (zlen xs))) dictGetIterator R eq_refl Hw) as (si & d & Ec & Hsi & W & Hd);
    [unfold zlen; lia|done|by rewrite Hd1, dmap_init|].
  change (zlen (@nil Z)) with 0 in Ec. rewrite Ec. cbn [mbind option_bind]. unfold setTypeReleaseIterator. rewrite Hsi.
  cbn [mbind option_bind]. by exists d.
Qed.

(** ** The operations *)

Lemma sds_number v (xs : list Z) n : string2ll v = Some n ->
  (forall x, x ∈ xs -> in_s 64 x) -> v ∈ (list_to_set (sdec <$> xs) : gset sds) <-> n ∈ xs.
Proof.
  intros Hn Hr. destruct (string2ll_sound _ _ Hn) as [Hs ->]. rewrite elem_of_list_to_set, list_elem_of_fmap. split.
  - intros (y & Ey & Hy). by rewrite (sdec_inj n y Hs (Hr y Hy) Ey).
  - intros Hx. by exists n.
Qed.

Lemma sds_not_number v (xs : list Z) : string2ll v = None ->
  (forall x, x ∈ xs -> in_s 64 x) -> v ∉ (list_to_set (sdec <$> xs) : gset sds).
Proof.
  intros Hn Hr. rewrite elem_of_list_to_set, list_elem_of_fmap. intros (y & -> & Hy).
  rewrite string2ll_complete in Hn by auto. done.
Qed.

Lemma size_intset is_ w xs : @intset_rep (env_host E) is_ w xs ->
  Z.of_nat (size (list_to_set (sdec <$> xs) : gset sds)) = zlen xs.
Proof. intros R. rewrite size_list_to_set by (by eapply NoDup_sdec). by rewrite length_fmap. Qed.

Lemma ht_rep d n : dict_wf (T := setDictType E) d -> set_rep (ht_robj d n) (dom (dmap d)).
Proof. intros W. apply shape_set_rep. by apply (shape_ht _ _ d). Qed.

Lemma int_rep is_ w xs n : @intset_rep (env_host E) is_ w xs -> set_rep (int_robj is_ n) (list_to_set (sdec <$> xs)).
Proof. intros R. apply shape_set_rep. by apply (shape_int _ _ is_ w xs). Qed.

Lemma dom_unit (m : gmap sds unit) k : dom (<[k:=tt]> m) = {[k]} ∪ dom m.
Proof. apply dom_insert_L. Qed.

(** The encoding of a set. *)
Definition is_int (r : robj) : bool := match encoding r with OBJ_ENCODING_INTSET => true | _ => false end.
Definition is_number (v : sds) : bool := match string2ll v with Some _ => true | None => false end.

(** An integer set stays one when the element is a number, unless it is new and one too many. *)
Lemma setTypeAdd_rep max r X v :
  set_rep r X -> Z.of_nat (size X) + 1 < 2 ^ 29 -> writable ({[v]} ∪ X) ->
  exists r', setTypeAdd E max r v = Some (r', bool_decide (v ∉ X)) /\ set_rep r' ({[v]} ∪ X) /\ refcount r' = refcount r /\
    is_int r' = is_int r && is_number v && (bool_decide (v ∈ X) || (Z.of_nat (size ({[v]} ∪ X)) <=? max)).
Proof.
  intros Hr Hb Hw. destruct (set_rep_shape _ _ Hr) as [is_ w xs Er R ->|d Er W ->]; rewrite Er; unfold setTypeAdd, is_int, is_number;
    cbn [encoding as_intset as_set ptr mbind option_bind refcount].
  - assert (forall x, x ∈ xs -> in_s 64 x) as Hxr by (intros x; by apply (xs_range _ _ _ _ R)).
    rewrite (size_intset _ _ _ R) in Hb. unfold isSdsRepresentableAsLongLong. destruct (string2ll v) as [n|] eqn:Hn.
    + destruct (string2ll_sound _ _ Hn) as [Hs Ev].
      destruct (intsetAdd_rep (new_bytes E) is_ w xs n R Hs) as (is' & w' & xs' & Ea & R' & Hel); [lia|].
      rewrite Ea. cbn [mbind option_bind]. rewrite (bool_decide_ext (v ∉ _) (n ∉ xs)) by by rewrite (sds_number v xs n).
      rewrite (bool_decide_ext (v ∈ _) (n ∈ xs)) by by apply sds_number.
      assert ({[v]} ∪ list_to_set (sdec <$> xs) = (list_to_set (sdec <$> xs') : gset sds)) as HX.
      { apply set_eq. intros y. rewrite elem_of_union, elem_of_singleton, !elem_of_list_to_set, !list_elem_of_fmap.
        setoid_rewrite Hel. rewrite Ev. set_solver. }
      rewrite HX in *. rewrite (size_intset _ _ _ R'). unfold intsetLen. rewrite (rep_len_get _ _ _ R'), Z.gtb_ltb, Z.ltb_antisym, bool_decide_not.
      destruct (bool_decide (n ∈ xs)); cbn [negb orb]; [by eexists; split; [done|]; split; [by eapply int_rep|]|].
      destruct (zlen xs' <=? max); cbn [negb mbind option_bind]; [by eexists; split; [done|]; split; [by eapply int_rep|]|].
      destruct (setTypeConvert_spec is' w' xs' (refcount r) R' Hw) as (d & Ec & W & Hd).
      change (with_intset is' _) with (int_robj is' (refcount r)). rewrite Ec. cbn [mbind option_bind].
      eexists. split; [done|]. split; [|done]. rewrite <- Hd. by apply ht_rep.
    + pose proof (sds_not_number v xs Hn Hxr) as Hni. rewrite bool_decide_eq_true_2 by done.
      destruct (setTypeConvert_spec is_ w xs (refcount r) R) as (d & Ec & W & Hd); [set_solver|].
      rewrite Ec. cbn [mbind option_bind as_set ptr].
      destruct (dictAdd_map (T := setDictType E) tt (can_resize E) d v tt W) as (d1 & st & Ea & W1 & Hst).
      { rewrite <- (size_dom (D := gset sds)), Hd, (size_intset _ _ _ R). lia. }
      rewrite Ea. cbn [mbind option_bind]. rewrite <- Hd, not_elem_of_dom in Hni. rewrite Hni in Hst. destruct Hst as [-> Hd1].
      eexists. split; [done|]. split; [|done]. rewrite <- Hd, <- dom_unit, <- Hd1. by apply ht_rep.
  - rewrite size_dom in Hb.
    destruct (dictAddRaw_map (T := setDictType E) tt (can_resize E) d v W) as (d1 & de & Ea & W1 & Hde); [lia|].
    rewrite Ea. cbn [mbind option_bind]. destruct de as [e|e].
    + destruct Hde as [Hd1 Hin]. rewrite bool_decide_eq_false_2 by (rewrite not_elem_of_dom; by apply not_eq_None_Some).
      eexists. split; [done|]. split; [|done]. apply elem_of_dom in Hin.
      assert ({[v]} ∪ dom (dmap d) = dom (dmap d1)) as -> by (rewrite Hd1; set_solver). by apply ht_rep.
    + destruct Hde as [Hnone Hst]. destruct (Hst tt) as (d2 & Es & W2 & Hd2). rewrite Es. cbn [mbind option_bind].
      rewrite bool_decide_eq_true_2 by (by apply not_elem_of_dom).
      eexists. split; [done|]. split; [|done]. rewrite <- dom_unit, <- Hd2. by apply ht_rep.
Qed.

Lemma setTypeRemove_rep r X v :
  set_rep r X ->
  exists r', setTypeRemove E r v = Some (r', bool_decide (v ∈ X)) /\ set_rep r' (X ∖ {[v]}) /\ refcount r' = refcount r.
Proof.
  intros Hr. destruct (set_rep_shape _ _ Hr) as [is_ w xs Er R ->|d Er W ->]; rewrite Er; unfold setTypeRemove;
    cbn [encoding as_intset as_set ptr mbind option_bind refcount].
  - assert (forall x, x ∈ xs -> in_s 64 x) as Hxr by (intros x; by apply (xs_range _ _ _ _ R)).
    unfold isSdsRepresentableAsLongLong. destruct (string2ll v) as [n|] eqn:Hn.
    + destruct (string2ll_sound _ _ Hn) as [Hs Ev].
      destruct (intsetRemove_rep (new_bytes E) is_ w xs n R Hs) as (is' & xs' & Ea & R' & Hel).
      rewrite Ea. cbn [mbind option_bind]. rewrite (bool_decide_ext (v ∈ _) (n ∈ xs)) by by apply sds_number.
      eexists. split; [done|]. split; [|done].
      assert (list_to_set (sdec <$> xs) ∖ {[v]} = (list_to_set (sdec <$> xs') : gset sds)) as ->; [|by eapply int_rep].
      apply set_eq. intros y. rewrite elem_of_difference, elem_of_singleton, !elem_of_list_to_set, !list_elem_of_fmap.
      setoid_rewrite Hel. rewrite Ev. split.
      * intros [(x & -> & Hx) Hne]. exists x. split; [done|]. split; [by intros ->|done].
      * intros (x & -> & Hne & Hx). split; [by exists x|]. intros Hsd. apply Hne. apply sdec_inj; auto.
    + pose proof (sds_not_number v xs Hn Hxr) as Hni. rewrite bool_decide_eq_false_2 by done.
      eexists. split; [done|]. split; [|done]. assert (list_to_set (sdec <$> xs) ∖ {[v]} = list_to_set (sdec <$> xs)) as -> by set_solver.
      by eapply int_rep.
  - destruct (dictDelete_map (T := setDictType E) d v W) as (d1 & st & fr & Ed & W1 & Hd1 & Hst).
    rewrite Ed. cbn [mbind option_bind].
    assert (dom (dmap d) ∖ {[v]} = dom (dmap d1)) as -> by (by rewrite Hd1, dom_delete_L).
    destruct (dmap d !! v) as [u|] eqn:Hl; rewrite Hst.
    + rewrite bool_decide_eq_true_2 by (by eapply elem_of_dom_2). destruct (htNeedsResize d1).
      * destruct (dictResize_map (T := setDictType E) (can_resize E) d1 W1) as (d2 & st2 & Er2 & W2 & Hd2).
        rewrite Er2. cbn [mbind option_bind fmap option_fmap option_map fst]. eexists. split; [done|]. split; [|done].
        rewrite <- Hd2. by apply ht_rep.
      * cbn [mbind option_bind]. eexists. split; [done|]. split; [|done]. by apply ht_rep.
    + rewrite bool_decide_eq_false_2 by (by apply not_elem_of_dom). eexists. split; [done|]. split; [|done]. by apply ht_rep.
Qed.

Lemma setTypeIsMember_rep r X v :
  set_rep r X ->
  exists r', setTypeIsMember E r v = Some (r', bool_decide (v ∈ X)) /\ set_rep r' X /\ refcount r' = refcount r.
Proof.
  intros Hr. destruct (set_rep_shape _ _ Hr) as [is_ w xs Er R ->|d Er W ->]; rewrite Er; unfold setTypeIsMember;
    cbn [encoding as_intset as_set ptr mbind option_bind refcount].
  - assert (forall x, x ∈ xs -> in_s 64 x) as Hxr by (intros x; by apply (xs_range _ _ _ _ R)).
    unfold isSdsRepresentableAsLongLong. destruct (string2ll v) as [n|] eqn:Hn.
    + destruct (string2ll_sound _ _ Hn) as [Hs _]. rewrite (intsetFind_rep _ _ _ _ R Hs). cbn [mbind option_bind].
      rewrite (bool_decide_ext (v ∈ _) (n ∈ xs)) by by apply sds_number.
      eexists. split; [done|]. split; [by eapply int_rep|done].
    + rewrite bool_decide_eq_false_2 by by apply sds_not_number. eexists. split; [done|]. split; [by eapply int_rep|done].
  - destruct (dictFind_map (T := setDictType E) d v W) as (d1 & de & Ef & W1 & Hd1 & Hde). rewrite Ef. cbn [mbind option_bind].
    assert (match de with Some _ => true | None => false end = bool_decide (v ∈ dom (dmap d))) as ->.
    { symmetry. destruct de as [e|].
      - destruct Hde as (u & _ & Hl & _). by eapply bool_decide_eq_true_2, elem_of_dom_2.
      - apply bool_decide_eq_false_2. by apply not_elem_of_dom. }
    eexists. split; [done|]. split; [|done]. rewrite <- Hd1. by apply ht_rep.
Qed.

Lemma setTypeSize_rep r X : set_rep r X -> setTypeSize E r = Some (Z.of_nat (size X)).
Proof.
  intros Hr. destruct (set_rep_shape _ _ Hr) as [is_ w xs Er R ->|d Er W ->]; rewrite Er; unfold setTypeSize;
    cbn [encoding as_intset as_set ptr mbind option_bind].
  - unfold intsetLen. by rewrite (rep_len_get _ _ _ R), (size_intset _ _ _ R).
  - by rewrite (dictSize_map (T := setDictType E)), size_dom.
Qed.

Lemma setTypeCreate_rep v : set_rep (setTypeCreate E v) ∅ /\ refcount (setTypeCreate E v) = 1.
Proof.
  unfold setTypeCreate. destruct (isSdsRepresentableAsLongLong v).
  - split; [|done]. split; [done|done|]. eexists. split; [done|]. exists ∅. split; [apply intsetNew_abs|done].
  - split; [|done]. split; [done|done|]. eexists. split; [done|]. split; [apply (dictEmpty_wf (T := setDictType E))|done].
Qed.
End settype.

(** ** The commands *)

(** What a value is as a set: absent is the empty set, and [None] is a value of another type. *)
Definition set_view (E : env) (v : option value) (X : option (gset sds)) : Prop :=
  match v with
  | None => X = Some ∅
  | Some (VObj OBJ_SET d) => exists Y, X = Some Y /\ set_data E d Y
  | Some _ => X = None
  end.

Lemma set_data_det E d X Y : set_data E d X -> set_data E d Y -> X = Y.
Proof.
  destruct d; try done.
  - intros (Zs & (w & xs & R & ->) & ->) (Zs' & (w' & xs' & R' & ->) & ->). f_equal. apply set_eq. intros v.
    rewrite !elem_of_list_to_set.
    assert (in_s 64 v -> v ∈ xs <-> v ∈ xs') as Hin.
    { intros Hr. pose proof (intsetFind_rep _ _ _ v R Hr) as Hf. rewrite (intsetFind_rep _ _ _ v R' Hr) in Hf.
      injection Hf as Hf. 
      rewrite <- (bool_decide_eq_true (v ∈ xs)), <- (bool_decide_eq_true (v ∈ xs')), Hf. done. }
    split; intros Hv; apply Hin; try done; [by apply (xs_range E _ _ _ _ R)|by apply (xs_range E _ _ _ _ R')].
  - by intros [_ ->] [_ ->].
Qed.

Lemma set_view_det E v X Y : set_view E v X -> set_view E v Y -> X = Y.
Proof.
  destruct v as [[bs|t d]|]; cbn [set_view]; [by intros -> ->| |by intros -> ->].
  destruct t; try (by intros -> ->). intros (A & -> & HA) (B & -> & HB). f_equal. by eapply set_data_det.
Qed.

Section commands.
Variables (s : server) (k : Z * sds) (F : list oid).
Abbreviation Ev := (data_env (conf s)).

Lemma set_rep_data r X : set_rep Ev r X -> robj_ok r /\ exists d, ptr r = PData d /\ set_data Ev d X /\ val_of r = VObj OBJ_SET d.
Proof.
  intros [Ht Hok (d & Hp & Hd)]. split; [done|]. exists d. split_and!; [done|done|]. unfold val_of. by rewrite Hp, Ht.
Qed.

Lemma size_added (v : sds) (L X : gset sds) :
  Z.of_nat (size (({[v]} ∪ L) ∖ X)) = (if bool_decide (v ∉ X) then 1 else 0) + Z.of_nat (size (L ∖ ({[v]} ∪ X))).
Proof.
  case_bool_decide as Hv.
  - assert (({[v]} ∪ L) ∖ X = {[v]} ∪ (L ∖ ({[v]} ∪ X))) as ->.
    { apply set_eq. intros y. destruct (decide (y = v)); set_solver. }
    rewrite size_union, size_singleton by set_solver. lia.
  - assert (({[v]} ∪ L) ∖ X = L ∖ ({[v]} ∪ X)) as ->; [|lia].
    apply set_eq. intros y. destruct (decide (y = v)); set_solver.
Qed.

(** The arguments are numbers and, if one of them is new, not too many. *)
Definition stays_int (max : Z) (vals : list sds) (X : gset sds) : bool :=
  forallb is_number vals && ((Z.of_nat (size (list_to_set vals ∖ X)) =? 0) || (Z.of_nat (size (list_to_set vals ∪ X)) <=? max)).

Lemma stays_int_cons max v vals X : stays_int max (v :: vals) X =
  is_number v && (bool_decide (v ∈ X) || (Z.of_nat (size ({[v]} ∪ X)) <=? max)) && stays_int max vals ({[v]} ∪ X).
Proof.
  unfold stays_int. cbn [forallb list_to_set]. rewrite size_added. generalize (list_to_set vals : gset sds). intros L.
  assert ({[v]} ∪ L ∪ X = L ∪ ({[v]} ∪ X)) as -> by set_solver. rewrite bool_decide_not.
  assert (size ({[v]} ∪ X) <= size (L ∪ ({[v]} ∪ X)))%nat as Hle by (apply subseteq_size; set_solver).
  destruct (is_number v), (forallb is_number vals); cbn [andb]; rewrite ?andb_false_r; try done.
  destruct (decide (v ∈ X)) as [Hv|Hv]; [rewrite bool_decide_eq_true_2 by done|rewrite bool_decide_eq_false_2 by done]; cbn [negb orb andb]; [done|].
  rewrite (proj2 (Z.eqb_neq (1 + _) 0)) by lia. cbn [orb]. destruct (Z.eqb_spec (Z.of_nat (size (L ∖ ({[v]} ∪ X)))) 0) as [H0|H0]; cbn [orb].
  - assert (L ∖ ({[v]} ∪ X) = ∅) as He by (apply leibniz_equiv, size_empty_inv; lia).
    assert (L ⊆ {[v]} ∪ X) by (intros y Hy; destruct (decide (y ∈ {[v]} ∪ X)); [done|set_solver]).
    assert (L ∪ ({[v]} ∪ X) = {[v]} ∪ X) as -> by set_solver. by rewrite andb_true_r.
  - destruct (Z.leb_spec (Z.of_nat (size (L ∪ ({[v]} ∪ X)))) max); [|by rewrite andb_false_r]. rewrite (proj2 (Z.leb_le _ _)) by lia. done.
Qed.

Lemma sadd_loop_spec x o vals : forall els s1 r X added,
  holding s k F s1 o r x -> set_rep Ev r X -> named (st s1) els vals ->
  Z.of_nat (size X) + zlen vals < 2 ^ 29 -> writable (list_to_set vals ∪ X) ->
  exists t r', sadd_loop o els added s1 = Some (added + Z.of_nat (size (list_to_set vals ∖ X)), with_st t s1) /\
    holding s k F (with_st t s1) o r' x /\ set_rep Ev r' (list_to_set vals ∪ X) /\ is_int r' = is_int r && stays_int (set_max_intset_entries (conf s)) vals X.
Proof.
  induction vals as [|v vals IH]; intros els s1 r X added Hh Hr Hn Hb Hw.
  - apply Forall2_nil_inv_r in Hn as ->. exists (st s1), r. cbn [sadd_loop list_to_set]. 
    assert (with_st (st s1) s1 = s1) as -> by by destruct s1.
    unfold stays_int. cbn [forallb list_to_set]. assert (∅ ∖ X = ∅) as -> by set_solver. rewrite size_empty.
    split_and!; [|done|by rewrite union_empty_l_L|by rewrite andb_true_r]. rewrite ret_run. do 2 f_equal. lia.
  - apply Forall2_cons_inv_r in Hn as (e & els' & He & Hn & ->). rewrite zlen_cons in Hb. pose proof (zlen_nonneg vals).
    cbn [sadd_loop]. rewrite (bind_run _ _ _ _ _ (name_run _ _ _ He)). run. rewrite (holding_conf _ _ _ _ _ _ _ Hh).
    destruct (setTypeAdd_rep Ev (set_max_intset_entries (conf s)) r X v Hr) as (r1 & Ea & Hr1 & Hc1 & Hi1); [lia|set_solver|].
    destruct (set_rep_data _ _ Hr1) as (Hok1 & d1 & Hp1 & _).
    destruct (holding_on_obj s k F s1 o r x (fun E r => setTypeAdd E (set_max_intset_entries (conf s)) r v) r1 _ Hh Ea)
      as (t & Hrun & Hh1 & Ht); [done|by rewrite Hc1, (h_count _ _ _ _ _ _ _ Hh)|by eexists|].
    rewrite (bind_run _ _ _ _ _ Hrun).
    destruct (IH els' (with_st t s1) r1 ({[v]} ∪ X) (if bool_decide (v ∉ X) then added + 1 else added)) as (t' & r' & Hl & Hh' & Hr' & Hi').
    + done.
    + done.
    + exact (holding_named s k F s1 o r x t els' vals Hh Ht Hn).
    + assert (size ({[v]} ∪ X) <= 1 + size X)%nat; [|lia].
      rewrite size_union_alt, size_singleton. assert (size (X ∖ {[v]}) <= size X)%nat by (apply subseteq_size; set_solver). lia.
    + cbn [list_to_set] in Hw. set_solver.
    + exists t', r'. rewrite Hl. split_and!; [|done| |by rewrite Hi', Hi1, stays_int_cons, !andb_assoc].
      * do 2 f_equal. cbn [list_to_set]. rewrite size_added. destruct (bool_decide (v ∉ X)); lia.
      * cbn [list_to_set]. by assert ({[v]} ∪ list_to_set vals ∪ X = list_to_set vals ∪ ({[v]} ∪ X)) as -> by set_solver.
Qed.

(** The value of a key is an integer set, or a new set may become one. *)
Definition is_intset (d : data) : bool := match d with DIntset _ => true | _ => false end.
Definition was_int (v : option value) : bool := match v with None => true | Some (VObj OBJ_SET d) => is_intset d | Some _ => false end.

Lemma is_int_data r X d : set_rep Ev r X -> ptr r = PData d -> is_intset d = is_int r.
Proof. intros Hr Hp. destruct (set_rep_shape _ _ _ Hr) as [is_ w xs Er _ _|d' Er _ _]; unfold is_int; rewrite Er in *; cbn in *; by injection Hp as <-. Qed.

(** The value that a lookup finds, when it is a set. *)
Lemma set_found s1 o X :
  expire_step k F s s1 -> found s s1 k F (Some o) (alive s k) -> set_view Ev (alive s k) (Some X) -> unshared s k ->
  exists r, holding s k F s1 o r (alive_expire s k) /\ set_rep Ev r X /\ is_int r = was_int (alive s k).
Proof.
  intros Hes Hf Hset Hu. destruct (alive s k) as [v|]; [|inversion Hf].
  destruct v as [bs|t d]; [done|]. destruct t; try done. destruct Hset as (Y & [= <-] & Hd).
  destruct (found_data _ _ _ _ _ _ _ Hes Hf) as (r & _ & Ht & Hp & Hok & _ & Hh). exists r. split; [by apply Hh|].
  assert (set_rep Ev r X) as Hr by (split; [done|done|by exists d]). split; [done|]. cbn [was_int]. rewrite <- (is_int_data r X d Hr Hp). done.
Qed.

(** A value that is not a set. *)
Lemma not_set_found s1 c o :
  expire_step k F s s1 -> found s s1 k F (Some o) (alive s k) -> set_view Ev (alive s k) None ->
  exists r, obj_at (st s1) o = Some r /\ type r <> OBJ_SET /\
    checkType c o OBJ_SET s1 = Some (true, upd_clients (alter (says [R_wrongtypeerr]) c) s1).
Proof.
  intros Hes Hf Hset. apply (other_type_found s k F s1 c o OBJ_SET); try done.
  destruct (alive s k) as [[bs|t d]|]; cbn in *; try done. destruct t; naive_solver.
Qed.
End commands.

(** The set of a key that a command writes: the one found, or a new empty one. *)
Lemma sadd_lookup s s1 c argv F db key old vals X :
  let k := (db, key) in
  expire_step k (argv ++ F)%list s s1 -> found s s1 k (argv ++ F)%list old (alive s k) ->
  named (st s1) (drop 2 argv) vals -> vals <> [] -> set_view (data_env (conf s)) (alive s k) (Some X) -> unshared s k ->
  exists o s2 r, (match old with
         | None =>
             v ← arg_sds argv 2;
             s ← get;
             set ← in_store (alloc_obj (setTypeCreate (data_env (conf s)) v));
             _ ← dbAdd db key set;
             mret (Some set)
         | Some set =>
             r ← in_store (obj set);
             if negb (bool_decide (type r = OBJ_SET)) then _ ← addReply c R_wrongtypeerr; mret None
             else mret (Some set)
         end) s1 = Some (Some o, s2) /\ holding s k (argv ++ F)%list s2 o r (alive_expire s k) /\
    set_rep (data_env (conf s)) r X /\ named (st s2) (drop 2 argv) vals /\
    forall max, is_int r && stays_int max vals X = was_int (alive s k) && stays_int max vals X.
Proof.
  intros k Hes Hf Hvals Hne Hset Hu. destruct old as [o|].
  - destruct (set_found s k _ s1 o X Hes Hf Hset Hu) as (r & Hh & Hr & Hi). exists o, s1, r.
    rewrite (bind_run _ _ _ _ _ (obj_run_at s1 o r (h_obj _ _ _ _ _ _ _ Hh))), (sr_type _ _ _ Hr), bool_decide_true by done. by rewrite Hi.
  - assert (X = ∅) as ->. { destruct (alive s k); [inversion Hf|]. by injection Hset. }
    assert (dict (st s1) !! k = None) as Hk by (inversion Hf; done).
    destruct vals as [|v vals]; [done|]. pose proof (named_is_arg _ _ _ _ v Hvals eq_refl) as Hv.
    rewrite (bind_run _ _ _ _ _ (is_arg_run s1 argv 2 v Hv)), (bind_run _ _ _ _ _ (get_run s1)).
    assert (conf s1 = conf s) as -> by apply (es_quiet _ _ _ _ Hes).
    destruct (setTypeCreate_rep (data_env (conf s)) v) as [Hr Hcr]. destruct (set_rep_data _ _ _ Hr) as (Hrok & d & Hp & _).
    destruct (new_data s s1 db key _ _ Hes Hk Hrok Hcr) as (o & s2 & s3 & Ha & Hadd & Hh & Hobj); [by eexists|].
    exists o, s3, (setTypeCreate (data_env (conf s)) v). rewrite (bind_run _ _ _ _ _ Ha), (bind_run _ _ _ _ _ Hadd).
    split_and!; [done|done|done|by eapply (named_same (st s1)); [|apply subseteq_drop|]|]. intros max.
    assert (alive s k = None) as -> by (by inversion Hf). unfold stays_int, is_int, is_number, setTypeCreate, isSdsRepresentableAsLongLong. cbn [forallb was_int]. by destruct (string2ll v).
Qed.

(** C16 SADD makes the value of the key the union of the set it held, or of the empty set, and of the
    arguments: it replies with the number of elements that are new, adds it to the counter of changes
    and flags the watchers exactly if there is one. The key keeps its expire time. The value is an integer set afterwards exactly when it was one, or there was none, all the
    arguments are written integers, and no element is new or there are at most set-max-intset-entries of them ([stays_int]);
    otherwise it is a dictionary. A value of another
    type is an error that changes nothing. The set has fewer than [2 ^ 29] elements and not the least 64-bit integer, and only its key refers to it. *)
Theorem saddCommand_adds s c cl argv F key vals Xo :
  clients s !! c = Some cl -> store_ok (st s) (argv ++ F)%list ->
  is_arg (st s) argv 1 key -> named (st s) (drop 2 argv) vals -> vals <> [] ->
  let k := (c_db cl, key) in let E := data_env (conf s) in
  set_view E (alive s k) Xo -> unshared s k ->
  (forall X, Xo = Some X -> Z.of_nat (size X) + zlen vals < 2 ^ 29 /\ writable (list_to_set vals ∪ X)) ->
  exists s', saddCommand c argv s = Some (argv, s') /\
    match Xo with
    | None => outcome s c k (argv ++ F)%list s' (alive s k) (alive_expire s k) false 0 [R_wrongtypeerr]
    | Some X =>
        let n := Z.of_nat (size (list_to_set vals ∖ X)) in
        exists d, set_data E d (list_to_set vals ∪ X) /\
        is_intset d = was_int (alive s k) && stays_int (set_max_intset_entries (conf s)) vals X /\
        outcome s c k (argv ++ F)%list s' (Some (VObj OBJ_SET d)) (alive_expire s k) (negb (n =? 0)) n [RInt n]
    end.
Proof.
  intros Hc Hok Hkey Hvals Hne k E Hset Hu Hb. unfold saddCommand.
  rewrite (bind_run _ _ _ _ _ (client_db_run s c cl Hc)), (bind_run _ _ _ _ _ (is_arg_run s argv 1 key Hkey)).
  destruct (lookup_found s _ (c_db cl) key Hok) as (s1 & old & Hl & Hes & Hf).
  rewrite (bind_run _ _ _ _ _ Hl). fold k in Hes, Hf. destruct Xo as [X|].
  2:{ destruct old as [o|]; [|by destruct (alive s k); [inversion Hf|]].
      destruct (not_set_found s k _ s1 c o Hes Hf Hset) as (r & Hr & Ht & _).
      erewrite bind_run by (rewrite (bind_run _ _ _ _ _ (obj_run_at s1 o r Hr)); by rewrite bool_decide_false).
      eexists. split; [done|]. by apply outcome_lookup. }
  destruct (Hb X eq_refl) as [Hsz Hw]. pose proof (named_es _ _ _ _ _ _ _ Hes Hvals) as Hvals1.
  destruct (sadd_lookup s s1 c argv F (c_db cl) key old vals X Hes Hf Hvals1 Hne Hset Hu) as (o & s2 & r & Hset2 & Hh & Hr & Hvals2 & Hold).
  rewrite (bind_run _ _ _ _ _ Hset2).
  destruct (sadd_loop_spec s k _ _ o vals (drop 2 argv) s2 r X 0 Hh Hr Hvals2 Hsz Hw) as (t & r' & Hloop & Hh' & Hr' & Hi').
  rewrite (bind_run _ _ _ _ _ Hloop), Z.add_0_l. set (n := Z.of_nat _).
  destruct (set_rep_data _ _ _ Hr') as (_ & d & Hp & Hd & Hval). rewrite Hold, <- (is_int_data s r' _ d Hr' Hp) in Hi'.
  destruct (n =? 0) eqn:Hn0; cbn [negb].
  - eexists. split; [done|]. exists d. split; [exact Hd|]. split; [exact Hi'|]. eapply outcome_changed; [rewrite <- Hval; apply Hh'|..]; done.
  - rewrite (bind_run _ _ _ _ _ (bind_run _ _ _ _ _ (signalModifiedKey_spec _ _ _))).
    eexists. split; [done|]. exists d. split; [exact Hd|]. split; [exact Hi'|]. eapply outcome_changed; [rewrite <- Hval; apply Hh'|..]; done.
Qed.

(** ** SREM *)

Lemma size_of_spec s k F s1 o r x X :
  holding s k F s1 o r x -> set_rep (data_env (conf s)) r X -> size_of o s1 = Some (Z.of_nat (size X), s1).
Proof.
  intros Hh Hr. unfold size_of. rewrite (bind_run _ _ _ _ _ (obj_run_at s1 o r (h_obj _ _ _ _ _ _ _ Hh))). run.
  rewrite (holding_conf _ _ _ _ _ _ _ Hh). apply lift_run. by apply setTypeSize_rep.
Qed.

Lemma size_removed (v : sds) (L X : gset sds) :
  Z.of_nat (size (({[v]} ∪ L) ∩ X)) = (if bool_decide (v ∈ X) then 1 else 0) + Z.of_nat (size (L ∩ (X ∖ {[v]}))).
Proof.
  case_bool_decide as Hv.
  - assert (({[v]} ∪ L) ∩ X = {[v]} ∪ (L ∩ (X ∖ {[v]}))) as ->.
    { apply set_eq. intros y. destruct (decide (y = v)); set_solver. }
    rewrite size_union, size_singleton by set_solver. lia.
  - assert (({[v]} ∪ L) ∩ X = L ∩ (X ∖ {[v]})) as ->; [|lia].
    apply set_eq. intros y. destruct (decide (y = v)); set_solver.
Qed.

(** The loop ends when the set is empty and its key is removed, or after the last element. *)
Lemma srem_loop_spec s db key F x o vals : forall els s1 r X deleted,
  let k := (db, key) in
  holding s k F s1 o r x -> set_rep (data_env (conf s)) r X -> named (st s1) els vals ->
  exists b t, srem_loop db key o els deleted s1 = Some (deleted + Z.of_nat (size (list_to_set vals ∩ X)), b, with_st t s1) /\
    if b : bool then X <> ∅ /\ X ⊆ list_to_set vals /\ written s k F (with_st t s1) None None
    else (X ∖ list_to_set vals = ∅ -> X = ∅) /\
      exists r', holding s k F (with_st t s1) o r' x /\ set_rep (data_env (conf s)) r' (X ∖ list_to_set vals).
Proof.
  induction vals as [|v vals IH]; intros els s1 r X deleted k Hh Hr Hn.
  - apply Forall2_nil_inv_r in Hn as ->. exists false, (st s1). cbn [srem_loop list_to_set].
    assert (with_st (st s1) s1 = s1) as -> by by destruct s1. rewrite intersection_empty_l_L, difference_empty_L, size_empty, Z.add_0_r.
    split; [done|]. split; [done|]. by exists r.
  - apply Forall2_cons_inv_r in Hn as (e & els' & He & Hn & ->). cbn [srem_loop].
    rewrite (bind_run _ _ _ _ _ (name_run _ _ _ He)).
    destruct (setTypeRemove_rep (data_env (conf s)) r X v Hr) as (r1 & Ea & Hr1 & Hc1).
    destruct (set_rep_data _ _ _ Hr1) as (Hok1 & d1 & Hp1 & _).
    destruct (holding_on_obj s k F s1 o r x (fun E r => setTypeRemove E r v) r1 _ Hh Ea)
      as (t & Hrun & Hh1 & Ht); [done|by rewrite Hc1, (h_count _ _ _ _ _ _ _ Hh)|by eexists|].
    rewrite (bind_run _ _ _ _ _ Hrun). cbn [list_to_set]. rewrite size_removed.
    assert (X ∖ ({[v]} ∪ list_to_set vals) = X ∖ {[v]} ∖ list_to_set vals) as -> by set_solver.
    pose proof (holding_named s k F s1 o r x t els' vals Hh Ht Hn) as Hn1.
    case_bool_decide as Hv.
    + rewrite (bind_run _ _ _ _ _ (size_of_spec _ _ _ _ _ _ _ _ Hh1 Hr1)).
      destruct (Z.eqb_spec (Z.of_nat (size (X ∖ {[v]}))) 0) as [H0|H0].
      * assert (X ∖ {[v]} = ∅) as HX. { apply leibniz_equiv, size_empty_inv. lia. }
        destruct (holding_delete s db key F _ o r1 x Hh1) as (t' & Hdel & Hw'). exists true, t'.
        rewrite (bind_run _ _ _ _ _ Hdel), HX, intersection_empty_r_L, size_empty, Z.add_0_r, ret_run.
        split; [done|]. split_and!; [set_solver| |done].
        intros y Hy. destruct (decide (y = v)); set_solver.
      * destruct (IH els' (with_st t s1) r1 (X ∖ {[v]}) (deleted + 1) Hh1 Hr1 Hn1) as (b & t' & -> & Hb).
        exists b, t'. rewrite Z.add_assoc. split; [done|]. destruct b.
        -- destruct Hb as (_ & Hs & Hw). split_and!; [set_solver| |done]. intros y Hy. destruct (decide (y = v)); set_solver.
        -- destruct Hb as (Hs & Hrest). split; [|done]. intros HX%Hs. rewrite HX in H0. by rewrite size_empty in H0.
    + destruct (IH els' (with_st t s1) r1 (X ∖ {[v]}) deleted Hh1 Hr1 Hn1) as (b & t' & -> & Hb).
      exists b, t'. rewrite Z.add_0_l. assert (X ∖ {[v]} = X) as HX by set_solver. rewrite HX in *. split; [done|].
      destruct b; [|done]. destruct Hb as (? & ? & ?). split_and!; [done|set_solver|done].
Qed.

(** C19 [sremCommand] takes the arguments out of the set of the key, which is well formed in either encoding and whose value no other key shares: it replies with the number of elements that were
    in it, adds that number to the counter of changes and flags the watchers exactly if there is one. A key
    whose set has become empty is deleted with its expire time; else the key keeps it. An absent key is an empty
    set, and a value of another type is an error that changes nothing. *)
Theorem sremCommand_removes s c cl argv F key vals Xo :
  clients s !! c = Some cl -> store_ok (st s) (argv ++ F)%list ->
  is_arg (st s) argv 1 key -> named (st s) (drop 2 argv) vals ->
  let k := (c_db cl, key) in let E := data_env (conf s) in
  set_view E (alive s k) Xo -> unshared s k ->
  exists s', sremCommand c argv s = Some (argv, s') /\
    match Xo with
    | None => outcome s c k (argv ++ F)%list s' (alive s k) (alive_expire s k) false 0 [R_wrongtypeerr]
    | Some X =>
        let n := Z.of_nat (size (list_to_set vals ∩ X)) in
        exists v, set_view E v (Some (X ∖ list_to_set vals)) /\ (X ⊆ list_to_set vals -> X <> ∅ -> v = None) /\
        outcome s c k (argv ++ F)%list s' v (match v with None => None | Some _ => alive_expire s k end)
          (negb (n =? 0)) n [RInt n]
    end.
Proof.
  intros Hc Hok Hkey Hvals k E Hset Hu. unfold sremCommand.
  rewrite (bind_run _ _ _ _ _ (client_db_run s c cl Hc)), (bind_run _ _ _ _ _ (is_arg_run s argv 1 key Hkey)).
  destruct (lookupWriteOrReply_spec s c cl _ key (RInt 0) Hc Hok) as (s1 & old & Hes & Hf & Hrun). fold k in Hes, Hf.
  rewrite (bind_run _ _ _ _ _ Hrun). destruct old as [o|]; cbv beta iota.
  2:{ assert (alive s k = None /\ dict (st s1) !! k = None) as [Ha Hk] by (by inversion Hf).
      eexists. split; [done|]. rewrite Ha in *. cbn in Hset. subst Xo. cbn zeta. exists None.
      rewrite intersection_empty_r_L, size_empty. split_and!; [cbn [set_view]; f_equal; set_solver|done|].
      pose proof (outcome_lookup s c k _ s1 [RInt 0] Hes) as Ho. by rewrite Ha, (absent_expire _ _ _ _ Hes Hk) in Ho. }
  destruct Xo as [X|].
  2:{ destruct (not_set_found s k _ s1 c o Hes Hf Hset) as (r & Hr & Ht & Hct). rewrite (bind_run _ _ _ _ _ Hct).
      eexists. split; [done|]. by apply outcome_lookup. }
  destruct (set_found s k _ s1 o X Hes Hf Hset Hu) as (r & Hh & Hr & _).
  rewrite (bind_run _ _ _ _ _ (checkType_holds s1 c o r _ (h_obj _ _ _ _ _ _ _ Hh) (sr_type _ _ _ Hr))).
  destruct (srem_loop_spec s (c_db cl) key _ _ o vals (drop 2 argv) s1 r X 0 Hh Hr (named_es _ _ _ _ _ _ _ Hes Hvals))
    as (b & t & Hloop & Hb). rewrite (bind_run _ _ _ _ _ Hloop), Z.add_0_l. cbv beta iota. set (n := Z.of_nat _).
  destruct b.
  - destruct Hb as (Hne & Hsub & Hw). assert ((n =? 0) = false) as ->.
    { apply Z.eqb_neq. subst n. assert (list_to_set vals ∩ X = X) as -> by set_solver. intros H0. apply Hne.
      apply leibniz_equiv, size_empty_inv. lia. }
    cbn [negb]. rewrite (bind_run _ _ _ _ _ (bind_run _ _ _ _ _ (signalModifiedKey_spec _ _ _))).
    eexists. split; [done|]. exists None. split_and!; [|done|].
    + assert (X ∖ list_to_set vals = ∅) as -> by set_solver. done.
    + by eapply outcome_changed.
  - destruct Hb as (Hne & r' & Hh' & Hr'). destruct (set_rep_data _ _ _ Hr') as (_ & d & _ & Hd & Hval).
    assert (set_view E (Some (VObj OBJ_SET d)) (Some (X ∖ list_to_set vals))) as Hv by (by eexists).
    assert (X ⊆ list_to_set vals -> X <> ∅ -> Some (VObj OBJ_SET d) = None) as He by set_solver.
    destruct (n =? 0) eqn:Hn0; cbn [negb].
    + eexists. split; [done|]. exists (Some (VObj OBJ_SET d)). split_and!; [done|done|].
      eapply outcome_changed; [rewrite <- Hval; apply Hh'|..]; try done. cbn. apply Z.eqb_eq in Hn0. lia.
    + rewrite (bind_run _ _ _ _ _ (bind_run _ _ _ _ _ (signalModifiedKey_spec _ _ _))).
      eexists. split; [done|]. exists (Some (VObj OBJ_SET d)). split_and!; [done|done|].
      eapply outcome_changed; [rewrite <- Hval; apply Hh'|..]; done.
Qed.

(** ** SISMEMBER and SCARD *)

Definition member_reply (X : option (gset sds)) (ele : sds) : reply :=
  match X with None => R_wrongtypeerr | Some X => RInt (if bool_decide (ele ∈ X) then 1 else 0) end.

Definition card_reply (X : option (gset sds)) : reply :=
  match X with None => R_wrongtypeerr | Some X => RInt (Z.of_nat (size X)) end.

(** [sismemberCommand] replies whether the element is in the set a reader sees. The search may take a step of
    the rehashing of the dictionary; the set of the key stays the same. *)
Theorem sismemberCommand_reads s c cl argv F key ele Xo :
  clients s !! c = Some cl -> store_ok (st s) (argv ++ F)%list ->
  is_arg (st s) argv 1 key -> is_arg (st s) argv 2 ele ->
  let k := (c_db cl, key) in let E := data_env (conf s) in
  set_view E (visible s k) Xo -> unshared s k ->
  exists s' v, sismemberCommand c argv s = Some (argv, s') /\
    (forall X, set_view E (alive s k) X -> set_view E v X) /\
    outcome s c k (argv ++ F)%list s' v (alive_expire s k) false 0 [member_reply Xo ele].
Proof.
  intros Hc Hok Hkey Hele k E Hset Hu. unfold sismemberCommand.
  rewrite (bind_run _ _ _ _ _ (is_arg_run s argv 1 key Hkey)).
  destruct (lookupReadOrReply_spec s c cl _ key (RInt 0) Hc Hok) as (s1 & old & Hes & Hf & Hrun). fold k in Hes, Hf.
  rewrite (bind_run _ _ _ _ _ Hrun). destruct old as [o|]; cbv beta iota.
  2:{ assert (visible s k = None) as Ha by (by inversion Hf). rewrite Ha in Hset. cbn in Hset. subst Xo.
      eexists _, _. split; [done|]. split; [done|]. cbn [member_reply]. rewrite bool_decide_false by set_solver. by apply outcome_lookup. }
  destruct (read_found_alive _ _ _ _ _ _ Hf eq_refl) as [Hf' Ha]. rewrite <- Ha in Hset. destruct Xo as [X|].
  2:{ destruct (not_set_found s k _ s1 c o Hes Hf' Hset) as (r & Hr & Ht & Hct). rewrite (bind_run _ _ _ _ _ Hct).
      eexists _, _. split; [done|]. split; [done|]. by apply outcome_lookup. }
  destruct (set_found s k _ s1 o X Hes Hf' Hset Hu) as (r & Hh & Hr & _).
  rewrite (bind_run _ _ _ _ _ (checkType_holds s1 c o r _ (h_obj _ _ _ _ _ _ _ Hh) (sr_type _ _ _ Hr))).
  rewrite (bind_run _ _ _ _ _ (is_arg_run s1 argv 2 ele (is_arg_es _ _ _ _ _ _ _ Hes Hele))).
  destruct (setTypeIsMember_rep E r X ele Hr) as (r1 & Ea & Hr1 & Hc1). destruct (set_rep_data _ _ _ Hr1) as (Hok1 & d1 & Hp1 & Hd1 & Hval).
  destruct (holding_on_obj s k _ s1 o r _ (fun E r => setTypeIsMember E r ele) r1 _ Hh Ea)
    as (t & Hon & Hh1 & Ht); [done|by rewrite Hc1, (h_count _ _ _ _ _ _ _ Hh)|by eexists|].
  rewrite (bind_run _ _ _ _ _ Hon). eexists _, (Some (VObj OBJ_SET d1)). split; [done|]. split.
  - intros Y HY. rewrite (set_view_det _ _ _ _ HY Hset). by exists X.
  - eapply outcome_changed; [rewrite <- Hval; apply Hh1|..]; try done. cbn. lia.
Qed.

(** [scardCommand] replies with the number of elements of the set a reader sees. *)
Theorem scardCommand_reads s c cl argv F key Xo :
  clients s !! c = Some cl -> store_ok (st s) (argv ++ F)%list -> is_arg (st s) argv 1 key ->
  let k := (c_db cl, key) in
  set_view (data_env (conf s)) (visible s k) Xo -> unshared s k ->
  exists s', scardCommand c argv s = Some (argv, s') /\
    outcome s c k (argv ++ F)%list s' (alive s k) (alive_expire s k) false 0 [card_reply Xo].
Proof.
  intros Hc Hok Hkey k Hset Hu. unfold scardCommand.
  rewrite (bind_run _ _ _ _ _ (is_arg_run s argv 1 key Hkey)).
  destruct (lookupReadOrReply_spec s c cl _ key (RInt 0) Hc Hok) as (s1 & old & Hes & Hf & Hrun). fold k in Hes, Hf.
  rewrite (bind_run _ _ _ _ _ Hrun). destruct old as [o|]; cbv beta iota.
  2:{ assert (visible s k = None) as Ha by (by inversion Hf). rewrite Ha in Hset. cbn in Hset. subst Xo.
      eexists. split; [done|]. cbn [card_reply]. rewrite size_empty. by apply outcome_lookup. }
  destruct (read_found_alive _ _ _ _ _ _ Hf eq_refl) as [Hf' Ha]. rewrite <- Ha in Hset. destruct Xo as [X|].
  2:{ destruct (not_set_found s k _ s1 c o Hes Hf' Hset) as (r & Hr & Ht & Hct). rewrite (bind_run _ _ _ _ _ Hct).
      eexists. split; [done|]. by apply outcome_lookup. }
  destruct (set_found s k _ s1 o X Hes Hf' Hset Hu) as (r & Hh & Hr & _).
  rewrite (bind_run _ _ _ _ _ (checkType_holds s1 c o r _ (h_obj _ _ _ _ _ _ _ Hh) (sr_type _ _ _ Hr))).
  rewrite (bind_run _ _ _ _ _ (size_of_spec _ _ _ _ _ _ _ _ Hh Hr)).
  eexists. split; [done|]. by apply outcome_lookup.
Qed.

(** ** Witnesses *)

Module SetSample.
Import Sample.

(** Database 0 binds "s" to the set of -5, 3 and 70000; the arguments are "s", "3" and "x". *)
Definition t_set : store := {|
  objs := <[1%positive := Robj OBJ_STRING OBJ_ENCODING_EMBSTR (PSds [99]) 1]>
         (<[2%positive := Robj OBJ_STRING OBJ_ENCODING_EMBSTR (PSds [115]) 1]>
         (<[3%positive := Robj OBJ_STRING OBJ_ENCODING_EMBSTR (PSds [51]) 1]>
         (<[4%positive := Robj OBJ_STRING OBJ_ENCODING_EMBSTR (PSds [120]) 1]>
         (<[5%positive := Robj OBJ_SET OBJ_ENCODING_INTSET (PData (DIntset sample_intset)) 1]> ∅))));
  dict := <[(0, [115]) := Heap 5]> ∅;
  expires := <[(0, [115]) := 5000]> ∅
|}.

Definition s_set : server := with_st t_set s0.
Definition argv_set : list oid := [Heap 1; Heap 2; Heap 3; Heap 4].
Definition X_set : gset sds := set_map sdec ({[-5; 3; 70000]} : gset Z).

Lemma s_set_view : set_view env0 (alive s_set (0, [115])) (Some X_set).
Proof. exists X_set. split; [done|]. exists {[-5; 3; 70000]}. split; [exact sample_abs|done]. Qed.

Lemma s_set_unshared : unshared s_set (0, [115]).
Proof. intros o r Ho Hr. vm_compute in Ho. injection Ho as <-. vm_compute in Hr. by injection Hr as <-. Qed.

Lemma s_set_named : named (st s_set) (drop 2 argv_set) [[51]; [120]].
Proof. repeat constructor. Qed.

(** SADD of "3" and "x": the integer set becomes a dictionary with one more element. *)
Lemma saddCommand_adds_witness :
  exists s', saddCommand 1 argv_set s_set = Some (argv_set, s') /\
    exists d, set_data env0 d ({[[51]; [120]]} ∪ X_set) /\ is_intset d = false /\
      outcome s_set 1 (0, [115]) argv_set s' (Some (VObj OBJ_SET d)) (Some 5000) true 1 [RInt 1].
Proof.
  destruct (saddCommand_adds s_set 1 client0 argv_set [] [115] [[51]; [120]] (Some X_set)) as (s' & Hrun & d & Hd & Hi & Ho).
  - reflexivity.
  - apply store_check_sound. vm_compute. reflexivity.
  - eexists _, _. split; [reflexivity|]. split; reflexivity.
  - exact s_set_named.
  - done.
  - exact s_set_view.
  - exact s_set_unshared.
  - intros X [= <-]. split; [vm_compute; reflexivity|]. apply (bool_decide_eq_true_1 _). vm_compute. reflexivity.
  - exists s'. split; [exact Hrun|]. exists d. split; [|split; [rewrite Hi; vm_compute; reflexivity|exact Ho]].
    assert ({[[51]; [120]]} ∪ X_set = list_to_set [[51]; [120]] ∪ X_set) as -> by set_solver. exact Hd.
Defined.

(** SREM of "3" and "x". *)
Lemma sremCommand_removes_witness :
  exists s', sremCommand 1 argv_set s_set = Some (argv_set, s') /\
    exists v, set_view env0 v (Some (X_set ∖ {[[51]; [120]]})) /\
      outcome s_set 1 (0, [115]) argv_set s' v (match v with None => None | Some _ => Some 5000 end) true 1 [RInt 1].
Proof.
  destruct (sremCommand_removes s_set 1 client0 argv_set [] [115] [[51]; [120]] (Some X_set)) as (s' & Hrun & v & Hv & _ & Ho).
  - reflexivity.
  - apply store_check_sound. vm_compute. reflexivity.
  - eexists _, _. split; [reflexivity|]. split; reflexivity.
  - exact s_set_named.
  - exact s_set_view.
  - exact s_set_unshared.
  - exists s'. split; [exact Hrun|]. exists v. split; [|exact Ho].
    assert (X_set ∖ {[[51]; [120]]} = X_set ∖ list_to_set [[51]; [120]]) as -> by set_solver. exact Hv.
Defined.
End SetSample.
