(* ===== verification/THashSpec.v ===== *)
(** * Hashes refine finite maps

    [hash_data E d m]: the data [d], a ziplist with each field in front of its value or a dictionary, holds
    the finite map [m] from fields to values. The functions of the hash type are the operations on
    that map, through the conversion of a ziplist to a dictionary. The string of [LLONG_MIN] is excluded
    where a ziplist may be converted, since [sdsfromlonglong] is undefined on it. The weight of a map
    bounds the bytes of a ziplist that holds it. *)

From S2P Require Import Prelude Endian Util Sds SdsNum Ziplist ZiplistSpec ZiplistEdit ZiplistRead ZiplistPlace Dict DictIter DictMap Data State Object THash.

(** ** Fields and values in a ziplist *)

Fixpoint flat (l : list (sds * sds)) : list sds :=
  match l with [] => [] | (f, v) :: l => f :: v :: flat l end.

Lemma flat_app a b : flat (a ++ b) = flat a ++ flat b.
Proof. induction a as [|[f v] a IH]; [done|]. cbn [app flat]. by rewrite IH. Qed.

Lemma length_flat l : length (flat l) = (2 * length l)%nat.
Proof. induction l as [|[f v] l IH]; [done|]. cbn [flat length]. lia. Qed.

Lemma flat_nil l : flat l = [] -> l = [].
Proof. by destruct l as [|[]]. Qed.

Lemma take_flat a b : take (2 * length a) (flat (a ++ b)) = flat a.
Proof. rewrite flat_app, <- length_flat. apply take_app_length. Qed.

Lemma flat_lookup_field a f v b : flat (a ++ (f, v) :: b) !! (2 * length a)%nat = Some f.
Proof. rewrite flat_app, <- length_flat. by apply list_lookup_middle. Qed.

Lemma flat_lookup_value a f v b : flat (a ++ (f, v) :: b) !! S (2 * length a) = Some v.
Proof.
  rewrite flat_app, <- length_flat, lookup_app_r by lia. by replace (S (length (flat a)) - length (flat a))%nat with 1%nat by lia.
Qed.

(** The search of a field finds the pair that the map has for it. *)
Lemma find_flat f l : NoDup l.*1 ->
  match (list_to_map l : gmap sds sds) !! f with
  | Some v => exists a b, l = a ++ (f, v) :: b /\ find_in 1 0 f (flat l) = Some (2 * length a)%nat
  | None => find_in 1 0 f (flat l) = None
  end.
Proof.
  induction l as [|[f0 v0] l IH]; intros Hn; [done|]. cbn [fmap list_fmap] in Hn. apply NoDup_cons in Hn as [Hf Hn].
  cbn [list_to_map foldr flat find_in]. change (0 =? 0) with true. change (1 =? 0) with false. cbv iota.
  change (1 - 1) with 0. cbn [fst snd]. case_bool_decide as Hc.
  - subst f0. rewrite lookup_insert_eq. by exists [], l.
  - rewrite lookup_insert_ne by done. specialize (IH Hn).
    change (foldr (fun p : sds * sds => <[p.1:=p.2]>) ∅ l) with (list_to_map l : gmap sds sds).
    destruct ((list_to_map l : gmap sds sds) !! f) as [v|].
    + destruct IH as (a & b & -> & ->). exists ((f0, v0) :: a), b. split; [done|].
      cbn [fmap option_fmap option_map length]. f_equal. lia.
    + by rewrite IH.
Qed.

(** ** Weights *)

Definition hash_weight (m : gmap sds sds) : Z := zl_weight (flat (map_to_list m)).

Lemma flat_weight_perm l l' : l ≡ₚ l' -> zl_weight (flat l) = zl_weight (flat l').
Proof.
  induction 1 as [|[f v] l l' _ IH|[f v] [f' v'] l|l1 l2 l3 _ IH1 _ IH2]; cbn [flat]; rewrite ?zl_weight_cons; [done|lia|lia|].
  by rewrite IH1.
Qed.

Lemma hash_weight_list l : NoDup l.*1 -> hash_weight (list_to_map l) = zl_weight (flat l).
Proof. intros Hn. unfold hash_weight. apply flat_weight_perm. by apply map_to_list_to_map. Qed.

Lemma hash_weight_insert_new m f v : m !! f = None ->
  hash_weight (<[f:=v]> m) = zlen f + zlen v + 52 + hash_weight m.
Proof.
  intros Hf. unfold hash_weight. rewrite (flat_weight_perm _ _ (map_to_list_insert m f v Hf)). cbn [flat].
  rewrite !zl_weight_cons. lia.
Qed.

Lemma hash_weight_delete m f : hash_weight (delete f m) <= hash_weight m.
Proof.
  destruct (m !! f) as [v|] eqn:Hf; [|by rewrite delete_id].
  rewrite <- (insert_delete_id m f v Hf) at 2. rewrite hash_weight_insert_new by apply lookup_delete_eq.
  pose proof (zlen_nonneg f). pose proof (zlen_nonneg v). lia.
Qed.

Lemma hash_weight_insert m f v : hash_weight (<[f:=v]> m) <= zlen f + zlen v + 52 + hash_weight m.
Proof.
  rewrite <- insert_delete_eq, hash_weight_insert_new by apply lookup_delete_eq.
  pose proof (hash_weight_delete m f). lia.
Qed.

Lemma zl_weight_length xs : 26 * zlen xs <= zl_weight xs.
Proof.
  induction xs as [|x xs IH]; [done|]. rewrite zl_weight_cons, zlen_cons. pose proof (zlen_nonneg x). lia.
Qed.

Lemma hash_weight_size m : 52 * Z.of_nat (size m) <= hash_weight m.
Proof.
  unfold hash_weight. pose proof (zl_weight_length (flat (map_to_list m))) as Hw. unfold zlen in Hw.
  rewrite length_flat, length_map_to_list in Hw. lia.
Qed.

(** No field or value is the string that [sdsfromlonglong] cannot write. *)
Abbreviation hash_writable := (map_Forall (fun f v : sds => f <> sdec LLONG_MIN /\ v <> sdec LLONG_MIN)).

(** ** The representation *)

Section hashtype.
Variable E : env.
#[local] Hint Extern 0 Host => exact (env_host E) : typeclass_instances.
#[local] Hint Extern 0 (dictType sds sds) => exact (hashDictType E) : typeclass_instances.

Definition zl_hash (zl : list Z) (l : list (sds * sds)) : Prop := zl_rep zl (flat l) /\ NoDup l.*1.

Definition hash_data (d : data) (m : gmap sds sds) : Prop :=
  match d with
  | DZiplist zl => exists l, zl_hash zl l /\ m = list_to_map l
  | DHash d => dict_wf (T := hashDictType E) d /\ m = dmap d
  | _ => False
  end.

Record hash_rep (r : robj) (m : gmap sds sds) : Prop := HashRep {
  hr_type : type r = OBJ_HASH;
  hr_ok : robj_ok r;
  hr_data : exists d, ptr r = PData d /\ hash_data d m;
}.

Abbreviation zl_robj zl n := (Robj OBJ_HASH OBJ_ENCODING_ZIPLIST (PData (DZiplist zl)) n).
Abbreviation ht_robj d n := (Robj OBJ_HASH OBJ_ENCODING_HT (PData (DHash d)) n).

(** The two shapes of a hash. *)
Inductive hash_shape (r : robj) (m : gmap sds sds) : Prop :=
| hash_zl zl l : r = zl_robj zl (refcount r) -> zl_hash zl l -> m = list_to_map l -> hash_shape r m
| hash_ht d : r = ht_robj d (refcount r) -> dict_wf (T := hashDictType E) d -> m = dmap d -> hash_shape r m.

Lemma hash_rep_shape r m : hash_rep r m -> hash_shape r m.
Proof.
  intros [Ht Hok (d & Hp & Hd)]. destruct r as [t e p n]. cbn in *. subst t p. unfold robj_ok in Hok. cbn in Hok.
  destruct d as [is_|d|zl|d|k]; cbn in Hd; try done.
  - destruct Hd as (l & Hl & ->). destruct e; try done. by apply (hash_zl _ _ zl l).
  - destruct Hd as [W ->]. destruct e; try done. by apply (hash_ht _ _ d).
Qed.

Lemma zl_hash_rep zl l n : zl_hash zl l -> hash_rep (zl_robj zl n) (list_to_map l).
Proof. intros Hl. split; [done|done|]. eexists. split; [done|]. by exists l. Qed.

Lemma ht_hash_rep d n : dict_wf (T := hashDictType E) d -> hash_rep (ht_robj d n) (dmap d).
Proof. intros W. split; [done|done|]. eexists. by split. Qed.

(** What is read is the string [x]. *)
Definition hval_is (h : hval) (x : sds) : Prop :=
  match h with HStr s => s = x | HInt v => in_s 64 v /\ x = sdec v end.

Lemma read_got_is zl g x : got_is zl g x -> exists h, read_got zl g = Some h /\ hval_is h x.
Proof.
  destruct g as [pos len|v]; cbn [got_is read_got].
  - intros ->. by eexists.
  - intros Hv. by eexists.
Qed.

(** ** Reads *)

Lemma find_field zl l f : zl_hash zl l ->
  exists q, (fptr ← ziplistIndex zl ZIPLIST_HEAD;
             match fptr with Some p => ziplistFind zl p f 1 | None => Some None end) = Some q /\
    match (list_to_map l : gmap sds sds) !! f with
    | Some v => exists a b p, l = a ++ (f, v) :: b /\ q = Some p /\ zl_place zl (flat l) (2 * length a) p
    | None => q = None
    end.
Proof.
  intros [Hrep Hn]. destruct (place_index0 zl (flat l) Hrep) as (q0 & E0 & H0). unfold ZIPLIST_HEAD. rewrite E0.
  cbn [mbind option_bind]. case_decide as Hd.
  - apply flat_nil in Hd as ->. subst q0. by exists None.
  - destruct H0 as [-> _]. destruct (place_find zl (flat l) f 1 Hrep ltac:(lia)) as (q & Eq & Hq). exists q. split; [done|].
    pose proof (find_flat f l Hn) as Hf. destruct (_ !! f) as [v|].
    + destruct Hf as (a & b & -> & Ef). rewrite Ef in Hq. destruct Hq as (p & -> & Hp). by exists a, b, p.
    + by rewrite Hf in Hq.
Qed.

Lemma hashTypeGetFromZiplist_rep zl l n f : zl_hash zl l ->
  exists q, hashTypeGetFromZiplist E (zl_robj zl n) f = Some q /\
    match (list_to_map l : gmap sds sds) !! f with
    | Some v => exists h, q = Some h /\ hval_is h v
    | None => q = None
    end.
Proof.
  intros Hl. destruct (find_field zl l f Hl) as (q & Eq & Hq). unfold hashTypeGetFromZiplist. cbn [encoding as_zl ptr mbind option_bind].
  cbn [mbind option_bind] in Eq. destruct (ziplistIndex zl ZIPLIST_HEAD) as [q0|]; [|done]. cbn [mbind option_bind] in *.
  rewrite Eq. cbn [mbind option_bind]. destruct (_ !! f) as [v|]; [|subst q; by eexists].
  destruct Hq as (a & b & p & El & -> & Hp). assert (length (flat l) = 2 * length l)%nat as Hlen by apply length_flat.
  assert (S (2 * length a) < length (flat l))%nat as Hlt by (rewrite Hlen, El, length_app; cbn; lia).
  destruct (place_next zl _ _ p Hp) as (q & En & Hq); [lia|]. rewrite En. cbn [mbind option_bind].
  rewrite decide_True in Hq by done. destruct Hq as (p' & -> & Hp').
  destruct (place_get zl _ _ p' v Hp') as (g & Eg & Hg); [rewrite El; apply flat_lookup_value|].
  rewrite Eg. cbn [mbind option_bind]. destruct (read_got_is _ _ _ Hg) as (h & -> & Hh). cbn [mbind option_bind].
  eexists. split; [done|]. by exists h.
Qed.

Lemma hashTypeGetFromHashTable_rep d n f : dict_wf (T := hashDictType E) d ->
  exists d', hashTypeGetFromHashTable E (ht_robj d n) f = Some (ht_robj d' n, dmap d !! f) /\
    dict_wf (T := hashDictType E) d' /\ dmap d' = dmap d.
Proof.
  intros W. unfold hashTypeGetFromHashTable. cbn [encoding as_hash ptr mbind option_bind].
  destruct (dictFind_map (T := hashDictType E) d f W) as (d1 & de & Ef & W1 & Hd1 & Hde). rewrite Ef. cbn [mbind option_bind].
  destruct de as [e|].
  - destruct Hde as (v & -> & -> & _). cbn [mbind option_bind]. by exists d1.
  - rewrite Hde. by exists d1.
Qed.

(** [hashTypeGetValue] is the lookup in the map; the encoding may take a step of rehashing. *)
Lemma hashTypeGetValue_rep r m f : hash_rep r m ->
  exists r' q, hashTypeGetValue E r f = Some (r', q) /\ hash_rep r' m /\ refcount r' = refcount r /\
    match m !! f with Some v => exists h, q = Some h /\ hval_is h v | None => q = None end.
Proof.
  intros Hr. destruct (hash_rep_shape _ _ Hr) as [zl l Er Hl ->|d Er W ->]; rewrite Er; unfold hashTypeGetValue; cbn [encoding refcount].
  - destruct (hashTypeGetFromZiplist_rep zl l (refcount r) f Hl) as (q & -> & Hq). cbn [mbind option_bind].
    eexists _, _. split; [done|]. split; [by apply zl_hash_rep|]. by split.
  - destruct (hashTypeGetFromHashTable_rep d (refcount r) f W) as (d' & -> & W' & Hd). cbn [mbind option_bind].
    eexists _, _. split; [done|]. split; [rewrite <- Hd; by apply ht_hash_rep|]. split; [done|].
    destruct (dmap d !! f); by eexists.
Qed.

Lemma hashTypeExists_rep r m f : hash_rep r m ->
  exists r', hashTypeExists E r f = Some (r', bool_decide (is_Some (m !! f))) /\ hash_rep r' m /\ refcount r' = refcount r.
Proof.
  intros Hr. destruct (hash_rep_shape _ _ Hr) as [zl l Er Hl ->|d Er W ->]; rewrite Er; unfold hashTypeExists; cbn [encoding refcount].
  - destruct (hashTypeGetFromZiplist_rep zl l (refcount r) f Hl) as (q & -> & Hq). cbn [mbind option_bind].
    eexists. split; [|split; [by apply zl_hash_rep|done]]. do 2 f_equal. destruct (_ !! f) as [v|].
    + by destruct Hq as (h & -> & _).
    + by subst q.
  - destruct (hashTypeGetFromHashTable_rep d (refcount r) f W) as (d' & -> & W' & Hd). cbn [mbind option_bind].
    eexists. split; [|split; [rewrite <- Hd; by apply ht_hash_rep|done]]. by destruct (dmap d !! f).
Qed.

Lemma hval_length h x : hval_is h x -> match h with HStr s => zlen s | HInt v => sdigits10 v end = zlen x.
Proof. destruct h as [s|v]; cbn; [by intros ->|]. intros [Hv ->]. by apply sdigits10_correct. Qed.

Lemma hashTypeGetValueLength_rep r m f : hash_rep r m ->
  exists r', hashTypeGetValueLength E r f = Some (r', from_option zlen 0 (m !! f)) /\ hash_rep r' m /\ refcount r' = refcount r.
Proof.
  intros Hr. destruct (hash_rep_shape _ _ Hr) as [zl l Er Hl ->|d Er W ->]; rewrite Er; unfold hashTypeGetValueLength; cbn [encoding refcount].
  - destruct (hashTypeGetFromZiplist_rep zl l (refcount r) f Hl) as (q & -> & Hq). cbn [mbind option_bind].
    eexists. split; [|split; [by apply zl_hash_rep|done]]. do 2 f_equal. destruct (_ !! f) as [v|].
    + destruct Hq as (h & -> & Hh). by apply hval_length.
    + by subst q.
  - destruct (hashTypeGetFromHashTable_rep d (refcount r) f W) as (d' & -> & W' & Hd). cbn [mbind option_bind].
    eexists. split; [|split; [rewrite <- Hd; by apply ht_hash_rep|done]]. by destruct (dmap d !! f).
Qed.

Lemma hashTypeLength_rep r m : hash_rep r m ->
  exists r', hashTypeLength E r = Some (r', Z.of_nat (size m)) /\ hash_rep r' m /\ refcount r' = refcount r /\ encoding r' = encoding r.
Proof.
  intros Hr. destruct (hash_rep_shape _ _ Hr) as [zl l Er [Hl Hn] ->|d Er W ->]; rewrite Er; unfold hashTypeLength; cbn [encoding refcount as_zl as_hash ptr mbind option_bind].
  - destruct (ziplistLen_counts zl (flat l) Hl) as (zl' & -> & Hl'). cbn [mbind option_bind]. eexists.
    split; [|split_and!; [by apply zl_hash_rep|done|done]]. do 2 f_equal. unfold zlen. rewrite length_flat, map_size_list_to_map by done.
    rewrite Nat2Z.inj_mul, Z.mul_comm. by apply Z.div_mul.
  - eexists. split; [|split_and!; [by apply ht_hash_rep|done|done]]. by rewrite (dictSize_map (T := hashDictType E)).
Qed.

Lemma createHashObject_rep : exists r, createHashObject E = Some r /\ hash_rep r ∅ /\ refcount r = 1.
Proof.
  unfold createHashObject. destruct (ziplistNew_empty (new_bytes E)) as (zl & -> & Hz). cbn [mbind option_bind].
  eexists. split; [done|]. split; [|done]. apply (zl_hash_rep zl []). split; [done|constructor].
Qed.

(** ** Writes *)

Lemma keys_app (a b : list (sds * sds)) : (a ++ b).*1 = a.*1 ++ b.*1.
Proof. apply fmap_app. Qed.

Lemma map_replace a f v v' b : NoDup (a ++ (f, v) :: b).*1 ->
  (list_to_map (a ++ (f, v') :: b) : gmap sds sds) = <[f:=v']> (list_to_map (a ++ (f, v) :: b)).
Proof.
  intros Hn. assert (forall w, (list_to_map (a ++ (f, w) :: b) : gmap sds sds) = <[f:=w]> (list_to_map (a ++ b))) as Hw.
  { intros w. rewrite <- list_to_map_cons. apply list_to_map_proper; [|by rewrite <- Permutation_middle].
    rewrite keys_app in *. cbn [fmap list_fmap fst] in *. done. }
  by rewrite !Hw, insert_insert_eq.
Qed.

Lemma map_remove a f v b : NoDup (a ++ (f, v) :: b).*1 ->
  (list_to_map (a ++ b) : gmap sds sds) = delete f (list_to_map (a ++ (f, v) :: b)).
Proof.
  intros Hn. rewrite (list_to_map_proper (a ++ (f, v) :: b) ((f, v) :: a ++ b)) by (done || by rewrite <- Permutation_middle).
  cbn [list_to_map foldr fst snd]. rewrite delete_insert_id; [done|]. apply not_elem_of_list_to_map_1.
  rewrite keys_app in Hn. cbn [fmap list_fmap fst] in Hn. apply NoDup_app in Hn as (_ & H1 & H2).
  apply NoDup_cons in H2 as [H2 _]. rewrite keys_app, elem_of_app. intros [Hf|Hf]; [|done]. apply (H1 f Hf). by left.
Qed.

Lemma set_in_ziplist_rep zl l f v : zl_hash zl l -> zl_weight (flat l) + zlen f + zlen v + 128 < 2 ^ 31 ->
  exists zl' l', set_in_ziplist E zl f v = Some (zl', bool_decide (is_Some ((list_to_map l : gmap sds sds) !! f))) /\
    zl_hash zl' l' /\ list_to_map l' = <[f:=v]> (list_to_map l : gmap sds sds).
Proof.
  intros [Hrep Hn] Hb. pose proof (zlen_nonneg f). pose proof (zlen_nonneg v). pose proof (zl_weight_nonneg (flat l)).
  destruct (find_field zl l f (conj Hrep Hn)) as (q & Eq & Hq). unfold set_in_ziplist.
  cbn [mbind option_bind] in Eq. destruct (ziplistIndex zl ZIPLIST_HEAD) as [q0|]; [|done]. cbn [mbind option_bind] in *.
  rewrite Eq. cbn [mbind option_bind]. destruct (_ !! f) as [x|] eqn:Hx.
  - destruct Hq as (a & b & p & -> & -> & Hp).
    assert (length (flat (a ++ (f, x) :: b)) = 2 * length (a ++ (f, x) :: b))%nat as Hlen by apply length_flat.
    rewrite length_app in Hlen. cbn [length] in Hlen.
    destruct (place_next zl _ _ p Hp) as (q & En & Hq); [lia|]. rewrite En. cbn [mbind option_bind].
    rewrite decide_True in Hq by lia. destruct Hq as (p' & -> & Hp').
    destruct (place_delete (new_bytes E) zl _ _ p' Hp') as (zl1 & Ed & Hp1); [lia|lia|]. rewrite Ed. cbn [mbind option_bind].
    assert (take (S (2 * length a)) (flat (a ++ (f, x) :: b)) = flat a ++ [f]) as Et.
    { rewrite (take_S_r _ _ f) by apply flat_lookup_field. by rewrite take_flat. }
    assert (drop (S (S (2 * length a))) (flat (a ++ (f, x) :: b)) = flat b) as Edr.
    { rewrite flat_app. cbn [flat]. rewrite <- length_flat. change (f :: x :: flat b) with ([f; x] ++ flat b). rewrite app_assoc.
      apply drop_app_length'. rewrite length_app. cbn. lia. }
    rewrite Et, Edr in Hp1.
    destruct (place_insert (new_bytes E) zl1 _ _ p' v Hp1) as (zl2 & Ei & Hr2).
    { rewrite zl_weight_app, zl_weight_app, zl_weight_cons. rewrite flat_app, zl_weight_app in Hb. cbn [flat] in Hb.
      rewrite !zl_weight_cons in Hb. change (zl_weight []) with 0. pose proof (zlen_nonneg x). lia. }
    rewrite Ei. cbn [mbind option_bind]. exists zl2, (a ++ (f, v) :: b). split; [done|]. split.
    + split; [|rewrite keys_app in *; done].
      assert (S (2 * length a) = length (flat a ++ [f])) as El by (rewrite length_app, length_flat; cbn; lia).
      rewrite El, take_app_length, drop_app_length in Hr2. rewrite flat_app. cbn [flat].
      rewrite <- app_assoc in Hr2. exact Hr2.
    + by apply map_replace.
  - subst q. destruct (place_push (new_bytes E) zl (flat l) f Hrep) as (zl1 & -> & Hr1); [lia|]. cbn [mbind option_bind].
    destruct (place_push (new_bytes E) zl1 _ v Hr1) as (zl2 & -> & Hr2).
    { rewrite zl_weight_app, zl_weight_cons. change (zl_weight []) with 0. lia. }
    cbn [mbind option_bind]. assert (f ∉ l.*1) as Hnf by by apply not_elem_of_list_to_map_2 in Hx.
    assert (NoDup (l ++ [(f, v)]).*1) as Hn'.
    { rewrite keys_app. cbn [fmap list_fmap fst]. apply NoDup_app. split_and!; [done|set_solver|apply NoDup_singleton]. }
    exists zl2, (l ++ [(f, v)]). split; [done|]. split.
    + split; [|done]. rewrite flat_app. cbn [flat]. by rewrite <- app_assoc in Hr2.
    + rewrite (list_to_map_proper (l ++ [(f, v)]) ((f, v) :: l)); [done|done|]. by rewrite Permutation_app_comm.
Qed.

Lemma hashTypeDelete_rep r m f : hash_rep r m -> hash_weight m + 128 < 2 ^ 31 ->
  exists r', hashTypeDelete E r f = Some (r', bool_decide (is_Some (m !! f))) /\ hash_rep r' (delete f m) /\ refcount r' = refcount r.
Proof.
  intros Hr Hb. destruct (hash_rep_shape _ _ Hr) as [zl l Er [Hrep Hn] ->|d Er W ->]; rewrite Er; unfold hashTypeDelete;
    cbn [encoding refcount as_zl as_hash ptr mbind option_bind].
  - rewrite hash_weight_list in Hb by done. destruct (find_field zl l f (conj Hrep Hn)) as (q & Eq & Hq).
    cbn [mbind option_bind] in Eq. destruct (ziplistIndex zl ZIPLIST_HEAD) as [q0|]; [|done]. cbn [mbind option_bind] in *.
    rewrite Eq. cbn [mbind option_bind]. destruct (_ !! f) as [x|] eqn:Hx.
    + destruct Hq as (a & b & p & -> & -> & Hp).
      assert (length (flat (a ++ (f, x) :: b)) = 2 * length (a ++ (f, x) :: b))%nat as Hlen by apply length_flat.
      rewrite length_app in Hlen. cbn [length] in Hlen.
      destruct (place_delete (new_bytes E) zl _ _ p Hp) as (zl1 & Ed & Hp1); [lia|lia|]. rewrite Ed. cbn [mbind option_bind].
      rewrite take_flat in Hp1.
      assert (drop (S (2 * length a)) (flat (a ++ (f, x) :: b)) = x :: flat b) as Edr.
      { rewrite flat_app. cbn [flat]. rewrite <- length_flat. change (f :: x :: flat b) with ([f] ++ x :: flat b). rewrite app_assoc.
        apply drop_app_length'. rewrite length_app. cbn. lia. }
      rewrite Edr in Hp1. destruct (place_delete (new_bytes E) zl1 _ _ p Hp1) as (zl2 & Ed2 & Hp2).
      { rewrite length_app, length_flat. cbn. lia. }
      { rewrite zl_weight_app. rewrite flat_app, zl_weight_app in Hb. cbn [flat] in Hb. rewrite !zl_weight_cons in *.
        pose proof (zlen_nonneg f). lia. }
      rewrite Ed2. cbn [mbind option_bind]. eexists. split; [done|]. split; [|done].
      rewrite <- (map_remove a f x b Hn). apply zl_hash_rep. split.
      * apply place_rep in Hp2. rewrite <- length_flat, take_app_length in Hp2. rewrite flat_app.
        assert (drop (S (length (flat a))) (flat a ++ x :: flat b) = flat b) as Hd2; [|by rewrite Hd2 in Hp2].
        change (x :: flat b) with ([x] ++ flat b). rewrite app_assoc. apply drop_app_length'. rewrite length_app. cbn. lia.
      * rewrite keys_app in *. cbn [fmap list_fmap fst] in Hn. apply NoDup_app in Hn as (H1 & H2 & H3).
        apply NoDup_cons in H3 as [_ H3]. apply NoDup_app. split_and!; [done| |done]. intros y Hy Hyb. apply (H2 y Hy). by right.
    + subst q. eexists. split; [done|]. split; [|done]. rewrite delete_id by done. by apply zl_hash_rep.
  - destruct (dictDelete_map (T := hashDictType E) d f W) as (d1 & st & fr & Ed & W1 & Hd1 & Hst).
    rewrite Ed. cbn [mbind option_bind]. rewrite <- Hd1. destruct (dmap d !! f) as [u|] eqn:Hl; rewrite Hst.
    + destruct (htNeedsResize d1).
      * destruct (dictResize_map (T := hashDictType E) (can_resize E) d1 W1) as (d2 & st2 & Er2 & W2 & Hd2).
        rewrite Er2. cbn [mbind option_bind fmap option_fmap option_map fst]. eexists. split; [done|]. split; [|done].
        rewrite <- Hd2. by apply ht_hash_rep.
      * cbn [mbind option_bind]. eexists. split; [done|]. split; [|done]. by apply ht_hash_rep.
    + eexists. split; [done|]. split; [|done]. by apply ht_hash_rep.
Qed.

(** ** Iteration *)

Abbreviation addr := (fun _ : Dict.dict sds sds => table_addr E).

(** The pairs that the iterator has still to give. *)
Inductive hash_iter (r : robj) (hi : hashTypeIterator) : list (sds * sds) -> Prop :=
| iter_zl zl l a b n : r = zl_robj zl n -> zl_hash zl l -> l = a ++ b -> hi_encoding hi = OBJ_ENCODING_ZIPLIST ->
    (if decide (a = []) then hi_fptr hi = None /\ hi_vptr hi = None
     else exists fp p, hi_fptr hi = Some fp /\ hi_vptr hi = Some p /\ zl_place zl (flat l) (2 * length a - 1) p) ->
    hash_iter r hi b
| iter_ht d rem n : r = ht_robj d n -> dict_wf (T := hashDictType E) d -> hi_encoding hi = OBJ_ENCODING_HT ->
    i_safe (hi_di hi) = false -> pending d (hi_di hi) rem ->
    (not_started (hi_di hi) = false -> fingerprint (hi_di hi) = Some (dictFingerprint addr d)) ->
    hash_iter r hi rem.

Lemma hashTypeInitIterator_rep r m : hash_rep r m ->
  exists hi l, hashTypeInitIterator r = Some hi /\ hash_iter r hi l /\ NoDup l.*1 /\ m = list_to_map l.
Proof.
  intros Hr. destruct (hash_rep_shape _ _ Hr) as [zl l Er Hl ->|d Er W ->]; rewrite Er; unfold hashTypeInitIterator; cbn [encoding].
  - eexists _, l. split; [done|]. split_and!; [|apply Hl|done]. by apply (iter_zl _ _ zl l [] l (refcount r)).
  - eexists _, (entries d). split; [done|]. split_and!; [|by apply (entries_NoDup (T := hashDictType E))|done].
    apply (iter_ht _ _ d (entries d) (refcount r)); try done. by apply (iterate_fresh_pending (T := hashDictType E)).
Qed.

(** The pointer to the next field. *)
Lemma next_field zl l a b hi : zl_hash zl l -> l = a ++ b ->
  (if decide (a = []) then hi_fptr hi = None /\ hi_vptr hi = None
   else exists fp p, hi_fptr hi = Some fp /\ hi_vptr hi = Some p /\ zl_place zl (flat l) (2 * length a - 1) p) ->
  exists q, (match hi_fptr hi, hi_vptr hi with
             | None, None => ziplistIndex zl 0
             | Some _, Some vptr => ziplistNext zl vptr
             | _, _ => None
             end) = Some q /\
    match b with [] => q = None | _ => exists p, q = Some p /\ zl_place zl (flat l) (2 * length a) p end.
Proof.
  intros [Hrep Hn] El Ha. assert (length (flat l) = 2 * length l)%nat as Hlen by apply length_flat.
  rewrite El, length_app in Hlen. case_decide as Hd.
  - subst a. destruct Ha as [-> ->]. destruct (place_index0 zl (flat l) Hrep) as (q & -> & Hq). exists q. split; [done|].
    cbn [app] in El. subst l. destruct b as [|[f v] b]; [done|]. cbn [flat] in Hq. rewrite decide_False in Hq by done.
    destruct Hq as [-> Hp]. by eexists.
  - destruct Ha as (fp & p & -> & -> & Hp). assert (0 < length a)%nat by (destruct a; [done|cbn; lia]).
    rewrite <- El in Hlen. destruct (place_next zl _ _ p Hp) as (q & -> & Hq); [lia|]. exists q. split; [done|].
    replace (S (2 * length a - 1)) with (2 * length a)%nat in Hq by lia. destruct b as [|[f v] b].
    + rewrite decide_False in Hq; [done|]. cbn in Hlen. lia.
    + rewrite decide_True in Hq; [done|]. cbn in Hlen. lia.
Qed.

Lemma hashTypeNext_rep r hi rem : hash_iter r hi rem ->
  exists hi', hashTypeNext E r hi = Some (r, hi', match rem with [] => false | _ => true end) /\
    match rem with
    | [] => hashTypeReleaseIterator E r hi' = Some r
    | (f, v) :: rem =>
        hash_iter r hi' rem /\
        (exists h, hashTypeCurrentObject E r hi' true = Some h /\ hval_is h f) /\
        (exists h, hashTypeCurrentObject E r hi' false = Some h /\ hval_is h v)
    end.
Proof.
  intros [zl l a b n -> Hl El He Ha|d rem' n -> W He Hs Hp Hfp]; unfold hashTypeNext; rewrite He.
  - destruct (next_field zl l a b hi Hl El Ha) as (q & Eq & Hq). cbn [as_zl ptr mbind option_bind]. rewrite Eq.
    cbn [mbind option_bind]. destruct b as [|[f v] b].
    { subst q. exists hi. split; [done|]. unfold hashTypeReleaseIterator. by rewrite He. }
    destruct Hq as (fp & -> & Hfp). destruct Hl as [Hrep Hn].
    assert (length (flat l) = 2 * length l)%nat as Hlen by apply length_flat. rewrite El, length_app in Hlen. cbn [length] in Hlen.
    rewrite <- El in Hlen. destruct (place_next zl _ _ fp Hfp) as (q & -> & Hq); [lia|]. cbn [mbind option_bind].
    rewrite decide_True in Hq by lia. destruct Hq as (vp & -> & Hvp). eexists. split; [done|]. split_and!.
    + apply (iter_zl _ _ zl l (a ++ [(f, v)]) b n); [done|done|by rewrite <- app_assoc|done|].
      rewrite decide_False by (by destruct a). eexists _, _. split; [done|]. split; [done|]. rewrite length_app. cbn [length].
      by replace (2 * (length a + 1) - 1)%nat with (S (2 * length a)) by lia.
    + unfold hashTypeCurrentObject, hashTypeCurrentFromZiplist. cbn [hi_encoding hi_fptr hi_vptr as_zl ptr mbind option_bind].
      destruct (place_get zl _ _ fp f Hfp) as (g & -> & Hg); [rewrite El; apply flat_lookup_field|]. cbn [mbind option_bind].
      by apply read_got_is.
    + unfold hashTypeCurrentObject, hashTypeCurrentFromZiplist. cbn [hi_encoding hi_fptr hi_vptr as_zl ptr mbind option_bind].
      destruct (place_get zl _ _ vp v Hvp) as (g & -> & Hg); [rewrite El; apply flat_lookup_value|]. cbn [mbind option_bind].
      by apply read_got_is.
  - destruct (dictNext_spec (T := hashDictType E) addr d (hi_di hi) rem' W Hp) as (d' & it' & En & [Ht Hsafe Hst Hit Hpr] & Hret).
    rewrite Hs, andb_false_r in Hit. assert (d' = d) as ->.
    { destruct Ht as (E0 & E1 & Er). destruct d, d'. cbn in *. by subst. }
    assert (fingerprint it' = Some (dictFingerprint addr d)) as Hfp'.
    { rewrite Hpr, Hs, andb_true_r. destruct (not_started (hi_di hi)) eqn:Hns; [done|by apply Hfp]. }
    cbn [as_hash ptr mbind option_bind]. rewrite En. cbn [mbind option_bind]. eexists. split; [by destruct rem'|].
    destruct rem' as [|[f v] rem'].
    + unfold hashTypeReleaseIterator. cbn [hi_encoding hi_di as_hash ptr mbind option_bind]. unfold dictReleaseIterator.
      rewrite Hst, Hsafe, Hs. cbn [negb]. rewrite bool_decide_eq_true_2 by exact Hfp'. done.
    + split_and!; [|by eexists|by eexists]. apply (iter_ht _ _ d rem' n); try done.
      * cbn [hi_di]. by rewrite Hsafe.
      * by eapply returned_pending.
Qed.

(** ** Conversion *)

Lemma current_new_sds r hi b h x : hashTypeCurrentObject E r hi b = Some h -> hval_is h x -> x <> sdec LLONG_MIN ->
  hashTypeCurrentObjectNewSds E r hi b = Some x.
Proof.
  intros Hc Hh Hx. unfold hashTypeCurrentObjectNewSds. rewrite Hc. cbn [mbind option_bind]. destruct h as [s|v]; cbn [hval_is] in Hh.
  - by subst s.
  - destruct Hh as [Hv ->]. apply sdsfromlonglong_correct; [done|]. by intros ->.
Qed.

Lemma hash_convert_loop_spec rem : forall fuel r hi d,
  hash_iter r hi rem -> (length rem < fuel)%nat -> dict_wf (T := hashDictType E) d ->
  NoDup rem.*1 -> (forall f, f ∈ rem.*1 -> dmap d !! f = None) ->
  Forall (fun p => p.1 <> sdec LLONG_MIN /\ p.2 <> sdec LLONG_MIN) rem ->
  Z.of_nat (size (dmap d)) + zlen rem < 2 ^ 60 ->
  exists hi' d', hash_convert_loop E fuel r hi d = Some (r, hi', d') /\ hashTypeReleaseIterator E r hi' = Some r /\
    dict_wf (T := hashDictType E) d' /\ dmap d' = list_to_map rem ∪ dmap d.
Proof.
  induction rem as [|[f v] rem IH]; intros [|fuel] r hi d Hi Hf W Hn Hd Hw Hb; cbn in Hf; try lia; cbn [hash_convert_loop];
    destruct (hashTypeNext_rep _ _ _ Hi) as (hi' & -> & Hnext); cbn [mbind option_bind negb].
  { exists hi', d. split_and!; [done|done|done|]. symmetry. apply (left_id_L ∅ (∪)). }
  destruct Hnext as (Hi' & (hf & Ef & Hhf) & (hv & Ev & Hhv)). cbn [fmap list_fmap fst] in *.
  apply Forall_cons in Hw as [[Hwf Hwv] Hw]. cbn [fst snd] in Hwf, Hwv. apply NoDup_cons in Hn as [Hnf Hn].
  rewrite zlen_cons in Hb. pose proof (zlen_nonneg rem).
  rewrite (current_new_sds _ _ _ _ _ Ef Hhf Hwf). cbn [mbind option_bind].
  rewrite (current_new_sds _ _ _ _ _ Ev Hhv Hwv). cbn [mbind option_bind].
  destruct (dictAdd_map (T := hashDictType E) [] (can_resize E) d f v W) as (d1 & st & Ea & W1 & Hst); [lia|].
  rewrite Ea. cbn [mbind option_bind]. assert (dmap d !! f = None) as Hdf by (apply Hd; by left).
  rewrite Hdf in Hst. destruct Hst as [-> Hd1].
  destruct (IH fuel r hi' d1 Hi') as (hi2 & d2 & -> & Hrel & W2 & Hd2); [lia|done|done| |done| |].
  - intros f' Hf'. rewrite Hd1. rewrite lookup_insert_ne; [apply Hd; by right|]. by intros ->.
  - rewrite Hd1, map_size_insert_None by done. lia.
  - exists hi2, d2. split_and!; [done|done|done|]. rewrite Hd2, Hd1. cbn [list_to_map foldr fst snd].
    rewrite <- insert_union_r; [by rewrite insert_union_l|]. by apply not_elem_of_list_to_map_1.
Qed.

Lemma hashTypeConvert_rep zl l n : zl_hash zl l -> hash_writable (list_to_map l : gmap sds sds) ->
  exists d, hashTypeConvert E (zl_robj zl n) OBJ_ENCODING_HT = Some (ht_robj d n) /\
    dict_wf (T := hashDictType E) d /\ dmap d = list_to_map l.
Proof.
  intros Hl Hw. pose proof Hl as [Hrep Hn]. unfold hashTypeConvert, hashTypeConvertZiplist. cbn [encoding as_zl ptr mbind option_bind].
  destruct (hashTypeInitIterator_rep _ _ (zl_hash_rep zl l n Hl)) as (hi & l' & Ei & Hi & Hn' & Em). rewrite Ei. cbn [mbind option_bind].
  assert (l' ≡ₚ l) as Hp by (by apply list_to_map_inj).
  destruct (rep_length _ _ Hrep) as (cnt & L & Hz & HL & Hzl & HlenL & Hge). pose proof (za_size _ _ _ Hz) as Hsz.
  assert (zlen (flat l) = 2 * zlen l) as Hfl by (unfold zlen; rewrite length_flat; lia).
  assert (length l' = length l) as Hll by by rewrite Hp.
  destruct (hash_convert_loop_spec l' (length zl) _ hi dictCreate Hi) as (hi' & d & -> & Hrel & W & Hd).
  - unfold zlen in *. lia.
  - apply (dictEmpty_wf (T := hashDictType E)).
  - done.
  - done.
  - apply Forall_forall. intros [f v] Hf. cbn [fst snd]. rewrite Em in Hw. apply (Hw f v).
    by apply elem_of_list_to_map.
  - change (size (dmap (dictCreate : Dict.dict sds sds))) with 0%nat. unfold zlen in *. lia.
  - cbn [mbind option_bind]. rewrite Hrel. cbn [mbind option_bind]. exists d. split_and!; [done|done|].
    rewrite Hd, Em. apply (right_id_L ∅ (∪)).
Qed.

Lemma hashTypeSet_rep max r m f v :
  hash_rep r m -> hash_weight m + zlen f + zlen v + 128 < 2 ^ 31 -> hash_writable (<[f:=v]> m) ->
  exists r', hashTypeSet E max r f v = Some (r', bool_decide (is_Some (m !! f))) /\ hash_rep r' (<[f:=v]> m) /\ refcount r' = refcount r.
Proof.
  intros Hr Hb Hw. pose proof (hash_weight_size m) as Hsz. pose proof (zlen_nonneg f). pose proof (zlen_nonneg v).
  destruct (hash_rep_shape _ _ Hr) as [zl l Er Hl ->|d Er W ->]; rewrite Er; unfold hashTypeSet;
    cbn [encoding refcount as_zl as_hash ptr mbind option_bind].
  - rewrite hash_weight_list in Hb by apply Hl.
    destruct (set_in_ziplist_rep zl l f v Hl Hb) as (zl1 & l1 & -> & Hl1 & Em). cbn [mbind option_bind].
    change (with_zl zl1 _) with (zl_robj zl1 (refcount r)).
    destruct (hashTypeLength_rep _ _ (zl_hash_rep zl1 l1 (refcount r) Hl1)) as (r2 & -> & Hr2 & Hc2 & He2). cbn [mbind option_bind].
    rewrite <- Em in *. destruct (_ >? max); cbn [mbind option_bind]; [|by exists r2].
    destruct (hash_rep_shape _ _ Hr2) as [zl2 l2 Er2 Hl2 Em2|d2 Er2 W2 Em2].
    + rewrite Er2. rewrite Em2 in Hw |- *. destruct (hashTypeConvert_rep zl2 l2 (refcount r2) Hl2 Hw) as (d & -> & W & Hd).
      cbn [mbind option_bind]. eexists. split; [done|]. split; [|done]. rewrite <- Hd. by apply ht_hash_rep.
    + by rewrite Er2 in He2.
  - destruct (dictFind_map (T := hashDictType E) d f W) as (d1 & de & Ef & W1 & Hd1 & Hde). rewrite Ef. cbn [mbind option_bind].
    destruct de as [e|].
    + destruct Hde as (x & _ & -> & Hst). destruct (Hst v) as (d2 & -> & W2 & Hd2). cbn [mbind option_bind].
      eexists. split; [done|]. split; [|done]. rewrite <- Hd2. by apply ht_hash_rep.
    + destruct (dictAdd_map (T := hashDictType E) [] (can_resize E) d1 f v W1) as (d2 & st & Ea & W2 & Hst); [rewrite Hd1; lia|].
      rewrite Ea. cbn [mbind option_bind]. rewrite Hd1, Hde in Hst. rewrite Hde. destruct Hst as [_ Hd2].
      eexists. split; [done|]. split; [|done]. rewrite <- Hd2. by apply ht_hash_rep.
Qed.
End hashtype.
