(* ===== verification/THashCmdSpec.v ===== *)
(** * The commands on hashes

    The outcome of the commands of t_hash.c in terms of the finite map that the key holds
    ([hash_view]): HSET and HMSET, HDEL, HINCRBY, HGET and the commands that read all
    fields. *)

From S2P Require Import Prelude Endian Util Sds SdsNum Ziplist ZiplistSpec ZiplistEdit ZiplistRead ZiplistPlace Dict DictIter DictMap Data State Object Server Db DbSpec Outcome InPlace SampleState KeySpec TStringSpec THash THashSpec.

(** What a value is as a hash: absent is the empty hash, and [None] is a value of another type. *)
Definition hash_view (E : env) (v : option value) (m : option (gmap sds sds)) : Prop :=
  match v with
  | None => m = Some ∅
  | Some (VObj OBJ_HASH d) => exists m', m = Some m' /\ hash_data E d m'
  | Some _ => m = None
  end.

Lemma hash_rep_data E r m : hash_rep E r m -> robj_ok r /\ exists d, ptr r = PData d /\ hash_data E d m /\ val_of r = VObj OBJ_HASH d.
Proof.
  intros [Ht Hok (d & Hp & Hd)]. split; [done|]. exists d. split_and!; [done|done|]. unfold val_of. by rewrite Hp, Ht.
Qed.

Section commands.
Variables (s : server) (k : Z * sds) (F : list oid).
Abbreviation Ev := (data_env (conf s)).

(** The value that a lookup finds, when it is a hash. *)
Lemma hash_found s1 o m :
  expire_step k F s s1 -> found s s1 k F (Some o) (alive s k) -> hash_view Ev (alive s k) (Some m) -> unshared s k ->
  exists r, holding s k F s1 o r (alive_expire s k) /\ hash_rep Ev r m /\ alive s k = Some (val_of r).
Proof.
  intros Hes Hf Hv Hu. destruct (alive s k) as [v|]; [|inversion Hf].
  destruct v as [bs|t d]; [done|]. destruct t; try done. destruct Hv as (m' & [= <-] & Hd).
  destruct (found_data _ _ _ _ _ _ _ Hes Hf) as (r & _ & Ht & Hp & Hok & _ & Hh). exists r. split; [by apply Hh|].
  split; [split; [done|done|by exists d]|]. unfold val_of. by rewrite Hp, Ht.
Qed.

Lemma not_hash_found s1 c o :
  expire_step k F s s1 -> found s s1 k F (Some o) (alive s k) -> hash_view Ev (alive s k) None ->
  exists r, obj_at (st s1) o = Some r /\ type r <> OBJ_HASH /\
    checkType c o OBJ_HASH s1 = Some (true, upd_clients (alter (says [R_wrongtypeerr]) c) s1).
Proof.
  intros Hes Hf Hv. apply (other_type_found s k F s1 c o OBJ_HASH); try done.
  destruct (alive s k) as [[bs|t d]|]; cbn in *; try done. destruct t; naive_solver.
Qed.

(** A function of the hash type on the object of the key. *)
Lemma hash_step {A} s1 o r x (f : env -> robj -> option (robj * A)) r' a m' :
  holding s k F s1 o r x -> f Ev r = Some (r', a) -> hash_rep Ev r' m' -> refcount r' = refcount r ->
  exists t, on_obj o f s1 = Some (a, with_st t s1) /\ holding s k F (with_st t s1) o r' x /\
    (forall els vals, named (st s1) els vals -> named t els vals).
Proof.
  intros Hh Hf Hr' Hc. destruct (hash_rep_data _ _ _ Hr') as (Hok & d & Hp & _).
  destruct (holding_on_obj s k F s1 o r x f r' a Hh Hf) as (t & Hrun & Hh1 & Ht);
    [done|by rewrite Hc, (h_count _ _ _ _ _ _ _ Hh)|by eexists|].
  exists t. split_and!; [done|done|]. intros els vals. exact (holding_named s k F s1 o r x t els vals Hh Ht).
Qed.

(** ** Setting fields *)

(** The fields set one after the other, and the weight of the strings. *)
Definition set_all (pairs : list (sds * sds)) (m : gmap sds sds) : gmap sds sds :=
  foldl (fun m p => <[p.1:=p.2]> m) m pairs.

Lemma set_field_spec s1 o r x m f v :
  holding s k F s1 o r x -> hash_rep Ev r m -> hash_weight m + zlen f + zlen v + 128 < 2 ^ 31 -> hash_writable (<[f:=v]> m) ->
  exists t r', set_field o f v s1 = Some (bool_decide (is_Some (m !! f)), with_st t s1) /\
    holding s k F (with_st t s1) o r' x /\ hash_rep Ev r' (<[f:=v]> m) /\
    (forall els vals, named (st s1) els vals -> named t els vals).
Proof.
  intros Hh Hr Hb Hw. unfold set_field. rewrite (bind_run _ _ _ _ _ (get_run s1)). rewrite (holding_conf _ _ _ _ _ _ _ Hh).
  destruct (hashTypeSet_rep Ev (hash_max_ziplist_entries (conf s)) r m f v Hr Hb Hw) as (r' & Ea & Hr' & Hc').
  destruct (hash_step s1 o r x (fun E r => hashTypeSet E (hash_max_ziplist_entries (conf s)) r f v) r' _ _ Hh Ea Hr' Hc')
    as (t & Hrun & Hh' & Hn). by exists t, r'.
Qed.

Lemma hset_loop_spec x o pairs : forall els s1 r m created,
  holding s k F s1 o r x -> hash_rep Ev r m -> named (st s1) els (flat pairs) ->
  hash_weight m + zl_weight (flat pairs) + 128 < 2 ^ 31 -> hash_writable m ->
  Forall (fun p => p.1 <> sdec LLONG_MIN /\ p.2 <> sdec LLONG_MIN) pairs ->
  exists t r', hset_loop o els created s1
      = Some (created + Z.of_nat (size (set_all pairs m)) - Z.of_nat (size m), with_st t s1) /\
    holding s k F (with_st t s1) o r' x /\ hash_rep Ev r' (set_all pairs m) /\
    (forall els vals, named (st s1) els vals -> named t els vals).
Proof.
  induction pairs as [|[f v] pairs IH]; intros els s1 r m created Hh Hr Hn Hb Hw Hp; cbn [flat set_all foldl] in *.
  - apply Forall2_nil_inv_r in Hn as ->. exists (st s1), r. cbn [hset_loop].
    assert (with_st (st s1) s1 = s1) as -> by by destruct s1. split_and!; [|done|done|done].
    rewrite ret_run. do 2 f_equal. lia.
  - apply Forall2_cons_inv_r in Hn as (e1 & els1 & He1 & Hn & ->). apply Forall2_cons_inv_r in Hn as (e2 & els2 & He2 & Hn & ->).
    rewrite !zl_weight_cons in Hb. pose proof (zl_weight_nonneg (flat pairs)). apply Forall_cons in Hp as [[Hf Hv] Hp]. cbn [fst snd] in *.
    cbn [hset_loop]. rewrite (bind_run _ _ _ _ _ (name_run _ _ _ He1)), (bind_run _ _ _ _ _ (name_run _ _ _ He2)).
    assert (hash_writable (<[f:=v]> m)) as Hw1 by by apply map_Forall_insert_2.
    destruct (set_field_spec s1 o r x m f v Hh Hr) as (t & r1 & Hrun & Hh1 & Hr1 & Hn1); [lia|done|].
    rewrite (bind_run _ _ _ _ _ Hrun). pose proof (hash_weight_insert m f v) as Hwi.
    destruct (IH els2 (with_st t s1) r1 (<[f:=v]> m) (if bool_decide (is_Some (m !! f)) then created else created + 1) Hh1 Hr1 (Hn1 _ _ Hn))
      as (t2 & r2 & Hl & Hh2 & Hr2 & Hn2); [lia|done|done|].
    fold (set_all pairs (<[f:=v]> m)). exists t2, r2. rewrite Hl. split_and!; [|done|done|].
    + do 2 f_equal. rewrite map_size_insert. destruct (m !! f) as [y|];
        [rewrite bool_decide_true by (by eexists)|rewrite bool_decide_false by (by intros [? ?])]; unfold id; lia.
    + intros els vals Hnn. by apply Hn2, Hn1.
Qed.

(** ** Conversion before the fields are set *)

Lemma read_objs_spec s1 els vals : named (st s1) els vals ->
  exists rs, read_objs els s1 = Some (rs, s1) /\ Forall (fun a => is_Some (as_sds a)) rs.
Proof.
  induction 1 as [|o n els vals Ho _ IH]; cbn [read_objs]; [by exists []|].
  unfold name_at in Ho. destruct (obj_at (st s1) o) as [r|] eqn:Hr; [|done]. cbn in Ho.
  destruct IH as (rs & Hrs & Hf). exists (r :: rs). rewrite (bind_run _ _ _ _ _ (obj_run_at s1 o r Hr)), (bind_run _ _ _ _ _ Hrs).
  split; [done|]. constructor; [by eexists|done].
Qed.

Lemma hashTypeTryConversion_rep E max r m args :
  hash_rep E r m -> hash_writable m -> Forall (fun a => is_Some (as_sds a)) args ->
  exists r', hashTypeTryConversion E max r args = Some r' /\ hash_rep E r' m /\ refcount r' = refcount r.
Proof.
  intros Hr Hw Ha. unfold hashTypeTryConversion. case_bool_decide as He; cbn [negb]; [|by exists r].
  induction Ha as [|a args [bs Hbs] _ IH]; cbn [try_conversion]; [by exists r|].
  destruct (sdsEncodedObject a); [|done]. rewrite Hbs. cbn [mbind option_bind]. destruct (_ >? _); [|done].
  destruct (hash_rep_shape _ _ _ Hr) as [zl l Er Hl ->|d Er W ->]; [|by rewrite Er in He]. rewrite Er.
  destruct (hashTypeConvert_rep E zl l (refcount r) Hl Hw) as (d & -> & W & Hd).
  eexists. split; [done|]. split; [|done]. rewrite <- Hd. by apply ht_hash_rep.
Qed.

Lemma try_conversion_spec s1 o r x m args vals :
  holding s k F s1 o r x -> hash_rep Ev r m -> hash_writable m -> named (st s1) args vals ->
  exists t r', try_conversion_at o args s1 = Some (tt, with_st t s1) /\
    holding s k F (with_st t s1) o r' x /\ hash_rep Ev r' m /\ (forall els vals, named (st s1) els vals -> named t els vals).
Proof.
  intros Hh Hr Hw Hn. destruct (read_objs_spec s1 args vals Hn) as (rs & Hrs & Hf). unfold try_conversion_at.
  rewrite (bind_run _ _ _ _ _ Hrs), (bind_run _ _ _ _ _ (get_run s1)), (holding_conf _ _ _ _ _ _ _ Hh).
  destruct (hashTypeTryConversion_rep Ev (hash_max_ziplist_value (conf s)) r m rs Hr Hw Hf) as (r' & Ea & Hr' & Hc').
  destruct (hash_step s1 o r x (fun E r => r ← hashTypeTryConversion E (hash_max_ziplist_value (conf s)) r rs; Some (r, tt)) r' tt m Hh)
    as (t & Hrun & Hh' & Hn'); [by rewrite Ea|done|done|]. by exists t, r'.
Qed.
End commands.

(** The hash of a key that a command writes: the one found, or a new empty one. *)
Lemma lookupWriteOrCreate_spec s c cl argv F key mo :
  clients s !! c = Some cl -> store_ok (st s) (argv ++ F)%list ->
  let k := (c_db cl, key) in let E := data_env (conf s) in
  hash_view E (alive s k) mo -> unshared s k ->
  match mo with
  | None => exists s1, expire_step k (argv ++ F)%list s s1 /\
      hashTypeLookupWriteOrCreate c key s = Some (None, upd_clients (alter (says [R_wrongtypeerr]) c) s1)
  | Some m => exists o s2 r, hashTypeLookupWriteOrCreate c key s = Some (Some o, s2) /\
      holding s k (argv ++ F)%list s2 o r (alive_expire s k) /\ hash_rep E r m /\
      (forall i vals, named (st s) (drop i argv) vals -> named (st s2) (drop i argv) vals)
  end.
Proof.
  intros Hc Hok k E Hv Hu. destruct (lookup_found s _ (c_db cl) key Hok) as (s1 & old & Hl & Hes & Hf). fold k in Hes, Hf.
  assert (hashTypeLookupWriteOrCreate c key s = _) as Hrun
    by (unfold hashTypeLookupWriteOrCreate; rewrite (bind_run _ _ _ _ _ (client_db_run s c cl Hc)), (bind_run _ _ _ _ _ Hl); reflexivity).
  rewrite Hrun. clear Hrun. destruct mo as [m|].
  - destruct old as [o|].
    + destruct (hash_found s k _ s1 o m Hes Hf Hv Hu) as (r & Hh & Hr & _). exists o, s1, r.
      rewrite (bind_run _ _ _ _ _ (obj_run_at s1 o r (h_obj _ _ _ _ _ _ _ Hh))), (hr_type _ _ _ Hr), bool_decide_true by done.
      split_and!; [done|done|done|]. intros i vals. by eapply named_es.
    + assert (m = ∅) as ->. { destruct (alive s k); [inversion Hf|]. by injection Hv. }
      assert (dict (st s1) !! k = None) as Hk by (inversion Hf; done).
      assert (conf s1 = conf s) as Hcf by apply (es_quiet _ _ _ _ Hes).
      destruct (createHashObject_rep E) as (r & Ecr & Hr & Hcr). destruct (hash_rep_data _ _ _ Hr) as (Hrok & d & Hp & _).
      destruct (new_data s s1 (c_db cl) key _ r Hes Hk Hrok Hcr) as (o & s2 & s3 & Ha & Hadd & Hh & Hobj); [by eexists|].
      exists o, s3, r. rewrite (bind_run _ _ _ _ _ (get_run s1)), Hcf. fold E. rewrite Ecr, (bind_run _ _ _ _ _ (lift_run _ _ _ eq_refl)).
      rewrite (bind_run _ _ _ _ _ Ha), (bind_run _ _ _ _ _ Hadd). split_and!; [done|done|done|].
      intros i vals Hn. eapply (named_same (st s1)); [done|apply subseteq_drop|]. by eapply named_es.
  - destruct old as [o|]; [|by destruct (alive s k); [inversion Hf|]].
    destruct (not_hash_found s k _ s1 c o Hes Hf Hv) as (r & Hr & Ht & _). exists s1. split; [done|].
    rewrite (bind_run _ _ _ _ _ (obj_run_at s1 o r Hr)). by rewrite bool_decide_false.
Qed.

(** The reply of HSET and of HMSET, which are told apart by the second letter of the name. *)
Definition hset_reply (cmdname : sds) (created : Z) : reply :=
  match cmdname with
  | _ :: ch :: _ => if (ch =? 115) || (ch =? 83) then RInt created else R_ok
  | _ => R_ok
  end.

(** C15 HSET and HMSET set the fields of the hash of the key, in the order of the arguments, whether the
    hash is a ziplist or a dictionary and whether or not it is converted on the way; an absent
    key gets a new hash. HSET replies with the number of fields that are new. The watchers are flagged, the
    expire time is kept, and a value of another type is an error that changes nothing.
    Only the key refers to the hash, which as a ziplist has fewer than 2^31 bytes with the new fields, and no field or value is the
    least 64-bit integer. *)
Theorem hsetCommand_sets s c cl argv F name key pairs mo :
  clients s !! c = Some cl -> store_ok (st s) (argv ++ F)%list ->
  is_arg (st s) argv 0 name -> name <> [] -> is_arg (st s) argv 1 key -> named (st s) (drop 2 argv) (flat pairs) ->
  let k := (c_db cl, key) in let E := data_env (conf s) in
  hash_view E (alive s k) mo -> unshared s k ->
  Forall (fun p => p.1 <> sdec LLONG_MIN /\ p.2 <> sdec LLONG_MIN) pairs ->
  (forall m, mo = Some m -> hash_weight m + zl_weight (flat pairs) + 128 < 2 ^ 31 /\ hash_writable m) ->
  exists s', hsetCommand c argv s = Some (argv, s') /\
    match mo with
    | None => outcome s c k (argv ++ F)%list s' (alive s k) (alive_expire s k) false 0 [R_wrongtypeerr]
    | Some m =>
        let m' := set_all pairs m in
        exists d, hash_data E d m' /\
        outcome s c k (argv ++ F)%list s' (Some (VObj OBJ_HASH d)) (alive_expire s k) true 1
          [hset_reply name (Z.of_nat (size m') - Z.of_nat (size m))]
    end.
Proof.
  intros Hc Hok Hname Hne Hkey Hargs k E Hv Hu Hp Hb. unfold hsetCommand.
  assert ((zlen argv mod 2 =? 1) = false) as ->.
  { apply Z.eqb_neq. assert (zlen argv = (1 + zlen pairs) * 2) as ->; [|rewrite Z.mod_mul; lia].
    apply Forall2_length in Hargs. rewrite length_drop, length_flat in Hargs. unfold zlen.
    destruct Hkey as (o & _ & Ho & _). apply lookup_lt_Some in Ho. lia. }
  rewrite (bind_run _ _ _ _ _ (client_db_run s c cl Hc)), (bind_run _ _ _ _ _ (is_arg_run s argv 1 key Hkey)).
  pose proof (lookupWriteOrCreate_spec s c cl argv F key mo Hc Hok Hv Hu) as Hlk. destruct mo as [m|].
  2:{ destruct Hlk as (s1 & Hes & Hrun). rewrite (bind_run _ _ _ _ _ Hrun). eexists. split; [done|]. by apply outcome_lookup. }
  destruct Hlk as (o & s2 & r & Hrun & Hh & Hr & Hkeep). rewrite (bind_run _ _ _ _ _ Hrun). destruct (Hb m eq_refl) as [Hsz Hw].
  destruct (try_conversion_spec s k _ s2 o r _ m _ _ Hh Hr Hw (Hkeep _ _ Hargs)) as (t3 & r3 & Hrun3 & Hh3 & Hr3 & Hn3).
  rewrite (bind_run _ _ _ _ _ Hrun3).
  destruct (hset_loop_spec s k _ _ o pairs (drop 2 argv) _ r3 m 0 Hh3 Hr3 (Hn3 _ _ (Hkeep _ _ Hargs)) Hsz Hw Hp)
    as (t4 & r4 & Hrun4 & Hh4 & Hr4 & Hn4). rewrite (bind_run _ _ _ _ _ Hrun4), Z.add_0_l. set (n := _ - _).
  assert (is_arg t4 argv 0 name) as Hname4.
  { apply (named_is_arg _ _ (name :: key :: flat pairs)); [|done]. apply Hn4, Hn3, Hkeep.
    apply named_cons_arg; [done|]. by apply named_cons_arg. }
  rewrite (bind_run _ _ _ _ _ (is_arg_run (with_st t4 _) argv 0 name Hname4)).
  destruct (hash_rep_data _ _ _ Hr4) as (_ & d & _ & Hd & Hval).
  assert (exists ch, (name ++ [0])%list !! 1%nat = Some ch /\ (if (ch =? 115) || (ch =? 83) then RInt n else R_ok) = hset_reply name n) as (ch & Hch & Hrep).
  { destruct name as [|c0 [|c1 name]]; [done|by exists 0|by exists c1]. }
  rewrite (bind_run _ _ _ _ _ (lift_run _ _ _ Hch)). 
  erewrite bind_run.
  2:{ instantiate (1 := upd_clients (alter (says [hset_reply name n]) c) _). rewrite <- Hrep.
      by destruct ((ch =? 115) || (ch =? 83)). }
  rewrite (bind_run _ _ _ _ _ (signalModifiedKey_spec _ _ _)).
  eexists. split; [done|]. exists d. split; [exact Hd|].
  eapply outcome_changed; [rewrite <- Hval; apply Hh4|..]; try done. cbn. by rewrite touch_says.
Qed.

(** ** HDEL *)

Definition del_all (fields : list sds) (m : gmap sds sds) : gmap sds sds := foldl (fun m f => delete f m) m fields.

Lemma del_all_empty fields : del_all fields ∅ = ∅.
Proof. induction fields as [|f fields IH]; [done|]. cbn [del_all foldl]. by rewrite delete_empty. Qed.

Lemma size_delete (m : gmap sds sds) f :
  Z.of_nat (size m) = Z.of_nat (size (delete f m)) + (if bool_decide (is_Some (m !! f)) then 1 else 0).
Proof.
  case_bool_decide as Hf.
  - destruct Hf as [v Hv]. rewrite <- (insert_delete_id m f v Hv) at 1. rewrite map_size_insert_None by apply lookup_delete_eq. lia.
  - rewrite delete_id by by apply eq_None_not_Some. lia.
Qed.

(** The loop ends when the hash is empty and its key is removed, or after the last field. *)
Lemma hdel_loop_spec s db key F x o fields : forall els s1 r m deleted,
  let k := (db, key) in
  holding s k F s1 o r x -> hash_rep (data_env (conf s)) r m -> named (st s1) els fields -> hash_weight m + 128 < 2 ^ 31 ->
  exists b t, hdel_loop db key o els deleted s1
      = Some (deleted + (Z.of_nat (size m) - Z.of_nat (size (del_all fields m))), b, with_st t s1) /\
    if b : bool then m <> ∅ /\ del_all fields m = ∅ /\ written s k F (with_st t s1) None None
    else (del_all fields m = ∅ -> m = ∅) /\
      exists r', holding s k F (with_st t s1) o r' x /\ hash_rep (data_env (conf s)) r' (del_all fields m).
Proof.
  induction fields as [|f fields IH]; intros els s1 r m deleted k Hh Hr Hn Hb; cbn [del_all foldl].
  - apply Forall2_nil_inv_r in Hn as ->. exists false, (st s1). cbn [hdel_loop].
    assert (with_st (st s1) s1 = s1) as -> by by destruct s1. rewrite Z.sub_diag, Z.add_0_r.
    split; [done|]. split; [done|]. by exists r.
  - apply Forall2_cons_inv_r in Hn as (e & els' & He & Hn & ->). cbn [hdel_loop]. fold (del_all fields (delete f m)).
    rewrite (bind_run _ _ _ _ _ (name_run _ _ _ He)).
    destruct (hashTypeDelete_rep (data_env (conf s)) r m f Hr Hb) as (r1 & Ea & Hr1 & Hc1).
    destruct (hash_step s k F s1 o r x (fun E r => hashTypeDelete E r f) r1 _ _ Hh Ea Hr1 Hc1) as (t & Hrun & Hh1 & Hn1).
    rewrite (bind_run _ _ _ _ _ Hrun). pose proof (size_delete m f) as Hsz. pose proof (hash_weight_delete m f) as Hwd.
    case_bool_decide as Hf.
    + destruct (hashTypeLength_rep (data_env (conf s)) r1 _ Hr1) as (r2 & El & Hr2 & Hc2 & _).
      destruct (hash_step s k F _ o r1 x (fun E r => hashTypeLength E r) r2 _ _ Hh1 El Hr2 Hc2) as (t2 & Hrun2 & Hh2 & Hn2).
      rewrite (bind_run _ _ _ _ _ Hrun2). destruct (Z.eqb_spec (Z.of_nat (size (delete f m))) 0) as [H0|H0].
      * assert (delete f m = ∅) as Hm by (apply map_size_empty_iff; lia).
        destruct (holding_delete s db key F _ o r2 x Hh2) as (t' & Hdel & Hw'). exists true, t'.
        rewrite (bind_run _ _ _ _ _ Hdel), Hm, del_all_empty, ret_run. split; [do 3 f_equal; rewrite map_size_empty; lia|].
        split_and!; [|done|done]. intros ->. destruct Hf as [? Hf]. by rewrite lookup_empty in Hf.
      * destruct (IH els' _ r2 (delete f m) (deleted + 1) Hh2 Hr2 (Hn2 _ _ (Hn1 _ _ Hn)) ltac:(lia)) as (b & t' & -> & Hb').
        exists b, t'. split; [do 3 f_equal; lia|]. destruct b.
        -- destruct Hb' as (_ & Hs & Hw). split_and!; [|done|done]. intros ->. destruct Hf as [? Hf]. by rewrite lookup_empty in Hf.
        -- destruct Hb' as (Hs & Hrest). split; [|done]. intros Hm%Hs. exfalso. apply H0. by rewrite Hm.
    + rewrite (delete_id m f) in * by by apply eq_None_not_Some.
      destruct (IH els' _ r1 m deleted Hh1 Hr1 (Hn1 _ _ Hn) Hb) as (b & t' & -> & Hb'). by exists b, t'.
Qed.

(** HDEL takes the fields out of the hash of the key: it replies with the number of fields that were in it,
    adds that number to the counter of changes and flags the watchers exactly if there is one. A key whose
    hash has become empty is deleted with its expire time; else the key keeps it. An absent key is an
    empty hash, and a value of another type is an error that changes nothing. *)
Theorem hdelCommand_deletes s c cl argv F key fields mo :
  clients s !! c = Some cl -> store_ok (st s) (argv ++ F)%list ->
  is_arg (st s) argv 1 key -> named (st s) (drop 2 argv) fields ->
  let k := (c_db cl, key) in let E := data_env (conf s) in
  hash_view E (alive s k) mo -> unshared s k -> (forall m, mo = Some m -> hash_weight m + 128 < 2 ^ 31) ->
  exists s', hdelCommand c argv s = Some (argv, s') /\
    match mo with
    | None => outcome s c k (argv ++ F)%list s' (alive s k) (alive_expire s k) false 0 [R_wrongtypeerr]
    | Some m =>
        let m' := del_all fields m in
        let n := Z.of_nat (size m) - Z.of_nat (size m') in
        exists v, hash_view E v (Some m') /\ (m' = ∅ -> m <> ∅ -> v = None) /\
        outcome s c k (argv ++ F)%list s' v (match v with None => None | Some _ => alive_expire s k end)
          (negb (n =? 0)) n [RInt n]
    end.
Proof.
  intros Hc Hok Hkey Hfields k E Hv Hu Hb. unfold hdelCommand.
  rewrite (bind_run _ _ _ _ _ (client_db_run s c cl Hc)), (bind_run _ _ _ _ _ (is_arg_run s argv 1 key Hkey)).
  destruct (lookupWriteOrReply_spec s c cl _ key (RInt 0) Hc Hok) as (s1 & old & Hes & Hf & Hrun). fold k in Hes, Hf.
  rewrite (bind_run _ _ _ _ _ Hrun). destruct old as [o|]; cbv beta iota.
  2:{ assert (alive s k = None /\ dict (st s1) !! k = None) as [Ha Hk] by (by inversion Hf).
      eexists. split; [done|]. rewrite Ha in *. cbn in Hv. subst mo. cbn zeta. exists None.
      rewrite del_all_empty, map_size_empty. split_and!; [done|done|].
      pose proof (outcome_lookup s c k _ s1 [RInt 0] Hes) as Ho. by rewrite Ha, (absent_expire _ _ _ _ Hes Hk) in Ho. }
  destruct mo as [m|].
  2:{ destruct (not_hash_found s k _ s1 c o Hes Hf Hv) as (r & Hr & Ht & Hct). rewrite (bind_run _ _ _ _ _ Hct).
      eexists. split; [done|]. by apply outcome_lookup. }
  destruct (hash_found s k _ s1 o m Hes Hf Hv Hu) as (r & Hh & Hr & _).
  rewrite (bind_run _ _ _ _ _ (checkType_holds s1 c o r _ (h_obj _ _ _ _ _ _ _ Hh) (hr_type _ _ _ Hr))).
  destruct (hdel_loop_spec s (c_db cl) key _ _ o fields (drop 2 argv) s1 r m 0 Hh Hr (named_es _ _ _ _ _ _ _ Hes Hfields) (Hb m eq_refl))
    as (b & t & Hloop & Hb'). rewrite (bind_run _ _ _ _ _ Hloop), Z.add_0_l. cbv beta iota. set (n := _ - _).
  destruct b.
  - destruct Hb' as (Hne & Hm & Hw). assert ((n =? 0) = false) as ->.
    { apply Z.eqb_neq. subst n. rewrite Hm, map_size_empty. intros H0. apply Hne. apply map_size_empty_iff. lia. }
    cbn [negb]. rewrite (bind_run _ _ _ _ _ (bind_run _ _ _ _ _ (signalModifiedKey_spec _ _ _))).
    eexists. split; [done|]. exists None. rewrite Hm. split_and!; [done|done|]. by eapply outcome_changed.
  - destruct Hb' as (Hne & r' & Hh' & Hr'). destruct (hash_rep_data _ _ _ Hr') as (_ & d & _ & Hd & Hval).
    assert (hash_view E (Some (VObj OBJ_HASH d)) (Some (del_all fields m))) as Hv' by (by eexists).
    assert (del_all fields m = ∅ -> m <> ∅ -> Some (VObj OBJ_HASH d) = None) as He by naive_solver.
    destruct (n =? 0) eqn:Hn0; cbn [negb].
    + eexists. split; [done|]. exists (Some (VObj OBJ_HASH d)). split_and!; [done|done|].
      eapply outcome_changed; [rewrite <- Hval; apply Hh'|..]; try done. cbn. apply Z.eqb_eq in Hn0. lia.
    + rewrite (bind_run _ _ _ _ _ (bind_run _ _ _ _ _ (signalModifiedKey_spec _ _ _))).
      eexists. split; [done|]. exists (Some (VObj OBJ_HASH d)). split_and!; [done|done|].
      eapply outcome_changed; [rewrite <- Hval; apply Hh'|..]; done.
Qed.

(** ** Reads *)

(** A function that leaves the object as it is. *)
Lemma on_obj_same {A} (s : server) o r (f : env -> robj -> option (robj * A)) a d :
  obj_at (st s) o = Some r -> ptr r = PData d -> f (data_env (conf s)) r = Some (r, a) -> on_obj o f s = Some (a, s).
Proof.
  intros Hr Hd Hf. unfold on_obj. rewrite (bind_run _ _ _ _ _ (obj_run_at s o r Hr)), (bind_run _ _ _ _ _ (gets_run _ s)).
  rewrite Hf, (bind_run _ _ _ _ _ (lift_run _ _ _ eq_refl)). destruct o as [n|p].
  { cbn in Hr. destruct (is_shared_integer n); [|done]. by injection Hr as <-. }
  assert (in_store (set_obj (Heap p) r) s = Some (tt, s)) as Hset.
  { assert (with_st (st s) s = s) as Es by by destruct s. rewrite <- Es at 2. apply in_store_run. cbn [set_obj].
    rewrite modify_run. do 2 f_equal. destruct s as [? t]. cbn in *. destruct t as [os dt ex]. cbn in *. unfold with_objs. cbn.
    by rewrite insert_id. }
  by rewrite (bind_run _ _ _ _ _ Hset).
Qed.

Lemma reply_hval_spec s c h x : hval_is h x -> reply_hval c h s = Some (tt, upd_clients (alter (says [RBulk x]) c) s).
Proof.
  destruct h as [bs|v]; cbn [hval_is reply_hval].
  - by intros ->.
  - intros [Hv ->]. unfold addReplyBulkLongLong. pose proof (zlen_sdec_20 v Hv) as Hl. pose proof (zlen_nonneg (sdec v)).
    assert (ll2string (replicate 64 0) 64 v = Some (zlen (sdec v), (sdec v ++ 0 :: drop (Z.to_nat (zlen (sdec v) + 1)) (replicate 64 0))%list)) as Hs.
    { rewrite ll2string_spec by (done || change (zlen (replicate 64 0)) with 64; lia). by rewrite (proj2 (Z.ltb_lt _ _)) by lia. }
    rewrite Hs, (bind_run _ _ _ _ _ (lift_run _ _ _ eq_refl)). cbv beta iota. unfold zlen. rewrite Nat2Z.id, take_app_length. done.
Qed.

(** What the commands that read all fields send for a pair. *)
Definition pair_reply (keys values : bool) (p : sds * sds) : list reply :=
  ((if keys then [RBulk p.1] else []) ++ (if values then [RBulk p.2] else []))%list.

Lemma cursor_reply s c o r hi key h x d :
  obj_at (st s) o = Some r -> ptr r = PData d -> hashTypeCurrentObject (data_env (conf s)) r hi key = Some h -> hval_is h x ->
  addHashIteratorCursorToReply c o hi key s = Some (tt, upd_clients (alter (says [RBulk x]) c) s).
Proof.
  intros Hr Hd Hc Hh. unfold addHashIteratorCursorToReply. rewrite (bind_run _ _ _ _ _ (obj_run_at s o r Hr)).
  rewrite (bind_run _ _ _ _ _ (gets_run _ s)). unfold hashTypeCurrentObject in Hc.
  rewrite (bind_run _ _ _ _ _ (lift_run _ _ _ Hc)). by apply reply_hval_spec.
Qed.

Lemma hgetall_loop_spec s c o r keys values d rem : forall fuel hi rs count,
  obj_at (st s) o = Some r -> ptr r = PData d -> hash_iter (data_env (conf s)) r hi rem -> (length rem < fuel)%nat ->
  exists hi', hgetall_loop fuel c o hi keys values count (upd_clients (alter (says rs) c) s)
      = Some (hi', count + zlen (concat (pair_reply keys values <$> rem)),
              upd_clients (alter (says (rs ++ concat (pair_reply keys values <$> rem))%list) c) s) /\
    hashTypeReleaseIterator (data_env (conf s)) r hi' = Some r.
Proof.
  induction rem as [|[f v] rem IH]; intros [|fuel] hi rs count Hr Hd Hi Hf; cbn in Hf; try lia; cbn [hgetall_loop].
  all: destruct (hashTypeNext_rep _ _ _ _ Hi) as (hi' & En & Hn).
  all: rewrite (bind_run _ _ _ _ _ (on_obj_same (upd_clients (alter (says rs) c) s) o r
    (fun E r => '(r, hi, more) ← hashTypeNext E r hi; Some (r, (hi, more))) (hi', _) d Hr Hd ltac:(cbn [conf upd_clients]; rewrite En; reflexivity))); cbv beta iota; cbn [negb].
  - exists hi'. split; [|done]. cbn [fmap list_fmap concat]. by rewrite app_nil_r, zlen_nil, Z.add_0_r.
  - destruct Hn as (Hi' & (hf & Ef & Hhf) & (hv & Evl & Hhv)).
    cbn [fmap list_fmap concat]. set (rest := concat (pair_reply keys values <$> rem)).
    assert (forall (b : bool) key rs count h x, hashTypeCurrentObject (data_env (conf s)) r hi' key = Some h -> hval_is h x ->
      (if b then _ ← addHashIteratorCursorToReply c o hi' key; mret (count + 1) else mret count)
        (upd_clients (alter (says rs) c) s) = Some (count + zlen (if b then [RBulk x] else []),
          upd_clients (alter (says (rs ++ if b then [RBulk x] else [])%list) c) s)) as Hcur.
    { intros [] key rs' count' h x Hh Hx.
      - rewrite (bind_run _ _ _ _ _ (cursor_reply (upd_clients (alter (says rs') c) s) c o r hi' key h x d Hr Hd Hh Hx)).
        by rewrite says_says.
      - by rewrite zlen_nil, Z.add_0_r, app_nil_r, ret_run. }
    rewrite (bind_run _ _ _ _ _ (Hcur keys true rs count hf f Ef Hhf)), (bind_run _ _ _ _ _ (Hcur values false _ _ hv v Evl Hhv)).
    destruct (IH fuel hi' ((rs ++ if keys then [RBulk f] else []) ++ if values then [RBulk v] else [])%list
      (count + zlen (if keys then [RBulk f] else []) + zlen (if values then [RBulk v] else [])) Hr Hd Hi' ltac:(lia)) as (hi2 & -> & Hrel).
    exists hi2. split; [|done]. fold rest. unfold pair_reply. cbn [fst snd]. rewrite <- !app_assoc. do 3 f_equal.
    rewrite !zlen_app. lia.
Qed.

Lemma hval_det h x y : hval_is h x -> hval_is h y -> x = y.
Proof. destruct h; cbn; [congruence|]. by intros [_ ->] [_ ->]. Qed.

Lemma hash_data_det E d m m' : hash_data E d m -> hash_data E d m' -> m = m'.
Proof.
  destruct d as [is_|d|zl|d|n]; try done.
  - intros (l & Hl & ->) (l' & Hl' & ->). apply map_eq. intros f.
    destruct (hashTypeGetFromZiplist_rep E zl l 1 f Hl) as (q & Eq & Hq).
    destruct (hashTypeGetFromZiplist_rep E zl l' 1 f Hl') as (q' & Eq' & Hq'). rewrite Eq in Eq'. injection Eq' as <-.
    destruct ((list_to_map l : gmap sds sds) !! f), ((list_to_map l' : gmap sds sds) !! f); try naive_solver.
    destruct Hq as (h & -> & Hh), Hq' as (h' & [= <-] & Hh'). f_equal. by eapply hval_det.
  - by intros [_ ->] [_ ->].
Qed.

Lemma hash_view_det E v m m' : hash_view E v m -> hash_view E v m' -> m = m'.
Proof.
  destruct v as [[bs|t d]|]; cbn [hash_view]; [by intros -> ->| |by intros -> ->].
  destruct t; try (by intros -> ->). intros (A & -> & HA) (B & -> & HB). f_equal. by eapply hash_data_det.
Qed.

(** The pairs of a hash in the order of the iterators: that of the ziplist, or that of the buckets. *)
Definition hash_order (d : data) (l : list (sds * sds)) : Prop :=
  match d with DZiplist zl => zl_hash zl l | DHash d => l = entries d | _ => False end.

Lemma hash_rep_order E r m : hash_rep E r m -> exists d l, ptr r = PData d /\ hash_order d l.
Proof. intros Hr. destruct (hash_rep_shape _ _ _ Hr) as [zl l Er Hl _|d Er _ _]; rewrite Er; [by exists (DZiplist zl), l|by exists (DHash d), (entries d)]. Qed.

Lemma hashTypeLength_order E r r' n d l : hashTypeLength E r = Some (r', n) -> ptr r = PData d -> hash_order d l -> exists d', ptr r' = PData d' /\ hash_order d' l.
Proof.
  intros El Hp Ho. unfold hashTypeLength, as_zl, as_hash in El. rewrite Hp in El. destruct (encoding r), d as [| |zl|d|]; cbn [mbind option_bind hash_order] in *; try done.
  - injection El as <- _. by exists (DHash d).
  - destruct Ho as [Hl Hn]. destruct (@ziplistLen_counts (env_host E) zl (flat l) Hl) as (zl' & E1 & Hl'). rewrite E1 in El. cbn [mbind option_bind] in El. injection El as <- _.
    by exists (DZiplist zl').
Qed.

Lemma hashTypeInitIterator_order E r m d l : hash_rep E r m -> ptr r = PData d -> hash_order d l ->
  exists hi, hashTypeInitIterator r = Some hi /\ hash_iter E r hi l /\ NoDup l.*1 /\ m = list_to_map l.
Proof.
  intros Hr Hp Ho. destruct (hash_rep_shape _ _ _ Hr) as [zl l' Er Hl Hm|d' Er W Hm]; rewrite Er in *; cbn [ptr] in Hp; injection Hp as <-; cbn [hash_order] in Ho;
    unfold hashTypeInitIterator; cbn [encoding]; eexists; (split; [done|]).
  - split_and!; [by apply (iter_zl _ _ _ zl l [] l (refcount r))|apply Ho|]. rewrite Hm. apply (hash_data_det E (DZiplist zl)); [by exists l'|by exists l].
  - subst l. split_and!; [|by apply (entries_NoDup (T := hashDictType E))|done].
    apply (iter_ht _ _ _ d' (entries d') (refcount r)); try done. by apply (iterate_fresh_pending (T := hashDictType E)).
Qed.

(** The common part of the commands that read a hash: [body] runs on the object that a reader sees. *)
Lemma read_hash s c cl argv F key r0 mo (body : oid -> M (list oid)) (P : list reply -> Prop) :
  clients s !! c = Some cl -> store_ok (st s) (argv ++ F)%list -> is_arg (st s) argv 1 key ->
  let k := (c_db cl, key) in let E := data_env (conf s) in
  hash_view E (visible s k) mo -> unshared s k ->
  (visible s k = None -> mo = Some ∅ -> P [r0]) -> (mo = None -> P [R_wrongtypeerr]) ->
  (forall m s1 o r, mo = Some m -> holding s k (argv ++ F)%list s1 o r (alive_expire s k) -> hash_rep E r m ->
     (forall i vals, named (st s) (drop i argv) vals -> named (st s1) (drop i argv) vals) -> visible s k = Some (val_of r) ->
     exists t r' rs, body o s1 = Some (argv, upd_clients (alter (says rs) c) (with_st t s1)) /\
       holding s k (argv ++ F)%list (with_st t s1) o r' (alive_expire s k) /\ hash_rep E r' m /\ P rs) ->
  exists s' v rs, (o ← lookupKeyReadOrReply c key r0;
    match o with
    | None => mret argv
    | Some o => wrong ← checkType c o OBJ_HASH; if wrong : bool then mret argv else body o
    end) s = Some (argv, s') /\
    (forall m, hash_view E (alive s k) m -> hash_view E v m) /\ P rs /\
    outcome s c k (argv ++ F)%list s' v (alive_expire s k) false 0 rs.
Proof.
  intros Hc Hok Hkey k E Hv Hu HP0 HPw Hbody.
  destruct (lookupReadOrReply_spec s c cl _ key r0 Hc Hok) as (s1 & old & Hes & Hf & Hrun). fold k in Hes, Hf.
  rewrite (bind_run _ _ _ _ _ Hrun). destruct old as [o|]; cbv beta iota.
  2:{ assert (visible s k = None) as Ha by (by inversion Hf). rewrite Ha in Hv. cbn in Hv. subst mo.
      eexists _, _, [r0]. split; [done|]. split; [done|]. split; [by apply HP0|]. by apply outcome_lookup. }
  destruct (read_found_alive _ _ _ _ _ _ Hf eq_refl) as [Hf' Ha]. rewrite <- Ha in Hv. destruct mo as [m|].
  2:{ destruct (not_hash_found s k _ s1 c o Hes Hf' Hv) as (r & Hr & Ht & Hct). rewrite (bind_run _ _ _ _ _ Hct).
      eexists _, _, [R_wrongtypeerr]. split; [done|]. split; [done|]. split; [by apply HPw|]. by apply outcome_lookup. }
  destruct (hash_found s k _ s1 o m Hes Hf' Hv Hu) as (r & Hh & Hr & Hval0).
  rewrite (bind_run _ _ _ _ _ (checkType_holds s1 c o r _ (h_obj _ _ _ _ _ _ _ Hh) (hr_type _ _ _ Hr))).
  destruct (Hbody m s1 o r eq_refl Hh Hr) as (t & r' & rs & Hrun' & Hh' & Hr' & HP); [intros i vals; by eapply named_es|by rewrite <- Ha|].
  destruct (hash_rep_data _ _ _ Hr') as (_ & d & _ & Hd & Hval).
  eexists _, (Some (VObj OBJ_HASH d)), rs. split; [exact Hrun'|]. split_and!; [|done|].
  - intros m' Hm'. rewrite (hash_view_det _ _ _ _ Hm' Hv). by exists m.
  - eapply outcome_changed; [rewrite <- Hval; apply Hh'|..]; try done. cbn. lia.
Qed.

Definition hget_reply (m : option (gmap sds sds)) (field : sds) : reply :=
  match m with
  | None => R_wrongtypeerr
  | Some m => match m !! field with Some v => RBulk v | None => R_nullbulk end
  end.

Lemma multibulk_run (s : server) c n : addReplyMultiBulkLen c n s = Some (tt, upd_clients (alter (says [RMultiBulkLen n]) c) s).
Proof. done. Qed.

Lemma reply_int_run (s : server) c n : addReplyLongLong c n s = Some (tt, upd_clients (alter (says [RInt n]) c) s).
Proof. done. Qed.

(** The argument that follows the key, after the lookup of the key. *)
Lemma arg_kept (t t' : store) argv i vals v :
  (forall i vals, named t (drop i argv) vals -> named t' (drop i argv) vals) -> named t (drop i argv) vals -> head vals = Some v ->
  is_arg t' argv i v.
Proof. intros Hk Hn Hv. eapply named_is_arg; [by apply Hk|done]. Qed.

(** HGET replies with the value that the map of the key has for the field, also when the ziplist stores it as
    an integer, with nil when there is none or the key is absent or expired, and with an error for another
    type. The search may take a step of the rehashing of the dictionary; the map stays the same. *)
Theorem hgetCommand_reads s c cl argv F key field vals mo :
  clients s !! c = Some cl -> store_ok (st s) (argv ++ F)%list -> is_arg (st s) argv 1 key -> named (st s) (drop 2 argv) (field :: vals) ->
  let k := (c_db cl, key) in let E := data_env (conf s) in
  hash_view E (visible s k) mo -> unshared s k ->
  exists s' v, hgetCommand c argv s = Some (argv, s') /\ (forall m, hash_view E (alive s k) m -> hash_view E v m) /\
    outcome s c k (argv ++ F)%list s' v (alive_expire s k) false 0 [hget_reply mo field].
Proof.
  intros Hc Hok Hkey Hfield k E Hv Hu. unfold hgetCommand. rewrite (bind_run _ _ _ _ _ (is_arg_run s argv 1 key Hkey)).
  destruct (read_hash s c cl argv F key R_nullbulk mo
    (fun o => field ← arg_sds argv 2; _ ← addHashFieldToReply c (Some o) field; mret argv) (fun rs => rs = [hget_reply mo field]) Hc Hok Hkey Hv Hu)
    as (s' & v & rs & Hrun & Hkeep & -> & Ho).
  - intros _ ->. cbn [hget_reply]. by rewrite lookup_empty.
  - by intros ->.
  - intros m s1 o r -> Hh Hr Hn _.
    rewrite (bind_run _ _ _ _ _ (is_arg_run s1 argv 2 field (arg_kept _ _ _ _ _ _ Hn Hfield eq_refl))).
    destruct (hashTypeGetValue_rep E r m field Hr) as (r' & q & Ea & Hr' & Hc' & Hq).
    unfold addHashFieldToReply. unfold hashTypeGetValue in Ea.
    match goal with |- context [on_obj o ?f] => destruct (hash_step s k _ s1 o r _ f r' q m Hh Ea Hr' Hc') as (t & Hon & Hh' & _) end.
    exists t, r', [hget_reply (Some m) field]. split_and!; [|done|done|done]. cbn [hget_reply].
    destruct (m !! field) as [x|].
    + destruct Hq as (h & -> & Hx).
      erewrite bind_run; [reflexivity|]. rewrite (bind_run _ _ _ _ _ Hon). by apply reply_hval_spec.
    + subst q. erewrite bind_run; [reflexivity|]. by rewrite (bind_run _ _ _ _ _ Hon).
  - exists s', v. by split_and!.
Qed.

(** C24 HGETALL, HKEYS and HVALS send every pair, field or value of the hash exactly once, behind their
    number, in the order of the ziplist or of the buckets ([hash_order]); the assertion on the number that was sent and the one on the
    fingerprint of the iterator hold. The hash has fewer than [2 ^ 30] fields, and only its key refers to it. *)
Theorem genericHgetallCommand_sends s c cl argv F key keys values mo :
  clients s !! c = Some cl -> store_ok (st s) (argv ++ F)%list -> is_arg (st s) argv 1 key ->
  let k := (c_db cl, key) in let E := data_env (conf s) in
  hash_view E (visible s k) mo -> unshared s k -> (forall m, mo = Some m -> Z.of_nat (size m) < 2 ^ 30) ->
  exists s' v rs, genericHgetallCommand c argv keys values s = Some (argv, s') /\
    (forall m, hash_view E (alive s k) m -> hash_view E v m) /\
    match mo with
    | None => rs = [R_wrongtypeerr]
    | Some m => (visible s k = None /\ rs = [R_emptymultibulk]) \/
        exists d l, visible s k = Some (VObj OBJ_HASH d) /\ hash_order d l /\ l ≡ₚ map_to_list m /\
          let rest := concat (pair_reply keys values <$> l) in rs = RMultiBulkLen (zlen rest) :: rest
    end /\
    outcome s c k (argv ++ F)%list s' v (alive_expire s k) false 0 rs.
Proof.
  intros Hc Hok Hkey k E Hv Hu Hb. unfold genericHgetallCommand. rewrite (bind_run _ _ _ _ _ (is_arg_run s argv 1 key Hkey)).
  eapply (read_hash s c cl argv F key R_emptymultibulk mo
    (fun o =>
        n ← on_obj o (fun E r => hashTypeLength E r);
        let multiplier := (if keys then 1 else 0) + (if values then 1 else 0) in
        let length := wraps 32 (n * multiplier) in
        _ ← addReplyMultiBulkLen c length;
        r ← in_store (obj o);
        hi ← lift (hashTypeInitIterator r);
        '(hi, count) ← hgetall_loop (S (Z.to_nat n)) c o hi keys values 0;
        _ ← on_obj o (fun E r => r ← hashTypeReleaseIterator E r hi; Some (r, tt));
        _ ← assert_that (count =? length);
        mret argv)
    (fun rs => match mo with
    | None => rs = [R_wrongtypeerr]
    | Some m => (visible s k = None /\ rs = [R_emptymultibulk]) \/
        exists d l, visible s k = Some (VObj OBJ_HASH d) /\ hash_order d l /\ l ≡ₚ map_to_list m /\
          let rest := concat (pair_reply keys values <$> l) in rs = RMultiBulkLen (zlen rest) :: rest
    end) Hc Hok Hkey Hv Hu).
  - intros Hnone ->. by left.
  - by intros ->.
  - intros m s1 o r -> Hh Hr Hn Hvis. specialize (Hb m eq_refl). destruct (hash_rep_order E r m Hr) as (d0 & l & Hp0 & Hord).
    destruct (hashTypeLength_rep E r m Hr) as (r1 & El & Hr1 & Hc1 & _). destruct (hashTypeLength_order E r r1 _ d0 l El Hp0 Hord) as (d1 & Hp1 & Hord1).
    destruct (hash_step s k _ s1 o r _ (fun E r => hashTypeLength E r) r1 _ m Hh El Hr1 Hc1) as (t & Hon & Hh1 & _).
    rewrite (bind_run _ _ _ _ _ Hon). cbv zeta.
    destruct (hashTypeInitIterator_order E r1 m d1 l Hr1 Hp1 Hord1) as (hi & Ei & Hi & Hnd & Hm).
    assert (l ≡ₚ map_to_list m) as Hperm by (rewrite Hm; symmetry; by apply map_to_list_to_map).
    assert (zlen (concat (pair_reply keys values <$> l)) = zlen l * ((if keys then 1 else 0) + (if values then 1 else 0))) as Hz.
    { clear. induction l as [|p l IH]; [done|]. cbn [fmap list_fmap concat]. rewrite zlen_app, IH, zlen_cons.
      unfold pair_reply. destruct keys, values; unfold zlen; cbn [app length]; lia. }
    assert (zlen l = Z.of_nat (size m)) as Hzl by (unfold zlen; rewrite Hperm, length_map_to_list; done).
    rewrite wraps_small by (unfold in_s; destruct keys, values; lia). rewrite <- Hzl, <- Hz. set (rest := concat _).
    destruct (h_data _ _ _ _ _ _ _ Hh1) as [d Hd]. pose proof (h_obj _ _ _ _ _ _ _ Hh1) as Hobj.
    exists t, r1, (RMultiBulkLen (zlen rest) :: rest). split_and!; [|done|done|].
    2:{ right. exists d0, l. split_and!; try done. etrans; [exact Hvis|]. unfold val_of. by rewrite Hp0, (hr_type _ _ _ Hr). }
    rewrite (bind_run _ _ _ _ _ (multibulk_run _ _ _)).
    set (g := alter (says [RMultiBulkLen (zlen rest)]) c).
    rewrite (bind_run _ _ _ _ _ (obj_run_at (upd_clients g (with_st t s1)) o r1 Hobj)).
    rewrite Ei, (bind_run _ _ _ _ _ (lift_run _ _ _ eq_refl)).
    destruct (hgetall_loop_spec (with_st t s1) c o r1 keys values d l (S (Z.to_nat (zlen l))) hi [RMultiBulkLen (zlen rest)] 0 Hobj Hd)
      as (hi' & Hloop & Hrel); [by rewrite (holding_conf _ _ _ _ _ _ _ Hh1)|unfold zlen; lia|].
    rewrite (bind_run _ _ _ _ _ Hloop). cbv beta iota.
    erewrite bind_run by (eapply on_obj_same; [exact Hobj|exact Hd|]; cbn [conf upd_clients] in *; by rewrite Hrel).
    rewrite (bind_run _ _ _ _ _ (assert_run _ _ (proj2 (Z.eqb_eq _ _) (Z.add_0_l _)))). done.
Qed.

(** ** HINCRBY *)

(** The new map, whether it is changed, and the reply. *)
Definition hincr_spec (m : gmap sds sds) (field : sds) (incr : Z) : gmap sds sds * bool * reply :=
  match from_option string2ll (Some 0) (m !! field) with
  | None => (m, false, RError "hash value is not an integer")
  | Some old =>
      if (LLONG_MIN <=? old + incr) && (old + incr <=? LLONG_MAX) then
        (<[field := sdec (old + incr)]> m, true, RInt (old + incr))
      else (m, false, RError "increment or decrement would overflow")
  end.

(** The number that the code finds, or the error it replies with. *)
Lemma hincr_old s c q (v : option sds) : (match v with Some x => exists h, q = Some h /\ hval_is h x | None => q = None end) ->
  (match q with
   | Some (HStr vstr) =>
       match string2ll vstr with
       | None => _ ← addReplyError c "hash value is not an integer"; mret None
       | Some value => mret (Some value)
       end
   | Some (HInt value) => mret (Some value)
   | None => mret (Some 0)
   end) s = match from_option string2ll (Some 0) v with
            | Some n => Some (Some n, s)
            | None => Some (None, upd_clients (alter (says [RError "hash value is not an integer"]) c) s)
            end.
Proof.
  destruct v as [x|]; cbn [from_option].
  - intros (h & -> & Hh). destruct h as [bs|n]; cbn [hval_is] in Hh.
    + subst bs. by destruct (string2ll x).
    + destruct Hh as [Hn ->]. by rewrite string2ll_complete.
  - by intros ->.
Qed.

(** HINCRBY adds to the number of the field, which is 0 when there is none, and replies with the sum; the test for
    an overflow is exact. A value that is no number, a sum out of range and a value of another type are
    errors that change nothing. *)
Theorem hincrbyCommand_adds s c cl argv F key field bs incr mo :
  clients s !! c = Some cl -> store_ok (st s) (argv ++ F)%list ->
  is_arg (st s) argv 1 key -> named (st s) (drop 2 argv) [field; bs] -> string2ll bs = Some incr ->
  let k := (c_db cl, key) in let E := data_env (conf s) in
  hash_view E (alive s k) mo -> unshared s k ->
  (forall m, mo = Some m -> hash_weight m + zlen field + 256 < 2 ^ 31 /\ hash_writable (hincr_spec m field incr).1.1) ->
  exists s', hincrbyCommand c argv s = Some (argv, s') /\
    match mo with
    | None => outcome s c k (argv ++ F)%list s' (alive s k) (alive_expire s k) false 0 [R_wrongtypeerr]
    | Some m =>
        let '(m', changed, rep) := hincr_spec m field incr in
        exists d, hash_data E d m' /\
        outcome s c k (argv ++ F)%list s' (Some (VObj OBJ_HASH d)) (alive_expire s k) changed (if changed then 1 else 0) [rep]
    end.
Proof.
  intros Hc Hok Hkey Hargs Hincr k E Hv Hu Hb. unfold hincrbyCommand.
  assert (exists o3, argv !! 3%nat = Some o3 /\ val_at (st s) o3 = Some (VStr bs) /\ o3 ∈ refs (st s) (argv ++ F)%list) as (o3 & Ho3 & Hv3 & Hin3).
  { assert (is_arg (st s) argv 3 bs) as Ha3.
    { destruct (Forall2_lookup_r _ _ _ 1 bs Hargs eq_refl) as (o & Ho & Hn). rewrite lookup_drop in Ho. unfold name_at in Hn.
      destruct (obj_at (st s) o) as [r|] eqn:Hr; [|done]. by exists o, r. }
    destruct (is_arg_val _ _ _ _ Ha3) as (o & Ho & Hvo). exists o. split_and!; [done|done|]. apply refs_ext. by eapply arg_in. }
  unfold arg. rewrite Ho3, (bind_run _ _ _ _ _ (lift_run _ _ _ eq_refl)).
  pose proof (getLongLongOrReply_spec s _ c o3 bs None Hok Hin3 Hv3) as Hget. rewrite Hincr in Hget. rewrite (bind_run _ _ _ _ _ Hget).
  rewrite (bind_run _ _ _ _ _ (client_db_run s c cl Hc)), (bind_run _ _ _ _ _ (is_arg_run s argv 1 key Hkey)).
  pose proof (lookupWriteOrCreate_spec s c cl argv F key mo Hc Hok Hv Hu) as Hlk. destruct mo as [m|].
  2:{ destruct Hlk as (s1 & Hes & Hrun). rewrite (bind_run _ _ _ _ _ Hrun). eexists. split; [done|]. by apply outcome_lookup. }
  destruct Hlk as (o & s2 & r & Hrun & Hh & Hr & Hkeep). rewrite (bind_run _ _ _ _ _ Hrun). destruct (Hb m eq_refl) as [Hsz Hw].
  rewrite (bind_run _ _ _ _ _ (is_arg_run s2 argv 2 field (arg_kept _ _ _ _ _ _ Hkeep Hargs eq_refl))).
  destruct (hashTypeGetValue_rep E r m field Hr) as (r1 & q & Ea & Hr1 & Hc1 & Hq).
  destruct (hash_step s k _ s2 o r _ (fun E r => hashTypeGetValue E r field) r1 q m Hh Ea Hr1 Hc1) as (t & Hon & Hh1 & _).
  rewrite (bind_run _ _ _ _ _ Hon). pose proof (hincr_old (with_st t s2) c q _ Hq) as Hold.
  unfold hincr_spec in *. destruct (from_option string2ll (Some 0) (m !! field)) as [old|] eqn:Hn.
  2:{ rewrite (bind_run _ _ _ _ _ Hold). destruct (hash_rep_data _ _ _ Hr1) as (_ & d & _ & Hd & Hval).
      eexists. split; [done|]. exists d. split; [done|]. eapply outcome_changed; [rewrite <- Hval; apply Hh1|..]; try done. cbn. lia. }
  rewrite (bind_run _ _ _ _ _ Hold). cbv beta iota.
  assert (in_s 64 old) as Hold64.
  { destruct (m !! field) as [x|]; cbn [from_option] in Hn; [by apply string2ll_sound in Hn as [? _]|].
    injection Hn as <-. split; vm_compute; congruence. }
  apply string2ll_sound in Hincr as [Hi64 _]. rewrite incr_overflow_test by done.
  destruct ((LLONG_MIN <=? old + incr) && (old + incr <=? LLONG_MAX)) eqn:Hrange; cbn [negb].
  2:{ destruct (hash_rep_data _ _ _ Hr1) as (_ & d & _ & Hd & Hval). eexists. split; [done|]. exists d. split; [done|].
      eapply outcome_changed; [rewrite <- Hval; apply Hh1|..]; try done. cbn. lia. }
  cbn [fst] in Hw. apply andb_true_iff in Hrange as [Hlo%Z.leb_le Hhi%Z.leb_le].
  rewrite (bind_run _ _ _ _ _ (ll_arith_run _ _ (conj Hlo Hhi))).
  assert (in_s 64 (old + incr)) as Hsum by (unfold in_s, LLONG_MIN, LLONG_MAX in *; lia).
  assert (old + incr <> LLONG_MIN) as Hne. { intros En. apply (Hw field (sdec (old + incr))); [apply lookup_insert_eq|by rewrite En]. }
  rewrite (bind_run _ _ _ _ _ (lift_run _ _ _ (sdsfromlonglong_correct _ Hsum Hne))).
  pose proof (zlen_sdec_20 _ Hsum) as Hz20.
  destruct (set_field_spec s k _ (with_st t s2) o r1 _ m field (sdec (old + incr)) Hh1 Hr1) as (t2 & r2 & Hset & Hh2 & Hr2 & _); [lia|done|].
  rewrite (bind_run _ _ _ _ _ Hset).
  destruct (hash_rep_data _ _ _ Hr2) as (_ & d & _ & Hd & Hval).
  rewrite (bind_run _ _ _ _ _ (reply_int_run _ _ _)), (bind_run _ _ _ _ _ (signalModifiedKey_spec _ _ _)).
  eexists. split; [done|]. exists d. split; [exact Hd|].
  eapply outcome_changed; [rewrite <- Hval; apply Hh2|..]; try done. cbn. by rewrite touch_says.
Qed.

(** ** HLEN, HEXISTS and HSTRLEN *)

Definition hnum_reply (m : option (gmap sds sds)) (f : gmap sds sds -> Z) : reply :=
  match m with None => R_wrongtypeerr | Some m => RInt (f m) end.

Lemma hread_spec (s : server) (c : Z) (cl : client) (argv F : list oid) (key : sds) (mo : option (gmap sds sds)) (body : oid -> M Z) (num : gmap sds sds -> Z) :
  clients s !! c = Some cl -> store_ok (st s) (argv ++ F)%list -> is_arg (st s) argv 1 key ->
  let k := (c_db cl, key) in let E := data_env (conf s) in
  hash_view E (visible s k) mo -> unshared s k -> num ∅ = 0 ->
  (forall m s1 o r, holding s k (argv ++ F)%list s1 o r (alive_expire s k) -> hash_rep E r m ->
     (forall i vals, named (st s) (drop i argv) vals -> named (st s1) (drop i argv) vals) ->
     exists t r', body o s1 = Some (num m, with_st t s1) /\
       holding s k (argv ++ F)%list (with_st t s1) o r' (alive_expire s k) /\ hash_rep E r' m) ->
  exists s' v, hread c argv body s = Some (argv, s') /\ (forall m, hash_view E (alive s k) m -> hash_view E v m) /\
    outcome s c k (argv ++ F)%list s' v (alive_expire s k) false 0 [hnum_reply mo num].
Proof.
  intros Hc Hok Hkey k E Hv Hu H0 Hbody. unfold hread. rewrite (bind_run _ _ _ _ _ (is_arg_run s argv 1 key Hkey)).
  destruct (read_hash s c cl argv F key (RInt 0) mo (fun o => n ← body o; _ ← addReplyLongLong c n; mret argv)
    (fun rs => rs = [hnum_reply mo num]) Hc Hok Hkey Hv Hu) as (s' & v & rs & Hrun & Hkeep & -> & Ho).
  - intros _ ->. cbn [hnum_reply]. by rewrite H0.
  - by intros ->.
  - intros m s1 o r -> Hh Hr Hn _. destruct (Hbody m s1 o r Hh Hr Hn) as (t & r' & Hb & Hh' & Hr').
    exists t, r', [RInt (num m)]. split_and!; [|done|done|done]. by rewrite (bind_run _ _ _ _ _ Hb).
  - exists s', v. by split_and!.
Qed.

(** [hlenCommand] replies with the number of fields, [hexistsCommand] whether the field is there and
    [hstrlenCommand] with the length of its value, in the hash a reader sees; an absent key is an empty hash. *)
Theorem hash_numbers_read (s : server) (c : Z) (cl : client) (argv F : list oid) (key field : sds) (vals : list sds) (mo : option (gmap sds sds)) :
  clients s !! c = Some cl -> store_ok (st s) (argv ++ F)%list -> is_arg (st s) argv 1 key -> named (st s) (drop 2 argv) (field :: vals) ->
  let k := (c_db cl, key) in let E := data_env (conf s) in
  hash_view E (visible s k) mo -> unshared s k ->
  forall p : (Z -> list oid -> M (list oid)) * (gmap sds sds -> Z),
  p ∈ [(hlenCommand, fun m => Z.of_nat (size m));
       (hexistsCommand, fun m => if bool_decide (is_Some (m !! field)) then 1 else 0);
       (hstrlenCommand, fun m => from_option zlen 0 (m !! field))] ->
  exists s' v, p.1 c argv s = Some (argv, s') /\ (forall m, hash_view E (alive s k) m -> hash_view E v m) /\
    outcome s c k (argv ++ F)%list s' v (alive_expire s k) false 0 [hnum_reply mo p.2].
Proof.
  intros Hc Hok Hkey Hfield k E Hv Hu p Hp.
  assert (forall s1, (forall i vals, named (st s) (drop i argv) vals -> named (st s1) (drop i argv) vals) ->
    arg_sds argv 2 s1 = Some (field, s1)) as Harg.
  { intros s1 Hn. apply is_arg_run. exact (arg_kept _ _ _ _ _ _ Hn Hfield eq_refl). }
  repeat (apply elem_of_cons in Hp as [->|Hp]); [| | |by apply elem_of_nil in Hp]; cbn [fst snd];
    apply (hread_spec s c cl argv F key mo _ _ Hc Hok Hkey Hv Hu); try done; intros m s1 o r Hh Hr Hn.
  - destruct (hashTypeLength_rep E r m Hr) as (r1 & El & Hr1 & Hc1 & _).
    destruct (hash_step s k _ s1 o r _ (fun E r => hashTypeLength E r) r1 _ m Hh El Hr1 Hc1) as (t & Hon & Hh1 & _). by exists t, r1.
  - destruct (hashTypeExists_rep E r m field Hr) as (r1 & El & Hr1 & Hc1).
    destruct (hash_step s k _ s1 o r _ (fun E r => hashTypeExists E r field) r1 _ m Hh El Hr1 Hc1) as (t & Hon & Hh1 & _).
    exists t, r1. rewrite (bind_run _ _ _ _ _ (Harg s1 Hn)), (bind_run _ _ _ _ _ Hon). done.
  - destruct (hashTypeGetValueLength_rep E r m field Hr) as (r1 & El & Hr1 & Hc1).
    destruct (hash_step s k _ s1 o r _ (fun E r => hashTypeGetValueLength E r field) r1 _ m Hh El Hr1 Hc1) as (t & Hon & Hh1 & _).
    exists t, r1. rewrite (bind_run _ _ _ _ _ (Harg s1 Hn)), Hon. done.
Qed.

(** ** Witnesses *)

Module HashSample.
Import Sample.

(** A ziplist with the fields "f", the number 3, and "g", the string "hi". *)
Definition hash_pairs : list (sds * sds) := [([102], [51]); ([103], [104; 105])].
Definition hash_zl : list Z :=
  [23; 0; 0; 0; 18; 0; 0; 0; 4; 0; 0; 1; 102; 3; 244; 2; 1; 103; 3; 2; 104; 105; 255].

Lemma hash_zl_rep : zl_hash hash_zl hash_pairs.
Proof.
  split; [|apply (bool_decide_eq_true_1 _); vm_compute; reflexivity].
  exists 4, ((fun x => (false, x)) <$> flat hash_pairs). split; [|done]. constructor; [by vm_compute| |by vm_compute|].
  - cbn [hash_pairs flat fmap list_fmap entries_ok fst snd]. unfold prev_fits, elem_ok, in_u.
    split_and!; try (vm_compute; congruence); try (left; vm_compute; congruence); done.
  - split; [split; vm_compute; congruence|]. by right.
Qed.

(** Database 0 binds "h" to this hash; the arguments are "hset", "h", "f", "10" and "new". *)
Definition t_hash : store := {|
  objs := <[1%positive := Robj OBJ_STRING OBJ_ENCODING_EMBSTR (PSds [104; 115; 101; 116]) 1]>
         (<[2%positive := Robj OBJ_STRING OBJ_ENCODING_EMBSTR (PSds [104]) 1]>
         (<[3%positive := Robj OBJ_STRING OBJ_ENCODING_EMBSTR (PSds [102]) 1]>
         (<[4%positive := Robj OBJ_STRING OBJ_ENCODING_EMBSTR (PSds [49; 48]) 1]>
         (<[5%positive := Robj OBJ_STRING OBJ_ENCODING_EMBSTR (PSds [110; 101; 119]) 1]>
         (<[6%positive := Robj OBJ_HASH OBJ_ENCODING_ZIPLIST (PData (DZiplist hash_zl)) 1]> ∅)))));
  dict := <[(0, [104]) := Heap 6]> ∅;
  expires := <[(0, [104]) := 5000]> ∅
|}.

Definition s_hash : server := with_st t_hash s0.
Definition m_hash : gmap sds sds := list_to_map hash_pairs.

Lemma s_hash_view : hash_view env0 (Some (VObj OBJ_HASH (DZiplist hash_zl))) (Some m_hash).
Proof. exists m_hash. split; [done|]. exists hash_pairs. split; [exact hash_zl_rep|done]. Qed.

Lemma s_hash_unshared : unshared s_hash (0, [104]).
Proof. intros o r Ho Hr. vm_compute in Ho. injection Ho as <-. vm_compute in Hr. by injection Hr as <-. Qed.

(** HSET of "f" to "10". *)
Lemma hsetCommand_sets_witness :
  let argv := [Heap 1; Heap 2; Heap 3; Heap 4] in
  exists s', hsetCommand 1 argv s_hash = Some (argv, s') /\
    exists d, hash_data env0 d (<[[102]:=[49; 48]]> m_hash) /\
      outcome s_hash 1 (0, [104]) (argv ++ [Heap 5])%list s' (Some (VObj OBJ_HASH d)) (Some 5000) true 1 [RInt 0].
Proof.
  intros argv. apply (hsetCommand_sets s_hash 1 client0 argv [Heap 5] [104; 115; 101; 116] [104] [([102], [49; 48])] (Some m_hash)).
  - reflexivity.
  - apply store_check_sound. vm_compute. reflexivity.
  - arg.
  - done.
  - arg.
  - repeat constructor.
  - exact s_hash_view.
  - exact s_hash_unshared.
  - repeat constructor; vm_compute; congruence.
  - intros m [= <-]. split; [vm_compute; reflexivity|]. apply (bool_decide_eq_true_1 _). vm_compute. reflexivity.
Defined.

(** HDEL of "f" and "new". *)
Lemma hdelCommand_deletes_witness :
  let argv := [Heap 1; Heap 2; Heap 3; Heap 5] in
  exists s', hdelCommand 1 argv s_hash = Some (argv, s') /\
    exists v, hash_view env0 v (Some (del_all [[102]; [110; 101; 119]] m_hash)) /\ (del_all [[102]; [110; 101; 119]] m_hash = ∅ -> m_hash <> ∅ -> v = None) /\
      outcome s_hash 1 (0, [104]) (argv ++ [Heap 4])%list s' v (match v with None => None | Some _ => Some 5000 end) true 1 [RInt 1].
Proof.
  intros argv. apply (hdelCommand_deletes s_hash 1 client0 argv [Heap 4] [104] [[102]; [110; 101; 119]] (Some m_hash)).
  - reflexivity.
  - apply store_check_sound. vm_compute. reflexivity.
  - arg.
  - repeat constructor.
  - exact s_hash_view.
  - exact s_hash_unshared.
  - intros m [= <-]. vm_compute. reflexivity.
Defined.

(** HGET of "f", which the ziplist stores as an integer. *)
Lemma hgetCommand_reads_witness :
  let argv := [Heap 1; Heap 2; Heap 3] in
  exists s' v, hgetCommand 1 argv s_hash = Some (argv, s') /\
    (forall m, hash_view env0 (alive s_hash (0, [104])) m -> hash_view env0 v m) /\
    outcome s_hash 1 (0, [104]) (argv ++ [Heap 4; Heap 5])%list s' v (Some 5000) false 0 [RBulk [51]].
Proof.
  intros argv. apply (hgetCommand_reads s_hash 1 client0 argv [Heap 4; Heap 5] [104] [102] [] (Some m_hash)).
  - reflexivity.
  - apply store_check_sound. vm_compute. reflexivity.
  - arg.
  - repeat constructor.
  - exact s_hash_view.
  - exact s_hash_unshared.
Defined.

(** HGETALL. *)
Lemma genericHgetallCommand_sends_witness :
  let argv := [Heap 1; Heap 2] in
  exists s' v rs, genericHgetallCommand 1 argv true true s_hash = Some (argv, s') /\
    (forall m, hash_view env0 (alive s_hash (0, [104])) m -> hash_view env0 v m) /\
    ((visible s_hash (0, [104]) = None /\ rs = [R_emptymultibulk]) \/
      exists d l, visible s_hash (0, [104]) = Some (VObj OBJ_HASH d) /\ hash_order d l /\ l ≡ₚ map_to_list m_hash /\ let rest := concat (pair_reply true true <$> l) in rs = RMultiBulkLen (zlen rest) :: rest) /\
    outcome s_hash 1 (0, [104]) (argv ++ [Heap 3; Heap 4; Heap 5])%list s' v (Some 5000) false 0 rs.
Proof.
  intros argv. apply (genericHgetallCommand_sends s_hash 1 client0 argv [Heap 3; Heap 4; Heap 5] [104] true true (Some m_hash)).
  - reflexivity.
  - apply store_check_sound. vm_compute. reflexivity.
  - arg.
  - exact s_hash_view.
  - exact s_hash_unshared.
  - intros m [= <-]. vm_compute. reflexivity.
Defined.

(** HINCRBY of "f" by 10. *)
Lemma hincrbyCommand_adds_witness :
  let argv := [Heap 1; Heap 2; Heap 3; Heap 4] in
  exists s', hincrbyCommand 1 argv s_hash = Some (argv, s') /\
    exists d, hash_data env0 d (<[[102]:=[49; 51]]> m_hash) /\
      outcome s_hash 1 (0, [104]) (argv ++ [Heap 5])%list s' (Some (VObj OBJ_HASH d)) (Some 5000) true 1 [RInt 13].
Proof.
  intros argv. apply (hincrbyCommand_adds s_hash 1 client0 argv [Heap 5] [104] [102] [49; 48] 10 (Some m_hash)).
  - reflexivity.
  - apply store_check_sound. vm_compute. reflexivity.
  - arg.
  - repeat constructor.
  - reflexivity.
  - exact s_hash_view.
  - exact s_hash_unshared.
  - intros m [= <-]. split; [vm_compute; reflexivity|]. apply (bool_decide_eq_true_1 _). vm_compute. reflexivity.
Defined.
End HashSample.
