(* ===== verification/TSetOpSpec.v ===== *)
(** * The set algebra refines that of finite sets

    The commands SINTER, SUNION, SDIFF and their STORE forms compute the intersection, the union and the difference
    of the sets that the keys hold, whatever the encodings of the sets, their order by size and the algorithm that is
    chosen for a difference. Reading a set may take a step of the rehashing of its dictionary, so the objects change
    but the sets they hold do not ([sims]). *)

From stdpp Require Import sorting.
From S2P Require Import Prelude Endian Util Intset Sds SdsNum Dict DictIter DictMap Data State Object Server Db DbSpec Outcome InPlace SampleState KeySpec TSet TSetSpec THash THashCmdSpec TSetOp.

(** ** The order of the sets *)

(** [qsort] with a comparison that orders by [f]. *)
Lemma qsort_sorted tie compar f l :
  (forall x y : Z * option oid, compar x y = Z.sgn (f x - f y)) -> Sorted (fun x y => f x <= f y) (qsort tie compar l).
Proof.
  intros Hf. assert (Total (qsort_before tie compar)) by (intros x y; unfold qsort_before; rewrite !Hf; lia).
  pose proof (Sorted_merge_sort (qsort_before tie compar) l) as Hs. unfold qsort. induction Hs as [|x l' _ IH Hh]; constructor; [done|].
  destruct Hh as [|y l'' Hxy]; constructor. unfold qsort_before in Hxy. rewrite Hf in Hxy. lia.
Qed.

(** The sets are left in the order of their sizes, whatever the order of sets of the same size. *)
Lemma qsort_by_cardinality tie l :
  Sorted (fun x y => x.1 <= y.1) (qsort tie qsortCompareSetsByCardinality l) /\
  Sorted (fun x y => - x.1 <= - y.1) (qsort tie qsortCompareSetsByRevCardinality l).
Proof.
  split; apply qsort_sorted; intros x y; unfold qsortCompareSetsByCardinality, qsortCompareSetsByRevCardinality;
    rewrite Z.gtb_ltb; repeat case_match; lia.
Qed.

(** ** Iterators of sets *)

(** The string of an element. *)
Definition ele_sds (e : set_element) : sds := match e with EleSds s => s | EleInt v => sdec v end.
Definition ele_ok (e : set_element) : Prop := match e with EleSds _ => True | EleInt v => in_s 64 v end.

Abbreviation int_robj is_ n := (Robj OBJ_SET OBJ_ENCODING_INTSET (PData (DIntset is_)) n).
Abbreviation ht_robj d n := (Robj OBJ_SET OBJ_ENCODING_HT (PData (DSet d)) n).

Section iter.
Variable E : env.
#[local] Hint Extern 0 Host => exact (env_host E) : typeclass_instances.
#[local] Hint Extern 0 (dictType sds unit) => exact (setDictType E) : typeclass_instances.
Abbreviation addr := (fun _ => table_addr E).

(** The iterator has the elements [rem] left. *)
Inductive set_iter (r : robj) (si : setTypeIterator) : list set_element -> Prop :=
| iter_int is_ w xs a b n : r = int_robj is_ n -> intset_rep is_ w xs -> xs = a ++ b ->
    si_encoding si = OBJ_ENCODING_INTSET -> si_ii si = zlen a -> set_iter r si (EleInt <$> b)
| iter_dict d rem n : r = ht_robj d n -> dict_wf (T := setDictType E) d -> si_encoding si = OBJ_ENCODING_HT ->
    i_safe (si_di si) = false -> pending d (si_di si) rem ->
    (not_started (si_di si) = false -> fingerprint (si_di si) = Some (dictFingerprint addr d)) ->
    set_iter r si (EleSds <$> rem.*1).

Lemma setTypeNext_rep r si rem : set_iter r si rem ->
  exists si', setTypeNext E r si = Some (r, si', head rem) /\
    match rem with [] => setTypeReleaseIterator E r si' = Some r | _ :: rem => set_iter r si' rem end.
Proof.
  intros [is_ w xs a b n -> R Exs He Hi|d l n -> W He Hs Hp Hfp]; unfold setTypeNext; rewrite He.
  - cbn [as_intset ptr mbind option_bind]. pose proof (rep_len_bound _ _ _ R) as Hlen. rewrite Exs, zlen_app in Hlen.
    pose proof (zlen_nonneg a). pose proof (zlen_nonneg b). rewrite Hi, (wrapu_small 32) by (unfold in_u; lia).
    rewrite (intsetGet_rep _ _ _ _ R) by (unfold in_u; lia). cbn [mbind option_bind]. destruct b as [|x b].
    + assert (zidx xs (zlen a) = None) as -> by (apply eq_None_not_Some; intros [y Hy%zidx_range]; rewrite Exs, app_nil_r in Hy; lia).
      eexists. split; [done|]. done.
    + rewrite zlen_cons in *. pose proof (zlen_nonneg b). assert (zidx xs (zlen a) = Some x) as -> by (rewrite Exs; by apply zidx_app).
      eexists. split; [done|]. apply (iter_int _ _ is_ w xs (a ++ [x]) b n); [done|done|by rewrite <- app_assoc|done|].
      cbn [si_ii]. rewrite wraps_small by (unfold in_s; lia). zl.
  - destruct (dictNext_spec (T := setDictType E) addr d (si_di si) l W Hp) as (d' & it' & En & [Ht Hsafe Hst Hit Hpr] & Hret).
    rewrite Hs, andb_false_r in Hit. assert (d' = d) as ->.
    { destruct Ht as (E0 & E1 & Er). destruct d, d'. cbn in *. by subst. }
    assert (fingerprint it' = Some (dictFingerprint addr d)) as Hfp'.
    { rewrite Hpr, Hs, andb_true_r. destruct (not_started (si_di si)) eqn:Hns; [done|by apply Hfp]. }
    cbn [as_set ptr mbind option_bind]. rewrite En. cbn [mbind option_bind]. eexists. split; [by destruct l as [|[]]|].
    destruct l as [|[x u] l].
    + unfold setTypeReleaseIterator. cbn [si_encoding si_di as_set ptr mbind option_bind]. unfold dictReleaseIterator.
      rewrite Hst, Hsafe, Hs. cbn [negb]. rewrite bool_decide_eq_true_2 by exact Hfp'. done.
    + apply (iter_dict _ _ d l n); try done; [cbn [si_di]; by rewrite Hsafe|by eapply returned_pending].
Qed.

Lemma dom_set_entries (d : Dict.dict sds unit) : dom (dmap d) = (list_to_set (entries d).*1 : gset sds).
Proof. unfold dmap. by rewrite dom_list_to_map_L. Qed.

Lemma setTypeInitIterator_rep r X : set_rep E r X ->
  exists si l, setTypeInitIterator r = Some si /\ set_iter r si l /\ NoDup (ele_sds <$> l) /\ X = list_to_set (ele_sds <$> l) /\ Forall ele_ok l.
Proof.
  intros Hr. destruct (set_rep_shape _ _ _ Hr) as [is_ w xs Er R ->|d Er W ->]; rewrite Er; unfold setTypeInitIterator; cbn [encoding].
  - eexists _, (EleInt <$> xs). split; [done|]. rewrite <- list_fmap_compose. split_and!.
    + by apply (iter_int _ _ is_ w xs [] xs (refcount r)).
    + by eapply NoDup_sdec.
    + done.
    + apply Forall_fmap, Forall_forall. intros x Hx. cbn. by eapply (xs_range E).
  - eexists _, (EleSds <$> (entries d).*1). split; [done|]. assert (ele_sds <$> (EleSds <$> (entries d).*1) = (entries d).*1) as ->.
    { generalize ((entries d).*1). intros l. induction l as [|x l IH]; [done|]. cbn. by rewrite IH. }
    split_and!.
    + apply (iter_dict _ _ d (entries d) (refcount r)); try done. by apply (iterate_fresh_pending (T := setDictType E)).
    + by apply (entries_NoDup (T := setDictType E)).
    + apply dom_set_entries.
    + apply Forall_fmap, Forall_forall. done.
Qed.

Lemma setTypeNextObject_rep r si rem : set_iter r si rem -> (forall e, e ∈ rem -> ele_ok e /\ ele_sds e <> sdec LLONG_MIN) ->
  exists si', setTypeNextObject E r si = Some (r, si', ele_sds <$> head rem) /\
    match rem with [] => setTypeReleaseIterator E r si' = Some r | _ :: rem => set_iter r si' rem end.
Proof.
  intros Hi Hok. destruct (setTypeNext_rep r si rem Hi) as (si' & En & Hn). exists si'. split; [|done]. unfold setTypeNextObject. rewrite En.
  cbn [mbind option_bind]. destruct rem as [|e rem]; [done|]. cbn [head fmap option_fmap option_map]. destruct (Hok e) as [H1 H2]; [set_solver|].
  destruct e as [s|v]; [done|]. cbn [ele_ok ele_sds] in *. rewrite sdsfromlonglong_correct; [done|done|]. by intros ->.
Qed.
End iter.

(** ** Objects that hold the same sets *)

Definition set_sim (E : env) (r r' : robj) : Prop :=
  r' = r \/ exists X, set_rep E r X /\ set_rep E r' X /\ refcount r' = refcount r.

Record sims (E : env) (F : list oid) (t t' : store) : Prop := {
  si_ok : store_ok t' F;
  si_dict : dict t' = dict t;
  si_expires : expires t' = expires t;
  si_objs : forall o r, obj_at t o = Some r -> exists r', obj_at t' o = Some r' /\ set_sim E r r'
}.

Definition holds_set (E : env) (t : store) (o : oid) (X : gset sds) : Prop := exists r, obj_at t o = Some r /\ set_rep E r X.

Lemma set_rep_det E r X Y : set_rep E r X -> set_rep E r Y -> X = Y.
Proof. intros [_ _ (d & Hp & Hd)] [_ _ (d' & Hp' & Hd')]. assert (d' = d) as -> by congruence. by eapply set_data_det. Qed.

Lemma sim_rep E r r' X : set_sim E r r' -> set_rep E r X -> set_rep E r' X.
Proof. intros [->|(Y & HY & HY' & _)] HX; [done|]. by rewrite (set_rep_det E r X Y HX HY). Qed.

Lemma set_sim_trans E r1 r2 r3 : set_sim E r1 r2 -> set_sim E r2 r3 -> set_sim E r1 r3.
Proof.
  intros [->|(X & H1 & H2 & H3)] H; [done|]. right. exists X. split; [done|]. split; [by eapply sim_rep|].
  destruct H as [->|(Y & _ & _ & H4)]; congruence.
Qed.

Lemma sims_refl E F t : store_ok t F -> sims E F t t.
Proof. intros Hok. split; try done. intros o r Hr. exists r. split; [done|by left]. Qed.

Lemma sims_trans E F t1 t2 t3 : sims E F t1 t2 -> sims E F t2 t3 -> sims E F t1 t3.
Proof.
  intros [_ D1 X1 O1] [K2 D2 X2 O2]. split; [done|congruence|congruence|]. intros o r Hr.
  destruct (O1 o r Hr) as (r1 & H1 & S1). destruct (O2 o r1 H1) as (r2 & H2 & S2). exists r2. split; [done|]. by eapply set_sim_trans.
Qed.

Lemma sims_holds E F t t' o X : sims E F t t' -> holds_set E t o X -> holds_set E t' o X.
Proof. intros Hs (r & Hr & HX). destruct (si_objs _ _ _ _ Hs o r Hr) as (r' & Hr' & Hsim). exists r'. split; [done|]. by eapply sim_rep. Qed.

(** The values of keys. *)
Definition value_sim (E : env) (v v' : option value) : Prop :=
  v' = v \/ exists d d' X, v = Some (VObj OBJ_SET d) /\ v' = Some (VObj OBJ_SET d') /\ set_data E d X /\ set_data E d' X.

Lemma sims_view E F t t' k : sims E F t t' -> store_ok t F -> value_sim E (view t k) (view t' k).
Proof.
  intros Hs Hok. unfold view. rewrite (si_dict _ _ _ _ Hs). destruct (dict t !! k) as [o|] eqn:Hk; [|by left]. cbn.
  destruct (ok_live _ _ Hok o) as [r Hr]; [by eapply refs_dict|]. destruct (si_objs _ _ _ _ Hs o r Hr) as (r' & Hr' & Hsim).
  unfold val_at. rewrite Hr, Hr'. cbn. destruct Hsim as [->|(X & H1 & H2 & _)]; [by left|]. right.
  destruct H1 as [T1 _ (d1 & P1 & D1)], H2 as [T2 _ (d2 & P2 & D2)]. exists d1, d2, X. unfold val_of. by rewrite P1, T1, P2, T2.
Qed.

(** An object is replaced by one that holds the same set. *)
Lemma sims_set E F t o r r' X : store_ok t F -> obj_at t o = Some r -> set_rep E r X -> set_rep E r' X -> refcount r' = refcount r ->
  exists t', set_obj o r' t = Some (tt, t') /\ sims E F t t' /\ obj_at t' o = Some r' /\ forall o', o' <> o -> obj_at t' o' = obj_at t o'.
Proof.
  intros Hok Hr H1 H2 Hc. destruct o as [n|p].
  { cbn in Hr. destruct (is_shared_integer n); [|done]. injection Hr as <-. destruct H1 as [T _ _]. done. }
  exists (with_objs (insert p r') t). split; [done|].
  assert (forall o', o' <> Heap p -> obj_at (with_objs (insert p r') t) o' = obj_at t o') as Hother.
  { intros [n|q] Hne; [done|]. cbn. apply lookup_insert_ne. congruence. }
  assert (obj_at (with_objs (insert p r') t) (Heap p) = Some r') as Hnew by (cbn; apply lookup_insert_eq).
  split_and!; [|done|done]. cbn in Hr. split; [|done|done|].
  - destruct Hok as [O1 O2 O3 O4]. split; [| | |done].
    + intros q x Hx. cbn in Hx. change (refs (with_objs (insert p r') t) F) with (refs t F).
      destruct (decide (q = p)) as [->|Hne]; [rewrite lookup_insert_eq in Hx; injection Hx as <-|rewrite lookup_insert_ne in Hx by done; by apply O1].
      specialize (O1 p r Hr). unfold count_ok in *. by rewrite Hc.
    + intros q x Hx. cbn in Hx. destruct (decide (q = p)) as [->|Hne]; [rewrite lookup_insert_eq in Hx; injection Hx as <-; apply H2|].
      rewrite lookup_insert_ne in Hx by done. by eapply O2.
    + intros o Ho. destruct (decide (o = Heap p)) as [->|Hne]; [by rewrite Hnew|]. rewrite Hother by done. by apply O3.
  - intros o x Hx. destruct (decide (o = Heap p)) as [->|Hne].
    + exists r'. split; [done|]. cbn in Hx. assert (x = r) as -> by congruence. right. by exists X.
    + exists x. split; [by rewrite Hother|by left].
Qed.

(** ** The functions on sets of the heap *)

Section heap.
Variables (s : server) (F : list oid).
Abbreviation E := (data_env (conf s)).
(** The states that a command goes through. *)
Abbreviation at_st t := (with_st t s).

Lemma set_obj_data r X : set_rep E r X -> exists d, ptr r = PData d.
Proof. intros [_ _ (d & Hp & _)]. by exists d. Qed.

Lemma on_set_run {A} t o r (f : env -> robj -> option (robj * A)) r' a X :
  store_ok t F -> obj_at t o = Some r -> set_rep E r X -> f E r = Some (r', a) -> set_rep E r' X -> refcount r' = refcount r ->
  exists t', on_obj o f (at_st t) = Some (a, at_st t') /\ sims E F t t' /\ forall o', o' <> o -> obj_at t' o' = obj_at t o'.
Proof.
  intros Hok Hr HX Hf HX' Hc. destruct (sims_set E F t o r r' X Hok Hr HX HX' Hc) as (t' & Hs & Hsim & _ & Ho). exists t'. split_and!; try done.
  unfold on_obj. rewrite (bind_run _ _ _ _ _ (obj_run_at (at_st t) o r Hr)), (bind_run _ _ _ _ _ (gets_run _ _)). cbn [conf with_st upd_st].
  rewrite Hf, (bind_run _ _ _ _ _ (lift_run _ _ _ eq_refl)). erewrite bind_run by (apply in_store_run; exact Hs). done.
Qed.

Lemma is_member_run t o ele X : store_ok t F -> holds_set E t o X ->
  exists t', is_member o ele (at_st t) = Some (bool_decide (ele ∈ X), at_st t') /\ sims E F t t' /\ forall o', o' <> o -> obj_at t' o' = obj_at t o'.
Proof.
  intros Hok (r & Hr & HX). destruct (setTypeIsMember_rep E r X ele HX) as (r' & Em & HX' & Hc).
  by apply (on_set_run t o r _ r' _ X Hok Hr HX Em HX' Hc).
Qed.

Lemma size_of_run t o X : holds_set E t o X -> size_of o (at_st t) = Some (Z.of_nat (size X), at_st t).
Proof.
  intros (r & Hr & HX). unfold size_of. rewrite (bind_run _ _ _ _ _ (obj_run_at (at_st t) o r Hr)). run. cbn [conf with_st upd_st].
  rewrite (setTypeSize_rep E r X HX). by apply lift_run.
Qed.

Section loop.
Context {A : Type} (f : sds -> A -> M A) (P : gset sds -> A -> Prop) (t0 : store) (o : oid) (r : robj) (X : gset sds).
Hypothesis Hrep : set_rep E r X.
Hypothesis Hwr : writable X.
(** The body keeps the set it is called for, and one more element is done. *)
Hypothesis body : forall ele D a t, ele ∈ X -> ele ∉ D -> D ⊆ X -> P D a -> sims E F t0 t -> obj_at t o = Some r ->
  exists a' t', f ele a (at_st t) = Some (a', at_st t') /\ sims E F t t' /\ obj_at t' o = Some r /\ P ({[ele]} ∪ D) a'.

Lemma each_element_run rem : forall fuel si D a t,
  set_iter E r si rem -> NoDup (ele_sds <$> rem) -> Forall ele_ok rem -> X = D ∪ list_to_set (ele_sds <$> rem) ->
  (forall x, x ∈ (ele_sds <$> rem) -> x ∉ D) -> (length rem < fuel)%nat -> P D a -> sims E F t0 t -> obj_at t o = Some r ->
  exists si' a' t', each_element fuel o si f a (at_st t) = Some ((si', a'), at_st t') /\ sims E F t t' /\ obj_at t' o = Some r /\
    setTypeReleaseIterator E r si' = Some r /\ P X a'.
Proof.
  destruct (set_obj_data r X Hrep) as [d Hd].
  induction rem as [|e rem IH]; intros [|fuel] si D a t Hi Hn Hok HX Hdis Hf HP Hs Ho; cbn [length] in Hf; try lia; cbn [each_element].
  all: destruct (setTypeNextObject_rep E r si _ Hi) as (si' & En & Hnext);
    [intros x Hx; split; [by eapply Forall_forall|]; intros He; apply Hwr; rewrite HX, <- He; apply elem_of_union_r, elem_of_list_to_set; by apply list_elem_of_fmap_2|].
  all: unfold next_object_of; rewrite (bind_run _ _ _ _ _ (on_obj_same (at_st t) o r
    (fun E r => '(r, si, e) ← setTypeNextObject E r si; Some (r, (si, e))) (si', _) d Ho Hd ltac:(cbn [conf with_st upd_st]; rewrite En; reflexivity))); cbv beta iota; cbn [head fmap option_fmap option_map].
  - exists si', a, t. split; [done|]. split; [by apply sims_refl; apply Hs|]. split; [done|]. split; [done|].
    rewrite HX. cbn [fmap list_fmap list_to_set]. by rewrite union_empty_r_L.
  - cbn [fmap list_fmap] in *. apply NoDup_cons in Hn as [Hne Hn]. apply Forall_cons in Hok as [_ Hok].
    destruct (body (ele_sds e) D a t) as (a1 & t1 & Eb & Hs1 & Ho1 & HP1); [rewrite HX; set_solver|apply Hdis; set_solver|rewrite HX; set_solver|done|done|done|].
    rewrite (bind_run _ _ _ _ _ Eb).
    destruct (IH fuel si' ({[ele_sds e]} ∪ D) a1 t1) as (si2 & a2 & t2 & E2 & Hs2 & Ho2 & Hr2 & HP2); try done.
    + rewrite HX. cbn [list_to_set]. set_solver.
    + intros x Hx Hin. apply elem_of_union in Hin as [Hin|Hin]; [apply elem_of_singleton in Hin as ->; done|]. eapply Hdis; [|exact Hin]. set_solver.
    + lia.
    + by eapply sims_trans.
    + exists si2, a2, t2. split; [done|]. split; [by eapply sims_trans|]. done.
Qed.

Lemma for_elements_run a t : P ∅ a -> sims E F t0 t -> obj_at t o = Some r ->
  exists a' t', for_elements o f a (at_st t) = Some (a', at_st t') /\ sims E F t t' /\ obj_at t' o = Some r /\ P X a'.
Proof.
  intros HP Hs Ho. destruct (setTypeInitIterator_rep E r X Hrep) as (si & l & Ei & Hi & Hn & HX & Hok).
  unfold for_elements. rewrite (bind_run _ _ _ _ _ (size_of_run t o X ltac:(by exists r))).
  unfold init_iterator. rewrite bind_assoc_run, (bind_run _ _ _ _ _ (obj_run_at (at_st t) o r Ho)).
  rewrite (bind_run _ _ _ _ _ (lift_run _ _ _ Ei)).
  destruct (each_element_run l (S (Z.to_nat (Z.of_nat (size X)))) si ∅ a t Hi Hn Hok) as (si' & a' & t' & El & Hs' & Ho' & Hrel & HP').
  - rewrite HX. by rewrite union_empty_l_L.
  - intros x _. apply not_elem_of_empty.
  - rewrite HX, size_list_to_set, length_fmap by done. lia.
  - done.
  - done.
  - done.
  - exists a', t'. split; [|done]. rewrite (bind_run _ _ _ _ _ El). cbv beta iota. unfold release_iterator.
    destruct (set_obj_data r X Hrep) as [d Hd].
    rewrite (bind_run _ _ _ _ _ (on_obj_same (at_st t') o r (fun E r => r ← setTypeReleaseIterator E r si'; Some (r, tt)) tt d Ho' Hd
      ltac:(cbn [conf with_st upd_st]; rewrite Hrel; reflexivity))). done.
Qed.
End loop.

(** ** Union and difference *)

(** The result holds the set [R] and its size was counted. *)
Definition result_is (a : result) (R : gset sds) : Prop := set_rep E a.1 R /\ refcount a.1 = 1 /\ a.2 = Z.of_nat (size R).

(** The sizes for which the result can be built. *)
Definition small (X : gset sds) : Prop := Z.of_nat (size X) + 1 < 2 ^ 29 /\ writable X.

Lemma small_sub X Y : X ⊆ Y -> small Y -> small X.
Proof. intros Hs [H1 H2]. split; [apply subseteq_size in Hs; lia|set_solver]. Qed.

Lemma int_arith_run v st : - 2 ^ 31 <= v < 2 ^ 31 -> int_arith v st = Some (v, st).
Proof. intros Hv. unfold int_arith. by rewrite (proj2 (Z.leb_le _ _)), (proj2 (Z.ltb_lt _ _)) by lia. Qed.

Lemma add_result_run t r R ele : set_rep E r R -> refcount r = 1 -> small ({[ele]} ∪ R) ->
  exists r', add_result r ele (at_st t) = Some ((r', bool_decide (ele ∉ R)), at_st t) /\ set_rep E r' ({[ele]} ∪ R) /\ refcount r' = 1.
Proof.
  intros HR Hc [Hsz Hw]. assert (size R <= size ({[ele]} ∪ R))%nat by (apply subseteq_size; set_solver).
  destruct (setTypeAdd_rep E (set_max_intset_entries (conf s)) r R ele HR) as (r' & Ea & HR' & Hc' & _); [lia|done|].
  exists r'. split; [|split; [done|congruence]]. unfold add_result. run. cbn [conf with_st upd_st]. rewrite Ea. done.
Qed.

Lemma size_insert (ele : sds) (R : gset sds) : Z.of_nat (size ({[ele]} ∪ R)) = if bool_decide (ele ∉ R) then Z.of_nat (size R) + 1 else Z.of_nat (size R).
Proof.
  case_bool_decide as H.
  - rewrite size_union, size_singleton by set_solver. lia.
  - by replace ({[ele]} ∪ R) with R by set_solver.
Qed.

Lemma add_count_run t a R ele : result_is a R -> small ({[ele]} ∪ R) ->
  exists a', add_count ele a (at_st t) = Some (a', at_st t) /\ result_is a' ({[ele]} ∪ R).
Proof.
  intros (HR & Hc & Hn) Hsm. destruct (add_result_run t a.1 R ele HR Hc Hsm) as (r' & Ea & HR' & Hc').
  unfold add_count. rewrite (bind_run _ _ _ _ _ Ea). cbv beta iota. pose proof (size_insert ele R) as Hsz. destruct Hsm as [Hb _].
  destruct (bool_decide (ele ∉ R)).
  - rewrite (bind_run _ _ _ _ _ (int_arith_run (a.2 + 1) (at_st t) ltac:(lia))). eexists. split; [reflexivity|]. split_and!; [done|done|cbn [snd]; lia].
  - eexists. split; [reflexivity|]. split_and!; [done|done|cbn [snd]; lia].
Qed.

Lemma size_without (ele : sds) (R : gset sds) : Z.of_nat (size (R ∖ {[ele]})) = if bool_decide (ele ∈ R) then Z.of_nat (size R) - 1 else Z.of_nat (size R).
Proof.
  case_bool_decide as H.
  - rewrite size_difference by set_solver. rewrite size_singleton. assert (size R <> 0)%nat by (apply size_non_empty_iff; set_solver). lia.
  - by replace (R ∖ {[ele]}) with R by set_solver.
Qed.

Lemma remove_count_run t a R ele : result_is a R -> Z.of_nat (size R) < 2 ^ 31 ->
  exists a', remove_count ele a (at_st t) = Some (a', at_st t) /\ result_is a' (R ∖ {[ele]}).
Proof.
  intros (HR & Hc & Hn) Hb. destruct (setTypeRemove_rep E a.1 R ele HR) as (r' & Ea & HR' & Hc').
  unfold remove_count, remove_result. rewrite bind_assoc_run, (bind_run _ _ _ _ _ (get_run _)). cbn [conf with_st upd_st]. rewrite Ea.
  rewrite (bind_run _ _ _ _ _ (lift_run _ _ _ eq_refl)). cbv beta iota. pose proof (size_without ele R) as Hsz.
  destruct (bool_decide (ele ∈ R)).
  - rewrite (bind_run _ _ _ _ _ (int_arith_run (a.2 - 1) (at_st t) ltac:(lia))). eexists. split; [reflexivity|]. split_and!; [done|cbn [fst]; congruence|cbn [snd]; lia].
  - eexists. split; [reflexivity|]. split_and!; [done|cbn [fst]; congruence|cbn [snd]; lia].
Qed.

(** The set at an address, or the empty one. *)
Definition set_or_empty (t : store) (o : option oid) (X : gset sds) : Prop :=
  match o with Some o => holds_set E t o X | None => X = ∅ end.

Lemma sims_sets t t' sets Xs : sims E F t t' -> Forall2 (set_or_empty t) sets Xs -> Forall2 (set_or_empty t') sets Xs.
Proof. intros Hs Hf. eapply Forall2_impl; [exact Hf|]. intros [o|] X; [by apply (sims_holds E F)|done]. Qed.

(** The elements of a set are added to the result. *)
Lemma add_elements t o X a R : store_ok t F -> holds_set E t o X -> result_is a R -> small (X ∪ R) ->
  exists a' t', for_elements o add_count a (at_st t) = Some (a', at_st t') /\ sims E F t t' /\ result_is a' (X ∪ R).
Proof.
  intros Hok (r & Hr & HX) Ha Hsm.
  destruct (for_elements_run add_count (fun D a => result_is a (D ∪ R)) t o r X HX) with (a := a) (t := t) as (a' & t' & El & Hs & _ & Ha').
  - destruct Hsm as [_ Hw]. set_solver.
  - intros ele D b t1 Hele Hnot HD Hb Hs1 Ho1. destruct (add_count_run t1 b (D ∪ R) ele Hb) as (b' & Eb & Hb').
    { eapply small_sub; [|exact Hsm]. set_solver. }
    exists b', t1. split; [done|]. split; [apply sims_refl, Hs1|]. split; [done|]. by rewrite <- (assoc_L (∪)).
  - by rewrite union_empty_l_L.
  - by apply sims_refl.
  - done.
  - by exists a', t'.
Qed.

Lemma union_loop_run sets : forall Xs t a R, store_ok t F -> Forall2 (set_or_empty t) sets Xs -> result_is a R -> small (⋃ Xs ∪ R) ->
  exists a' t', union_loop sets a (at_st t) = Some (a', at_st t') /\ sims E F t t' /\ result_is a' (⋃ Xs ∪ R).
Proof.
  induction sets as [|[o|] sets IH]; intros Xs t a R Hok Hsets Ha Hsm; cbn [union_loop].
  - apply Forall2_nil_inv_l in Hsets. subst Xs. exists a, t. split; [done|]. split; [by apply sims_refl|]. cbn [union_list foldr]. by rewrite union_empty_l_L.
  - apply Forall2_cons_inv_l in Hsets as (X & Xs' & HX & Hsets & ->). rewrite union_list_cons in *.
    destruct (add_elements t o X a R Hok HX Ha) as (a1 & t1 & E1 & Hs1 & Ha1); [eapply small_sub; [|exact Hsm]; set_solver|].
    rewrite (bind_run _ _ _ _ _ E1). assert (X ∪ ⋃ Xs' ∪ R = ⋃ Xs' ∪ (X ∪ R)) as HeqU by set_solver. rewrite HeqU in Hsm |- *.
    destruct (IH Xs' t1 a1 (X ∪ R)) as (a2 & t2 & E2 & Hs2 & Ha2); [apply Hs1|by eapply sims_sets|done|done|].
    exists a2, t2. split; [done|]. split; [by eapply sims_trans|done].
  - apply Forall2_cons_inv_l in Hsets as (X & Xs' & HX & Hsets & ->). cbn [set_or_empty] in HX. subst X. rewrite union_list_cons, union_empty_l_L in *.
    by apply IH.
Qed.

Lemma in_none_run first X0 ele sets : ele ∈ X0 -> forall Xs t, store_ok t F -> holds_set E t first X0 -> Forall2 (set_or_empty t) sets Xs ->
  exists t', in_none first sets ele (at_st t) = Some (bool_decide (ele ∉ ⋃ Xs), at_st t') /\ sims E F t t' /\ obj_at t' first = obj_at t first.
Proof.
  intros He. induction sets as [|[o|] sets IH]; intros Xs t Hok H0 Hsets; cbn [in_none].
  - apply Forall2_nil_inv_l in Hsets. subst Xs. exists t. rewrite bool_decide_eq_true_2 by (cbn; apply not_elem_of_empty). split; [done|]. split; [by apply sims_refl|done].
  - apply Forall2_cons_inv_l in Hsets as (X & Xs' & HX & Hsets & ->). rewrite union_list_cons. case_bool_decide as Heq.
    { subst o. assert (X = X0) as -> by (destruct HX as (r & Hr & HX), H0 as (r' & Hr' & HX'); assert (r' = r) as -> by congruence; by eapply set_rep_det).
      exists t. rewrite bool_decide_eq_false_2 by set_solver. split; [done|]. split; [by apply sims_refl|done]. }
    destruct (is_member_run t o ele X Hok HX) as (t1 & Em & Hs1 & Ho1). rewrite (bind_run _ _ _ _ _ Em). case_bool_decide as Hin.
    { exists t1. rewrite bool_decide_eq_false_2 by set_solver. split; [done|]. split; [done|]. apply Ho1. done. }
    destruct (IH Xs' t1) as (t2 & E2 & Hs2 & Ho2); [apply Hs1|by eapply sims_holds|by eapply sims_sets|].
    exists t2. rewrite E2. split; [|split; [by eapply sims_trans|rewrite Ho2; by apply Ho1]]. do 2 f_equal. apply bool_decide_ext. set_solver.
  - apply Forall2_cons_inv_l in Hsets as (X & Xs' & HX & Hsets & ->). cbn [set_or_empty] in HX. subst X. rewrite union_list_cons, union_empty_l_L.
    by apply IH.
Qed.

Lemma diff1_run first X sets Xs t a : store_ok t F -> holds_set E t first X -> Forall2 (set_or_empty t) sets Xs -> small X -> result_is a ∅ ->
  exists a' t', for_elements first (diff1_body first sets) a (at_st t) = Some (a', at_st t') /\ sims E F t t' /\ result_is a' (X ∖ ⋃ Xs).
Proof.
  intros Hok HX Hsets Hsm Ha. destruct HX as (r & Hr & HX).
  destruct (for_elements_run (diff1_body first sets) (fun D a => result_is a (D ∖ ⋃ Xs)) t first r X HX) with (a := a) (t := t) as (a' & t' & El & Hs & _ & Ha').
  - apply Hsm.
  - intros ele D b t1 Hele Hnot HD (HR & Hc & Hn) Hs1 Ho1.
    destruct (in_none_run first X ele sets Hele Xs t1) as (t2 & En & Hs2 & Ho2); [apply Hs1|by exists r|by eapply sims_sets|].
    unfold diff1_body. rewrite (bind_run _ _ _ _ _ En). case_bool_decide as Hin.
    + assert (({[ele]} ∪ D) ∖ ⋃ Xs = {[ele]} ∪ D ∖ ⋃ Xs) as -> by set_solver.
      assert (small ({[ele]} ∪ D ∖ ⋃ Xs)) as Hsm' by (eapply small_sub; [|exact Hsm]; set_solver).
      destruct (add_result_run t2 b.1 (D ∖ ⋃ Xs) ele HR Hc Hsm') as (r' & Ea & HR' & Hc'). rewrite (bind_run _ _ _ _ _ Ea). cbv beta iota.
      pose proof (size_insert ele (D ∖ ⋃ Xs)) as Hsz. rewrite bool_decide_eq_true_2 in Hsz by set_solver. destruct Hsm' as [Hb _].
      rewrite (bind_run _ _ _ _ _ (int_arith_run (b.2 + 1) (at_st t2) ltac:(lia))). eexists _, t2. split; [reflexivity|]. split; [done|]. split; [congruence|].
      split_and!; [done|done|cbn [snd]; lia].
    + exists b, t2. split; [done|]. split; [done|]. split; [congruence|]. by assert (({[ele]} ∪ D) ∖ ⋃ Xs = D ∖ ⋃ Xs) as -> by set_solver.
  - by assert (∅ ∖ ⋃ Xs = ∅) as -> by set_solver.
  - by apply sims_refl.
  - done.
  - by exists a', t'.
Qed.

Lemma remove_elements t o X a R : store_ok t F -> holds_set E t o X -> writable X -> result_is a R -> Z.of_nat (size R) < 2 ^ 31 ->
  exists a' t', for_elements o remove_count a (at_st t) = Some (a', at_st t') /\ sims E F t t' /\ result_is a' (R ∖ X).
Proof.
  intros Hok (r & Hr & HX) Hw Ha Hb.
  destruct (for_elements_run remove_count (fun D a => result_is a (R ∖ D)) t o r X HX) with (a := a) (t := t) as (a' & t' & El & Hs & _ & Ha').
  - done.
  - intros ele D b t1 Hele Hnot HD Hbr Hs1 Ho1. destruct (remove_count_run t1 b (R ∖ D) ele Hbr) as (b' & Eb & Hb').
    { assert (size (R ∖ D) <= size R)%nat by (apply subseteq_size; set_solver). lia. }
    exists b', t1. split; [done|]. split; [apply sims_refl, Hs1|]. split; [done|]. by assert (R ∖ ({[ele]} ∪ D) = R ∖ D ∖ {[ele]}) as -> by set_solver.
  - by rewrite difference_empty_L.
  - by apply sims_refl.
  - done.
  - by exists a', t'.
Qed.

Lemma diff2_loop_run sets : forall Xs t a R, store_ok t F -> Forall2 (set_or_empty t) sets Xs -> writable (⋃ Xs) -> result_is a R ->
  Z.of_nat (size R) < 2 ^ 31 ->
  exists a' t', diff2_loop sets a (at_st t) = Some (a', at_st t') /\ sims E F t t' /\ result_is a' (R ∖ ⋃ Xs).
Proof.
  induction sets as [|[o|] sets IH]; intros Xs t a R Hok Hsets Hw Ha Hb; cbn [diff2_loop].
  - apply Forall2_nil_inv_l in Hsets. subst Xs. exists a, t. split; [done|]. split; [by apply sims_refl|]. cbn [union_list foldr]. by rewrite difference_empty_L.
  - apply Forall2_cons_inv_l in Hsets as (X & Xs' & HX & Hsets & ->). rewrite union_list_cons in *.
    destruct (remove_elements t o X a R Hok HX) as (a1 & t1 & E1 & Hs1 & Ha1); [set_solver|done|done|].
    rewrite (bind_run _ _ _ _ _ E1). destruct (Z.eqb_spec a1.2 0) as [Hz|Hz].
    + exists a1, t1. split; [done|]. split; [done|]. destruct Ha1 as (A1 & A2 & A3). rewrite Hz in A3.
      assert (R ∖ X = ∅) as He by (apply leibniz_equiv, size_empty_inv; lia). rewrite He in *.
      assert (R ∖ (X ∪ ⋃ Xs') = ∅) as -> by set_solver. split_and!; [done|done|]. rewrite Hz, size_empty. done.
    + destruct (IH Xs' t1 a1 (R ∖ X)) as (a2 & t2 & E2 & Hs2 & Ha2); [apply Hs1|by eapply sims_sets|set_solver|done| |].
      { assert (size (R ∖ X) <= size R)%nat by (apply subseteq_size; set_solver). lia. }
      exists a2, t2. split; [done|]. split; [by eapply sims_trans|]. by assert (R ∖ (X ∪ ⋃ Xs') = R ∖ X ∖ ⋃ Xs') as -> by set_solver.
  - apply Forall2_cons_inv_l in Hsets as (X & Xs' & HX & Hsets & ->). cbn [set_or_empty] in HX. subst X. rewrite union_list_cons, union_empty_l_L in *.
    by apply IH.
Qed.

Lemma sizes_of_run sets : forall Xs t, Forall2 (set_or_empty t) sets Xs ->
  exists l, sizes_of sets (at_st t) = Some (l, at_st t) /\ l.*2 = sets /\ Forall2 (fun p X => p.1 = Z.of_nat (size X)) l Xs.
Proof.
  induction sets as [|o sets IH]; intros Xs t Hsets; cbn [sizes_of].
  { apply Forall2_nil_inv_l in Hsets. subst Xs. exists []. done. }
  apply Forall2_cons_inv_l in Hsets as (X & Xs' & HX & Hsets & ->). destruct (IH Xs' t Hsets) as (l & El & Hl & Hs).
  exists ((Z.of_nat (size X), o) :: l). split; [|split; [cbn; by rewrite Hl|by constructor]]. destruct o as [o|].
  - rewrite (bind_run _ _ _ _ _ (size_of_run t o X HX)), (bind_run _ _ _ _ _ El). done.
  - cbn [set_or_empty] in HX. subst X. rewrite (bind_run _ _ _ _ _ (ret_run 0 (at_st t))), (bind_run _ _ _ _ _ El). by rewrite size_empty.
Qed.

Lemma diff_work_run n0 l st : forall a b, 0 <= n0 < 2 ^ 29 -> Forall (fun p : Z * option oid => 0 <= p.1 < 2 ^ 29) l ->
  0 <= a -> 0 <= b -> a + zlen l * 2 ^ 29 < 2 ^ 63 -> b + zlen l * 2 ^ 29 < 2 ^ 63 ->
  exists w, diff_work n0 l a b st = Some (w, st).
Proof.
  induction l as [|[n [o|]] l IH]; intros a b Hn Hl Ha Hb Ha' Hb'; cbn [diff_work]; [by eexists| |].
  all: apply Forall_cons in Hl as [Hn' Hl]; cbn [fst] in Hn'; rewrite zlen_cons in *; pose proof (zlen_nonneg l).
  - rewrite (bind_run _ _ _ _ _ (ll_arith_run (a + n0) st ltac:(unfold LLONG_MIN, LLONG_MAX; lia))).
    rewrite (bind_run _ _ _ _ _ (ll_arith_run (b + n) st ltac:(unfold LLONG_MIN, LLONG_MAX; lia))). apply IH; try done; lia.
  - apply IH; try done; lia.
Qed.

Lemma choose_algo_run first X rest Xs t : holds_set E t first X -> Forall2 (set_or_empty t) rest Xs -> small (X ∪ ⋃ Xs) -> zlen rest < 2 ^ 31 ->
  exists algo rest', choose_algo first rest (at_st t) = Some ((algo, rest'), at_st t) /\ rest' ≡ₚ rest.
Proof.
  intros HX Hsets [Hb _] Hlen. unfold choose_algo. rewrite (bind_run _ _ _ _ _ (size_of_run t first X HX)).
  destruct (sizes_of_run rest Xs t Hsets) as (l & El & Hl & Hs). rewrite (bind_run _ _ _ _ _ El).
  assert (Forall (fun p : Z * option oid => 0 <= p.1 < 2 ^ 29) l) as Hbl.
  { apply Forall_forall. intros p Hp. apply list_elem_of_lookup_1 in Hp as [i Hi]. destruct (Forall2_lookup_l _ _ _ _ _ Hs Hi) as (Y & HY & ->).
    assert (size Y <= size (X ∪ ⋃ Xs))%nat; [|lia]. apply subseteq_size. intros x Hx. apply elem_of_union_r, elem_of_union_list. exists Y.
    split; [by eapply list_elem_of_lookup_2|done]. }
  assert (size X <= size (X ∪ ⋃ Xs))%nat as HsX by (apply subseteq_size; set_solver).
  assert (zlen l = zlen rest) as Hll by (rewrite <- Hl; unfold zlen; by rewrite length_fmap).
  destruct (diff_work_run (Z.of_nat (size X)) ((Z.of_nat (size X), Some first) :: l) (at_st t) 0 0) as ([w1 w2] & Ew).
  - lia.
  - constructor; [cbn [fst]; lia|done].
  - lia.
  - lia.
  - rewrite zlen_cons. lia.
  - rewrite zlen_cons. lia.
  - rewrite (bind_run _ _ _ _ _ Ew). cbv beta iota zeta. rewrite (bind_run _ _ _ _ _ (get_run _)). eexists _, _. split; [reflexivity|]. destruct (_ =? 1); [|done].
    rewrite <- Hl. unfold qsort. by rewrite merge_sort_Permutation.
Qed.

(** The set that an operation computes. *)
Definition op_result (op : set_op) (Xs : list (gset sds)) : gset sds :=
  match op, Xs with
  | SET_OP_UNION, _ => ⋃ Xs
  | SET_OP_DIFF, X :: Xs => X ∖ ⋃ Xs
  | SET_OP_DIFF, [] => ∅
  end.

Lemma diff_run first X rest Xs t a : store_ok t F -> holds_set E t first X -> Forall2 (set_or_empty t) rest Xs ->
  small (X ∪ ⋃ Xs) -> zlen rest < 2 ^ 31 -> result_is a ∅ ->
  exists a' t', set_operation SET_OP_DIFF (Some first :: rest) a (at_st t) = Some (a', at_st t') /\ sims E F t t' /\ result_is a' (X ∖ ⋃ Xs).
Proof.
  intros Hok HX Hsets Hsm Hlen Ha. cbn [set_operation]. pose proof (small_sub X (X ∪ ⋃ Xs) ltac:(set_solver) Hsm) as HsX.
  destruct (choose_algo_run first X rest Xs t HX Hsets Hsm Hlen) as (algo & rest' & Ec & Hperm). rewrite (bind_run _ _ _ _ _ Ec). cbv beta iota.
  destruct (Permutation_Forall2 (symmetry Hperm) Hsets) as (Xs' & HpX & Hsets').
  assert (⋃ Xs' = ⋃ Xs) as HU by (by apply union_list_permutation_proper_L). rewrite <- HU. rewrite <- HU in Hsm. destruct (algo =? 1).
  { by apply diff1_run. }
  destruct (add_elements t first X a ∅ Hok HX Ha) as (a1 & t1 & E1 & Hs1 & Ha1); [by rewrite union_empty_r_L|]. rewrite union_empty_r_L in Ha1.
  rewrite (bind_run _ _ _ _ _ E1). destruct (Z.eqb_spec a1.2 0) as [Hz|Hz].
  - exists a1, t1. split; [done|]. split; [done|]. destruct Ha1 as (A1 & A2 & A3). rewrite Hz in A3.
    assert (X = ∅) as -> by (apply leibniz_equiv, size_empty_inv; lia).
    assert (∅ ∖ ⋃ Xs' = ∅) as -> by set_solver. split_and!; [done|done|]. rewrite Hz, size_empty. done.
  - destruct (diff2_loop_run rest' Xs' t1 a1 X) as (a2 & t2 & E2 & Hs2 & Ha2); [apply Hs1|by eapply sims_sets|destruct Hsm; set_solver|done|destruct HsX; lia|].
    exists a2, t2. split; [done|]. split; [by eapply sims_trans|done].
Qed.

Lemma set_operation_run op sets Xs t a : store_ok t F -> Forall2 (set_or_empty t) sets Xs -> small (⋃ Xs) -> zlen sets < 2 ^ 31 -> result_is a ∅ ->
  exists a' t', set_operation op sets a (at_st t) = Some (a', at_st t') /\ sims E F t t' /\ result_is a' (op_result op Xs).
Proof.
  intros Hok Hsets Hsm Hlen Ha. destruct op; cbn [op_result].
  - destruct (union_loop_run sets Xs t a ∅ Hok Hsets Ha) as (a' & t' & E1 & Hs & Ha'); [by rewrite union_empty_r_L|].
    rewrite union_empty_r_L in Ha'. by exists a', t'.
  - destruct Hsets as [|[first|] X sets Xs HX Hsets].
    + exists a, t. split; [done|]. split; [by apply sims_refl|done].
    + rewrite zlen_cons in Hlen. apply diff_run; try done. lia.
    + cbn [set_or_empty] in HX. subst X. exists a, t. split; [done|]. split; [by apply sims_refl|]. by assert (∅ ∖ ⋃ Xs = ∅) as -> by set_solver.
Qed.
End heap.

(** ** Intersection *)

(** The intersection of the sets of a list that is not empty. *)
Definition inter_result (Xs : list (gset sds)) : gset sds :=
  match Xs with [] => ∅ | X :: Xs => foldr (∩) X Xs end.

Lemma elem_of_inter_result x X Xs : x ∈ inter_result (X :: Xs) <-> Forall (fun Y => x ∈ Y) (X :: Xs).
Proof.
  cbn [inter_result]. induction Xs as [|Y Xs IH]; cbn [foldr].
  - rewrite Forall_singleton. done.
  - rewrite elem_of_intersection, IH, !Forall_cons. naive_solver.
Qed.

Lemma inter_result_perm Xs Ys : Xs ≡ₚ Ys -> inter_result Xs = inter_result Ys.
Proof.
  intros Hp. destruct Xs as [|X Xs], Ys as [|Y Ys]; [done|by apply Permutation_nil_cons in Hp|symmetry in Hp; by apply Permutation_nil_cons in Hp|].
  apply set_eq. intros x. rewrite !elem_of_inter_result. by rewrite Hp.
Qed.

Section inter.
Variables (s : server) (F : list oid).
Abbreviation E := (data_env (conf s)).

Definition ele_fits (e : set_element) : Prop := ele_ok e /\ ele_sds e <> sdec LLONG_MIN.

(** An integer is looked up in an integer set. *)
Lemma intset_member r X v : set_rep E r X -> encoding r = OBJ_ENCODING_INTSET -> in_s 64 v ->
  exists is_, as_intset r = Some is_ /\ @intsetFind (env_host E) is_ v = Some (bool_decide (sdec v ∈ X)).
Proof.
  intros HX He Hv. destruct (set_rep_shape _ _ _ HX) as [is_ w xs Er R ->|d Er _ _]; [|by rewrite Er in He].
  exists is_. split; [by rewrite Er|]. rewrite (intsetFind_rep _ _ _ _ R Hv). f_equal. apply bool_decide_ext.
  rewrite elem_of_list_to_set. split; [apply list_elem_of_fmap_2|]. intros (y & Hy & Hin)%list_elem_of_fmap.
  apply sdec_inj in Hy; [by subst|done|]. by apply (xs_range E _ _ _ _ R).
Qed.

(** An element is looked up in a set. *)
Lemma has_element_run t o X e : store_ok t F -> holds_set E t o X -> ele_fits e ->
  exists t', has_element o e (with_st t s) = Some (bool_decide (ele_sds e ∈ X), with_st t' s) /\ sims E F t t' /\ forall o', o' <> o -> obj_at t' o' = obj_at t o'.
Proof.
  intros Hok HX [He Hmin]. unfold has_element. destruct e as [x|v]; cbn [ele_sds ele_ok] in *; [by apply is_member_run|].
  pose proof HX as (r & Hr & HX'). rewrite (bind_run _ _ _ _ _ (get_run _)), (bind_run _ _ _ _ _ (obj_run_at (with_st t s) o r Hr)).
  destruct (set_rep_shape _ _ _ HX') as [is_ w xs Er _ _|d Er _ _].
  - assert (encoding r = OBJ_ENCODING_INTSET) as He' by (by rewrite Er). destruct (intset_member r X v HX' He' He) as (is' & Ei & Hf).
    rewrite He', Ei. cbn [conf with_st upd_st]. rewrite (bind_run _ _ _ _ _ (lift_run _ _ _ eq_refl)), Hf. exists t. split; [done|]. split; [by apply sims_refl|done].
  - assert (encoding r = OBJ_ENCODING_HT) as -> by (by rewrite Er). rewrite sdsfromlonglong_correct by (done || by intros ->). rewrite (bind_run _ _ _ _ _ (lift_run _ _ _ eq_refl)).
    by apply is_member_run.
Qed.

Lemma in_all_run first X0 e sets : ele_fits e -> ele_sds e ∈ X0 -> forall Xs t, store_ok t F -> holds_set E t first X0 -> Forall2 (holds_set E t) sets Xs ->
  exists t', in_all first sets e (with_st t s) = Some (bool_decide (Forall (fun X => ele_sds e ∈ X) Xs), with_st t' s) /\ sims E F t t' /\ obj_at t' first = obj_at t first.
Proof.
  intros He H0. induction sets as [|o sets IH]; intros Xs t Hok HX0 Hsets; cbn [in_all].
  - apply Forall2_nil_inv_l in Hsets. subst Xs. exists t. rewrite bool_decide_eq_true_2 by done. split; [done|]. split; [by apply sims_refl|done].
  - apply Forall2_cons_inv_l in Hsets as (X & Xs' & HX & Hsets & ->).
    assert (forall b, bool_decide (ele_sds e ∈ X) = b -> bool_decide (Forall (fun X => ele_sds e ∈ X) (X :: Xs')) =
      b && bool_decide (Forall (fun X => ele_sds e ∈ X) Xs')) as Hb.
    { intros b <-. rewrite <- bool_decide_and. apply bool_decide_ext. by rewrite Forall_cons. }
    destruct (decide (o = first)) as [->|Hne]; [rewrite bool_decide_eq_true_2 by done|rewrite (bool_decide_eq_false_2 (o = first)) by done].
    { assert (X = X0) as -> by (destruct HX as (r & Hr & HX), HX0 as (r' & Hr' & HX'); assert (r' = r) as -> by congruence; by eapply set_rep_det).
      rewrite (Hb true) by by apply bool_decide_eq_true_2. by apply IH. }
    destruct (has_element_run t o X e Hok HX He) as (t1 & Em & Hs1 & Ho1). rewrite (bind_run _ _ _ _ _ Em).
    destruct (bool_decide (ele_sds e ∈ X)) eqn:Hin; rewrite (Hb _ eq_refl); cbn [andb].
    + destruct (IH Xs' t1) as (t2 & E2 & Hs2 & Ho2); [apply Hs1|by eapply sims_holds|eapply Forall2_impl; [exact Hsets|]; intros; by eapply sims_holds|].
      exists t2. rewrite E2. split; [done|]. split; [by eapply sims_trans|]. rewrite Ho2. apply Ho1. done.
    + exists t1. split; [done|]. split; [done|]. apply Ho1. done.
Qed.

End inter.

Section take.
Variables (s : server) (F : list oid) (c : Z).
Abbreviation E := (data_env (conf s)).
(** The states of the loop: the replies [rs] were sent. *)
Abbreviation sent rs t := (with_st t (upd_clients (alter (says rs) c) s)).

(** What was taken so far: the elements [out] were sent, or added to the result. *)
Inductive taken : option robj -> Z -> list reply -> list sds -> Prop :=
| taken_sent out : taken None (zlen out) (RBulk <$> out) out
| taken_added r out : set_rep E r (list_to_set out) -> refcount r = 1 -> taken (Some r) 0 [] out.

Lemma take_element_run e d n rs out t : taken d n rs out -> ele_fits e -> small (list_to_set (out ++ [ele_sds e])) -> zlen out + 1 < 2 ^ 64 ->
  exists d' n' rs', take_element c e d n (sent rs t) = Some ((d', n'), sent rs' t) /\ taken d' n' rs' (out ++ [ele_sds e]) /\ (is_Some d' <-> is_Some d).
Proof.
  intros [out'|r out' Hr Hc] [He Hmin] Hsm Hlen; cbn [take_element].
  - assert (forall st0, (match e with EleSds elesds => addReplyBulkCBuffer c elesds | EleInt intobj => addReplyBulkLongLong c intobj end) st0
      = Some (tt, upd_clients (alter (says [RBulk (ele_sds e)]) c) st0)) as Hrun.
    { intros st0. destruct e as [x|v]; [done|]. by apply (reply_hval_spec st0 c (HInt v) (sdec v)). }
    rewrite (bind_run _ _ _ _ _ (Hrun _)). pose proof (zlen_nonneg out'). rewrite wrapu_small by (unfold in_u; lia).
    replace (zlen out' + 1) with (zlen (out' ++ [ele_sds e])) by zl. eexists _, _, (RBulk <$> (out' ++ [ele_sds e])). split; [|split; [constructor|done]].
    rewrite fmap_app, <- says_says. reflexivity.
  - assert (forall st0, (match e with EleSds elesds => mret elesds | EleInt intobj => lift (sdsfromlonglong intobj) end : M sds) st0 = Some (ele_sds e, st0)) as Hrun.
    { intros st0. destruct e as [x|v]; [done|]. cbn [ele_sds ele_ok] in *. rewrite sdsfromlonglong_correct by (done || by intros ->). by apply lift_run. }
    rewrite (bind_run _ _ _ _ _ (Hrun _)).
    assert (list_to_set (out' ++ [ele_sds e]) = {[ele_sds e]} ∪ (list_to_set out' : gset sds)) as HeqU by (rewrite list_to_set_app_L; cbn; set_solver).
    rewrite HeqU in Hsm. destruct (add_result_run (upd_clients (alter (says []) c) s) t r (list_to_set out') (ele_sds e) Hr Hc Hsm) as (r' & Ea & Hr' & Hc').
    rewrite (bind_run _ _ _ _ _ Ea). cbv beta iota. eexists _, _, []. split; [reflexivity|]. split; [|split; by eexists]. constructor; [by rewrite HeqU|done].
Qed.

(** The loop takes the elements that are in all the other sets. *)
Lemma sinter_loop_run first r X0 sets Xs rem : set_rep E r X0 -> forall fuel si d n rs out t,
  set_iter E r si rem -> Forall ele_fits rem -> Forall (fun e => ele_sds e ∈ X0) rem -> (length rem < fuel)%nat ->
  store_ok t F -> obj_at t first = Some r -> Forall2 (holds_set E t) sets Xs -> taken d n rs out ->
  let out' := (out ++ filter (fun x => Forall (fun X => x ∈ X) Xs) (ele_sds <$> rem))%list in
  small (list_to_set out') -> zlen out' < 2 ^ 64 ->
  exists si' d' n' rs' t', sinter_loop fuel c first sets si d n (sent rs t) = Some ((si', d', n'), sent rs' t') /\ sims E F t t' /\
    obj_at t' first = Some r /\ setTypeReleaseIterator E r si' = Some r /\ taken d' n' rs' out' /\ (is_Some d' <-> is_Some d).
Proof.
  intros HX0. induction rem as [|e rem IH]; intros [|fuel] si d n rs out t Hi Hfit Hin Hf Hok Hr Hsets Hd; cbn [length] in Hf; try lia; intros out' Hsm Hlen;
    cbn [sinter_loop]; subst out'.
  all: destruct (set_obj_data s r X0 HX0) as [dd Hdd]; destruct (setTypeNext_rep E r si _ Hi) as (si' & En & Hnext).
  all: unfold next_of; rewrite (bind_run _ _ _ _ _ (on_obj_same (sent rs t) first r
    (fun E r => '(r, si, e) ← setTypeNext E r si; Some (r, (si, e))) (si', _) dd Hr Hdd ltac:(cbn [conf with_st upd_st upd_clients]; rewrite En; reflexivity))); cbv beta iota; cbn [head].
  - exists si', d, n, rs, t. cbn [fmap list_fmap filter list_filter]. rewrite app_nil_r. split; [done|]. split; [by apply sims_refl|]. done.
  - apply Forall_cons in Hfit as [He Hfit]. apply Forall_cons in Hin as [He0 Hin].
    destruct (in_all_run (upd_clients (alter (says rs) c) s) F first X0 e sets He He0 Xs t Hok ltac:(by exists r) Hsets) as (t1 & Ea & Hs1 & Ho1).
    rewrite (bind_run _ _ _ _ _ Ea). rewrite Hr in Ho1.
    assert (Forall2 (holds_set E t1) sets Xs) as Hsets1 by (eapply Forall2_impl; [exact Hsets|]; intros; by eapply sims_holds).
    cbn [fmap list_fmap] in *. rewrite filter_cons in *. case_bool_decide as Hall.
    + rewrite decide_True in * by done. rewrite cons_middle, app_assoc in *.
      destruct (take_element_run e d n rs out t1 Hd He) as (d1 & n1 & rs1 & Et & Hd1 & Hm1).
      { eapply small_sub; [|exact Hsm]. rewrite list_to_set_app_L. set_solver. }
      { rewrite !zlen_app, zlen_cons in Hlen. pose proof (zlen_nonneg (filter (fun x => Forall (fun X => x ∈ X) Xs) (ele_sds <$> rem))). change (zlen []) with 0 in Hlen. lia. }
      rewrite (bind_run _ _ _ _ _ Et). cbv beta iota.
      destruct (IH fuel si' d1 n1 rs1 (out ++ [ele_sds e])%list t1 Hnext Hfit Hin ltac:(lia) (si_ok _ _ _ _ Hs1) Ho1 Hsets1 Hd1 Hsm Hlen)
        as (si2 & d2 & n2 & rs2 & t2 & E2 & Hs2 & Hr2 & Hrel & Hd2 & Hm2).
      exists si2, d2, n2, rs2, t2. split; [done|]. split; [by eapply sims_trans|]. split; [done|]. split; [done|]. split; [done|]. by rewrite Hm2.
    + rewrite decide_False in * by done. rewrite (bind_run _ _ _ _ _ (ret_run (d, n) _)). cbv beta iota.
      destruct (IH fuel si' d n rs out t1 Hnext Hfit Hin ltac:(lia) (si_ok _ _ _ _ Hs1) Ho1 Hsets1 Hd Hsm Hlen)
        as (si2 & d2 & n2 & rs2 & t2 & E2 & Hs2 & Hr2 & Hrel & Hd2 & Hm2).
      exists si2, d2, n2, rs2, t2. split; [done|]. split; [by eapply sims_trans|]. done.
Qed.

Lemma inter_elements_run os Xs t d : Xs <> [] -> Forall2 (holds_set E t) os Xs -> Forall small Xs -> store_ok t F -> taken d 0 [] [] ->
  exists d' n' rs' out t', inter_elements c os d (with_st t s) = Some ((d', n'), sent rs' t') /\ sims E F t t' /\
    taken d' n' rs' out /\ (is_Some d' <-> is_Some d) /\ NoDup out /\ list_to_set out = inter_result Xs.
Proof.
  intros Hne Hos Hsm Hok Hd. destruct Hos as [|first X0 os Xs (r & Hr & HX0) Hos]; [done|]. apply Forall_cons in Hsm as [[Hb Hw] _].
  destruct (setTypeInitIterator_rep E r X0 HX0) as (si & l & Ei & Hi & Hn & HX & Hele).
  assert (size X0 = length l) as Hsz by (by rewrite HX, size_list_to_set, length_fmap).
  unfold inter_elements. cbn [head tail]. rewrite (bind_run _ _ _ _ _ (lift_run _ _ _ eq_refl)), (bind_run _ _ _ _ _ (size_of_run s t first X0 ltac:(by exists r))).
  unfold init_iterator. rewrite bind_assoc_run, (bind_run _ _ _ _ _ (obj_run_at (with_st t s) first r Hr)), (bind_run _ _ _ _ _ (lift_run _ _ _ Ei)).
  set (out := filter (fun x => Forall (fun X => x ∈ X) Xs) (ele_sds <$> l)).
  assert (list_to_set out = inter_result (X0 :: Xs)) as Hout.
  { apply set_eq. intros x. rewrite elem_of_inter_result, elem_of_list_to_set, Forall_cons. unfold out. rewrite list_elem_of_filter, HX, elem_of_list_to_set. naive_solver. }
  assert (NoDup out) as Hnd by by apply NoDup_filter. assert (list_to_set out ⊆ X0) as Hsub by (rewrite Hout; intros x; rewrite elem_of_inter_result, Forall_cons; naive_solver).
  destruct (sinter_loop_run first r X0 os Xs l HX0 (S (Z.to_nat (Z.of_nat (size X0)))) si d 0 [] [] t) as (si' & d' & n' & rs' & t' & El & Hs & Hr' & Hrel & Hd' & Hm); try done.
  - apply Forall_forall. intros e He. split; [by eapply Forall_forall|]. intros Heq. apply Hw. rewrite HX, <- Heq. by apply elem_of_list_to_set, list_elem_of_fmap_2.
  - apply Forall_forall. intros e He. rewrite HX. by apply elem_of_list_to_set, list_elem_of_fmap_2.
  - lia.
  - by apply (small_sub _ X0).
  - apply subseteq_size in Hsub. rewrite size_list_to_set in Hsub by done. cbn [app]. unfold zlen. fold out. lia.
  - exists d', n', rs', out, t'. split; [|done]. assert (sent [] t = with_st t s) as Hst by (destruct s; unfold upd_clients; cbn; by rewrite says_nil).
    rewrite Hst in El. rewrite (bind_run _ _ _ _ _ El). cbv beta iota. unfold release_iterator. destruct (set_obj_data s r X0 HX0) as [dd Hdd].
    rewrite (bind_run _ _ _ _ _ (on_obj_same (sent rs' t') first r (fun E r => r ← setTypeReleaseIterator E r si'; Some (r, tt)) tt dd Hr' Hdd
      ltac:(cbn [conf with_st upd_st upd_clients]; rewrite Hrel; reflexivity))). done.
Qed.
End take.
