(* ===== verification/TSetOpCmdSpec.v ===== *)
(** * The commands of the set algebra

    SINTER, SUNION, SDIFF and their STORE forms compute the intersection, the union and the difference of the sets that
    the keys hold. The lookups of the keys come first, and may delete the ones that have expired ([looked]); then the
    operation of TSetOpSpec.v is run, and its result is sent or stored ([set_outcome]). *)

From stdpp Require Import sorting.
From S2P Require Import Prelude Endian Util Intset Sds SdsNum Dict DictIter DictMap Data State Object Server Db DbSpec Outcome InPlace SampleState KeySpec TSet TSetSpec THash THashCmdSpec TSetOp TSetOpSpec.

(** ** Looking up several keys *)

(** The key was looked up and had expired. *)
Definition gone (s : server) (ks : list (Z * sds)) (k : Z * sds) : bool := bool_decide (k ∈ ks) && removes s k.

(** The state after the lookup of the keys [ks]. *)
Record looked (s : server) (ks : list (Z * sds)) (F : list oid) (s1 : server) : Prop := {
  lk_ok : store_ok (st s1) F;
  lk_quiet : quiet s s1;
  lk_dict : forall k, dict (st s1) !! k = if gone s ks k then None else dict (st s) !! k;
  lk_expires : forall k, expires (st s1) !! k = if gone s ks k then None else expires (st s) !! k;
  lk_kept : kept (refs (st s1) F) (st s) (st s1)
}.

Lemma looked_nil s F : store_ok (st s) F -> looked s [] F s.
Proof. intros Hok. split; try done. by apply kept_refl. Qed.

Section lookups.
Variables (s : server) (F : list oid) (ks : list (Z * sds)) (s1 : server).
Hypothesis Hl : looked s ks F s1.

Lemma looked_expired k : steady s [k] -> expired s1 k = if gone s ks k then false else expired s k.
Proof.
  intros Hst. destruct (lk_quiet _ _ _ _ Hl) as (Hc & _). pose proof (lk_expires _ _ _ _ Hl k) as Hx. destruct (gone s ks k) eqn:Hg.
  - unfold expired. by rewrite Hx.
  - rewrite (expired_dep s s1 k Hc Hx). apply Hst. set_solver.
Qed.

Lemma looked_removes k : steady s [k] -> removes s1 k = if gone s ks k then false else removes s k.
Proof.
  intros Hst. destruct (lk_quiet _ _ _ _ Hl) as (Hc & _). unfold removes. rewrite (looked_expired k Hst), Hc. by destruct (gone s ks k).
Qed.

Lemma looked_view k : view (st s1) k = if gone s ks k then None else view (st s) k.
Proof.
  pose proof (lk_dict _ _ _ _ Hl k) as Hd. unfold view. rewrite Hd. destruct (gone s ks k); [done|].
  destruct (dict (st s) !! k) as [o|] eqn:Hk; [|done]. cbn. eapply kept_val; [apply Hl|]. by eapply refs_dict.
Qed.

Lemma looked_alive k : steady s [k] -> alive s1 k = alive s k.
Proof.
  intros Hst. unfold alive. rewrite (looked_removes k Hst), looked_view. destruct (gone s ks k) eqn:Hg; [|done].
  unfold gone in Hg. apply andb_true_iff in Hg as [_ ->]. done.
Qed.

Lemma looked_visible k : steady s [k] -> visible s1 k = visible s k.
Proof.
  intros Hst. destruct (lk_quiet _ _ _ _ Hl) as (Hc & _ & _ & _ & Hcu). unfold visible, hidden. rewrite (looked_expired k Hst), looked_view, Hc, Hcu.
  destruct (gone s ks k) eqn:Hg; [|done]. unfold gone, removes in Hg. apply andb_true_iff in Hg as [_ [-> ->]%andb_true_iff]. done.
Qed.

Lemma looked_snoc k s2 : steady s [k] -> expire_step k F s1 s2 -> looked s (ks ++ [k]) F s2.
Proof.
  intros Hst Hes. pose proof (looked_removes k Hst) as Hr.
  assert (forall A (m1 m0 : gmap (Z * sds) A) m2, (forall k', m1 !! k' = if gone s ks k' then None else m0 !! k') ->
    m2 = (if removes s1 k then delete k m1 else m1) -> forall k', m2 !! k' = if gone s (ks ++ [k]) k' then None else m0 !! k') as Hmap.
  { intros A m1 m0 m2 H1 -> k'. unfold gone in *. destruct (decide (k' = k)) as [->|Hne].
    - rewrite (bool_decide_eq_true_2 (k ∈ ks ++ [k])) by set_solver. cbn [andb]. rewrite Hr.
      specialize (H1 k). destruct (bool_decide (k ∈ ks)), (removes s k); cbn [andb] in *; rewrite ?lookup_delete_eq; done.
    - assert (bool_decide (k' ∈ ks ++ [k]) = bool_decide (k' ∈ ks)) as -> by (apply bool_decide_ext; set_solver).
      destruct (removes s1 k); [rewrite lookup_delete_ne by done|]; apply H1. }
  split.
  - apply Hes.
  - eapply quiet_trans; [apply Hl|apply Hes].
  - apply (Hmap _ (dict (st s1))); [apply Hl|apply Hes].
  - apply (Hmap _ (expires (st s1))); [apply Hl|apply Hes].
  - eapply kept_trans; [|apply Hes]. eapply kept_mono; [apply Hl|]. unfold refs. rewrite (es_dict _ _ _ _ Hes). destruct (removes s1 k); [|done].
    intros o Ho. apply elem_of_app in Ho as [Ho|Ho]; [|set_solver]. apply elem_of_app. left.
    apply list_elem_of_fmap in Ho as ([k' o'] & -> & Ho%elem_of_map_to_list). apply lookup_delete_Some in Ho as [_ Ho]. by eapply dict_refs_elem.
Qed.
End lookups.

(** The value that the lookup of a command finds: STORE forms look keys up for writing. *)
Definition seen (store : bool) (s : server) (k : Z * sds) : option value := if store then alive s k else visible s k.
Definition found_oid (store : bool) (s : server) (k : Z * sds) : option oid :=
  match seen store s k with Some _ => dict (st s) !! k | None => None end.

Definition is_store (dstkey : option sds) : bool := match dstkey with Some _ => true | None => false end.

Lemma seen_kept store s k v : seen store s k = Some v -> removes s k = false /\ view (st s) k = Some v.
Proof.
  unfold seen, alive, visible, hidden, removes. destruct store, (expired s k), (masterhost (conf s)); cbn [andb orb negb]; try done.
  destruct (match current s with Some _ => _ | None => _ end); done.
Qed.

Lemma steady_in s ks k : steady s ks -> k ∈ ks -> steady s [k].
Proof. intros Hst Hk k' n Hk'. assert (k' = k) as -> by set_solver. by apply Hst. Qed.

Lemma found_kept s F ks s1 store k o v : looked s ks F s1 -> seen store s k = Some v -> found_oid store s k = Some o ->
  dict (st s1) !! k = Some o /\ o ∈ refs (st s1) F /\ val_at (st s1) o = Some v.
Proof.
  intros Hl Hv Ho. unfold found_oid in Ho. rewrite Hv in Ho. destruct (seen_kept _ _ _ _ Hv) as [Hr Hview].
  pose proof (lk_dict _ _ _ _ Hl k) as Hd. unfold gone in Hd. rewrite Hr, andb_false_r, Ho in Hd.
  split; [done|]. assert (o ∈ refs (st s1) F) as Hin by (by eapply refs_dict). split; [done|].
  rewrite (kept_val _ _ _ _ (lk_kept _ _ _ _ Hl) Hin). unfold view in Hview. by rewrite Ho in Hview.
Qed.

Lemma lookup_set_run s F ks s1 dst db key : looked s ks F s1 -> steady s [(db, key)] ->
  exists s2, lookup_set dst db key s1 = Some (found_oid (is_store dst) s (db, key), s2) /\ looked s (ks ++ [(db, key)]) F s2.
Proof.
  intros Hl Hst. set (k := (db, key)). assert (forall old s2, expire_step k F s1 s2 ->
    match old with
    | None => seen (is_store dst) s k = None
    | Some o => dict (st s2) !! k = Some o /\ exists v, seen (is_store dst) s k = Some v
    end -> old = found_oid (is_store dst) s k) as Hold.
  { intros old s2 Hes Hm. unfold found_oid. destruct old as [o|]; [|by rewrite Hm]. destruct Hm as [Hd (v & Hv)]. rewrite Hv.
    destruct (seen_kept _ _ _ _ Hv) as [Hr _]. pose proof (looked_snoc s F ks s1 Hl k s2 Hst Hes) as Hl2.
    rewrite <- Hd, (lk_dict _ _ _ _ Hl2 k). unfold gone. by rewrite Hr, andb_false_r. }
  destruct dst as [dstkey|]; cbn [lookup_set is_store seen] in *.
  - destruct (lookup_found s1 F db key (lk_ok _ _ _ _ Hl)) as (s2 & old & Hrun & Hes & Hf). fold k in Hes, Hf.
    rewrite (looked_alive s F ks s1 Hl k Hst) in Hf. exists s2. split; [|by eapply looked_snoc].
    rewrite Hrun. do 2 f_equal. apply (Hold old s2 Hes). inversion Hf as [Ha|o v Ha]; [congruence|]. split; [done|]. by exists v.
  - destruct (lookupKeyRead_spec s1 F db key (lk_ok _ _ _ _ Hl)) as (s2 & old & Hrun & Hes & Hf). fold k in Hes, Hf.
    rewrite (looked_visible s F ks s1 Hl k Hst) in Hf. exists s2. split; [|by eapply looked_snoc].
    unfold lookupKeyRead. rewrite Hrun. do 2 f_equal. apply (Hold old s2 Hes). inversion Hf as [Ha|o v Ha Hb Hd]; [congruence|]. split; [done|]. by exists v.
Qed.

(** What a key holds: nothing, a value of another type, or a set. *)
Definition key_is (E : env) (v : option value) (x : option (option (gset sds))) : Prop :=
  match v with
  | None => x = None
  | Some (VObj OBJ_SET d) => exists X, x = Some (Some X) /\ set_data E d X
  | Some _ => x = Some None
  end.

Lemma checkType_set s F c o v x : store_ok (st s) F -> o ∈ refs (st s) F -> val_at (st s) o = Some v -> key_is (data_env (conf s)) (Some v) x ->
  match x with
  | Some (Some X) => checkType c o OBJ_SET s = Some (false, s) /\ holds_set (data_env (conf s)) (st s) o X
  | Some None => checkType c o OBJ_SET s = Some (true, upd_clients (alter (says [R_wrongtypeerr]) c) s)
  | None => False
  end.
Proof.
  intros Hok Ho Hv Hx. destruct v as [bs|t d]; cbn [key_is] in Hx.
  - subst x. by apply (checkType_str s F c o OBJ_SET bs).
  - pose proof (checkType_data s F c o t OBJ_SET d Hok Ho Hv) as Hc. destruct t; try (subst x; exact Hc).
    destruct Hx as (X & -> & Hd). split; [exact Hc|]. unfold val_at in Hv. destruct (obj_at (st s) o) as [r|] eqn:Hr; [|done]. cbn in Hv. exists r.
    split; [done|]. unfold val_of in Hv. pose proof (live_ok (st s) F o r Hok Ho Hr). destruct (ptr r) as [| |d'] eqn:Ep; try done. injection Hv as Ht Hd'. subst d'. split; [done|done|]. by exists d.
Qed.

(** The sets of a union or a difference; [None] when a value has another type. *)
Fixpoint scan_union (l : list (option (option (gset sds)))) : option (list (gset sds)) :=
  match l with
  | [] => Some []
  | None :: l => cons ∅ <$> scan_union l
  | Some None :: _ => None
  | Some (Some X) :: l => cons X <$> scan_union l
  end.

(** A lookup that is followed by another one keeps the arguments. *)
Lemma looked_named s F ks s1 keys names : looked s ks F s1 -> keys ⊆ F -> named (st s) keys names -> named (st s1) keys names.
Proof. intros Hl Hsub. eapply named_kept; [apply Hl|]. intros o Ho. by apply refs_ext, Hsub. Qed.

Section sets.
Variables (s : server) (F : list oid) (c db : Z) (dst : option sds).
Abbreviation E := (data_env (conf s)).
Abbreviation sees := (seen (is_store dst) s).
Abbreviation finds := (found_oid (is_store dst) s).

Lemma looked_sets ks s1 l sts Xs : looked s ks F s1 -> scan_union sts = Some Xs -> Forall2 (fun k x => key_is E (sees k) x) l sts ->
  Forall2 (set_or_empty s (st s1)) (finds <$> l) Xs.
Proof.
  intros Hl Hscan Hsts. revert Xs Hscan. induction Hsts as [|k x l sts Hx _ IH]; intros Xs Hscan; cbn [scan_union] in Hscan; [injection Hscan as <-; constructor|].
  destruct (lk_quiet _ _ _ _ Hl) as (Hc & _).
  destruct (sees k) as [v|] eqn:Hv.
  - assert (exists X Xs', x = Some (Some X) /\ Xs = X :: Xs' /\ scan_union sts = Some Xs') as (X & Xs' & -> & -> & Hs').
    { destruct x as [[X|]|]; [|done|destruct v as [|[]]; cbn in Hx; naive_solver]. destruct (scan_union sts) as [Xs'|]; [|done]. injection Hscan as <-. by exists X, Xs'. }
    cbn [fmap list_fmap]. constructor; [|by apply IH].
    destruct (finds k) as [o|] eqn:Ho.
    + destruct (found_kept _ _ _ _ _ _ _ _ Hl Hv Ho) as (_ & Hin & Hval). cbn [set_or_empty].
      pose proof (checkType_set s1 F c o v (Some (Some X)) (lk_ok _ _ _ _ Hl) Hin Hval) as Hck. rewrite Hc in Hck. by destruct (Hck Hx).
    + exfalso. unfold found_oid in Ho. rewrite Hv in Ho. destruct (seen_kept _ _ _ _ Hv) as [_ Hview]. unfold view in Hview. by rewrite Ho in Hview.
  - cbn [key_is] in Hx. subst x. destruct (scan_union sts) as [Xs'|]; [|done]. injection Hscan as <-. cbn [fmap list_fmap]. constructor; [|by apply IH].
    unfold found_oid. rewrite Hv. done.
Qed.

(** One key is looked up, and its type is checked. *)
Lemma lookup_step o key x ks s1 : let k := (db, key) in
  looked s ks F s1 -> name_at (st s) o = Some key -> o ∈ F -> steady s [k] -> key_is E (sees k) x ->
  exists s2, looked s (ks ++ [k]) F s2 /\ sds_of o s1 = Some (key, s1) /\ lookup_set dst db key s1 = Some (finds k, s2) /\
    match x with
    | None => finds k = None
    | Some y => exists oo, finds k = Some oo /\ checkType c oo OBJ_SET s2 =
        match y with Some _ => Some (false, s2) | None => Some (true, upd_clients (alter (says [R_wrongtypeerr]) c) s2) end
    end.
Proof.
  intros k Hl Hkey Ho Hst Hx. destruct (lookup_set_run s F ks s1 dst db key Hl Hst) as (s2 & Hrun & Hl2). fold k in Hrun, Hl2.
  exists s2. split; [done|]. split; [apply name_run; rewrite (kept_name _ _ _ _ (lk_kept _ _ _ _ Hl)); [done|by apply refs_ext]|]. split; [done|].
  destruct (lk_quiet _ _ _ _ Hl2) as (Hc2 & _). destruct (sees k) as [v|] eqn:Hv.
  2:{ cbn [key_is] in Hx. subst x. unfold found_oid. by rewrite Hv. }
  destruct (finds k) as [oo|] eqn:Hoo.
  2:{ exfalso. unfold found_oid in Hoo. rewrite Hv in Hoo. destruct (seen_kept _ _ _ _ Hv) as [_ Hview]. unfold view in Hview. by rewrite Hoo in Hview. }
  destruct (found_kept _ _ _ _ _ _ _ _ Hl2 Hv Hoo) as (_ & Hin & Hval).
  pose proof (checkType_set s2 F c oo v x (lk_ok _ _ _ _ Hl2) Hin Hval) as Hck. rewrite Hc2 in Hck. specialize (Hck Hx).
  destruct x as [[X|]|]; [|by exists oo|done]. exists oo. by destruct Hck.
Qed.

Lemma sunion_sets_run names : forall keys sts ks s1 acc, let l := pair db <$> names in
  looked s ks F s1 -> named (st s) keys names -> keys ⊆ F -> steady s l -> Forall2 (fun k x => key_is E (sees k) x) l sts ->
  exists l' s2, l' `prefix_of` l /\ looked s (ks ++ l') F s2 /\
    sunion_sets c db dst keys acc s1 = match scan_union sts with
    | Some _ => Some (Some (acc ++ (finds <$> l))%list, s2)
    | None => Some (None, upd_clients (alter (says [R_wrongtypeerr]) c) s2)
    end /\ (is_Some (scan_union sts) -> l' = l).
Proof.
  induction names as [|key names IH]; intros keys sts ks s1 acc l Hl Hn Hsub Hst Hsts.
  - apply Forall2_nil_inv_r in Hn. subst keys. apply Forall2_nil_inv_l in Hsts. subst sts. exists [], s1. cbn. by rewrite !app_nil_r.
  - apply Forall2_cons_inv_r in Hn as (o & keys' & Hkey & Hn & ->). cbn [fmap list_fmap] in *. subst l.
    apply Forall2_cons_inv_l in Hsts as (x & sts' & Hx & Hsts & ->). set (k := (db, key)) in *. set (l := pair db <$> names) in *.
    assert (steady s l) as Hst2 by (intros k' n Hk'; apply Hst; set_solver).
    destruct (lookup_step o key x ks s1 Hl Hkey ltac:(set_solver) (steady_in s (k :: l) k Hst ltac:(set_solver)) Hx) as (s2 & Hl2 & Hname & Hrun & Hck). fold k in Hl2, Hrun, Hck.
    cbn [sunion_sets]. rewrite (bind_run _ _ _ _ _ Hname), (bind_run _ _ _ _ _ Hrun).
    assert (forall acc', exists l' s3, k :: l' `prefix_of` k :: l /\ looked s (ks ++ k :: l') F s3 /\ sunion_sets c db dst keys' acc' s2 =
      match scan_union sts' with
      | Some _ => Some (Some (acc' ++ (finds <$> l))%list, s3)
      | None => Some (None, upd_clients (alter (says [R_wrongtypeerr]) c) s3)
      end /\ (is_Some (scan_union sts') -> k :: l' = k :: l)) as Hrest.
    { intros acc'. destruct (IH keys' sts' (ks ++ [k]) s2 acc' Hl2 Hn ltac:(set_solver) Hst2 Hsts) as (l' & s3 & Hp & Hl3 & Hr & Hm).
      exists l', s3. split; [by apply prefix_cons|]. split; [by rewrite <- app_assoc in Hl3|]. split; [done|]. intros Hs. by rewrite (Hm Hs). }
    cbn [fmap list_fmap]. destruct x as [[X|]|]; cbn [scan_union].
    + destruct Hck as (oo & Hoo & Hck). rewrite Hoo, (bind_run _ _ _ _ _ Hck). destruct (Hrest (acc ++ [Some oo])%list) as (l' & s3 & Hp & Hl3 & -> & Hm).
      exists (k :: l'), s3. rewrite <- app_assoc, fmap_is_Some. by destruct (scan_union sts').
    + destruct Hck as (oo & Hoo & Hck). rewrite Hoo, (bind_run _ _ _ _ _ Hck). exists [k], s2. split; [by exists l|]. split; [done|]. split; [done|]. by intros [].
    + rewrite Hck. destruct (Hrest (acc ++ [None])%list) as (l' & s3 & Hp & Hl3 & -> & Hm).
      exists (k :: l'), s3. rewrite <- app_assoc, fmap_is_Some. by destruct (scan_union sts').
Qed.
End sets.

(** ** The outcome of the commands *)

(** The keys that were looked up keep their sets, unless they had expired; the key [dst] has the value [v] and no expire time. *)
Record set_outcome (s : server) (c : Z) (ks : list (Z * sds)) (F : list oid) (s' : server) (dst : option (Z * sds))
    (v : option value) (touched : bool) (d : Z) (rs : list reply) : Prop := {
  so_ok : store_ok (st s') F;
  so_conf : conf s' = conf s;
  so_watched : watched_keys s' = watched_keys s;
  so_view : forall k, dst <> Some k -> value_sim (data_env (conf s)) (if gone s ks k then None else view (st s) k) (view (st s') k);
  so_expires : forall k, dst <> Some k -> expires (st s') !! k = if gone s ks k then None else expires (st s) !! k;
  so_dst : forall k, dst = Some k -> view (st s') k = v /\ expires (st s') !! k = None;
  so_clients : clients s' = alter (says rs) c (match dst with
    | Some k => if touched then touch_clients (watchers s k) (clients s) else clients s
    | None => clients s
    end);
  so_dirty : dirty s' = dirty s + d
}.

Lemma set_outcome_read s c ks F s1 t rs : looked s ks F s1 -> sims (data_env (conf s)) F (st s1) t ->
  set_outcome s c ks F (upd_clients (alter (says rs) c) (with_st t s1)) None None false 0 rs.
Proof.
  intros Hl Hs. destruct (lk_quiet _ _ _ _ Hl) as (Hc & Hw & Hcl & Hd & _). split; try done.
  - apply Hs.
  - intros k _. rewrite <- (looked_view s F ks s1 Hl k). exact (sims_view _ F (st s1) t k Hs (lk_ok _ _ _ _ Hl)).
  - intros k _. rewrite <- (lk_expires _ _ _ _ Hl k). change (expires t !! k = expires (st s1) !! k). by rewrite (si_expires _ _ _ _ Hs).
  - cbn. by rewrite Hcl.
  - cbn. lia.
Qed.

(** From a state of the command to its end, when only the key [k] was changed. *)
Lemma set_outcome_step s c ks F s1 t s2 s' k v (touched : bool) d rs : looked s ks F s1 -> sims (data_env (conf s)) F (st s1) t ->
  store_ok (st s2) F -> quiet (with_st t s1) s2 -> (forall k', view (st s2) k' = at_key k v (view t) k') ->
  (forall k', expires (st s2) !! k' = at_key k None (fun k' => expires t !! k') k') ->
  st s' = st s2 -> conf s' = conf s2 -> watched_keys s' = watched_keys s2 ->
  clients s' = alter (says rs) c (if touched then touch_clients (watchers s2 k) (clients s2) else clients s2) -> dirty s' = dirty s2 + d ->
  set_outcome s c ks F s' (Some k) v touched d rs.
Proof.
  intros Hl Hs Hok Hq Hv Hx Est Ec Ew Ecl Ed. destruct (set_outcome_read s c ks F s1 t rs Hl Hs) as [_ _ _ Hview Hexp _ _ _].
  destruct (lk_quiet _ _ _ _ Hl) as (C1 & W1 & L1 & D1 & _). destruct Hq as (C2 & W2 & L2 & D2 & _). cbn [conf watched_keys clients dirty with_st upd_st] in *.
  assert (watchers s2 k = watchers s k) as Hwt by (unfold watchers; by rewrite W2, W1).
  split; rewrite ?Est; try done; try congruence.
  - intros k' Hne. rewrite Hv, at_key_other by congruence. by apply Hview.
  - intros k' Hne. rewrite Hx, at_key_other by congruence. by apply Hexp.
  - intros k' [= <-]. by rewrite Hv, Hx, !at_key_same.
  - by rewrite Ecl, Hwt, L2, L1.
Qed.

(** The end of a STORE form. *)
Lemma store_end s c db key n (notify : M unit) : (forall s, exists f, notify s = Some (tt, upd_events f s)) ->
  exists s', (_ ← (_ ← addReply c (RInt n); notify); _ ← signalModifiedKey db key; incr_dirty 1) s = Some (tt, s') /\
    st s' = st s /\ conf s' = conf s /\ watched_keys s' = watched_keys s /\ dirty s' = dirty s + 1 /\
    clients s' = alter (says [RInt n]) c (touch_clients (watchers s (db, key)) (clients s)).
Proof.
  intros Hn. destruct (Hn (upd_clients (alter (says [RInt n]) c) s)) as [f Hf].
  rewrite bind_assoc_run, (bind_run (addReply c (RInt n)) _ _ _ _ (modify_run _ _)), (bind_run _ _ _ _ _ Hf), (bind_run _ _ _ _ _ (signalModifiedKey_spec _ _ _)).
  eexists. split; [reflexivity|]. cbn. by rewrite <- touch_says.
Qed.

Section results.
Variables (s : server) (c : Z) (ks : list (Z * sds)) (F : list oid) (s1 : server).
Hypothesis Hl : looked s ks F s1.
Abbreviation E := (data_env (conf s)).

Lemma send_elements_run r rem : forall fuel si st0, conf st0 = conf s -> set_iter E r si rem ->
  (forall e, e ∈ rem -> ele_ok e /\ ele_sds e <> sdec LLONG_MIN) -> (length rem < fuel)%nat ->
  exists si', send_elements fuel c r si st0 = Some ((r, si'), upd_clients (alter (says (RBulk <$> (ele_sds <$> rem))) c) st0) /\
    setTypeReleaseIterator E r si' = Some r.
Proof.
  induction rem as [|e rem IH]; intros [|fuel] si st0 Hc Hi Hok Hf; cbn [length] in Hf; try lia; cbn [send_elements].
  all: destruct (setTypeNextObject_rep E r si _ Hi Hok) as (si' & En & Hn); rewrite (bind_run _ _ _ _ _ (get_run st0)), Hc, En,
    (bind_run _ _ _ _ _ (lift_run _ _ _ eq_refl)); cbv beta iota; cbn [head fmap option_fmap option_map list_fmap].
  - exists si'. split; [|done]. assert (upd_clients (alter (says []) c) st0 = st0) as -> by (destruct st0; unfold upd_clients; cbn; by rewrite says_nil). done.
  - rewrite (bind_run (addReplyBulkCBuffer c (ele_sds e)) _ _ _ _ (modify_run _ _)).
    destruct (IH fuel si' (upd_clients (alter (says [RBulk (ele_sds e)]) c) st0)) as (si2 & E2 & Hr2); [done|done|intros x Hx; apply Hok; set_solver|lia|].
    exists si2. split; [|done]. etrans; [exact E2|]. by rewrite says_says.
Qed.

(** The result replaces the value of the key. *)
Lemma store_result_run t db key r R event : sims E F (st s1) t -> set_rep E r R -> refcount r = 1 ->
  exists s' v, store_result c db key r event (with_st t s1) = Some (tt, s') /\ set_view E v (Some R) /\ (R = ∅ -> v = None) /\
    set_outcome s c ks F s' (Some (db, key)) v true 1 [RInt (Z.of_nat (size R))].
Proof.
  intros Hs HR Hc1. unfold store_result. set (k := (db, key)). destruct (lk_quiet _ _ _ _ Hl) as (Hc & _).
  destruct (dbDelete_step (with_st t s1) F db key (si_ok _ _ _ _ Hs)) as (t2 & Hdel & S2 & D2). fold k in S2, D2. cbn [st with_st upd_st] in S2, D2.
  rewrite (bind_run _ _ _ _ _ Hdel), (bind_run _ _ _ _ _ (get_run _)). cbn [conf with_st upd_st]. rewrite Hc, (setTypeSize_rep E r R HR).
  rewrite (bind_run _ _ _ _ _ (lift_run _ _ _ eq_refl)), Z.gtb_ltb. destruct (Z.ltb_spec 0 (Z.of_nat (size R))) as [Hpos|Hz].
  - destruct HR as [T1 Hrok (d & Hp & Hd)].
    destruct (alloc_obj_spec t2 F r (to_ok _ _ _ _ _ _ S2) Hrok Hc1) as (o & t3 & Ea & Hok3 & Ho & _ & Hst3).
    pose proof Hst3 as (D3 & X3 & _).
    destruct (dbAdd_step (with_st t3 s1) F db key o (VObj OBJ_SET d)) as (s4 & Hadd & S4 & _).
    { exact Hok3. }
    { cbn. by rewrite D3, D2, lookup_delete_eq. }
    { cbn. unfold val_at. rewrite Ho. cbn. unfold val_of. by rewrite Hp, T1. }
    fold k in S4. cbn [st with_st upd_st] in S4. destruct S2 as [B1 B2 B3 B4 _], S4 as [A1 A2 A3 A4 _].
    destruct (store_end s4 c db key (Z.of_nat (size R)) (notifyKeyspaceEvent NOTIFY_SET event key db)) as (s' & Hend & H1 & H2 & H3 & H4 & H5).
    { intros x. eexists. reflexivity. }
    exists s', (Some (VObj OBJ_SET d)). split; [|split; [exists R; done|split; [intros ->; by rewrite size_empty in Hpos|]]].
    + rewrite bind_assoc_run, (bind_run _ _ _ _ _ (in_store_run (alloc_obj r) (with_st t2 (with_st t s1)) o t3 Ea)).
      rewrite bind_assoc_run, (bind_run _ _ _ _ _ Hadd). exact Hend.
    + eapply (set_outcome_step s c ks F s1 t s4); [exact Hl|exact Hs|exact A1|exact A2| | |done..].
      * intros k'. rewrite A3. unfold at_key. destruct (decide (k' = k)); [done|]. rewrite (heap_step_view F t2 t3 k' Hst3).
        cbn in B3. rewrite B3. by rewrite at_key_other.
      * intros k'. rewrite A4, X3. by apply B4.
  - assert (R = ∅) as -> by (apply leibniz_equiv, size_empty_inv; lia). destruct S2 as [B1 B2 B3 B4 _].
    set (deleted := bool_decide _).
    destruct (store_end (with_st t2 s1) c db key 0 (if deleted then notifyKeyspaceEvent NOTIFY_GENERIC "del" key db else mret tt)) as (s' & Hend & H1 & H2 & H3 & H4 & H5).
    { intros x. destruct deleted; [by eexists|]. exists (fun l => l). by destruct x. }
    exists s', None. split; [exact Hend|]. split; [done|]. split; [done|]. rewrite size_empty.
    by eapply (set_outcome_step s c ks F s1 t (with_st t2 s1)).
Qed.

(** The elements of the result are the reply. *)
Lemma send_result_run t r R : sims E F (st s1) t -> set_rep E r R -> writable R ->
  exists s' eles, (_ ← addReplyMultiBulkLen c (Z.of_nat (size R));
      n ← lift (setTypeSize E r);
      si ← lift (setTypeInitIterator r);
      '(r, si) ← send_elements (S (Z.to_nat n)) c r si;
      _ ← lift (setTypeReleaseIterator E r si);
      mret tt) (with_st t s1) = Some (tt, s') /\ NoDup eles /\ list_to_set eles = R /\
    set_outcome s c ks F s' None None false 0 (RMultiBulkLen (zlen eles) :: (RBulk <$> eles)).
Proof.
  intros Hs HR Hw. destruct (lk_quiet _ _ _ _ Hl) as (Hc & _).
  destruct (setTypeInitIterator_rep E r R HR) as (si & l & Ei & Hi & Hn & HX & Hok).
  rewrite (bind_run (addReplyMultiBulkLen c (Z.of_nat (size R))) _ _ _ _ (modify_run _ _)), (setTypeSize_rep E r R HR).
  rewrite (bind_run _ _ _ _ _ (lift_run _ _ _ eq_refl)), (bind_run _ _ _ _ _ (lift_run _ _ _ Ei)).
  assert (size R = length l) as Hsz by (by rewrite HX, size_list_to_set, length_fmap).
  set (s2 := upd_clients _ (with_st t s1)).
  destruct (send_elements_run r l (S (Z.to_nat (Z.of_nat (size R)))) si s2 Hc Hi) as (si' & Es & Hrel).
  { intros e He. split; [by eapply Forall_forall|]. intros Heq. apply Hw. rewrite HX, <- Heq. by apply elem_of_list_to_set, list_elem_of_fmap_2. }
  { lia. }
  rewrite (bind_run _ _ _ _ _ Es). cbv beta iota. rewrite (bind_run _ _ _ _ _ (lift_run _ _ _ Hrel)).
  eexists _, (ele_sds <$> l). split; [reflexivity|]. split; [done|]. split; [done|].
  assert (Z.of_nat (size R) = zlen (ele_sds <$> l)) as Hz by (unfold zlen; by rewrite length_fmap, Hsz).
  unfold s2. rewrite Hz. change (fun cl => set_replies (replies cl ++ [RMultiBulkLen (zlen (ele_sds <$> l))])%list cl) with (says [RMultiBulkLen (zlen (ele_sds <$> l))]).
  rewrite says_says. by apply set_outcome_read.
Qed.
End results.

Lemma op_result_sub op Xs : op_result op Xs ⊆ ⋃ Xs.
Proof. destruct op, Xs as [|X Xs]; cbn [op_result]; try done. rewrite union_list_cons. set_solver. Qed.

Lemma new_result s : result_is s (createIntsetObject (data_env (conf s)), 0) ∅.
Proof. split; [|done]. split; [done|done|]. eexists. split; [done|]. exists ∅. split; [apply intsetNew_abs|done]. Qed.

(** ** SUNION and SDIFF *)

(** C17 SUNION, SDIFF and their STORE forms compute the union of the sets that the keys hold, or the difference of the first one and the
    others, where a key that does not exist is an empty set: the elements are sent, each of them once, after
    their number; a STORE form replaces the destination by the result, without an expire time, or deletes it when
    the result is empty, flags the clients that watch it, counts one change and replies the number of elements. The other keys keep
    their sets, whatever their encodings, and their expire times, unless they were looked up and had expired. When a key holds another
    type, only the error is sent. The conditions are that none of the keys expires while the command runs ([steady]: a key that is named twice and
    expires between its two lookups leaves a pointer to a released object), that fewer than [2 ^ 31] keys are named, and that the union has fewer
    than [2 ^ 29 - 1] elements and not the least 64-bit integer ([small]). *)
Theorem sunionDiffGenericCommand_computes s c cl F setkeys names dst op sts :
  let E := data_env (conf s) in let l := pair (c_db cl) <$> names in
  clients s !! c = Some cl -> store_ok (st s) F -> setkeys ⊆ F -> named (st s) setkeys names -> steady s l ->
  Forall2 (fun k x => key_is E (seen (is_store dst) s k) x) l sts -> zlen names < 2 ^ 31 ->
  (forall Xs, scan_union sts = Some Xs -> small (⋃ Xs)) ->
  exists s', sunionDiffGenericCommand c setkeys dst op s = Some (tt, s') /\
    match scan_union sts, dst with
    | None, _ => exists l', l' `prefix_of` l /\ set_outcome s c l' F s' None None false 0 [R_wrongtypeerr]
    | Some Xs, None => exists eles, NoDup eles /\ list_to_set eles = op_result op Xs /\
        set_outcome s c l F s' None None false 0 (RMultiBulkLen (zlen eles) :: (RBulk <$> eles))
    | Some Xs, Some key => exists v, set_view E v (Some (op_result op Xs)) /\ (op_result op Xs = ∅ -> v = None) /\
        set_outcome s c l F s' (Some (c_db cl, key)) v true 1 [RInt (Z.of_nat (size (op_result op Xs)))]
    end.
Proof.
  intros E l Hcl Hok Hsub Hn Hst Hsts Hlen Hsm.
  destruct (sunion_sets_run s F c (c_db cl) dst names setkeys sts [] s [] (looked_nil s F Hok) Hn Hsub Hst Hsts) as (l' & s1 & Hp & Hl & Hr & Hm). fold l in Hp, Hl, Hr, Hm.
  unfold sunionDiffGenericCommand. rewrite (bind_run _ _ _ _ _ (client_db_run s c cl Hcl)). cbn [app] in Hr, Hl. destruct (scan_union sts) as [Xs|] eqn:Hscan.
  2:{ rewrite (bind_run _ _ _ _ _ Hr). eexists. split; [reflexivity|]. exists l'. split; [done|].
      rewrite <- (with_st_id s1) at 1. apply set_outcome_read; [done|]. apply sims_refl, Hl. }
  rewrite (Hm ltac:(by eexists)) in *. rewrite (bind_run _ _ _ _ _ Hr), (bind_run _ _ _ _ _ (get_run _)).
  destruct (lk_quiet _ _ _ _ Hl) as (Hc & _).
  pose proof (looked_sets s F c dst l s1 l sts Xs Hl Hscan Hsts) as Hsets.
  destruct (set_operation_run s1 F op (found_oid (is_store dst) s <$> l) Xs (st s1) (createIntsetObject (data_env (conf s1)), 0)) as ([r n] & t & Hop & Hs & HR & Hc1 & Hsz).
  { apply Hl. }
  { unfold set_or_empty in *. by rewrite Hc. }
  { by apply Hsm. }
  { unfold l, zlen. rewrite !length_fmap. exact Hlen. }
  { apply new_result. }
  rewrite with_st_id in Hop. rewrite (bind_run _ _ _ _ _ Hop). cbv beta iota. cbn [fst snd] in *. subst n. rewrite Hc in *.
  destruct dst as [key|].
  { destruct (store_result_run s c l F s1 Hl t (c_db cl) key r (op_result op Xs) (match op with SET_OP_UNION => "sunionstore" | SET_OP_DIFF => "sdiffstore" end) Hs HR Hc1)
      as (s' & v & Hsr & Hv & He & Ho). by exists s'; split; [|exists v]. }
  destruct (send_result_run s c l F s1 Hl t r (op_result op Xs) Hs HR) as (s' & eles & Hsend & Hnd & Heq & Ho); [|by exists s'; split; [|exists eles]].
  apply (small_sub _ _ (op_result_sub op Xs)). by apply Hsm.
Qed.

(** ** SINTER *)

(** What the lookups of an intersection find: the first key that does not exist or holds another type ends them. *)
Inductive inter_scan := Missing | WrongType | AllSets (Xs : list (gset sds)).
Fixpoint scan_inter (l : list (option (option (gset sds)))) : inter_scan :=
  match l with
  | [] => AllSets []
  | None :: _ => Missing
  | Some None :: _ => WrongType
  | Some (Some X) :: l => match scan_inter l with AllSets Xs => AllSets (X :: Xs) | r => r end
  end.

Lemma scan_inter_union sts Xs : scan_inter sts = AllSets Xs -> scan_union sts = Some Xs.
Proof.
  revert Xs. induction sts as [|[[X|]|] sts IH]; intros Xs Hs; cbn [scan_inter scan_union] in *; try done; [by injection Hs as <-|].
  destruct (scan_inter sts) as [| |Ys]; try done. injection Hs as <-. by rewrite (IH Ys).
Qed.

Section sinter.
Variables (s : server) (F : list oid) (c db : Z) (dst : option sds).
Abbreviation E := (data_env (conf s)).
Abbreviation sees := (seen (is_store dst) s).
Abbreviation finds := (found_oid (is_store dst) s).

Lemma sinter_sets_run names : forall keys sts ks s1 acc, let l := pair db <$> names in
  looked s ks F s1 -> named (st s) keys names -> keys ⊆ F -> steady s l -> Forall2 (fun k x => key_is E (sees k) x) l sts ->
  exists l' s2, l' `prefix_of` l /\ looked s (ks ++ l') F s2 /\
    sinter_sets c db dst keys acc s1 = match scan_inter sts with
    | AllSets _ => Some (Some (acc ++ omap finds l)%list, s2)
    | Missing => (_ ← missing_set c db dst; mret None) s2
    | WrongType => Some (None, upd_clients (alter (says [R_wrongtypeerr]) c) s2)
    end /\ match scan_inter sts with AllSets _ => l' = l /\ Some <$> omap finds l = finds <$> l | _ => True end.
Proof.
  induction names as [|key names IH]; intros keys sts ks s1 acc l Hl Hn Hsub Hst Hsts.
  - apply Forall2_nil_inv_r in Hn. subst keys. apply Forall2_nil_inv_l in Hsts. subst sts. exists [], s1. cbn. by rewrite !app_nil_r.
  - apply Forall2_cons_inv_r in Hn as (o & keys' & Hkey & Hn & ->). cbn [fmap list_fmap] in *. subst l.
    apply Forall2_cons_inv_l in Hsts as (x & sts' & Hx & Hsts & ->). set (k := (db, key)) in *. set (l := pair db <$> names) in *.
    assert (steady s l) as Hst2 by (intros k' n Hk'; apply Hst; set_solver).
    destruct (lookup_step s F c db dst o key x ks s1 Hl Hkey ltac:(set_solver) (steady_in s (k :: l) k Hst ltac:(set_solver)) Hx) as (s2 & Hl2 & Hname & Hrun & Hck). fold k in Hl2, Hrun, Hck.
    cbn [sinter_sets scan_inter]. rewrite (bind_run _ _ _ _ _ Hname), (bind_run _ _ _ _ _ Hrun). assert ([k] `prefix_of` k :: l) as Hp1 by by exists l.
    destruct x as [y|]; [|rewrite Hck; by exists [k], s2]. destruct Hck as (oo & Hoo & Hck). rewrite Hoo.
    destruct y as [X|]; rewrite (bind_run _ _ _ _ _ Hck); [|by exists [k], s2].
    destruct (IH keys' sts' (ks ++ [k]) s2 (acc ++ [oo])%list Hl2 Hn ltac:(set_solver) Hst2 Hsts) as (l' & s3 & Hp & Hl3 & Hr & Hm). fold l in Hp, Hr, Hm.
    exists (k :: l'), s3. split; [by apply prefix_cons|]. split; [by rewrite <- app_assoc in Hl3|]. cbn [omap list_omap]. rewrite Hoo.
    destruct (scan_inter sts') as [| |Xs]; [done|done|]. destruct Hm as [-> Hm]. split; [by rewrite Hr, <- app_assoc|]. split; [done|]. cbn [fmap list_fmap]. by rewrite Hm, Hoo.
Qed.
End sinter.

(** The sets ordered by size. *)
Lemma sort_sets s t tie os Xs : Forall2 (holds_set (data_env (conf s)) t) os Xs ->
  exists l os' Xs', sizes_of (Some <$> os) (with_st t s) = Some (l, with_st t s) /\
    mapM snd (qsort tie qsortCompareSetsByCardinality l) = Some os' /\ Xs' ≡ₚ Xs /\ Forall2 (holds_set (data_env (conf s)) t) os' Xs'.
Proof.
  intros Hos. destruct (sizes_of_run s (Some <$> os) Xs t) as (l & El & Hl & _); [by apply Forall2_fmap_l|].
  assert ((qsort tie qsortCompareSetsByCardinality l).*2 ≡ₚ Some <$> os) as Hp by (rewrite <- Hl; unfold qsort; by rewrite merge_sort_Permutation).
  apply Permutation_map_inv in Hp as (os' & Hos' & Hp). destruct (Permutation_Forall2 Hp Hos) as (Xs' & HpX & Hf).
  exists l, os', Xs'. split; [done|]. split; [|by split]. change (map Some os') with (Some <$> os') in Hos'. clear - Hos'.
  revert os' Hos'. induction (qsort _ _ l) as [|p l' IH]; intros [|o os'] H; try done. injection H as H1 H2. cbn. by rewrite H1, (IH os' H2).
Qed.

(** The length is put before the replies that were sent since its place was kept. *)
Lemma deferred_len s c cl n rs : clients s !! c = Some cl ->
  setDeferredMultiBulkLength c (length (replies cl)) n (upd_clients (alter (says rs) c) s) = Some (tt, upd_clients (alter (says (RMultiBulkLen n :: rs)) c) s).
Proof.
  intros Hc. unfold setDeferredMultiBulkLength, upd_client. rewrite modify_run. do 2 f_equal. unfold upd_clients. cbn. f_equal. apply map_eq. intros i.
  destruct (decide (i = c)) as [->|Hne]; [|by rewrite !lookup_alter_ne]. rewrite !lookup_alter_eq, Hc. cbn. f_equal. unfold says, set_replies. cbn.
  by rewrite take_app_length, drop_app_length.
Qed.

Section sinter_end.
Variables (s : server) (c : Z) (ks : list (Z * sds)) (F : list oid) (s1 : server).
Hypothesis Hl : looked s ks F s1.

(** A key does not exist: a STORE form deletes the destination. *)
Lemma missing_set_run db dst : exists s', missing_set c db dst s1 = Some (tt, s') /\
  match dst with
  | None => set_outcome s c ks F s' None None false 0 [R_emptymultibulk]
  | Some key =>
      let k := (db, key) in let deleted := negb (gone s ks k) && bool_decide (is_Some (dict (st s) !! k)) in
      set_outcome s c ks F s' (Some k) None deleted (if deleted then 1 else 0) [RInt 0]
  end.
Proof.
  pose proof (sims_refl (data_env (conf s)) F (st s1) (lk_ok _ _ _ _ Hl)) as Hs. destruct dst as [key|]; cbn [missing_set].
  - set (k := (db, key)). destruct (dbDelete_step s1 F db key (lk_ok _ _ _ _ Hl)) as (t & Hdel & [B1 B2 B3 B4 _] & _). fold k in Hdel, B3, B4.
    assert (bool_decide (is_Some (dict (st s1) !! k)) = negb (gone s ks k) && bool_decide (is_Some (dict (st s) !! k))) as Hb.
    { rewrite (lk_dict _ _ _ _ Hl k). destruct (gone s ks k); [|done]. apply bool_decide_eq_false_2. by intros []. }
    rewrite (bind_run _ _ _ _ _ Hdel), Hb. cbv zeta. destruct (_ && _).
    + rewrite (bind_run _ _ _ _ _ (bind_run _ _ _ _ _ (signalModifiedKey_spec _ _ _))). eexists. split; [reflexivity|].
      eapply (set_outcome_step s c ks F s1 (st s1) (with_st t s1)); by rewrite ?with_st_id.
    + eexists. split; [reflexivity|]. eapply (set_outcome_step s c ks F s1 (st s1) (with_st t s1)); rewrite ?with_st_id; try done. cbn. lia.
  - eexists. split; [reflexivity|]. rewrite <- (with_st_id s1). by apply set_outcome_read.
Qed.
End sinter_end.

(** C18 SINTER and SINTERSTORE compute the intersection of the sets that the keys hold: each element that all of them have is sent once, after
    their number, or they are stored at the destination, which is deleted when there is none. A key that does not exist makes the result empty; then
    SINTERSTORE deletes the destination, and flags the clients that watch it only when it existed. A key of another type, if it comes first,
    makes it an error. The sets keep their elements, whatever their encodings. The conditions are that at least one key is named, that
    none of the keys expires while the command runs ([steady]), and that the sets have fewer than [2 ^ 29 - 1] elements and not the least 64-bit
    integer ([small]). *)
Theorem sinterGenericCommand_computes s c cl F setkeys names dst sts :
  let E := data_env (conf s) in let l := pair (c_db cl) <$> names in
  clients s !! c = Some cl -> store_ok (st s) F -> setkeys ⊆ F -> named (st s) setkeys names -> names <> [] -> steady s l ->
  Forall2 (fun k x => key_is E (seen (is_store dst) s k) x) l sts ->
  (forall Xs, scan_inter sts = AllSets Xs -> Forall small Xs) ->
  exists s', sinterGenericCommand c setkeys dst s = Some (tt, s') /\
    match scan_inter sts, dst with
    | WrongType, _ => exists l', l' `prefix_of` l /\ set_outcome s c l' F s' None None false 0 [R_wrongtypeerr]
    | Missing, None => exists l', l' `prefix_of` l /\ set_outcome s c l' F s' None None false 0 [R_emptymultibulk]
    | Missing, Some key => exists l', l' `prefix_of` l /\
        let k := (c_db cl, key) in let deleted := negb (gone s l' k) && bool_decide (is_Some (dict (st s) !! k)) in
        set_outcome s c l' F s' (Some k) None deleted (if deleted then 1 else 0) [RInt 0]
    | AllSets Xs, None => exists eles, NoDup eles /\ list_to_set eles = inter_result Xs /\
        set_outcome s c l F s' None None false 0 (RMultiBulkLen (zlen eles) :: (RBulk <$> eles))
    | AllSets Xs, Some key => exists v, set_view E v (Some (inter_result Xs)) /\ (inter_result Xs = ∅ -> v = None) /\
        set_outcome s c l F s' (Some (c_db cl, key)) v true 1 [RInt (Z.of_nat (size (inter_result Xs)))]
    end.
Proof.
  intros E l Hcl Hok Hsub Hn Hne Hst Hsts Hsm.
  destruct (sinter_sets_run s F c (c_db cl) dst names setkeys sts [] s [] (looked_nil s F Hok) Hn Hsub Hst Hsts) as (l' & s1 & Hp & Hl & Hr & Hm). fold l in Hp, Hl, Hr, Hm.
  unfold sinterGenericCommand. rewrite (bind_run _ _ _ _ _ (client_db_run s c cl Hcl)). cbn [app] in Hr, Hl. destruct (scan_inter sts) as [| |Xs] eqn:Hscan.
  - destruct (missing_set_run s c l' F s1 Hl (c_db cl) dst) as (s' & Hms & Ho). rewrite (bind_run _ _ _ _ _ Hms) in Hr.
    rewrite (bind_run _ _ _ _ _ Hr). exists s'. split; [done|]. destruct dst; by exists l'.
  - rewrite (bind_run _ _ _ _ _ Hr). eexists. split; [reflexivity|]. exists l'. split; [done|].
    rewrite <- (with_st_id s1) at 1. apply set_outcome_read; [done|]. apply sims_refl, Hl.
  - destruct Hm as [-> Hos]. rewrite (bind_run _ _ _ _ _ Hr). destruct (lk_quiet _ _ _ _ Hl) as (Hc & _ & Hcls & _).
    pose proof (looked_sets s F c dst l s1 l sts Xs Hl (scan_inter_union _ _ Hscan) Hsts) as Hsets. rewrite <- Hos in Hsets. rewrite Forall2_fmap_l in Hsets.
    destruct (sort_sets s1 (st s1) (qsort_tie (conf s1)) (omap (found_oid (is_store dst) s) l) Xs) as (sz & os & Xs' & Hsz & Hsort & HpX & Hos'); [rewrite Hc; exact Hsets|].
    rewrite with_st_id in Hsz. rewrite (bind_run _ _ _ _ _ Hsz), (bind_run _ _ _ _ _ (get_run _)), Hsort, (bind_run _ _ _ _ _ (lift_run _ _ _ eq_refl)).
    assert (Xs' <> []) as Hne'.
    { intros ->. apply Permutation_nil_l in HpX. subst Xs. apply Forall2_length in Hsets. rewrite <- (length_fmap Some), Hos, !length_fmap in Hsets. by destruct names. }
    assert (Forall small Xs') as Hsm' by (rewrite HpX; by apply Hsm).
    pose proof (inter_elements_run s1 F c os Xs' (st s1)) as Hrun. specialize (Hrun) with (1 := Hne') (2 := Hos') (3 := Hsm') (4 := lk_ok _ _ _ _ Hl).
    rewrite <- (inter_result_perm _ _ HpX). rewrite with_st_id in Hrun. destruct dst as [key|].
    + rewrite (bind_run _ _ _ _ _ (ret_run _ _)). cbv zeta. destruct (Hrun (Some (createIntsetObject (data_env (conf s1))))) as (d & n & rs & out & t & He & Hs & Ht & Hd & Hnd & Ho).
      { constructor; [apply (new_result s1)|done]. }
      rewrite (bind_run _ _ _ _ _ He). cbv beta iota. destruct Ht as [out|r out HR Hc1]; [by destruct (is_Some_None (proj2 Hd (mk_is_Some _ _ eq_refl)))|]. rewrite Ho, Hc in *.
      assert (upd_clients (alter (says []) c) s1 = s1) as -> by (destruct s1; unfold upd_clients; cbn; by rewrite says_nil).
      destruct (store_result_run s c l F s1 Hl t (c_db cl) key r _ "sinterstore" Hs HR Hc1) as (s' & v & Hsr & Hv & Hev & Ho'). by exists s'; split; [|exists v].
    + assert (addDeferredMultiBulkLength c s1 = Some (length (replies cl), s1)) as Hdef.
      { unfold addDeferredMultiBulkLength, this_client. rewrite bind_assoc_run, (bind_run _ _ _ _ _ (get_run _)), Hcls, Hcl. done. }
      rewrite (bind_run _ _ _ _ _ Hdef). cbv zeta. destruct (Hrun None (taken_sent s1 [])) as (d & n & rs & out & t & He & Hs & Ht & Hd & Hnd & Ho).
      rewrite (bind_run _ _ _ _ _ He). cbv beta iota. destruct Ht as [out|r out _ _]; [|by destruct (is_Some_None (proj1 Hd (mk_is_Some _ _ eq_refl)))].
      eexists. split; [exact (deferred_len (with_st t s1) c cl (zlen out) _ ltac:(cbn; by rewrite Hcls))|].
      exists out. split; [done|]. split; [done|]. rewrite Hc in Hs. by apply set_outcome_read.
Qed.

(** ** The theorems on sample sets *)

Module SetOpSample.
Import Sample SetSample.

(** The set of "3" and "x", a dictionary. *)
Definition r_mixed : robj :=
  match '(r, _) ← setTypeAdd env0 512 (createIntsetObject env0) [51]; '(r, _) ← setTypeAdd env0 512 r [120]; Some r with
  | Some r => r
  | None => createIntsetObject env0
  end.
Definition X_mixed : gset sds := {[[120]; [51]]}.

Lemma r_mixed_rep : set_rep env0 r_mixed X_mixed.
Proof.
  destruct (setTypeAdd_rep env0 512 (createIntsetObject env0) ∅ [51]) as (r1 & E1 & H1 & _); [apply (new_result s0)|vm_compute; reflexivity|set_solver|].
  destruct (setTypeAdd_rep env0 512 r1 ({[[51]]} ∪ ∅) [120]) as (r2 & E2 & H2 & _); [done|vm_compute; reflexivity|apply (bool_decide_eq_true_1 _); vm_compute; reflexivity|].
  unfold r_mixed. rewrite E1. cbn [mbind option_bind]. rewrite E2. cbn [mbind option_bind].
  by assert (X_mixed = {[[120]]} ∪ ({[[51]]} ∪ ∅)) as -> by (unfold X_mixed; set_solver).
Qed.

(** Database 0 binds "s" to the set of -5, 3 and 70000, "t" to that of "3" and "x", and "a", which client 2 watches, to
    a string; the arguments are the command, "a", "s" and "t". *)
Definition t_sets : store := {|
  objs := <[1%positive := Robj OBJ_STRING OBJ_ENCODING_EMBSTR (PSds [99]) 1]>
         (<[2%positive := Robj OBJ_STRING OBJ_ENCODING_EMBSTR (PSds [97]) 1]>
         (<[3%positive := Robj OBJ_STRING OBJ_ENCODING_EMBSTR (PSds [115]) 1]>
         (<[4%positive := Robj OBJ_STRING OBJ_ENCODING_EMBSTR (PSds [116]) 1]>
         (<[5%positive := Robj OBJ_SET OBJ_ENCODING_INTSET (PData (DIntset sample_intset)) 1]>
         (<[6%positive := r_mixed]>
         (<[7%positive := Robj OBJ_STRING OBJ_ENCODING_EMBSTR (PSds [120; 121]) 1]> ∅))))));
  dict := <[(0, [97]) := Heap 7]> (<[(0, [115]) := Heap 5]> (<[(0, [116]) := Heap 6]> ∅));
  expires := <[(0, [97]) := 5000]> ∅
|}.
Definition s_sets : server := with_st t_sets s0.
Definition argv_sets : list oid := [Heap 1; Heap 2; Heap 3; Heap 4].

Lemma sets_are dst : Forall2 (fun k x => key_is env0 (seen (is_store dst) s_sets k) x) [(0, [115]); (0, [116])] [Some (Some X_set); Some (Some X_mixed)].
Proof.
  assert (forall k d, expires t_sets !! k = None -> view t_sets k = Some (VObj OBJ_SET d) -> seen (is_store dst) s_sets k = Some (VObj OBJ_SET d)) as Hseen.
  { intros k d Hx Hv. unfold seen, alive, visible, hidden, removes, expired. cbn [st with_st upd_st s_sets]. rewrite Hx, Hv. by destruct (is_store dst). }
  repeat constructor.
  - rewrite (Hseen _ (DIntset sample_intset)) by reflexivity. exists X_set. split; [done|]. exists {[-5; 3; 70000]}. split; [exact sample_abs|done].
  - destruct (r_mixed_rep) as [T _ (d & Hp & Hd)]. assert (obj_at t_sets (Heap 6) = Some r_mixed) as Ho by (with_strategy opaque [r_mixed] reflexivity).
    cbv beta. rewrite (Hseen (0, [116]) d); [exists X_mixed; split; [reflexivity|exact Hd]|reflexivity|].
    unfold view. change (dict t_sets !! (0, [116])) with (Some (Heap 6)). cbn [mbind option_bind]. unfold val_at. rewrite Ho. cbn [fmap option_fmap option_map].
    unfold val_of. by rewrite Hp, T.
Qed.

Lemma sets_steady : steady s_sets [(0, [115]); (0, [116])].
Proof. intros k n Hk. assert (k = (0, [115]) \/ k = (0, [116])) as [->| ->] by set_solver; reflexivity. Qed.

Lemma sets_small X : X ∈ [X_set; X_mixed; X_set ∪ X_mixed] -> small X.
Proof.
  assert (small (X_set ∪ X_mixed)) as Hs by (split; [vm_compute; reflexivity|apply (bool_decide_eq_true_1 _); vm_compute; reflexivity]).
  rewrite !elem_of_cons, elem_of_nil. intros Hx. eapply small_sub; [|exact Hs].
  destruct Hx as [->|[->|[->|[]]]]; [apply union_subseteq_l|apply union_subseteq_r|done].
Qed.

(** SDIFFSTORE a s t: the string at "a" is replaced by the set of -5 and 70000, without an expire time, and client 2 is flagged. *)
Lemma sunionDiffGenericCommand_computes_witness :
  exists s', sunionDiffGenericCommand 1 [Heap 3; Heap 4] (Some [97]) SET_OP_DIFF s_sets = Some (tt, s') /\
    exists v, set_view env0 v (Some (X_set ∖ X_mixed)) /\
      set_outcome s_sets 1 [(0, [115]); (0, [116])] argv_sets s' (Some (0, [97])) v true 1 [RInt 2].
Proof.
  destruct (sunionDiffGenericCommand_computes s_sets 1 client0 argv_sets [Heap 3; Heap 4] [[115]; [116]] (Some [97]) SET_OP_DIFF
    [Some (Some X_set); Some (Some X_mixed)]) as (s' & Hrun & v & Hv & _ & Ho).
  - reflexivity.
  - apply store_check_sound. vm_compute. reflexivity.
  - unfold argv_sets. set_solver.
  - repeat constructor.
  - exact sets_steady.
  - apply (sets_are (Some [97])).
  - reflexivity.
  - intros Xs [= <-]. apply sets_small. rewrite !union_list_cons. cbn [union_list foldr]. rewrite union_empty_r_L. rewrite !elem_of_cons. tauto.
  - exists s'. split; [exact Hrun|]. exists v. cbn [op_result union_list foldr] in *. rewrite union_empty_r_L in *. split; [exact Hv|]. exact Ho.
Defined.

(** SINTER s t sends "3". *)
Lemma sinterGenericCommand_computes_witness :
  exists s', sinterGenericCommand 1 [Heap 3; Heap 4] None s_sets = Some (tt, s') /\
    exists eles, NoDup eles /\ list_to_set eles = X_mixed ∩ X_set /\
      set_outcome s_sets 1 [(0, [115]); (0, [116])] argv_sets s' None None false 0 (RMultiBulkLen (zlen eles) :: (RBulk <$> eles)).
Proof.
  apply (sinterGenericCommand_computes s_sets 1 client0 argv_sets [Heap 3; Heap 4] [[115]; [116]] None [Some (Some X_set); Some (Some X_mixed)]).
  - reflexivity.
  - apply store_check_sound. vm_compute. reflexivity.
  - unfold argv_sets. set_solver.
  - repeat constructor.
  - done.
  - exact sets_steady.
  - apply (sets_are None).
  - intros Xs [= <-]. repeat constructor; apply sets_small; rewrite !elem_of_cons; tauto.
Defined.

(** The whole commands on the same state. *)
Example sinter_replies : option_map (fun p => replies <$> clients p.2 !! 1) (sinterCommand 1 [Heap 1; Heap 3; Heap 4] s_sets)
  = Some (Some [RMultiBulkLen 1; RBulk [51]]).
Proof. vm_compute. reflexivity. Qed.
Example sunion_replies : option_map (fun p => length <$> (replies <$> clients p.2 !! 1)) (sunionCommand 1 [Heap 1; Heap 3; Heap 4] s_sets) = Some (Some 5%nat).
Proof. vm_compute. reflexivity. Qed.
Example sdiffstore_replies : option_map (fun p => replies <$> clients p.2 !! 1) (sdiffstoreCommand 1 argv_sets s_sets) = Some (Some [RInt 2]).
Proof. vm_compute. reflexivity. Qed.

(** SINTERSTORE a s c, where "c" does not exist: "a" is deleted, and no event is sent. *)
Example sinterstore_missing_no_event :
  option_map (fun p => (dict (st p.2) !! (0, [97]), events p.2, replies <$> clients p.2 !! 1)) (sinterstoreCommand 1 [Heap 1; Heap 2; Heap 3; Heap 1] s_sets)
  = Some (None, [], Some [RInt 0]).
Proof. vm_compute. reflexivity. Qed.
End SetOpSample.
