(* ===== verification/RdbObjectSpec.v ===== *)
(** * A value that is saved is loaded (rdb.c)

    The value of an object is a string, a finite set or a finite map ([avalue]), whatever its encoding.
    [object_code a t bs]: the bytes [bs] are a format of the value [a] with the type byte [t]. Saving writes such a
    format, and loading a format gives an object of the same value; the process that
    loads may have another byte order, another seed of its hash function and other limits of the
    encodings. *)

From S2P Require Import Prelude Endian Util Intset Sds SdsNum Ziplist ZiplistSpec ZiplistEdit ZiplistRead ZiplistPlace Dict DictIter DictMap Data State Rio Object Server SampleState TSet TSetSpec THash THashSpec Rdb RdbSpec RdbObject.

(** ** Values *)

Inductive avalue := AStr (s : sds) | ASet (X : gset sds) | AHash (m : gmap sds sds).

Definition has_value (E : env) (r : robj) (a : avalue) : Prop :=
  match a with
  | AStr s => string_obj s r
  | ASet X => set_rep E r X
  | AHash m => hash_rep E r m
  end.

(** What is needed of the strings, and of the sizes. *)
Definition sds_ok (s : sds) : Prop := bytes_ok s /\ zlen s < 2 ^ 31 /\ s <> sdec LLONG_MIN.
Definition value_fits (a : avalue) : Prop :=
  match a with
  | AStr s => zlen s < 2 ^ 31
  | ASet X => set_Forall sds_ok X /\ Z.of_nat (size X) + 1 < 2 ^ 27
  | AHash m => map_Forall (fun f v => sds_ok f /\ sds_ok v) m /\ hash_weight m + 256 < 2 ^ 31
  end.

(** The format of the entries of a hash. *)
Inductive pair_code (e : sds * sds) : list Z -> Prop :=
| code_pair b1 b2 : string_code (fst e) b1 -> string_code (snd e) b2 -> pair_code e (b1 ++ b2).

Definition intset_bytes (w : Z) (xs : list Z) : list Z := le_encode 4 w ++ le_encode 4 (zlen xs) ++ encs w xs.

Inductive object_code : avalue -> Z -> list Z -> Prop :=
| code_string s bs : string_code s bs -> bytes_ok s -> object_code (AStr s) RDB_TYPE_STRING bs
| code_set l bss : NoDup l -> Forall2 string_code l bss ->
    object_code (ASet (list_to_set l)) RDB_TYPE_SET (len_bytes (zlen l) ++ concat bss)
| code_intset w xs bs : enc_ok w -> Forall (in_s (8 * w)) xs -> increasing xs ->
    string_code (intset_bytes w xs) bs ->
    object_code (ASet (list_to_set (sdec <$> xs))) RDB_TYPE_SET_INTSET bs
| code_hash l bss : NoDup l.*1 -> Forall2 pair_code l bss ->
    object_code (AHash (list_to_map l)) RDB_TYPE_HASH (len_bytes (zlen l) ++ concat bss)
| code_ziplist zl l bs : zl_hash zl l -> bytes_ok zl -> string_code zl bs -> object_code (AHash (list_to_map l)) RDB_TYPE_HASH_ZIPLIST bs.

Lemma flat_elem l x : x ∈ flat l -> exists f v, (f, v) ∈ l /\ (x = f \/ x = v).
Proof. induction l as [|[f v] l IH]; cbn [flat]; set_solver. Qed.

(** ** Saving *)

Section save.
Context {B : Type} `{Source B} (C : config).
#[local] Hint Extern 0 Host => exact (env_host (data_env C)) : typeclass_instances.
Hypothesis table_ok : forall i, in_u 32 (lzf_table C i).
Abbreviation E := (data_env C).

Lemma writes_entries {V} `{T : !dictType sds V} `{!DictLaws sds V} (code : sds * V -> list Z -> Prop) (save : sds * V -> ST (option (rio B)) Z) rem :
  forall fuel (d : Dict.dict sds V) it n, dict_wf d -> i_safe it = false -> pending d it rem ->
  (not_started it = false -> fingerprint it = Some (dictFingerprint (fun _ => table_addr E) d)) ->
  (forall e, e ∈ rem -> exists bs, code e bs /\ saves bs (save e)) -> (length rem < fuel)%nat ->
  exists bss cs, Forall2 code rem bss /\ concat cs = concat bss /\ writes cs (n + zlen (concat bss)) (save_entries C fuel save d it n).
Proof.
  induction rem as [|e rem IH]; intros [|fuel] d it n W Hs Hp Hfp Hsave Hf; cbn [length] in Hf; try lia; cbn [save_entries].
  all: destruct (dictNext_spec (T := T) (fun _ => table_addr E) d it _ W Hp) as (d' & it' & En & [Ht Hsafe Hst Hit Hpr] & Hret);
    rewrite Hs, andb_false_r in Hit; assert (d' = d) as -> by (destruct Ht as (E0 & E1 & Er); destruct d, d'; cbn in *; by subst).
  all: assert (fingerprint it' = Some (dictFingerprint (fun _ => table_addr E) d)) as Hfp'
    by (rewrite Hpr, Hs, andb_true_r; destruct (not_started it) eqn:Hns; [done|by apply Hfp]).
  all: assert (dictReleaseIterator (fun _ => table_addr E) d it' = Some d) as Hrel
    by (unfold dictReleaseIterator; rewrite Hst, Hsafe, Hs; cbn [negb]; by rewrite bool_decide_eq_true_2).
  all: rewrite En; cbn [head].
  - exists [], []. split_and!; [constructor|done|]. cbn [concat]. rewrite zlen_nil, Z.add_0_r.
    eapply writes_eq; [|apply writes_ret]. intros rdb. rewrite (bind_run _ _ _ _ _ (lift_run _ _ _ eq_refl)). cbv beta iota. by rewrite Hrel.
  - destruct (Hsave e) as (bs & Hc & (cs1 & Ec1 & W1)); [set_solver|].
    destruct (IH fuel d it' (n + zlen bs) W) as (bss & cs & Hcs & Ecs & Wcs).
    + by rewrite Hsafe.
    + by eapply returned_pending.
    + done.
    + intros e' He'. apply Hsave. set_solver.
    + lia.
    + exists (bs :: bss), (cs1 ++ cs). split_and!; [by constructor|by rewrite concat_app, Ec1, Ecs|].
      cbn [concat]. rewrite zlen_app, Z.add_assoc.
      eapply writes_eq; [|eapply (writes_then cs1 (zlen bs) cs _ (save e) (fun m => save_entries C fuel save d it' (n + m))); [exact W1| |exact Wcs]].
      * intros rdb. rewrite (bind_run _ _ _ _ _ (lift_run _ _ _ eq_refl)). cbv beta iota. unfold or_error, mbind, ST_bind.
        destruct (save e rdb) as [[m r]|]; [|done]. destruct (m =? -1); [|done]. by rewrite Hrel.
      * pose proof (zlen_nonneg bs). lia.
Qed.

Lemma saves_dict {V} `{T : !dictType sds V} `{!DictLaws sds V} (code : sds * V -> list Z -> Prop) (save : sds * V -> ST (option (rio B)) Z) (d : Dict.dict sds V) :
  dict_wf d -> zlen (entries d) < 2 ^ 31 -> (forall e, e ∈ entries d -> exists bs, code e bs /\ saves bs (save e)) ->
  exists bss, Forall2 code (entries d) bss /\ saves (len_bytes (zlen (entries d)) ++ concat bss) (save_dict C save d).
Proof.
  intros W Hl Hsave. unfold save_dict. rewrite (dictSize_spec (T := T)) by done. pose proof (zlen_nonneg (entries d)).
  destruct (writes_entries code save (entries d) (S (Z.to_nat (zlen (entries d)))) d dictGetIterator (zlen (len_bytes (zlen (entries d)))) W)
    as (bss & cs & Hc & Ec & Wc); [done|by apply (iterate_fresh_pending (T := T))|done|done|unfold zlen; lia|].
  exists bss. split; [done|]. eapply saves_then; [apply saves_len; unfold in_u; lia|exists cs; split; [exact Ec|exact Wc]|done].
Qed.

Lemma saves_pair e : sds_ok (fst e) -> sds_ok (snd e) ->
  exists bs, pair_code e bs /\ saves bs (or_error (save_sds (B := B) C (fst e)) (fun n1 => or_error (save_sds C (snd e)) (fun n2 => mret (n1 + n2)))).
Proof.
  intros (Hb1 & Hl1 & _) (Hb2 & Hl2 & _). destruct (saves_sds (B := B) E (rdb_compression C) _ table_ok (fst e) Hb1 Hl1) as (b1 & C1 & S1).
  destruct (saves_sds (B := B) E (rdb_compression C) _ table_ok (snd e) Hb2 Hl2) as (b2 & C2 & S2). exists (b1 ++ b2). split; [by constructor|].
  destruct S2 as (cs2 & E2 & W2). eapply saves_then; [exact S1| |reflexivity]. exists cs2. split; [done|].
  rewrite <- (app_nil_r cs2). eapply writes_then; [exact W2|pose proof (zlen_nonneg b2); lia|apply writes_ret].
Qed.

(** The block of an integer set does not depend on the byte order. *)
Lemma intset_block_bytes is_ w xs : intset_rep is_ w xs ->
  intset_block is_ = intset_bytes w xs /\ intsetBlobLen is_ = zlen (intset_bytes w xs) /\ zlen (intset_bytes w xs) = 8 + zlen xs * w.
Proof.
  intros R. pose proof (rep_len_bound _ _ _ R). pose proof (enc_ok_bounds w (rep_w _ _ _ R)). pose proof (rep_size _ _ _ R).
  assert (zlen (intset_bytes w xs) = 8 + zlen xs * w) as Hl.
  { unfold intset_bytes. rewrite !zlen_app, (zlen_encs w xs) by (apply R || lia).
    assert (forall v, zlen (le_encode 4 v) = 4) as Hle by (intros v; unfold zlen; by rewrite length_le_encode). rewrite !Hle. lia. }
  split_and!; [|rewrite Hl|done].
  - unfold intset_block, intset_bytes. by rewrite (rep_encoding _ _ _ R), (Intset.rep_length _ _ _ R), !host_bytes_intrev32ifbe, (rep_contents _ _ _ R).
  - unfold intsetBlobLen. rewrite (rep_len_get _ _ _ R), (rep_enc_get _ _ _ R). rewrite wrapu_small by (unfold in_u; nia). done.
Qed.

Lemma intset_bytes_ok w xs : bytes_ok (intset_bytes w xs).
Proof.
  unfold intset_bytes. rewrite !Forall_app. split_and!; auto with redis. unfold encs. induction xs as [|x xs IH]; [constructor|].
  cbn [fmap list_fmap concat]. apply Forall_app. split; [auto with redis|done].
Qed.

(** The first byte of an integer set is 2, 4 or 8. *)
Lemma try_integer_intset w xs len : enc_ok w -> rdbTryIntegerEncoding (intset_bytes w xs) len = Some [].
Proof.
  intros Hw. assert (exists l, intset_bytes w xs = w :: 0 :: 0 :: 0 :: l) as [l ->].
  { unfold intset_bytes. destruct Hw as [->|[->| ->]]; by eexists. }
  destruct Hw as [->|[->| ->]]; by apply try_integer_block.
Qed.

Lemma saves_block mem : bytes_ok mem -> zlen mem < 2 ^ 31 ->
  (zlen mem <= 11 -> rdbTryIntegerEncoding mem (zlen mem) = Some []) ->
  exists bs, string_code mem bs /\ saves bs (save_raw (B := B) C mem (zlen mem)).
Proof.
  intros Hb Hl Ht. apply saves_raw_string; [done| |done|done|].
  - rewrite <- (app_nil_r mem) at 1. by apply rd_front.
  - intros H11. exists []. split; [by apply Ht|by left].
Qed.

Lemma dom_entries (d : Dict.dict sds unit) : dom (dmap d) = (list_to_set (entries d).*1 : gset sds).
Proof. unfold dmap. by rewrite dom_list_to_map_L. Qed.

(** [rdbSaveObjectType] and [rdbSaveObject] write a format of the value. *)
Lemma saves_object r a : has_value E r a -> value_fits a ->
  exists t bs, object_code a t bs /\ rdbIsObjectType t = true /\ 0 <= t < 16 /\
    saves [t] (rdbSaveObjectType (B := B) r) /\ saves bs (rdbSaveObject (B := B) C r).
Proof.
  assert (forall t, saves [t] (rdbSaveType (B := B) t)) as Htype by (intros t; by apply saves_raw).
  destruct a as [s|X|m]; cbn [has_value value_fits].
  - intros Hr Hl. destruct (saves_string_object (B := B) E (rdb_compression C) _ table_ok s r Hr Hl) as (bs & Hc & Hs).
    exists RDB_TYPE_STRING, bs. unfold rdbSaveObjectType, rdbSaveObject, save_set, save_hash. rewrite (string_obj_type s r Hr).
    split_and!; try done. constructor; [done|]. inversion Hr; subst; [done|done|apply sdec_bytes].
  - intros Hr [Hok Hsz]. destruct (set_rep_shape _ _ _ Hr) as [is_ w xs Er R ->|d Er W ->]; rewrite Er; unfold rdbSaveObjectType, rdbSaveObject, save_set, save_hash;
      cbn [type encoding as_intset as_set ptr].
    + rewrite (size_intset _ _ _ _ R) in Hsz. destruct (intset_block_bytes _ _ _ R) as (Eb & El & Hl). pose proof (enc_ok_bounds w (rep_w _ _ _ R)).
      pose proof (zlen_nonneg xs). destruct (saves_block (intset_bytes w xs) (intset_bytes_ok w xs)) as (bs & Hc & Hs);
        [nia|intros _; apply try_integer_intset, R|].
      exists RDB_TYPE_SET_INTSET, bs. split_and!; try done; [econstructor; try done; apply R|].
      cbn [lift]. eapply saves_eq; [intros rdb; rewrite (bind_run _ _ _ _ _ (ret_run _ _)); rewrite Eb, El; reflexivity|exact Hs].
    + rewrite size_dom, <- (dmap_size (T := setDictType E)) in Hsz by done. pose proof (zlen_nonneg (entries d)).
      destruct (saves_dict (T := setDictType E) (fun e => string_code (fst e)) (fun e => save_sds (B := B) C (fst e)) d W) as (bss & Hc & Hs); [lia| |].
      { intros e He. assert (fst e ∈ dom (dmap d)) as Hin by (rewrite dom_entries, elem_of_list_to_set; by apply list_elem_of_fmap_2).
        destruct (Hok _ Hin) as (Hb & Hl & _). by apply saves_sds. }
      exists RDB_TYPE_SET, (len_bytes (zlen (entries d)) ++ concat bss). split_and!; try done.
      rewrite dom_entries. replace (zlen (entries d)) with (zlen (entries d).*1) by (unfold zlen; by rewrite length_fmap).
      constructor; [by apply (entries_NoDup (T := setDictType E))|]. by apply Forall2_fmap_l.
  - intros Hr [Hok Hsz]. pose proof (hash_weight_size m) as Hws. destruct (hash_rep_shape _ _ _ Hr) as [zl l Er Hzl ->|d Er W ->]; rewrite Er; unfold rdbSaveObjectType, rdbSaveObject, save_set, save_hash;
      cbn [type encoding as_zl as_hash ptr].
    + pose proof Hzl as [Hrep Hn]. destruct (rep_block _ _ Hrep) as (El & Hl & Hb & H11). rewrite hash_weight_list in Hsz by done.
      assert (bytes_ok zl) as Hbz.
      { apply Hb. apply Forall_forall. intros x Hx. apply flat_elem in Hx as (f & v & Hin & Hx).
        apply (elem_of_list_to_map_1 (M := gmap sds)) in Hin; [|done]. destruct (Hok f v Hin) as [(? & _) (? & _)]. by destruct Hx as [->| ->]. }
      destruct (saves_block zl Hbz) as (bs & Hc & Hs); [lia| |].
      { intros Hle. destruct (H11 Hle) as [cnt ->]. by apply try_integer_block. }
      exists RDB_TYPE_HASH_ZIPLIST, bs. split_and!; try done; [by econstructor|].
      cbn [lift]. eapply saves_eq; [intros rdb; rewrite (bind_run _ _ _ _ _ (ret_run _ _)); rewrite El; cbn [lift];
        rewrite (bind_run _ _ _ _ _ (ret_run _ _)); reflexivity|exact Hs].
    + rewrite <- (dmap_size (T := hashDictType E)) in Hws by done. pose proof (zlen_nonneg (entries d)).
      destruct (saves_dict (T := hashDictType E) pair_code (fun e => or_error (save_sds (B := B) C (fst e)) (fun n1 =>
        or_error (save_sds C (snd e)) (fun n2 => mret (n1 + n2)))) d W) as (bss & Hc & Hs); [lia| |].
      { intros [f v] He. apply (dmap_elem (T := hashDictType E)) in He; [|done]. destruct (Hok f v He) as [H1 H2]. by apply saves_pair. }
      exists RDB_TYPE_HASH, (len_bytes (zlen (entries d)) ++ concat bss). split_and!; try done.
      constructor; [by apply (entries_NoDup (T := hashDictType E))|done].
Qed.
End save.

(** ** Loading *)

Lemma host_uint_le4 `{Host} v : in_u 32 v -> host_uint (le_encode 4 v) = intrev32ifbe v.
Proof.
  intros Hv. unfold host_uint, intrev32ifbe. destruct big_endian; [by rewrite intrev32_eq|].
  rewrite le_decode_encode. by apply Z.mod_small.
Qed.

Section load.
Context {B : Type} `{Source B} (C : config).
#[local] Hint Extern 0 Host => exact (env_host (data_env C)) : typeclass_instances.
#[local] Hint Extern 0 (dictType sds unit) => exact (setDictType (data_env C)) : typeclass_instances.
#[local] Hint Extern 0 (dictType sds sds) => exact (hashDictType (data_env C)) : typeclass_instances.
Abbreviation E := (data_env C).

Lemma loads_sds s bs t : string_code s bs -> bytes_ok s -> loads_obj (B := B) bs t (Some s) t (load_sds C).
Proof.
  intros Hc Hb. rewrite <- (app_nil_r bs). eapply loads_obj_or_null; [exact (loads_string (B := B) E (share C) s bs RDB_LOAD_SDS t Hc Hb)|].
  apply loads_obj_ret.
Qed.
Lemma loads_block s bs t : string_code s bs -> bytes_ok s -> loads_obj (B := B) bs t (Some s) t (load_block C).
Proof.
  intros Hc Hb. rewrite <- (app_nil_r bs). eapply loads_obj_or_null; [exact (loads_string (B := B) E (share C) s bs RDB_LOAD_PLAIN t Hc Hb)|].
  apply loads_obj_ret.
Qed.

(** *** Sets *)

Lemma load_element_rep len r X v : set_rep E r X -> Z.of_nat (size X) + 1 < 2 ^ 28 -> writable ({[v]} ∪ X) -> len <= 2 ^ 62 ->
  exists r', load_element C len r v = Some r' /\ set_rep E r' ({[v]} ∪ X) /\ refcount r' = refcount r.
Proof.
  intros Hr Hb Hw Hlen.
  assert (forall d n X, dict_wf (T := setDictType E) d -> X = dom (dmap d) -> Z.of_nat (size X) + 1 < 2 ^ 28 ->
    exists r', (d ← as_set (Robj OBJ_SET OBJ_ENCODING_HT (PData (DSet d)) n);
      '(d', _) ← dictAdd tt (can_resize E) d v tt;
      Some (with_set d' (Robj OBJ_SET OBJ_ENCODING_HT (PData (DSet d)) n))) = Some r' /\ set_rep E r' ({[v]} ∪ X) /\ refcount r' = n) as Hht.
  { intros d n Y W -> HY. rewrite size_dom in HY. cbn [as_set ptr mbind option_bind].
    destruct (dictAdd_map (T := setDictType E) tt (can_resize E) d v tt W) as (d1 & st & Ea & W1 & Hst); [lia|].
    rewrite Ea. cbn [mbind option_bind]. eexists. split; [done|]. split; [|done].
    assert ({[v]} ∪ dom (dmap d) = dom (dmap d1)) as ->; [|by apply ht_rep].
    destruct (dmap d !! v) as [u|] eqn:Ev; destruct Hst as [_ ->]; [|by rewrite dom_insert_L].
    assert (v ∈ dom (dmap d)) by (apply elem_of_dom; by exists u). set_solver. }
  unfold load_element. destruct (set_rep_shape _ _ _ Hr) as [is_ w xs Er R ->|d Er W ->]; rewrite Er; cbn [encoding as_intset ptr mbind option_bind refcount].
  - rewrite bool_decide_eq_true_2 by done. assert (forall x, x ∈ xs -> in_s 64 x) as Hxr by (intros x; by apply (xs_range _ _ _ _ _ R)).
    rewrite (size_intset _ _ _ _ R) in Hb. unfold isSdsRepresentableAsLongLong. destruct (string2ll v) as [z|] eqn:Hn.
    + destruct (string2ll_sound _ _ Hn) as [Hs Ev].
      destruct (intsetAdd_rep (new_bytes E) is_ w xs z R Hs) as (is' & w' & xs' & Ea & R' & Hel); [lia|].
      rewrite Ea. cbn [mbind option_bind with_intset with_ptr encoding]. rewrite bool_decide_eq_false_2 by done. eexists. split; [done|]. split; [|done].
      assert ({[v]} ∪ list_to_set (sdec <$> xs) = (list_to_set (sdec <$> xs') : gset sds)) as ->; [|by eapply int_rep].
      apply set_eq. intros y. rewrite elem_of_union, elem_of_singleton, !elem_of_list_to_set, !list_elem_of_fmap.
      setoid_rewrite Hel. rewrite Ev. set_solver.
    + destruct (setTypeConvert_spec E is_ w xs (refcount r) R) as (d & Ec & W & Hd); [set_solver|].
      rewrite Ec. cbn [mbind option_bind as_set ptr].
      destruct (dictExpand_map (T := setDictType E) d len W Hlen) as (d1 & st & Ee & W1 & Hd1). rewrite Ee.
      cbn [mbind option_bind with_set with_ptr encoding type refcount]. rewrite bool_decide_eq_true_2 by done.
      apply (Hht d1 (refcount r) _ W1); [by rewrite Hd1, Hd|by rewrite (size_intset _ _ _ _ R)].
  - rewrite bool_decide_eq_false_2 by done. cbn [mbind option_bind encoding]. rewrite bool_decide_eq_true_2 by done. by apply Hht.
Qed.

Lemma load_set_loop_rep l : forall bss i len r X, Forall2 string_code l bss -> Forall bytes_ok l -> set_rep E r X ->
  writable (list_to_set l ∪ X) -> Z.of_nat (size (list_to_set l ∪ X)) + 1 < 2 ^ 28 -> 0 <= i -> i + zlen l = len -> len < 2 ^ 32 ->
  exists r', (forall t, loads_obj (B := B) (concat bss) t (r', true) t (load_set_loop C (length l) i len r)) /\
    set_rep E r' (list_to_set l ∪ X) /\ refcount r' = refcount r.
Proof.
  induction l as [|v l IH]; intros bss i len r X Hc Hb Hr Hw Hsz Hi Hlen Hmax.
  - apply Forall2_nil_inv_l in Hc. subst bss. rewrite zlen_nil in Hlen. exists r. cbn [length load_set_loop concat list_to_set].
    rewrite (proj2 (Z.ltb_ge i len)) by lia. split; [intros t; apply loads_obj_ret|]. split; [|done]. by rewrite (left_id_L ∅ (∪)).
  - apply Forall2_cons_inv_l in Hc as (bs & bss' & Hc & Hcs & ->). apply Forall_cons in Hb as [Hbv Hb]. rewrite zlen_cons in Hlen. pose proof (zlen_nonneg l).
    cbn [list_to_set] in Hw, Hsz |- *.
    assert (size X <= size ({[v]} ∪ list_to_set l ∪ X))%nat by (apply subseteq_size; set_solver).
    destruct (load_element_rep len r X v Hr) as (r1 & E1 & Hr1 & Hc1); [lia|set_solver|lia|].
    assert (list_to_set l ∪ ({[v]} ∪ X) = {[v]} ∪ list_to_set l ∪ X) as HX by set_solver.
    destruct (IH bss' (wrapu 32 (i + 1)) len r1 ({[v]} ∪ X) Hcs Hb Hr1) as (r2 & L2 & Hr2 & Hc2).
    + by rewrite HX.
    + by rewrite HX.
    + apply wrapu_range. lia.
    + rewrite wrapu_small by (unfold in_u; lia). lia.
    + done.
    + exists r2. rewrite HX in Hr2. split; [intros t|split; [done|congruence]]. cbn [length load_set_loop concat].
      rewrite (proj2 (Z.ltb_lt i len)) by lia. eapply loads_obj_or_null; [by apply loads_sds|].
      eapply (loads_obj_bind [] _ t t t r1); [by apply loads_obj_lift|exact (L2 t)].
Qed.

(** The new object holds the value; the others keep theirs. *)
Definition value_is (v : value) (a : avalue) : Prop :=
  match a, v with
  | AStr s, VStr s' => s' = s
  | ASet X, VObj OBJ_SET d => set_data E d X
  | AHash m, VObj OBJ_HASH d => hash_data E d m
  | _, _ => False
  end.

Lemma has_value_is r a : has_value E r a -> robj_ok r /\ value_is (val_of r) a.
Proof.
  destruct a as [s|X|m]; cbn [has_value value_is].
  - intros Hr. split; [by eapply string_obj_ok|]. by rewrite (string_obj_val _ _ Hr).
  - intros [Ht Hok (d & Hp & Hd)]. split; [done|]. unfold val_of. by rewrite Hp, Ht.
  - intros [Ht Hok (d & Hp & Hd)]. split; [done|]. unfold val_of. by rewrite Hp, Ht.
Qed.

Definition loads_value (bs : list Z) (a : avalue) (m : ST (rio B * store) (option oid)) : Prop := forall t F, store_ok t F ->
  exists o t' v, loads_obj bs t (Some o) t' m /\ store_ok t' (o :: F) /\ val_step (refs t F) t t' /\ val_at t' o = Some v /\ value_is v a.

Lemma loads_finish r a : has_value E r a -> refcount r = 1 -> loads_value [] a (finish (r, true)).
Proof.
  intros Hv H1 t F Hok. destruct (has_value_is r a Hv) as [Hrok Hval].
  destruct (alloc_obj_spec t F r Hok Hrok H1) as (o & t' & Ea & Hok' & Ho & _ & Hst). exists o, t', (val_of r). split_and!; try done.
  - eapply loads_obj_map; [by apply loads_in_heap|]. apply loads_obj_ret.
  - by apply heap_val_step.
  - unfold val_at. by rewrite Ho.
Qed.

Lemma loads_value_bind {A} x y (v : A) a m k : (forall t, loads_obj (B := B) x t v t m) -> loads_value y a (k v) -> loads_value (x ++ y) a (m ≫= k).
Proof.
  intros Hm Hk t F Hok. destruct (Hk t F Hok) as (o & t' & w & Hl & Hrest). exists o, t', w. split; [|done].
  by eapply loads_obj_bind.
Qed.
Lemma loads_value_or_null {A} x y (v : A) a m k : (forall t, loads_obj (B := B) x t (Some v) t m) -> loads_value y a (k v) -> loads_value (x ++ y) a (or_null m None k).
Proof. intros Hm Hk. by apply (loads_value_bind x y (Some v)). Qed.

Lemma set_fits l : set_Forall sds_ok (list_to_set l : gset sds) -> Forall bytes_ok l /\ writable (list_to_set l).
Proof.
  intros Hok. split.
  - apply Forall_forall. intros x Hx. apply (Hok x). by apply elem_of_list_to_set.
  - intros Hin. by apply (Hok _ Hin).
Qed.

Lemma loads_set l bss : NoDup l -> Forall2 string_code l bss -> value_fits (ASet (list_to_set l)) ->
  loads_value (len_bytes (zlen l) ++ concat bss) (ASet (list_to_set l)) (load_set C).
Proof.
  intros Hn Hc [Hok Hsz]. destruct (set_fits l Hok) as [Hb Hw]. rewrite size_list_to_set in Hsz by done. fold (zlen l) in Hsz. pose proof (zlen_nonneg l).
  unfold load_set. eapply loads_value_or_null; [intros t; apply loads_in_rio, loads_loaded_len; unfold in_u, RDB_LENERR; lia|]. cbv beta.
  assert (exists r, (if zlen l >? set_max_intset_entries C then if zlen l >? DICT_HT_INITIAL_SIZE then
      '(d, _) ← lift (dictExpand dictCreate (zlen l)); mret (with_set d createSetObject) else mret createSetObject
      else mret (createIntsetObject E) : ST (rio B * store) robj) = mret r /\ set_rep E r ∅ /\ refcount r = 1) as (r & -> & Hr & H1).
  { assert (forall d, dict_wf (T := setDictType E) d -> dmap d = ∅ -> set_rep E (with_set d createSetObject) ∅) as Hd.
    { intros d W Hd. change (with_set d createSetObject) with (Robj OBJ_SET OBJ_ENCODING_HT (PData (DSet d)) 1). pose proof (ht_rep E d 1 W) as X.
      by rewrite Hd, dom_empty_L in X. }
    pose proof (dictEmpty_wf (T := setDictType E)) as W0. destruct (zlen l >? set_max_intset_entries C).
    - destruct (zlen l >? DICT_HT_INITIAL_SIZE).
      + destruct (dictExpand_map (T := setDictType E) _ (zlen l) W0) as (d & st & Ee & W & Hde); [lia|]. unfold dictCreate. rewrite Ee.
        eexists. split; [reflexivity|]. split; [|done]. apply Hd; [done|]. by rewrite Hde, dmap_init.
      + eexists. split; [reflexivity|]. split; [|done]. apply (Hd dictCreate W0). apply dmap_init.
    - eexists. split; [reflexivity|]. split; [|done]. split; [done|done|]. eexists. split; [done|]. exists ∅. split; [apply intsetNew_abs|done]. }
  rewrite <- (app_nil_r (concat bss)). apply (loads_value_bind [] _ r); [intros t; apply loads_obj_ret|].
  assert (Z.to_nat (zlen l) = length l) as -> by (unfold zlen; lia).
  assert (exists r', (forall t, loads_obj (B := B) (concat bss) t (r', true) t (load_set_loop C (length l) 0 (zlen l) r)) /\
    set_rep E r' (list_to_set l) /\ refcount r' = 1) as (r' & Hl & Hr' & H1').
  { destruct (load_set_loop_rep l bss 0 (zlen l) r ∅ Hc Hb Hr) as (r' & Hl & Hr' & Hc'); rewrite ?(right_id_L ∅ (∪)) in *; try done; try lia.
    - rewrite size_list_to_set by done. fold (zlen l). lia.
    - exists r'. by rewrite Hc'. }
  apply (loads_value_bind _ [] (r', true)); [exact Hl|]. by apply loads_finish.
Qed.

Lemma block_intset_rep w xs : enc_ok w -> Forall (in_s (8 * w)) xs -> increasing xs -> zlen xs * w < 2 ^ 32 ->
  exists is_, block_intset (intset_bytes w xs) = Some is_ /\ intset_rep is_ w xs.
Proof.
  intros Hw Hr Hi Hsz. pose proof (enc_ok_bounds w Hw). pose proof (zlen_nonneg xs).
  assert (forall v, zlen (le_encode 4 v) = 4) as Hle by (intros v; unfold zlen; by rewrite length_le_encode).
  unfold block_intset, intset_bytes. rewrite rd_front by apply Hle. cbn [mbind option_bind]. rewrite rd_app by apply Hle. cbn [mbind option_bind].
  eexists. split; [done|]. split; cbn [is_encoding is_length is_contents]; try done.
  - apply host_uint_le4. unfold in_u. lia.
  - apply host_uint_le4. unfold in_u. nia.
Qed.

Lemma loads_intset w xs bs : enc_ok w -> Forall (in_s (8 * w)) xs -> increasing xs -> string_code (intset_bytes w xs) bs ->
  value_fits (ASet (list_to_set (sdec <$> xs))) -> loads_value bs (ASet (list_to_set (sdec <$> xs))) (load_intset C).
Proof.
  intros Hw Hr Hi Hc [Hok Hsz]. pose proof (enc_ok_bounds w Hw). pose proof (zlen_nonneg xs).
  assert (NoDup (sdec <$> xs)) as Hn.
  { apply NoDup_fmap_2_strong; [|by apply increasing_NoDup]. intros x y Hx Hy. rewrite Forall_forall in Hr.
    apply sdec_inj; [specialize (Hr x Hx)|specialize (Hr y Hy)]; unfold in_s in *; destruct Hw as [->|[->| ->]]; cbn in *; lia. }
  rewrite size_list_to_set, length_fmap in Hsz by done. fold (zlen xs) in Hsz.
  destruct (block_intset_rep w xs Hw Hr Hi) as (is_ & Eb & R); [nia|].
  rewrite <- (app_nil_r bs). unfold load_intset. eapply loads_value_or_null; [intros t; apply loads_block; [exact Hc|apply intset_bytes_ok]|]. cbv beta.
  rewrite Eb. apply (loads_value_bind [] [] is_); [intros t; by apply loads_obj_lift|]. cbv zeta.
  assert (exists r, (if intsetLen is_ >? set_max_intset_entries C then lift (setTypeConvert E (Robj OBJ_SET OBJ_ENCODING_INTSET (PData (DIntset is_)) 1) OBJ_ENCODING_HT)
      else mret (Robj OBJ_SET OBJ_ENCODING_INTSET (PData (DIntset is_)) 1) : ST (rio B * store) robj) = mret r /\
      set_rep E r (list_to_set (sdec <$> xs)) /\ refcount r = 1) as (r & -> & Hrep & Hone).
  { destruct (_ >? _).
    - destruct (setTypeConvert_spec E is_ w xs 1 R) as (d & Ed & W & Hd); [by apply set_fits|]. rewrite Ed. eexists. split; [reflexivity|].
      split; [|done]. rewrite <- Hd. by apply ht_rep.
    - eexists. split; [reflexivity|]. split; [|done]. by eapply int_rep. }
  apply (loads_value_bind [] [] r); [intros t; apply loads_obj_ret|]. by apply loads_finish.
Qed.

(** *** Hashes *)

Definition pair_ok (e : sds * sds) : Prop := sds_ok (fst e) /\ sds_ok (snd e).

Lemma pairs_writable l : Forall pair_ok l -> hash_writable (list_to_map l : gmap sds sds).
Proof.
  intros Hl f v Hf. apply elem_of_list_to_map_2 in Hf. rewrite Forall_forall in Hl. destruct (Hl _ Hf) as [(_ & _ & ?) (_ & _ & ?)]. done.
Qed.

(** The two strings of an entry are read. *)
Lemma loads_pair {A} e bs t (k : sds -> sds -> ST (rio B * store) A) y v t' e1 e2 : pair_code e bs -> pair_ok e -> loads_obj y t v t' (k (fst e) (snd e)) ->
  loads_obj (bs ++ y) t v t' (or_null (load_sds C) e1 (fun f => or_null (load_sds C) e2 (k f))).
Proof.
  intros Hc [(Hb1 & _) (Hb2 & _)] Hk. destruct Hc as [b1 b2 C1 C2]. rewrite <- app_assoc.
  eapply loads_obj_or_null; [by apply loads_sds|]. eapply loads_obj_or_null; [by apply loads_sds|]. exact Hk.
Qed.

Abbreviation zl_robj zl n := (Robj OBJ_HASH OBJ_ENCODING_ZIPLIST (PData (DZiplist zl)) n).
Abbreviation ht_robj d n := (Robj OBJ_HASH OBJ_ENCODING_HT (PData (DHash d)) n).

Lemma push_pair zl l f v : zl_hash zl l -> f ∉ l.*1 -> zl_weight (flat l) + zlen f + zlen v + 128 < 2 ^ 31 ->
  exists zl1 zl2, ziplistPush (new_bytes E) zl f ZIPLIST_TAIL = Some zl1 /\ ziplistPush (new_bytes E) zl1 v ZIPLIST_TAIL = Some zl2 /\
    zl_hash zl2 (l ++ [(f, v)]).
Proof.
  intros [Hrep Hn] Hf Hb. pose proof (zlen_nonneg f). pose proof (zlen_nonneg v).
  destruct (place_push (new_bytes E) zl (flat l) f Hrep) as (zl1 & E1 & G1); [lia|].
  destruct (place_push (new_bytes E) zl1 (flat l ++ [f]) v G1) as (zl2 & E2 & G2).
  { rewrite zl_weight_app, zl_weight_cons. change (zl_weight []) with 0. lia. }
  exists zl1, zl2. split_and!; [done|done|]. split; [by rewrite flat_app; rewrite <- app_assoc in G2|].
  rewrite fmap_app. apply NoDup_app. split_and!; [done| |apply NoDup_singleton]. intros x Hx Hx2. cbn in Hx2. set_solver.
Qed.

Lemma load_zl_loop_rep l : forall bss l0 zl, Forall2 pair_code l bss -> Forall pair_ok (l0 ++ l) -> zl_hash zl l0 -> NoDup (l0 ++ l).*1 ->
  zl_weight (flat (l0 ++ l)) + 128 < 2 ^ 31 ->
  exists a b bsa bsb r, l = a ++ b /\ bss = bsa ++ bsb /\ Forall2 pair_code b bsb /\
    (forall t, loads_obj (B := B) (concat bsa) t (r, zlen b, true) t (load_zl_loop C (length l) (zlen l) (zl_robj zl 1))) /\
    hash_rep E r (list_to_map (l0 ++ a)) /\ refcount r = 1 /\ (b = [] \/ encoding r = OBJ_ENCODING_HT).
Proof.
  induction l as [|[f v] l IH]; intros bss l0 zl Hc Hok Hz Hn Hw.
  - apply Forall2_nil_inv_l in Hc. subst bss. exists [], [], [], [], (zl_robj zl 1). rewrite (app_nil_r l0). split_and!; try done; [|by apply zl_hash_rep|by left].
    intros t. apply loads_obj_ret.
  - apply Forall2_cons_inv_l in Hc as (bs & bss' & Hc & Hcs & ->).
    assert (l0 ++ (f, v) :: l = (l0 ++ [(f, v)]) ++ l) as El by by rewrite <- app_assoc.
    assert (f ∉ l0.*1) as Hf.
    { rewrite fmap_app in Hn. apply NoDup_app in Hn as (_ & Hd & _). intros Hin. apply (Hd f Hin). cbn. set_solver. }
    assert (pair_ok (f, v)) as Hp by (apply Forall_app in Hok as [_ Hok]; by apply Forall_cons in Hok as [Hok _]).
    assert (zl_weight (flat (l0 ++ (f, v) :: l)) = zl_weight (flat l0) + zlen f + zlen v + 52 + zl_weight (flat l)) as Hwe.
    { rewrite flat_app, zl_weight_app. cbn [flat]. rewrite !zl_weight_cons. lia. }
    pose proof (zl_weight_nonneg (flat l)). destruct (push_pair zl l0 f v Hz Hf) as (zl1 & zl2 & E1 & E2 & G2); [lia|].
    assert ((zlen ((f, v) :: l) >? 0) = true) as Hgt by (rewrite zlen_cons, Z.gtb_ltb; apply Z.ltb_lt; pose proof (zlen_nonneg l); lia).
    assert (zlen ((f, v) :: l) - 1 = zlen l) as Hlen by (rewrite zlen_cons; lia).
    destruct ((zlen f >? hash_max_ziplist_value C) || (zlen v >? hash_max_ziplist_value C)) eqn:Ebig.
    + destruct (hashTypeConvert_rep E zl2 (l0 ++ [(f, v)]) 1 G2) as (d & Ed & W & Hd).
      { apply pairs_writable. rewrite El in Hok. by apply Forall_app in Hok as [Hok _]. }
      exists [(f, v)], l, [bs], bss', (ht_robj d 1). split_and!; try done; [|rewrite <- Hd; by apply ht_hash_rep|by right].
      intros t. cbn [length load_zl_loop encoding concat]. rewrite bool_decide_eq_true_2 by done. cbn [andb]. rewrite Hgt, Hlen.
      eapply loads_pair; [exact Hc|done|]. cbn [fst snd].
      eapply loads_obj_step; [done|]. eapply loads_obj_step; [exact E1|]. eapply loads_obj_step; [exact E2|]. cbv beta zeta. rewrite Ebig.
      eapply loads_obj_step; [exact Ed|]. apply loads_obj_ret.
    + destruct (IH bss' (l0 ++ [(f, v)]) zl2 Hcs) as (a & b & bsa & bsb & r & -> & -> & Hcb & Hl & Hr & G1 & Hend); [by rewrite <- El|done|by rewrite <- El|by rewrite <- El|].
      exists ((f, v) :: a), b, (bs :: bsa), bsb, r. split_and!; try done; [|by rewrite <- app_assoc in Hr].
      intros t. cbn [length load_zl_loop encoding concat]. rewrite bool_decide_eq_true_2 by done. cbn [andb]. rewrite Hgt, Hlen.
      eapply loads_pair; [exact Hc|done|]. cbn [fst snd].
      eapply loads_obj_step; [done|]. eapply loads_obj_step; [exact E1|]. eapply loads_obj_step; [exact E2|]. cbv beta zeta. rewrite Ebig. exact (Hl t).
Qed.

Lemma load_ht_loop_rep l : forall bss d, Forall2 pair_code l bss -> Forall pair_ok l -> dict_wf (T := hashDictType E) d ->
  NoDup l.*1 -> (forall f, f ∈ l.*1 -> dmap d !! f = None) -> Z.of_nat (size (dmap d)) + zlen l + 1 < 2 ^ 60 ->
  exists d', (forall t, loads_obj (B := B) (concat bss) t (ht_robj d' 1, 0, true) t (load_ht_loop C (length l) (zlen l) (ht_robj d 1))) /\
    dict_wf (T := hashDictType E) d' /\ dmap d' = list_to_map l ∪ dmap d.
Proof.
  induction l as [|[f v] l IH]; intros bss d Hc Hok W Hn Hnew Hsz.
  - apply Forall2_nil_inv_l in Hc. subst bss. exists d. split_and!; [|done|symmetry; apply (left_id_L ∅ (∪))]. intros t. apply loads_obj_ret.
  - apply Forall2_cons_inv_l in Hc as (bs & bss' & Hc & Hcs & ->). apply Forall_cons in Hok as [Hp Hok]. rewrite fmap_cons in Hn. apply NoDup_cons in Hn as [Hf Hn].
    rewrite zlen_cons in Hsz. pose proof (zlen_nonneg l).
    assert (dmap d !! f = None) as Hnone by (apply Hnew; cbn; set_solver).
    destruct (dictAdd_map (T := hashDictType E) [] (can_resize E) d f v W) as (d1 & st & Ea & W1 & Hst); [lia|].
    rewrite Hnone in Hst. destruct Hst as [-> Hd1].
    destruct (IH bss' d1 Hcs Hok W1 Hn) as (d2 & Hl & W2 & Hd2).
    + intros g Hg. rewrite Hd1, lookup_insert_ne; [|intros ->; done]. apply Hnew. cbn. set_solver.
    + rewrite Hd1, map_size_insert_None by done. lia.
    + exists d2. split_and!; [|done|].
      * intros t. cbn [length load_ht_loop encoding concat]. rewrite bool_decide_eq_true_2 by done. cbn [andb].
        assert ((zlen ((f, v) :: l) >? 0) = true) as -> by (rewrite zlen_cons, Z.gtb_ltb; apply Z.ltb_lt; lia).
        assert (zlen ((f, v) :: l) - 1 = zlen l) as -> by (rewrite zlen_cons; lia).
        eapply loads_pair; [exact Hc|done|]. cbn [fst snd].
        eapply loads_obj_step; [done|]. eapply loads_obj_step; [exact Ea|]. exact (Hl t).
      * rewrite Hd2, Hd1. cbn [list_to_map foldr uncurry]. rewrite <- insert_union_r; [by rewrite insert_union_l|].
        by apply not_elem_of_list_to_map_1.
Qed.

Lemma loads_value_step {A} x (v : A) a o k : o = Some v -> loads_value x a (k v) -> loads_value x a (lift o ≫= k).
Proof. by intros ->. Qed.

Lemma load_zl_loop_done fuel len r : encoding r <> OBJ_ENCODING_ZIPLIST \/ len <= 0 -> load_zl_loop (B := B) C fuel len r = mret (r, len, true).
Proof.
  intros Hr. assert (bool_decide (encoding r = OBJ_ENCODING_ZIPLIST) && (len >? 0) = false) as Hb.
  { rewrite Z.gtb_ltb. destruct Hr as [Hr|Hr]; [by rewrite bool_decide_eq_false_2|]. rewrite (proj2 (Z.ltb_ge _ _)) by lia. apply andb_false_r. }
  destruct fuel; cbn [load_zl_loop]; by rewrite Hb.
Qed.
Lemma load_ht_loop_done fuel len r : encoding r <> OBJ_ENCODING_HT \/ len <= 0 -> load_ht_loop (B := B) C fuel len r = mret (r, len, true).
Proof.
  intros Hr. assert (bool_decide (encoding r = OBJ_ENCODING_HT) && (len >? 0) = false) as Hb.
  { rewrite Z.gtb_ltb. destruct Hr as [Hr|Hr]; [by rewrite bool_decide_eq_false_2|]. rewrite (proj2 (Z.ltb_ge _ _)) by lia. apply andb_false_r. }
  destruct fuel; cbn [load_ht_loop]; by rewrite Hb.
Qed.

Lemma map_of_app (a b : list (sds * sds)) : NoDup (a ++ b).*1 -> list_to_map b ∪ list_to_map a = (list_to_map (a ++ b) : gmap sds sds).
Proof.
  intros Hn. rewrite <- list_to_map_app. apply list_to_map_proper; [|apply Permutation_app_comm].
  rewrite fmap_app in *. by rewrite (Permutation_app_comm b.*1).
Qed.

Lemma loads_remaining a b bsb r : Forall2 pair_code b bsb -> Forall pair_ok b -> NoDup (a ++ b).*1 -> zlen (a ++ b) < 2 ^ 31 ->
  hash_rep E r (list_to_map a) -> refcount r = 1 -> (b = [] \/ encoding r = OBJ_ENCODING_HT) ->
  loads_value (concat bsb) (AHash (list_to_map (a ++ b))) (load_remaining C (zlen b) r).
Proof.
  intros Hc Hok Hn Hlen Hr G1 Hend. unfold load_remaining. rewrite zlen_app in Hlen. pose proof (zlen_nonneg a). pose proof (zlen_nonneg b).
  destruct (hash_rep_shape _ _ _ Hr) as [zl l Er Hl El|d Er W El].
  - destruct Hend as [->|Hend]; [|by rewrite Er in Hend]. apply Forall2_nil_inv_l in Hc. subst bsb. rewrite app_nil_r in *.
    rewrite bool_decide_eq_false_2 by (rewrite Er; done). cbn [andb]. change (zlen (@nil (sds * sds))) with 0. cbn [concat].
    apply (loads_value_bind [] [] r); [intros t; apply loads_obj_ret|]. rewrite load_ht_loop_done by (right; lia).
    apply (loads_value_bind [] [] (r, 0, true)); [intros t; apply loads_obj_ret|]. cbv beta iota. cbn [negb].
    apply (loads_value_bind [] [] tt); [intros t; apply loads_obj_ret|]. by apply loads_finish.
  - rewrite G1 in Er. subst r. rewrite bool_decide_eq_true_2 by done. cbn [andb].
    assert (Z.of_nat (size (dmap d)) = zlen a) as Hsz.
    { rewrite <- El, map_size_list_to_map; [done|]. rewrite fmap_app in Hn. by apply NoDup_app in Hn as [? _]. }
    assert (exists d1, (if zlen b >? DICT_HT_INITIAL_SIZE then d ← lift (as_hash (ht_robj d 1)); '(d, _) ← lift (dictExpand d (zlen b)); mret (with_hash d (ht_robj d 1))
      else mret (ht_robj d 1) : ST (rio B * store) robj) = mret (ht_robj d1 1) /\ dict_wf (T := hashDictType E) d1 /\ dmap d1 = dmap d) as (d1 & E1 & W1 & Hd1).
    { destruct (_ >? _); [|by exists d]. cbn [as_hash ptr].
      destruct (dictExpand_map (T := hashDictType E) d (zlen b) W) as (d1 & st & Ee & W1 & Hd1); [lia|]. exists d1. split; [|done].
      trans (('(d', _) ← lift (dictExpand d (zlen b)); mret (with_hash d' (ht_robj d' 1))) : ST (rio B * store) robj); [done|]. by rewrite Ee. }
    cbn [as_hash ptr] in E1 |- *.
    match type of E1 with ?m = _ => change (loads_value (concat bsb) (AHash (list_to_map (a ++ b))) (r ← m;
      '(r, len, ok) ← load_ht_loop C (Z.to_nat (zlen b)) (zlen b) r;
      if negb ok then finish (r, false) else _ ← assert_that (len =? 0); finish (r, true))) end.
    rewrite E1. rewrite <- (app_nil_r (concat bsb)). apply (loads_value_bind [] _ (ht_robj d1 1)); [intros t; apply loads_obj_ret|].
    assert (Z.to_nat (zlen b) = length b) as -> by (unfold zlen; lia).
    destruct (load_ht_loop_rep b bsb d1 Hc Hok W1) as (d2 & Hl & W2 & Hd2).
    + rewrite fmap_app in Hn. by apply NoDup_app in Hn as (_ & _ & ?).
    + intros f Hf. rewrite Hd1, <- El. apply not_elem_of_list_to_map_1. rewrite fmap_app in Hn. apply NoDup_app in Hn as (_ & Hd & _). intros Hin. by apply (Hd f Hin).
    + rewrite Hd1, Hsz. lia.
    + apply (loads_value_bind _ [] (ht_robj d2 1, 0, true)); [exact Hl|]. cbv beta iota. cbn [negb].
      apply (loads_value_bind [] [] tt); [intros t; apply loads_obj_ret|]. apply loads_finish; [|done]. cbn [has_value].
      rewrite <- map_of_app, El, <- Hd1, <- Hd2 by done. by apply ht_hash_rep.
Qed.

Lemma loads_hash l bss : NoDup l.*1 -> Forall2 pair_code l bss -> value_fits (AHash (list_to_map l)) ->
  loads_value (len_bytes (zlen l) ++ concat bss) (AHash (list_to_map l)) (load_hash C).
Proof.
  intros Hn Hc [Hok Hw]. pose proof (hash_weight_size (list_to_map l)) as Hsz. rewrite map_size_list_to_map in Hsz by done. fold (zlen l) in Hsz.
  rewrite hash_weight_list in * by done. pose proof (zlen_nonneg l).
  assert (Forall pair_ok l) as Hpo.
  { apply Forall_forall. intros [f v] Hin. apply (elem_of_list_to_map_1 (M := gmap sds)) in Hin; [|done]. exact (Hok f v Hin). }
  unfold load_hash. apply (loads_value_bind _ _ (zlen l, false)); [intros t; apply loads_in_rio, loads_len; unfold in_u; lia|]. cbv beta iota.
  rewrite (proj2 (Z.eqb_neq (zlen l) RDB_LENERR)) by (unfold RDB_LENERR; lia).
  unfold createHashObject. destruct (ziplistNew_empty (new_bytes E)) as (zl & Ez & Hz). rewrite Ez. cbn [mbind option_bind].
  eapply loads_value_step; [done|]. assert (zl_hash zl []) as Hz0 by (split; [done|constructor]).
  assert (Z.to_nat (zlen l) = length l) as -> by (unfold zlen; lia). destruct (zlen l >? hash_max_ziplist_entries C).
  - destruct (hashTypeConvert_rep E zl [] 1 Hz0) as (d & Ed & W & Hd); [apply map_Forall_empty|]. eapply loads_value_step; [exact Ed|].
    rewrite load_zl_loop_done by (by left). apply (loads_value_bind [] _ (ht_robj d 1, zlen l, true)); [intros t; apply loads_obj_ret|]. cbv beta iota. cbn [negb].
    apply (loads_remaining [] l bss); try done; [cbn [app]; lia| |by right]. rewrite <- Hd. by apply ht_hash_rep.
  - apply (loads_value_bind [] (concat bss) (zl_robj zl 1)); [intros t; apply loads_obj_ret|].
    destruct (load_zl_loop_rep l bss [] zl Hc Hpo Hz0 Hn) as (a & b & bsa & bsb & r & -> & -> & Hcb & Hl & Hr & G1 & Hend); [cbn [app]; lia|].
    rewrite concat_app. apply (loads_value_bind _ _ (r, zlen b, true)); [exact Hl|]. cbv beta iota. cbn [negb].
    apply Forall_app in Hpo as [_ Hpo]. apply loads_remaining; try done. lia.
Qed.

Lemma loads_hash_ziplist zl l bs : zl_hash zl l -> bytes_ok zl -> string_code zl bs -> value_fits (AHash (list_to_map l)) ->
  loads_value bs (AHash (list_to_map l)) (load_hash_ziplist C).
Proof.
  intros Hz Hb Hc [Hok _]. rewrite <- (app_nil_r bs). unfold load_hash_ziplist.
  eapply loads_value_or_null; [intros t; by apply loads_block|]. cbv beta zeta.
  destruct (hashTypeLength_rep E (zl_robj zl 1) _ (zl_hash_rep E zl l 1 Hz)) as (r1 & E1 & Hr1 & Hc1 & He1). eapply loads_value_step; [exact E1|]. cbv beta iota.
  assert (hash_writable (list_to_map l : gmap sds sds)) as Hw by (intros f v Hf; destruct (Hok f v Hf) as [(_ & _ & ?) (_ & _ & ?)]; done).
  destruct (_ >? _).
  - destruct (hash_rep_shape _ _ _ Hr1) as [zl1 l1 Er Hl1 Em|d Er W Em]; [|by rewrite Er in He1]. rewrite Er, Hc1. rewrite Em in Hw |- *.
    destruct (hashTypeConvert_rep E zl1 l1 1 Hl1 Hw) as (d & Ed & W & Hd). eapply loads_value_step; [exact Ed|].
    apply loads_finish; [|done]. cbn [has_value]. rewrite <- Hd. by apply ht_hash_rep.
  - apply (loads_value_bind [] [] r1); [intros t; apply loads_obj_ret|]. by apply loads_finish.
Qed.

(** *** Strings *)

Lemma makes_value encode s mk t F : makes (share C) encode s mk -> bytes_ok s -> store_ok t F ->
  exists o t', mk t = Some (o, t') /\ store_ok t' (o :: F) /\ val_at t' o = Some (VStr s) /\ val_step (refs t F) t t'.
Proof.
  intros Hm Hb Hok. destruct Hm as [|_|v _ Hv ->].
  - destruct (alloc_string t F s (Robj OBJ_STRING OBJ_ENCODING_RAW (PSds s) 1) Hok) as (o & t' & Ea & Hok' & _ & Hv & _ & Hst); [by constructor|done|].
    exists o, t'. split_and!; try done. by apply heap_val_step.
  - destruct (createString_spec t F s Hok Hb) as (o & t' & Ea & Hok' & Hv & Hst & _). exists o, t'. split_and!; try done. by apply heap_val_step.
  - destruct (createStringFromLL_spec (share C) t F v true Hok (in_s_32 v Hv)) as (o & t' & Ea & Hok' & Hval & Hst & _). by exists o, t'.
Qed.

Lemma loads_string_value s bs : string_code s bs -> bytes_ok s -> loads_value bs (AStr s) (rdbLoadObject C RDB_TYPE_STRING).
Proof.
  intros Hc Hb t F Hok. destruct (loads_string (B := B) E (share C) s bs RDB_LOAD_ENC t Hc Hb) as (mk & Hmk & Hl).
  destruct (makes_value _ s mk t F Hmk Hb Hok) as (o & t1 & Em & Hok1 & Hv1 & Hs1). specialize (Hl o t1 Em).
  destruct (tryObjectEncoding_spec (share C) t1 F o s Hok1 Hv1) as (o' & t2 & Et & Hok2 & Hv2 & Hs2). exists o', t2, (VStr s). split_and!; try done.
  - unfold rdbLoadObject. change (RDB_TYPE_STRING =? RDB_TYPE_STRING) with true. cbv iota. rewrite <- (app_nil_r bs).
    eapply loads_obj_or_null.
    + unfold rdbLoadEncodedStringObject. rewrite <- (app_nil_r bs). eapply loads_obj_or_null; [exact Hl|]. apply (loads_obj_map [] t1 t1 t1 o); apply loads_obj_ret.
    + eapply loads_obj_map; [by apply loads_in_heap|]. apply loads_obj_ret.
  - eapply val_step_trans; [exact Hs1|]. by rewrite <- (val_step_refs F _ _ _ Hs1).
Qed.

Lemma loads_object a t bs : object_code a t bs -> value_fits a -> loads_value bs a (rdbLoadObject C t).
Proof.
  intros Hc Hf. destruct Hc as [s bs Hs Hb|l bss Hn Hs|w xs bs Hw Hr Hi Hs|l bss Hn Hs|zl l bs Hz Hb Hs].
  - by apply loads_string_value.
  - by apply loads_set.
  - by eapply loads_intset.
  - by apply loads_hash.
  - by eapply loads_hash_ziplist.
Qed.

Lemma loads_type t : 0 <= t < 16 -> rdbIsObjectType t = true -> loads (B := B) [t] (Some t) rdbLoadObjectType.
Proof.
  intros Ht Hok. unfold rdbLoadObjectType. rewrite <- (app_nil_r [t]). apply (loads_or_null [t] [] t).
  - unfold rdbLoadType. rewrite <- (app_nil_r [t]). apply (loads_or_null [t] [] [t]); [apply (loads_read [t])|apply loads_ret].
    repeat constructor; unfold byte_ok; lia.
  - rewrite Hok. apply loads_ret.
Qed.
End load.

Lemma codes_bytes {A} (code : A -> list Z -> Prop) l bss : Forall2 code l bss -> (forall x bs, x ∈ l -> code x bs -> bytes_ok bs) -> bytes_ok (concat bss).
Proof.
  induction 1 as [|x bs l bss Hc _ IH]; intros Hb; [constructor|]. cbn [concat]. apply Forall_app. split; [eapply (Hb x); [set_solver|done]|].
  apply IH. intros y b Hy. apply Hb. set_solver.
Qed.

Lemma object_code_bytes a t bs : object_code a t bs -> value_fits a -> bytes_ok bs.
Proof.
  intros Hc Hf. destruct Hc as [s bs Hs Hb|l bss Hn Hs|w xs bs Hw Hr Hi Hs|l bss Hn Hs|zl l bs Hz Hb Hs].
  - by eapply string_code_bytes.
  - destruct Hf as [Hok _]. apply Forall_app. split; [apply len_bytes_ok, zlen_nonneg|]. eapply codes_bytes; [exact Hs|].
    intros x bs Hx Hcode. eapply string_code_bytes; [|exact Hcode]. apply (Hok x). by apply elem_of_list_to_set.
  - eapply string_code_bytes; [|exact Hs]. apply intset_bytes_ok.
  - destruct Hf as [Hok _]. apply Forall_app. split; [apply len_bytes_ok, zlen_nonneg|]. eapply codes_bytes; [exact Hs|].
    intros [f v] bs Hx [b1 b2 C1 C2]. apply (elem_of_list_to_map_1 (M := gmap sds)) in Hx; [|done]. destruct (Hok f v Hx) as [(Hb1 & _) (Hb2 & _)].
    apply Forall_app. split; [exact (string_code_bytes _ _ Hb1 C1)|exact (string_code_bytes _ _ Hb2 C2)].
  - by eapply string_code_bytes.
Qed.

(** C11 A value that is saved is loaded, whatever the encodings: for a string, a set or a hash in any of its encodings,
    [rdbSaveObjectType] writes a byte [t] and [rdbSaveObject] bytes [bs] (to every backend, stopping with -1 at the
    first write that fails), [rdbSavedObjectLen] is the length of [bs], and from a stream of these bytes
    [rdbLoadObjectType] returns [t] and [rdbLoadObject] a new object with the same value, reading [bs] and no
    byte more, with exact reference counts and without a change of the other objects. The process that loads may have another
    byte order, another seed of the hash function and other limits of the compact encodings. [value_fits] bounds the sizes: strings of
    fewer than 2^31 bytes, sets of fewer than 2^27 elements, hashes of fewer than 2^31 bytes, and no element that is the least 64-bit integer. *)
Theorem rdbSaveObject_rdbLoadObject_roundtrip {B} `{Source B} (C C' : config) (r : robj) (a : avalue) :
  (forall i, in_u 32 (lzf_table C i)) -> has_value (data_env C) r a -> value_fits a ->
  exists t bs, bytes_ok bs /\
    saves [t] (rdbSaveObjectType (B := B) r) /\ saves bs (rdbSaveObject (B := B) C r) /\
    rdbSavedObjectLen (B := B) C r = Some (wrapu 64 (zlen bs)) /\
    loads (B := B) [t] (Some t) rdbLoadObjectType /\ loads_value (B := B) C' bs a (rdbLoadObject C' t).
Proof.
  intros Ht Hr Hf. destruct (saves_object (B := B) C Ht r a Hr Hf) as (t & bs & Hc & Hty & Hrange & S1 & S2).
  exists t, bs. split_and!; try done.
  - by eapply object_code_bytes.
  - unfold rdbSavedObjectLen. rewrite (saves_counts _ _ S2). cbn [mbind option_bind]. pose proof (zlen_nonneg bs).
    by rewrite (proj2 (Z.eqb_neq _ _)) by lia.
  - by apply loads_type.
  - by apply loads_object.
Qed.

Module RdbSample.
Import Sample SetSample.

(** A process with the other byte order and no compact encodings. *)
Definition conf_be : config := {|
  dbnum := 16; masterhost := false; master := None; loading := false; lua_time_start := None;
  lazyfree_lazy_server_del := false; lazyfree_lazy_expire := false; repl_slave_ro := true;
  share := false; free_effort := fun _ => 1;
  set_max_intset_entries := 0; hash_max_ziplist_entries := 0; hash_max_ziplist_value := 0;
  rdb_compression := false; lzf_table := fun _ => 0; qsort_tie := fun _ => 0; data_env := Env true (seqZ 7 16) false (fun _ => 85) (64, 128);
  clock := fun n => Z.of_nat n
|}.

Definition r_set : robj := Robj OBJ_SET OBJ_ENCODING_INTSET (PData (DIntset sample_intset)) 1.

(** The integer set of -5, 3 and 70000 is saved on a little endian host and loaded on a big endian one. *)
Lemma rdbSaveObject_rdbLoadObject_roundtrip_witness :
  exists t bs, bytes_ok bs /\
    saves [t] (rdbSaveObjectType (B := rioBuffer) r_set) /\ saves bs (rdbSaveObject (B := rioBuffer) conf0 r_set) /\
    rdbSavedObjectLen (B := rioBuffer) conf0 r_set = Some (wrapu 64 (zlen bs)) /\
    loads (B := rioBuffer) [t] (Some t) rdbLoadObjectType /\
    loads_value (B := rioBuffer) conf_be bs (ASet X_set) (rdbLoadObject conf_be t).
Proof.
  apply (rdbSaveObject_rdbLoadObject_roundtrip (B := rioBuffer) conf0 conf_be r_set (ASet X_set)).
  - intros i. cbn. split; lia.
  - split; [done|done|]. exists (DIntset sample_intset). split; [done|]. exists {[-5; 3; 70000]}. split; [exact sample_abs|done].
  - split; [|vm_compute; reflexivity].
    intros x (v & -> & Hv)%elem_of_map. assert (v = -5 \/ v = 3 \/ v = 70000) as [-> | [-> | ->]] by set_solver;
      (split; [apply sdec_bytes|split; [vm_compute; reflexivity|vm_compute; congruence]]).
Defined.
End RdbSample.
