(* ===== verification/DumpSpec.v ===== *)
(** * What DUMP and RESTORE do (cluster.c)

    A payload is the type of a value, its format, the version of the format and a checksum of
    these bytes ([is_dump]). DUMP replies with such a payload; RESTORE creates a key from one and refuses
    a payload in which a byte was changed. *)

From S2P Require Import Prelude Endian Util Sds Crc Data State Rio Object Server Db DbSpec Outcome InPlace SampleState KeySpec TSet TSetSpec THash THashSpec BitCmd Rdb RdbSpec RdbObject RdbObjectSpec Dump.

(** ** The payload *)

(** The bytes end with a version that is known and the checksum of what precedes it. *)
Inductive checked : list Z -> Prop :=
| checked_bytes d v crc : 0 <= v <= RDB_VERSION -> crc64 0 (d ++ le_encode 2 v) = Some crc ->
    checked ((d ++ le_encode 2 v) ++ le_encode 8 crc).

Lemma checked_inv p : checked p -> exists d v crc, p = (d ++ le_encode 2 v) ++ le_encode 8 crc /\ 0 <= v <= RDB_VERSION /\ crc64 0 (d ++ le_encode 2 v) = Some crc.
Proof. intros [d v crc Hv Hc]. by exists d, v, crc. Qed.

Inductive is_dump (a : avalue) : list Z -> Prop :=
| dump_bytes t bs crc : object_code a t bs -> 0 <= t < 16 -> rdbIsObjectType t = true ->
    crc64 0 ((t :: bs) ++ le_encode 2 RDB_VERSION) = Some crc ->
    is_dump a (((t :: bs) ++ le_encode 2 RDB_VERSION) ++ le_encode 8 crc).

Lemma is_dump_checked a p : is_dump a p -> checked p.
Proof. intros [t bs crc _ _ _ Hc]. by constructor. Qed.

Lemma crc64_total p : bytes_ok p -> exists crc, crc64 0 p = Some crc /\ in_u 64 crc.
Proof. intros Hp. destruct (crc64_spec p 0 Hp) as [E R]; [unfold in_u; lia|]. by eexists. Qed.

Lemma le_encode_inj8 a b : in_u 64 a -> in_u 64 b -> le_encode 8 a = le_encode 8 b -> a = b.
Proof.
  intros Ha Hb He. apply (f_equal le_decode) in He. rewrite !le_decode_encode in He. change (2 ^ (8 * Z.of_nat 8)) with (2 ^ 64) in He.
  unfold in_u in *. rewrite !Z.mod_small in He; lia.
Qed.

(** What the function computes on bytes that are long enough. *)
Lemma verify_run E d f0 f1 stored crc : bytes_ok (d ++ [f0; f1]) -> zlen stored = 8 -> crc64 0 (d ++ [f0; f1]) = Some crc ->
  verifyDumpPayload E ((d ++ [f0; f1]) ++ stored) =
    Some (bool_decide (256 * f1 + f0 <= RDB_VERSION) && bool_decide (le_encode 8 crc = stored)).
Proof.
  intros Hb Hs Hc. unfold verifyDumpPayload. pose proof (zlen_nonneg d) as Hd.
  assert (zlen ((d ++ [f0; f1]) ++ stored) = zlen d + 10) as Hl by (rewrite !zlen_app, Hs; change (zlen [f0; f1]) with 2; lia).
  rewrite Hl, (proj2 (Z.ltb_ge _ _)) by lia. replace (zlen d + 10 - 10) with (zlen d) by lia.
  rewrite <- (app_assoc d).
  rewrite (zidx_here d ([f0; f1] ++ stored) (zlen d) eq_refl). change (([f0; f1] ++ stored) !! 0%nat) with (Some f0). cbn [mbind option_bind].
  rewrite (zidx_at d ([f0; f1] ++ stored) (zlen d) 1) by lia. change (zidx ([f0; f1] ++ stored) 1) with (Some f1). cbn [mbind option_bind].
  apply Forall_app in Hb as [Hbd Hbf]. pose proof Hbf as [H0 [H1 _]%Forall_cons]%Forall_cons. unfold byte_ok in H0, H1.
  rewrite lor_shift by (unfold in_u; lia). rewrite wrapu_small by (unfold in_u; lia).
  replace (f1 * 2 ^ 8 + f0) with (256 * f1 + f0) by lia. rewrite Z.gtb_ltb.
  destruct (Z.ltb_spec RDB_VERSION (256 * f1 + f0)).
  { by rewrite bool_decide_eq_false_2 by lia. }
  rewrite (bool_decide_eq_true_2 (256 * f1 + f0 <= RDB_VERSION)) by lia. cbn [andb]. replace (zlen d + 10 - 8) with (zlen (d ++ [f0; f1])) by (rewrite zlen_app; change (zlen [f0; f1]) with 2; lia).
  rewrite app_assoc, rd_front by done. cbn [mbind option_bind]. rewrite Hc. cbn [mbind option_bind].
  rewrite memrev64ifbe_host. cbn [mbind option_bind].
  rewrite <- (app_nil_r stored) at 1. rewrite rd_app by (rewrite ?zlen_app; (done || change (zlen [f0; f1]) with 2; lia)).
  cbn [mbind option_bind]. f_equal.
  pose proof (memcmp_zero (le_encode 8 crc) stored 8 (length_le_encode _ _) ltac:(unfold zlen in Hs; lia)) as Hm.
  destruct (Z.eqb_spec (memcmp 8 (le_encode 8 crc) stored) 0) as [E0|E0].
  - by rewrite bool_decide_eq_true_2 by (by apply Hm).
  - rewrite bool_decide_eq_false_2; [done|]. intros He. by apply E0, Hm.
Qed.

(** Bytes that are long enough have a footer. *)
Lemma footer (p : list Z) : 10 <= zlen p -> exists d f0 f1 stored, p = (d ++ [f0; f1]) ++ stored /\ zlen stored = 8.
Proof.
  intros Hp. destruct (split_at p (zlen p - 10)) as (d & r & -> & Hd); [lia|]. rewrite zlen_app in *.
  destruct r as [|f0 [|f1 stored]]; [rewrite zlen_nil in *; lia|change (zlen [f0]) with 1 in *; lia|].
  exists d, f0, f1, stored. rewrite <- app_assoc. split; [done|]. rewrite !zlen_cons in *. lia.
Qed.

Lemma le_encode_2 v : 0 <= v < 2 ^ 16 -> exists f0 f1, le_encode 2 v = [f0; f1] /\ 256 * f1 + f0 = v /\ byte_ok f0 /\ byte_ok f1.
Proof.
  intros Hv. exists (v mod 256), (v / 256 mod 256). split; [done|]. rewrite (Z.mod_small (v / 256)) by (split; [apply Z.div_pos|apply Z.div_lt_upper_bound]; lia).
  pose proof (Z.div_mod v 256 ltac:(lia)). unfold byte_ok. pose proof (Z.mod_pos_bound v 256 ltac:(lia)).
  split; [lia|]. split; [lia|]. split; [apply Z.div_pos|apply Z.div_lt_upper_bound]; lia.
Qed.

Lemma verify_short E p : zlen p < 10 -> verifyDumpPayload E p = Some false.
Proof. intros Hp. unfold verifyDumpPayload. by rewrite (proj2 (Z.ltb_lt _ _) Hp). Qed.

Lemma verify_checked E p : bytes_ok p -> checked p -> verifyDumpPayload E p = Some true.
Proof.
  intros Hb Hk. revert Hb. destruct Hk as [d v crc Hv Hc]. intros Hb. assert (0 <= v < 2 ^ 16) as Hv' by (unfold RDB_VERSION in Hv; lia).
  destruct (le_encode_2 v Hv') as (f0 & f1 & Ev & Hs & _). rewrite Ev in *. apply Forall_app in Hb as [Hb _].
  rewrite (verify_run E d f0 f1 _ crc Hb (zlen_le_encode 8 crc) Hc).
  rewrite (bool_decide_eq_true_2 (256 * f1 + f0 <= RDB_VERSION)) by lia. by rewrite bool_decide_eq_true_2.
Qed.

Lemma verify_total E p : bytes_ok p -> exists ok, verifyDumpPayload E p = Some ok /\ (ok = true -> checked p).
Proof.
  intros Hb. destruct (decide (zlen p < 10)) as [Hp|Hp]; [exists false; by rewrite verify_short|].
  destruct (footer p) as (d & f0 & f1 & stored & -> & Hs); [lia|]. apply Forall_app in Hb as [Hb _].
  destruct (crc64_total _ Hb) as (crc & Hc & Hr). rewrite (verify_run E d f0 f1 stored crc Hb Hs Hc). eexists. split; [done|].
  intros [Hv%bool_decide_eq_true_1 He%bool_decide_eq_true_1]%andb_true_iff. rewrite <- He.
  apply Forall_app in Hb as [_ [H0 [H1 _]%Forall_cons]%Forall_cons]. unfold byte_ok in *.
  assert (le_encode 2 (256 * f1 + f0) = [f0; f1]) as Ev.
  { cbn [le_encode]. rewrite (Z.add_comm (256 * f1)), (Z.mul_comm 256), Z.mod_add, Z.div_add, (Z.div_small f0), (Z.mod_small f0), Z.add_0_l, (Z.mod_small f1) by lia. done. }
  rewrite <- Ev in Hc |- *. constructor; [lia|done].
Qed.

(** The position of a changed byte: in the part under the checksum, or in the checksum. *)
Lemma changed_byte {A} (a b d e : list A) x : a ++ x :: b = d ++ e ->
  (exists b', d = a ++ x :: b' /\ b = b' ++ e) \/ (exists a', a = d ++ a' /\ e = a' ++ x :: b).
Proof.
  intros He. apply app_eq_inv in He as [(k & -> & Hk)|(k & -> & Hk)]; [right; by exists k|].
  destruct k as [|z k]; cbn in Hk.
  - right. exists []. split; [by rewrite !app_nil_r|done].
  - injection Hk as -> ->. left. by exists k.
Qed.

Lemma verify_changed E a x b y : bytes_ok (a ++ x :: b) -> checked (a ++ x :: b) -> byte_ok y -> y <> x ->
  verifyDumpPayload E (a ++ y :: b) = Some false.
Proof.
  intros Hb Hk Hy Hne. destruct (checked_inv _ Hk) as (d & v & crc & Ep & Hv & Hc). symmetry in Ep. assert (0 <= v < 2 ^ 16) as Hv' by (unfold RDB_VERSION in Hv; lia).
  destruct (le_encode_2 v Hv') as (f0 & f1 & Ev & Hs & B0 & B1). rewrite Ev in *.
  destruct (verify_total E (a ++ y :: b)) as ([|] & Ho & Hok); [|exfalso|done].
  { apply Forall_app in Hb as [Ha [_ Hb]%Forall_cons]. apply Forall_app. split; [done|by constructor]. }
  specialize (Hok eq_refl). destruct (checked_inv _ Hok) as (d' & v' & crc' & Ep' & Hv2 & Hc'). symmetry in Ep'.
  assert (length d = length d') as Hl.
  { apply (f_equal length) in Ep, Ep'. rewrite !length_app, !length_le_encode in Ep'. rewrite !length_app, length_le_encode in Ep. cbn [length] in Ep, Ep'. lia. }
  pose proof Hb as Hb'. rewrite <- Ep in Hb'. apply Forall_app in Hb' as [Hbd _].
  assert (in_u 64 crc) as Hr by (destruct (crc64_total _ Hbd) as (c0 & E0 & ?); congruence).
  destruct (changed_byte a b (d ++ [f0; f1]) (le_encode 8 crc) x (eq_sym Ep)) as [(b' & Ed & ->)|(a' & -> & Ee)].
  - change (a ++ y :: b' ++ le_encode 8 crc) with (a ++ (y :: b') ++ le_encode 8 crc) in Ep'. rewrite (app_assoc a) in Ep'.
    apply app_inj_2 in Ep' as [Ed' Ecrc]; [|by rewrite !length_le_encode].
    rewrite Ed in Hbd. rewrite Ed' in Hc'. rewrite Ed in Hc.
    assert (bytes_ok (a ++ y :: b')) as Hby by (apply Forall_app in Hbd as [Ha [_ Hb2]%Forall_cons]; apply Forall_app; split; [done|by constructor]).
    assert (in_u 64 crc') as Hr' by (destruct (crc64_total _ Hby) as (c0 & E0 & ?); congruence).
    apply (crc64_changed 0 a x y b'); [unfold in_u; lia|done|done|done|]. rewrite Hc, Hc'. f_equal. by apply le_encode_inj8.
  - change (((d ++ [f0; f1]) ++ a') ++ y :: b) with (((d ++ [f0; f1]) ++ a') ++ [y] ++ b) in Ep'. rewrite <- (app_assoc (d ++ [f0; f1]) a') in Ep'.
    apply app_inj_1 in Ep' as [Ed' Ecrc]; [|rewrite !length_app, length_le_encode; cbn [length]; lia].
    rewrite Ed' in Hc'. assert (crc' = crc) as -> by congruence. rewrite Ee in Ecrc. cbn [app] in Ecrc.
    apply app_inv_head in Ecrc. congruence.
Qed.

(** C30 [verifyDumpPayload] accepts exactly the payloads that end with a version up to the current one and with the
    CRC-64 of all the bytes before it, on hosts of either byte order; it reads no byte outside of the payload, however
    short that is, and a payload it accepts is refused once any single byte of it has changed. *)
Theorem verifyDumpPayload_detects E p : bytes_ok p ->
  exists ok, verifyDumpPayload E p = Some ok /\ (ok = true <-> checked p) /\
    (ok = true -> forall E' a x b y, p = a ++ x :: b -> byte_ok y -> y <> x -> verifyDumpPayload E' (a ++ y :: b) = Some false).
Proof.
  intros Hb. destruct (verify_total E p Hb) as (ok & Ho & Hok). exists ok. split; [done|]. split; [split; [done|]|].
  - intros Hk. rewrite (verify_checked E p Hb Hk) in Ho. congruence.
  - intros -> E' a x b y -> Hy Hne. apply (verify_changed E' a x); auto.
Qed.

(** ** DUMP *)

Lemma saves_init bs (m : ST (option (rio rioBuffer)) Z) (r : rio rioBuffer) : saves bs m -> bytes_ok bs -> rio_ok r ->
  exists r', m (Some r) = Some (zlen bs, Some r') /\ rio_ok r' /\ b_ptr (io r') = b_ptr (io r) ++ bs.
Proof. intros Hs Hb Hr. destruct (saves_buffer bs m r Hs Hb Hr) as (r' & Em & Ho & _ & Ei). exists r'. by rewrite Ei. Qed.

Lemma object_code_pos a t bs : object_code a t bs -> 0 < zlen bs.
Proof.
  assert (forall n (l : list Z), 0 < zlen (len_bytes n ++ l)) as Hlen.
  { intros n l. rewrite zlen_app. pose proof (zlen_nonneg l). enough (0 < zlen (len_bytes n)) by lia.
    pose proof (zlen_len_bytes n). lia. }
  intros [s b Hs _|l bss _ _|w xs b _ _ _ Hs|l bss _ _|zl l b _ _ Hs]; try apply Hlen; by eapply string_code_pos.
Qed.

Lemma createDumpPayload_spec C r a : (forall i, in_u 32 (lzf_table C i)) -> has_value (data_env C) r a -> value_fits a ->
  exists p, createDumpPayload C r = Some p /\ is_dump a p /\ bytes_ok p.
Proof.
  intros Ht Hr Hf. destruct (saves_object (B := rioBuffer) C Ht r a Hr Hf) as (t & bs & Hc & Hty & Hrange & S1 & S2).
  pose proof (object_code_bytes a t bs Hc Hf) as Hb. pose proof (object_code_pos a t bs Hc) as Hpos.
  assert (bytes_ok [t]) as Hbt by (repeat constructor; unfold byte_ok; lia).
  destruct (saves_init [t] _ (rioInitWithBuffer []) S1 Hbt) as (r1 & E1 & O1 & P1); [by split|].
  destruct (saves_init bs _ r1 S2 Hb O1) as (r2 & E2 & O2 & P2).
  assert (bytes_ok ((t :: bs) ++ le_encode 2 RDB_VERSION)) as Hall by (apply Forall_app; split; [by constructor; [inversion Hbt|]|apply le_encode_bytes]).
  destruct (crc64_total _ Hall) as (crc & Hcrc & _). exists (((t :: bs) ++ le_encode 2 RDB_VERSION) ++ le_encode 8 crc). split_and!.
  - unfold createDumpPayload. rewrite E1. cbn [mbind option_bind]. change (zlen [t] =? 0) with false. cbv iota. cbn [mbind option_bind].
    rewrite E2. cbn [mbind option_bind]. rewrite (proj2 (Z.eqb_neq (zlen bs) 0)) by lia. cbn [mbind option_bind]. rewrite P2, P1.
    change ((b_ptr (io (rioInitWithBuffer [])) ++ [t]) ++ bs) with (t :: bs). change [Z.land RDB_VERSION 255; Z.land (Z.shiftr RDB_VERSION 8) 255] with (le_encode 2 RDB_VERSION).
    cbv zeta. rewrite Hcrc. cbn [mbind option_bind]. by rewrite memrev64ifbe_host.
  - by constructor.
  - apply Forall_app. split; [done|apply le_encode_bytes].
Qed.

Lemma value_obj C t F o v a : store_ok t F -> o ∈ refs t F -> val_at t o = Some v -> value_is C v a ->
  exists r, obj_at t o = Some r /\ has_value (data_env C) r a.
Proof.
  intros Hok Ho Hv Ha. unfold val_at in Hv. destruct (obj_at t o) as [r|] eqn:Hr; [|done]. cbn in Hv. injection Hv as <-. exists r. split; [done|].
  pose proof (live_ok t F o r Hok Ho Hr) as Hrk. destruct a as [s|X|m]; cbn [value_is has_value] in *.
  - destruct (val_of r) as [s'|] eqn:Ev; [|done]. subst s'. destruct (string_obj_of t F o s Hok Ho) as (r' & Hr' & Hs); [unfold val_at; rewrite Hr; cbn; congruence|]. congruence.
  - unfold val_of in Ha. destruct (ptr r) as [| |d] eqn:Ep; try done. destruct (type r) eqn:Et; try done. split; [done|done|]. by exists d.
  - unfold val_of in Ha. destruct (ptr r) as [| |d] eqn:Ep; try done. destruct (type r) eqn:Et; try done. split; [done|done|]. by exists d.
Qed.

(** A command that ends after the lookup and a change of objects no key refers to. *)
Lemma outcome_lookup_val s c k E s1 t rs :
  expire_step k E s s1 -> store_ok t E -> val_step (refs (st s1) E) (st s1) t ->
  outcome s c k E (upd_clients (alter (says rs) c) (with_st t s1)) (alive s k) (alive_expire s k) false 0 rs.
Proof.
  intros Hes Hok Hst. destruct (outcome_lookup s c k E s1 rs Hes) as [_ Ec Ew Ev Ex Ecl Ed]. split; try done.
  - intros k'. rewrite <- Ev. by apply (val_step_view E).
  - intros k'. rewrite <- Ex. destruct Hst as (_ & Hx & _). change (expires t !! k' = expires (st s1) !! k'). by rewrite Hx.
Qed.

(** C13 DUMP replies with a payload of the value a reader sees: the type, the format of the value, the version and the
    checksum; for a key that is absent or hidden it replies with the null bulk. It changes no key, no
    expire time other than by the removal of an expired key, and leaves the reference counts exact. *)
Theorem dumpCommand_replies_payload s c cl argv F key a :
  clients s !! c = Some cl -> store_ok (st s) (argv ++ F) -> is_arg (st s) argv 1 key -> (forall i, in_u 32 (lzf_table (conf s) i)) ->
  let k := (c_db cl, key) in
  (forall v, visible s k = Some v -> value_is (conf s) v a /\ value_fits a) ->
  exists s', dumpCommand c argv s = Some (argv, s') /\
    match visible s k with
    | None => outcome s c k (argv ++ F) s' (alive s k) (alive_expire s k) false 0 [R_nullbulk]
    | Some v => exists p, is_dump a p /\ outcome s c k (argv ++ F) s' (Some v) (alive_expire s k) false 0 [RBulk p]
    end.
Proof.
  intros Hc Hok Hkey Ht k Hv. unfold dumpCommand. rewrite (bind_run _ _ _ _ _ (client_db_run s c cl Hc)), (bind_run _ _ _ _ _ (is_arg_run s argv 1 key Hkey)).
  destruct (lookupKeyRead_spec s (argv ++ F) (c_db cl) key Hok) as (s1 & old & Hl & Hes & Hf). fold k in Hes, Hf.
  unfold lookupKeyRead. rewrite (bind_run _ _ _ _ _ Hl). pose proof Hf as Hf2. inversion Hf2 as [E0 Ev|o v Hvo Ho Hk E0 Ev]; subst old.
  { eexists. split; [reflexivity|]. by apply outcome_lookup. }
  assert (alive s k = Some v) as Ha by (rewrite <- Ev in Hf; by apply (read_found_alive s s1 k (argv ++ F) o (Some v))).
  destruct (Hv v (eq_sym Ev)) as [Hval Hfit]. destruct (es_quiet _ _ _ _ Hes) as (Hconf & Hw & Hcl & Hd & _).
  destruct (value_obj (conf s) (st s1) (argv ++ F) o v a (es_ok _ _ _ _ Hes) Ho Hvo Hval) as (r & Hr & Hhas).
  destruct (createDumpPayload_spec (conf s) r a Ht Hhas Hfit) as (p & Hp & Hdump & Hpb).
  rewrite (bind_run _ _ _ _ _ (get_run s1)), (bind_run _ _ _ _ _ (obj_run_at s1 o r Hr)), Hconf, Hp. rewrite (bind_run _ _ _ _ _ (lift_run _ _ _ eq_refl)).
  destruct (alloc_string (st s1) (argv ++ F) p (Robj OBJ_STRING OBJ_ENCODING_RAW (PSds p) 1) (es_ok _ _ _ _ Hes)) as (o' & t1 & Ea & Hok1 & Hr1 & _ & _ & Hst1);
    [by constructor|done|].
  rewrite (bind_run _ _ _ _ _ (in_store_run (createObject OBJ_STRING (PSds p)) s1 o' t1 Ea)). unfold addReplyBulk.
  rewrite bind_assoc_run. rewrite (bind_run _ _ _ _ _ (obj_run_at (with_st t1 s1) o' _ Hr1)).
  destruct (decrRefCount_spec t1 (argv ++ F) o' Hok1) as (t2 & Hdec & Hok2 & Hst2).
  pose proof (heap_step_trans _ _ _ _ _ (reflexivity _) Hst1 Hst2) as Hst.
  eexists. split.
  - rewrite bind_assoc_run. rewrite (bind_run _ _ _ _ _ (lift_run (string_bytes (Robj OBJ_STRING OBJ_ENCODING_RAW (PSds p) 1)) p _ eq_refl)).
    rewrite (bind_run (addReply c (RBulk p)) _ _ _ _ (modify_run _ _)). erewrite bind_run by (apply in_store_run; exact Hdec). reflexivity.
  - exists p. split; [done|]. rewrite <- Ha. by apply (outcome_lookup_val s c k (argv ++ F) s1 t2), heap_val_step.
Qed.

(** ** RESTORE *)

(** The options that follow the payload, or the error that they give. *)
Fixpoint parse_restore (names : list sds) (replace absttl : bool) (idle freq : Z) : reply + bool * bool :=
  match names with
  | [] => inr (replace, absttl)
  | n :: names =>
      if strcaseeq n "replace" then parse_restore names true absttl idle freq
      else if strcaseeq n "absttl" then parse_restore names replace true idle freq
      else
        match names with
        | b :: names' =>
            if strcaseeq n "idletime" && (freq =? -1) then
              match string2ll b with
              | None => inl (RError "value is not an integer or out of range")
              | Some v => if v <? 0 then inl (RError "Invalid IDLETIME value, must be >= 0") else parse_restore names' replace absttl v freq
              end
            else if strcaseeq n "freq" && (idle =? -1) then
              match string2ll b with
              | None => inl (RError "value is not an integer or out of range")
              | Some v => if (v <? 0) || (v >? 255) then inl (RError "Invalid FREQ value, must be >= 0 and <= 255")
                          else parse_restore names' replace absttl idle v
              end
            else inl R_syntaxerr
        | [] => inl R_syntaxerr
        end
  end.

Section restore.
Context (s : server) (c : Z) (argv F : list oid) (Hok : store_ok (st s) (argv ++ F)).

Lemma option_number b n : b ∈ argv -> name_at (st s) b = Some n ->
  getLongLongFromObjectOrReply c (Some b) None s =
    match string2ll n with
    | Some v => Some (Some v, s)
    | None => Some (None, upd_clients (alter (says [RError "value is not an integer or out of range"]) c) s)
    end.
Proof.
  intros Hb Hn. apply (getLongLongOrReply_spec s (argv ++ F) c b n None Hok); [by apply argv_refs|].
  unfold name_at, val_at, val_of, as_sds in *. destruct (obj_at (st s) b) as [r|]; [|done]. cbn in *. by destruct (ptr r); simplify_eq.
Qed.

Lemma restore_options_run args names : args ⊆ argv -> named (st s) args names -> forall replace absttl idle freq,
  exists x, restore_options c args replace absttl idle freq s =
    match parse_restore names replace absttl idle freq with
    | inl r => Some (None, upd_clients (alter (says [r]) c) s)
    | inr (replace, absttl) => Some (Some (replace, absttl, fst x, snd x), s)
    end.
Proof.
  remember (length args) as n eqn:Hn. revert args names Hn. induction (lt_wf n) as [n _ IH]. intros args names -> Hsub Hnm replace absttl idle freq.
  destruct Hnm as [|o nm args names Ho Hnm]; cbn [restore_options parse_restore]; [by exists (idle, freq)|].
  rewrite (bind_run _ _ _ _ _ (name_run s o nm Ho)).
  destruct (strcaseeq nm "replace"); [apply (IH (length args)); [cbn; lia|done|set_solver|done]|].
  destruct (strcaseeq nm "absttl"); [apply (IH (length args)); [cbn; lia|done|set_solver|done]|].
  destruct Hnm as [|b bn args names Hb Hnm]; [rewrite !andb_false_r; by exists (idle, freq)|].
  assert ((zlen (b :: args) >=? 1) = true) as -> by (rewrite Z.geb_leb; apply Z.leb_le; rewrite zlen_cons; pose proof (zlen_nonneg args); lia).
  rewrite !andb_true_r. pose proof (option_number b bn ltac:(set_solver) Hb) as Hnum.
  destruct (strcaseeq nm "idletime" && (freq =? -1)).
  { destruct (string2ll bn) as [v|]; rewrite (bind_run _ _ _ _ _ Hnum); [|by exists (idle, freq)].
    destruct (v <? 0); [by exists (idle, freq)|]. apply (IH (length args)); [cbn; lia|done|set_solver|done]. }
  destruct (strcaseeq nm "freq" && (idle =? -1)); [|by exists (idle, freq)].
  destruct (string2ll bn) as [v|]; rewrite (bind_run _ _ _ _ _ Hnum); [|by exists (idle, freq)].
  destruct ((v <? 0) || (v >? 255)); [by exists (idle, freq)|]. apply (IH (length args)); [cbn; lia|done|set_solver|done].
Qed.
End restore.

(** Where the command stops without a change. *)
Definition value_before (s : server) (k : Z * sds) (replace : bool) : option value := if replace then view (st s) k else alive s k.
Definition expire_before (s : server) (k : Z * sds) (replace : bool) : option Z := if replace then expires (st s) !! k else alive_expire s k.

(** From [s] to [s1] only the key changed, to the value [v] and the expire time [x]. *)
Abbreviation key_step s s1 E keep k v x := (step_to s s1 E keep (at_key k v (view (st s))) (at_key k x (fun k' => expires (st s) !! k'))).

Lemma key_step_written s s1 E keep k v x : key_step s s1 E keep k v x -> written s k E s1 v x.
Proof. by intros []. Qed.

Lemma key_step_outcome s s1 E keep c k v x rs : key_step s s1 E keep k v x -> outcome s c k E (upd_clients (alter (says rs) c) s1) v x false 0 rs.
Proof. intros Hst. apply (outcome_changed s c k E s1 _ v x false 0 rs); try done; [by eapply key_step_written|cbn; lia]. Qed.

Lemma restore_lookup s E db key (replace : bool) : store_ok (st s) E -> let k := (db, key) in
  exists s1, (if negb replace then o ← lookupKeyWrite db key; mret (bool_decide (is_Some o)) else mret false) s =
      Some (negb replace && bool_decide (is_Some (alive s k)), s1) /\
    key_step s s1 E E k (value_before s k replace) (expire_before s k replace) /\ kept (refs (st s1) E) (st s) (st s1) /\
    (replace = false -> alive s k = None -> dict (st s1) !! k = None).
Proof.
  intros Hok k. destruct replace; cbn [negb andb value_before expire_before].
  - exists s. split; [done|]. split; [|split; [by apply kept_refl|done]]. eapply step_ext; [by apply step_refl| |];
      intros k'; unfold at_key; by destruct (decide (k' = k)) as [->|].
  - destruct (lookup_found s E db key Hok) as (s1 & old & Hl & Hes & Hf). fold k in Hes, Hf. exists s1. rewrite (bind_run _ _ _ _ _ Hl). split_and!.
    + by destruct Hf.
    + by apply step_lookup.
    + apply Hes.
    + intros _ Ha. by inversion Hf; [|congruence].
Qed.

Lemma load_payload_run C s E a p : store_ok (st s) E -> is_dump a p -> value_fits a -> zlen p < 2 ^ 64 ->
  exists o t v, load_from (rioInitWithBuffer p) (load_payload C) s = Some (Some o, with_st t s) /\
    step_to s (with_st t s) (o :: E) E (view (st s)) (fun k => expires (st s) !! k) /\ dict t = dict (st s) /\
    val_at t o = Some v /\ value_is C v a.
Proof.
  intros Hok Hd Hf Hl. revert Hl. destruct Hd as [t bs crc Hc Hr Ht _]. intros Hl.
  assert (loads_value (B := rioBuffer) C ([t] ++ bs) a (load_payload C)) as Hload.
  { unfold load_payload. apply (loads_value_or_null C [t] bs t); [intros t0; apply loads_in_rio, (loads_type t Hr Ht)|by apply loads_object]. }
  destruct (Hload (st s) E Hok) as (o & t' & v & Ho & Hok' & Hst & Hv & Hval). exists o, t', v.
  pose proof (init_ready _ Hl) as Hrd. rewrite <- (app_assoc (t :: bs)) in Hrd at 2. destruct (Ho _ _ Hrd) as (r' & Er & _).
  split; [unfold load_from; by rewrite Er|]. split; [|split; [apply Hst|done]]. split; cbn; [done|apply quiet_with_st| | |].
  - intros k. by apply (val_step_view E).
  - intros k. destruct Hst as (_ & -> & _). done.
  - intros x Hx. apply Hst. by apply refs_ext.
Qed.

Definition restore_expire (s : server) (ttl : Z) (absttl : bool) (n : nat) : option Z :=
  if ttl =? 0 then None else Some (if absttl then ttl else ttl + clock (conf s) n).

(** The binding of the key, after the deletion of an old one. *)
Lemma restore_put s E c cl db key o v (replace absttl : bool) ttl : let k := (db, key) in
  store_ok (st s) (o :: E) -> val_at (st s) o = Some v -> (replace = false -> dict (st s) !! k = None) -> clients s !! c = Some cl ->
  (forall n, LLONG_MIN <= ttl + clock (conf s) n <= LLONG_MAX) ->
  exists n s1 s2 s3, (if replace then _ ← dbDelete db key; mret tt else mret tt) s = Some (tt, s1) /\ dbAdd db key o s1 = Some (tt, s2) /\
    (if negb (ttl =? 0) then
       when ← (if negb absttl then now ← mstime; ll_arith (ttl + now) else mret ttl);
       setExpire (Some c) db key when
     else mret tt) s2 = Some (tt, s3) /\
    key_step s s3 E E k (Some v) (restore_expire s ttl absttl n).
Proof.
  intros k Hok Hv Habs Hc Hclock.
  assert (exists s1, (if replace then _ ← dbDelete db key; mret tt else mret tt) s = Some (tt, s1) /\
    key_step s s1 (o :: E) (o :: E) k None None /\ dict (st s1) !! k = None) as (s1 & H1 & S1 & D1).
  { destruct replace.
    - destruct (dbDelete_step s (o :: E) db key Hok) as (t & Hd & Hst & Hdict). exists (with_st t s). rewrite (bind_run _ _ _ _ _ Hd).
      split; [done|]. split; [done|]. cbn. rewrite Hdict. apply lookup_delete_eq.
    - specialize (Habs eq_refl). exists s. split; [done|]. split; [|done]. eapply step_ext; [by apply step_refl| |]; intros k'; unfold at_key;
        destruct (decide (k' = k)) as [->|]; try done; [by apply absent_view|by eapply absent_no_expire]. }
  destruct (dbAdd_step s1 E db key o v (to_ok _ _ _ _ _ _ S1) D1) as (s2 & H2 & S2 & D2).
  { rewrite (to_keep _ _ _ _ _ _ S1) by set_solver. done. }
  assert (quiet s s2) as Q by (eapply quiet_trans; [apply S1|apply S2]). destruct Q as (Qc & _ & Qcl & _).
  pose proof (step_trans _ _ _ _ _ _ _ _ _ _ _ S1 S2 ltac:(set_solver)) as S12.
  assert (forall k', at_key k (Some v) (view (st s1)) k' = at_key k (Some v) (view (st s)) k') as Hview.
  { intros k'. unfold at_key at 1 2. destruct (decide (k' = k)); [done|]. rewrite (to_view _ _ _ _ _ _ S1). by rewrite at_key_other. }
  assert (forall x k', at_key k x (fun k' => expires (st s1) !! k') k' = at_key k x (fun k' => expires (st s) !! k') k') as Hexp.
  { intros x k'. unfold at_key at 1 2. destruct (decide (k' = k)); [done|]. rewrite (to_expires _ _ _ _ _ _ S1). by rewrite at_key_other. }
  exists (ticks s2), s1, s2. unfold restore_expire. destruct (Z.eqb_spec ttl 0); cbn [negb].
  - exists s2. split_and!; [done|done|done|]. eapply step_ext; [exact S12|done|]. intros k'. rewrite <- Hexp. unfold at_key.
    destruct (decide (k' = k)) as [->|]; [|done]. rewrite (to_expires _ _ _ _ _ _ S1). apply at_key_same.
  - set (when := if absttl then ttl else ttl + clock (conf s) (ticks s2)).
    assert (exists s2', (if negb absttl then now ← mstime; ll_arith (ttl + now) else mret ttl) s2 = Some (when, s2') /\ st s2' = st s2 /\ quiet s2 s2') as (s2' & Hw & Est & Hq).
    { unfold when. destruct absttl; cbn [negb]; [by exists s2|]. exists (upd_ticks S s2). split; [|done]. unfold mstime. run. rewrite Qc.
      apply ll_arith_run, Hclock. }
    rewrite (bind_run _ _ _ _ _ Hw). destruct (setExpire_spec s2' E c cl db key when) as (f & Hs & Hok3).
    + rewrite Est. apply S2.
    + rewrite Est, D2, lookup_insert_eq. by eexists.
    + destruct Hq as (_ & _ & -> & _). by rewrite Qcl.
    + eexists. split_and!; [done|done|exact Hs|]. rewrite Est in Hok3 |- *.
      assert (step_to s2 (upd_slave_keys f (with_st (with_expires (insert (db, key) when) (st s2)) s2')) E E (view (st s2))
        (at_key k (Some when) (fun k' => expires (st s2) !! k'))) as S3.
      { split; cbn; try done. intros k'. unfold at_key. destruct (decide (k' = k)) as [->|]; [apply lookup_insert_eq|by apply lookup_insert_ne]. }
      eapply step_ext; [exact (step_trans _ _ _ _ _ _ _ _ _ _ _ S12 S3 ltac:(set_solver))| |]; intros k'.
      * rewrite (to_view _ _ _ _ _ _ S2). apply Hview.
      * rewrite <- Hexp. unfold at_key. destruct (decide (k' = k)); [done|]. by rewrite (to_expires _ _ _ _ _ _ S2).
Qed.

(** The payload is the dump of a value, or one that the check refuses. *)
Definition payload_of (data : sds) (a : option avalue) : Prop :=
  match a with Some a => is_dump a data /\ value_fits a | None => ~ checked data end.

(** RESTORE once the payload is accepted. *)
Lemma restore_accept s s1 E c cl db key (replace absttl : bool) ttl a data (argv : list oid) : let k := (db, key) in
  key_step s s1 E E k (value_before s k replace) (expire_before s k replace) -> (replace = false -> dict (st s1) !! k = None) ->
  clients s !! c = Some cl -> (forall n, LLONG_MIN <= ttl + clock (conf s) n <= LLONG_MAX) ->
  is_dump a data -> value_fits a -> zlen data < 2 ^ 64 ->
  exists n v s', (obj ← load_from (rioInitWithBuffer data) (load_payload (conf s));
    match obj with
    | None => _ ← addReplyError c "Bad data format"; mret argv
    | Some obj =>
        _ ← (if replace : bool then _ ← dbDelete db key; mret tt else mret tt);
        _ ← dbAdd db key obj;
        _ ← (if negb (ttl =? 0) then
               when ← (if negb absttl then now ← mstime; ll_arith (ttl + now) else mret ttl);
               setExpire (Some c) db key when
             else mret tt);
        _ ← signalModifiedKey db key;
        _ ← addReply c R_ok;
        _ ← incr_dirty 1;
        mret argv
    end) s1 = Some (argv, s') /\ value_is (conf s) v a /\
    outcome s c k E s' (Some v) (restore_expire s ttl absttl n) true 1 [R_ok].
Proof.
  intros k Hst Hnone Hc Hclock Hd Hf Hl. destruct (to_quiet _ _ _ _ _ _ Hst) as (Qc & _ & Qcl & _).
  destruct (load_payload_run (conf s) s1 E a data (to_ok _ _ _ _ _ _ Hst) Hd Hf Hl) as (o & t & v & Hload & Sl & Dl & Hv & Hval).
  destruct (restore_put (with_st t s1) E c cl db key o v replace absttl ttl) as (n & s2 & s3 & s4 & H2 & H3 & H4 & S4).
  - apply Sl.
  - done.
  - intros Hr. cbn. rewrite Dl. by apply Hnone.
  - cbn. by rewrite Qcl.
  - cbn. by rewrite Qc.
  - fold k in S4. exists n, v. rewrite (bind_run _ _ _ _ _ Hload). cbv iota. rewrite (bind_run _ _ _ _ _ H2), (bind_run _ _ _ _ _ H3), (bind_run _ _ _ _ _ H4).
    rewrite (bind_run _ _ _ _ _ (signalModifiedKey_spec _ _ _)). unfold addReply, incr_dirty. eexists. split; [reflexivity|]. split; [done|].
    pose proof (step_trans _ _ _ _ _ _ _ _ _ _ _ (step_trans _ _ _ _ _ _ _ _ _ _ _ Hst Sl ltac:(done)) S4 ltac:(set_solver)) as S.
    assert (written s k E s4 (Some v) (restore_expire s ttl absttl n)) as Hw.
    { apply (key_step_written s s4 E E). eapply step_ext; [exact S| |]; intros k'; unfold at_key; destruct (decide (k' = k)); try done.
      - rewrite (to_view _ _ _ _ _ _ Sl), (to_view _ _ _ _ _ _ Hst). by rewrite at_key_other.
      - unfold restore_expire. cbn. by rewrite Qc.
      - rewrite (to_expires _ _ _ _ _ _ Sl), (to_expires _ _ _ _ _ _ Hst). by rewrite at_key_other. }
    by apply (outcome_written s c k E s4).
Qed.

(** C12 RESTORE with a payload that DUMP made binds the key to the dumped value, with the expire time that was
    asked for, flags the clients that watch the key and counts one change. It replies with an error and
    changes nothing when the options are wrong, when the key exists and REPLACE is not given, when the expire time is not
    a number or negative, and when the payload does not end with the checksum of its bytes. It is stated for expire times whose sum
    with any reading of the clock fits a long long; the code overflows a signed type on larger ones. *)
Theorem restoreCommand_restores s c cl argv F key tb data names a :
  clients s !! c = Some cl -> store_ok (st s) (argv ++ F) -> is_arg (st s) argv 1 key -> is_arg (st s) argv 2 tb -> is_arg (st s) argv 3 data ->
  named (st s) (drop 4 argv) names -> payload_of data a -> zlen data < 2 ^ 64 ->
  (forall ttl n, string2ll tb = Some ttl -> LLONG_MIN <= ttl + clock (conf s) n <= LLONG_MAX) ->
  let k := (c_db cl, key) in
  exists s', restoreCommand c argv s = Some (argv, s') /\
    match parse_restore names false false (-1) (-1) with
    | inl r => s' = upd_clients (alter (says [r]) c) s
    | inr (replace, absttl) =>
        let stops r := outcome s c k (argv ++ F) s' (value_before s k replace) (expire_before s k replace) false 0 [r] in
        if negb replace && bool_decide (is_Some (alive s k)) then stops R_busykeyerr
        else
          match string2ll tb, a with
          | None, _ => stops (RError "value is not an integer or out of range")
          | Some ttl, a =>
              if ttl <? 0 then stops (RError "Invalid TTL value, must be >= 0")
              else
                match a with
                | None => stops (RError "DUMP payload version or checksum are wrong")
                | Some a => exists n v, value_is (conf s) v a /\
                    outcome s c k (argv ++ F) s' (Some v) (restore_expire s ttl absttl n) true 1 [R_ok]
                end
          end
    end.
Proof.
  intros Hc Hok Hkey Htb Hdata Hn Hpay Hl Hclock k. unfold restoreCommand.
  destruct (restore_options_run s c argv F Hok (drop 4 argv) names ltac:(by apply subseteq_drop) Hn false false (-1) (-1)) as (x & Hopt).
  destruct (parse_restore names false false (-1) (-1)) as [r|[replace absttl]]; rewrite (bind_run _ _ _ _ _ Hopt); [by eexists|].
  rewrite (bind_run _ _ _ _ _ (client_db_run s c cl Hc)), (bind_run _ _ _ _ _ (is_arg_run s argv 1 key Hkey)).
  destruct (restore_lookup s (argv ++ F) (c_db cl) key replace Hok) as (s1 & Hbusy & Hst & Hkept & Hnone). fold k in Hst, Hnone, Hbusy.
  rewrite (bind_run _ _ _ _ _ Hbusy). destruct (negb replace && bool_decide (is_Some (alive s k))) eqn:Eb.
  { eexists. split; [reflexivity|]. by eapply key_step_outcome. }
  pose proof (is_arg_kept _ _ _ _ _ _ Hkept (argv_refs (st s1) argv F) Htb) as Htb1.
  pose proof (is_arg_kept _ _ _ _ _ _ Hkept (argv_refs (st s1) argv F) Hdata) as Hdata1.
  destruct (is_arg_val _ _ _ _ Htb1) as (o2 & Ho2 & Hv2). unfold arg. rewrite (bind_run _ _ _ _ _ (lift_run _ _ _ Ho2)).
  pose proof (getLongLongOrReply_spec s1 (argv ++ F) c o2 tb None (to_ok _ _ _ _ _ _ Hst)) as Hget.
  specialize (Hget ltac:(apply argv_refs; by eapply list_elem_of_lookup_2) Hv2).
  destruct (string2ll tb) as [ttl|]; rewrite (bind_run _ _ _ _ _ Hget); [|eexists; split; [reflexivity|by eapply key_step_outcome]].
  destruct (ttl <? 0); [eexists; split; [reflexivity|by eapply key_step_outcome]|].
  rewrite (bind_run _ _ _ _ _ (get_run s1)), (bind_run _ _ _ _ _ (is_arg_run s1 argv 3 data Hdata1)).
  destruct (to_quiet _ _ _ _ _ _ Hst) as (Qc & _). rewrite Qc.
  pose proof (is_arg_bytes _ _ _ _ _ Hok Hdata) as Hb.
  destruct a as [a|]; cbn [payload_of] in Hpay.
  - destruct Hpay as [Hd Hf]. rewrite (verify_checked _ _ Hb (is_dump_checked _ _ Hd)). rewrite (bind_run _ _ _ _ _ (lift_run _ _ _ eq_refl)). cbn [negb].
    destruct (restore_accept s s1 (argv ++ F) c cl (c_db cl) key replace absttl ttl a data argv) as (n & v & s' & Hrun & Hval & Hout); try done.
    + intros ->. apply Hnone; [done|]. cbn in Eb. by apply bool_decide_eq_false_1, eq_None_not_Some in Eb.
    + intros n. by apply Hclock.
    + exists s'. split; [exact Hrun|]. by exists n, v.
  - destruct (verify_total (data_env (conf s)) data Hb) as ([|] & Hver & Hck); [by destruct (Hpay (Hck eq_refl))|].
    rewrite Hver, (bind_run _ _ _ _ _ (lift_run _ _ _ eq_refl)). cbn [negb]. eexists. split; [reflexivity|]. by eapply key_step_outcome.
Qed.

Module DumpSample.
Import Sample.

(** The payload of the integer 10. *)
Definition ten : sds := [0x00; 0xc0; 0x0a; 0x09; 0x00; 0xbe; 0x6d; 0x06; 0x89; 0x5a; 0x28; 0x00; 0x0a].

(** It is what the function computes. *)
Example createDumpPayload_ten : createDumpPayload conf0 (Robj OBJ_STRING OBJ_ENCODING_INT (PLong 10) 1) = Some ten.
Proof. vm_compute. reflexivity. Qed.

Lemma ten_is_dump : is_dump (AStr [49; 48]) ten.
Proof.
  apply (dump_bytes _ 0 [0xc0; 0x0a] 0x0a00285a89066dbe); [|lia|done|vm_compute; reflexivity].
  apply code_string; [|repeat constructor; unfold byte_ok; lia].
  apply (code_int [49; 48] 10 RDB_ENC_INT8 1); [constructor; unfold in_s; cbn; lia|vm_compute; reflexivity].
Qed.

Lemma verifyDumpPayload_detects_witness :
  verifyDumpPayload env0 ten = Some true /\ verifyDumpPayload env0 ([0x00; 0xc0] ++ 0x0b :: drop 3 ten) = Some false.
Proof.
  destruct (verifyDumpPayload_detects env0 ten) as (ok & Ho & Hck & Hch).
  - repeat constructor; unfold byte_ok; lia.
  - assert (ok = true) as -> by (apply Hck; exact (is_dump_checked _ _ ten_is_dump)). split; [exact Ho|].
    apply (Hch eq_refl env0 [0x00; 0xc0] 0x0a (drop 3 ten)); [reflexivity|unfold byte_ok; lia|lia].
Defined.

(** DUMP of the key "n". *)
Lemma dumpCommand_replies_payload_witness :
  let argv := [o_cmd; o_n] in
  exists s', dumpCommand 1 argv s0 = Some (argv, s') /\
    exists p, is_dump (AStr (sdec 20000)) p /\ outcome s0 1 (0, [110]) (argv ++ rest argv) s' (Some (VStr (sdec 20000))) None false 0 [RBulk p].
Proof.
  intros argv. apply (dumpCommand_replies_payload s0 1 client0 argv (rest argv) [110] (AStr (sdec 20000))).
  - reflexivity.
  - apply store_check_sound. vm_compute. reflexivity.
  - arg.
  - intros i. cbn. split; lia.
  - intros v Hv. vm_compute in Hv. injection Hv as <-. split; vm_compute; reflexivity.
Defined.

(** RESTORE of the key "z" with the time 1 and the payload of 10. *)
Definition t_ten : store := with_objs (insert 11%positive (Robj OBJ_STRING OBJ_ENCODING_EMBSTR (PSds ten) 1)) t0.
Definition s_ten : server := with_st t_ten s0.

Lemma restoreCommand_restores_witness :
  let argv := [o_cmd; o_z; o_one; Heap 11] in
  exists s' n v, restoreCommand 1 argv s_ten = Some (argv, s') /\ value_is conf0 v (AStr [49; 48]) /\
    outcome s_ten 1 (0, [122]) (argv ++ rest argv) s' (Some v) (Some (1 + clock conf0 n)) true 1 [R_ok].
Proof.
  intros argv. destruct (restoreCommand_restores s_ten 1 client0 argv (rest argv) [122] [49] ten [] (Some (AStr [49; 48]))) as (s' & Hrun & n & v & Hv & Ho).
  - reflexivity.
  - apply store_check_sound. vm_compute. reflexivity.
  - arg.
  - arg.
  - arg.
  - constructor.
  - split; [exact ten_is_dump|vm_compute; reflexivity].
  - vm_compute. reflexivity.
  - intros ttl n Httl. vm_compute in Httl. injection Httl as <-. pose proof (clock_range n). unfold LLONG_MIN, LLONG_MAX. cbn [conf s_ten with_st upd_st s0]. lia.
  - exists s', n, v. split; [exact Hrun|]. split; [exact Hv|exact Ho].
Defined.
End DumpSample.
