(* ===== verification/BitCmdSpec.v ===== *)
(** * What the bit commands do (specification of BitCmd.v)

    The outcome of the commands in terms of the bits of the strings: [bits_of] is the
    list of the bits of a string, the most significant bit of the first byte first. *)

From S2P Require Import Prelude Endian Util Sds Bitops State Object Server Db DbSpec Outcome SampleState TString TStringSpec BitCmd.

(** ** Arguments *)

(** The bit offset an argument denotes, with [#] in front in units of [bits]. *)
Definition bit_offset (hash : bool) (bits : Z) (p : sds) : option Z :=
  let usehash := (first_char p =? 35) && hash && (bits >? 0) in
  n ← string2ll (if usehash then tail p else p);
  let n := if usehash then n * bits else n in
  if (0 <=? n) && (n <? 2 ^ 32) then Some n else None.

(** The product is a [long long]. *)
Definition offset_fits (bits : Z) (p : sds) : Prop := forall n, string2ll (tail p) = Some n -> in_s 64 (n * bits).

Definition bit_value (p : sds) : option bool :=
  n ← string2ll p; if n =? 0 then Some false else if n =? 1 then Some true else None.

Lemma shiftr_3 n : 8 * Z.shiftr n 3 <= n < 8 * Z.shiftr n 3 + 8.
Proof.
  rewrite Z.shiftr_div_pow2 by lia. change (2 ^ 3) with 8.
  pose proof (Z.div_mod n 8 ltac:(lia)). pose proof (Z.mod_pos_bound n 8 ltac:(lia)). lia.
Qed.

Lemma offset_limit n : (n <? 0) || (Z.shiftr n 3 >=? 512 * 1024 * 1024) = negb ((0 <=? n) && (n <? 2 ^ 32)).
Proof.
  rewrite Z.geb_leb. pose proof (shiftr_3 n).
  destruct (Z.ltb_spec n 0), (Z.leb_spec (512 * 1024 * 1024) (Z.shiftr n 3)), (Z.leb_spec 0 n), (Z.ltb_spec n (2 ^ 32)); cbn; lia.
Qed.

Lemma getBitOffset_spec s c o r p (hash : bool) bits :
  obj_at (st s) o = Some r -> as_sds r = Some p -> (hash = true -> offset_fits bits p) ->
  getBitOffsetFromArgument c o hash bits s =
    match bit_offset hash bits p with
    | Some n => Some (Some n, s)
    | None => Some (None, upd_clients (alter (says [RError BIT_OFFSET_ERR]) c) s)
    end.
Proof.
  intros Hr Hp Hfit. unfold getBitOffsetFromArgument, bit_offset.
  erewrite bind_run by (apply in_store_same; unfold obj; run; by apply lift_run).
  erewrite bind_run by (by apply lift_run). cbv zeta.
  destruct ((first_char p =? 35) && hash && (bits >? 0)) eqn:Hu.
  - destruct (string2ll (tail p)) as [n|] eqn:Hn; [|done]. cbn [mbind option_bind].
    zbool. destruct hash; [|done]. destruct (Hfit eq_refl n Hn) as [Hlo Hhi]. change (64 - 1) with 63 in *.
    erewrite bind_run.
    2:{ unfold ll_arith, LLONG_MIN, LLONG_MAX. by rewrite !(proj2 (Z.leb_le _ _)) by lia. }
    rewrite offset_limit. by destruct ((0 <=? n * bits) && (n * bits <? 2 ^ 32)).
  - destruct (string2ll p) as [n|] eqn:Hn; [|done]. cbn [mbind option_bind]. run.
    rewrite offset_limit. by destruct ((0 <=? n) && (n <? 2 ^ 32)).
Qed.

(** Only 0 and 1 have no bit but the lowest. *)
Lemma bit_test n : (Z.land n (Z.lnot 1) =? 0) = (n =? 0) || (n =? 1).
Proof.
  change (Z.lnot 1) with (Z.lnot (Z.ones 1)). rewrite <- Z.ldiff_land, Z.ldiff_ones_r by lia.
  rewrite Z.shiftl_mul_pow2, Z.shiftr_div_pow2 by lia. change (2 ^ 1) with 2.
  pose proof (Z.div_mod n 2 ltac:(lia)). pose proof (Z.mod_pos_bound n 2 ltac:(lia)).
  destruct (Z.eqb_spec (n / 2 * 2) 0), (Z.eqb_spec n 0), (Z.eqb_spec n 1); cbn; lia.
Qed.

(** ** The string to write *)

(** [bs] with zero bytes up to a length of [n]. *)
Definition padded (bs : sds) (n : Z) : sds := bs ++ replicate (Z.to_nat (n - zlen bs)) 0.

(** The bytes of a key that holds a string or is absent. *)
Definition old_bytes (v : option value) : sds := match v with Some (VStr bs) => bs | _ => [] end.

Lemma bytes_padded bs n : bytes_ok bs -> bytes_ok (padded bs n).
Proof. intros Hb. apply Forall_app. split; [done|by apply Forall_replicate]. Qed.

Lemma zlen_padded bs n : zlen (padded bs n) = Z.max (zlen bs) n.
Proof. unfold padded. rewrite zlen_app. unfold zlen. rewrite length_replicate. lia. Qed.

Lemma sdsgrowzero_padded bs n s : 0 <= n < 2 ^ 63 -> sdsgrowzero bs n s = Some (padded bs n, s).
Proof.
  intros Hn. pose proof (sdsgrowzero_spec bs 0 n s ltac:(lia) ltac:(lia) ltac:(lia)) as H.
  unfold size_sum in H. by rewrite wrapu_small in H by (unfold in_u; lia).
Qed.

Lemma in_padded bs bit : 0 <= bit -> 0 <= bit < 8 * zlen (padded bs (Z.shiftr bit 3 + 1)).
Proof. intros Hb. rewrite zlen_padded. pose proof (shiftr_3 bit). lia. Qed.

(** The key holds an unshared string with a bit [maxbit], or it is of another type. *)
Lemma lookupStringForBit_spec s E c db key maxbit :
  store_ok (st s) E -> 0 <= maxbit < 2 ^ 40 ->
  let k := (db, key) in
  let bs := padded (old_bytes (alive s k)) (Z.shiftr maxbit 3 + 1) in
  (exists t d s1, alive s k = Some (VObj t d) /\ expire_step k E s s1 /\
     lookupStringForBitCommand c db key maxbit s = Some (None, upd_clients (alter (says [R_wrongtypeerr]) c) s1)) \/
  (exists o s1, (forall t d, alive s k <> Some (VObj t d)) /\
     lookupStringForBitCommand c db key maxbit s = Some (Some o, s1) /\
     written s k E s1 (Some (VStr bs)) (alive_expire s k) /\ dict (st s1) !! k = Some o /\
     obj_at (st s1) o = Some (Robj OBJ_STRING OBJ_ENCODING_RAW (PSds bs) 1) /\ bytes_ok bs).
Proof.
  intros Hok Hm k. assert (0 <= Z.shiftr maxbit 3 + 1 < 2 ^ 63) as Hn by (pose proof (shiftr_3 maxbit); lia).
  unfold lookupStringForBitCommand. destruct (lookup_found s _ db key Hok) as (s1 & old & Hl & Hes & Hf).
  cbv zeta. rewrite (bind_run _ _ _ _ _ Hl). fold k in Hes, Hf |- *. pose proof (es_ok _ _ _ _ Hes) as Hok1.
  destruct (alive s k) as [v|] eqn:Ha; inversion Hf as [_ Hk|o v' _ Hk Hv Hin]; subst.
  - destruct v as [bs|t d].
    2:{ left. exists t, d, s1. split_and!; [done..|]. by rewrite (bind_run _ _ _ _ _ (checkType_wrong _ _ c o t d Hok1 Hin Hv)). }
    right. rewrite (bind_run _ _ _ _ _ (checkType_string _ _ c o bs Hok1 Hin Hv)). cbv beta iota. cbn [old_bytes].
    destruct (unshare_key s s1 E db key o bs Hes Hk Hv) as (o' & s2 & Hun & Hw & Hk2 & Hr).
    assert (bytes_ok (padded bs (Z.shiftr maxbit 3 + 1))) as Hbytes by (by eapply bytes_padded, store_ok_bytes).
    destruct (written_again s k E s2 _ _ o' bs _ Hw Hk2 Hr Hbytes) as (t & Hset & Hw' & Hk' & Hr').
    erewrite bind_run by exact Hun. erewrite bind_run by (apply in_store_same; unfold obj; run; by apply lift_run).
    erewrite bind_run by (by apply lift_run). erewrite bind_run by (by apply sdsgrowzero_padded).
    erewrite bind_run by (by apply in_store_run). by exists o', (with_st t s2).
  - right. destruct (new_zeros s s1 E db key _ Hes Hk Hn) as (o & s2 & Hrun & Hw & Hk2 & Hr).
    exists o, s2. unfold padded. cbn [old_bytes app]. rewrite zlen_nil, Z.sub_0_r.
    split_and!; [done..|by apply Forall_replicate].
Qed.

(** ** SETBIT *)

Lemma replace_bit_spec s k E s1 v x o bs off (on : bool) :
  written s k E s1 v x -> dict (st s1) !! k = Some o ->
  obj_at (st s1) o = Some (Robj OBJ_STRING OBJ_ENCODING_RAW (PSds bs) 1) -> bytes_ok bs -> 0 <= off < 8 * zlen bs ->
  exists b bs' bitval s2, bits_of bs !! Z.to_nat off = Some b /\ bits_of bs' = <[Z.to_nat off := on]> (bits_of bs) /\
    replace_bit o off (b2z on) s1 = Some (bitval, s2) /\ negb (bitval =? 0) = b /\
    written s k E s2 (Some (VStr bs')) x.
Proof.
  intros Hw Hk Hr Hbs Hoff. destruct (bit_read bs off Hoff) as (b & byteval & Hb & Hbyte & Hbit).
  destruct (bit_write bs off on Hbs Hoff) as (byteval' & bs' & Hbyte' & Hwr & Hbs' & _ & Hbits).
  rewrite Hbyte in Hbyte'. injection Hbyte' as <-.
  assert (0 <= 7 - Z.land off 7) as Hpos.
  { rewrite land_7. pose proof (Z.mod_pos_bound off 8 ltac:(lia)). lia. }
  rewrite land_shiftr_1 in Hbit by done.
  destruct (written_again s k E s1 v x o bs bs' Hw Hk Hr Hbs') as (t & Hset & Hw' & _ & _).
  exists b, bs', (Z.land byteval (Z.shiftl 1 (7 - Z.land off 7))), (with_st t s1). split_and!; [done|done| | |done].
  - unfold replace_bit. erewrite bind_run by (apply in_store_same; unfold obj; run; by apply lift_run).
    erewrite bind_run by (by apply lift_run). erewrite bind_run by (by apply lift_run).
    assert (Z.land (b2z on) 1 = b2z on) as -> by (by destruct on). unfold set_bit_of in Hwr.
    change 255 with (Z.ones 8) in Hwr. rewrite Z.land_ones in Hwr by lia. fold (wrapu 8 (Z.lor
      (Z.land byteval (Z.lnot (Z.shiftl 1 (7 - Z.land off 7)))) (Z.shiftl (b2z on) (7 - Z.land off 7)))) in Hwr.
    erewrite bind_run by (by apply lift_run). by erewrite bind_run by (by apply in_store_run).
  - rewrite Z.shiftl_1_l, land_pow2, negb_involutive by done. by destruct b, (Z.testbit _ _).
Qed.

(** The outcome of SETBIT with a valid offset and bit: the bits of the string, padded so that it has the
    bit, with the bit replaced; the reply is the old bit. *)
Definition setbit_outcome (s : server) (c : Z) (k : Z * sds) (E : list oid) (off : Z) (on : bool) (s' : server) : Prop :=
  match alive s k with
  | Some (VObj _ _) => outcome s c k E s' (alive s k) (alive_expire s k) false 0 [R_wrongtypeerr]
  | _ =>
      let bits := bits_of (padded (old_bytes (alive s k)) (off / 8 + 1)) in
      exists b new, bits !! Z.to_nat off = Some b /\ bits_of new = <[Z.to_nat off := on]> bits /\
        outcome s c k E s' (Some (VStr new)) (alive_expire s k) true 1 [RInt (b2z b)]
  end.

Lemma setbit_outcome_string s c k E off on s' b new :
  let bits := bits_of (padded (old_bytes (alive s k)) (Z.shiftr off 3 + 1)) in
  (forall t d, alive s k <> Some (VObj t d)) ->
  bits !! Z.to_nat off = Some b -> bits_of new = <[Z.to_nat off := on]> bits ->
  outcome s c k E s' (Some (VStr new)) (alive_expire s k) true 1 [RInt (b2z b)] -> setbit_outcome s c k E off on s'.
Proof.
  intros bits Hnot Hb Hnew Ho. unfold setbit_outcome, bits in *. rewrite Z.shiftr_div_pow2 in Hb, Hnew by lia.
  change (2 ^ 3) with 8 in *. destruct (alive s k) as [[|]|]; [by exists b, new|by edestruct Hnot|by exists b, new].
Qed.

(** [setbitCommand] replaces one bit of the string of the key, which it creates or pads with zeros when
    it is too short, and replies with the old bit; it does so on a copy when the string is shared or
    stored as an integer. A bad offset (also one above 512 MB), a bad bit or another type is an
    error that changes nothing. *)
Theorem setbitCommand_sets s c cl argv F key ob vb :
  clients s !! c = Some cl -> store_ok (st s) (argv ++ F)%list ->
  is_arg (st s) argv 1 key -> is_arg (st s) argv 2 ob -> is_arg (st s) argv 3 vb ->
  exists s', setbitCommand c argv s = Some (argv, s') /\
    match bit_offset false 0 ob, bit_value vb with
    | None, _ => s' = upd_clients (alter (says [RError BIT_OFFSET_ERR]) c) s
    | _, None => s' = upd_clients (alter (says [RError BIT_ERR]) c) s
    | Some off, Some on => setbit_outcome s c (c_db cl, key) (argv ++ F)%list off on s'
    end.
Proof.
  intros Hc Hok Hkey Hoff Hval. unfold setbitCommand.
  rewrite (bind_run _ _ _ _ _ (client_db_run s c cl Hc)), (bind_run _ _ _ _ _ (is_arg_run s argv 1 key Hkey)).
  destruct Hoff as (o2 & r2 & Ho2 & Hr2 & Hs2). erewrite bind_run by (by apply lift_run).
  pose proof (getBitOffset_spec s c o2 r2 ob false 0 Hr2 Hs2 ltac:(done)) as Hget.
  destruct (bit_offset false 0 ob) as [off|] eqn:Eoff; erewrite bind_run by exact Hget; cbv beta iota.
  2:{ by eexists. }
  destruct (is_arg_val _ _ _ _ Hval) as (o3 & Ho3 & Hv3). erewrite bind_run by (by apply lift_run).
  pose proof (getLongOrReply_spec s _ c o3 vb (Some BIT_ERR) Hok (refs_ext _ _ _ (arg_in _ F _ _ Ho3)) Hv3) as Hget3.
  unfold bit_value. destruct (string2ll vb) as [n|]; erewrite bind_run by exact Hget3; cbv beta iota; cbn [mbind option_bind].
  2:{ by eexists. }
  rewrite bit_test. destruct (decide (n = 0 \/ n = 1)) as [Hn|Hn].
  2:{ rewrite !(proj2 (Z.eqb_neq n _)) by lia. by eexists. }
  assert (exists on, n = b2z on /\ (if n =? 0 then Some false else if n =? 1 then Some true else None) = Some on /\
    (n =? 0) || (n =? 1) = true) as (on & -> & -> & ->) by (destruct Hn as [->| ->]; [by exists false|by exists true]).
  cbn [negb]. clear Hn.
  assert (0 <= off < 2 ^ 32) as Hrange.
  { unfold bit_offset in Eoff. rewrite andb_false_r in Eoff. destruct (string2ll ob) as [m|]; [|done]. cbn in Eoff.
    destruct ((0 <=? m) && (m <? 2 ^ 32)) eqn:Em; [|done]. injection Eoff as <-. zbool. done. }
  destruct (lookupStringForBit_spec s _ c (c_db cl) key off Hok ltac:(lia))
    as [(t & d & s1 & Ha & Hes & Hrun)|(o & s1 & Hnot & Hrun & Hw & Hk & Hr & Hbytes)]; set (k := (c_db cl, key)) in *.
  - erewrite bind_run by exact Hrun. eexists. split; [done|]. unfold setbit_outcome. rewrite Ha. rewrite <- Ha. by apply outcome_lookup.
  - erewrite bind_run by exact Hrun. cbv beta iota. set (bs := padded _ _) in *.
    destruct (replace_bit_spec s k _ s1 _ _ o bs off on Hw Hk Hr Hbytes) as (b & bs' & bitval & s2 & Hb & Hbits & Hrep & Hbv & Hw2).
    { apply in_padded. lia. }
    erewrite bind_run by exact Hrep. rewrite (bind_run _ _ _ _ _ (signalModifiedKey_spec _ _ _)).
    eexists. split; [done|]. apply (setbit_outcome_string _ _ _ _ _ _ _ b bs' Hnot Hb Hbits).
    eapply outcome_written; [done..| |done]. cbn. rewrite Hbv. by destruct b.
Qed.

(** ** BITCOUNT and BITPOS *)

Lemma getObjectReadOnlyString_spec s E o bs :
  store_ok (st s) E -> o ∈ refs (st s) E -> val_at (st s) o = Some (VStr bs) ->
  getObjectReadOnlyString o s = Some (bs, s).
Proof.
  intros Hok Ho Hv. destruct (string_run _ _ Hok o bs Ho Hv) as (r & Hr & _ & Hs). unfold getObjectReadOnlyString.
  erewrite bind_run by (by apply in_store_same).
  erewrite bind_run by (by apply assert_run, bool_decide_eq_true_2, (string_obj_type _ _ Hs)).
  apply lift_run. pose proof (string_bytes_spec bs r Hs) as Hb. unfold string_bytes in Hb. by destruct Hs.
Qed.

(** A numeric argument is read after a lookup. *)
Lemma long_arg s s1 k argv F c i bs msg :
  expire_step k (argv ++ F)%list s s1 -> is_arg (st s) argv i bs ->
  exists o, argv !! i = Some o /\
    getLongFromObjectOrReply c (Some o) msg s1 =
      match string2ll bs with
      | Some v => Some (Some v, s1)
      | None => Some (None, upd_clients (alter (says [RError (default "value is not an integer or out of range"%string msg)]) c) s1)
      end.
Proof.
  intros Hes Harg. destruct (is_arg_val _ _ _ _ (is_arg_es _ _ _ _ _ _ _ Hes Harg)) as (o & Ho & Hv).
  exists o. split; [done|]. eapply getLongOrReply_spec; [apply Hes| |done]. eapply refs_ext, arg_in, Ho.
Qed.

Lemma range_start_clamp n i : 0 <= n -> range_start n i = clamp n i.
Proof. apply clamp_code. Qed.

Lemma range_end_clamp n i : 0 <= n -> range_end n i = Z.min (clamp n i) (n - 1).
Proof.
  intros Hn. pose proof (clamp_code n i Hn) as H. unfold range_end. cbv zeta in *. rewrite H, Z.geb_leb.
  destruct (Z.leb_spec n (clamp n i)); lia.
Qed.

Lemma clamp_nonneg n i : 0 <= clamp n i.
Proof. unfold clamp. destruct (Z.ltb_spec i 0); lia. Qed.

(** The bytes from [a] to [b]. *)
Definition segment (bs : sds) (a b : Z) : sds := take (Z.to_nat (b - a + 1)) (drop (Z.to_nat a) bs).

Lemma segment_all bs : segment bs 0 (zlen bs - 1) = bs.
Proof. unfold segment. rewrite drop_0, take_ge; [done|]. unfold zlen. lia. Qed.

Lemma segment_empty bs a b : b < a -> segment bs a b = [].
Proof. intros Hb. unfold segment. by rewrite (Z2Nat.nonpos (b - a + 1)) by lia. Qed.

Section addresses.
Context `{Host} (address : oid -> Z).

Lemma count_range_spec c o bs a b s :
  bytes_ok bs -> zlen bs < 2 ^ 60 -> 0 <= a -> b < zlen bs ->
  count_range address c o bs a b s =
    Some (tt, upd_clients (alter (says [RInt (ones (bits_of (segment bs a b)))]) c) s).
Proof.
  intros Hbs Hlen Ha Hb. unfold count_range. rewrite Z.gtb_ltb. destruct (Z.ltb_spec b a) as [Hlt|Hle].
  { by rewrite segment_empty. }
  assert (zlen (drop (Z.to_nat a) bs) = zlen bs - a) as Hd by (unfold zlen in *; rewrite length_drop; lia).
  erewrite bind_run by (apply lift_run, redisPopcount_counts; [by apply Forall_drop|lia|lia]).
  fold (segment bs a b). pose proof (ones_range (bits_of (segment bs a b))) as Hr. rewrite zlen_bits_of in Hr.
  assert (zlen (segment bs a b) <= zlen bs).
  { unfold segment, zlen in *. rewrite length_take, length_drop. lia. }
  rewrite wraps_small; [done|lia|]. unfold in_s. change (64 - 1) with 63. lia.
Qed.

(** What BITCOUNT replies: [argc] is the number of arguments, [start] and [stop] are what the optional ones
    denote. *)
Definition bitcount_reply (v : option value) (argc : Z) (start stop : option Z) : reply :=
  match v with
  | None => RInt 0
  | Some (VObj _ _) => R_wrongtypeerr
  | Some (VStr bs) =>
      if argc =? 4 then
        match start, stop with
        | Some a, Some b => RInt (ones (bits_of (slice bs a b)))
        | _, _ => RError "value is not an integer or out of range"
        end
      else if argc =? 2 then RInt (ones (bits_of bs))
      else R_syntaxerr
  end.

(** [bitcountCommand] replies with the number of bits that are set in the bytes the range selects of the
    string a reader sees, wherever the string is in memory and whatever the byte order; it
    changes nothing but to remove a key that has expired on a master. *)
Theorem bitcountCommand_counts s c cl argv F key sb eb :
  clients s !! c = Some cl -> store_ok (st s) (argv ++ F)%list -> is_arg (st s) argv 1 key ->
  (zlen argv = 4 -> is_arg (st s) argv 2 sb /\ is_arg (st s) argv 3 eb) ->
  let k := (c_db cl, key) in
  (forall bs, visible s k = Some (VStr bs) -> zlen bs < 2 ^ 60) ->
  exists s', bitcountCommand address c argv s = Some (argv, s') /\
    outcome s c k (argv ++ F)%list s' (alive s k) (alive_expire s k) false 0
      [bitcount_reply (visible s k) (zlen argv) (string2ll sb) (string2ll eb)].
Proof.
  intros Hc Hok Hkey Hargs k Hlen. unfold bitcountCommand.
  destruct (lookupReadOrReply_spec s c cl _ key (RInt 0) Hc Hok) as (s1 & old & Hes & Hf & Hrun). fold k in Hes, Hf.
  rewrite (bind_run _ _ _ _ _ (is_arg_run s argv 1 key Hkey)), (bind_run _ _ _ _ _ Hrun). pose proof (es_ok _ _ _ _ Hes) as Hok1.
  destruct (visible s k) as [v|]; [inversion Hf as [|o v' Hv Hin]|inversion Hf]; subst; cbv beta iota.
  2:{ eexists. split; [done|]. by apply outcome_lookup. }
  destruct v as [bs|t d].
  2:{ rewrite (bind_run _ _ _ _ _ (checkType_wrong _ _ c o t d Hok1 Hin Hv)). eexists. split; [done|]. by apply outcome_lookup. }
  rewrite (bind_run _ _ _ _ _ (checkType_string _ _ c o bs Hok1 Hin Hv)). cbv beta iota.
  erewrite bind_run by (by eapply getObjectReadOnlyString_spec). specialize (Hlen bs eq_refl).
  assert (bytes_ok bs) as Hbs by (by eapply store_ok_bytes). pose proof (zlen_nonneg bs). cbn [bitcount_reply].
  destruct (Z.eqb_spec (zlen argv) 4) as [H4|H4].
  - destruct (Hargs H4) as [Hs2 Hs3]. cbv zeta.
    destruct (long_arg s s1 k argv F c 2 sb None Hes Hs2) as (o2 & Ho2 & Hg2). erewrite bind_run by (by apply lift_run).
    destruct (string2ll sb) as [start|] eqn:Es; erewrite bind_run by exact Hg2; cbv beta iota.
    2:{ eexists. split; [done|]. by apply outcome_lookup. }
    destruct (long_arg s s1 k argv F c 3 eb None Hes Hs3) as (o3 & Ho3 & Hg3). erewrite bind_run by (by apply lift_run).
    destruct (string2ll eb) as [stop|] eqn:Ee; erewrite bind_run by exact Hg3; cbv beta iota.
    2:{ eexists. split; [done|]. by apply outcome_lookup. }
    unfold slice. rewrite Z.gtb_ltb. destruct ((start <? 0) && (stop <? 0) && (stop <? start)).
    { eexists. split; [done|]. by apply outcome_lookup. }
    erewrite bind_run.
    2:{ rewrite range_start_clamp, range_end_clamp by done. apply count_range_spec; [done..|apply clamp_nonneg|lia]. }
    eexists. split; [done|]. by apply outcome_lookup.
  - destruct (zlen argv =? 2).
    + erewrite bind_run by (apply count_range_spec; [done..|lia|lia]). rewrite segment_all.
      eexists. split; [done|]. by apply outcome_lookup.
    + eexists. split; [done|]. by apply outcome_lookup.
Qed.

Lemma find_bit_lt bv l i : find_bit bv l = Some i -> 0 <= i < zlen l.
Proof.
  revert i. induction l as [|b l IH]; intros i; [done|]. cbn [find_bit]. rewrite zlen_cons. pose proof (zlen_nonneg l).
  destruct (eqb b bv); [intros [= <-]; lia|]. destruct (find_bit bv l) as [j|]; [|done].
  intros [= <-]. specialize (IH j eq_refl). lia.
Qed.

(** The position among all bits of the first bit [bv] in the bytes from [a] to [b]. A string is followed by
    zeros when no end is given. *)
Definition first_bit (bs : sds) (a b : Z) (bv end_given : bool) : Z :=
  if b <? a then -1
  else match find_bit bv (bits_of (segment bs a b)) with
       | Some i => 8 * a + i
       | None => if bv || end_given then -1 else 8 * (b + 1)
       end.

Lemma pos_range_spec c o bs a b bv (end_given : bool) s :
  bytes_ok bs -> 0 <= a -> b < zlen bs ->
  pos_range address c o bs a b (b2z bv) end_given s =
    Some (tt, upd_clients (alter (says [RInt (first_bit bs a b bv end_given)]) c) s).
Proof.
  intros Hbs Ha Hb. unfold pos_range, first_bit. rewrite Z.gtb_ltb. destruct (Z.ltb_spec b a) as [Hlt|Hle]; [done|].
  assert (zlen (drop (Z.to_nat a) bs) = zlen bs - a) as Hd by (unfold zlen in *; rewrite length_drop; lia).
  erewrite bind_run by (apply lift_run, redisBitpos_first; [by apply Forall_drop|lia]). fold (segment bs a b).
  assert (zlen (segment bs a b) = b - a + 1) as Hseg.
  { unfold segment, zlen in *. rewrite length_take, length_drop. lia. }
  destruct (find_bit bv (bits_of (segment bs a b))) as [i|] eqn:Hi.
  - apply find_bit_lt in Hi. rewrite zlen_bits_of, Hseg in Hi.
    rewrite (proj2 (Z.eqb_neq i ((b - a + 1) * 8))), andb_false_r by lia. rewrite (proj2 (Z.eqb_neq i (-1))) by lia.
    cbn [negb]. by replace (8 * a + i) with (i + a * 8) by lia.
  - destruct bv; cbn [orb b2z].
    + by rewrite andb_false_r.
    + change (0 =? 0) with true. rewrite (proj2 (Z.eqb_eq (8 * (b - a + 1)) ((b - a + 1) * 8))), !andb_true_r by lia.
      destruct end_given; [done|]. cbn [andb].
      rewrite (proj2 (Z.eqb_neq _ (-1))) by lia. cbn [negb]. by replace (8 * (b + 1)) with (8 * (b - a + 1) + a * 8) by lia.
Qed.

(** What BITPOS replies when it looks for the bit [bv]. *)
Definition bitpos_reply (v : option value) (bv : bool) (argc : Z) (start stop : option Z) : reply :=
  match v with
  | None => RInt (if bv then -1 else 0)
  | Some (VObj _ _) => R_wrongtypeerr
  | Some (VStr bs) =>
      let n := zlen bs in
      let from a b given := RInt (first_bit bs (clamp n a) (Z.min (clamp n b) (n - 1)) bv given) in
      let bad := RError "value is not an integer or out of range" in
      if argc =? 3 then RInt (first_bit bs 0 (n - 1) bv false)
      else if argc =? 4 then match start with Some a => from a (n - 1) false | None => bad end
      else if argc =? 5 then match start, stop with Some a, Some b => from a b true | _, _ => bad end
      else R_syntaxerr
  end.

(** [bitposCommand] replies with the position of the first bit with the given value in the range, counted from the
    start of the string; without an explicit end the string counts as followed by zeros, so that the
    first clear bit of a string of ones is the one after it, and with one the reply is -1. *)
Theorem bitposCommand_finds s c cl argv F key bb sb eb :
  clients s !! c = Some cl -> store_ok (st s) (argv ++ F)%list -> is_arg (st s) argv 1 key -> is_arg (st s) argv 2 bb ->
  (zlen argv = 4 \/ zlen argv = 5 -> is_arg (st s) argv 3 sb) -> (zlen argv = 5 -> is_arg (st s) argv 4 eb) ->
  let k := (c_db cl, key) in
  exists s', bitposCommand address c argv s = Some (argv, s') /\
    match string2ll bb, bit_value bb with
    | None, _ => s' = upd_clients (alter (says [RError "value is not an integer or out of range"]) c) s
    | _, None => s' = upd_clients (alter (says [RError "The bit argument must be 1 or 0."]) c) s
    | _, Some bv =>
        outcome s c k (argv ++ F)%list s' (alive s k) (alive_expire s k) false 0
          [bitpos_reply (visible s k) bv (zlen argv) (string2ll sb) (string2ll eb)]
    end.
Proof.
  intros Hc Hok Hkey Hbit Hs3 Hs4 k. unfold bitposCommand.
  destruct (is_arg_val _ _ _ _ Hbit) as (o2 & Ho2 & Hv2). erewrite bind_run by (by apply lift_run).
  pose proof (getLongOrReply_spec s _ c o2 bb None Hok (refs_ext _ _ _ (arg_in _ F _ _ Ho2)) Hv2) as Hg2.
  unfold bit_value. destruct (string2ll bb) as [n|]; erewrite bind_run by exact Hg2; cbv beta iota; cbn [mbind option_bind].
  2:{ by eexists. }
  destruct (decide (n = 0 \/ n = 1)) as [Hn|Hn].
  2:{ rewrite !(proj2 (Z.eqb_neq n _)) by lia. by eexists. }
  assert (exists bv, n = b2z bv /\ (if n =? 0 then Some false else if n =? 1 then Some true else None) = Some bv /\
    negb (n =? 0) && negb (n =? 1) = false) as (bv & -> & -> & ->) by (destruct Hn as [->| ->]; [by exists false|by exists true]).
  clear Hn Hg2. rewrite (bind_run _ _ _ _ _ (client_db_run s c cl Hc)), (bind_run _ _ _ _ _ (is_arg_run s argv 1 key Hkey)).
  destruct (lookupKeyRead_spec s _ (c_db cl) key Hok) as (s1 & old & Hrun & Hes & Hf). fold k in Hes, Hf.
  unfold lookupKeyRead. erewrite bind_run by exact Hrun. pose proof (es_ok _ _ _ _ Hes) as Hok1.
  destruct (visible s k) as [v|]; [inversion Hf as [|o v' Hv Hin]|inversion Hf]; subst; cbv beta iota.
  2:{ eexists. split; [done|]. destruct bv; by apply outcome_lookup. }
  destruct v as [bs|t d].
  2:{ rewrite (bind_run _ _ _ _ _ (checkType_wrong _ _ c o t d Hok1 Hin Hv)). eexists. split; [done|]. by apply outcome_lookup. }
  rewrite (bind_run _ _ _ _ _ (checkType_string _ _ c o bs Hok1 Hin Hv)). cbv beta iota.
  erewrite bind_run by (by eapply getObjectReadOnlyString_spec).
  assert (bytes_ok bs) as Hbs by (by eapply store_ok_bytes). pose proof (zlen_nonneg bs). cbn [bitpos_reply]. cbv zeta.
  destruct (decide (zlen argv = 4 \/ zlen argv = 5)) as [H45|H45].
  - replace ((zlen argv =? 4) || (zlen argv =? 5)) with true by (destruct H45 as [-> | ->]; done).
    rewrite (proj2 (Z.eqb_neq (zlen argv) 3)) by lia.
    destruct (long_arg s s1 k argv F c 3 sb None Hes (Hs3 H45)) as (o3 & Ho3 & Hg3). erewrite bind_run by (by apply lift_run).
    destruct (string2ll sb) as [start|]; erewrite bind_run by exact Hg3; cbv beta iota.
    2:{ eexists. split; [done|]. destruct H45 as [-> | ->]; by apply outcome_lookup. }
    destruct (Z.eqb_spec (zlen argv) 5) as [H5|H5].
    + rewrite (proj2 (Z.eqb_neq (zlen argv) 4)) by lia.
      destruct (long_arg s s1 k argv F c 4 eb None Hes (Hs4 H5)) as (o4 & Ho4 & Hg4).
      rewrite bind_assoc_run. erewrite bind_run by (by apply lift_run).
      destruct (string2ll eb) as [stop|]; erewrite bind_run by exact Hg4; cbv beta iota.
      2:{ eexists. split; [done|]. by apply outcome_lookup. }
      erewrite bind_run.
      2:{ rewrite range_start_clamp, range_end_clamp by done. apply pos_range_spec; [done|apply clamp_nonneg|lia]. }
      eexists. split; [done|]. by apply outcome_lookup.
    + rewrite (proj2 (Z.eqb_eq (zlen argv) 4)) by lia. run. erewrite bind_run.
      2:{ rewrite range_start_clamp, range_end_clamp by done. apply pos_range_spec; [done|apply clamp_nonneg|lia]. }
      eexists. split; [done|]. by apply outcome_lookup.
  - rewrite !(proj2 (Z.eqb_neq (zlen argv) 4)), !(proj2 (Z.eqb_neq (zlen argv) 5)) by lia. cbn [orb].
    destruct (zlen argv =? 3).
    + erewrite bind_run by (apply pos_range_spec; [done|lia|lia]). eexists. split; [done|]. by apply outcome_lookup.
    + eexists. split; [done|]. by apply outcome_lookup.
Qed.
End addresses.

(** ** Applications to a concrete state *)

Module Applied.
Import SampleState.Sample.

(** SETBIT of "a", whose string is shared, at offset 1. *)
Lemma setbitCommand_sets_witness :
  exists s', setbitCommand 1 [o_cmd; o_a; o_one; o_one'] s1 = Some ([o_cmd; o_a; o_one; o_one'], s') /\
    setbit_outcome s1 1 (0, [97]) ([o_cmd; o_a; o_one; o_one'] ++ rest1 [o_cmd; o_a; o_one; o_one'])%list 1 true s'.
Proof.
  apply (setbitCommand_sets s1 1 client0 [o_cmd; o_a; o_one; o_one'] (rest1 [o_cmd; o_a; o_one; o_one']) [97] [49] [49]).
  - reflexivity.
  - apply ok_argv1. vm_compute. reflexivity.
  - arg.
  - arg.
  - arg.
Defined.

(** BITCOUNT of "n", which is stored as an integer, from byte 1 on. *)
Lemma bitcountCommand_counts_witness :
  exists s', @bitcountCommand true (fun _ => 3) 1 [o_cmd; o_n; o_one; o_max] s0 = Some ([o_cmd; o_n; o_one; o_max], s') /\
    outcome s0 1 (0, [110]) ([o_cmd; o_n; o_one; o_max] ++ rest [o_cmd; o_n; o_one; o_max])%list s' (alive s0 (0, [110]))
      (alive_expire s0 (0, [110])) false 0 [RInt 8].
Proof.
  apply (@bitcountCommand_counts true (fun _ => 3) s0 1 client0 [o_cmd; o_n; o_one; o_max] (rest [o_cmd; o_n; o_one; o_max])
    [110] [49] (sdec (2 ^ 63 - 1))).
  - reflexivity.
  - apply ok_argv. vm_compute. reflexivity.
  - arg.
  - intros _. split; arg.
  - intros bs [= <-]. vm_compute. reflexivity.
Defined.

(** BITPOS of "a" for a set bit. *)
Lemma bitposCommand_finds_witness :
  exists s', @bitposCommand false (fun _ => 3) 1 [o_cmd; o_a; o_one] s0 = Some ([o_cmd; o_a; o_one], s') /\
    outcome s0 1 (0, [97]) ([o_cmd; o_a; o_one] ++ rest [o_cmd; o_a; o_one])%list s' (alive s0 (0, [97]))
      (alive_expire s0 (0, [97])) false 0 [RInt 1].
Proof.
  apply (@bitposCommand_finds false (fun _ => 3) s0 1 client0 [o_cmd; o_a; o_one] (rest [o_cmd; o_a; o_one]) [97] [49] [] []).
  - reflexivity.
  - apply ok_argv. vm_compute. reflexivity.
  - arg.
  - arg.
  - intros [H|H]; vm_compute in H; discriminate H.
  - intros H. vm_compute in H. discriminate H.
Defined.
End Applied.
