(* ===== verification/BitopSpec.v ===== *)
(** * BITOP (specification of bitopCommand of BitCmd.v)

    The result of BITOP bit by bit, for the path that works on words of memory and for the one that works on
    bytes, and the outcome of the command on the key space. *)

From S2P Require Import Prelude Endian Util Sds Bitops State Object Server Db DbSpec Outcome SampleState KeySpec TString TStringSpec BitCmd BitCmdSpec.

(** ** Words and bytes *)

Lemma bitop_fun_byte op a b : in_u 8 a -> in_u 8 b -> in_u 8 (bitop_fun op a b).
Proof.
  intros Ha Hb. pose proof (in_u_testbit 8 a) as Ta. pose proof (in_u_testbit 8 b) as Tb.
  destruct op; cbn [bitop_fun]; [| | |done]; (apply testbit_in_u; [lia| |intros i Hi]).
  - apply Z.land_nonneg. destruct Ha. lia.
  - by rewrite Z.land_spec, Ta.
  - apply Z.lor_nonneg. destruct Ha, Hb. lia.
  - by rewrite Z.lor_spec, Ta, Tb.
  - apply Z.lxor_nonneg. destruct Ha, Hb. lia.
  - by rewrite Z.lxor_spec, Ta, Tb.
Qed.

(** The operations act on the bytes of a word one by one. *)
Lemma bitop_fun_split op a b x y :
  in_u 8 a -> in_u 8 b -> bitop_fun op (a + 256 * x) (b + 256 * y) = bitop_fun op a b + 256 * bitop_fun op x y.
Proof.
  intros Ha Hb. pose proof (bitop_fun_byte op a b Ha Hb) as Hab.
  destruct op; cbn [bitop_fun] in *; [| | |done]; apply Z.bits_inj'; intros i Hi;
    rewrite ?Z.land_spec, ?Z.lor_spec, ?Z.lxor_spec, !testbit_low_high by (done || lia);
    destruct (i <? 8); by rewrite ?Z.land_spec, ?Z.lor_spec, ?Z.lxor_spec.
Qed.

Lemma le_decode_zip op xs ys :
  bytes_ok xs -> bytes_ok ys -> length xs = length ys ->
  le_decode (zip_with (bitop_fun op) xs ys) = bitop_fun op (le_decode xs) (le_decode ys).
Proof.
  intros Hx. revert ys. induction Hx as [|x xs Hx Hxs IH]; intros [|y ys] Hy Hl; try done; [by destruct op|].
  apply Forall_cons in Hy as [Hy Hys]. cbn [zip_with le_decode]. rewrite IH by (done || by injection Hl).
  symmetry. by apply bitop_fun_split.
Qed.

Lemma bytes_zip op xs ys : bytes_ok xs -> bytes_ok ys -> bytes_ok (zip_with (bitop_fun op) xs ys).
Proof.
  intros Hx. revert ys. induction Hx as [|x xs Hx Hxs IH]; intros [|y ys] Hy; try done; [constructor..|].
  apply Forall_cons in Hy as [Hy Hys]. constructor; [by apply bitop_fun_byte|by apply IH].
Qed.

Lemma zip_reverse {A B C} (f : A -> B -> C) xs ys :
  length xs = length ys -> zip_with f (reverse xs) (reverse ys) = reverse (zip_with f xs ys).
Proof.
  revert ys. induction xs as [|x xs IH]; intros [|y ys] Hl; try done.
  cbn [zip_with]. rewrite !reverse_cons, zip_with_app by (rewrite !length_reverse; by injection Hl).
  rewrite IH by (by injection Hl). done.
Qed.

Definition not_byte (a : Z) : Z := wrapu 8 (Z.lnot a).

Lemma not_byte_eq a : in_u 8 a -> not_byte a = 255 - a.
Proof.
  intros [? ?]. unfold not_byte, wrapu, Z.lnot. change (2 ^ 8) with 256 in *.
  symmetry. apply (Z.mod_unique _ _ (-1)); lia.
Qed.

Lemma not_byte_ok a : in_u 8 (not_byte a).
Proof. unfold not_byte. apply wrapu_range. lia. Qed.

Lemma le_decode_not xs : bytes_ok xs -> le_decode (not_byte <$> xs) = 2 ^ (8 * zlen xs) - 1 - le_decode xs.
Proof.
  induction 1 as [|x xs Hx Hxs IH]; [done|]. cbn [fmap list_fmap le_decode]. rewrite IH, not_byte_eq by done.
  pose proof (zlen_nonneg xs). rewrite zlen_cons. replace (8 * (zlen xs + 1)) with (8 + 8 * zlen xs) by lia.
  rewrite Z.pow_add_r by lia. change (2 ^ 8) with 256. lia.
Qed.

(** ** Effects on the positions of a buffer *)

(** [res'] is [res] with [g i] applied to the byte at each position [i] from [lo] to [hi]. *)
Record applied (g : nat -> Z -> Z) (lo hi : nat) (res res' : sds) : Prop := {
  ap_len : length res' = length res;
  ap_bytes : bytes_ok res';
  ap_at : forall i, res' !! i = if decide (lo <= i < hi)%nat then g i <$> res !! i else res !! i
}.

Lemma applied_refl g lo res : bytes_ok res -> applied g lo lo res res.
Proof. intros Hr. split; [done..|]. intros i. by rewrite decide_False by lia. Qed.

(** Adjacent intervals. *)
Lemma applied_trans g lo mid hi a b c :
  (lo <= mid <= hi)%nat -> applied g lo mid a b -> applied g mid hi b c -> applied g lo hi a c.
Proof.
  intros Hm [Hl1 _ H1] [Hl2 Hb2 H2]. split; [congruence|done|]. intros i. rewrite H2.
  repeat destruct (decide _); try lia; rewrite H1; repeat destruct (decide _); try lia; done.
Qed.

(** One function after another on the same interval. *)
Lemma applied_comp g h lo hi a b c :
  applied g lo hi a b -> applied h lo hi b c -> applied (fun i x => h i (g i x)) lo hi a c.
Proof.
  intros [Hl1 _ H1] [Hl2 Hb2 H2]. split; [congruence|done|]. intros i. rewrite H2, H1.
  destruct (decide _); [|done]. by destruct (a !! i).
Qed.

Lemma applied_ext g h lo hi a b : (forall i x, (lo <= i < hi)%nat -> g i x = h i x) -> applied g lo hi a b -> applied h lo hi a b.
Proof.
  intros He [Hl Hb H1]. split; [done..|]. intros i. rewrite H1. destruct (decide _); [|done].
  destruct (a !! i); cbn; [|done]. by rewrite He.
Qed.

(** Writing over the bytes read at the same place. *)
Lemma overwrite g (res ys : sds) (off : nat) :
  bytes_ok res -> bytes_ok ys -> (off + length ys <= length res)%nat ->
  (forall i, ys !! i = if decide (i < length ys)%nat then g (off + i)%nat <$> res !! (off + i)%nat else None) ->
  exists res', wr res (Z.of_nat off) ys = Some res' /\ applied g off (off + length ys) res res'.
Proof.
  intros Hr Hy Hl Hat. unfold wr, zlen. rewrite (proj2 (Z.leb_le 0 _)), (proj2 (Z.leb_le _ _)) by lia. cbn [andb].
  eexists. split; [done|]. rewrite Nat2Z.id. replace (Z.to_nat (Z.of_nat off + Z.of_nat (length ys))) with (off + length ys)%nat by lia.
  split.
  - rewrite !length_app, length_take, length_drop. lia.
  - apply Forall_app. split; [by apply Forall_take|]. apply Forall_app. split; [done|by apply Forall_drop].
  - intros i. destruct (decide (i < off)%nat).
    { rewrite lookup_app_l, lookup_take_lt by (rewrite ?length_take; lia). by rewrite decide_False by lia. }
    rewrite lookup_app_r by (rewrite length_take; lia). rewrite length_take, Nat.min_l by lia.
    destruct (decide (i < off + length ys)%nat).
    + rewrite lookup_app_l by lia. rewrite Hat, !decide_True by lia. by replace (off + (i - off))%nat with i by lia.
    + rewrite lookup_app_r by lia. rewrite lookup_drop, decide_False by lia. f_equal. lia.
Qed.

(** The byte at a position, zero after the end. *)
Definition byte_at (s : sds) (i : nat) : Z := default 0 (s !! i).

Lemma byte_at_ok s i : bytes_ok s -> in_u 8 (byte_at s i).
Proof.
  intros Hs. unfold byte_at. destruct (s !! i) as [b|] eqn:E; [|done]. by eapply Forall_lookup_1 in E.
Qed.

Lemma rd_nat (s : sds) (off n : nat) :
  (off + n <= length s)%nat -> rd s (Z.of_nat off) (Z.of_nat n) = Some (take n (drop off s)).
Proof.
  intros Hl. unfold rd, zlen. rewrite !(proj2 (Z.leb_le _ _)) by lia. cbn [andb]. by rewrite !Nat2Z.id.
Qed.

(** The byte at [i] of the result, from the byte of the first source and the others. *)
Definition combine (op : bitop) (others : list sds) (i : nat) (a : Z) : Z :=
  foldl (fun a s => bitop_fun op a (byte_at s i)) (if bool_decide (op = BITOP_NOT) then not_byte a else a) others.

Lemma combine_not others i a : combine BITOP_NOT others i a = not_byte a.
Proof. unfold combine. cbn. generalize (not_byte a). by induction others. Qed.

Lemma combine_byte op others i a : Forall bytes_ok others -> in_u 8 a -> in_u 8 (combine op others i a).
Proof.
  intros Ho Ha. unfold combine. assert (in_u 8 (if bool_decide (op = BITOP_NOT) then not_byte a else a)) as Hb.
  { case_if; [apply not_byte_ok|done]. }
  revert Hb. generalize (if bool_decide (op = BITOP_NOT) then not_byte a else a).
  induction Ho as [|s l Hs _ IH]; intros b Hb; [done|]. apply IH, bitop_fun_byte; [done|by apply byte_at_ok].
Qed.

Lemma applied_id lo hi res : bytes_ok res -> applied (fun _ x => x) lo hi res res.
Proof. intros Hr. split; [done..|]. intros i. destruct (decide _); [|done]. by destruct (res !! i). Qed.

Lemma code_byte (s : sds) (j : nat) :
  (if zlen s <=? Z.of_nat j then Some 0 else zidx s (Z.of_nat j)) = Some (byte_at s j).
Proof.
  unfold byte_at. destruct (Z.leb_spec (zlen s) (Z.of_nat j)) as [Hl|Hl]; unfold zlen in Hl.
  - by rewrite lookup_ge_None_2 by lia.
  - unfold zidx. rewrite (proj2 (Z.leb_le _ _)), Nat2Z.id by lia. by destruct (lookup_lt_is_Some_2 s j) as [b ->]; [lia|].
Qed.

(** The loop over bytes. *)
Lemma bitop_bytes_spec n op s0 others res (j : nat) :
  bytes_ok s0 -> Forall bytes_ok others -> bytes_ok res -> (j + n <= length res)%nat ->
  exists res', bitop_bytes n op (s0 :: others) res (Z.of_nat j) = Some res' /\
    applied (fun i _ => combine op others i (byte_at s0 i)) j (j + n) res res'.
Proof.
  intros H0 Ho. revert res j. induction n as [|n IH]; intros res j Hr Hl.
  { exists res. split; [done|]. rewrite Nat.add_0_r. by apply applied_refl. }
  cbn [bitop_bytes head tail]. cbn [mbind option_bind]. rewrite code_byte. cbn [mbind option_bind].
  assert (forall l b, foldl (fun acc s => output ← acc; byte ← (if zlen s <=? Z.of_nat j then Some 0 else zidx s (Z.of_nat j));
      Some (bitop_fun op output byte)) (Some b) l = Some (foldl (fun a s => bitop_fun op a (byte_at s j)) b l)) as ->.
  { induction l as [|x l IHl]; intros b; [done|]. cbn [foldl]. cbn [mbind option_bind]. rewrite code_byte. apply IHl. }
  cbn [mbind option_bind]. fold (not_byte (byte_at s0 j)). fold (combine op others j (byte_at s0 j)).
  set (out := combine op others j (byte_at s0 j)).
  destruct (overwrite (fun i _ => combine op others i (byte_at s0 i)) res [out] j Hr) as (res1 & -> & A1).
  - constructor; [|done]. by apply combine_byte, byte_at_ok.
  - cbn. lia.
  - intros [|i]; cbn; [|done]. rewrite Nat.add_0_r. by destruct (lookup_lt_is_Some_2 res j) as [b ->]; [lia|].
  - cbn [mbind option_bind]. destruct (IH res1 (S j)) as (res' & E & A2); [apply A1|rewrite (ap_len _ _ _ _ _ A1); lia|].
    replace (Z.of_nat j + 1) with (Z.of_nat (S j)) by lia. rewrite E. exists res'. split; [done|].
    change (length [out]) with 1%nat in A1. replace (j + 1)%nat with (S j) in A1 by lia.
    replace (S j + n)%nat with (j + S n)%nat in A2 by lia. by eapply (applied_trans _ _ (S j)); [lia|..].
Qed.

Section host.
Context `{Host}.

Lemma host_bytes_of n v xs : length xs = n -> bytes_ok xs -> v = host_uint xs -> host_bytes n v = xs.
Proof. intros <- Hx ->. by apply host_bytes_uint. Qed.

Lemma host_uint_zip op xs ys :
  bytes_ok xs -> bytes_ok ys -> length xs = length ys ->
  host_uint (zip_with (bitop_fun op) xs ys) = bitop_fun op (host_uint xs) (host_uint ys).
Proof.
  intros Hx Hy Hl. unfold host_uint. destruct big_endian; [|by apply le_decode_zip].
  rewrite <- zip_reverse by done. apply le_decode_zip; [by apply Forall_reverse..|by rewrite !length_reverse].
Qed.

Lemma host_uint_not xs :
  bytes_ok xs -> host_uint (not_byte <$> xs) = wrapu (8 * zlen xs) (Z.lnot (host_uint xs)).
Proof.
  intros Hx. unfold host_uint.
  set (l := if big_endian then reverse xs else xs).
  assert (bytes_ok l /\ zlen l = zlen xs) as [Hl <-].
  { unfold l, zlen. destruct big_endian; [|done]. split; [by apply Forall_reverse|by rewrite length_reverse]. }
  replace (if big_endian then reverse (not_byte <$> xs) else not_byte <$> xs) with (not_byte <$> l)
    by (unfold l; destruct big_endian; [apply fmap_reverse|done]).
  rewrite le_decode_not by done. pose proof (le_decode_range l Hl). unfold wrapu, Z.lnot.
  apply (Z.mod_unique _ _ (-1)); lia.
Qed.

Lemma word_at (s : sds) (off : nat) :
  (off + 8 <= length s)%nat -> load64 s (Z.of_nat off) = Some (host_uint (take 8 (drop off s))).
Proof. intros Hl. unfold load64. change 8 with (Z.of_nat 8). by rewrite rd_nat. Qed.

Lemma word_bytes (s : sds) (off : nat) :
  bytes_ok s -> (off + 8 <= length s)%nat -> bytes_ok (take 8 (drop off s)) /\ length (take 8 (drop off s)) = 8%nat.
Proof. intros Hs Hl. split; [by apply Forall_take, Forall_drop|]. rewrite length_take, length_drop. lia. Qed.

Lemma bitop_word_spec op (res s : sds) (off : nat) :
  bytes_ok res -> bytes_ok s -> (off + 8 <= length res)%nat -> (off + 8 <= length s)%nat ->
  exists res', bitop_word op res s (Z.of_nat off) = Some res' /\
    applied (fun i x => bitop_fun op x (byte_at s i)) off (off + 8) res res'.
Proof.
  intros Hr Hs Hlr Hls. destruct (word_bytes res off Hr Hlr) as [Hx Hlx]. destruct (word_bytes s off Hs Hls) as [Hy Hly].
  unfold bitop_word. rewrite !word_at by done. cbn [mbind option_bind].
  set (zs := zip_with (bitop_fun op) (take 8 (drop off res)) (take 8 (drop off s))).
  assert (length zs = 8%nat) as Hlz by (unfold zs; rewrite length_zip_with; lia).
  rewrite (host_bytes_of 8 _ zs); [|done|by apply bytes_zip|unfold zs; by rewrite host_uint_zip by congruence].
  rewrite <- Hlz. apply overwrite; [done|by apply bytes_zip|lia|]. intros i. rewrite Hlz.
  unfold zs. rewrite lookup_zip_with. destruct (decide (i < 8)%nat).
  - rewrite !lookup_take_lt, !lookup_drop by lia. unfold byte_at.
    destruct (lookup_lt_is_Some_2 s (off + i)%nat) as [b ->]; [lia|]. by destruct (res !! (off + i)%nat).
  - by rewrite !lookup_take_ge by lia.
Qed.

Lemma not_word_spec (res : sds) (off : nat) :
  bytes_ok res -> (off + 8 <= length res)%nat ->
  exists res', not_word res (Z.of_nat off) = Some res' /\ applied (fun _ x => not_byte x) off (off + 8) res res'.
Proof.
  intros Hr Hlr. destruct (word_bytes res off Hr Hlr) as [Hx Hlx]. unfold not_word. rewrite word_at by done.
  cbn [mbind option_bind]. set (zs := not_byte <$> take 8 (drop off res)).
  assert (length zs = 8%nat) as Hlz by (unfold zs; by rewrite length_fmap).
  assert (bytes_ok zs) as Hz by (apply Forall_fmap, Forall_true; intros; apply not_byte_ok).
  rewrite (host_bytes_of 8 _ zs); [|done|done|unfold zs; rewrite host_uint_not by done; unfold zlen; by rewrite Hlx].
  rewrite <- Hlz. apply overwrite; [done|done|lia|]. intros i. rewrite Hlz. unfold zs.
  rewrite list_lookup_fmap. destruct (decide (i < 8)%nat).
  - by rewrite lookup_take_lt, lookup_drop by lia.
  - by rewrite lookup_take_ge by lia.
Qed.

(** Four words in a row. *)
Lemma four_words (w : sds -> Z -> option sds) g (res : sds) (j : nat) :
  (forall r (off : nat), bytes_ok r -> length r = length res -> (off + 8 <= j + 32)%nat ->
     exists r', w r (Z.of_nat off) = Some r' /\ applied g off (off + 8) r r') ->
  bytes_ok res ->
  exists res', (r ← w res (Z.of_nat j); r ← w r (Z.of_nat j + 8); r ← w r (Z.of_nat j + 16); w r (Z.of_nat j + 24)) = Some res' /\
    applied g j (j + 32) res res'.
Proof.
  intros Hw Hr. destruct (Hw res j) as (r1 & -> & A1); [done|done|lia|]. cbn [mbind option_bind].
  destruct (Hw r1 (j + 8)%nat) as (r2 & E2 & A2); [apply A1|apply A1|lia|].
  replace (Z.of_nat j + 8) with (Z.of_nat (j + 8)) by lia. rewrite E2. cbn [mbind option_bind].
  destruct (Hw r2 (j + 16)%nat) as (r3 & E3 & A3); [apply A2|rewrite (ap_len _ _ _ _ _ A2); apply A1|lia|].
  replace (Z.of_nat j + 16) with (Z.of_nat (j + 16)) by lia. rewrite E3. cbn [mbind option_bind].
  destruct (Hw r3 (j + 24)%nat) as (r4 & E4 & A4);
    [apply A3|rewrite (ap_len _ _ _ _ _ A3), (ap_len _ _ _ _ _ A2); apply A1|lia|].
  replace (Z.of_nat j + 24) with (Z.of_nat (j + 24)) by lia. rewrite E4. eexists. split; [done|].
  replace (j + 8 + 8)%nat with (j + 16)%nat in A2 by lia. replace (j + 16 + 8)%nat with (j + 24)%nat in A3 by lia.
  replace (j + 24 + 8)%nat with (j + 32)%nat in A4 by lia.
  eapply (applied_trans g j (j + 8)); [lia|done|]. eapply (applied_trans g _ (j + 16)); [lia|done|].
  by eapply (applied_trans g _ (j + 24)); [lia|..].
Qed.

(** The loop over words. *)
Lemma block_fold op others res (j : nat) :
  bytes_ok res -> Forall bytes_ok others -> (j + 32 <= length res)%nat -> Forall (fun s => (j + 32 <= length s)%nat) others ->
  exists res', foldl (fun acc s => r ← acc; bitop_block op r s (Z.of_nat j)) (Some res) others = Some res' /\
    applied (fun i a => foldl (fun a s => bitop_fun op a (byte_at s i)) a others) j (j + 32) res res'.
Proof.
  intros Hr Ho Hl Hls. revert res Hr Hl. induction Ho as [|s l Hs _ IH]; intros res Hr Hl.
  { exists res. split; [done|]. by apply applied_id. }
  apply Forall_cons in Hls as [Hsl Hls]. cbn [foldl]. cbn [mbind option_bind].
  destruct (four_words (fun r off => bitop_word op r s off) (fun i x => bitop_fun op x (byte_at s i)) res j)
    as (r1 & E1 & A1); [|done|].
  { intros r off Hb Hlen Hoff. apply bitop_word_spec; [done..|lia|lia]. }
  assert (bitop_block op res s (Z.of_nat j) = Some r1) as -> by exact E1. destruct (IH Hls r1) as (r2 & -> & A2); [apply A1|by rewrite (ap_len _ _ _ _ _ A1)|].
  exists r2. split; [done|]. exact (applied_comp _ _ _ _ _ _ _ A1 A2).
Qed.

Lemma bitop_words_spec fuel op others res (j m : nat) :
  bytes_ok res -> Forall bytes_ok others -> (j + m <= length res)%nat -> Forall (fun s => (j + m <= length s)%nat) others ->
  (m < fuel)%nat ->
  exists res' j', bitop_words fuel op others res (Z.of_nat j) (Z.of_nat m) = Some (res', Z.of_nat j') /\
    (j <= j' <= j + m)%nat /\ applied (combine op others) j j' res res'.
Proof.
  intros Hr Ho. revert res j m Hr. induction fuel as [|fuel IH]; intros res j m Hr Hl Hls Hf; [lia|].
  cbn [bitop_words]. destruct (Z.ltb_spec (Z.of_nat m) 32) as [Hm|Hm].
  { exists res, j. split_and!; [done|lia|lia|by apply applied_refl]. }
  assert (exists r1, (if bool_decide (op = BITOP_NOT) then not_block res (Z.of_nat j)
      else foldl (fun acc s => r ← acc; bitop_block op r s (Z.of_nat j)) (Some res) others) = Some r1 /\
      applied (combine op others) j (j + 32) res r1) as (r1 & -> & A1).
  { case_bool_decide as Hop.
    - subst op. destruct (four_words not_word (fun _ x => not_byte x) res j) as (r1 & E1 & A1); [|done|].
      { intros r off Hb Hlen Hoff. apply not_word_spec; [done|lia]. }
      exists r1. split; [done|]. eapply applied_ext; [|done]. intros i x _. by rewrite combine_not.
    - destruct (block_fold op others res j Hr Ho) as (r1 & E1 & A1); [lia|by eapply Forall_impl; [done|]; cbn; lia|].
      exists r1. split; [done|]. eapply applied_ext; [|done]. intros i x _. unfold combine. by rewrite bool_decide_false. }
  cbn [mbind option_bind].
  destruct (IH r1 (j + 32)%nat (m - 32)%nat) as (res' & j' & E & Hj & A2);
    [apply A1|rewrite (ap_len _ _ _ _ _ A1); lia|by eapply Forall_impl; [done|]; cbn; lia|lia|].
  replace (Z.of_nat j + 32) with (Z.of_nat (j + 32)) by lia. replace (Z.of_nat m - 32) with (Z.of_nat (m - 32)) by lia.
  exists res', j'. rewrite E. split_and!; [done|lia|lia|]. by eapply (applied_trans _ _ (j + 32)); [lia|..].
Qed.

(** Both paths give the same bytes. *)
Lemma bitop_compute_spec op s0 others (m n : nat) :
  bytes_ok s0 -> Forall bytes_ok others -> (m <= n)%nat -> Forall (fun s => (m <= length s)%nat) (s0 :: others) ->
  bitop_compute op (s0 :: others) (Z.of_nat m) (Z.of_nat n) =
    Some ((fun i => combine op others i (byte_at s0 i)) <$> seq 0 n).
Proof.
  intros H0 Ho Hmn Hls. apply Forall_cons in Hls as [Hl0 Hls]. unfold bitop_compute.
  assert (bytes_ok (replicate n 0)) as Hz by (by apply Forall_replicate).
  assert (exists res j, (if (Z.of_nat m >=? 32) && (zlen (s0 :: others) <=? 16) then
      src0 ← head (s0 :: others); bs ← rd src0 0 (Z.of_nat m); res ← wr (replicate (Z.to_nat (Z.of_nat n)) 0) 0 bs;
      bitop_words (S (Z.to_nat (Z.of_nat m))) op (tail (s0 :: others)) res 0 (Z.of_nat m)
    else Some (replicate (Z.to_nat (Z.of_nat n)) 0, 0)) = Some (res, Z.of_nat j) /\ (j <= n)%nat /\ length res = n /\ bytes_ok res /\
    forall i, (i < j)%nat -> res !! i = Some (combine op others i (byte_at s0 i))) as (res & j & E & Hj & Hlen & Hr & Hat).
  { rewrite !Nat2Z.id. destruct ((Z.of_nat m >=? 32) && _).
    - cbn [head tail]. cbn [mbind option_bind]. pose proof (rd_nat s0 0 m ltac:(lia)) as Erd.
      change (Z.of_nat 0) with 0 in Erd. rewrite Erd. cbn [mbind option_bind].
      destruct (overwrite (fun i _ => byte_at s0 i) (replicate n 0) (take m s0) 0) as (r1 & E1 & A1).
      + done.
      + by apply Forall_take.
      + rewrite length_take, length_replicate. lia.
      + intros i. rewrite length_take, Nat.min_l by lia. destruct (decide (i < m)%nat).
        * rewrite lookup_take_lt by lia. cbn [Nat.add]. rewrite lookup_replicate_2 by lia. unfold byte_at. cbn.
          by destruct (lookup_lt_is_Some_2 s0 i) as [b ->]; [lia|].
        * by rewrite lookup_take_ge by lia.
      + rewrite drop_0. change (Z.of_nat 0) with 0 in E1. rewrite E1. cbn [mbind option_bind].
        rewrite length_take, Nat.min_l in A1 by lia. pose proof (ap_len _ _ _ _ _ A1) as Hl1. rewrite length_replicate in Hl1.
        destruct (bitop_words_spec (S m) op others r1 0 m) as (r2 & j & E2 & Hj & A2); [apply A1|done|lia|done|lia|].
        change (Z.of_nat 0) with 0 in E2. exists r2, j. split_and!; [done|lia|by rewrite (ap_len _ _ _ _ _ A2)|apply A2|].
        intros i Hi. rewrite (ap_at _ _ _ _ _ A2), decide_True by lia. rewrite (ap_at _ _ _ _ _ A1), decide_True by lia.
        by rewrite lookup_replicate_2 by lia.
    - exists (replicate n 0), 0%nat. split_and!; [done|lia|apply length_replicate|done|lia]. }
  rewrite E. cbn [mbind option_bind]. rewrite <- Nat2Z.inj_sub, Nat2Z.id by lia.
  destruct (bitop_bytes_spec (n - j) op s0 others res j) as (res' & -> & A); [done..|lia|].
  f_equal. apply list_eq. intros i. rewrite (ap_at _ _ _ _ _ A), list_lookup_fmap. destruct (decide (i < n)%nat).
  - rewrite lookup_seq_lt by lia. cbn. destruct (decide _); [|by apply Hat; lia].
    by destruct (lookup_lt_is_Some_2 res i) as [b ->]; [lia|].
  - rewrite lookup_seq_ge, decide_False by lia. rewrite lookup_ge_None_2 by lia. done.
Qed.
End host.

(** ** Bits *)

Lemma bits_of_lookup p (i : nat) : bits_of p !! i = (fun b => Z.testbit b (7 - Z.of_nat (i mod 8))) <$> p !! (i / 8)%nat.
Proof.
  revert i. induction p as [|b p IH]; intros i; [by rewrite bits_of_nil, !lookup_nil|]. rewrite bits_of_cons.
  pose proof (Nat.div_mod i 8 ltac:(lia)) as Hi. pose proof (Nat.mod_upper_bound i 8 ltac:(lia)).
  destruct (decide (i < 8)%nat).
  - rewrite lookup_app_l by (rewrite length_bits_of_byte; lia). rewrite Nat.div_small, Nat.mod_small by done.
    pose proof (byte_lookup b (Z.of_nat i) ltac:(lia)) as Hb. by rewrite Nat2Z.id in Hb.
  - rewrite lookup_app_r, length_bits_of_byte by (rewrite length_bits_of_byte; lia). rewrite IH.
    assert (exists j, i = j + 1 * 8)%nat as [j ->] by (exists (i - 8)%nat; lia).
    rewrite Nat.Div0.mod_add, Nat.div_add by lia. replace (j + 1 * 8 - 8)%nat with j by lia.
    by replace (j / 8 + 1)%nat with (S (j / 8)) by lia.
Qed.

(** The bit at a position, zero after the end. *)
Definition bit_at (s : sds) (i : nat) : bool := default false (bits_of s !! i).

Definition bool_fun (op : bitop) (a b : bool) : bool :=
  match op with
  | BITOP_AND => a && b
  | BITOP_OR => a || b
  | BITOP_XOR => xorb a b
  | BITOP_NOT => a
  end.

(** The bit at [i] of the result: the operation on the bits at [i] of the sources. *)
Definition bit_result (op : bitop) (srcs : list sds) (i : nat) : bool :=
  match srcs with
  | [] => false
  | s0 :: others =>
      foldl (fun b s => bool_fun op b (bit_at s i)) (if bool_decide (op = BITOP_NOT) then negb (bit_at s0 i) else bit_at s0 i) others
  end.

Lemma bit_at_byte s i : bit_at s i = Z.testbit (byte_at s (i / 8)) (7 - Z.of_nat (i mod 8)).
Proof. unfold bit_at, byte_at. rewrite bits_of_lookup. destruct (s !! (i / 8)%nat); [done|]. cbn. by rewrite Z.testbit_0_l. Qed.

Lemma combine_bit op s0 others i :
  bytes_ok s0 ->
  Z.testbit (combine op others (i / 8) (byte_at s0 (i / 8))) (7 - Z.of_nat (i mod 8)) = bit_result op (s0 :: others) i.
Proof.
  intros H0. set (k := 7 - Z.of_nat (i mod 8)).
  assert (0 <= k < 8) as Hk by (unfold k; pose proof (Nat.mod_upper_bound i 8 ltac:(lia)); lia).
  unfold combine, bit_result. rewrite bit_at_byte. fold k.
  assert (Z.testbit (if bool_decide (op = BITOP_NOT) then not_byte (byte_at s0 (i / 8)) else byte_at s0 (i / 8)) k =
    if bool_decide (op = BITOP_NOT) then negb (Z.testbit (byte_at s0 (i / 8)) k) else Z.testbit (byte_at s0 (i / 8)) k) as <-.
  { destruct (bool_decide _); [|done]. unfold not_byte, wrapu. by rewrite Z.mod_pow2_bits_low, Z.lnot_spec by lia. }
  generalize (if bool_decide (op = BITOP_NOT) then not_byte (byte_at s0 (i / 8)) else byte_at s0 (i / 8)).
  induction others as [|s l IH]; intros b; [done|]. cbn [foldl]. rewrite IH. f_equal. rewrite bit_at_byte. fold k.
  destruct op; cbn; by rewrite ?Z.land_spec, ?Z.lor_spec, ?Z.lxor_spec.
Qed.

(** The length of the result. *)
Definition longest (srcs : list sds) : nat := foldr (fun s n => Nat.max (length s) n) 0%nat srcs.

(** The computed string has the length of the longest source, and its bits are the results. *)
Lemma bitop_compute_bits `{Host} op srcs (m : nat) :
  srcs <> [] -> Forall bytes_ok srcs -> Forall (fun s => (m <= length s)%nat) srcs ->
  exists res, bitop_compute op srcs (Z.of_nat m) (Z.of_nat (longest srcs)) = Some res /\ bytes_ok res /\
    length res = longest srcs /\
    forall i, (i < 8 * longest srcs)%nat -> bits_of res !! i = Some (bit_result op srcs i).
Proof.
  destruct srcs as [|s0 others]; [done|]. intros _ Hok Hls. apply Forall_cons in Hok as [H0 Ho].
  eexists. split; [apply bitop_compute_spec; [done..| |done]|].
  { apply Forall_cons in Hls as [Hl0 _]. cbn. lia. }
  split_and!.
  - apply Forall_fmap, Forall_true. intros i. by apply combine_byte, byte_at_ok.
  - by rewrite length_fmap, length_seq.
  - intros i Hi. rewrite bits_of_lookup, list_lookup_fmap, lookup_seq_lt.
    + cbn. f_equal. by apply combine_bit.
    + apply Nat.Div0.div_lt_upper_bound. lia.
Qed.

(** ** Reading several keys *)

(** [f] at the keys that were looked up, [g] at the others. *)
Definition checked {A} (ks : list (Z * sds)) (f g : Z * sds -> A) (k : Z * sds) : A := if decide (k ∈ ks) then f k else g k.

(** The keys [ks] were looked up since the state [s], and the references in [held] taken. *)
Record reads (s : server) (ks : list (Z * sds)) (E held : list oid) (s1 : server) : Prop := {
  re_ok : store_ok (st s1) (held ++ E)%list;
  re_quiet : quiet s s1;
  re_view : forall k, view (st s1) k = checked ks (alive s) (view (st s)) k;
  re_expires : forall k, expires (st s1) !! k = checked ks (alive_expire s) (fun k => expires (st s) !! k) k;
  re_kept : kept E (st s) (st s1)
}.

Lemma reads_refl s E : store_ok (st s) E -> reads s [] E [] s.
Proof.
  intros Hok. split; [done|done|by intros k; unfold checked; rewrite decide_False by set_solver..|].
  eapply kept_mono; [by eapply kept_refl|]. intros o Ho. by apply refs_ext.
Qed.

(** A second lookup of a key finds what the first one found. *)
Lemma reads_same s ks E held s1 k :
  reads s ks E held s1 -> steady s [k] ->
  visible s1 k = visible s k /\ alive s1 k = alive s k /\ alive_expire s1 k = alive_expire s k.
Proof.
  intros [_ (Hc & _ & _ & _ & Hcu) Hv Hx _] Hst. specialize (Hv k). specialize (Hx k). unfold checked in *.
  assert (expires (st s1) !! k = expires (st s) !! k -> expired s1 k = expired s k) as Hsame.
  { intros He. rewrite (expired_dep s s1 k Hc He). apply Hst. set_solver. }
  unfold visible, alive, alive_expire, hidden, removes in *. rewrite Hc, Hcu, Hv, Hx.
  destruct (decide (k ∈ ks)) as [Hk|Hk]; [|by rewrite Hsame].
  destruct (expired s k) eqn:Hexp; cbn [andb] in *.
  - destruct (masterhost (conf s)) eqn:Hm; cbn [negb orb andb] in *; [by rewrite Hsame|].
    destruct (expired s1 k); cbn; [done|]. by destruct (match current s with _ => _ end).
  - rewrite Hsame by done. done.
Qed.

Lemma reads_step s ks E held s1 k s2 :
  reads s ks E held s1 -> steady s [k] -> expire_step k (held ++ E)%list s1 s2 -> reads s (ks ++ [k]) E held s2.
Proof.
  intros Hr Hst Hes. destruct (reads_same _ _ _ _ _ k Hr Hst) as (_ & Ha & Hae). destruct Hr as [Hok Hq Hv Hx Hk]. split.
  - apply Hes.
  - eapply quiet_trans; [done|apply Hes].
  - intros k'. rewrite (es_view _ _ _ _ k' Hes), Hv, Ha. unfold checked. destruct (decide (k' = k)) as [->|Hne].
    + by rewrite decide_True by set_solver.
    + destruct (decide (k' ∈ ks)); [by rewrite decide_True by set_solver|by rewrite decide_False by set_solver].
  - intros k'. rewrite (es_expire_at _ _ _ _ k' Hes), Hx, Hae. unfold checked. destruct (decide (k' = k)) as [->|Hne].
    + by rewrite decide_True by set_solver.
    + destruct (decide (k' ∈ ks)); [by rewrite decide_True by set_solver|by rewrite decide_False by set_solver].
  - eapply kept_trans; [done|]. eapply kept_mono; [apply Hes|]. intros o Ho. apply refs_ext. set_solver.
Qed.

(** Steps on the heap that change the references that are held. *)
Lemma reads_heap s ks E held held' s1 t :
  reads s ks E held s1 -> store_ok t (held' ++ E)%list -> heap_step (refs (st s1) E) (st s1) t -> reads s ks E held' (with_st t s1).
Proof.
  intros [Hok Hq Hv Hx Hk] Hok' Hst. split; [done|done| | |].
  - intros k. by rewrite <- Hv, <- (heap_step_view _ _ _ k Hst).
  - intros k. rewrite <- Hx. destruct Hst as (_ & Hx' & _). cbn. by rewrite Hx'.
  - eapply kept_trans; [done|]. destruct Hst as (_ & _ & Hk'). eapply kept_mono; [done|]. intros o Ho. by apply refs_ext.
Qed.

(** ** The sources of BITOP *)

Definition src_refs (l : list bitop_src) : list oid := omap src_obj l.

Lemma release_spec s ks E l s1 :
  reads s ks E (src_refs l) s1 -> exists t, release_srcs l s1 = Some (tt, with_st t s1) /\ reads s ks E [] (with_st t s1).
Proof.
  intros Hr. destruct (decr_all (src_refs l) (st s1) E (re_ok _ _ _ _ _ Hr)) as (t & Hrun & Hok & Hst).
  exists t. split; [|by eapply reads_heap]. apply in_store_run. rewrite <- Hrun. generalize (st s1). clear.
  induction l as [|[[o|] bs] l IH]; intros t; [done| |apply IH].
  cbn. unfold mbind, ST_bind. destruct (decrRefCount o t) as [[[] t']|]; [apply IH|done].
Qed.

(** Whether a value is of another type, and the keys that are looked up: up to the first such one. *)
Definition not_string (v : option value) : bool := match v with Some (VObj _ _) => true | _ => false end.

Fixpoint read_until (v : sds -> option value) (names : list sds) : list sds :=
  match names with
  | [] => []
  | n :: names => n :: (if not_string (v n) then [] else read_until v names)
  end.

Lemma longest_snoc l x : longest (l ++ [x]) = Nat.max (longest l) (length x).
Proof. induction l as [|y l IH]; cbn; [lia|]. unfold longest in *. rewrite IH. lia. Qed.

(** One source: its string, and the references that are held afterwards. *)
Lemma decode_source s ks E acc s1 o bs :
  reads s ks E (src_refs acc) s1 -> o ∈ refs (st s1) (src_refs acc ++ E)%list -> val_at (st s1) o = Some (VStr bs) ->
  exists d t, in_store (getDecodedObject o) s1 = Some (d, with_st t s1) /\ name_at t d = Some bs /\ bytes_ok bs /\
    reads s ks E (src_refs (acc ++ [BitopSrc (Some d) bs])) (with_st t s1).
Proof.
  intros Hr Hin Hv. destruct (getDecodedObject_spec (st s1) _ o bs (re_ok _ _ _ _ _ Hr) Hin Hv)
    as (d & t & Hrun & Hok & _ & Hst & r & Hrd & Hs & Henc).
  exists d, t. split_and!.
  - by apply in_store_run.
  - unfold name_at. rewrite Hrd. cbn. by destruct Hs.
  - by destruct Hs.
  - eapply reads_heap; [done| |].
    + unfold src_refs in *. rewrite omap_app. cbn. eapply store_ok_perm; [|exact Hok].
      rewrite <- app_assoc. cbn. apply Permutation_middle.
    + destruct Hst as (Hd & Hx & Hk). split_and!; [done..|]. eapply kept_mono; [done|]. unfold refs. set_solver.
Qed.

(** The shortest length after one more source. *)
Lemma next_minlen acc (m : nat) x :
  Forall (fun y => (m <= length (src_bytes y))%nat) acc ->
  let m1 := if (zlen acc =? 0) || (zlen (src_bytes x) <? Z.of_nat m) then length (src_bytes x) else m in
  Forall (fun y => (m1 <= length (src_bytes y))%nat) (acc ++ [x]).
Proof.
  intros Hm m1. unfold m1, zlen. destruct acc as [|y acc]; [by repeat constructor|].
  rewrite (proj2 (Z.eqb_neq _ 0)) by (cbn; lia). cbn [orb].
  apply Forall_app. split; [eapply Forall_impl; [exact Hm|]; cbn; intros z Hz|constructor; [|done]];
    destruct (Z.ltb_spec (Z.of_nat (length (src_bytes x))) (Z.of_nat m)); lia.
Qed.

Lemma bitop_load_spec c db E s : forall keys names s1 acc (m : nat) ks,
  reads s ks E (src_refs acc) s1 -> named (st s) keys names -> keys ⊆ E -> steady s (pair db <$> names) ->
  Forall (fun x => (m <= length (src_bytes x))%nat) acc -> Forall (fun x => bytes_ok (src_bytes x)) acc ->
  let v n := visible s (db, n) in
  let ks' := (ks ++ (pair db <$> read_until v names))%list in
  let run := bitop_load c db keys acc (Z.of_nat m) (Z.of_nat (longest (src_bytes <$> acc))) s1 in
  if existsb (fun n => not_string (v n)) names then
    exists s2, run = Some (None, upd_clients (alter (says [R_wrongtypeerr]) c) s2) /\ reads s ks' E [] s2
  else
    exists s2 srcs m', run = Some (Some (srcs, Z.of_nat m', Z.of_nat (longest (src_bytes <$> srcs))), s2) /\
      reads s ks' E (src_refs srcs) s2 /\
      src_bytes <$> srcs = ((src_bytes <$> acc) ++ ((fun n => old_bytes (v n)) <$> names))%list /\
      Forall (fun x => (m' <= length (src_bytes x))%nat) srcs /\ Forall (fun x => bytes_ok (src_bytes x)) srcs.
Proof.
  induction keys as [|ko keys IH]; intros names s1 acc m ks Hr Hn Hsub Hst Hm Hb v.
  { apply Forall2_nil_inv_l in Hn as ->. cbn. exists s1, acc, m. rewrite !app_nil_r. done. }
  apply Forall2_cons_inv_l in Hn as (key & names' & Hkey & Hn & ->). cbn [fmap list_fmap existsb read_until bitop_load] in *.
  assert (name_at (st s1) ko = Some key) as Hkey1.
  { rewrite <- Hkey. eapply kept_name; [apply Hr|set_solver]. }
  rewrite (key_step s1 ko key _ Hkey1).
  assert (steady s [(db, key)]) as Hst1 by (intros k n Hk; apply Hst; set_solver).
  assert (steady s (pair db <$> names')) as Hst2 by (intros k n Hk; apply Hst; set_solver).
  destruct (reads_same _ _ _ _ _ _ Hr Hst1) as (Hvis & _ & _).
  destruct (lookupKeyRead_spec s1 _ db key (re_ok _ _ _ _ _ Hr)) as (s2 & old & Hrun & Hes & Hf).
  pose proof (reads_step _ _ _ _ _ _ _ Hr Hst1 Hes) as Hr2. rewrite Hvis in Hf. fold (v key) in Hf.
  unfold lookupKeyRead. erewrite bind_run by exact Hrun.
  replace (ks ++ (db, key) :: (pair db <$> (if not_string (v key) then [] else read_until v names')))%list
    with ((ks ++ [(db, key)]) ++ (pair db <$> (if not_string (v key) then [] else read_until v names')))%list
    by (by rewrite <- app_assoc).
  destruct (v key) as [w|] eqn:Hw; [inversion Hf as [|o w' Hval Hin]|inversion Hf]; subst; cbn [not_string orb].
  - destruct w as [bs|ty d]; cbn [not_string orb].
    2:{ rewrite (bind_run _ _ _ _ _ (checkType_wrong _ _ c o ty d (re_ok _ _ _ _ _ Hr2) Hin Hval)).
        destruct (release_spec _ _ _ _ _ Hr2) as (t & Hrel & Hr3). exists (with_st t s2). cbn. rewrite app_nil_r.
        split; [|done]. erewrite bind_run; [done|].
        apply (f_equal (fun x => match x with Some (a, s') => Some (a, upd_clients (alter (says [R_wrongtypeerr]) c) s') | None => None end)) in Hrel.
        rewrite <- Hrel. unfold release_srcs, in_store, zoom. cbn. by destruct (for_each _ _ _) as [[[] t']|]. }
    rewrite (bind_run _ _ _ _ _ (checkType_string _ _ c o bs (re_ok _ _ _ _ _ Hr2) Hin Hval)). cbv beta iota.
    destruct (decode_source _ _ _ _ _ o bs Hr2 Hin Hval) as (d & t & Hdec & Hd & Hbs & Hr3).
    erewrite bind_run by exact Hdec. rewrite (key_step (with_st t s2) d bs _ Hd). cbv zeta.
    set (m1 := if (zlen acc =? 0) || (zlen bs <? Z.of_nat m) then length bs else m).
    replace (if (zlen acc =? 0) || (zlen bs <? Z.of_nat m) then zlen bs else Z.of_nat m) with (Z.of_nat m1)
      by (unfold m1; by destruct (_ || _)).
    replace (if zlen bs >? Z.of_nat (longest (src_bytes <$> acc)) then zlen bs else Z.of_nat (longest (src_bytes <$> acc)))
      with (Z.of_nat (longest (src_bytes <$> (acc ++ [BitopSrc (Some d) bs])))).
    2:{ rewrite fmap_app. cbn. rewrite longest_snoc, Z.gtb_ltb. unfold zlen. destruct (Z.ltb_spec (Z.of_nat (longest (src_bytes <$> acc))) (Z.of_nat (length bs))); lia. }
    assert (Forall (fun x => bytes_ok (src_bytes x)) (acc ++ [BitopSrc (Some d) bs])) as Hb1
      by (apply Forall_app; split; [done|by constructor]).
    pose proof (IH names' (with_st t s2) _ m1 _ Hr3 Hn ltac:(set_solver) Hst2 (next_minlen acc m (BitopSrc (Some d) bs) Hm) Hb1) as IH1.
    cbv zeta in IH1. fold v in IH1. destruct (existsb _ names'); [exact IH1|].
    destruct IH1 as (s3 & srcs & m' & H1 & H2 & H3 & H4). exists s3, srcs, m'. split_and!; try done; try apply H4.
    by rewrite H3, fmap_app, <- app_assoc.
  - assert (reads s (ks ++ [(db, key)]) E (src_refs (acc ++ [BitopSrc None []])) s2) as Hr3.
    { unfold src_refs in *. by rewrite omap_app, app_nil_r. }
    assert (Forall (fun x => bytes_ok (src_bytes x)) (acc ++ [BitopSrc None []])) as Hb1
      by (apply Forall_app; split; [done|by repeat constructor]).
    assert (Forall (fun x => (0 <= length (src_bytes x))%nat) (acc ++ [BitopSrc None []])) as Hm1
      by (apply Forall_true; intros; lia).
    pose proof (IH names' s2 _ 0%nat _ Hr3 Hn ltac:(set_solver) Hst2 Hm1 Hb1) as IH1.
    cbv zeta in IH1. fold v in IH1. rewrite fmap_app in IH1. cbn [src_bytes fmap list_fmap] in IH1.
    rewrite longest_snoc in IH1. cbn [length] in IH1. rewrite Nat.max_0_r in IH1. destruct (existsb _ names'); [exact IH1|].
    destruct IH1 as (s3 & srcs & m' & H1 & H2 & H3 & H4). exists s3, srcs, m'. split_and!; try done; try apply H4.
    by rewrite H3, <- app_assoc.
Qed.

(** ** The target of BITOP *)

(** The outcome but for the reply and the count of changes. *)
Definition stored (s : server) (E : list oid) (s1 : server) (v : Z * sds -> option value) (x : Z * sds -> option Z)
    (touched : list (Z * sds)) : Prop :=
  forall c s', s' = upd_clients (alter (says []) c) s1 -> outcomes s c E s' v x touched 0 [].

Lemma stored_outcomes s E s1 v x touched c d rs s' :
  stored s E s1 v x touched -> st s' = st s1 -> conf s' = conf s1 -> watched_keys s' = watched_keys s1 ->
  clients s' = alter (says rs) c (clients s1) -> dirty s' = dirty s1 + d -> outcomes s c E s' v x touched d rs.
Proof.
  intros Hs Est Ec Ew Ecl Ed. destruct (Hs c _ eq_refl) as [Hok Hc Hw Hv Hx Hcl Hd]. cbn in *. rewrite !says_nil in Hcl.
  split; rewrite ?Est; try done; try congruence. rewrite Ed, Hd. lia.
Qed.

Section target.
Context (s : server) (ks : list (Z * sds)) (E : list oid) (s1 : server) (Hr : reads s ks E [] s1) (db : Z) (target : sds).
Let v := checked ks (alive s) (view (st s)).
Let x := checked ks (alive_expire s) (fun k => expires (st s) !! k).

Lemma bitop_set_spec res :
  bytes_ok res ->
  exists s2, (o ← in_store (createObject OBJ_STRING (PSds res));
      _ ← setKey db target o; _ ← notifyKeyspaceEvent NOTIFY_STRING "set" target db; in_store (decrRefCount o)) s1 = Some (tt, s2) /\
    stored s E s2 (at_key (db, target) (Some (VStr res)) v) (at_key (db, target) None x) [(db, target)].
Proof.
  intros Hres. pose proof (re_ok _ _ _ _ _ Hr) as Hok. cbn [app] in Hok.
  destruct (alloc_string (st s1) E res (Robj OBJ_STRING OBJ_ENCODING_RAW (PSds res) 1) Hok)
    as (o & t & Hnew & Hok1 & _ & Hv1 & _ & Hst1); [by constructor|done|].
  erewrite bind_run by (apply in_store_run; exact Hnew).
  destruct (setKey_spec (with_st t s1) E db target o Hok1)
    as (s2 & Hset & Hok2 & Hc2 & Hw2 & Hd2 & _ & _ & _ & Hcl2 & Hv2 & Hx2 & _).
  erewrite bind_run by exact Hset. unfold notifyKeyspaceEvent. run.
  destruct (decrRefCount_spec (st s2) E o Hok2) as (t3 & Hdecr & Hok3 & Hst3).
  eexists. split; [apply in_store_run; exact Hdecr|]. intros c s' ->.
  destruct (re_quiet _ _ _ _ _ Hr) as (Hc & Hw & Hcl & Hd & _).
  cbn in Hc2, Hw2, Hd2. split; cbn; try congruence; try done.
  - intros k. rewrite (heap_step_view _ _ _ k Hst3), Hv2. unfold at_key. destruct (decide (k = (db, target))); [done|].
    cbn. rewrite (heap_step_view _ _ _ k Hst1). apply Hr.
  - intros k. destruct Hst3 as (_ & -> & _). rewrite Hx2. unfold at_key. destruct (decide (k = (db, target))) as [->|Hne].
    + apply lookup_delete_eq.
    + rewrite lookup_delete_ne by done. cbn. destruct Hst1 as (_ & -> & _). apply Hr.
  - rewrite !says_nil, Hcl2. cbn. unfold watchers. cbn. by rewrite Hw, Hcl.
  - rewrite Hd2, Hd. lia.
Qed.

Lemma bitop_del_spec :
  exists s2, (deleted ← dbDelete db target;
      if deleted : bool then
        _ ← signalModifiedKey db target; notifyKeyspaceEvent NOTIFY_GENERIC "del" target db
      else mret tt) s1 = Some (tt, s2) /\
    stored s E s2 (at_key (db, target) None v) (at_key (db, target) None x) (if v (db, target) is Some _ then [(db, target)] else []).
Proof.
  pose proof (re_ok _ _ _ _ _ Hr) as Hok. cbn [app] in Hok.
  destruct (dbDelete_step s1 E db target Hok) as (t & Hrun & [Hok2 (Hc2 & Hw2 & Hcl2 & Hd2 & _) Hv2 Hx2 _] & _).
  erewrite bind_run by exact Hrun. destruct (re_quiet _ _ _ _ _ Hr) as (Hc & Hw & Hcl & Hd & _).
  assert (v (db, target) = view (st s1) (db, target)) as -> by (symmetry; apply Hr). unfold view.
  assert (forall k, at_key (db, target) None (view (st s1)) k = at_key (db, target) None v k) as Hvk.
  { intros k. unfold at_key. destruct (decide _); [done|]. apply Hr. }
  assert (forall k, at_key (db, target) None (fun k => expires (st s1) !! k) k = at_key (db, target) None x k) as Hxk.
  { intros k. unfold at_key. destruct (decide _); [done|]. apply Hr. }
  destruct (dict (st s1) !! (db, target)) as [o|] eqn:Hk.
  - rewrite bool_decide_true by (by eexists). rewrite (bind_run _ _ _ _ _ (signalModifiedKey_spec _ _ _)).
    eexists. split; [done|]. cbn [mbind option_bind].
    destruct (live_value s1 E o Hok) as [w ->]; [by eapply refs_dict|]. intros c s' ->. split; cbn; try congruence; try done.
    + intros k. by rewrite <- Hvk, <- Hv2.
    + intros k. by rewrite <- Hxk, <- Hx2.
    + rewrite !says_nil. unfold watchers. cbn. by rewrite Hw, Hcl.
    + lia.
  - rewrite bool_decide_false by (by intros [? ?]). eexists. split; [done|]. intros c s' ->. split; cbn; try congruence; try done.
    + intros k. by rewrite <- Hvk, <- Hv2.
    + intros k. by rewrite <- Hxk, <- Hx2.
    + lia.
Qed.
End target.

(** ** The command *)

(** The outcome of BITOP once its operation is known. The keys [read] are those it looks up: a master removes
    the ones that have expired. *)
Definition bitop_outcome (s : server) (c : Z) (E : list oid) (db : Z) (op : bitop) (target : sds) (names : list sds)
    (s' : server) : Prop :=
  let v n := visible s (db, n) in
  let read := pair db <$> read_until v names in
  let view1 := checked read (alive s) (view (st s)) in
  let expires1 := checked read (alive_expire s) (fun k => expires (st s) !! k) in
  let srcs := (fun n => old_bytes (v n)) <$> names in
  let k := (db, target) in
  if existsb (fun n => not_string (v n)) names then outcomes s c E s' view1 expires1 [] 0 [R_wrongtypeerr]
  else if decide (longest srcs = 0%nat) then
    outcomes s c E s' (at_key k None view1) (at_key k None expires1) (if view1 k is Some _ then [k] else []) 1 [RInt 0]
  else
    exists res, length res = longest srcs /\
      (forall i, (i < 8 * length res)%nat -> bits_of res !! i = Some (bit_result op srcs i)) /\
      outcomes s c E s' (at_key k (Some (VStr res)) view1) (at_key k None expires1) [k] 1 [RInt (Z.of_nat (length res))].

Lemma reads_wrong s ks E s1 c :
  reads s ks E [] s1 ->
  outcomes s c E (upd_clients (alter (says [R_wrongtypeerr]) c) s1) (checked ks (alive s) (view (st s)))
    (checked ks (alive_expire s) (fun k => expires (st s) !! k)) [] 0 [R_wrongtypeerr].
Proof.
  intros [Hok (Hc & Hw & Hcl & Hd & _) Hv Hx _]. split; cbn; try congruence; try done. rewrite Hd. lia.
Qed.

(** C33 [bitopCommand] stores in the target key the string as long as the longest source whose bits are the operation on the
    bits of the sources, absent keys and the part after the end of a source counting as zeros, whether a
    bit is computed in words of memory or in bytes and whatever the byte order; without any
    bytes the target is deleted. The target may be one of the sources. The references taken on
    the sources are dropped on every path, also when a source of another type stops
    the command. Whether the sources have expired must not change while it runs. *)
Theorem bitopCommand_combines `{Host} s c cl argv F opname target names :
  clients s !! c = Some cl -> store_ok (st s) (argv ++ F)%list ->
  is_arg (st s) argv 1 opname -> is_arg (st s) argv 2 target -> named (st s) (drop 3 argv) names ->
  steady s (pair (c_db cl) <$> names) ->
  exists s', bitopCommand c argv s = Some (argv, s') /\
    match parse_bitop opname with
    | None => s' = upd_clients (alter (says [R_syntaxerr]) c) s
    | Some op =>
        if bool_decide (op = BITOP_NOT) && negb (zlen argv =? 4) then
          s' = upd_clients (alter (says [RError "BITOP NOT must be called with a single source key."]) c) s
        else bitop_outcome s c (argv ++ F)%list (c_db cl) op target names s'
    end.
Proof.
  intros Hc Hok Hop Htarget Hn Hst. unfold bitopCommand. rewrite (bind_run _ _ _ _ _ (is_arg_run s argv 1 opname Hop)).
  destruct (parse_bitop opname) as [op|]; [|by eexists].
  destruct (bool_decide (op = BITOP_NOT) && negb (zlen argv =? 4)); [by eexists|].
  rewrite (bind_run _ _ _ _ _ (client_db_run s c cl Hc)). unfold bitop_outcome.
  assert (drop 3 argv ⊆ argv ++ F) as Hsub by (intros o Ho; apply elem_of_app; left; rewrite <- (take_drop 3 argv);
    apply elem_of_app; by right).
  pose proof (bitop_load_spec c (c_db cl) (argv ++ F)%list s (drop 3 argv) names s [] 0 [] (reads_refl s _ Hok) Hn Hsub Hst
    ltac:(constructor) ltac:(constructor)) as Hload. cbv zeta in *.
  destruct (existsb _ names).
  { destruct Hload as (s1 & Hrun & Hr). erewrite bind_run by exact Hrun. eexists. split; [done|]. by apply reads_wrong. }
  destruct Hload as (s1 & srcs & m & Hrun & Hr & Hsrcs & Hm & Hb). erewrite bind_run by exact Hrun. cbv beta iota.
  cbn [fmap list_fmap app] in Hsrcs. rewrite <- Hsrcs.
  destruct (release_spec _ _ _ _ _ Hr) as (t & Hrel & Hr1).
  assert (is_arg (st (with_st t s1)) argv 2 target) as Htarget1.
  { eapply is_arg_kept; [apply Hr1| |done]. intros o Ho. set_solver. }
  destruct (decide (longest (src_bytes <$> srcs) = 0%nat)) as [Hz|Hz].
  - rewrite Hz. cbn [negb Z.of_nat Z.eqb]. run. erewrite bind_run by exact Hrel.
    rewrite (bind_run _ _ _ _ _ (is_arg_run _ argv 2 target Htarget1)).
    destruct (bitop_del_spec s _ _ _ Hr1 (c_db cl) target) as (s2 & Hdel & Hs2). erewrite bind_run by exact Hdel.
    eexists. split; [done|]. by eapply stored_outcomes.
  - rewrite (proj2 (Z.eqb_neq _ 0)) by lia. cbn [negb].
    destruct (bitop_compute_bits op (src_bytes <$> srcs) m) as (res & Hcomp & Hbytes & Hlen & Hbits).
    { by intros ->%fmap_nil_inv. }
    { by apply Forall_fmap. }
    { by apply Forall_fmap. }
    erewrite bind_run by (apply lift_run; exact Hcomp). erewrite bind_run by exact Hrel.
    rewrite (bind_run _ _ _ _ _ (is_arg_run _ argv 2 target Htarget1)).
    destruct (bitop_set_spec s _ _ _ Hr1 (c_db cl) target res Hbytes) as (s2 & Hset & Hs2). erewrite bind_run by exact Hset.
    eexists. split; [done|]. exists res. rewrite Hlen. split_and!; [done|done|]. by eapply stored_outcomes.
Qed.

(** ** Application to a concrete state *)

Module Applied.
Import SampleState.Sample.

(** BITOP OR of "a" and the integer "n" into "z". *)
Lemma bitopCommand_combines_witness :
  exists s', @bitopCommand false 1 [o_cmd; o_or; o_z; o_a; o_n] s1 = Some ([o_cmd; o_or; o_z; o_a; o_n], s') /\
    bitop_outcome s1 1 ([o_cmd; o_or; o_z; o_a; o_n] ++ rest1 [o_cmd; o_or; o_z; o_a; o_n])%list 0 BITOP_OR [122] [[97]; [110]] s'.
Proof.
  apply (@bitopCommand_combines false s1 1 client0 [o_cmd; o_or; o_z; o_a; o_n] (rest1 [o_cmd; o_or; o_z; o_a; o_n])
    [79; 114] [122] [[97]; [110]]).
  - reflexivity.
  - apply ok_argv1. vm_compute. reflexivity.
  - arg.
  - arg.
  - repeat constructor.
  - intros k n Hk. assert (k = (0, [97]) \/ k = (0, [110])) as [->| ->] by set_solver; [|reflexivity].
    unfold expired. cbn [expires st s1 with_st upd_st s0 conf lua_time_start loading upd_ticks ticks].
    pose proof (clock_range n). pose proof (clock_range 0).
    change (expires t1 !! (0, [97])) with (Some 5000). cbv iota. cbn [loading lua_time_start conf0 negb].
    rewrite !Z.gtb_ltb, !(proj2 (Z.ltb_ge _ _)) by lia. reflexivity.
Defined.
End Applied.
