(* ===== verification/BitfieldSpec.v ===== *)
(** * BITFIELD (specification of bitfieldCommand of BitCmd.v)

    A BITFIELD command is a list of operations on the bits of a string; [bf_run] says what they do to the bits and
    what they reply, [bf_syntax] which arguments stand for which operations, and the command does that. *)

From S2P Require Import Prelude Endian Util Sds Glob Bitops State Object Server Db DbSpec Outcome SampleState KeySpec TString TStringSpec BitCmd BitCmdSpec BitopSpec.

(** ** The operations on lists of bits *)

(** [n] bits from [off] on, zero after the end. *)
Definition bits_at (l : list bool) (off n : Z) : list bool :=
  (fun i => default false (l !! (Z.to_nat off + i)%nat)) <$> seq 0 (Z.to_nat n).

(** The number a field holds. *)
Definition field_num (l : list bool) (off bits : Z) (sign : bool) : Z :=
  let v := bval (bits_at l off bits) in if sign then wraps bits v else v.

(** The number to store for [t], or [None] when the operation is refused. *)
Definition fit (sign : bool) (bits : Z) (owtype : bfoverflow) (t : Z) : option Z :=
  let lo := if sign then - 2 ^ (bits - 1) else 0 in
  let hi := if sign then 2 ^ (bits - 1) - 1 else 2 ^ bits - 1 in
  if (lo <=? t) && (t <=? hi) then Some t
  else match owtype with
       | BFOVERFLOW_WRAP => Some (if sign then wraps bits t else wrapu bits t)
       | BFOVERFLOW_SAT => Some (if hi <? t then hi else lo)
       | BFOVERFLOW_FAIL => None
       end.

(** The bits after an operation and its reply. A value that is SET into an unsigned field is taken as a
    [uint64_t]. *)
Definition bf_step (op : bitfieldOp) (l : list bool) : list bool * reply :=
  let '(BitfieldOp off i64 opcode owtype bits sign) := op in
  let old := field_num l off bits sign in
  let store t reply_new :=
    match fit sign bits owtype t with
    | Some new => (splice l off (bits_be bits new), RInt (if reply_new : bool then new else old))
    | None => (l, R_nullbulk)
    end in
  match opcode with
  | BITFIELDOP_GET => (l, RInt old)
  | BITFIELDOP_SET => store (if sign : bool then i64 else wrapu 64 i64) false
  | BITFIELDOP_INCRBY => store (old + i64) true
  end.

Fixpoint bf_run (ops : list bitfieldOp) (l : list bool) : list bool * list reply :=
  match ops with
  | [] => (l, [])
  | op :: ops => let '(l1, r) := bf_step op l in let '(l2, rs) := bf_run ops l1 in (l2, r :: rs)
  end.

Definition is_write (op : bitfieldOp) : bool := negb (bool_decide (bf_opcode op = BITFIELDOP_GET)).
Definition writes (ops : list bitfieldOp) : Z := zlen (filter (fun op => is_write op = true) ops).

(** What the parser guarantees of an operation. *)
Definition op_wf (op : bitfieldOp) : Prop :=
  0 <= bf_offset op < 2 ^ 32 /\ in_s 64 (bf_i64 op) /\ 0 < bf_bits op <= (if bf_sign op then 64 else 63).

(** What the code relies on besides: a signed field has fewer than 64 bits, and a value to be SET in it or added to
    it is not so low or so high that the sum or the differences with the bounds of the field overflow. *)
Definition op_safe (op : bitfieldOp) : Prop :=
  bf_sign op = true ->
  bf_bits op < 64 /\ (is_write op = true -> 2 ^ (bf_bits op - 1) - 2 ^ 63 <= bf_i64 op <= 2 ^ 63 - 2 ^ (bf_bits op - 1)).

(** ** Reading *)

Lemma bits_at_field p off bits : field_ok p off bits -> bits_at (bits_of p) off bits = field p off bits.
Proof.
  intros (Ho & Hb & Hl). pose proof (zlen_bits_of p) as Hz. unfold zlen in Hz, Hl. unfold bits_at, field. apply list_eq. intros i.
  rewrite list_lookup_fmap. destruct (decide (i < Z.to_nat bits)%nat).
  - rewrite lookup_seq_lt, lookup_take_lt, lookup_drop by done. cbn.
    by destruct (lookup_lt_is_Some_2 (bits_of p) (Z.to_nat off + i)%nat) as [b ->]; [lia|].
  - by rewrite lookup_seq_ge, lookup_take_ge by lia.
Qed.

(** A field read through the signed or the unsigned function. *)
Definition getBitfield (sign : bool) (p : sds) (off bits : Z) : option Z :=
  if sign then getSignedBitfield p off bits else getUnsignedBitfield p off bits.

Lemma field_num_range l off bits sign :
  0 < bits -> if sign : bool then in_s bits (field_num l off bits sign) else in_u bits (field_num l off bits sign).
Proof.
  intros Hb. unfold field_num. destruct sign; [by apply wraps_range|].
  assert (zlen (bits_at l off bits) = bits) as Hl by (unfold bits_at, zlen; rewrite length_fmap, length_seq; lia).
  pose proof (bval_range (bits_at l off bits)) as Hr. by rewrite Hl in Hr.
Qed.

Lemma getBitfield_spec sign p off bits :
  field_ok p off bits -> (sign = true -> bits < 64) ->
  getBitfield sign p off bits = Some (field_num (bits_of p) off bits sign).
Proof.
  intros Hf Hs. pose proof Hf as (_ & Hb & _). unfold getBitfield, field_num. rewrite bits_at_field by done.
  pose proof (getUnsigned_spec p off bits Hf) as Hu. destruct sign; [|done].
  pose proof (bval_range (field p off bits)) as Hr. rewrite zlen_field in Hr by done.
  rewrite (getSigned_spec p off bits (bval (field p off bits))) by (lia || by rewrite wrapu_small).
  by rewrite (proj2 (Z.eqb_neq bits 64)) by (specialize (Hs eq_refl); lia).
Qed.

(** The buffer of nine bytes holds the field, whatever the length of the string. *)
Lemma bitfield_buf_at src byte i : 0 <= byte -> (i < 9)%nat -> bitfield_buf src byte !! i = Some (byte_at src (Z.to_nat byte + i)).
Proof.
  intros Hb Hi. unfold bitfield_buf, byte_at. rewrite lookup_take_lt by lia.
  destruct (decide (Z.to_nat byte + i < length src)%nat).
  - rewrite lookup_app_l by (rewrite length_drop; lia). rewrite lookup_drop.
    by destruct (lookup_lt_is_Some_2 src (Z.to_nat byte + i)%nat) as [b ->]; [lia|].
  - rewrite lookup_app_r, length_drop by (rewrite length_drop; lia). rewrite lookup_replicate_2 by lia.
    by rewrite lookup_ge_None_2 by lia.
Qed.

Lemma buf_field src off bits :
  0 <= off -> bits <= 64 ->
  bits_at (bits_of (bitfield_buf src (Z.shiftr off 3))) (off - Z.shiftr off 3 * 8) bits = bits_at (bits_of src) off bits.
Proof.
  intros Ho Hb. pose proof (shiftr_3 off) as Hsh.
  set (byte := Z.shiftr off 3) in *. unfold bits_at. apply list_fmap_ext. intros i j Hj. apply lookup_seq in Hj as [-> Hi].
  cbn [Nat.add]. rewrite !bits_of_lookup. set (r := (Z.to_nat (off - byte * 8) + i)%nat).
  assert (Z.to_nat off + i = r + Z.to_nat byte * 8)%nat as -> by (unfold r; lia).
  rewrite Nat.Div0.mod_add, Nat.div_add by lia. rewrite bitfield_buf_at; [|unfold byte; lia|].
  - replace (r / 8 + Z.to_nat byte)%nat with (Z.to_nat byte + r / 8)%nat by lia. unfold byte_at.
    destruct (src !! (Z.to_nat byte + r / 8)%nat); [done|]. cbn. by rewrite Z.testbit_0_l.
  - apply Nat.Div0.div_lt_upper_bound. unfold r. lia.
Qed.

Lemma bitfield_read_spec op src :
  op_wf op -> op_safe op -> bitfield_read op src = Some (RInt (field_num (bits_of src) (bf_offset op) (bf_bits op) (bf_sign op))).
Proof.
  intros (Hoff & _ & Hbits) Hsafe. unfold bitfield_read. cbv zeta. set (off := bf_offset op) in *. set (bits := bf_bits op) in *.
  pose proof (shiftr_3 off) as Hsh. set (buf := bitfield_buf src (Z.shiftr off 3)).
  assert (zlen buf = 9) as Hlen.
  { unfold buf, bitfield_buf, zlen. rewrite length_take, length_app, length_replicate. lia. }
  assert (field_ok buf (off - Z.shiftr off 3 * 8) bits) as Hf by (unfold field_ok; destruct (bf_sign op); lia).
  assert (field_num (bits_of buf) (off - Z.shiftr off 3 * 8) bits (bf_sign op) = field_num (bits_of src) off bits (bf_sign op)) as Hnum.
  { unfold field_num, buf. rewrite buf_field; [done|lia|destruct (bf_sign op); lia]. }
  pose proof (getBitfield_spec (bf_sign op) buf _ bits Hf ltac:(intros Hs; by apply Hsafe)) as Hget. rewrite Hnum in Hget.
  pose proof (field_num_range (bits_of src) off bits (bf_sign op) ltac:(lia)) as Hr.
  unfold getBitfield in Hget. destruct (bf_sign op); rewrite Hget; [done|]. cbn [mbind option_bind]. do 2 f_equal.
  cbn in Hbits. apply wraps_small; [lia|]. destruct Hr as [? Hhi]. pose proof (Z.pow_le_mono_r 2 bits 63 ltac:(lia) ltac:(lia)). unfold in_s. change (64 - 1) with 63. lia.
Qed.

(** ** Writing *)

(** The check agrees with [fit]: [t] is the value that is wanted and [newval] the one that was computed. *)
Definition check_agrees (r : Z * option Z) (owtype : bfoverflow) (f : option Z) (newval : Z) : Prop :=
  negb (negb (r.1 =? 0) && bool_decide (owtype = BFOVERFLOW_FAIL)) = bool_decide (is_Some f) /\
  forall new, f = Some new -> after_check r newval = new.

Lemma signed_check value incr bits owtype newval :
  0 < bits < 64 -> 2 ^ (bits - 1) - 2 ^ 63 <= value <= 2 ^ 63 - 2 ^ (bits - 1) -> in_s 64 incr -> incr = 0 \/ in_s bits value ->
  (in_s bits (value + incr) -> newval = value + incr) ->
  exists r, checkSignedBitfieldOverflow value incr bits owtype = Some r /\
    check_agrees r owtype (fit true bits owtype (value + incr)) newval.
Proof.
  intros Hb Hv Hi Hor Hnew. rewrite checkSigned_exact by done. cbv zeta.
  unfold fit, check_agrees, in_s in *. set (hi := 2 ^ (bits - 1)) in *. set (t := value + incr) in *. destruct Hv as [Hv0 Hv1].
  destruct (Z.ltb_spec (hi - 1) value), (Z.ltb_spec (hi - 1) t), (Z.ltb_spec value (- hi)), (Z.ltb_spec t (- hi)),
    (Z.leb_spec (- hi) t), (Z.leb_spec t (hi - 1)); try lia; cbn [orb andb];
    destruct owtype; eexists; (split; [done|]); cbn; (split; [done|]); intros new [= <-]; done || lia.
Qed.

Lemma unsigned_check value incr bits owtype newval :
  0 < bits < 64 -> in_u 64 value -> in_s 64 incr -> incr = 0 \/ in_u bits value ->
  (in_u bits (value + incr) -> newval = value + incr) ->
  exists r, checkUnsignedBitfieldOverflow value incr bits owtype = Some r /\
    check_agrees r owtype (fit false bits owtype (value + incr)) newval.
Proof.
  intros Hb Hv Hi Hor Hnew. rewrite checkUnsigned_exact by done. cbv zeta.
  unfold fit, check_agrees, in_u in *. set (hi := 2 ^ bits) in *. set (t := value + incr) in *. destruct Hv as [Hv0 Hv1].
  destruct (Z.ltb_spec (hi - 1) value), (Z.ltb_spec (hi - 1) t), (Z.ltb_spec t 0),
    (Z.leb_spec 0 t), (Z.leb_spec t (hi - 1)); try lia; cbn [orb andb];
    destruct owtype; eexists; (split; [done|]); cbn; (split; [done|]); intros new [= <-]; done || lia.
Qed.

Lemma set_field (sign : bool) p off bits new :
  bytes_ok p -> field_ok p off bits ->
  exists p', (if sign then setSignedBitfield else setUnsignedBitfield) p off bits new = Some p' /\ bytes_ok p' /\ zlen p' = zlen p /\
    bits_of p' = splice (bits_of p) off (bits_be bits new).
Proof.
  intros Hp Hf. pose proof Hf as (_ & Hb & _). destruct sign; [|by apply setUnsigned_spec].
  destruct (setUnsigned_spec p off bits (wrapu 64 new) Hp Hf) as (p' & E & Hp' & Hl & Hbits). exists p'.
  split_and!; [done..|]. rewrite Hbits. f_equal. unfold bits_be. apply list_fmap_ext. intros i j Hj.
  apply lookup_seqZ in Hj as [-> Hi]. unfold wrapu. rewrite Z.mod_pow2_bits_low by lia. done.
Qed.

(** The end of an operation, once the check is done. *)
Lemma write_end (sign : bool) p off bits owtype r f newval (ret : Z -> Z) :
  bytes_ok p -> field_ok p off bits -> check_agrees r owtype f newval ->
  (forall z, f = Some z -> wraps 64 (ret z) = ret z) ->
  exists p' rep,
    (if negb (negb (r.1 =? 0) && bool_decide (owtype = BFOVERFLOW_FAIL)) then
       p ← (if sign then setSignedBitfield else setUnsignedBitfield) p off bits (after_check r newval);
       Some (p, RInt (if sign then ret (after_check r newval) else wraps 64 (ret (after_check r newval))))
     else Some (p, R_nullbulk)) = Some (p', rep) /\ bytes_ok p' /\ zlen p' = zlen p /\
    (bits_of p', rep) = match f with
                        | Some new => (splice (bits_of p) off (bits_be bits new), RInt (ret new))
                        | None => (bits_of p, R_nullbulk)
                        end.
Proof.
  intros Hp Hf [Hg Hnew] Hret. rewrite Hg. destruct f as [new|].
  - rewrite bool_decide_true by (by eexists). rewrite (Hnew new eq_refl), (Hret new eq_refl).
    destruct (set_field sign p off bits new Hp Hf) as (p' & -> & Hp' & Hl & Hbits). cbn [mbind option_bind].
    exists p', (RInt (ret new)). split_and!; [by destruct sign|done|done|by rewrite Hbits].
  - rewrite bool_decide_false by (by intros [? ?]). by exists p, R_nullbulk.
Qed.

Lemma in_s_wider a b z : 0 < a <= b -> in_s a z -> in_s b z.
Proof. intros Hab [? ?]. pose proof (Z.pow_le_mono_r 2 (a - 1) (b - 1) ltac:(lia) ltac:(lia)). unfold in_s. lia. Qed.

Lemma fit_range sign bits owtype t z : 0 < bits < 64 -> fit sign bits owtype t = Some z -> in_s 64 z.
Proof.
  intros Hb. unfold fit. pose proof (pow2_pos (bits - 1) ltac:(lia)) as Hp. pose proof (pow2_pos bits ltac:(lia)).
  pose proof (Z.pow_le_mono_r 2 bits 63 ltac:(lia) ltac:(lia)). pose proof (Z.pow_le_mono_r 2 (bits - 1) 62 ltac:(lia) ltac:(lia)).
  destruct ((_ <=? t) && (t <=? _)) eqn:Et.
  - intros [= <-]. zbool. unfold in_s. change (64 - 1) with 63. destruct sign; lia.
  - destruct owtype; [| |done]; intros [= <-]; destruct sign.
    + apply (in_s_wider bits); [lia|]. apply wraps_range; lia.
    + pose proof (wrapu_range bits t ltac:(lia)) as [? ?]. unfold in_s. change (64 - 1) with 63. lia.
    + unfold in_s. change (64 - 1) with 63. destruct (_ <? t); lia.
    + unfold in_s. change (64 - 1) with 63. destruct (_ <? t); lia.
Qed.

Lemma bitfield_write_spec op p :
  op_wf op -> op_safe op -> is_write op = true -> bytes_ok p -> field_ok p (bf_offset op) (bf_bits op) ->
  exists p' rep, bitfield_write op p = Some (p', rep) /\ bytes_ok p' /\ zlen p' = zlen p /\
    (bits_of p', rep) = bf_step op (bits_of p).
Proof.
  intros (Hoff & Hi64 & Hb0 & Hb1) Hsafe Hw Hp Hf. destruct op as [off i64 opcode owtype bits sign].
  unfold is_write, op_safe in *. cbn [bf_offset bf_i64 bf_opcode bf_owtype bf_bits bf_sign bitfield_write bf_step] in *. cbv zeta.
  pose proof (getBitfield_spec sign p off bits Hf ltac:(intros ->; by apply Hsafe)) as Hget.
  pose proof (field_num_range (bits_of p) off bits sign ltac:(lia)) as Hr. set (old := field_num _ _ _ _) in *.
  assert (0 < bits < 64) as Hb by (destruct sign; [destruct (Hsafe eq_refl)|]; lia).
  pose proof (pow2_pos (bits - 1) ltac:(lia)). pose proof (Z.pow_le_mono_r 2 (bits - 1) 62 ltac:(lia) ltac:(lia)).
  assert (in_s 64 old) as Hold.
  { destruct sign; [by apply (in_s_wider bits); [lia|]|]. destruct Hr as [? ?]. unfold in_s.
    pose proof (Z.pow_le_mono_r 2 bits 63 ltac:(lia) ltac:(lia)). change (64 - 1) with 63. lia. }
  assert (forall t f, f = fit sign bits owtype t -> forall z, f = Some z -> wraps 64 z = z) as Hfit.
  { intros t f -> z Hz. apply wraps_small; [lia|]. by eapply fit_range. }
  unfold getBitfield in Hget. destruct sign; rewrite Hget; cbn [mbind option_bind].
  - destruct opcode; [done| |].
    + destruct (signed_check i64 0 bits owtype i64 Hb) as (r & -> & Ha);
        [by apply Hsafe|done|by left|by rewrite Z.add_0_r|]. cbn [mbind option_bind]. rewrite Z.add_0_r in Ha.
      apply (write_end true p off bits owtype r _ i64 (fun _ => old) Hp Hf Ha). intros z _. by apply wraps_small.
    + destruct (Hsafe eq_refl) as [_ Hsum]. specialize (Hsum Hw). destruct Hr as [Hr0 Hr1].
      rewrite int64_arith_in by (unfold in_s; change (64 - 1) with 63; lia). cbn [mbind option_bind].
      destruct (signed_check old i64 bits owtype (old + i64) Hb) as (r & -> & Ha); [lia|done|by right|done|].
      cbn [mbind option_bind]. apply (write_end true p off bits owtype r _ _ (fun z => z) Hp Hf Ha). by eapply Hfit.
  - destruct opcode; [done| |].
    + destruct (unsigned_check (wrapu 64 i64) 0 bits owtype (wrapu 64 i64) Hb) as (r & -> & Ha);
        [by apply wrapu_range|done|by left|by rewrite Z.add_0_r|]. cbn [mbind option_bind]. rewrite Z.add_0_r in Ha.
      apply (write_end false p off bits owtype r _ (wrapu 64 i64) (fun _ => old) Hp Hf Ha). intros z _. by apply wraps_small.
    + destruct (unsigned_check old i64 bits owtype (wrapu 64 (old + i64)) Hb) as (r & -> & Ha);
        [apply (in_u_mono bits); [lia|done]|done|by right|intros Hin; apply wrapu_small; by apply (in_u_mono bits); [lia|]|].
      cbn [mbind option_bind]. apply (write_end false p off bits owtype r _ _ (fun z => z) Hp Hf Ha). by eapply Hfit.
Qed.

(** ** The loop over the operations *)

(** The operations write inside of the string, whose bits a [uint64_t] can number. *)
Definition op_inside (n : Z) (op : bitfieldOp) : Prop :=
  is_write op = true -> bf_offset op + bf_bits op <= 8 * n < 2 ^ 64.

(** The object of a key that was just written, and its bytes. *)
Definition raw_key (k : Z * sds) (s : server) (o : oid) (bs : sds) : Prop :=
  dict (st s) !! k = Some o /\ obj_at (st s) o = Some (Robj OBJ_STRING OBJ_ENCODING_RAW (PSds bs) 1) /\ bytes_ok bs.

Lemma writes_cons op ops : writes (op :: ops) = (if is_write op then 1 else 0) + writes ops.
Proof.
  unfold writes. rewrite filter_cons. destruct (is_write op); [rewrite decide_True by done; rewrite zlen_cons; lia|].
  by rewrite decide_False by done.
Qed.

(** The loop on a string that was prepared for writing: [rs0] are the replies so far. *)
Lemma bitfield_exec_write s c k E x o ops : forall s1 bs n rs0,
  Forall op_wf ops -> Forall op_safe ops -> Forall (op_inside (zlen bs)) ops ->
  written s k E s1 (Some (VStr bs)) x -> raw_key k s1 o bs ->
  let '(l, rs) := bf_run ops (bits_of bs) in
  exists bs' s2, bitfield_exec c (Some o) ops n (upd_clients (alter (says rs0) c) s1) =
      Some (n + writes ops, upd_clients (alter (says (rs0 ++ rs)%list) c) s2) /\
    written s k E s2 (Some (VStr bs')) x /\ bits_of bs' = l.
Proof.
  induction ops as [|op ops IH]; intros s1 bs n rs0 Hwf Hsafe Hin Hw Hraw.
  { cbn. exists bs, s1. rewrite app_nil_r. unfold writes. cbn. by rewrite zlen_nil, Z.add_0_r. }
  apply Forall_cons in Hwf as [Hwf1 Hwf], Hsafe as [Hsafe1 Hsafe], Hin as [Hin1 Hin].
  destruct Hraw as (Hk & Hr & Hbs). cbn [bf_run bitfield_exec]. rewrite writes_cons.
  set (s1' := upd_clients (alter (says rs0) c) s1).
  assert (forall r, obj_at (st s1) o = Some r -> in_store (obj o) s1' = Some (r, s1')) as Hobj.
  { intros r Hr'. apply in_store_same. unfold obj. run. by apply lift_run. }
  destruct (is_write op) eqn:Ew; pose proof Ew as Ew'; unfold is_write in Ew'; zbool; rewrite Ew'.
  - destruct (bitfield_write_spec op bs Hwf1 Hsafe1 Ew Hbs) as (bs1 & rep & Hrun & Hbs1 & Hlen & Hstep).
    { destruct Hwf1 as ([? ?] & _ & Hb0 & Hb1). specialize (Hin1 Ew). unfold field_ok. destruct (bf_sign op); lia. }
    destruct (written_again s k E s1 _ _ o bs bs1 Hw Hk Hr Hbs1) as (t & Hset & Hw1 & Hk1 & Hr1).
    erewrite bind_run by (by apply lift_run). erewrite bind_run by (by apply Hobj).
    erewrite bind_run by (by apply lift_run). erewrite bind_run by (apply lift_run; exact Hrun). cbv beta iota.
    unfold addReply, upd_client. run. fold (says [rep]).
    erewrite bind_run by (apply in_store_run; exact Hset).
    specialize (IH (with_st t s1) bs1 (n + 1) (rs0 ++ [rep])%list Hwf Hsafe). rewrite Hlen in IH.
    specialize (IH Hin Hw1 ltac:(by split_and!)). rewrite <- Hstep. destruct (bf_run ops (bits_of bs1)) as [l rs].
    destruct IH as (bs' & s2 & Hrest & Hw2 & Hl). exists bs', s2. rewrite <- app_assoc in Hrest. rewrite Z.add_assoc.
    split_and!; [|done|done].
    etrans; [|exact Hrest]. by rewrite <- says_says.
  - assert (getObjectReadOnlyString o s1' = Some (bs, s1')) as Hsrc.
    { unfold getObjectReadOnlyString. erewrite bind_run by (by apply Hobj). by erewrite bind_run by (by apply assert_run). }
    erewrite bind_run by exact Hsrc. erewrite bind_run by (apply lift_run; by apply bitfield_read_spec).
    unfold addReply, upd_client. run. specialize (IH s1 bs n (rs0 ++ [(bf_step op (bits_of bs)).2])%list Hwf Hsafe Hin Hw ltac:(by split_and!)).
    destruct op as [off i64 opcode owtype bits sign]. cbn [bf_opcode] in Ew'. apply bool_decide_eq_true_1 in Ew'. subst opcode.
    cbn [bf_step snd bf_offset bf_bits bf_sign] in *. destruct (bf_run ops (bits_of bs)) as [l rs].
    destruct IH as (bs' & s2 & Hrest & Hw2 & Hl). exists bs', s2. rewrite <- app_assoc in Hrest.
    split_and!; [|done|done]. etrans; [|exact Hrest]. by rewrite <- says_says.
Qed.

(** The loop on a string that is only read, or on no string. *)
Lemma bitfield_exec_read s k E c o v ops : forall n rs0,
  store_ok (st s) E -> read_found s k E o v -> not_string v = false ->
  Forall op_wf ops -> Forall op_safe ops -> Forall (fun op => is_write op = false) ops ->
  bitfield_exec c o ops n (upd_clients (alter (says rs0) c) s) =
    Some (n, upd_clients (alter (says (rs0 ++ (bf_run ops (bits_of (old_bytes v))).2)%list) c) s).
Proof.
  induction ops as [|op ops IH]; intros n rs0 Hok Hf Hns Hwf Hsafe Hget; [by rewrite app_nil_r|].
  apply Forall_cons in Hwf as [Hwf1 Hwf], Hsafe as [Hsafe1 Hsafe], Hget as [Hg Hget]. cbn [bf_run bitfield_exec].
  unfold is_write in Hg. zbool. rewrite Hg. set (s1' := upd_clients (alter (says rs0) c) s).
  assert ((match o with Some o => getObjectReadOnlyString o | None => mret [] end) s1' = Some (old_bytes v, s1')) as Hsrc.
  { destruct Hf as [|o w Hv Hin]; [done|]. destruct w as [bs|]; [|done]. by eapply (getObjectReadOnlyString_spec s1' E). }
  erewrite bind_run by exact Hsrc. erewrite bind_run by (apply lift_run; by apply bitfield_read_spec).
  unfold addReply, upd_client. run. specialize (IH n (rs0 ++ [(bf_step op (bits_of (old_bytes v))).2])%list Hok Hf Hns Hwf Hsafe Hget).
  destruct op as [off i64 opcode owtype bits sign]. cbn [bf_opcode] in Hg. apply bool_decide_eq_true_1 in Hg. subst opcode.
  cbn [bf_step snd bf_offset bf_bits bf_sign] in *. destruct (bf_run ops (bits_of (old_bytes v))) as [l rs]. cbn [snd] in *.
  rewrite <- app_assoc in IH. etrans; [|exact IH]. by rewrite <- says_says.
Qed.

(** ** The syntax of the arguments *)

(** A word in any case; what follows a zero byte is ignored. *)
Definition keyword (p : sds) (name : string) : Prop := tolower <$> c_string p = codes name.

(** The type of a field: "i" or "u" and the number of bits. *)
Definition field_type (p : sds) (sign : bool) (bits : Z) : Prop :=
  exists ds, p = (if sign then 105 else 117) :: ds /\ c_string ds = sdec bits /\ 1 <= bits <= (if sign then 64 else 63).

(** The offset of a field: a number of bits, or "#" and a number of fields. *)
Definition field_offset (p : sds) (bits off : Z) : Prop :=
  0 <= off < 2 ^ 32 /\ (p = sdec off \/ exists n, p = 35 :: sdec n /\ off = n * bits).

Definition overflow_name (ow : bfoverflow) : string :=
  match ow with BFOVERFLOW_WRAP => "wrap" | BFOVERFLOW_SAT => "sat" | BFOVERFLOW_FAIL => "fail" end.

(** The arguments [names] stand for the operations [ops], when [ow] is the mode of overflow that is in force before them. *)
Inductive bf_syntax : bfoverflow -> list sds -> list bitfieldOp -> Prop :=
| syntax_end ow : bf_syntax ow [] []
| syntax_get ow sub t off rest ops sign bits n :
    keyword sub "get" -> field_type t sign bits -> field_offset off bits n -> bf_syntax ow rest ops ->
    bf_syntax ow (sub :: t :: off :: rest) (BitfieldOp n 0 BITFIELDOP_GET ow bits sign :: ops)
| syntax_set ow sub t off v rest ops sign bits n i64 :
    keyword sub "set" -> field_type t sign bits -> field_offset off bits n -> v = sdec i64 -> in_s 64 i64 -> bf_syntax ow rest ops ->
    bf_syntax ow (sub :: t :: off :: v :: rest) (BitfieldOp n i64 BITFIELDOP_SET ow bits sign :: ops)
| syntax_incrby ow sub t off v rest ops sign bits n i64 :
    keyword sub "incrby" -> field_type t sign bits -> field_offset off bits n -> v = sdec i64 -> in_s 64 i64 -> bf_syntax ow rest ops ->
    bf_syntax ow (sub :: t :: off :: v :: rest) (BitfieldOp n i64 BITFIELDOP_INCRBY ow bits sign :: ops)
| syntax_overflow ow ow' sub name rest ops :
    keyword sub "overflow" -> keyword name (overflow_name ow') -> bf_syntax ow' rest ops -> bf_syntax ow (sub :: name :: rest) ops.

Definition reads_only (ops : list bitfieldOp) : bool := forallb (fun op => negb (is_write op)) ops.

(** The last bit that is written. *)
Definition last_written (ops : list bitfieldOp) : Z :=
  foldr (fun op n => if is_write op then Z.max (bf_offset op + bf_bits op - 1) n else n) 0 ops.

Lemma syntax_wf ow names ops : bf_syntax ow names ops -> Forall op_wf ops.
Proof.
  induction 1 as [|ow sub t off rest ops sign bits n _ (ds & _ & _ & Hb) [Hn _] _ IH|ow sub t off v rest ops sign bits n i64 _ (ds & _ & _ & Hb) [Hn _] _ Hi _ IH
    |ow sub t off v rest ops sign bits n i64 _ (ds & _ & _ & Hb) [Hn _] _ Hi _ IH|]; [constructor|..|done].
  all: constructor; [|exact IH]; split; [exact Hn|]; cbn [bf_i64 bf_bits bf_sign]; split; [done|lia].
Qed.

Lemma last_written_range ops : Forall op_wf ops -> 0 <= last_written ops < 2 ^ 33.
Proof.
  induction 1 as [|op ops (Ho & _ & Hb) _ IH]; cbn [last_written foldr]; [lia|]. fold (last_written ops). destruct (is_write op); [|done].
  destruct (bf_sign op); lia.
Qed.

Lemma last_written_bound ops : Forall (fun op => is_write op = true -> bf_offset op + bf_bits op <= last_written ops + 1) ops.
Proof.
  induction ops as [|op ops IH]; [constructor|]. cbn [last_written foldr]. fold (last_written ops). constructor; [intros ->; lia|].
  eapply Forall_impl; [exact IH|]. intros x Hx Hw. specialize (Hx Hw). destruct (is_write op); lia.
Qed.

Section parse.
Context (s : server) (E : list oid) (Hok : store_ok (st s) E) (c : Z).

Lemma type_run o p sign bits : name_at (st s) o = Some p -> field_type p sign bits -> getBitfieldTypeFromArgument c o s = Some (Some (sign, bits), s).
Proof.
  intros Hn (ds & -> & Hd & Hb). unfold getBitfieldTypeFromArgument. rewrite (key_step s o _ _ Hn). cbn [first_char head default tail].
  rewrite Hd, string2ll_complete by (unfold in_s; change (64 - 1) with 63; destruct sign; lia).
  destruct sign; cbn [from_option id Z.eqb Pos.eqb orb negb andb];
    rewrite (proj2 (Z.ltb_ge bits 1)), Z.gtb_ltb, (proj2 (Z.ltb_ge _ bits)) by lia; done.
Qed.

Lemma offset_run o p bits n : name_at (st s) o = Some p -> 1 <= bits -> field_offset p bits n -> getBitOffsetFromArgument c o true bits s = Some (Some n, s).
Proof.
  intros Hn Hb [Hr Hp]. unfold getBitOffsetFromArgument. rewrite (key_step s o _ _ Hn). cbv zeta. rewrite (proj2 (Z.gtb_lt bits 0)) by lia.
  destruct Hp as [->|(m & -> & ->)].
  - assert ((first_char (sdec n) =? 35) = false) as ->.
    { destruct (decide (n = 0)) as [->|Hne]; [reflexivity|]. unfold sdec. rewrite (proj2 (Z.ltb_ge n 0)) by lia.
      destruct (udec_parse n) as (d & q & -> & Hd & _); [lia|]. cbn. lia. }
    cbn [andb]. rewrite string2ll_complete by (unfold in_s; change (64 - 1) with 63; lia). run. rewrite offset_limit.
    by rewrite (proj2 (Z.leb_le 0 n)), (proj2 (Z.ltb_lt n _)) by lia.
  - assert (0 <= m < 2 ^ 32) as Hm by nia. cbn [first_char head default from_option id Z.eqb Pos.eqb andb tail].
    rewrite string2ll_complete by (unfold in_s; change (64 - 1) with 63; lia).
    rewrite (bind_run _ _ _ _ _ (ll_arith_run (m * bits) s ltac:(unfold LLONG_MIN, LLONG_MAX; lia))), offset_limit.
    by rewrite (proj2 (Z.leb_le 0 (m * bits))), (proj2 (Z.ltb_lt (m * bits) _)) by lia.
Qed.

Lemma value_run o i64 : o ∈ E -> name_at (st s) o = Some (sdec i64) -> in_s 64 i64 -> getLongLongFromObjectOrReply c (Some o) None s = Some (Some i64, s).
Proof.
  intros Ho Hn Hi. assert (val_at (st s) o = Some (VStr (sdec i64))) as Hv.
  { unfold name_at, val_at, val_of, as_sds in *. destruct (obj_at (st s) o) as [r|]; [|done]. cbn in *. by destruct (ptr r); simplify_eq. }
  by rewrite (getLongLongOrReply_spec s E c o _ None Hok (refs_ext _ _ _ Ho) Hv), string2ll_complete.
Qed.

(** What the parser has after an operation. *)
Definition with_op (a : bitfield_args) (op : bitfieldOp) : bitfield_args :=
  BitfieldArgs (ba_ops a ++ [op]) (ba_owtype a) (ba_readonly a && negb (is_write op))
    (if is_write op then Z.max (bf_offset op + bf_bits op - 1) (ba_highest a) else ba_highest a).

Lemma with_op_highest a op : 0 <= ba_highest a -> 0 <= ba_highest (with_op a op).
Proof. cbn [with_op ba_highest]. destruct (is_write op); lia. Qed.

Lemma op_run a opcode t off v pt po sign bits n i64 :
  name_at (st s) t = Some pt -> name_at (st s) off = Some po -> field_type pt sign bits -> field_offset po bits n ->
  match v with
  | Some o => opcode <> BITFIELDOP_GET /\ o ∈ E /\ name_at (st s) o = Some (sdec i64) /\ in_s 64 i64
  | None => opcode = BITFIELDOP_GET /\ i64 = 0
  end ->
  bitfield_op c a opcode t off v s = Some (Some (with_op a (BitfieldOp n i64 opcode (ba_owtype a) bits sign)), s).
Proof.
  intros Ht Hoff Hty Hpo Hv. pose proof Hty as (ds & _ & _ & Hb). unfold bitfield_op. rewrite (bind_run _ _ _ _ _ (type_run t pt sign bits Ht Hty)). cbv beta iota.
  rewrite (bind_run _ _ _ _ _ (offset_run off po bits n Hoff ltac:(lia) Hpo)). cbv beta iota zeta. unfold with_op, is_write. cbn [bf_opcode bf_offset bf_bits].
  destruct v as [vo|]; [|destruct Hv as [-> ->]; by rewrite andb_true_r].
  destruct Hv as (Hop & Hin & Hval & Hi). rewrite (bind_run _ _ _ _ _ (value_run vo i64 Hin Hval Hi)). cbv beta iota.
  rewrite (bool_decide_eq_false_2 (opcode = _)) by done. cbn [negb]. rewrite andb_false_r. destruct Hpo as [Hn _].
  rewrite wrapu_small by (unfold in_u; destruct sign; lia). 
  assert ((if ba_highest a <? n + bits - 1 then n + bits - 1 else ba_highest a) = Z.max (n + bits - 1) (ba_highest a)) as ->
    by (destruct (Z.ltb_spec (ba_highest a) (n + bits - 1)); lia). done.
Qed.

Lemma keyword_eq p name name' : keyword p name -> strcaseeq p name' = bool_decide (codes name = codes name').
Proof. unfold keyword, strcaseeq. by intros ->. Qed.

(** Compares two fixed words. *)
Ltac words := repeat match goal with
  | |- context [@bool_decide (codes ?a = codes ?b) ?d] =>
      let v := eval vm_compute in (@bool_decide (codes a = codes b) d) in change (@bool_decide (codes a = codes b) d) with v
  end.

(** The parser reads the operations that the arguments stand for. *)
Lemma parse_run ow names ops : bf_syntax ow names ops -> forall args a,
  named (st s) args names -> args ⊆ E -> ba_owtype a = ow -> 0 <= ba_highest a ->
  exists ow', bitfield_parse c args a s =
    Some (Some (BitfieldArgs (ba_ops a ++ ops) ow' (ba_readonly a && reads_only ops) (Z.max (ba_highest a) (last_written ops))), s).
Proof.
  assert (forall a op ops args', (exists ow', bitfield_parse c args' (with_op a op) s =
      Some (Some (BitfieldArgs (ba_ops (with_op a op) ++ ops) ow' (ba_readonly (with_op a op) && reads_only ops) (Z.max (ba_highest (with_op a op)) (last_written ops))), s)) ->
    exists ow', bitfield_parse c args' (with_op a op) s =
      Some (Some (BitfieldArgs (ba_ops a ++ op :: ops) ow' (ba_readonly a && reads_only (op :: ops)) (Z.max (ba_highest a) (last_written (op :: ops)))), s)) as Hstep.
  { intros a op ops' args' (ow' & ->). exists ow'. cbn [with_op ba_ops ba_readonly ba_highest reads_only forallb last_written foldr]. fold (reads_only ops') (last_written ops').
    rewrite <- app_assoc, andb_assoc. destruct (is_write op); [|done]. do 4 f_equal. lia. }
  induction 1 as [ow|ow sub t off rest ops sign bits n Hk Ht Ho _ IH|ow sub t off v rest ops sign bits n i64 Hk Ht Ho -> Hi _ IH
    |ow sub t off v rest ops sign bits n i64 Hk Ht Ho -> Hi _ IH|ow ow' sub name rest ops Hk Hname _ IH]; intros args a Hn Hsub How Hh.
  { apply Forall2_nil_inv_r in Hn. subst args. exists (ba_owtype a). cbn [bitfield_parse reads_only forallb last_written foldr]. rewrite app_nil_r, andb_true_r, Z.max_l by done.
    by destruct a. }
  all: apply Forall2_cons_inv_r in Hn as (o1 & args1 & H1 & Hn & ->); cbn [bitfield_parse]; rewrite (key_step s o1 sub _ H1); cbv zeta;
    rewrite !(keyword_eq sub _ _ Hk); words; cbn [orb].
  - apply Forall2_cons_inv_r in Hn as (o2 & args2 & H2 & Hn & ->). apply Forall2_cons_inv_r in Hn as (o3 & args3 & H3 & Hn & ->). subst ow.
    rewrite (bind_run _ _ _ _ _ (op_run a BITFIELDOP_GET o2 o3 None t off sign bits n 0 H2 H3 Ht Ho (conj eq_refl eq_refl))). cbv beta iota.
    apply Hstep, IH; [done|set_solver|done|done].
  - apply Forall2_cons_inv_r in Hn as (o2 & args2 & H2 & Hn & ->). apply Forall2_cons_inv_r in Hn as (o3 & args3 & H3 & Hn & ->).
    apply Forall2_cons_inv_r in Hn as (o4 & args4 & H4 & Hn & ->). subst ow.
    rewrite (bind_run _ _ _ _ _ (op_run a BITFIELDOP_SET o2 o3 (Some o4) t off sign bits n i64 H2 H3 Ht Ho ltac:(by split; [|split; [set_solver|]]))). cbv beta iota.
    apply Hstep, IH; [done|set_solver|done|by apply with_op_highest].
  - apply Forall2_cons_inv_r in Hn as (o2 & args2 & H2 & Hn & ->). apply Forall2_cons_inv_r in Hn as (o3 & args3 & H3 & Hn & ->).
    apply Forall2_cons_inv_r in Hn as (o4 & args4 & H4 & Hn & ->). subst ow.
    rewrite (bind_run _ _ _ _ _ (op_run a BITFIELDOP_INCRBY o2 o3 (Some o4) t off sign bits n i64 H2 H3 Ht Ho ltac:(by split; [|split; [set_solver|]]))). cbv beta iota.
    apply Hstep, IH; [done|set_solver|done|by apply with_op_highest].
  - apply Forall2_cons_inv_r in Hn as (o2 & args2 & H2 & Hn & ->). rewrite (key_step s o2 name _ H2).
    assert (parse_owtype name = Some ow') as -> by (unfold parse_owtype; rewrite !(keyword_eq name _ _ Hname); destruct ow'; reflexivity).
    destruct (IH args2 (BitfieldArgs (ba_ops a) ow' (ba_readonly a) (ba_highest a)) Hn ltac:(set_solver) eq_refl Hh) as (ow2 & Hp). by exists ow2.
Qed.
End parse.

Definition bitfield_init : bitfield_args := BitfieldArgs [] BFOVERFLOW_WRAP true 0.

(** ** The command *)

Lemma no_writes ops : reads_only ops = true -> Forall (fun op => is_write op = false) ops.
Proof. unfold reads_only. induction ops as [|op ops IH]; cbn; intros H; [done|]. zbool. constructor; auto. Qed.

Lemma some_writes ops : reads_only ops = false -> 0 < writes ops.
Proof.
  unfold reads_only. induction ops as [|op ops IH]; [done|]. cbn [forallb]. rewrite writes_cons. destruct (is_write op); cbn; [|intros H; by apply IH in H].
  intros _. pose proof (zlen_nonneg (filter (fun op => is_write op = true) ops)). unfold writes. lia.
Qed.

(** The outcome of BITFIELD with the operations [ops]. *)
Definition bitfield_outcome (s : server) (c : Z) (k : Z * sds) (E : list oid) (ops : list bitfieldOp) (s' : server) : Prop :=
  let run bs := bf_run ops (bits_of bs) in
  let replies bs := RMultiBulkLen (zlen ops) :: (run bs).2 in
  if reads_only ops then
    outcome s c k E s' (alive s k) (alive_expire s k) false 0
      (if not_string (visible s k) then [R_wrongtypeerr] else replies (old_bytes (visible s k)))
  else if not_string (alive s k) then
    outcome s c k E s' (alive s k) (alive_expire s k) false 0 [R_wrongtypeerr]
  else
    let bs := padded (old_bytes (alive s k)) (Z.shiftr (last_written ops) 3 + 1) in
    exists new, bits_of new = (run bs).1 /\
      outcome s c k E s' (Some (VStr new)) (alive_expire s k) true (writes ops) (replies bs).

(** The part of the command after the parser, for operations that write. *)
Lemma bitfield_write_part s c argv F db key ops :
  store_ok (st s) (argv ++ F)%list -> Forall op_wf ops -> reads_only ops = false -> Forall op_safe ops ->
  let k := (db, key) in
  (forall bs, alive s k = Some (VStr bs) -> zlen bs < 2 ^ 60) ->
  exists s', (o ← (o ← lookupStringForBitCommand c db key (last_written ops); mret (Some <$> o));
     match o with
     | None => mret argv
     | Some o =>
         _ ← addReplyMultiBulkLen c (zlen ops);
         changes ← bitfield_exec c o ops 0;
         _ ← (if negb (changes =? 0) then
                _ ← signalModifiedKey db key; _ ← notifyKeyspaceEvent NOTIFY_STRING "setbit" key db; incr_dirty changes
              else mret tt);
         mret argv
     end) s = Some (argv, s') /\ bitfield_outcome s c k (argv ++ F)%list ops s'.
Proof.
  intros Hok Hops Hro Hsafe k Hlen. pose proof (last_written_range _ Hops) as Hrange. pose proof (last_written_bound ops) as Hhi. unfold bitfield_outcome. rewrite Hro. cbv zeta.
  rewrite bind_assoc_run.
  destruct (lookupStringForBit_spec s (argv ++ F)%list c db key (last_written ops) Hok ltac:(lia))
    as [(t & d & s1 & Hal & Hes & Hrun)|(o & s1 & Hnot & Hrun & Hw & Hk & Hr & Hbytes)]; subst k; set (k := (db, key)) in *.
  { erewrite bind_run by exact Hrun. rewrite Hal. cbn [not_string]. eexists. split; [done|]. rewrite <- Hal. by apply outcome_lookup. }
  assert (not_string (alive s k) = false) as -> by (destruct (alive s k) as [[|]|]; [done|by edestruct Hnot|done]).
  erewrite bind_run by exact Hrun. cbn [fmap option_fmap option_map]. run. set (bs := padded _ _) in *.
  assert (zlen bs < 2 ^ 60 + 2 ^ 33 /\ last_written ops + 1 <= 8 * zlen bs) as [Hl1 Hl2].
  { unfold bs. rewrite zlen_padded. pose proof (shiftr_3 (last_written ops)).
    assert (zlen (old_bytes (alive s k)) < 2 ^ 60) by (destruct (alive s k) as [[b|]|]; [by apply Hlen|done|done]). lia. }
  assert (Forall (op_inside (zlen bs)) ops) as Hin.
  { eapply Forall_impl; [exact Hhi|]. intros op Hop Hwr. specialize (Hop Hwr). lia. }
  pose proof (bitfield_exec_write s c k _ _ o ops s1 bs 0 [RMultiBulkLen (zlen ops)] Hops Hsafe Hin Hw
    ltac:(by split_and!)) as Hexec.
  destruct (bf_run ops (bits_of bs)) as [l rs]. destruct Hexec as (new & s2 & Hexec & Hw2 & Hl).
  unfold addReplyMultiBulkLen, addReply, upd_client. run. erewrite bind_run by exact Hexec.
  pose proof (some_writes _ Hro) as Hpos.
  rewrite (proj2 (Z.eqb_neq (0 + writes ops) 0)) by lia. cbn [negb].
  rewrite bind_assoc_run. rewrite (bind_run _ _ _ _ _ (signalModifiedKey_spec _ _ _)).
  eexists. split; [done|]. exists new. split; [done|].
  eapply outcome_written; [exact Hw2|done..| |]; cbn; [|lia]. apply touch_says.
Qed.

(** C32 [bitfieldCommand], on arguments that are well formed ([bf_syntax]: GET, SET and INCRBY in any case, the type "i" or "u"
    with the number of bits, an offset in bits or as "#" and a number of fields, below 2^32 bits, a value of 64 bits,
    and OVERFLOW WRAP, SAT or FAIL for the operations after it, WRAP before the first), executes the operations they stand for in order on
    the bits of the string, which it first pads for the farthest write: each reply is the value of a field (with zeros after
    the end of the string), the old one for SET and the new one for INCRBY, signed or unsigned; a value that does
    not fit is wrapped, saturated or refused with nil, as the last OVERFLOW before says. [server.dirty] counts the
    writing operations, the refused ones too; operations that only read leave the key as it is, and a key of another type is
    an error. [op_safe] restricts the signed fields to at most 63 bits and, for a field of b bits, the
    values of SET and INCRBY to 2^(b-1) - 2^63 up to 2^63 - 2^(b-1): outside, the additions and subtractions of
    the code can overflow. The string has fewer than 2^60 bytes before the command. *)
Theorem bitfieldCommand_runs s c cl argv F key names ops :
  clients s !! c = Some cl -> store_ok (st s) (argv ++ F)%list -> is_arg (st s) argv 1 key ->
  named (st s) (drop 2 argv) names -> bf_syntax BFOVERFLOW_WRAP names ops -> Forall op_safe ops ->
  let k := (c_db cl, key) in
  (forall bs, alive s k = Some (VStr bs) -> zlen bs < 2 ^ 60) ->
  exists s', bitfieldCommand c argv s = Some (argv, s') /\ bitfield_outcome s c k (argv ++ F)%list ops s'.
Proof.
  intros Hc Hok Hkey Hn Hsyn Hsafe k Hlen.
  assert (drop 2 argv ⊆ argv ++ F) as Hsub by (intros o Ho; apply elem_of_app; left; rewrite <- (take_drop 2 argv);
    apply elem_of_app; by right).
  pose proof (syntax_wf _ _ _ Hsyn) as Hops. pose proof (last_written_range _ Hops).
  destruct (parse_run s _ Hok c _ _ _ Hsyn _ bitfield_init Hn Hsub eq_refl (Z.le_refl 0)) as (ow & Hparse).
  unfold bitfieldCommand. rewrite (bind_run _ _ _ _ _ Hparse). cbn [bitfield_init ba_ops ba_readonly ba_highest app andb].
  rewrite Z.max_r by lia.
  rewrite (bind_run _ _ _ _ _ (client_db_run s c cl Hc)), (bind_run _ _ _ _ _ (is_arg_run s argv 1 key Hkey)).
  destruct (reads_only ops) eqn:Hro; [|by apply bitfield_write_part].
  unfold bitfield_outcome. rewrite Hro. rewrite bind_assoc_run.
  destruct (lookupKeyRead_spec s _ (c_db cl) key Hok) as (s1 & old & Hrun & Hes & Hf). fold k in Hes, Hf.
  unfold lookupKeyRead. erewrite bind_run by exact Hrun. pose proof (es_ok _ _ _ _ Hes) as Hok1.
  pose proof (no_writes _ Hro) as Hget.
  assert (not_string (visible s k) = false -> forall n rs0,
    bitfield_exec c old ops n (upd_clients (alter (says rs0) c) s1) =
    Some (n, upd_clients (alter (says (rs0 ++ (bf_run ops (bits_of (old_bytes (visible s k)))).2)%list) c) s1)) as Hexec.
  { intros Hns n rs0. by eapply bitfield_exec_read. }
  destruct (visible s k) as [v|] eqn:Hvis; [inversion Hf as [|o v' Hv Hin]|inversion Hf]; subst.
  - destruct v as [bs|t d]; cbn [not_string].
    + rewrite bind_assoc_run, (bind_run _ _ _ _ _ (checkType_string _ _ c o bs Hok1 Hin Hv)). run.
      unfold addReplyMultiBulkLen, addReply, upd_client. run. erewrite bind_run by (by apply (Hexec eq_refl 0 [_])). cbn [Z.eqb negb].
      eexists. split; [done|]. by apply outcome_lookup.
    + rewrite bind_assoc_run, (bind_run _ _ _ _ _ (checkType_wrong _ _ c o t d Hok1 Hin Hv)). eexists. split; [done|]. by apply outcome_lookup.
  - run. unfold addReplyMultiBulkLen, addReply, upd_client. run. erewrite bind_run by (by apply (Hexec eq_refl 0 [_])). cbn [Z.eqb negb].
    eexists. split; [done|]. by apply outcome_lookup.
Qed.

(** ** Application to a concrete state *)

Module Applied.
Import SampleState.Sample.

(** INCRBY of the second byte of "a" by 1, and GET of it. *)
Definition sample_argv : list oid := [o_cmd; o_a; o_incrby; o_i8; o_hash1; o_one; o_get; o_i8; o_hash1].
Definition sample_names : list sds := codes <$> ["incrby"; "i8"; "#1"; "1"; "get"; "i8"; "#1"]%string.
Definition sample_ops : list bitfieldOp :=
  [BitfieldOp 8 1 BITFIELDOP_INCRBY BFOVERFLOW_WRAP 8 true; BitfieldOp 8 0 BITFIELDOP_GET BFOVERFLOW_WRAP 8 true].

Lemma sample_syntax : bf_syntax BFOVERFLOW_WRAP sample_names sample_ops.
Proof.
  assert (field_type (codes "i8") true 8) as Ht by (exists (codes "8"); by split_and!).
  assert (field_offset (codes "#1") 8 8) as Ho by (split; [lia|]; right; by exists 1).
  apply syntax_incrby; [reflexivity|done|done|reflexivity|by split|].
  apply syntax_get; [reflexivity|done|done|apply syntax_end].
Qed.

Lemma bitfieldCommand_runs_witness :
  exists s', bitfieldCommand 1 sample_argv s1 = Some (sample_argv, s') /\
    bitfield_outcome s1 1 (0, [97]) (sample_argv ++ rest1 sample_argv)%list sample_ops s'.
Proof.
  apply (bitfieldCommand_runs s1 1 client0 sample_argv (rest1 sample_argv) [97] sample_names sample_ops).
  - reflexivity.
  - apply ok_argv1. vm_compute. reflexivity.
  - arg.
  - repeat constructor.
  - apply sample_syntax.
  - repeat constructor; intros; try discriminate; vm_compute; discriminate.
  - intros bs [= <-]. vm_compute. reflexivity.
Defined.
End Applied.
