(* ===== verification/MultiSpec.v ===== *)
(** * Optimistic locking (specification of Multi.v)

    The two tables of watched keys, per database and per client, are kept in agreement, with
    exact reference counts; a transaction whose watched keys were touched does not run. *)

From S2P Require Import Prelude Util Sds State Object Server Db DbSpec Outcome SampleState TString Multi.

(** ** The references the server holds besides the databases *)

Definition table_refs (m : gmap (Z * sds) (oid * list Z)) : list oid := (map_to_list m).*2.*1.
Definition client_refs (cl : client) : list oid := (wk_key <$> watched cl) ++ queue_refs (mstate cl).
Definition clients_refs (m : gmap Z client) : list oid := (map_to_list m).*2 ≫= client_refs.

Definition held (s : server) : list oid := table_refs (watched_keys s) ++ clients_refs (clients s).

Lemma table_refs_delete m k ko cs :
  m !! k = Some (ko, cs) -> table_refs m ≡ₚ ko :: table_refs (delete k m).
Proof. intros Hk. unfold table_refs. by rewrite <- (map_to_list_delete m k (ko, cs) Hk). Qed.

Lemma table_refs_insert_new m k ko cs : m !! k = None -> table_refs (<[k:=(ko, cs)]> m) ≡ₚ ko :: table_refs m.
Proof. intros Hk. unfold table_refs. by rewrite map_to_list_insert by done. Qed.

Lemma table_refs_insert m k ko cs cs' :
  m !! k = Some (ko, cs) -> table_refs (<[k:=(ko, cs')]> m) ≡ₚ table_refs m.
Proof.
  intros Hk. rewrite <- (insert_delete_eq m). rewrite table_refs_insert_new by apply lookup_delete_eq.
  by rewrite <- (table_refs_delete m k ko cs Hk).
Qed.

Lemma clients_refs_delete m c cl : m !! c = Some cl -> clients_refs m ≡ₚ client_refs cl ++ clients_refs (delete c m).
Proof.
  intros Hc. unfold clients_refs. rewrite <- (map_to_list_delete m c cl Hc). done.
Qed.

Lemma clients_refs_insert m c cl cl' :
  m !! c = Some cl -> clients_refs (<[c:=cl']> m) ≡ₚ client_refs cl' ++ clients_refs (delete c m).
Proof.
  intros Hc. rewrite <- (insert_delete_eq m). unfold clients_refs. rewrite map_to_list_insert by apply lookup_delete_eq. done.
Qed.

Lemma alter_at (m : gmap Z client) c cl f : m !! c = Some cl -> alter f c m = <[c:=f cl]> m.
Proof. intros Hc. rewrite <- (insert_id m c cl Hc) at 1. apply alter_insert_eq. Qed.

(** ** Agreement of the two tables *)

Lemma key_name_run s o n : name_at (st s) o = Some n -> key_name o s = Some (n, s).
Proof.
  unfold name_at, key_name. destruct (obj_at (st s) o) as [r|] eqn:Hr; [|done]. intros Hn.
  erewrite bind_run by (apply in_store_same; unfold obj; run; by apply lift_run). by apply lift_run.
Qed.

Definition wk_name (t : store) (wk : watchedKey) : option (Z * sds) := pair (wk_db wk) <$> name_at t (wk_key wk).

(** The keys a client watches, in the order in which it asked for them. *)
Definition watching (t : store) (cl : client) : option (list (Z * sds)) := mapM (wk_name t) (watched cl).

Record watch_ok (s : server) : Prop := {
  wo_client : forall c cl, clients s !! c = Some cl ->
    exists ks, watching (st s) cl = Some ks /\ NoDup ks /\ (forall k, c ∈ watchers s k <-> k ∈ ks);
  wo_table : forall k ko cs, watched_keys s !! k = Some (ko, cs) ->
    cs <> [] /\ NoDup cs /\ (forall c, c ∈ cs -> is_Some (clients s !! c))
}.

Lemma watching_ext t t' cl :
  (forall o, o ∈ wk_key <$> watched cl -> name_at t' o = name_at t o) -> watching t' cl = watching t cl.
Proof.
  intros Hn. unfold watching. induction (watched cl) as [|wk l IH]; [done|]. cbn in *.
  assert (wk_name t' wk = wk_name t wk) as -> by (unfold wk_name; rewrite Hn; [done|set_solver]).
  rewrite IH; [done|]. intros o Ho. apply Hn. set_solver.
Qed.

Lemma client_held s c cl o : clients s !! c = Some cl -> o ∈ client_refs cl -> o ∈ held s.
Proof.
  intros Hc Ho. unfold held. apply elem_of_app. right. rewrite (clients_refs_delete _ _ _ Hc). apply elem_of_app. by left.
Qed.

Lemma watched_held s c cl o : clients s !! c = Some cl -> o ∈ wk_key <$> watched cl -> o ∈ held s.
Proof. intros Hc Ho. eapply client_held; [done|]. apply elem_of_app. by left. Qed.

(** ** Steps that change the tables of watched keys *)

(** The references stay exact, the tables agree, and the databases and the objects of [E] keep
    their values. *)
Record lock_step (E : list oid) (s s' : server) : Prop := {
  ls_ok : store_ok (st s') (held s' ++ E)%list;
  ls_watch : watch_ok s';
  ls_conf : conf s' = conf s;
  ls_dirty : dirty s' = dirty s;
  ls_propagated : propagated s' = propagated s;
  ls_view : forall k, view (st s') k = view (st s) k;
  ls_expires : expires (st s') = expires (st s);
  ls_kept : kept E (st s) (st s')
}.

Lemma lock_step_trans E s1 s2 s3 : lock_step E s1 s2 -> lock_step E s2 s3 -> lock_step E s1 s3.
Proof.
  intros [A1 A2 A3 A4 A5 A6 A7 A8] [B1 B2 B3 B4 B5 B6 B7 B8]. split; try congruence; try done. by eapply kept_trans.
Qed.

Lemma remove_first_spec c cs :
  c ∈ cs -> NoDup cs -> exists cs', remove_first c cs = Some cs' /\ NoDup cs' /\ (forall d, d ∈ cs' <-> d ∈ cs /\ d <> c).
Proof.
  induction cs as [|d cs IH]; intros Hc Hnd; [by apply elem_of_nil in Hc|]. cbn.
  apply NoDup_cons in Hnd as [Hd Hnd]. destruct (Z.eqb_spec d c) as [->|Hne].
  - exists cs. split_and!; [done|done|]. intros e. set_solver.
  - destruct IH as (cs' & -> & Hnd' & He); [set_solver|done|]. exists (d :: cs'). split; [done|]. split.
    + apply NoDup_cons. split; [|done]. rewrite He. tauto.
    + intros e. rewrite !elem_of_cons, He. split; [|tauto]. intros [->|[? ?]]; [by split; [left|]|tauto].
Qed.

(** [k] is taken from the keys of the client [c]: the entry of the table loses [c]. *)
Lemma watch_ok_remove s s' c cl l k ks :
  watch_ok s -> clients s !! c = Some cl -> watching (st s) cl = Some (k :: ks) ->
  clients s' = <[c:=set_watched l cl]> (clients s) ->
  (forall d, d ∈ watchers s' k <-> d ∈ watchers s k /\ d <> c) -> (forall k', k' <> k -> watchers s' k' = watchers s k') ->
  (forall k' ko cs, watched_keys s' !! k' = Some (ko, cs) -> cs <> [] /\ NoDup cs) ->
  watching (st s') (set_watched l cl) = Some ks ->
  (forall d dl, d <> c -> clients s !! d = Some dl -> watching (st s') dl = watching (st s) dl) ->
  watch_ok s'.
Proof.
  intros [Wc Wt] Hc Hks Hcl Hk Hother Htab Hks' Hd.
  assert (forall k' d, d ∈ watchers s' k' -> d ∈ watchers s k') as Hsub.
  { intros k' d Hd'. destruct (decide (k' = k)) as [->|Hne]; [by apply Hk|by rewrite <- Hother]. }
  split.
  - intros d dl Hdl. rewrite Hcl in Hdl. destruct (decide (d = c)) as [->|Hne].
    + rewrite lookup_insert_eq in Hdl. injection Hdl as <-. exists ks. destruct (Wc c cl Hc) as (ks0 & E0 & Hnd & Hiff).
      rewrite Hks in E0. injection E0 as <-. apply NoDup_cons in Hnd as [Hnk Hnd]. split_and!; [done..|].
      intros k'. destruct (decide (k' = k)) as [->|Hne]; [rewrite Hk; set_solver|]. rewrite Hother, Hiff by done. set_solver.
    + rewrite lookup_insert_ne in Hdl by done. destruct (Wc d dl Hdl) as (ks0 & E0 & Hnd & Hiff).
      exists ks0. split_and!; [by rewrite (Hd d dl Hne Hdl)|done|]. intros k'. rewrite <- Hiff.
      destruct (decide (k' = k)) as [->|Hne']; [rewrite Hk; tauto|by rewrite Hother].
  - intros k' ko cs Hl. destruct (Htab k' ko cs Hl) as [? ?]. split_and!; [done..|]. intros d Hd'.
    assert (d ∈ watchers s k') as Hdw by (apply Hsub; unfold watchers; by rewrite Hl).
    unfold watchers in Hdw. destruct (watched_keys s !! k') as [[ko' cs']|] eqn:Hl'; [|by apply elem_of_nil in Hdw].
    destruct (Wt k' ko' cs' Hl') as (_ & _ & Hall). rewrite Hcl. apply lookup_insert_is_Some.
    destruct (decide (c = d)); [by left|right; auto].
Qed.

Lemma watchers_entry s k c :
  c ∈ watchers s k -> exists ko cs, watched_keys s !! k = Some (ko, cs) /\ watchers s k = cs /\ c ∈ cs.
Proof.
  unfold watchers. destruct (watched_keys s !! k) as [[ko cs]|]; [|by intros ?%elem_of_nil].
  intros Hc. by exists ko, cs.
Qed.

(** Dropping the reference of the table, if its entry goes, and that of the client. *)
Lemma drop_refs (gone : bool) ko wo R t :
  store_ok t (if gone then ko :: wo :: R else wo :: R) ->
  exists t', (_ ← (if gone then decrRefCount ko else mret tt); decrRefCount wo) t = Some (tt, t') /\
    store_ok t' R /\ heap_step (refs t R) t t'.
Proof.
  intros Hok. destruct gone.
  - destruct (decrRefCount_spec t (wo :: R) ko Hok) as (t1 & H1 & Hok1 & Hd1 & Hx1 & Hk1).
    erewrite bind_run by exact H1. destruct (decrRefCount_spec t1 R wo Hok1) as (t2 & H2 & Hok2 & Hd2 & Hx2 & Hk2).
    exists t2. split; [done|]. split; [done|]. split; [congruence|]. split; [congruence|].
    eapply kept_trans; [eapply kept_mono; [exact Hk1|apply refs_cons_sub]|].
    unfold refs in *. by rewrite Hd1 in Hk2.
  - destruct (decrRefCount_spec t R wo Hok) as (t2 & H2 & Hok2 & Hst). by exists t2.
Qed.

Definition table_without (k : Z * sds) (ko : oid) (cs : list Z) (m : gmap (Z * sds) (oid * list Z)) :
    gmap (Z * sds) (oid * list Z) :=
  match cs with [] => delete k m | _ => <[k := (ko, cs)]> m end.

(** The state after one iteration of the loop of [unwatchAllKeys]. *)
Definition unwatched (s : server) (c : Z) (l : list watchedKey) k ko cs (t : store) : server :=
  with_st t (upd_clients (alter (set_watched l) c) (upd_watched_keys (table_without k ko cs) s)).

Lemma held_unwatched s c cl wk l k ko cs cs' t :
  clients s !! c = Some cl -> watched cl = wk :: l -> watched_keys s !! k = Some (ko, cs) ->
  held s ≡ₚ (if decide (cs' = []) then ko :: wk_key wk :: held (unwatched s c l k ko cs' t)
             else wk_key wk :: held (unwatched s c l k ko cs' t)).
Proof.
  intros Hc Hw Hk. unfold held, unwatched. cbn. rewrite (alter_at _ _ _ _ Hc).
  assert (clients_refs (clients s) ≡ₚ wk_key wk :: clients_refs (<[c:=set_watched l cl]> (clients s))) as Hcr.
  { rewrite (clients_refs_delete _ _ _ Hc), (clients_refs_insert _ _ _ (set_watched l cl) Hc). unfold client_refs at 1. by rewrite Hw. }
  destruct cs' as [|d cs']; cbn [table_without].
  - rewrite decide_True by done. rewrite (table_refs_delete _ _ _ _ Hk), Hcr. cbn. by rewrite <- Permutation_middle.
  - rewrite decide_False by done. rewrite (table_refs_insert _ _ _ _ (d :: cs') Hk), Hcr. by rewrite <- Permutation_middle.
Qed.

Lemma watchers_unwatched s c l k ko cs t k' :
  watchers (unwatched s c l k ko cs t) k' = if decide (k' = k) then cs else watchers s k'.
Proof.
  unfold watchers, unwatched. cbn. destruct (decide (k' = k)) as [->|Hne]; destruct cs; cbn [table_without].
  - by rewrite lookup_delete_eq.
  - by rewrite lookup_insert_eq.
  - by rewrite lookup_delete_ne.
  - by rewrite lookup_insert_ne.
Qed.

Lemma unwatched_table s c l k ko cs t k' ko' cs' :
  watch_ok s -> NoDup cs -> watched_keys (unwatched s c l k ko cs t) !! k' = Some (ko', cs') -> cs' <> [] /\ NoDup cs'.
Proof.
  intros [_ Wt] Hnd. unfold unwatched. cbn. destruct cs as [|d cs]; cbn [table_without].
  - intros [_ Hl]%lookup_delete_Some. by destruct (Wt k' ko' cs' Hl) as (? & ? & _).
  - intros [[<- [= <- <-]]|[_ Hl]]%lookup_insert_Some; [done|]. by destruct (Wt k' ko' cs' Hl) as (? & ? & _).
Qed.

Lemma unwatch_one s E c cl wk l :
  clients s !! c = Some cl -> watched cl = wk :: l -> watch_ok s -> store_ok (st s) (held s ++ E)%list ->
  exists s1, (forall K, (name ← key_name (wk_key wk);
      s ← get;
      '(ko, cs) ← lift (watched_keys s !! (wk_db wk, name));
      cs ← lift (remove_first c cs);
      _ ← (match cs with
           | [] => _ ← modify (upd_watched_keys (delete (wk_db wk, name))); in_store (decrRefCount ko)
           | _ => modify (upd_watched_keys (insert (wk_db wk, name) (ko, cs)))
           end);
      _ ← upd_client c (set_watched l);
      _ ← in_store (decrRefCount (wk_key wk));
      K) s = (K : M unit) s1) /\
    lock_step E s s1 /\ clients s1 = <[c:=set_watched l cl]> (clients s) /\
    (forall k d, d <> c -> d ∈ watchers s1 k <-> d ∈ watchers s k).
Proof.
  intros Hc Hw Hwo Hok. destruct (wo_client _ Hwo c cl Hc) as (ks & Hks & Hnd & Hiff).
  unfold watching in Hks. rewrite Hw in Hks. cbn in Hks.
  destruct (wk_name (st s) wk) as [k|] eqn:Hname; [|done]. cbn in Hks.
  destruct (mapM (wk_name (st s)) l) as [ks'|] eqn:Hl; [|done]. cbn in Hks. injection Hks as <-.
  unfold wk_name in Hname. destruct (name_at (st s) (wk_key wk)) as [name|] eqn:Hn; [|done]. injection Hname as <-.
  destruct (watchers_entry s (wk_db wk, name) c) as (ko & cs & Hk & Hcs & Hin); [apply Hiff; set_solver|].
  destruct (wo_table _ Hwo _ _ _ Hk) as (_ & Hnd' & _). destruct (remove_first_spec c cs Hin Hnd') as (cs' & Hrm & Hnd'' & Hmem).
  set (R := (held (unwatched s c l (wk_db wk, name) ko cs' (st s)) ++ E)%list).
  destruct (drop_refs (bool_decide (cs' = [])) ko (wk_key wk) R (st s)) as (t & Hdrop & Hok1 & Hst).
  { eapply store_ok_perm; [|exact Hok]. rewrite (held_unwatched s c cl wk l _ ko cs cs' (st s) Hc Hw Hk).
    destruct (decide (cs' = [])); [rewrite bool_decide_true by done|rewrite bool_decide_false by done]; reflexivity. }
  exists (unwatched s c l (wk_db wk, name) ko cs' t). split; [|split; [|split]].
  - intros K. erewrite bind_run by (by apply key_name_run). run. unfold upd_client. destruct cs' as [|d cs'].
    + apply bind_inv in Hdrop as ([] & t1 & H1 & H2). erewrite bind_run.
      2:{ run. apply in_store_run. exact H1. }
      run. by erewrite bind_run by (by apply in_store_run).
    + run. apply bind_inv in Hdrop as ([] & t1 & [= <-] & H2). by erewrite bind_run by (by apply in_store_run).
  - assert (forall o, o ∈ R -> name_at t o = name_at (st s) o) as Hnames.
    { intros o Ho. eapply kept_name; [apply Hst|]. by apply refs_ext. }
    assert (clients (unwatched s c l (wk_db wk, name) ko cs' t) = <[c:=set_watched l cl]> (clients s)) as Hcl' by (by apply alter_at).
    assert (forall d dl o, clients (unwatched s c l (wk_db wk, name) ko cs' t) !! d = Some dl ->
      o ∈ wk_key <$> watched dl -> o ∈ R) as Hheld.
    { intros d dl o Hd Ho. apply elem_of_app. left. by eapply (watched_held (unwatched s c l (wk_db wk, name) ko cs' t)). }
    split; try done.
    + eapply (watch_ok_remove s _ c cl l (wk_db wk, name) ks' Hwo Hc); try done.
      * unfold watching. rewrite Hw. cbn [mapM].
        assert (wk_name (st s) wk = Some (wk_db wk, name)) as -> by (unfold wk_name; by rewrite Hn). cbn. by rewrite Hl.
      * intros d. by rewrite watchers_unwatched, decide_True, Hmem, Hcs by done.
      * intros k' Hne. by rewrite watchers_unwatched, decide_False.
      * intros k' ko' cs2 Htab. by eapply unwatched_table.
      * rewrite <- Hl. apply (watching_ext (st s) t (set_watched l cl)). intros o Ho. apply Hnames.
        eapply (Hheld c); [|exact Ho]. by rewrite Hcl', lookup_insert_eq.
      * intros d dl Hne Hd. apply watching_ext. intros o Ho. apply Hnames. eapply (Hheld d); [|exact Ho].
        by rewrite Hcl', lookup_insert_ne.
    + intros k'. by eapply heap_step_view.
    + apply Hst.
    + eapply kept_mono; [apply Hst|]. intros o Ho. apply refs_ext, elem_of_app. by right.
  - cbn. by apply alter_at.
  - intros k' d Hne. rewrite watchers_unwatched. destruct (decide (k' = _)) as [->|]; [|done].
    rewrite Hmem, Hcs. tauto.
Qed.

(** [unwatchAllKeys] takes the client out of both tables, and nothing else. *)
Lemma unwatch_loop_spec E c l : forall s cl,
  clients s !! c = Some cl -> watched cl = l -> watch_ok s -> store_ok (st s) (held s ++ E)%list ->
  exists s', unwatch_loop c l s = Some (tt, s') /\ lock_step E s s' /\
    clients s' = <[c:=set_watched [] cl]> (clients s) /\
    (forall k d, d <> c -> d ∈ watchers s' k <-> d ∈ watchers s k) /\ (forall k, c ∉ watchers s' k).
Proof.
  induction l as [|wk l IH]; intros s cl Hc Hw Hwo Hok; cbn [unwatch_loop].
  - exists s. split; [done|]. split.
    { split; try done. intros o Ho. destruct (ok_live _ _ Hok o) as [r Hr]; [apply refs_ext, elem_of_app; by right|]. by exists r, r. }
    split; [|split; [done|]].
    + replace (set_watched [] cl) with cl; [by rewrite insert_id|]. destruct cl; cbn in *. by subst.
    + intros k Hk. destruct (wo_client _ Hwo c cl Hc) as (ks & Hks & _ & Hiff). apply Hiff in Hk.
      unfold watching in Hks. rewrite Hw in Hks. injection Hks as <-. by apply elem_of_nil in Hk.
  - destruct (unwatch_one s E c cl wk l Hc Hw Hwo Hok) as (s1 & Hrun & Hls & Hcl & Hmem).
    rewrite Hrun. destruct (IH s1 (set_watched l cl)) as (s' & Hrun' & Hls' & Hcl' & Hmem' & Hnone); [|done|apply Hls|apply Hls|].
    { by rewrite Hcl, lookup_insert_eq. }
    exists s'. split; [done|]. split; [by eapply lock_step_trans|]. split; [|split; [|done]].
    + rewrite Hcl', Hcl, insert_insert_eq. by destruct cl.
    + intros k d Hne. by rewrite Hmem', Hmem.
Qed.

(** ** Ending a transaction *)

(** A client outside of MULTI, with an empty queue, that watches no key. *)
Definition reset (cl : client) : client :=
  set_watched [] (set_multi false (set_dirty_cas false (set_dirty_exec false (set_mstate [] cl)))).

Lemma free_queue q : forall s E,
  store_ok (st s) (queue_refs q ++ E)%list ->
  exists t, for_each (fun mc => in_store (for_each decrRefCount mc.2)) q s = Some (tt, with_st t s) /\
    store_ok t E /\ heap_step (refs (st s) E) (st s) t.
Proof.
  induction q as [|[cmd argv] q IH]; intros s E Hok; cbn [for_each].
  { exists (st s). rewrite with_st_id. split; [done|]. split; [done|]. split; [done|]. split; [done|]. by apply kept_refl. }
  change (queue_refs ((cmd, argv) :: q)) with (argv ++ queue_refs q)%list in Hok. rewrite <- app_assoc in Hok.
  destruct (decr_all argv (st s) _ Hok) as (t1 & Hrun & Hok1 & Hst1).
  erewrite bind_run by (by apply in_store_run).
  destruct (IH (with_st t1 s) E Hok1) as (t2 & Hrun2 & Hok2 & Hst2). exists t2. rewrite Hrun2.
  split; [done|]. split; [done|]. eapply heap_step_trans; [|exact Hst1|exact Hst2]. set_solver.
Qed.

(** A step on the heap and on the queue and the flags of a client keeps the agreement of the tables. *)
Lemma watch_ok_client s c cl f t :
  watch_ok s -> clients s !! c = Some cl -> watched (f cl) = watched cl ->
  (forall o, o ∈ held (with_st t (upd_clients (alter f c) s)) -> name_at t o = name_at (st s) o) ->
  watch_ok (with_st t (upd_clients (alter f c) s)).
Proof.
  intros [Wc Wt] Hc Hf Hn. set (s' := with_st t (upd_clients (alter f c) s)) in *.
  assert (clients s' = <[c:=f cl]> (clients s)) as Hcl by (by apply alter_at).
  assert (forall d dl, clients s' !! d = Some dl -> exists dl', clients s !! d = Some dl' /\ watched dl = watched dl') as Hback.
  { intros d dl. rewrite Hcl, lookup_insert_Some. intros [[<- <-]|[_ Hd]]; [by exists cl|by exists dl]. }
  split.
  - intros d dl Hd. destruct (Hback d dl Hd) as (dl' & Hd' & Hw). destruct (Wc d dl' Hd') as (ks & Hks & Hnd & Hiff).
    exists ks. split_and!; [|done|done]. rewrite <- Hks. unfold watching at 2. rewrite <- Hw. apply (watching_ext (st s) t dl).
    intros o Ho. apply Hn. by eapply watched_held.
  - intros k ko cs Hk. destruct (Wt k ko cs Hk) as (? & ? & Hall). split_and!; [done..|]. intros d Hd.
    rewrite Hcl. apply lookup_insert_is_Some. destruct (decide (c = d)); [by left|right; auto].
Qed.

Lemma discardTransaction_spec s E c cl :
  clients s !! c = Some cl -> watch_ok s -> store_ok (st s) (held s ++ E)%list ->
  exists s', discardTransaction c s = Some (tt, s') /\ lock_step E s s' /\
    clients s' = <[c:=reset cl]> (clients s) /\
    (forall k d, d <> c -> d ∈ watchers s' k <-> d ∈ watchers s k) /\ (forall k, c ∉ watchers s' k).
Proof.
  intros Hc Hwo Hok. set (f := fun cl => set_multi false (set_dirty_cas false (set_dirty_exec false (set_mstate [] cl)))).
  set (R := (held (upd_clients (alter f c) s) ++ E)%list).
  assert (held s ++ E ≡ₚ queue_refs (mstate cl) ++ R)%list as HR.
  { unfold R, held. cbn. rewrite (alter_at _ _ _ _ Hc), (clients_refs_delete _ _ _ Hc), (clients_refs_insert _ _ _ _ Hc).
    unfold client_refs. cbn. rewrite !app_nil_r, <- !app_assoc.
    etrans; [|apply Permutation_app_swap_app]. apply Permutation_app_head, Permutation_app_swap_app. }
  rewrite HR in Hok. destruct (free_queue (mstate cl) s R Hok) as (t & Hfree & Hok1 & Hst).
  unfold discardTransaction. erewrite bind_run.
  2:{ unfold freeClientMultiState. erewrite bind_run by (unfold this_client; run; by apply lift_run). exact Hfree. }
  unfold initClientMultiState, upd_client. run.
  match goal with |- context [unwatchAllKeys c ?u] => set (s1 := u) end.
  assert (s1 = with_st t (upd_clients (alter f c) s)) as Hs1.
  { unfold s1, with_st, upd_st, upd_clients. cbn. by rewrite (alter_at _ _ _ _ Hc), alter_insert_eq, (alter_at _ _ _ f Hc). }
  clearbody s1. subst s1. set (s1 := with_st t (upd_clients (alter f c) s)) in *.
  assert (clients s1 = <[c:=f cl]> (clients s)) as Hcl1 by (by apply alter_at).
  assert (watch_ok s1) as Hwo1.
  { apply (watch_ok_client s c cl f t Hwo Hc); [done|]. intros o Ho. eapply kept_name; [apply Hst|].
    apply refs_ext, elem_of_app. by left. }
  assert (clients s1 !! c = Some (f cl)) as Hc1 by (by rewrite Hcl1, lookup_insert_eq).
  destruct (unwatch_loop_spec E c (watched (f cl)) s1 (f cl) Hc1 eq_refl Hwo1 Hok1) as (s' & Hrun & Hls & Hcl' & Hmem & Hnone).
  exists s'. split.
  { unfold unwatchAllKeys. erewrite bind_run by (unfold this_client; run; by apply lift_run). exact Hrun. }
  split; [|split; [|split; [exact Hmem|exact Hnone]]].
  - eapply lock_step_trans; [|exact Hls]. split; try done.
    + intros k. by eapply heap_step_view.
    + apply Hst.
    + eapply kept_mono; [apply Hst|]. intros o Ho. apply refs_ext, elem_of_app. by right.
  - rewrite Hcl', Hcl1, insert_insert_eq. by destruct cl.
Qed.

(** A reply does not touch the tables. *)
Lemma says_step E s c cl rs :
  clients s !! c = Some cl -> watch_ok s -> store_ok (st s) (held s ++ E)%list ->
  watch_ok (upd_clients (alter (says rs) c) s) /\ store_ok (st s) (held (upd_clients (alter (says rs) c) s) ++ E)%list.
Proof.
  intros Hc Hwo Hok. split.
  - rewrite <- (with_st_id (upd_clients (alter (says rs) c) s)). by apply (watch_ok_client s c cl).
  - eapply store_ok_perm; [|exact Hok]. apply Permutation_app_tail. unfold held. cbn. apply Permutation_app_head.
    by rewrite (alter_at _ _ _ _ Hc), (clients_refs_delete _ _ _ Hc), (clients_refs_insert _ _ _ _ Hc).
Qed.

(** EXEC of a transaction that was flagged replies with nil, or with EXECABORT after an error in the
    queue, and runs no command: the databases, the number of changes and the
    propagated commands stay as they are. The client leaves MULTI with an empty queue
    and watches no key, other clients keep their watches, and the references of the
    queue and of the watched keys are released. *)
Lemma exec_abort_spec s c cl argv F :
  clients s !! c = Some cl -> CLIENT_MULTI cl = true -> CLIENT_DIRTY_CAS cl || CLIENT_DIRTY_EXEC cl = true ->
  watch_ok s -> store_ok (st s) (held s ++ argv ++ F)%list ->
  exists s', execCommand c argv s = Some (argv, s') /\ lock_step (argv ++ F)%list s s' /\
    clients s' = <[c := says [if CLIENT_DIRTY_EXEC cl then R_execaborterr else R_nullmultibulk] (reset cl)]> (clients s) /\
    (forall k, (c ∉ watchers s' k) /\ forall d, d <> c -> d ∈ watchers s' k <-> d ∈ watchers s k).
Proof.
  intros Hc Hm Hd Hwo Hok. unfold execCommand. erewrite bind_run by (unfold this_client; run; by apply lift_run).
  rewrite Hm, Hd. cbn [negb]. set (r := if CLIENT_DIRTY_EXEC cl then R_execaborterr else R_nullmultibulk).
  rewrite (bind_run (addReply c r) _ s tt (upd_clients (alter (says [r]) c) s)) by done.
  destruct (says_step (argv ++ F)%list s c cl [r] Hc Hwo Hok) as [Hwo1 Hok1].
  set (s1 := upd_clients (alter (says [r]) c) s) in *.
  assert (clients s1 = <[c:=says [r] cl]> (clients s)) as Hcl1 by (by apply alter_at).
  destruct (discardTransaction_spec s1 (argv ++ F)%list c (says [r] cl)) as (s' & Hrun & Hls & Hcl & Hmem & Hnone); [|done..|].
  { by rewrite Hcl1, lookup_insert_eq. }
  erewrite bind_run by exact Hrun. exists s'. split; [done|]. split; [|split].
  - destruct Hls. by split.
  - rewrite Hcl, Hcl1, insert_insert_eq. done.
  - intros k. split; [done|]. intros d Hne. by rewrite Hmem.
Qed.

(** ** Watching *)

(** The watched keys of a client are strings shorter than 2 GB. *)
Definition names_small (s : server) : Prop :=
  forall c cl wk, clients s !! c = Some cl -> wk ∈ watched cl ->
    exists n, name_at (st s) (wk_key wk) = Some n /\ zlen n < 2 ^ 31.

Lemma name_val t o n : name_at t o = Some n -> val_at t o = Some (VStr n).
Proof.
  unfold name_at, val_at, val_of, as_sds. destruct (obj_at t o) as [r|]; [|done]. cbn.
  destruct (ptr r); try done. by intros [= ->].
Qed.

Lemma already_watched_spec t E db key n l ks :
  store_ok t E -> key ∈ E -> (wk_key <$> l) ⊆ E -> name_at t key = Some n -> zlen n < 2 ^ 31 ->
  mapM (wk_name t) l = Some ks ->
  (forall wk, wk ∈ l -> exists m, name_at t (wk_key wk) = Some m /\ zlen m < 2 ^ 31) ->
  already_watched db key l t = Some (bool_decide ((db, n) ∈ ks), t).
Proof.
  intros Hok Hkey. revert ks. induction l as [|wk l IH]; intros ks Hsub Hn Hsmall Hks Hl; cbn [already_watched].
  { injection Hks as <-. by rewrite bool_decide_false by apply not_elem_of_nil. }
  destruct (Hl wk) as (m & Hm & Hms); [set_solver|].
  cbn [mapM] in Hks. assert (wk_name t wk = Some (wk_db wk, m)) as Hwk by (unfold wk_name; by rewrite Hm).
  rewrite Hwk in Hks. cbn in Hks. destruct (mapM (wk_name t) l) as [ks'|] eqn:Hks'; [|done]. injection Hks as <-.
  assert (already_watched db key l t = Some (bool_decide ((db, n) ∈ ks'), t)) as Hrec.
  { apply IH; [set_solver|done..|]. intros. apply Hl. set_solver. }
  destruct (Z.eqb_spec (wk_db wk) db) as [<-|Hne].
  - erewrite bind_run.
    2:{ eapply equalStringObjects_spec; [exact Hok|by apply refs_ext|apply refs_ext, Hsub; set_solver|by apply name_val|by apply name_val|done..]. }
    destruct (decide (n = m)) as [->|Hnm].
    + rewrite bool_decide_true by done. by rewrite bool_decide_true by set_solver.
    + rewrite bool_decide_false by done. rewrite Hrec. do 2 f_equal. apply bool_decide_ext. set_solver.
  - rewrite Hrec. do 2 f_equal. apply bool_decide_ext. set_solver.
Qed.

(** The state in which the client [c] watches one more key. *)
Definition watching_too (s : server) (c db : Z) (n : sds) (key ko : oid) (t : store) : server :=
  with_st t (upd_clients (alter (fun cl => set_watched (watched cl ++ [WatchedKey key (c_db cl)])%list cl) c)
    (upd_watched_keys (insert (db, n) (ko, (watchers s (db, n) ++ [c])%list)) s)).

Lemma watchers_too s c db n key ko t k :
  watchers (watching_too s c db n key ko t) k = if decide (k = (db, n)) then (watchers s (db, n) ++ [c])%list else watchers s k.
Proof.
  unfold watchers at 1, watching_too. cbn. destruct (decide (k = (db, n))) as [->|Hne].
  - by rewrite lookup_insert_eq.
  - by rewrite lookup_insert_ne.
Qed.

Lemma watch_ok_too s c cl n key ko t ks :
  watch_ok s -> clients s !! c = Some cl -> watching (st s) cl = Some ks -> (c_db cl, n) ∉ ks ->
  let s' := watching_too s c (c_db cl) n key ko t in
  name_at t key = Some n -> (forall o, o ∈ held s -> name_at t o = name_at (st s) o) -> watch_ok s'.
Proof.
  intros [Wc Wt] Hc Hks Hnew s' Hn Hnames.
  assert (clients s' = <[c:=set_watched (watched cl ++ [WatchedKey key (c_db cl)])%list cl]> (clients s)) as Hcl by exact (alter_at _ _ _ _ Hc).
  assert (c ∉ watchers s (c_db cl, n)) as Hnot.
  { destruct (Wc c cl Hc) as (ks0 & E0 & _ & Hiff). rewrite Hks in E0. injection E0 as <-. by rewrite Hiff. }
  assert (forall d dl, clients s !! d = Some dl -> watching t dl = watching (st s) dl) as Hext.
  { intros d dl Hd. apply watching_ext. intros o Ho. apply Hnames. by eapply watched_held. }
  split.
  - intros d dl Hd. rewrite Hcl in Hd. destruct (decide (d = c)) as [->|Hne].
    + rewrite lookup_insert_eq in Hd. injection Hd as <-. destruct (Wc c cl Hc) as (ks0 & E0 & Hnd & Hiff).
      rewrite Hks in E0. injection E0 as <-. exists (ks ++ [(c_db cl, n)])%list. split_and!.
      * unfold watching in *. cbn. apply mapM_Some. rewrite <- (Hext c cl Hc) in Hks. unfold watching in Hks.
        apply mapM_Some in Hks. apply Forall2_app; [done|]. constructor; [|done]. unfold wk_name. cbn. by rewrite Hn.
      * apply NoDup_app. split_and!; [done| |apply NoDup_singleton]. set_solver.
      * intros k. unfold s'. rewrite watchers_too. destruct (decide (k = (c_db cl, n))) as [->|Hk]; [set_solver|]. rewrite Hiff. set_solver.
    + rewrite lookup_insert_ne in Hd by done. destruct (Wc d dl Hd) as (ks0 & E0 & Hnd & Hiff). exists ks0.
      split_and!; [by rewrite <- E0; apply (Hext d)|done|]. intros k. unfold s'. rewrite <- Hiff, watchers_too.
      destruct (decide (k = (c_db cl, n))) as [->|]; [|done]. set_solver.
  - intros k k' cs Hk. unfold s', watching_too in Hk. cbn in Hk. rewrite Hcl.
    assert (forall d, is_Some (clients s !! d) -> is_Some (<[c:=set_watched (watched cl ++ [WatchedKey key (c_db cl)])%list cl]> (clients s) !! d)) as Hsome.
    { intros d Hd. apply lookup_insert_is_Some. destruct (decide (c = d)); [by left|by right]. }
    apply lookup_insert_Some in Hk as [[<- [= <- <-]]|[_ Hk]].
    + assert (NoDup (watchers s (c_db cl, n)) /\ forall d, d ∈ watchers s (c_db cl, n) -> is_Some (clients s !! d)) as [Hnd Hall].
      { unfold watchers. destruct (watched_keys s !! (c_db cl, n)) as [[ko' cs']|] eqn:Hl.
        - by destruct (Wt _ _ _ Hl) as (_ & ? & ?).
        - split; [constructor|by intros d ?%elem_of_nil]. }
      split_and!; [by destruct (watchers s (c_db cl, n))| |].
      * apply NoDup_app. split_and!; [done| |apply NoDup_singleton]. set_solver.
      * intros d [Hd|Hd%list_elem_of_singleton]%elem_of_app; apply Hsome; [by apply Hall|by subst; eexists].
    + destruct (Wt _ _ _ Hk) as (? & ? & Hall). split_and!; [done..|]. intros d Hd. by apply Hsome, Hall.
Qed.

Lemma held_too s c cl n key ko t :
  clients s !! c = Some cl ->
  (ko = key /\ watched_keys s !! (c_db cl, n) = None) \/ (exists cs, watched_keys s !! (c_db cl, n) = Some (ko, cs)) ->
  held (watching_too s c (c_db cl) n key ko t) ≡ₚ
    (if watched_keys s !! (c_db cl, n) is Some _ then key :: held s else key :: key :: held s).
Proof.
  intros Hc Hko. set (cl' := set_watched (watched cl ++ [WatchedKey key (c_db cl)])%list cl).
  assert (clients_refs (clients (watching_too s c (c_db cl) n key ko t)) ≡ₚ key :: clients_refs (clients s)) as Hcr.
  { unfold watching_too. cbn. rewrite (alter_at _ _ _ _ Hc). etrans; [apply (clients_refs_insert _ _ _ cl' Hc)|].
    rewrite (clients_refs_delete _ _ _ Hc). unfold client_refs, cl'. cbn. rewrite fmap_app, <- !app_assoc. cbn.
    by rewrite <- Permutation_middle. }
  unfold held at 1. rewrite Hcr. unfold watching_too. cbn. destruct Hko as [[-> Hnone]|[cs Hsome]].
  - rewrite Hnone, (table_refs_insert_new _ _ _ _ Hnone). cbn. by rewrite <- Permutation_middle.
  - rewrite Hsome, (table_refs_insert _ _ _ _ _ Hsome). by rewrite <- Permutation_middle.
Qed.

(** The references of the table, if the entry is new, and of the client. *)
Lemma take_refs (fresh : bool) key R t :
  store_ok t R -> key ∈ R ->
  exists t', (_ ← (if fresh then incrRefCount key else mret tt); incrRefCount key) t = Some (tt, t') /\
    store_ok t' (if fresh then key :: key :: R else key :: R) /\ heap_step (refs t R) t t'.
Proof.
  intros Hok Hin. destruct fresh.
  - destruct (incrRefCount_spec t R key Hok) as (t1 & H1 & Hok1 & Hst1); [by apply refs_ext|].
    erewrite bind_run by exact H1.
    destruct (incrRefCount_spec t1 (key :: R) key Hok1) as (t2 & H2 & Hok2 & Hd2 & Hx2 & Hk2); [apply refs_ext; set_solver|].
    exists t2. split; [done|]. split; [done|]. eapply heap_step_trans; [reflexivity|exact Hst1|].
    split; [done|]. split; [done|]. eapply kept_mono; [exact Hk2|apply refs_cons_sub].
  - destruct (incrRefCount_spec t R key Hok) as (t1 & H1 & Hok1 & Hst1); [by apply refs_ext|]. by exists t1.
Qed.

Lemma names_small_too s c cl n key ko t R :
  clients s !! c = Some cl -> names_small s -> name_at (st s) key = Some n -> zlen n < 2 ^ 31 ->
  (forall o, o ∈ R -> name_at t o = name_at (st s) o) -> held s ⊆ R -> key ∈ R ->
  names_small (watching_too s c (c_db cl) n key ko t).
Proof.
  intros Hc Hsmall Hn Hlen Hnames Hheld Hkey d dl wk Hd Hwk. unfold watching_too in Hd. cbn in Hd. rewrite (alter_at _ _ _ _ Hc) in Hd.
  assert (forall d dl wk, clients s !! d = Some dl -> wk ∈ watched dl -> exists m, name_at t (wk_key wk) = Some m /\ zlen m < 2 ^ 31) as Hold.
  { intros d' dl' wk' Hd' Hwk'. rewrite Hnames; [by eapply Hsmall|]. apply Hheld.
    eapply watched_held; [done|]. by apply list_elem_of_fmap_2. }
  apply lookup_insert_Some in Hd as [[<- <-]|[_ Hd]]; [|by eapply Hold]. cbn in Hwk.
  apply elem_of_app in Hwk as [Hwk|Hwk%list_elem_of_singleton]; [by eapply Hold|subst wk]. exists n. cbn.
  by rewrite Hnames.
Qed.

(** [watchForKey] adds the key to both tables, once. *)
Lemma watchForKey_spec s E c cl key n :
  clients s !! c = Some cl -> watch_ok s -> names_small s -> store_ok (st s) (held s ++ E)%list ->
  key ∈ E -> name_at (st s) key = Some n -> zlen n < 2 ^ 31 ->
  exists s' cl', watchForKey c key s = Some (tt, s') /\ lock_step E s s' /\ names_small s' /\
    clients s' = <[c:=cl']> (clients s) /\ cl' = set_watched (watched cl') cl /\
    (forall k d, d ∈ watchers s' k <-> d ∈ watchers s k \/ (d = c /\ k = (c_db cl, n))).
Proof.
  intros Hc Hwo Hsmall Hok Hkey Hn Hlen. unfold watchForKey.
  erewrite bind_run by (unfold this_client; run; by apply lift_run).
  destruct (wo_client _ Hwo c cl Hc) as (ks & Hks & Hnd & Hiff).
  erewrite bind_run.
  2:{ apply in_store_same. eapply (already_watched_spec (st s) (held s ++ E)%list (c_db cl) key n); try done.
      - set_solver.
      - intros o Ho. apply elem_of_app. left. by eapply watched_held.
      - intros wk Hwk. by eapply Hsmall. }
  destruct (decide ((c_db cl, n) ∈ ks)) as [Hin|Hnin].
  { rewrite bool_decide_true by done. exists s, cl. split; [done|]. split.
    { split; try done. intros o Ho. destruct (ok_live _ _ Hok o) as [r Hr]; [apply refs_ext, elem_of_app; by right|]. by exists r, r. }
    split; [done|]. split; [by rewrite insert_id|]. split; [by destruct cl|]. intros k d. split; [by left|].
    intros [Hd|[-> ->]]; [done|]. by apply Hiff. }
  rewrite bool_decide_false by done.
  erewrite bind_run by (by apply key_name_run). run.
  set (ko := match watched_keys s !! (c_db cl, n) with Some (ko, _) => ko | None => key end).
  destruct (take_refs (if watched_keys s !! (c_db cl, n) is Some _ then false else true) key (held s ++ E)%list (st s) Hok)
    as (t & Hrun & Hok' & Hst); [set_solver|].
  set (s' := watching_too s c (c_db cl) n key ko t).
  assert (held s' ≡ₚ if watched_keys s !! (c_db cl, n) is Some _ then key :: held s else key :: key :: held s) as Hheld.
  { apply held_too; [done|]. unfold ko. destruct (watched_keys s !! (c_db cl, n)) as [[ko' cs]|]; [right; by eexists|by left]. }
  assert (forall o, o ∈ (held s ++ E)%list -> name_at t o = name_at (st s) o) as Hnames.
  { intros o Ho. eapply kept_name; [apply Hst|]. by apply refs_ext. }
  exists s', (set_watched (watched cl ++ [WatchedKey key (c_db cl)])%list cl). split; [|split; [|split; [|split; [|split]]]].
  - unfold s', ko, watching_too, watchers, upd_client. destruct (watched_keys s !! (c_db cl, n)) as [[ko' cs]|].
    + run. apply bind_inv in Hrun as ([] & t1 & [= <-] & H2). by erewrite bind_run by (by apply in_store_run).
    + apply bind_inv in Hrun as ([] & t1 & H1 & H2). erewrite bind_run.
      2:{ run. apply in_store_run. exact H1. }
      by erewrite bind_run by (by apply in_store_run).
  - split; try done.
    + eapply store_ok_perm; [|exact Hok']. rewrite Hheld. by destruct (watched_keys s !! (c_db cl, n)).
    + apply (watch_ok_too s c cl n key ko t ks Hwo Hc Hks Hnin).
      * rewrite Hnames by set_solver. done.
      * intros o Ho. apply Hnames. set_solver.
    + intros k. by eapply heap_step_view.
    + apply Hst.
    + eapply kept_mono; [apply Hst|]. intros o Ho. apply refs_ext. set_solver.
  - apply (names_small_too s c cl n key ko t (held s ++ E)%list); try done; set_solver.
  - exact (alter_at _ _ _ _ Hc).
  - by destruct cl.
  - intros k d. unfold s'. rewrite watchers_too. destruct (decide (k = (c_db cl, n))) as [->|Hne]; set_solver.
Qed.

Lemma watch_all E c keys names : forall s cl,
  clients s !! c = Some cl -> watch_ok s -> names_small s -> store_ok (st s) (held s ++ E)%list -> keys ⊆ E ->
  Forall2 (fun o n => name_at (st s) o = Some n /\ zlen n < 2 ^ 31) keys names ->
  exists s' cl', for_each (watchForKey c) keys s = Some (tt, s') /\ lock_step E s s' /\ names_small s' /\
    clients s' = <[c:=cl']> (clients s) /\ cl' = set_watched (watched cl') cl /\
    (forall k d, d ∈ watchers s' k <-> d ∈ watchers s k \/ (d = c /\ k ∈ pair (c_db cl) <$> names)).
Proof.
  revert names. induction keys as [|key keys IH]; intros names s cl Hc Hwo Hsmall Hok Hsub Hnames; cbn [for_each].
  { apply Forall2_nil_inv_l in Hnames as ->. exists s, cl. split; [done|]. split.
    { split; try done. eapply kept_mono; [by apply kept_refl|]. intros o Ho. apply refs_ext. set_solver. }
    split; [done|]. split; [by rewrite insert_id|]. split; [by destruct cl|]. cbn. set_solver. }
  apply Forall2_cons_inv_l in Hnames as (n & names' & [Hn Hlen] & Hnames & ->).
  destruct (watchForKey_spec s E c cl key n Hc Hwo Hsmall Hok) as (s1 & cl1 & Hrun & Hls & Hsm1 & Hcl1 & Hcl1' & Hmem); [set_solver|done..|].
  erewrite bind_run by exact Hrun.
  destruct (IH names' s1 cl1) as (s' & cl' & Hrun' & Hls' & Hsm' & Hcl' & Hcl2' & Hmem');
    [by rewrite Hcl1, lookup_insert_eq|apply Hls|done|apply Hls|set_solver| |].
  { rewrite Forall2_lookup in Hnames |- *. intros i. specialize (Hnames i).
    destruct (keys !! i) as [o|] eqn:Hi; inversion Hnames as [? m [Hm Hml]|]; constructor. split; [|done].
    rewrite (kept_name _ _ _ o (ls_kept _ _ _ Hls)); [done|]. apply list_elem_of_lookup_2 in Hi. set_solver. }
  exists s', cl'. split; [done|]. split; [by eapply lock_step_trans|]. split; [done|].
  split; [by rewrite Hcl', Hcl1, insert_insert_eq|]. split; [rewrite Hcl2', Hcl1'; by destruct cl|].
  intros k d. rewrite Hmem', Hmem. rewrite Hcl1'. cbn. set_solver.
Qed.

(** C36 WATCH adds the client to the watchers of the given keys, and nothing else: the two tables agree
    afterwards, a key that is given twice or already watched is entered once, and the
    references to the names are counted. The client is not in MULTI, where WATCH is refused, and the names
    have fewer than 2^31 bytes. *)
Theorem watchCommand_watches s c cl argv F names :
  clients s !! c = Some cl -> CLIENT_MULTI cl = false ->
  watch_ok s -> names_small s -> store_ok (st s) (held s ++ argv ++ F)%list ->
  Forall2 (fun o n => name_at (st s) o = Some n /\ zlen n < 2 ^ 31) (tail argv) names ->
  exists s' cl', watchCommand c argv s = Some (argv, s') /\ lock_step (argv ++ F)%list s s' /\
    clients s' = <[c := says [R_ok] cl']> (clients s) /\ cl' = set_watched (watched cl') cl /\
    (forall k d, d ∈ watchers s' k <-> d ∈ watchers s k \/ (d = c /\ k ∈ pair (c_db cl) <$> names)).
Proof.
  intros Hc Hm Hwo Hsmall Hok Hnames. unfold watchCommand.
  erewrite bind_run by (unfold this_client; run; by apply lift_run). rewrite Hm.
  destruct (watch_all (argv ++ F)%list c (tail argv) names s cl Hc Hwo Hsmall Hok) as (s1 & cl1 & Hrun & Hls & _ & Hcl1 & Hcl1' & Hmem);
    [destruct argv; set_solver|done|].
  erewrite bind_run by exact Hrun.
  assert (clients s1 !! c = Some cl1) as Hc1 by (by rewrite Hcl1, lookup_insert_eq).
  destruct (says_step (argv ++ F)%list s1 c cl1 [R_ok] Hc1 (ls_watch _ _ _ Hls) (ls_ok _ _ _ Hls)) as [Hwo2 Hok2].
  eexists _, cl1. split; [done|]. split; [|split; [|split; [done|exact Hmem]]].
  - destruct Hls. by split.
  - cbn. rewrite (alter_at _ _ _ _ Hc1), Hcl1. apply insert_insert_eq.
Qed.

(** The clients after a key is touched: same queues and watched keys. *)
Lemma touch_step E s k :
  watch_ok s -> store_ok (st s) (held s ++ E)%list ->
  let s1 := upd_clients (touch_clients (watchers s k)) s in watch_ok s1 /\ store_ok (st s1) (held s1 ++ E)%list.
Proof.
  generalize (watchers s k) as cs. intros cs. revert s. induction cs as [|d cs IH]; intros s Hwo Hok s1.
  { unfold s1. cbn. by destruct s. }
  set (s2 := upd_clients (alter (set_dirty_cas true) d) s).
  assert (watch_ok s2 /\ store_ok (st s2) (held s2 ++ E)%list) as [Hwo2 Hok2].
  { destruct (clients s !! d) as [cl|] eqn:Hd.
    - split.
      + unfold s2. rewrite <- (with_st_id (upd_clients _ s)). by apply (watch_ok_client s d cl).
      + eapply store_ok_perm; [|exact Hok]. apply Permutation_app_tail. unfold held. cbn. apply Permutation_app_head.
        by rewrite (alter_at _ _ _ _ Hd), (clients_refs_delete _ _ _ Hd), (clients_refs_insert _ _ _ _ Hd).
    - assert (s2 = s) as ->; [|done]. unfold s2, upd_clients. destruct s; cbn in *. f_equal. apply alter_id. intros x Hx. congruence. }
  destruct (IH s2 Hwo2 Hok2) as [H1 H2]. by destruct s.
Qed.

(** C14 Optimistic locking: touching a key flags every client that watches it and changes no other client nor the data. In any state that keeps the
    invariants of the tables and of the reference counts, EXEC of a client that is in a transaction and is flagged runs nothing: it replies with nil, or with
    EXECABORT when a command could not be queued, and leaves the data, the counter of changes and the commands to propagate as
    they were; the client has an empty queue, watches nothing and is not flagged any more. *)
Theorem watched_key_aborts_exec s F db key :
  watch_ok s -> store_ok (st s) (held s ++ F)%list ->
  exists s1, signalModifiedKey db key s = Some (tt, s1) /\ st s1 = st s /\ watch_ok s1 /\ store_ok (st s1) (held s1 ++ F)%list /\
    (forall c, clients s1 !! c = (if decide (c ∈ watchers s (db, key)) then set_dirty_cas true else id) <$> clients s !! c) /\
    forall s2 c cl argv F', clients s2 !! c = Some cl -> CLIENT_MULTI cl = true -> CLIENT_DIRTY_CAS cl = true ->
      watch_ok s2 -> store_ok (st s2) (held s2 ++ argv ++ F')%list ->
      exists s3, execCommand c argv s2 = Some (argv, s3) /\ lock_step (argv ++ F')%list s2 s3 /\
        clients s3 = <[c := says [if CLIENT_DIRTY_EXEC cl then R_execaborterr else R_nullmultibulk] (reset cl)]> (clients s2) /\
        forall k, c ∉ watchers s3 k.
Proof.
  intros Hwo Hok. destruct (touch_step F s (db, key) Hwo Hok) as [Hwo1 Hok1].
  exists (upd_clients (touch_clients (watchers s (db, key))) s). split; [apply signalModifiedKey_spec|]. split; [done|]. split; [done|]. split; [done|]. split.
  - intros c. cbn. rewrite touch_clients_lookup. destruct (decide _); [done|]. by destruct (clients s !! c).
  - intros s2 c cl argv F' Hc Hm Hd Hwo2 Hok2.
    destruct (exec_abort_spec s2 c cl argv F' Hc Hm ltac:(by rewrite Hd) Hwo2 Hok2) as (s3 & Hrun & Hls & Hcl & Hw). exists s3. split_and!; try done. apply Hw.
Qed.

(** ** Applications to a concrete state *)

Module Applied.
Import SampleState.Sample.

(** Client 2 has queued an INCR of "n" and watches "a". *)
Definition in_multi : client := Client 0 false true false false [(INCR, [o_xy; o_n])] [WatchedKey o_watch 0] [].
Definition s_multi : server := upd_clients (insert 2 in_multi) s0.

(** The agreement of the tables in a state whose only watched key is "a". *)
Lemma sample_watch_ok s cl2 :
  st s = t0 -> watched_keys s = watched_keys s0 -> watched cl2 = [WatchedKey o_watch 0] ->
  (forall c cl, clients s !! c = Some cl <-> (c = 1 /\ cl = client0) \/ (c = 2 /\ cl = cl2)) -> watch_ok s.
Proof.
  intros Est Ew Hw2 Hcl.
  assert (forall k, watchers s k = if decide (k = (0, [97])) then [2] else []) as Hwatch.
  { intros k. unfold watchers. rewrite Ew. destruct (decide (k = (0, [97]))) as [->|Hne]; [done|].
    cbn [watched_keys s0]. by rewrite lookup_insert_ne, lookup_empty. }
  split.
  - intros c cl [[-> ->]|[-> ->]]%Hcl; rewrite Est.
    + exists []. split; [done|]. split; [constructor|]. intros k. rewrite Hwatch. destruct (decide _); set_solver.
    + exists [(0, [97])]. split; [unfold watching; by rewrite Hw2|]. split; [apply NoDup_singleton|].
      intros k. rewrite Hwatch. destruct (decide _); set_solver.
  - intros k ko cs Hk. rewrite Ew in Hk. cbn in Hk. apply lookup_insert_Some in Hk as [[<- [= <- <-]]|[_ Hk]]; [|by rewrite lookup_empty in Hk].
    split; [done|]. split; [apply NoDup_singleton|]. intros c ->%list_elem_of_singleton. exists cl2. apply Hcl. by right.
Qed.

Lemma sample_clients (m : gmap Z client) a b c cl : <[1:=a]> (<[2:=b]> ∅) = m -> m !! c = Some cl <-> (c = 1 /\ cl = a) \/ (c = 2 /\ cl = b).
Proof. intros <-. rewrite !lookup_insert_Some, lookup_empty. naive_solver. Qed.

Lemma s0_watch_ok : watch_ok s0.
Proof. apply (sample_watch_ok s0 (Client 0 false false false false [] [WatchedKey o_watch 0] [])); try done. intros. by apply sample_clients. Qed.

Lemma s_multi_watch_ok : watch_ok s_multi.
Proof.
  apply (sample_watch_ok s_multi in_multi); try done. intros. apply sample_clients. vm_compute. reflexivity.
Qed.

(** WATCH of "n" and "a" by client 1. *)
Lemma watchCommand_watches_witness :
  exists s' cl', watchCommand 1 [o_cmd; o_n; o_a] s0 = Some ([o_cmd; o_n; o_a], s') /\
    lock_step ([o_cmd; o_n; o_a] ++ [o_xy; o_one; o_max; o_z])%list s0 s' /\
    clients s' = <[1 := says [R_ok] cl']> (clients s0) /\ cl' = set_watched (watched cl') client0 /\
    (forall k d, d ∈ watchers s' k <-> d ∈ watchers s0 k \/ (d = 1 /\ k ∈ pair 0 <$> [[110]; [97]])).
Proof.
  apply (watchCommand_watches s0 1 client0 [o_cmd; o_n; o_a] [o_xy; o_one; o_max; o_z] [[110]; [97]]).
  - reflexivity.
  - reflexivity.
  - exact s0_watch_ok.
  - intros c cl wk Hc Hwk. apply (sample_clients _ client0 (Client 0 false false false false [] [WatchedKey o_watch 0] [])) in Hc as [[-> ->]|[-> ->]];
      [by apply elem_of_nil in Hwk| |done]. apply list_elem_of_singleton in Hwk as ->. exists [97]. split; reflexivity.
  - apply store_check_sound. vm_compute. reflexivity.
  - repeat constructor.
Defined.

(** The key "a" is touched before client 2 calls EXEC. *)
Lemma watched_key_aborts_exec_witness :
  exists s1, signalModifiedKey 0 [97] s_multi = Some (tt, s1) /\
    exists s3, execCommand 2 [o_cmd] s1 = Some ([o_cmd], s3) /\
      clients s3 !! 2 = Some (says [R_nullmultibulk] (reset (set_dirty_cas true in_multi))).
Proof.
  destruct (watched_key_aborts_exec s_multi [o_cmd; o_a; o_one; o_max; o_z] 0 [97]) as (s1 & Hrun & Hst & Hwo & Hok & Hcl & Hexec).
  - exact s_multi_watch_ok.
  - apply store_check_sound. vm_compute. reflexivity.
  - exists s1. split; [exact Hrun|].
    assert (clients s1 !! 2 = Some (set_dirty_cas true in_multi)) as H2.
    { rewrite Hcl. rewrite decide_True; [reflexivity|]. vm_compute. constructor. }
    destruct (Hexec s1 2 _ [o_cmd] [o_a; o_one; o_max; o_z] H2) as (s3 & Hex & _ & Hc3 & _); [reflexivity|reflexivity|exact Hwo|exact Hok|].
    exists s3. split; [exact Hex|]. rewrite Hc3. apply lookup_insert_eq.
Defined.
End Applied.
